(* ===== verification/_CoqProject ===== *)
-Q . S2P
Prelude.v
Chains.v
BPlusPage.v
BPlusPageFacts.v
BPlusTree.v
BPlusTreeFacts.v
BPlusInsert.v
BPlusProps.v
SqlOs.v
SqlOsFacts.v
CacheIface.v
PCache1.v
PCache1Facts.v
Pager.v
PagerFacts.v
PagerProps.v
Buckets.v
McHash.v
McHashFacts.v
McHashProps.v
RedisDict.v
RedisDictFacts.v
RedisIter.v
RedisDictProps.v
McSlab.v
McSlabFacts.v
McSlabProps.v
NgxSlab.v
NgxSlabFacts.v
NgxSlabProps.v
GbStream.v
GbStreamProps.v
GbResp.v
GbRespProps.v
GbPool.v
GbClient.v
GbMgr.v
GbSpec.v
GbMgrFacts.v
GbLink.v
GbToy.v
GbClientProps.v
GbRestorer.v
GbStore.v
GbMgrProps.v
GbRestorerFacts.v
GbRestorerProps.v
Rings.v
LruCache.v
LruSpec.v
LruFacts.v
LruTable.v
LruWf.v
LruInv.v
LruOps.v
LruInsert.v
LruSys.v
LruEnd.v
LruLongKeys.v
LruProps.v
HeapBlocks.v
Arena.v
ArenaProps.v
SkipLevels.v
SkipList.v
SkipFacts.v
SkipOps.v
SkipProps.v
SkipLite.v
SkipLiteFacts.v
SkipLiteEnd.v
SkipLiteProps.v
NgxPool.v
NgxPoolFacts.v
NgxPoolLists.v
NgxPoolProps.v
GbCluster.v
GbClusterFacts.v
GbClusterProps.v
GbClusterKeys.v
