(* ===== verification/Prelude.v ===== *)
(** * The storage components of backend_programming, verified

    The repository collects the building blocks of a storage backend.  This development models
    the ones that carry logic of their own, from the sources, and proves what makes them correct,
    and, where the code falls short of that, exactly how.

    ** Parts, sources and files

    - [Prelude] (shared): how C code ends ([result], [fault]), the state monad [M], machine
      integers ([wrapu], [wraps]), little-endian bytes, byte windows of buffers ([rd], [wr]).
      [Chains]: pointer chains in a heap.  [Buckets]: hash buckets as such chains.
    - B+ tree, sqlite_demo/tree/BPlusTree.c: [BPlusPage] (a node as the bytes of its page: cells,
      compaction, insertion and removal), [BPlusTree] (the heap of nodes, search, insertion with
      splits); [BPlusPageFacts], [BPlusTreeFacts], [BPlusInsert] (invariants), [BPlusProps].
    - Pager, sqlite_demo/os, pager and include: [SqlOs] (open files, the vfs and method tables,
      file operations over the class [Posix] of system calls), [PCache1] (the page cache plug-in:
      hash table and list of released pages), [Pager] (pcache.c and pager.c: reference counts,
      dirty list, commit); [CacheIface] is what the pager needs of a cache and what the plug-in
      provides; [SqlOsFacts], [PCache1Facts], [PagerFacts], [PagerProps].
    - memcached hash table, memcached_hashtable/memcached_hashtable.c: [McHash], [McHashFacts],
      [McHashProps].  redis dictionary, memcached_hashtable/redis_hashtable.c: [RedisDict],
      [RedisDictFacts], [RedisIter] (iterators), [RedisDictProps].
    - Slab allocators, memcached_slab/memcached_slab.c: [McSlab], [McSlabFacts], [McSlabProps];
      memcached_slab/ngx_slab.c: [NgxSlab], [NgxSlabFacts], [NgxSlabProps].
    - LRU cache, ComponentsW/cache.leveldb/cache.cpp with common/Slice.h and common/hash.cpp:
      [LruCache] (handles laid out in bytes, the hash table, the two lists, sixteen shards),
      [LruSpec] (what it promises) and [LruWf]; [Rings] (circular lists), [LruFacts] (lists),
      [LruTable] (hash table), [LruInv], [LruOps] and [LruInsert] (one shard), [LruSys] (all
      shards), [LruEnd] (construction, destruction), [LruLongKeys], [LruProps].
    - Arena and skip lists, ComponentsW/common/arena.cpp and ComponentsW/skiplist.leveldb:
      [HeapBlocks] (the process heap as blocks), [Arena] and [ArenaProps]; [SkipLevels] (the loops
      over levels that the lists share), [SkipList] (skiplist_iterator.h), [SkipFacts], [SkipOps]
      (with the specification, a sorted set with a cursor), [SkipProps]; [SkipLite] (skiplist_lite.cpp, the
      first version with a tail node), [SkipLiteFacts], [SkipLiteEnd] (destruction), [SkipLiteProps].
    - nginx memory pool, ngx_pool/ngx_palloc.cpp: [NgxPool] (blocks, large requests, cleanup handlers and
      those for files), [NgxPoolFacts], [NgxPoolLists], [NgxPoolProps].
    - GB data restorer, gb/downdatarestorer_norah: [GbStream] (dbstream.cpp and the records
      Device, Channel, ExecutingInviteCmd), [GbStreamProps]; [GbResp] (redisbase.cpp and the
      receiving half of redisconnection.cpp: the redis protocol), [GbRespProps]; [GbPool]
      (rediscluster.cpp and the rest of redisconnection.cpp: connections and their pool, over the
      class [Net] of sockets and the clock), [GbClient] (redisclient.cpp in stand-alone mode:
      commands, replies, transactions, initialisation), [GbCluster] (redisclient.cpp in cluster
      mode and redis_client_util.cpp: slots, the tables of nodes and slots, redirections and
      stand-ins, the thread that follows the cluster, over the class [Nodes] of nodes) with
      [GbClusterFacts] (parsing), [GbClusterProps] and [GbClusterKeys] (operations on many keys and
      locks on keys, with their theorems), [GbMgr] (devicemgr.cpp, channelmgr.cpp and
      executinginvitecmdmgr.cpp, over the interface [RedisApi] of a client), [GbRestorer]
      (downdatarestorer.cpp: the operation queue, the background thread, start and stop, as a step
      relation).  [GbSpec] states the laws of a client ([RedisLaws]) over a redis database;
      [GbLink] derives them for [GbClient] from those of a server ([RedisServer]); [GbMgrFacts]
      proves the managers against them; [GbStore] and [GbRestorerFacts] do so for the restorer;
      [GbToy] is a server that runs, for the witnesses.  [GbClientProps], [GbMgrProps] and
      [GbRestorerProps] state the properties.

    Each component is a Module of definitions whose names are those of the source; its state is a
    Record (the heap of structs, the C globals), its operations are computations in [M] over that
    state, its [NULL]s, assertions and undefined accesses are values of [fault].  The definitions
    compute, and the witnesses at the end of the [Props] files evaluate them.

    ** What the theorems show

    - B+ tree: search implements a finite map on every well-formed tree, and so does insertion of
      records of up to 30 bytes; leaf and internal pages keep their records through compaction;
      and two errors: the one-byte fragment counter wraps for larger records, a record of the
      size of the free space is lost.
    - Pager: every session that follows the protocol sees the pages of a specification
      (refinement, through cache and file) when the memory of the cache's table reads as zero,
      and the first read follows a wild pointer when it does not, since the table is not
      cleared; a commit is durable, the cache plug-in refines its interface, and the errors of
      the first read, dirty releases, short reads, extra bytes.
    - Hash tables: memcached's refines a finite map while it grows incrementally, and the growth
      ends.  The redis one does so up to the end of its first rehash, for new tables whose memory
      is zero (it does not clear them); from then on its counter is wrong, and every insertion is
      refused or every lookup fails.
    - Slabs: chunks and page runs of clients never overlap, whatever the clients ask for and
      release, but for addresses right behind nginx's pages, which its check lets through;
      releasing restores the pool; size arithmetic that wraps; the page kinds that do not work.
    - LRU cache: for keys of one to eight bytes it refines sixteen least-recently-used tables with
      reference counts, for clients that choose their calls as they go; its lists hold what their comments say; the charges fit
      the capacity or nothing can be evicted; every entry is disposed of once; and keys of more
      than eight bytes overwrite their handle.
    - Arena and nginx pool: what they hand out is aligned, pairwise apart and inside blocks of
      their own, and a request is refused only when the heap refuses what it needs; their end gives back all they took, and runs every cleanup handler once; and the
      pool sizes for which memory behind a block is handed out.
    - Skip lists: for every outcome of [rand] the list on an arena is a sorted set with a cursor;
      the first version is a set until something is removed, which deletes the wrong node.
    - GB restorer: records are read back from their streams; the reply parser gives the same
      reply for every cut of its bytes into reads, except for arrays of integers, which it loses;
      commands are the encoding that the parser reads, within their buffers.  The client reads
      back what it stores through the whole stack; the restorer is a write-behind store that
      applies what it accepts in order (a read that goes over the workers one by one sees each
      as it was at a moment of the read), drains its queue and does not fail, while it is started
      once and not uninitialised; and what it loses: a second start, a wake-up, a connection in use for ten seconds or
      inside a transaction, an empty id, the keys of more than ten workers.
    - Cluster mode: the checksum is the CRC that redis cluster uses; the description of a cluster
      is read back as redis prints it, but for slots that stand alone and masters without slots;
      without those the slot table leads every slot to its master, at the start and after a round
      of the checking thread; a command follows redirections to the owner of its slot, reads go
      to stand-ins when it is down, and every command comes back when its replies can be read; a
      scan gives all pages of all masters, whatever their cursors; and the update that leaves the
      table incomplete, the scan of a stand-in that does not end, the lock that redirections
      defeat.

    ** Parameters, bounds and fuel

    System calls, [malloc] and [operator new], hash functions, the wake-up signal of the
    maintenance thread, the fresh contents of memory, floating-point growth factors and the
    socket's reads are parameters, with their documented behaviour as named hypotheses or laws of
    a class; the witnesses instantiate them.  Fuel appears where a C loop is not structural: the
    height of the tree, the number of live structs (a chain without a cycle is not longer), the
    number of free runs, the bytes of a buffer or of a text, the known nodes times their
    stand-ins (a redirection is never followed twice).  Loops that need not end, those of a scan
    and of a command under a lock, have their fuel as an argument.  The theorems that matter say that the operation
    returns with the fuel its definition gives it.

    ** Not modelled

    Locks and threads appear as the order of operations under the lock that the code holds
    (memcached's maintenance thread is an event of its own); the restorer's threads interleave
    between locks, waits and reads of shared flags; a call of a manager is a step, and a loop over
    the workers, which locks one at a time, a step for each of them.  The redis client's sentinel mode is left out, and so is the copy of the restorer under
    gb_down_linker.  The other versions of the skip list, of
    the cache and of the slab pool repeat the ones that are modelled.  The timers
    are short wrappers of standard containers around user functions, and the timer wheel does not
    compile.  Printing, logging and the test drivers are I/O.  BPlusTreeForPager.c and
    RecordHandle.c are unfinished and do not compile.
    The log4cxx headers under gb/bak and the protobuf output are third-party or generated code;
    the nginx modules, libevent, websocket and socket demos are glue around libraries that are
    not in the repository.  The manifest lists every part. *)

From stdpp Require Export base tactics list numbers gmap sorting.
From stdpp Require Import options.
#[export] Set Default Goal Selector "!".

#[global] Open Scope Z_scope.

(** * How a C computation ends *)

(** A C function either returns, or stops the program: [exit], a failed [assert],
    an access the language leaves undefined, an allocation that fails inside
    [operator new], or (for a model that recurses on fuel) fuel that ran out. *)
Inductive fault :=
  | FExit (status : Z)
  | FAssert
  | FUndef
  | FNoMem
  | FFuel.

#[global] Instance fault_eq_dec : EqDecision fault.
Proof. solve_decision. Defined.

Inductive result (A : Type) :=
  | Ok (a : A)
  | Err (f : fault).
Arguments Ok {A} a.
Arguments Err {A} f.

#[global] Instance result_ret : MRet result := λ A a, Ok a.
#[global] Instance result_bind : MBind result := λ A B f r,
  match r with Ok a => f a | Err e => Err e end.
#[global] Instance result_fmap : FMap result := λ A B f r,
  match r with Ok a => Ok (f a) | Err e => Err e end.

(** [assert(b)] of <assert.h>. *)
Definition assert_ (b : bool) : result unit := if b then Ok tt else Err FAssert.

(** A pointer is dereferenced or an array cell read: undefined when absent. *)
Definition deref {A} (o : option A) : result A :=
  match o with Some a => Ok a | None => Err FUndef end.

(** Stateful code: explicit state passing with the same ways to stop. *)
Definition M (S A : Type) : Type := S → result (A * S).

#[global] Instance M_ret {S} : MRet (M S) := λ A a s, Ok (a, s).
#[global] Instance M_bind {S} : MBind (M S) := λ A B f m s,
  match m s with Ok (a, s') => f a s' | Err e => Err e end.

Definition lift {S A} (r : result A) : M S A := λ s,
  match r with Ok a => Ok (a, s) | Err e => Err e end.
Definition fail {S A} (f : fault) : M S A := λ _, Err f.
Definition get {S} : M S S := λ s, Ok (s, s).
Definition put {S} (s : S) : M S unit := λ _, Ok (tt, s).
Definition modify {S} (f : S → S) : M S unit := λ s, Ok (tt, f s).

Section steps.
Context {S A B : Type}.
Implicit Types (m : M S A) (f : A → M S B) (s : S).

Lemma bind_ok m f s a s' : m s = Ok (a, s') → (m ≫= f) s = f a s'.
Proof. intros H. unfold mbind, M_bind. by rewrite H. Qed.

Lemma bind_lift r f s a : r = Ok a → (lift r ≫= f) s = f a s.
Proof. intros ->. done. Qed.

Lemma bind_modify (h : S → S) (g : unit → M S B) s : (modify h ≫= g) s = g tt (h s).
Proof. done. Qed.

Lemma bind_get (g : S → M S B) s : (get ≫= g) s = g s s.
Proof. done. Qed.
End steps.

(** * Machine integers *)

Definition wrapu (w x : Z) : Z := x mod 2 ^ w.
Definition wraps (w x : Z) : Z :=
  let y := x mod 2 ^ w in if y <? 2 ^ (w - 1) then y else y - 2 ^ w.

Abbreviation u8 := (wrapu 8).
Abbreviation u16 := (wrapu 16).
Abbreviation u32 := (wrapu 32).
Abbreviation u64 := (wrapu 64).
Abbreviation s16 := (wraps 16).
Abbreviation s32 := (wraps 32).
Abbreviation s64 := (wraps 64).

Lemma wrapu_small w x : 0 ≤ x < 2 ^ w → wrapu w x = x.
Proof. intros. unfold wrapu. by apply Z.mod_small. Qed.

Lemma wrapu_range w x : 0 ≤ w → 0 ≤ wrapu w x < 2 ^ w.
Proof. intros. apply Z.mod_pos_bound. apply Z.pow_pos_nonneg; lia. Qed.

Lemma pow2_split w : 0 < w → 2 ^ w = 2 * 2 ^ (w - 1).
Proof.
  intros. rewrite <-(Z.pow_succ_r 2) by lia. f_equal. lia.
Qed.

Lemma wraps_small w x : 0 < w → - 2 ^ (w - 1) ≤ x < 2 ^ (w - 1) → wraps w x = x.
Proof.
  intros Hw Hx. unfold wraps. pose proof (pow2_split w Hw).
  assert (0 < 2 ^ (w - 1)) by (apply Z.pow_pos_nonneg; lia).
  destruct (decide (0 ≤ x)).
  - rewrite Z.mod_small by lia. case_match; lia.
  - assert (x mod 2 ^ w = x + 2 ^ w) as ->.
    { symmetry. apply (Z.mod_unique_pos _ _ (-1)); lia. }
    case_match; lia.
Qed.

(** Reinterpreting a signed value as unsigned forgets the sign extension. *)
Lemma wrapu_wraps w x : 0 < w → wrapu w (wraps w x) = wrapu w x.
Proof.
  intros Hw. assert (0 < 2 ^ w) by (apply Z.pow_pos_nonneg; lia).
  unfold wrapu, wraps. case_match.
  - by rewrite Zmod_mod.
  - replace (x mod 2 ^ w - 2 ^ w) with (x mod 2 ^ w + (-1) * 2 ^ w) by lia.
    rewrite Z_mod_plus_full. by rewrite Zmod_mod.
Qed.

(** * Bytes and buffers *)

Definition byte_ok (b : Z) : Prop := 0 ≤ b < 256.

(** The [n] low-order bytes of [v], least significant first, and back. *)
Fixpoint le_bytes (n : nat) (v : Z) : list Z :=
  match n with
  | O => []
  | S n => v mod 256 :: le_bytes n (v / 256)
  end.

Fixpoint le_dec (l : list Z) : Z :=
  match l with
  | [] => 0
  | b :: l => b + 256 * le_dec l
  end.

Lemma length_le_bytes n v : length (le_bytes n v) = n.
Proof. revert v. induction n; intros; simpl; by f_equal. Qed.

Lemma le_bytes_ok n v : Forall byte_ok (le_bytes n v).
Proof.
  revert v. induction n as [|n IH]; intros v; constructor; [|apply IH].
  apply Z.mod_pos_bound. lia.
Qed.

Lemma le_dec_le_bytes n v : le_dec (le_bytes n v) = v mod 2 ^ (8 * Z.of_nat n).
Proof.
  revert v. induction n as [|n IH]; intros v.
  - simpl. by rewrite Z.mod_1_r.
  - cbn [le_bytes le_dec]. rewrite IH.
    replace (8 * Z.of_nat (S n)) with (8 + 8 * Z.of_nat n) by lia.
    rewrite Z.pow_add_r by lia. change (2 ^ 8) with 256.
    assert (0 < 2 ^ (8 * Z.of_nat n)) by (apply Z.pow_pos_nonneg; lia).
    rewrite Z.rem_mul_r by lia. lia.
Qed.

Lemma le_bytes_mod n v : le_bytes n (v mod 2 ^ (8 * Z.of_nat n)) = le_bytes n v.
Proof.
  revert v. induction n as [|n IH]; intros v; [done|].
  cbn [le_bytes].
  replace (8 * Z.of_nat (S n)) with (8 + 8 * Z.of_nat n) by lia.
  rewrite Z.pow_add_r by lia. change (2 ^ 8) with 256.
  assert (0 < 2 ^ (8 * Z.of_nat n)) by (apply Z.pow_pos_nonneg; lia).
  rewrite Z.rem_mul_r by lia. f_equal.
  - rewrite Z.mul_comm, Z_mod_plus_full. by rewrite Zmod_mod.
  - rewrite <-(IH (v / 256)). f_equal.
    rewrite Z.mul_comm, Z.div_add by lia.
    rewrite (Z.div_small (v mod 256)); [lia|]. apply Z.mod_pos_bound; lia.
Qed.

#[global] Arguments le_bytes : simpl never.
#[global] Arguments le_dec : simpl never.

(** [memcpy] out of and into a buffer held as a list of bytes. *)
Definition rd {A} (l : list A) (off n : nat) : list A := take n (drop off l).
Definition wr {A} (l : list A) (off : nat) (bs : list A) : list A :=
  take off l ++ bs ++ drop (off + length bs) l.

Section buffers.
Context {A : Type}.
Implicit Types l bs : list A.

Lemma length_wr l off bs :
  (off + length bs ≤ length l)%nat → length (wr l off bs) = length l.
Proof. intros. unfold wr. rewrite !length_app, length_take, length_drop. lia. Qed.

Lemma length_rd l off n : (off + n ≤ length l)%nat → length (rd l off n) = n.
Proof. intros. unfold rd. rewrite length_take, length_drop. lia. Qed.

Lemma rd_lookup l off n i : (i < n)%nat → rd l off n !! i = l !! (off + i)%nat.
Proof. intros. unfold rd. by rewrite lookup_take_lt, lookup_drop by lia. Qed.

Lemma wr_lookup l off bs i :
  (off + length bs ≤ length l)%nat →
  wr l off bs !! i =
    if decide (off ≤ i < off + length bs)%nat then bs !! (i - off)%nat else l !! i.
Proof.
  intros Hl. unfold wr. case_decide.
  - rewrite lookup_app_r; rewrite ?length_take; [|lia].
    rewrite lookup_app_l by lia. f_equal. lia.
  - destruct (decide (i < off)%nat).
    + rewrite lookup_app_l by (rewrite length_take; lia). rewrite lookup_take_lt; auto.
    + rewrite lookup_app_r; rewrite ?length_take; [|lia].
      rewrite lookup_app_r by lia. rewrite lookup_drop. f_equal. lia.
Qed.

Lemma rd_wr_eq l off bs n :
  n = length bs → (off + length bs ≤ length l)%nat → rd (wr l off bs) off n = bs.
Proof.
  intros -> Hl. apply list_eq. intros i.
  destruct (decide (i < length bs)%nat).
  - rewrite rd_lookup, wr_lookup by lia. case_decide; [|lia]. f_equal. lia.
  - rewrite !lookup_ge_None_2; [done|lia|]. rewrite length_rd; [lia|].
    by rewrite length_wr.
Qed.

Lemma rd_wr_ne l off off' bs n :
  (off + length bs ≤ length l)%nat →
  (off' + n ≤ off ∨ off + length bs ≤ off')%nat →
  rd (wr l off bs) off' n = rd l off' n.
Proof.
  intros Hl Hd. apply list_eq. intros i.
  destruct (decide (i < n)%nat).
  - rewrite !rd_lookup, wr_lookup by lia. by case_decide; [lia|].
  - unfold rd. rewrite !lookup_take_ge by lia. done.
Qed.

Lemma rd_wr_in l off bs off' n :
  (off + length bs ≤ length l)%nat → (off ≤ off')%nat → (off' + n ≤ off + length bs)%nat →
  rd (wr l off bs) off' n = rd bs (off' - off) n.
Proof.
  intros Hl H1 H2. apply list_eq. intros i.
  destruct (decide (i < n)%nat).
  - rewrite !rd_lookup, wr_lookup by lia. case_decide; [|lia]. f_equal. lia.
  - unfold rd. rewrite !lookup_take_ge by lia. done.
Qed.

Lemma rd_sub l off n off' n' :
  (off' + n' ≤ n)%nat → rd (rd l off n) off' n' = rd l (off + off') n'.
Proof.
  intros H. apply list_eq. intros i.
  destruct (decide (i < n')%nat).
  - rewrite !rd_lookup by lia. f_equal. lia.
  - unfold rd. rewrite !lookup_take_ge by lia. done.
Qed.

Lemma rd_app_l bs1 bs2 n : n = length bs1 → rd (bs1 ++ bs2) 0 n = bs1.
Proof. intros ->. unfold rd. by rewrite drop_0, take_app_length. Qed.

Lemma rd_app_r bs1 bs2 off n :
  rd (bs1 ++ bs2) (length bs1 + off) n = rd bs2 off n.
Proof. unfold rd. rewrite <-drop_drop. by rewrite drop_app_length. Qed.

Lemma rd_all l n : n = length l → rd l 0 n = l.
Proof. intros ->. unfold rd. by rewrite drop_0, firstn_all. Qed.

Lemma wr_Forall (P : A → Prop) l off bs :
  Forall P l → Forall P bs → Forall P (wr l off bs).
Proof.
  intros. unfold wr. rewrite !Forall_app.
  eauto using Forall_take, Forall_drop.
Qed.

Lemma rd_Forall (P : A → Prop) l off n : Forall P l → Forall P (rd l off n).
Proof. intros. by apply Forall_take, Forall_drop. Qed.

Lemma wr_app l off bs1 bs2 :
  (off + length bs1 + length bs2 ≤ length l)%nat →
  wr (wr l off bs1) (off + length bs1) bs2 = wr l off (bs1 ++ bs2).
Proof.
  intros Hl. apply list_eq. intros i.
  rewrite !wr_lookup; rewrite ?length_app, ?length_wr; try lia.
  repeat case_decide; try lia; try done.
  - rewrite lookup_app_r by lia. f_equal. lia.
  - by rewrite lookup_app_l by lia.
Qed.

Lemma wr_app_rev l off bs1 bs2 :
  (off + length bs1 + length bs2 ≤ length l)%nat →
  wr (wr l (off + length bs1) bs2) off bs1 = wr l off (bs1 ++ bs2).
Proof.
  intros Hl. apply list_eq. intros i.
  rewrite !wr_lookup; rewrite ?length_app, ?length_wr; try lia.
  repeat case_decide; try lia; try done.
  - by rewrite lookup_app_l by lia.
  - rewrite lookup_app_r by lia. f_equal. lia.
Qed.

Lemma wr_nil l off : wr l off [] = l.
Proof. unfold wr. simpl. by rewrite Nat.add_0_r, take_drop. Qed.

Lemma rd_app l off n1 n2 : rd l off n1 ++ rd l (off + n1) n2 = rd l off (n1 + n2).
Proof. unfold rd. by rewrite <-drop_drop, take_take_drop. Qed.
End buffers.

(** * Inserting into and removing from a list at an index *)

Definition insert_at {A} (i : nat) (x : A) (l : list A) : list A :=
  take i l ++ x :: drop i l.

Section insert_at.
Context {A : Type}.
Implicit Types l : list A.

Lemma length_insert_at i x l : length (insert_at i x l) = S (length l).
Proof.
  unfold insert_at. rewrite length_app. simpl. rewrite length_take, length_drop. lia.
Qed.

Lemma lookup_insert_at i x l j :
  (i ≤ length l)%nat →
  insert_at i x l !! j =
    if decide (j < i)%nat then l !! j
    else if decide (j = i) then Some x else l !! (j - 1)%nat.
Proof.
  intros Hi. unfold insert_at. repeat case_decide; subst.
  - rewrite lookup_app_l by (rewrite length_take; lia). by rewrite lookup_take_lt.
  - rewrite lookup_app_r by (rewrite length_take; lia).
    rewrite length_take. by replace (i - i `min` length l)%nat with 0%nat by lia.
  - rewrite lookup_app_r by (rewrite length_take; lia). rewrite length_take.
    destruct (j - i `min` length l)%nat as [|m] eqn:E; [lia|].
    simpl. rewrite lookup_drop. f_equal. lia.
Qed.

Lemma insert_at_Forall (P : A → Prop) i x l :
  P x → Forall P l → Forall P (insert_at i x l).
Proof.
  intros. unfold insert_at. rewrite Forall_app, Forall_cons.
  eauto using Forall_take, Forall_drop.
Qed.

Lemma lookup_delete_list l i j :
  delete i l !! j = if decide (j < i)%nat then l !! j else l !! S j.
Proof.
  case_decide; [by apply list_lookup_delete_lt|by apply list_lookup_delete_ge; lia].
Qed.
End insert_at.

Lemma elem_of_concat {A} (x : A) (ls : list (list A)) :
  x ∈ concat ls ↔ ∃ l, x ∈ l ∧ l ∈ ls.
Proof.
  rewrite list_elem_of_In, in_concat. split.
  - intros (l & ? & ?). exists l. by rewrite !list_elem_of_In.
  - intros (l & ?%list_elem_of_In & ?%list_elem_of_In). eauto.
Qed.

(** * Tactics of the development *)

(** Unfold the monads' binds. *)
Ltac munfold :=
  unfold mbind, mret, fmap, M_bind, M_ret, result_bind, result_ret, result_fmap,
    lift, fail, get, put, modify, assert_, deref in *.

(** Rewrite with the known value of a sub-computation and continue. *)
Ltac mrun H := rewrite H; cbn [mbind mret M_bind M_ret result_bind result_ret lift].

(** Run the first computation of a bind, known from [H]. *)
Ltac mstep H :=
  first [rewrite (bind_ok _ _ _ _ _ H) | rewrite (bind_lift _ _ _ _ H)];
  cbv beta; cbn [negb orb andb fst snd].

(** Decide the pointer and integer tests of a branch from the context. *)
Ltac zneq a b := rewrite (proj2 (Z.eqb_neq a b)) by (done || lia || congruence); cbn [negb orb andb].

(** Turn boolean integer tests into propositions. *)
Ltac zbool :=
  repeat match goal with
  | H : context [Z.ltb ?a ?b] |- _ => destruct (Z.ltb_spec a b)
  | H : context [Z.leb ?a ?b] |- _ => destruct (Z.leb_spec a b)
  | H : context [Z.eqb ?a ?b] |- _ => destruct (Z.eqb_spec a b)
  | |- context [Z.ltb ?a ?b] => destruct (Z.ltb_spec a b)
  | |- context [Z.leb ?a ?b] => destruct (Z.leb_spec a b)
  | |- context [Z.eqb ?a ?b] => destruct (Z.eqb_spec a b)
  end.

Create HintDb csem.
Create Rewrite HintDb csem.
#[export] Hint Resolve le_bytes_ok wr_Forall rd_Forall insert_at_Forall : csem.
#[export] Hint Rewrite length_le_bytes : csem.
