(* ===== verification/Chains.v ===== *)
(** Null-terminated linked lists in a C heap, shared by the open-file list, the page-cache
    chains and the hash tables: [chain nx p l] says that following [nx] from [p] visits the
    nodes [l] and ends at the null pointer. *)

From S2P Require Import Prelude.
From stdpp Require Import options.

(** [scan] is the loop [for(; p && !stop(p); p = p->next)] together with the link it came
    through: it returns the last node passed (0 when the link is the list head itself) and the
    node it stopped at (0 when it ran off the end). *)
Fixpoint scan (fuel : nat) (nx : Z → option Z) (stop : Z → option bool) (prev p : Z)
    : result (Z * Z) :=
  if p =? 0 then Ok (prev, 0) else
  match stop p with
  | None => Err FUndef
  | Some true => Ok (prev, p)
  | Some false =>
      match nx p with
      | None => Err FUndef
      | Some q => match fuel with O => Err FFuel | S f => scan f nx stop p q end
      end
  end.

Fixpoint seg (nx : Z → option Z) (p : Z) (l : list Z) (q : Z) : Prop :=
  match l with
  | [] => p = q
  | a :: l => p = a ∧ a ≠ 0 ∧ ∃ r, nx a = Some r ∧ seg nx r l q
  end.

Abbreviation chain nx p l := (seg nx p l 0).

(** The node whose [next] field is the link to what follows [l]; 0 is the list head. *)
Definition link_of (prev : Z) (l : list Z) : Z := default prev (last l).

(** The first node of a chain, or its end. *)
Definition first (e : Z) (m : list Z) : Z := default e (head m).

Section chains.
Implicit Types (nx : Z → option Z) (l : list Z).

Lemma seg_app nx p l1 l2 q :
  seg nx p (l1 ++ l2) q ↔ ∃ r, seg nx p l1 r ∧ seg nx r l2 q.
Proof.
  revert p. induction l1 as [|a l1 IH]; intros p; simpl.
  - naive_solver.
  - setoid_rewrite IH. naive_solver.
Qed.

Lemma seg_frame nx nx' p l q :
  seg nx p l q → (∀ a, a ∈ l → nx' a = nx a) → seg nx' p l q.
Proof.
  revert p. induction l as [|a l IH]; intros p; simpl; [done|].
  intros (-> & H0 & r & Hr & Hs) Hf. split_and!; [done|done|]. exists r. split.
  - rewrite Hf by set_solver. done.
  - apply IH; [done|]. intros. apply Hf. set_solver.
Qed.

Lemma chain_nonzero nx p l a : chain nx p l → a ∈ l → a ≠ 0.
Proof.
  revert p. induction l as [|b l IH]; intros p; [set_solver|].
  simpl. intros (-> & H0 & r & _ & Hs) [->|]%elem_of_cons; [done|eauto].
Qed.

Lemma chain_next nx p l a : chain nx p l → a ∈ l → is_Some (nx a).
Proof.
  revert p. induction l as [|b l IH]; intros p; [set_solver|].
  simpl. intros (-> & H0 & r & Hr & Hs) [->|]%elem_of_cons; [eauto|eauto].
Qed.

Lemma chain_det nx p l l' : chain nx p l → chain nx p l' → l = l'.
Proof.
  revert p l'. induction l as [|a l IH]; intros p [|b l']; simpl.
  - done.
  - intros ->. naive_solver.
  - intros (-> & ? & _) ?. naive_solver.
  - intros (-> & _ & r & Hr & Hs) (<- & _ & r' & Hr' & Hs'). f_equal.
    simplify_eq. by eapply IH.
Qed.

Lemma chain_zero nx l : chain nx 0 l → l = [].
Proof. destruct l; [done|]. simpl. naive_solver. Qed.

Lemma chain_cons nx p l : chain nx p l → p ≠ 0 → ∃ r l', l = p :: l' ∧ nx p = Some r ∧ chain nx r l'.
Proof. destruct l; simpl; [done|]. intros (-> & ? & r & ? & ?) _. eauto 10. Qed.

(** A null-terminated list never visits a node twice. *)
Lemma chain_NoDup nx p l : chain nx p l → NoDup l.
Proof.
  revert p. induction l as [|a l IH]; intros p; [constructor|].
  intros Hc. pose proof Hc as (-> & H0 & r & Hr & Hs). constructor; [|by eapply IH].
  intros (l1 & l2 & ->)%list_elem_of_split.
  apply seg_app in Hs as (b & _ & Hs). pose proof Hs as (-> & _).
  pose proof (chain_det _ _ _ _ Hc Hs) as Heq. apply (f_equal length) in Heq.
  simpl in Heq. rewrite length_app in Heq. simpl in Heq. lia.
Qed.

(** Nodes of a chain are allocated, so a chain is no longer than the heap is large. *)
Lemma chain_le_size {A} (m : gmap Z A) nx p l :
  chain nx p l → (∀ a, is_Some (nx a) → is_Some (m !! a)) → (length l ≤ size m)%nat.
Proof.
  intros Hc Hm. pose proof (chain_NoDup _ _ _ Hc) as Hnd.
  rewrite <-(size_dom (D := gset Z)).
  rewrite <-(size_list_to_set (C := gset Z) l) by done.
  apply subseteq_size. intros a Ha. apply elem_of_list_to_set in Ha.
  apply elem_of_dom, Hm. by eapply chain_next.
Qed.

Lemma link_of_cons prev a l : link_of prev (a :: l) = link_of a l.
Proof. unfold link_of. destruct l as [|b l]; [done|]. simpl. by destruct (last_is_Some (b :: l)) as [_ [? ->]]. Qed.

Lemma link_of_in prev l : link_of prev l = prev ∧ l = [] ∨ link_of prev l ∈ l.
Proof.
  revert prev. induction l as [|a l IH]; intros prev; [by left|]. right.
  rewrite link_of_cons. destruct (IH a) as [[-> _]|]; set_solver.
Qed.

(** What the loop finds: the first node that satisfies the test, or the end. *)
Lemma scan_hit nx stop fuel prev p l1 a l2 :
  chain nx p (l1 ++ a :: l2) → (length l1 ≤ fuel)%nat →
  (∀ b, b ∈ l1 → stop b = Some false) → stop a = Some true →
  scan fuel nx stop prev p = Ok (link_of prev l1, a).
Proof.
  revert fuel prev p. induction l1 as [|b l1 IH]; intros fuel prev p Hc Hf Hl Ha.
  - destruct Hc as (-> & H0 & _). destruct fuel; simpl; rewrite (proj2 (Z.eqb_neq _ _)), Ha by done; done.
  - simpl in Hc. destruct Hc as (-> & H0 & r & Hr & Hs). simpl in Hf. destruct fuel as [|fuel]; [lia|].
    simpl. rewrite (proj2 (Z.eqb_neq _ _)) by done. rewrite Hl by set_solver. rewrite Hr.
    rewrite link_of_cons. apply IH; [done|lia|set_solver|done].
Qed.

Lemma scan_miss nx stop fuel prev p l :
  chain nx p l → (length l ≤ fuel)%nat → (∀ b, b ∈ l → stop b = Some false) →
  scan fuel nx stop prev p = Ok (link_of prev l, 0).
Proof.
  revert fuel prev p. induction l as [|b l IH]; intros fuel prev p Hc Hf Hl.
  - simpl in Hc. subst. by destruct fuel.
  - simpl in Hc. destruct Hc as (-> & H0 & r & Hr & Hs). simpl in Hf. destruct fuel as [|fuel]; [lia|].
    simpl. rewrite (proj2 (Z.eqb_neq _ _)) by done. rewrite Hl by set_solver. rewrite Hr.
    rewrite link_of_cons. apply IH; [done|lia|set_solver].
Qed.

(** Unlinking: the first node by moving the head, a later one by rewriting the link before it. *)
Lemma unlink_mid nx nx' p l1 a l2 r :
  chain nx p (l1 ++ a :: l2) → l1 ≠ [] → nx a = Some r →
  nx' (link_of 0 l1) = Some r →
  (∀ b, b ∈ l1 ++ l2 → b ≠ link_of 0 l1 → nx' b = nx b) →
  chain nx' p (l1 ++ l2).
Proof.
  intros Hc Hne Hr Hl Hf. pose proof (chain_NoDup _ _ _ Hc) as Hnd.
  destruct (exists_last Hne) as (l0 & b & ->).
  rewrite <-!app_assoc in *. simpl in *.
  assert (link_of 0 (l0 ++ [b]) = b) as Hb. { unfold link_of. by rewrite last_snoc. }
  rewrite Hb in *. apply seg_app in Hc as (c & Hc0 & Hc1).
  simpl in Hc1. destruct Hc1 as (-> & Hb0 & r1 & Hr1 & (-> & Ha0 & r2 & Hr2 & Hc2)).
  assert (r2 = r) as -> by congruence. apply NoDup_app in Hnd as (Hnd0 & Hd & Hnd1). apply NoDup_cons in Hnd1 as [Hnb Hnd1].
  apply seg_app. exists b. split.
  - eapply seg_frame; [exact Hc0|]. intros x Hx. apply Hf; [set_solver|].
    intros ->. eapply Hd; [exact Hx|set_solver].
  - simpl. split_and!; [done|done|]. exists r. split; [done|].
    eapply seg_frame; [exact Hc2|]. intros x Hx. apply Hf; [set_solver|].
    intros ->. apply Hnb. set_solver.
Qed.

Lemma unlink_head nx nx' p a l2 r :
  chain nx p (a :: l2) → nx a = Some r → (∀ b, b ∈ l2 → nx' b = nx b) → chain nx' r l2.
Proof.
  intros (_ & _ & r' & Hr' & Hs) Hr Hf. simplify_eq. by eapply seg_frame.
Qed.

Lemma push_head nx nx' p l a :
  chain nx p l → a ≠ 0 → nx' a = Some p → (∀ b, b ∈ l → nx' b = nx b) → chain nx' a (a :: l).
Proof.
  intros Hc Ha Hn Hf. simpl. split_and!; [done|done|]. exists p. split; [done|].
  by eapply seg_frame.
Qed.

(** ** Parts of a chain, from a node whose link leads into it *)

Lemma seg_start nx p m e : seg nx p m e → p = first e m.
Proof. destruct m; simpl; naive_solver. Qed.

(** Where the link behind a part of the chain leads. *)
Lemma seg_link nx p m1 m2 e : seg nx p (p :: m1 ++ m2) e → nx (link_of p m1) = Some (first e m2).
Proof.
  revert p. induction m1 as [|a m1 IH]; intros p (_ & _ & r & Hr & Hs).
  - simpl in Hs. by rewrite (seg_start _ _ _ _ Hs) in Hr.
  - rewrite link_of_cons. apply IH. pose proof Hs as (-> & _). done.
Qed.

(** The chain from one of its nodes. *)
Lemma seg_from nx p m1 m2 e x :
  seg nx p (p :: m1 ++ m2) e → x ∈ p :: m1 →
  ∃ m, seg nx x (x :: m ++ m2) e ∧ link_of x m = link_of p m1 ∧ (length m ≤ length m1)%nat ∧ ∀ b, b ∈ m → b ∈ m1.
Proof.
  revert p. induction m1 as [|a m1 IH]; intros p Hs Hx.
  - apply list_elem_of_singleton in Hx as ->. exists []. done.
  - apply elem_of_cons in Hx as [->|Hx]; [exists (a :: m1); done|].
    destruct Hs as (_ & _ & r & Hr & Hs). pose proof Hs as (-> & _).
    destruct (IH a Hs Hx) as (m & ? & ? & ? & ?). exists m. rewrite link_of_cons. split_and!; [done|done|simpl; lia|set_solver].
Qed.

Lemma seg_retarget nx nx' p m r r' :
  seg nx p (p :: m) r → NoDup (p :: m) → nx' (link_of p m) = Some r' →
  (∀ b, b ∈ p :: m → b ≠ link_of p m → nx' b = nx b) → seg nx' p (p :: m) r'.
Proof.
  revert p. induction m as [|a m IH]; intros p (_ & H0 & q & Hq & Hs) Hnd Hl Hf.
  - split_and!; [done|done|]. exists r'. done.
  - rewrite link_of_cons in *. apply NoDup_cons in Hnd as [Hp Hnd]. pose proof Hs as (-> & _).
    split_and!; [done|done|]. exists a. split.
    + rewrite Hf; [done|set_solver|]. intros E. apply Hp. rewrite E. destruct (link_of_in a m) as [[-> _]|]; set_solver.
    + apply IH; [done|done|done|]. intros b Hb. apply Hf. set_solver.
Qed.

Lemma seg_insert nx nx' h m1 m2 a e :
  seg nx h (h :: m1 ++ m2) e → NoDup (h :: m1 ++ m2) → a ∉ h :: m1 ++ m2 → a ≠ 0 →
  nx' (link_of h m1) = Some a → nx' a = Some (first e m2) →
  (∀ b, b ≠ link_of h m1 → b ≠ a → nx' b = nx b) → seg nx' h (h :: m1 ++ a :: m2) e.
Proof.
  intros Hs Hnd Ha H0 Hl Hn Hf. change (h :: m1 ++ m2) with ((h :: m1) ++ m2) in *.
  apply seg_app in Hs as (r & H1 & H2). pose proof Hnd as (Hnd1 & Hd & _)%NoDup_app.
  assert (link_of h m1 ∈ h :: m1) as Hin by (destruct (link_of_in h m1) as [[-> _]|]; set_solver).
  change (h :: m1 ++ a :: m2) with ((h :: m1) ++ a :: m2). apply seg_app. exists a. split.
  - eapply seg_retarget; [exact H1|done|done|]. intros b Hb Hne. apply Hf; [done|]. intros ->. set_solver.
  - split_and!; [done|done|]. exists (first e m2). split; [done|]. rewrite <-(seg_start _ _ _ _ H2).
    eapply seg_frame; [exact H2|]. intros b Hb. apply Hf.
    + intros ->. by eapply Hd.
    + intros ->. set_solver.
Qed.

Lemma seg_remove nx nx' h m1 m2 a e :
  seg nx h (h :: m1 ++ a :: m2) e → NoDup (h :: m1 ++ a :: m2) →
  nx' (link_of h m1) = Some (first e m2) →
  (∀ b, b ≠ link_of h m1 → nx' b = nx b) → seg nx' h (h :: m1 ++ m2) e.
Proof.
  intros Hs Hnd Hl Hf. change (h :: m1 ++ a :: m2) with ((h :: m1) ++ a :: m2) in *.
  apply seg_app in Hs as (r & H1 & (-> & _ & q & Hq & H2)). pose proof Hnd as (Hnd1 & Hd & _)%NoDup_app.
  assert (link_of h m1 ∈ h :: m1) as Hin by (destruct (link_of_in h m1) as [[-> _]|]; set_solver).
  change (h :: m1 ++ m2) with ((h :: m1) ++ m2). apply seg_app. exists (first e m2). split.
  - eapply seg_retarget; [exact H1|done|done|]. intros b Hb Hne. by apply Hf.
  - rewrite <-(seg_start _ _ _ _ H2). eapply seg_frame; [exact H2|]. intros b Hb. apply Hf.
    intros ->. eapply Hd; [done|set_solver].
Qed.
End chains.

#[export] Hint Resolve chain_NoDup chain_nonzero chain_next : csem.
