(* ===== verification/BPlusPage.v ===== *)
(** The page of the in-memory B+ tree of [sqlite_demo/tree/BPlusTree.c]: the
    struct [Node], its slotted byte area, and the routines that read, insert,
    remove and compact cells.  The routines that follow child pointers are in
    [BPlusTree].

    The code stores a [Node*] in 4 bytes of a cell and reads it back through an
    [int]; it is correct only where pointers are 4 bytes wide, so sizes are those
    of the ILP32 ABI: [HEADER_SIZE] is 12 and [sizeof(IntCell)] is 8.  A page and a record
    are values here, so the assertions that [node] and [p_data] are not null hold. *)

From S2P Require Import Prelude.

Module BPlusPage.

(** ** Data *)

(* sizeof(FOR_CALCULATE_HEADER_SIZE): byte at 0, shorts at 2 and 4, byte at 6, pointer at 8 *)
Definition HEADER_SIZE : Z := 12.
Definition THE_ORDER : Z := 10.
Definition PAGE_SIZE : Z := 1448.
Definition sizeof_IntCell : Z := 8.

(** [content] is the byte area that follows the header; the code addresses it by
    offsets from the start of the node, so byte [o] of the node is
    [content !! (o - HEADER_SIZE)]. *)
Record Node := mkNode {
  is_leaf : Z;          (* byte *)
  cell_size : Z;        (* short *)
  first_cell_pos : Z;   (* short *)
  frag_size : Z;        (* byte *)
  right_child : Z;      (* Node* *)
  content : list Z
}.

Record IntCell := mkIntCell { ic_key : Z; ic_child_point : Z }.

(** [data_point] is an address inside the page, kept as the offset from its start. *)
Record LeafCell := mkLeafCell { lc_key : Z; lc_size : Z; lc_data_point : Z }.

#[global] Instance Node_eq_dec : EqDecision Node.
Proof. solve_decision. Defined.

Definition set_cell_size (v : Z) (n : Node) : Node :=
  mkNode (is_leaf n) v (first_cell_pos n) (frag_size n) (right_child n) (content n).
Definition set_first_cell_pos (v : Z) (n : Node) : Node :=
  mkNode (is_leaf n) (cell_size n) v (frag_size n) (right_child n) (content n).
Definition set_frag_size (v : Z) (n : Node) : Node :=
  mkNode (is_leaf n) (cell_size n) (first_cell_pos n) v (right_child n) (content n).
Definition set_right_child (v : Z) (n : Node) : Node :=
  mkNode (is_leaf n) (cell_size n) (first_cell_pos n) (frag_size n) v (content n).
Definition set_content (v : list Z) (n : Node) : Node :=
  mkNode (is_leaf n) (cell_size n) (first_cell_pos n) (frag_size n) (right_child n) v.

(** [new Node()] value-initialises: all bytes zero. *)
Definition zero_Node : Node :=
  mkNode 0 0 0 0 0 (replicate (Z.to_nat (PAGE_SIZE - HEADER_SIZE)) 0).

(** The page [getLeafNode] and [getIntNode] fill in. *)
Definition init_leaf_node : Node :=
  mkNode 1 0 PAGE_SIZE 0 0 (content zero_Node).
Definition init_int_node : Node :=
  mkNode 0 0 PAGE_SIZE 0 0 (content zero_Node).

(** ** Raw access *)

(** [memcpy] from and to byte offset [off] of the node.  The byte area only: an
    access that leaves it is undefined here. *)
Definition in_area (off sz : Z) : bool :=
  (HEADER_SIZE <=? off) && (0 <=? sz) && (off + sz <=? PAGE_SIZE).

Definition mem_read (n : Node) (off sz : Z) : result (list Z) :=
  if in_area off sz
  then Ok (rd (content n) (Z.to_nat (off - HEADER_SIZE)) (Z.to_nat sz))
  else Err FUndef.

Definition mem_write (n : Node) (off : Z) (bs : list Z) : result Node :=
  if in_area off (Z.of_nat (length bs))
  then Ok (set_content (wr (content n) (Z.to_nat (off - HEADER_SIZE)) bs) n)
  else Err FUndef.

Definition bytes2Int (n : Node) (offset size : Z) : result Z :=
  _ ← assert_ ((size =? 1) || (size =? 2) || (size =? 4));
  bs ← mem_read n offset size;
  if size =? 1 then Ok (le_dec bs)
  else if size =? 2 then Ok (s16 (le_dec bs))
  else Ok (s32 (le_dec bs)).

Definition int2Bytes (n : Node) (offset size number : Z) : result Node :=
  _ ← assert_ ((size =? 1) || (size =? 2) || (size =? 4));
  mem_write n offset (le_bytes (Z.to_nat size) number).

(** ** Cells *)

Definition getKthLeafCell (n : Node) (kth : Z) : result LeafCell :=
  _ ← assert_ (is_leaf n =? 1);
  _ ← assert_ ((0 <=? kth) && (kth <? cell_size n));
  cell_offset ← bytes2Int n (HEADER_SIZE + kth * 2) 2;
  key ← bytes2Int n cell_offset 4;
  size ← bytes2Int n (cell_offset + 4) 4;
  Ok (mkLeafCell (u32 key) size (cell_offset + 8)).

Definition getKthIntCell (n : Node) (kth : Z) : result IntCell :=
  _ ← assert_ (is_leaf n =? 0);
  _ ← assert_ ((0 <=? kth) && (kth <? cell_size n));
  cell_offset ← bytes2Int n (HEADER_SIZE + kth * 2) 2;
  key ← bytes2Int n cell_offset 4;
  child ← bytes2Int n (cell_offset + 4) 4;
  Ok (mkIntCell (u32 key) (u32 child)).

(** [for(int i=cell_size-1; i>=kth; --i) memcpy(p+2, p, 2)]: [cnt] iterations. *)
Fixpoint shift_up (cnt : nat) (i : Z) (n : Node) : result Node :=
  match cnt with
  | O => Ok n
  | S cnt =>
      bs ← mem_read n (HEADER_SIZE + i * 2) 2;
      n ← mem_write n (HEADER_SIZE + i * 2 + 2) bs;
      shift_up cnt (i - 1) n
  end.

(** [for(int i=kth; i<cell_size; ++i) memcpy(p, p+2, 2)]: [cnt] iterations. *)
Fixpoint shift_down (cnt : nat) (i : Z) (n : Node) : result Node :=
  match cnt with
  | O => Ok n
  | S cnt =>
      bs ← mem_read n (HEADER_SIZE + i * 2 + 2) 2;
      n ← mem_write n (HEADER_SIZE + i * 2) bs;
      shift_down cnt (i + 1) n
  end.

(** The [while] of [insertLeafCell]: the insertion index, or [None] when the key is
    already there ([return 0]). [cnt] is [cell_size - kth]. *)
Fixpoint leaf_pos (cnt : nat) (n : Node) (k kth : Z) : result (option Z) :=
  match cnt with
  | O => Ok (Some kth)
  | S cnt =>
      cell ← getKthLeafCell n kth;
      if lc_key cell =? k then Ok None
      else if lc_key cell >? k then Ok (Some kth)
      else leaf_pos cnt n k (kth + 1)
  end.

(** The [while] of [insertIntCell]. *)
Fixpoint int_pos (cnt : nat) (n : Node) (k kth : Z) : result Z :=
  match cnt with
  | O => Ok kth
  | S cnt =>
      cell ← getKthIntCell n kth;
      if ic_key cell >? k then Ok kth
      else int_pos cnt n k (kth + 1)
  end.

(** [spaceCheck], [spaceCleanUp], [insertLeafCell] and [insertIntCell] call each
    other: an insertion checks the space, the check may compact, and compaction
    inserts into a scratch page whose [frag_size] is 0, so the recursion stops there.
    Each routine takes the one it calls. *)
Definition spaceCheck_with (spaceCleanUp : Node → result Node)
    (n : Node) (size : Z) : result (bool * Node) :=
  n ← (if frag_size n >? Z.shiftl 1 6 then spaceCleanUp n else Ok n);
  if first_cell_pos n - HEADER_SIZE - cell_size n * 2 <? size
  then Err (FExit 0)
  else Ok (true, n).

(** [data] is the buffer [p_data] points to and [size_data] its length. *)
Definition insertLeafCell_with (spaceCheck : Node → Z → result (bool * Node))
    (n : Node) (k : Z) (data : list Z) : result (bool * Node) :=
  let size_data := Z.of_nat (length data) in
  _ ← assert_ (is_leaf n =? 1);
  '(enough, n) ← spaceCheck n (size_data + 8);
  if negb enough then Ok (false, n) else
  pos ← leaf_pos (Z.to_nat (cell_size n)) n k 0;
  match pos with
  | None => Ok (false, n)
  | Some kth =>
      n ← shift_up (Z.to_nat (cell_size n - kth)) (cell_size n - 1) n;
      let n := set_first_cell_pos (s16 (first_cell_pos n - (size_data + 8))) n in
      n ← int2Bytes n (first_cell_pos n) 4 k;
      n ← int2Bytes n (first_cell_pos n + 4) 4 size_data;
      n ← mem_write n (first_cell_pos n + 8) data;
      n ← int2Bytes n (HEADER_SIZE + kth * 2) 2 (first_cell_pos n);
      Ok (true, set_cell_size (s16 (cell_size n + 1)) n)
  end.

Definition insertIntCell_with (spaceCheck : Node → Z → result (bool * Node))
    (n : Node) (k child : Z) : result (bool * Node) :=
  _ ← assert_ (negb (child =? 0));
  _ ← assert_ (is_leaf n =? 0);
  '(enough, n) ← spaceCheck n 8;
  if negb enough then Ok (false, n) else
  kth ← int_pos (Z.to_nat (cell_size n)) n k 0;
  n ← shift_up (Z.to_nat (cell_size n - kth)) (cell_size n - 1) n;
  let n := set_first_cell_pos (s16 (first_cell_pos n - 8)) n in
  n ← int2Bytes n (first_cell_pos n) 4 k;
  n ← int2Bytes n (first_cell_pos n + 4) 4 child;
  n ← int2Bytes n (HEADER_SIZE + kth * 2) 2 (first_cell_pos n);
  Ok (true, set_cell_size (s16 (cell_size n + 1)) n).

Definition spaceCheck_scratch : Node → Z → result (bool * Node) :=
  spaceCheck_with (λ _, Err FFuel).

(** The loops of [spaceCleanUp] over the cells [i .. i+cnt-1] of [n], inserting each
    into [temp_node]; the boolean results are ignored. *)
Fixpoint cleanup_leaf_cells (cnt : nat) (i : Z) (n temp_node : Node) : result Node :=
  match cnt with
  | O => Ok temp_node
  | S cnt =>
      cell ← getKthLeafCell n i;
      data ← mem_read n (lc_data_point cell) (lc_size cell);
      '(_, temp_node) ←
        insertLeafCell_with spaceCheck_scratch temp_node (lc_key cell) data;
      cleanup_leaf_cells cnt (i + 1) n temp_node
  end.

Fixpoint cleanup_int_cells (cnt : nat) (i : Z) (n temp_node : Node) : result Node :=
  match cnt with
  | O => Ok temp_node
  | S cnt =>
      cell ← getKthIntCell n i;
      '(_, temp_node) ←
        insertIntCell_with spaceCheck_scratch temp_node (ic_key cell) (ic_child_point cell);
      cleanup_int_cells cnt (i + 1) n temp_node
  end.

(** The static nodes [leafnode], [intnode] and [temp_node] are reachable from no tree:
    [temp_node] starts as a copy of the pristine page of the right kind, and its final
    bytes are copied over [node]. *)
Definition spaceCleanUp (n : Node) : result Node :=
  if negb (is_leaf n =? 0)
  then cleanup_leaf_cells (Z.to_nat (cell_size n)) 0 n init_leaf_node
  else
    temp_node ← cleanup_int_cells (Z.to_nat (cell_size n)) 0 n init_int_node;
    Ok (set_right_child (right_child n) temp_node).

Definition spaceCheck : Node → Z → result (bool * Node) := spaceCheck_with spaceCleanUp.
Definition insertLeafCell : Node → Z → list Z → result (bool * Node) :=
  insertLeafCell_with spaceCheck.
Definition insertIntCell : Node → Z → Z → result (bool * Node) :=
  insertIntCell_with spaceCheck.

Definition removeKthLeafCell (n : Node) (kth : Z) : result (bool * Node) :=
  _ ← assert_ (is_leaf n =? 1);
  _ ← assert_ ((0 <=? kth) && (kth <? cell_size n));
  cell ← getKthLeafCell n kth;
  n ← shift_down (Z.to_nat (cell_size n - kth)) kth n;
  let n := set_cell_size (s16 (cell_size n - 1)) n in
  Ok (true, set_frag_size (u8 (frag_size n + (8 + lc_size cell))) n).

Definition removeKthIntCell (n : Node) (kth : Z) : result (bool * Node) :=
  _ ← assert_ (is_leaf n =? 0);
  _ ← assert_ ((0 <=? kth) && (kth <? cell_size n));
  n ← shift_down (Z.to_nat (cell_size n - kth)) kth n;
  let n := set_cell_size (s16 (cell_size n - 1)) n in
  Ok (true, set_frag_size (u8 (frag_size n + sizeof_IntCell)) n).

(** [getKnumByChild]: the first cell whose child is [child], or -1. *)
Fixpoint knum_loop (cnt : nat) (i : Z) (n : Node) (child : Z) : result Z :=
  match cnt with
  | O => Ok (-1)
  | S cnt =>
      cell ← getKthIntCell n i;
      if ic_child_point cell =? child then Ok i
      else knum_loop cnt (i + 1) n child
  end.

Definition getKnumByChild (n : Node) (child : Z) : result Z :=
  _ ← assert_ (negb (child =? 0));
  _ ← assert_ (is_leaf n =? 0);
  knum_loop (Z.to_nat (cell_size n)) 0 n child.

Definition getKthChild (n : Node) (kth : Z) : result Z :=
  if kth =? cell_size n then Ok (right_child n)
  else cell ← getKthIntCell n kth; Ok (ic_child_point cell).

End BPlusPage.
