(* ===== verification/BPlusPageFacts.v ===== *)
(** The page routines of [BPlusPage] against an abstract view of a page: the list of
    its cells, as byte strings, in the order of the pointer array.  Insertion inserts
    at an index, removal deletes an index, compaction changes no cell. *)

From S2P Require Import Prelude BPlusPage.

Module BPlusPageFacts.
Import BPlusPage.

(** ** The representation invariant of a page *)

Definition AREA : nat := 1436.

(** Arithmetic over the layout constants. *)
Ltac nsimpl :=
  cbn [mbind result_bind is_leaf cell_size first_cell_pos frag_size right_child content
       set_content set_cell_size set_first_cell_pos set_frag_size set_right_child fst snd].
Ltac plia := unfold AREA, HEADER_SIZE, PAGE_SIZE in *; lia.

Definition cells_bytes (cells : list (list Z)) : Z :=
  foldr (λ c a, Z.of_nat (length c) + a) 0 cells.

(** Slot [i] of the pointer array holds offset [off]. *)
Definition slot_at (l : list Z) (i : nat) (off : Z) : Prop :=
  rd l (2 * i) 2 = le_bytes 2 off.

(** The cell [c] lies at offset [off] of the node. *)
Definition bytes_at (l : list Z) (off : Z) (c : list Z) : Prop :=
  rd l (Z.to_nat (off - HEADER_SIZE)) (length c) = c.

Definition cell_in (first : Z) (l : list Z) (i : nat) (c : list Z) : Prop :=
  ∃ off, slot_at l i off ∧ first ≤ off ∧ off + Z.of_nat (length c) ≤ PAGE_SIZE ∧
    bytes_at l off c.

Record page_repr (n : Node) (cells : list (list Z)) : Prop := {
  pr_len : length (content n) = AREA;
  pr_bytes : Forall byte_ok (content n);
  pr_size : cell_size n = Z.of_nat (length cells);
  pr_area : HEADER_SIZE + 2 * Z.of_nat (length cells) ≤ first_cell_pos n;
  pr_frag : 0 ≤ frag_size n < 256;
  pr_acct : first_cell_pos n + cells_bytes cells + frag_size n = PAGE_SIZE;
  pr_cells : ∀ i c, cells !! i = Some c → cell_in (first_cell_pos n) (content n) i c
}.

Lemma cells_bytes_app c1 c2 : cells_bytes (c1 ++ c2) = cells_bytes c1 + cells_bytes c2.
Proof. induction c1; simpl; lia. Qed.

Lemma cells_bytes_nonneg cs : 0 ≤ cells_bytes cs.
Proof. induction cs; simpl; lia. Qed.

Lemma cells_bytes_insert_at i c cs :
  cells_bytes (insert_at i c cs) = cells_bytes cs + Z.of_nat (length c).
Proof.
  unfold insert_at. rewrite cells_bytes_app. simpl.
  rewrite <-(take_drop i cs) at 3. rewrite cells_bytes_app. lia.
Qed.

Lemma cells_bytes_delete i c cs :
  cs !! i = Some c → cells_bytes (delete i cs) = cells_bytes cs - Z.of_nat (length c).
Proof.
  intros Hi. apply take_drop_middle in Hi as E. rewrite <-E at 2.
  rewrite delete_take_drop, !cells_bytes_app. simpl. lia.
Qed.

(** ** Raw access inside the byte area *)

Lemma mem_read_area n (o : nat) sz :
  0 ≤ sz → Z.of_nat o + sz ≤ Z.of_nat AREA →
  mem_read n (HEADER_SIZE + Z.of_nat o) sz = Ok (rd (content n) o (Z.to_nat sz)).
Proof.
  unfold AREA. intros. unfold mem_read, in_area, HEADER_SIZE, PAGE_SIZE.
  rewrite (proj2 (Z.leb_le _ _)), (proj2 (Z.leb_le _ _)), (proj2 (Z.leb_le _ _)) by lia.
  simpl. f_equal. f_equal; lia.
Qed.

Lemma mem_write_area n (o : nat) bs :
  (o + length bs ≤ AREA)%nat →
  mem_write n (HEADER_SIZE + Z.of_nat o) bs = Ok (set_content (wr (content n) o bs) n).
Proof.
  unfold AREA. intros. unfold mem_write, in_area, HEADER_SIZE, PAGE_SIZE.
  rewrite (proj2 (Z.leb_le _ _)), (proj2 (Z.leb_le _ _)), (proj2 (Z.leb_le _ _)) by lia.
  simpl. do 3 f_equal; lia.
Qed.

Lemma bytes2Int_slot n (i : nat) v :
  (2 * i + 2 ≤ AREA)%nat → slot_at (content n) i v → 0 ≤ v < 2 ^ 15 →
  bytes2Int n (HEADER_SIZE + Z.of_nat i * 2) 2 = Ok v.
Proof.
  intros Hi Hs Hv. unfold bytes2Int. cbn [assert_ mbind result_bind orb Z.eqb Pos.eqb].
  replace (HEADER_SIZE + Z.of_nat i * 2) with (HEADER_SIZE + Z.of_nat (2 * i)) by lia.
  rewrite mem_read_area by lia. change (Z.to_nat 2) with 2%nat.
  cbn [mbind result_bind]. rewrite Hs. rewrite le_dec_le_bytes.
  change (8 * Z.of_nat 2) with 16. f_equal.
  rewrite Z.mod_small by lia. apply wraps_small; lia.
Qed.

(** A 4-byte field that holds [v]. *)
Lemma bytes2Int_4 n off v :
  HEADER_SIZE ≤ off → off + 4 ≤ PAGE_SIZE → bytes_at (content n) off (le_bytes 4 v) →
  bytes2Int n off 4 = Ok (s32 (v mod 2 ^ 32)).
Proof.
  intros Ho1 Ho2 Hb. unfold bytes2Int. cbn [assert_ mbind result_bind orb Z.eqb Pos.eqb].
  unfold bytes_at in Hb. rewrite length_le_bytes in Hb.
  replace off with (HEADER_SIZE + Z.of_nat (Z.to_nat (off - HEADER_SIZE))) by lia.
  rewrite mem_read_area by (unfold AREA, HEADER_SIZE, PAGE_SIZE in *; lia).
  change (Z.to_nat 4) with 4%nat.
  cbn [mbind result_bind]. rewrite Hb, le_dec_le_bytes. done.
Qed.

Lemma bytes2Int_4_u32 n off v :
  HEADER_SIZE ≤ off → off + 4 ≤ PAGE_SIZE → bytes_at (content n) off (le_bytes 4 v) →
  0 ≤ v < 2 ^ 32 → u32 <$> bytes2Int n off 4 = Ok v.
Proof.
  intros. rewrite (bytes2Int_4 _ _ v) by done. cbn.
  f_equal. rewrite wrapu_wraps, Z.mod_small by lia. apply wrapu_small. lia.
Qed.

Lemma bytes_at_app l off c1 c2 :
  HEADER_SIZE ≤ off →
  bytes_at l off (c1 ++ c2) →
  bytes_at l off c1 ∧ bytes_at l (off + Z.of_nat (length c1)) c2.
Proof.
  unfold bytes_at. rewrite length_app, <-rd_app. intros Ho H.
  replace (Z.to_nat (off + Z.of_nat (length c1) - HEADER_SIZE))
    with (Z.to_nat (off - HEADER_SIZE) + length c1)%nat by lia.
  assert (length (rd l (Z.to_nat (off - HEADER_SIZE)) (length c1)) = length c1) as E.
  { apply (f_equal length) in H. rewrite !length_app in H.
    assert (∀ o n, length (rd l o n) ≤ n)%nat as Hle.
    { intros. unfold rd. rewrite length_take. lia. }
    pose proof (Hle (Z.to_nat (off - HEADER_SIZE)) (length c1)).
    pose proof (Hle (Z.to_nat (off - HEADER_SIZE) + length c1)%nat (length c2)). lia. }
  by apply app_inj_1 in H.
Qed.

(** ** Cells of the two kinds of page *)

Definition leaf_cell (kv : Z * list Z) : list Z :=
  le_bytes 4 kv.1 ++ le_bytes 4 (Z.of_nat (length kv.2)) ++ kv.2.
Definition int_cell (kp : Z * Z) : list Z := le_bytes 4 kp.1 ++ le_bytes 4 kp.2.

Definition key_ok (k : Z) : Prop := 0 ≤ k < 2 ^ 32.
Definition rec_ok (kv : Z * list Z) : Prop := key_ok kv.1 ∧ Forall byte_ok kv.2.
Definition kp_ok (kp : Z * Z) : Prop := key_ok kp.1 ∧ 0 < kp.2 < 2 ^ 32.

Lemma length_leaf_cell kv : length (leaf_cell kv) = (8 + length kv.2)%nat.
Proof. unfold leaf_cell. by rewrite !length_app, !length_le_bytes. Qed.
Lemma length_int_cell kp : length (int_cell kp) = 8%nat.
Proof. unfold int_cell. by rewrite !length_app, !length_le_bytes. Qed.

Lemma leaf_cell_ok kv : rec_ok kv → Forall byte_ok (leaf_cell kv).
Proof. intros [_ ?]. unfold leaf_cell. rewrite !Forall_app. eauto with csem. Qed.
Lemma int_cell_ok kp : Forall byte_ok (int_cell kp).
Proof. unfold int_cell. rewrite !Forall_app. eauto with csem. Qed.
#[export] Hint Resolve leaf_cell_ok int_cell_ok : csem.

Definition leaf_page (n : Node) (kvs : list (Z * list Z)) : Prop :=
  is_leaf n = 1 ∧ page_repr n (leaf_cell <$> kvs) ∧ Forall rec_ok kvs.
Definition int_page (n : Node) (kps : list (Z * Z)) : Prop :=
  is_leaf n = 0 ∧ page_repr n (int_cell <$> kps) ∧ Forall kp_ok kps.

(** ** Reading the [i]-th cell *)

(** What every read of a cell of a represented page rests on. *)
Lemma page_cell n cells (i : nat) c :
  page_repr n cells → cells !! i = Some c →
  ∃ off, bytes2Int n (HEADER_SIZE + Z.of_nat i * 2) 2 = Ok off ∧
    HEADER_SIZE ≤ off ∧ off + Z.of_nat (length c) ≤ PAGE_SIZE ∧ bytes_at (content n) off c.
Proof.
  intros Hp Hi. pose proof (lookup_lt_Some _ _ _ Hi) as Hlt.
  destruct (pr_cells _ _ Hp _ _ Hi) as (off & Hs & Hf & Ho & Hb).
  pose proof (pr_area _ _ Hp). unfold HEADER_SIZE, PAGE_SIZE in *.
  exists off. repeat split; try done; try lia.
  apply bytes2Int_slot; [|done|lia].
  unfold AREA. lia.
Qed.

Lemma page_kth_guard n cells (i : nat) c :
  page_repr n cells → cells !! i = Some c →
  assert_ ((0 <=? Z.of_nat i) && (Z.of_nat i <? cell_size n)) = Ok tt.
Proof.
  intros Hp Hi%lookup_lt_Some. rewrite (pr_size _ _ Hp).
  rewrite (proj2 (Z.leb_le _ _)), (proj2 (Z.ltb_lt _ _)) by lia. done.
Qed.

Lemma getKthLeafCell_spec n kvs (i : nat) k d :
  leaf_page n kvs → kvs !! i = Some (k, d) →
  ∃ off, getKthLeafCell n (Z.of_nat i) = Ok (mkLeafCell k (Z.of_nat (length d)) off) ∧
    mem_read n off (Z.of_nat (length d)) = Ok d.
Proof.
  intros (Hl & Hp & Hok) Hi.
  assert ((leaf_cell <$> kvs) !! i = Some (leaf_cell (k, d))) as Hc
    by (by rewrite list_lookup_fmap, Hi).
  destruct (page_cell _ _ _ _ Hp Hc) as (off & Hoff & Ho1 & Ho2 & Hb).
  rewrite length_leaf_cell in Ho2. simpl in Ho2.
  destruct (proj1 (Forall_lookup _ _) Hok _ _ Hi) as [Hk _]. simpl in Hk.
  destruct (bytes_at_app _ _ _ _ Ho1 Hb) as [Hb1 Hb2].
  apply bytes_at_app in Hb2 as [Hb2 Hb3];
    [|rewrite length_le_bytes; unfold HEADER_SIZE in *; lia].
  cbn [fst snd] in *. rewrite length_le_bytes in Hb2, Hb3. rewrite ?length_le_bytes in Hb3.
  exists (off + 8). split.
  - unfold getKthLeafCell. rewrite Hl. rewrite (page_kth_guard _ _ _ _ Hp Hc).
    cbn [assert_ mbind result_bind Z.eqb Pos.eqb]. rewrite Hoff.
    cbn [mbind result_bind].
    rewrite (bytes2Int_4 _ off k); [|lia|unfold PAGE_SIZE in *; lia|done].
    change (Z.of_nat 4) with 4 in *.
    cbn [mbind result_bind]. rewrite (bytes2Int_4 _ (off + 4) (Z.of_nat (length d)));
      [|lia|unfold PAGE_SIZE in *; lia|done].
    cbn [mbind result_bind]. f_equal. unfold key_ok, PAGE_SIZE, HEADER_SIZE in *. f_equal.
    + rewrite wrapu_wraps, Z.mod_small by lia. by apply wrapu_small.
    + rewrite Z.mod_small by lia. apply wraps_small; lia.
  - replace (off + 8) with (HEADER_SIZE + Z.of_nat (Z.to_nat (off + 8 - HEADER_SIZE)))
      by (unfold HEADER_SIZE in *; lia).
    rewrite mem_read_area by (unfold AREA, HEADER_SIZE, PAGE_SIZE in *; lia).
    f_equal. unfold bytes_at in Hb3. rewrite Nat2Z.id. rewrite <-Hb3 at 2. f_equal. lia.
Qed.

Lemma getKthIntCell_spec n kps (i : nat) k p :
  int_page n kps → kps !! i = Some (k, p) →
  getKthIntCell n (Z.of_nat i) = Ok (mkIntCell k p).
Proof.
  intros (Hl & Hp & Hok) Hi.
  assert ((int_cell <$> kps) !! i = Some (int_cell (k, p))) as Hc
    by (by rewrite list_lookup_fmap, Hi).
  destruct (page_cell _ _ _ _ Hp Hc) as (off & Hoff & Ho1 & Ho2 & Hb).
  rewrite length_int_cell in Ho2.
  destruct (proj1 (Forall_lookup _ _) Hok _ _ Hi) as [Hk Hpp]. simpl in Hk, Hpp.
  destruct (bytes_at_app _ _ _ _ Ho1 Hb) as [Hb1 Hb2]. cbn [fst snd] in *.
  rewrite length_le_bytes in Hb2. change (Z.of_nat 4) with 4 in *.
  unfold getKthIntCell. rewrite Hl. rewrite (page_kth_guard _ _ _ _ Hp Hc).
  cbn [assert_ mbind result_bind Z.eqb Pos.eqb]. rewrite Hoff. cbn [mbind result_bind].
  rewrite (bytes2Int_4 _ off k); [|lia|unfold PAGE_SIZE in *; lia|done].
  cbn [mbind result_bind].
  rewrite (bytes2Int_4 _ (off + 4) p); [|lia|unfold PAGE_SIZE in *; lia|done].
  cbn [mbind result_bind].
  unfold key_ok in *. rewrite !wrapu_wraps, !Z.mod_small by lia.
  by rewrite !wrapu_small by lia.
Qed.


(** ** The pointer array *)

Lemma set_content_id n : set_content (content n) n = n.
Proof. by destruct n. Qed.
Lemma set_content_twice l l' n : set_content l (set_content l' n) = set_content l n.
Proof. done. Qed.

(** The loop that opens slot [base] is one move of [cnt] slots up. *)
Lemma shift_up_spec cnt (base : nat) n :
  length (content n) = AREA → (2 * (base + cnt + 1) ≤ AREA)%nat →
  shift_up cnt (Z.of_nat (base + cnt) - 1) n =
    Ok (set_content (wr (content n) (2 * (base + 1)) (rd (content n) (2 * base) (2 * cnt))) n).
Proof.
  revert n. induction cnt as [|cnt IH]; intros n Hlen Hb.
  - simpl. unfold rd. by rewrite take_0, wr_nil, set_content_id.
  - cbn [shift_up].
    replace (HEADER_SIZE + (Z.of_nat (base + S cnt) - 1) * 2)
      with (HEADER_SIZE + Z.of_nat (2 * (base + cnt))) by lia.
    rewrite mem_read_area by lia. cbn [mbind result_bind]. change (Z.to_nat 2) with 2%nat.
    replace (HEADER_SIZE + Z.of_nat (2 * (base + cnt)) + 2)
      with (HEADER_SIZE + Z.of_nat (2 * (base + 1) + 2 * cnt)) by lia.
    assert (length (rd (content n) (2 * (base + cnt)) 2) = 2%nat) as E2
      by (apply length_rd; lia).
    rewrite mem_write_area by lia. cbn [mbind result_bind].
    replace (Z.of_nat (base + S cnt) - 1 - 1) with (Z.of_nat (base + cnt) - 1) by lia.
    rewrite IH; [|cbn [content set_content]; rewrite length_wr; lia|lia].
    cbn [content set_content]. rewrite set_content_twice. do 2 f_equal.
    rewrite rd_wr_ne by lia.
    assert (length (rd (content n) (2 * base) (2 * cnt)) = (2 * cnt)%nat) as E1
      by (apply length_rd; lia).
    replace (2 * (base + 1) + 2 * cnt)%nat
      with (2 * (base + 1) + length (rd (content n) (2 * base) (2 * cnt)))%nat by lia.
    rewrite wr_app_rev by lia. f_equal.
    replace (2 * (base + cnt))%nat with (2 * base + 2 * cnt)%nat by lia.
    rewrite rd_app. f_equal. lia.
Qed.

(** The loop that closes slot [i] is one move of [cnt] slots down. *)
Lemma shift_down_spec cnt (i : nat) n :
  length (content n) = AREA → (2 * (i + cnt + 1) ≤ AREA)%nat →
  shift_down cnt (Z.of_nat i) n =
    Ok (set_content (wr (content n) (2 * i) (rd (content n) (2 * (i + 1)) (2 * cnt))) n).
Proof.
  revert i n. induction cnt as [|cnt IH]; intros i n Hlen Hb.
  - simpl. unfold rd. by rewrite take_0, wr_nil, set_content_id.
  - cbn [shift_down].
    replace (HEADER_SIZE + Z.of_nat i * 2 + 2)
      with (HEADER_SIZE + Z.of_nat (2 * (i + 1))) by lia.
    rewrite mem_read_area by lia. cbn [mbind result_bind]. change (Z.to_nat 2) with 2%nat.
    replace (HEADER_SIZE + Z.of_nat i * 2) with (HEADER_SIZE + Z.of_nat (2 * i)) by lia.
    assert (length (rd (content n) (2 * (i + 1)) 2) = 2%nat) as E2
      by (apply length_rd; lia).
    rewrite mem_write_area by lia. cbn [mbind result_bind].
    replace (Z.of_nat i + 1) with (Z.of_nat (i + 1)) by lia.
    rewrite IH; [|cbn [content set_content]; rewrite length_wr; lia|lia].
    cbn [content set_content]. rewrite set_content_twice. do 2 f_equal.
    rewrite rd_wr_ne by lia.
    set (x := rd (content n) (2 * (i + 1)) 2) in *.
    replace (wr (wr (content n) (2 * i) x) (2 * (i + 1)))
      with (wr (wr (content n) (2 * i) x) (2 * i + length x)) by (f_equal; lia).
    rewrite wr_app by (rewrite length_rd; lia). f_equal. subst x.
    replace (2 * (i + 1 + 1))%nat with (2 * (i + 1) + 2)%nat by lia.
    rewrite rd_app. f_equal. lia.
Qed.

(** ** Insertion and removal at an index *)

(** The page after slot [kth] was opened and filled with a cell written just below the
    cell area. *)
Definition page_with (n : Node) (kth : nat) (c : list Z) : Node :=
  let first := first_cell_pos n - Z.of_nat (length c) in
  let m := (Z.to_nat (cell_size n) - kth)%nat in
  let l := wr (content n) (2 * (kth + 1)) (rd (content n) (2 * kth) (2 * m)) in
  let l := wr l (Z.to_nat (first - HEADER_SIZE)) c in
  let l := wr l (2 * kth) (le_bytes 2 first) in
  mkNode (is_leaf n) (cell_size n + 1) first (frag_size n) (right_child n) l.

Lemma cell_in_frame first first' l l' i j c :
  first' ≤ first → HEADER_SIZE ≤ first →
  rd l' (2 * j) 2 = rd l (2 * i) 2 →
  (∀ o sz, (Z.to_nat (first - HEADER_SIZE) ≤ o)%nat → rd l' o sz = rd l o sz) →
  cell_in first l i c → cell_in first' l' j c.
Proof.
  intros Hf Hh Hs Hb (off & H1 & H2 & H3 & H4). exists off. unfold slot_at, bytes_at in *.
  repeat split; [congruence|lia|lia|]. rewrite Hb; [done|lia].
Qed.

Lemma page_with_repr n cells kth c :
  page_repr n cells → (kth ≤ length cells)%nat → Forall byte_ok c →
  HEADER_SIZE + 2 * Z.of_nat (length cells + 1) + Z.of_nat (length c) ≤ first_cell_pos n →
  page_repr (page_with n kth c) (insert_at kth c cells).
Proof.
  intros Hp Hk Hc Hsp. destruct Hp as [Hlen Hby Hsz Har Hfr Hac Hce].
  pose proof (cells_bytes_nonneg cells).
  unfold HEADER_SIZE, PAGE_SIZE, AREA in *.
  unfold page_with. set (first := first_cell_pos n - Z.of_nat (length c)).
  rewrite Hsz, Nat2Z.id. set (m := (length cells - kth)%nat).
  assert (length (rd (content n) (2 * kth) (2 * m)) = (2 * m)%nat) as Em
    by (apply length_rd; lia).
  set (l1 := wr _ (2 * (kth + 1)) _).
  assert (length l1 = 1436%nat) as E1 by (unfold l1; rewrite length_wr; lia).
  set (l2 := wr l1 _ c).
  assert (length l2 = 1436%nat) as E2
    by (unfold l2; rewrite length_wr; unfold HEADER_SIZE; lia).
  assert (length (le_bytes 2 first) = 2%nat) as El by apply length_le_bytes.
  unfold HEADER_SIZE in *.
  assert (∀ o sz, (Z.to_nat (first_cell_pos n - HEADER_SIZE) ≤ o)%nat →
            rd (wr l2 (2 * kth) (le_bytes 2 first)) o sz = rd (content n) o sz) as Hhigh.
  { unfold HEADER_SIZE. intros o sz Ho. rewrite rd_wr_ne by lia.
    unfold l2. rewrite rd_wr_ne by (unfold HEADER_SIZE; lia).
    unfold l1. rewrite rd_wr_ne by lia. done. }
  split; cbn [content is_leaf cell_size first_cell_pos frag_size right_child].
  - unfold AREA. rewrite length_wr; lia.
  - unfold l2, l1. eauto 10 with csem.
  - rewrite length_insert_at. lia.
  - rewrite length_insert_at. unfold HEADER_SIZE. lia.
  - done.
  - rewrite cells_bytes_insert_at. unfold PAGE_SIZE. lia.
  - intros j cj Hj. rewrite lookup_insert_at in Hj by done.
    repeat case_decide; simplify_eq.
    + eapply (cell_in_frame (first_cell_pos n)); [lia|unfold HEADER_SIZE; lia| |exact Hhigh|by apply Hce].
      rewrite rd_wr_ne by lia. unfold l2. rewrite rd_wr_ne by (unfold HEADER_SIZE; lia).
      unfold l1. by rewrite rd_wr_ne by lia.
    + exists first. unfold slot_at, bytes_at, HEADER_SIZE, PAGE_SIZE. repeat split; [|lia|lia|].
      * apply rd_wr_eq; lia.
      * rewrite rd_wr_ne by lia. unfold l2, HEADER_SIZE. apply rd_wr_eq; lia.
    + pose proof (lookup_lt_Some _ _ _ Hj).
      eapply (cell_in_frame (first_cell_pos n) _ _ _ (j - 1)); [lia|unfold HEADER_SIZE; lia| |exact Hhigh|by apply Hce].
      rewrite rd_wr_ne by lia. unfold l2. rewrite rd_wr_ne by (unfold HEADER_SIZE; lia).
      unfold l1. rewrite rd_wr_in by lia. rewrite rd_sub by lia. f_equal. lia.
Qed.

Definition page_without (n : Node) (kth clen : nat) : Node :=
  let m := (Z.to_nat (cell_size n) - kth)%nat in
  mkNode (is_leaf n) (cell_size n - 1) (first_cell_pos n) (frag_size n + Z.of_nat clen)
    (right_child n) (wr (content n) (2 * kth) (rd (content n) (2 * (kth + 1)) (2 * m))).

Lemma page_without_repr n cells kth c :
  page_repr n cells → cells !! kth = Some c → first_cell_pos n < PAGE_SIZE →
  frag_size n + Z.of_nat (length c) < 256 →
  page_repr (page_without n kth (length c)) (delete kth cells).
Proof.
  intros Hp Hk Hroom Hfrag. pose proof (lookup_lt_Some _ _ _ Hk) as Hlt.
  destruct Hp as [Hlen Hby Hsz Har Hfr Hac Hce].
  unfold page_without. rewrite Hsz, Nat2Z.id. set (m := (length cells - kth)%nat).
  unfold HEADER_SIZE, PAGE_SIZE, AREA in *.
  assert (length (rd (content n) (2 * (kth + 1)) (2 * m)) = (2 * m)%nat) as Em
    by (apply length_rd; lia).
  assert (length (delete kth cells) = (length cells - 1)%nat) as Ed
    by (apply length_delete; eauto).
  split; cbn [content is_leaf cell_size first_cell_pos frag_size right_child];
    unfold HEADER_SIZE, PAGE_SIZE, AREA.
  - rewrite length_wr; lia.
  - eauto 10 with csem.
  - lia.
  - lia.
  - lia.
  - rewrite (cells_bytes_delete _ c) by done. lia.
  - intros j cj Hj. rewrite lookup_delete_list in Hj.
    assert (∀ o sz, (Z.to_nat (first_cell_pos n - HEADER_SIZE) ≤ o)%nat →
      rd (wr (content n) (2 * kth) (rd (content n) (2 * (kth + 1)) (2 * m))) o sz
      = rd (content n) o sz) as Hhigh.
    { unfold HEADER_SIZE. intros o sz Ho. apply rd_wr_ne; lia. }
    case_decide.
    + eapply (cell_in_frame (first_cell_pos n) _ _ _ j);
        [lia|unfold HEADER_SIZE; lia| |exact Hhigh|by apply Hce].
      apply rd_wr_ne; lia.
    + pose proof (lookup_lt_Some _ _ _ Hj).
      eapply (cell_in_frame (first_cell_pos n) _ _ _ (S j));
        [lia|unfold HEADER_SIZE; lia| |exact Hhigh|by apply Hce].
      rewrite rd_wr_in by lia. rewrite rd_sub by lia. f_equal. lia.
Qed.

(** ** The code of an insertion, once its index is known *)

Lemma int2Bytes_4 n (o : nat) v :
  (o + 4 ≤ AREA)%nat →
  int2Bytes n (HEADER_SIZE + Z.of_nat o) 4 v = Ok (set_content (wr (content n) o (le_bytes 4 v)) n).
Proof. intros. apply mem_write_area. by rewrite length_le_bytes. Qed.
Lemma int2Bytes_2 n (o : nat) v :
  (o + 2 ≤ AREA)%nat →
  int2Bytes n (HEADER_SIZE + Z.of_nat o) 2 v = Ok (set_content (wr (content n) o (le_bytes 2 v)) n).
Proof. intros. apply mem_write_area. by rewrite length_le_bytes. Qed.

Definition fits (n : Node) (len : Z) : Prop :=
  HEADER_SIZE + 2 * (cell_size n + 1) + len ≤ first_cell_pos n.

Lemma open_slot n cells (kth : nat) :
  page_repr n cells → (kth ≤ length cells)%nat → fits n 0 →
  shift_up (Z.to_nat (cell_size n - Z.of_nat kth)) (cell_size n - 1) n =
    Ok (set_content (wr (content n) (2 * (kth + 1))
      (rd (content n) (2 * kth) (2 * (Z.to_nat (cell_size n) - kth)))) n).
Proof.
  intros Hp Hk Hf. unfold fits in Hf.
  destruct Hp as [Hlen Hby Hsz Har Hfr Hac Hce]. pose proof (cells_bytes_nonneg cells).
  replace (cell_size n - 1) with (Z.of_nat (kth + Z.to_nat (cell_size n - Z.of_nat kth)) - 1) by lia.
  unfold HEADER_SIZE, PAGE_SIZE, AREA in *.
  rewrite shift_up_spec by (unfold AREA; lia). do 5 f_equal. lia.
Qed.

Lemma insert_bounds n cells len :
  page_repr n cells → 0 ≤ len → fits n len →
  0 ≤ cell_size n < 2 ^ 15 - 1 ∧ cell_size n = Z.of_nat (length cells) ∧
  HEADER_SIZE + 2 * (cell_size n + 1) ≤ first_cell_pos n - len ∧
  first_cell_pos n ≤ PAGE_SIZE ∧ length (content n) = AREA.
Proof.
  intros [Hlen Hby Hsz Har Hfr Hac Hce] Hl Hf. unfold fits, HEADER_SIZE, PAGE_SIZE in *.
  pose proof (cells_bytes_nonneg cells). repeat split; try lia.
Qed.

Lemma leaf_insert_code n kvs (kth : nat) k d :
  leaf_page n kvs → (kth ≤ length kvs)%nat → fits n (8 + Z.of_nat (length d)) →
  (n ← shift_up (Z.to_nat (cell_size n - Z.of_nat kth)) (cell_size n - 1) n;
   let n := set_first_cell_pos (s16 (first_cell_pos n - (Z.of_nat (length d) + 8))) n in
   n ← int2Bytes n (first_cell_pos n) 4 k;
   n ← int2Bytes n (first_cell_pos n + 4) 4 (Z.of_nat (length d));
   n ← mem_write n (first_cell_pos n + 8) d;
   n ← int2Bytes n (HEADER_SIZE + Z.of_nat kth * 2) 2 (first_cell_pos n);
   Ok (true, set_cell_size (s16 (cell_size n + 1)) n))
  = Ok (true, page_with n kth (leaf_cell (k, d))).
Proof.
  intros (_ & Hp & _) Hk Hf.
  destruct (insert_bounds _ _ (8 + Z.of_nat (length d)) Hp ltac:(lia) Hf) as (Hcs & Hcs' & Hfst & Hfst' & Hlen).
  rewrite length_fmap in Hcs'.
  rewrite (open_slot _ _ _ Hp); [|by rewrite length_fmap|unfold fits in *; lia].
  cbn [mbind result_bind].
  set (l1 := wr _ (2 * (kth + 1)) _).
  assert (length l1 = AREA) as El1.
  { unfold l1. rewrite length_wr; rewrite ?length_rd; plia. }
  set (first := first_cell_pos n - Z.of_nat (8 + length d)).
  nsimpl. rewrite wraps_small by (unfold HEADER_SIZE, PAGE_SIZE in *; lia).
  replace (first_cell_pos n - (Z.of_nat (length d) + 8)) with first by (unfold first; lia).
  set (o := Z.to_nat (first - HEADER_SIZE)).
  assert (first = HEADER_SIZE + Z.of_nat o) as Eo by (unfold o, HEADER_SIZE, PAGE_SIZE in *; lia).
  nsimpl. rewrite Eo.
  rewrite (int2Bytes_4 _ o) by plia. nsimpl.
  replace (HEADER_SIZE + Z.of_nat o + 4) with (HEADER_SIZE + Z.of_nat (o + 4)) by lia.
  rewrite int2Bytes_4 by plia. nsimpl.
  replace (HEADER_SIZE + Z.of_nat o + 8) with (HEADER_SIZE + Z.of_nat (o + 8)) by lia.
  rewrite mem_write_area by plia. nsimpl.
  replace (HEADER_SIZE + Z.of_nat kth * 2) with (HEADER_SIZE + Z.of_nat (2 * kth)) by lia.
  rewrite int2Bytes_2 by plia.
  nsimpl.
  rewrite wraps_small by lia.
  unfold page_with. rewrite length_leaf_cell. cbn [snd].
  fold first. fold l1. fold o. rewrite <-Eo.
  unfold leaf_cell. cbn [fst snd].
  rewrite <-(wr_app l1 o (le_bytes 4 k)) by (rewrite !length_app, !length_le_bytes; plia).
  rewrite <-(wr_app _ (o + _) (le_bytes 4 _))
    by (rewrite !length_wr; rewrite ?length_le_bytes; plia).
  rewrite !length_le_bytes. by replace (o + 4 + 4)%nat with (o + 8)%nat by lia.
Qed.

Lemma int_insert_code n kps (kth : nat) k p :
  int_page n kps → (kth ≤ length kps)%nat → fits n 8 →
  (n ← shift_up (Z.to_nat (cell_size n - Z.of_nat kth)) (cell_size n - 1) n;
   let n := set_first_cell_pos (s16 (first_cell_pos n - 8)) n in
   n ← int2Bytes n (first_cell_pos n) 4 k;
   n ← int2Bytes n (first_cell_pos n + 4) 4 p;
   n ← int2Bytes n (HEADER_SIZE + Z.of_nat kth * 2) 2 (first_cell_pos n);
   Ok (true, set_cell_size (s16 (cell_size n + 1)) n))
  = Ok (true, page_with n kth (int_cell (k, p))).
Proof.
  intros (_ & Hp & _) Hk Hf.
  destruct (insert_bounds _ _ 8 Hp ltac:(lia) Hf) as (Hcs & Hcs' & Hfst & Hfst' & Hlen).
  rewrite length_fmap in Hcs'.
  rewrite (open_slot _ _ _ Hp); [|by rewrite length_fmap|unfold fits in *; lia].
  cbn [mbind result_bind].
  set (l1 := wr _ (2 * (kth + 1)) _).
  assert (length l1 = AREA) as El1.
  { unfold l1. rewrite length_wr; rewrite ?length_rd; plia. }
  nsimpl. rewrite wraps_small by plia.
  set (first := first_cell_pos n - 8). set (o := Z.to_nat (first - HEADER_SIZE)).
  assert (first = HEADER_SIZE + Z.of_nat o) as Eo by plia.
  nsimpl. rewrite Eo. rewrite (int2Bytes_4 _ o) by plia. nsimpl.
  replace (HEADER_SIZE + Z.of_nat o + 4) with (HEADER_SIZE + Z.of_nat (o + 4)) by lia.
  rewrite int2Bytes_4 by plia. nsimpl.
  replace (HEADER_SIZE + Z.of_nat kth * 2) with (HEADER_SIZE + Z.of_nat (2 * kth)) by lia.
  rewrite int2Bytes_2 by plia. nsimpl. rewrite wraps_small by lia.
  unfold page_with. rewrite length_int_cell. change (Z.of_nat 8) with 8.
  fold first. fold l1. fold o. rewrite <-Eo. unfold int_cell. cbn [fst snd].
  rewrite <-(wr_app l1 o (le_bytes 4 k)) by (rewrite !length_le_bytes; plia).
  by rewrite length_le_bytes.
Qed.

(** ** Where an insertion goes *)

(** The scan of [insertLeafCell] on the list of records: [None] on a duplicate key. *)
Fixpoint leaf_scan (k : Z) (kvs : list (Z * list Z)) : option nat :=
  match kvs with
  | [] => Some 0%nat
  | (k', _) :: kvs =>
      if k' =? k then None else if k' >? k then Some 0%nat else S <$> leaf_scan k kvs
  end.

(** The scan of [insertIntCell]. *)
Fixpoint int_scan (k : Z) (kps : list (Z * Z)) : nat :=
  match kps with
  | [] => 0
  | (k', _) :: kps => if k' >? k then 0 else S (int_scan k kps)
  end.

Lemma leaf_scan_le k kvs j : leaf_scan k kvs = Some j → (j ≤ length kvs)%nat.
Proof.
  revert j. induction kvs as [|[k' d] kvs IH]; intros j; simpl; [naive_solver lia|].
  repeat case_match; try naive_solver lia.
  destruct (leaf_scan k kvs); simpl; intros; simplify_eq. specialize (IH _ eq_refl). lia.
Qed.

Lemma int_scan_le k kps : (int_scan k kps ≤ length kps)%nat.
Proof. induction kps as [|[k' d] kps IH]; simpl; [lia|]. case_match; lia. Qed.

Lemma leaf_pos_spec n kvs k i :
  leaf_page n kvs → (i ≤ length kvs)%nat →
  leaf_pos (length kvs - i) n k (Z.of_nat i) =
    Ok ((λ j, Z.of_nat (i + j)) <$> leaf_scan k (drop i kvs)).
Proof.
  intros Hn. remember (length kvs - i)%nat as c eqn:Ec. revert i Ec.
  induction c as [|c IH]; intros i Ec Hi.
  - rewrite drop_ge by lia. simpl. do 2 f_equal. lia.
  - destruct (lookup_lt_is_Some_2 kvs i ltac:(lia)) as [[k' d'] Hk'].
    rewrite (drop_S _ _ _ Hk'). simpl.
    destruct (getKthLeafCell_spec _ _ _ _ _ Hn Hk') as (off & -> & _). cbn [mbind result_bind lc_key].
    case_match; [done|]. case_match; [simpl; do 2 f_equal; lia|].
    replace (Z.of_nat i + 1) with (Z.of_nat (S i)) by lia.
    rewrite IH by lia. destruct (leaf_scan k (drop (S i) kvs)); simpl; do 2 f_equal; lia.
Qed.

Lemma int_pos_spec n kps k i :
  int_page n kps → (i ≤ length kps)%nat →
  int_pos (length kps - i) n k (Z.of_nat i) = Ok (Z.of_nat (i + int_scan k (drop i kps))).
Proof.
  intros Hn. remember (length kps - i)%nat as c eqn:Ec. revert i Ec.
  induction c as [|c IH]; intros i Ec Hi.
  - rewrite drop_ge by lia. simpl. f_equal. lia.
  - destruct (lookup_lt_is_Some_2 kps i ltac:(lia)) as [[k' p'] Hk'].
    rewrite (drop_S _ _ _ Hk'). simpl.
    rewrite (getKthIntCell_spec _ _ _ _ _ Hn Hk'). cbn [mbind result_bind ic_key].
    case_match; [f_equal; lia|].
    replace (Z.of_nat i + 1) with (Z.of_nat (S i)) by lia.
    rewrite IH by lia. f_equal. lia.
Qed.

Lemma leaf_page_size n kvs : leaf_page n kvs → cell_size n = Z.of_nat (length kvs).
Proof. intros (_ & Hp & _). rewrite (pr_size _ _ Hp). by rewrite length_fmap. Qed.
Lemma int_page_size n kps : int_page n kps → cell_size n = Z.of_nat (length kps).
Proof. intros (_ & Hp & _). rewrite (pr_size _ _ Hp). by rewrite length_fmap. Qed.

Lemma leaf_pos_all n kvs k :
  leaf_page n kvs →
  leaf_pos (Z.to_nat (cell_size n)) n k 0 = Ok (Z.of_nat <$> leaf_scan k kvs).
Proof.
  intros Hn. rewrite (leaf_page_size _ _ Hn), Nat2Z.id.
  pose proof (leaf_pos_spec n kvs k 0 Hn ltac:(lia)) as R.
  by rewrite Nat.sub_0_r, drop_0 in R.
Qed.

Lemma int_pos_all n kps k :
  int_page n kps → int_pos (Z.to_nat (cell_size n)) n k 0 = Ok (Z.of_nat (int_scan k kps)).
Proof.
  intros Hn. rewrite (int_page_size _ _ Hn), Nat2Z.id.
  pose proof (int_pos_spec n kps k 0 Hn ltac:(lia)) as R.
  by rewrite Nat.sub_0_r, drop_0 in R.
Qed.

(** ** Insertion into a page that needs no compaction *)

Lemma spaceCheck_with_ok clean n size :
  frag_size n ≤ 64 → HEADER_SIZE + 2 * cell_size n + size ≤ first_cell_pos n →
  spaceCheck_with clean n size = Ok (true, n).
Proof.
  intros Hf Hs. unfold spaceCheck_with. change (Z.shiftl 1 6) with 64.
  rewrite Z.gtb_ltb. destruct (Z.ltb_spec 64 (frag_size n)); [lia|].
  cbn [mbind result_bind]. case_match; [lia|done].
Qed.

Lemma page_with_leaf n kvs j k d :
  leaf_page n kvs → (j ≤ length kvs)%nat → rec_ok (k, d) → fits n (8 + Z.of_nat (length d)) →
  leaf_page (page_with n j (leaf_cell (k, d))) (insert_at j (k, d) kvs).
Proof.
  intros (Hl & Hp & Hok) Hj Hr Hf. split; [done|split].
  - unfold insert_at. rewrite fmap_app, fmap_cons, fmap_take, fmap_drop.
    apply page_with_repr; [done|by rewrite length_fmap|by apply leaf_cell_ok|].
    unfold fits in Hf. rewrite (pr_size _ _ Hp) in Hf.
    rewrite length_leaf_cell. cbn [snd]. lia.
  - by apply insert_at_Forall.
Qed.

Lemma page_with_int n kps j k p :
  int_page n kps → (j ≤ length kps)%nat → kp_ok (k, p) → fits n 8 →
  int_page (page_with n j (int_cell (k, p))) (insert_at j (k, p) kps).
Proof.
  intros (Hl & Hp & Hok) Hj Hr Hf. split; [done|split].
  - unfold insert_at. rewrite fmap_app, fmap_cons, fmap_take, fmap_drop.
    apply page_with_repr; [done|by rewrite length_fmap|by apply int_cell_ok|].
    unfold fits in Hf. rewrite (pr_size _ _ Hp) in Hf.
    rewrite length_int_cell. lia.
  - by apply insert_at_Forall.
Qed.

(** What an insertion returns once [spaceCheck] let it through with page [n]. *)
Lemma insertLeafCell_with_spec sc n0 n kvs k d :
  is_leaf n0 = 1 → sc n0 (Z.of_nat (length d) + 8) = Ok (true, n) →
  leaf_page n kvs → fits n (8 + Z.of_nat (length d)) →
  insertLeafCell_with sc n0 k d =
    match leaf_scan k kvs with
    | None => Ok (false, n)
    | Some j => Ok (true, page_with n j (leaf_cell (k, d)))
    end.
Proof.
  intros H0 Hsc Hn Hf. unfold insertLeafCell_with. rewrite H0.
  cbn [assert_ mbind result_bind Z.eqb Pos.eqb]. rewrite Hsc. cbn [mbind result_bind negb].
  rewrite (leaf_pos_all n kvs) by done. cbn [mbind result_bind].
  destruct (leaf_scan k kvs) as [j|] eqn:Ej; simpl; [|done].
  rewrite (leaf_insert_code n kvs); [done|done|by eapply leaf_scan_le|done].
Qed.

Lemma insertIntCell_with_spec sc n0 n kps k p :
  is_leaf n0 = 0 → p ≠ 0 → sc n0 8 = Ok (true, n) →
  int_page n kps → fits n 8 →
  insertIntCell_with sc n0 k p = Ok (true, page_with n (int_scan k kps) (int_cell (k, p))).
Proof.
  intros H0 Hp0 Hsc Hn Hf. unfold insertIntCell_with. rewrite H0.
  rewrite (proj2 (Z.eqb_neq p 0)) by done.
  cbn [assert_ mbind result_bind Z.eqb Pos.eqb negb]. rewrite Hsc. cbn [mbind result_bind negb].
  rewrite (int_pos_all n kps) by done. cbn [mbind result_bind].
  by rewrite (int_insert_code n kps) by (done || apply int_scan_le).
Qed.

(** ** Compaction *)

Definition keys {A} (l : list (Z * A)) : list Z := l.*1.
Definition sorted {A} (l : list (Z * A)) : Prop := StronglySorted Z.lt (keys l).

Lemma leaf_scan_last k kvs :
  Forall (λ kv, kv.1 < k) kvs → leaf_scan k kvs = Some (length kvs).
Proof.
  induction 1 as [|[k' d] kvs Hk _ IH]; [done|]. simpl in *. rewrite IH.
  rewrite Z.gtb_ltb. zbool; try lia; try done.
Qed.

Lemma int_scan_last k kps : Forall (λ kp, kp.1 ≤ k) kps → int_scan k kps = length kps.
Proof.
  induction 1 as [|[k' d] kps Hk _ IH]; [done|]. simpl in *. rewrite IH.
  rewrite Z.gtb_ltb. zbool; try lia; try done.
Qed.

Lemma insert_at_end {A} (x : A) l : insert_at (length l) x l = l ++ [x].
Proof. unfold insert_at. by rewrite firstn_all, drop_all. Qed.

Lemma sorted_app {A} (l1 l2 : list (Z * A)) :
  sorted (l1 ++ l2) ↔
  sorted l1 ∧ sorted l2 ∧ ∀ x y, x ∈ l1 → y ∈ l2 → x.1 < y.1.
Proof.
  unfold sorted, keys. rewrite fmap_app. split.
  - intros H. repeat split.
    + by eapply StronglySorted_app_1_l.
    + by eapply StronglySorted_app_1_r.
    + intros x y Hx Hy. eapply StronglySorted_app_1_elem_of; [done|..];
        by apply list_elem_of_fmap_2.
  - intros (H1 & H2 & H). apply StronglySorted_app_2; [|done|done].
    intros a b (x & -> & Hx)%list_elem_of_fmap (y & -> & Hy)%list_elem_of_fmap. by apply H.
Qed.

Lemma sorted_before {A} (l : list (Z * A)) i x :
  sorted l → l !! i = Some x → Forall (λ y, y.1 < x.1) (take i l).
Proof.
  intros Hs Hi. rewrite <-(take_drop_middle _ _ _ Hi) in Hs.
  apply sorted_app in Hs as (_ & _ & H). apply Forall_forall. intros y Hy.
  apply H; [done|]. by left.
Qed.

(** Room for the first [i + 1] cells of a represented page on a fresh page. *)
Lemma fresh_room n cells i c :
  page_repr n cells → cells !! i = Some c →
  HEADER_SIZE + 2 * Z.of_nat (i + 1) + Z.of_nat (length c) + cells_bytes (take i cells) ≤ PAGE_SIZE.
Proof.
  intros Hp Hi. pose proof (lookup_lt_Some _ _ _ Hi).
  destruct Hp as [_ _ _ Har Hfr Hac _].
  rewrite <-(take_drop_middle _ _ _ Hi), cells_bytes_app in Hac. simpl in Hac.
  pose proof (cells_bytes_nonneg (drop (S i) cells)). lia.
Qed.

Lemma cleanup_leaf_cells_spec n kvs cnt i t :
  leaf_page n kvs → sorted kvs → cnt = (length kvs - i)%nat → (i ≤ length kvs)%nat →
  leaf_page t (take i kvs) → frag_size t = 0 →
  ∃ t', cleanup_leaf_cells cnt (Z.of_nat i) n t = Ok t' ∧
    leaf_page t' kvs ∧ frag_size t' = 0.
Proof.
  intros Hn Hs Hc. revert i t Hc.
  induction cnt as [|cnt IH]; intros i t Hc Hi Ht Hf.
  { exists t. rewrite take_ge in Ht by lia. done. }
  destruct (lookup_lt_is_Some_2 kvs i ltac:(lia)) as [[k d] Hk].
  destruct (getKthLeafCell_spec _ _ _ _ _ Hn Hk) as (off & Hget & Hrd).
  cbn [cleanup_leaf_cells]. rewrite Hget. cbn [mbind result_bind lc_data_point lc_size lc_key].
  rewrite Hrd. cbn [mbind result_bind].
  pose proof (leaf_page_size _ _ Ht) as Hsz. rewrite length_take in Hsz.
  destruct Hn as (Hl & Hp & Hok) eqn:En.
  assert ((leaf_cell <$> kvs) !! i = Some (leaf_cell (k, d))) as Hck
    by (by rewrite list_lookup_fmap, Hk).
  pose proof (fresh_room _ _ _ _ Hp Hck) as Hroom.
  rewrite length_leaf_cell in Hroom. cbn [snd] in Hroom.
  assert (fits t (8 + Z.of_nat (length d))) as Hfit.
  { destruct Ht as (_ & Htp & _). pose proof (pr_acct _ _ Htp) as Ha.
    rewrite <-fmap_take in Hroom. unfold fits. lia. }
  rewrite (insertLeafCell_with_spec spaceCheck_scratch t t (take i kvs));
    [|by destruct Ht| |done|done].
  2:{ apply spaceCheck_with_ok; [lia|]. unfold fits in Hfit. lia. }
  rewrite leaf_scan_last by (by eapply (sorted_before _ _ (k, d))).
  cbn [mbind result_bind].
  replace (Z.of_nat i + 1) with (Z.of_nat (S i)) by lia.
  apply IH; [lia|lia| |done].
  rewrite (take_S_r _ _ _ Hk), <-insert_at_end.
  apply page_with_leaf; [done|done| |done].
  by apply (proj1 (Forall_lookup _ _) Hok _ _ Hk).
Qed.

Lemma cleanup_int_cells_spec n kps cnt i t :
  int_page n kps → sorted kps → cnt = (length kps - i)%nat → (i ≤ length kps)%nat →
  int_page t (take i kps) → frag_size t = 0 →
  ∃ t', cleanup_int_cells cnt (Z.of_nat i) n t = Ok t' ∧ int_page t' kps ∧ frag_size t' = 0.
Proof.
  intros Hn Hs Hc. revert i t Hc.
  induction cnt as [|cnt IH]; intros i t Hc Hi Ht Hf.
  { exists t. rewrite take_ge in Ht by lia. done. }
  destruct (lookup_lt_is_Some_2 kps i ltac:(lia)) as [[k p] Hk].
  cbn [cleanup_int_cells]. rewrite (getKthIntCell_spec _ _ _ _ _ Hn Hk).
  cbn [mbind result_bind ic_key ic_child_point].
  pose proof (int_page_size _ _ Ht) as Hsz. rewrite length_take in Hsz.
  destruct Hn as (Hl & Hp & Hok) eqn:En.
  pose proof (proj1 (Forall_lookup _ _) Hok _ _ Hk) as [Hkk Hpp]. cbn [fst snd] in *.
  assert ((int_cell <$> kps) !! i = Some (int_cell (k, p))) as Hck
    by (by rewrite list_lookup_fmap, Hk).
  pose proof (fresh_room _ _ _ _ Hp Hck) as Hroom. rewrite length_int_cell in Hroom.
  assert (fits t 8) as Hfit.
  { destruct Ht as (_ & Htp & _). pose proof (pr_acct _ _ Htp) as Ha.
    rewrite <-fmap_take in Hroom. unfold fits. lia. }
  rewrite (insertIntCell_with_spec spaceCheck_scratch t t (take i kps));
    [|by destruct Ht|lia| |done|done].
  2:{ apply spaceCheck_with_ok; [lia|]. unfold fits in Hfit. lia. }
  rewrite int_scan_last
    by (eapply Forall_impl; [by eapply (sorted_before _ _ (k, p))|]; simpl; lia).
  cbn [mbind result_bind].
  replace (Z.of_nat i + 1) with (Z.of_nat (S i)) by lia.
  apply IH; [lia|lia| |done].
  rewrite (take_S_r _ _ _ Hk), <-insert_at_end. by apply page_with_int.
Qed.

Lemma init_repr leaf :
  page_repr (mkNode leaf 0 PAGE_SIZE 0 0 (content zero_Node)) [].
Proof.
  split; nsimpl.
  - unfold zero_Node. cbn [content]. by rewrite length_replicate.
  - apply Forall_replicate. unfold byte_ok. lia.
  - done.
  - simpl. plia.
  - lia.
  - done.
  - intros i c Hi. by rewrite lookup_nil in Hi.
Qed.

Lemma init_leaf_page : leaf_page init_leaf_node [].
Proof. split; [done|]. split; [apply init_repr|done]. Qed.
Lemma init_int_page : int_page init_int_node [].
Proof. split; [done|]. split; [apply init_repr|done]. Qed.

Lemma spaceCleanUp_leaf n kvs :
  leaf_page n kvs → sorted kvs →
  ∃ n', spaceCleanUp n = Ok n' ∧ leaf_page n' kvs ∧ frag_size n' = 0.
Proof.
  intros Hn Hs. destruct (cleanup_leaf_cells_spec n kvs (length kvs) 0 init_leaf_node)
    as (n' & Hc & Hp & Hf); [done|done|lia|lia|apply init_leaf_page|done|].
  exists n'. split; [|done]. unfold spaceCleanUp. rewrite (leaf_page_size _ _ Hn), Nat2Z.id.
  destruct Hn as (-> & _). done.
Qed.

Lemma spaceCleanUp_int n kps :
  int_page n kps → sorted kps →
  ∃ n', spaceCleanUp n = Ok n' ∧ int_page n' kps ∧ frag_size n' = 0 ∧
    right_child n' = right_child n.
Proof.
  intros Hn Hs. destruct (cleanup_int_cells_spec n kps (length kps) 0 init_int_node)
    as (n' & Hc & Hp & Hf); [done|done|lia|lia|apply init_int_page|done|].
  exists (set_right_child (right_child n) n'). split_and!; [| |done|done].
  2:{ destruct Hp as (? & [] & ?). split; [done|]. split; [|done]. by split. }
  unfold spaceCleanUp. rewrite (int_page_size _ _ Hn), Nat2Z.id.
  destruct Hn as (-> & _). change (negb (0 =? 0)) with false. cbv iota. change 0 with (Z.of_nat 0). rewrite Hc. done.
Qed.

(** ** The operations as called by the tree *)

Definition leaf_bytes (kvs : list (Z * list Z)) : Z := cells_bytes (leaf_cell <$> kvs).

Lemma int_bytes kps : cells_bytes (int_cell <$> kps) = 8 * Z.of_nat (length kps).
Proof.
  induction kps as [|kp kps IH]; [done|]. rewrite fmap_cons. unfold cells_bytes in *. cbn [foldr].
  rewrite IH, length_int_cell. cbn [length]. lia.
Qed.

(** Unless the page is too full, the check succeeds, and leaves at most 64 bytes of
    fragments. *)
Lemma spaceCheck_leaf n kvs size :
  leaf_page n kvs → sorted kvs → 0 ≤ size →
  HEADER_SIZE + 2 * Z.of_nat (length kvs + 1) + leaf_bytes kvs + 64 + size ≤ PAGE_SIZE →
  ∃ n', spaceCheck n size = Ok (true, n') ∧ leaf_page n' kvs ∧ frag_size n' ≤ 64 ∧ fits n' size.
Proof.
  intros Hn Hs Hz Hroom.
  assert (∃ n', (if frag_size n >? 64 then spaceCleanUp n else Ok n) = Ok n' ∧
            leaf_page n' kvs ∧ frag_size n' ≤ 64) as (n' & Hc & Hn' & Hf).
  { rewrite Z.gtb_ltb. zbool; [|by exists n].
    destruct (spaceCleanUp_leaf n kvs Hn Hs) as (n' & ? & ? & ?). exists n'. split_and!; [done..|lia]. }
  assert (fits n' size) as Hfit.
  { pose proof (leaf_page_size _ _ Hn'). destruct Hn' as (_ & Hp & _).
    pose proof (pr_acct _ _ Hp). unfold fits, leaf_bytes in *. lia. }
  exists n'. split_and!; [|done|done|done].
  unfold spaceCheck, spaceCheck_with. change (Z.shiftl 1 6) with 64. rewrite Hc.
  cbn [mbind result_bind]. unfold fits in Hfit. by rewrite (proj2 (Z.ltb_ge _ _)) by lia.
Qed.

Lemma spaceCheck_int n kps :
  int_page n kps → sorted kps → (length kps ≤ 100)%nat →
  ∃ n', spaceCheck n 8 = Ok (true, n') ∧ int_page n' kps ∧ frag_size n' ≤ 64 ∧ fits n' 8 ∧
    right_child n' = right_child n.
Proof.
  intros Hn Hs Hlen.
  assert (∃ n', (if frag_size n >? 64 then spaceCleanUp n else Ok n) = Ok n' ∧
            int_page n' kps ∧ frag_size n' ≤ 64 ∧ right_child n' = right_child n)
    as (n' & Hc & Hn' & Hf & Hr).
  { rewrite Z.gtb_ltb. zbool; [|by exists n].
    destruct (spaceCleanUp_int n kps Hn Hs) as (n' & ? & ? & ? & ?).
    exists n'. split_and!; [done..|lia|done]. }
  assert (fits n' 8) as Hfit.
  { pose proof (int_page_size _ _ Hn'). destruct Hn' as (_ & Hp & _).
    pose proof (pr_acct _ _ Hp) as Ha. rewrite int_bytes in Ha.
    unfold fits, HEADER_SIZE, PAGE_SIZE in *. lia. }
  exists n'. split_and!; [|done|done|done|done].
  unfold spaceCheck, spaceCheck_with. change (Z.shiftl 1 6) with 64. rewrite Hc.
  cbn [mbind result_bind]. unfold fits in Hfit. by rewrite (proj2 (Z.ltb_ge _ _)) by lia.
Qed.

Lemma insertLeafCell_spec n kvs k d :
  leaf_page n kvs → sorted kvs → rec_ok (k, d) →
  HEADER_SIZE + 2 * Z.of_nat (length kvs + 1) + leaf_bytes kvs + 64 +
    (8 + Z.of_nat (length d)) ≤ PAGE_SIZE →
  ∃ n', frag_size n' ≤ 64 ∧
    match leaf_scan k kvs with
    | None => insertLeafCell n k d = Ok (false, n') ∧ leaf_page n' kvs
    | Some j => insertLeafCell n k d = Ok (true, n') ∧ leaf_page n' (insert_at j (k, d) kvs)
    end.
Proof.
  intros Hn Hs Hr Hroom.
  destruct (spaceCheck_leaf n kvs (8 + Z.of_nat (length d)) Hn Hs ltac:(lia) Hroom)
    as (n1 & Hsc & Hn1 & Hf & Hfit).
  unfold insertLeafCell. rewrite (Z.add_comm 8) in Hsc.
  rewrite (insertLeafCell_with_spec _ n n1 kvs) by (done || by destruct Hn).
  destruct (leaf_scan k kvs) as [j|] eqn:Ej.
  - exists (page_with n1 j (leaf_cell (k, d))). split; [done|]. split; [done|].
    apply page_with_leaf; [done|by eapply leaf_scan_le|done|done].
  - by exists n1.
Qed.

Lemma insertIntCell_spec n kps k p :
  int_page n kps → sorted kps → kp_ok (k, p) → (length kps ≤ 100)%nat →
  ∃ n', insertIntCell n k p = Ok (true, n') ∧
    int_page n' (insert_at (int_scan k kps) (k, p) kps) ∧ frag_size n' ≤ 64 ∧
    right_child n' = right_child n.
Proof.
  intros Hn Hs Hr Hlen.
  destruct (spaceCheck_int n kps Hn Hs Hlen) as (n1 & Hsc & Hn1 & Hf & Hfit & Hrc).
  exists (page_with n1 (int_scan k kps) (int_cell (k, p))). split_and!; [|..|done|done].
  - unfold insertIntCell. apply insertIntCell_with_spec; try done; [by destruct Hn|].
    destruct Hr as [_ Hr]. simpl in Hr. lia.
  - apply page_with_int; [done|apply int_scan_le|done|done].
Qed.

(** The slot past the last one is inside the page. *)
Lemma page_nonempty n cells (i : nat) c :
  page_repr n cells → cells !! i = Some c → (2 ≤ length c)%nat →
  first_cell_pos n + 2 ≤ PAGE_SIZE ∧ (2 * (length cells + 1) ≤ AREA)%nat.
Proof.
  intros Hp Hi Hc. destruct (pr_cells _ _ Hp _ _ Hi) as (off & _ & ? & ? & _).
  pose proof (pr_area _ _ Hp). plia.
Qed.

Lemma close_slot n cells (kth : nat) c :
  page_repr n cells → cells !! kth = Some c → (2 ≤ length c)%nat →
  shift_down (Z.to_nat (cell_size n - Z.of_nat kth)) (Z.of_nat kth) n =
    Ok (set_content (wr (content n) (2 * kth)
      (rd (content n) (2 * (kth + 1)) (2 * (Z.to_nat (cell_size n) - kth)))) n).
Proof.
  intros Hp Hk Hc. pose proof (lookup_lt_Some _ _ _ Hk).
  destruct (page_nonempty _ _ _ _ Hp Hk Hc).
  rewrite (pr_size _ _ Hp). rewrite shift_down_spec; [|by destruct Hp|lia].
  do 5 f_equal. lia.
Qed.

Lemma removeKthLeafCell_spec n kvs (i : nat) k d :
  leaf_page n kvs → kvs !! i = Some (k, d) → frag_size n + 8 + Z.of_nat (length d) < 256 →
  ∃ n', removeKthLeafCell n (Z.of_nat i) = Ok (true, n') ∧ leaf_page n' (delete i kvs) ∧
    frag_size n' = frag_size n + 8 + Z.of_nat (length d).
Proof.
  intros Hn Hi Hf. destruct (getKthLeafCell_spec _ _ _ _ _ Hn Hi) as (off & Hg & _).
  destruct Hn as (Hl & Hp & Hok).
  assert ((leaf_cell <$> kvs) !! i = Some (leaf_cell (k, d))) as Hc
    by (by rewrite list_lookup_fmap, Hi).
  pose proof (length_leaf_cell (k, d)) as Hlc. cbn [snd] in Hlc.
  destruct (page_nonempty _ _ _ _ Hp Hc ltac:(lia)) as [Hfp Harea].
  exists (page_without n i (length (leaf_cell (k, d)))). split_and!.
  - unfold removeKthLeafCell. rewrite Hl, (page_kth_guard _ _ _ _ Hp Hc), Hg.
    cbn [assert_ mbind result_bind Z.eqb Pos.eqb].
    rewrite (close_slot _ _ _ _ Hp Hc ltac:(lia)). nsimpl. cbn [lc_size].
    pose proof (pr_size _ _ Hp) as Hs. pose proof (lookup_lt_Some _ _ _ Hc).
    pose proof (pr_frag _ _ Hp). rewrite wraps_small by plia. rewrite wrapu_small by lia.
    unfold page_without. rewrite Hlc. do 2 f_equal.
    unfold set_frag_size. nsimpl. f_equal. lia.
  - split; [done|]. split.
    + rewrite list_fmap_delete. apply page_without_repr; [done|done|lia|rewrite Hlc; lia].
    + by apply Forall_delete.
  - unfold page_without. nsimpl. lia.
Qed.

Lemma removeKthIntCell_spec n kps (i : nat) k p :
  int_page n kps → kps !! i = Some (k, p) → frag_size n + 8 < 256 →
  ∃ n', removeKthIntCell n (Z.of_nat i) = Ok (true, n') ∧ int_page n' (delete i kps) ∧
    frag_size n' = frag_size n + 8 ∧ right_child n' = right_child n.
Proof.
  intros (Hl & Hp & Hok) Hi Hf.
  assert ((int_cell <$> kps) !! i = Some (int_cell (k, p))) as Hc
    by (by rewrite list_lookup_fmap, Hi).
  pose proof (length_int_cell (k, p)) as Hlc.
  destruct (page_nonempty _ _ _ _ Hp Hc ltac:(lia)) as [Hfp Harea].
  exists (page_without n i (length (int_cell (k, p)))). split_and!.
  - unfold removeKthIntCell. rewrite Hl, (page_kth_guard _ _ _ _ Hp Hc).
    cbn [assert_ mbind result_bind Z.eqb Pos.eqb].
    rewrite (close_slot _ _ _ _ Hp Hc ltac:(lia)). nsimpl.
    pose proof (pr_size _ _ Hp) as Hs. pose proof (lookup_lt_Some _ _ _ Hc).
    pose proof (pr_frag _ _ Hp). unfold sizeof_IntCell.
    rewrite wraps_small by plia. rewrite wrapu_small by lia.
    unfold page_without. by rewrite Hlc.
  - split; [done|]. split.
    + rewrite list_fmap_delete. apply page_without_repr; [done|done|lia|rewrite Hlc; lia].
    + by apply Forall_delete.
  - unfold page_without. nsimpl. rewrite Hlc. lia.
  - done.
Qed.

End BPlusPageFacts.
