(* ===== verification/BPlusTree.v ===== *)
(** The B+ tree of [sqlite_demo/tree/BPlusTree.c] over the pages of [BPlusPage]:
    nodes in a heap, search, insertion, node splitting. *)

From S2P Require Import Prelude BPlusPage.

Module BPlusTree.
Import BPlusPage.

(** ** The heap *)

(** Nodes by address.  [operator new] hands out the next free address and fails when
    the 32-bit address space is used up. *)
Record Heap := mkHeap { nodes : gmap Z Node; next_addr : Z }.

Definition load (p : Z) : M Heap Node := λ h,
  match nodes h !! p with Some n => Ok (n, h) | None => Err FUndef end.

Definition store (p : Z) (n : Node) : M Heap unit := λ h,
  match nodes h !! p with
  | Some _ => Ok (tt, mkHeap (<[p := n]> (nodes h)) (next_addr h))
  | None => Err FUndef
  end.

Definition new_Node (n : Node) : M Heap Z := λ h,
  let p := next_addr h in
  if p + PAGE_SIZE <=? 2 ^ 32
  then Ok (p, mkHeap (<[p := n]> (nodes h)) (p + PAGE_SIZE))
  else Err FNoMem.

Definition getLeafNode : M Heap Z := new_Node init_leaf_node.
Definition getIntNode : M Heap Z := new_Node init_int_node.
Definition getTree : M Heap Z := getLeafNode.

(** ** Search *)

(** The loop over the cells of a leaf: the first cell whose key is [k]. *)
Fixpoint find_leaf (cnt : nat) (i : Z) (n : Node) (k : Z) : result (option LeafCell) :=
  match cnt with
  | O => Ok None
  | S cnt =>
      cell ← getKthLeafCell n i;
      if lc_key cell =? k then Ok (Some cell)
      else find_leaf cnt (i + 1) n k
  end.

(** The loop over the cells of an internal node, in [search] and in [insert2]: the
    child of the first cell that is not [k > cell.key], else the right child. *)
Fixpoint find_child (cnt : nat) (i : Z) (n : Node) (k : Z) : result Z :=
  match cnt with
  | O => Ok (right_child n)
  | S cnt =>
      cell ← getKthIntCell n i;
      if k >? ic_key cell then find_child cnt (i + 1) n k
      else Ok (ic_child_point cell)
  end.

(** The outputs [p_data] (node address, offset; null is [(0, 0)]) and [size_data]. *)
Record found := mkFound { f_ret : bool; f_data : Z * Z; f_size : Z }.

Fixpoint search (fuel : nat) (node k : Z) : M Heap found :=
  match fuel with
  | O => fail FFuel
  | S fuel =>
      n ← load node;
      if negb (is_leaf n =? 0) then
        r ← lift (find_leaf (Z.to_nat (cell_size n)) 0 n k);
        match r with
        | Some cell => mret (mkFound true (node, lc_data_point cell) (lc_size cell))
        | None => mret (mkFound false (0, 0) 0)
        end
      else
        child ← lift (find_child (Z.to_nat (cell_size n)) 0 n k);
        search fuel child k
  end.

(** What a caller of [search] reads through the returned pointer. *)
Definition read_found (r : found) : M Heap (option (list Z)) :=
  if f_ret r then
    n ← load (f_data r).1;
    bs ← lift (mem_read n (f_data r).2 (f_size r));
    mret (Some bs)
  else mret None.

(** ** Splitting *)

(** The part [splitLeafNode] and [splitIntNode] share: hook [new_node] and [node] into
    [father] (a new root when it is null); the result is the value of the reference
    parameter [father]. *)
Definition link_split (node new_node key father : Z) : M Heap Z :=
  if negb (father =? 0) then
    f ← load father;
    kth ← lift (getKnumByChild f node);
    if kth =? -1 then
      _ ← lift (assert_ (node =? right_child f));
      '(_, f) ← lift (insertIntCell f key node);
      _ ← store father (set_right_child new_node f);
      mret father
    else
      intcell ← lift (getKthIntCell f kth);
      '(_, f) ← lift (removeKthIntCell f kth);
      '(_, f) ← lift (insertIntCell f (ic_key intcell) new_node);
      '(_, f) ← lift (insertIntCell f key node);
      _ ← store father f;
      mret father
  else
    father ← getIntNode;
    f ← load father;
    let f := set_right_child new_node f in
    '(_, f) ← lift (insertIntCell f key node);
    _ ← store father f;
    mret father.

(** [while(node->cell_size>THE_ORDER/2)]: every turn removes a cell, so
    [cell_size] turns are enough. *)
Fixpoint split_leaf_loop (fuel : nat) (node new_node : Z) : M Heap unit :=
  n ← load node;
  if cell_size n >? THE_ORDER / 2 then
    match fuel with
    | O => fail FFuel
    | S fuel =>
        let kth := THE_ORDER / 2 in
        cell ← lift (getKthLeafCell n kth);
        data ← lift (mem_read n (lc_data_point cell) (lc_size cell));
        nn ← load new_node;
        '(_, nn) ← lift (insertLeafCell nn (lc_key cell) data);
        _ ← store new_node nn;
        '(_, n) ← lift (removeKthLeafCell n kth);
        _ ← store node n;
        split_leaf_loop fuel node new_node
    end
  else mret tt.

Definition splitLeafNode (node father : Z) : M Heap Z :=
  n ← load node;
  _ ← lift (assert_ (is_leaf n =? 1));
  _ ← lift (assert_ (THE_ORDER <=? cell_size n));
  new_node ← getLeafNode;
  _ ← split_leaf_loop (Z.to_nat (cell_size n)) node new_node;
  n ← load node;
  cell ← lift (getKthLeafCell n (cell_size n - 1));
  link_split node new_node (lc_key cell) father.

Fixpoint split_int_loop (fuel : nat) (node new_node : Z) : M Heap unit :=
  n ← load node;
  if cell_size n >? THE_ORDER / 2 + 1 then
    match fuel with
    | O => fail FFuel
    | S fuel =>
        let kth := THE_ORDER / 2 + 1 in
        cell ← lift (getKthIntCell n kth);
        nn ← load new_node;
        '(_, nn) ← lift (insertIntCell nn (ic_key cell) (ic_child_point cell));
        _ ← store new_node nn;
        '(_, n) ← lift (removeKthIntCell n kth);
        _ ← store node n;
        split_int_loop fuel node new_node
    end
  else mret tt.

Definition splitIntNode (node father : Z) : M Heap Z :=
  n ← load node;
  _ ← lift (assert_ (is_leaf n =? 0));
  _ ← lift (assert_ (THE_ORDER <=? cell_size n));
  new_node ← getIntNode;
  _ ← split_int_loop (Z.to_nat (cell_size n)) node new_node;
  n ← load node;
  nn ← load new_node;
  _ ← store new_node (set_right_child (right_child n) nn);
  cell ← lift (getKthIntCell n (THE_ORDER / 2));
  '(_, n) ← lift (removeKthIntCell n (THE_ORDER / 2));
  _ ← store node (set_right_child (ic_child_point cell) n);
  link_split node new_node (ic_key cell) father.

(** ** Insertion *)

(** The results are the return value and the final value of the reference parameter
    [father]; an internal node passes its own address as its child's [father]. *)
Fixpoint insert2 (fuel : nat) (node k : Z) (data : list Z) (father : Z) : M Heap (bool * Z) :=
  match fuel with
  | O => fail FFuel
  | S fuel =>
      n ← load node;
      if negb (is_leaf n =? 0) then
        '(ok, n) ← lift (insertLeafCell n k data);
        _ ← store node n;
        if negb ok then mret (false, father)
        else if THE_ORDER <=? cell_size n then
          father ← splitLeafNode node father;
          mret (true, father)
        else mret (true, father)
      else
        child ← lift (find_child (Z.to_nat (cell_size n)) 0 n k);
        '(ok, node) ← insert2 fuel child k data node;
        if negb ok then mret (false, father)
        else
          n ← load node;
          if THE_ORDER <=? cell_size n then
            father ← splitIntNode node father;
            mret (true, father)
          else mret (true, father)
  end.

(** The results are the return value and the final value of the reference [root]. *)
Definition insert (fuel : nat) (root k : Z) (data : list Z) : M Heap (bool * Z) :=
  '(ok, p) ← insert2 fuel root k data 0;
  if negb ok then mret (false, root)
  else mret (true, if negb (p =? 0) then p else root).

(** Running a sequence of insertions from an empty tree. *)
Fixpoint insert_all (fuel : nat) (root : Z) (kvs : list (Z * list Z)) : M Heap Z :=
  match kvs with
  | [] => mret root
  | (k, d) :: kvs =>
      '(_, root) ← insert fuel root k d;
      insert_all fuel root kvs
  end.

Definition empty_heap : Heap := mkHeap ∅ 4096.

End BPlusTree.
