(* ===== verification/BPlusTreeFacts.v ===== *)
(** The B+ tree against its contents: a representation predicate from heap pages to
    the sorted list of records a subtree holds, the search correctness, and the effect
    of every step of an insertion (page insertion, split, linking into the father). *)

From S2P Require Import Prelude BPlusPage BPlusPageFacts BPlusTree.

Module BPlusTreeFacts.
Import BPlusPage BPlusPageFacts BPlusTree.

Abbreviation recs := (list (Z * list Z)).

(** ** Internal nodes: [n] separators, [n + 1] children *)

Definition int_node (n : Node) (ks ptrs : list Z) : Prop :=
  length ptrs = S (length ks) ∧ int_page n (zip ks ptrs) ∧
  last ptrs = Some (right_child n) ∧ frag_size n ≤ 104.

(** The child an internal node sends key [k] to: the first whose separator is at
    least [k], else the last. *)
Fixpoint child_scan (k : Z) (ks : list Z) : nat :=
  match ks with
  | [] => 0
  | k' :: ks => if k >? k' then S (child_scan k ks) else 0
  end.

Lemma int_node_size n ks ptrs : int_node n ks ptrs → cell_size n = Z.of_nat (length ks).
Proof.
  intros (Hl & Hp & _). rewrite (int_page_size _ _ Hp), length_zip_with. lia.
Qed.

Lemma zip_lookup (ks ptrs : list Z) i k p :
  ks !! i = Some k → ptrs !! i = Some p → zip ks ptrs !! i = Some (k, p).
Proof. intros H1 H2. by rewrite lookup_zip_with, H1, H2. Qed.

Lemma int_node_cell n ks ptrs i k p :
  int_node n ks ptrs → ks !! i = Some k → ptrs !! i = Some p →
  getKthIntCell n (Z.of_nat i) = Ok (mkIntCell k p).
Proof.
  intros (_ & Hp & _) Hk Hpt. eapply getKthIntCell_spec; [done|]. by apply zip_lookup.
Qed.

Lemma find_child_from n ks ptrs k cnt i :
  int_node n ks ptrs → cnt = (length ks - i)%nat → (i ≤ length ks)%nat →
  ∃ p, find_child cnt (Z.of_nat i) n k = Ok p ∧
    ptrs !! (i + child_scan k (drop i ks))%nat = Some p.
Proof.
  intros Hn. revert i. induction cnt as [|cnt IH]; intros i Hc Hi.
  - exists (right_child n). split; [done|]. rewrite drop_ge by lia. simpl.
    destruct Hn as (Hl & _ & Hlast & _). rewrite <-Hlast, last_lookup, Hl.
    f_equal. lia.
  - destruct (lookup_lt_is_Some_2 ks i ltac:(lia)) as [k' Hk'].
    destruct (lookup_lt_is_Some_2 ptrs i) as [p' Hp']; [destruct Hn; lia|].
    cbn [find_child]. rewrite (int_node_cell _ _ _ _ _ _ Hn Hk' Hp').
    cbn [mbind result_bind ic_key ic_child_point].
    rewrite (drop_S _ _ _ Hk'). simpl. case_match.
    + replace (Z.of_nat i + 1) with (Z.of_nat (S i)) by lia.
      destruct (IH (S i)) as (p & ? & ?); [lia..|]. exists p. split; [done|].
      by rewrite <-Nat.add_succ_comm.
    + exists p'. by rewrite Nat.add_0_r.
Qed.

Lemma find_child_spec n ks ptrs k :
  int_node n ks ptrs →
  ∃ p, find_child (Z.to_nat (cell_size n)) 0 n k = Ok p ∧ ptrs !! child_scan k ks = Some p.
Proof.
  intros Hn. rewrite (int_node_size _ _ _ Hn), Nat2Z.id.
  destruct (find_child_from n ks ptrs k (length ks) 0) as (p & ? & ?); [done|lia|lia|].
  rewrite drop_0 in *. eauto.
Qed.

(** ** Chains of children separated by keys *)

Record child := mkChild { c_ptr : Z; c_m : recs; c_F : list Z }.

(** The children of a node with separators [ks] cover [(lo, hi]] without overlap; [P]
    holds of each in its own interval. *)
Fixpoint chain (P : Z → Z → child → Prop) (lo hi : Z) (ks : list Z) (cs : list child) : Prop :=
  match ks, cs with
  | [], [c] => P lo hi c
  | k :: ks, c :: cs => lo < k < hi ∧ P lo k c ∧ chain P k hi ks cs
  | _, _ => False
  end.

Lemma chain_length P lo hi ks cs : chain P lo hi ks cs → length cs = S (length ks).
Proof.
  revert lo cs. induction ks as [|k ks IH]; intros lo [|c cs]; simpl; try done.
  - by destruct cs.
  - intros (_ & _ & H). by rewrite (IH _ _ H).
Qed.

Lemma chain_impl (P Q : Z → Z → child → Prop) lo hi ks cs :
  (∀ a b c, c ∈ cs → P a b c → Q a b c) → chain P lo hi ks cs → chain Q lo hi ks cs.
Proof.
  revert lo cs. induction ks as [|k ks IH]; intros lo [|c [|c' cs]] HPQ; simpl; try done.
  - intros. by apply HPQ; [left|].
  - intros (? & ? & ?). destruct ks; naive_solver.
  - intros (? & ? & ?). split_and!; [lia|lia| |].
    + by apply HPQ; [left|].
    + apply IH; [|done]. intros. apply HPQ; [by right|done].
Qed.

(** The child for key [k], its interval, and how to put it back, changed or split. *)
Lemma chain_zip P lo hi ks cs k :
  chain P lo hi ks cs → lo < k ≤ hi →
  ∃ KL KR L c R lo' hi',
    ks = KL ++ KR ∧ cs = L ++ c :: R ∧ length L = length KL ∧ length KL = child_scan k ks ∧
    P lo' hi' c ∧ lo' < k ≤ hi' ∧ lo ≤ lo' ∧ hi' ≤ hi ∧
    (∀ Q c', (∀ a b x, x ∈ L ++ R → P a b x → Q a b x) → Q lo' hi' c' →
       chain Q lo hi ks (L ++ c' :: R)) ∧
    (∀ Q c1 s c2, (∀ a b x, x ∈ L ++ R → P a b x → Q a b x) →
       lo' < s < hi' → Q lo' s c1 → Q s hi' c2 →
       chain Q lo hi (KL ++ s :: KR) (L ++ c1 :: c2 :: R)) ∧
    (∀ x, x ∈ L → ∃ a b, P a b x ∧ b ≤ lo') ∧ (∀ x, x ∈ R → ∃ a b, P a b x ∧ hi' ≤ a) ∧
    (∀ x, x ∈ KL → x ≤ lo') ∧ (∀ x, x ∈ KR → hi' ≤ x).
Proof.
  revert lo cs. induction ks as [|k' ks IH]; intros lo cs; simpl.
  { destruct cs as [|c [|]]; try done. intros Hc Hk.
    exists [], [], [], c, [], lo, hi. split_and!; try done; try set_solver by lia. }
  destruct cs as [|c cs]; [done|]. intros (Hk' & Hc & Hch) Hk.
  rewrite Z.gtb_ltb. destruct (Z.ltb_spec k' k).
  - destruct (IH k' cs Hch ltac:(lia)) as
      (KL & KR & L & x & R & lo' & hi' & -> & -> & HL & Hs & Hx & Hb & Hlo & Hhi & Hre & Hsp & HL2 & HR2 & HK1 & HK2).
    exists (k' :: KL), KR, (c :: L), x, R, lo', hi'. simpl.
    split_and!; try done; try lia.
    + intros Q c' HQ Hc'. split_and!; [lia|lia|by apply HQ; [left|]|].
      apply Hre; [|done]. intros. apply HQ; [by right|done].
    + intros Q c1 s c2 HQ Hs' H1 H2. split_and!; [lia|lia|by apply HQ; [left|]|].
      apply Hsp; try done. intros. apply HQ; [by right|done].
    + intros y [->|Hy]%elem_of_cons; [|by apply HL2]. exists lo, k'. split; [done|lia].
    + intros y [->|Hy]%elem_of_cons; [lia|by apply HK1].
  - exists [], (k' :: ks), [], c, cs, lo, k'. simpl.
    split_and!; try done; try lia.
    + intros Q c' HQ Hc'. split_and!; [lia|lia|done|].
      eapply chain_impl; [|done]. intros. by apply HQ.
    + intros Q c1 s c2 HQ Hs' H1 H2. split_and!; [lia|lia|done|lia|lia|done|].
      eapply chain_impl; [|done]. intros. by apply HQ.
    + set_solver.
    + clear -Hch. revert k' cs Hch. induction ks as [|k ks IH]; intros k' cs Hch x Hx.
      * destruct cs as [|c [|]]; try done. assert (x = c) as -> by set_solver.
        exists k', hi. split; [done|lia].
      * destruct cs as [|c cs]; [done|]. destruct Hch as (? & ? & Hch).
        apply elem_of_cons in Hx as [->|Hx].
        -- exists k', k. split; [done|lia].
        -- destruct (IH _ _ Hch _ Hx) as (a & b & ? & ?). exists a, b. split; [done|lia].
    + set_solver.
    + intros x [->|Hx]%elem_of_cons; [lia|]. clear -Hch Hx. revert k' cs Hch.
      induction ks as [|k ks IH]; intros k' cs Hch; [set_solver|].
      destruct cs as [|c cs]; [done|]. destruct Hch as (? & ? & Hch).
      apply elem_of_cons in Hx as [->|Hx]; [lia|]. specialize (IH Hx _ _ Hch). lia.
Qed.

(** ** Trees in the heap *)

(** The largest record for which the one-byte counter [frag_size] cannot wrap: a split
    adds five removed cells to at most 64 bytes of fragments. *)
Definition MAXREC : nat := 30.

Definition small (kv : Z * list Z) : Prop := (length kv.2 ≤ MAXREC)%nat.
Definition within (lo hi : Z) (kv : Z * list Z) : Prop := lo < kv.1 ≤ hi.

(** [tree_at h H lo hi p m F]: in heap [H], the node at [p] roots a subtree of height
    [h] that holds the records [m], all with keys in [(lo, hi]]; its nodes are [F]. *)
Fixpoint tree_at (h : nat) (H : gmap Z Node) (lo hi p : Z) (m : recs) (F : list Z) : Prop :=
  match h with
  | O => ∃ n, H !! p = Some n ∧ leaf_page n m ∧ (length m ≤ 9)%nat ∧ Forall small m ∧
           sorted m ∧ Forall (within lo hi) m ∧ F = [p]
  | S h => ∃ n ks cs, H !! p = Some n ∧ int_node n ks (c_ptr <$> cs) ∧ (length ks ≤ 9)%nat ∧
             chain (λ a b c, tree_at h H a b (c_ptr c) (c_m c) (c_F c)) lo hi ks cs ∧
             m = concat (c_m <$> cs) ∧ F = p :: concat (c_F <$> cs)
  end.

Definition subtree (h : nat) (H : gmap Z Node) (a b : Z) (c : child) : Prop :=
  tree_at h H a b (c_ptr c) (c_m c) (c_F c).

Lemma tree_at_root h H lo hi p m F : tree_at h H lo hi p m F → p ∈ F ∧ is_Some (H !! p).
Proof. destruct h; simpl; naive_solver set_solver. Qed.

Lemma tree_at_frame h H H' lo hi p m F :
  tree_at h H lo hi p m F → (∀ q, q ∈ F → H' !! q = H !! q) → tree_at h H' lo hi p m F.
Proof.
  revert lo hi p m F. induction h as [|h IH]; simpl; intros lo hi p m F.
  - intros (n & ? & ? & ? & ? & ? & ? & ->) Hq. exists n.
    rewrite Hq by set_solver. done.
  - intros (n & ks & cs & Hn & Hi & Hl & Hc & -> & ->) Hq. exists n, ks, cs.
    split_and!; try done.
    + by rewrite Hq by set_solver.
    + eapply chain_impl; [|done]. simpl. intros a b c Hcs Hab. eapply IH; [done|].
      intros q Hqc. apply Hq. right. apply elem_of_concat. exists (c_F c).
      split; [done|]. by apply list_elem_of_fmap_2.
Qed.

Lemma chain_bounds (P : Z → Z → child → Prop) lo hi ks cs :
  (∀ a b c, P a b c → Forall (within a b) (c_m c) ∧ sorted (c_m c)) →
  chain P lo hi ks cs →
  Forall (within lo hi) (concat (c_m <$> cs)) ∧ sorted (concat (c_m <$> cs)).
Proof.
  intros HP. revert lo cs. induction ks as [|k ks IH]; intros lo cs; simpl.
  - destruct cs as [|c [|]]; try done. simpl. rewrite app_nil_r. apply HP.
  - destruct cs as [|c cs]; [done|]. intros (Hk & Hc & Hch).
    destruct (HP _ _ _ Hc) as [Hb Hs]. destruct (IH _ _ Hch) as [Hb' Hs']. simpl. split.
    + apply Forall_app. split.
      * eapply Forall_impl; [done|]. unfold within. simpl. lia.
      * eapply Forall_impl; [done|]. unfold within. simpl. lia.
    + apply sorted_app. split_and!; [done|done|]. intros x y Hx Hy.
      rewrite Forall_forall in Hb. rewrite Forall_forall in Hb'.
      specialize (Hb _ Hx). specialize (Hb' _ Hy). unfold within in *. lia.
Qed.

Lemma tree_at_bounds h H lo hi p m F :
  tree_at h H lo hi p m F → Forall (within lo hi) m ∧ sorted m.
Proof.
  revert lo hi p m F. induction h as [|h IH]; simpl; intros lo hi p m F.
  - by intros (n & ? & ? & ? & ? & ? & ? & ->).
  - intros (n & ks & cs & Hn & Hi & Hl & Hc & -> & ->).
    eapply chain_bounds; [|done]. simpl. intros a b c Hab. by eapply IH.
Qed.

(** ** Looking a key up in the records *)

Fixpoint assoc (k : Z) (m : recs) : option (list Z) :=
  match m with
  | [] => None
  | (k', d) :: m => if k' =? k then Some d else assoc k m
  end.

Lemma assoc_list_to_map k (m : recs) : assoc k m = (list_to_map m : gmap Z (list Z)) !! k.
Proof.
  induction m as [|[k' d] m IH]; simpl; [done|]. rewrite lookup_insert.
  zbool; case_decide; congruence.
Qed.

Lemma assoc_app k m1 m2 :
  assoc k (m1 ++ m2) = match assoc k m1 with Some d => Some d | None => assoc k m2 end.
Proof. induction m1 as [|[k' d] m1 IH]; simpl; [done|]. by destruct (k' =? k). Qed.

Lemma assoc_None k m : (∀ kv, kv ∈ m → kv.1 ≠ k) ↔ assoc k m = None.
Proof.
  induction m as [|[k' d] m IH]; simpl.
  { split; [done|]. by intros _ kv H%not_elem_of_nil. }
  zbool.
  - split; [|done]. intros H. destruct (H (k', d)); [by left|done].
  - rewrite <-IH. split.
    + intros H kv Hkv. apply H. by right.
    + intros H kv [->|Hkv]%elem_of_cons; [done|by apply H].
Qed.

(** The other children of a node do not hold [k]. *)
Lemma siblings_none h H k lo' hi' (L R : list child) :
  lo' < k ≤ hi' →
  (∀ x, x ∈ L → ∃ a b, subtree h H a b x ∧ b ≤ lo') →
  (∀ x, x ∈ R → ∃ a b, subtree h H a b x ∧ hi' ≤ a) →
  assoc k (concat (c_m <$> L)) = None ∧ assoc k (concat (c_m <$> R)) = None.
Proof.
  intros Hk HL HR. split; apply assoc_None; intros kv (m & Hm & Hkv)%elem_of_concat;
    apply list_elem_of_fmap in Hkv as (c & -> & Hc).
  - destruct (HL _ Hc) as (a & b & Ht & ?). apply tree_at_bounds in Ht as [Hb _].
    rewrite Forall_forall in Hb. specialize (Hb _ Hm). unfold within in Hb. lia.
  - destruct (HR _ Hc) as (a & b & Ht & ?). apply tree_at_bounds in Ht as [Hb _].
    rewrite Forall_forall in Hb. specialize (Hb _ Hm). unfold within in Hb. lia.
Qed.

Lemma concat_mid (f : child → recs) L c R :
  concat (f <$> (L ++ c :: R)) = concat (f <$> L) ++ f c ++ concat (f <$> R).
Proof. by rewrite fmap_app, concat_app. Qed.

(** ** Search *)

Lemma find_leaf_spec n kvs k cnt i :
  leaf_page n kvs → cnt = (length kvs - i)%nat → (i ≤ length kvs)%nat →
  match assoc k (drop i kvs) with
  | Some d => ∃ off, find_leaf cnt (Z.of_nat i) n k =
                Ok (Some (mkLeafCell k (Z.of_nat (length d)) off)) ∧
                mem_read n off (Z.of_nat (length d)) = Ok d
  | None => find_leaf cnt (Z.of_nat i) n k = Ok None
  end.
Proof.
  intros Hn. revert i. induction cnt as [|cnt IH]; intros i Hc Hi.
  - by rewrite drop_ge by lia.
  - destruct (lookup_lt_is_Some_2 kvs i ltac:(lia)) as [[k' d'] Hk'].
    rewrite (drop_S _ _ _ Hk'). cbn [assoc find_leaf].
    destruct (getKthLeafCell_spec _ _ _ _ _ Hn Hk') as (off & -> & Hrd).
    cbn [mbind result_bind lc_key]. destruct (Z.eqb_spec k' k) as [->|].
    + by exists off.
    + replace (Z.of_nat i + 1) with (Z.of_nat (S i)) by lia. apply IH; lia.
Qed.

(** [search] finds exactly the records of the tree, reads through to their bytes and
    leaves the heap alone; the height bounds the recursion. *)
Lemma search_spec h fuel hp lo hi p m F k :
  tree_at h (nodes hp) lo hi p m F → lo < k ≤ hi → (h < fuel)%nat →
  ∃ r, search fuel p k hp = Ok (r, hp) ∧ read_found r hp = Ok (assoc k m, hp) ∧
    f_ret r = bool_decide (is_Some (assoc k m)).
Proof.
  revert fuel lo hi p m F. induction h as [|h IH]; intros fuel lo hi p m F Ht Hk Hf;
    (destruct fuel as [|fuel]; [lia|]); cbn [search tree_at] in *.
  - destruct Ht as (n & Hp & Hn & _). unfold mbind at 1, M_bind at 1, load at 1. rewrite Hp.
    destruct Hn as (Hl & Hn') eqn:E. rewrite Hl. cbn [negb Z.eqb].
    pose proof (find_leaf_spec n m k (length m) 0 Hn ltac:(lia) ltac:(lia)) as Hfind.
    rewrite drop_0 in Hfind. rewrite (leaf_page_size _ _ Hn), Nat2Z.id.
    change (Z.of_nat 0) with 0 in Hfind.
    destruct (assoc k m) as [d|].
    + destruct Hfind as (off & -> & Hrd).
      eexists. split; [by cbn|]. split; [|done].
      unfold read_found, mbind, M_bind, load, lift. simpl. by rewrite Hp, Hrd.
    + rewrite Hfind. eexists. split; [by cbn|]. by split.
  - destruct Ht as (n & ks & cs & Hp & Hn & Hlen & Hch & -> & ->).
    unfold mbind at 1, M_bind at 1, load at 1. rewrite Hp.
    destruct (find_child_spec n ks (c_ptr <$> cs) k Hn) as (q & Hfc & Hq).
    destruct Hn as (_ & (Hl & _) & _). rewrite Hl. cbn [negb Z.eqb].
    unfold mbind, M_bind, lift. rewrite Hfc.
    destruct (chain_zip _ _ _ _ _ k Hch Hk) as
      (KL & KR & L & c & R & lo' & hi' & -> & -> & HL & Hs & Hc & Hb & _ & _ & _ & _ & HL2 & HR2 & _ & _).
    assert (q = c_ptr c) as ->.
    { rewrite <-Hs, <-HL, list_lookup_fmap, lookup_app_r, Nat.sub_diag in Hq by lia.
      by simpl in Hq; simplify_eq. }
    destruct (siblings_none h (nodes hp) k lo' hi' L R Hb HL2 HR2) as [EL ER].
    rewrite concat_mid, !assoc_app, EL, ER.
    destruct (IH fuel lo' hi' (c_ptr c) (c_m c) (c_F c)) as (r & H1 & H2 & H3);
      [done|lia|lia|].
    exists r. destruct (assoc k (c_m c)); done.
Qed.

(** ** Sorted separators *)

Abbreviation Zsorted := (StronglySorted Z.lt).

Lemma Zsorted_app (l1 l2 : list Z) :
  Zsorted (l1 ++ l2) ↔ Zsorted l1 ∧ Zsorted l2 ∧ ∀ x y, x ∈ l1 → y ∈ l2 → x < y.
Proof. rewrite StronglySorted_app. naive_solver. Qed.

Lemma Zsorted_mid (l1 l2 : list Z) s :
  Zsorted (l1 ++ s :: l2) ↔
  Zsorted l1 ∧ Zsorted l2 ∧ (∀ x, x ∈ l1 → x < s) ∧ (∀ y, y ∈ l2 → s < y).
Proof.
  rewrite Zsorted_app. split.
  - intros (H1 & H2 & H3). apply StronglySorted_inv in H2 as [H2 H4].
    rewrite Forall_forall in H4. split_and!; [done|done| |done].
    intros x Hx. apply H3; [done|by left].
  - intros (H1 & H2 & H3 & H4). split_and!; [done| |].
    + constructor; [done|]. by apply Forall_forall.
    + intros x y Hx [->|Hy]%elem_of_cons; [by apply H3|].
      specialize (H3 _ Hx). specialize (H4 _ Hy). lia.
Qed.

Lemma Zsorted_skip (l1 l2 : list Z) s : Zsorted (l1 ++ s :: l2) → Zsorted (l1 ++ l2).
Proof.
  rewrite Zsorted_mid, Zsorted_app. intros (H1 & H2 & H3 & H4). split_and!; [done|done|].
  intros x y Hx Hy. specialize (H3 _ Hx). specialize (H4 _ Hy). lia.
Qed.

Lemma chain_sorted P lo hi ks cs :
  chain P lo hi ks cs → Zsorted ks ∧ Forall (λ k, lo < k < hi) ks.
Proof.
  revert lo cs. induction ks as [|k ks IH]; intros lo [|c cs]; simpl; try done.
  - split; constructor.
  - intros (Hk & _ & Hc). destruct (IH _ _ Hc) as [Hs Hb]. split.
    + constructor; [done|]. eapply Forall_impl; [done|]. simpl. lia.
    + constructor; [lia|]. eapply Forall_impl; [done|]. simpl. lia.
Qed.

(** ** Separators and children as page cells *)

Lemma keys_zip (ks ptrs : list Z) :
  (length ks ≤ length ptrs)%nat → keys (zip ks ptrs) = ks.
Proof. intros. unfold keys. by apply fst_zip. Qed.

Lemma zip_mid (KL KR PL PR : list Z) s p :
  length KL = length PL → zip (KL ++ s :: KR) (PL ++ p :: PR) = zip KL PL ++ (s, p) :: zip KR PR.
Proof. intros H. by rewrite zip_with_app by done. Qed.

Lemma zip_last (KL PL : list Z) x :
  length KL = length PL → zip KL (PL ++ [x]) = zip KL PL.
Proof.
  intros H. rewrite <-(app_nil_r KL) at 1. rewrite zip_with_app by done. simpl.
  by rewrite app_nil_r.
Qed.

Lemma insert_at_mid {A} (x : A) l1 l2 : insert_at (length l1) x (l1 ++ l2) = l1 ++ x :: l2.
Proof. unfold insert_at. by rewrite take_app_length, drop_app_length. Qed.

Lemma int_scan_mid k (A B : list (Z * Z)) :
  (∀ x, x ∈ keys A → x ≤ k) → (∀ x, x ∈ keys B → k < x) → int_scan k (A ++ B) = length A.
Proof.
  intros HA HB. induction A as [|[k' p] A IH]; simpl.
  - destruct B as [|[k' p] B]; [done|]. simpl. rewrite Z.gtb_ltb.
    rewrite (proj2 (Z.ltb_lt _ _)); [done|]. apply HB. by left.
  - rewrite Z.gtb_ltb. rewrite (proj2 (Z.ltb_ge _ _)) by (apply HA; by left).
    rewrite IH; [done|]. intros. apply HA. by right.
Qed.

(** [getKnumByChild]. *)
Fixpoint ptr_scan (child : Z) (kps : list (Z * Z)) : option nat :=
  match kps with
  | [] => None
  | (_, p) :: kps => if p =? child then Some 0%nat else S <$> ptr_scan child kps
  end.

Lemma knum_loop_spec n kps child cnt i :
  int_page n kps → cnt = (length kps - i)%nat → (i ≤ length kps)%nat →
  knum_loop cnt (Z.of_nat i) n child =
    Ok (match ptr_scan child (drop i kps) with Some j => Z.of_nat (i + j) | None => -1 end).
Proof.
  intros Hn. revert i. induction cnt as [|cnt IH]; intros i Hc Hi.
  - by rewrite drop_ge by lia.
  - destruct (lookup_lt_is_Some_2 kps i ltac:(lia)) as [[k' p'] Hk'].
    rewrite (drop_S _ _ _ Hk'). cbn [knum_loop ptr_scan].
    rewrite (getKthIntCell_spec _ _ _ _ _ Hn Hk'). cbn [mbind result_bind ic_child_point].
    destruct (p' =? child); [f_equal; lia|].
    replace (Z.of_nat i + 1) with (Z.of_nat (S i)) by lia.
    rewrite IH by lia. destruct (ptr_scan child (drop (S i) kps)); simpl; f_equal; lia.
Qed.

Lemma getKnumByChild_spec n kps child :
  int_page n kps → child ≠ 0 →
  getKnumByChild n child =
    Ok (match ptr_scan child kps with Some j => Z.of_nat j | None => -1 end).
Proof.
  intros Hn Hc. unfold getKnumByChild. rewrite (proj2 (Z.eqb_neq child 0)) by done.
  rewrite (int_page_size _ _ Hn), Nat2Z.id.
  pose proof (knum_loop_spec n kps child (length kps) 0 Hn ltac:(lia) ltac:(lia)) as R.
  rewrite drop_0 in R. destruct Hn as (-> & _). cbn [assert_ mbind result_bind negb Z.eqb].
  exact R.
Qed.

Lemma ptr_scan_None child kps : (∀ kp, kp ∈ kps → kp.2 ≠ child) → ptr_scan child kps = None.
Proof.
  induction kps as [|[k p] kps IH]; intros H; simpl; [done|].
  rewrite (proj2 (Z.eqb_neq _ _)) by (by apply (H (k, p)); left).
  rewrite IH; [done|]. intros. apply H. by right.
Qed.

Lemma ptr_scan_mid child A k B :
  (∀ kp, kp ∈ A → kp.2 ≠ child) → ptr_scan child (A ++ (k, child) :: B) = Some (length A).
Proof.
  induction A as [|[k' p] A IH]; intros H; simpl.
  - by rewrite Z.eqb_refl.
  - rewrite (proj2 (Z.eqb_neq _ _)) by (by apply (H (k', p)); left).
    rewrite IH; [done|]. intros. apply H. by right.
Qed.

(** ** Heap steps *)

Definition set_node (p : Z) (n : Node) (hp : Heap) : Heap :=
  mkHeap (<[p := n]> (nodes hp)) (next_addr hp).

Lemma bind_load {B} p n hp (f : Node → M Heap B) :
  nodes hp !! p = Some n → (load p ≫= f) hp = f n hp.
Proof. intros H. apply bind_ok. unfold load. by rewrite H. Qed.

Lemma bind_store {B} p n hp (f : unit → M Heap B) :
  is_Some (nodes hp !! p) → (store p n ≫= f) hp = f tt (set_node p n hp).
Proof. intros [n0 H]. apply bind_ok. unfold store. by rewrite H. Qed.

Lemma bind_new {B} n hp (f : Z → M Heap B) :
  next_addr hp + PAGE_SIZE ≤ 2 ^ 32 →
  (new_Node n ≫= f) hp =
    f (next_addr hp) (mkHeap (<[next_addr hp := n]> (nodes hp)) (next_addr hp + PAGE_SIZE)).
Proof. intros H. apply bind_ok. unfold new_Node. by rewrite (proj2 (Z.leb_le _ _)). Qed.

(** ** Linking the halves of a split node into its father *)

Section link.
Context (hp : Heap) (fa : Z) (f : Node) (KL KR PL : list Z) (p : Z) (PR : list Z) (new s : Z).
Context (Hfa : nodes hp !! fa = Some f) (Hfa0 : fa ≠ 0)
  (Hf : int_node f (KL ++ KR) (PL ++ p :: PR)) (HKL : length KL = length PL)
  (Hlen : (length (KL ++ KR) ≤ 9)%nat) (Hs : Zsorted (KL ++ s :: KR))
  (Hnd : NoDup (PL ++ p :: PR)) (Hsp : kp_ok (s, p)) (Hnew : 0 < new < 2 ^ 32).

Lemma link_lengths : length KR = length PR.
Proof using All.
  destruct Hf as (Hl & _). rewrite !length_app in Hl. simpl in Hl. lia.
Qed.

Lemma link_left_ptr kp : kp ∈ zip KL PL → kp.2 ≠ p.
Proof using All.
  intros Hin Heq. destruct kp as [k q]. simpl in Heq. subst q.
  apply elem_of_zip_r in Hin. apply NoDup_app in Hnd as (_ & Hd & _).
  apply (Hd p Hin). by left.
Qed.

(** [node] is the right child: [new_node] takes its place. *)
Lemma link_split_right :
  PR = [] →
  ∃ f', link_split p new s fa hp = Ok (fa, set_node fa f' hp) ∧
    int_node f' (KL ++ s :: KR) (PL ++ p :: new :: PR) ∧ frag_size f' ≤ 64.
Proof using All.
  intros EPR. pose proof link_lengths as HKR. pose proof link_left_ptr as Hlp.
  rewrite EPR in *. destruct KR; [|done].
  rewrite app_nil_r in *. destruct Hf as (_ & Hp & Hr & _).
  rewrite zip_last in Hp by done. rewrite last_snoc in Hr. injection Hr as Hr.
  apply Zsorted_mid in Hs as (HsL & _ & Hlt & _).
  assert (keys (zip KL PL) = KL) as Hk by (apply keys_zip; lia).
  destruct (insertIntCell_spec f (zip KL PL) s p) as (f' & Hi & Hp' & Hfr & Hrc).
  { done. } { unfold sorted. by rewrite Hk. } { done. }
  { rewrite length_zip_with. lia. }
  rewrite <-(app_nil_r (zip KL PL)), int_scan_mid, insert_at_mid in Hp';
    [|rewrite Hk; intros x Hx; specialize (Hlt x Hx); lia|intros x Hx; by apply not_elem_of_nil in Hx].
  exists (set_right_child new f'). split_and!; [| |done].
  - unfold link_split. rewrite (proj2 (Z.eqb_neq fa 0)) by done. cbn [negb].
    rewrite (bind_load _ f) by done.
    erewrite bind_lift
      by (apply getKnumByChild_spec; [done|destruct Hsp as [_ Hsp']; simpl in Hsp'; lia]).
    rewrite ptr_scan_None by apply Hlp. cbn [Z.eqb Pos.eqb].
    erewrite bind_lift by (rewrite <-Hr, Z.eqb_refl; done).
    erewrite bind_lift by exact Hi. cbv beta iota. by rewrite bind_store by eauto.
  - split_and!.
    + rewrite !length_app. simpl. lia.
    + rewrite zip_mid by done. simpl. destruct Hp' as (? & [] & ?).
      split; [done|]. split; [by split|done].
    + by rewrite last_app.
    + cbn [set_right_child frag_size]. lia.
Qed.

(** [node] is the child of a cell: the cell is replaced by two. *)
Lemma link_split_inner q PR' :
  PR = q :: PR' →
  ∃ f', link_split p new s fa hp = Ok (fa, set_node fa f' hp) ∧
    int_node f' (KL ++ s :: KR) (PL ++ p :: new :: PR) ∧ frag_size f' ≤ 64.
Proof using All.
  intros EPR. pose proof link_lengths as HKR. pose proof link_left_ptr as Hlp.
  destruct KR as [|k1 KR'] eqn:EKR.
  { by rewrite EPR in HKR. }
  destruct Hf as (HlenP & Hp & Hr & Hfr0). rewrite zip_mid in Hp by done.
  pose proof (Zsorted_skip _ _ _ Hs) as Hs0.
  pose proof (Zsorted_skip _ _ _ Hs0) as Hs1.
  apply Zsorted_mid in Hs as (_ & _ & Hlt & Hgt).
  apply Zsorted_mid in Hs0 as (HsL & HsR & Hlt1 & Hgt1).
  assert (keys (zip KL PL) = KL) as Hk by (apply keys_zip; lia).
  assert (keys (zip KR' PR) = KR') as Hk' by (apply keys_zip; simpl in HKR; lia).
  rewrite !length_app in Hlen. simpl in Hlen.
  assert (length (zip KL PL) = length PL) as Hzl by (rewrite length_zip_with; lia).
  assert ((zip KL PL ++ (k1, p) :: zip KR' PR) !! length PL = Some (k1, p)) as Hcell.
  { rewrite <-Hzl. by rewrite lookup_app_r, Nat.sub_diag by lia. }
  destruct Hp as (Hleaf & Hrep & Hok) eqn:Ep. clear Ep.
  apply Forall_app in Hok as (Hok1 & Hok2). apply Forall_cons in Hok2 as ([Hk1 Hpp] & Hok2).
  cbn [fst snd] in Hk1, Hpp.
  destruct (removeKthIntCell_spec f (zip KL PL ++ (k1, p) :: zip KR' PR) (length PL) k1 p)
    as (f1 & Hrem & Hp1 & Hfr1 & Hrc1); [done|done|lia|].
  rewrite delete_take_drop, <-Hzl, take_app_length in Hp1.
  replace (S (length (zip KL PL))) with (length (zip KL PL) + 1)%nat in Hp1 by lia.
  rewrite <-drop_drop, drop_app_length in Hp1. simpl in Hp1. rewrite drop_0 in Hp1.
  destruct (insertIntCell_spec f1 (zip KL PL ++ zip KR' PR) k1 new)
    as (f2 & Hi2 & Hp2 & Hfr2 & Hrc2).
  { done. } { unfold sorted, keys in *. by rewrite fmap_app, Hk, Hk'. } { done. }
  { rewrite length_app, !length_zip_with. lia. }
  rewrite int_scan_mid, insert_at_mid in Hp2.
  2:{ rewrite Hk. intros x Hx. specialize (Hlt1 x Hx). lia. }
  2:{ rewrite Hk'. done. }
  destruct (insertIntCell_spec f2 (zip KL PL ++ (k1, new) :: zip KR' PR) s p)
    as (f3 & Hi3 & Hp3 & Hfr3 & Hrc3).
  { done. }
  { unfold sorted, keys in *. rewrite fmap_app, fmap_cons, Hk, Hk'. cbn [fst].
    by apply Zsorted_mid. }
  { done. }
  { rewrite length_app. cbn [length]. rewrite !length_zip_with. lia. }
  rewrite int_scan_mid, insert_at_mid in Hp3.
  2:{ rewrite Hk. intros x Hx. specialize (Hlt x Hx). lia. }
  2:{ unfold keys in *. rewrite fmap_cons, Hk'. done. }
  exists f3. split_and!; [| |done].
  - unfold link_split. rewrite (proj2 (Z.eqb_neq fa 0)) by done. cbn [negb].
    rewrite (bind_load _ f) by done.
    erewrite bind_lift by (apply getKnumByChild_spec; [done|lia]).
    rewrite ptr_scan_mid by apply Hlp. rewrite Hzl.
    rewrite (proj2 (Z.eqb_neq (Z.of_nat (length PL)) (-1))) by lia.
    erewrite bind_lift by (by eapply getKthIntCell_spec).
    erewrite bind_lift by exact Hrem. cbv beta iota.
    erewrite bind_lift by exact Hi2. cbv beta iota.
    erewrite bind_lift by exact Hi3. cbv beta iota. by rewrite bind_store by eauto.
  - split_and!.
    + rewrite !length_app in *. simpl in *. lia.
    + rewrite zip_mid by done. simpl. done.
    + rewrite Hrc3, Hrc2, Hrc1, <-Hr, EPR.
      change (p :: new :: q :: PR') with ([p; new] ++ q :: PR').
      change (p :: q :: PR') with ([p] ++ q :: PR').
      by rewrite !(app_assoc PL), !last_app_cons.
    + lia.
Qed.

Lemma link_split_father :
  ∃ f', link_split p new s fa hp = Ok (fa, set_node fa f' hp) ∧
    int_node f' (KL ++ s :: KR) (PL ++ p :: new :: PR) ∧ frag_size f' ≤ 64.
Proof using All.
  assert (PR = [] ∨ ∃ q PR', PR = q :: PR') as [E|(q & PR' & E)]
    by (destruct PR; eauto).
  - by apply link_split_right.
  - by eapply link_split_inner.
Qed.
End link.

(** A split root: a new root with one separator. *)
Lemma link_split_root hp p new s :
  is_Some (nodes hp !! p) → kp_ok (s, p) → 0 < new < 2 ^ 32 →
  next_addr hp + PAGE_SIZE ≤ 2 ^ 32 →
  ∃ f', link_split p new s 0 hp =
      Ok (next_addr hp, mkHeap (<[next_addr hp := f']> (nodes hp)) (next_addr hp + PAGE_SIZE)) ∧
    int_node f' [s] [p; new].
Proof.
  intros Hp Hsp Hnew Hroom.
  destruct (insertIntCell_spec (set_right_child new init_int_node) [] s p)
    as (f' & Hi & Hp' & Hfr & Hrc); [|constructor|done|simpl; lia|].
  { destruct init_int_page as (? & [] & ?). split; [done|]. by split. }
  exists f'. split.
  - unfold link_split. cbn [Z.eqb negb]. unfold getIntNode. rewrite bind_new by done.
    rewrite (bind_load _ init_int_node) by (simpl; by rewrite lookup_insert_eq).
    erewrite bind_lift by exact Hi. cbv beta iota.
    rewrite bind_store by (simpl; rewrite lookup_insert_eq; eauto).
    unfold mret, M_ret, set_node. cbn [nodes next_addr]. by rewrite insert_insert_eq.
  - split_and!; [done|exact Hp'|by rewrite Hrc|lia].
Qed.

(** ** The loops that move the upper half of a node *)

Lemma leaf_bytes_small kvs :
  Forall small kvs → 0 ≤ leaf_bytes kvs ≤ 38 * Z.of_nat (length kvs).
Proof.
  unfold leaf_bytes, small, MAXREC. induction 1 as [|kv kvs Hs _ IH]; [done|].
  rewrite fmap_cons. unfold cells_bytes in *. cbn [foldr length].
  rewrite length_leaf_cell. lia.
Qed.

Lemma delete_mid {A} (l1 : list A) x l2 : delete (length l1) (l1 ++ x :: l2) = l1 ++ l2.
Proof.
  rewrite delete_take_drop, take_app_length.
  replace (S (length l1)) with (length l1 + 1)%nat by lia.
  rewrite <-drop_drop, drop_app_length. simpl. by rewrite drop_0.
Qed.

Lemma lookup_mid {A} (l1 : list A) x l2 i : i = length l1 → (l1 ++ x :: l2) !! i = Some x.
Proof. intros ->. by rewrite lookup_app_r, Nat.sub_diag by lia. Qed.

(** What [hp'] may differ from [hp] in. *)
Definition only_changes (hp hp' : Heap) (S : Z → Prop) : Prop :=
  next_addr hp' = next_addr hp ∧ ∀ q, ¬ S q → nodes hp' !! q = nodes hp !! q.

Lemma split_leaf_loop_spec fuel hp node new n nn A B C :
  node ≠ new → nodes hp !! node = Some n → nodes hp !! new = Some nn →
  leaf_page n (A ++ B) → leaf_page nn C → length A = 5%nat → sorted (A ++ B) → sorted (C ++ B) →
  Forall small B → Forall small C → (length C + length B ≤ 10)%nat →
  frag_size n + 38 * Z.of_nat (length B) ≤ 254 → (length B ≤ fuel)%nat →
  ∃ hp' n' nn', split_leaf_loop fuel node new hp = Ok (tt, hp') ∧
    nodes hp' !! node = Some n' ∧ nodes hp' !! new = Some nn' ∧
    leaf_page n' A ∧ leaf_page nn' (C ++ B) ∧ only_changes hp hp' (λ q, q = node ∨ q = new).
Proof.
  revert fuel hp n nn C. induction B as [|[k d] B IH];
    intros fuel hp n nn C Hne Hn Hnn Hpn Hpnn HA HsA HsC HB HC Hlen Hfr Hfuel.
  - rewrite app_nil_r in *. exists hp, n, nn. split_and!; try done; [].
    destruct fuel; cbn [split_leaf_loop]; rewrite (bind_load _ n) by done;
      rewrite (leaf_page_size _ _ Hpn), HA; done.
  - destruct fuel as [|fuel]; [simpl in Hfuel; lia|].
    apply Forall_cons in HB as [Hd HB]. unfold small, MAXREC in Hd. cbn [snd] in Hd.
    pose proof (leaf_bytes_small C HC) as HCb.
    assert (Forall rec_ok (A ++ (k, d) :: B)) as Hrok by apply Hpn.
    apply Forall_app in Hrok as [_ Hrok]. apply Forall_cons in Hrok as [Hrk _].
    destruct (getKthLeafCell_spec n _ 5 k d Hpn (lookup_mid _ _ _ _ (eq_sym HA)))
      as (off & Hget & Hrd).
    destruct (insertLeafCell_spec nn C k d) as (nn' & Hfr' & Hins);
      [done|by apply sorted_app in HsC as (? & _)|done|simpl in Hlen; plia|].
    rewrite leaf_scan_last in Hins.
    2:{ apply sorted_app in HsC as (_ & _ & H). apply Forall_forall. intros x Hx.
        apply (H x (k, d)); [done|by left]. }
    rewrite insert_at_end in Hins. destruct Hins as [Hins Hpnn'].
    destruct (removeKthLeafCell_spec n _ 5 k d Hpn (lookup_mid _ _ _ _ (eq_sym HA)))
      as (n' & Hrem & Hpn' & Hfrn); [cbn [length] in Hfr; lia|].
    rewrite <-HA, delete_mid in Hpn'.
    destruct (IH fuel (set_node node n' (set_node new nn' hp)) n' nn' (C ++ [(k, d)]))
      as (hp' & n'' & nn'' & Hrun & ? & ? & ? & ? & Hnx & Hfrm); try done.
    + simpl. by rewrite lookup_insert_eq.
    + simpl. rewrite lookup_insert_ne by done. by rewrite lookup_insert_eq.
    + apply sorted_app in HsA as (H1 & H2 & H3). apply sorted_app. split_and!; [done| |].
      * by apply StronglySorted_inv in H2 as [? _].
      * intros x y Hx Hy. apply H3; [done|by right].
    + by rewrite <-app_assoc.
    + apply Forall_app. split; [done|]. by apply Forall_singleton.
    + rewrite length_app. simpl in *. lia.
    + cbn [length] in *. lia.
    + simpl in Hfuel. lia.
    + exists hp', n'', nn''. rewrite <-app_assoc in *. split_and!; try done.
      * cbn [split_leaf_loop]. rewrite (bind_load _ n) by done.
        rewrite (leaf_page_size _ _ Hpn), length_app, HA. cbn [length].
        replace (Z.of_nat (5 + S (length B)) >? THE_ORDER / 2) with true
          by (symmetry; rewrite Z.gtb_ltb; apply Z.ltb_lt; change (THE_ORDER / 2) with 5; lia).
        change (THE_ORDER / 2) with (Z.of_nat 5).
        erewrite bind_lift by exact Hget. cbn [lc_data_point lc_size lc_key].
        erewrite bind_lift by exact Hrd. rewrite (bind_load _ nn) by done.
        erewrite bind_lift by exact Hins. cbv beta iota. rewrite bind_store by eauto.
        erewrite bind_lift by exact Hrem. cbv beta iota.
        rewrite bind_store; [done|]. simpl. rewrite lookup_insert_ne by done. eauto.
      * split; [done|]. intros q Hq. rewrite Hfrm by done. simpl.
        rewrite !lookup_insert_ne by naive_solver. done.
Qed.

Lemma split_int_loop_spec fuel hp node new n nn A B C :
  node ≠ new → nodes hp !! node = Some n → nodes hp !! new = Some nn →
  int_page n (A ++ B) → int_page nn C → length A = 6%nat → sorted (A ++ B) → sorted (C ++ B) →
  (length C + length B ≤ 10)%nat → frag_size nn ≤ 64 →
  frag_size n + 8 * Z.of_nat (length B) ≤ 254 → (length B ≤ fuel)%nat →
  ∃ hp' n' nn', split_int_loop fuel node new hp = Ok (tt, hp') ∧
    nodes hp' !! node = Some n' ∧ nodes hp' !! new = Some nn' ∧
    int_page n' A ∧ int_page nn' (C ++ B) ∧ only_changes hp hp' (λ q, q = node ∨ q = new) ∧
    right_child n' = right_child n ∧ frag_size nn' ≤ 64 ∧
    frag_size n' = frag_size n + 8 * Z.of_nat (length B).
Proof.
  revert fuel hp n nn C. induction B as [|[k d] B IH];
    intros fuel hp n nn C Hne Hn Hnn Hpn Hpnn HA HsA HsC Hlen Hfnn Hfr Hfuel.
  - rewrite app_nil_r in *. exists hp, n, nn. split_and!; try done; [|simpl; lia].
    destruct fuel; cbn [split_int_loop]; rewrite (bind_load _ n) by done;
      rewrite (int_page_size _ _ Hpn), HA; done.
  - destruct fuel as [|fuel]; [simpl in Hfuel; lia|].
    assert (Forall kp_ok (A ++ (k, d) :: B)) as Hrok by apply Hpn.
    apply Forall_app in Hrok as [_ Hrok]. apply Forall_cons in Hrok as [Hrk _].
    pose proof (getKthIntCell_spec n _ 6 k d Hpn (lookup_mid _ _ _ _ (eq_sym HA))) as Hget.
    destruct (insertIntCell_spec nn C k d) as (nn' & Hins & Hpnn' & Hfr' & Hrc');
      [done|by apply sorted_app in HsC as (? & _)|done|simpl in Hlen; lia|].
    rewrite int_scan_last in Hpnn'.
    2:{ apply sorted_app in HsC as (_ & _ & H). apply Forall_forall. intros x Hx.
        apply Z.lt_le_incl, (H x (k, d)); [done|by left]. }
    rewrite insert_at_end in Hpnn'.
    destruct (removeKthIntCell_spec n _ 6 k d Hpn (lookup_mid _ _ _ _ (eq_sym HA)))
      as (n' & Hrem & Hpn' & Hfrn & Hrcn); [cbn [length] in Hfr; lia|].
    rewrite <-HA, delete_mid in Hpn'.
    destruct (IH fuel (set_node node n' (set_node new nn' hp)) n' nn' (C ++ [(k, d)]))
      as (hp' & n'' & nn'' & Hrun & ? & ? & ? & ? & (Hnx & Hfrm) & Hrc'' & Hf'' & Hfn''); try done.
    + simpl. by rewrite lookup_insert_eq.
    + simpl. rewrite lookup_insert_ne by done. by rewrite lookup_insert_eq.
    + apply sorted_app in HsA as (H1 & H2 & H3). apply sorted_app. split_and!; [done| |].
      * by apply StronglySorted_inv in H2 as [? _].
      * intros x y Hx Hy. apply H3; [done|by right].
    + by rewrite <-app_assoc.
    + rewrite length_app. simpl in *. lia.
    + cbn [length] in *. lia.
    + simpl in Hfuel. lia.
    + exists hp', n'', nn''. rewrite <-app_assoc in *. split_and!; try done.
      * cbn [split_int_loop]. rewrite (bind_load _ n) by done.
        rewrite (int_page_size _ _ Hpn), length_app, HA. cbn [length].
        replace (Z.of_nat (6 + S (length B)) >? THE_ORDER / 2 + 1) with true
          by (symmetry; rewrite Z.gtb_ltb; apply Z.ltb_lt; change (THE_ORDER / 2 + 1) with 6; lia).
        change (THE_ORDER / 2 + 1) with (Z.of_nat 6).
        erewrite bind_lift by exact Hget. cbn [ic_key ic_child_point].
        rewrite (bind_load _ nn) by done.
        erewrite bind_lift by exact Hins. cbv beta iota. rewrite bind_store by eauto.
        erewrite bind_lift by exact Hrem. cbv beta iota.
        rewrite bind_store; [done|]. simpl. rewrite lookup_insert_ne by done. eauto.
      * split; [done|]. intros q Hq. rewrite Hfrm by done. simpl.
        rewrite !lookup_insert_ne by naive_solver. done.
      * congruence.
      * rewrite Hfn'', Hfrn. cbn [length]. lia.
Qed.

(** ** Splitting a leaf and splitting an internal node *)

Lemma splitLeafNode_spec hp lo hi p fa n m :
  nodes hp !! p = Some n → p ≠ next_addr hp → leaf_page n m → length m = 10%nat →
  Forall small m → sorted m → Forall (within lo hi) m → frag_size n ≤ 64 →
  next_addr hp + PAGE_SIZE ≤ 2 ^ 32 →
  ∃ hp1 s m1 m2, splitLeafNode p fa hp = link_split p (next_addr hp) s fa hp1 ∧
    m = m1 ++ m2 ∧ lo < s < hi ∧
    tree_at 0 (nodes hp1) lo s p m1 [p] ∧
    tree_at 0 (nodes hp1) s hi (next_addr hp) m2 [next_addr hp] ∧
    next_addr hp1 = next_addr hp + PAGE_SIZE ∧
    (∀ q, q ≠ p → q ≠ next_addr hp → nodes hp1 !! q = nodes hp !! q).
Proof.
  intros Hp Hne Hn Hlen Hsm Hs Hb Hfr Hroom. set (new := next_addr hp) in *.
  rewrite <-(take_drop 5 m) in Hn, Hs, Hsm, Hb.
  set (m1 := take 5 m) in *. set (m2 := drop 5 m) in *.
  assert (length m1 = 5%nat) as H1 by (unfold m1; rewrite length_take; lia).
  assert (length m2 = 5%nat) as H2 by (unfold m2; rewrite length_drop; lia).
  apply Forall_app in Hsm as [Hsm1 Hsm2]. apply Forall_app in Hb as [Hb1 Hb2].
  pose proof Hs as Hs'. apply sorted_app in Hs' as (Hs1 & Hs2 & Hs12).
  set (hp0 := mkHeap (<[new := init_leaf_node]> (nodes hp)) (new + PAGE_SIZE)).
  destruct (split_leaf_loop_spec 10 hp0 p new n init_leaf_node m1 m2 [])
    as (hp1 & n' & nn' & Hloop & Hn' & Hnn' & Hpn' & Hpnn' & Hnx & Hfrm); try done.
  { simpl. by rewrite lookup_insert_ne. } { simpl. by rewrite lookup_insert_eq. }
  { apply init_leaf_page. } { simpl. lia. } { rewrite H2. lia. } { lia. }
  destruct (lookup_lt_is_Some_2 m1 4 ltac:(lia)) as [[s ds] Hlast].
  destruct (lookup_lt_is_Some_2 m2 0 ltac:(lia)) as [[k2 d2] Hfirst].
  assert (∀ x, x ∈ m1 → x.1 ≤ s) as Hle.
  { intros x (i & Hi)%list_elem_of_lookup_1. pose proof (lookup_lt_Some _ _ _ Hi).
    destruct (decide (i = 4%nat)) as [->|]; [by simplify_eq|].
    pose proof (sorted_before _ _ _ Hs1 Hlast) as Hbef. rewrite Forall_forall in Hbef.
    apply Z.lt_le_incl. apply (Hbef x). apply list_elem_of_lookup. exists i.
    by rewrite lookup_take_lt by lia. }
  apply list_elem_of_lookup_2 in Hlast as Hin1. apply list_elem_of_lookup_2 in Hfirst as Hin2.
  rewrite Forall_forall in Hb1. rewrite Forall_forall in Hb2.
  pose proof (Hb1 _ Hin1). pose proof (Hb2 _ Hin2). pose proof (Hs12 _ _ Hin1 Hin2).
  unfold within in *. cbn [fst] in *.
  exists hp1, s, m1, m2. split_and!; try done; try lia; [| | | |].
  - unfold splitLeafNode. rewrite (bind_load _ n) by done.
    pose proof (leaf_page_size _ _ Hn) as Hsz. rewrite length_app, H1, H2 in Hsz.
    destruct Hn as (Hl & _). erewrite bind_lift by (rewrite Hl; done).
    rewrite Hsz. erewrite bind_lift by done.
    unfold getLeafNode. rewrite bind_new by done. fold new. fold hp0.
    change (Z.to_nat (Z.of_nat (5 + 5))) with 10%nat.
    erewrite bind_ok by exact Hloop. rewrite (bind_load _ n') by done.
    rewrite (leaf_page_size _ _ Hpn'), H1.
    change (Z.of_nat 5 - 1) with (Z.of_nat 4).
    destruct (getKthLeafCell_spec n' m1 4 s ds Hpn' Hlast) as (off & Hget & _).
    by erewrite bind_lift by exact Hget.
  - unfold m1, m2. by rewrite take_drop.
  - exists n'. split_and!; try done; [lia|]. apply Forall_forall. intros x Hx.
    split; [by apply Hb1|by apply Hle].
  - exists nn'. split_and!; try done; [lia|]. apply Forall_forall. intros x Hx.
    split; [by apply (Hs12 (s, ds))|by apply Hb2].
  - intros q Hq1 Hq2. rewrite Hfrm by naive_solver. simpl. by rewrite lookup_insert_ne.
Qed.

Lemma list_snoc_take {A} (l : list A) n : length l = S n → ∃ l' x, l = l' ++ [x] ∧ length l' = n.
Proof.
  intros H. destruct (exists_last (l := l)) as (l' & x & ->); [by destruct l|].
  exists l', x. split; [done|]. rewrite length_app in H. simpl in H. lia.
Qed.

Lemma splitIntNode_spec hp p fa n K1 s K2 P1 P2 :
  nodes hp !! p = Some n → p ≠ next_addr hp →
  int_node n (K1 ++ s :: K2) (P1 ++ P2) →
  length K1 = 5%nat → length K2 = 4%nat → length P1 = 6%nat → length P2 = 5%nat →
  Zsorted (K1 ++ s :: K2) → frag_size n ≤ 64 → next_addr hp + PAGE_SIZE ≤ 2 ^ 32 →
  ∃ hp1 n' nn', splitIntNode p fa hp = link_split p (next_addr hp) s fa hp1 ∧
    nodes hp1 !! p = Some n' ∧ nodes hp1 !! next_addr hp = Some nn' ∧
    int_node n' K1 P1 ∧ int_node nn' K2 P2 ∧
    next_addr hp1 = next_addr hp + PAGE_SIZE ∧
    (∀ q, q ≠ p → q ≠ next_addr hp → nodes hp1 !! q = nodes hp !! q).
Proof.
  intros Hp Hne (Hlp & Hn & Hr & _) HK1 HK2 HP1 HP2 Hs Hfr Hroom. set (new := next_addr hp) in *.
  destruct (list_snoc_take P1 5 HP1) as (PL & p5 & -> & HPL).
  rewrite <-app_assoc in Hn. simpl in Hn. rewrite zip_mid in Hn by lia.
  apply Zsorted_mid in Hs as (Hs1 & Hs2 & Hlt & Hgt).
  change ((s, p5) :: zip K2 P2) with ([(s, p5)] ++ zip K2 P2) in Hn. rewrite app_assoc in Hn.
  assert (keys (zip K1 PL) = K1) as Ek1 by (apply keys_zip; lia).
  assert (keys (zip K2 P2) = K2) as Ek2 by (apply keys_zip; lia).
  set (hp0 := mkHeap (<[new := init_int_node]> (nodes hp)) (new + PAGE_SIZE)).
  destruct (split_int_loop_spec 10 hp0 p new n init_int_node (zip K1 PL ++ [(s, p5)]) (zip K2 P2) [])
    as (hp1 & n' & nn' & Hloop & Hn' & Hnn' & Hpn' & Hpnn' & (Hnx & Hfrm) & Hrc & Hfnn & Hfn);
    try done.
  { simpl. by rewrite lookup_insert_ne. } { simpl. by rewrite lookup_insert_eq. }
  { apply init_int_page. } { rewrite length_app, length_zip_with. simpl. lia. }
  { unfold sorted, keys in *. rewrite <-app_assoc. simpl.
    rewrite fmap_app, fmap_cons, Ek1, Ek2. by apply Zsorted_mid. }
  { unfold sorted. simpl. by rewrite Ek2. }
  { rewrite length_zip_with. simpl. lia. } { rewrite length_zip_with. lia. }
  { rewrite length_zip_with. lia. }
  assert (length (zip K1 PL) = 5%nat) as Hz by (rewrite length_zip_with; lia).
  assert (length (zip K2 P2) = 4%nat) as Hz2 by (rewrite length_zip_with; lia).
  pose proof (getKthIntCell_spec n' _ 5 s p5 Hpn' (lookup_mid _ _ [] _ (eq_sym Hz))) as Hget.
  destruct (removeKthIntCell_spec n' _ 5 s p5 Hpn' (lookup_mid _ _ [] _ (eq_sym Hz)))
    as (n'' & Hrem & Hpn'' & Hfn'' & Hrc''); [lia|].
  rewrite <-Hz, delete_mid, app_nil_r in Hpn''.
  set (hp2 := set_node p (set_right_child p5 n'') (set_node new (set_right_child (right_child n') nn') hp1)).
  exists hp2, (set_right_child p5 n''), (set_right_child (right_child n') nn').
  split_and!; [|..|].
  - unfold splitIntNode. rewrite (bind_load _ n) by done.
    pose proof (int_page_size _ _ Hn) as Hsz. rewrite !length_app, Hz, Hz2 in Hsz.
    destruct Hn as (Hl & _). erewrite bind_lift by (rewrite Hl; done).
    rewrite Hsz. erewrite bind_lift by done.
    unfold getIntNode. rewrite bind_new by done. fold new. fold hp0.
    change (Z.to_nat (Z.of_nat (5 + length [(s, p5)] + 4))) with 10%nat.
    erewrite bind_ok by exact Hloop.
    rewrite (bind_load _ n') by done. rewrite (bind_load _ nn') by done.
    rewrite bind_store by eauto. change (THE_ORDER / 2) with (Z.of_nat 5).
    erewrite bind_lift by exact Hget. erewrite bind_lift by exact Hrem. cbv beta iota.
    rewrite bind_store; [done|]. simpl. rewrite lookup_insert_ne by done. eauto.
  - simpl. by rewrite lookup_insert_eq.
  - simpl. rewrite lookup_insert_ne by done. by rewrite lookup_insert_eq.
  - split_and!.
    + rewrite length_app. simpl. lia.
    + rewrite zip_last by lia. destruct Hpn'' as (? & [] & ?). split; [done|]. split; [by split|done].
    + by rewrite last_snoc.
    + cbn [set_right_child frag_size]. rewrite length_zip_with in Hfn. lia.
  - split_and!.
    + lia.
    + simpl in Hpnn'. destruct Hpnn' as (? & [] & ?). split; [done|]. split; [by split|done].
    + cbn [set_right_child right_child]. rewrite Hrc, <-Hr.
      destruct P2 as [|x P2]; [done|]. by rewrite last_app_cons.
    + cbn [set_right_child frag_size]. lia.
  - done.
  - intros q Hq1 Hq2. simpl. rewrite !lookup_insert_ne by done.
    rewrite Hfrm by naive_solver. simpl. by rewrite lookup_insert_ne.
Qed.

Lemma chain_cut P lo hi K1 s K2 C1 C2 :
  chain P lo hi (K1 ++ s :: K2) (C1 ++ C2) → length C1 = S (length K1) →
  chain P lo s K1 C1 ∧ chain P s hi K2 C2 ∧ lo < s < hi.
Proof.
  revert lo C1. induction K1 as [|k K1 IH]; intros lo C1; simpl.
  - destruct C1 as [|c [|]]; try done. simpl. tauto.
  - destruct C1 as [|c C1]; [done|]. simpl. intros (Hk & Hc & Hch) Hl.
    destruct (IH _ _ Hch) as (? & ? & ?); [lia|]. split_and!; try done; lia.
Qed.

End BPlusTreeFacts.
