(* ===== verification/BPlusInsert.v ===== *)
(** Insertion into the B+ tree: what [insert2] does to a subtree, whether the subtree
    survives as one node or is split, by induction on the height; then [insert]. *)

From S2P Require Import Prelude BPlusPage BPlusPageFacts BPlusTree BPlusTreeFacts.

Module BPlusInsert.
Import BPlusPage BPlusPageFacts BPlusTree BPlusTreeFacts.

(** ** Ownership of nodes *)

(** The nodes [F] are distinct allocated addresses. *)
Definition own (hp : Heap) (F : list Z) : Prop :=
  NoDup F ∧ Forall (λ q, 0 < q < next_addr hp) F.

(** From [hp] to [hp'], the footprint [F] became [F']: other nodes are as before, and
    what is new in [F'] is freshly allocated. *)
Record grow (hp hp' : Heap) (F F' : list Z) : Prop := {
  g_next : next_addr hp ≤ next_addr hp';
  g_frame : ∀ q, q ∉ F → q < next_addr hp → nodes hp' !! q = nodes hp !! q;
  g_sub : ∀ q, q ∈ F' → q ∈ F ∨ next_addr hp ≤ q;
  g_own : own hp' F'
}.

Lemma own_perm hp F F' : F ≡ₚ F' → own hp F → own hp F'.
Proof. unfold own. intros E. by rewrite E. Qed.

Lemma grow_perm hp hp' F F1 F2 : F1 ≡ₚ F2 → grow hp hp' F F1 → grow hp hp' F F2.
Proof.
  intros E [H1 H2 H3 H4]. split; [done|done| |by eapply own_perm].
  intros q. rewrite <-E. apply H3.
Qed.

Lemma own_app_l hp F1 F2 : own hp (F1 ++ F2) → own hp F1.
Proof. intros [H1 H2]. apply NoDup_app in H1 as (? & _ & _). by apply Forall_app in H2 as [? _]. Qed.
Lemma own_app_r hp F1 F2 : own hp (F1 ++ F2) → own hp F2.
Proof. intros [H1 H2]. apply NoDup_app in H1 as (_ & _ & ?). by apply Forall_app in H2 as [_ ?]. Qed.

Lemma own_in hp F q : own hp F → q ∈ F → 0 < q < next_addr hp.
Proof. intros [_ H]. rewrite Forall_forall in H. apply H. Qed.

(** A growing part of a footprint stays apart from the rest. *)
Lemma grow_ctx hp hp' F F' G : own hp (F ++ G) → grow hp hp' F F' → grow hp hp' (F ++ G) (F' ++ G).
Proof.
  intros [Hnd Hb] [H1 H2 H3 [H4 H5]]. apply NoDup_app in Hnd as (HF & Hd & HG).
  apply Forall_app in Hb as [HbF HbG]. rewrite Forall_forall in HbG.
  split; [done| | |split].
  - intros q Hq. apply H2. set_solver.
  - intros q [Hq|Hq]%elem_of_app; [|set_solver]. destruct (H3 q Hq); set_solver.
  - apply NoDup_app. split_and!; [done| |done]. intros q Hq HqG.
    destruct (H3 q Hq) as [?|Hge]; [by eapply Hd|]. specialize (HbG _ HqG). simpl in HbG. lia.
  - apply Forall_app. split; [done|]. apply Forall_forall. intros q Hq.
    specialize (HbG _ Hq). simpl in *. lia.
Qed.

(** ** The two ways an insertion into a subtree ends *)

(** [r] is the rest of the computation of [insert2] on the subtree at [p]: either it has
    returned with the subtree holding [m'], or it goes on to link a freshly split-off
    sibling into [fa]. *)
Definition outcome (h : nat) (lo hi p fa : Z) (hp : Heap) (F : list Z) (m' : recs)
    (budget : Z) (r : result (bool * Z * Heap)) : Prop :=
  ∃ hp', next_addr hp' ≤ next_addr hp + budget ∧
    ((∃ F', r = Ok (true, fa, hp') ∧ tree_at h (nodes hp') lo hi p m' F' ∧ grow hp hp' F F') ∨
     (∃ new s m1 m2 F1 F2,
        r = (x ← link_split p new s fa; mret (true, x)) hp' ∧ m' = m1 ++ m2 ∧ lo < s < hi ∧
        tree_at h (nodes hp') lo s p m1 F1 ∧ tree_at h (nodes hp') s hi new m2 F2 ∧
        grow hp hp' F (F1 ++ F2))).

(** The record [(k, d)] was added somewhere. *)
Definition added (k : Z) (d : list Z) (m m' : recs) : Prop :=
  ∃ m1 m2, m = m1 ++ m2 ∧ m' = m1 ++ (k, d) :: m2.

Lemma added_ctx k d m m' A B : added k d m m' → added k d (A ++ m ++ B) (A ++ m' ++ B).
Proof.
  intros (m1 & m2 & -> & ->). exists (A ++ m1), (m2 ++ B). by rewrite <-!app_assoc.
Qed.

Definition end_leaf (p fa : Z) : M Heap (bool * Z) :=
  n ← load p;
  if THE_ORDER <=? cell_size n then father ← splitLeafNode p fa; mret (true, father)
  else mret (true, fa).
Definition end_int (p fa : Z) : M Heap (bool * Z) :=
  n ← load p;
  if THE_ORDER <=? cell_size n then father ← splitIntNode p fa; mret (true, father)
  else mret (true, fa).

Lemma end_leaf_spec hp hp1 lo hi p fa n m :
  nodes hp1 !! p = Some n → leaf_page n m → (length m ≤ 10)%nat → frag_size n ≤ 64 →
  Forall small m → sorted m → Forall (within lo hi) m →
  own hp [p] → next_addr hp1 = next_addr hp →
  (∀ q, q ≠ p → nodes hp1 !! q = nodes hp !! q) →
  next_addr hp + PAGE_SIZE ≤ 2 ^ 32 →
  outcome 0 lo hi p fa hp [p] m PAGE_SIZE (end_leaf p fa hp1).
Proof.
  intros Hp Hn Hlen Hfr Hsm Hs Hb Hown Hnx Hfrm Hroom.
  unfold end_leaf. rewrite (bind_load _ n) by done. rewrite (leaf_page_size _ _ Hn).
  unfold THE_ORDER. destruct (Z.leb_spec 10 (Z.of_nat (length m))).
  - pose proof (own_in _ _ p Hown ltac:(by left)) as Hp1.
    destruct (splitLeafNode_spec hp1 lo hi p fa n m)
      as (hp2 & s & m1 & m2 & Hrun & -> & Hlo & Ht1 & Ht2 & Hnx2 & Hfrm2); try done; try lia.
    exists hp2. split; [lia|]. right.
    exists (next_addr hp1), s, m1, m2, [p], [next_addr hp1]. split_and!; try done; try lia; [|].
    + unfold mbind, M_bind. by rewrite Hrun.
    + rewrite Hnx in *. split; [plia| | |split].
      * intros q Hq1 Hq2. rewrite Hfrm2 by (set_solver by lia). apply Hfrm. set_solver.
      * intros q Hq. apply elem_of_app in Hq as [?|Hq%list_elem_of_singleton]; [by left|]. right. lia.
      * simpl. rewrite NoDup_cons, list_elem_of_singleton. split; [lia|apply NoDup_singleton].
      * simpl. rewrite Forall_cons, Forall_singleton. plia.
  - exists hp1. split; [plia|]. left. exists [p]. split_and!; try done.
    + exists n. split_and!; try done. lia.
    + split; [lia| |by left|unfold own in *; by rewrite Hnx].
      intros q Hq _. apply Hfrm. set_solver.
Qed.

Lemma own_cons_ptr h H lo hi ks cs :
  chain (subtree h H) lo hi ks cs → NoDup (concat (c_F <$> cs)) → NoDup (c_ptr <$> cs).
Proof.
  revert lo cs. induction ks as [|k ks IH]; intros lo cs; simpl.
  - destruct cs as [|c [|]]; try done. intros. apply NoDup_singleton.
  - destruct cs as [|c cs]; [done|]. simpl. intros (_ & Hc & Hch) (_ & Hd & Hnd)%NoDup_app.
    constructor; [|by eapply IH]. intros (c' & Heq & Hc')%list_elem_of_fmap.
    apply tree_at_root in Hc as [Hroot _]. apply (Hd _ Hroot).
    apply elem_of_concat. exists (c_F c'). split; [|by apply list_elem_of_fmap_2].
    rewrite Heq. clear -Hch Hc'. revert k cs Hch Hc'. induction ks as [|k' ks IH]; intros k cs.
    + destruct cs as [|x [|]]; try done. intros Ht ->%list_elem_of_singleton.
      by eapply tree_at_root in Ht as [? _].
    + destruct cs as [|x cs]; [done|]. intros (_ & Ht & Hch) [->|Hin]%elem_of_cons; [|by eapply IH].
      by eapply tree_at_root in Ht as [? _].
Qed.

Lemma chain_frame h hp hp' lo hi ks cs :
  chain (subtree h (nodes hp)) lo hi ks cs →
  (∀ q, q ∈ concat (c_F <$> cs) → nodes hp' !! q = nodes hp !! q) →
  chain (subtree h (nodes hp')) lo hi ks cs.
Proof.
  intros Hc Hq. eapply chain_impl; [|done]. intros a b c Hin Ht.
  eapply tree_at_frame; [done|]. intros q Hqc. apply Hq. apply elem_of_concat.
  exists (c_F c). split; [done|]. by apply list_elem_of_fmap_2.
Qed.

(** Cutting the separators and children of a full internal node in two. *)
Lemma cut_full (ks : list Z) (cs : list child) :
  length ks = 10%nat → length cs = 11%nat →
  ∃ K1 s K2 C1 C2, ks = K1 ++ s :: K2 ∧ cs = C1 ++ C2 ∧ length K1 = 5%nat ∧
    length K2 = 4%nat ∧ length C1 = 6%nat ∧ length C2 = 5%nat.
Proof.
  intros Hk Hc. destruct (lookup_lt_is_Some_2 ks 5 ltac:(lia)) as [s Hs].
  exists (take 5 ks), s, (drop 6 ks), (take 6 cs), (drop 6 cs).
  split_and!; rewrite ?length_take, ?length_drop; try lia.
  - by rewrite take_drop_middle.
  - by rewrite take_drop.
Qed.

Lemma end_int_spec h hp hp1 lo hi p fa f ks cs F budget :
  nodes hp1 !! p = Some f → int_node f ks (c_ptr <$> cs) →
  chain (subtree h (nodes hp1)) lo hi ks cs → (length ks ≤ 10)%nat →
  (length ks = 10%nat → frag_size f ≤ 64) →
  grow hp hp1 F (p :: concat (c_F <$> cs)) →
  next_addr hp1 + PAGE_SIZE ≤ 2 ^ 32 → next_addr hp1 + PAGE_SIZE ≤ next_addr hp + budget →
  outcome (S h) lo hi p fa hp F (concat (c_m <$> cs)) budget (end_int p fa hp1).
Proof.
  intros Hp Hn Hch Hlen Hfr Hg Hroom Hbud. pose proof (chain_length _ _ _ _ _ Hch) as Hcl.
  pose proof (own_in _ _ p (g_own _ _ _ _ Hg) ltac:(by left)) as Hpb.
  unfold end_int. rewrite (bind_load _ f) by done. rewrite (int_node_size _ _ _ Hn).
  unfold THE_ORDER. destruct (Z.leb_spec 10 (Z.of_nat (length ks))).
  2:{ exists hp1. split; [plia|]. left. eexists. split_and!; [done| |done].
      exists f, ks, cs. split_and!; try done. lia. }
  destruct (cut_full ks cs) as (K1 & s & K2 & C1 & C2 & -> & -> & HK1 & HK2 & HC1 & HC2); [lia|lia|].
  destruct (chain_cut _ _ _ _ _ _ _ _ Hch) as (Hch1 & Hch2 & Hs); [lia|].
  rewrite fmap_app in Hn.
  destruct (splitIntNode_spec hp1 p fa f K1 s K2 (c_ptr <$> C1) (c_ptr <$> C2))
    as (hp2 & n' & nn' & Hrun & Hn' & Hnn' & Hi1 & Hi2 & Hnx & Hfrm);
    rewrite ?length_fmap; try done; try lia.
  { by apply chain_sorted in Hch as [? _]. }
  set (new := next_addr hp1) in *. rewrite !fmap_app, !concat_app in *.
  pose proof (g_own _ _ _ _ Hg) as [Hnd Hbd].
  assert (∀ q, q ∈ concat (c_F <$> C1) ++ concat (c_F <$> C2) → nodes hp2 !! q = nodes hp1 !! q) as Hsame.
  { intros q Hq. apply NoDup_cons in Hnd as [Hnp _]. apply Hfrm; [congruence|].
    apply Forall_cons in Hbd as [_ Hbd]. rewrite Forall_forall in Hbd. specialize (Hbd _ Hq).
    simpl in Hbd. lia. }
  exists hp2. split; [lia|]. right.
  exists new, s, (concat (c_m <$> C1)), (concat (c_m <$> C2)),
    (p :: concat (c_F <$> C1)), (new :: concat (c_F <$> C2)).
  split_and!; try done; try lia; [| | |].
  - unfold mbind, M_bind. by rewrite Hrun.
  - exists n', K1, C1. split_and!; try done; [lia|]. eapply chain_frame; [done|].
    intros q Hq. apply Hsame, elem_of_app. by left.
  - exists nn', K2, C2. split_and!; try done; [lia|]. eapply chain_frame; [done|].
    intros q Hq. apply Hsame, elem_of_app. by right.
  - apply (grow_perm _ _ _ (new :: p :: concat (c_F <$> C1) ++ concat (c_F <$> C2))).
    { rewrite (Permutation_app_comm (p :: _)). simpl. constructor.
      rewrite <-Permutation_middle. constructor. apply Permutation_app_comm. }
    destruct Hg as [Hg1 Hg2 Hg3 _]. split; [plia| | |split].
    + intros q Hq1 Hq2. destruct (decide (q = p)) as [->|Hqp].
      * destruct (Hg3 p) as [?|?]; [by left|done|lia].
      * rewrite Hfrm by (done || (unfold new; lia)). by apply Hg2.
    + intros q [->|Hq]%elem_of_cons; [right; unfold new; lia|]. by apply Hg3.
    + constructor; [|done]. intros Hin. rewrite Forall_forall in Hbd.
      specialize (Hbd _ Hin). simpl in Hbd. unfold new in Hbd. lia.
    + constructor; [plia|]. eapply Forall_impl; [exact Hbd|]. simpl. plia.
Qed.

(** ** Insertion into a leaf's records *)

Lemma leaf_scan_spec k (m : recs) :
  sorted m →
  match leaf_scan k m with
  | None => is_Some (assoc k m)
  | Some j => assoc k m = None ∧ (j ≤ length m)%nat ∧
      (∀ x, x ∈ take j m → x.1 < k) ∧ (∀ x, x ∈ drop j m → k < x.1)
  end.
Proof.
  induction m as [|[k' d] m IH]; intros Hs; cbn [leaf_scan assoc].
  - split_and!; [done|lia|by intros x Hx%not_elem_of_nil..].
  - apply StronglySorted_inv in Hs as [Hs Hall].
    destruct (Z.eqb_spec k' k) as [->|Hne]; [eauto|].
    rewrite Z.gtb_ltb. destruct (Z.ltb_spec k k').
    + split_and!; [|simpl; lia|by intros x Hx%not_elem_of_nil|].
      * apply assoc_None. intros kv Hkv. rewrite Forall_forall in Hall.
        specialize (Hall kv.1 ltac:(by apply list_elem_of_fmap_2)). simpl in Hall. lia.
      * simpl. intros x [->|Hx]%elem_of_cons; [done|]. rewrite Forall_forall in Hall.
        specialize (Hall x.1 ltac:(by apply list_elem_of_fmap_2)). simpl in Hall. lia.
    + specialize (IH Hs). destruct (leaf_scan k m) as [j|]; cbn [fmap option_fmap option_map]; [|done].
      destruct IH as (Ha & Hj & H1 & H2). split_and!; [done|simpl; lia| |done].
      simpl. intros x [->|Hx]%elem_of_cons; [simpl; lia|by apply H1].
Qed.

Lemma insert_at_sorted k d (m : recs) j :
  sorted m → (∀ x, x ∈ take j m → x.1 < k) → (∀ x, x ∈ drop j m → k < x.1) →
  sorted (insert_at j (k, d) m).
Proof.
  intros Hs H1 H2. unfold insert_at. rewrite <-(take_drop j m) in Hs.
  unfold sorted, keys in *. rewrite fmap_app in Hs. rewrite fmap_app, fmap_cons.
  apply Zsorted_app in Hs as (Hs1 & Hs2 & _). apply Zsorted_mid. split_and!; try done.
  - intros x (y & -> & Hy)%list_elem_of_fmap. by apply H1.
  - intros x (y & -> & Hy)%list_elem_of_fmap. by apply H2.
Qed.

Lemma insert_at_added k d (m : recs) j : added k d m (insert_at j (k, d) m).
Proof. exists (take j m), (drop j m). by rewrite take_drop. Qed.

(** ** One child of an internal node changes *)

Section one_child.
Context (hp hp' : Heap) (p : Z) (LF RF F F' : list Z).
Context (Hown : own hp (p :: LF ++ F ++ RF)) (Hg : grow hp hp' F F').

Lemma child_perm X : p :: LF ++ X ++ RF ≡ₚ X ++ (p :: LF ++ RF).
Proof using Type.
  rewrite <-(Permutation_middle X (LF ++ RF)). constructor.
  rewrite !app_assoc. by rewrite (Permutation_app_comm LF X).
Qed.

Lemma child_grow : grow hp hp' (p :: LF ++ F ++ RF) (p :: LF ++ F' ++ RF).
Proof using All.
  apply (grow_perm _ _ _ (F' ++ (p :: LF ++ RF))); [by rewrite child_perm|].
  assert (grow hp hp' (F ++ (p :: LF ++ RF)) (F' ++ (p :: LF ++ RF))) as [H1 H2 H3 H4].
  { apply grow_ctx; [|done]. by eapply own_perm; [apply child_perm|]. }
  split; [done| | |done].
  - intros q. rewrite (child_perm F). apply H2.
  - intros q Hq. rewrite (child_perm F). by apply H3.
Qed.

Lemma child_same q : q ∈ p :: LF ++ RF → nodes hp' !! q = nodes hp !! q.
Proof using All.
  intros Hq. eapply own_perm in Hown; [|apply child_perm].
  destruct Hown as [Hnd Hb]. apply NoDup_app in Hnd as (_ & Hd & _).
  apply Forall_app in Hb as [_ Hb]. rewrite Forall_forall in Hb.
  apply (g_frame _ _ _ _ Hg).
  - intros HF. by apply (Hd q).
  - specialize (Hb _ Hq). simpl in Hb. lia.
Qed.
End one_child.

Lemma insert2_leaf_unfold fuel hp p k d fa n :
  nodes hp !! p = Some n → is_leaf n = 1 →
  insert2 (S fuel) p k d fa hp =
    match insertLeafCell n k d with
    | Ok (true, n') => end_leaf p fa (set_node p n' hp)
    | Ok (false, n') => Ok (false, fa, set_node p n' hp)
    | Err e => Err e
    end.
Proof.
  intros Hp Hl. cbn [insert2]. rewrite (bind_load _ n) by done. rewrite Hl. cbn [negb Z.eqb].
  destruct (insertLeafCell n k d) as [[[] n']|e] eqn:E; [..|done].
  - erewrite bind_lift by done. cbv beta iota. rewrite bind_store by eauto. cbn [negb].
    unfold end_leaf. rewrite (bind_load _ n'); [done|]. simpl. by rewrite lookup_insert_eq.
  - erewrite bind_lift by done. cbv beta iota. by rewrite bind_store by eauto.
Qed.

Lemma insert2_int_unfold fuel hp p k d fa n c :
  nodes hp !! p = Some n → is_leaf n = 0 →
  find_child (Z.to_nat (cell_size n)) 0 n k = Ok c →
  insert2 (S fuel) p k d fa hp =
    match insert2 fuel c k d p hp with
    | Ok (true, node, hp') =>
        (n ← load node;
         if THE_ORDER <=? cell_size n then father ← splitIntNode node fa; mret (true, father)
         else mret (true, fa)) hp'
    | Ok (false, node, hp') => Ok (false, fa, hp')
    | Err e => Err e
    end.
Proof.
  intros Hp Hl Hc. cbn [insert2]. rewrite (bind_load _ n) by done. rewrite Hl. cbn [negb Z.eqb].
  erewrite bind_lift by done.
  destruct (insert2 fuel c k d p hp) as [[[[] node] hp']|e] eqn:E.
  - by erewrite bind_ok by exact E.
  - by erewrite bind_ok by exact E.
  - unfold mbind, M_bind. by rewrite E.
Qed.

Lemma insert2_leaf fuel hp lo hi p m F k d fa :
  tree_at 0 (nodes hp) lo hi p m F → lo < k ≤ hi → rec_ok (k, d) → small (k, d) →
  own hp F → next_addr hp + PAGE_SIZE ≤ 2 ^ 32 →
  match assoc k m with
  | Some _ => ∃ hp', insert2 (S fuel) p k d fa hp = Ok (false, fa, hp') ∧
      tree_at 0 (nodes hp') lo hi p m F ∧ grow hp hp' F F ∧ next_addr hp' = next_addr hp
  | None => ∃ m', added k d m m' ∧
      outcome 0 lo hi p fa hp F m' PAGE_SIZE (insert2 (S fuel) p k d fa hp)
  end.
Proof.
  intros (n & Hp & Hn & Hlen & Hsm & Hs & Hb & ->) Hk Hr Hsd Hown Hroom.
  rewrite (insert2_leaf_unfold _ _ _ _ _ _ n) by (done || by destruct Hn).
  pose proof (leaf_bytes_small m Hsm) as Hby.
  destruct (insertLeafCell_spec n m k d) as (n' & Hfr & Hins); [done|done|done| |].
  { unfold small, MAXREC in Hsd. cbn [snd] in Hsd. plia. }
  pose proof (leaf_scan_spec k m Hs) as Hscan.
  destruct (leaf_scan k m) as [j|].
  - destruct Hscan as (-> & Hj & H1 & H2). destruct Hins as [-> Hpn'].
    exists (insert_at j (k, d) m). split; [apply insert_at_added|].
    apply end_leaf_spec with (n := n'); try done.
    + simpl. by rewrite lookup_insert_eq.
    + rewrite length_insert_at. lia.
    + by apply insert_at_Forall.
    + by apply insert_at_sorted.
    + by apply insert_at_Forall.
    + intros q Hq. simpl. by rewrite lookup_insert_ne.
  - destruct Hscan as [d' ->]. destruct Hins as [-> Hpn'].
    exists (set_node p n' hp). split_and!; [done| | |done].
    + exists n'. split_and!; try done. simpl. by rewrite lookup_insert_eq.
    + split; [simpl; lia| |by left|done]. intros q Hq _. simpl.
      rewrite lookup_insert_ne; [done|set_solver].
Qed.

(** ** One step of the descent *)

Section descent.
Context (h : nat) (hp : Heap) (lo hi p fa : Z) (n : Node) (ks KL KR : list Z)
  (L : list child) (c : child) (R : list child) (lo' hi' : Z).
Context (Hp : nodes hp !! p = Some n) (Hn : int_node n ks (c_ptr <$> (L ++ c :: R)))
  (Hlen : (length ks ≤ 9)%nat) (Hch : chain (subtree h (nodes hp)) lo hi ks (L ++ c :: R))
  (Eks : ks = KL ++ KR) (HL : length L = length KL) (Hlo : -1 ≤ lo) (Hhi : hi < 2 ^ 32)
  (Hlo' : lo ≤ lo') (Hhi' : hi' ≤ hi)
  (Hre : ∀ Q c', (∀ a b x, x ∈ L ++ R → subtree h (nodes hp) a b x → Q a b x) → Q lo' hi' c' →
     chain Q lo hi ks (L ++ c' :: R))
  (Hsp : ∀ Q c1 s c2, (∀ a b x, x ∈ L ++ R → subtree h (nodes hp) a b x → Q a b x) →
     lo' < s < hi' → Q lo' s c1 → Q s hi' c2 →
     chain Q lo hi (KL ++ s :: KR) (L ++ c1 :: c2 :: R))
  (Hown : own hp (p :: concat (c_F <$> L) ++ c_F c ++ concat (c_F <$> R)))
  (Hroom : next_addr hp + (Z.of_nat (S h) + 1) * PAGE_SIZE ≤ 2 ^ 32).

Abbreviation F0 := (p :: concat (c_F <$> L) ++ c_F c ++ concat (c_F <$> R)).
Abbreviation m0 X := (concat (c_m <$> L) ++ X ++ concat (c_m <$> R)).

(** The node itself and the subtrees of the other children are untouched. *)
Lemma descent_same hp' F' :
  grow hp hp' (c_F c) F' → nodes hp' !! p = Some n ∧
  ∀ a b x, x ∈ L ++ R → subtree h (nodes hp) a b x → subtree h (nodes hp') a b x.
Proof using Hp Hown.
  intros Hg. split.
  - rewrite (child_same hp hp' p _ _ _ _ Hown Hg); [done|by left].
  - intros a b x Hx Hab. eapply tree_at_frame; [done|]. intros q Hqx.
    apply (child_same hp hp' p _ _ _ _ Hown Hg). right. rewrite <-concat_app, <-fmap_app.
    apply elem_of_concat. exists (c_F x). split; [done|]. by apply list_elem_of_fmap_2.
Qed.

(** The key was there already. *)
Lemma descent_found hp' :
  tree_at h (nodes hp') lo' hi' (c_ptr c) (c_m c) (c_F c) → grow hp hp' (c_F c) (c_F c) →
  tree_at (S h) (nodes hp') lo hi p (m0 (c_m c)) F0 ∧ grow hp hp' F0 F0.
Proof using All.
  intros Ht Hg. destruct (descent_same _ _ Hg) as [Hp' Hsb]. split; [|by apply child_grow].
  exists n, ks, (L ++ c :: R). split_and!; try done.
  - by apply Hre.
  - by rewrite concat_mid.
  - by rewrite fmap_app, concat_app.
Qed.

(** The child took the record without splitting. *)
Lemma descent_kept hp' F' m' :
  tree_at h (nodes hp') lo' hi' (c_ptr c) m' F' → grow hp hp' (c_F c) F' →
  next_addr hp' ≤ next_addr hp + (Z.of_nat h + 1) * PAGE_SIZE →
  outcome (S h) lo hi p fa hp F0 (m0 m') ((Z.of_nat (S h) + 1) * PAGE_SIZE) (end_int p fa hp').
Proof using All.
  intros Ht Hg Hbud. destruct (descent_same _ _ Hg) as [Hp' Hsb].
  replace (m0 m') with (concat (c_m <$> (L ++ mkChild (c_ptr c) m' F' :: R)))
    by apply concat_mid.
  apply (end_int_spec h hp hp' lo hi p fa n ks); try done; try plia.
  - by rewrite fmap_app in Hn |- *.
  - by apply Hre.
  - rewrite fmap_app, concat_app. simpl. by apply child_grow.
Qed.

(** The child was split: the two halves are linked into this node. *)
Lemma descent_split hp' new s m1 m2 F1 F2 :
  tree_at h (nodes hp') lo' s (c_ptr c) m1 F1 → tree_at h (nodes hp') s hi' new m2 F2 →
  lo' < s < hi' → grow hp hp' (c_F c) (F1 ++ F2) →
  next_addr hp' ≤ next_addr hp + (Z.of_nat h + 1) * PAGE_SIZE →
  ∃ hp'', link_split (c_ptr c) new s p hp' = Ok (p, hp'') ∧
    outcome (S h) lo hi p fa hp F0 (m0 (m1 ++ m2)) ((Z.of_nat (S h) + 1) * PAGE_SIZE)
      (end_int p fa hp'').
Proof using All.
  intros Ht1 Ht2 Hs Hg Hbud. destruct (descent_same _ _ Hg) as [Hp' Hsb].
  set (c1 := mkChild (c_ptr c) m1 F1). set (c2 := mkChild new m2 F2).
  assert (chain (subtree h (nodes hp')) lo hi (KL ++ s :: KR) (L ++ c1 :: c2 :: R)) as Hch'
    by (by apply Hsp).
  pose proof (g_own _ _ _ _ Hg) as Hown'. apply tree_at_root in Ht1 as [Hr1 _], Ht2 as [Hr2 _].
  pose proof (own_in _ _ (c_ptr c) Hown' ltac:(apply elem_of_app; by left)) as Hcb.
  pose proof (own_in _ _ new Hown' ltac:(apply elem_of_app; by right)) as Hnb.
  pose proof (own_in _ _ p Hown ltac:(by left)) as Hpb.
  pose proof (child_grow hp hp' p _ _ _ _ Hown Hg) as Hg'. rewrite <-app_assoc in Hg'.
  pose proof Hn as Hn'. rewrite Eks, fmap_app in Hn'. simpl in Hn'.
  destruct (link_split_father hp' p n KL KR (c_ptr <$> L) (c_ptr c) (c_ptr <$> R) new s)
    as (f' & Hlink & Hf' & Hfr'); rewrite ?length_fmap; try done; try plia.
  { by rewrite <-Eks. }
  { by apply chain_sorted in Hch' as [? _]. }
  { replace ((c_ptr <$> L) ++ c_ptr c :: (c_ptr <$> R)) with (c_ptr <$> (L ++ c :: R))
      by (by rewrite fmap_app).
    eapply own_cons_ptr; [exact Hch|]. rewrite fmap_app, concat_app. simpl.
    destruct Hown as [Hnd _]. by apply NoDup_cons in Hnd as [_ ?]. }
  { split; [unfold key_ok; simpl; lia|simpl; plia]. }
  exists (set_node p f' hp'). split; [done|].
  replace (m0 (m1 ++ m2)) with (concat (c_m <$> (L ++ c1 :: c2 :: R)))
    by (rewrite fmap_app, concat_app; simpl; by rewrite (app_assoc m1)).
  assert (p :: concat (c_F <$> (L ++ c1 :: c2 :: R)) =
    p :: concat (c_F <$> L) ++ F1 ++ F2 ++ concat (c_F <$> R)) as EF
    by (by rewrite fmap_app, concat_app).
  apply (end_int_spec h hp (set_node p f' hp') lo hi p fa f' (KL ++ s :: KR));
    cbn [next_addr nodes set_node]; try done; try plia.
  - by rewrite lookup_insert_eq.
  - by rewrite fmap_app.
  - apply (chain_frame h hp' (set_node p f' hp')); [exact Hch'|]. intros x Hx. simpl.
    rewrite lookup_insert_ne; [done|]. destruct (g_own _ _ _ _ Hg') as [Hnd _]. rewrite <-EF in Hnd.
    apply NoDup_cons in Hnd as [Hnp _]. by intros <-.
  - rewrite length_app. simpl. rewrite Eks, length_app in Hlen. lia.
  - rewrite EF. destruct Hg' as [H1 H2 H3 H4]. split; [done| |done|done].
    intros x Hx1 Hx2. simpl. rewrite lookup_insert_ne; [by apply H2|].
    intros <-. apply Hx1. by left.
Qed.
End descent.

Lemma insert2_spec h fuel hp lo hi p m F k d fa :
  tree_at h (nodes hp) lo hi p m F → lo < k ≤ hi → -1 ≤ lo → hi < 2 ^ 32 →
  rec_ok (k, d) → small (k, d) → own hp F →
  next_addr hp + (Z.of_nat h + 1) * PAGE_SIZE ≤ 2 ^ 32 → (h < fuel)%nat →
  match assoc k m with
  | Some _ => ∃ hp', insert2 fuel p k d fa hp = Ok (false, fa, hp') ∧
      tree_at h (nodes hp') lo hi p m F ∧ grow hp hp' F F ∧ next_addr hp' = next_addr hp
  | None => ∃ m', added k d m m' ∧
      outcome h lo hi p fa hp F m' ((Z.of_nat h + 1) * PAGE_SIZE) (insert2 fuel p k d fa hp)
  end.
Proof.
  revert fuel lo hi p m F fa. induction h as [|h IH];
    intros fuel lo hi p m F fa Ht Hk Hlo Hhi Hr Hsd Hown Hroom Hfuel;
    (destruct fuel as [|fuel]; [lia|]).
  { replace ((Z.of_nat 0 + 1) * PAGE_SIZE) with PAGE_SIZE in * by lia.
    by apply insert2_leaf. }
  destruct Ht as (n & ks & cs & Hp & Hn & Hlen & Hch & -> & ->).
  destruct (find_child_spec n ks (c_ptr <$> cs) k Hn) as (q & Hfc & Hq).
  rewrite (insert2_int_unfold _ _ _ _ _ _ n q) by (done || by destruct Hn as (_ & (? & _) & _)).
  destruct (chain_zip _ _ _ _ _ k Hch Hk) as
    (KL & KR & L & c & R & lo' & hi' & Eks & -> & HL & Hs & Hc & Hb & Hlo' & Hhi' & Hre & Hsp & HL2 & HR2 & _ & _).
  assert (q = c_ptr c) as ->.
  { rewrite <-Hs, <-HL, list_lookup_fmap, lookup_app_r, Nat.sub_diag in Hq by lia.
    by simpl in Hq; simplify_eq. }
  destruct (siblings_none h (nodes hp) k lo' hi' L R Hb HL2 HR2) as [EL ER].
  rewrite concat_mid, !assoc_app, EL, ER. rewrite fmap_app, concat_app in Hown |- *. simpl in Hown |- *.
  assert (own hp (c_F c)) as Howc.
  { eapply own_perm in Hown; [|apply child_perm]. by apply own_app_l in Hown. }
  specialize (IH fuel lo' hi' (c_ptr c) (c_m c) (c_F c) p Hc Hb ltac:(lia) ltac:(lia) Hr Hsd Howc
    ltac:(plia) ltac:(lia)).
  destruct (assoc k (c_m c)) as [d'|].
  - destruct IH as (hp' & -> & Ht' & Hg & Hnx). exists hp'.
    destruct (descent_found h hp lo hi p fa n ks KL KR L c R lo' hi' Hp Hn Hlen Hch Eks HL Hlo Hhi
      Hlo' Hhi' Hre Hsp Hown Hroom hp' Ht' Hg) as [? ?].
    by split_and!.
  - destruct IH as (m' & Hadd & hp' & Hbud & [(F' & -> & Ht' & Hg)|Hsplit]).
    + eexists. split; [by apply added_ctx|]. by eapply descent_kept.
    + destruct Hsplit as (new & s & m1 & m2 & F1 & F2 & -> & -> & Hs' & Ht1 & Ht2 & Hg).
      destruct (descent_split h hp lo hi p fa n ks KL KR L c R lo' hi' Hp Hn Hlen Hch Eks HL Hlo Hhi
        Hlo' Hhi' Hre Hsp Hown Hroom hp' new s m1 m2 F1 F2 Ht1 Ht2 Hs' Hg Hbud)
        as (hp'' & Hlink & Hout).
      eexists. split; [by apply added_ctx|]. unfold mbind at 1, M_bind at 1. by rewrite Hlink.
Qed.

End BPlusInsert.
