(* ===== verification/BPlusProps.v ===== *)
(** What the B+ tree of [sqlite_demo/tree/BPlusTree.c] promises: it implements a finite
    map from 32-bit keys to records, and where the page layout fails it. *)

From S2P Require Import Prelude BPlusPage BPlusPageFacts BPlusTree BPlusTreeFacts BPlusInsert.

Module BPlusProps.
Import BPlusPage BPlusPageFacts BPlusTree BPlusTreeFacts BPlusInsert.

(** ** The abstract specification: a map whose entries are never overwritten *)

Definition spec_insert (k : Z) (d : list Z) (m : gmap Z (list Z)) : bool * gmap Z (list Z) :=
  match m !! k with Some _ => (false, m) | None => (true, <[k := d]> m) end.

Definition spec_insert_all (kvs : recs) (m : gmap Z (list Z)) : gmap Z (list Z) :=
  foldl (λ m kv, (spec_insert kv.1 kv.2 m).2) m kvs.

(** In heap [hp], [root] is a well-formed tree of height [h] that holds the map [m]. *)
Definition bptree (hp : Heap) (root : Z) (h : nat) (m : gmap Z (list Z)) : Prop :=
  ∃ l F, tree_at h (nodes hp) (-1) (2 ^ 32 - 1) root l F ∧ own hp F ∧ m = list_to_map l.

Definition record_ok (k : Z) (d : list Z) : Prop := rec_ok (k, d) ∧ small (k, d).

(** Concrete records. *)
Ltac records_ok :=
  unfold record_ok, rec_ok, key_ok, small, MAXREC, byte_ok; cbn [fst snd];
  repeat first [apply conj | apply Forall_nil_2 | apply Forall_cons_2]; simpl; lia.

Lemma added_map k d l l' :
  added k d l l' → assoc k l = None →
  (list_to_map l' : gmap Z (list Z)) = <[k := d]> (list_to_map l).
Proof.
  intros (l1 & l2 & -> & ->). rewrite assoc_app. intros Ha.
  rewrite list_to_map_app, list_to_map_cons, list_to_map_app.
  assert ((list_to_map l1 : gmap Z (list Z)) !! k = None).
  { rewrite <-assoc_list_to_map. by destruct (assoc k l1). }
  by rewrite <-insert_union_r.
Qed.

Lemma getTree_bptree hp :
  0 < next_addr hp → next_addr hp + PAGE_SIZE ≤ 2 ^ 32 →
  ∃ root hp', getTree hp = Ok (root, hp') ∧ bptree hp' root 0 ∅ ∧
    next_addr hp' = next_addr hp + PAGE_SIZE.
Proof.
  intros H0 Hroom. unfold getTree, getLeafNode, new_Node.
  rewrite (proj2 (Z.leb_le _ _)) by done. do 2 eexists. split; [done|]. split; [|done].
  exists [], [next_addr hp]. split_and!; [| |done].
  - exists init_leaf_node. cbn [nodes]. rewrite lookup_insert_eq.
    split_and!; try done; [apply init_leaf_page|simpl; lia|constructor].
  - split; [apply NoDup_singleton|]. constructor; [|done]. cbn [next_addr]. plia.
Qed.

Lemma search_bptree hp root h m k fuel :
  bptree hp root h m → key_ok k → (h < fuel)%nat →
  ∃ r, search fuel root k hp = Ok (r, hp) ∧ f_ret r = bool_decide (is_Some (m !! k)) ∧
    read_found r hp = Ok (m !! k, hp).
Proof.
  intros (l & F & Ht & _ & ->) Hk Hf.
  destruct (search_spec h fuel hp (-1) (2 ^ 32 - 1) root l F k) as (r & H1 & H2 & H3);
    [done|unfold key_ok in Hk; lia|done|].
  exists r. by rewrite <-assoc_list_to_map.
Qed.

Lemma insert_bptree hp root h m k d fuel :
  bptree hp root h m → record_ok k d →
  next_addr hp + (Z.of_nat h + 2) * PAGE_SIZE ≤ 2 ^ 32 → (h < fuel)%nat →
  ∃ root' hp' h', insert fuel root k d hp = Ok ((spec_insert k d m).1, root', hp') ∧
    bptree hp' root' h' (spec_insert k d m).2 ∧ (h ≤ h' ≤ S h)%nat ∧
    next_addr hp' ≤ next_addr hp + (Z.of_nat h + 2) * PAGE_SIZE.
Proof.
  intros (l & F & Ht & Hown & ->) [Hr Hs] Hroom Hf.
  pose proof (tree_at_root _ _ _ _ _ _ _ Ht) as [Hin _].
  pose proof (own_in _ _ _ Hown Hin) as Hrb.
  pose proof (insert2_spec h fuel hp (-1) (2 ^ 32 - 1) root l F k d 0 Ht) as Hins.
  unfold spec_insert. rewrite <-assoc_list_to_map. destruct Hr as [Hk Hby] eqn:E. clear E.
  unfold key_ok in Hk. cbn [fst] in Hk. unfold insert.
  specialize (Hins ltac:(lia) ltac:(lia) ltac:(lia) Hr Hs Hown ltac:(plia) Hf).
  destruct (assoc k l) as [d'|] eqn:Ea.
  - destruct Hins as (hp' & Hrun & Ht' & Hg & Hnx). exists root, hp', h.
    erewrite bind_ok by exact Hrun. split_and!; [done| |lia|lia|plia].
    exists l, F. split_and!; [done|by apply Hg|done].
  - destruct Hins as (l' & Hadd & hp' & Hbud & [(F' & Hrun & Ht' & Hg)|Hsp]).
    + exists root, hp', h. erewrite bind_ok by exact Hrun. split_and!; [done| |lia|lia|plia].
      exists l', F'. split_and!; [done|by apply Hg|]. symmetry. by apply added_map.
    + destruct Hsp as (new & s & m1 & m2 & F1 & F2 & Hrun & -> & Hlo & Ht1 & Ht2 & Hg).
      pose proof (g_own _ _ _ _ Hg) as Hown'.
      pose proof (tree_at_root _ _ _ _ _ _ _ Ht1) as [Hr1 Hsome].
      pose proof (tree_at_root _ _ _ _ _ _ _ Ht2) as [Hr2 _].
      pose proof (own_in _ _ root Hown' ltac:(apply elem_of_app; by left)) as Hb1.
      pose proof (own_in _ _ new Hown' ltac:(apply elem_of_app; by right)) as Hb2.
      destruct (link_split_root hp' root new s) as (f' & Hlink & Hf');
        [done|split; [unfold key_ok; simpl; lia|simpl; plia]|plia|plia|].
      set (hp2 := mkHeap _ _) in Hlink.
      assert (∀ q, q ∈ F1 ++ F2 → nodes hp2 !! q = nodes hp' !! q) as Hsame.
      { intros q Hq. simpl. apply lookup_insert_ne. pose proof (own_in _ _ _ Hown' Hq). lia. }
      exists (next_addr hp'), hp2, (S h). split_and!; [| |lia|lia|simpl; plia].
      * erewrite bind_ok; [|rewrite Hrun; by erewrite bind_ok by exact Hlink].
        cbv beta iota. cbn [negb]. rewrite (proj2 (Z.eqb_neq (next_addr hp') 0)) by lia. done.
      * exists (m1 ++ m2), (next_addr hp' :: F1 ++ F2). split_and!.
        -- exists f', [s], [mkChild root m1 F1; mkChild new m2 F2]. split_and!.
           ++ simpl. by rewrite lookup_insert_eq.
           ++ done.
           ++ simpl. lia.
           ++ simpl. split_and!; [lia|lia|..].
              ** eapply tree_at_frame; [exact Ht1|]. intros. apply Hsame, elem_of_app. by left.
              ** eapply tree_at_frame; [exact Ht2|]. intros. apply Hsame, elem_of_app. by right.
           ++ simpl. by rewrite app_nil_r.
           ++ simpl. by rewrite app_nil_r.
        -- split.
           ++ constructor; [|apply Hown']. intros Hq. pose proof (own_in _ _ _ Hown' Hq). lia.
           ++ constructor; [simpl; plia|]. eapply Forall_impl; [apply Hown'|]. simpl. plia.
        -- symmetry. by apply added_map.
Qed.

(** The heap after [getTree] in a fresh process, and its root. *)
Definition fresh_root : Z := 4096.
Definition fresh_heap : Heap :=
  match getTree empty_heap with Ok (_, hp) => hp | Err _ => empty_heap end.

Lemma fresh_bptree : bptree fresh_heap fresh_root 0 ∅.
Proof.
  destruct (getTree_bptree empty_heap) as (root & hp' & Hrun & Ht & _); [done|done|].
  unfold fresh_heap. rewrite Hrun. by vm_compute in Hrun; simplify_eq.
Qed.

Lemma insert_all_bptree kvs hp root h m fuel :
  bptree hp root h m → Forall (λ kv, record_ok kv.1 kv.2) kvs → (h + length kvs < fuel)%nat →
  next_addr hp + Z.of_nat (length kvs) * (Z.of_nat (h + length kvs) + 2) * PAGE_SIZE ≤ 2 ^ 32 →
  ∃ root' hp' h', insert_all fuel root kvs hp = Ok (root', hp') ∧
    bptree hp' root' h' (spec_insert_all kvs m) ∧ (h' ≤ h + length kvs)%nat.
Proof.
  revert hp root h m. induction kvs as [|[k d] kvs IH]; intros hp root h m Ht Hok Hf Hroom.
  - exists root, hp, h. split_and!; [done|done|lia].
  - apply Forall_cons in Hok as [Hkd Hok]. cbn [length fst snd] in *.
    destruct (insert_bptree hp root h m k d fuel) as (root1 & hp1 & h1 & Hrun & Ht1 & Hh & Hnx);
      [done|done|unfold PAGE_SIZE in *; nia|lia|].
    destruct (IH hp1 root1 h1 (spec_insert k d m).2) as (root' & hp' & h' & Hrun' & Ht' & Hh');
      [done|done|lia|unfold PAGE_SIZE in *; nia|].
    exists root', hp', h'. split_and!; [|done|lia].
    cbn [insert_all]. by erewrite bind_ok by exact Hrun.
Qed.

(** Twelve records inserted in descending order of their keys, which splits a leaf. *)
Definition descending (count sz : nat) : recs :=
  (λ i, (1000 - Z.of_nat i, replicate sz 7)) <$> seq 0 count.
Definition grown : result (Z * Heap) := insert_all 20 fresh_root (descending 12 3) fresh_heap.
Definition grown_root : Z := match grown with Ok (r, _) => r | Err _ => 0 end.
Definition grown_heap : Heap := match grown with Ok (_, hp) => hp | Err _ => fresh_heap end.
Definition grown_map : gmap Z (list Z) := spec_insert_all (descending 12 3) ∅.

Lemma grown_bptree : ∃ h, bptree grown_heap grown_root h grown_map ∧ (h ≤ 12)%nat.
Proof.
  destruct (insert_all_bptree (descending 12 3) fresh_heap fresh_root 0 ∅ 20 fresh_bptree) as (root & hp & h & Hrun & Ht & Hh);
    [unfold descending; simpl; records_ok|vm_compute; lia|vm_compute; discriminate|].
  exists h. unfold grown_heap, grown_root, grown. rewrite Hrun. split; [exact Ht|exact Hh].
Qed.

(** ** Properties *)

(** C1. Inserting a record of at most 30 bytes into a well-formed tree (one whose records are of at
    most 30 bytes, as those of every tree built from such records) implements insertion into a
    finite map, as long as the address space has room for one new node per level and a new root:
    the call returns (it never exits, fails an assertion or leaves the page areas), its boolean
    is false exactly when the key was present, the tree it leaves is well formed and holds the map
    with the new record added and nothing else changed, and its height grew by at most one.
    Larger records can make the program exit ([frag_counter_wrap_exits]). *)
Theorem insert_refines hp root h m k d fuel :
  bptree hp root h m → record_ok k d →
  next_addr hp + (Z.of_nat h + 2) * PAGE_SIZE ≤ 2 ^ 32 → (h < fuel)%nat →
  ∃ root' hp' h', insert fuel root k d hp = Ok ((spec_insert k d m).1, root', hp') ∧
    bptree hp' root' h' (spec_insert k d m).2 ∧ (h ≤ h' ≤ S h)%nat.
Proof.
  intros Ht Hr Hroom Hf.
  destruct (insert_bptree hp root h m k d fuel Ht Hr Hroom Hf) as (r & hp' & h' & ? & ? & ? & _).
  by exists r, hp', h'.
Qed.

Lemma insert_refines_witness :
  ∃ h root' hp' h', insert 20 grown_root 7 [1; 2; 3] grown_heap = Ok ((spec_insert 7 [1; 2; 3] grown_map).1, root', hp') ∧
    bptree hp' root' h' (spec_insert 7 [1; 2; 3] grown_map).2 ∧ (h ≤ h' ≤ S h)%nat.
Proof.
  destruct grown_bptree as (h & Ht & Hh). exists h.
  apply (insert_refines grown_heap grown_root h grown_map 7 [1; 2; 3] 20).
  - exact Ht.
  - records_ok.
  - assert (next_addr grown_heap ≤ 100000) by (vm_compute; discriminate). unfold PAGE_SIZE. lia.
  - lia.
Defined.

(** C23. Searching a well-formed tree returns without changing the heap, answers whether the
    key is in the map, and the pointer and size it hands out read back exactly the stored
    record. *)
Theorem search_refines hp root h m k fuel :
  bptree hp root h m → key_ok k → (h < fuel)%nat →
  ∃ r, search fuel root k hp = Ok (r, hp) ∧ f_ret r = bool_decide (is_Some (m !! k)) ∧
    read_found r hp = Ok (m !! k, hp).
Proof. apply search_bptree. Qed.

Lemma search_refines_witness :
  ∃ r, search 20 grown_root 995 grown_heap = Ok (r, grown_heap) ∧
    f_ret r = bool_decide (is_Some (grown_map !! 995)) ∧ read_found r grown_heap = Ok (grown_map !! 995, grown_heap).
Proof.
  destruct grown_bptree as (h & Ht & Hh).
  apply (search_refines grown_heap grown_root h grown_map 995 20).
  - exact Ht.
  - unfold key_ok. lia.
  - lia.
Defined.

(** Any sequence of insertions into a new tree, duplicates included, returns and leaves a
    tree in which a search for any key finds the first record inserted under it, and nothing
    for a key never inserted. *)
Theorem insert_all_search kvs fuel k :
  Forall (λ kv, record_ok kv.1 kv.2) kvs → key_ok k → (length kvs < fuel)%nat →
  8192 + Z.of_nat (length kvs) * (Z.of_nat (length kvs) + 2) * PAGE_SIZE ≤ 2 ^ 32 →
  ∃ root hp r, insert_all fuel fresh_root kvs fresh_heap = Ok (root, hp) ∧
    search fuel root k hp = Ok (r, hp) ∧ read_found r hp = Ok (assoc k kvs, hp).
Proof.
  intros Hok Hk Hf Hroom.
  destruct (insert_all_bptree kvs fresh_heap fresh_root 0 ∅ fuel fresh_bptree)
    as (root & hp & h & Hrun & Ht & Hh); [done|lia| |].
  { change (next_addr fresh_heap) with 5544. rewrite Nat.add_0_l. lia. }
  destruct (search_bptree hp root h _ k fuel Ht Hk ltac:(lia)) as (r & H1 & _ & H2).
  exists root, hp, r. split_and!; [done|done|]. rewrite H2. do 2 f_equal.
  assert (∀ m : gmap Z (list Z), spec_insert_all kvs m !! k =
    match m !! k with Some d => Some d | None => assoc k kvs end) as Hall.
  { clear. unfold spec_insert_all. induction kvs as [|[k' d] kvs IH]; intros m; cbn [foldl assoc fst snd].
    - by destruct (m !! k).
    - rewrite IH. unfold spec_insert. destruct (Z.eqb_spec k' k) as [->|].
      + destruct (m !! k) eqn:E; cbn [snd]; [by rewrite E|by rewrite lookup_insert_eq].
      + destruct (m !! k'); cbn [snd]; [done|by rewrite lookup_insert_ne]. }
  rewrite Hall. by rewrite lookup_empty.
Qed.

Lemma insert_all_search_witness :
  ∃ root hp r, insert_all 4 fresh_root [(9, [1]); (3, [2]); (9, [4])] fresh_heap = Ok (root, hp) ∧
    search 4 root 9 hp = Ok (r, hp) ∧ read_found r hp = Ok (Some [1], hp).
Proof.
  apply (insert_all_search [(9, [1]); (3, [2]); (9, [4])] 4 9).
  - records_ok.
  - unfold key_ok. lia.
  - simpl. lia.
  - vm_compute. discriminate.
Defined.

(** C18. Compaction keeps every cell of a leaf page and of an internal page in order, whatever the
    page holds, an internal page's right child too, and turns all of the page's fragments into
    free space: the cell area starts exactly [frag_size] bytes later. *)
Theorem spaceCleanUp_compacts n :
  (∀ kvs, leaf_page n kvs → sorted kvs →
    ∃ n', spaceCleanUp n = Ok n' ∧ leaf_page n' kvs ∧ frag_size n' = 0 ∧ first_cell_pos n' = first_cell_pos n + frag_size n) ∧
  (∀ kps, int_page n kps → sorted kps →
    ∃ n', spaceCleanUp n = Ok n' ∧ int_page n' kps ∧ right_child n' = right_child n ∧ frag_size n' = 0 ∧ first_cell_pos n' = first_cell_pos n + frag_size n).
Proof.
  split.
  - intros kvs Hn Hs. destruct (spaceCleanUp_leaf n kvs Hn Hs) as (n' & Hrun & Hn' & Hf).
    exists n'. split_and!; [done|done|done|]. destruct Hn as (_ & Hp & _), Hn' as (_ & Hp' & _).
    pose proof (pr_acct _ _ Hp). pose proof (pr_acct _ _ Hp'). lia.
  - intros kps Hn Hs. destruct (spaceCleanUp_int n kps Hn Hs) as (n' & Hrun & Hn' & Hf & Hr).
    exists n'. split_and!; [done|done|done|done|]. destruct Hn as (_ & Hp & _), Hn' as (_ & Hp' & _).
    pose proof (pr_acct _ _ Hp). pose proof (pr_acct _ _ Hp'). lia.
Qed.

(** Pages from which a cell has been removed. *)
Definition holed (r : result (bool * Node)) (remove : Node → result (bool * Node)) : Node :=
  match ('(_, n) ← r; remove n) with Ok (_, n) => n | Err _ => zero_Node end.
Definition holed_leaf : Node := holed ('(_, n) ← insertLeafCell init_leaf_node 3 [7; 8]; insertLeafCell n 5 [9]) (λ n, removeKthLeafCell n 0).
Definition holed_int : Node := holed ('(_, n) ← insertIntCell init_int_node 3 4096; insertIntCell n 5 8192) (λ n, removeKthIntCell n 0).

Lemma holed_leaf_page : leaf_page holed_leaf [(5, [9])].
Proof.
  destruct (insertLeafCell_spec init_leaf_node [] 3 [7; 8] init_leaf_page) as (n1 & F1 & R1 & P1); [constructor|records_ok|vm_compute; discriminate|].
  destruct (insertLeafCell_spec n1 [(3, [7; 8])] 5 [9] P1) as (n2 & F2 & R2 & P2); [by repeat constructor|records_ok|vm_compute; discriminate|].
  destruct (removeKthLeafCell_spec n2 [(3, [7; 8]); (5, [9])] 0 3 [7; 8] P2 eq_refl) as (n3 & R3 & P3 & _); [simpl; lia|].
  unfold holed_leaf, holed. rewrite R1. cbn [mbind result_bind]. rewrite R2. cbn [mbind result_bind]. change 0 with (Z.of_nat 0). rewrite R3. exact P3.
Qed.

Lemma holed_int_page : int_page holed_int [(5, 8192)].
Proof.
  destruct (insertIntCell_spec init_int_node [] 3 4096 init_int_page) as (n1 & R1 & P1 & F1 & _); [constructor|split; [unfold key_ok; simpl; lia|simpl; lia]|simpl; lia|].
  destruct (insertIntCell_spec n1 [(3, 4096)] 5 8192 P1) as (n2 & R2 & P2 & F2 & _); [by repeat constructor|split; [unfold key_ok; simpl; lia|simpl; lia]|simpl; lia|].
  destruct (removeKthIntCell_spec n2 [(3, 4096); (5, 8192)] 0 3 4096 P2 eq_refl) as (n3 & R3 & P3 & _); [simpl; lia|].
  unfold holed_int, holed. rewrite R1. cbn [mbind result_bind]. rewrite R2. cbn [mbind result_bind]. change 0 with (Z.of_nat 0). rewrite R3. exact P3.
Qed.

(** Ten bytes of fragments in a leaf page and eight in an internal page are recovered. *)
Lemma spaceCleanUp_compacts_witness :
  (frag_size holed_leaf = 10 ∧ ∃ n', spaceCleanUp holed_leaf = Ok n' ∧ leaf_page n' [(5, [9])] ∧ frag_size n' = 0 ∧ first_cell_pos n' = first_cell_pos holed_leaf + frag_size holed_leaf) ∧
  (frag_size holed_int = 8 ∧ ∃ n', spaceCleanUp holed_int = Ok n' ∧ int_page n' [(5, 8192)] ∧ right_child n' = right_child holed_int ∧ frag_size n' = 0 ∧ first_cell_pos n' = first_cell_pos holed_int + frag_size holed_int).
Proof.
  split; (split; [vm_compute; reflexivity|]).
  - apply (proj1 (spaceCleanUp_compacts holed_leaf) [(5, [9])] holed_leaf_page). by repeat constructor.
  - apply (proj2 (spaceCleanUp_compacts holed_int) [(5, 8192)] holed_int_page). by repeat constructor.
Defined.

(** A record inserted into a leaf page is read back byte for byte at the index of its key,
    and every cell already there is still there, at its old index or one further. *)
Theorem insertLeafCell_reads_back n kvs k d n' :
  leaf_page n kvs → sorted kvs → rec_ok (k, d) →
  HEADER_SIZE + 2 * Z.of_nat (length kvs + 1) + leaf_bytes kvs + 64 +
    (8 + Z.of_nat (length d)) ≤ PAGE_SIZE →
  insertLeafCell n k d = Ok (true, n') →
  ∃ j : nat, (j ≤ length kvs)%nat ∧
    ∀ (i : nat) k' d', insert_at j (k, d) kvs !! i = Some (k', d') →
      ∃ off, getKthLeafCell n' (Z.of_nat i) = Ok (mkLeafCell k' (Z.of_nat (length d')) off) ∧
        mem_read n' off (Z.of_nat (length d')) = Ok d'.
Proof.
  intros Hn Hs Hr Hroom Hins. destruct (insertLeafCell_spec n kvs k d Hn Hs Hr Hroom)
    as (n1 & _ & Hsc). destruct (leaf_scan k kvs) as [j|] eqn:Ej.
  - destruct Hsc as [Hrun Hp]. assert (n1 = n') as -> by congruence.
    exists j. split; [by eapply leaf_scan_le|]. intros i k' d' Hi. by eapply getKthLeafCell_spec.
  - destruct Hsc as [Hrun _]. congruence.
Qed.

Lemma insertLeafCell_reads_back_witness :
  ∃ j : nat, (j ≤ 0)%nat ∧
    ∀ (i : nat) k' d', insert_at j (3, [7; 8]) [] !! i = Some (k', d') →
      ∃ off, getKthLeafCell (page_with init_leaf_node 0 (leaf_cell (3, [7; 8]))) (Z.of_nat i)
          = Ok (mkLeafCell k' (Z.of_nat (length d')) off) ∧
        mem_read (page_with init_leaf_node 0 (leaf_cell (3, [7; 8]))) off (Z.of_nat (length d')) = Ok d'.
Proof.
  apply (insertLeafCell_reads_back init_leaf_node [] 3 [7; 8]).
  - apply init_leaf_page.
  - constructor.
  - records_ok.
  - vm_compute. discriminate.
  - vm_compute. reflexivity.
Defined.

(** The one-byte counter [frag_size] wraps on records of 44 bytes: splitting a leaf adds
    260 to it, it reads 4, compaction is never started, and the 28th insertion stops the
    whole program with "size error" although no leaf ever held more than ten records. *)
Theorem frag_counter_wrap_exits :
  insert_all 10 fresh_root (descending 28 44) fresh_heap = Err (FExit 0).
Proof. vm_compute. reflexivity. Qed.

(** [spaceCheck] does not count the two bytes of the new cell pointer: on an empty page a
    record that fills the area exactly is accepted, the pointer is written over its key, and
    a search for the key just inserted finds nothing. *)
Theorem full_page_record_lost :
  ∃ hp, insert 1 fresh_root 7 (replicate 1428 5) fresh_heap = Ok (true, fresh_root, hp) ∧
    search 1 fresh_root 7 hp = Ok (mkFound false (0, 0) 0, hp).
Proof.
  destruct (insert 1 fresh_root 7 (replicate 1428 5) fresh_heap) as [[[b r] hp]|e] eqn:E;
    vm_compute in E; [|discriminate].
  exists hp. simplify_eq. split; [done|]. vm_compute. reflexivity.
Qed.

End BPlusProps.
