(* ===== verification/SqlOs.v ===== *)
(** The operating-system layer of sqlite_demo: the structs of [include/sqlite_demo.h] and
    [pager/pcache.h], the memory they live in, the virtual file system of [os/os.c] and its
    unix implementation [os/os_unix.c].

    The kernel is a parameter: class [Posix] lists the system calls the code makes, class
    [PosixLaws] the documented behaviour the theorems rely on; [MemFs] at the end is a
    concrete in-memory kernel that satisfies them.  Sizes are those of an LP64 machine. *)

From S2P Require Import Prelude Chains.
From stdpp Require Export strings.
#[global] Open Scope Z_scope.
From stdpp Require Import options.

(** * The system calls *)

Class Posix (K : Type) := {
  sys_open : string → Z → Z → K → Z * K;
  sys_close : Z → K → Z * K;
  sys_lseek_set : Z → Z → K → Z * K;
  sys_read : Z → Z → K → Z * list Z * K;
  sys_write : Z → list Z → K → Z * K;
  sys_ftruncate : Z → Z → K → Z * K;
  sys_fsync : Z → K → Z * K;
  sys_fstat_size : Z → K → option Z;
  sys_unlink : string → K → Z * K;
  sys_access : string → Z → K → Z;
  sys_sleep : Z → K → K;
  sys_usleep : Z → K → K;
  sys_time : K → Z;
}.

Module SqlOs.

Definition SQL_OK := 0.
Definition SQL_ERROR := 1.
Definition SQL_NOMEM := 2.
Definition SQL_DEFAULT_FILE_CREATE_MODE := 744.

(** * The structs *)

Record SqlPCachePage := mkPage { content : Z; extra : Z }.

Record UnixFile := mkUnixFile {
  p_methods : Z; (* base.p_methods *)
  fd : Z;
  filename : option string; (* [None]: the pointer holds no string (unset or freed) *)
  next : Z;
}.

Record PgHdr1 := mkPgHdr1 {
  base : SqlPCachePage;
  key : Z;
  is_pinned : Z;
  pnext : Z;
  pcache1_of : Z; (* pcache *)
  plru_next : Z;
  plru_prev : Z;
}.

Record PCache1 := mkPCache1 {
  plru_head : Z;
  plru_tail : Z;
  sz_page1 : Z;
  sz_extra1 : Z;
  mx_pages : Z;
  nhash : Z;
  npage : Z;
  aphash : list Z;
}.

Record PgHdr := mkPgHdr {
  ppage : Z;
  pdata : Z;
  pextra : Z;
  pager_of : Z; (* pager *)
  pgno : Z;
  flags : Z;
  pdirty_next : Z;
  pdirty_prev : Z;
  nref : Z;
  pcache_of : Z; (* pcache *)
}.

Record PCache := mkPCache {
  pdirty_head : Z;
  pdirty_tail : Z;
  cache_nref : Z; (* nref *)
  sz_page : Z;
  sz_extra : Z;
  plugin : Z; (* pcache *)
}.

Record Pager := mkPager {
  pvfs : Z;
  pager_filename : option string;
  pager_fd : Z;
  pager_pcache : Z;
}.

Definition sizeof_UnixFile := 32.
Definition sizeof_PgHdr1 := 56.
Definition sizeof_PCache1 := 48.
Definition sizeof_PgHdr := 72.
Definition sizeof_PCache := 40.
Definition sizeof_Pager := 32.

(** * The state: the kernel, the static variables, and the objects in memory by address *)

Record World (K : Type) := mkWorld {
  kern : K;
  head : Z; (* os_unix.c *)
  registered : bool; (* global_config.sql_pcache_methods is filled in *)
  ufiles : gmap Z UnixFile;
  pages1 : gmap Z PgHdr1;
  caches1 : gmap Z PCache1;
  hdrs : gmap Z PgHdr;
  caches : gmap Z PCache;
  pagers : gmap Z Pager;
  bufs : gmap Z (list Z); (* page contents and other byte buffers *)
  brk : Z; (* where malloc hands out memory next *)
  lim : Z; (* the end of the heap *)
  fill : Z; (* what a word of fresh malloc memory happens to hold *)
}.
Arguments mkWorld {K}.
Arguments kern {K}.
Arguments head {K}.
Arguments registered {K}.
Arguments ufiles {K}.
Arguments pages1 {K}.
Arguments caches1 {K}.
Arguments hdrs {K}.
Arguments caches {K}.
Arguments pagers {K}.
Arguments bufs {K}.
Arguments brk {K}.
Arguments lim {K}.
Arguments fill {K}.

Section os.
Context {K : Type} `{Posix K}.
Abbreviation MW := (M (World K)).
Implicit Types w : World K.

Definition set_kern w (k : K) := mkWorld k (head w) (registered w) (ufiles w) (pages1 w) (caches1 w) (hdrs w) (caches w) (pagers w) (bufs w) (brk w) (lim w) (fill w).
Definition set_head w h := mkWorld (kern w) h (registered w) (ufiles w) (pages1 w) (caches1 w) (hdrs w) (caches w) (pagers w) (bufs w) (brk w) (lim w) (fill w).
Definition set_registered w b := mkWorld (kern w) (head w) b (ufiles w) (pages1 w) (caches1 w) (hdrs w) (caches w) (pagers w) (bufs w) (brk w) (lim w) (fill w).
Definition set_ufiles w u := mkWorld (kern w) (head w) (registered w) u (pages1 w) (caches1 w) (hdrs w) (caches w) (pagers w) (bufs w) (brk w) (lim w) (fill w).
Definition set_pages1 w p := mkWorld (kern w) (head w) (registered w) (ufiles w) p (caches1 w) (hdrs w) (caches w) (pagers w) (bufs w) (brk w) (lim w) (fill w).
Definition set_caches1 w c := mkWorld (kern w) (head w) (registered w) (ufiles w) (pages1 w) c (hdrs w) (caches w) (pagers w) (bufs w) (brk w) (lim w) (fill w).
Definition set_hdrs w h := mkWorld (kern w) (head w) (registered w) (ufiles w) (pages1 w) (caches1 w) h (caches w) (pagers w) (bufs w) (brk w) (lim w) (fill w).
Definition set_caches w c := mkWorld (kern w) (head w) (registered w) (ufiles w) (pages1 w) (caches1 w) (hdrs w) c (pagers w) (bufs w) (brk w) (lim w) (fill w).
Definition set_pagers w p := mkWorld (kern w) (head w) (registered w) (ufiles w) (pages1 w) (caches1 w) (hdrs w) (caches w) p (bufs w) (brk w) (lim w) (fill w).
Definition set_bufs w b := mkWorld (kern w) (head w) (registered w) (ufiles w) (pages1 w) (caches1 w) (hdrs w) (caches w) (pagers w) b (brk w) (lim w) (fill w).
Definition set_brk w b := mkWorld (kern w) (head w) (registered w) (ufiles w) (pages1 w) (caches1 w) (hdrs w) (caches w) (pagers w) (bufs w) b (lim w) (fill w).

(** [malloc]: the next free address, or NULL when the heap is used up. *)
Definition malloc (n : Z) : MW Z := λ w,
  if brk w + Z.max 1 n <=? lim w then Ok (brk w, set_brk w (brk w + Z.max 1 n)) else Ok (0, w).

(** A system call. *)
Definition sys {A} (f : K → A * K) : MW A := λ w,
  let '(a, k) := f (kern w) in Ok (a, set_kern w k).

(** Reading and writing one struct. *)
Definition ufile (a : Z) : MW UnixFile := w ← get; lift (deref (ufiles w !! a)).
Definition ufile_put (a : Z) (f : UnixFile) : MW unit := modify (λ w, set_ufiles w (<[a := f]> (ufiles w))).

(** * os_unix.c: file operations *)

(** [strcmp(p->filename, filename) == 0] and [p->next]. *)
Definition uf_next w (a : Z) : option Z := next <$> ufiles w !! a.
Definition uf_named w (name : string) (a : Z) : option bool :=
  f ← ufiles w !! a; s ← filename f; Some (bool_decide (s = name)).

Definition unixAlreadyOpened (name : string) : MW Z :=
  w ← get;
  r ← lift (scan (size (ufiles w)) (uf_next w) (uf_named w name) 0 (head w));
  mret r.2.

Definition unixOpenFile (file : Z) (name : string) (flags : Z) : MW Z :=
  d ← sys (sys_open name flags SQL_DEFAULT_FILE_CREATE_MODE);
  if d <? 0 then mret SQL_ERROR else
  f ← ufile file;
  ufile_put file (mkUnixFile (p_methods f) d (filename f) (next f));;
  a ← malloc (Z.of_nat (String.length name) + 1);
  if a =? 0 then fail FUndef else (* memcpy to NULL *)
  f ← ufile file;
  ufile_put file (mkUnixFile (p_methods f) (fd f) (Some name) (next f));;
  mret SQL_OK.

(** The link before [dp] now leads to what follows it: [*p = dp->next]. *)
Definition unlink_from (prev nx : Z) : MW unit :=
  if prev =? 0 then modify (λ w, set_head w nx)
  else f ← ufile prev; ufile_put prev (mkUnixFile (p_methods f) (fd f) (filename f) nx).

Definition unixClose (file : Z) : MW Z :=
  if file =? 0 then mret SQL_ERROR else
  w ← get;
  r ← lift (scan (size (ufiles w)) (uf_next w) (λ a, Some (a =? file)) 0 (head w));
  if r.2 =? 0 then mret SQL_ERROR else
  dp ← ufile file;
  unlink_from r.1 (next dp);;
  ret ← sys (sys_close (fd dp));
  dp ← ufile file;
  ufile_put file (mkUnixFile (p_methods dp) (fd dp) None (next dp));; (* free(dp->filename) *)
  mret ret.

Definition unixRead (file buf buf_sz offset : Z) : MW Z :=
  if (file =? 0) || (buf =? 0) then mret SQL_ERROR else
  p ← ufile file;
  off ← sys (sys_lseek_set (fd p) offset);
  if negb (s32 off =? offset) then mret SQL_ERROR else
  r ← sys (sys_read (fd p) buf_sz);
  w ← get;
  b ← lift (deref (bufs w !! buf));
  if (length b <? length r.2)%nat then fail FUndef else
  modify (λ w, set_bufs w (<[buf := wr b 0 r.2]> (bufs w)));;
  mret r.1.

Definition unixWrite (file buf sz offset : Z) : MW Z :=
  if file =? 0 then mret SQL_ERROR else
  p ← ufile file;
  off ← sys (sys_lseek_set (fd p) offset);
  if negb (s32 off =? offset) then mret SQL_ERROR else
  w ← get;
  b ← lift (deref (bufs w !! buf));
  if (length b <? Z.to_nat sz)%nat then fail FUndef else
  sys (sys_write (fd p) (take (Z.to_nat sz) b)).

Definition unixTruncate (file sz : Z) : MW Z :=
  if file =? 0 then mret SQL_ERROR else
  p ← ufile file; sys (sys_ftruncate (fd p) sz).

Definition unixSync (file : Z) : MW Z :=
  if file =? 0 then mret SQL_ERROR else
  p ← ufile file; sys (sys_fsync (fd p)).

(** The size goes to [*ret]: [None] when it is not written. *)
Definition unixFileSize (file : Z) : MW (Z * option Z) :=
  if file =? 0 then mret (SQL_ERROR, None) else
  p ← ufile file;
  w ← get;
  match sys_fstat_size (fd p) (kern w) with
  | None => mret (SQL_ERROR, None)
  | Some n => mret (SQL_OK, Some (s32 n))
  end.

(** * os_unix.c: vfs operations *)

(** The addresses of the two static tables. *)
Definition UNIX_METHODS_ADDR := 8.
Definition UNIX_OS_ADDR := 16.

Definition unixOpen (vfs : Z) (name : option string) (ret flags : Z) : MW Z :=
  if (ret =? 0) || (vfs =? 0) then mret SQL_ERROR else
  match name with
  | None => mret SQL_ERROR
  | Some name =>
      dp ← unixAlreadyOpened name;
      if negb (dp =? 0) then mret SQL_ERROR else
      p ← ufile ret;
      ufile_put ret (mkUnixFile UNIX_METHODS_ADDR (fd p) (filename p) (next p));;
      r ← unixOpenFile ret name flags;
      if negb (r =? 0) then mret SQL_ERROR else
      w ← get;
      p ← ufile ret;
      ufile_put ret (mkUnixFile (p_methods p) (fd p) (filename p) (head w));;
      modify (λ w, set_head w ret);;
      mret SQL_OK
  end.

Definition unixDelete (vfs : Z) (name : option string) : MW Z :=
  match name with
  | None => mret SQL_ERROR
  | Some name =>
      dp ← unixAlreadyOpened name;
      (if negb (dp =? 0) then unixClose dp else mret 0);;
      sys (sys_unlink name)
  end.

(** [*ret] is the second component. *)
Definition unixAccess (vfs : Z) (name : option string) (flag : Z) (ret : Z) : MW (Z * option Z) :=
  match name with
  | Some name =>
      if (vfs =? 0) || (ret =? 0) then mret (SQL_ERROR, None) else
      w ← get; mret (SQL_OK, Some (sys_access name flag (kern w)))
  | None => mret (SQL_ERROR, None)
  end.

Definition unixSleep (vfs micro_secs : Z) : MW Z :=
  modify (λ w, set_kern w (sys_sleep (u32 (Z.quot micro_secs 1000000)) (kern w)));;
  modify (λ w, set_kern w (sys_usleep (u32 (Z.rem micro_secs 1000000)) (kern w)));;
  mret SQL_OK.

(** [time(ret)] stores a [time_t] of 8 bytes where [ret] points, an object of [room] bytes. *)
Definition unixCurrentTime (vfs room : Z) : MW (Z * Z) :=
  if room <? 8 then fail FUndef else
  w ← get; mret (SQL_OK, sys_time (kern w)).

(** * The method tables and os.c, which calls through them *)

Record SqlIOMethods := mkIOMethods {
  xClose : Z → MW Z;
  xRead : Z → Z → Z → Z → MW Z;
  xWrite : Z → Z → Z → Z → MW Z;
  xTruncate : Z → Z → MW Z;
  xSync : Z → MW Z;
  xFileSize : Z → MW (Z * option Z);
}.

Record SqlVFS := mkVFS {
  sz_file : Z;
  max_filename : Z;
  vfs_name : string;
  xOpen : Z → option string → Z → Z → MW Z;
  xDelete : Z → option string → MW Z;
  xAccess : Z → option string → Z → Z → MW (Z * option Z);
  xSleep : Z → Z → MW Z;
  xCurrentTime : Z → Z → MW (Z * Z);
}.

Definition UNIX_METHODS : SqlIOMethods :=
  mkIOMethods unixClose unixRead unixWrite unixTruncate unixSync unixFileSize.

Definition UNIX_OS : SqlVFS :=
  mkVFS sizeof_UnixFile 200 "unix" unixOpen unixDelete unixAccess unixSleep unixCurrentTime.

Definition unixGetOS : Z := UNIX_OS_ADDR.

(** What a table pointer leads to: calling through any other address is undefined. *)
Definition vfs_at (a : Z) : result SqlVFS := if a =? UNIX_OS_ADDR then Ok UNIX_OS else Err FUndef.
Definition methods_at (a : Z) : result SqlIOMethods :=
  if a =? UNIX_METHODS_ADDR then Ok UNIX_METHODS else Err FUndef.

Definition osOpen (vfs : Z) (name : option string) (ret flags : Z) : MW Z :=
  v ← lift (vfs_at vfs); xOpen v vfs name ret flags.
Definition osDelete (vfs : Z) (name : option string) : MW Z :=
  v ← lift (vfs_at vfs); xDelete v vfs name.
Definition osAccess (vfs : Z) (name : option string) (flag ret : Z) : MW (Z * option Z) :=
  v ← lift (vfs_at vfs); xAccess v vfs name flag ret.
Definition osSleep (vfs micro_secs : Z) : MW Z :=
  v ← lift (vfs_at vfs); xSleep v vfs micro_secs.
Definition osCurrentTime (vfs room : Z) : MW (Z * Z) :=
  v ← lift (vfs_at vfs); xCurrentTime v vfs room.

(** The handle is fresh memory: its fields hold whatever was there. *)
Definition junk_file w : UnixFile := mkUnixFile (fill w) (s32 (fill w)) None (fill w).

Definition osGetFileHandle (vfs : Z) : MW Z :=
  v ← lift (vfs_at vfs);
  a ← malloc (sz_file v);
  (if a =? 0 then mret tt else w ← get; ufile_put a (junk_file w));;
  mret a.

Definition osGetVFS (name : string) : Z :=
  if bool_decide (name = "unix"%string) then unixGetOS else 0.

Definition osClose (file : Z) : MW Z :=
  f ← ufile file; m ← lift (methods_at (p_methods f)); xClose m file.
Definition osRead (file buf buf_sz offset : Z) : MW Z :=
  f ← ufile file; m ← lift (methods_at (p_methods f)); xRead m file buf buf_sz offset.
Definition osWrite (file buf sz offset : Z) : MW Z :=
  f ← ufile file; m ← lift (methods_at (p_methods f)); xWrite m file buf sz offset.
Definition osTruncate (file sz : Z) : MW Z :=
  f ← ufile file; m ← lift (methods_at (p_methods f)); xTruncate m file sz.
Definition osSync (file : Z) : MW Z :=
  f ← ufile file; m ← lift (methods_at (p_methods f)); xSync m file.
Definition osFileSize (file : Z) : MW (Z * option Z) :=
  f ← ufile file; m ← lift (methods_at (p_methods f)); xFileSize m file.

End os.
End SqlOs.
