(* ===== verification/SqlOsFacts.v ===== *)
(** The open-file list of [os/os_unix.c] and file input and output against the kernel's laws. *)

From S2P Require Import Prelude Chains SqlOs.
From stdpp Require Import options.

(** A file of [d] bytes after [bs] is written at [pos]: a gap reads as zeros. *)
Definition overwrite (d : list Z) (pos : nat) (bs : list Z) : list Z :=
  wr (d ++ replicate (pos + length bs - length d) 0) pos bs.

(** * What the code relies on of the kernel *)

Class PosixLaws (K : Type) `{Posix K} := {
  data_of : K → Z → option (list Z); (* the bytes of the file open at a descriptor *)
  pos_of : K → Z → Z; (* its read and write position *)
  room : K → Z → Z → Prop; (* the device lets the file grow to this size *)
  kept (k k' : K) := ∀ fd, data_of k' fd = data_of k fd ∧ ∀ n, room k fd n → room k' fd n;
  room_le k fd n m : room k fd n → m ≤ n → room k fd m;
  lseek_ok k fd d off : data_of k fd = Some d → 0 ≤ off →
    ∃ k', sys_lseek_set fd off k = (off, k') ∧ pos_of k' fd = off ∧ kept k k';
  lseek_neg k fd off : off < 0 → sys_lseek_set fd off k = (-1, k);
  read_ok k fd d n : data_of k fd = Some d → 0 ≤ pos_of k fd → 0 ≤ n →
    let bs := rd d (Z.to_nat (pos_of k fd)) (Z.to_nat n) in
    ∃ k', sys_read fd n k = (Z.of_nat (length bs), bs, k') ∧ kept k k';
  write_ok k fd d bs : data_of k fd = Some d → 0 ≤ pos_of k fd →
    room k fd (pos_of k fd + Z.of_nat (length bs)) →
    ∃ k', sys_write fd bs k = (Z.of_nat (length bs), k') ∧
      data_of k' fd = Some (overwrite d (Z.to_nat (pos_of k fd)) bs) ∧
      ∀ n, room k fd n → room k' fd n;
}.

Module SqlOsFacts.
Import SqlOs.

Lemma length_overwrite d pos bs :
  length (overwrite d pos bs) = (length d `max` (pos + length bs))%nat.
Proof. unfold overwrite. rewrite length_wr; rewrite length_app, length_replicate; lia. Qed.

Lemma rd_overwrite_eq d pos bs n : n = length bs → rd (overwrite d pos bs) pos n = bs.
Proof.
  intros ->. unfold overwrite. apply rd_wr_eq; [done|]. rewrite length_app, length_replicate. lia.
Qed.

Lemma rd_overwrite_ne d pos bs pos' n :
  (pos' + n ≤ length d)%nat → (pos' + n ≤ pos ∨ pos + length bs ≤ pos')%nat →
  rd (overwrite d pos bs) pos' n = rd d pos' n.
Proof.
  intros Hin Hd. unfold overwrite.
  rewrite rd_wr_ne; [|rewrite length_app, length_replicate; lia|done].
  unfold rd. rewrite drop_app_le by lia. rewrite take_app_le; [done|]. rewrite length_drop. lia.
Qed.

Section facts.
Context {K : Type} `{Posix K}.
Implicit Types w : World K.

(** ** The open-file list *)

Definition name_of w (a : Z) : option string := ufiles w !! a ≫= filename.

(** The list at [head] is [l], every file in it has a name, and no name occurs twice. *)
Definition open_files w (l : list Z) : Prop :=
  chain (uf_next w) (head w) l ∧ (∀ a, a ∈ l → is_Some (name_of w a)) ∧
  ∀ a b, a ∈ l → b ∈ l → name_of w a = name_of w b → a = b.

Definition is_open w (l : list Z) (name : string) : Prop := ∃ a, a ∈ l ∧ name_of w a = Some name.

Lemma uf_next_alloc w a : is_Some (uf_next w a) → is_Some (ufiles w !! a).
Proof. unfold uf_next. destruct (ufiles w !! a); naive_solver. Qed.

Lemma uf_named_spec w name a s :
  name_of w a = Some s → uf_named w name a = Some (bool_decide (s = name)).
Proof.
  unfold name_of, uf_named. destruct (ufiles w !! a) as [f|]; simpl; [|done]. by intros ->.
Qed.

Lemma unixAlreadyOpened_none w l name :
  open_files w l → ¬ is_open w l name → unixAlreadyOpened name w = Ok (0, w).
Proof.
  intros (Hc & Hn & _) Hno. unfold unixAlreadyOpened, get, mbind, M_bind, lift.
  erewrite scan_miss; [done|done| |].
  - eapply chain_le_size; [done|]. apply uf_next_alloc.
  - intros b Hb. destruct (Hn b Hb) as [s Hs]. rewrite (uf_named_spec _ _ _ _ Hs).
    f_equal. apply bool_decide_eq_false. intros ->. apply Hno. by exists b.
Qed.

Lemma unixAlreadyOpened_some w l name a :
  open_files w l → a ∈ l → name_of w a = Some name → unixAlreadyOpened name w = Ok (a, w).
Proof.
  intros (Hc & Hn & Hd) Ha Hname. unfold unixAlreadyOpened, get, mbind, M_bind, lift.
  pose proof (chain_NoDup _ _ _ Hc) as Hnd.
  apply list_elem_of_split in Ha as (l1 & l2 & ->).
  erewrite scan_hit; [done|done| | |].
  - pose proof (chain_le_size (ufiles w) _ _ _ Hc (uf_next_alloc w)) as Hl.
    rewrite length_app in Hl. simpl in Hl. lia.
  - intros b Hb. destruct (Hn b) as [s Hs]; [set_solver|]. rewrite (uf_named_spec _ _ _ _ Hs).
    f_equal. apply bool_decide_eq_false. intros ->.
    assert (b = a) as -> by (apply Hd; [set_solver|set_solver|congruence]).
    apply NoDup_app in Hnd as (_ & Hd' & _). eapply Hd'; [exact Hb|set_solver].
  - rewrite (uf_named_spec _ _ _ _ Hname). f_equal. by apply bool_decide_eq_true.
Qed.

Lemma open_files_push w l name a f hd :
  open_files w l → ¬ is_open w l name → a ≠ 0 → a ∉ l → hd = head w →
  filename f = Some name → next f = hd →
  open_files (set_head (set_ufiles w (<[a := f]> (ufiles w))) a) (a :: l).
Proof.
  intros (Hc & Hn & Hd) Hno Ha0 Hal -> Hf Hnx.
  assert (∀ b, b ∈ l → name_of (set_head (set_ufiles w (<[a := f]> (ufiles w))) a) b = name_of w b) as Hsame.
  { intros b Hb. unfold name_of. simpl. rewrite lookup_insert_ne by set_solver. done. }
  assert (name_of (set_head (set_ufiles w (<[a := f]> (ufiles w))) a) a = Some name) as Hna.
  { unfold name_of. simpl. by rewrite lookup_insert_eq. }
  split_and!.
  - simpl head. eapply push_head; [exact Hc|done| |].
    + unfold uf_next. simpl. rewrite lookup_insert_eq. simpl. by rewrite Hnx.
    + intros b Hb. unfold uf_next. simpl. rewrite lookup_insert_ne by set_solver. done.
  - intros b [->|Hb]%elem_of_cons; [by rewrite Hna|]. rewrite Hsame by done. auto.
  - intros b c [->|Hb]%elem_of_cons [->|Hc']%elem_of_cons; [done|..].
    + rewrite Hna, Hsame by done. intros Heq. exfalso. apply Hno. by exists c.
    + rewrite Hna, Hsame by done. intros Heq. exfalso. apply Hno. by exists b.
    + rewrite !Hsame by done. auto.
Qed.

Lemma ufile_run w a f : ufiles w !! a = Some f → ufile a w = Ok (f, w).
Proof. intros Hf. unfold ufile, get, mbind, M_bind, lift, deref. by rewrite Hf. Qed.

Lemma sys_run {A} w (f : K → A * K) a k : f (kern w) = (a, k) → sys f w = Ok (a, set_kern w k).
Proof. unfold sys. by intros ->. Qed.

Lemma get_run {S} (s : S) : get s = Ok (s, s).
Proof. done. Qed.

(** Opening a file whose name is already open is refused and changes nothing; otherwise the
    handle joins the list exactly when the kernel opens the file. *)
Lemma unixOpen_busy w l vfs name ret flags :
  open_files w l → is_open w l name → ret ≠ 0 → vfs ≠ 0 →
  unixOpen vfs (Some name) ret flags w = Ok (SQL_ERROR, w).
Proof.
  intros Hl (a & Ha & Hn) Hr Hv. unfold unixOpen.
  rewrite (proj2 (Z.eqb_neq ret 0)), (proj2 (Z.eqb_neq vfs 0)) by done. simpl.
  rewrite (bind_ok _ _ _ _ _ (unixAlreadyOpened_some _ _ _ _ Hl Ha Hn)).
  rewrite (proj2 (Z.eqb_neq a 0)); [done|]. destruct Hl as (Hc & _). by eapply chain_nonzero.
Qed.

Definition opened w k' ret d name : World K :=
  set_head (set_ufiles (set_brk (set_kern w k') (brk w + (Z.of_nat (String.length name) + 1)))
    (<[ret := mkUnixFile UNIX_METHODS_ADDR d (Some name) (head w)]> (ufiles w))) ret.

Lemma unixOpen_free w l vfs name ret flags d k' f :
  open_files w l → ¬ is_open w l name → ret ≠ 0 → vfs ≠ 0 → ret ∉ l → 0 < brk w →
  brk w + (Z.of_nat (String.length name) + 1) ≤ lim w → ufiles w !! ret = Some f →
  sys_open name flags SQL_DEFAULT_FILE_CREATE_MODE (kern w) = (d, k') →
  ∃ w', unixOpen vfs (Some name) ret flags w = Ok (if d <? 0 then SQL_ERROR else SQL_OK, w') ∧
    kern w' = k' ∧
    if d <? 0 then open_files w' l
    else open_files w' (ret :: l) ∧ w' = opened w k' ret d name.
Proof.
  intros Hl Hno Hr Hv Hrl Hb Hroom Hf Hsys. unfold unixOpen.
  zneq ret 0. zneq vfs 0. mstep (unixAlreadyOpened_none _ _ _ Hl Hno). rewrite Z.eqb_refl. cbn [negb].
  mstep (ufile_run _ _ _ Hf).
  unfold unixOpenFile, sys, ufile_put, modify, get, malloc, mbind, mret, M_bind, M_ret.
  cbn. rewrite Hsys. destruct (d <? 0) eqn:Ed.
  - simpl. eexists. split; [done|]. split; [done|].
    destruct Hl as (Hc & Hn & Hd). split_and!.
    + eapply seg_frame; [exact Hc|]. intros b Hb'. unfold uf_next. simpl.
      rewrite lookup_insert_ne by set_solver. done.
    + intros b Hb'. unfold name_of. simpl. rewrite lookup_insert_ne by set_solver. by apply Hn.
    + intros b c Hb' Hc'. unfold name_of. simpl. rewrite !lookup_insert_ne by set_solver. by apply Hd.
  - unfold ufile, get, lift, deref, mbind, M_bind. cbn.
    rewrite lookup_insert_eq. cbn. rewrite Z.max_r by lia. rewrite (proj2 (Z.leb_le _ _)) by lia.
    rewrite (proj2 (Z.eqb_neq (brk w) 0)) by lia. cbn. rewrite !lookup_insert_eq. cbn.
    rewrite !insert_insert_eq. rewrite !lookup_insert_eq. cbn. eexists. split; [done|]. split; [done|].
    split; [|by rewrite !insert_insert_eq]. rewrite !insert_insert_eq.
    by eapply (open_files_push (set_brk (set_kern w k') _) l name).
Qed.

(** ** Closing *)

Lemma unlink_open_files w l1 a l2 f :
  open_files w (l1 ++ a :: l2) → ufiles w !! a = Some f →
  ∃ w', unlink_from (link_of 0 l1) (next f) w = Ok (tt, w') ∧ open_files w' (l1 ++ l2) ∧
    ufiles w' !! a = Some f ∧ kern w' = kern w ∧
    (∀ b, name_of w' b = name_of w b).
Proof.
  intros (Hc & Hn & Hd) Hf. pose proof (chain_NoDup _ _ _ Hc) as Hnd.
  assert (uf_next w a = Some (next f)) as Hnx by (unfold uf_next; by rewrite Hf).
  unfold unlink_from. destruct (decide (l1 = [])) as [->|Hne].
  - simpl. eexists. split; [done|]. split_and!; [|done|done|done].
    split_and!; [|intros b Hb; apply Hn; set_solver|intros b c Hb Hc'; apply Hd; set_solver].
    simpl. eapply unlink_head; [exact Hc|done|done].
  - destruct (link_of_in 0 l1) as [[_ ?]|Hin]; [done|].
    set (b := link_of 0 l1) in *.
    assert (b ≠ 0) as Hb0. { eapply chain_nonzero; [exact Hc|set_solver]. }
    assert (b ≠ a) as Hba.
    { intros Heq. apply NoDup_app in Hnd as (_ & Hd' & _). eapply Hd'; [exact Hin|set_solver]. }
    destruct (uf_next_alloc w b) as [g Hg]. { eapply chain_next; [exact Hc|set_solver]. }
    rewrite (proj2 (Z.eqb_neq b 0)) by done.
    rewrite (bind_ok _ _ _ _ _ (ufile_run _ _ _ Hg)).
    unfold ufile_put, modify. eexists. split; [done|].
    assert (∀ c, name_of (set_ufiles w (<[b:=mkUnixFile (p_methods g) (fd g) (filename g) (next f)]>
      (ufiles w))) c = name_of w c) as Hsame.
    { intros c. unfold name_of. simpl. destruct (decide (c = b)) as [->|].
      - rewrite lookup_insert_eq, Hg. done.
      - by rewrite lookup_insert_ne. }
    split_and!; [split_and!| | |done].
    + simpl. eapply (unlink_mid _ _ _ _ a); [exact Hc|done|exact Hnx| |].
      * unfold uf_next. simpl. fold b. by rewrite lookup_insert_eq.
      * intros c _ Hcb. unfold uf_next. simpl. by rewrite lookup_insert_ne.
    + intros c Hc'. rewrite Hsame. apply Hn. set_solver.
    + intros c c' Hc' Hc''. rewrite !Hsame. apply Hd; set_solver.
    + simpl. by rewrite lookup_insert_ne.
    + done.
Qed.

Lemma scan_open w l1 a l2 :
  open_files w (l1 ++ a :: l2) →
  scan (size (ufiles w)) (uf_next w) (λ b, Some (b =? a)) 0 (head w) = Ok (link_of 0 l1, a).
Proof.
  intros (Hc & _). pose proof (chain_NoDup _ _ _ Hc) as Hnd. eapply scan_hit; [exact Hc| | |].
  - pose proof (chain_le_size (ufiles w) _ _ _ Hc (uf_next_alloc w)) as Hl.
    rewrite length_app in Hl. simpl in Hl. lia.
  - intros b Hb. f_equal. apply Z.eqb_neq. intros ->.
    apply NoDup_app in Hnd as (_ & Hd & _). eapply Hd; [exact Hb|set_solver].
  - by rewrite Z.eqb_refl.
Qed.

Lemma open_files_free w l a f :
  open_files w l → a ∉ l → open_files (set_ufiles w (<[a := f]> (ufiles w))) l.
Proof.
  intros (Hc & Hn & Hd) Hal.
  assert (∀ b, b ∈ l → name_of (set_ufiles w (<[a := f]> (ufiles w))) b = name_of w b) as Hsame.
  { intros b Hb. unfold name_of. simpl. rewrite lookup_insert_ne by set_solver. done. }
  split_and!.
  - eapply seg_frame; [exact Hc|]. intros b Hb. unfold uf_next. simpl.
    rewrite lookup_insert_ne by set_solver. done.
  - intros b Hb. rewrite Hsame by done. auto.
  - intros b c Hb Hc'. rewrite !Hsame by done. auto.
Qed.

Lemma unixClose_open w l1 a l2 f r k' :
  open_files w (l1 ++ a :: l2) → ufiles w !! a = Some f → sys_close (fd f) (kern w) = (r, k') →
  ∃ w', unixClose a w = Ok (r, w') ∧ open_files w' (l1 ++ l2) ∧ kern w' = k' ∧
    (∀ b, b ≠ a → name_of w' b = name_of w b).
Proof.
  intros Hl Hf Hsys. pose proof Hl as (Hc & _). pose proof (chain_NoDup _ _ _ Hc) as Hnd.
  assert (a ≠ 0) as Ha0 by (eapply chain_nonzero; [exact Hc|set_solver]).
  destruct (unlink_open_files w l1 a l2 f Hl Hf) as (w1 & Hun & Hl1 & Hf1 & Hk1 & Hn1).
  unfold unixClose. rewrite (proj2 (Z.eqb_neq a 0)) by done.
  unfold get at 1. unfold mbind at 1, M_bind at 1.
  rewrite (bind_lift _ _ _ _ (scan_open w l1 a l2 Hl)). cbn [fst snd].
  rewrite (proj2 (Z.eqb_neq a 0)) by done.
  rewrite (bind_ok _ _ _ _ _ (ufile_run _ _ _ Hf)).
  rewrite (bind_ok _ _ _ _ _ Hun).
  unfold sys at 1. unfold mbind at 1, M_bind at 1. rewrite Hk1, Hsys.
  rewrite (bind_ok _ _ _ _ _ (ufile_run (set_kern w1 k') a f Hf1)).
  unfold ufile_put, modify, mbind, mret, M_bind, M_ret. eexists. split; [done|].
  split_and!; [|done|].
  - apply (open_files_free (set_kern w1 k')); [exact Hl1|]. intros Hin.
    apply NoDup_app in Hnd as (_ & Hd & [Hna _]%NoDup_cons).
    apply elem_of_app in Hin as [Hin|Hin]; [eapply Hd; [exact Hin|set_solver]|done].
  - intros b Hb. unfold name_of. simpl. rewrite lookup_insert_ne by done. apply Hn1.
Qed.

Lemma unixClose_closed w l a : open_files w l → a ∉ l → unixClose a w = Ok (SQL_ERROR, w).
Proof.
  intros (Hc & _) Ha. unfold unixClose. destruct (a =? 0); [done|].
  unfold get, mbind, M_bind. erewrite scan_miss; [done|exact Hc| |].
  - eapply chain_le_size; [exact Hc|]. apply uf_next_alloc.
  - intros b Hb. f_equal. apply Z.eqb_neq. intros ->. done.
Qed.

End facts.

(** ** Reading and writing at an offset *)

Section io.
Context {K : Type} `{PosixLaws K}.
Implicit Types w : World K.

Lemma unixRead_run w file buf sz off f d b :
  ufiles w !! file = Some f → file ≠ 0 → buf ≠ 0 → data_of (kern w) (fd f) = Some d →
  0 ≤ off < 2 ^ 31 → 0 ≤ sz → bufs w !! buf = Some b →
  let bs := rd d (Z.to_nat off) (Z.to_nat sz) in
  (length bs ≤ length b)%nat →
  ∃ k', unixRead file buf sz off w =
      Ok (Z.of_nat (length bs), set_bufs (set_kern w k') (<[buf := wr b 0 bs]> (bufs w))) ∧
    kept (kern w) k'.
Proof.
  intros Hf Hfile Hbuf Hd Hoff Hsz Hb bs Hlen.
  destruct (lseek_ok (kern w) (fd f) d off Hd ltac:(lia)) as (k1 & Hseek & Hpos & Hk1).
  destruct (read_ok k1 (fd f) d sz) as (k2 & Hread & Hk2); [by rewrite (proj1 (Hk1 _))|lia|done|].
  exists k2. unfold unixRead. zneq file 0. zneq buf 0.
  mstep (ufile_run _ _ _ Hf). mstep (sys_run w _ _ _ Hseek).
  rewrite wraps_small by lia. rewrite Z.eqb_refl. cbn [negb].
  mstep (sys_run (set_kern w k1) _ _ _ Hread). mstep (get_run (set_kern (set_kern w k1) k2)).
  rewrite Hpos. fold bs.
  rewrite (bind_lift _ _ _ b); [|cbn; by rewrite Hb]. cbn [snd fst].
  rewrite (proj2 (Nat.ltb_ge _ _)) by done. split; [done|].
  intros x. split; [by rewrite (proj1 (Hk2 _)), (proj1 (Hk1 _))|]. intros n Hn. by apply Hk2, Hk1.
Qed.

Lemma unixRead_neg w file buf sz off f :
  ufiles w !! file = Some f → off < 0 → file ≠ 0 → buf ≠ 0 → off ≠ -1 →
  unixRead file buf sz off w = Ok (SQL_ERROR, set_kern w (kern w)).
Proof using All.
  intros Hf Hoff Hfile Hbuf Hne. unfold unixRead. zneq file 0. zneq buf 0.
  mstep (ufile_run _ _ _ Hf). mstep (sys_run w _ _ _ (lseek_neg (kern w) (fd f) off Hoff)).
  rewrite wraps_small by lia. zneq (-1) off. done.
Qed.

Lemma unixWrite_run w file buf sz off f d b :
  ufiles w !! file = Some f → file ≠ 0 → data_of (kern w) (fd f) = Some d →
  0 ≤ off < 2 ^ 31 → 0 ≤ sz → bufs w !! buf = Some b → sz ≤ Z.of_nat (length b) →
  room (kern w) (fd f) (off + sz) →
  ∃ k', unixWrite file buf sz off w = Ok (sz, set_kern w k') ∧
    data_of k' (fd f) = Some (overwrite d (Z.to_nat off) (take (Z.to_nat sz) b)) ∧
    ∀ n, room (kern w) (fd f) n → room k' (fd f) n.
Proof.
  intros Hf Hfile Hd Hoff Hsz Hb Hlen Hroom.
  destruct (lseek_ok (kern w) (fd f) d off Hd ltac:(lia)) as (k1 & Hseek & Hpos & Hk1).
  assert (Z.of_nat (length (take (Z.to_nat sz) b)) = sz) as Hl by (rewrite length_take; lia).
  destruct (write_ok k1 (fd f) d (take (Z.to_nat sz) b)) as (k2 & Hwrite & Hd2 & Hr2).
  { by rewrite (proj1 (Hk1 _)). }
  { lia. }
  { rewrite Hpos, Hl. by apply Hk1. }
  exists k2. unfold unixWrite. zneq file 0.
  mstep (ufile_run _ _ _ Hf). mstep (sys_run w _ _ _ Hseek).
  rewrite wraps_small by lia. rewrite Z.eqb_refl. cbn [negb].
  mstep (get_run (set_kern w k1)).
  rewrite (bind_lift _ _ _ b); [|cbn; by rewrite Hb].
  rewrite (proj2 (Nat.ltb_ge _ _)) by lia. unfold sys. cbn [kern set_kern]. rewrite Hwrite, Hl.
  split_and!; [done|by rewrite Hpos in Hd2|]. intros n Hn. by apply Hr2, Hk1.
Qed.

End io.
End SqlOsFacts.

(** * A concrete kernel: files by name, descriptors with a position *)

Module MemFs.

Record memfs := mkFs { files : gmap string (list Z); fds : gmap Z (string * Z); next_fd : Z }.

Definition data (k : memfs) (fd : Z) : option (list Z) := '(n, _) ← fds k !! fd; files k !! n.
Definition pos (k : memfs) (fd : Z) : Z := default 0 (snd <$> fds k !! fd).

Definition seek_to (k : memfs) (fd off : Z) : memfs :=
  mkFs (files k) (alter (λ e, (e.1, off)) fd (fds k)) (next_fd k).

#[export] Instance memfs_posix : Posix memfs := {
  sys_open n flags mode k :=
    match files k !! n with
    | Some d => (next_fd k, mkFs (files k) (<[next_fd k := (n, 0)]> (fds k)) (next_fd k + 1))
    | None =>
        if Z.testbit flags 6 (* O_CREAT *)
        then (next_fd k, mkFs (<[n := []]> (files k)) (<[next_fd k := (n, 0)]> (fds k)) (next_fd k + 1))
        else (-1, k)
    end;
  sys_close fd k :=
    match fds k !! fd with
    | Some _ => (0, mkFs (files k) (delete fd (fds k)) (next_fd k))
    | None => (-1, k)
    end;
  sys_lseek_set fd off k := if off <? 0 then (-1, k) else (off, seek_to k fd off);
  sys_read fd n k :=
    match data k fd with
    | Some d =>
        let bs := rd d (Z.to_nat (pos k fd)) (Z.to_nat n) in
        (Z.of_nat (length bs), bs, seek_to k fd (pos k fd + Z.of_nat (length bs)))
    | None => (-1, [], k)
    end;
  sys_write fd bs k :=
    match fds k !! fd, data k fd with
    | Some (n, p), Some d =>
        (Z.of_nat (length bs),
         mkFs (<[n := overwrite d (Z.to_nat p) bs]> (files k))
              (<[fd := (n, p + Z.of_nat (length bs))]> (fds k)) (next_fd k))
    | _, _ => (-1, k)
    end;
  sys_ftruncate fd n k :=
    match fds k !! fd, data k fd with
    | Some (nm, _), Some d =>
        (0, mkFs (<[nm := take (Z.to_nat n) (d ++ replicate (Z.to_nat n - length d) 0)]> (files k)) (fds k) (next_fd k))
    | _, _ => (-1, k)
    end;
  sys_fsync fd k := (0, k);
  sys_fstat_size fd k := Z.of_nat ∘ length <$> data k fd;
  sys_unlink n k :=
    match files k !! n with
    | Some _ => (0, mkFs (delete n (files k)) (fds k) (next_fd k))
    | None => (-1, k)
    end;
  sys_access n flag k := if decide (is_Some (files k !! n)) then 0 else -1;
  sys_sleep n k := k;
  sys_usleep n k := k;
  sys_time k := 0;
}.

Lemma data_seek k fd off fd' : data (seek_to k fd off) fd' = data k fd'.
Proof.
  unfold data, seek_to. simpl. destruct (decide (fd' = fd)) as [->|].
  - rewrite lookup_alter_eq. by destruct (fds k !! fd) as [[]|].
  - by rewrite lookup_alter_ne.
Qed.

#[export] Program Instance memfs_laws : PosixLaws memfs := {
  data_of := data;
  pos_of := pos;
  room _ _ _ := True;
}.
Next Obligation. done. Qed.
Next Obligation.
  intros k fd d off Hd Hoff. unfold sys_lseek_set; simpl. rewrite (proj2 (Z.ltb_ge _ _)) by done.
  eexists. split; [done|]. split.
  - unfold pos, seek_to. simpl. rewrite lookup_alter_eq. unfold data in Hd.
    by destruct (fds k !! fd) as [[]|].
  - intros fd'. split; [apply data_seek|done].
Qed.
Next Obligation. intros k fd off Hoff. simpl. by rewrite (proj2 (Z.ltb_lt _ _)). Qed.
Next Obligation.
  intros k fd d n Hd Hpos Hn bs. simpl. rewrite Hd. eexists. split; [done|].
  intros fd'. split; [apply data_seek|done].
Qed.
Next Obligation.
  intros k fd d bs Hd Hpos _. simpl. rewrite Hd. unfold data in Hd. unfold pos.
  destruct (fds k !! fd) as [[n p]|] eqn:E; [|done]. simpl in *.
  eexists. split; [done|]. split; [|done].
  unfold data. simpl. by rewrite lookup_insert_eq; simpl; rewrite lookup_insert_eq.
Qed.

End MemFs.
