(* ===== verification/CacheIface.v ===== *)
(** The plug-in page cache as its clients see it: the table of function pointers
    [SqlPCacheMethods] of [include/sqlite_demo.h] and, as class [PCacheLaws], what
    [pager/pcache.c] and [pager/pager.c] rely on.  The clients' theorems are proved from these
    laws; [PCache1Facts] proves them of [pager/pcache1.c]. *)

From S2P Require Import Prelude SqlOs.
From stdpp Require Import options.

(** [struct SqlPCacheMethods]. *)
Class SqlPCacheMethods (K : Type) := {
  xCreate : Z → Z → Z → M (SqlOs.World K) Z;
  xGet : Z → Z → M (SqlOs.World K) Z;
  xFetch : Z → Z → M (SqlOs.World K) Z;
  xUnpin : Z → M (SqlOs.World K) unit;
}.

Module CacheIface.
Import SqlOs.

(** ** The abstract cache *)

Record cspec := mkSpec {
  cs_size : Z; (* bytes of a page *)
  cs_max : Z;
  cs_pages : gmap Z Z; (* page number to page *)
  cs_lru : list Z; (* released pages, the next to be reused first *)
}.

Definition owns (s : cspec) (p : Z) : Prop := p ∈ cs_lru s ∨ ∃ k, cs_pages s !! k = Some p.

Definition with_pages m s := mkSpec (cs_size s) (cs_max s) m (cs_lru s).
Definition with_lru l s := mkSpec (cs_size s) (cs_max s) (cs_pages s) l.

Definition blk (s : cspec) : Z := cs_size s + sizeof_PgHdr + sizeof_PgHdr1.

Section iface.
Context {K : Type}.
Implicit Types (w : World K) (s : cspec).

(** What the cache's own steps leave alone. *)
Record inner w w' : Prop := {
  in_kern : kern w' = kern w;
  in_head : head w' = head w;
  in_reg : registered w' = registered w;
  in_ufiles : ufiles w' = ufiles w;
  in_caches : caches w' = caches w;
  in_pagers : pagers w' = pagers w;
  in_lim : lim w' = lim w;
  in_fill : fill w' = fill w;
}.

Record quiet w w' : Prop := {
  q_inner : inner w w';
  q_hdrs : hdrs w' = hdrs w;
  q_bufs : bufs w' = bufs w;
  q_brk : brk w' = brk w;
  q_base p : base <$> pages1 w' !! p = base <$> pages1 w !! p;
}.

Lemma inner_refl w : inner w w.
Proof. by constructor. Qed.
Lemma quiet_refl w : quiet w w.
Proof. split; try done. Qed.

Lemma inner_trans w1 w2 w3 : inner w1 w2 → inner w2 w3 → inner w1 w3.
Proof. intros [] []. constructor; congruence. Qed.
Lemma quiet_trans w1 w2 w3 : quiet w1 w2 → quiet w2 w3 → quiet w1 w3.
Proof.
  intros [] []. split; [by eapply inner_trans|congruence..|]. intros p. by rewrite q_base1, q_base0.
Qed.

(** What a page of the cache may count on across steps. *)
Record grows w w' : Prop := {
  g_hdrs a : is_Some (hdrs w !! a) → is_Some (hdrs w' !! a);
  g_bufs a b : bufs w !! a = Some b → ∃ b', bufs w' !! a = Some b' ∧ length b' = length b;
  g_brk : brk w ≤ brk w';
}.

Lemma grows_same w w' : hdrs w' = hdrs w → bufs w' = bufs w → brk w' = brk w → grows w w'.
Proof. intros E1 E2 E3. split; [by rewrite E1|rewrite E2; eauto|lia]. Qed.

Lemma quiet_grows w w' : quiet w w' → grows w w'.
Proof. intros []. by apply grows_same. Qed.

(** No object lives beyond what malloc has handed out, nor at the null pointer. *)
Definition heap_wf w : Prop :=
  0 < brk w ∧ ∀ a, brk w ≤ a ∨ a ≤ 0 →
    pages1 w !! a = None ∧ hdrs w !! a = None ∧ bufs w !! a = None ∧
    caches w !! a = None ∧ pagers w !! a = None ∧ ufiles w !! a = None.

Definition zero_hdr (content : Z) : PgHdr := mkPgHdr 0 content 0 0 0 0 0 0 0 0.

Lemma quiet_wf w w' : quiet w w' → heap_wf w → heap_wf w'.
Proof.
  intros [[] Hh Hb Hbrk Hbase] [H0 Hwf]. split; [by rewrite Hbrk|]. intros a Ha. rewrite Hbrk in Ha.
  destruct (Hwf a Ha) as (Hp & ? & ? & ? & ? & ?). split_and!; try congruence.
  specialize (Hbase a). rewrite Hp in Hbase. by destruct (pages1 w' !! a).
Qed.

(** The struct [SqlPCachePage] at an address. *)
Definition page_base w (p : Z) : option SqlPCachePage := base <$> pages1 w !! p.

End iface.
End CacheIface.

Import SqlOs CacheIface.

Class PCacheLaws (K : Type) `{SqlPCacheMethods K} := {
  cache_at : World K → Z → cspec → Prop;
  (** The cache is not disturbed by steps that leave its structs alone. *)
  cache_frame w w' c s :
    cache_at w c s → pages1 w' = pages1 w → caches1 w' = caches1 w → grows w w' → cache_at w' c s;
  (** Every page has a header and a buffer of the page size, its own. *)
  cache_page w c s p : cache_at w c s → owns s p →
    p ≠ 0 ∧ ∃ pg, page_base w p = Some pg ∧ is_Some (hdrs w !! extra pg) ∧ 0 < content pg ∧
      0 < extra pg ∧ ∃ b, bufs w !! content pg = Some b ∧ length b = Z.to_nat (cs_size s);
  cache_sep w c s p q pg qg : cache_at w c s → owns s p → owns s q → p ≠ q →
    page_base w p = Some pg → page_base w q = Some qg →
    extra pg ≠ extra qg ∧ content pg ≠ content qg;
  cache_size w c s : cache_at w c s → 0 ≤ cs_size s < 2 ^ 30;
  cache_keys w c s k1 k2 p : cache_at w c s →
    cs_pages s !! k1 = Some p → cs_pages s !! k2 = Some p → k1 = k2;
  cache_disj w c s k p : cache_at w c s → cs_pages s !! k = Some p → p ∉ cs_lru s;
  cache_bound w c s : cache_at w c s →
    Z.of_nat (size (cs_pages s)) + Z.of_nat (length (cs_lru s)) ≤ cs_max s;
  create_law w szp mx : heap_wf w → fill w = 0 → 0 ≤ szp < 2 ^ 30 → 0 ≤ mx < 2 ^ 31 →
    brk w + 4096 ≤ lim w →
    ∃ c w', xCreate szp sizeof_PgHdr mx w = Ok (c, w') ∧ c ≠ 0 ∧
      cache_at w' c (mkSpec szp mx ∅ []) ∧ inner w w' ∧ hdrs w' = hdrs w ∧ bufs w' = bufs w ∧
      brk w ≤ brk w' ≤ brk w + 4096 ∧ heap_wf w';
  get_law w c s k : cache_at w c s → 0 ≤ k →
    xGet c k w = Ok (default 0 (cs_pages s !! k), w);
  fetch_hit w c s k p : cache_at w c s → 0 ≤ k → cs_pages s !! k = Some p →
    xFetch c k w = Ok (p, w);
  fetch_reuse w c s k p l : cache_at w c s → 0 ≤ k → cs_pages s !! k = None → cs_lru s = p :: l →
    ∃ w', xFetch c k w = Ok (p, w') ∧ quiet w w' ∧
      cache_at w' c (with_pages (<[k := p]> (cs_pages s)) (with_lru l s));
  fetch_full w c s k : cache_at w c s → 0 ≤ k → cs_pages s !! k = None → cs_lru s = [] →
    cs_max s ≤ Z.of_nat (size (cs_pages s)) → xFetch c k w = Ok (0, w);
  fetch_new w c s k : cache_at w c s → 0 ≤ k → cs_pages s !! k = None → cs_lru s = [] →
    Z.of_nat (size (cs_pages s)) < cs_max s → heap_wf w → brk w + blk s ≤ lim w →
    ∃ p pg w', xFetch c k w = Ok (p, w') ∧ inner w w' ∧ heap_wf w' ∧ brk w' = brk w + blk s ∧
      brk w ≤ extra pg ∧ brk w ≤ content pg ∧
      hdrs w' = <[extra pg := zero_hdr (content pg)]> (hdrs w) ∧
      bufs w' = <[content pg := replicate (Z.to_nat (cs_size s)) 0]> (bufs w) ∧
      page_base w' p = Some pg ∧ (∀ q, q ≠ p → page_base w' q = page_base w q) ∧ ¬ owns s p ∧
      cache_at w' c (with_pages (<[k := p]> (cs_pages s)) s);
  unpin_law w c s k p : cache_at w c s → cs_pages s !! k = Some p →
    ∃ w', xUnpin p w = Ok (tt, w') ∧ quiet w w' ∧
      cache_at w' c (with_lru (p :: cs_lru s) (with_pages (delete k (cs_pages s)) s));
}.
