(* ===== verification/PCache1.v ===== *)
(** The default page cache [pager/pcache1.c]: a hash table of the pages in use, chained
    through [pnext], and a list of released pages, linked through [plru_next], that are reused
    before new ones are allocated.  The instance of [SqlPCacheMethods] at the end is what
    [pcache1GlobalRegister] installs. *)

From S2P Require Import Prelude Chains SqlOs CacheIface.
From stdpp Require Import options.

Module PCache1.
Import SqlOs.

Definition PCACHE1_LRU_ADD := 1.
Definition PCACHE1_LRU_REMOVE := 2.

(** ** Assigning one field of a struct *)

Definition with_key k p := mkPgHdr1 (base p) k (is_pinned p) (pnext p) (pcache1_of p) (plru_next p) (plru_prev p).
Definition with_pinned b p := mkPgHdr1 (base p) (key p) b (pnext p) (pcache1_of p) (plru_next p) (plru_prev p).
Definition with_pnext n p := mkPgHdr1 (base p) (key p) (is_pinned p) n (pcache1_of p) (plru_next p) (plru_prev p).
Definition with_pcache c p := mkPgHdr1 (base p) (key p) (is_pinned p) (pnext p) c (plru_next p) (plru_prev p).
Definition with_lru_next n p := mkPgHdr1 (base p) (key p) (is_pinned p) (pnext p) (pcache1_of p) n (plru_prev p).
Definition with_lru_prev n p := mkPgHdr1 (base p) (key p) (is_pinned p) (pnext p) (pcache1_of p) (plru_next p) n.

Definition with_head h c := mkPCache1 h (plru_tail c) (sz_page1 c) (sz_extra1 c) (mx_pages c) (nhash c) (npage c) (aphash c).
Definition with_tail t c := mkPCache1 (plru_head c) t (sz_page1 c) (sz_extra1 c) (mx_pages c) (nhash c) (npage c) (aphash c).
Definition with_npage n c := mkPCache1 (plru_head c) (plru_tail c) (sz_page1 c) (sz_extra1 c) (mx_pages c) (nhash c) n (aphash c).
Definition with_hash n a c := mkPCache1 (plru_head c) (plru_tail c) (sz_page1 c) (sz_extra1 c) (mx_pages c) n (npage c) a.
Definition with_aphash a c := with_hash (nhash c) a c.

Section pcache1.
Context {K : Type}.
Abbreviation MW := (M (World K)).
Implicit Types w : World K.

Definition page1 (a : Z) : MW PgHdr1 := w ← get; lift (deref (pages1 w !! a)).
Definition page1_upd (a : Z) (f : PgHdr1 → PgHdr1) : MW unit :=
  p ← page1 a; modify (λ w, set_pages1 w (<[a := f p]> (pages1 w))).
Definition cache1 (a : Z) : MW PCache1 := w ← get; lift (deref (caches1 w !! a)).
Definition cache1_upd (a : Z) (f : PCache1 → PCache1) : MW unit :=
  c ← cache1 a; modify (λ w, set_caches1 w (<[a := f c]> (caches1 w))).

(** [key % nhash]; the slot of the table at that index. *)
Definition slot (key n : Z) : MW nat :=
  if n =? 0 then fail FUndef else mret (Z.to_nat (key mod n)).
Definition at_slot (tbl : list Z) (h : nat) : MW Z := lift (deref (tbl !! h)).

Definition next_of w (a : Z) : option Z := pnext <$> pages1 w !! a.
Definition has_key w (k a : Z) : option bool := (λ p, key p =? k) <$> pages1 w !! a.
Definition lru_of w (a : Z) : option Z := plru_next <$> pages1 w !! a.

(** ** Growing the table *)

(** One old chain moved to the new table: [while((p=pnext) != 0)]. *)
Fixpoint migrate (fuel : nat) (p nnew : Z) (apnew : list Z) : MW (list Z) :=
  if p =? 0 then mret apnew else
  match fuel with
  | O => fail FFuel
  | S fuel =>
      pg ← page1 p;
      h ← slot (key pg) nnew;
      old ← at_slot apnew h;
      page1_upd p (with_pnext old);;
      migrate fuel (pnext pg) nnew (<[h := p]> apnew)
  end.

Fixpoint migrate_all (old : list Z) (nnew : Z) (apnew : list Z) : MW (list Z) :=
  match old with
  | [] => mret apnew
  | p :: old =>
      w ← get;
      apnew ← migrate (size (pages1 w)) p nnew apnew;
      migrate_all old nnew apnew
  end.

Definition _pcache1ResizeHash (pcache : Z) : MW unit :=
  c ← cache1 pcache;
  let nnew := u32 (nhash c * 2) in
  let nnew := if nnew <? 256 then 256 else nnew in
  a ← malloc (8 * nnew);
  if a =? 0 then mret tt else
  w ← get;
  apnew ← migrate_all (aphash c) nnew (replicate (Z.to_nat nnew) (fill w));
  cache1_upd pcache (with_hash nnew apnew).

Definition _pcache1Create (szp sze mx : Z) : MW Z :=
  a ← malloc sizeof_PCache1;
  if a =? 0 then mret 0 else
  modify (λ w, set_caches1 w (<[a := mkPCache1 0 0 szp sze mx 0 0 []]> (caches1 w)));;
  _pcache1ResizeHash a;;
  c ← cache1 a;
  lift (assert_ (negb (nhash c =? 0)));;
  mret a.

(** ** Looking up *)

Definition lookup (pcache : Z) (k : Z) : MW (nat * Z) :=
  c ← cache1 pcache;
  h ← slot k (nhash c);
  p ← at_slot (aphash c) h;
  w ← get;
  r ← lift (scan (size (pages1 w)) (next_of w) (has_key w k) 0 p);
  mret (h, r.2).

Definition _pcache1Get (pcache k : Z) : MW Z := r ← lookup pcache k; mret r.2.

(** ** The list of released pages *)

Definition _pcache1AddRemoveLRU (page flags : Z) : MW unit :=
  pg ← page1 page;
  let pcache1 := pcache1_of pg in
  lift (assert_ (negb (pcache1 =? 0)));;
  (if negb (Z.land flags PCACHE1_LRU_ADD =? 0) then
     c ← cache1 pcache1;
     page1_upd page (with_lru_next (plru_head c));;
     page1_upd page (with_lru_prev 0);;
     cache1_upd pcache1 (with_head page);;
     (if plru_tail c =? 0 then cache1_upd pcache1 (with_tail page) else mret tt)
   else mret tt);;
  if negb (Z.land flags PCACHE1_LRU_REMOVE =? 0) then
    pg ← page1 page;
    (if negb (plru_prev pg =? 0) then page1_upd (plru_prev pg) (with_lru_next (plru_next pg)) else mret tt);;
    pg ← page1 page;
    (if negb (plru_next pg =? 0) then page1_upd (plru_next pg) (with_lru_prev (plru_prev pg)) else mret tt);;
    pg ← page1 page;
    c ← cache1 pcache1;
    (if plru_head c =? page then cache1_upd pcache1 (with_head (plru_next pg)) else mret tt);;
    (if plru_tail c =? page then cache1_upd pcache1 (with_tail (plru_prev pg)) else mret tt)
  else mret tt.

(** ** Fetching: find, reuse or allocate *)

(** One block holds the page, the client's header and the cache's own: all zeroed.  The header
    [PgHdr] written at [extra] has to fit between them. *)
Definition alloc_page (pcache : Z) : MW Z :=
  c ← cache1 pcache;
  let alloc_bytes := s32 (sz_page1 c + sz_extra1 c + sizeof_PgHdr1) in
  pnew ← malloc (u64 alloc_bytes);
  if (pnew =? 0) || (sz_extra1 c <? sizeof_PgHdr) then fail FUndef else
  let content := pnew in
  let extra := pnew + sz_page1 c in
  let p := pnew + sz_page1 c + sz_extra1 c in
  modify (λ w, set_bufs w (<[content := replicate (Z.to_nat (sz_page1 c)) 0]> (bufs w)));;
  modify (λ w, set_hdrs w (<[extra := mkPgHdr 0 content 0 0 0 0 0 0 0 0]> (hdrs w)));;
  modify (λ w, set_pages1 w (<[p := mkPgHdr1 (mkPage content extra) 0 0 0 0 0 0]> (pages1 w)));;
  mret p.

(** The end of [_pcache1Fetch]: the page enters the table under its new number. *)
Definition install (pcache k : Z) (h : nat) (p : Z) : MW Z :=
  c ← cache1 pcache;
  old ← at_slot (aphash c) h;
  page1_upd p (with_key k);;
  page1_upd p (with_pnext old);;
  page1_upd p (with_pinned 1);;
  page1_upd p (with_pcache pcache);;
  cache1_upd pcache (with_aphash (<[h := p]> (aphash c)));;
  cache1_upd pcache (λ c, with_npage (u32 (npage c + 1)) c);;
  mret p.

Definition _pcache1Fetch (pcache k : Z) : MW Z :=
  r ← lookup pcache k;
  let h := r.1 in
  if negb (r.2 =? 0) then mret r.2 else
  c ← cache1 pcache;
  p ← (if negb (plru_head c =? 0) then
         _pcache1AddRemoveLRU (plru_head c) PCACHE1_LRU_REMOVE;; mret (plru_head c)
       else mret 0);
  if (p =? 0) && (u32 (mx_pages c) <=? npage c) then mret 0 else
  p ← (if p =? 0 then alloc_page pcache else mret p);
  install pcache k h p.

(** ** Releasing *)

Definition _pcache1RemoveFromHash (page free_flag : Z) : MW unit :=
  pg ← page1 page;
  let pcache := pcache1_of pg in
  c ← cache1 pcache;
  h ← slot (key pg) (nhash c);
  hd ← at_slot (aphash c) h;
  w ← get;
  r ← lift (scan (size (pages1 w)) (next_of w) (λ a, Some (a =? page)) 0 hd);
  lift (assert_ (r.2 =? page));;
  (if r.1 =? 0 then cache1_upd pcache (with_aphash (<[h := pnext pg]> (aphash c)))
   else page1_upd r.1 (with_pnext (pnext pg)));;
  cache1_upd pcache (λ c, with_npage (u32 (npage c - 1)) c).

Definition _pcache1Unpin (page : Z) : MW unit :=
  lift (assert_ (negb (page =? 0)));;
  _pcache1RemoveFromHash page 0;;
  _pcache1AddRemoveLRU page PCACHE1_LRU_ADD.

(** [pcache1GlobalRegister] stores the four functions in [global_config]. *)
Definition pcache1GlobalRegister : MW unit := modify (λ w, set_registered w true).

End pcache1.

#[export] Instance pcache1_methods {K} : SqlPCacheMethods K := {
  xCreate := _pcache1Create;
  xGet := _pcache1Get;
  xFetch := _pcache1Fetch;
  xUnpin := _pcache1Unpin;
}.

End PCache1.
