(* ===== verification/PCache1Facts.v ===== *)
(** The page cache of [pager/pcache1.c] implements a map from page numbers to pages together
    with a stack of released pages: the representation relation and one lemma per step. *)

From S2P Require Import Prelude Chains SqlOs CacheIface PCache1.
From stdpp Require Import options.

Module PCache1Facts.
Import SqlOs CacheIface PCache1.

Section facts.
Context {K : Type}.
Implicit Types (w : World K) (s : cspec).

(** ** The representation *)

(** Page [p] of cache [c]: its block is allocated and its three parts are in place. *)
Record page_at w (c sz p : Z) (r : PgHdr1) : Prop := {
  pa_rec : pages1 w !! p = Some r;
  pa_base : base r = mkPage (p - sizeof_PgHdr - sz) (p - sizeof_PgHdr);
  pa_cache : pcache1_of r = c;
  pa_pos : 0 < p - sizeof_PgHdr - sz;
  pa_brk : p + sizeof_PgHdr1 ≤ brk w;
  pa_hdr : is_Some (hdrs w !! (p - sizeof_PgHdr));
  pa_buf : ∃ b, bufs w !! (p - sizeof_PgHdr - sz) = Some b ∧ length b = Z.to_nat sz;
}.

Record cache1_repr w (c : Z) s (C : PCache1) : Prop := {
  cr_C : caches1 w !! c = Some C;
  cr_c0 : c ≠ 0;
  cr_szp : sz_page1 C = cs_size s;
  cr_sz : 0 ≤ cs_size s < 2 ^ 30;
  cr_sze : sz_extra1 C = sizeof_PgHdr;
  cr_max : mx_pages C = cs_max s;
  cr_maxr : 0 ≤ cs_max s < 2 ^ 31;
  cr_hash : nhash C = Z.of_nat (length (aphash C));
  cr_hashr : 0 < nhash C < 2 ^ 32;
  cr_npage : npage C = Z.of_nat (size (cs_pages s));
  cr_total : Z.of_nat (size (cs_pages s)) + Z.of_nat (length (cs_lru s)) ≤ cs_max s;
  cr_keys k p : cs_pages s !! k = Some p → 0 ≤ k ∧ ∃ r, page_at w c (cs_size s) p r ∧ key r = k;
  cr_lrus p : p ∈ cs_lru s → ∃ r, page_at w c (cs_size s) p r ∧ plru_prev r = 0;
  cr_disj k p : cs_pages s !! k = Some p → p ∉ cs_lru s;
  cr_chain i hd : aphash C !! i = Some hd → ∃ l, chain (next_of w) hd l ∧
    ∀ p, p ∈ l ↔ ∃ k, cs_pages s !! k = Some p ∧ Z.to_nat (k mod nhash C) = i;
  cr_lru : chain (lru_of w) (plru_head C) (cs_lru s);
  cr_tail : plru_tail C = default 0 (last (cs_lru s));
  cr_sep p q : owns s p → owns s q → p ≠ q → blk s ≤ Z.abs (p - q);
}.

Definition cache1_at w (c : Z) s : Prop := ∃ C, cache1_repr w c s C.

(** A page between two lists: allocated, with [pcache] field [c], and in neither. *)
Definition float w (c : Z) s (p : Z) : Prop :=
  ¬ owns s p ∧ (∃ r, page_at w c (cs_size s) p r) ∧
  ∀ q, owns s q → blk s ≤ Z.abs (p - q).

(** ** Running the accessors *)

Lemma page1_run w p r : pages1 w !! p = Some r → page1 p w = Ok (r, w).
Proof. intros Hp. unfold page1, get, mbind, M_bind, lift, deref. by rewrite Hp. Qed.

Lemma page1_upd_run w p r f :
  pages1 w !! p = Some r → page1_upd p f w = Ok (tt, set_pages1 w (<[p := f r]> (pages1 w))).
Proof. intros Hp. unfold page1_upd. by mstep (page1_run _ _ _ Hp). Qed.

Lemma cache1_run w c C : caches1 w !! c = Some C → cache1 c w = Ok (C, w).
Proof. intros Hp. unfold cache1, get, mbind, M_bind, lift, deref. by rewrite Hp. Qed.

Lemma cache1_upd_run w c C f :
  caches1 w !! c = Some C → cache1_upd c f w = Ok (tt, set_caches1 w (<[c := f C]> (caches1 w))).
Proof. intros Hp. unfold cache1_upd. by mstep (cache1_run _ _ _ Hp). Qed.

Lemma slot_run w k n : 0 < n → slot k n w = Ok (Z.to_nat (k mod n), w).
Proof. intros Hn. unfold slot. zneq n 0. done. Qed.

Lemma at_slot_run w t i a : t !! i = Some a → at_slot t i w = Ok (a, w).
Proof. intros Ht. unfold at_slot, lift, deref. by rewrite Ht. Qed.

Lemma next_alloc w a : is_Some (next_of w a) → is_Some (pages1 w !! a).
Proof. unfold next_of. destruct (pages1 w !! a); naive_solver. Qed.

Lemma slot_ex w c s C k :
  cache1_repr w c s C → ∃ hd, aphash C !! Z.to_nat (k mod nhash C) = Some hd.
Proof.
  intros Hr. apply lookup_lt_is_Some_2. pose proof (cr_hash _ _ _ _ Hr) as Hh. pose proof (cr_hashr _ _ _ _ Hr).
  pose proof (Z.mod_pos_bound k (nhash C)). lia.
Qed.

Lemma repr_key_inj w c s C k1 k2 p :
  cache1_repr w c s C → cs_pages s !! k1 = Some p → cs_pages s !! k2 = Some p → k1 = k2.
Proof.
  intros Hr H1 H2. destruct (cr_keys _ _ _ _ Hr _ _ H1) as (_ & r1 & [] & <-).
  destruct (cr_keys _ _ _ _ Hr _ _ H2) as (_ & r2 & [] & <-). congruence.
Qed.

(** ** Lookup *)

Lemma lookup_run w c s C k :
  cache1_repr w c s C → 0 ≤ k →
  lookup c k w = Ok ((Z.to_nat (k mod nhash C), default 0 (cs_pages s !! k)), w).
Proof.
  intros Hr Hk. destruct (slot_ex _ _ _ _ k Hr) as [hd Hhd].
  destruct (cr_chain _ _ _ _ Hr _ _ Hhd) as (l & Hc & Hl).
  unfold lookup. mstep (cache1_run _ _ _ (cr_C _ _ _ _ Hr)).
  mstep (slot_run w k (nhash C) (proj1 (cr_hashr _ _ _ _ Hr))).
  mstep (at_slot_run w _ _ _ Hhd). unfold get at 1. unfold mbind at 1, M_bind at 1.
  pose proof (chain_le_size (pages1 w) _ _ _ Hc (next_alloc w)) as Hlen.
  assert (∀ q k', cs_pages s !! k' = Some q → has_key w k q = Some (bool_decide (k' = k))) as Hkey.
  { intros q k' Hq. destruct (cr_keys _ _ _ _ Hr _ _ Hq) as (_ & r & [] & <-).
    unfold has_key. rewrite pa_rec0. simpl. f_equal. destruct (Z.eqb_spec (key r) k); [by rewrite bool_decide_true|by rewrite bool_decide_false]. }
  destruct (cs_pages s !! k) as [p|] eqn:Ep.
  - assert (p ∈ l) as Hp by (apply Hl; eauto).
    apply list_elem_of_split in Hp as (l1 & l2 & ->).
    rewrite length_app in Hlen. simpl in Hlen.
    erewrite bind_lift; [|eapply scan_hit; [exact Hc|lia| |]]; [done| |].
    + intros b Hb. destruct (proj1 (Hl b)) as (k' & Hk' & _); [set_solver|].
      rewrite (Hkey _ _ Hk'). f_equal. apply bool_decide_eq_false. intros ->.
      assert (b = p) as -> by congruence. apply chain_NoDup in Hc.
      apply NoDup_app in Hc as (_ & Hd & _). eapply Hd; [exact Hb|set_solver].
    + rewrite (Hkey _ _ Ep). f_equal. by apply bool_decide_eq_true.
  - erewrite bind_lift; [|eapply scan_miss; [exact Hc|lia|]]; [done|].
    intros b Hb. destruct (proj1 (Hl b) Hb) as (k' & Hk' & _).
    rewrite (Hkey _ _ Hk'). f_equal. apply bool_decide_eq_false. congruence.
Qed.

(** ** Frames *)

Lemma page_at_keep w w' c c' sz p r r' :
  page_at w c sz p r → grows w w' → pages1 w' !! p = Some r' → base r' = base r →
  pcache1_of r' = c' → page_at w' c' sz p r'.
Proof.
  intros [] Hg Hp Hb Hc. destruct pa_buf0 as (b & Hb' & Hl).
  destruct (g_bufs _ _ Hg _ _ Hb') as (b' & ? & ?). pose proof (g_brk _ _ Hg).
  split; try congruence; [lia|by apply Hg|]. exists b'. split; [done|lia].
Qed.

Lemma page_at_same w w' c sz p r :
  page_at w c sz p r → grows w w' → pages1 w' !! p = pages1 w !! p → page_at w' c sz p r.
Proof. intros Hp Hg He. eapply page_at_keep; try done; [rewrite He|]; apply Hp. Qed.

(** The cache is not disturbed by steps that leave its structs alone. *)
Lemma cache1_at_frame w w' c s :
  cache1_at w c s → pages1 w' = pages1 w → caches1 w' = caches1 w → grows w w' → cache1_at w' c s.
Proof.
  intros [C Hr] Hp Hc Hg. exists C. destruct Hr. split; try done.
  - by rewrite Hc.
  - intros k p Hk. destruct (cr_keys0 _ _ Hk) as (? & r & Hpa & ?). split; [done|].
    exists r. split; [|done]. eapply page_at_same; [done..|]. by rewrite Hp.
  - intros p Hk. destruct (cr_lrus0 _ Hk) as (r & Hpa & ?).
    exists r. split; [|done]. eapply page_at_same; [done..|]. by rewrite Hp.
  - intros i hd Hi. destruct (cr_chain0 i hd Hi) as (l & Hl & Hk). exists l. split; [|done].
    eapply seg_frame; [exact Hl|]. intros a _. unfold next_of. by rewrite Hp.
  - eapply seg_frame; [exact cr_lru0|]. intros a _. unfold lru_of. by rewrite Hp.
Qed.

Lemma owned_page w c s C p :
  cache1_repr w c s C → owns s p → ∃ r, page_at w c (cs_size s) p r.
Proof.
  intros Hr [Hp|[k Hk]].
  - destruct (cr_lrus _ _ _ _ Hr _ Hp) as (r & ? & _). eauto.
  - destruct (cr_keys _ _ _ _ Hr _ _ Hk) as (_ & r & ? & _). eauto.
Qed.

Lemma page1_upd_again w p r f m :
  page1_upd p f (set_pages1 w (<[p := r]> m)) = Ok (tt, set_pages1 w (<[p := f r]> m)).
Proof.
  rewrite (page1_upd_run _ _ r) by (simpl; by rewrite lookup_insert_eq).
  simpl. by rewrite insert_insert_eq.
Qed.

Lemma cache1_upd_again w c C f m :
  cache1_upd c f (set_caches1 w (<[c := C]> m)) = Ok (tt, set_caches1 w (<[c := f C]> m)).
Proof.
  rewrite (cache1_upd_run _ _ C) by (simpl; by rewrite lookup_insert_eq).
  simpl. by rewrite insert_insert_eq.
Qed.

(** ** The released pages: taking the first one *)

Lemma lru_take w c s C p l :
  cache1_repr w c s C → cs_lru s = p :: l →
  ∃ w' C', _pcache1AddRemoveLRU p PCACHE1_LRU_REMOVE w = Ok (tt, w') ∧ plru_head C = p ∧
    cache1_repr w' c (with_lru l s) C' ∧ float w' c (with_lru l s) p ∧ quiet w w' ∧
    nhash C' = nhash C ∧ aphash C' = aphash C.
Proof.
  intros Hr Hl. destruct (cr_lrus _ _ _ _ Hr p) as (r & Hpa & Hprev); [rewrite Hl; set_solver|].
  pose proof (cr_lru _ _ _ _ Hr) as Hch. rewrite Hl in Hch.
  pose proof (chain_NoDup _ _ _ Hch) as Hnd.
  destruct Hch as (Hhd & Hp0 & n & Hn & Hch).
  assert (plru_next r = n) as Hrn. { unfold lru_of in Hn. rewrite (pa_rec _ _ _ _ _ Hpa) in Hn. by simplify_eq/=. }
  pose proof (cr_C _ _ _ _ Hr) as HC. pose proof (cr_c0 _ _ _ _ Hr) as Hc0.
  set (C' := with_tail (default 0 (last l)) (with_head n C)).
  exists (set_caches1 w (<[c := C']> (caches1 w))), C'.
  assert (Hrun : _pcache1AddRemoveLRU p PCACHE1_LRU_REMOVE w = Ok (tt, set_caches1 w (<[c := C']> (caches1 w)))).
  { unfold _pcache1AddRemoveLRU. mstep (page1_run _ _ _ (pa_rec _ _ _ _ _ Hpa)).
    rewrite (pa_cache _ _ _ _ _ Hpa). zneq c 0. cbn [assert_].
    rewrite (bind_lift _ _ w tt eq_refl). change (Z.land PCACHE1_LRU_REMOVE PCACHE1_LRU_ADD =? 0) with true.
    cbn [negb]. rewrite (bind_ok _ _ w tt w eq_refl).
    change (Z.land PCACHE1_LRU_REMOVE PCACHE1_LRU_REMOVE =? 0) with false. cbn [negb].
    mstep (page1_run _ _ _ (pa_rec _ _ _ _ _ Hpa)). rewrite Hprev, Z.eqb_refl. cbn [negb].
    rewrite (bind_ok _ _ w tt w eq_refl). mstep (page1_run _ _ _ (pa_rec _ _ _ _ _ Hpa)).
    rewrite Hrn, Hprev.
    rewrite (bind_ok _ _ w tt w); cycle 1.
    { destruct (Z.eqb_spec n 0) as [|Hn0]; [done|]. cbn [negb].
      destruct (chain_cons _ _ _ Hch Hn0) as (r' & l' & -> & _ & _).
      destruct (cr_lrus _ _ _ _ Hr n) as (rn & Hpan & Hprevn); [rewrite Hl; set_solver|].
      rewrite (page1_upd_run _ _ _ _ (pa_rec _ _ _ _ _ Hpan)).
      assert (with_lru_prev 0 rn = rn) as -> by (destruct rn; by simplify_eq/=).
      rewrite insert_id by apply Hpan. by destruct w. }
    mstep (page1_run _ _ _ (pa_rec _ _ _ _ _ Hpa)). mstep (cache1_run _ _ _ HC).
    rewrite Hhd, Z.eqb_refl, Hrn, Hprev. mstep (cache1_upd_run w c C (with_head n) HC).
    pose proof (cr_tail _ _ _ _ Hr) as Ht. rewrite Hl in Ht.
    destruct (Z.eqb_spec (plru_tail C) p) as [Htp|Htp].
    - rewrite (cache1_upd_run _ c (with_head n C)) by (simpl; by rewrite lookup_insert_eq).
      simpl. rewrite insert_insert_eq. do 4 f_equal. unfold C'. f_equal.
      destruct l as [|q l]; [done|]. exfalso. rewrite Htp, last_cons_cons in Ht.
      apply NoDup_cons in Hnd as [Hnp _]. apply Hnp.
      destruct (last (q :: l)) as [z|] eqn:El; [|by apply last_None in El].
      simpl in Ht. subst z. apply last_Some in El as [l' ->]. set_solver.
    - do 4 f_equal. unfold C', with_tail, with_head. simpl. f_equal. rewrite Ht.
      destruct l as [|q l]; [done|]. by rewrite last_cons_cons. }
  assert (quiet w (set_caches1 w (<[c := C']> (caches1 w)))) as Hq by done.
  split; [exact Hrun|]. split; [exact Hhd|]. pose proof (quiet_grows _ _ Hq) as Hg.
  split_and!; [|..|exact Hq|done|done].
  - destruct Hr. rewrite Hl in *. split; try done; simpl.
    + by rewrite lookup_insert_eq.
    + simpl in cr_total0. lia.
    + intros k q Hk. destruct (cr_keys0 _ _ Hk) as (? & r' & Hpa' & ?). split; [done|]. exists r'.
      split; [|done]. by eapply page_at_same.
    + intros q Hk. destruct (cr_lrus0 q) as (r' & Hpa' & ?); [set_solver|]. exists r'.
      split; [|done]. by eapply page_at_same.
    + intros k q Hk. specialize (cr_disj0 _ _ Hk). set_solver.
    + intros q q' Hq1 Hq2. apply cr_sep0; [destruct Hq1|destruct Hq2]; unfold owns in *; rewrite ?Hl; set_solver.
  - split_and!.
    + intros [Hin|[k Hk]]; simpl in *; [by apply NoDup_cons in Hnd as [? _]|].
      apply (cr_disj _ _ _ _ Hr _ _ Hk). rewrite Hl. set_solver.
    + exists r. by eapply page_at_same.
    + intros q Hq'. apply (cr_sep _ _ _ _ Hr); [left; rewrite Hl; set_solver| |].
      * destruct Hq' as [?|?]; [left; rewrite Hl; set_solver|by right].
      * intros <-. destruct Hq' as [Hin|[k Hk]]; simpl in *; [by apply NoDup_cons in Hnd as [? _]|].
        apply (cr_disj _ _ _ _ Hr _ _ Hk). rewrite Hl. set_solver.
Qed.

(** ** Entering the table *)

Lemma float_ne w c s p q : float w c s p → owns s q → p ≠ q.
Proof. intros (Hno & _) Hq ->. done. Qed.

Lemma install_run w c c0 s C p k :
  cache1_repr w c s C → float w c0 s p → cs_pages s !! k = None → 0 ≤ k →
  Z.of_nat (size (cs_pages s)) + Z.of_nat (length (cs_lru s)) < cs_max s →
  ∃ w', install c k (Z.to_nat (k mod nhash C)) p w = Ok (p, w') ∧
    cache1_at w' c (with_pages (<[k := p]> (cs_pages s)) s) ∧ quiet w w' ∧
    (∀ a, a ≠ c → caches1 w' !! a = caches1 w !! a).
Proof.
  intros Hr Hfl Hk Hk0 Htot. set (h := Z.to_nat (k mod nhash C)).
  pose proof Hfl as (Hno & (r & Hpa) & Hsep). pose proof (cr_C _ _ _ _ Hr) as HC.
  destruct (slot_ex _ _ _ _ k Hr) as [old Hold]. fold h in Hold.
  set (r' := mkPgHdr1 (base r) k 1 old c (plru_next r) (plru_prev r)).
  set (C' := with_npage (u32 (npage C + 1)) (with_aphash (<[h := p]> (aphash C)) C)).
  set (w' := set_caches1 (set_pages1 w (<[p := r']> (pages1 w))) (<[c := C']> (caches1 w))).
  exists w'. split.
  { unfold install. mstep (cache1_run _ _ _ HC). mstep (at_slot_run w _ _ _ Hold).
    mstep (page1_upd_run w p r (with_key k) (pa_rec _ _ _ _ _ Hpa)).
    do 3 (rewrite (bind_ok _ _ _ _ _ (page1_upd_again _ _ _ _ _))).
    rewrite (bind_ok _ _ _ _ _ (cache1_upd_run (set_pages1 w _) c C _ HC)).
    by rewrite (bind_ok _ _ _ _ _ (cache1_upd_again _ _ _ _ _)). }
  assert (quiet w w') as Hq.
  { split; try done. intros q. simpl. destruct (decide (q = p)) as [->|].
    - by rewrite lookup_insert_eq, (pa_rec _ _ _ _ _ Hpa).
    - by rewrite lookup_insert_ne. }
  split; [|split; [done|intros a Ha; simpl; by rewrite lookup_insert_ne]].
  pose proof (quiet_grows _ _ Hq) as Hg.
  assert (∀ q, q ≠ p → pages1 w' !! q = pages1 w !! q) as Hother.
  { intros q Hqp. simpl. by rewrite lookup_insert_ne. }
  assert (∀ q, owns s q → pages1 w' !! q = pages1 w !! q) as Hown.
  { intros q Hqo. apply Hother. intros ->. done. }
  exists C'. destruct Hr. split; try done; simpl.
  - by rewrite lookup_insert_eq.
  - by rewrite length_insert.
  - rewrite map_size_insert_None by done. rewrite wrapu_small; lia.
  - rewrite map_size_insert_None by done. lia.
  - intros k' q Hkq. destruct (decide (k' = k)) as [->|Hkk].
    + rewrite lookup_insert_eq in Hkq. simplify_eq. split; [done|]. exists r'. split; [|done].
      eapply page_at_keep; [done|done|simpl; by rewrite lookup_insert_eq|done|done].
    + rewrite lookup_insert_ne in Hkq by done. destruct (cr_keys0 _ _ Hkq) as (? & r1 & Hpa1 & ?).
      split; [done|]. exists r1. split; [|done]. eapply page_at_same; [done|done|]. apply Hown. right. eauto.
  - intros q Hql. destruct (cr_lrus0 _ Hql) as (r1 & Hpa1 & ?). exists r1. split; [|done].
    eapply page_at_same; [done|done|]. apply Hown. by left.
  - intros k' q Hkq. destruct (decide (k' = k)) as [->|Hkk].
    + rewrite lookup_insert_eq in Hkq. simplify_eq. intros ?. apply Hno. by left.
    + rewrite lookup_insert_ne in Hkq by done. eauto.
  - intros i hd Hi. destruct (decide (i = h)) as [->|Hih].
    + rewrite list_lookup_insert_eq in Hi by (by eapply lookup_lt_Some). simplify_eq.
      destruct (cr_chain0 _ _ Hold) as (l & Hl & Hm). exists (hd :: l). split.
      * eapply push_head; [exact Hl| | |].
        -- pose proof (pa_pos _ _ _ _ _ Hpa). unfold sizeof_PgHdr in *. lia.
        -- unfold next_of. simpl. by rewrite lookup_insert_eq.
        -- intros b Hb. unfold next_of. rewrite Hown; [done|]. apply Hm in Hb as (k' & ? & _). right. eauto.
      * intros q. rewrite elem_of_cons, Hm. split.
        -- intros [->|(k' & Hk' & ?)]; [exists k; by rewrite lookup_insert_eq|].
           exists k'. rewrite lookup_insert_ne by congruence. done.
        -- intros (k' & Hk' & Hkh). destruct (decide (k' = k)) as [->|].
           ++ rewrite lookup_insert_eq in Hk'. left. congruence.
           ++ rewrite lookup_insert_ne in Hk' by done. right. eauto.
    + rewrite list_lookup_insert_ne in Hi by done.
      destruct (cr_chain0 _ _ Hi) as (l & Hl & Hm). exists l. split.
      * eapply seg_frame; [exact Hl|]. intros b Hb. unfold next_of. rewrite Hown; [done|].
        apply Hm in Hb as (k' & ? & _). right. eauto.
      * intros q. rewrite Hm. split; intros (k' & Hk' & Hkh); exists k'.
        -- rewrite lookup_insert_ne by congruence. done.
        -- rewrite lookup_insert_ne in Hk'; [done|]. intros <-. done.
  - eapply seg_frame; [exact cr_lru0|]. intros b Hb. unfold lru_of. rewrite Hown; [done|by left].
  - assert (∀ q, owns (with_pages (<[k:=p]> (cs_pages s)) s) q → q = p ∨ owns s q) as Ho.
    { intros q [?|[k' Hk']]; simpl in *; [right; by left|].
      destruct (decide (k' = k)) as [->|]; [rewrite lookup_insert_eq in Hk'; left; congruence|].
      rewrite lookup_insert_ne in Hk' by done. right. right. eauto. }
    change (blk (with_pages _ s)) with (blk s).
    intros q1 q2 [->|H1]%Ho [->|H2]%Ho Hne; [done|by apply Hsep| |by apply cr_sep0].
    rewrite <-Z.abs_opp, Z.opp_sub_distr, Z.add_comm. apply (Hsep _ H1).
Qed.

(** ** Leaving the table *)

Lemma size_pos (m : gmap Z Z) k v : m !! k = Some v → (0 < size m)%nat.
Proof.
  intros Hk. destruct (size m) eqn:E; [|lia]. apply map_size_empty_inv in E as ->.
  by rewrite lookup_empty in Hk.
Qed.

(** The fields of a page that leaving the table does not touch. *)
Definition same_page (r r' : PgHdr1) : Prop :=
  base r' = base r ∧ key r' = key r ∧ pcache1_of r' = pcache1_of r ∧
  plru_next r' = plru_next r ∧ plru_prev r' = plru_prev r.

Lemma delete_repr w w' c s C C' p k :
  cache1_repr w c s C → cs_pages s !! k = Some p → grows w w' → caches1 w' !! c = Some C' →
  C' = with_npage (npage C - 1) (with_aphash (aphash C') C) →
  length (aphash C') = length (aphash C) →
  (∀ q r, pages1 w !! q = Some r → ∃ r', pages1 w' !! q = Some r' ∧ same_page r r') →
  (∀ i hd, aphash C' !! i = Some hd → ∃ l, chain (next_of w') hd l ∧
    ∀ q, q ∈ l ↔ q ≠ p ∧ ∃ k, cs_pages s !! k = Some q ∧ Z.to_nat (k mod nhash C) = i) →
  cache1_repr w' c (with_pages (delete k (cs_pages s)) s) C' ∧
  float w' c (with_pages (delete k (cs_pages s)) s) p.
Proof.
  intros Hr Hk Hg HC' HCC Hlen Hsame Hch. pose proof (λ k2 q, repr_key_inj w c s C k k2 q Hr) as Hinj.
  assert (∀ q c r, page_at w c (cs_size s) q r → ∃ r', page_at w' c (cs_size s) q r' ∧ same_page r r') as Hpage.
  { intros q c1 r Hpa. destruct (Hsame _ _ (pa_rec _ _ _ _ _ Hpa)) as (r' & Hr' & Hs). exists r'.
    split; [|done]. eapply page_at_keep; [exact Hpa|done|done|apply Hs|].
    transitivity (pcache1_of r); [apply Hs|]. by rewrite (pa_cache _ _ _ _ _ Hpa). }
  assert (∀ q, owns (with_pages (delete k (cs_pages s)) s) q → owns s q ∧ q ≠ p) as Hown.
  { intros q [Hq|[k' Hk']]; simpl in *.
    - split; [by left|]. intros ->. by apply (cr_disj _ _ _ _ Hr _ _ Hk).
    - apply lookup_delete_Some in Hk' as [Hne Hk']. split; [right; eauto|]. intros ->. apply Hne. eauto. }
  destruct Hr. rewrite HCC in *. cbn [nhash aphash with_npage with_aphash with_hash] in *. split.
  - split; try done; simpl.
    + by rewrite Hlen.
    + rewrite map_size_delete_Some by eauto. pose proof (size_pos _ _ _ Hk). lia.
    + rewrite map_size_delete_Some by eauto. lia.
    + intros k' q [_ Hk']%lookup_delete_Some. destruct (cr_keys0 _ _ Hk') as (? & r & Hpa & ?).
      destruct (Hpage _ _ _ Hpa) as (r' & Hpa' & Hs). split; [done|]. exists r'. split; [done|].
      destruct Hs as (_ & -> & _). done.
    + intros q Hq. destruct (cr_lrus0 _ Hq) as (r & Hpa & ?).
      destruct (Hpage _ _ _ Hpa) as (r' & Hpa' & Hs). exists r'. split; [done|].
      destruct Hs as (_ & _ & _ & _ & ->). done.
    + intros k' q [_ Hk']%lookup_delete_Some. eauto.
    + intros i hd Hi. destruct (Hch i hd Hi) as (l & Hl & Hm). exists l. split; [done|].
      intros q. rewrite Hm. split.
      * intros [Hqp (k' & Hk' & Hki)]. exists k'. rewrite lookup_delete_ne by congruence. done.
      * intros (k' & [Hne Hk']%lookup_delete_Some & Hki). split; [|eauto].
        intros ->. apply Hne. eauto.
    + eapply seg_frame; [exact cr_lru0|]. intros b Hb. unfold lru_of.
      destruct (cr_lrus0 _ Hb) as (r & Hpa & ?). destruct (Hsame _ _ (pa_rec _ _ _ _ _ Hpa)) as (r' & Hr' & Hs).
      rewrite Hr', (pa_rec _ _ _ _ _ Hpa). simpl. by destruct Hs as (_ & _ & _ & -> & _).
    + intros q1 q2 [H1 _]%Hown [H2 _]%Hown. by apply cr_sep0.
  - split_and!.
    + intros [_ ?]%Hown. done.
    + destruct (cr_keys0 _ _ Hk) as (_ & r & Hpa & _). destruct (Hpage _ _ _ Hpa) as (r' & ? & _). by exists r'.
    + intros q [Hq Hqp]%Hown. apply cr_sep0; [right; eauto|done|done].
Qed.

Lemma remove_run w c s C p k :
  cache1_repr w c s C → cs_pages s !! k = Some p →
  ∃ w' C', _pcache1RemoveFromHash p 0 w = Ok (tt, w') ∧ quiet w w' ∧
    cache1_repr w' c (with_pages (delete k (cs_pages s)) s) C' ∧
    float w' c (with_pages (delete k (cs_pages s)) s) p.
Proof.
  intros Hr Hk. destruct (cr_keys _ _ _ _ Hr _ _ Hk) as (Hk0 & r & Hpa & Hkey).
  pose proof (cr_C _ _ _ _ Hr) as HC. set (h := Z.to_nat (k mod nhash C)).
  destruct (slot_ex _ _ _ _ k Hr) as [hd Hhd]. fold h in Hhd.
  destruct (cr_chain _ _ _ _ Hr _ _ Hhd) as (l & Hl & Hm).
  assert (p ∈ l) as Hpl by (apply Hm; eauto).
  assert (p ≠ 0) as Hp0 by (by eapply chain_nonzero).
  apply list_elem_of_split in Hpl as (l1 & l2 & ->).
  pose proof (chain_le_size (pages1 w) _ _ _ Hl (next_alloc w)) as Hlen. rewrite length_app in Hlen. simpl in Hlen.
  pose proof (chain_NoDup _ _ _ Hl) as Hnd.
  apply NoDup_app in Hnd as (_ & Hd & [Hnp2 _]%NoDup_cons).
  assert (p ∉ l1) as Hnp1 by (intros ?; eapply Hd; [done|set_solver]).
  assert (npage C - 1 = u32 (npage C - 1)) as Hnpage.
  { rewrite wrapu_small; [done|]. pose proof (size_pos _ _ _ Hk). destruct Hr. lia. }
  assert (∀ i a q, aphash C !! i = Some a → i ≠ h → q ∈ l1 ++ p :: l2 →
    ∀ lq : list Z, (∀ p, p ∈ lq ↔ ∃ k, cs_pages s !! k = Some p ∧ Z.to_nat (k mod nhash C) = i) → q ∉ lq) as Hsep.
  { intros i a q Hi Hih Hq lq Hlq Hin. apply Hlq in Hin as (k1 & Hk1 & <-). apply Hm in Hq as (k2 & Hk2 & Hk2h).
    rewrite (repr_key_inj _ _ _ _ _ _ _ Hr Hk1 Hk2) in Hih. congruence. }
  assert (next_of w p = Some (pnext r)) as Hnx by (unfold next_of; by rewrite (pa_rec _ _ _ _ _ Hpa)).
  assert (∀ (m : M (World K) unit), (m = (if link_of 0 l1 =? 0
        then cache1_upd c (with_aphash (<[h := pnext r]> (aphash C)))
        else page1_upd (link_of 0 l1) (with_pnext (pnext r)))) →
    _pcache1RemoveFromHash p 0 w = (m;; cache1_upd c (λ c, with_npage (u32 (npage c - 1)) c)) w) as Hrun.
  { intros m ->. unfold _pcache1RemoveFromHash. mstep (page1_run _ _ _ (pa_rec _ _ _ _ _ Hpa)).
    rewrite (pa_cache _ _ _ _ _ Hpa). mstep (cache1_run _ _ _ HC). rewrite Hkey.
    mstep (slot_run w k (nhash C) (proj1 (cr_hashr _ _ _ _ Hr))).
    mstep (at_slot_run w _ _ _ Hhd). unfold get at 1. unfold mbind at 1, M_bind at 1.
    erewrite bind_lift; [|eapply scan_hit; [exact Hl|lia| |]].
    - cbn [fst snd]. rewrite Z.eqb_refl. done.
    - intros b Hb. f_equal. apply Z.eqb_neq. intros ->. done.
    - by rewrite Z.eqb_refl. }
  rewrite (Hrun _ eq_refl). clear Hrun.
  destruct (decide (l1 = [])) as [->|Hne].
  - change (link_of 0 [] =? 0) with true. cbn iota. mstep (cache1_upd_run w c C (with_aphash (<[h := pnext r]> (aphash C))) HC).
    rewrite cache1_upd_again. do 2 eexists. split; [done|]. split; [done|].
    eapply delete_repr; [exact Hr|exact Hk|by apply grows_same|simpl; by rewrite lookup_insert_eq| | | |].
    + simpl. by rewrite <-Hnpage.
    + simpl. by rewrite length_insert.
    + intros q r1 Hq. exists r1. by split.
    + simpl. intros i a Hi. destruct (decide (i = h)) as [->|Hih].
      * rewrite list_lookup_insert_eq in Hi by (by eapply lookup_lt_Some). simplify_eq.
        exists l2. split; [eapply (unlink_head (next_of w)); [exact Hl|exact Hnx|done]|]. intros q. rewrite <-Hm. set_solver.
      * rewrite list_lookup_insert_ne in Hi by done. destruct (cr_chain _ _ _ _ Hr _ _ Hi) as (lq & Hlq & Hmq).
        exists lq. split; [done|]. intros q. rewrite <-Hmq. split; [|by intros []].
        intros Hq. split; [|done]. intros ->. eapply (Hsep i a p); [done|done|set_solver|done|done].
  - destruct (link_of_in 0 l1) as [[_ ?]|Hin]; [done|]. set (b := link_of 0 l1) in *.
    assert (b ≠ 0) as Hb0. { eapply chain_nonzero; [exact Hl|set_solver]. }
    zneq b 0. destruct (proj1 (Hm b)) as (kb & Hkb & Hkbh); [set_solver|].
    destruct (cr_keys _ _ _ _ Hr _ _ Hkb) as (_ & rb & Hpb & _).
    mstep (page1_upd_run w b rb (with_pnext (pnext r)) (pa_rec _ _ _ _ _ Hpb)).
    rewrite (cache1_upd_run (set_pages1 w _) c C _ HC). do 2 eexists. split; [done|].
    assert (quiet w (set_caches1 (set_pages1 w (<[b:=with_pnext (pnext r) rb]> (pages1 w)))
      (<[c:=with_npage (u32 (npage C - 1)) C]> (caches1 w)))) as Hq.
    { split; try done. intros q. simpl. destruct (decide (q = b)) as [->|].
      - by rewrite lookup_insert_eq, (pa_rec _ _ _ _ _ Hpb).
      - by rewrite lookup_insert_ne. }
    split; [exact Hq|].
    eapply delete_repr; [exact Hr|exact Hk|by apply quiet_grows|simpl; by rewrite lookup_insert_eq| |done| |].
    + rewrite <-Hnpage. by destruct C.
    + intros q r1 Hq1. simpl. destruct (decide (q = b)) as [->|].
      * rewrite lookup_insert_eq. eexists. split; [done|]. rewrite (pa_rec _ _ _ _ _ Hpb) in Hq1. by simplify_eq.
      * rewrite lookup_insert_ne by done. exists r1. by split.
    + simpl. intros i a Hi. destruct (decide (i = h)) as [->|Hih].
      * rewrite Hhd in Hi. simplify_eq. exists (l1 ++ l2). split.
        -- eapply (unlink_mid _ _ _ _ p); [exact Hl|done|exact Hnx| |].
           ++ unfold next_of. simpl. fold b. by rewrite lookup_insert_eq.
           ++ intros x _ Hxb. unfold next_of. simpl. by rewrite lookup_insert_ne.
        -- intros q. rewrite <-Hm. set_solver.
      * destruct (cr_chain _ _ _ _ Hr _ _ Hi) as (lq & Hlq & Hmq). exists lq. split.
        -- eapply seg_frame; [exact Hlq|]. intros x Hx. unfold next_of. simpl.
           rewrite lookup_insert_ne; [done|]. intros <-. eapply (Hsep i a b); [done|done|set_solver|done|done].
        -- intros q. rewrite <-Hmq. split; [|by intros []].
           intros Hq1. split; [|done]. intros ->. eapply (Hsep i a p); [done|done|set_solver|done|done].
Qed.

(** ** The released pages: adding one *)

Lemma last_pos l d : (∀ a, a ∈ l → a ≠ 0) → l ≠ [] → default d (last l) ≠ 0.
Proof.
  intros Hnz Hne. destruct (exists_last Hne) as (l' & x & ->). rewrite last_snoc. simpl.
  apply Hnz. set_solver.
Qed.

Lemma lru_add_run w c s C p :
  cache1_repr w c s C → float w c s p →
  Z.of_nat (size (cs_pages s)) + Z.of_nat (length (cs_lru s)) < cs_max s →
  ∃ w', _pcache1AddRemoveLRU p PCACHE1_LRU_ADD w = Ok (tt, w') ∧
    cache1_at w' c (with_lru (p :: cs_lru s) s) ∧ quiet w w'.
Proof.
  intros Hr Hfl Htot. pose proof Hfl as (Hno & (r & Hpa) & Hsep).
  pose proof (cr_C _ _ _ _ Hr) as HC. pose proof (cr_c0 _ _ _ _ Hr) as Hc0.
  pose proof (cr_lru _ _ _ _ Hr) as Hch.
  set (r' := with_lru_prev 0 (with_lru_next (plru_head C) r)).
  set (C' := with_tail (default p (last (cs_lru s))) (with_head p C)).
  set (w' := set_caches1 (set_pages1 w (<[p := r']> (pages1 w))) (<[c := C']> (caches1 w))).
  assert (Hp0 : p ≠ 0). { pose proof (pa_pos _ _ _ _ _ Hpa). pose proof (cr_sz _ _ _ _ Hr). unfold sizeof_PgHdr in *. lia. }
  exists w'. split.
  { unfold _pcache1AddRemoveLRU. mstep (page1_run _ _ _ (pa_rec _ _ _ _ _ Hpa)).
    rewrite (pa_cache _ _ _ _ _ Hpa). zneq c 0. rewrite (bind_lift _ _ w tt eq_refl).
    change (Z.land PCACHE1_LRU_ADD PCACHE1_LRU_ADD =? 0) with false.
    change (Z.land PCACHE1_LRU_ADD PCACHE1_LRU_REMOVE =? 0) with true. cbn [negb].
    rewrite (bind_ok _ _ w tt w'); [done|]. mstep (cache1_run _ _ _ HC).
    mstep (page1_upd_run w p r (with_lru_next (plru_head C)) (pa_rec _ _ _ _ _ Hpa)).
    rewrite (bind_ok _ _ _ _ _ (page1_upd_again _ _ _ _ _)).
    rewrite (bind_ok _ _ _ _ _ (cache1_upd_run (set_pages1 w _) c C _ HC)).
    rewrite (cr_tail _ _ _ _ Hr). destruct (decide (cs_lru s = [])) as [Hnil|Hne].
    - rewrite Hnil. simpl. rewrite cache1_upd_again. unfold w', C'. by rewrite Hnil.
    - rewrite (proj2 (Z.eqb_neq _ 0)) by (apply last_pos; [intros a; by eapply chain_nonzero|done]).
      unfold mret, M_ret, w', C'. do 4 f_equal. unfold with_tail. simpl.
      unfold with_head. f_equal. rewrite (cr_tail _ _ _ _ Hr).
      destruct (exists_last Hne) as (l' & x & ->). by rewrite last_snoc. }
  assert (quiet w w') as Hq.
  { split; try done. intros q. simpl. destruct (decide (q = p)) as [->|].
    - by rewrite lookup_insert_eq, (pa_rec _ _ _ _ _ Hpa).
    - by rewrite lookup_insert_ne. }
  split; [|done]. pose proof (quiet_grows _ _ Hq) as Hg.
  assert (∀ q, owns s q → pages1 w' !! q = pages1 w !! q) as Hown.
  { intros q Hqo. simpl. rewrite lookup_insert_ne; [done|]. by eapply float_ne. }
  assert (Htail : default p (last (cs_lru s)) = default 0 (last (p :: cs_lru s))).
  { destruct (decide (cs_lru s = [])) as [->|Hne]; [done|].
    destruct (exists_last Hne) as (l' & x & ->). by rewrite app_comm_cons, !last_snoc. }
  exists C'. destruct Hr. split; try done; simpl.
  - by rewrite lookup_insert_eq.
  - lia.
  - intros k q Hk. destruct (cr_keys0 _ _ Hk) as (? & r1 & Hpa1 & ?).
    split; [done|]. exists r1. split; [|done]. eapply page_at_same; [done|done|]. apply Hown. right. eauto.
  - intros q [->|Hql]%elem_of_cons.
    + exists r'. split; [|done]. eapply page_at_keep; [done|done|simpl; by rewrite lookup_insert_eq|done|apply Hpa].
    + destruct (cr_lrus0 _ Hql) as (r1 & Hpa1 & ?). exists r1. split; [|done].
      eapply page_at_same; [done|done|]. apply Hown. by left.
  - intros k q Hk. specialize (cr_disj0 _ _ Hk). rewrite elem_of_cons. intros [->|]; [|done].
    apply Hno. right. eauto.
  - intros i hd Hi. destruct (cr_chain0 _ _ Hi) as (l & Hl & Hm). exists l. split; [|done].
    eapply seg_frame; [exact Hl|]. intros b Hb. unfold next_of. rewrite Hown; [done|].
    apply Hm in Hb as (k' & ? & _). right. eauto.
  - split_and!; [done|done|]. exists (plru_head C). split.
    + unfold lru_of. simpl. by rewrite lookup_insert_eq.
    + eapply seg_frame; [exact cr_lru0|]. intros b Hb. unfold lru_of. rewrite Hown; [done|by left].
  - assert (∀ q, owns (with_lru (p :: cs_lru s) s) q → q = p ∨ owns s q) as Ho.
    { intros q [Hin|?]; simpl in *; [|right; by right].
      apply elem_of_cons in Hin as [->|?]; [by left|right; by left]. }
    change (blk (with_lru _ s)) with (blk s).
    intros q1 q2 [->|H1]%Ho [->|H2]%Ho Hne; [done|by apply Hsep| |by apply cr_sep0].
    rewrite <-Z.abs_opp, Z.opp_sub_distr, Z.add_comm. apply (Hsep _ H1).
Qed.

(** ** A new page *)

(** Where the next page goes: its contents at [brk], then the header, then the page struct. *)
Definition new_page w s : Z := brk w + cs_size s + sizeof_PgHdr.

Lemma alloc_run w c s C :
  cache1_repr w c s C → heap_wf w → brk w + blk s ≤ lim w →
  let p := new_page w s in
  ∃ w', alloc_page c w = Ok (p, w') ∧ cache1_repr w' c s C ∧ float w' 0 s p ∧ inner w w' ∧
    hdrs w' = <[brk w + cs_size s := zero_hdr (brk w)]> (hdrs w) ∧
    bufs w' = <[brk w := replicate (Z.to_nat (cs_size s)) 0]> (bufs w) ∧
    brk w' = brk w + blk s ∧ heap_wf w' ∧
    (∀ q, q ≠ p → pages1 w' !! q = pages1 w !! q) ∧
    base <$> pages1 w' !! p = Some (mkPage (brk w) (brk w + cs_size s)).
Proof.
  intros Hr (Hb0 & Hwf) Hroom p. pose proof (cr_C _ _ _ _ Hr) as HC. pose proof (cr_sz _ _ _ _ Hr) as Hsz.
  unfold blk, new_page, sizeof_PgHdr, sizeof_PgHdr1 in *.
  set (r := mkPgHdr1 (mkPage (brk w) (brk w + cs_size s)) 0 0 0 0 0 0).
  set (w' := mkWorld (kern w) (head w) (registered w) (ufiles w) (<[p := r]> (pages1 w)) (caches1 w)
    (<[brk w + cs_size s := zero_hdr (brk w)]> (hdrs w)) (caches w) (pagers w)
    (<[brk w := replicate (Z.to_nat (cs_size s)) 0]> (bufs w))
    (brk w + (cs_size s + 72 + 56)) (lim w) (fill w)).
  exists w'. assert (pages1 w !! p = None) as Hfresh by (apply Hwf; lia).
  assert (∀ q, owns s q → q + 56 ≤ brk w) as Hbelow.
  { intros q Hq. destruct (owned_page _ _ _ _ _ Hr Hq) as [rq []]. done. }
  assert (∀ q, owns s q → pages1 w' !! q = pages1 w !! q) as Hown.
  { intros q Hq. simpl. rewrite lookup_insert_ne; [done|]. specialize (Hbelow _ Hq). lia. }
  assert (grows w w') as Hg.
  { split; simpl; [| |lia].
    - intros a Ha. destruct (decide (a = brk w + cs_size s)) as [->|];
        [by rewrite lookup_insert_eq|by rewrite lookup_insert_ne].
    - intros a b Ha. rewrite lookup_insert_ne; [eauto|]. intros <-.
      destruct (Hwf (brk w)) as (_ & _ & ? & _); [lia|]. congruence. }
  split_and!; try done.
  - unfold alloc_page. mstep (cache1_run _ _ _ HC). rewrite (cr_szp _ _ _ _ Hr), (cr_sze _ _ _ _ Hr).
    unfold sizeof_PgHdr1, sizeof_PgHdr. rewrite wraps_small by lia. rewrite wrapu_small by lia.
    rewrite (bind_ok _ _ w (brk w) (set_brk w (brk w + (cs_size s + 72 + 56)))).
    + zneq (brk w) 0. change (72 <? 72) with false. cbn iota.
      unfold modify, mbind, mret, M_bind, M_ret. cbn. do 2 f_equal.
    + unfold malloc. rewrite Z.max_r by lia. by rewrite (proj2 (Z.leb_le _ _)) by lia.
  - destruct Hr. split; try done.
    + intros k q Hk. destruct (cr_keys0 _ _ Hk) as (? & r1 & Hpa1 & ?). split; [done|].
      exists r1. split; [|done]. eapply page_at_same; [done|done|]. apply Hown. right. eauto.
    + intros q Hk. destruct (cr_lrus0 _ Hk) as (r1 & Hpa1 & ?).
      exists r1. split; [|done]. eapply page_at_same; [done|done|]. apply Hown. by left.
    + intros i hd Hi. destruct (cr_chain0 _ _ Hi) as (l & Hl & Hm). exists l. split; [|done].
      eapply seg_frame; [exact Hl|]. intros b Hb. unfold next_of. rewrite Hown; [done|].
      apply Hm in Hb as (k' & ? & _). right. eauto.
    + eapply seg_frame; [exact cr_lru0|]. intros b Hb. unfold lru_of. rewrite Hown; [done|by left].
  - split_and!; [intros Ho; specialize (Hbelow _ Ho); unfold p in *; lia| |].
    + exists r. split; simpl.
      * by rewrite lookup_insert_eq.
      * unfold p, sizeof_PgHdr, r. simpl. f_equal; lia.
      * done.
      * unfold p, sizeof_PgHdr. lia.
      * unfold p, sizeof_PgHdr1. lia.
      * unfold p, sizeof_PgHdr. replace (brk w + cs_size s + 72 - 72) with (brk w + cs_size s) by lia.
        by rewrite lookup_insert_eq.
      * unfold p, sizeof_PgHdr. replace (brk w + cs_size s + 72 - 72 - cs_size s) with (brk w) by lia.
        rewrite lookup_insert_eq. eexists. split; [done|]. by rewrite length_replicate.
    + intros q Ho. specialize (Hbelow _ Ho). unfold blk, sizeof_PgHdr, sizeof_PgHdr1, p.
      destruct (owned_page _ _ _ _ _ Hr Ho) as [rq []]. lia.
  - split; simpl; [lia|].
    intros a Ha. simpl in *. rewrite !lookup_insert_ne by (unfold p; lia). apply Hwf. lia.
  - intros q Hq. simpl. by rewrite lookup_insert_ne.
  - simpl. by rewrite lookup_insert_eq.
Qed.

(** ** The operations *)

Lemma fetch_miss w c s C k :
  cache1_repr w c s C → 0 ≤ k → cs_pages s !! k = None →
  _pcache1Fetch c k w =
    (p ← (if negb (plru_head C =? 0) then
            _pcache1AddRemoveLRU (plru_head C) PCACHE1_LRU_REMOVE;; mret (plru_head C)
          else mret 0);
     if (p =? 0) && (u32 (mx_pages C) <=? npage C) then mret 0 else
     p ← (if p =? 0 then alloc_page c else mret p);
     install c k (Z.to_nat (k mod nhash C)) p) w.
Proof.
  intros Hr Hk Hn. unfold _pcache1Fetch. mstep (lookup_run _ _ _ _ _ Hr Hk). rewrite Hn.
  cbn [default]. rewrite Z.eqb_refl. cbn [negb]. by mstep (cache1_run _ _ _ (cr_C _ _ _ _ Hr)).
Qed.

Lemma fetch_reuse1 w c s k p l :
  cache1_at w c s → 0 ≤ k → cs_pages s !! k = None → cs_lru s = p :: l →
  ∃ w', _pcache1Fetch c k w = Ok (p, w') ∧ quiet w w' ∧
    cache1_at w' c (with_pages (<[k := p]> (cs_pages s)) (with_lru l s)).
Proof.
  intros [C Hr] Hk Hn Hl. rewrite (fetch_miss _ _ _ _ _ Hr Hk Hn).
  destruct (lru_take _ _ _ _ _ _ Hr Hl) as (w1 & C1 & Hrun1 & Hhd & Hr1 & Hfl & Hq1 & Hnh & _).
  pose proof (cr_total _ _ _ _ Hr) as Htot. rewrite Hl in Htot. simpl in Htot.
  pose proof (cr_lru _ _ _ _ Hr) as Hch. rewrite Hl in Hch. destruct Hch as (_ & Hp0 & _).
  rewrite Hhd. zneq p 0. rewrite (bind_ok _ _ w p w1) by (by mstep Hrun1).
  zneq p 0. rewrite (bind_ok _ _ w1 p w1 eq_refl). rewrite <-Hnh.
  destruct (install_run w1 c c (with_lru l s) C1 p k) as (w2 & Hrun2 & Hat & Hq2 & _);
    [done|done|done|done|simpl; lia|].
  exists w2. split_and!; [done|by eapply quiet_trans|done].
Qed.

Lemma no_head w c s C : cache1_repr w c s C → cs_lru s = [] → plru_head C = 0.
Proof. intros Hr Hl. pose proof (cr_lru _ _ _ _ Hr) as Hch. by rewrite Hl in Hch. Qed.

Lemma fetch_full1 w c s k :
  cache1_at w c s → 0 ≤ k → cs_pages s !! k = None → cs_lru s = [] →
  cs_max s ≤ Z.of_nat (size (cs_pages s)) → _pcache1Fetch c k w = Ok (0, w).
Proof.
  intros [C Hr] Hk Hn Hl Hfull. rewrite (fetch_miss _ _ _ _ _ Hr Hk Hn), (no_head _ _ _ _ Hr Hl).
  rewrite Z.eqb_refl. cbn [negb]. rewrite (bind_ok _ _ w 0 w eq_refl). rewrite Z.eqb_refl.
  pose proof (cr_maxr _ _ _ _ Hr). rewrite (cr_max _ _ _ _ Hr), (cr_npage _ _ _ _ Hr).
  rewrite wrapu_small by lia. by rewrite (proj2 (Z.leb_le _ _)).
Qed.

Lemma fetch_new1 w c s k :
  cache1_at w c s → 0 ≤ k → cs_pages s !! k = None → cs_lru s = [] →
  Z.of_nat (size (cs_pages s)) < cs_max s → heap_wf w → brk w + blk s ≤ lim w →
  ∃ p pg w', _pcache1Fetch c k w = Ok (p, w') ∧ inner w w' ∧ heap_wf w' ∧ brk w' = brk w + blk s ∧
    brk w ≤ extra pg ∧ brk w ≤ content pg ∧
    hdrs w' = <[extra pg := zero_hdr (content pg)]> (hdrs w) ∧
    bufs w' = <[content pg := replicate (Z.to_nat (cs_size s)) 0]> (bufs w) ∧
    page_base w' p = Some pg ∧ (∀ q, q ≠ p → page_base w' q = page_base w q) ∧ ¬ owns s p ∧
    cache1_at w' c (with_pages (<[k := p]> (cs_pages s)) s).
Proof.
  intros [C Hr] Hk Hn Hl Hroom Hwf Hlim. rewrite (fetch_miss _ _ _ _ _ Hr Hk Hn), (no_head _ _ _ _ Hr Hl).
  rewrite Z.eqb_refl. cbn [negb]. rewrite (bind_ok _ _ w 0 w eq_refl). rewrite Z.eqb_refl.
  pose proof (cr_maxr _ _ _ _ Hr). pose proof (cr_sz _ _ _ _ Hr).
  rewrite (cr_max _ _ _ _ Hr), (cr_npage _ _ _ _ Hr).
  rewrite wrapu_small by lia. rewrite (proj2 (Z.leb_gt _ _)) by done. cbn [andb].
  destruct (alloc_run _ _ _ _ Hr Hwf Hlim)
    as (w1 & Hrun1 & Hr1 & Hfl & Hin1 & Hh1 & Hb1 & Hbrk1 & Hwf1 & Hpg1 & Hbase1).
  mstep Hrun1. destruct (install_run w1 c 0 s C (new_page w s) k) as (w2 & Hrun2 & Hat & Hq2 & Hc2);
    [done|done|done|done|rewrite Hl; simpl; lia|].
  exists (new_page w s), (mkPage (brk w) (brk w + cs_size s)), w2. pose proof Hq2 as [Hin2 Hh2 Hb2 Hbrk2 Hbase2].
  unfold page_base. split_and!; try done; simpl; try lia.
  - by eapply inner_trans.
  - by eapply quiet_wf.
  - by rewrite Hh2.
  - by rewrite Hb2.
  - by rewrite Hbase2.
  - intros q Hq. rewrite Hbase2. by rewrite Hpg1.
  - apply Hfl.
Qed.

Lemma unpin1 w c s k p :
  cache1_at w c s → cs_pages s !! k = Some p →
  ∃ w', _pcache1Unpin p w = Ok (tt, w') ∧ quiet w w' ∧
    cache1_at w' c (with_lru (p :: cs_lru s) (with_pages (delete k (cs_pages s)) s)).
Proof.
  intros [C Hr] Hk. destruct (remove_run _ _ _ _ _ _ Hr Hk) as (w1 & C1 & Hrun1 & Hq1 & Hr1 & Hfl).
  pose proof (cr_total _ _ _ _ Hr). pose proof (size_pos _ _ _ Hk).
  destruct (lru_add_run _ _ _ _ _ Hr1 Hfl) as (w2 & Hrun2 & Hat & Hq2).
  { simpl. rewrite map_size_delete_Some by eauto. lia. }
  exists w2. split_and!; [|by eapply quiet_trans|done].
  destruct (cr_keys _ _ _ _ Hr _ _ Hk) as (_ & r & Hpa & _). pose proof (pa_pos _ _ _ _ _ Hpa).
  pose proof (cr_sz _ _ _ _ Hr). unfold sizeof_PgHdr in *.
  unfold _pcache1Unpin. zneq p 0. rewrite (bind_lift _ _ w tt eq_refl). by mstep Hrun1.
Qed.

(** The cache as it leaves [_pcache1Create]: the table holds what malloc's memory held. *)
Definition created w szp mx : World K :=
  set_caches1 (set_brk w (brk w + 48 + 2048))
    (<[brk w := mkPCache1 0 0 szp sizeof_PgHdr mx 256 0 (replicate 256 (fill w))]> (caches1 w)).

Lemma create_run w szp mx :
  0 < brk w → brk w + 4096 ≤ lim w →
  _pcache1Create szp sizeof_PgHdr mx w = Ok (brk w, created w szp mx).
Proof.
  intros Hb0 Hlim. unfold _pcache1Create.
  rewrite (bind_ok _ _ w (brk w) (set_brk w (brk w + 48))); cycle 1.
  { unfold malloc. change (Z.max 1 sizeof_PCache1) with 48. by rewrite (proj2 (Z.leb_le _ _)) by lia. }
  zneq (brk w) 0. rewrite bind_modify. rewrite (bind_ok _ _ _ tt (created w szp mx)).
  - unfold created. erewrite (bind_ok (cache1 (brk w))); [|apply cache1_run; apply lookup_insert_eq]. done.
  - unfold _pcache1ResizeHash. erewrite (bind_ok (cache1 (brk w))); [|apply cache1_run; apply lookup_insert_eq].
    change (u32 (nhash (mkPCache1 0 0 szp sizeof_PgHdr mx 0 0 []) * 2)) with 0. change (0 <? 256) with true. cbn iota zeta.
    rewrite (bind_ok _ _ _ (brk w + 48) (set_brk (set_caches1 (set_brk w (brk w + 48)) (<[brk w := mkPCache1 0 0 szp sizeof_PgHdr mx 0 0 []]> (caches1 w))) (brk w + 48 + 2048))); cycle 1.
    { unfold malloc. cbn [brk lim set_caches1 set_brk]. change (Z.max 1 (8 * 256)) with 2048.
      by rewrite (proj2 (Z.leb_le _ _)) by lia. }
    zneq (brk w + 48) 0. rewrite bind_get. cbn [aphash migrate_all]. rewrite (bind_ok _ _ _ (replicate 256 (fill w)) _ eq_refl).
    erewrite cache1_upd_run by apply lookup_insert_eq. cbn. by rewrite insert_insert_eq.
Qed.

Lemma create1 w szp mx :
  heap_wf w → fill w = 0 → 0 ≤ szp < 2 ^ 30 → 0 ≤ mx < 2 ^ 31 → brk w + 4096 ≤ lim w →
  ∃ c w', _pcache1Create szp sizeof_PgHdr mx w = Ok (c, w') ∧ c ≠ 0 ∧
    cache1_at w' c (mkSpec szp mx ∅ []) ∧ inner w w' ∧ hdrs w' = hdrs w ∧ bufs w' = bufs w ∧
    brk w ≤ brk w' ≤ brk w + 4096 ∧ heap_wf w'.
Proof.
  intros [Hb0 Hwf] Hfill Hszp Hmx Hlim. set (c := brk w).
  set (C := mkPCache1 0 0 szp sizeof_PgHdr mx 256 0 (replicate 256 (fill w))). set (w' := created w szp mx).
  exists c, w'. split_and!; [|unfold c; lia| |done|done|done|simpl; lia|simpl; lia|].
  - by apply create_run.
  - exists C. unfold w', c in *.
    split; cbn [cs_size cs_max cs_pages cs_lru]; [apply lookup_insert_eq|lia|done|done|done|done|done|
      done|done|done|rewrite map_size_empty; simpl; lia|..].
    + intros k p Hk. by rewrite lookup_empty in Hk.
    + intros p Hp. by apply not_elem_of_nil in Hp.
    + intros k p Hk. by rewrite lookup_empty in Hk.
    + intros i hd Hi. apply lookup_replicate in Hi as [-> _]. rewrite Hfill.
      exists []. split; [done|]. intros p. split; [by intros ?%not_elem_of_nil|].
      intros (k & Hk & _). by rewrite lookup_empty in Hk.
    + done.
    + done.
    + intros p q [Hp|[k Hk]]; simpl in *; [by apply not_elem_of_nil in Hp|by rewrite lookup_empty in Hk].
  - split; simpl; [lia|]. intros a Ha. by apply Hwf; lia.
Qed.

End facts.

#[export] Program Instance pcache1_laws {K} : PCacheLaws K := { cache_at := cache1_at }.
Next Obligation. intros K w w' c s Hc Hp H1 Hg. exact (cache1_at_frame w w' c s Hc Hp H1 Hg). Qed.
Next Obligation.
  intros K w c s p [C Hr] Ho. destruct (owned_page _ _ _ _ _ Hr Ho) as [r []]. pose proof (cr_sz _ _ _ _ Hr).
  unfold sizeof_PgHdr in *. split; [lia|]. exists (base r). unfold page_base. rewrite pa_rec0.
  simpl. rewrite pa_base0. simpl. split_and!; [done|done|lia|lia|done].
Qed.
Next Obligation.
  intros K w c s p q pg qg [C Hr] Hp Hq Hne Hpg Hqg. pose proof (cr_sep _ _ _ _ Hr _ _ Hp Hq Hne) as Hsep.
  pose proof (cr_sz _ _ _ _ Hr).
  destruct (owned_page _ _ _ _ _ Hr Hp) as [r []]. destruct (owned_page _ _ _ _ _ Hr Hq) as [r' []].
  unfold page_base, blk, sizeof_PgHdr, sizeof_PgHdr1 in *. rewrite pa_rec0 in Hpg. rewrite pa_rec1 in Hqg.
  simplify_eq/=. rewrite pa_base0, pa_base1. simpl. lia.
Qed.
Next Obligation. intros K w c s [C Hr]. exact (cr_sz _ _ _ _ Hr). Qed.
Next Obligation. intros K w c s k1 k2 p [C Hr]. exact (repr_key_inj w c s C k1 k2 p Hr). Qed.
Next Obligation. intros K w c s k p [C Hr]. exact (cr_disj _ _ _ _ Hr k p). Qed.
Next Obligation. intros K w c s [C Hr]. exact (cr_total _ _ _ _ Hr). Qed.
Next Obligation. intros K w szp mx. apply create1. Qed.
Next Obligation.
  intros K w c s k [C Hr] Hk. simpl. unfold _pcache1Get. by mstep (lookup_run _ _ _ _ _ Hr Hk).
Qed.
Next Obligation.
  intros K w c s k p [C Hr] Hk Hp. simpl. unfold _pcache1Fetch. mstep (lookup_run _ _ _ _ _ Hr Hk).
  rewrite Hp. change (default 0 (Some p)) with p. destruct (cr_keys _ _ _ _ Hr _ _ Hp) as (_ & r & Hpa & _).
  pose proof (pa_pos _ _ _ _ _ Hpa). pose proof (cr_sz _ _ _ _ Hr). unfold sizeof_PgHdr in *.
  zneq p 0. done.
Qed.
Next Obligation. intros K w c s k p l. apply fetch_reuse1. Qed.
Next Obligation. intros K w c s k. apply fetch_full1. Qed.
Next Obligation. intros K w c s k. apply fetch_new1. Qed.
Next Obligation. intros K w c s k p. apply unpin1. Qed.

End PCache1Facts.
