(* ===== verification/Pager.v ===== *)
(** [pager/pcache.c], the reference-counted pages and the list of dirty ones, and
    [pager/pager.c], which reads pages from the database file and writes them back. *)

From S2P Require Import Prelude Chains SqlOs CacheIface.
From stdpp Require Import options.

Module Pager.
Import SqlOs CacheIface.

Definition SQL_DEFAULT_PAGE_SIZE := 2048.
Definition SQL_DATABASE_HEADER_SIZE := 0.
Definition PGHDR_CLEAN := 1.
Definition PGHDR_DIRTY := 2.
Definition MAX_PAGES_IN_CACHE := 4096.
Definition PCACHE_FINISH_CONVERT_NEED_INIT := 1.
Definition PCACHE_FINISH_CONVERT_DONT_INIT := 2.

(** ** Assigning one field of a struct *)

Definition with_ppage v h := mkPgHdr v (pdata h) (pextra h) (pager_of h) (pgno h) (flags h) (pdirty_next h) (pdirty_prev h) (nref h) (pcache_of h).
Definition with_pdata v h := mkPgHdr (ppage h) v (pextra h) (pager_of h) (pgno h) (flags h) (pdirty_next h) (pdirty_prev h) (nref h) (pcache_of h).
Definition with_pextra v h := mkPgHdr (ppage h) (pdata h) v (pager_of h) (pgno h) (flags h) (pdirty_next h) (pdirty_prev h) (nref h) (pcache_of h).
Definition with_pager v h := mkPgHdr (ppage h) (pdata h) (pextra h) v (pgno h) (flags h) (pdirty_next h) (pdirty_prev h) (nref h) (pcache_of h).
Definition with_pgno v h := mkPgHdr (ppage h) (pdata h) (pextra h) (pager_of h) v (flags h) (pdirty_next h) (pdirty_prev h) (nref h) (pcache_of h).
Definition with_flags v h := mkPgHdr (ppage h) (pdata h) (pextra h) (pager_of h) (pgno h) v (pdirty_next h) (pdirty_prev h) (nref h) (pcache_of h).
Definition with_dnext v h := mkPgHdr (ppage h) (pdata h) (pextra h) (pager_of h) (pgno h) (flags h) v (pdirty_prev h) (nref h) (pcache_of h).
Definition with_dprev v h := mkPgHdr (ppage h) (pdata h) (pextra h) (pager_of h) (pgno h) (flags h) (pdirty_next h) v (nref h) (pcache_of h).
Definition with_nref v h := mkPgHdr (ppage h) (pdata h) (pextra h) (pager_of h) (pgno h) (flags h) (pdirty_next h) (pdirty_prev h) v (pcache_of h).
Definition with_hcache v h := mkPgHdr (ppage h) (pdata h) (pextra h) (pager_of h) (pgno h) (flags h) (pdirty_next h) (pdirty_prev h) (nref h) v.

Definition with_dhead v c := mkPCache v (pdirty_tail c) (cache_nref c) (sz_page c) (sz_extra c) (plugin c).
Definition with_dtail v c := mkPCache (pdirty_head c) v (cache_nref c) (sz_page c) (sz_extra c) (plugin c).
Definition with_plugin p sz c := mkPCache (pdirty_head c) (pdirty_tail c) (cache_nref c) sz (sz_extra c) p.

(** [memset(p, 0, n)] over the start of a [PgHdr1]: a field at offset [o] of [sz] bytes loses
    its low-order bytes that lie below [n]. *)
Definition clear_bytes (n o sz v : Z) : Z :=
  let k := Z.max 0 (Z.min (n - o) sz) in Z.shiftl (Z.shiftr v (8 * k)) (8 * k).

Definition clear_prefix (n : Z) (p : PgHdr1) : PgHdr1 :=
  mkPgHdr1 (mkPage (clear_bytes n 0 8 (content (base p))) (clear_bytes n 8 8 (extra (base p))))
    (clear_bytes n 16 4 (key p)) (clear_bytes n 20 1 (is_pinned p)) (clear_bytes n 24 8 (pnext p))
    (clear_bytes n 32 8 (pcache1_of p)) (clear_bytes n 40 8 (plru_next p))
    (clear_bytes n 48 8 (plru_prev p)).

Section pcache.
Context {K : Type} `{SqlPCacheMethods K}.
Abbreviation MW := (M (World K)).
Implicit Types w : World K.

Definition hdr (a : Z) : MW PgHdr := w ← get; lift (deref (hdrs w !! a)).
Definition hdr_upd (a : Z) (f : PgHdr → PgHdr) : MW unit :=
  h ← hdr a; modify (λ w, set_hdrs w (<[a := f h]> (hdrs w))).
Definition cache (a : Z) : MW PCache := w ← get; lift (deref (caches w !! a)).
Definition cache_upd (a : Z) (f : PCache → PCache) : MW unit :=
  c ← cache a; modify (λ w, set_caches w (<[a := f c]> (caches w))).
Definition pcpage (a : Z) : MW SqlPCachePage := w ← get; lift (deref (page_base w a)).

(** A call through [global_config.sql_pcache_methods]. *)
Definition plug {A} (m : MW A) : MW A := w ← get; if registered w then m else fail FUndef.

Definition pcacheSize : Z := sizeof_PCache.

Definition _pcacheSetPageSize (pcache sz : Z) : MW Z :=
  c ← cache pcache;
  lift (assert_ ((cache_nref c =? 0) && (pdirty_head c =? 0)));;
  if sz_page c =? 0 then mret SQL_OK else
  pnew ← plug (xCreate sz sizeof_PgHdr MAX_PAGES_IN_CACHE);
  if pnew =? 0 then mret SQL_ERROR else
  cache_upd pcache (with_plugin pnew sz);;
  mret SQL_OK.

Definition pcacheOpen (sz sze pcache : Z) : MW Z :=
  if pcache =? 0 then fail FUndef else
  modify (λ w, set_caches w (<[pcache := mkPCache 0 0 0 sz sze 0]> (caches w)));;
  _pcacheSetPageSize pcache sz.

(** [memset(a, 0, n)] where [a] is the end of a header. *)
Definition memset0 (a n : Z) : MW unit :=
  if n =? 0 then mret tt else
  w ← get;
  match pages1 w !! a with
  | Some p =>
      if (0 <? n) && (n <=? sizeof_PgHdr1)
      then modify (λ w, set_pages1 w (<[a := clear_prefix n p]> (pages1 w)))
      else fail FUndef
  | None => fail FUndef
  end.

Definition _pcacheFinishConvertInit (p pcache pg : Z) : MW unit :=
  b ← pcpage p;
  let ret := extra b in
  hdr_upd ret (with_ppage p);;
  hdr_upd ret (with_pdata (content b));;
  hdr_upd ret (with_pextra (ret + sizeof_PgHdr));;
  c ← cache pcache;
  memset0 (ret + sizeof_PgHdr) (sz_extra c);;
  hdr_upd ret (with_hcache pcache);;
  hdr_upd ret (with_pgno pg);;
  hdr_upd ret (with_flags PGHDR_CLEAN).

Definition _pcacheFinishConvert (p pcache pg flags : Z) : MW Z :=
  lift (assert_ (negb (p =? 0)));;
  b ← pcpage p;
  let pgd := extra b in
  (if negb (Z.land flags PCACHE_FINISH_CONVERT_NEED_INIT =? 0)
   then _pcacheFinishConvertInit p pcache pg else mret tt);;
  hdr_upd pgd (λ h, with_nref (s32 (nref h + 1)) h);;
  mret pgd.

Definition pcacheGet (pcache pg : Z) : MW Z :=
  c ← cache pcache;
  p ← plug (xGet (plugin c) pg);
  if p =? 0 then mret 0 else
  _pcacheFinishConvert p pcache pg PCACHE_FINISH_CONVERT_DONT_INIT.

Definition pcacheFetch (pcache pg : Z) : MW Z :=
  c ← cache pcache;
  p ← plug (xFetch (plugin c) pg);
  if p =? 0 then mret 0 else
  _pcacheFinishConvert p pcache pg PCACHE_FINISH_CONVERT_NEED_INIT.

Definition pcacheRelease (p : Z) : MW unit :=
  h ← hdr p;
  lift (assert_ (0 <? nref h));;
  hdr_upd p (with_nref (nref h - 1));;
  if nref h - 1 =? 0 then
    lift (assert_ (Z.land (flags h) PGHDR_DIRTY =? 0));;
    plug (xUnpin (ppage h))
  else mret tt.

Definition pcacheMakeDirty (p : Z) : MW unit :=
  h ← hdr p;
  lift (assert_ (0 <? nref h));;
  if negb (Z.land (flags h) PGHDR_DIRTY =? 0) then mret tt else
  let pcache := pcache_of h in
  hdr_upd p (with_flags (Z.lor (flags h) PGHDR_DIRTY));;
  c ← cache pcache;
  (if negb (pdirty_head c =? 0) then hdr_upd (pdirty_head c) (with_dprev p) else mret tt);;
  hdr_upd p (with_dnext (pdirty_head c));;
  hdr_upd p (with_dprev 0);;
  cache_upd pcache (with_dhead p).

Definition pcacheGetDirty (pcache : Z) : MW Z := c ← cache pcache; mret (pdirty_head c).

Definition pcacheMakeClean (p : Z) : MW unit :=
  h ← hdr p;
  if Z.land (flags h) PGHDR_DIRTY =? 0 then mret tt else
  let pcache := pcache_of h in
  (if negb (pdirty_prev h =? 0) then hdr_upd (pdirty_prev h) (with_dnext (pdirty_next h)) else mret tt);;
  h ← hdr p;
  (if negb (pdirty_next h =? 0) then hdr_upd (pdirty_next h) (with_dprev (pdirty_prev h)) else mret tt);;
  h ← hdr p;
  c ← cache pcache;
  (if pdirty_head c =? p then cache_upd pcache (with_dhead (pdirty_next h)) else mret tt);;
  (if pdirty_tail c =? p then cache_upd pcache (with_dtail (pdirty_prev h)) else mret tt);;
  hdr_upd p (with_dprev 0);;
  hdr_upd p (with_dnext 0);;
  hdr_upd p (with_flags (Z.lxor (flags h) PGHDR_DIRTY)).

End pcache.

(** ** pager.c *)

Section pager.
Context {K : Type} `{Posix K} `{SqlPCacheMethods K}.
Abbreviation MW := (M (World K)).
Implicit Types w : World K.

Definition pager_at (a : Z) : MW Pager := w ← get; lift (deref (pagers w !! a)).

(** The byte offset of a page: unsigned arithmetic, then converted to [int]. *)
Definition page_offset (pg : Z) : Z :=
  s32 (u32 (SQL_DATABASE_HEADER_SIZE + u32 (u32 (pg - 1) * SQL_DEFAULT_PAGE_SIZE))).

(** The second component is [*pppager]: [None] when it is not written. *)
Definition pagerOpen (pvfs : Z) (name : option string) (sze flags : Z) : MW (Z * option Z) :=
  match name with
  | None | Some EmptyString => mret (SQL_ERROR, None)
  | Some name =>
      let sz_filename := Z.of_nat (String.length name) in
      v ← lift (vfs_at (K := K) pvfs);
      ptr ← malloc (sizeof_Pager + sz_filename + 1 + sz_file v + pcacheSize);
      if ptr =? 0 then fail FUndef else
      let fdp := ptr + sizeof_Pager + (sz_filename + 1) in
      let pcp := fdp + sz_file v in
      modify (λ w, set_pagers w (<[ptr := mkPager (fill w) (Some name) fdp pcp]> (pagers w)));;
      modify (λ w, set_ufiles w (<[fdp := junk_file w]> (ufiles w)));;
      r ← osOpen pvfs (Some name) fdp flags;
      if r =? SQL_ERROR then mret (SQL_ERROR, None) else
      r ← pcacheOpen SQL_DEFAULT_PAGE_SIZE sze pcp;
      if r =? SQL_ERROR then mret (SQL_ERROR, None) else
      mret (SQL_OK, Some ptr)
  end.

(** The end of [pagerGet]: the page is initialised and read from the file. *)
Definition load_page (pager : Z) (P : Pager) (pg pdb : Z) : MW (Z * Z) :=
  hdr_upd pdb (with_pgno pg);;
  hdr_upd pdb (with_pager pager);;
  hdr_upd pdb (with_flags PGHDR_CLEAN);;
  hdr_upd pdb (with_dnext 0);;
  hdr_upd pdb (with_dprev 0);;
  h ← hdr pdb;
  osRead (pager_fd P) (pdata h) SQL_DEFAULT_PAGE_SIZE (page_offset pg);;
  (* the page is copied to a local buffer and printed *)
  w ← get;
  b ← lift (deref (bufs w !! pdata h));
  if Z.of_nat (length b) <? SQL_DEFAULT_PAGE_SIZE then fail FUndef else
  mret (SQL_ERROR, pdb).

(** The second component is [*pppage]. *)
Definition pagerGet (pager pg : Z) : MW (Z * Z) :=
  P ← pager_at pager;
  pdb ← pcacheGet (pager_pcache P) pg;
  if negb (pdb =? 0) then mret (SQL_OK, pdb) else
  pdb ← pcacheFetch (pager_pcache P) pg;
  if pdb =? 0 then mret (SQL_NOMEM, 0) else
  load_page pager P pg pdb.

Definition pagerUnref (page : Z) : MW Z := pcacheRelease page;; mret SQL_OK.
Definition pagerWrite (page : Z) : MW Z := pcacheMakeDirty page;; mret SQL_OK.

Definition _pagerWritePage (pdirty : Z) : MW unit :=
  h ← hdr pdirty;
  P ← pager_at (pager_of h);
  osWrite (pager_fd P) (pdata h) SQL_DEFAULT_PAGE_SIZE (page_offset (pgno h));;
  mret tt.

Fixpoint commit_loop (fuel : nat) (pdirty : Z) : MW unit :=
  if pdirty =? 0 then mret tt else
  match fuel with
  | O => fail FFuel
  | S fuel =>
      h ← hdr pdirty;
      _pagerWritePage pdirty;;
      pcacheMakeClean pdirty;;
      commit_loop fuel (pdirty_next h)
  end.

Definition pagerCommit (pager : Z) : MW Z :=
  P ← pager_at pager;
  pdirty ← pcacheGetDirty (pager_pcache P);
  w ← get;
  commit_loop (size (hdrs w)) pdirty;;
  mret SQL_OK.

End pager.
End Pager.
