(* ===== verification/PagerFacts.v ===== *)
(** The pager keeps a coherent view of the database pages: invariant and one lemma per
    operation of [pager/pager.c], proved from the laws of the cache and of the kernel. *)

From S2P Require Import Prelude Chains SqlOs SqlOsFacts CacheIface Pager.
From stdpp Require Import options.

Module PagerFacts.
Import SqlOs SqlOsFacts CacheIface Pager.

(** ** The abstract pager *)

(** The bytes of every page, and the pages the client holds with their reference counts and
    whether they are dirty. *)
Record astate := mkA { a_data : gmap Z (list Z); a_held : gmap Z (Z * bool) }.

Definition PSZ : nat := 2048.

(** Page [k] of a file. *)
Definition fpage (d : list Z) (k : Z) : list Z := rd d (Z.to_nat ((k - 1) * 2048)) PSZ.

(** ** Running the accessors *)

Section runs.
Context {K : Type}.
Implicit Types w : World K.

Lemma hdr_run w a h : hdrs w !! a = Some h → hdr a w = Ok (h, w).
Proof. intros Ha. unfold hdr, get, mbind, M_bind, lift, deref. by rewrite Ha. Qed.

Lemma hdr_upd_run w a h f :
  hdrs w !! a = Some h → hdr_upd a f w = Ok (tt, set_hdrs w (<[a := f h]> (hdrs w))).
Proof. intros Ha. unfold hdr_upd. by mstep (hdr_run _ _ _ Ha). Qed.

Lemma hdr_upd_again w a h f m :
  hdr_upd a f (set_hdrs w (<[a := h]> m)) = Ok (tt, set_hdrs w (<[a := f h]> m)).
Proof.
  rewrite (hdr_upd_run _ _ h) by (simpl; by rewrite lookup_insert_eq).
  simpl. by rewrite insert_insert_eq.
Qed.

Lemma cache_run w a c : caches w !! a = Some c → cache a w = Ok (c, w).
Proof. intros Ha. unfold cache, get, mbind, M_bind, lift, deref. by rewrite Ha. Qed.

Lemma cache_upd_run w a c f :
  caches w !! a = Some c → cache_upd a f w = Ok (tt, set_caches w (<[a := f c]> (caches w))).
Proof. intros Ha. unfold cache_upd. by mstep (cache_run _ _ _ Ha). Qed.

Lemma pcpage_run w a b : page_base w a = Some b → pcpage a w = Ok (b, w).
Proof. intros Ha. unfold pcpage, get, mbind, M_bind, lift, deref. by rewrite Ha. Qed.

Lemma pager_run w a P : pagers w !! a = Some P → pager_at a w = Ok (P, w).
Proof. intros Ha. unfold pager_at, get, mbind, M_bind, lift, deref. by rewrite Ha. Qed.

Lemma plug_run {A} w (m : M (World K) A) : registered w = true → plug m w = m w.
Proof. intros Hr. unfold plug, get, mbind, M_bind. by rewrite Hr. Qed.
End runs.

Lemma page_offset_small k : 1 ≤ k ≤ 2 ^ 20 → page_offset k = (k - 1) * 2048.
Proof.
  intros Hk. unfold page_offset, SQL_DATABASE_HEADER_SIZE, SQL_DEFAULT_PAGE_SIZE.
  rewrite !(wrapu_small 32 (k - 1)) by lia. rewrite Z.add_0_l.
  rewrite (wrapu_small 32 ((k - 1) * 2048)) by lia. rewrite wrapu_small by lia. apply wraps_small; lia.
Qed.

(** ** The dirty list *)

Fixpoint dll (hs : gmap Z PgHdr) (prev p : Z) (l : list Z) : Prop :=
  match l with
  | [] => p = 0
  | a :: l => p = a ∧ a ≠ 0 ∧ ∃ h, hs !! a = Some h ∧ pdirty_prev h = prev ∧ dll hs a (pdirty_next h) l
  end.

Lemma dll_frame hs hs' prev p l :
  dll hs prev p l →
  (∀ a h, a ∈ l → hs !! a = Some h → ∃ h', hs' !! a = Some h' ∧
    pdirty_prev h' = pdirty_prev h ∧ pdirty_next h' = pdirty_next h) →
  dll hs' prev p l.
Proof.
  revert prev p. induction l as [|a l IH]; intros prev p; simpl; [done|].
  intros (-> & H0 & h & Hh & Hp & Hl) Hf. split_and!; [done|done|].
  destruct (Hf a h) as (h' & Hh' & Hp' & Hn'); [set_solver|done|].
  exists h'. split_and!; [done|congruence|]. rewrite Hn'. apply IH; [done|]. intros. apply Hf; [set_solver|done].
Qed.

Lemma dll_same hs hs' prev p l :
  dll hs prev p l → (∀ a, a ∈ l → hs' !! a = hs !! a) → dll hs' prev p l.
Proof. intros Hl Hf. eapply dll_frame; [exact Hl|]. intros a h Ha Hh. exists h. by rewrite Hf. Qed.

Lemma dll_chain hs prev p l :
  dll hs prev p l → chain (λ a, pdirty_next <$> hs !! a) p l.
Proof.
  revert prev p. induction l as [|a l IH]; intros prev p; simpl; [done|].
  intros (-> & H0 & h & Hh & Hp & Hl). split_and!; [done|done|]. exists (pdirty_next h).
  rewrite Hh. split; [done|]. by eapply IH.
Qed.

Lemma dll_NoDup hs prev p l : dll hs prev p l → NoDup l.
Proof. intros ?%dll_chain. by eapply chain_NoDup. Qed.

Lemma dll_length hs prev p l : dll hs prev p l → (length l ≤ size hs)%nat.
Proof.
  intros Hl%dll_chain. eapply chain_le_size; [exact Hl|]. simpl. intros a Ha.
  by destruct (hs !! a) as [h|]; [|destruct Ha].
Qed.

Section facts.
Context {K : Type} `{PosixLaws K} `{PCacheLaws K}.
Implicit Types (w : World K) (S : astate) (s : cspec).

(** The pager [P] with its file struct [F] on descriptor [dsc], its [PCache] at [C], the
    plug-in cache at [c] of at most [mx] pages, and a database of [N] pages. *)
Context (P F C c dsc N mx : Z).

(** The pages the cache may still allocate fit in the heap. *)
Definition heap_room w s : Prop :=
  brk w + (cs_max s - Z.of_nat (size (cs_pages s)) - Z.of_nat (length (cs_lru s))) * blk s ≤ lim w.

Record pstatic w (d : list Z) (PC : PCache) : Prop := {
  ps_reg : registered w = true;
  ps_wf : heap_wf w;
  ps_N : 0 ≤ N ≤ 2 ^ 20;
  ps_pager : ∃ v nm, pagers w !! P = Some (mkPager v nm F C);
  ps_F : F ≠ 0;
  ps_file : ∃ f, ufiles w !! F = Some f ∧ p_methods f = UNIX_METHODS_ADDR ∧ fd f = dsc;
  ps_data : data_of (kern w) dsc = Some d;
  ps_room : room (kern w) dsc (N * 2048);
  ps_len : N * 2048 ≤ Z.of_nat (length d);
  ps_cache : caches w !! C = Some PC;
  ps_extra : sz_extra PC = 0;
  ps_plugin : plugin PC = c;
  ps_tail : pdirty_tail PC = 0;
}.

(** Page [k], held [n] times, with its header in place. *)
Record held_ok w s (D : list Z) (bytes : option (list Z)) (x k n : Z) (b : bool) : Prop := {
  h_k : 1 ≤ k ≤ N;
  h_n : 0 < n < 2 ^ 31;
  h_page : ∃ p pg h, cs_pages s !! k = Some p ∧ page_base w p = Some pg ∧ extra pg = x ∧
    hdrs w !! x = Some h ∧ ppage h = p ∧ pdata h = content pg ∧ pager_of h = P ∧ pgno h = k ∧
    flags h = (if b then 3 else 1) ∧ nref h = n ∧ pcache_of h = C ∧ bufs w !! content pg = bytes;
  h_dirty : x ∈ D ↔ b = true;
}.

(** A released page waits with a reference count of zero. *)
Definition free_ok w (p : Z) : Prop :=
  ∃ pg h, page_base w p = Some pg ∧ hdrs w !! extra pg = Some h ∧ nref h = 0.

Record pinv w S (E : gmap Z Z) s (D d : list Z) (PC : PCache) : Prop := {
  i_static : pstatic w d PC;
  i_at : cache_at w c s;
  i_size : cs_size s = 2048;
  i_dom k : is_Some (cs_pages s !! k) ↔ is_Some (a_held S !! k);
  i_data k : is_Some (a_data S !! k) ↔ 1 ≤ k ≤ N;
  i_len k b : a_data S !! k = Some b → length b = PSZ;
  i_held k n b : a_held S !! k = Some (n, b) →
    ∃ x, E !! k = Some x ∧ held_ok w s D (a_data S !! k) x k n b;
  i_free p : p ∈ cs_lru s → free_ok w p;
  i_clean k b : a_data S !! k = Some b → (∀ n, a_held S !! k ≠ Some (n, true)) → fpage d k = b;
  i_list : dll (hdrs w) 0 (pdirty_head PC) D;
  i_D x : x ∈ D → ∃ k n, a_held S !! k = Some (n, true) ∧ E !! k = Some x;
  i_max : cs_max s = mx;
  i_room : heap_room w s;
}.

(** Headers of different pages are different. *)
Lemma held_sep w s D k k' x x' n n' b b' bs bs' :
  cache_at w c s → held_ok w s D bs x k n b → held_ok w s D bs' x' k' n' b' → k ≠ k' → x ≠ x'.
Proof.
  intros Hat [_ _ (p & pg & h & Hp & Hpg & <- & _) _] [_ _ (p' & pg' & h' & Hp' & Hpg' & <- & _) _] Hne.
  assert (p ≠ p') as Hpp by (intros ->; apply Hne; by eapply cache_keys).
  exact (proj1 (cache_sep w c s p p' pg pg' Hat (or_intror (ex_intro _ k Hp))
    (or_intror (ex_intro _ k' Hp')) Hpp Hpg Hpg')).
Qed.

Lemma free_sep w s D k x n b bs p pg :
  cache_at w c s → held_ok w s D bs x k n b → p ∈ cs_lru s → page_base w p = Some pg → x ≠ extra pg.
Proof.
  intros Hat [_ _ (q & qg & h & Hq & Hqg & <- & _) _] Hp Hpg.
  assert (q ≠ p) as Hqp by (intros ->; by eapply cache_disj).
  exact (proj1 (cache_sep w c s q p qg pg Hat (or_intror (ex_intro _ k Hq)) (or_introl Hp) Hqp Hqg Hpg)).
Qed.

Lemma heap_wf_hdrs w hs :
  heap_wf w → (∀ a, is_Some (hs !! a) → is_Some (hdrs w !! a)) → heap_wf (set_hdrs w hs).
Proof.
  intros [Hb Hwf] Hd. split; [done|]. intros a Ha. simpl in *.
  destruct (Hwf a Ha) as (? & Hh & ? & ? & ? & ?). split_and!; try done.
  destruct (hs !! a) eqn:E; [|done]. destruct (Hd a); [by rewrite E|congruence].
Qed.

Lemma pstatic_hdrs w d PC hs :
  pstatic w d PC → (∀ a, is_Some (hs !! a) → is_Some (hdrs w !! a)) → pstatic (set_hdrs w hs) d PC.
Proof. intros [] Hd. split; try done. by apply heap_wf_hdrs. Qed.

Lemma pstatic_inner w w' d PC :
  pstatic w d PC → inner w w' → heap_wf w' → pstatic w' d PC.
Proof.
  intros [] [Hk _ Hreg Huf Hca Hpa _ _] Hwf. by split; rewrite ?Hk, ?Hreg, ?Huf, ?Hca, ?Hpa.
Qed.

Lemma insert_dom (hs : gmap Z PgHdr) x h h0 a :
  hs !! x = Some h0 → is_Some (<[x := h]> hs !! a) → is_Some (hs !! a).
Proof.
  intros Hx. destruct (decide (a = x)) as [->|]; [by rewrite Hx|by rewrite lookup_insert_ne].
Qed.

Lemma grows_hdrs w hs :
  (∀ a, is_Some (hdrs w !! a) → is_Some (hs !! a)) → grows w (set_hdrs w hs).
Proof. intros Hd. split; simpl; [done|eauto|lia]. Qed.

Lemma insert_some (hs : gmap Z PgHdr) x h a : is_Some (hs !! a) → is_Some (<[x := h]> hs !! a).
Proof.
  destruct (decide (a = x)) as [->|]; [by rewrite lookup_insert_eq|by rewrite lookup_insert_ne].
Qed.

(** The fields of a header other than its links in the dirty list. *)
Definition same_hdr (h h' : PgHdr) : Prop :=
  ppage h' = ppage h ∧ pdata h' = pdata h ∧ pager_of h' = pager_of h ∧ pgno h' = pgno h ∧
  flags h' = flags h ∧ nref h' = nref h ∧ pcache_of h' = pcache_of h.

Lemma held_frame w w' s s' D D' bs x k n b :
  held_ok w s D bs x k n b → cs_pages s' !! k = cs_pages s !! k →
  (∀ p pg, cs_pages s !! k = Some p → page_base w p = Some pg →
    page_base w' p = Some pg ∧ bufs w' !! content pg = bufs w !! content pg) →
  (∀ h, hdrs w !! x = Some h → ∃ h', hdrs w' !! x = Some h' ∧ same_hdr h h') →
  (x ∈ D' ↔ x ∈ D) → held_ok w' s' D' bs x k n b.
Proof.
  intros [? ? (p & pg & h & Hp & Hpg & Hx & Hh & H4 & H5 & H6 & H7 & H8 & H9 & H10 & H11) Hd] Hs Hpage Hhdr HD.
  destruct (Hpage p pg Hp Hpg) as [Hpg' Hb]. destruct (Hhdr _ Hh) as (h' & Hh' & E1 & E2 & E3 & E4 & E5 & E6 & E7).
  split; [done|done| |by rewrite HD].
  exists p, pg, h'. split_and!; congruence.
Qed.

(** Changing the reference count of a held page. *)
Lemma set_nref w S E s D d PC k x n b n' h :
  pinv w S E s D d PC → a_held S !! k = Some (n, b) → E !! k = Some x → hdrs w !! x = Some h →
  0 < n' < 2 ^ 31 →
  pinv (set_hdrs w (<[x := with_nref n' h]> (hdrs w)))
    (mkA (a_data S) (<[k := (n', b)]> (a_held S))) E s D d PC.
Proof.
  intros Hi Hk Hx Hh Hn'. destruct (i_held _ _ _ _ _ _ _ Hi k n b Hk) as (x' & Hx' & Hok).
  simplify_eq. pose proof (i_at _ _ _ _ _ _ _ Hi) as Hat. split; simpl.
  - apply pstatic_hdrs; [apply Hi|]. intros a. by eapply insert_dom.
  - eapply cache_frame; [exact Hat|done|done|]. apply grows_hdrs. intros a. apply insert_some.
  - apply Hi.
  - intros k'. rewrite (i_dom _ _ _ _ _ _ _ Hi k'). destruct (decide (k' = k)) as [->|].
    + rewrite lookup_insert_eq, Hk. split; eauto.
    + by rewrite lookup_insert_ne.
  - apply Hi.
  - apply Hi.
  - intros k' m b' Hk'. destruct (decide (k' = k)) as [->|Hkk].
    + rewrite lookup_insert_eq in Hk'. simplify_eq. exists x. split; [done|]. destruct Hok as [? ? Hpg ?].
      split; [done|done| |done]. destruct Hpg as (p & pg & h1 & Hpg). assert (h1 = h) as -> by naive_solver.
      exists p, pg, (with_nref m h). simpl. rewrite lookup_insert_eq. destruct_and? Hpg. by split_and!.
    + rewrite lookup_insert_ne in Hk' by done. destruct (i_held _ _ _ _ _ _ _ Hi _ _ _ Hk') as (y & Hy & Hoky).
      exists y. split; [done|]. eapply held_frame; [exact Hoky|done|done| |done].
      intros h1 Hh1. exists h1. simpl. rewrite lookup_insert_ne; [done|].
      eapply held_sep; [exact Hat|exact Hok|exact Hoky|done].
  - intros p Hp. destruct (i_free _ _ _ _ _ _ _ Hi p Hp) as (pg & h1 & Hpg & Hh1 & Hn1).
    exists pg, h1. split_and!; [done| |done]. simpl. rewrite lookup_insert_ne; [done|].
    by eapply free_sep.
  - intros k' bs Hbs Hnd. apply (i_clean _ _ _ _ _ _ _ Hi k'); [done|]. intros m Hm.
    destruct (decide (k' = k)) as [->|]; [|apply (Hnd m); by rewrite lookup_insert_ne].
    apply (Hnd n'). rewrite lookup_insert_eq. congruence.
  - eapply dll_frame; [apply Hi|]. intros a h1 Ha Hh1. destruct (decide (a = x)) as [->|].
    + rewrite lookup_insert_eq. exists (with_nref n' h). simplify_eq. done.
    + rewrite lookup_insert_ne by done. eauto.
  - intros y Hy. destruct (i_D _ _ _ _ _ _ _ Hi y Hy) as (k' & m & Hk' & Hy').
    destruct (decide (k' = k)) as [->|].
    + exists k, n'. rewrite lookup_insert_eq. split; [congruence|done].
    + exists k', m. by rewrite lookup_insert_ne.
  - apply Hi.
  - apply (i_room _ _ _ _ _ _ _ Hi).
Qed.

(** ** pagerGet *)

Lemma osRead_run w F' buf sz off : 
  (∃ f, ufiles w !! F' = Some f ∧ p_methods f = UNIX_METHODS_ADDR) →
  osRead F' buf sz off w = unixRead F' buf sz off w.
Proof using H.
  intros (f & Hf & Hm). unfold osRead. mstep (ufile_run _ _ _ Hf). by rewrite Hm.
Qed.

Lemma osWrite_run w F' buf sz off : 
  (∃ f, ufiles w !! F' = Some f ∧ p_methods f = UNIX_METHODS_ADDR) →
  osWrite F' buf sz off w = unixWrite F' buf sz off w.
Proof using H.
  intros (f & Hf & Hm). unfold osWrite. mstep (ufile_run _ _ _ Hf). by rewrite Hm.
Qed.

Lemma finish_convert_run w p pg k PC h0 :
  p ≠ 0 → page_base w p = Some pg → hdrs w !! extra pg = Some h0 → caches w !! C = Some PC →
  sz_extra PC = 0 → nref h0 = 0 →
  _pcacheFinishConvert p C k PCACHE_FINISH_CONVERT_NEED_INIT w =
    Ok (extra pg, set_hdrs w (<[extra pg := mkPgHdr p (content pg) (extra pg + sizeof_PgHdr) (pager_of h0) k 1
      (pdirty_next h0) (pdirty_prev h0) 1 C]> (hdrs w))).
Proof.
  intros Hp Hpg Hh HC Hze Hn. unfold _pcacheFinishConvert. zneq p 0. rewrite (bind_lift _ _ w tt eq_refl).
  mstep (pcpage_run _ _ _ Hpg).
  change (Z.land PCACHE_FINISH_CONVERT_NEED_INIT PCACHE_FINISH_CONVERT_NEED_INIT =? 0) with false. cbn [negb].
  set (h1 := mkPgHdr p (content pg) (extra pg + sizeof_PgHdr) (pager_of h0) k 1 (pdirty_next h0) (pdirty_prev h0) 0 C).
  rewrite (bind_ok _ _ w tt (set_hdrs w (<[extra pg := h1]> (hdrs w)))).
  - rewrite (bind_ok _ _ _ _ _ (hdr_upd_again _ _ _ _ _)). done.
  - unfold _pcacheFinishConvertInit. mstep (pcpage_run _ _ _ Hpg). cbv zeta.
    mstep (hdr_upd_run w (extra pg) h0 (with_ppage p) Hh).
    do 2 (rewrite (bind_ok _ _ _ _ _ (hdr_upd_again _ _ _ _ _))).
    rewrite (bind_ok _ _ _ PC _ (cache_run (set_hdrs w _) C PC HC)). rewrite Hze.
    unfold memset0. rewrite Z.eqb_refl. rewrite (bind_ok _ _ _ tt _ eq_refl).
    do 2 (rewrite (bind_ok _ _ _ _ _ (hdr_upd_again _ _ _ _ _))). rewrite hdr_upd_again.
    unfold h1. rewrite <-Hn. by destruct h0.
Qed.

(** The header of a page just read. *)
Definition fresh_hdr p (pg : SqlPCachePage) k : PgHdr :=
  mkPgHdr p (content pg) (extra pg + sizeof_PgHdr) P k 1 0 0 1 C.

Lemma fpage_length d k : 1 ≤ k ≤ N → N * 2048 ≤ Z.of_nat (length d) → length (fpage d k) = PSZ.
Proof. intros Hk Hd. unfold fpage. apply length_rd. unfold PSZ. lia. Qed.

Lemma load_page_run w d PC h1 x p pg k nx pv v nm b0 :
  pstatic w d PC → x = extra pg → content pg ≠ 0 → 1 ≤ k ≤ N →
  hdrs w !! x = Some (mkPgHdr p (content pg) (x + sizeof_PgHdr) h1 k 1 nx pv 1 C) →
  bufs w !! content pg = Some b0 → length b0 = PSZ →
  ∃ k', load_page P (mkPager v nm F C) k x w =
    Ok ((SQL_ERROR, x), set_bufs (set_kern (set_hdrs w (<[x := fresh_hdr p pg k]> (hdrs w))) k')
      (<[content pg := fpage d k]> (bufs w))) ∧ kept (kern w) k'.
Proof.
  intros Hst Hx Hc Hk Hh Hb Hl. destruct Hst. destruct ps_file0 as (f & Hf & Hm & Hfd).
  set (w1 := set_hdrs w (<[x := fresh_hdr p pg k]> (hdrs w))).
  pose proof (fpage_length d k Hk ps_len0) as Hfl.
  destruct (unixRead_run w1 F (content pg) 2048 ((k - 1) * 2048) f d b0) as (k' & Hread & Hkept);
    [done|done|done|by rewrite Hfd|lia|lia|done|..].
  { change (Z.to_nat 2048) with PSZ. fold (fpage d k). lia. }
  change (Z.to_nat 2048) with PSZ in Hread. fold (fpage d k) in Hread.
  exists k'. split; [|done]. unfold load_page. mstep (hdr_upd_run _ _ _ (with_pgno k) Hh).
  do 4 (rewrite (bind_ok _ _ _ _ _ (hdr_upd_again _ _ _ _ _))).
  assert (with_dprev 0 (with_dnext 0 (with_flags PGHDR_CLEAN (with_pager P (with_pgno k
    (mkPgHdr p (content pg) (x + sizeof_PgHdr) h1 k 1 nx pv 1 C))))) = fresh_hdr p pg k) as -> by (by subst x).
  fold w1. rewrite (bind_ok _ _ _ _ _ (hdr_run w1 x (fresh_hdr p pg k) ltac:(simpl; by rewrite lookup_insert_eq))).
  cbn [fresh_hdr pdata pager_fd]. rewrite (page_offset_small k) by lia.
  rewrite (bind_ok _ _ _ _ _ (eq_trans (osRead_run w1 F _ _ _ (ex_intro _ f (conj Hf Hm))) Hread)).
  unfold get at 1. unfold mbind at 1, M_bind at 1. cbn beta iota.
  assert (wr b0 0 (fpage d k) = fpage d k) as ->.
  { unfold wr. rewrite take_0, Hfl. simpl. rewrite drop_ge by lia. apply app_nil_r. }
  rewrite (bind_lift _ _ _ (fpage d k)) by (cbn; by rewrite lookup_insert_eq).
  rewrite Hfl. done.
Qed.

(** The invariant after page [k] was taken from the cache as page [p], whose header and buffer
    hold anything, and read from the file. *)
Lemma loaded_inv w S E s s1 D d PC k p pg h0 b0 w1 k' :
  pstatic w1 d PC → cache_at w1 c s1 → cs_size s1 = 2048 →
  cs_pages s1 = <[k := p]> (cs_pages s) → (∀ q, q ∈ cs_lru s1 → q ∈ cs_lru s) → 1 ≤ k ≤ N →
  pinv w S E s D d PC → a_held S !! k = None →
  (∀ k' n b x, a_held S !! k' = Some (n, b) → E !! k' = Some x →
    held_ok w1 s1 D (a_data S !! k') x k' n b) →
  (∀ q, q ∈ cs_lru s1 → free_ok w1 q) → dll (hdrs w1) 0 (pdirty_head PC) D →
  page_base w1 p = Some pg → hdrs w1 !! extra pg = Some h0 →
  bufs w1 !! content pg = Some b0 → length b0 = PSZ → kept (kern w1) k' →
  cs_max s1 = mx → heap_room w1 s1 →
  pinv (set_bufs (set_kern (set_hdrs w1 (<[extra pg := fresh_hdr p pg k]> (hdrs w1))) k')
      (<[content pg := fpage d k]> (bufs w1)))
    (mkA (a_data S) (<[k := (1, false)]> (a_held S))) (<[k := extra pg]> E) s1 D d PC.
Proof.
  intros Hst Hat Hsz Hpg1 Hlru Hk Hi Hnk Hheld Hfree Hdll Hpg Hh Hb Hbl Hkept Hmx1 Hroom1.
  assert (cs_pages s1 !! k = Some p) as Hpk by (by rewrite Hpg1, lookup_insert_eq).
  assert (∀ k' q qg, cs_pages s1 !! k' = Some q → k' ≠ k → page_base w1 q = Some qg →
    extra pg ≠ extra qg ∧ content pg ≠ content qg) as Hsep.
  { intros k1 q qg Hq Hne Hqg. assert (p ≠ q) as Hpq by (intros ->; apply Hne; by eapply cache_keys).
    exact (cache_sep w1 c s1 p q pg qg Hat (or_intror (ex_intro _ k Hpk)) (or_intror (ex_intro _ k1 Hq)) Hpq Hpg Hqg). }
  assert (∀ q qg, q ∈ cs_lru s1 → page_base w1 q = Some qg → extra pg ≠ extra qg) as Hsepf.
  { intros q qg Hq Hqg. assert (p ≠ q) as Hpq by (intros ->; by eapply cache_disj).
    exact (proj1 (cache_sep w1 c s1 p q pg qg Hat (or_intror (ex_intro _ k Hpk)) (or_introl Hq) Hpq Hpg Hqg)). }
  assert (∀ k' n b x, a_held S !! k' = Some (n, b) → E !! k' = Some x → extra pg ≠ x) as Hsepx.
  { intros k1 n b x Hk1 Hx. destruct (Hheld _ _ _ _ Hk1 Hx) as [_ _ (q & qg & h1 & Hq & Hqg & <- & _) _].
    eapply (Hsep k1); [done| |done]. intros ->. congruence. }
  assert (extra pg ∉ D) as HxD.
  { intros Hin. destruct (i_D _ _ _ _ _ _ _ Hi _ Hin) as (k1 & n & Hk1 & Hx). by eapply Hsepx. }
  split; simpl.
  - destruct Hst. destruct (Hkept dsc) as [Hd Hroom]. split; simpl; try done.
    + destruct ps_wf0 as [H1' Hwf]. split; [done|]. intros a Ha. simpl in *.
      destruct (Hwf a Ha) as (? & Hha & Hba & ? & ? & ?). split_and!; try done.
      * rewrite lookup_insert_ne; [done|]. congruence.
      * rewrite lookup_insert_ne; [done|]. congruence.
    + congruence.
    + by apply Hroom.
  - eapply cache_frame; [exact Hat|done|done|]. split; simpl; [|..|lia].
    + intros a. apply insert_some.
    + intros a b Ha. destruct (decide (a = content pg)) as [->|].
      * rewrite lookup_insert_eq. eexists. split; [done|]. simplify_eq.
        rewrite (fpage_length d k Hk (ps_len _ _ _ Hst)). done.
      * rewrite lookup_insert_ne by done. eauto.
  - done.
  - intros k1. rewrite Hpg1. destruct (decide (k1 = k)) as [->|].
    + rewrite !lookup_insert_eq. split; eauto.
    + rewrite !lookup_insert_ne by done. apply Hi.
  - apply Hi.
  - apply Hi.
  - intros k1 n b Hk1. destruct (decide (k1 = k)) as [->|Hne].
    + rewrite lookup_insert_eq in Hk1. simplify_eq. exists (extra pg). rewrite lookup_insert_eq.
      split; [done|]. split; [done|done| |split; [done|discriminate]].
      exists p, pg, (fresh_hdr p pg k). simpl. rewrite !lookup_insert_eq.
      split_and!; try done.
      destruct (proj2 (i_data _ _ _ _ _ _ _ Hi k) Hk) as [bs Hbs]. rewrite Hbs. f_equal.
      eapply (i_clean _ _ _ _ _ _ _ Hi); [done|]. intros m. congruence.
    + rewrite lookup_insert_ne in Hk1 by done. destruct (i_held _ _ _ _ _ _ _ Hi _ _ _ Hk1) as (y & Hy & _).
      exists y. rewrite lookup_insert_ne by done. split; [done|].
      eapply held_frame; [by eapply Hheld|done| | |done].
      * intros q qg Hq Hqg. split; [done|]. simpl. rewrite lookup_insert_ne; [done|].
        by eapply (Hsep k1).
      * intros h1 Hh1. exists h1. simpl. rewrite lookup_insert_ne; [done|]. by eapply Hsepx.
  - intros q Hq. destruct (Hfree q Hq) as (qg & h1 & Hqg & Hh1 & Hn1). exists qg, h1.
    split_and!; [done| |done]. simpl. rewrite lookup_insert_ne; [done|]. by eapply Hsepf.
  - intros k1 bs Hbs Hnd. apply (i_clean _ _ _ _ _ _ _ Hi k1); [done|]. intros m Hm.
    destruct (decide (k1 = k)) as [->|]; [congruence|]. apply (Hnd m). by rewrite lookup_insert_ne.
  - eapply dll_same; [exact Hdll|]. intros a Ha. rewrite lookup_insert_ne; [done|]. by intros <-.
  - intros y Hy. destruct (i_D _ _ _ _ _ _ _ Hi y Hy) as (k1 & m & Hk1 & Hy').
    exists k1, m. rewrite !lookup_insert_ne by (intros <-; congruence). done.
  - done.
  - done.
Qed.

Lemma pagerGet_hit w S E s D d PC k n b :
  pinv w S E s D d PC → a_held S !! k = Some (n, b) → n + 1 < 2 ^ 31 →
  ∃ x w', E !! k = Some x ∧ pagerGet P k w = Ok ((SQL_OK, x), w') ∧
    pinv w' (mkA (a_data S) (<[k := (n + 1, b)]> (a_held S))) E s D d PC.
Proof.
  intros Hi Hk Hn. destruct (i_held _ _ _ _ _ _ _ Hi k n b Hk) as (x & Hx & Hok).
  pose proof Hok as [Hkr Hnr (p & pg & h & Hp & Hpg & Hxe & Hh & _ & _ & _ & _ & _ & Hnref & _) _].
  destruct (i_static _ _ _ _ _ _ _ Hi). destruct ps_pager0 as (v & nm & HP).
  destruct (cache_page w c s p (i_at _ _ _ _ _ _ _ Hi)) as (Hp0 & pg' & Hpg' & _ & _ & Hx0 & _); [right; eauto|].
  assert (pg' = pg) as -> by congruence.
  exists x. eexists. split; [done|]. split.
  - unfold pagerGet. mstep (pager_run _ _ _ HP). unfold pcacheGet. cbn [pager_pcache].
    erewrite bind_ok; cycle 1.
    { mstep (cache_run _ _ _ ps_cache0). rewrite ps_plugin0.
      rewrite (bind_ok _ _ _ p w); cycle 1.
      { rewrite plug_run by done. rewrite (get_law w c s k (i_at _ _ _ _ _ _ _ Hi)) by lia. by rewrite Hp. }
      zneq p 0. unfold _pcacheFinishConvert. zneq p 0. rewrite (bind_lift _ _ w tt eq_refl).
      mstep (pcpage_run _ _ _ Hpg). cbv zeta.
      change (Z.land PCACHE_FINISH_CONVERT_DONT_INIT PCACHE_FINISH_CONVERT_NEED_INIT =? 0) with true. cbn [negb].
      rewrite (bind_ok _ _ w tt w eq_refl). rewrite Hxe.
      mstep (hdr_upd_run _ _ _ (λ h, with_nref (s32 (nref h + 1)) h) Hh). done. }
    zneq x 0. done.
  - rewrite Hnref, wraps_small by lia. eapply set_nref; [exact Hi|done|done|done|lia].
Qed.

Lemma get_miss_run w S E s D d PC k p w1 :
  pinv w S E s D d PC → a_held S !! k = None → 0 ≤ k → xFetch c k w = Ok (p, w1) →
  ∃ v nm, pagerGet P k w =
    (pdb ← (if p =? 0 then mret 0 else _pcacheFinishConvert p C k PCACHE_FINISH_CONVERT_NEED_INIT);
     if pdb =? 0 then mret (SQL_NOMEM, 0) else load_page P (mkPager v nm F C) k pdb) w1.
Proof.
  intros Hi Hnk Hk Hf. destruct (i_static _ _ _ _ _ _ _ Hi). destruct ps_pager0 as (v & nm & HP).
  exists v, nm. unfold pagerGet. mstep (pager_run _ _ _ HP). cbn [pager_pcache].
  assert (cs_pages s !! k = None) as Hpk.
  { destruct (cs_pages s !! k) eqn:Ek; [|done]. destruct (proj1 (i_dom _ _ _ _ _ _ _ Hi k)); [by rewrite Ek|congruence]. }
  rewrite (bind_ok _ _ _ 0 w); cycle 1.
  { unfold pcacheGet. mstep (cache_run _ _ _ ps_cache0). rewrite ps_plugin0.
    rewrite (bind_ok _ _ _ 0 w); [done|].
    rewrite plug_run by done. rewrite (get_law w c s k (i_at _ _ _ _ _ _ _ Hi)) by lia. by rewrite Hpk. }
  rewrite Z.eqb_refl. cbn [negb]. unfold pcacheFetch.
  unfold mbind, M_bind. rewrite (cache_run _ _ _ ps_cache0), ps_plugin0, plug_run, Hf by done. by destruct (p =? 0).
Qed.

Lemma get_load w S E s s1 D d PC k p pg h0 b0 w1 :
  pinv w S E s D d PC → a_held S !! k = None → 1 ≤ k ≤ N → xFetch c k w = Ok (p, w1) →
  inner w w1 → heap_wf w1 → cache_at w1 c s1 → cs_size s1 = 2048 →
  cs_pages s1 = <[k := p]> (cs_pages s) → (∀ q, q ∈ cs_lru s1 → q ∈ cs_lru s) →
  (∀ k' n b x, a_held S !! k' = Some (n, b) → E !! k' = Some x →
    held_ok w1 s1 D (a_data S !! k') x k' n b) →
  (∀ q, q ∈ cs_lru s1 → free_ok w1 q) → dll (hdrs w1) 0 (pdirty_head PC) D →
  page_base w1 p = Some pg → hdrs w1 !! extra pg = Some h0 → nref h0 = 0 →
  bufs w1 !! content pg = Some b0 → length b0 = PSZ → cs_max s1 = mx → heap_room w1 s1 →
  ∃ w', pagerGet P k w = Ok ((SQL_ERROR, extra pg), w') ∧
    pinv w' (mkA (a_data S) (<[k := (1, false)]> (a_held S))) (<[k := extra pg]> E) s1 D d PC.
Proof.
  intros Hi Hnk Hk Hf Hin Hwf1 Hat Hsz Hps Hlru Hheld Hfree Hdll Hpg Hh Hn Hb Hbl Hmx1 Hroom1.
  destruct (get_miss_run _ _ _ _ _ _ _ _ _ _ Hi Hnk ltac:(lia) Hf) as (v & nm & ->).
  pose proof (pstatic_inner _ _ _ _ (i_static _ _ _ _ _ _ _ Hi) Hin Hwf1) as Hst.
  destruct (cache_page w1 c s1 p Hat) as (Hp0 & pg' & Hpg' & _ & Hc0 & Hx0 & _).
  { right. exists k. by rewrite Hps, lookup_insert_eq. }
  assert (pg' = pg) as -> by congruence. zneq p 0.
  rewrite (bind_ok _ _ _ _ _ (finish_convert_run w1 p pg k PC h0 Hp0 Hpg Hh (ps_cache _ _ _ Hst) (ps_extra _ _ _ Hst) Hn)).
  zneq (extra pg) 0. set (w2 := set_hdrs w1 _).
  assert (pstatic w2 d PC) as Hst2.
  { apply pstatic_hdrs; [exact Hst|]. intros a. by eapply insert_dom. }
  destruct (load_page_run w2 d PC (pager_of h0) (extra pg) p pg k (pdirty_next h0) (pdirty_prev h0) v nm b0)
    as (k' & Hrun & Hkept); [done|done|lia|lia|simpl; by rewrite lookup_insert_eq|done|done|].
  eexists. split; [exact Hrun|]. simpl. rewrite insert_insert_eq.
  exact (loaded_inv w S E s s1 D d PC k p pg h0 b0 w1 k' Hst Hat Hsz Hps Hlru Hk Hi Hnk Hheld Hfree Hdll Hpg Hh Hb Hbl Hkept Hmx1 Hroom1).
Qed.

Lemma not_held_not_cached w S E s D d PC k :
  pinv w S E s D d PC → a_held S !! k = None → cs_pages s !! k = None.
Proof.
  intros Hi Hnk. destruct (cs_pages s !! k) eqn:Ek; [|done].
  destruct (proj1 (i_dom _ _ _ _ _ _ _ Hi k)); [by rewrite Ek|congruence].
Qed.

Lemma pagerGet_reuse w S E s D d PC k p l :
  pinv w S E s D d PC → a_held S !! k = None → 1 ≤ k ≤ N → cs_lru s = p :: l →
  ∃ x s' w', pagerGet P k w = Ok ((SQL_ERROR, x), w') ∧
    pinv w' (mkA (a_data S) (<[k := (1, false)]> (a_held S))) (<[k := x]> E) s' D d PC.
Proof.
  intros Hi Hnk Hk Hl. pose proof (i_at _ _ _ _ _ _ _ Hi) as Hat.
  pose proof (not_held_not_cached _ _ _ _ _ _ _ _ Hi Hnk) as Hpk.
  destruct (fetch_reuse w c s k p l Hat ltac:(lia) Hpk Hl) as (w1 & Hf & Hq & Hat1).
  destruct (i_free _ _ _ _ _ _ _ Hi p) as (pg & h0 & Hpg & Hh0 & Hn0); [rewrite Hl; set_solver|].
  destruct (cache_page w c s p Hat) as (Hp0 & pg' & Hpg' & _ & _ & _ & b0 & Hb0 & Hbl); [left; rewrite Hl; set_solver|].
  assert (pg' = pg) as -> by congruence. pose proof Hq as [Hin Hqh Hqb Hqbrk Hqbase].
  destruct (get_load w S E s (with_pages (<[k := p]> (cs_pages s)) (with_lru l s)) D d PC k p pg h0 b0 w1)
    as (w' & Hrun & Hi'); try done.
  - eapply quiet_wf; [exact Hq|]. apply (ps_wf _ _ _ (i_static _ _ _ _ _ _ _ Hi)).
  - apply Hi.
  - simpl. intros q Hqq. rewrite Hl. set_solver.
  - intros k1 n b x Hk1 Hx. destruct (i_held _ _ _ _ _ _ _ Hi _ _ _ Hk1) as (y & Hy & Hok).
    assert (y = x) as -> by congruence. eapply held_frame; [exact Hok| | | |done].
    + simpl. rewrite lookup_insert_ne by (intros <-; congruence). done.
    + intros q qg _ Hqg. unfold page_base. rewrite Hqbase, Hqb. done.
    + intros h Hh. exists h. by rewrite Hqh.
  - simpl. intros q Hqq. destruct (i_free _ _ _ _ _ _ _ Hi q) as (qg & h & Hqg & Hh & Hn); [rewrite Hl; set_solver|].
    exists qg, h. unfold page_base. by rewrite Hqbase, Hqh.
  - rewrite Hqh. apply Hi.
  - unfold page_base. by rewrite Hqbase.
  - by rewrite Hqh.
  - by rewrite Hqb.
  - rewrite Hbl, (i_size _ _ _ _ _ _ _ Hi). done.
  - apply Hi.
  - pose proof (i_room _ _ _ _ _ _ _ Hi) as Hroom. unfold heap_room in *. simpl. rewrite map_size_insert_None by done.
    rewrite Hqbrk, (in_lim _ _ Hin). rewrite Hl in Hroom. simpl in Hroom. change (blk (with_pages _ _)) with (blk s). lia.
  - exists (extra pg). do 2 eexists. split_and!; [done|exact Hi'].
Qed.

Lemma pagerGet_new w S E s D d PC k :
  pinv w S E s D d PC → a_held S !! k = None → 1 ≤ k ≤ N → cs_lru s = [] →
  Z.of_nat (size (cs_pages s)) < cs_max s →
  ∃ x s' w', pagerGet P k w = Ok ((SQL_ERROR, x), w') ∧
    pinv w' (mkA (a_data S) (<[k := (1, false)]> (a_held S))) (<[k := x]> E) s' D d PC.
Proof.
  intros Hi Hnk Hk Hl Hmax. pose proof (i_size _ _ _ _ _ _ _ Hi) as Hsz.
  pose proof (i_room _ _ _ _ _ _ _ Hi) as Hroom. unfold heap_room in Hroom. rewrite Hl in Hroom. simpl in Hroom.
  assert (brk w + blk s ≤ lim w) as Hlim by (unfold blk, sizeof_PgHdr, sizeof_PgHdr1 in *; nia). pose proof (i_at _ _ _ _ _ _ _ Hi) as Hat.
  pose proof (not_held_not_cached _ _ _ _ _ _ _ _ Hi Hnk) as Hpk.
  pose proof (ps_wf _ _ _ (i_static _ _ _ _ _ _ _ Hi)) as Hwf.
  destruct (fetch_new w c s k Hat ltac:(lia) Hpk Hl Hmax Hwf Hlim)
    as (p & pg & w1 & Hf & Hin & Hwf1 & Hbrk1 & Hxf & Hcf & Hh1 & Hb1 & Hbase1 & Hbase & Hno & Hat1).
  assert (∀ a h, hdrs w !! a = Some h → hdrs w1 !! a = Some h) as Hold.
  { intros a h Ha. rewrite Hh1, lookup_insert_ne; [done|]. intros <-.
    destruct Hwf as [_ Hwf]. destruct (Hwf _ (or_introl Hxf)) as (_ & ? & _). congruence. }
  assert (∀ a b, bufs w !! a = Some b → bufs w1 !! a = Some b) as Holdb.
  { intros a b Ha. rewrite Hb1, lookup_insert_ne; [done|]. intros <-.
    destruct Hwf as [_ Hwf]. destruct (Hwf _ (or_introl Hcf)) as (_ & _ & ? & _). congruence. }
  destruct (get_load w S E s (with_pages (<[k := p]> (cs_pages s)) s) D d PC k p pg (zero_hdr (content pg))
    (replicate (Z.to_nat (cs_size s)) 0) w1) as (w' & Hrun & Hi'); try done.
  - intros k1 n b x Hk1 Hx. destruct (i_held _ _ _ _ _ _ _ Hi _ _ _ Hk1) as (y & Hy & Hok).
    assert (y = x) as -> by congruence. eapply held_frame; [exact Hok| | | |done].
    + simpl. rewrite lookup_insert_ne by (intros <-; congruence). done.
    + intros q qg Hq Hqg. rewrite Hbase; [|intros ->; apply Hno; right; eauto]. split; [done|].
      destruct (cache_page w c s q Hat) as (_ & qg' & Hqg' & _ & _ & _ & b1 & Hb1' & _); [right; eauto|].
      assert (qg' = qg) as -> by congruence. rewrite Hb1'. by apply Holdb.
    + intros h Hh. exists h. by rewrite (Hold _ _ Hh).
  - simpl. rewrite Hl. intros q Hq. by apply not_elem_of_nil in Hq.
  - eapply dll_frame; [apply Hi|]. intros a h _ Ha. exists h. by rewrite (Hold _ _ Ha).
  - by rewrite Hh1, lookup_insert_eq.
  - by rewrite Hb1, lookup_insert_eq.
  - rewrite length_replicate, (i_size _ _ _ _ _ _ _ Hi). done.
  - apply Hi.
  - unfold heap_room. simpl. rewrite map_size_insert_None by done. rewrite Hl, Hbrk1, (in_lim _ _ Hin).
    simpl. change (blk (with_pages _ _)) with (blk s). lia.
  - exists (extra pg). do 2 eexists. split_and!; [done|exact Hi'].
Qed.

Lemma pagerGet_full w S E s D d PC k :
  pinv w S E s D d PC → a_held S !! k = None → 0 ≤ k → cs_lru s = [] →
  cs_max s ≤ Z.of_nat (size (cs_pages s)) → pagerGet P k w = Ok ((SQL_NOMEM, 0), w).
Proof.
  intros Hi Hnk Hk Hl Hmax.
  pose proof (fetch_full w c s k (i_at _ _ _ _ _ _ _ Hi) Hk (not_held_not_cached _ _ _ _ _ _ _ _ Hi Hnk) Hl Hmax) as Hf.
  by destruct (get_miss_run _ _ _ _ _ _ _ _ _ _ Hi Hnk Hk Hf) as (v & nm & ->).
Qed.

(** ** Marking dirty and clean *)

(** Page [k] changes between clean and dirty: only dirty-list links change elsewhere. *)
Lemma set_dirty w S E s D d PC k x n b h (b' : bool) (hs' : gmap Z PgHdr) h' D' PC' :
  pinv w S E s D d PC → a_held S !! k = Some (n, b) → E !! k = Some x → hdrs w !! x = Some h →
  hs' !! x = Some h' → same_hdr (with_flags (if b' then 3 else 1) h) h' →
  (∀ a h1, a ≠ x → hdrs w !! a = Some h1 → ∃ h2, hs' !! a = Some h2 ∧ same_hdr h1 h2) →
  (∀ a, is_Some (hs' !! a) → is_Some (hdrs w !! a)) →
  PC' = with_dhead (pdirty_head PC') PC → dll hs' 0 (pdirty_head PC') D' →
  (x ∈ D' ↔ b' = true) → (∀ y, y ≠ x → (y ∈ D' ↔ y ∈ D)) →
  (b' = false → a_data S !! k = Some (fpage d k)) →
  pinv (set_caches (set_hdrs w hs') (<[C := PC']> (caches w)))
    (mkA (a_data S) (<[k := (n, b')]> (a_held S))) E s D' d PC'.
Proof.
  intros Hi Hk Hx Hh Hh' Hsame Hoth Hdom HPC Hdll HxD HD Hcl.
  destruct (i_held _ _ _ _ _ _ _ Hi k n b Hk) as (x' & Hx' & Hok).
  assert (x' = x) as -> by congruence. pose proof (i_at _ _ _ _ _ _ _ Hi) as Hat.
  pose proof (i_static _ _ _ _ _ _ _ Hi) as Hst. split; simpl.
  - destruct Hst. split; simpl; try done.
    + pose proof (heap_wf_hdrs w hs' ps_wf0 Hdom) as [H1' Hwf]. split; [done|].
      intros a Ha. simpl in *. destruct (Hwf a Ha) as (? & ? & ? & ? & ? & ?). split_and!; try done.
      rewrite lookup_insert_ne; [done|]. congruence.
    + by rewrite lookup_insert_eq.
    + by rewrite HPC.
    + by rewrite HPC.
    + by rewrite HPC.
  - eapply cache_frame; [exact Hat|done|done|]. split; simpl; [|eauto|lia]. intros a [h1 Ha].
    destruct (decide (a = x)) as [->|Hax]; [by rewrite Hh'|]. destruct (Hoth a h1 Hax Ha) as (h2 & -> & _). done.
  - apply Hi.
  - intros k'. rewrite (i_dom _ _ _ _ _ _ _ Hi k'). destruct (decide (k' = k)) as [->|].
    + rewrite lookup_insert_eq, Hk. split; eauto.
    + by rewrite lookup_insert_ne.
  - apply Hi.
  - apply Hi.
  - intros k' m b1 Hk'. destruct (decide (k' = k)) as [->|Hkk].
    + rewrite lookup_insert_eq in Hk'. injection Hk' as <- <-. exists x. split; [done|].
      destruct Hok as [? ? (p & pg & h1 & Hpg) ?]. assert (h1 = h) as -> by naive_solver. split; [done|done| |done].
      exists p, pg, h'. destruct_and? Hpg. destruct Hsame as (E1 & E2 & E3 & E4 & E5 & E6 & E7). simpl in *.
      split_and!; done || congruence.
    + rewrite lookup_insert_ne in Hk' by done. destruct (i_held _ _ _ _ _ _ _ Hi _ _ _ Hk') as (y & Hy & Hoky).
      assert (y ≠ x) as Hyx.
      { apply not_eq_sym. eapply held_sep; [exact Hat|exact Hok|exact Hoky|done]. }
      exists y. split; [done|]. eapply held_frame; [exact Hoky|done|done| |by apply HD].
      intros h1 Hh1. by apply Hoth.
  - intros p Hp. destruct (i_free _ _ _ _ _ _ _ Hi p Hp) as (pg & h1 & Hpg & Hh1 & Hn1).
    assert (x ≠ extra pg) as Hxp by (by eapply free_sep).
    destruct (Hoth (extra pg) h1) as (h2 & Hh2 & Hs2); [done|done|].
    exists pg, h2. split_and!; [done|done|]. destruct Hs2 as (_ & _ & _ & _ & _ & -> & _). done.
  - intros k' bs Hbs Hnd. destruct (decide (k' = k)) as [->|Hkk].
    + destruct b'; [by destruct (Hnd n); rewrite lookup_insert_eq|]. specialize (Hcl eq_refl). congruence.
    + apply (i_clean _ _ _ _ _ _ _ Hi k'); [done|]. intros m Hm. apply (Hnd m). by rewrite lookup_insert_ne.
  - done.
  - intros y Hy. destruct (decide (y = x)) as [->|Hyx].
    + exists k, n. rewrite lookup_insert_eq. split; [|done]. by rewrite (proj1 HxD Hy).
    + apply HD in Hy; [|done]. destruct (i_D _ _ _ _ _ _ _ Hi y Hy) as (k' & m & Hk' & Hy').
      exists k', m. rewrite lookup_insert_ne; [done|]. intros <-. congruence.
  - apply Hi.
  - apply (i_room _ _ _ _ _ _ _ Hi).
Qed.

(** The dirty list's links as [pcacheMakeDirty] and [pcacheMakeClean] rewrite them. *)
Definition set_prev (a v : Z) (hs : gmap Z PgHdr) : gmap Z PgHdr := alter (with_dprev v) a hs.

Lemma set_prev_same a v (hs : gmap Z PgHdr) b h :
  hs !! b = Some h → ∃ h', set_prev a v hs !! b = Some h' ∧ same_hdr h h' ∧ pdirty_next h' = pdirty_next h.
Proof.
  intros Hb. unfold set_prev. destruct (decide (b = a)) as [->|].
  - rewrite lookup_alter_eq, Hb. eexists. split; [done|]. done.
  - rewrite lookup_alter_ne by done. exists h. done.
Qed.

Lemma hdr_upd_prev w a v :
  (a = 0 ∨ is_Some (hdrs w !! a)) → hdrs w !! 0 = None →
  (if negb (a =? 0) then hdr_upd a (with_dprev v) else mret tt) w = Ok (tt, set_hdrs w (set_prev a v (hdrs w))).
Proof.
  intros Ha H0'. unfold set_prev. destruct (Z.eqb_spec a 0) as [->|Hne]; cbn [negb].
  - assert (alter (with_dprev v) 0 (hdrs w) = hdrs w) as ->; [|by destruct w].
    apply map_eq. intros i. destruct (decide (i = 0)) as [->|].
    + by rewrite lookup_alter_eq, H0'.
    + by rewrite lookup_alter_ne.
  - destruct Ha as [|[h Hh]]; [done|]. rewrite (hdr_upd_run _ _ _ _ Hh). do 3 f_equal.
    apply map_eq. intros i. destruct (decide (i = a)) as [->|].
    + by rewrite lookup_alter_eq, lookup_insert_eq, Hh.
    + by rewrite lookup_alter_ne, lookup_insert_ne.
Qed.

Lemma dll_head hs prev p l : dll hs prev p l → p = 0 ∨ is_Some (hs !! p).
Proof. destruct l; simpl; [by left|]. intros (-> & _ & h & -> & _). right. eauto. Qed.

(** Putting another page in front only changes the old head's back link. *)
Lemma dll_set_prev hs hs' prev p l v :
  dll hs prev p l → (∀ a, a ∈ l → hs' !! a = set_prev p v hs !! a) → dll hs' v p l.
Proof.
  destruct l as [|a l]; simpl; [done|]. intros Hl Hs. pose proof Hl as (-> & H0' & h & Hh & Hp & Hl').
  pose proof (dll_NoDup hs prev a (a :: l)) as Hnd. simpl in Hnd. specialize (Hnd ltac:(naive_solver)).
  apply NoDup_cons in Hnd as [Hna _]. split_and!; [done|done|].
  exists (with_dprev v h). rewrite Hs by set_solver. unfold set_prev. rewrite lookup_alter_eq, Hh.
  split_and!; [done|done|]. simpl. eapply dll_same; [exact Hl'|]. intros b Hb. rewrite Hs by set_solver.
  unfold set_prev. rewrite lookup_alter_ne; [done|]. intros ->. done.
Qed.

Lemma no_null w S E s D d PC : pinv w S E s D d PC → hdrs w !! 0 = None.
Proof. intros Hi. destruct (ps_wf _ _ _ (i_static _ _ _ _ _ _ _ Hi)) as [_ Hwf]. by apply Hwf; right. Qed.

Lemma pagerWrite_clean w S E s D d PC k x n :
  pinv w S E s D d PC → a_held S !! k = Some (n, false) → E !! k = Some x →
  ∃ w' PC', pagerWrite x w = Ok (SQL_OK, w') ∧
    pinv w' (mkA (a_data S) (<[k := (n, true)]> (a_held S))) E s (x :: D) d PC'.
Proof.
  intros Hi Hk Hx. pose proof (no_null _ _ _ _ _ _ _ Hi) as Hz. destruct (i_held _ _ _ _ _ _ _ Hi k n false Hk) as (x' & Hx' & Hok).
  assert (x' = x) as -> by congruence.
  pose proof Hok as [Hkr Hnr (p & pg & h & Hp & Hpg & Hxe & Hh & _ & _ & _ & _ & Hfl & Hnref & Hpc & _) HxD].
  assert (x ≠ 0) as Hx0 by (intros ->; congruence).
  assert (x ∉ D) as HxD' by (intros Hin; by apply HxD in Hin).
  pose proof (ps_cache _ _ _ (i_static _ _ _ _ _ _ _ Hi)) as HC.
  pose proof (i_list _ _ _ _ _ _ _ Hi) as Hdll.
  assert (pdirty_head PC ≠ x) as Hhx.
  { destruct D as [|a D]; simpl in Hdll; [lia|]. destruct Hdll as (-> & _). set_solver. }
  set (h1 := with_flags 3 h). set (m1 := <[x := h1]> (hdrs w)).
  set (m2 := set_prev (pdirty_head PC) x m1).
  assert (m2 !! x = Some h1) as Hm2x.
  { unfold m2, set_prev. rewrite lookup_alter_ne by done. unfold m1. by rewrite lookup_insert_eq. }
  set (h' := with_dprev 0 (with_dnext (pdirty_head PC) h1)).
  exists (set_caches (set_hdrs w (<[x := h']> m2)) (<[C := with_dhead x PC]> (caches w))), (with_dhead x PC).
  split_and!.
  - unfold pagerWrite. rewrite (bind_ok _ _ w tt (set_caches (set_hdrs w (<[x := h']> m2)) (<[C := with_dhead x PC]> (caches w)))); [done|].
    unfold pcacheMakeDirty. mstep (hdr_run _ _ _ Hh). rewrite Hnref. rewrite (proj2 (Z.ltb_lt _ _)) by lia.
    rewrite (bind_lift _ _ w tt eq_refl). rewrite Hfl. change (Z.land 1 PGHDR_DIRTY =? 0) with true. cbn [negb].
    change (Z.lor 1 PGHDR_DIRTY) with 3. rewrite Hpc. cbv zeta. mstep (hdr_upd_run _ _ _ (with_flags 3) Hh).
    fold h1. fold m1. rewrite (bind_ok _ _ _ PC _ (cache_run (set_hdrs w m1) C PC HC)).
    rewrite (bind_ok _ _ _ tt (set_hdrs w m2)); cycle 1.
    { rewrite (hdr_upd_prev (set_hdrs w m1)); [done| |].
      - destruct (dll_head _ _ _ _ Hdll) as [|Hs]; [by left|right]. simpl. by apply insert_some.
      - simpl. unfold m1. by rewrite lookup_insert_ne. }
    rewrite (bind_ok _ _ _ _ _ (hdr_upd_run (set_hdrs w m2) x h1 (with_dnext (pdirty_head PC)) Hm2x)). simpl hdrs.
    rewrite (bind_ok _ _ _ _ _ (hdr_upd_again (set_hdrs w m2) x _ _ m2)).
    by rewrite (cache_upd_run (set_hdrs (set_hdrs w m2) _) C PC _ HC).
  - eapply (set_dirty w S E s D d PC k x n false h true (<[x := h']> m2) h' (x :: D)); try done.
    + by rewrite lookup_insert_eq.
    + intros a h2 Hax Ha. rewrite lookup_insert_ne by done.
      destruct (set_prev_same (pdirty_head PC) x m1 a h2) as (h3 & ? & ? & _); [unfold m1; by rewrite lookup_insert_ne|eauto].
    + intros a. destruct (decide (a = x)) as [->|Hax]; [by rewrite Hh|]. rewrite lookup_insert_ne by done.
      unfold m2, set_prev. rewrite lookup_alter_is_Some. unfold m1. by rewrite lookup_insert_ne.
    + split_and!; [done|done|]. exists h'. rewrite lookup_insert_eq. split_and!; [done|done|]. simpl.
      eapply dll_set_prev; [exact Hdll|]. intros a Ha. assert (a ≠ x) by congruence. rewrite lookup_insert_ne by done.
      unfold m2, set_prev. destruct (decide (a = pdirty_head PC)) as [->|].
      * rewrite !lookup_alter_eq. unfold m1. by rewrite lookup_insert_ne.
      * rewrite !lookup_alter_ne by done. unfold m1. by rewrite lookup_insert_ne.
    + set_solver.
    + set_solver.
Qed.

Lemma pagerWrite_dirty w S E s D d PC k x n :
  pinv w S E s D d PC → a_held S !! k = Some (n, true) → E !! k = Some x →
  pagerWrite x w = Ok (SQL_OK, w).
Proof.
  intros Hi Hk Hx. destruct (i_held _ _ _ _ _ _ _ Hi k n true Hk) as (x' & Hx' & Hok).
  assert (x' = x) as -> by congruence.
  destruct Hok as [Hkr Hnr (p & pg & h & Hp & Hpg & Hxe & Hh & _ & _ & _ & _ & Hfl & Hnref & Hpc & _) HxD].
  unfold pagerWrite. rewrite (bind_ok _ _ w tt w); [done|].
  unfold pcacheMakeDirty. mstep (hdr_run _ _ _ Hh). rewrite Hnref. rewrite (proj2 (Z.ltb_lt _ _)) by lia.
  rewrite (bind_lift _ _ w tt eq_refl). rewrite Hfl. done.
Qed.

(** The client writes into the buffer of a dirty page. *)
Lemma store_inv w S E s D d PC k x n h bs :
  pinv w S E s D d PC → a_held S !! k = Some (n, true) → E !! k = Some x → hdrs w !! x = Some h →
  length bs = PSZ →
  pinv (set_bufs w (<[pdata h := bs]> (bufs w))) (mkA (<[k := bs]> (a_data S)) (a_held S)) E s D d PC.
Proof.
  intros Hi Hk Hx Hh Hbs. destruct (i_held _ _ _ _ _ _ _ Hi k n true Hk) as (x' & Hx' & Hok).
  assert (x' = x) as -> by congruence. pose proof (i_at _ _ _ _ _ _ _ Hi) as Hat.
  pose proof Hok as [Hkr Hnr (p & pg & h1 & Hp & Hpg & Hxe & Hh1 & Hr1 & Hr2 & Hrest) HxD].
  assert (h1 = h) as -> by congruence. rewrite Hr2.
  destruct (cache_page w c s p Hat) as (_ & pg' & Hpg' & _ & Hc0 & _ & b0 & Hb0 & Hbl); [right; eauto|].
  assert (pg' = pg) as -> by congruence. split; simpl.
  - destruct (i_static _ _ _ _ _ _ _ Hi). split; try done. destruct ps_wf0 as [H1' Hwf]. split; [done|].
    intros a Ha. simpl in *. destruct (Hwf a Ha) as (? & ? & Hb & ? & ? & ?). split_and!; try done.
    rewrite lookup_insert_ne; [done|]. congruence.
  - eapply cache_frame; [exact Hat|done|done|]. split; simpl; [done| |lia].
    intros a b Ha. destruct (decide (a = content pg)) as [->|].
    + rewrite lookup_insert_eq. eexists. split; [done|]. assert (b = b0) as -> by congruence.
      by rewrite Hbl, (i_size _ _ _ _ _ _ _ Hi).
    + rewrite lookup_insert_ne by done. eauto.
  - apply Hi.
  - apply Hi.
  - intros k'. rewrite <-(i_data _ _ _ _ _ _ _ Hi k'). destruct (decide (k' = k)) as [->|].
    + rewrite lookup_insert_eq. split; [|eauto]. intros _. by apply (i_data _ _ _ _ _ _ _ Hi).
    + by rewrite lookup_insert_ne.
  - intros k' b. destruct (decide (k' = k)) as [->|].
    + rewrite lookup_insert_eq. congruence.
    + rewrite lookup_insert_ne by done. apply Hi.
  - intros k' m b Hk'. destruct (decide (k' = k)) as [->|Hkk].
    + assert (m = n ∧ b = true) as [-> ->] by (split; congruence). exists x. split; [done|].
      split; [done|done| |done]. exists p, pg, h. simpl. rewrite !lookup_insert_eq. destruct_and? Hrest. by split_and!.
    + destruct (i_held _ _ _ _ _ _ _ Hi _ _ _ Hk') as (y & Hy & Hoky). exists y. split; [done|].
      rewrite lookup_insert_ne by done. eapply held_frame; [exact Hoky|done| |eauto|done].
      * intros q qg Hq Hqg. split; [done|]. simpl. rewrite lookup_insert_ne; [done|].
        assert (p ≠ q) as Hpq by (intros ->; apply Hkk; by eapply cache_keys).
        exact (proj2 (cache_sep w c s p q pg qg Hat (or_intror (ex_intro _ k Hp)) (or_intror (ex_intro _ k' Hq)) Hpq Hpg Hqg)).
      * intros h1 Hh'. exists h1. done.
  - apply Hi.
  - intros k' b Hb Hnd. destruct (decide (k' = k)) as [->|]; [by destruct (Hnd n)|].
    rewrite lookup_insert_ne in Hb by done. by apply (i_clean _ _ _ _ _ _ _ Hi).
  - apply Hi.
  - apply Hi.
  - apply Hi.
  - apply (i_room _ _ _ _ _ _ _ Hi).
Qed.

(** ** pagerUnref *)

Lemma pagerUnref_some w S E s D d PC k x n b :
  pinv w S E s D d PC → a_held S !! k = Some (n, b) → 1 < n → E !! k = Some x →
  ∃ w', pagerUnref x w = Ok (SQL_OK, w') ∧
    pinv w' (mkA (a_data S) (<[k := (n - 1, b)]> (a_held S))) E s D d PC.
Proof.
  intros Hi Hk Hn Hx. destruct (i_held _ _ _ _ _ _ _ Hi k n b Hk) as (x' & Hx' & Hok).
  assert (x' = x) as -> by congruence.
  destruct Hok as [Hkr Hnr (p & pg & h & _ & _ & _ & Hh & _ & _ & _ & _ & Hfl & Hnref & _) HxD].
  eexists. split; [|eapply (set_nref _ _ _ _ _ _ _ k x n b (n - 1) h); [exact Hi|done|done|done|lia]].
  unfold pagerUnref, pcacheRelease. rewrite (bind_ok _ _ w tt (set_hdrs w (<[x := with_nref (n - 1) h]> (hdrs w)))); [done|].
  mstep (hdr_run _ _ _ Hh). rewrite Hnref. rewrite (proj2 (Z.ltb_lt _ _)) by lia.
  rewrite (bind_lift _ _ w tt eq_refl). mstep (hdr_upd_run _ _ _ (with_nref (n - 1)) Hh). zneq (n - 1) 0. done.
Qed.

Lemma pagerUnref_dirty w S E s D d PC k x :
  pinv w S E s D d PC → a_held S !! k = Some (1, true) → E !! k = Some x →
  pagerUnref x w = Err FAssert.
Proof.
  intros Hi Hk Hx. destruct (i_held _ _ _ _ _ _ _ Hi k 1 true Hk) as (x' & Hx' & Hok).
  assert (x' = x) as -> by congruence.
  destruct Hok as [Hkr Hnr (p & pg & h & _ & _ & _ & Hh & _ & _ & _ & _ & Hfl & Hnref & _) HxD].
  unfold pagerUnref, pcacheRelease. unfold mbind at 1, M_bind at 1.
  mstep (hdr_run _ _ _ Hh). rewrite Hnref. change (0 <? 1) with true.
  rewrite (bind_lift _ _ w tt eq_refl). mstep (hdr_upd_run _ _ _ (with_nref (1 - 1)) Hh). by rewrite Hfl.
Qed.

Lemma pagerUnref_last w S E s D d PC k x :
  pinv w S E s D d PC → a_held S !! k = Some (1, false) → E !! k = Some x →
  ∃ w' s', pagerUnref x w = Ok (SQL_OK, w') ∧
    pinv w' (mkA (a_data S) (delete k (a_held S))) E s' D d PC.
Proof.
  intros Hi Hk Hx. destruct (i_held _ _ _ _ _ _ _ Hi k 1 false Hk) as (x' & Hx' & Hok).
  assert (x' = x) as -> by congruence. pose proof (i_at _ _ _ _ _ _ _ Hi) as Hat.
  pose proof Hok as [Hkr Hnr (p & pg & h & Hp & Hpg & Hxe & Hh & Hpp & _ & _ & _ & Hfl & Hnref & _) HxD].
  set (w1 := set_hdrs w (<[x := with_nref 0 h]> (hdrs w))).
  assert (cache_at w1 c s) as Hat1.
  { eapply cache_frame; [exact Hat|done|done|]. apply grows_hdrs. intros a. apply insert_some. }
  destruct (unpin_law w1 c s k p Hat1 Hp) as (w2 & Hun & Hq & Hat2). pose proof Hq as [Hin Hqh Hqb Hqbrk Hqbase].
  pose proof (pstatic_hdrs w d PC (<[x := with_nref 0 h]> (hdrs w)) (i_static _ _ _ _ _ _ _ Hi)
    (λ a, insert_dom _ _ _ _ _ Hh)) as Hst1. fold w1 in Hst1.
  set (s2 := with_lru (p :: cs_lru s) (with_pages (delete k (cs_pages s)) s)) in *.
  exists w2, s2. split_and!.
  - unfold pagerUnref, pcacheRelease. rewrite (bind_ok _ _ w tt w2); [done|].
    mstep (hdr_run _ _ _ Hh). rewrite Hnref. change (0 <? 1) with true.
    rewrite (bind_lift _ _ w tt eq_refl). mstep (hdr_upd_run _ _ _ (with_nref (1 - 1)) Hh).
    change (1 - 1 =? 0) with true. cbn iota. rewrite Hfl, Hpp. change (Z.land 1 PGHDR_DIRTY =? 0) with true.
    rewrite (bind_lift _ _ _ tt eq_refl). rewrite plug_run; [done|]. apply (ps_reg _ _ _ Hst1).
  - split; simpl.
    + eapply pstatic_inner; [exact Hst1|exact Hin|]. eapply quiet_wf; [exact Hq|]. apply Hst1.
    + done.
    + apply Hi.
    + intros k'. destruct (decide (k' = k)) as [->|].
      * rewrite !lookup_delete_eq. split; by intros [].
      * rewrite !lookup_delete_ne by done. apply Hi.
    + apply Hi.
    + apply Hi.
    + intros k' m b [Hne Hk']%lookup_delete_Some. destruct (i_held _ _ _ _ _ _ _ Hi _ _ _ Hk') as (y & Hy & Hoky).
      exists y. split; [done|]. eapply held_frame; [exact Hoky| | | |done].
      * simpl. by rewrite lookup_delete_ne.
      * intros q qg Hqq Hqg. unfold page_base. rewrite Hqbase, Hqb. done.
      * intros h1 Hh1. exists h1. rewrite Hqh. simpl. rewrite lookup_insert_ne; [done|].
        eapply held_sep; [exact Hat|exact Hok|exact Hoky|done].
    + intros q [->|Hqq]%elem_of_cons.
      * exists pg, (with_nref 0 h). unfold page_base. rewrite Hqbase, Hqh, Hxe. simpl.
        by rewrite lookup_insert_eq.
      * destruct (i_free _ _ _ _ _ _ _ Hi q Hqq) as (qg & h1 & Hqg & Hh1 & Hn1). exists qg, h1.
        unfold page_base. rewrite Hqbase, Hqh. split_and!; [done| |done]. simpl. rewrite lookup_insert_ne; [done|].
        by eapply (free_sep w s D k x 1 false).
    + intros k' bs Hbs Hnd. apply (i_clean _ _ _ _ _ _ _ Hi k'); [done|]. intros m Hm.
      destruct (decide (k' = k)) as [->|]; [congruence|]. apply (Hnd m). by rewrite lookup_delete_ne.
    + rewrite Hqh. eapply dll_same; [apply Hi|]. intros a Ha. simpl. rewrite lookup_insert_ne; [done|].
      intros <-. by apply HxD in Ha.
    + intros y Hy. destruct (i_D _ _ _ _ _ _ _ Hi y Hy) as (k' & m & Hk' & Hy'). exists k', m.
      rewrite lookup_delete_ne; [done|]. intros <-. congruence.
    + apply Hi.
    + pose proof (i_room _ _ _ _ _ _ _ Hi) as Hroom. unfold heap_room in *. simpl.
      rewrite Hqbrk, (in_lim _ _ Hin). change (blk s2) with (blk s). rewrite map_size_delete_Some by eauto. simpl.
      assert (size (cs_pages s) ≠ 0%nat).
      { intros Hz%map_size_empty_inv. rewrite Hz in Hp. by rewrite lookup_empty in Hp. }
      rewrite Nat2Z.inj_pred by lia. lia.
Qed.

(** ** pagerCommit *)

Lemma fpage_overwrite d k k' bs :
  1 ≤ k ≤ N → 1 ≤ k' ≤ N → N * 2048 ≤ Z.of_nat (length d) → length bs = PSZ →
  fpage (overwrite d (Z.to_nat ((k - 1) * 2048)) bs) k' = if decide (k' = k) then bs else fpage d k'.
Proof.
  intros Hk Hk' Hd Hl. unfold fpage. case_decide as Hkk.
  - subst k'. apply rd_overwrite_eq. by rewrite Hl.
  - apply rd_overwrite_ne; rewrite ?Hl; unfold PSZ; lia.
Qed.

Lemma write_page_run w S E s D d PC k x n bs :
  pinv w S E s D d PC → a_held S !! k = Some (n, true) → E !! k = Some x → a_data S !! k = Some bs →
  ∃ k' d', _pagerWritePage x w = Ok (tt, set_kern w k') ∧ pinv (set_kern w k') S E s D d' PC ∧
    fpage d' k = bs.
Proof.
  intros Hi Hk Hx Hbs. destruct (i_held _ _ _ _ _ _ _ Hi k n true Hk) as (x' & Hx' & Hok).
  assert (x' = x) as -> by congruence.
  pose proof Hok as [Hkr Hnr (p & pg & h & _ & _ & _ & Hh & _ & Hpd & Hpo & Hno & _ & _ & _ & Hbuf) HxD].
  pose proof (i_static _ _ _ _ _ _ _ Hi) as Hst. pose proof (i_len _ _ _ _ _ _ _ Hi _ _ Hbs) as Hlen.
  destruct Hst. destruct ps_file0 as (f & Hf & Hm & Hfd). destruct ps_pager0 as (v & nm & HP).
  rewrite Hbs in Hbuf. assert (Z.of_nat (length bs) = 2048) as Hlz by (rewrite Hlen; done).
  destruct (unixWrite_run w F (content pg) 2048 ((k - 1) * 2048) f d bs) as (k' & Hwr & Hd' & Hroom');
    [done|done|by rewrite Hfd|lia|lia|done|lia| |].
  { rewrite Hfd. eapply room_le; [exact ps_room0|lia]. }
  rewrite take_ge in Hd' by (rewrite Hlen; done). rewrite Hfd in Hd', Hroom'.
  exists k', (overwrite d (Z.to_nat ((k - 1) * 2048)) bs). split_and!.
  - unfold _pagerWritePage. mstep (hdr_run _ _ _ Hh). rewrite Hpo. mstep (pager_run _ _ _ HP).
    cbn [pager_fd]. rewrite Hpd, Hno, (page_offset_small k) by lia.
    by rewrite (bind_ok _ _ _ _ _ (eq_trans (osWrite_run w F _ _ _ (ex_intro _ f (conj Hf Hm))) Hwr)).
  - destruct Hi as [? Hat ? ? Hdata Hlens Hheld Hfree Hclean Hlist HD ? Hroom]. split; try done.
    + split; simpl; try done; eauto. rewrite length_overwrite. lia.
    + eapply cache_frame; [exact Hat|done|done|by apply grows_same].
    + intros k1 m b Hk1. destruct (Hheld _ _ _ Hk1) as (y & Hy & Hoky). exists y. split; [done|].
      eapply held_frame; [exact Hoky|done|done| |done]. intros h1 Hh1. by exists h1.
    + intros k1 b Hb Hnd. rewrite fpage_overwrite; [|done|by apply Hdata|done|done].
      case_decide; [subst; by destruct (Hnd n)|]. by apply Hclean.
  - rewrite fpage_overwrite by done. by rewrite decide_True.
Qed.

Lemma make_clean_head w S E s D d PC k x n :
  pinv w S E s (x :: D) d PC → a_held S !! k = Some (n, true) → E !! k = Some x →
  a_data S !! k = Some (fpage d k) →
  ∃ w' PC' h, hdrs w !! x = Some h ∧ pcacheMakeClean x w = Ok (tt, w') ∧
    pdirty_head PC' = pdirty_next h ∧
    pinv w' (mkA (a_data S) (<[k := (n, false)]> (a_held S))) E s D d PC'.
Proof.
  intros Hi Hk Hx Hbs. destruct (i_held _ _ _ _ _ _ _ Hi k n true Hk) as (x' & Hx' & Hok).
  assert (x' = x) as -> by congruence.
  pose proof Hok as [Hkr Hnr (p & pg & h & _ & _ & _ & Hh & _ & _ & _ & _ & Hfl & Hnref & Hpc & _) _].
  pose proof (i_static _ _ _ _ _ _ _ Hi) as Hst. pose proof (ps_cache _ _ _ Hst) as HC.
  pose proof (no_null _ _ _ _ _ _ _ Hi) as Hz.
  pose proof (i_list _ _ _ _ _ _ _ Hi) as Hdll. pose proof (dll_NoDup _ _ _ _ Hdll) as [HxD _]%NoDup_cons.
  destruct Hdll as (Hhead & Hx0 & h1 & Hh1 & Hprev & Hdll). assert (h1 = h) as -> by congruence.
  set (nx := pdirty_next h) in *. set (m1 := set_prev nx 0 (hdrs w)).
  assert (nx ≠ x) as Hnx.
  { destruct D as [|a D]; simpl in Hdll; [lia|]. destruct Hdll as (-> & _). set_solver. }
  assert (m1 !! x = Some h) as Hm1x.
  { unfold m1, set_prev. by rewrite lookup_alter_ne. }
  set (h' := with_flags 1 (with_dnext 0 (with_dprev 0 h))).
  set (w' := set_caches (set_hdrs w (<[x := h']> m1)) (<[C := with_dhead nx PC]> (caches w))).
  exists w', (with_dhead nx PC), h. split_and!; [done| |done|].
  - unfold pcacheMakeClean. mstep (hdr_run _ _ _ Hh). rewrite Hfl.
    change (Z.land 3 PGHDR_DIRTY =? 0) with false. cbn iota zeta. rewrite Hprev, Z.eqb_refl. cbn [negb].
    rewrite (bind_ok _ _ w tt w eq_refl). mstep (hdr_run _ _ _ Hh). rewrite Hprev. fold nx.
    rewrite (bind_ok _ _ w tt (set_hdrs w m1)); cycle 1.
    { rewrite (hdr_upd_prev w); [done| |done]. by eapply dll_head. }
    rewrite (bind_ok _ _ _ _ _ (hdr_run (set_hdrs w m1) x h Hm1x)). rewrite Hpc.
    rewrite (bind_ok _ _ _ PC _ (cache_run (set_hdrs w m1) C PC HC)).
    rewrite Hhead, Z.eqb_refl. fold nx.
    rewrite (bind_ok _ _ _ _ _ (cache_upd_run (set_hdrs w m1) C PC (with_dhead nx) HC)).
    rewrite (ps_tail _ _ _ Hst). zneq 0 x. rewrite (bind_ok _ _ _ tt _ eq_refl).
    rewrite Hfl. change (Z.lxor 3 PGHDR_DIRTY) with 1. set (w2 := set_caches _ _).
    rewrite (bind_ok _ _ _ _ _ (hdr_upd_run w2 x h (with_dprev 0) Hm1x)).
    rewrite (bind_ok _ _ _ _ _ (hdr_upd_again w2 x _ _ _)). by rewrite (hdr_upd_again w2 x _ _ _).
  - eapply (set_dirty w S E s (x :: D) d PC k x n true h false (<[x := h']> m1) h' D); try done.
    + by rewrite lookup_insert_eq.
    + intros a h2 Hax Ha. rewrite lookup_insert_ne by done.
      destruct (set_prev_same nx 0 (hdrs w) a h2 Ha) as (h3 & ? & ? & _). eauto.
    + intros a. destruct (decide (a = x)) as [->|Hax]; [by rewrite Hh|]. rewrite lookup_insert_ne by done.
      unfold m1, set_prev. by rewrite lookup_alter_is_Some.
    + eapply dll_set_prev; [exact Hdll|]. intros a Ha. rewrite lookup_insert_ne; [done|]. intros <-. done.
    + set_solver.
Qed.

(** Every held page is clean. *)
Definition clean_all (m : gmap Z (Z * bool)) : gmap Z (Z * bool) := (λ nb, (nb.1, false)) <$> m.

Lemma clean_all_insert m k n b : m !! k = Some (n, b) → clean_all (<[k := (n, false)]> m) = clean_all m.
Proof.
  intros Hk. unfold clean_all. rewrite fmap_insert. apply insert_id. by rewrite lookup_fmap, Hk.
Qed.

Lemma commit_loop_run D fuel w S E s d PC :
  pinv w S E s D d PC → (length D ≤ fuel)%nat →
  ∃ w' d' PC', commit_loop fuel (pdirty_head PC) w = Ok (tt, w') ∧
    pinv w' (mkA (a_data S) (clean_all (a_held S))) E s [] d' PC'.
Proof.
  revert fuel w S d PC. induction D as [|x D IH]; intros fuel w S d PC Hi Hf.
  - exists w, d, PC. pose proof (i_list _ _ _ _ _ _ _ Hi) as Hl. simpl in Hl. rewrite Hl. split; [by destruct fuel|]. assert (clean_all (a_held S) = a_held S) as ->; [|by destruct S].
    apply map_eq. intros k. unfold clean_all. rewrite lookup_fmap. destruct (a_held S !! k) as [[n b]|] eqn:Ek; [|done].
    destruct (i_held _ _ _ _ _ _ _ Hi _ _ _ Ek) as (x & _ & [_ _ _ Hd]). simpl. destruct b; [|done].
    destruct (not_elem_of_nil x). by apply Hd.
  - simpl in Hf. destruct fuel as [|fuel]; [lia|].
    destruct (i_D _ _ _ _ _ _ _ Hi x) as (k & n & Hk & Hx); [set_solver|].
    destruct (i_held _ _ _ _ _ _ _ Hi _ _ _ Hk) as (x' & Hx' & Hok). assert (x' = x) as -> by congruence.
    destruct (proj2 (i_data _ _ _ _ _ _ _ Hi k) (h_k _ _ _ _ _ _ _ _ Hok)) as [bs Hbs].
    destruct (write_page_run _ _ _ _ _ _ _ _ _ _ _ Hi Hk Hx Hbs) as (k' & d1 & Hwr & Hi1 & Hfp).
    destruct (make_clean_head _ _ _ _ _ _ _ _ _ _ Hi1 Hk Hx) as (w2 & PC2 & h & Hh & Hcl & Hhd2 & Hi2).
    { by rewrite Hfp. }
    destruct (IH fuel w2 _ _ _ Hi2 ltac:(lia)) as (w' & d' & PC' & Hrun & Hi').
    exists w', d', PC'. pose proof (i_list _ _ _ _ _ _ _ Hi) as (Hhead & Hx0 & _).
    split.
    + cbn [commit_loop]. rewrite Hhead. zneq x 0. mstep (hdr_run w x h Hh). mstep Hwr. mstep Hcl.
      by rewrite <-Hhd2.
    + simpl in Hi'. by rewrite (clean_all_insert _ _ _ _ Hk) in Hi'.
Qed.

Lemma pagerCommit_run w S E s D d PC :
  pinv w S E s D d PC →
  ∃ w' d' PC', pagerCommit P w = Ok (SQL_OK, w') ∧
    pinv w' (mkA (a_data S) (clean_all (a_held S))) E s [] d' PC'.
Proof.
  intros Hi. pose proof (i_static _ _ _ _ _ _ _ Hi) as Hst. destruct (ps_pager _ _ _ Hst) as (v & nm & HP).
  destruct (commit_loop_run D (size (hdrs w)) w S E s d PC Hi) as (w' & d' & PC' & Hrun & Hi').
  { eapply dll_length. apply Hi. }
  exists w', d', PC'. split; [|done]. unfold pagerCommit. mstep (pager_run _ _ _ HP). cbn [pager_pcache].
  unfold pcacheGetDirty. rewrite (bind_ok _ _ w (pdirty_head PC) w) by (by mstep (cache_run _ _ _ (ps_cache _ _ _ Hst))).
  unfold get at 1. unfold mbind at 1, M_bind at 1. by mstep Hrun.
Qed.

End facts.
End PagerFacts.
