(* ===== verification/PagerProps.v ===== *)
(** What the pager of [sqlite_demo] promises to its client: it implements a set of pages with
    reference counts over the database file, and where it does not. *)

From S2P Require Import Prelude Chains SqlOs SqlOsFacts CacheIface PCache1 PCache1Facts Pager PagerFacts.
From stdpp Require Import options.

Module PagerProps.
Import SqlOs SqlOsFacts CacheIface PCache1 PCache1Facts Pager PagerFacts MemFs.

(** ** A client of the pager *)

Inductive op :=
  | OGet (k : Z) (* pagerGet, and look at the page *)
  | OWrite (k : Z) (* pagerWrite *)
  | OStore (k : Z) (bs : list Z) (* memcpy(page->pdata, bs, sizeof(bs)) *)
  | OUnref (k : Z) (* pagerUnref *)
  | OCommit.

Section client.
Context {K : Type} `{Posix K} `{SqlPCacheMethods K} (P : Z).
Implicit Types w : World K.

(** The client keeps the page pointers it got: [E]. *)
Definition exec (o : op) (Ew : gmap Z Z * World K) : result (option (list Z) * (gmap Z Z * World K)) :=
  let '(E, w) := Ew in
  match o with
  | OGet k =>
      '((_, x), w) ← pagerGet P k w;
      if x =? 0 then Ok (None, (E, w)) else
      h ← deref (hdrs w !! x);
      b ← deref (bufs w !! pdata h);
      Ok (Some b, (<[k := x]> E, w))
  | OWrite k => x ← deref (E !! k); '(_, w) ← pagerWrite x w; Ok (None, (E, w))
  | OStore k bs =>
      x ← deref (E !! k);
      h ← deref (hdrs w !! x);
      b ← deref (bufs w !! pdata h);
      if (length b <? length bs)%nat then Err FUndef else
      Ok (None, (E, set_bufs w (<[pdata h := wr b 0 bs]> (bufs w))))
  | OUnref k => x ← deref (E !! k); '(_, w) ← pagerUnref x w; Ok (None, (E, w))
  | OCommit => '(_, w) ← pagerCommit P w; Ok (None, (E, w))
  end.

Fixpoint exec_all (os : list op) (Ew : gmap Z Z * World K)
    : result (list (option (list Z)) * (gmap Z Z * World K)) :=
  match os with
  | [] => Ok ([], Ew)
  | o :: os => '(r, Ew) ← exec o Ew; '(rs, Ew) ← exec_all os Ew; Ok (r :: rs, Ew)
  end.
End client.

(** ** The specification: pages with counts, no cache and no file *)

Section spec.
Context (N mx : Z).

(** [None]: the client broke the protocol. *)
Definition spec_op (o : op) (S : astate) : option (option (list Z) * astate) :=
  match o with
  | OGet k =>
      if bool_decide (1 ≤ k ≤ N) then
        match a_held S !! k with
        | Some (n, b) =>
            if n + 1 <? 2 ^ 31
            then Some (a_data S !! k, mkA (a_data S) (<[k := (n + 1, b)]> (a_held S))) else None
        | None =>
            if Z.of_nat (size (a_held S)) <? mx
            then Some (a_data S !! k, mkA (a_data S) (<[k := (1, false)]> (a_held S)))
            else Some (None, S)
        end
      else None
  | OWrite k =>
      match a_held S !! k with
      | Some (n, _) => Some (None, mkA (a_data S) (<[k := (n, true)]> (a_held S)))
      | None => None
      end
  | OStore k bs =>
      match a_held S !! k with
      | Some (n, true) =>
          if bool_decide (length bs = PSZ)
          then Some (None, mkA (<[k := bs]> (a_data S)) (a_held S)) else None
      | _ => None
      end
  | OUnref k =>
      match a_held S !! k with
      | Some (n, b) =>
          if 1 <? n then Some (None, mkA (a_data S) (<[k := (n - 1, b)]> (a_held S)))
          else if (b : bool) then None else Some (None, mkA (a_data S) (delete k (a_held S)))
      | None => None
      end
  | OCommit => Some (None, mkA (a_data S) (clean_all (a_held S)))
  end.

Fixpoint spec_all (os : list op) (S : astate) : option (list (option (list Z)) * astate) :=
  match os with
  | [] => Some ([], S)
  | o :: os =>
      match spec_op o S with
      | Some (r, S1) => match spec_all os S1 with Some (rs, S2) => Some (r :: rs, S2) | None => None end
      | None => None
      end
  end.
End spec.

(** ** The simulation *)

Section sim.
Context {K : Type} `{PosixLaws K} `{PCacheLaws K}.
Implicit Types w : World K.

(** The pager [P] in state [w], with the client's pointers [E], implements the pages [S] over
    the file open at [dsc], whose bytes are [d]. *)
Definition sim (P dsc N mx : Z) (E : gmap Z Z) w (S : astate) (d : list Z) : Prop :=
  ∃ F C c s D PC, pinv P F C c dsc N mx w S E s D d PC.

Lemma held_size P F C c dsc N mx w S E s D d PC :
  pinv P F C c dsc N mx w S E s D d PC → size (cs_pages s) = size (a_held S).
Proof.
  intros Hi. rewrite <-!(size_dom (D := gset Z)). f_equal. apply set_eq. intros k.
  rewrite !elem_of_dom. apply Hi.
Qed.

Lemma held_bytes P F C c dsc N mx w S E s D d PC k n b :
  pinv P F C c dsc N mx w S E s D d PC → a_held S !! k = Some (n, b) →
  ∃ x h bs, E !! k = Some x ∧ x ≠ 0 ∧ hdrs w !! x = Some h ∧ bufs w !! pdata h = Some bs ∧
    a_data S !! k = Some bs.
Proof.
  intros Hi Hk. destruct (i_held _ _ _ _ _ _ _ _ _ _ _ _ _ _ Hi _ _ _ Hk) as (x & Hx & Hok).
  pose proof (no_null _ _ _ _ _ _ _ _ _ _ _ _ _ _ Hi) as Hz.
  destruct Hok as [Hkr _ (p & pg & h & _ & _ & _ & Hh & _ & Hpd & _ & _ & _ & _ & _ & Hb) _].
  destruct (proj2 (i_data _ _ _ _ _ _ _ _ _ _ _ _ _ _ Hi k) Hkr) as [bs Hbs].
  exists x, h, bs. split_and!; [done|congruence|done|congruence|done].
Qed.

(** ** Each operation *)

Lemma get_sim P dsc N mx E w S d k out S' :
  sim P dsc N mx E w S d → spec_op N mx (OGet k) S = Some (out, S') →
  ∃ E' w', exec P (OGet k) (E, w) = Ok (out, (E', w')) ∧ sim P dsc N mx E' w' S' d.
Proof.
  intros (F & C & c & s & D & PC & Hi) Hsp. cbn [spec_op] in Hsp.
  case_bool_decide as Hk; [|done]. pose proof (held_size _ _ _ _ _ _ _ _ _ _ _ _ _ _ Hi) as Hsz.
  assert (Hfin : ∀ E1 x w1 code n1 b1 s1 D1 PC1,
    pagerGet P k w = Ok ((code, x), w1) → E1 !! k = Some x →
    pinv P F C c dsc N mx w1 (mkA (a_data S) (<[k := (n1, b1)]> (a_held S))) E1 s1 D1 d PC1 →
    E1 = <[k := x]> E →
    ∃ E' w', exec P (OGet k) (E, w) = Ok (a_data S !! k, (E', w')) ∧
      sim P dsc N mx E' w' (mkA (a_data S) (<[k := (n1, b1)]> (a_held S))) d).
  { intros E1 x w1 code n1 b1 s1 D1 PC1 Hrun Hx Hi1 HE.
    destruct (held_bytes _ _ _ _ _ _ _ _ _ _ _ _ _ _ k n1 b1 Hi1) as (x' & h & bs & Hx' & Hx0 & Hh & Hb & Hd);
      [simpl; by rewrite lookup_insert_eq|]. assert (x' = x) as -> by congruence. simpl in Hd.
    exists E1, w1. split; [|by exists F, C, c, s1, D1, PC1].
    unfold exec. rewrite Hrun. unfold mbind, result_bind. zneq x 0. rewrite Hh. cbn. rewrite Hb. cbn. by rewrite Hd, HE. }
  destruct (a_held S !! k) as [[n b]|] eqn:Ek.
  - destruct (n + 1 <? 2 ^ 31) eqn:En; [|done]. apply Z.ltb_lt in En. injection Hsp as <- <-.
    destruct (pagerGet_hit _ _ _ _ _ _ _ _ _ _ _ _ _ _ k n b Hi Ek En) as (x & w' & Hx & Hrun & Hi').
    eapply Hfin; [exact Hrun|exact Hx|exact Hi'|by rewrite insert_id].
  - destruct (cs_lru s) as [|p l] eqn:Hl.
    + destruct (Z.of_nat (size (a_held S)) <? mx) eqn:Es.
      * apply Z.ltb_lt in Es. injection Hsp as <- <-.
        destruct (pagerGet_new _ _ _ _ _ _ _ _ _ _ _ _ _ _ k Hi Ek Hk Hl) as (x & s' & w' & Hrun & Hi').
        { rewrite (i_max _ _ _ _ _ _ _ _ _ _ _ _ _ _ Hi). lia. }
        eapply Hfin; [exact Hrun|by rewrite lookup_insert_eq|exact Hi'|done].
      * apply Z.ltb_ge in Es. injection Hsp as <- <-. exists E, w. split; [|by exists F, C, c, s, D, PC].
        unfold exec. rewrite (pagerGet_full _ _ _ _ _ _ _ _ _ _ _ _ _ _ k Hi Ek); [done|lia|done|].
        rewrite (i_max _ _ _ _ _ _ _ _ _ _ _ _ _ _ Hi). lia.
    + pose proof (cache_bound _ _ _ (i_at _ _ _ _ _ _ _ _ _ _ _ _ _ _ Hi)) as Hbound.
      rewrite Hl in Hbound. simpl in Hbound. rewrite (i_max _ _ _ _ _ _ _ _ _ _ _ _ _ _ Hi) in Hbound.
      rewrite (proj2 (Z.ltb_lt _ _)) in Hsp by lia. injection Hsp as <- <-.
      destruct (pagerGet_reuse _ _ _ _ _ _ _ _ _ _ _ _ _ _ k p l Hi Ek Hk Hl) as (x & s' & w' & Hrun & Hi').
      eapply Hfin; [exact Hrun|by rewrite lookup_insert_eq|exact Hi'|done].
Qed.

Lemma op_sim o P dsc N mx E w S d out S' :
  sim P dsc N mx E w S d → spec_op N mx o S = Some (out, S') →
  ∃ E' w' d', exec P o (E, w) = Ok (out, (E', w')) ∧ sim P dsc N mx E' w' S' d'.
Proof.
  destruct o as [k|k|k bs|k|]; intros Hs Hsp.
  - destruct (get_sim _ _ _ _ _ _ _ _ _ _ _ Hs Hsp) as (E' & w' & Hrun & Hs'). by exists E', w', d.
  - destruct Hs as (F & C & c & s & D & PC & Hi). cbn [spec_op] in Hsp.
    destruct (a_held S !! k) as [[n b]|] eqn:Ek; [|done]. injection Hsp as <- <-.
    destruct (i_held _ _ _ _ _ _ _ _ _ _ _ _ _ _ Hi _ _ _ Ek) as (x & Hx & _). cbn [exec]. rewrite Hx. cbn.
    destruct b.
    + rewrite (pagerWrite_dirty _ _ _ _ _ _ _ _ _ _ _ _ _ _ k x n Hi Ek Hx). exists E, w, d. split; [done|].
      exists F, C, c, s, D, PC. rewrite insert_id by done. by destruct S.
    + destruct (pagerWrite_clean _ _ _ _ _ _ _ _ _ _ _ _ _ _ k x n Hi Ek Hx) as (w' & PC' & Hrun & Hi').
      rewrite Hrun. exists E, w', d. split; [done|]. by exists F, C, c, s, (x :: D), PC'.
  - destruct Hs as (F & C & c & s & D & PC & Hi). cbn [spec_op] in Hsp.
    destruct (a_held S !! k) as [[n []]|] eqn:Ek; [|done|done]. case_bool_decide as Hbs; [|done]. injection Hsp as <- <-.
    destruct (held_bytes _ _ _ _ _ _ _ _ _ _ _ _ _ _ k n true Hi Ek) as (x & h & b0 & Hx & _ & Hh & Hb & Hd).
    pose proof (i_len _ _ _ _ _ _ _ _ _ _ _ _ _ _ Hi _ _ Hd) as Hl.
    unfold exec. rewrite Hx. unfold deref, mbind, result_bind. rewrite Hh, Hb. rewrite (proj2 (Nat.ltb_ge _ _)) by lia.
    assert (wr b0 0 bs = bs) as ->.
    { unfold wr. rewrite take_0. simpl. rewrite drop_ge by lia. apply app_nil_r. }
    do 3 eexists. split; [done|]. exists F, C, c, s, D, PC.
    by apply (store_inv _ _ _ _ _ _ _ _ _ _ _ _ _ _ k x n h bs Hi Ek Hx Hh).
  - destruct Hs as (F & C & c & s & D & PC & Hi). cbn [spec_op] in Hsp.
    destruct (a_held S !! k) as [[n b]|] eqn:Ek; [|done].
    destruct (i_held _ _ _ _ _ _ _ _ _ _ _ _ _ _ Hi _ _ _ Ek) as (x & Hx & [_ Hn _ _]). cbn [exec]. rewrite Hx. cbn.
    destruct (1 <? n) eqn:En.
    + injection Hsp as <- <-. apply Z.ltb_lt in En.
      destruct (pagerUnref_some _ _ _ _ _ _ _ _ _ _ _ _ _ _ k x n b Hi Ek En Hx) as (w' & Hrun & Hi').
      rewrite Hrun. exists E, w', d. split; [done|]. by exists F, C, c, s, D, PC.
    + apply Z.ltb_ge in En. assert (n = 1) as -> by lia. destruct b; [done|]. injection Hsp as <- <-.
      destruct (pagerUnref_last _ _ _ _ _ _ _ _ _ _ _ _ _ _ k x Hi Ek Hx) as (w' & s' & Hrun & Hi').
      rewrite Hrun. exists E, w', d. split; [done|]. by exists F, C, c, s', D, PC.
  - destruct Hs as (F & C & c & s & D & PC & Hi). cbn [spec_op] in Hsp. injection Hsp as <- <-.
    destruct (pagerCommit_run _ _ _ _ _ _ _ _ _ _ _ _ _ _ Hi) as (w' & d' & PC' & Hrun & Hi').
    cbn [exec]. rewrite Hrun. exists E, w', d'. split; [done|]. by exists F, C, c, s, [], PC'.
Qed.

Lemma ops_sim os P dsc N mx E w S d outs S' :
  sim P dsc N mx E w S d → spec_all N mx os S = Some (outs, S') →
  ∃ E' w' d', exec_all P os (E, w) = Ok (outs, (E', w')) ∧ sim P dsc N mx E' w' S' d'.
Proof.
  revert E w S d outs. induction os as [|o os IH]; intros E w S d outs Hs Hsp; cbn [spec_all] in Hsp.
  - injection Hsp as <- <-. by exists E, w, d.
  - destruct (spec_op N mx o S) as [[r S1]|] eqn:E1; [|done].
    destruct (spec_all N mx os S1) as [[rs S2]|] eqn:E2; [|done]. injection Hsp as <- <-.
    destruct (op_sim _ _ _ _ _ _ _ _ _ _ _ Hs E1) as (E' & w' & d' & Hrun & Hs').
    destruct (IH _ _ _ _ _ Hs' E2) as (E'' & w'' & d'' & Hrun' & Hs'').
    exists E'', w'', d''. split; [|done]. cbn [exec_all]. rewrite Hrun. cbn. by rewrite Hrun'.
Qed.

(** ** Opening *)

(** The pages of a file. *)
Definition file_pages (N : Z) (d : list Z) : gmap Z (list Z) :=
  list_to_map ((λ k, (k, fpage d k)) <$> seqZ 1 N).

Lemma file_pages_lookup N d k b :
  file_pages N d !! k = Some b ↔ 1 ≤ k ≤ N ∧ b = fpage d k.
Proof.
  unfold file_pages. rewrite <-elem_of_list_to_map.
  - rewrite list_elem_of_fmap. setoid_rewrite elem_of_seqZ. split.
    + intros (k' & [= -> ->] & ?). split; [lia|done].
    + intros [? ->]. exists k. split; [done|lia].
  - rewrite <-list_fmap_compose. rewrite (list_fmap_ext _ id); [|done]. rewrite list_fmap_id. apply NoDup_seqZ.
Qed.

(** Where [pagerOpen] puts the file and the page cache, and the state in which it creates the
    cache. *)
Definition fd_of w name : Z := brk w + 32 + (Z.of_nat (String.length name) + 1).
Definition pcache_at w name : Z := fd_of w name + 32.
Definition before_create w name k' dsc : World K :=
  let w1 := set_ufiles (set_pagers (set_brk w (brk w + (32 + Z.of_nat (String.length name) + 1 + 32 + 40))) (<[brk w := mkPager (fill w) (Some name) (fd_of w name) (pcache_at w name)]> (pagers w)))
              (<[fd_of w name := junk_file w]> (ufiles w)) in
  set_caches (opened w1 k' (fd_of w name) dsc name) (<[pcache_at w name := mkPCache 0 0 0 2048 0 0]> (caches w)).

Lemma before_create_wf w name k' dsc : heap_wf w → heap_wf (before_create w name k' dsc).
Proof.
  intros [Hb0 Hwf]. split; [simpl; lia|]. intros a Ha. simpl in Ha. destruct (Hwf a) as (? & ? & ? & ? & ? & ?); [lia|].
  simpl. unfold pcache_at, fd_of. rewrite !lookup_insert_ne by lia. done.
Qed.

(** Opening, whatever the fresh memory holds, up to the creation of the cache. *)
Lemma open_run w l name flags dsc k' c w4 :
  heap_wf w → registered w = true → open_files w l → ¬ is_open w l name →
  name ≠ ""%string → brk w + 2 * Z.of_nat (String.length name) + 9000000 ≤ lim w →
  sys_open name flags SQL_DEFAULT_FILE_CREATE_MODE (kern w) = (dsc, k') → 0 ≤ dsc →
  xCreate 2048 sizeof_PgHdr MAX_PAGES_IN_CACHE (before_create w name k' dsc) = Ok (c, w4) → c ≠ 0 → caches w4 !! pcache_at w name = Some (mkPCache 0 0 0 2048 0 0) →
  pagerOpen UNIX_OS_ADDR (Some name) 0 flags w = Ok ((SQL_OK, Some (brk w)), set_caches w4 (<[pcache_at w name := mkPCache 0 0 0 2048 0 c]> (caches w4))).
Proof.
  intros [Hb0 Hwf] Hreg Hl Hno Hname Hlim Hsys Hdsc Hcr Hc0 HC4. unfold before_create in Hcr. unfold pcache_at in *.
  set (len := Z.of_nat (String.length name)) in *. assert (0 ≤ len) by (unfold len; lia).
  set (P := brk w) in *. set (F := fd_of w name) in *. assert (F = P + 32 + (len + 1)) as HF by done. set (C := F + 32) in *.
  set (B1 := P + (32 + len + 1 + 32 + 40)) in *.
  set (pagers1 := <[P := mkPager (fill w) (Some name) F C]> (pagers w)) in *.
  set (junk := junk_file w) in *.
  set (w1 := set_ufiles (set_pagers (set_brk w B1) pagers1) (<[F := junk]> (ufiles w))) in *.
  assert (F ∉ l) as HFl.
  { intros Hin. destruct Hl as (Hc & _). destruct (uf_next_alloc w F) as [f Hf]; [by eapply chain_next|].
    destruct (Hwf F) as (_ & _ & _ & _ & _ & ?); [unfold P in *; lia|]. congruence. }
  assert (open_files w1 l) as Hl1 by (exact (open_files_free w l F junk Hl HFl)).
  assert (¬ is_open w1 l name) as Hno1.
  { intros (a & Ha & Hn). apply Hno. exists a. split; [done|]. unfold name_of in *. simpl in Hn.
    rewrite lookup_insert_ne in Hn by set_solver. done. }
  destruct (unixOpen_free w1 l UNIX_OS_ADDR name F flags dsc k' junk) as (w2 & Hop & _ & Hop2);
    [done|done|unfold P in *; lia|done|done|simpl; unfold B1, P in *; lia|simpl; unfold B1, P, len in *; lia|simpl; by rewrite lookup_insert_eq|done|].
  rewrite (proj2 (Z.ltb_ge _ _)) in Hop, Hop2 by done. destruct Hop2 as [_ ->].
  set (w2 := opened w1 k' F dsc name) in *.
  set (w3 := set_caches w2 (<[C := mkPCache 0 0 0 2048 0 0]> (caches w))) in *.
  unfold pagerOpen. destruct name as [|ch name0]; [done|]. cbv iota beta. set (name := String ch name0) in *.
  rewrite (bind_lift (vfs_at UNIX_OS_ADDR) _ w UNIX_OS eq_refl).
  rewrite (bind_ok _ _ w P (set_brk w B1)); cycle 1.
  { unfold malloc. change (sz_file UNIX_OS) with 32. change pcacheSize with 40. unfold sizeof_Pager. fold len.
    rewrite Z.max_r by lia. rewrite (proj2 (Z.leb_le _ _)) by (fold P; lia). done. }
  zneq P 0. change (sz_file UNIX_OS) with 32. unfold sizeof_Pager. fold len. rewrite <-HF. fold C.
  rewrite bind_modify. change (fill (set_brk w B1)) with (fill w).
  fold pagers1. rewrite bind_modify.
  change (junk_file (set_pagers (set_brk w B1) pagers1)) with junk.
  change (ufiles (set_pagers (set_brk w B1) pagers1)) with (ufiles w). fold w1.
  rewrite (bind_ok _ _ w1 SQL_OK w2) by exact Hop. change (SQL_OK =? SQL_ERROR) with false. cbn iota.
  erewrite (bind_ok _ _ w2 SQL_OK); [done|]. unfold pcacheOpen. zneq C 0.
  rewrite bind_modify. change (caches w2) with (caches w). fold w3.
  unfold _pcacheSetPageSize. rewrite (bind_ok _ _ _ _ _ (cache_run w3 C (mkPCache 0 0 0 2048 0 0) ltac:(simpl; by rewrite lookup_insert_eq))).
  rewrite (bind_lift _ _ w3 tt eq_refl). cbn [sz_page].
  change (2048 =? 0) with false. cbn iota. rewrite (bind_ok _ _ w3 c w4) by (by rewrite plug_run). zneq c 0.
  by rewrite (bind_ok _ _ _ _ _ (cache_upd_run w4 C _ (with_plugin c 2048) HC4)).
Qed.

Lemma open_sim w l name flags dsc k' d N :
  heap_wf w → fill w = 0 → registered w = true → open_files w l → ¬ is_open w l name →
  name ≠ ""%string → brk w + 2 * Z.of_nat (String.length name) + 9000000 ≤ lim w →
  sys_open name flags SQL_DEFAULT_FILE_CREATE_MODE (kern w) = (dsc, k') → 0 ≤ dsc →
  data_of k' dsc = Some d → 0 ≤ N ≤ 2 ^ 20 → N * 2048 ≤ Z.of_nat (length d) →
  room k' dsc (N * 2048) →
  ∃ P w', pagerOpen UNIX_OS_ADDR (Some name) 0 flags w = Ok ((SQL_OK, Some P), w') ∧
    sim P dsc N MAX_PAGES_IN_CACHE ∅ w' (mkA (file_pages N d) ∅) d.
Proof.
  intros Hwf Hfill Hreg Hl Hno Hname Hlim Hsys Hdsc Hd HN Hlen Hroom. pose proof (before_create_wf w name k' dsc Hwf) as Hwf3. set (w3 := before_create w name k' dsc) in *.
  set (len := Z.of_nat (String.length name)) in *. assert (0 ≤ len) by (unfold len; lia). pose proof (proj1 Hwf) as Hb0.
  destruct (create_law w3 2048 MAX_PAGES_IN_CACHE Hwf3) as (c & w4 & Hcr & Hc0 & Hat & Hin & Hh4 & Hb4 & Hbrk4 & Hwf4);
    [done|done|done|simpl; fold len; lia|].
  assert (caches w4 !! pcache_at w name = Some (mkPCache 0 0 0 2048 0 0)) as HC4.
  { rewrite (in_caches _ _ Hin). simpl. by rewrite lookup_insert_eq. }
  exists (brk w). eexists. split; [by eapply (open_run w l name flags dsc k' c w4)|].
  set (P := brk w) in *. set (F := fd_of w name). set (C := pcache_at w name) in *. set (PC := mkPCache 0 0 0 2048 0 c).
  exists F, C, c, (mkSpec 2048 MAX_PAGES_IN_CACHE ∅ []), [], PC. split; try done.
    + split; try done.
      * simpl. rewrite (in_reg _ _ Hin). done.
      * split; [apply Hwf4|]. intros a Ha. simpl in *. destruct Hwf4 as [Hb4' Hwf4].
        destruct (Hwf4 a Ha) as (? & ? & ? & ? & ? & ?). split_and!; try done.
        rewrite lookup_insert_ne; [done|]. congruence.
      * exists (fill w), (Some name). simpl. rewrite (in_pagers _ _ Hin). simpl. by rewrite lookup_insert_eq.
      * unfold F, fd_of. lia.
      * exists (mkUnixFile UNIX_METHODS_ADDR dsc (Some name) (head w)). simpl. rewrite (in_ufiles _ _ Hin). simpl.
        by rewrite lookup_insert_eq.
      * simpl. by rewrite (in_kern _ _ Hin).
      * simpl. by rewrite (in_kern _ _ Hin).
      * simpl. by rewrite lookup_insert_eq.
    + eapply cache_frame; [exact Hat|done|done|]. by apply grows_same.
    + intros k. simpl. rewrite !lookup_empty. done.
    + intros k. split.
      * intros [b Hb]. by apply file_pages_lookup in Hb as [? _].
      * intros Hk. exists (fpage d k). by apply file_pages_lookup.
    + intros k b Hb. apply file_pages_lookup in Hb as [Hk ->]. by eapply fpage_length.
    + intros p Hp. by apply not_elem_of_nil in Hp.
    + intros k b Hb _. by apply file_pages_lookup in Hb as [_ ->].
    + intros x Hx. by apply not_elem_of_nil in Hx.
    + unfold heap_room. cbn [cs_pages cs_max cs_lru]. rewrite map_size_empty. simpl. rewrite (in_lim _ _ Hin). simpl.
      unfold blk, sizeof_PgHdr, sizeof_PgHdr1, MAX_PAGES_IN_CACHE. simpl. simpl in Hbrk4. fold len in Hbrk4. fold P in Hbrk4. lia.
Qed.

End sim.

(** ** A concrete process: one database file of two pages, page 1 all 7 and page 2 all 9 *)

Definition db_bytes : list Z := replicate 2048 7 ++ replicate 2048 9.
Definition fs0 : memfs := mkFs {["db" := db_bytes]} ∅ 3.
Definition world_with (f : Z) : World memfs := mkWorld fs0 0 true ∅ ∅ ∅ ∅ ∅ ∅ ∅ 4096 (2 ^ 40) f.
Definition world0 : World memfs := world_with 0.

Lemma world0_wf f : heap_wf (world_with f).
Proof. split; [done|]. intros a _. simpl. by rewrite !lookup_empty. Qed.

Lemma no_files {K} (w : World K) : head w = 0 → open_files w [].
Proof. intros Hw. split_and!; [by rewrite Hw|intros a Ha|intros a b Ha]; by apply not_elem_of_nil in Ha. Qed.

Lemma none_open {K} (w : World K) name : ¬ is_open w [] name.
Proof. intros (a & Ha & _). by apply not_elem_of_nil in Ha. Qed.

(** What [osGetVFS("unix")] and [pagerOpen] with the given extra size and flags do there, and
    a client session after it. *)
Definition session (w : World memfs) (sze : Z) (os : list op) : result (list (option (list Z))) :=
  match pagerOpen (osGetVFS "unix") (Some "db"%string) sze 2 w with
  | Ok ((_, Some P), w) => match exec_all P os (∅, w) with Ok (outs, _) => Ok outs | Err e => Err e end
  | Ok ((_, None), _) => Err FUndef
  | Err e => Err e
  end.

Definition store_ops : list op :=
  [OGet 1; OWrite 1; OStore 1 (replicate 2048 65); OCommit; OUnref 1; OGet 2; OUnref 2; OGet 1].

(** ** Properties *)

(** The chains of a new cache start with what malloc's memory held: a wild pointer, followed by the
    first lookup. *)
Lemma created_get {K} (w : World K) szp mx k :
  fill w ≠ 0 → pages1 w !! fill w = None → 0 ≤ k → ∀ w' : World K, caches1 w' = caches1 (created w szp mx) → pages1 w' = pages1 w → fill w' = fill w → _pcache1Get (brk w) k w' = Err FUndef.
Proof.
  intros Hf Hp Hk w' Hc Hpg Hf'. unfold _pcache1Get, lookup. unfold mbind at 1, M_bind at 1.
  erewrite (bind_ok (cache1 (brk w))); [|apply cache1_run; rewrite Hc; apply lookup_insert_eq].
  erewrite (bind_ok (slot _ _)) by (apply slot_run; done).
  erewrite (bind_ok (at_slot _ _)); cycle 1.
  { apply at_slot_run. apply lookup_replicate_2. pose proof (Z.mod_pos_bound k 256). simpl. lia. }
  rewrite bind_get. unfold mbind, M_bind, lift.
  destruct (size (pages1 w')); cbn [scan]; zneq (fill w) 0; unfold has_key; simpl; by rewrite Hpg, Hp.
Qed.

Lemma open_wild {K} `{PosixLaws K} (w : World K) l name flags dsc k' :
  heap_wf w → fill w ≠ 0 → pages1 w !! fill w = None → registered w = true → open_files w l → ¬ is_open w l name →
  name ≠ ""%string → brk w + 2 * Z.of_nat (String.length name) + 9000000 ≤ lim w →
  sys_open name flags SQL_DEFAULT_FILE_CREATE_MODE (kern w) = (dsc, k') → 0 ≤ dsc →
  ∃ P w', pagerOpen UNIX_OS_ADDR (Some name) 0 flags w = Ok ((SQL_OK, Some P), w') ∧
    ∀ k os, 0 ≤ k → exec_all P (OGet k :: os) (∅, w') = Err FUndef.
Proof.
  intros Hwf Hf Hp Hreg Hl Hno Hname Hlim Hsys Hdsc. pose proof (proj1 Hwf) as Hb0. set (w3 := before_create w name k' dsc).
  assert (xCreate 2048 sizeof_PgHdr MAX_PAGES_IN_CACHE w3 = Ok (brk w3, created w3 2048 MAX_PAGES_IN_CACHE)) as Hcr by (apply create_run; simpl; lia).
  set (C := pcache_at w name). set (w4 := created w3 2048 MAX_PAGES_IN_CACHE) in *. set (w5 := set_caches w4 (<[C := mkPCache 0 0 0 2048 0 (brk w3)]> (caches w4))). exists (brk w), w5. split.
  { eapply (open_run w l name flags dsc k' (brk w3)); try done; [simpl; lia|]. simpl. by rewrite lookup_insert_eq. }
  intros k os Hk. assert (pagerGet (brk w) k w5 = Err FUndef) as Hget; [|cbn [exec_all exec]; unfold mbind, result_bind; by rewrite Hget]. unfold pagerGet.
  assert (pager_at (brk w) w5 = Ok (mkPager (fill w) (Some name) (fd_of w name) C, w5)) as Hat by (unfold pager_at; rewrite bind_get; unfold lift; simpl; by rewrite lookup_insert_eq).
  rewrite (bind_ok _ _ _ _ _ Hat). cbn [pager_pcache]. unfold pcacheGet, mbind at 1, M_bind at 1.
  rewrite (bind_ok _ _ _ _ _ (cache_run w5 C (mkPCache 0 0 0 2048 0 (brk w3)) ltac:(simpl; by rewrite lookup_insert_eq))). cbn [plugin].
  unfold mbind, M_bind. rewrite plug_run by done. unfold xGet, pcache1_methods. by rewrite (created_get w3 2048 MAX_PAGES_IN_CACHE k).
Qed.

(** C2. A database of [N] pages is opened, with no extra bytes for each page ([sze] is 0), at most
    2^20 pages, by a kernel that lets the file be opened, read and written, with room on the heap
    for the whole cache.  Opening succeeds, and what follows depends on what the memory that
    malloc returned for the cache's table holds, which [_pcache1ResizeHash] uses uncleared:
    - when it reads as zero, every session that follows the protocol (get a page before using it,
      mark it dirty before storing into it, commit before dropping the last reference) runs to the
      end, and each [pagerGet] delivers exactly the page the specification holds: the file's
      bytes, or what was last stored, whatever was cached, released, reused or written back in
      between;
    - when it reads as anything else that is not a page of the cache, the first [pagerGet] follows
      a wild pointer. *)
Theorem pager_session_refines {K} `{PosixLaws K} (w : World K) l name flags dsc k' d N :
  heap_wf w → registered w = true → open_files w l → ¬ is_open w l name →
  name ≠ ""%string → brk w + 2 * Z.of_nat (String.length name) + 9000000 ≤ lim w →
  sys_open name flags SQL_DEFAULT_FILE_CREATE_MODE (kern w) = (dsc, k') → 0 ≤ dsc →
  data_of k' dsc = Some d → 0 ≤ N ≤ 2 ^ 20 → N * 2048 ≤ Z.of_nat (length d) →
  room k' dsc (N * 2048) →
  (fill w = 0 → ∃ P w1, pagerOpen UNIX_OS_ADDR (Some name) 0 flags w = Ok ((SQL_OK, Some P), w1) ∧
    ∀ os outs S', spec_all N MAX_PAGES_IN_CACHE os (mkA (file_pages N d) ∅) = Some (outs, S') →
      ∃ E w' d', exec_all P os (∅, w1) = Ok (outs, (E, w')) ∧ sim P dsc N MAX_PAGES_IN_CACHE E w' S' d') ∧
  (fill w ≠ 0 → pages1 w !! fill w = None → ∃ P w1, pagerOpen UNIX_OS_ADDR (Some name) 0 flags w = Ok ((SQL_OK, Some P), w1) ∧
    ∀ k os, 0 ≤ k → exec_all P (OGet k :: os) (∅, w1) = Err FUndef).
Proof.
  intros Hwf Hreg Hl Hno Hname Hlim Hsys Hdsc Hd HN Hlen Hroom. split.
  - intros Hf. destruct (open_sim w l name flags dsc k' d N) as (P & w1 & Hop & Hs); [done..|]. exists P, w1. split; [done|]. intros os outs S' Hsp. exact (ops_sim _ _ _ _ _ _ _ _ _ _ _ Hs Hsp).
  - intros Hf Hp. by apply (open_wild w l name flags dsc k').
Qed.

(** The memory reads as zero, and a page is stored, committed, dropped and read again; it reads as
    77, and the first page that is asked for is not found. *)
Lemma pager_session_refines_witness :
  (∃ outs S', spec_all 2 MAX_PAGES_IN_CACHE store_ops (mkA (file_pages 2 db_bytes) ∅) = Some (outs, S') ∧
    ∃ P w1 E w' d', pagerOpen UNIX_OS_ADDR (Some "db"%string) 0 2 world0 = Ok ((SQL_OK, Some P), w1) ∧
      exec_all P store_ops (∅, w1) = Ok (outs, (E, w')) ∧ sim P 3 2 MAX_PAGES_IN_CACHE E w' S' d') ∧
  (∃ P w1, pagerOpen UNIX_OS_ADDR (Some "db"%string) 0 2 (world_with 77) = Ok ((SQL_OK, Some P), w1) ∧ exec_all P [OGet 1] (∅, w1) = Err FUndef).
Proof.
  pose proof (λ f, pager_session_refines (world_with f) [] "db" 2 3 (mkFs {["db" := db_bytes]} {[3 := ("db"%string, 0)]} 4) db_bytes 2
    (world0_wf f) eq_refl (no_files (world_with f) eq_refl) (none_open (world_with f) "db") ltac:(discriminate) ltac:(vm_compute; discriminate) ltac:(vm_compute; reflexivity) ltac:(lia)
    ltac:(vm_compute; reflexivity) ltac:(lia) ltac:(vm_compute; discriminate) I) as Hs. split.
  - destruct (spec_all 2 MAX_PAGES_IN_CACHE store_ops (mkA (file_pages 2 db_bytes) ∅)) as [[outs S']|] eqn:E; [|vm_compute in E; discriminate].
    exists outs, S'. split; [reflexivity|]. destruct (proj1 (Hs 0) eq_refl) as (P & w1 & Hop & Hrun). destruct (Hrun store_ops outs S' E) as (E' & w' & d' & H1 & H2). exists P, w1, E', w', d'. split; [exact Hop|]. split; [exact H1|exact H2].
  - destruct (proj2 (Hs 77) ltac:(discriminate) eq_refl) as (P & w1 & Hop & Hrun). exists P, w1. split; [exact Hop|]. apply (Hrun 1 []). lia.
Defined.

(** C24. After a commit the database file holds every page as the client last saw it: each dirty
    page was written at its own offset, no other page of the file was touched, every page is
    clean again, and the loop over the dirty list ends. *)
Theorem commit_durable {K} `{PosixLaws K} `{PCacheLaws K} (w : World K) P dsc N mx E S d :
  sim P dsc N mx E w S d →
  ∃ w' d', pagerCommit P w = Ok (SQL_OK, w') ∧ data_of (kern w') dsc = Some d' ∧
    (∀ k b, a_data S !! k = Some b → fpage d' k = b) ∧
    sim P dsc N mx E w' (mkA (a_data S) (clean_all (a_held S))) d'.
Proof.
  intros (F & C & c & s & D & PC & Hi).
  destruct (pagerCommit_run _ _ _ _ _ _ _ _ _ _ _ _ _ _ Hi) as (w' & d' & PC' & Hrun & Hi').
  exists w', d'. split_and!; [done|apply Hi'| |by exists F, C, c, s, [], PC'].
  intros k b Hb. apply (i_clean _ _ _ _ _ _ _ _ _ _ _ _ _ _ Hi'); [done|].
  simpl. intros n. unfold clean_all. rewrite lookup_fmap. by destruct (a_held S !! k).
Qed.

(** Page 1 is changed and not yet written when the commit is called. *)
Definition dirty_ops : list op := [OGet 1; OWrite 1; OStore 1 (replicate 2048 65)].

Lemma dirty_spec : ∃ outs S', spec_all 2 MAX_PAGES_IN_CACHE dirty_ops (mkA (file_pages 2 db_bytes) ∅) = Some (outs, S') ∧
  a_data S' !! 1 = Some (replicate 2048 65).
Proof.
  assert (match spec_all 2 MAX_PAGES_IN_CACHE dirty_ops (mkA (file_pages 2 db_bytes) ∅) with Some (_, T) => a_data T !! 1 | None => None end =
    Some (replicate 2048 65)) as E by (vm_compute; reflexivity).
  destruct (spec_all 2 MAX_PAGES_IN_CACHE dirty_ops (mkA (file_pages 2 db_bytes) ∅)) as [[outs S']|]; [|discriminate E]. exact (ex_intro _ outs (ex_intro _ S' (conj eq_refl E))).
Qed.

Lemma commit_durable_witness :
  ∃ P w1 outs E w2 w' d', pagerOpen UNIX_OS_ADDR (Some "db"%string) 0 2 world0 = Ok ((SQL_OK, Some P), w1) ∧
    exec_all P dirty_ops (∅, w1) = Ok (outs, (E, w2)) ∧
    pagerCommit P w2 = Ok (SQL_OK, w') ∧ data_of (kern w') 3 = Some d' ∧ fpage d' 1 = replicate 2048 65.
Proof.
  destruct (open_sim world0 [] "db" 2 3 (mkFs {["db" := db_bytes]} {[3 := ("db"%string, 0)]} 4) db_bytes 2)
    as (P & w1 & Hop & Hs).
  - apply world0_wf.
  - reflexivity.
  - reflexivity.
  - apply no_files. reflexivity.
  - apply none_open.
  - discriminate.
  - vm_compute. discriminate.
  - vm_compute. reflexivity.
  - lia.
  - vm_compute. reflexivity.
  - lia.
  - vm_compute. discriminate.
  - exact I.
  - destruct dirty_spec as (outs & S' & Hsp & Hd). destruct (ops_sim _ _ _ _ _ _ _ _ _ _ _ Hs Hsp) as (E & w2 & d2 & Hrun & Hs2).
    destruct (commit_durable w2 P 3 2 MAX_PAGES_IN_CACHE E S' d2 Hs2) as (w' & d' & H1 & H2 & H3 & _).
    exists P, w1, outs, E, w2, w', d'. exact (conj Hop (conj Hrun (conj H1 (conj H2 (H3 1 _ Hd))))).
Defined.

(** [_pcache1Fetch] on every branch: a page in the table is returned and nothing changes; a
    page that is not takes over the released page at the head of the list, or a newly
    allocated one, or, when the table holds [mx_pages] pages and none is released, NULL with
    nothing changed.  The table and the list of released pages stay well formed, so at most
    [mx_pages] pages are ever allocated. *)
Theorem pcache1_fetch_refines {K} (w : World K) c s k :
  cache1_at w c s → 0 ≤ k → heap_wf w → brk w + blk s ≤ lim w →
  ∃ p w', _pcache1Fetch c k w = Ok (p, w') ∧
    match cs_pages s !! k, cs_lru s with
    | Some q, _ => p = q ∧ w' = w
    | None, q :: l => p = q ∧ cache1_at w' c (with_pages (<[k := p]> (cs_pages s)) (with_lru l s))
    | None, [] =>
        if Z.of_nat (size (cs_pages s)) <? cs_max s
        then ¬ owns s p ∧ cache1_at w' c (with_pages (<[k := p]> (cs_pages s)) s)
        else p = 0 ∧ w' = w
    end.
Proof.
  intros Hat Hk Hwf Hlim. destruct (cs_pages s !! k) as [q|] eqn:Ek.
  - exists q, w. split; [|done]. exact (fetch_hit w c s k q Hat Hk Ek).
  - destruct (cs_lru s) as [|q l] eqn:El.
    + destruct (Z.ltb_spec (Z.of_nat (size (cs_pages s))) (cs_max s)) as [Hlt|Hge].
      * destruct (fetch_new1 w c s k) as (p & pg & w' & Hrun & Hin & Hr); [done..|].
        exists p, w'. split; [done|]. naive_solver.
      * exists 0, w. split; [|done]. by apply (fetch_full1 w c s k).
    + destruct (fetch_reuse1 w c s k q l) as (w' & Hrun & _ & Hat'); [done..|]. by exists q, w'.
Qed.

(** The cache that [_pcache1Create] makes in the concrete process. *)
Lemma created0 : ∃ c w', _pcache1Create 2048 sizeof_PgHdr 4096 world0 = Ok (c, w') ∧
  cache1_at w' c (mkSpec 2048 4096 ∅ []) ∧ heap_wf w' ∧ brk w' + 4224 ≤ lim w'.
Proof.
  destruct (create1 world0 2048 4096) as (c & w' & Hrun & _ & Hat & Hin & _ & _ & Hb & Hwf);
    [apply world0_wf|done|done|done|by vm_compute|].
  exists c, w'. split_and!; [done|done|done|]. rewrite (in_lim _ _ Hin). simpl in *. lia.
Qed.

Lemma pcache1_fetch_refines_witness :
  ∃ c w1 p w', _pcache1Create 2048 sizeof_PgHdr 4096 world0 = Ok (c, w1) ∧
    _pcache1Fetch c 5 w1 = Ok (p, w') ∧ cache1_at w' c (mkSpec 2048 4096 {[5 := p]} []).
Proof.
  destruct created0 as (c & w1 & Hcr & Hat & Hwf & Hlim).
  destruct (pcache1_fetch_refines w1 c (mkSpec 2048 4096 ∅ []) 5) as (p & w' & Hrun & Hs).
  - exact Hat.
  - lia.
  - exact Hwf.
  - unfold blk, sizeof_PgHdr, sizeof_PgHdr1. simpl. lia.
  - exists c, w1, p, w'. split; [exact Hcr|]. split; [exact Hrun|]. apply (proj2 Hs).
Defined.

(** The list called LRU is a stack: the page released last is the first to be reused for
    another page number, so the content most recently used is the first to be evicted. *)
Theorem pcache1_reuses_last_released {K} (w : World K) c s k p k2 :
  cache1_at w c s → cs_pages s !! k = Some p → cs_pages s !! k2 = None → 0 ≤ k2 →
  ∃ w1 w2, _pcache1Unpin p w = Ok (tt, w1) ∧ _pcache1Get c k w1 = Ok (0, w1) ∧
    _pcache1Fetch c k2 w1 = Ok (p, w2) ∧
    cache1_at w2 c (with_pages (<[k2 := p]> (delete k (cs_pages s))) s).
Proof.
  intros Hat Hk Hk2 H0. destruct (unpin1 w c s k p Hat Hk) as (w1 & Hun & _ & Hat1).
  assert (delete k (cs_pages s) !! k2 = None) as Hd2.
  { rewrite lookup_delete_ne; [done|]. intros ->. congruence. }
  destruct (fetch_reuse1 w1 c _ k2 p (cs_lru s) Hat1 H0 Hd2 eq_refl) as (w2 & Hf & _ & Hat2).
  exists w1, w2. split_and!; [done| |done|exact Hat2].
  pose proof Hat as [C HC]. destruct (cr_keys _ _ _ _ HC _ _ Hk) as [Hk0 _].
  destruct Hat1 as [C1 HC1]. unfold _pcache1Get. mstep (lookup_run _ _ _ _ _ HC1 Hk0).
  simpl. by rewrite lookup_delete_eq.
Qed.

Lemma pcache1_reuses_last_released_witness :
  ∃ c w1 p w2 w3 w4, _pcache1Create 2048 sizeof_PgHdr 4096 world0 = Ok (c, w1) ∧
    _pcache1Fetch c 5 w1 = Ok (p, w2) ∧ _pcache1Unpin p w2 = Ok (tt, w3) ∧
    _pcache1Fetch c 6 w3 = Ok (p, w4).
Proof.
  destruct created0 as (c & w1 & Hcr & Hat & Hwf & Hlim).
  destruct (fetch_new1 w1 c (mkSpec 2048 4096 ∅ []) 5) as (p & pg & w2 & Hf & Hrest);
    [exact Hat|lia|reflexivity|reflexivity|reflexivity|exact Hwf|unfold blk, sizeof_PgHdr, sizeof_PgHdr1; simpl; lia|].
  destruct (pcache1_reuses_last_released w2 c (mkSpec 2048 4096 (<[5 := p]> ∅) []) 5 p 6) as (w3 & w4 & Hu & _ & Hf2 & _).
  - apply Hrest.
  - reflexivity.
  - reflexivity.
  - lia.
  - exists c, w1, p, w2, w3, w4. auto.
Defined.

(** C19. No two open files share a name: [unixOpen] refuses a name that is open and changes
    nothing; otherwise the handle joins the list exactly when the kernel opens the file, and
    the names in the list stay distinct. *)
Theorem unixOpen_exclusive {K} `{Posix K} (w : World K) l vfs name ret flags d k' f :
  open_files w l → ret ≠ 0 → vfs ≠ 0 → ret ∉ l → 0 < brk w →
  brk w + (Z.of_nat (String.length name) + 1) ≤ lim w → ufiles w !! ret = Some f →
  sys_open name flags SQL_DEFAULT_FILE_CREATE_MODE (kern w) = (d, k') →
  (is_open w l name → unixOpen vfs (Some name) ret flags w = Ok (SQL_ERROR, w)) ∧
  (¬ is_open w l name → ∃ w',
    unixOpen vfs (Some name) ret flags w = Ok (if d <? 0 then SQL_ERROR else SQL_OK, w') ∧
    open_files w' (if d <? 0 then l else ret :: l)).
Proof.
  intros Hl Hr Hv Hrl Hb Hlim Hf Hsys. split.
  - intros Ho. by eapply unixOpen_busy.
  - intros Hno. destruct (unixOpen_free w l vfs name ret flags d k' f) as (w' & Hrun & _ & Hw'); [done..|].
    exists w'. split; [done|]. destruct (d <? 0); [done|apply Hw'].
Qed.

Definition world1 : World memfs := set_ufiles world0 {[100 := junk_file world0]}.

Lemma unixOpen_exclusive_witness :
  ∃ w', unixOpen UNIX_OS_ADDR (Some "db"%string) 100 2 world1 = Ok (SQL_OK, w') ∧ open_files w' [100].
Proof.
  apply (proj2 (unixOpen_exclusive world1 [] UNIX_OS_ADDR "db" 100 2 3
    (mkFs {["db" := db_bytes]} {[3 := ("db"%string, 0)]} 4) (junk_file world0)
    (no_files world1 eq_refl) ltac:(discriminate) ltac:(discriminate) (not_elem_of_nil 100)
    ltac:(reflexivity) ltac:(vm_compute; discriminate) ltac:(reflexivity) ltac:(vm_compute; reflexivity))).
  apply none_open.
Defined.

(** [unixClose] unlinks exactly the given file, wherever it is in the list, hands its
    descriptor to [close] and returns its result; closing a handle that is not in the list
    returns an error and changes nothing. *)
Theorem unixClose_unlinks {K} `{Posix K} (w : World K) l1 a l2 f r k' b :
  open_files w (l1 ++ a :: l2) → ufiles w !! a = Some f → sys_close (fd f) (kern w) = (r, k') →
  b ∉ l1 ++ a :: l2 →
  (∃ w', unixClose a w = Ok (r, w') ∧ open_files w' (l1 ++ l2) ∧ kern w' = k') ∧
  unixClose b w = Ok (SQL_ERROR, w).
Proof.
  intros Hl Hf Hsys Hb. split; [|by eapply unixClose_closed].
  destruct (unixClose_open w l1 a l2 f r k') as (w' & ? & ? & ? & _); [done..|]. by exists w'.
Qed.

Lemma unixClose_unlinks_witness :
  ∃ w1 f r k', unixOpen UNIX_OS_ADDR (Some "db"%string) 100 2 world1 = Ok (SQL_OK, w1) ∧
    ufiles w1 !! 100 = Some f ∧ sys_close (fd f) (kern w1) = (r, k') ∧
    (∃ w', unixClose 100 w1 = Ok (r, w') ∧ open_files w' [] ∧ kern w' = k') ∧
    unixClose 200 w1 = Ok (SQL_ERROR, w1).
Proof.
  destruct (unixOpen_free world1 [] UNIX_OS_ADDR "db" 100 2 3
    (mkFs {["db" := db_bytes]} {[3 := ("db"%string, 0)]} 4) (junk_file world0)) as (w1 & Hrun & _ & Hl & ->);
    [apply no_files; reflexivity|apply none_open|discriminate|discriminate|apply not_elem_of_nil|reflexivity|
     vm_compute; discriminate|reflexivity|vm_compute; reflexivity|].
  do 4 eexists. split; [exact Hrun|]. split; [vm_compute; reflexivity|]. split; [vm_compute; reflexivity|].
  apply (unixClose_unlinks _ [] 100 [] (mkUnixFile UNIX_METHODS_ADDR 3 (Some "db"%string) 0)).
  - exact Hl.
  - vm_compute. reflexivity.
  - vm_compute. reflexivity.
  - set_solver.
Defined.

(** Bytes written through the file layer at an offset are read back at that offset, and a
    range of the file that does not overlap reads as before. *)
Theorem osWrite_osRead {K} `{PosixLaws K} (w : World K) file f d buf bs buf2 b2 off off2 :
  ufiles w !! file = Some f → p_methods f = UNIX_METHODS_ADDR → file ≠ 0 → buf2 ≠ 0 →
  data_of (kern w) (fd f) = Some d → bufs w !! buf = Some bs → bufs w !! buf2 = Some b2 →
  length b2 = length bs → 0 ≤ off → off + Z.of_nat (length bs) < 2 ^ 31 →
  0 ≤ off2 → off2 + Z.of_nat (length bs) ≤ Z.of_nat (length d) → off2 < 2 ^ 31 →
  room (kern w) (fd f) (off + Z.of_nat (length bs)) →
  ∃ w1, osWrite file buf (Z.of_nat (length bs)) off w = Ok (Z.of_nat (length bs), w1) ∧
    (∃ w2, osRead file buf2 (Z.of_nat (length bs)) off w1 = Ok (Z.of_nat (length bs), w2) ∧
      bufs w2 !! buf2 = Some bs) ∧
    (off2 + Z.of_nat (length bs) ≤ off ∨ off + Z.of_nat (length bs) ≤ off2 →
     ∃ w2, osRead file buf2 (Z.of_nat (length bs)) off2 w1 = Ok (Z.of_nat (length bs), w2) ∧
      bufs w2 !! buf2 = Some (rd d (Z.to_nat off2) (length bs))).
Proof.
  intros Hf Hm Hfile Hb2 Hd Hbuf Hbuf2 Hlen Ho1 Ho2 Ho3 Ho4 Ho5 Hroom.
  destruct (unixWrite_run w file buf (Z.of_nat (length bs)) off f d bs) as (k1 & Hwr & Hd1 & _); [done|done|done|lia|lia|done|lia|done|].
  rewrite Nat2Z.id, take_ge in Hd1 by lia. exists (set_kern w k1).
  assert (∀ o x, 0 ≤ o < 2 ^ 31 → length x = length bs →
    rd (overwrite d (Z.to_nat off) bs) (Z.to_nat o) (length bs) = x →
    ∃ w2, osRead file buf2 (Z.of_nat (length bs)) o (set_kern w k1) = Ok (Z.of_nat (length bs), w2) ∧
      bufs w2 !! buf2 = Some x) as Hread.
  { intros o x Ho Hx Hrd. destruct (unixRead_run (set_kern w k1) file buf2 (Z.of_nat (length bs)) o f
      (overwrite d (Z.to_nat off) bs) b2) as (k2 & Hr & _); [done|done|done|done|lia|lia|done|rewrite Nat2Z.id, Hrd; lia|].
    rewrite Nat2Z.id, Hrd, Hx in Hr. eexists. split.
    - rewrite osRead_run; [exact Hr|by exists f].
    - simpl. rewrite lookup_insert_eq. f_equal. unfold wr. rewrite take_0. simpl. rewrite drop_ge by lia. apply app_nil_r. }
  split_and!.
  - rewrite osWrite_run; [exact Hwr|by exists f].
  - apply Hread; [lia|done|by apply rd_overwrite_eq].
  - intros Hdisj. apply Hread; [lia|apply length_rd; lia|]. apply rd_overwrite_ne; lia.
Qed.

Definition world2 : World memfs :=
  mkWorld (mkFs {["db" := replicate 12 1]} {[3 := ("db"%string, 0)]} 4) 100 true
    {[100 := mkUnixFile UNIX_METHODS_ADDR 3 (Some "db"%string) 0]} ∅ ∅ ∅ ∅ ∅
    {[8 := [4; 5; 6]; 16 := [0; 0; 0]]} 4096 (2 ^ 40) 0.

Lemma osWrite_osRead_witness :
  ∃ w1, osWrite 100 8 3 2 world2 = Ok (3, w1) ∧
    (∃ w2, osRead 100 16 3 2 w1 = Ok (3, w2) ∧ bufs w2 !! 16 = Some [4; 5; 6]) ∧
    (7 + 3 ≤ 2 ∨ 2 + 3 ≤ 7 →
     ∃ w2, osRead 100 16 3 7 w1 = Ok (3, w2) ∧ bufs w2 !! 16 = Some [1; 1; 1]).
Proof.
  apply (osWrite_osRead world2 100 (mkUnixFile UNIX_METHODS_ADDR 3 (Some "db"%string) 0)
    (replicate 12 1) 8 [4; 5; 6] 16 [0; 0; 0] 2 7); try reflexivity; try discriminate; try (simpl; lia).
Defined.

(** The first [pagerGet] of a page succeeds, hands out the page with the right bytes, and
    returns [SQL_ERROR]; a second one returns [SQL_OK] and the same page. *)
Theorem first_get_returns_error {K} `{PosixLaws K} `{PCacheLaws K} (w : World K) P dsc N mx E S d k :
  sim P dsc N mx E w S d → 1 ≤ k ≤ N → a_held S !! k = None →
  Z.of_nat (size (a_held S)) < mx →
  ∃ x h w1 w2, pagerGet P k w = Ok ((SQL_ERROR, x), w1) ∧ hdrs w1 !! x = Some h ∧
    bufs w1 !! pdata h = a_data S !! k ∧ pagerGet P k w1 = Ok ((SQL_OK, x), w2).
Proof.
  intros (F & C & c & s & D & PC & Hi) Hk Hh Hmx.
  assert (∃ x s' w1, pagerGet P k w = Ok ((SQL_ERROR, x), w1) ∧
    pinv P F C c dsc N mx w1 (mkA (a_data S) (<[k := (1, false)]> (a_held S))) (<[k := x]> E) s' D d PC) as (x & s' & w1 & Hrun & Hi1).
  { pose proof (held_size _ _ _ _ _ _ _ _ _ _ _ _ _ _ Hi) as Hsz. destruct (cs_lru s) as [|p l] eqn:Hl.
    - eapply pagerGet_new; [exact Hi|done|done|done|].
      rewrite (i_max _ _ _ _ _ _ _ _ _ _ _ _ _ _ Hi). lia.
    - eapply pagerGet_reuse; [exact Hi|done|done|exact Hl]. }
  destruct (held_bytes _ _ _ _ _ _ _ _ _ _ _ _ _ _ k 1 false Hi1) as (x' & h & bs & Hx' & _ & Hh' & Hb & Hd);
    [simpl; by rewrite lookup_insert_eq|].
  rewrite lookup_insert_eq in Hx'. injection Hx' as <-.
  destruct (pagerGet_hit _ _ _ _ _ _ _ _ _ _ _ _ _ _ k 1 false Hi1) as (x' & w2 & Hx' & Hrun2 & _);
    [simpl; by rewrite lookup_insert_eq|lia|].
  rewrite lookup_insert_eq in Hx'. injection Hx' as <-.
  exists x, h, w1, w2. split_and!; [done|done| |done]. simpl in Hd. congruence.
Qed.

(** The concrete process after opening the database. *)
Lemma opened0 :
  ∃ P w1, pagerOpen UNIX_OS_ADDR (Some "db"%string) 0 2 world0 = Ok ((SQL_OK, Some P), w1) ∧
    sim P 3 2 MAX_PAGES_IN_CACHE ∅ w1 (mkA (file_pages 2 db_bytes) ∅) db_bytes.
Proof.
  apply (open_sim world0 [] "db" 2 3 (mkFs {["db" := db_bytes]} {[3 := ("db"%string, 0)]} 4) db_bytes 2);
    try done; [by apply no_files|apply none_open].
Qed.

Lemma first_get_returns_error_witness :
  ∃ P w x h w1 w2, pagerOpen UNIX_OS_ADDR (Some "db"%string) 0 2 world0 = Ok ((SQL_OK, Some P), w) ∧
    pagerGet P 1 w = Ok ((SQL_ERROR, x), w1) ∧ hdrs w1 !! x = Some h ∧
    bufs w1 !! pdata h = file_pages 2 db_bytes !! 1 ∧ pagerGet P 1 w1 = Ok ((SQL_OK, x), w2).
Proof.
  destruct opened0 as (P & w & Hop & Hs).
  destruct (first_get_returns_error w P 3 2 MAX_PAGES_IN_CACHE ∅ (mkA (file_pages 2 db_bytes) ∅) db_bytes 1 Hs)
    as (x & h & w1 & w2 & H1 & H2 & H3 & H4).
  - lia.
  - reflexivity.
  - reflexivity.
  - exists P, w, x, h, w1, w2. auto.
Defined.

(** Dropping the last reference to a page that is still dirty fails the assertion in
    [pcacheRelease] and stops the program. *)
Theorem unref_dirty_asserts {K} `{PosixLaws K} `{PCacheLaws K} (w : World K) P dsc N mx E S d k :
  sim P dsc N mx E w S d → a_held S !! k = Some (1, true) → exec P (OUnref k) (E, w) = Err FAssert.
Proof.
  intros (F & C & c & s & D & PC & Hi) Hk.
  destruct (i_held _ _ _ _ _ _ _ _ _ _ _ _ _ _ Hi _ _ _ Hk) as (x & Hx & _).
  unfold exec. rewrite Hx. unfold deref, mbind, result_bind. by rewrite (pagerUnref_dirty _ _ _ _ _ _ _ _ _ _ _ _ _ _ k x Hi Hk Hx).
Qed.

Lemma unref_dirty_asserts_witness :
  ∃ P w E w', pagerOpen UNIX_OS_ADDR (Some "db"%string) 0 2 world0 = Ok ((SQL_OK, Some P), w) ∧
    exec_all P [OGet 1; OWrite 1] (∅, w) = Ok ([file_pages 2 db_bytes !! 1; None], (E, w')) ∧
    exec P (OUnref 1) (E, w') = Err FAssert.
Proof.
  destruct opened0 as (P & w & Hop & Hs).
  destruct (ops_sim [OGet 1; OWrite 1] P 3 2 MAX_PAGES_IN_CACHE ∅ w _ db_bytes
    [file_pages 2 db_bytes !! 1; None] (mkA (file_pages 2 db_bytes) {[1 := (1, true)]}) Hs) as (E & w' & d' & Hrun & Hs');
    [reflexivity|].
  exists P, w, E, w'. split; [exact Hop|]. split; [exact Hrun|].
  apply (unref_dirty_asserts w' P 3 2 MAX_PAGES_IN_CACHE E (mkA (file_pages 2 db_bytes) {[1 := (1, true)]}) d' 1).
  - exact Hs'.
  - reflexivity.
Defined.

(** The extra bytes asked for with [pagerOpen] are zeroed behind the page header, where
    the cache keeps its own [PgHdr1]: with 20 of them the page's key is lost, so after a store
    the next [pagerGet] of the page misses the cache and hands out a second copy with the old
    bytes; with 16 the pointers are lost and reusing the page follows a null pointer. *)
Theorem extra_bytes_corrupt_cache :
  session world0 20 [OGet 1; OWrite 1; OStore 1 (replicate 2048 65); OGet 1] =
    Ok [Some (replicate 2048 7); None; None; Some (replicate 2048 7)] ∧
  session world0 0 [OGet 1; OWrite 1; OStore 1 (replicate 2048 65); OGet 1] =
    Ok [Some (replicate 2048 7); None; None; Some (replicate 2048 65)] ∧
  session world0 16 [OGet 1; OUnref 1; OGet 1] = Err FUndef.
Proof. split_and!; vm_compute; reflexivity. Qed.

(** A page beyond the end of the file is handed out with the bytes of whatever page used
    the buffer before: the short read is not noticed and the buffer is not cleared. *)
Theorem short_read_leaks_old_page :
  session world0 0 [OGet 1; OUnref 1; OGet 3] = Ok [Some (replicate 2048 7); None; Some (replicate 2048 7)] ∧
  session world0 0 [OGet 3] = Ok [Some (replicate 2048 0)].
Proof. split; vm_compute; reflexivity. Qed.

(** The 32-bit byte offset is right exactly for the first 2^20 pages; beyond them it is
    negative or that of another page: pages [k] and [k + 2^21] share their bytes. *)
Theorem page_offset_bounds k :
  1 ≤ k < 2 ^ 32 →
  (page_offset k = (k - 1) * 2048 ↔ k ≤ 2 ^ 20) ∧
  (k + 2 ^ 21 < 2 ^ 32 → page_offset (k + 2 ^ 21) = page_offset k).
Proof.
  intros Hk. split; [split|].
  - intros Ho. assert (page_offset k < 2 ^ 31) as Hlt; [|lia]. unfold page_offset, wraps.
    case_match; [by apply Z.ltb_lt|].
    assert (∀ y, y mod 2 ^ 32 - 2 ^ 32 < 2 ^ 31) as Hm; [|apply Hm].
    intros y. pose proof (Z.mod_pos_bound y (2 ^ 32) eq_refl). lia.
  - intros Hk2. apply page_offset_small. lia.
  - intros _. unfold page_offset, SQL_DATABASE_HEADER_SIZE, SQL_DEFAULT_PAGE_SIZE. do 2 f_equal. f_equal.
    unfold wrapu. rewrite !Zmult_mod_idemp_l.
    replace ((k + 2 ^ 21 - 1) * 2048) with ((k - 1) * 2048 + 1 * 2 ^ 32) by lia. by rewrite Z_mod_plus_full.
Qed.

Lemma page_offset_bounds_witness :
  (page_offset 1048577 = 1048576 * 2048 ↔ 1048577 ≤ 2 ^ 20) ∧
  (1048577 + 2 ^ 21 < 2 ^ 32 → page_offset (1048577 + 2 ^ 21) = page_offset 1048577).
Proof. apply (page_offset_bounds 1048577). lia. Defined.

End PagerProps.
