(* ===== verification/Buckets.v ===== *)
(** Hash tables with separate chaining: an array of chain heads.  [bk nx tbl R] says that the
    chain at index [i] of [tbl], followed through [nx], visits exactly the nodes [p] with
    [R i p].  Shared by the memcached table and the redis dictionary. *)

From S2P Require Import Prelude Chains.
From stdpp Require Import options.

Definition bk (nx : Z → option Z) (tbl : list Z) (R : nat → Z → Prop) : Prop :=
  ∀ i hd, tbl !! i = Some hd → ∃ l, chain nx hd l ∧ ∀ p, p ∈ l ↔ R i p.

(** Each node is in one chain. *)
Definition apart (R : nat → Z → Prop) : Prop := ∀ i j p, R i p → R j p → i = j.

Section buckets.
Implicit Types (nx : Z → option Z) (tbl : list Z) (R : nat → Z → Prop).

Lemma bk_frame nx nx' tbl R :
  bk nx tbl R → (∀ i p, R i p → nx' p = nx p) → bk nx' tbl R.
Proof.
  intros Hb Hf i hd Hi. destruct (Hb i hd Hi) as (l & Hc & Hl). exists l. split; [|done].
  eapply seg_frame; [exact Hc|]. intros a Ha. eapply Hf. by apply Hl.
Qed.

Lemma bk_ext nx tbl R R' :
  bk nx tbl R → (∀ i p, (i < length tbl)%nat → R i p ↔ R' i p) → bk nx tbl R'.
Proof.
  intros Hb He i hd Hi. destruct (Hb i hd Hi) as (l & Hc & Hl). exists l. split; [done|].
  intros p. rewrite Hl. apply He. by eapply lookup_lt_Some.
Qed.

Lemma bk_empty nx n : bk nx (replicate n 0) (λ _ _, False).
Proof.
  intros i hd Hi. apply lookup_replicate in Hi as [-> _]. exists []. split; [done|]. set_solver.
Qed.

(** Insertion at the head of a chain. *)
Lemma bk_push nx nx' tbl R i hd p :
  bk nx tbl R → tbl !! i = Some hd → p ≠ 0 → nx' p = Some hd → (∀ j, ¬ R j p) →
  (∀ j q, R j q → nx' q = nx q) →
  bk nx' (<[i := p]> tbl) (λ j q, R j q ∨ (j = i ∧ q = p)).
Proof.
  intros Hb Hi Hp Hn Hno Hf j hd' Hj. destruct (decide (j = i)) as [->|Hji].
  - rewrite list_lookup_insert_eq in Hj by (by eapply lookup_lt_Some). injection Hj as <-.
    destruct (Hb i hd Hi) as (l & Hc & Hl). exists (p :: l). split.
    + eapply push_head; [exact Hc|done|done|]. intros b Hb'. eapply Hf. by apply Hl.
    + intros q. rewrite elem_of_cons, Hl. naive_solver.
  - rewrite list_lookup_insert_ne in Hj by done. destruct (Hb j hd' Hj) as (l & Hc & Hl).
    exists l. split.
    + eapply seg_frame; [exact Hc|]. intros b Hb'. eapply Hf. by apply Hl.
    + intros q. rewrite Hl. naive_solver.
Qed.

(** Emptying one chain. *)
Lemma bk_clear nx tbl R i :
  bk nx tbl R → bk nx (<[i := 0]> tbl) (λ j q, R j q ∧ j ≠ i).
Proof.
  intros Hb j hd Hj. destruct (decide (j = i)) as [->|Hji].
  - assert (i < length tbl)%nat by (rewrite <-(length_insert tbl i 0); by eapply lookup_lt_Some).
    rewrite list_lookup_insert_eq in Hj by done. injection Hj as <-. exists []. split; [done|]. set_solver.
  - rewrite list_lookup_insert_ne in Hj by done. destruct (Hb j hd Hj) as (l & Hc & Hl).
    exists l. split; [done|]. intros q. rewrite Hl. naive_solver.
Qed.

(** Replacing what follows the link after [l1] in the chain of slot [i]. *)
Lemma bk_relink nx nx' tbl tbl' R i hd l1 l2 q l2' :
  bk nx tbl R → tbl !! i = Some hd → chain nx hd (l1 ++ l2) → (∀ p, p ∈ l1 ++ l2 ↔ R i p) →
  chain nx' q l2' →
  (if decide (link_of 0 l1 = 0) then tbl' = <[i := q]> tbl else tbl' = tbl ∧ nx' (link_of 0 l1) = Some q) →
  (∀ p, p ∈ l1 → p ≠ link_of 0 l1 → nx' p = nx p) → (∀ j p, j ≠ i → R j p → nx' p = nx p) →
  bk nx' tbl' (λ j p, if decide (j = i) then p ∈ l1 ++ l2' else R j p).
Proof.
  intros Hb Hi Hc Hl Hc' Hlink Hf1 Hf2 j hd' Hj.
  assert (∀ p, p ∈ l1 → p ≠ 0) as Hnz by (intros p Hp; eapply (chain_nonzero _ _ _ p Hc); set_solver).
  destruct (decide (j = i)) as [->|Hji].
  - exists (l1 ++ l2'). split; [|done]. destruct (decide (l1 = [])) as [->|Hne].
    { change (link_of 0 []) with 0 in Hlink. rewrite decide_True in Hlink by done. subst.
      rewrite list_lookup_insert_eq in Hj by (by eapply lookup_lt_Some). by injection Hj as <-. }
    destruct (link_of_in 0 l1) as [[_ ?]|Hin]; [done|]. rewrite decide_False in Hlink by auto.
    destruct Hlink as [-> Hlink]. rewrite Hi in Hj. injection Hj as <-.
    pose proof (chain_NoDup _ _ _ Hc) as Hnd. destruct (exists_last Hne) as (l0 & b & ->).
    assert (link_of 0 (l0 ++ [b]) = b) as Hlb by (unfold link_of; by rewrite last_snoc). rewrite Hlb in *.
    rewrite <-app_assoc in Hc |- *. apply seg_app in Hc as (c & Hc0 & Hc1). simpl in Hc1.
    destruct Hc1 as (-> & Hb0 & _). rewrite <-app_assoc in Hnd. apply NoDup_app in Hnd as (_ & Hd & _).
    apply seg_app. exists b. split.
    + eapply seg_frame; [exact Hc0|]. intros x Hx. apply Hf1; [set_solver|]. intros ->. eapply Hd; [exact Hx|set_solver].
    + simpl. eauto.
  - assert (tbl !! j = Some hd') as Hj'.
    { case_decide; [subst|by destruct Hlink; subst]. by rewrite list_lookup_insert_ne in Hj. }
    destruct (Hb j hd' Hj') as (l & Hcl & Hll). exists l. split; [|done].
    eapply seg_frame; [exact Hcl|]. intros x Hx. eapply Hf2; [exact Hji|]. by apply Hll.
Qed.

(** The chains of a table, slot by slot. *)
Lemma bk_lists nx tbl R : bk nx tbl R → apart R →
  ∃ ls, Forall2 (λ hd l, chain nx hd l) tbl ls ∧ NoDup (concat ls) ∧
    ∀ p, p ∈ concat ls ↔ ∃ i, (i < length tbl)%nat ∧ R i p.
Proof.
  revert R. induction tbl as [|hd tbl IH]; intros R Hb Hap.
  { exists []. split_and!; [done|constructor|]. intros p. split; [set_solver|]. intros (i & Hi & _). simpl in Hi. lia. }
  destruct (Hb 0%nat hd eq_refl) as (l & Hc & Hl).
  destruct (IH (λ j, R (S j))) as (ls & Hf & Hnd & Hls).
  { intros i hd' Hi. by apply (Hb (S i)). }
  { intros j1 j2 p H1 H2. pose proof (Hap _ _ _ H1 H2). lia. }
  exists (l :: ls). split_and!; [by constructor| |].
  - simpl. apply NoDup_app. split_and!; [by eapply chain_NoDup| |done].
    intros p Hp%Hl (j & _ & Hj)%Hls. pose proof (Hap _ _ _ Hp Hj). lia.
  - intros p. simpl. rewrite elem_of_app, Hl, Hls. split.
    + intros [H0|(j & Hj & Hr)]; [exists 0%nat|exists (S j)]; (split; [lia|done]).
    + intros ([|j] & Hj & Hr); [by left|right]. exists j. split; [lia|done].
Qed.

Lemma chains_frame nx nx' tbl ls : Forall2 (λ hd l, chain nx hd l) tbl ls →
  (∀ a, a ∈ concat ls → nx' a = nx a) → Forall2 (λ hd l, chain nx' hd l) tbl ls.
Proof.
  induction 1 as [|hd l tbl ls Hc _ IH]; simpl; intros Hf; constructor.
  - eapply seg_frame; [exact Hc|]. set_solver.
  - apply IH. set_solver.
Qed.

Section heap.
Context {A : Type} (m : gmap Z A) (nx : Z → option Z).
Hypothesis Hm : ∀ a, is_Some (nx a) → is_Some (m !! a).

Lemma bk_miss tbl R i hd stop :
  bk nx tbl R → tbl !! i = Some hd → (∀ q, R i q → stop q = Some false) →
  ∃ prev, scan (size m) nx stop 0 hd = Ok (prev, 0).
Proof using Hm.
  intros Hb Hi Hs. destruct (Hb i hd Hi) as (l & Hc & Hl). eexists. eapply scan_miss; [exact Hc| |].
  - by eapply chain_le_size.
  - intros b Hb'. apply Hs. by apply Hl.
Qed.

(** Finding a node, and what unlinking it through the link found gives. *)
Lemma bk_hit tbl R i hd p stop :
  bk nx tbl R → apart R → tbl !! i = Some hd → R i p → stop p = Some true →
  (∀ q, R i q → q ≠ p → stop q = Some false) →
  p ≠ 0 ∧ ∃ prev r, scan (size m) nx stop 0 hd = Ok (prev, p) ∧ nx p = Some r ∧
    (prev ≠ 0 → R i prev ∧ prev ≠ p) ∧
    ∀ nx' tbl',
      (if decide (prev = 0) then tbl' = <[i := r]> tbl else tbl' = tbl ∧ nx' prev = Some r) →
      (∀ q, q ≠ p → q ≠ prev → nx' q = nx q) →
      (prev = 0 → ∀ q, q ≠ p → nx' q = nx q) →
      bk nx' tbl' (λ j q, R j q ∧ q ≠ p).
Proof using Hm.
  intros Hb Hap Hi Hp Hsp Hsq. destruct (Hb i hd Hi) as (l & Hc & Hl).
  assert (p ∈ l) as Hpl by (by apply Hl). pose proof (chain_nonzero _ _ _ _ Hc Hpl) as Hp0.
  destruct (chain_next _ _ _ _ Hc Hpl) as [r Hr].
  pose proof (chain_le_size m _ _ _ Hc Hm) as Hlen. pose proof (chain_NoDup _ _ _ Hc) as Hnd.
  apply list_elem_of_split in Hpl as (l1 & l2 & ->). rewrite length_app in Hlen. simpl in Hlen.
  apply NoDup_app in Hnd as (_ & Hd & [Hn2 _]%NoDup_cons).
  assert (p ∉ l1) as Hn1 by (intros ?; eapply Hd; [done|set_solver]).
  split; [done|]. exists (link_of 0 l1), r. split_and!.
  - eapply scan_hit; [exact Hc|lia| |done]. intros b Hb'. apply Hsq; [apply Hl; set_solver|]. by intros ->.
  - done.
  - intros Hne. destruct (link_of_in 0 l1) as [[? _]|Hin]; [done|]. split; [apply Hl; set_solver|]. intros E. by rewrite E in Hin.
  - intros nx' tbl' Hlink Hf Hf0. assert (∀ j hd' lj, tbl !! j = Some hd' → j ≠ i → chain nx hd' lj →
      (∀ q, q ∈ lj ↔ R j q) → chain nx' hd' lj ∧ ∀ q, q ∈ lj ↔ R j q ∧ q ≠ p) as Hother.
    { intros j hd' lj Hj Hji Hcj Hlj.
      assert (∀ q, q ∈ lj → ¬ R i q) as Hdis by (intros q Hq Hiq; apply Hji; eapply Hap; [by apply Hlj|done]).
      split.
      - eapply seg_frame; [exact Hcj|]. intros b Hb'. apply Hf.
        + intros ->. by eapply Hdis.
        + intros ->. destruct (link_of_in 0 l1) as [[E _]|Hin].
          * rewrite E in Hb'. by eapply (chain_nonzero nx hd' lj 0).
          * eapply Hdis; [done|]. apply Hl. set_solver.
      - intros q. rewrite <-Hlj. split; [|by intros []]. intros Hq. split; [done|]. intros ->. by eapply Hdis. }
    intros j hd' Hj. destruct (decide (l1 = [])) as [->|Hne].
    + change (link_of 0 []) with 0 in *. rewrite decide_True in Hlink by done. subst tbl'.
      destruct (decide (j = i)) as [->|Hji].
      * rewrite list_lookup_insert_eq in Hj by (by eapply lookup_lt_Some). injection Hj as <-.
        exists l2. split.
        -- eapply (unlink_head nx); [exact Hc|exact Hr|]. intros b Hb'. apply Hf0; [done|]. by intros ->.
        -- intros q. rewrite <-Hl. set_solver.
      * rewrite list_lookup_insert_ne in Hj by done. destruct (Hb j hd' Hj) as (lj & Hcj & Hlj).
        exists lj. by eapply Hother.
    + destruct (link_of_in 0 l1) as [[_ ?]|Hin]; [done|].
      assert (link_of 0 l1 ≠ 0) as Hl0 by (eapply chain_nonzero; [exact Hc|set_solver]).
      rewrite decide_False in Hlink by done. destruct Hlink as [-> Hlink].
      destruct (decide (j = i)) as [->|Hji].
      * rewrite Hi in Hj. injection Hj as <-. exists (l1 ++ l2). split.
        -- eapply (unlink_mid nx _ _ _ p); [exact Hc|done|exact Hr|exact Hlink|].
           intros b Hb' Hbl. apply Hf; [|done]. intros ->. apply elem_of_app in Hb' as [?|?]; done.
        -- intros q. rewrite <-Hl. set_solver.
      * destruct (Hb j hd' Hj) as (lj & Hcj & Hlj). exists lj. by eapply Hother.
Qed.
End heap.
End buckets.
