(* ===== verification/McHash.v ===== *)
(** The memcached hash table [memcached_hashtable/memcached_hashtable.c]: items chained in a
    primary table that a maintenance thread fills, a few buckets at a time, from the old table
    it replaces, while lookups, insertions and deletions go on.

    The file does not compile as it stands: [hash(ITEM_key(key), ...)] in the maintenance
    thread names an undeclared [key], read here as the item [it] of the loop, and [hash_items],
    [started_expanding] and [asso_start_expand] are declared nowhere.  The hash function, the
    number of buckets moved at a time and what [asso_start_expand] does to wake the thread
    (a state of its own, [Sig]) are parameters. *)

From S2P Require Import Prelude Chains Buckets.
From stdpp Require Import options.

Module McHash.

(** [struct _stritem]; [ikey] are the bytes at [ITEM_key]. *)
Record item := mkItem { h_next : Z; nkey : Z; ikey : list Z }.

Definition hashsize (n : Z) : Z := Z.shiftl 1 n.
Definition hashmask (n : Z) : Z := hashsize n - 1.

(** ** item_make_header *)

(** The number of characters [%d] prints for an [int]; 11 digits are enough. *)
Fixpoint digits (fuel : nat) (n : Z) : Z :=
  match fuel with
  | O => 1
  | S f => if n <? 10 then 1 else 1 + digits f (n / 10)
  end.
Definition dec_len (n : Z) : Z := if n <? 0 then 1 + digits 11 (- n) else digits 11 n.

Definition sizeof_item := 16.

(** The size to allocate and [*nsuffix], the length of ["<space>flags<space>len\r\n"]. *)
Definition item_make_header (nkey flags nbytes : Z) : Z * Z :=
  let nsuffix := u8 (1 + dec_len flags + 1 + dec_len (s32 (nbytes - 2)) + 2) in
  (u64 (sizeof_item + nkey + nsuffix + nbytes), nsuffix).

Section table.
Context {Sig : Type} (start_expand : Sig → Sig) (hash : list Z → Z) (hash_bulk_move : Z).

(** Where the maintenance thread is. *)
Inductive thread := Running | Waiting.

Record st := mkSt {
  items : gmap Z item;
  primary_hashtable : list Z;
  old_hashtable : list Z;
  expanding : bool;
  expand_bucket : Z;
  hashpower : Z;
  hash_items : Z;
  started_expanding : bool;
  maint : thread;
  sig : Sig;
}.

Abbreviation MS := (M st).

Definition set_items s m := mkSt m (primary_hashtable s) (old_hashtable s) (expanding s) (expand_bucket s) (hashpower s) (hash_items s) (started_expanding s) (maint s) (sig s).
Definition set_primary s t := mkSt (items s) t (old_hashtable s) (expanding s) (expand_bucket s) (hashpower s) (hash_items s) (started_expanding s) (maint s) (sig s).
Definition set_old s t := mkSt (items s) (primary_hashtable s) t (expanding s) (expand_bucket s) (hashpower s) (hash_items s) (started_expanding s) (maint s) (sig s).
Definition set_expanding s b e := mkSt (items s) (primary_hashtable s) (old_hashtable s) b e (hashpower s) (hash_items s) (started_expanding s) (maint s) (sig s).
Definition set_power s n := mkSt (items s) (primary_hashtable s) (old_hashtable s) (expanding s) (expand_bucket s) n (hash_items s) (started_expanding s) (maint s) (sig s).
Definition set_count s n := mkSt (items s) (primary_hashtable s) (old_hashtable s) (expanding s) (expand_bucket s) (hashpower s) n (started_expanding s) (maint s) (sig s).
Definition set_started s b := mkSt (items s) (primary_hashtable s) (old_hashtable s) (expanding s) (expand_bucket s) (hashpower s) (hash_items s) b (maint s) (sig s).
Definition set_maint s t := mkSt (items s) (primary_hashtable s) (old_hashtable s) (expanding s) (expand_bucket s) (hashpower s) (hash_items s) (started_expanding s) t (sig s).
Definition set_sig s g := mkSt (items s) (primary_hashtable s) (old_hashtable s) (expanding s) (expand_bucket s) (hashpower s) (hash_items s) (started_expanding s) (maint s) g.

Definition get_item (a : Z) : MS item := s ← get; lift (deref (items s !! a)).
Definition put_next (a n : Z) : MS unit :=
  it ← get_item a; modify (λ s, set_items s (<[a := mkItem n (nkey it) (ikey it)]> (items s))).

(** ** Which bucket: [expanding && (oldbucket = hv & hashmask(hashpower-1)) >= expand_bucket] *)

Definition in_old s (hv : Z) : bool :=
  expanding s && (u32 (expand_bucket s) <=? u32 (Z.land hv (hashmask (hashpower s - 1)))).
Definition bucket s (hv : Z) : nat :=
  if in_old s hv then Z.to_nat (u32 (Z.land hv (hashmask (hashpower s - 1))))
  else Z.to_nat (Z.land hv (hashmask (hashpower s))).
Definition table s (hv : Z) : list Z :=
  if in_old s hv then old_hashtable s else primary_hashtable s.
Definition set_slot s (hv p : Z) : st :=
  if in_old s hv then set_old s (<[bucket s hv := p]> (old_hashtable s))
  else set_primary s (<[bucket s hv := p]> (primary_hashtable s)).

(** [nkey == it->nkey && memcmp(key, ITEM_key(it), nkey) == 0]. *)
Definition same_key s (key : list Z) (nk : Z) (a : Z) : option bool :=
  it ← items s !! a;
  if nk =? nkey it then
    if (length key <? Z.to_nat nk)%nat || (length (ikey it) <? Z.to_nat nk)%nat then None
    else Some (bool_decide (take (Z.to_nat nk) key = take (Z.to_nat nk) (ikey it)))
  else Some false.

Definition next_of s (a : Z) : option Z := h_next <$> items s !! a.

(** ** The operations *)

Definition assoc_insert (it hv : Z) : MS Z :=
  s ← get;
  hd ← lift (deref (table s hv !! bucket s hv));
  put_next it hd;;
  modify (λ s, set_slot s hv it);;
  modify (λ s, set_count s (u32 (hash_items s + 1)));;
  s ← get;
  (if negb (expanding s) && (hashsize (hashpower s) * 3 / 2 <? hash_items s)
   then modify (λ s, set_sig s (start_expand (sig s))) else mret tt);;
  mret 1.

Definition assoc_find (key : list Z) (nk hv : Z) : MS Z :=
  s ← get;
  hd ← lift (deref (table s hv !! bucket s hv));
  r ← lift (scan (size (items s)) (next_of s) (same_key s key nk) 0 hd);
  mret r.2.

(** The pointer to the link that leads to the key's item, or to the end of its chain: the
    link is the bucket itself (0) or the [h_next] of an item. *)
Definition _hashitem_before (key : list Z) (nk hv : Z) : MS (Z * Z) :=
  s ← get;
  hd ← lift (deref (table s hv !! bucket s hv));
  lift (scan (size (items s)) (next_of s) (same_key s key nk) 0 hd).

Definition assoc_delete (key : list Z) (nk hv : Z) : MS unit :=
  before ← _hashitem_before key nk hv;
  if before.2 =? 0 then fail FAssert else
  modify (λ s, set_count s (u32 (hash_items s - 1)));;
  it ← get_item before.2;
  put_next before.2 0;;
  if before.1 =? 0 then modify (λ s, set_slot s hv (h_next it)) else put_next before.1 (h_next it).

(** ** The maintenance thread *)

(** One old chain: [for(it=old_hashtable[expand_bucket]; NULL!=it; it=next)]. *)
Fixpoint move_chain (fuel : nat) (it : Z) : MS unit :=
  if it =? 0 then mret tt else
  match fuel with
  | O => fail FFuel
  | S fuel =>
      i ← get_item it;
      s ← get;
      let b := Z.to_nat (Z.land (hash (take (Z.to_nat (nkey i)) (ikey i))) (hashmask (hashpower s))) in
      hd ← lift (deref (primary_hashtable s !! b));
      put_next it hd;;
      modify (λ s, set_primary s (<[b := it]> (primary_hashtable s)));;
      move_chain fuel (h_next i)
  end.

Definition move_bucket : MS unit :=
  s ← get;
  hd ← lift (deref (old_hashtable s !! Z.to_nat (expand_bucket s)));
  move_chain (size (items s)) hd;;
  modify (λ s, set_old s (<[Z.to_nat (expand_bucket s) := 0]> (old_hashtable s)));;
  modify (λ s, set_expanding s (expanding s) (expand_bucket s + 1));;
  s ← get;
  if expand_bucket s =? hashsize (hashpower s - 1)
  then modify (λ s, set_old (set_expanding s false (expand_bucket s)) []) (* free(old_hashtable) *)
  else mret tt.

(** [for(ii=0; ii < hash_bulk_move && expanding; ++ii)]. *)
Fixpoint move_buckets (n : nat) : MS unit :=
  match n with
  | O => mret tt
  | S n => s ← get; if expanding s then move_bucket;; move_buckets n else mret tt
  end.

Definition assoc_expand (calloc_ok : bool) : MS unit :=
  modify (λ s, set_old s (primary_hashtable s));;
  s ← get;
  if calloc_ok then
    modify (λ s, set_primary s (replicate (Z.to_nat (hashsize (hashpower s + 1))) 0));;
    modify (λ s, set_power s (hashpower s + 1));;
    modify (λ s, set_expanding s true 0)
  else modify (λ s, set_primary s (old_hashtable s)).

(** The thread's loop body up to the point where it sleeps, and from there on when woken. *)
Definition maintenance_pass : MS unit :=
  move_buckets (Z.to_nat hash_bulk_move);;
  s ← get;
  if expanding s then mret tt else
  modify (λ s, set_started s false);;
  modify (λ s, set_maint s Waiting).

Definition maintenance_wake (calloc_ok : bool) : MS unit :=
  assoc_expand calloc_ok;;
  modify (λ s, set_maint s Running).

(** Everything that happens to the table: the clients' calls and the thread's turns, each
    under the cache lock. *)
Inductive event :=
  | EInsert (it : Z) (key : list Z) (* a new item with that key *)
  | EFind (key : list Z)
  | EDelete (key : list Z)
  | ETurn (calloc_ok : bool). (* the thread runs a pass, or wakes up if it sleeps *)

Definition exec (e : event) : MS (option Z) :=
  match e with
  | EInsert it key =>
      modify (λ s, set_items s (<[it := mkItem 0 (u8 (Z.of_nat (length key))) key]> (items s)));;
      assoc_insert it (hash key);; mret None
  | EFind key => r ← assoc_find key (Z.of_nat (length key)) (hash key); mret (Some r)
  | EDelete key => assoc_delete key (Z.of_nat (length key)) (hash key);; mret None
  | ETurn ok =>
      s ← get;
      match maint s with Running => maintenance_pass | Waiting => maintenance_wake ok end;;
      mret None
  end.

Fixpoint exec_all (es : list event) : MS (list (option Z)) :=
  match es with
  | [] => mret []
  | e :: es => r ← exec e; rs ← exec_all es; mret (r :: rs)
  end.

End table.
End McHash.
