(* ===== verification/McHashFacts.v ===== *)
(** The memcached table implements a finite map at every moment of an expansion: invariant,
    one lemma per operation, and the maintenance thread's progress. *)

From S2P Require Import Prelude Chains Buckets McHash.
From stdpp Require Import options.

Module McHashFacts.
Import McHash.

Lemma hashsize_pow n : 0 ≤ n → hashsize n = 2 ^ n.
Proof. intros. unfold hashsize. rewrite Z.shiftl_mul_pow2 by done. lia. Qed.

Lemma mask_mod h n : 0 ≤ n → Z.land h (hashmask n) = h mod 2 ^ n.
Proof.
  intros Hn. unfold hashmask. rewrite hashsize_pow by done.
  rewrite <-Z.land_ones by done. by rewrite Z.ones_equiv, Z.sub_1_r.
Qed.

Lemma pow2_le a b : 0 ≤ a ≤ b → 2 ^ a ≤ 2 ^ b.
Proof. intros. apply Z.pow_le_mono_r; lia. Qed.

Section facts.
Context {Sig : Type} (start_expand : Sig → Sig) (hash : list Z → Z) (hash_bulk_move : Z).
Implicit Types (s : @st Sig) (m : gmap (list Z) Z).

(** Where the item of a key is. *)
Definition prim_at s m (i : nat) (p : Z) : Prop :=
  ∃ k, m !! k = Some p ∧ in_old s (hash k) = false ∧ bucket s (hash k) = i.
Definition old_at s m (i : nat) (p : Z) : Prop :=
  ∃ k, m !! k = Some p ∧ in_old s (hash k) = true ∧ bucket s (hash k) = i.

Record inv s m : Prop := {
  v_hp : 0 ≤ hashpower s ≤ 31;
  v_prim : Z.of_nat (length (primary_hashtable s)) = 2 ^ hashpower s;
  v_exp : expanding s = true → 1 ≤ hashpower s ∧
    Z.of_nat (length (old_hashtable s)) = 2 ^ (hashpower s - 1) ∧
    0 ≤ expand_bucket s < 2 ^ (hashpower s - 1);
  v_item k p : m !! k = Some p → p ≠ 0 ∧
    ∃ nx, items s !! p = Some (mkItem nx (Z.of_nat (length k)) k);
  v_pbk : bk (next_of s) (primary_hashtable s) (prim_at s m);
  v_obk : expanding s = true → bk (next_of s) (old_hashtable s) (old_at s m);
  v_count : hash_items s = Z.of_nat (size m) ∧ Z.of_nat (size m) < 2 ^ 32;
  v_wait : maint s = Waiting → expanding s = false;
}.

Lemma key_inj s m k k' p : inv s m → m !! k = Some p → m !! k' = Some p → k = k'.
Proof.
  intros Hi H1 H2. destruct (v_item _ _ Hi _ _ H1) as (_ & nx & E1).
  destruct (v_item _ _ Hi _ _ H2) as (_ & nx' & E2). congruence.
Qed.

Lemma prim_apart s m : inv s m → apart (prim_at s m).
Proof. intros Hi i j p (k & H1 & _ & <-) (k' & H2 & _ & <-). by rewrite (key_inj _ _ _ _ _ Hi H1 H2). Qed.
Lemma old_apart s m : inv s m → apart (old_at s m).
Proof. intros Hi i j p (k & H1 & _ & <-) (k' & H2 & _ & <-). by rewrite (key_inj _ _ _ _ _ Hi H1 H2). Qed.

Lemma next_alloc' s a : is_Some (next_of s a) → is_Some (items s !! a).
Proof. unfold next_of. destruct (items s !! a); [eauto|by intros []]. Qed.

(** The table a key's bucket is in, and who is in that bucket. *)
Definition key_at s m (hv : Z) : nat → Z → Prop := if in_old s hv then old_at s m else prim_at s m.

Lemma table_bk s m hv : inv s m → bk (next_of s) (table s hv) (key_at s m hv).
Proof.
  intros Hi. unfold table, key_at. destruct (in_old s hv) eqn:E; [|apply Hi].
  apply (v_obk _ _ Hi). unfold in_old in E. by destruct (expanding s).
Qed.

Lemma key_apart s m hv : inv s m → apart (key_at s m hv).
Proof. intros Hi. unfold key_at. destruct (in_old s hv); [by apply old_apart|by apply prim_apart]. Qed.

Lemma key_at_intro s m k p : m !! k = Some p → key_at s m (hash k) (bucket s (hash k)) p.
Proof. intros Hk. unfold key_at, old_at, prim_at. destruct (in_old s (hash k)) eqn:E; eauto. Qed.

Lemma key_at_elim s m hv i p : key_at s m hv i p → ∃ k, m !! k = Some p.
Proof. unfold key_at, old_at, prim_at. destruct (in_old s hv); naive_solver. Qed.

Lemma u32_mask h n : 0 ≤ n ≤ 31 → u32 (Z.land h (hashmask n)) = h mod 2 ^ n.
Proof.
  intros Hn. rewrite mask_mod by lia. apply wrapu_small.
  pose proof (Z.mod_pos_bound h (2 ^ n) ltac:(apply Z.pow_pos_nonneg; lia)). pose proof (pow2_le n 32 ltac:(lia)). lia.
Qed.

Lemma in_old_eq s m hv : inv s m →
  in_old s hv = expanding s && (expand_bucket s <=? hv mod 2 ^ (hashpower s - 1)).
Proof.
  intros Hi. unfold in_old. destruct (expanding s) eqn:E; [|done]. destruct (v_exp _ _ Hi E) as (H1 & _ & H2).
  pose proof (v_hp _ _ Hi). rewrite u32_mask by lia. rewrite wrapu_small; [done|].
  pose proof (pow2_le (hashpower s - 1) 32 ltac:(lia)). lia.
Qed.

Lemma bucket_eq s m hv : inv s m →
  bucket s hv = Z.to_nat (hv mod 2 ^ (if in_old s hv then hashpower s - 1 else hashpower s)).
Proof.
  intros Hi. unfold bucket. pose proof (v_hp _ _ Hi). destruct (in_old s hv) eqn:E.
  - assert (expanding s = true) as Ee by (unfold in_old in E; by destruct (expanding s)).
    destruct (v_exp _ _ Hi Ee) as (H1 & _ & H2). by rewrite u32_mask by lia.
  - by rewrite mask_mod by lia.
Qed.

Lemma slot_is_some s m hv : inv s m → ∃ hd, table s hv !! bucket s hv = Some hd.
Proof.
  intros Hi. apply lookup_lt_is_Some_2. rewrite (bucket_eq _ _ _ Hi). unfold table.
  pose proof (v_hp _ _ Hi). destruct (in_old s hv) eqn:E.
  - assert (expanding s = true) as Ee by (unfold in_old in E; by destruct (expanding s)).
    destruct (v_exp _ _ Hi Ee) as (H1 & H3 & H2).
    pose proof (Z.mod_pos_bound hv (2 ^ (hashpower s - 1)) ltac:(apply Z.pow_pos_nonneg; lia)). lia.
  - pose proof (v_prim _ _ Hi).
    pose proof (Z.mod_pos_bound hv (2 ^ hashpower s) ltac:(apply Z.pow_pos_nonneg; lia)). lia.
Qed.

Lemma same_key_eq s m k k' p : inv s m → m !! k' = Some p →
  same_key s k (Z.of_nat (length k)) p = Some (bool_decide (k' = k)).
Proof.
  intros Hi Hk'. destruct (v_item _ _ Hi _ _ Hk') as (_ & nx & Hp). unfold same_key. rewrite Hp. unfold mbind, option_bind. cbn [nkey ikey].
  rewrite Nat2Z.id. destruct (Z.eqb_spec (Z.of_nat (length k)) (Z.of_nat (length k'))) as [Hl|Hl].
  - rewrite Nat.ltb_irrefl, (proj2 (Nat.ltb_ge _ _)) by lia. cbn [orb]. f_equal. rewrite firstn_all, take_ge by lia. apply bool_decide_ext. naive_solver.
  - f_equal. symmetry. apply bool_decide_eq_false. congruence.
Qed.

(** ** Lookup *)

Lemma before_miss s m k : inv s m → m !! k = None →
  ∃ prev, _hashitem_before k (Z.of_nat (length k)) (hash k) s = Ok ((prev, 0), s).
Proof.
  intros Hi Hk. destruct (slot_is_some s m (hash k) Hi) as [hd Hhd].
  destruct (bk_miss (items s) (next_of s) (next_alloc' s) _ _ _ _ (same_key s k (Z.of_nat (length k)))
    (table_bk s m (hash k) Hi) Hhd) as [prev Hs].
  { intros q Hq. destruct (key_at_elim _ _ _ _ _ Hq) as [k' Hk']. rewrite (same_key_eq _ _ _ _ _ Hi Hk').
    f_equal. apply bool_decide_eq_false. congruence. }
  exists prev. unfold _hashitem_before. rewrite bind_get. unfold deref.
  rewrite Hhd. rewrite (bind_lift _ _ s hd eq_refl). by rewrite Hs.
Qed.

Lemma before_hit s m k p : inv s m → m !! k = Some p →
  ∃ prev r, _hashitem_before k (Z.of_nat (length k)) (hash k) s = Ok ((prev, p), s) ∧
    next_of s p = Some r ∧ (prev ≠ 0 → key_at s m (hash k) (bucket s (hash k)) prev ∧ prev ≠ p) ∧
    ∀ nx' tbl',
      (if decide (prev = 0) then tbl' = <[bucket s (hash k) := r]> (table s (hash k))
       else tbl' = table s (hash k) ∧ nx' prev = Some r) →
      (∀ q, q ≠ p → q ≠ prev → nx' q = next_of s q) →
      (prev = 0 → ∀ q, q ≠ p → nx' q = next_of s q) →
      bk nx' tbl' (λ j q, key_at s m (hash k) j q ∧ q ≠ p).
Proof.
  intros Hi Hk. destruct (slot_is_some s m (hash k) Hi) as [hd Hhd].
  destruct (bk_hit (items s) (next_of s) (next_alloc' s) _ _ _ _ p (same_key s k (Z.of_nat (length k)))
    (table_bk s m (hash k) Hi) (key_apart _ _ _ Hi) Hhd (key_at_intro _ _ _ _ Hk)) as (_ & prev & r & Hs & Hr & Hprev & Hun).
  { rewrite (same_key_eq _ _ _ _ _ Hi Hk). f_equal. by apply bool_decide_eq_true. }
  { intros q Hq Hqp. destruct (key_at_elim _ _ _ _ _ Hq) as [k' Hk']. rewrite (same_key_eq _ _ _ _ _ Hi Hk').
    f_equal. apply bool_decide_eq_false. congruence. }
  exists prev, r. split_and!; [|done|done|done].
  unfold _hashitem_before. rewrite bind_get. unfold deref.
  rewrite Hhd. rewrite (bind_lift _ _ s hd eq_refl). by rewrite Hs.
Qed.

Lemma find_before s k nk hv :
  assoc_find k nk hv s =
    match _hashitem_before k nk hv s with Ok ((_, p), s') => Ok (p, s') | Err e => Err e end.
Proof.
  unfold assoc_find, _hashitem_before. rewrite !bind_get. unfold deref, lift, mbind, M_bind.
  destruct (table s hv !! bucket s hv) as [hd|]; [|done]. by destruct (scan _ _ _ _ _) as [[]|].
Qed.

Lemma find_run s m k : inv s m →
  assoc_find k (Z.of_nat (length k)) (hash k) s = Ok (default 0 (m !! k), s).
Proof.
  intros Hi. rewrite find_before. destruct (m !! k) as [p|] eqn:Ek.
  - by destruct (before_hit s m k p Hi Ek) as (prev & r & -> & _).
  - by destruct (before_miss s m k Hi Ek) as (prev & ->).
Qed.

(** ** Insertion *)

Lemma prim_insert s m k p i q : m !! k = None →
  prim_at s (<[k := p]> m) i q ↔
  prim_at s m i q ∨ (in_old s (hash k) = false ∧ i = bucket s (hash k) ∧ q = p).
Proof.
  intros Hk. unfold prim_at. split.
  - intros (k' & Hk' & Ho & Hb). destruct (decide (k' = k)) as [->|].
    + rewrite lookup_insert_eq in Hk'. right. split_and!; [done|done|congruence].
    + rewrite lookup_insert_ne in Hk' by done. left. eauto.
  - intros [(k' & Hk' & Ho & Hb)|(Ho & -> & ->)].
    + exists k'. rewrite lookup_insert_ne by congruence. done.
    + exists k. by rewrite lookup_insert_eq.
Qed.

Lemma old_insert s m k p i q : m !! k = None →
  old_at s (<[k := p]> m) i q ↔
  old_at s m i q ∨ (in_old s (hash k) = true ∧ i = bucket s (hash k) ∧ q = p).
Proof.
  intros Hk. unfold old_at. split.
  - intros (k' & Hk' & Ho & Hb). destruct (decide (k' = k)) as [->|].
    + rewrite lookup_insert_eq in Hk'. right. split_and!; [done|done|congruence].
    + rewrite lookup_insert_ne in Hk' by done. left. eauto.
  - intros [(k' & Hk' & Ho & Hb)|(Ho & -> & ->)].
    + exists k'. rewrite lookup_insert_ne by congruence. done.
    + exists k. by rewrite lookup_insert_eq.
Qed.

(** [s] with the item stored and linked in front of its chain. *)
Definition inserted s (k : list Z) (p hd : Z) : st :=
  set_count (set_slot (set_items s (<[p := mkItem hd (Z.of_nat (length k)) k]> (items s))) (hash k) p)
    (u32 (hash_items s + 1)).

Lemma inserted_inv s m k p hd :
  inv s m → m !! k = None → p ≠ 0 → (∀ k', m !! k' ≠ Some p) →
  Z.of_nat (size m) + 1 < 2 ^ 32 → table s (hash k) !! bucket s (hash k) = Some hd →
  inv (inserted s k p hd) (<[k := p]> m).
Proof.
  intros Hi Hk Hp Hno Hsz Hhd. set (its := <[p := mkItem hd (Z.of_nat (length k)) k]> (items s)).
  assert (∀ q, (∃ k', m !! k' = Some q) → its !! q = items s !! q) as Hsame.
  { intros q [k' Hk']. unfold its. rewrite lookup_insert_ne; [done|]. intros <-. by eapply Hno. }
  assert (∀ R : nat → Z → Prop, (∀ i q, R i q → ∃ k', m !! k' = Some q) →
    ∀ i q, R i q → h_next <$> its !! q = next_of s q) as Hnx.
  { intros R HR i q Hq. unfold next_of. by rewrite Hsame by eauto. }
  pose proof (table_bk s m (hash k) Hi) as Htb.
  assert (bk (λ a, h_next <$> its !! a) (<[bucket s (hash k) := p]> (table s (hash k)))
    (λ j q, key_at s m (hash k) j q ∨ (j = bucket s (hash k) ∧ q = p))) as Hpush.
  { eapply bk_push; [exact Htb|exact Hhd|done| | |].
    - unfold its. by rewrite lookup_insert_eq.
    - intros j Hj. destruct (key_at_elim _ _ _ _ _ Hj) as [k' ?]. by eapply Hno.
    - eapply Hnx. intros i q Hq. by eapply key_at_elim. }
  destruct Hi as [Hhp Hpl Hex Hit Hpb Hob [Hcn Hcs] Hw]. unfold inserted, set_slot. fold its.
  change (in_old (set_items s its) (hash k)) with (in_old s (hash k)).
  change (bucket (set_items s its) (hash k)) with (bucket s (hash k)).
  unfold key_at, table in *. destruct (in_old s (hash k)) eqn:Eo; split; simpl; try done.
  - intros Ee. rewrite length_insert. by apply Hex.
  - intros k' q Hk'. destruct (decide (k' = k)) as [->|].
    + rewrite lookup_insert_eq in Hk'. injection Hk' as <-. split; [done|]. exists hd. unfold its. by rewrite lookup_insert_eq.
    + rewrite lookup_insert_ne in Hk' by done. rewrite Hsame by eauto. by apply Hit.
  - eapply bk_ext; [eapply bk_frame; [exact Hpb|]|].
    + eapply Hnx. intros i q (k' & ? & _). eauto.
    + intros i q _. change (prim_at s m i q ↔ prim_at s (<[k:=p]> m) i q). rewrite prim_insert by done. rewrite Eo. naive_solver.
  - intros _. eapply bk_ext; [exact Hpush|]. intros i q _.
    change (old_at s m i q ∨ (i = bucket s (hash k) ∧ q = p) ↔ old_at s (<[k:=p]> m) i q). rewrite old_insert by done. rewrite Eo. naive_solver.
  - rewrite map_size_insert_None by done. rewrite wrapu_small by lia. lia.
  - by rewrite length_insert.
  - intros k' q Hk'. destruct (decide (k' = k)) as [->|].
    + rewrite lookup_insert_eq in Hk'. injection Hk' as <-. split; [done|]. exists hd. unfold its. by rewrite lookup_insert_eq.
    + rewrite lookup_insert_ne in Hk' by done. rewrite Hsame by eauto. by apply Hit.
  - eapply bk_ext; [exact Hpush|]. intros i q _.
    change (prim_at s m i q ∨ (i = bucket s (hash k) ∧ q = p) ↔ prim_at s (<[k:=p]> m) i q). rewrite prim_insert by done. rewrite Eo. naive_solver.
  - intros Ee. eapply bk_ext; [eapply bk_frame; [exact (Hob Ee)|]|].
    + eapply Hnx. intros i q (k' & ? & _). eauto.
    + intros i q _. change (old_at s m i q ↔ old_at s (<[k:=p]> m) i q). rewrite old_insert by done. rewrite Eo. naive_solver.
  - rewrite map_size_insert_None by done. rewrite wrapu_small by lia. lia.
Qed.

Lemma inv_sig s m g : inv s m → inv (set_sig s g) m.
Proof. intros []. by split. Qed.

Lemma get_item_run s a it : items s !! a = Some it → get_item a s = Ok (it, s).
Proof. intros Ha. unfold get_item. rewrite bind_get. unfold deref, lift. by rewrite Ha. Qed.

Lemma put_next_run s a it n : items s !! a = Some it →
  put_next a n s = Ok (tt, set_items s (<[a := mkItem n (nkey it) (ikey it)]> (items s))).
Proof. intros Ha. unfold put_next. by mstep (get_item_run _ _ _ Ha). Qed.

(** Whether the insertion asks for an expansion. *)
Definition overloaded s : bool := negb (expanding s) && (hashsize (hashpower s) * 3 / 2 <? hash_items s).

Lemma insert_run s m k p :
  inv s m → m !! k = None → p ≠ 0 → (∀ k', m !! k' ≠ Some p) → Z.of_nat (length k) < 256 →
  Z.of_nat (size m) + 1 < 2 ^ 32 →
  ∃ s', exec start_expand hash hash_bulk_move (EInsert p k) s = Ok (None, s') ∧ inv s' (<[k := p]> m) ∧
    maint s' = maint s ∧ hashpower s' = hashpower s ∧ expanding s' = expanding s ∧
    sig s' = if overloaded s' then start_expand (sig s) else sig s.
Proof.
  intros Hi Hk Hp Hno Hkl Hsz. destruct (slot_is_some s m (hash k) Hi) as [hd Hhd].
  pose proof (inserted_inv s m k p hd Hi Hk Hp Hno Hsz Hhd) as Hi'.
  cbn [exec]. rewrite bind_modify. rewrite (wrapu_small 8) by lia. set (s1 := set_items s _).
  assert (assoc_insert start_expand p (hash k) s1 = ((λ s', if overloaded s' then Ok (1, set_sig s' (start_expand (sig s'))) else Ok (1, s'))
    (inserted s k p hd))) as Hrun.
  { unfold assoc_insert. rewrite bind_get. change (table s1 (hash k)) with (table s (hash k)).
    change (bucket s1 (hash k)) with (bucket s (hash k)). unfold deref. rewrite Hhd.
    rewrite (bind_lift _ _ s1 hd eq_refl).
    assert (items s1 !! p = Some (mkItem 0 (Z.of_nat (length k)) k)) as Hs1 by (simpl; by rewrite lookup_insert_eq).
    mstep (put_next_run s1 p _ hd Hs1). rewrite !bind_modify. rewrite bind_get. simpl items. rewrite insert_insert_eq.
    assert (∀ x, hash_items (set_slot (set_items s1 x) (hash k) p) = hash_items s) as Hc.
    { intros x. unfold set_slot. by destruct (in_old _ _). }
    cbn [nkey ikey]. rewrite Hc.
    change (set_items s1 (<[p:=mkItem hd (Z.of_nat (length k)) k]> (items s)))
      with (set_items s (<[p:=mkItem hd (Z.of_nat (length k)) k]> (items s))).
    fold (inserted s k p hd). unfold overloaded. by destruct (negb _ && _). }
  set (s2 := inserted s k p hd) in *.
  assert (maint s2 = maint s ∧ hashpower s2 = hashpower s ∧ expanding s2 = expanding s ∧ sig s2 = sig s) as (Hm & Hh & He & Hg).
  { unfold s2, inserted, set_slot. by destruct (in_old _ _). }
  exists (if overloaded s2 then set_sig s2 (start_expand (sig s)) else s2).
  rewrite (bind_ok _ _ s1 1 (if overloaded s2 then set_sig s2 (start_expand (sig s)) else s2)).
  - split; [done|]. destruct (overloaded s2) eqn:E; [|by rewrite E].
    split_and!; [by apply inv_sig|done|done|done|]. by change (overloaded (set_sig s2 _)) with (overloaded s2); rewrite E.
  - rewrite Hrun, Hg. by destruct (overloaded s2).
Qed.

(** ** Deletion *)

Lemma at_delete (old : bool) s m k i q p :
  m !! k = Some p → (∀ k', m !! k' = Some p → k' = k) →
  (∃ k', delete k m !! k' = Some q ∧ in_old s (hash k') = old ∧ bucket s (hash k') = i) ↔
  (∃ k', m !! k' = Some q ∧ in_old s (hash k') = old ∧ bucket s (hash k') = i) ∧ q ≠ p.
Proof.
  intros Hk Hinj. split.
  - intros (k' & [Hne Hk']%lookup_delete_Some & Ho & Hb). split; [eauto|]. intros ->. apply Hne. symmetry. by apply Hinj.
  - intros [(k' & Hk' & Ho & Hb) Hqp]. exists k'. rewrite lookup_delete_ne by congruence. done.
Qed.

Lemma delete_run s m k p :
  inv s m → m !! k = Some p →
  ∃ s', exec start_expand hash hash_bulk_move (EDelete k) s = Ok (None, s') ∧ inv s' (delete k m) ∧
    maint s' = maint s ∧ hashpower s' = hashpower s.
Proof.
  intros Hi Hk. destruct (before_hit s m k p Hi Hk) as (prev & r & Hbef & Hr & Hprev & Hun).
  destruct (v_item _ _ Hi _ _ Hk) as (Hp0 & nx & Hp).
  assert (nx = r) as -> by (unfold next_of in Hr; rewrite Hp in Hr; by simplify_eq/=).
  set (its1 := <[p := mkItem 0 (Z.of_nat (length k)) k]> (items s)).
  set (s1 := set_items (set_count s (u32 (hash_items s - 1))) its1).
  set (s' := if prev =? 0 then set_slot s1 (hash k) r
             else match its1 !! prev with
                  | Some it => set_items s1 (<[prev := mkItem r (nkey it) (ikey it)]> its1)
                  | None => s1 end).
  assert (∀ q, q ≠ p → its1 !! q = items s !! q) as Hits1.
  { intros q Hq. unfold its1. by rewrite lookup_insert_ne. }
  assert (prev ≠ 0 → ∃ it, its1 !! prev = Some it) as Hpi.
  { intros Hne. destruct (Hprev Hne) as [Hat Hpp]. destruct (key_at_elim _ _ _ _ _ Hat) as [k' Hk'].
    destruct (v_item _ _ Hi _ _ Hk') as (_ & nx' & Hit). rewrite Hits1 by done. eauto. }
  exists s'. split.
  { cbn [exec]. rewrite (bind_ok _ _ s tt s'); [done|]. unfold assoc_delete. mstep Hbef. zneq p 0.
    rewrite bind_modify. rewrite (bind_ok _ _ _ _ _ (get_item_run (set_count s _) p _ Hp)).
    rewrite (bind_ok _ _ _ _ _ (put_next_run (set_count s _) p _ 0 Hp)). cbn [nkey ikey h_next].
    change (items (set_count s (u32 (hash_items s - 1)))) with (items s). fold its1. fold s1. unfold s'.
    destruct (Z.eqb_spec prev 0) as [->|Hne]; [done|]. destruct (Hpi Hne) as [it Hit]. rewrite Hit.
    by rewrite (put_next_run s1 prev it r Hit). }
  pose proof (λ k', key_inj s m k' k p Hi) as Hinj0.
  assert (∀ k', m !! k' = Some p → k' = k) as Hinj by (intros k' ?; by apply Hinj0).
  assert (in_old s' = in_old s ∧ bucket s' = bucket s ∧ expanding s' = expanding s ∧ expand_bucket s' = expand_bucket s ∧
    hashpower s' = hashpower s ∧ maint s' = maint s ∧ hash_items s' = u32 (hash_items s - 1)) as (Eo & Eb & Ee & Eeb & Eh & Em & Ec).
  { unfold s'. destruct (prev =? 0); [unfold set_slot; by destruct (in_old s1 (hash k))|]. by destruct (its1 !! prev). }
  assert (∀ q, q ≠ p → q ≠ prev → next_of s' q = next_of s q) as Hnx.
  { intros q Hqp Hqv. unfold next_of. rewrite <-(Hits1 q Hqp). unfold s'. destruct (prev =? 0).
    - unfold set_slot. by destruct (in_old s1 (hash k)).
    - destruct (its1 !! prev); [|done]. simpl. by rewrite lookup_insert_ne. }
  assert (prev = 0 → ∀ q, q ≠ p → next_of s' q = next_of s q) as Hnx0.
  { intros -> q Hqp. unfold next_of. rewrite <-(Hits1 q Hqp). unfold s'. simpl. unfold set_slot. by destruct (in_old s1 (hash k)). }
  assert (∀ q k', m !! k' = Some q → q ≠ p → ∃ nx', items s' !! q = Some (mkItem nx' (Z.of_nat (length k')) k')) as Hkeys.
  { intros q k' Hk' Hqp. destruct (v_item _ _ Hi _ _ Hk') as (_ & nx' & Hit). rewrite <-Hits1 in Hit by done.
    unfold s'. destruct (prev =? 0); [unfold set_slot; destruct (in_old s1 (hash k)); eauto|].
    destruct (its1 !! prev) as [itp|] eqn:Ep; [|eauto]. simpl. destruct (decide (q = prev)) as [->|].
    - rewrite lookup_insert_eq. rewrite Ep in Hit. injection Hit as ->. eauto.
    - rewrite lookup_insert_ne by done. eauto. }
  (* the table the key was in, and the other one *)
  assert (bk (next_of s') (table s' (hash k)) (λ j q, key_at s m (hash k) j q ∧ q ≠ p)) as Htab.
  { apply Hun; [|done|done]. unfold table. rewrite Eo. unfold s'. destruct (decide (prev = 0)) as [->|Hne].
    - simpl. unfold set_slot. change (in_old s1 (hash k)) with (in_old s (hash k)).
      change (bucket s1 (hash k)) with (bucket s (hash k)). by destruct (in_old s (hash k)).
    - rewrite (proj2 (Z.eqb_neq _ _)) by done. destruct (Hpi Hne) as [it Hit]. rewrite Hit. simpl.
      split; [by destruct (in_old s (hash k))|]. unfold next_of. simpl. by rewrite lookup_insert_eq. }
  assert (∀ R tbl, bk (next_of s) tbl R → (∀ i q, R i q → q ≠ p ∧ q ≠ prev) → bk (next_of s') tbl R) as Hoth.
  { intros R tbl Hb HR. eapply bk_frame; [exact Hb|]. intros i q Hq. destruct (HR _ _ Hq). by apply Hnx. }
  assert (∀ old i q, in_old s (hash k) ≠ old →
    (∃ k', m !! k' = Some q ∧ in_old s (hash k') = old ∧ bucket s (hash k') = i) → q ≠ p ∧ q ≠ prev) as Hsep.
  { intros old i q Ho (k' & Hk' & Ho' & _). split.
    - intros ->. rewrite (Hinj _ Hk') in Ho'. done.
    - intros ->. destruct (decide (prev = 0)) as [->|Hne].
      + by destruct (v_item _ _ Hi _ _ Hk').
      + destruct (Hprev Hne) as [Hat _]. unfold key_at, old_at, prim_at in Hat.
        destruct (in_old s (hash k)) eqn:E; destruct Hat as (k2 & Hk2 & Ho2 & _);
          rewrite (key_inj _ _ _ _ _ Hi Hk2 Hk') in Ho2; congruence. }
  destruct Hi as [Hhp Hpl Hex Hit Hpb Hob [Hcn Hcs] Hw].
  split; [|by rewrite Em, Eh]. split.
  - by rewrite Eh.
  - rewrite Eh, <-Hpl. unfold s', set_slot. destruct (prev =? 0); [destruct (in_old s1 (hash k)); [done|simpl; by rewrite length_insert]|].
    by destruct (its1 !! prev).
  - rewrite Ee, Eh, Eeb. intros E. destruct (Hex E) as (H1 & H2 & H3). split_and!; [done| |lia|lia].
    rewrite <-H2. unfold s', set_slot. destruct (prev =? 0); [destruct (in_old s1 (hash k)); [simpl; by rewrite length_insert|done]|].
    by destruct (its1 !! prev).
  - intros k' q [Hne Hk']%lookup_delete_Some. split; [by apply (Hit k')|]. apply Hkeys; [done|]. intros ->. apply Hne. symmetry. by apply Hinj.
  - eapply bk_ext; [|intros i q _; unfold prim_at; rewrite Eo, Eb; symmetry; by eapply at_delete].
    unfold table, key_at in Htab. rewrite Eo in Htab. destruct (in_old s (hash k)) eqn:E.
    + eapply bk_ext; [|intros i q _; split; [intros Hx; split; [exact Hx|by apply (Hsep false i q)]|by intros [? _]]].
      assert (primary_hashtable s' = primary_hashtable s) as ->.
      { unfold s', set_slot. change (in_old s1 (hash k)) with (in_old s (hash k)). rewrite E.
        destruct (prev =? 0); [done|]. by destruct (its1 !! prev). }
      apply Hoth; [exact Hpb|]. intros i q Hq. by apply (Hsep false i q).
    + exact Htab.
  - rewrite Ee. intros Ex. eapply bk_ext; [|intros i q _; unfold old_at; rewrite Eo, Eb; symmetry; by eapply at_delete].
    unfold table, key_at in Htab. rewrite Eo in Htab. destruct (in_old s (hash k)) eqn:E.
    + exact Htab.
    + eapply bk_ext; [|intros i q _; split; [intros Hx; split; [exact Hx|by apply (Hsep true i q)]|by intros [? _]]].
      assert (old_hashtable s' = old_hashtable s) as ->.
      { unfold s', set_slot. change (in_old s1 (hash k)) with (in_old s (hash k)). rewrite E.
        destruct (prev =? 0); [done|]. by destruct (its1 !! prev). }
      apply Hoth; [by apply Hob|]. intros i q Hq. by apply (Hsep true i q).
  - rewrite Ec, Hcn. rewrite map_size_delete_Some by eauto.
    assert (size m ≠ 0%nat) by (intros Hz%map_size_empty_inv; subst m; by rewrite lookup_empty in Hk).
    rewrite wrapu_small by lia. rewrite Nat2Z.inj_pred by lia. lia.
  - by rewrite Em, Ee.
Qed.

Lemma delete_absent s m k :
  inv s m → m !! k = None →
  assoc_delete k (Z.of_nat (length k)) (hash k) s = Err FAssert.
Proof.
  intros Hi Hk. destruct (before_miss s m k Hi Hk) as (prev & Hb). unfold assoc_delete. by mstep Hb.
Qed.

(** ** Moving one chain of the old table *)

Definition new_slot s (k : list Z) : nat := Z.to_nat (Z.land (hash k) (hashmask (hashpower s))).

(** The items of the chain keep their keys and get new links; every other item is untouched. *)
Lemma move_chain_run l fuel it s m R :
  chain (next_of s) it l → (length l ≤ fuel)%nat →
  (∀ q, q ∈ l → ∃ k nx, m !! k = Some q ∧ items s !! q = Some (mkItem nx (Z.of_nat (length k)) k) ∧
    (new_slot s k < length (primary_hashtable s))%nat) →
  bk (next_of s) (primary_hashtable s) R → (∀ i q, q ∈ l → ¬ R i q) →
  ∃ its prim, move_chain hash fuel it s = Ok (tt, set_primary (set_items s its) prim) ∧
    length prim = length (primary_hashtable s) ∧
    (∀ q, q ∉ l → its !! q = items s !! q) ∧
    (∀ q k nx, items s !! q = Some (mkItem nx (Z.of_nat (length k)) k) →
      ∃ nx', its !! q = Some (mkItem nx' (Z.of_nat (length k)) k)) ∧
    bk (λ a, h_next <$> its !! a) prim
      (λ i q, R i q ∨ (q ∈ l ∧ ∃ k nx, items s !! q = Some (mkItem nx (Z.of_nat (length k)) k) ∧ i = new_slot s k)).
Proof.
  revert fuel it s R. induction l as [|p l IH]; intros fuel it s R Hc Hf Hk Hb Hno.
  - simpl in Hc. subst it. exists (items s), (primary_hashtable s). split_and!; [by destruct fuel, s|done|done|eauto|].
    eapply bk_ext; [exact Hb|]. intros i q _. set_solver.
  - pose proof (chain_NoDup _ _ _ Hc) as [Hnp Hnd]%NoDup_cons. destruct Hc as (-> & Hp0 & r & Hr & Hc).
    simpl in Hf. destruct fuel as [|fuel]; [lia|].
    destruct (Hk p) as (k & nx & Hm & Hp & Hslot); [set_solver|].
    assert (nx = r) as -> by (unfold next_of in Hr; rewrite Hp in Hr; by simplify_eq/=).
    destruct (lookup_lt_is_Some_2 _ _ Hslot) as [hd Hhd].
    set (its1 := <[p := mkItem hd (Z.of_nat (length k)) k]> (items s)).
    set (s1 := set_primary (set_items s its1) (<[new_slot s k := p]> (primary_hashtable s))).
    assert (∀ q, q ≠ p → its1 !! q = items s !! q) as Hother.
    { intros q Hq. unfold its1. by rewrite lookup_insert_ne. }
    destruct (IH fuel r s1 (λ j q, R j q ∨ (j = new_slot s k ∧ q = p))) as (its & prim & Hrun & Hlen & Hout & Hkeys & Hbk).
    + eapply seg_frame; [exact Hc|]. intros a Ha. unfold next_of. simpl. rewrite Hother; [done|]. by intros ->.
    + lia.
    + intros q Hq. destruct (Hk q) as (k' & nx' & Hm' & Hq' & Hs'); [set_solver|]. exists k', nx'.
      simpl. rewrite Hother by (by intros ->). rewrite length_insert. done.
    + simpl. eapply bk_push; [exact Hb|exact Hhd|done| | |].
      * unfold next_of. simpl. unfold its1. by rewrite lookup_insert_eq.
      * intros j. apply Hno. set_solver.
      * intros j q Hq. unfold next_of. simpl. rewrite Hother; [done|]. intros ->. eapply Hno; [|exact Hq]. set_solver.
    + intros i q Hq [HR|[-> ->]]; [|done]. eapply Hno; [|exact HR]. set_solver.
    + exists its, prim. split_and!.
      * cbn [move_chain]. zneq p 0. mstep (get_item_run _ _ _ Hp). rewrite bind_get. cbn [nkey ikey h_next].
        rewrite Nat2Z.id, firstn_all. fold (new_slot s k). unfold deref. rewrite Hhd.
        rewrite (bind_lift _ _ s hd eq_refl). mstep (put_next_run _ _ _ hd Hp). rewrite bind_modify.
        cbn [nkey ikey]. change (primary_hashtable (set_items s (<[p:=mkItem hd (Z.of_nat (length k)) k]> (items s))))
          with (primary_hashtable s). exact Hrun.
      * rewrite Hlen. simpl. by rewrite length_insert.
      * intros q Hq. rewrite Hout by set_solver. simpl. apply Hother. set_solver.
      * intros q k' nx' Hq. destruct (decide (q = p)) as [->|Hqp].
        -- rewrite Hp in Hq. assert (k' = k) as -> by congruence.
           apply (Hkeys p k hd). simpl. unfold its1. by rewrite lookup_insert_eq.
        -- apply (Hkeys q k' nx'). simpl. by rewrite Hother.
      * eapply bk_ext; [exact Hbk|]. intros i q _. simpl. split.
        -- intros [[HR|[-> ->]]|(Hq & k' & nx' & Hit & ->)].
           ++ by left.
           ++ right. split; [set_solver|]. by exists k, r.
           ++ right. split; [set_solver|]. exists k', nx'. split; [|done].
              rewrite <-Hother; [done|]. by intros ->.
        -- intros [HR|(Hq & k' & nx' & Hit & ->)]; [by left; left|].
           apply elem_of_cons in Hq as [->|Hq].
           ++ left. right. split; [|done]. rewrite Hp in Hit. assert (k' = k) as -> by congruence. done.
           ++ right. split; [done|]. exists k', nx'. split; [|done]. rewrite Hother; [done|]. by intros ->.
Qed.

(** ** One bucket *)

Lemma mod_split h n : 0 ≤ n → (h mod 2 ^ (n + 1)) mod 2 ^ n = h mod 2 ^ n.
Proof.
  intros Hn. rewrite Z.pow_add_r by lia. rewrite Z.mod_mod_divide; [done|]. exists (2 ^ 1). lia.
Qed.

Lemma move_bucket_run s m :
  inv s m → expanding s = true →
  ∃ s', move_bucket hash s = Ok (tt, s') ∧ inv s' m ∧ maint s' = maint s ∧ hashpower s' = hashpower s ∧
    expand_bucket s' = expand_bucket s + 1 ∧
    expanding s' = negb (expand_bucket s + 1 =? 2 ^ (hashpower s - 1)).
Proof.
  intros Hi Ee. destruct (v_exp _ _ Hi Ee) as (Hh1 & Hol & He). pose proof (v_hp _ _ Hi) as Hhp.
  pose proof (v_prim _ _ Hi) as Hpl.
  set (e := expand_bucket s) in *. set (hp := hashpower s) in *.
  assert (0 < 2 ^ (hp - 1)) as Hpow by (apply Z.pow_pos_nonneg; lia).
  destruct (lookup_lt_is_Some_2 (old_hashtable s) (Z.to_nat e)) as [hd Hhd]; [lia|].
  destruct (v_obk _ _ Hi Ee _ _ Hhd) as (l & Hc & Hl).
  assert (∀ k, new_slot s k = Z.to_nat (hash k mod 2 ^ hp)) as Hslot.
  { intros k. unfold new_slot. by rewrite mask_mod by lia. }
  destruct (move_chain_run l (size (items s)) hd s m (prim_at s m)) as (its & prim & Hrun & Hlen & Hout & Hkeys & Hbk).
  - exact Hc.
  - eapply chain_le_size; [exact Hc|]. apply next_alloc'.
  - intros q Hq. apply Hl in Hq as (k & Hk & Ho & Hb). destruct (v_item _ _ Hi _ _ Hk) as (_ & nx & Hq).
    exists k, nx. split_and!; [done|done|]. rewrite Hslot.
    pose proof (Z.mod_pos_bound (hash k) (2 ^ hp) ltac:(apply Z.pow_pos_nonneg; lia)). lia.
  - apply Hi.
  - intros i q Hq (k & Hk & Ho & _). apply Hl in Hq as (k' & Hk' & Ho' & _).
    rewrite (key_inj _ _ _ _ _ Hi Hk Hk') in Ho. congruence.
  - set (old' := <[Z.to_nat e := 0]> (old_hashtable s)).
    set (fin := e + 1 =? 2 ^ (hp - 1)).
    set (s' := set_old (set_expanding (set_primary (set_items s its) prim) (negb fin) (e + 1)) (if fin then [] else old')).
    exists s'. split_and!; [| |done|done|done|done].
    + unfold move_bucket. rewrite bind_get. unfold deref. fold e. rewrite Hhd. rewrite (bind_lift _ _ s hd eq_refl).
      mstep Hrun. rewrite !bind_modify. rewrite bind_get. cbn [expand_bucket hashpower set_old set_expanding set_primary set_items old_hashtable expanding].
      fold e. fold old'. fold hp. rewrite hashsize_pow by lia. rewrite Ee. unfold s'. fold fin. by destruct fin.
    + assert (∀ k p, m !! k = Some p → ∃ nx, its !! p = Some (mkItem nx (Z.of_nat (length k)) k)) as Hit.
      { intros k p Hk. destruct (v_item _ _ Hi _ _ Hk) as (_ & nx & Hp). by eapply Hkeys. }
      assert (∀ k, in_old s (hash k) = (e <=? hash k mod 2 ^ (hp - 1))) as Hio.
      { intros k. rewrite (in_old_eq _ _ _ Hi), Ee. done. }
      assert (∀ k, in_old s' (hash k) = (e + 1 <=? hash k mod 2 ^ (hp - 1))) as Hio'.
      { intros k. unfold in_old. simpl. fold hp. rewrite u32_mask by lia.
        rewrite wrapu_small by (pose proof (pow2_le (hp - 1) 31 ltac:(lia)); lia).
        unfold fin. destruct (Z.eqb_spec (e + 1) (2 ^ (hp - 1))) as [Heq|]; [|done]. simpl.
        symmetry. apply Z.leb_gt. rewrite Heq. by apply Z.mod_pos_bound. }
      assert (∀ k, in_old s' (hash k) = true → bucket s' (hash k) = Z.to_nat (hash k mod 2 ^ (hp - 1))) as Hbo'.
      { intros k E. unfold bucket. rewrite E. simpl. fold hp. by rewrite u32_mask by lia. }
      assert (∀ k, in_old s' (hash k) = false → bucket s' (hash k) = Z.to_nat (hash k mod 2 ^ hp)) as Hbp'.
      { intros k E. unfold bucket. rewrite E. simpl. fold hp. by rewrite mask_mod by lia. }
      assert (∀ k, bucket s (hash k) = Z.to_nat (hash k mod 2 ^ (if in_old s (hash k) then hp - 1 else hp))) as Hbs.
      { intros k. by rewrite (bucket_eq _ _ _ Hi). }
      assert (∀ k q, m !! k = Some q → q ∈ l ↔ hash k mod 2 ^ (hp - 1) = e) as Hql.
      { intros k q Hk. rewrite Hl. split.
        - intros (k' & Hk' & Ho & Hb). rewrite (key_inj _ _ _ _ _ Hi Hk' Hk) in *. rewrite Hbs, Ho in Hb.
          pose proof (Z.mod_pos_bound (hash k) (2 ^ (hp - 1)) Hpow). lia.
        - intros Heq. exists k. split; [done|]. assert (in_old s (hash k) = true) as Ho by (rewrite Hio; apply Z.leb_le; lia).
          rewrite Hbs, Ho. split; [done|]. by rewrite Heq. }
      destruct Hi as [_ _ _ Hitem Hpb Hob Hcn Hw]. split; simpl.
      * done.
      * by rewrite Hlen.
      * fold hp. intros Ef. apply negb_true_iff in Ef. split; [done|]. rewrite Ef. unfold old'. rewrite length_insert.
        split; [done|]. apply Z.eqb_neq in Ef. lia.
      * intros k p Hk. split; [by apply (Hitem k p)|by apply Hit].
      * eapply bk_ext; [exact Hbk|]. intros i q _. split.
        -- intros [(k & Hk & Ho & Hb)|(Hq & k & nx & Hq' & ->)].
           ++ exists k. split; [done|]. rewrite Hio in Ho. assert (in_old s' (hash k) = false) as Ho'.
              { rewrite Hio'. apply Z.leb_gt. apply Z.leb_gt in Ho. lia. }
              split; [done|]. rewrite Hbp' by done. rewrite <-Hb, Hbs, Hio, Ho. done.
           ++ apply Hl in Hq as Hq2. destruct Hq2 as (k' & Hk' & _). destruct (Hitem _ _ Hk') as (_ & nx' & Hit').
              assert (k' = k) as -> by congruence. exists k. split; [done|].
              assert (in_old s' (hash k) = false) as Ho'.
              { rewrite Hio'. apply Z.leb_gt. apply (Hql k q Hk') in Hq. lia. }
              split; [done|]. by rewrite Hbp', Hslot.
        -- intros (k & Hk & Ho & Hb). rewrite Hbp' in Hb by done. rewrite Hio' in Ho. apply Z.leb_gt in Ho.
           destruct (decide (hash k mod 2 ^ (hp - 1) = e)) as [Heq|Hne].
           ++ right. split; [by apply (Hql k q)|]. destruct (Hitem _ _ Hk) as (_ & nx & Hq). exists k, nx.
              split; [done|]. by rewrite Hslot.
           ++ left. exists k. assert (in_old s (hash k) = false) as Ho1 by (rewrite Hio; apply Z.leb_gt; lia).
              split_and!; [done|done|]. rewrite Hbs, Ho1. done.
      * intros Ef. apply negb_true_iff in Ef. rewrite Ef.
        eapply bk_ext; [eapply bk_frame; [apply (bk_clear _ _ (old_at s m) (Z.to_nat e)), (Hob Ee)|]|].
        -- intros i q ((k & Hk & Ho & Hb) & Hne). unfold next_of. simpl. rewrite Hout; [done|].
           intros Hq. apply (Hql k q Hk) in Hq. apply Hne. by rewrite <-Hb, Hbs, Ho, Hq.
        -- intros i q _. split.
           ++ intros ((k & Hk & Ho & Hb) & Hne). exists k. split; [done|]. rewrite Hbs, Ho in Hb.
              assert (in_old s' (hash k) = true) as Ho'.
              { rewrite Hio in Ho. rewrite Hio'. apply Z.leb_le. apply Z.leb_le in Ho. lia. }
              split; [done|]. by rewrite Hbo'.
           ++ intros (k & Hk & Ho & Hb). rewrite Hbo' in Hb by done. rewrite Hio' in Ho. apply Z.leb_le in Ho.
              assert (in_old s (hash k) = true) as Ho1 by (rewrite Hio; apply Z.leb_le; lia).
              split; [exists k; split_and!; [done|done|by rewrite Hbs, Ho1]|]. lia.
      * done.
      * intros Hw'. specialize (Hw Hw'). congruence.
Qed.

(** ** The maintenance thread *)

(** How many buckets are still to move. *)
Definition buckets_left s : Z := if expanding s then 2 ^ (hashpower s - 1) - expand_bucket s else 0.

Lemma buckets_left_pos s m : inv s m → 0 ≤ buckets_left s ∧ (expanding s = true ↔ 0 < buckets_left s).
Proof.
  intros Hi. unfold buckets_left. destruct (expanding s) eqn:E; [|done].
  destruct (v_exp _ _ Hi E) as (_ & _ & ?). lia.
Qed.

Lemma move_buckets_run n s m :
  inv s m →
  ∃ s', move_buckets hash n s = Ok (tt, s') ∧ inv s' m ∧ maint s' = maint s ∧ hashpower s' = hashpower s ∧
    buckets_left s' = Z.max 0 (buckets_left s - Z.of_nat n).
Proof.
  revert s. induction n as [|n IH]; intros s Hi; pose proof (buckets_left_pos _ _ Hi) as [H0 Hpos].
  - exists s. split_and!; [done|done|done|done|lia].
  - cbn [move_buckets]. rewrite bind_get. destruct (expanding s) eqn:E.
    + destruct (move_bucket_run s m Hi E) as (s1 & Hrun & Hi1 & Hm1 & Hh1 & Hb1 & He1).
      destruct (IH s1 Hi1) as (s' & Hrun' & Hi' & Hm' & Hh' & Hb').
      exists s'. mstep Hrun. split_and!; [exact Hrun'|done|congruence|congruence|]. rewrite Hb'.
      destruct (v_exp _ _ Hi E) as (_ & _ & ?). unfold buckets_left. rewrite He1, Hb1, Hh1, E.
      destruct (Z.eqb_spec (expand_bucket s + 1) (2 ^ (hashpower s - 1))); simpl; lia.
    + exists s. split_and!; [done|done|done|done|]. assert (buckets_left s = 0) as ->; [|lia].
      unfold buckets_left. by rewrite E.
Qed.

Lemma pass_run s m :
  inv s m → maint s = Running → 0 ≤ hash_bulk_move →
  ∃ s', maintenance_pass hash hash_bulk_move s = Ok (tt, s') ∧ inv s' m ∧ hashpower s' = hashpower s ∧
    buckets_left s' = Z.max 0 (buckets_left s - hash_bulk_move) ∧
    maint s' = if expanding s' then Running else Waiting.
Proof.
  intros Hi Hm Hb. destruct (move_buckets_run (Z.to_nat hash_bulk_move) s m Hi) as (s1 & Hrun & Hi1 & Hm1 & Hh1 & Hb1).
  rewrite Z2Nat.id in Hb1 by done. unfold maintenance_pass. mstep Hrun. rewrite bind_get.
  destruct (expanding s1) eqn:E.
  - exists s1. split_and!; [done|done|done|done|]. by rewrite E, Hm1.
  - exists (set_maint (set_started s1 false) Waiting). split_and!; [done| |done|done|simpl; by rewrite E].
    destruct Hi1. split; try done.
Qed.

Lemma prim_at_idle s m i p : expanding s = false →
  prim_at s m i p ↔ ∃ k, m !! k = Some p ∧ Z.to_nat (Z.land (hash k) (hashmask (hashpower s))) = i.
Proof. intros E. unfold prim_at, bucket, in_old. rewrite E. simpl. naive_solver. Qed.

Lemma wake_run ok s m :
  inv s m → maint s = Waiting → (ok = true → hashpower s < 31) →
  ∃ s', maintenance_wake ok s = Ok (tt, s') ∧ inv s' m ∧ maint s' = Running ∧ expanding s' = ok ∧
    hashpower s' = (if ok then hashpower s + 1 else hashpower s) ∧
    buckets_left s' = if ok then 2 ^ hashpower s else 0.
Proof.
  intros Hi Hm Hok. pose proof (v_wait _ _ Hi Hm) as Ee.
  destruct Hi as [Hhp Hpl Hex Hit Hpb Hob Hcn Hw]. unfold maintenance_wake, assoc_expand. destruct ok; (eexists; split; [reflexivity|]).
  - specialize (Hok eq_refl). set (s' := set_maint _ _).
    assert (0 < 2 ^ hashpower s) by (apply Z.pow_pos_nonneg; lia).
    assert (∀ k, in_old s' (hash k) = true) as Hio.
    { intros k. unfold in_old, s'. simpl. apply Z.leb_le. rewrite (wrapu_small 32 0) by lia. by apply wrapu_range. }
    assert (∀ k, bucket s' (hash k) = Z.to_nat (Z.land (hash k) (hashmask (hashpower s)))) as Hbo.
    { intros k. unfold bucket. rewrite Hio. change (hashpower s') with (hashpower s + 1). rewrite Z.add_simpl_r, u32_mask by lia. by rewrite mask_mod by lia. }
    split_and!; [|done|done|done|].
    2:{ unfold buckets_left. change (expanding s') with true. change (hashpower s') with (hashpower s + 1).
        change (expand_bucket s') with 0. cbn [negb]. rewrite Z.add_simpl_r. lia. }
    split; simpl; try done.
    + lia.
    + rewrite length_replicate, hashsize_pow by lia. rewrite Z2Nat.id; [done|]. apply Z.pow_nonneg. lia.
    + intros _. rewrite Z.add_simpl_r. split_and!; [lia|done|lia|lia].
    + eapply bk_ext; [apply bk_empty|]. intros i p _. split; [done|]. intros (k & _ & Ho & _).
      fold s' in Ho. by rewrite Hio in Ho.
    + intros _. eapply bk_ext; [exact Hpb|]. intros i p _. rewrite prim_at_idle by done. fold s'. split.
      * intros (k & Hk & <-). exists k. by rewrite Hio, Hbo.
      * intros (k & Hk & _ & <-). exists k. by rewrite Hbo.
  - split_and!; [|done|done|done|unfold buckets_left; simpl; by rewrite Ee].
    split; simpl; try done; congruence.
Qed.

(** ** One turn of the thread *)

Lemma turn_run ok s m :
  inv s m → (ok = true → maint s = Waiting → hashpower s < 31) → 0 ≤ hash_bulk_move →
  ∃ s', exec start_expand hash hash_bulk_move (ETurn ok) s = Ok (None, s') ∧ inv s' m ∧
    hashpower s ≤ hashpower s' ∧ hashpower s' ≤ hashpower s + (if ok then 1 else 0).
Proof.
  intros Hi Hok Hb. cbn [exec]. rewrite bind_get. destruct (maint s) eqn:E.
  - destruct (pass_run s m Hi E Hb) as (s' & Hrun & Hi' & Hh & _). exists s'. mstep Hrun.
    rewrite Hh. split_and!; [done|done|lia|destruct ok; lia].
  - destruct (wake_run ok s m Hi E) as (s' & Hrun & Hi' & _ & _ & Hh & _); [by intros ->; apply Hok|].
    exists s'. mstep Hrun. rewrite Hh. split_and!; [done|done|destruct ok; lia|destruct ok; lia].
Qed.

End facts.
End McHashFacts.
