(* ===== verification/McHashProps.v ===== *)
(** The memcached table's properties: every interleaving of client calls and maintenance turns
    behaves like a finite map, the expansion finishes, and when it starts. *)

From S2P Require Import Prelude Chains Buckets McHash McHashFacts.
From stdpp Require Import options.

Module McHashProps.
Import McHash McHashFacts.

(** ** The abstract table: a map from keys to items *)

Definition spec (m : gmap (list Z) Z) (e : event) : option Z * gmap (list Z) Z :=
  match e with
  | EInsert it k => (None, <[k := it]> m)
  | EFind k => (Some (default 0 (m !! k)), m)
  | EDelete k => (None, delete k m)
  | ETurn _ => (None, m)
  end.

Fixpoint spec_all (m : gmap (list Z) Z) (es : list event) : list (option Z) * gmap (list Z) Z :=
  match es with
  | [] => ([], m)
  | e :: es => let '(r, m1) := spec m e in let '(rs, m2) := spec_all m1 es in (r :: rs, m2)
  end.

(** What callers of [assoc_insert] and [assoc_delete] see to: keys are not inserted twice, an
    item is in the table once, only present keys are deleted, [nkey] fits its byte and the
    counter its type. *)
Definition event_ok (m : gmap (list Z) Z) (e : event) : bool :=
  match e with
  | EInsert it k =>
      bool_decide (m !! k = None) && negb (it =? 0) && bool_decide (it ∉ (map_to_list m).*2) &&
      (Z.of_nat (length k) <? 256) && (Z.of_nat (size m) + 1 <? 2 ^ 32)
  | EDelete k => bool_decide (is_Some (m !! k))
  | EFind _ | ETurn _ => true
  end.

Fixpoint events_ok (m : gmap (list Z) Z) (es : list event) : bool :=
  match es with
  | [] => true
  | e :: es => event_ok m e && events_ok (spec m e).2 es
  end.

(** Each expansion adds one to [hashpower]; at most one per turn of the thread. *)
Fixpoint turns (es : list event) : Z :=
  match es with
  | [] => 0
  | ETurn true :: es => 1 + turns es
  | _ :: es => turns es
  end.

Section props.
Context {Sig : Type} (start_expand : Sig → Sig) (hash : list Z → Z) (hash_bulk_move : Z).
Implicit Types (s : @st Sig) (m : gmap (list Z) Z).

(** A fresh table. *)
Definition fresh (n : Z) (g : Sig) : st :=
  mkSt ∅ (replicate (Z.to_nat (2 ^ n)) 0) [] false (-1) n 0 false Waiting g.

Lemma fresh_inv n g : 0 ≤ n ≤ 31 → inv hash (fresh n g) ∅.
Proof.
  intros Hn. split; simpl; try done.
  - rewrite length_replicate, Z2Nat.id; [done|]. apply Z.pow_nonneg. lia.
  - eapply bk_ext; [apply bk_empty|]. intros i p _. split; [done|]. by intros (k & Hk & _).
Qed.

Lemma turns_nonneg es : 0 ≤ turns es.
Proof. induction es as [|[| | |[]] es IH]; simpl; lia. Qed.

Lemma exec_run s m e :
  inv hash s m → event_ok m e = true → hashpower s + turns [e] ≤ 31 → 0 ≤ hash_bulk_move →
  ∃ s', exec start_expand hash hash_bulk_move e s = Ok ((spec m e).1, s') ∧ inv hash s' (spec m e).2 ∧
    hashpower s' ≤ hashpower s + turns [e].
Proof.
  intros Hi He Hh Hb. destruct e as [it k|k|k|ok].
  - cbn [event_ok] in He. rewrite !andb_true_iff in He. destruct He as ((((Hk & Hit) & Hno) & Hl) & Hs).
    apply bool_decide_eq_true in Hk, Hno. apply negb_true_iff, Z.eqb_neq in Hit. apply Z.ltb_lt in Hl, Hs.
    destruct (insert_run start_expand hash hash_bulk_move s m k it) as (s' & Hr & Hi' & _ & Hp & _); try done.
    + intros k' Hk'. apply Hno. apply list_elem_of_fmap. exists (k', it). split; [done|]. by apply elem_of_map_to_list.
    + exists s'. split_and!; [done|done|simpl; lia].
  - cbn [exec]. exists s. mstep (find_run hash s m k Hi). split_and!; [done|done|simpl; lia].
  - cbn [event_ok] in He. apply bool_decide_eq_true in He as [p Hp].
    destruct (delete_run start_expand hash hash_bulk_move s m k p Hi Hp) as (s' & Hr & Hi' & _ & Hh').
    exists s'. split_and!; [done|done|simpl; lia].
  - destruct (turn_run start_expand hash hash_bulk_move ok s m Hi) as (s' & Hr & Hi' & _ & Hh'); [|done|].
    + intros -> _. simpl in Hh. lia.
    + exists s'. split_and!; [done|done|]. destruct ok; simpl in *; lia.
Qed.

Lemma turns_cons e es : turns (e :: es) = turns [e] + turns es.
Proof. destruct e as [| | |[]]; simpl; lia. Qed.

Lemma session_run s m es :
  inv hash s m → events_ok m es = true → hashpower s + turns es ≤ 31 → 0 ≤ hash_bulk_move →
  ∃ s', exec_all start_expand hash hash_bulk_move es s = Ok ((spec_all m es).1, s') ∧
    inv hash s' (spec_all m es).2.
Proof.
  revert s m. induction es as [|e es IH]; intros s m Hi Ho Hh Hb; [by exists s|].
  simpl in Ho. apply andb_true_iff in Ho as [He Ho]. rewrite turns_cons in Hh. pose proof (turns_nonneg es).
  destruct (exec_run s m e Hi He) as (s1 & Hr & Hi1 & Hh1); [lia|done|].
  destruct (IH s1 _ Hi1 Ho) as (s' & Hr' & Hi'); [lia|done|].
  exists s'. cbn [exec_all spec_all]. mstep Hr. mstep Hr'.
  destruct (spec m e) as [r m1] eqn:E1. simpl in *. by destruct (spec_all m1 es) as [rs m2].
Qed.

(** C3. Whatever the interleaving of insertions, lookups, deletions and maintenance turns
    (with failed or successful allocations), the table answers every call as a finite map
    would: an item is found whether its bucket was moved or not, none is lost or duplicated by
    the move, and the invariant holds at the end. *)
Theorem mc_session_refines s m es :
  inv hash s m → events_ok m es = true → hashpower s + turns es ≤ 31 → 0 ≤ hash_bulk_move →
  ∃ s', exec_all start_expand hash hash_bulk_move es s = Ok ((spec_all m es).1, s') ∧
    inv hash s' (spec_all m es).2.
Proof. apply session_run. Qed.

(** C13. An expansion under way ends: the thread's turns, [ceil (left / hash_bulk_move)] of
    them, move every bucket that is left, whatever the outcome of later allocations would be;
    then the thread waits, the old table is gone and the contents are the same. *)
Theorem mc_expansion_finishes s m :
  inv hash s m → expanding s = true → 1 ≤ hash_bulk_move →
  ∃ s', exec_all start_expand hash hash_bulk_move
      (replicate (Z.to_nat ((buckets_left s + hash_bulk_move - 1) / hash_bulk_move)) (ETurn false)) s =
      Ok (replicate (Z.to_nat ((buckets_left s + hash_bulk_move - 1) / hash_bulk_move)) None, s') ∧
    inv hash s' m ∧ expanding s' = false ∧ maint s' = Waiting ∧ hashpower s' = hashpower s.
Proof.
  intros Hi He Hb. assert (maint s = Running) as Hm.
  { destruct (maint s) eqn:E; [done|]. rewrite (v_wait _ _ _ Hi E) in He. done. }
  remember (Z.to_nat ((buckets_left s + hash_bulk_move - 1) / hash_bulk_move)) as n eqn:Hn.
  revert s Hi He Hm Hn. induction n as [|n IH]; intros s Hi He Hm Hn; pose proof (buckets_left_pos _ _ _ Hi) as [H0 Hp].
  - apply Hp in He. exfalso. assert (1 ≤ (buckets_left s + hash_bulk_move - 1) / hash_bulk_move); [|lia].
    apply Z.div_le_lower_bound; lia.
  - apply Hp in He. destruct (pass_run hash hash_bulk_move s m Hi Hm) as (s1 & Hr & Hi1 & Hh1 & Hb1 & Hm1); [lia|].
    assert ((buckets_left s + hash_bulk_move - 1) / hash_bulk_move =
      1 + (buckets_left s - 1) / hash_bulk_move) as Hdiv.
    { replace (buckets_left s + hash_bulk_move - 1) with (buckets_left s - 1 + 1 * hash_bulk_move) by lia.
      rewrite Z.div_add by lia. lia. }
    assert (exec start_expand hash hash_bulk_move (ETurn false) s = Ok (None, s1)) as Hx.
    { cbn [exec]. rewrite bind_get, Hm. by mstep Hr. }
    cbn [replicate exec_all]. mstep Hx. pose proof (buckets_left_pos _ _ _ Hi1) as [H1 Hp1].
    destruct (expanding s1) eqn:E.
    + assert (0 < buckets_left s1) by (by apply Hp1). assert (buckets_left s1 = buckets_left s - hash_bulk_move) as Hl by lia.
      destruct (IH s1 Hi1 E Hm1) as (s' & Hr' & Hi' & He' & Hm' & Hh').
      { rewrite Hl. replace (buckets_left s - hash_bulk_move + hash_bulk_move - 1) with (buckets_left s - 1) by lia. lia. }
      exists s'. mstep Hr'. split_and!; [done|done|done|done|congruence].
    + assert (buckets_left s ≤ hash_bulk_move).
      { destruct (Z.le_gt_cases (buckets_left s) hash_bulk_move); [done|]. exfalso.
        assert (expanding s1 = true); [|congruence]. rewrite E. apply Hp1. lia. }
      assert (n = 0%nat) as -> by (rewrite Hdiv, Z.div_small in Hn by lia; lia).
      exists s1. split_and!; done.
Qed.

(** [assoc_delete] of a key that is not in the table fails its assertion, in either table
    and at any point of an expansion. *)
Theorem mc_delete_absent s m k :
  inv hash s m → m !! k = None →
  assoc_delete k (Z.of_nat (length k)) (hash k) s = Err FAssert.
Proof. apply delete_absent. Qed.

(** An insertion wakes the maintenance thread exactly when no expansion is under way and
    the number of items, the new one included, exceeds 3/2 of the number of buckets; it never
    starts the expansion itself. *)
Theorem mc_insert_trigger s m k p :
  inv hash s m → m !! k = None → p ≠ 0 → (∀ k', m !! k' ≠ Some p) → Z.of_nat (length k) < 256 →
  Z.of_nat (size m) + 1 < 2 ^ 32 →
  ∃ s', exec start_expand hash hash_bulk_move (EInsert p k) s = Ok (None, s') ∧
    expanding s' = expanding s ∧ maint s' = maint s ∧
    sig s' = (if negb (expanding s) && (2 ^ hashpower s * 3 / 2 <? Z.of_nat (size m) + 1)
              then start_expand (sig s) else sig s).
Proof.
  intros Hi Hk Hp Hno Hl Hsz. pose proof (v_hp _ _ _ Hi).
  destruct (insert_run start_expand hash hash_bulk_move s m k p Hi Hk Hp Hno Hl Hsz) as (s' & Hr & Hi' & Hm & Hh & He & Hg).
  exists s'. split_and!; [done|done|done|]. rewrite Hg. unfold overloaded. rewrite He, Hh, hashsize_pow by lia.
  destruct (v_count _ _ _ Hi') as [Hc _]. rewrite Hc, map_size_insert_None by done.
  by replace (Z.of_nat (S (size m))) with (Z.of_nat (size m) + 1) by lia.
Qed.
End props.

(** ** item_make_header *)

Lemma digits_pos fuel n : 1 ≤ digits fuel n.
Proof. revert n. induction fuel as [|f IH]; intros n; simpl; [lia|]. case_match; [lia|]. specialize (IH (n / 10)). lia. Qed.

Lemma digits_bound fuel n c : 0 ≤ n < 10 ^ c → 1 ≤ c → digits fuel n ≤ c.
Proof.
  revert n c. induction fuel as [|f IH]; intros n c Hn Hc; simpl; [lia|].
  destruct (Z.ltb_spec n 10); [lia|]. assert (1 < c).
  { destruct (decide (c = 1)) as [->|]; [simpl in Hn; lia|lia]. }
  assert (digits f (n / 10) ≤ c - 1); [|lia]. apply IH; [|lia]. split; [apply Z.div_pos; lia|].
  apply Z.div_lt_upper_bound; [lia|]. replace (10 * 10 ^ (c - 1)) with (10 ^ c); [lia|].
  replace c with (1 + (c - 1)) at 1 by lia. rewrite Z.pow_add_r by lia. lia.
Qed.

Lemma dec_len_bound n : - 2 ^ 31 ≤ n < 2 ^ 31 → 1 ≤ dec_len n ≤ 11.
Proof.
  intros Hn. unfold dec_len. destruct (Z.ltb_spec n 0).
  - pose proof (digits_pos 11 (- n)). assert (digits 11 (- n) ≤ 10); [|lia]. apply digits_bound; lia.
  - pose proof (digits_pos 11 n). assert (digits 11 n ≤ 10); [|lia]. apply digits_bound; lia.
Qed.

(** For every key length, flags and data length a request can carry, the suffix the header
    prints is at most 26 characters (it fits the 40 byte buffer with its terminator and
    [nsuffix] its byte), and the size is the exact sum of the parts, without wrap-around. *)
Theorem mc_header_fits nkey flags nbytes :
  0 ≤ nkey < 2 ^ 8 → - 2 ^ 31 ≤ flags < 2 ^ 31 → 0 ≤ nbytes < 2 ^ 31 →
  (item_make_header nkey flags nbytes).2 = 4 + dec_len flags + dec_len (nbytes - 2) ∧
  6 ≤ (item_make_header nkey flags nbytes).2 ≤ 26 ∧
  (item_make_header nkey flags nbytes).1 = sizeof_item + nkey + (4 + dec_len flags + dec_len (nbytes - 2)) + nbytes.
Proof.
  intros Hk Hf Hn. unfold item_make_header. rewrite (wraps_small 32) by lia.
  pose proof (dec_len_bound flags Hf). pose proof (dec_len_bound (nbytes - 2) ltac:(lia)).
  unfold sizeof_item. simpl fst. simpl snd. rewrite (wrapu_small 8) by lia. rewrite (wrapu_small 64) by lia. lia.
Qed.

(** ** Witnesses: keys of one byte, hashed to themselves *)

Definition hash1 (k : list Z) : Z := default 0 (head k).
Definition demo : list event :=
  [EInsert 100 [1]; EInsert 200 [2]; EInsert 300 [3]; EInsert 400 [4]; ETurn true; EFind [2];
   ETurn false; EFind [1]; EFind [2]; EInsert 500 [6]; EDelete [4]; ETurn false; EFind [6]; EFind [4]; EFind [3]].

Lemma mc_session_refines_witness :
  (spec_all ∅ demo).1 = [None; None; None; None; None; Some 200; None; Some 100; Some 200; None; None; None; Some 500; Some 0; Some 300] ∧
  ∃ s', exec_all S hash1 1 demo (fresh 1 0%nat) = Ok ((spec_all ∅ demo).1, s') ∧ inv hash1 s' (spec_all ∅ demo).2.
Proof. split; [by vm_compute|]. apply (mc_session_refines S hash1 1 (fresh 1 0%nat) ∅ demo); [by apply fresh_inv|by vm_compute|by vm_compute|done]. Defined.

(** The state in the middle of the expansion. *)
Definition half : @st nat := match exec_all S hash1 1 (take 5 demo) (fresh 1 0%nat) with Ok (_, s) => s | Err _ => fresh 1 0%nat end.

Lemma half_inv : inv hash1 half (spec_all ∅ (take 5 demo)).2.
Proof.
  destruct (session_run S hash1 1 (fresh 1 0%nat) ∅ (take 5 demo)) as (s' & Hr & Hi);
    [by apply fresh_inv|by vm_compute|by vm_compute|done|].
  unfold half. by rewrite Hr.
Qed.

Lemma mc_expansion_finishes_witness :
  expanding half = true ∧ buckets_left half = 2 ∧
  ∃ s', exec_all S hash1 1 [ETurn false; ETurn false] half = Ok ([None; None], s') ∧
    inv hash1 s' (spec_all ∅ (take 5 demo)).2 ∧ expanding s' = false ∧ maint s' = Waiting ∧ hashpower s' = 2.
Proof.
  split; [by vm_compute|]. split; [by vm_compute|].
  apply (mc_expansion_finishes S hash1 1 half _ half_inv); [by vm_compute|done].
Defined.

Lemma mc_delete_absent_witness : assoc_delete [9] 1 (hash1 [9]) half = Err FAssert.
Proof. apply (mc_delete_absent hash1 half _ [9] half_inv). by vm_compute. Defined.

Lemma mc_insert_trigger_witness :
  ∃ s', exec S hash1 1 (EInsert 7 [5]) (fresh 0 0%nat) = Ok (None, s') ∧ expanding s' = false ∧ maint s' = Waiting ∧ sig s' = 0%nat.
Proof.
  destruct (mc_insert_trigger S hash1 1 (fresh 0 0%nat) ∅ [5] 7) as (s' & H1 & H2 & H3 & H4); [by apply fresh_inv|done..|].
  exists s'. split_and!; [done|done|done|]. by rewrite H4, map_size_empty.
Defined.

Lemma mc_header_fits_witness : (item_make_header 250 (- 2 ^ 31) 0).2 = 17.
Proof. pose proof (mc_header_fits 250 (- 2 ^ 31) 0 ltac:(lia) ltac:(lia) ltac:(lia)) as [H _]. exact H. Defined.

End McHashProps.
