(* ===== verification/RedisDict.v ===== *)
(** The redis dictionary [memcached_hashtable/redis_hashtable.c]: two chained hash tables and
    an incremental rehash from the first to the second, iterators and their fingerprint.

    The file does not compile as it stands.  It is read as it is evidently meant where a name is
    misspelt: [u.used] is [n.used], [d->dt[0]] is [d->ht[0]], [if(prev)] is [if(prevHe)],
    [orighe]/[origin] are one variable, [entry->val] is [entry->v.val], [dictHash] is
    [dictHashKey], [privdata] is [privDataPtr], [return] without a value in [_dictClear] returns
    [DICT_OK].  Names the file uses without declaring them are parameters: the macros
    [dictHashKey], [dictCompareKeys], [dictFreeKey] and [dictSize] of dict.h, the constants
    [DICT_HT_INITIAL_SIZE], [dict_can_resize] and [dict_force_resize_ratio], and [zmalloc], which
    gives an address and whatever the memory holds. *)

From S2P Require Import Prelude Chains Buckets.
From stdpp Require Import options.

Module RedisDict.

Definition DICT_OK := 0.
Definition DICT_ERR := 1.
Definition LONG_MAX := 2 ^ 63 - 1.

(** [table] is the array's address, [slots] what it holds. *)
Record dictht := mkHt { table : Z; slots : list Z; size_ : Z; sizemask : Z; used : Z }.

(** The union [v] is the 8 bytes it occupies. *)
Record dictEntry := mkEntry { key : Z; val : Z; next : Z }.

(** The functions of a dictionary type that the code calls; [W] is what destructors act on. *)
Record dictType (W : Type) := mkType {
  keyDup : option (Z → Z);
  valDup : option (Z → Z);
  valDestructor : option (Z → W → W);
}.
Arguments mkType {W} _ _ _.
Arguments keyDup {W} _.
Arguments valDup {W} _.
Arguments valDestructor {W} _.

Definition _dictReset : dictht := mkHt 0 [] 0 0 0.

Section dict.
Context {W : Type} (type : dictType W).
Context (dictHashKey : Z → Z) (dictCompareKeys : Z → Z → bool) (dictFreeKey : Z → W → W).
Context (DICT_HT_INITIAL_SIZE dict_force_resize_ratio : Z) (dict_can_resize : bool).
(** [zmalloc] of an entry and of an array of slots. *)
Context (new_entry : gmap Z dictEntry → Z * dictEntry) (new_table : gmap Z dictEntry → Z → Z * list Z).

Record dict := mkDict {
  heap : gmap Z dictEntry;
  ht0 : dictht;
  ht1 : dictht;
  rehashidx : Z;
  iterators : Z;
  world : W;
}.

Abbreviation MD := (M dict).

Definition set_heap d h := mkDict h (ht0 d) (ht1 d) (rehashidx d) (iterators d) (world d).
Definition set_idx d i := mkDict (heap d) (ht0 d) (ht1 d) i (iterators d) (world d).
Definition set_iterators d n := mkDict (heap d) (ht0 d) (ht1 d) (rehashidx d) n (world d).
Definition set_world d w := mkDict (heap d) (ht0 d) (ht1 d) (rehashidx d) (iterators d) w.

(** [d->ht[t]]: [false] is 0. *)
Definition ht d (t : bool) : dictht := if t then ht1 d else ht0 d.
Definition set_ht d (t : bool) h : dict :=
  if t then mkDict (heap d) (ht0 d) h (rehashidx d) (iterators d) (world d)
  else mkDict (heap d) h (ht1 d) (rehashidx d) (iterators d) (world d).

Definition set_slots h l := mkHt (table h) l (size_ h) (sizemask h) (used h).
Definition set_used h n := mkHt (table h) (slots h) (size_ h) (sizemask h) n.

Definition dictIsRehashing d : bool := negb (rehashidx d =? -1).

Definition get_entry (a : Z) : MD dictEntry := d ← get; lift (deref (heap d !! a)).
Definition put_entry (a : Z) (e : dictEntry) : MD unit := modify (λ d, set_heap d (<[a := e]> (heap d))).
Definition put_next (a n : Z) : MD unit := e ← get_entry a; put_entry a (mkEntry (key e) (val e) n).
Definition get_slot (t : bool) (i : Z) : MD Z := d ← get; lift (deref (slots (ht d t) !! Z.to_nat i)).
Definition put_slot (t : bool) (i a : Z) : MD unit :=
  modify (λ d, set_ht d t (set_slots (ht d t) (<[Z.to_nat i := a]> (slots (ht d t))))).
Definition add_used (t : bool) (n : Z) : MD unit :=
  modify (λ d, set_ht d t (set_used (ht d t) (u64 (used (ht d t) + n)))).

(** ** Creation *)

Definition _dictInit (h : gmap Z dictEntry) (w : W) : dict := mkDict h _dictReset _dictReset (-1) 0 w.
Definition dictCreate (h : gmap Z dictEntry) (w : W) : dict := _dictInit h w.

(** ** Keys and values of an entry *)

Definition dup (f : option (Z → Z)) (x : Z) : Z := match f with Some f => f x | None => x end.

Definition dictSetKey (entry k : Z) : MD unit :=
  e ← get_entry entry; put_entry entry (mkEntry (dup (keyDup type) k) (val e) (next e)).
Definition dictSetVal (entry v : Z) : MD unit :=
  e ← get_entry entry; put_entry entry (mkEntry (key e) (dup (valDup type) v) (next e)).
Definition dictFreeVal (v : Z) : MD unit :=
  match valDestructor type with Some f => modify (λ d, set_world d (f v (world d))) | None => mret tt end.
Definition dictGetVal (he : Z) : MD Z := e ← get_entry he; mret (val e).
Definition zfree (he : Z) : MD unit := modify (λ d, set_heap d (delete he (heap d))).
(** The sequence [dictFreeKey; dictFreeVal; zfree]. *)
Definition free_entry (he : Z) : MD unit :=
  e ← get_entry he;
  modify (λ d, set_world d (dictFreeKey (key e) (world d)));;
  dictFreeVal (val e);;
  zfree he.

(** ** Rehashing *)

(** [while(de)]: the entries of one bucket go to the second table. *)
Fixpoint rehash_chain (fuel : nat) (de : Z) : MD unit :=
  if de =? 0 then mret tt else
  match fuel with
  | O => fail FFuel
  | S fuel =>
      e ← get_entry de;
      d ← get;
      let h := Z.land (dictHashKey (key e)) (sizemask (ht1 d)) in
      hd ← get_slot true h;
      put_next de hd;;
      put_slot true h de;;
      add_used false (-1);;
      add_used true (-1);;
      rehash_chain fuel (next e)
  end.

(** [while(d->ht[0].table[d->rehashidx] == NULL)]: the empty visits left, or [None] for
    [return 1]. *)
Fixpoint skip_empty (fuel : nat) (empty_visits : Z) : MD (option Z) :=
  d ← get;
  hd ← get_slot false (rehashidx d);
  if negb (hd =? 0) then mret (Some empty_visits) else
  modify (λ d, set_idx d (rehashidx d + 1));;
  if empty_visits - 1 =? 0 then mret None else
  match fuel with
  | O => fail FFuel
  | S fuel => skip_empty fuel (empty_visits - 1)
  end.

(** [while(n-- && d->ht[0].used!=0)]; [true] for an early [return 1]. *)
Fixpoint rehash_loop (n : nat) (empty_visits : Z) : MD bool :=
  match n with
  | O => mret false
  | S n =>
      d ← get;
      if used (ht0 d) =? 0 then mret false else
      lift (assert_ (rehashidx d <? size_ (ht0 d)));;
      r ← skip_empty (length (slots (ht0 d))) empty_visits;
      match r with
      | None => mret true
      | Some empty_visits =>
          d ← get;
          de ← get_slot false (rehashidx d);
          rehash_chain (size (heap d)) de;;
          put_slot false (rehashidx d) 0;;
          modify (λ d, set_idx d (rehashidx d + 1));;
          rehash_loop n empty_visits
      end
  end.

(** [n] buckets, [n] not negative. *)
Definition dictRehash (n : nat) : MD Z :=
  d ← get;
  if negb (dictIsRehashing d) then mret 0 else
  early ← rehash_loop n (s32 (Z.of_nat n * 10));
  if (early : bool) then mret 1 else
  d ← get;
  if used (ht0 d) =? 0 then
    modify (λ d, set_ht (set_ht d false (ht1 d)) true _dictReset);;
    modify (λ d, set_idx d (-1));;
    mret 0
  else mret 1.

Definition _dictRehashStep : MD unit :=
  d ← get; if iterators d =? 0 then dictRehash 1;; mret tt else mret tt.

(** [if(dictIsRehashing(d)) _dictRehashStep(d);] *)
Definition step_if_rehashing : MD unit :=
  d ← get; if dictIsRehashing d then _dictRehashStep else mret tt.

(** ** Expansion *)

(** [while(1)] of [_dictNextPower]; 64 doublings are enough for any size below [LONG_MAX]. *)
Fixpoint next_power (fuel : nat) (size i : Z) : result Z :=
  if size <=? i then Ok i else
  match fuel with
  | O => Err FFuel
  | S fuel => next_power fuel size (u64 (i * 2))
  end.
Definition _dictNextPower (size : Z) : result Z :=
  if LONG_MAX <=? size then Ok (LONG_MAX + 1) else next_power 64 size DICT_HT_INITIAL_SIZE.

Definition dictExpand (size : Z) : MD Z :=
  d ← get;
  if dictIsRehashing d || (size <? used (ht0 d)) then mret DICT_ERR else
  realsize ← lift (_dictNextPower size);
  if realsize =? size_ (ht0 d) then mret DICT_ERR else
  let '(t, l) := new_table (heap d) realsize in
  let n := mkHt t l realsize (realsize - 1) 0 in
  if table (ht0 d) =? 0 then modify (λ d, set_ht d false n);; mret DICT_OK
  else modify (λ d, set_ht d true n);; modify (λ d, set_idx d 0);; mret DICT_OK.

Definition _dictExpandIfNeeded : MD Z :=
  d ← get;
  if dictIsRehashing d then mret DICT_OK else
  if size_ (ht0 d) =? 0 then dictExpand DICT_HT_INITIAL_SIZE else
  if (size_ (ht0 d) <=? used (ht0 d)) &&
     (dict_can_resize || (dict_force_resize_ratio <? used (ht0 d) / size_ (ht0 d)))
  then dictExpand (u64 (used (ht0 d) * 2)) else mret DICT_OK.

(** ** Lookup *)

Definition next_of d (a : Z) : option Z := next <$> heap d !! a.

(** [key==he->key || dictCompareKeys(d, key, he->key)]. *)
Definition match_key d (k : Z) (a : Z) : option bool :=
  e ← heap d !! a; Some ((k =? key e) || dictCompareKeys k (key e)).

(** The walk along one bucket: the entry before (0 at the head) and the entry found or 0. *)
Definition find_in (t : bool) (k h : Z) : MD (Z * Z) :=
  d ← get;
  he ← get_slot t (Z.land h (sizemask (ht d t)));
  lift (scan (size (heap d)) (next_of d) (match_key d k) 0 he).

(** The loop over the two tables: the table, the entry before and the entry. *)
Definition find_both (k h : Z) : MD (bool * Z * Z) :=
  r ← find_in false k h;
  if negb (r.2 =? 0) then mret (false, r.1, r.2) else
  d ← get;
  if negb (dictIsRehashing d) then mret (false, r.1, 0) else
  r ← find_in true k h;
  mret (true, r.1, r.2).

Definition dictFind (k : Z) : MD Z :=
  d ← get;
  if u64 (used (ht0 d) + used (ht1 d)) =? 0 then mret 0 else
  step_if_rehashing;;
  r ← find_both k (dictHashKey k);
  mret r.2.

Definition dictFetchValue (k : Z) : MD Z :=
  he ← dictFind k; if negb (he =? 0) then dictGetVal he else mret 0.

(** ** Insertion *)

(** The index, or -1, and [*existing]. *)
Definition _dictKeyIndex (k h : Z) : MD (Z * Z) :=
  r ← _dictExpandIfNeeded;
  if r =? DICT_ERR then mret (-1, 0) else
  r ← find_both k h;
  if negb (r.2 =? 0) then mret (-1, r.2) else
  d ← get;
  mret (Z.land h (sizemask (ht d (dictIsRehashing d))), 0).

(** The new entry or NULL, and [*existing]. *)
Definition dictAddRaw (k : Z) : MD (Z * Z) :=
  step_if_rehashing;;
  r ← _dictKeyIndex k (dictHashKey k);
  if r.1 =? -1 then mret (0, r.2) else
  d ← get;
  let t := dictIsRehashing d in
  let '(entry, junk) := new_entry (heap d) in
  put_entry entry junk;;
  hd ← get_slot t r.1;
  put_next entry hd;;
  put_slot t r.1 entry;;
  add_used t 1;;
  dictSetKey entry k;;
  mret (entry, r.2).

Definition dictAdd (k v : Z) : MD Z :=
  r ← dictAddRaw k;
  if r.1 =? 0 then mret DICT_ERR else dictSetVal r.1 v;; mret DICT_OK.

(** 1 when the key was new; when it was there the function ends without a [return]. *)
Definition dictReplace (k v : Z) : MD (option Z) :=
  r ← dictAddRaw k;
  if negb (r.1 =? 0) then dictSetVal r.1 v;; mret (Some 1) else
  auxentry ← get_entry r.2;
  dictSetVal r.2 v;;
  dictFreeVal (val auxentry);;
  mret None.

(** ** Deletion *)

Definition dictGenericDelete (k : Z) (nofree : bool) : MD Z :=
  d ← get;
  if (used (ht0 d) =? 0) && (used (ht1 d) =? 0) then mret 0 else
  step_if_rehashing;;
  r ← find_both k (dictHashKey k);
  let '(t, prevHe, he) := r in
  if he =? 0 then mret 0 else
  e ← get_entry he;
  d ← get;
  (if negb (prevHe =? 0) then put_next prevHe (next e)
   else put_slot t (Z.land (dictHashKey k) (sizemask (ht d t))) (next e));;
  (if nofree then mret tt else free_entry he);;
  add_used t (-1);;
  mret he.

Definition dictDelete (k : Z) : MD Z :=
  he ← dictGenericDelete k false; mret (if negb (he =? 0) then DICT_OK else DICT_ERR).
(** The status is what is returned, as a pointer. *)
Definition dictUnlink (k : Z) : MD Z :=
  he ← dictGenericDelete k true; mret (if negb (he =? 0) then DICT_OK else DICT_ERR).
Definition dictFreeUnlinkedEntry (he : Z) : MD unit :=
  if he =? 0 then mret tt else free_entry he.

(** [while(he)] of [_dictClear]. *)
Fixpoint clear_chain (t : bool) (fuel : nat) (he : Z) : MD unit :=
  if he =? 0 then mret tt else
  match fuel with
  | O => fail FFuel
  | S fuel =>
      e ← get_entry he;
      free_entry he;;
      add_used t (-1);;
      clear_chain t fuel (next e)
  end.

(** [for(i=0; i<ht->size && ht->used>0; i++)], [n] slots before the end. *)
Fixpoint clear_loop (callback : option (W → W)) (t : bool) (n : nat) (i : Z) : MD unit :=
  match n with
  | O => mret tt
  | S n =>
      d ← get;
      if negb (0 <? used (ht d t)) then mret tt else
      (match callback with
       | Some f => if Z.land i 65535 =? 0 then modify (λ d, set_world d (f (world d))) else mret tt
       | None => mret tt
       end);;
      he ← get_slot t i;
      clear_chain t (size (heap d)) he;;
      clear_loop callback t n (i + 1)
  end.

Definition _dictClear (t : bool) (callback : option (W → W)) : MD Z :=
  d ← get;
  clear_loop callback t (Z.to_nat (size_ (ht d t))) 0;;
  modify (λ d, set_ht d t _dictReset);;
  mret DICT_OK.

Definition dictRelease : MD unit := _dictClear false None;; _dictClear true None;; mret tt.

Definition dictEmpty (callback : option (W → W)) : MD unit :=
  _dictClear false callback;;
  _dictClear true callback;;
  modify (λ d, set_iterators (set_idx d (-1)) 0).

(** ** A random entry *)

(** [random()] is a sequence of numbers; each loop takes the next one. *)
Definition random_slot d (r : Z) : result Z :=
  if dictIsRehashing d then
    let h := rehashidx d + r mod (size_ (ht0 d) + size_ (ht1 d) - rehashidx d) in
    if size_ (ht0 d) <=? h then deref (slots (ht1 d) !! Z.to_nat (h - size_ (ht0 d)))
    else deref (slots (ht0 d) !! Z.to_nat h)
  else deref (slots (ht0 d) !! Z.to_nat (Z.land r (sizemask (ht0 d)))).

Fixpoint pick_bucket d (randoms : list Z) : result (Z * list Z) :=
  match randoms with
  | [] => Err FFuel
  | r :: rs => he ← random_slot d r; if he =? 0 then pick_bucket d rs else Ok (he, rs)
  end.

Fixpoint chain_len (fuel : nat) d (he : Z) : result Z :=
  if he =? 0 then Ok 0 else
  match fuel with
  | O => Err FFuel
  | S fuel => n ← deref (next_of d he); l ← chain_len fuel d n; Ok (l + 1)
  end.

Fixpoint nth_in_chain (n : nat) d (he : Z) : result Z :=
  match n with
  | O => Ok he
  | S n => nx ← deref (next_of d he); nth_in_chain n d nx
  end.

Definition dictGetRandomKey (dictSize : dict → Z) (randoms : list Z) : MD Z :=
  d ← get;
  if dictSize d =? 0 then mret 0 else
  step_if_rehashing;;
  d ← get;
  hr ← lift (pick_bucket d randoms);
  listlen ← lift (chain_len (size (heap d)) d hr.1);
  match hr.2 with
  | [] => fail FFuel
  | r :: _ => lift (nth_in_chain (Z.to_nat (r mod listlen)) d hr.1)
  end.

(** ** Iterators *)

Record dictIterator := mkIter {
  index : Z;
  itable : bool;
  safe : bool;
  ientry : Z;
  nextEntry : Z;
  fingerprint : Z;
}.

(** [fingerprint] is not initialised: whatever [zmalloc] gives. *)
Definition dictGetIterator (junk : Z) : dictIterator := mkIter (-1) false false 0 0 junk.
Definition dictGetSafeIterator (junk : Z) : dictIterator := mkIter (-1) false true 0 0 junk.

(** One round of the mixing loop, on a [long long]; [<<] and [+] wrap. *)
Definition mix (hash x : Z) : Z :=
  let hash := s64 (hash + x) in
  let hash := s64 (Z.lnot hash + Z.shiftl hash 21) in
  let hash := Z.lxor hash (Z.shiftr hash 24) in
  let hash := s64 (hash + Z.shiftl hash 3 + Z.shiftl hash 8) in
  let hash := Z.lxor hash (Z.shiftr hash 14) in
  let hash := s64 (hash + Z.shiftl hash 2 + Z.shiftl hash 4) in
  let hash := Z.lxor hash (Z.shiftr hash 28) in
  s64 (hash + Z.shiftl hash 31).

Definition dictFingerprint d : Z :=
  fold_left mix [s64 (table (ht0 d)); s64 (size_ (ht0 d)); s64 (used (ht0 d));
                 s64 (table (ht1 d)); s64 (size_ (ht1 d)); s64 (used (ht1 d))] 0.

Definition set_fingerprint it f := mkIter (index it) (itable it) (safe it) (ientry it) (nextEntry it) f.
Definition set_entry it e := mkIter (index it) (itable it) (safe it) e (nextEntry it) (fingerprint it).
Definition set_nextEntry it e := mkIter (index it) (itable it) (safe it) (ientry it) e (fingerprint it).
Definition set_pos it (t : bool) i := mkIter i t (safe it) (ientry it) (nextEntry it) (fingerprint it).

(** The first call on a new iterator. *)
Definition iter_start (it : dictIterator) : MD dictIterator :=
  if (index it =? -1) && negb (itable it) then
    if safe it then modify (λ d, set_iterators d (u64 (iterators d + 1)));; mret it
    else d ← get; mret (set_fingerprint it (dictFingerprint d))
  else mret it.

(** The step to the next slot, in the second table after the last one of the first; [true] for
    [break]. *)
Definition iter_slot (it : dictIterator) : MD (bool * dictIterator) :=
  d ← get;
  let it := set_pos it (itable it) (index it + 1) in
  if s64 (size_ (ht d (itable it))) <=? index it then
    if dictIsRehashing d && negb (itable it) then
      e ← get_slot true 0; mret (false, set_entry (set_pos it true 0) e)
    else mret (true, it)
  else e ← get_slot (itable it) (index it); mret (false, set_entry it e).

Definition iter_advance (it : dictIterator) : MD (bool * dictIterator) :=
  if negb (ientry it =? 0) then mret (false, set_entry it (nextEntry it)) else
  it ← iter_start it; iter_slot it.

(** [while(1)] of [dictNext]; each turn of it but the last moves to another slot, so the number
    of slots of both tables, and two more, is enough. *)
Fixpoint next_loop (fuel : nat) (it : dictIterator) : MD (Z * dictIterator) :=
  match fuel with
  | O => fail FFuel
  | S fuel =>
      r ← iter_advance it;
      if (r.1 : bool) then mret (0, r.2) else
      if negb (ientry r.2 =? 0) then
        e ← get_entry (ientry r.2); mret (ientry r.2, set_nextEntry r.2 (next e))
      else next_loop fuel r.2
  end.

Definition dictNext (it : dictIterator) : MD (Z * dictIterator) :=
  d ← get;
  next_loop (length (slots (ht0 d)) + length (slots (ht1 d)) + 2) it.

Definition dictReleaseIterator (it : dictIterator) : MD unit :=
  d ← get;
  if negb ((index it =? -1) && negb (itable it)) then
    if safe it then modify (λ d, set_iterators d (u64 (iterators d - 1)))
    else lift (assert_ (fingerprint it =? dictFingerprint d))
  else mret tt.

End dict.
End RedisDict.
