(* ===== verification/RedisDictFacts.v ===== *)
(** The redis dictionary as a finite map from keys to entries, split between the two tables:
    invariant, the lemmas of rehashing, lookup, insertion and deletion. *)

From S2P Require Import Prelude Chains Buckets RedisDict.
From stdpp Require Import options.

Module RedisDictFacts.
Import RedisDict.

(** What the dictionary relies on: keys that compare equal have one representative [canon] and
    one hash, duplicating a key keeps it, [zmalloc] gives fresh addresses and as many slots as
    asked for; nothing is said of what a new table's memory holds. *)
Class DictLaws {W} (type : dictType W) (dictHashKey : Z → Z) (dictCompareKeys : Z → Z → bool)
    (DICT_HT_INITIAL_SIZE : Z) (new_entry : gmap Z dictEntry → Z * dictEntry)
    (new_table : gmap Z dictEntry → Z → Z * list Z) (canon hashc : Z → Z) : Prop := {
  hash_canon k : dictHashKey k = hashc (canon k);
  compare_canon a b : dictCompareKeys a b = bool_decide (canon a = canon b);
  dup_canon k : canon (dup (keyDup type) k) = canon k;
  initial_pow : ∃ i, 0 ≤ i ≤ 60 ∧ DICT_HT_INITIAL_SIZE = 2 ^ i;
  entry_fresh h : (new_entry h).1 ≠ 0 ∧ h !! (new_entry h).1 = None;
  table_nonnull h n : (new_table h n).1 ≠ 0;
  table_length h n : length (new_table h n).2 = Z.to_nat n;
}.

Lemma wrapu_add_l w x y : wrapu w (wrapu w x + y) = wrapu w (x + y).
Proof. unfold wrapu. apply Zplus_mod_idemp_l. Qed.

Lemma bind_err {S A B} (m : M S A) (f : A → M S B) s e : m s = Err e → (m ≫= f) s = Err e.
Proof. unfold mbind, M_bind. by intros ->. Qed.

(** A known run of three statements, then the rest. *)
Lemma bind_seq3 {S A B C D} (m1 : M S A) (m2 : M S B) (m3 : M S C) (f : C → M S D) s c s' :
  (m1;; m2;; m3) s = Ok (c, s') → (m1;; m2;; m3 ≫= f) s = f c s'.
Proof.
  unfold mbind, M_bind. destruct (m1 s) as [[a s1]|]; [|done]. destruct (m2 s1) as [[b s2]|]; [|done]. by intros ->.
Qed.

(** ** [_dictNextPower] *)

Lemma next_power_spec fuel size i :
  0 ≤ i ≤ 62 → size < 2 ^ 63 → size ≤ 2 ^ (i + Z.of_nat fuel) →
  ∃ k, next_power fuel size (2 ^ i) = Ok (2 ^ k) ∧ i ≤ k ≤ 63 ∧ size ≤ 2 ^ k ∧ (k = i ∨ 2 ^ (k - 1) < size).
Proof.
  revert i. induction fuel as [|f IH]; intros i Hi Hs Hf.
  - exists i. rewrite Z.add_0_r in Hf. simpl. rewrite (proj2 (Z.leb_le _ _)) by done. split_and!; [done|lia|lia|done|by left].
  - cbn [next_power]. destruct (Z.leb_spec size (2 ^ i)) as [Hle|Hgt]; [exists i; split_and!; [done|lia|lia|done|by left]|].
    assert (2 ^ i * 2 = 2 ^ (i + 1)) as E by (rewrite Z.pow_add_r by lia; lia).
    assert (2 ^ (i + 1) ≤ 2 ^ 63) by (apply Z.pow_le_mono_r; lia).
    rewrite E, wrapu_small by lia. destruct (decide (i = 62)) as [->|Hne].
    + exists 63. assert (size ≤ 2 ^ 63) by lia.
      destruct f; simpl; rewrite (proj2 (Z.leb_le _ _)) by done; split_and!; try done; by right.
    + destruct (IH (i + 1)) as (k & Hk & Hik & Hsk & Hmin); [lia|done| |].
      * by replace (i + 1 + Z.of_nat f) with (i + Z.of_nat (S f)) by lia.
      * exists k. split_and!; [done|lia|lia|done|]. right. destruct Hmin as [->|?]; [|done].
        by replace (i + 1 - 1) with i by lia.
Qed.

Section facts.
Context {W : Type} (type : dictType W).
Context (dictHashKey : Z → Z) (dictCompareKeys : Z → Z → bool) (dictFreeKey : Z → W → W).
Context (DICT_HT_INITIAL_SIZE dict_force_resize_ratio : Z) (dict_can_resize : bool).
Context (new_entry : gmap Z dictEntry → Z * dictEntry) (new_table : gmap Z dictEntry → Z → Z * list Z).
Context (canon hashc : Z → Z).
Context {L : DictLaws type dictHashKey dictCompareKeys DICT_HT_INITIAL_SIZE new_entry new_table canon hashc}.
Implicit Types (d : @dict W) (h : dictht) (m : gmap Z (Z * Z)).

Lemma hash_c k : dictHashKey k = hashc (canon k).
Proof using L. apply (hash_canon (dictHashKey:=dictHashKey)). Qed.
Lemma compare_c a b : dictCompareKeys a b = bool_decide (canon a = canon b).
Proof using L. apply (compare_canon (dictCompareKeys:=dictCompareKeys)). Qed.

Definition bidx (mask c : Z) : nat := Z.to_nat (Z.land (hashc c) mask).

(** Who is in slot [i] of a table with the map [m] (key to entry and value). *)
Definition at_ (mask : Z) m (i : nat) (p : Z) : Prop := ∃ c v, m !! c = Some (p, v) ∧ bidx mask c = i.

Definition shape h m : Prop :=
  (table h = 0 ∧ slots h = [] ∧ size_ h = 0 ∧ used h = 0 ∧ m = ∅) ∨
  (table h ≠ 0 ∧ sizemask h = size_ h - 1 ∧ Z.of_nat (length (slots h)) = size_ h ∧
   ∃ k, 0 ≤ k ≤ 62 ∧ size_ h = 2 ^ k).

Record ht_ok d h m : Prop := {
  o_shape : shape h m;
  o_bk : bk (next_of d) (slots h) (at_ (sizemask h) m);
  o_used : 0 ≤ used h < 2 ^ 64;
}.

Record inv d m0 m1 : Prop := {
  i_disj : m0 ##ₘ m1;
  i_item c p v : (m0 ∪ m1) !! c = Some (p, v) → p ≠ 0 ∧
    ∃ k nx, heap d !! p = Some (mkEntry k v nx) ∧ canon k = c;
  i_h0 : ht_ok d (ht0 d) m0;
  i_h1 : ht_ok d (ht1 d) m1;
  i_idle : rehashidx d = -1 → ht1 d = _dictReset;
  i_busy : rehashidx d ≠ -1 → 0 ≤ rehashidx d ≤ size_ (ht0 d) ∧ 0 < size_ (ht0 d) ∧ 0 < size_ (ht1 d) ∧
    used (ht0 d) = Z.of_nat (size m0) ∧ ∀ c, is_Some (m0 !! c) → rehashidx d ≤ Z.of_nat (bidx (sizemask (ht0 d)) c);
}.

Definition mt m0 m1 (t : bool) := if t then m1 else m0.

Lemma i_ht d m0 m1 t : inv d m0 m1 → ht_ok d (ht d t) (mt m0 m1 t).
Proof. intros Hi. destruct t; apply Hi. Qed.

Lemma mt_sub m0 m1 t c x : m0 ##ₘ m1 → mt m0 m1 t !! c = Some x → (m0 ∪ m1) !! c = Some x.
Proof. intros Hd. destruct t; simpl; intros; [by apply lookup_union_Some_r|by apply lookup_union_Some_l]. Qed.

Lemma addr_inj d m0 m1 c c' p v v' : inv d m0 m1 →
  (m0 ∪ m1) !! c = Some (p, v) → (m0 ∪ m1) !! c' = Some (p, v') → c = c' ∧ v = v'.
Proof.
  intros Hi H1 H2. destruct (i_item _ _ _ Hi _ _ _ H1) as (_ & k & nx & E1 & <-).
  destruct (i_item _ _ _ Hi _ _ _ H2) as (_ & k' & nx' & E2 & <-).
  rewrite E1 in E2. injection E2 as -> -> ->. done.
Qed.

Lemma at_apart d m0 m1 t mask : inv d m0 m1 → apart (at_ mask (mt m0 m1 t)).
Proof.
  intros Hi i j p (c & v & H1 & <-) (c' & v' & H2 & <-). pose proof (i_disj _ _ _ Hi) as Hd.
  by destruct (addr_inj _ _ _ _ _ _ _ _ Hi (mt_sub _ _ _ _ _ Hd H1) (mt_sub _ _ _ _ _ Hd H2)) as [-> _].
Qed.

Lemma dict_next_alloc d a : is_Some (next_of d a) → is_Some (heap d !! a).
Proof. unfold next_of. destruct (heap d !! a); [eauto|by intros []]. Qed.

Lemma bidx_lt h m c : shape h m → 0 < size_ h → (bidx (sizemask h) c < length (slots h))%nat.
Proof.
  intros [(_ & _ & -> & _ & _)|(_ & -> & Hl & k & Hk & Hs)] Hp; [lia|]. unfold bidx.
  rewrite Hs in *. rewrite <-Z.ones_equiv || replace (2 ^ k - 1) with (Z.ones k) by (rewrite Z.ones_equiv; lia).
  rewrite Z.land_ones by lia. pose proof (Z.mod_pos_bound (hashc c) (2 ^ k) ltac:(lia)). lia.
Qed.

Lemma shape_nonneg h m : shape h m → 0 ≤ size_ h.
Proof. intros [(_ & _ & -> & _ & _)|(_ & _ & <- & _)]; lia. Qed.

(** ** Looking a key up in one table *)

Lemma match_key_eq d m0 m1 k c p v : inv d m0 m1 → (m0 ∪ m1) !! c = Some (p, v) →
  match_key dictCompareKeys d k p = Some (bool_decide (canon k = c)).
Proof using L.
  intros Hi Hc. destruct (i_item _ _ _ Hi _ _ _ Hc) as (_ & k' & nx & Hp & <-).
  unfold match_key. rewrite Hp. unfold mbind, option_bind. cbn [key]. f_equal. rewrite compare_c.
  destruct (Z.eqb_spec k k') as [->|]; [|done]. symmetry. by apply bool_decide_eq_true.
Qed.

Lemma find_in_slot d m0 m1 t k : inv d m0 m1 → 0 < size_ (ht d t) →
  ∃ hd, slots (ht d t) !! bidx (sizemask (ht d t)) (canon k) = Some hd ∧
    find_in dictCompareKeys t k (dictHashKey k) d =
      match scan (size (heap d)) (next_of d) (match_key dictCompareKeys d k) 0 hd with
      | Ok r => Ok (r, d) | Err e => Err e end.
Proof using L.
  intros Hi Hs. pose proof (o_shape _ _ _ (i_ht _ _ _ t Hi)) as Hsh.
  destruct (lookup_lt_is_Some_2 _ _ (bidx_lt _ _ (canon k) Hsh Hs)) as [hd Hhd]. exists hd. split; [done|].
  unfold find_in, get_slot. rewrite bind_get, hash_c.
  unfold bidx in Hhd. rewrite (bind_ok _ _ d hd d); [done|]. rewrite bind_get. unfold lift, deref. by rewrite Hhd.
Qed.

Lemma find_in_miss d m0 m1 t k : inv d m0 m1 → 0 < size_ (ht d t) → mt m0 m1 t !! canon k = None →
  ∃ prev, find_in dictCompareKeys t k (dictHashKey k) d = Ok ((prev, 0), d).
Proof using L.
  intros Hi Hs Hk. destruct (find_in_slot d m0 m1 t k Hi Hs) as (hd & Hhd & ->).
  destruct (bk_miss (heap d) (next_of d) (dict_next_alloc d) _ _ _ _ (match_key dictCompareKeys d k)
    (o_bk _ _ _ (i_ht _ _ _ t Hi)) Hhd) as [prev ->]; [|by exists prev].
  intros q (c & v & Hc & _). rewrite (match_key_eq _ _ _ _ _ _ _ Hi (mt_sub _ _ _ _ _ (i_disj _ _ _ Hi) Hc)).
  f_equal. apply bool_decide_eq_false. congruence.
Qed.

Lemma find_in_hit d m0 m1 t k p v : inv d m0 m1 → 0 < size_ (ht d t) → mt m0 m1 t !! canon k = Some (p, v) →
  p ≠ 0 ∧ ∃ prev r, find_in dictCompareKeys t k (dictHashKey k) d = Ok ((prev, p), d) ∧
    next_of d p = Some r ∧
    (prev ≠ 0 → at_ (sizemask (ht d t)) (mt m0 m1 t) (bidx (sizemask (ht d t)) (canon k)) prev ∧ prev ≠ p) ∧
    ∀ nx' tbl',
      (if decide (prev = 0) then tbl' = <[bidx (sizemask (ht d t)) (canon k) := r]> (slots (ht d t))
       else tbl' = slots (ht d t) ∧ nx' prev = Some r) →
      (∀ q, q ≠ p → q ≠ prev → nx' q = next_of d q) →
      (prev = 0 → ∀ q, q ≠ p → nx' q = next_of d q) →
      bk nx' tbl' (λ j q, at_ (sizemask (ht d t)) (mt m0 m1 t) j q ∧ q ≠ p).
Proof using L.
  intros Hi Hs Hk. destruct (find_in_slot d m0 m1 t k Hi Hs) as (hd & Hhd & ->).
  destruct (bk_hit (heap d) (next_of d) (dict_next_alloc d) _ _ _ _ p (match_key dictCompareKeys d k)
    (o_bk _ _ _ (i_ht _ _ _ t Hi)) (at_apart _ _ _ t _ Hi) Hhd) as (Hp0 & prev & r & -> & Hr & Hprev & Hun).
  - exists (canon k), v. done.
  - rewrite (match_key_eq _ _ _ _ _ _ _ Hi (mt_sub _ _ _ _ _ (i_disj _ _ _ Hi) Hk)). f_equal. by apply bool_decide_eq_true.
  - intros q (c & v' & Hc & _) Hqp. rewrite (match_key_eq _ _ _ _ _ _ _ Hi (mt_sub _ _ _ _ _ (i_disj _ _ _ Hi) Hc)).
    f_equal. apply bool_decide_eq_false. congruence.
  - split; [done|]. exists prev, r. done.
Qed.

(** ** Looking a key up in both tables *)

Lemma find_both_miss d m0 m1 k : inv d m0 m1 → 0 < size_ (ht0 d) → (m0 ∪ m1) !! canon k = None →
  ∃ t prev, find_both dictCompareKeys k (dictHashKey k) d = Ok ((t, prev, 0), d).
Proof using L.
  intros Hi Hs [H0 H1]%lookup_union_None. unfold find_both.
  destruct (find_in_miss d m0 m1 false k Hi Hs H0) as [prev Hf]. mstep Hf. rewrite Z.eqb_refl. cbn [negb]. rewrite bind_get.
  destruct (dictIsRehashing d) eqn:E; [|by eexists _, _].
  destruct (find_in_miss d m0 m1 true k Hi) as [prev' Hf']; [|done|].
  - apply negb_true_iff, Z.eqb_neq in E. apply (i_busy _ _ _ Hi E).
  - cbn [negb]. mstep Hf'. by eexists _, _.
Qed.

Lemma find_both_hit d m0 m1 k p v : inv d m0 m1 → (m0 ∪ m1) !! canon k = Some (p, v) →
  ∃ t prev, find_both dictCompareKeys k (dictHashKey k) d = Ok ((t, prev, p), d) ∧
    find_in dictCompareKeys t k (dictHashKey k) d = Ok ((prev, p), d) ∧ 0 < size_ (ht d t) ∧
    mt m0 m1 t !! canon k = Some (p, v) ∧ (t = true → dictIsRehashing d = true).
Proof using L.
  intros Hi Hk. pose proof (i_disj _ _ _ Hi) as Hd.
  assert (∀ t, is_Some (mt m0 m1 t !! canon k) → 0 < size_ (ht d t)) as Hpos.
  { intros t [x Hx]. pose proof (o_shape _ _ _ (i_ht _ _ _ t Hi)) as [(_ & _ & _ & _ & E)|(_ & _ & _ & j & Hj & ->)].
    - rewrite E in Hx. done.
    - apply Z.pow_pos_nonneg; lia. }
  unfold find_both. apply lookup_union_Some in Hk as [H0|H1]; [| |done].
  - destruct (find_in_hit d m0 m1 false k p v Hi) as (Hp & prev & r & Hf & _); [apply (Hpos false); simpl; by eauto|done|].
    exists false, prev. mstep Hf. zneq p 0. split_and!; [done|done|apply (Hpos false); simpl; by eauto|done|done].
  - assert (0 < size_ (ht d true)) as Hs1 by (apply (Hpos true); simpl; eauto).
    assert (rehashidx d ≠ -1) as Hr.
    { intros E. pose proof (i_idle _ _ _ Hi E) as Hre. simpl in Hs1. rewrite Hre in Hs1. simpl in Hs1. lia. }
    destruct (i_busy _ _ _ Hi Hr) as (_ & Hs0 & _).
    destruct (find_in_miss d m0 m1 false k Hi Hs0) as [prev0 Hf0].
    { simpl. by eapply map_disjoint_Some_r. }
    destruct (find_in_hit d m0 m1 true k p v Hi Hs1 H1) as (Hp & prev & r & Hf & _).
    mstep Hf0. rewrite Z.eqb_refl. cbn [negb]. rewrite bind_get. assert (dictIsRehashing d = true) as E by (unfold dictIsRehashing; zneq (rehashidx d) (-1); done).
    rewrite E. cbn [negb]. exists true, prev. mstep Hf. done.
Qed.

(** ** Rehashing one bucket *)

(** The entries' addresses are as many as the keys. *)
Lemma addr_count m l :
  NoDup l → (∀ p, p ∈ l ↔ ∃ c v, m !! c = Some (p, v)) →
  (∀ c c' p v v', m !! c = Some (p, v) → m !! c' = Some (p, v') → c = c') → length l = size m.
Proof.
  intros Hnd Hl Hinj. rewrite <-length_map_to_list, <-(length_fmap (λ x, x.2.1)).
  apply Permutation_length, NoDup_Permutation; [done| |].
  - apply NoDup_fmap_2_strong; [|apply NoDup_map_to_list].
    intros [c [p v]] [c' [p' v']] H1%elem_of_map_to_list H2%elem_of_map_to_list. simpl. intros <-.
    pose proof (Hinj _ _ _ _ _ H1 H2). congruence.
  - intros p. rewrite Hl, list_elem_of_fmap. split.
    + intros (c & v & Hc). exists (c, (p, v)). by rewrite elem_of_map_to_list.
    + intros ([c [p' v]] & -> & Hc%elem_of_map_to_list). eauto.
Qed.

Definition new_slot h (e : dictEntry) : nat := Z.to_nat (Z.land (dictHashKey (key e)) (sizemask h)).

Lemma get_entry_run d a e : heap d !! a = Some e → get_entry a d = Ok (e, d).
Proof. intros Ha. unfold get_entry. rewrite bind_get. unfold deref, lift. by rewrite Ha. Qed.

Lemma dict_put_next_run d a e n : heap d !! a = Some e →
  put_next a n d = Ok (tt, set_heap d (<[a := mkEntry (key e) (val e) n]> (heap d))).
Proof. intros Ha. unfold put_next. by mstep (get_entry_run _ _ _ Ha). Qed.

Lemma get_slot_run d t i hd : slots (ht d t) !! Z.to_nat i = Some hd → get_slot t i d = Ok (hd, d).
Proof. intros H. unfold get_slot. rewrite bind_get. unfold deref, lift. by rewrite H. Qed.

(** [d] after the entries [l] of a bucket went over. *)
Definition moved d (n : Z) (hp : gmap Z dictEntry) (s1 : list Z) : dict :=
  mkDict hp (set_used (ht0 d) (u64 (used (ht0 d) - n)))
    (set_used (set_slots (ht1 d) s1) (u64 (used (ht1 d) - n))) (rehashidx d) (iterators d) (world d).

Lemma rehash_chain_run l fuel de d R :
  chain (next_of d) de l → (length l ≤ fuel)%nat →
  (∀ q, q ∈ l → ∃ e, heap d !! q = Some e ∧ (new_slot (ht1 d) e < length (slots (ht1 d)))%nat) →
  bk (next_of d) (slots (ht1 d)) R → (∀ i q, q ∈ l → ¬ R i q) →
  0 ≤ used (ht0 d) < 2 ^ 64 → 0 ≤ used (ht1 d) < 2 ^ 64 →
  ∃ hp s1, rehash_chain dictHashKey fuel de d = Ok (tt, moved d (Z.of_nat (length l)) hp s1) ∧
    length s1 = length (slots (ht1 d)) ∧
    (∀ q, q ∉ l → hp !! q = heap d !! q) ∧
    (∀ q e, heap d !! q = Some e → ∃ nx, hp !! q = Some (mkEntry (key e) (val e) nx)) ∧
    bk (λ a, next <$> hp !! a) s1
      (λ i q, R i q ∨ (q ∈ l ∧ ∃ e, heap d !! q = Some e ∧ i = new_slot (ht1 d) e)).
Proof.
  clear L type dictFreeKey dictCompareKeys DICT_HT_INITIAL_SIZE new_entry new_table canon hashc.
  revert fuel de d R. induction l as [|p l IH]; intros fuel de d R Hc Hf Hk Hb Hno Hu0 Hu1.
  - simpl in Hc. subst de. exists (heap d), (slots (ht1 d)). split_and!; [|done|done| |].
    + unfold moved. simpl length. rewrite !Z.sub_0_r, !wrapu_small by done.
      destruct fuel, d as [hh [] [] ? ? ?]; done.
    + intros q [k v nx] Hq. by exists nx.
    + eapply bk_ext; [exact Hb|]. intros i q _. set_solver.
  - pose proof (chain_NoDup _ _ _ Hc) as [Hnp Hnd]%NoDup_cons. destruct Hc as (-> & Hp0 & r & Hr & Hc).
    simpl in Hf. destruct fuel as [|fuel]; [lia|].
    destruct (Hk p) as (e & Hp & Hslot); [set_solver|].
    assert (next e = r) as Hnr by (unfold next_of in Hr; rewrite Hp in Hr; by simplify_eq/=).
    destruct (lookup_lt_is_Some_2 _ _ Hslot) as [hd Hhd].
    set (hp1 := <[p := mkEntry (key e) (val e) hd]> (heap d)).
    set (d1 := moved d 1 hp1 (<[new_slot (ht1 d) e := p]> (slots (ht1 d)))).
    assert (∀ q, q ≠ p → hp1 !! q = heap d !! q) as Hother by (intros q Hq; unfold hp1; by rewrite lookup_insert_ne).
    destruct (IH fuel r d1 (λ j q, R j q ∨ (j = new_slot (ht1 d) e ∧ q = p))) as (hp & s1 & Hrun & Hlen & Hout & Hkeys & Hbk).
    + eapply seg_frame; [exact Hc|]. intros a Ha. unfold next_of. simpl. rewrite Hother; [done|]. by intros ->.
    + lia.
    + intros q Hq. destruct (Hk q) as (e' & Hq' & Hs'); [set_solver|]. exists e'.
      simpl. rewrite Hother by (by intros ->). rewrite length_insert. done.
    + simpl. eapply bk_push; [exact Hb|exact Hhd|done| | |].
      * unfold next_of. simpl. unfold hp1. by rewrite lookup_insert_eq.
      * intros j. apply Hno. set_solver.
      * intros j q Hq. unfold next_of. simpl. rewrite Hother; [done|]. intros ->. eapply Hno; [|exact Hq]. set_solver.
    + intros i q Hq [HR|[-> ->]]; [|done]. eapply Hno; [|exact HR]. set_solver.
    + simpl. by apply wrapu_range.
    + simpl. by apply wrapu_range.
    + exists hp, s1. split_and!.
      * cbn [rehash_chain]. zneq p 0. mstep (get_entry_run _ _ _ Hp). rewrite bind_get.
        mstep (get_slot_run d true (Z.land (dictHashKey (key e)) (sizemask (ht1 d))) hd Hhd).
        mstep (dict_put_next_run _ _ _ hd Hp). unfold put_slot, add_used. rewrite !bind_modify. rewrite Hnr.
        transitivity (rehash_chain dictHashKey fuel r d1); [reflexivity|]. rewrite Hrun. do 2 f_equal.
        unfold moved, d1. simpl. unfold set_used, set_slots. simpl. f_equal; f_equal.
        -- rewrite <-Z.add_opp_r, wrapu_add_l. f_equal. lia.
        -- rewrite <-Z.add_opp_r, wrapu_add_l. f_equal. lia.
      * rewrite Hlen. simpl. by rewrite length_insert.
      * intros q Hq. rewrite Hout by set_solver. simpl. apply Hother. set_solver.
      * intros q e' Hq. destruct (decide (q = p)) as [->|Hqp].
        -- rewrite Hp in Hq. injection Hq as <-. destruct (Hkeys p (mkEntry (key e) (val e) hd)) as [nx Hx].
           ++ simpl. unfold hp1. by rewrite lookup_insert_eq.
           ++ by exists nx.
        -- apply (Hkeys q e'). simpl. by rewrite Hother.
      * eapply bk_ext; [exact Hbk|]. intros i q _. simpl. split.
        -- intros [[HR|[-> ->]]|(Hq & e' & Hit & ->)].
           ++ by left.
           ++ right. split; [set_solver|]. by exists e.
           ++ right. split; [set_solver|]. exists e'. split; [|done].
              rewrite <-Hother; [done|]. by intros ->.
        -- intros [HR|(Hq & e' & Hit & ->)]; [by left; left|].
           apply elem_of_cons in Hq as [->|Hq].
           ++ left. right. split; [|done]. rewrite Hp in Hit. by injection Hit as <-.
           ++ right. split; [done|]. exists e'. split; [|done]. rewrite Hother; [done|]. by intros ->.
Qed.

(** The part of the first table's map that is in slot [r], and the rest. *)
Definition part m (mask : Z) (r : nat) := filter (λ x : Z * (Z * Z), bidx mask x.1 = r) m.
Definition rest m (mask : Z) (r : nat) := filter (λ x : Z * (Z * Z), ¬ bidx mask x.1 = r) m.

Lemma part_Some m mask r c x : part m mask r !! c = Some x ↔ m !! c = Some x ∧ bidx mask c = r.
Proof. unfold part. by rewrite map_lookup_filter_Some. Qed.
Lemma rest_Some m mask r c x : rest m mask r !! c = Some x ↔ m !! c = Some x ∧ bidx mask c ≠ r.
Proof. unfold rest. by rewrite map_lookup_filter_Some. Qed.

Lemma part_rest m mask r : rest m mask r ##ₘ part m mask r ∧ rest m mask r ∪ part m mask r = m.
Proof.
  assert (rest m mask r ##ₘ part m mask r) as Hd.
  { apply map_disjoint_spec. intros c x y [_ H1]%rest_Some [_ H2]%part_Some. done. }
  split; [done|]. rewrite map_union_comm by done. apply map_filter_union_complement.
Qed.

Lemma part_size m mask r : size m = (size (rest m mask r) + size (part m mask r))%nat.
Proof. destruct (part_rest m mask r) as [Hd Hu]. rewrite <-map_size_disj_union by done. by rewrite Hu. Qed.

Lemma move_union m0 m1 mask r : m0 ##ₘ m1 →
  rest m0 mask r ##ₘ part m0 mask r ∪ m1 ∧ rest m0 mask r ∪ (part m0 mask r ∪ m1) = m0 ∪ m1 ∧
  part m0 mask r ##ₘ m1.
Proof.
  intros Hd. destruct (part_rest m0 mask r) as [Hp Hu].
  assert (∀ c x, rest m0 mask r !! c = Some x ∨ part m0 mask r !! c = Some x → m0 !! c = Some x) as Hs.
  { intros c x [[? _]%rest_Some|[? _]%part_Some]; done. }
  assert (rest m0 mask r ##ₘ m1 ∧ part m0 mask r ##ₘ m1) as [H1 H2].
  { split; apply map_disjoint_spec; intros c x y Hx Hy; (apply (proj1 (map_disjoint_spec m0 m1) Hd c x y); [apply Hs; by eauto|done]). }
  split; [by apply map_disjoint_union_r|]. split; [|done]. by rewrite map_union_assoc, Hu.
Qed.

(** What the counter of the only table will be when the rehash is over: every entry that is
    still to be moved takes one off. *)
Definition final_used d m0 : Z :=
  if dictIsRehashing d then u64 (used (ht1 d) - Z.of_nat (size m0)) else used (ht0 d).

Lemma wrapu_sub_l w x y : wrapu w (wrapu w x - y) = wrapu w (x - y).
Proof. unfold wrapu. apply Zminus_mod_idemp_l. Qed.

Lemma bucket_run d m0 m1 de :
  inv d m0 m1 → rehashidx d ≠ -1 → slots (ht0 d) !! Z.to_nat (rehashidx d) = Some de →
  ∃ d' m0' m1', (rehash_chain dictHashKey (size (heap d)) de;; put_slot false (rehashidx d) 0;;
      modify (λ d, set_idx d (rehashidx d + 1))) d = Ok (tt, d') ∧
    inv d' m0' m1' ∧ m0' ∪ m1' = m0 ∪ m1 ∧ rehashidx d' = rehashidx d + 1 ∧ size_ (ht0 d') = size_ (ht0 d) ∧
    iterators d' = iterators d ∧ world d' = world d ∧
    u64 (used (ht1 d') - Z.of_nat (size m0')) = u64 (used (ht1 d) - Z.of_nat (size m0)).
Proof using L.
  intros Hi Hr Hde. destruct (i_busy _ _ _ Hi Hr) as (Hr0 & Hs0 & Hs1 & Hu & Hlow).
  pose proof (i_h0 _ _ _ Hi) as [Hsh0 Hbk0 Hus0]. pose proof (i_h1 _ _ _ Hi) as [Hsh1 Hbk1 Hus1].
  pose proof (i_disj _ _ _ Hi) as Hd. set (r := Z.to_nat (rehashidx d)) in *. set (mask := sizemask (ht0 d)) in *.
  destruct (Hbk0 _ _ Hde) as (l & Hc & Hl).
  assert (∀ q, q ∈ l ↔ ∃ c v, part m0 mask r !! c = Some (q, v)) as Hlp.
  { intros q. rewrite Hl. unfold at_. split; intros (c & v & H); exists c, v; [by apply part_Some|by apply part_Some in H]. }
  assert (∀ q, q ∈ l → ∃ c v k nx, (m0 ∪ m1) !! c = Some (q, v) ∧ m0 !! c = Some (q, v) ∧ heap d !! q = Some (mkEntry k v nx) ∧ canon k = c) as Hle.
  { intros q Hq. apply Hl in Hq as (c & v & Hc' & _). pose proof (lookup_union_Some_l m0 m1 _ _ Hc') as Hu'.
    destruct (i_item _ _ _ Hi _ _ _ Hu') as (_ & k & nx & ? & ?). by exists c, v, k, nx. }
  destruct (rehash_chain_run l (size (heap d)) de d (at_ (sizemask (ht1 d)) m1)) as (hp & s1 & Hrun & Hlen & Hout & Hkeys & Hbk); try done.
  - eapply chain_le_size; [exact Hc|]. apply dict_next_alloc.
  - intros q Hq. destruct (Hle q Hq) as (c & v & k & nx & _ & _ & Hq' & Hk). exists (mkEntry k v nx). split; [done|].
    unfold new_slot. simpl. rewrite hash_c, Hk. by eapply (bidx_lt _ m1).
  - intros i q Hq (c & v & Hc1 & _). destruct (Hle q Hq) as (c' & v' & k & nx & Hu' & Hm0 & _ & _).
    pose proof (lookup_union_Some_r m0 m1 _ _ Hd Hc1) as Hu2. destruct (addr_inj _ _ _ _ _ _ _ _ Hi Hu' Hu2) as [-> ->].
    exact (proj1 (map_disjoint_spec m0 m1) Hd _ _ _ Hm0 Hc1).
  - pose proof (addr_count (part m0 mask r) l (chain_NoDup _ _ _ Hc) Hlp) as Hcount.
    rewrite Hcount in Hrun by (intros c c' p v v' [H1 _]%part_Some [H2 _]%part_Some;
      by eapply (addr_inj _ _ _ _ _ _ _ _ Hi (lookup_union_Some_l m0 m1 _ _ H1) (lookup_union_Some_l m0 m1 _ _ H2))).
    clear Hcount. pose proof (part_size m0 mask r) as Hps. destruct (move_union m0 m1 mask r Hd) as (Hd' & Hun & Hpd).
    set (d1 := moved d (Z.of_nat (size (part m0 mask r))) hp s1) in *.
    exists (set_idx (set_ht d1 false (set_slots (ht0 d1) (<[r := 0]> (slots (ht0 d1))))) (rehashidx d + 1)),
      (rest m0 mask r), (part m0 mask r ∪ m1).
    split_and!; [by mstep Hrun| |done|done|done|done|done|simpl; rewrite wrapu_sub_l; f_equal; lia].
    assert (∀ c p v, (m0 ∪ m1) !! c = Some (p, v) → ∃ k nx, hp !! p = Some (mkEntry k v nx) ∧ canon k = c) as Hit.
    { intros c p v Hcp. destruct (i_item _ _ _ Hi _ _ _ Hcp) as (_ & k & nx & Hp & Hk).
      destruct (Hkeys _ _ Hp) as [nx' Hp']. by exists k, nx'. }
    split.
    + done.
    + intros c p v Hcp. rewrite Hun in Hcp. split; [by apply (i_item _ _ _ Hi _ _ _ Hcp)|by apply Hit].
    + split; simpl.
      * right. destruct Hsh0 as [(_ & _ & E & _)|(Ht & Hm & Hln & k & Hk)]; [lia|].
        split_and!; [done|done|simpl; by rewrite length_insert|by exists k].
      * eapply bk_ext; [eapply bk_frame; [apply (bk_clear _ _ (at_ mask m0) r); exact Hbk0|]|].
        -- intros i q ((c & v & Hc0 & <-) & Hne). unfold next_of. simpl. rewrite Hout; [done|].
           intros Hq. apply Hl in Hq as (c' & v' & Hc' & Hb'). apply Hne.
           by destruct (addr_inj _ _ _ _ _ _ _ _ Hi (lookup_union_Some_l m0 m1 _ _ Hc0) (lookup_union_Some_l m0 m1 _ _ Hc')) as [-> _].
        -- intros i q _. unfold at_. fold mask. split.
           ++ intros ((c & v & Hc0 & <-) & Hne). exists c, v. by rewrite rest_Some.
           ++ intros (c & v & [Hc0 Hne]%rest_Some & <-). split; [by exists c, v|done].
      * by apply wrapu_range.
    + split; simpl.
      * right. destruct Hsh1 as [(_ & _ & E & _)|(Ht & Hm & Hln & k & Hk)]; [lia|].
        split_and!; [done|done|simpl; by rewrite Hlen|by exists k].
      * eapply bk_ext; [exact Hbk|]. intros i q _. split.
        -- intros [(c & v & Hc1 & <-)|(Hq & e & He & ->)].
           ++ exists c, v. split; [by apply lookup_union_Some_r|done].
           ++ apply Hlp in Hq as (c & v & Hp). exists c, v. split; [by apply lookup_union_Some_l|].
              apply part_Some in Hp as [Hp _]. destruct (i_item _ _ _ Hi _ _ _ (lookup_union_Some_l m0 m1 _ _ Hp)) as (_ & k & nx & Hh & <-).
              rewrite Hh in He. injection He as <-. unfold new_slot, bidx. simpl. by rewrite hash_c.
        -- intros (c & v & [Hp|Hc1]%lookup_union_Some & <-); [| |done].
           ++ right. split; [apply Hlp; by exists c, v|]. apply part_Some in Hp as [Hp _].
              destruct (i_item _ _ _ Hi _ _ _ (lookup_union_Some_l m0 m1 _ _ Hp)) as (_ & k & nx & Hh & <-).
              eexists. split; [exact Hh|]. unfold new_slot, bidx. simpl. by rewrite hash_c.
           ++ left. by exists c, v.
      * by apply wrapu_range.
    + simpl. intros E. lia.
    + intros _.
      pose proof (lookup_lt_Some _ _ _ Hde) as Hlt. destruct Hsh0 as [(_ & _ & E & _)|(_ & _ & Hln & _)]; [lia|].
      cbn [set_idx set_ht rehashidx ht0 ht1 set_slots size_ used sizemask set_used moved d1].
      split_and!; [lia|lia|done|done| |].
      * rewrite wrapu_small by lia. lia.
      * intros c [x [Hc0 Hne]%rest_Some]. fold mask. specialize (Hlow c ltac:(by exists x)). lia.
Qed.

(** ** Rehashing *)

Lemma skip_inv d m0 m1 :
  inv d m0 m1 → rehashidx d ≠ -1 → slots (ht0 d) !! Z.to_nat (rehashidx d) = Some 0 →
  inv (set_idx d (rehashidx d + 1)) m0 m1.
Proof.
  clear L. intros Hi Hr H0. destruct Hi as [Hd Hit H0' H1 Hidle Hbusy].
  destruct (Hbusy Hr) as (Hr0 & Hs0 & Hs1 & Hu & Hlow). pose proof (lookup_lt_Some _ _ _ H0) as Hlt.
  split; [done|done|by destruct H0'|by destruct H1|simpl; intros; lia|]. intros _. simpl. destruct (o_shape _ _ _ H0') as [(_ & _ & E & _)|(_ & _ & Hln & _)]; [lia|].
  split_and!; [lia|lia|done|done|done|]. intros c [[p v] Hc]. specialize (Hlow c ltac:(eauto)).
  assert (Z.of_nat (bidx (sizemask (ht0 d)) c) ≠ rehashidx d); [|lia]. intros E.
  destruct (o_bk _ _ _ H0' _ _ H0) as (l & Hch & Hl).
  assert (p ∈ l) as Hp by (apply Hl; exists c, v; split; [done|lia]).
  destruct l as [|a l]; [set_solver|]. destruct Hch as (<- & Hne & _). done.
Qed.

Lemma skip_empty_run fuel ev d m0 m1 (j : nat) hd :
  inv d m0 m1 → rehashidx d ≠ -1 → slots (ht0 d) !! j = Some hd → hd ≠ 0 →
  rehashidx d ≤ Z.of_nat j ≤ rehashidx d + Z.of_nat fuel →
  ∃ r d' , skip_empty fuel ev d = Ok (r, d') ∧ inv d' m0 m1 ∧ d' = set_idx d (rehashidx d') ∧
    rehashidx d ≤ rehashidx d' ∧ rehashidx d' ≠ -1 ∧
    match r with
    | None => rehashidx d < rehashidx d'
    | Some _ => ∃ hd', slots (ht0 d') !! Z.to_nat (rehashidx d') = Some hd' ∧ hd' ≠ 0
    end.
Proof.
  clear L. revert ev d. induction fuel as [|f IH]; intros ev d Hi Hr Hj Hhd Hle;
    destruct (i_busy _ _ _ Hi Hr) as (Hr0 & _);
    pose proof (lookup_lt_Some _ _ _ Hj) as Hjl;
    (destruct (lookup_lt_is_Some_2 (slots (ht0 d)) (Z.to_nat (rehashidx d))) as [h Hh]; [lia|]);
    cbn [skip_empty]; rewrite bind_get; mstep (get_slot_run d false (rehashidx d) h Hh).
  - assert (Z.to_nat (rehashidx d) = j) as E by lia. rewrite E in Hh. assert (h = hd) as -> by congruence. zneq hd 0.
    exists (Some ev), d. split_and!; [done|done|by destruct d|lia|done|]. exists hd. by rewrite E.
  - destruct (Z.eqb_spec h 0) as [->|Hne]; cbn [negb].
    + rewrite bind_modify. pose proof (skip_inv _ _ _ Hi Hr Hh) as Hi1.
      destruct (ev - 1 =? 0) eqn:Ee.
      * exists None, (set_idx d (rehashidx d + 1)). split_and!; [done|done|done|simpl; lia|simpl; lia|simpl; lia].
      * assert (Z.of_nat j ≠ rehashidx d) by (intros E; rewrite <-E, Nat2Z.id in Hh; congruence).
        destruct (IH (ev - 1) _ Hi1) as (r & d' & Hrun & Hi' & Hd' & Hle' & Hne' & Hres); [simpl; lia|done|done|simpl; lia|].
        simpl in Hle', Hres, Hd'.
        exists r, d'. split_and!; [done|done|exact Hd'|lia|done|]. destruct r; [done|lia].
    + exists (Some ev), d. split_and!; [done|done|by destruct d|lia|done|]. by exists h.
Qed.

Lemma busy_slot d m0 m1 : inv d m0 m1 → rehashidx d ≠ -1 → used (ht0 d) ≠ 0 →
  ∃ j hd, slots (ht0 d) !! j = Some hd ∧ hd ≠ 0 ∧ rehashidx d ≤ Z.of_nat j.
Proof.
  clear L. intros Hi Hr Hu. destruct (i_busy _ _ _ Hi Hr) as (_ & Hs0 & _ & Hus & Hlow).
  destruct (map_choose m0) as (c & [p v] & Hc).
  { intros ->. rewrite map_size_empty in Hus. lia. }
  pose proof (o_shape _ _ _ (i_h0 _ _ _ Hi)) as Hsh.
  destruct (lookup_lt_is_Some_2 _ _ (bidx_lt _ _ c Hsh Hs0)) as [hd Hhd]. exists (bidx (sizemask (ht0 d)) c), hd.
  split_and!; [done| |by apply Hlow; eauto].
  destruct (o_bk _ _ _ (i_h0 _ _ _ Hi) _ _ Hhd) as (l & Hch & Hl).
  assert (p ∈ l) as Hp by (apply Hl; by exists c, v).
  destruct l as [|a l]; [set_solver|]. by destruct Hch as (<- & Hne & _).
Qed.

Lemma rehash_loop_run n ev d m0 m1 :
  inv d m0 m1 → rehashidx d ≠ -1 →
  ∃ b d' m0' m1', rehash_loop dictHashKey n ev d = Ok (b, d') ∧ inv d' m0' m1' ∧ m0' ∪ m1' = m0 ∪ m1 ∧
    rehashidx d' ≠ -1 ∧ rehashidx d ≤ rehashidx d' ∧ size_ (ht0 d') = size_ (ht0 d) ∧
    iterators d' = iterators d ∧ world d' = world d ∧
    u64 (used (ht1 d') - Z.of_nat (size m0')) = u64 (used (ht1 d) - Z.of_nat (size m0)) ∧
    ((0 < n)%nat → (used (ht0 d') = 0 ∧ b = false) ∨ rehashidx d < rehashidx d').
Proof using L.
  revert ev d m0 m1. induction n as [|n IH]; intros ev d m0 m1 Hi Hr.
  - exists false, d, m0, m1. split_and!; try done. intros; lia.
  - cbn [rehash_loop]. rewrite bind_get. destruct (Z.eqb_spec (used (ht0 d)) 0) as [Hu|Hu].
    + exists false, d, m0, m1. split_and!; try done. intros _. by left.
    + destruct (busy_slot _ _ _ Hi Hr Hu) as (j & hd & Hj & Hhd & Hle).
      pose proof (lookup_lt_Some _ _ _ Hj) as Hjl. destruct (i_busy _ _ _ Hi Hr) as (Hr0 & Hs0 & _).
      destruct (o_shape _ _ _ (i_h0 _ _ _ Hi)) as [(_ & _ & E & _)|(_ & _ & Hln & _)]; [lia|].
      rewrite (proj2 (Z.ltb_lt _ _)) by lia. rewrite (bind_lift (assert_ true) _ d tt eq_refl).
      destruct (skip_empty_run (length (slots (ht0 d))) ev d m0 m1 j hd Hi Hr Hj Hhd) as (r & d1 & Hrun & Hi1 & Hd1 & Hle1 & Hr1 & Hres); [lia|].
      mstep Hrun. assert (size_ (ht0 d1) = size_ (ht0 d) ∧ iterators d1 = iterators d ∧ world d1 = world d ∧ used (ht1 d1) = used (ht1 d)) as (Es & Ei & Ew & Eu) by (by rewrite Hd1).
      destruct r as [ev'|].
      * destruct Hres as (hd' & Hhd' & _). rewrite bind_get. mstep (get_slot_run d1 false (rehashidx d1) hd' Hhd').
        destruct (bucket_run d1 m0 m1 hd' Hi1 Hr1 Hhd') as (d2 & m0a & m1a & Hb & Hi2 & Hun2 & Hr2 & Hs2 & Hit2 & Hw2 & Hf2).
        destruct (i_busy _ _ _ Hi1 Hr1) as (Hr10 & _).
        destruct (IH ev' d2 m0a m1a Hi2) as (b & d' & m0' & m1' & Hrun' & Hi' & Hun' & Hr' & Hle' & Hs' & Hit' & Hw' & Hf' & _); [lia|].
        exists b, d', m0', m1'. split_and!; [|done|congruence|done|lia|congruence|congruence|congruence|congruence|lia].
        by rewrite (bind_seq3 _ _ _ _ _ _ _ Hb).
      * exists true, d1, m0, m1. split_and!; try done; [by rewrite Eu|lia].
Qed.

Lemma reset_ok d : ht_ok d _dictReset ∅.
Proof. split; [by left|intros i hd; simpl; by rewrite lookup_nil|done]. Qed.

Lemma finish_inv d m0 m1 : inv d m0 m1 → rehashidx d ≠ -1 → used (ht0 d) = 0 →
  m0 = ∅ ∧ inv (set_idx (set_ht (set_ht d false (ht1 d)) true _dictReset) (-1)) m1 ∅.
Proof.
  clear L. intros Hi Hr Hu. destruct (i_busy _ _ _ Hi Hr) as (_ & _ & _ & Hus & _).
  assert (m0 = ∅) as -> by (apply map_size_empty_inv; lia). split; [done|].
  destruct Hi as [Hd Hit H0 [Hsh Hbk Hu1] Hidle Hbusy]. split.
  - apply map_disjoint_empty_r.
  - intros c p v. rewrite map_union_empty. intros Hc. apply Hit. by rewrite map_empty_union.
  - done.
  - apply reset_ok.
  - done.
  - done.
Qed.

Definition same_rest d d' : Prop := iterators d' = iterators d ∧ world d' = world d.

(** How far the rehash is: slots left to visit, one more for the exchange of the tables. *)
Definition rehash_left d : Z := if dictIsRehashing d then size_ (ht0 d) - rehashidx d + 1 else 0.

Lemma rehash_left_pos d m0 m1 : inv d m0 m1 → 0 ≤ rehash_left d ∧ (dictIsRehashing d = true ↔ 0 < rehash_left d).
Proof.
  intros Hi. unfold rehash_left. destruct (dictIsRehashing d) eqn:E; [|done].
  unfold dictIsRehashing in E. apply negb_true_iff, Z.eqb_neq in E. destruct (i_busy _ _ _ Hi E) as (? & _). split; [lia|]. split; [lia|done].
Qed.

Lemma rehashing_ne d : dictIsRehashing d = true ↔ rehashidx d ≠ -1.
Proof. unfold dictIsRehashing. rewrite negb_true_iff. by rewrite Z.eqb_neq. Qed.
Lemma rehashing_eq d : dictIsRehashing d = false ↔ rehashidx d = -1.
Proof. unfold dictIsRehashing. rewrite negb_false_iff. by rewrite Z.eqb_eq. Qed.

Lemma dictRehash_run n d m0 m1 :
  inv d m0 m1 →
  ∃ r d' m0' m1', dictRehash dictHashKey n d = Ok (r, d') ∧ inv d' m0' m1' ∧ m0' ∪ m1' = m0 ∪ m1 ∧
    same_rest d d' ∧ r = (if dictIsRehashing d' then 1 else 0) ∧
    (0 < size_ (ht0 d) → 0 < size_ (ht0 d')) ∧ ((0 < n)%nat → rehash_left d' ≤ Z.max 0 (rehash_left d - 1)) ∧
    final_used d' m0' = final_used d m0.
Proof using L.
  intros Hi. unfold dictRehash. rewrite bind_get. destruct (dictIsRehashing d) eqn:E; cbn [negb].
  2:{ exists 0, d, m0, m1. split_and!; try done; [by rewrite E|]. intros _. unfold rehash_left. rewrite E. lia. }
  pose proof E as Er. apply rehashing_ne in E.
  destruct (rehash_loop_run n (s32 (Z.of_nat n * 10)) d m0 m1 Hi E) as (b & d1 & m0a & m1a & Hrun & Hi1 & Hu1 & Hr1 & Hle1 & Hs1 & Hit1 & Hw1 & Hf1 & Hp1).
  mstep Hrun. pose proof (proj2 (rehashing_ne d1) Hr1) as Er1.
  assert (rehash_left d = size_ (ht0 d) - rehashidx d + 1) as Hl by (unfold rehash_left; by rewrite Er).
  destruct (i_busy _ _ _ Hi E) as (Hb & _).
  assert (rehashidx d < rehashidx d1 → rehash_left d1 ≤ Z.max 0 (rehash_left d - 1)) as Hadv.
  { rewrite Hl. unfold rehash_left. rewrite Er1, Hs1. lia. }
  assert (final_used d1 m0a = final_used d m0) as Hfin by (unfold final_used; by rewrite Er, Er1).
  destruct b.
  - exists 1, d1, m0a, m1a. split_and!; try done; [by rewrite Er1|by rewrite Hs1|].
    intros Hn. destruct (Hp1 Hn) as [[_ ?]|?]; [done|auto].
  - rewrite bind_get. destruct (Z.eqb_spec (used (ht0 d1)) 0) as [Hz|Hz].
    + destruct (finish_inv _ _ _ Hi1 Hr1 Hz) as [-> Hi']. rewrite !bind_modify.
      destruct (i_busy _ _ _ Hi1 Hr1) as (_ & _ & ? & _).
      pose proof (o_used _ _ _ (i_h1 _ _ _ Hi1)) as Hr64.
      eexists 0, _, m1a, ∅. split_and!; [done|exact Hi'| |done|done|done| |].
      * rewrite map_union_empty. rewrite <-Hu1. by rewrite map_empty_union.
      * intros _. unfold rehash_left. simpl. lia.
      * rewrite <-Hfin. unfold final_used. rewrite Er1. simpl. rewrite map_size_empty, Z.sub_0_r. by rewrite wrapu_small.
    + exists 1, d1, m0a, m1a. split_and!; try done; [by rewrite Er1|by rewrite Hs1|].
      intros Hn. destruct (Hp1 Hn) as [[? _]|?]; [done|auto].
Qed.

Lemma step_run d m0 m1 :
  inv d m0 m1 →
  ∃ d' m0' m1', step_if_rehashing dictHashKey d = Ok (tt, d') ∧ inv d' m0' m1' ∧ m0' ∪ m1' = m0 ∪ m1 ∧ same_rest d d' ∧
    (0 < size_ (ht0 d) → 0 < size_ (ht0 d')) ∧ (dictIsRehashing d = false → d' = d).
Proof using L.
  intros Hi. unfold step_if_rehashing, _dictRehashStep. rewrite bind_get.
  destruct (dictIsRehashing d) eqn:E; [|by exists d, m0, m1]. rewrite bind_get.
  destruct (iterators d =? 0); [|by exists d, m0, m1].
  destruct (dictRehash_run 1 d m0 m1 Hi) as (r & d' & m0' & m1' & Hrun & Hi' & Hu & Hrest & _ & Hs & _).
  exists d', m0', m1'. by mstep Hrun.
Qed.

(** ** Lookup *)

(** The dictionary as a map from keys to entries. *)
Lemma dict_find_run d m0 m1 k :
  inv d m0 m1 →
  ∃ d' m0' m1', dictFind dictHashKey dictCompareKeys k d =
      Ok (if u64 (used (ht0 d) + used (ht1 d)) =? 0 then 0 else default 0 (fst <$> (m0 ∪ m1) !! canon k), d') ∧
    inv d' m0' m1' ∧ m0' ∪ m1' = m0 ∪ m1 ∧ same_rest d d'.
Proof using L.
  intros Hi. unfold dictFind. rewrite bind_get. destruct (Z.eqb_spec (u64 (used (ht0 d) + used (ht1 d))) 0) as [Hz|Hz]; [by exists d, m0, m1|].
  destruct (step_run d m0 m1 Hi) as (d' & m0' & m1' & Hrun & Hi' & Hu & Hrest & Hsz & Hid). mstep Hrun.
  exists d', m0', m1'. split; [|done]. rewrite <-Hu. destruct ((m0' ∪ m1') !! canon k) as [[p v]|] eqn:Ek.
  - destruct (find_both_hit d' m0' m1' k p v Hi' Ek) as (t & prev & Hf & _). by mstep Hf.
  - assert (0 < size_ (ht0 d')) as Hs.
    { pose proof (o_shape _ _ _ (i_h0 _ _ _ Hi')) as [(_ & _ & E & E0 & _)|(_ & _ & _ & j & Hj & ->)]; [|apply Z.pow_pos_nonneg; lia]. exfalso.
      destruct (dictIsRehashing d') eqn:Er'.
      - apply rehashing_ne in Er'. destruct (i_busy _ _ _ Hi' Er') as (_ & ? & _). lia.
      - destruct (dictIsRehashing d) eqn:Er.
        + apply rehashing_ne in Er. destruct (i_busy _ _ _ Hi Er) as (_ & ? & _). lia.
        + rewrite (Hid eq_refl) in *. apply rehashing_eq in Er. rewrite E0, (i_idle _ _ _ Hi' Er) in Hz. done. }
    destruct (find_both_miss d' m0' m1' k Hi' Hs Ek) as (t & prev & Hf). by mstep Hf.
Qed.

Lemma inv_world d m0 m1 w : inv d m0 m1 → inv (set_world d w) m0 m1.
Proof. intros [Hd Hit [] [] Hx Hy]. split; [done|done|by split|by split|done|done]. Qed.
Lemma inv_iterators d m0 m1 n : inv d m0 m1 → inv (set_iterators d n) m0 m1.
Proof. intros [Hd Hit [] [] Hx Hy]. split; [done|done|by split|by split|done|done]. Qed.

(** ** Changing one table *)

(** [d] with new entries, and new slots and counter in the table [t]. *)
Definition with_table d (t : bool) (hp : gmap Z dictEntry) (sl : list Z) (n : Z) : dict :=
  set_ht (set_heap d hp) t (mkHt (table (ht d t)) sl (size_ (ht d t)) (sizemask (ht d t)) n).

Lemma update_inv d m0 m1 (t : bool) hp sl n m' :
  let m0' := if t then m0 else m' in let m1' := if t then m' else m1 in
  inv d m0 m1 → 0 < size_ (ht d t) → m0' ##ₘ m1' →
  (∀ c p v, (m0' ∪ m1') !! c = Some (p, v) → p ≠ 0 ∧ ∃ k nx, hp !! p = Some (mkEntry k v nx) ∧ canon k = c) →
  length sl = length (slots (ht d t)) → bk (λ a, next <$> hp !! a) sl (at_ (sizemask (ht d t)) m') → 0 ≤ n < 2 ^ 64 →
  (∀ c q v, mt m0 m1 (negb t) !! c = Some (q, v) → next <$> hp !! q = next_of d q) →
  (t = false → rehashidx d ≠ -1 → n = Z.of_nat (size m') ∧
    ∀ c, is_Some (m' !! c) → rehashidx d ≤ Z.of_nat (bidx (sizemask (ht0 d)) c)) →
  inv (with_table d t hp sl n) m0' m1'.
Proof.
  clear L. intros m0' m1' Hi Hs Hd Hit Hl Hbk Hn Hoth Hbusy.
  pose proof (i_ht _ _ _ (negb t) Hi) as [Osh Obk Ou]. pose proof (i_ht _ _ _ t Hi) as [Tsh _ _].
  assert (bk (λ a, next <$> hp !! a) (slots (ht d (negb t))) (at_ (sizemask (ht d (negb t))) (mt m0 m1 (negb t)))) as Ob.
  { eapply bk_frame; [exact Obk|]. intros i q (c & v & Hc & _). by eapply Hoth. }
  assert (shape (mkHt (table (ht d t)) sl (size_ (ht d t)) (sizemask (ht d t)) n) m') as Nsh.
  { right. destruct Tsh as [(_ & _ & E & _)|(? & ? & Hln & ?)]; [lia|]. simpl. by rewrite Hl. }
  destruct Hi as [_ _ _ _ Hidle Hbu]. unfold m0', m1' in *. destruct t; simpl in *.
  - split; [done|done|by split|by split| |].
    + simpl. intros E. rewrite (Hidle E) in Hs. simpl in Hs. lia.
    + simpl. intros E. destruct (Hbu E) as (? & ? & ? & ? & ?). done.
  - split; [done|done|by split|by split|done|].
    simpl. intros E. destruct (Hbu E) as (? & ? & ? & _). by destruct (Hbusy eq_refl E).
Qed.

(** ** Deletion *)

(** What the destructors do with an entry. *)
Definition free_world (e : dictEntry) (w : W) : W :=
  let w := dictFreeKey (key e) w in match valDestructor type with Some f => f (val e) w | None => w end.

Lemma free_entry_run d he e : heap d !! he = Some e →
  free_entry type dictFreeKey he d = Ok (tt, set_heap (set_world d (free_world e (world d))) (delete he (heap d))).
Proof.
  intros He. unfold free_entry. mstep (get_entry_run _ _ _ He). rewrite bind_modify. unfold dictFreeVal, free_world.
  by destruct (valDestructor type).
Qed.

(** The two maps without a key. *)
Lemma delete_both m0 m1 c (t : bool) x : m0 ##ₘ m1 → mt m0 m1 t !! c = Some x →
  (if t then m0 else delete c m0) ##ₘ (if t then delete c m1 else m1) ∧
  (if t then m0 else delete c m0) ∪ (if t then delete c m1 else m1) = delete c (m0 ∪ m1).
Proof.
  clear L. intros Hd Hx. destruct t; simpl in Hx.
  - pose proof (map_disjoint_Some_r _ _ _ _ Hd Hx) as H0. split; [by apply map_disjoint_delete_r|].
    rewrite delete_union. by rewrite (delete_id m0).
  - pose proof (map_disjoint_Some_l _ _ _ _ Hd Hx) as H1. split; [by apply map_disjoint_delete_l|].
    rewrite delete_union. by rewrite (delete_id m1).
Qed.

Lemma unlink_run d m0 m1 k p v (nofree : bool) :
  inv d m0 m1 → (m0 ∪ m1) !! canon k = Some (p, v) →
  ∃ t prev d' e, find_both dictCompareKeys k (dictHashKey k) d = Ok ((t, prev, p), d) ∧
    heap d !! p = Some e ∧ canon (key e) = canon k ∧ val e = v ∧ p ≠ 0 ∧
    ((if negb (prev =? 0) then put_next prev (next e)
      else put_slot t (Z.land (dictHashKey k) (sizemask (ht d t))) (next e));;
     (if nofree then mret tt else free_entry type dictFreeKey p);;
     add_used t (-1)) d = Ok (tt, d') ∧
    inv d' (if t then m0 else delete (canon k) m0) (if t then delete (canon k) m1 else m1) ∧
    (if t then m0 else delete (canon k) m0) ∪ (if t then delete (canon k) m1 else m1) = delete (canon k) (m0 ∪ m1) ∧
    heap d' !! p = (if nofree then Some e else None) ∧
    world d' = (if nofree then world d else free_world e (world d)) ∧ iterators d' = iterators d.
Proof using L.
  intros Hi Hk. destruct (find_both_hit d m0 m1 k p v Hi Hk) as (t & prev & Hfb & Hfi & Hs & Hmt & _).
  destruct (find_in_hit d m0 m1 t k p v Hi Hs Hmt) as (Hp0 & prev' & r & Hfi' & Hr & Hprev & Hun).
  assert (prev' = prev) as -> by (rewrite Hfi in Hfi'; congruence). clear Hfi Hfi'.
  destruct (i_item _ _ _ Hi _ _ _ Hk) as (_ & ke & nx & Hp & Hke).
  assert (nx = r) as -> by (unfold next_of in Hr; rewrite Hp in Hr; by simplify_eq/=).
  set (c := canon k) in *. set (e := mkEntry ke v r) in *. pose proof (i_disj _ _ _ Hi) as Hd.
  assert (prev ≠ 0 → ∃ e', heap d !! prev = Some e') as Hpe.
  { intros Hne. destruct (Hprev Hne) as [(c' & v' & Hc' & _) _].
    destruct (i_item _ _ _ Hi _ _ _ (mt_sub _ _ _ _ _ Hd Hc')) as (_ & k' & nx' & ? & _). eauto. }
  set (hp := if decide (prev = 0) then heap d else
    match heap d !! prev with Some e' => <[prev := mkEntry (key e') (val e') r]> (heap d) | None => heap d end).
  set (hp' := if nofree then hp else delete p hp).
  set (sl := if decide (prev = 0) then <[bidx (sizemask (ht d t)) c := r]> (slots (ht d t)) else slots (ht d t)).
  assert (∀ q e', q ≠ p → heap d !! q = Some e' → ∃ nx', hp' !! q = Some (mkEntry (key e') (val e') nx') ∧ (q ≠ prev → nx' = next e')) as Hkeep.
  { intros q e' Hqp Hq. assert (hp' !! q = hp !! q) as -> by (unfold hp'; destruct nofree; [done|by rewrite lookup_delete_ne]).
    unfold hp. case_decide as Hz; [exists (next e'); by destruct e'|]. destruct (Hpe Hz) as [e2 He2]. rewrite He2.
    destruct (decide (q = prev)) as [->|].
    - rewrite lookup_insert_eq. rewrite Hq in He2. injection He2 as <-. by exists r.
    - rewrite lookup_insert_ne by done. exists (next e'). by destruct e'. }
  assert (∀ q, q ≠ p → (q ≠ prev ∨ prev = 0) → next <$> hp' !! q = next_of d q) as Hnx.
  { intros q Hqp Hq. unfold next_of. assert (hp' !! q = hp !! q) as -> by (unfold hp'; destruct nofree; [done|by rewrite lookup_delete_ne]).
    unfold hp. case_decide; [done|]. destruct (heap d !! prev); [|done]. rewrite lookup_insert_ne; [done|]. destruct Hq; congruence. }
  destruct (delete_both m0 m1 c t (p, v) Hd Hmt) as [Hdd Hdu].
  exists t, prev, (with_table (if nofree then d else set_world d (free_world e (world d))) t hp' sl (u64 (used (ht d t) + -1))), e.
  split_and!; [done|done|done|done|done| | |done| | |].
  - assert ((if negb (prev =? 0) then put_next prev (next e) else put_slot t (Z.land (dictHashKey k) (sizemask (ht d t))) (next e)) d =
      Ok (tt, with_table d t hp sl (used (ht d t)))) as H1.
    { unfold sl, hp, with_table. destruct (Z.eqb_spec prev 0) as [->|Hne]; cbn [negb].
      - rewrite hash_c. fold c. change (Z.to_nat (Z.land (hashc c) (sizemask (ht d t)))) with (bidx (sizemask (ht d t)) c).
        unfold put_slot, modify. rewrite decide_True by done. destruct t, d as [? [] [] ? ? ?]; done.
      - destruct (Hpe Hne) as [e' He']. rewrite !decide_False by done. rewrite He'. rewrite (dict_put_next_run _ _ _ _ He').
        destruct t, d as [? [] [] ? ? ?]; done. }
    mstep H1.
    assert (heap (with_table d t hp sl (used (ht d t))) !! p = Some e) as Hp1.
    { unfold with_table. transitivity (hp !! p); [by destruct t|]. unfold hp. case_decide as Hz; [done|].
      destruct (heap d !! prev); [|done]. rewrite lookup_insert_ne; [done|]. by apply Hprev. }
    destruct nofree; [destruct t; done|]. mstep (free_entry_run _ _ _ Hp1). destruct t; done.
  - assert (∀ d0, d0 = d ∨ d0 = set_world d (free_world e (world d)) →
      inv (with_table d0 t hp' sl (u64 (used (ht d t) + -1))) (if t then m0 else delete c m0) (if t then delete c m1 else m1)) as Hall.
    { intros d0 Hd0. assert (inv d0 m0 m1 ∧ ht d0 t = ht d t ∧ rehashidx d0 = rehashidx d ∧ ht0 d0 = ht0 d ∧ next_of d0 = next_of d) as (Hi0 & Et & Er & E0 & En).
      { destruct Hd0 as [->| ->]; [done|]. split; [by apply inv_world|by destruct t]. }
      rewrite <-Et. replace (if t then delete c m1 else m1) with (if t then delete c (mt m0 m1 t) else m1) by (by destruct t).
      replace (if t then m0 else delete c m0) with (if t then m0 else delete c (mt m0 m1 t)) by (by destruct t).
      apply update_inv; rewrite ?Et; [done|done| | | | | | |].
      - destruct t; done.
      - intros c' q v' Hq. assert (delete c (m0 ∪ m1) !! c' = Some (q, v')) as Hq' by (rewrite <-Hdu; by destruct t).
        apply lookup_delete_Some in Hq' as [Hcc Hq']. destruct (i_item _ _ _ Hi _ _ _ Hq') as (Hq0 & k' & nx' & Hh & Hk').
        split; [done|]. assert (q ≠ p) as Hqp.
        { intros ->. apply Hcc. by apply (addr_inj _ _ _ _ _ _ _ _ Hi Hk Hq'). }
        destruct (Hkeep q _ Hqp Hh) as (nx2 & ? & _). by exists k', nx2.
      - unfold sl. case_decide; [apply length_insert|done].
      - eapply bk_ext; [apply (Hun (λ a, next <$> hp' !! a) sl)|].
        + unfold sl. case_decide as Hz; [done|]. split; [done|]. destruct (Hpe Hz) as [e' He']. destruct (Hprev Hz) as [_ Hpp].
          unfold hp', hp. rewrite He'.
          destruct nofree; [|rewrite lookup_delete_ne by done]; by rewrite lookup_insert_eq.
        + intros q Hq1 Hq2. apply Hnx; auto.
        + intros Hz q Hq. apply Hnx; auto.
        + intros i q _. split.
          * intros [(c' & v' & Hc' & Hb) Hqp]. exists c', v'. split; [|done]. rewrite lookup_delete_ne; [done|].
            intros <-. rewrite Hmt in Hc'. congruence.
          * intros (c' & v' & [Hne Hc']%lookup_delete_Some & Hb). split; [by exists c', v'|]. intros ->. apply Hne.
            by apply (addr_inj _ _ _ _ _ _ _ _ Hi Hk (mt_sub _ _ _ _ _ Hd Hc')).
      - by apply wrapu_range.
      - intros c' q v' Hc'. rewrite En. assert ((m0 ∪ m1) !! c' = Some (q, v')) as Hu by (by eapply (mt_sub _ _ (negb t))).
        assert (∀ c2 v2, mt m0 m1 t !! c2 = Some (q, v2) → False) as Hno.
        { intros c2 v2 Hc2. destruct (addr_inj _ _ _ _ _ _ _ _ Hi Hu (mt_sub _ _ _ _ _ Hd Hc2)) as [-> ->].
          destruct t; [exact (proj1 (map_disjoint_spec m0 m1) Hd _ _ _ Hc' Hc2)|exact (proj1 (map_disjoint_spec m0 m1) Hd _ _ _ Hc2 Hc')]. }
        apply Hnx; [intros ->; by eapply Hno|]. destruct (decide (prev = 0)) as [|Hz]; [by right|]. left. intros ->.
        destruct (Hprev Hz) as [(c2 & v2 & Hc2 & _) _]. by eapply Hno.
      - intros -> Hre. rewrite E0, Er in *. simpl in *. destruct (i_busy _ _ _ Hi Hre) as (_ & _ & _ & Hu & Hlow).
        rewrite map_size_delete_Some by (by eauto).
        assert (size m0 ≠ 0%nat) by (intros Hz%map_size_empty_inv; subst m0; done).
        split; [rewrite Hu, wrapu_small; rewrite ?Nat2Z.inj_pred; try lia|].
        + pose proof (o_used _ _ _ (i_h0 _ _ _ Hi)). lia.
        + intros c' [x [_ Hx]%lookup_delete_Some]. apply Hlow. eauto. }
    destruct nofree; apply Hall; auto.
  - unfold with_table. transitivity (hp' !! p); [by destruct t, nofree|]. unfold hp'. destruct nofree; [|by rewrite lookup_delete_eq].
    unfold hp. case_decide as Hz; [done|]. destruct (heap d !! prev); [|done]. rewrite lookup_insert_ne; [done|]. by apply Hprev.
  - by destruct nofree, t.
  - by destruct nofree, t.
Qed.

Lemma genericDelete_run d m0 m1 k nofree :
  inv d m0 m1 → (used (ht0 d) =? 0) && (used (ht1 d) =? 0) = false →
  ∃ d' m0' m1', dictGenericDelete type dictHashKey dictCompareKeys dictFreeKey k nofree d =
      Ok (default 0 (fst <$> (m0 ∪ m1) !! canon k), d') ∧
    inv d' m0' m1' ∧ m0' ∪ m1' = delete (canon k) (m0 ∪ m1) ∧ iterators d' = iterators d ∧
    match (m0 ∪ m1) !! canon k with
    | None => world d' = world d
    | Some (p, v) => p ≠ 0 ∧ ∃ e, canon (key e) = canon k ∧ val e = v ∧
        heap d' !! p = (if nofree then Some e else None) ∧
        world d' = (if nofree then world d else free_world e (world d))
    end.
Proof using L.
  intros Hi Hz. unfold dictGenericDelete. rewrite bind_get, Hz.
  destruct (step_run d m0 m1 Hi) as (d1 & m0a & m1a & Hrun & Hi1 & Hu & [Hri Hrw] & Hsz & Hid). mstep Hrun. rewrite <-Hu.
  destruct ((m0a ∪ m1a) !! canon k) as [[p v]|] eqn:Ek.
  - destruct (unlink_run d1 m0a m1a k p v nofree Hi1 Ek) as (t & prev & d' & e & Hfb & Hp & Hke & Hv & Hp0 & Hdo & Hi' & Hu' & Hh & Hw & Hit).
    mstep Hfb. zneq p 0. mstep (get_entry_run _ _ _ Hp). rewrite bind_get.
    exists d', (if t then m0a else delete (canon k) m0a), (if t then delete (canon k) m1a else m1a).
    split_and!; [|done|done|congruence|done|].
    + by rewrite (bind_seq3 _ _ _ _ _ _ _ Hdo).
    + exists e. by rewrite Hw, Hrw.
  - assert (0 < size_ (ht0 d1)) as Hs.
    { pose proof (o_shape _ _ _ (i_h0 _ _ _ Hi1)) as [(_ & _ & E & E0 & _)|(_ & _ & _ & j & Hj & ->)]; [|apply Z.pow_pos_nonneg; lia]. exfalso.
      destruct (dictIsRehashing d) eqn:Er.
      - apply rehashing_ne in Er. destruct (i_busy _ _ _ Hi Er) as (_ & ? & _). lia.
      - rewrite (Hid eq_refl) in *. apply rehashing_eq in Er. rewrite E0, (i_idle _ _ _ Hi1 Er) in Hz. done. }
    destruct (find_both_miss d1 m0a m1a k Hi1 Hs Ek) as (t & prev & Hf). mstep Hf. rewrite Z.eqb_refl.
    exists d1, m0a, m1a. split_and!; [done|done| |done|done]. by rewrite delete_id.
Qed.

(** ** Expansion *)

(** No expansion is due, or the counter it depends on is right. *)
Definition steady d (n : Z) : bool :=
  dictIsRehashing d || (used (ht0 d) =? n) || ((0 <? size_ (ht0 d)) && (used (ht0 d) <? size_ (ht0 d))).

Abbreviation expand := (dictExpand DICT_HT_INITIAL_SIZE new_table).
Abbreviation expand_needed := (_dictExpandIfNeeded DICT_HT_INITIAL_SIZE dict_force_resize_ratio dict_can_resize new_table).

(** The size of the table that an insertion into [d] creates, if it creates one, and the memory
    it is given. *)
Definition due d : option Z :=
  if dictIsRehashing d then None else
  let next_power sz := match _dictNextPower DICT_HT_INITIAL_SIZE sz with Ok n => Some n | Err _ => None end in
  if size_ (ht0 d) =? 0 then next_power DICT_HT_INITIAL_SIZE else
  if (size_ (ht0 d) <=? used (ht0 d)) && (dict_can_resize || (dict_force_resize_ratio <? used (ht0 d) / size_ (ht0 d)))
  then next_power (u64 (used (ht0 d) * 2)) else None.
Definition due_slots d : list Z := match due d with Some n => (new_table (heap d) n).2 | None => [] end.

(** [d] with a new table of [n] slots. *)
Definition with_new d (n : Z) : dict :=
  let h := mkHt (new_table (heap d) n).1 (new_table (heap d) n).2 n (n - 1) 0 in
  if table (ht0 d) =? 0 then set_ht d false h else set_idx (set_ht d true h) 0.

Lemma zero_slots (l : list Z) n : Forall (λ a, a = 0) l → length l = n → l = replicate n 0.
Proof. intros H <-. symmetry. apply replicate_as_elem_of. split; [done|]. by apply Forall_forall. Qed.

Lemma new_ht_ok d k : 0 ≤ k ≤ 62 → Forall (λ a, a = 0) (new_table (heap d) (2 ^ k)).2 →
  ht_ok d (mkHt (new_table (heap d) (2 ^ k)).1 (new_table (heap d) (2 ^ k)).2 (2 ^ k) (2 ^ k - 1) 0) ∅.
Proof using L.
  intros Hk Hz. rewrite (zero_slots _ _ Hz (table_length (new_table:=new_table) _ _)). split.
  - right. simpl. assert (0 < 2 ^ k) by (apply Z.pow_pos_nonneg; lia).
    split_and!; [apply (table_nonnull (new_table:=new_table))|done|rewrite length_replicate; lia|by exists k].
  - simpl. eapply bk_ext; [apply bk_empty|]. intros i p _. split; [done|]. by intros (c & v & Hc & _).
  - done.
Qed.

Lemma expand_eq d sz :
  rehashidx d = -1 → used (ht0 d) ≤ sz → 0 ≤ sz ≤ 2 ^ 61 → size_ (ht0 d) < sz ∨ size_ (ht0 d) = 0 →
  ∃ k, _dictNextPower DICT_HT_INITIAL_SIZE sz = Ok (2 ^ k) ∧ 0 ≤ k ≤ 62 ∧ expand sz d = Ok (DICT_OK, with_new d (2 ^ k)).
Proof using L.
  intros Hr Hu Hsz Hgt. destruct (initial_pow (DICT_HT_INITIAL_SIZE:=DICT_HT_INITIAL_SIZE)) as (i & Hi0 & Hini).
  destruct (next_power_spec 64 sz i) as (k & Hk & Hik & Hle & Hmin); [lia|lia| |].
  { transitivity (2 ^ 61); [lia|]. apply Z.pow_le_mono_r; lia. }
  assert (_dictNextPower DICT_HT_INITIAL_SIZE sz = Ok (2 ^ k)) as Hp.
  { unfold _dictNextPower. rewrite (proj2 (Z.leb_gt _ _)) by (unfold LONG_MAX; lia). by rewrite Hini. }
  assert (k ≤ 62) as Hk62.
  { destruct Hmin as [->|Hlt]; [lia|]. destruct (Z.le_gt_cases k 62); [done|]. exfalso.
    assert (2 ^ 61 < 2 ^ (k - 1)) by (apply Z.pow_lt_mono_r; lia). lia. }
  assert (0 < 2 ^ k) by (apply Z.pow_pos_nonneg; lia). exists k. split_and!; [done|lia|lia|].
  unfold dictExpand. rewrite bind_get. rewrite (proj2 (rehashing_eq d) Hr), (proj2 (Z.ltb_ge _ _)) by done. cbn [orb].
  mstep Hp. rewrite (proj2 (Z.eqb_neq (2 ^ k) _)) by lia. unfold with_new.
  destruct (new_table (heap d) (2 ^ k)) as [ta la]. by destruct (table (ht0 d) =? 0).
Qed.

Lemma idle_empty d m0 m1 : inv d m0 m1 → rehashidx d = -1 → m1 = ∅.
Proof.
  intros Hi Hr. pose proof (o_shape _ _ _ (i_h1 _ _ _ Hi)) as Hs. rewrite (i_idle _ _ _ Hi Hr) in Hs.
  destruct Hs as [(_ & _ & _ & _ & ->)|(? & _)]; done.
Qed.

(** An insertion creates the table that is due, or none. *)
Lemma expand_needed_eq d m0 m1 :
  inv d m0 m1 → steady d (Z.of_nat (size (m0 ∪ m1))) = true → Z.of_nat (size (m0 ∪ m1)) < 2 ^ 60 →
  match due d with
  | None => expand_needed d = Ok (DICT_OK, d) ∧ 0 < size_ (ht0 d)
  | Some n => expand_needed d = Ok (DICT_OK, with_new d n) ∧ rehashidx d = -1 ∧ m1 = ∅ ∧
      used (ht0 d) = Z.of_nat (size m0) ∧ ∃ k, 0 ≤ k ≤ 62 ∧ n = 2 ^ k
  end.
Proof using L.
  intros Hi Hst Hn. unfold _dictExpandIfNeeded, due. rewrite bind_get. destruct (dictIsRehashing d) eqn:Er.
  { split; [done|]. apply rehashing_ne in Er. by destruct (i_busy _ _ _ Hi Er) as (_ & ? & _). }
  apply rehashing_eq in Er as Hr. pose proof (idle_empty _ _ _ Hi Hr) as ->. rewrite map_union_empty in *.
  pose proof (o_shape _ _ _ (i_h0 _ _ _ Hi)) as Sh. pose proof (o_used _ _ _ (i_h0 _ _ _ Hi)) as Hu.
  unfold steady in Hst. rewrite Er in Hst. cbn [orb] in Hst.
  destruct (initial_pow (DICT_HT_INITIAL_SIZE:=DICT_HT_INITIAL_SIZE)) as (i & Hi0 & Hini).
  destruct (Z.eqb_spec (size_ (ht0 d)) 0) as [Hz|Hz].
  - destruct Sh as [(Ht & _ & _ & Hu0 & ->)|(_ & _ & _ & j & Hj & E)]; [|assert (0 < 2 ^ j) by (apply Z.pow_pos_nonneg; lia); lia].
    assert (0 < 2 ^ i ≤ 2 ^ 60) by (split; [apply Z.pow_pos_nonneg; lia|apply Z.pow_le_mono_r; lia]).
    destruct (expand_eq d DICT_HT_INITIAL_SIZE) as (k & -> & Hk & ->); [done|lia|lia|by right|].
    split_and!; [done|done|done|by rewrite Hu0|by exists k].
  - destruct ((size_ (ht0 d) <=? used (ht0 d)) && _) eqn:Ec.
    + apply andb_true_iff in Ec as [Ec _]. apply Z.leb_le in Ec.
      assert (used (ht0 d) = Z.of_nat (size m0)) as Hus.
      { apply orb_true_iff in Hst as [Hst|Hst]; [by apply Z.eqb_eq|]. apply andb_true_iff in Hst as [_ Hst]. apply Z.ltb_lt in Hst. lia. }
      pose proof (shape_nonneg _ _ Sh). rewrite wrapu_small by lia.
      destruct (expand_eq d (used (ht0 d) * 2)) as (k & -> & Hk & ->); [done|lia|lia|left; lia|].
      split_and!; [done|done|done|done|by exists k].
    + split; [done|]. pose proof (shape_nonneg _ _ Sh). lia.
Qed.

Lemma with_new_inv d m0 k :
  inv d m0 ∅ → rehashidx d = -1 → used (ht0 d) = Z.of_nat (size m0) → 0 ≤ k ≤ 62 →
  Forall (λ a, a = 0) (new_table (heap d) (2 ^ k)).2 →
  inv (with_new d (2 ^ k)) m0 ∅ ∧ same_rest d (with_new d (2 ^ k)) ∧ heap (with_new d (2 ^ k)) = heap d ∧ 0 < size_ (ht0 (with_new d (2 ^ k))).
Proof using L.
  intros Hi Hr Hus Hk Hz. assert (0 < 2 ^ k) by (apply Z.pow_pos_nonneg; lia).
  pose proof (new_ht_ok d k Hk Hz) as [Hsh Hbk Hnu]. unfold with_new.
  destruct (new_table (heap d) (2 ^ k)) as [ta la]. cbn [fst snd] in *.
  destruct Hi as [Hd Hit [Sh0 Bk0 U0] [Sh1 Bk1 U1] Hidle Hbusy].
  destruct (Z.eqb_spec (table (ht0 d)) 0) as [Ht|Ht].
  - destruct Sh0 as [(_ & _ & _ & _ & ->)|(? & _)]; [|done].
    split_and!; [|done|done|done]. split; [done|done|by split|by split|done|done].
  - destruct Sh0 as [(? & _)|Sh0]; [done|].
    destruct Sh0 as (? & Hm & Hl & j & Hj & Hs). assert (0 < 2 ^ j) by (apply Z.pow_pos_nonneg; lia).
    split_and!; [|done|done|simpl; lia].
    split; [done|done| |by split|done|].
    + split; [|done|done]. right. split_and!; [done|done|done|by exists j].
    + simpl. intros _. split_and!; [lia|lia|lia|done|done|]. intros; lia.
Qed.

Lemma expand_needed_run d m0 m1 :
  inv d m0 m1 → steady d (Z.of_nat (size (m0 ∪ m1))) = true → Z.of_nat (size (m0 ∪ m1)) < 2 ^ 60 →
  Forall (λ a, a = 0) (due_slots d) →
  ∃ d', expand_needed d = Ok (DICT_OK, d') ∧ inv d' m0 m1 ∧ same_rest d d' ∧ heap d' = heap d ∧ 0 < size_ (ht0 d').
Proof using L.
  intros Hi Hst Hn Hz. pose proof (expand_needed_eq d m0 m1 Hi Hst Hn) as He. unfold due_slots in Hz.
  destruct (due d) as [n|].
  - destruct He as (He & Hr & -> & Hus & k & Hk & ->). exists (with_new d (2 ^ k)). split; [done|]. by apply with_new_inv.
  - destruct He as [He Hs]. by exists d.
Qed.

(** ** Insertion *)

Abbreviation key_index := (_dictKeyIndex dictCompareKeys DICT_HT_INITIAL_SIZE dict_force_resize_ratio dict_can_resize new_table).
Abbreviation add_raw := (dictAddRaw type dictHashKey dictCompareKeys DICT_HT_INITIAL_SIZE dict_force_resize_ratio dict_can_resize new_entry new_table).

Lemma key_index_run d m0 m1 k :
  inv d m0 m1 → steady d (Z.of_nat (size (m0 ∪ m1))) = true → Z.of_nat (size (m0 ∪ m1)) < 2 ^ 60 →
  Forall (λ a, a = 0) (due_slots d) →
  ∃ d', key_index k (dictHashKey k) d =
      Ok (match (m0 ∪ m1) !! canon k with
          | Some (p, _) => (-1, p)
          | None => (Z.of_nat (bidx (sizemask (ht d' (dictIsRehashing d'))) (canon k)), 0)
          end, d') ∧
    inv d' m0 m1 ∧ same_rest d d' ∧ heap d' = heap d ∧ 0 < size_ (ht d' (dictIsRehashing d')).
Proof using L.
  intros Hi Hst Hn Hz. destruct (expand_needed_run d m0 m1 Hi Hst Hn Hz) as (d' & Hrun & Hi' & Hrest & Hh & Hs).
  exists d'. unfold _dictKeyIndex. mstep Hrun. change (DICT_OK =? DICT_ERR) with false. cbv iota.
  assert (0 < size_ (ht d' (dictIsRehashing d'))) as Hs'.
  { destruct (dictIsRehashing d') eqn:E; [|done]. apply rehashing_ne in E. by destruct (i_busy _ _ _ Hi' E) as (_ & _ & ? & _). }
  split; [|done]. destruct ((m0 ∪ m1) !! canon k) as [[p v]|] eqn:Ek.
  - destruct (find_both_hit d' m0 m1 k p v Hi' Ek) as (t & prev & Hf & _). destruct (i_item _ _ _ Hi' _ _ _ Ek) as [Hp _].
    mstep Hf. zneq p 0. done.
  - destruct (find_both_miss d' m0 m1 k Hi' Hs Ek) as (t & prev & Hf). mstep Hf. rewrite Z.eqb_refl. cbn [negb]. rewrite bind_get.
    unfold mret, M_ret. do 2 f_equal. f_equal. rewrite hash_c. unfold bidx. rewrite Z2Nat.id; [done|].
    apply Z.land_nonneg. right. destruct (o_shape _ _ _ (i_ht _ _ _ (dictIsRehashing d') Hi')) as [(_ & _ & E & _)|(_ & -> & _)]; lia.
Qed.

(** A lookup of a bucket whose head is no entry. *)
Lemma find_in_wild d (t : bool) k hd :
  slots (ht d t) !! bidx (sizemask (ht d t)) (canon k) = Some hd → hd ≠ 0 → heap d !! hd = None →
  find_in dictCompareKeys t k (dictHashKey k) d = Err FUndef.
Proof using L.
  intros Hs H0 Hh. unfold find_in. rewrite bind_get, hash_c. mstep (get_slot_run d t _ hd Hs).
  unfold lift. replace (scan _ _ _ _ _) with (Err FUndef : result (Z * Z)); [done|].
  destruct (size (heap d)); simpl; (rewrite (proj2 (Z.eqb_neq hd 0)) by done; unfold match_key; by rewrite Hh).
Qed.

(** A lookup in the first table depends on it and on the entries alone. *)
Lemma find_in_first d d' k (h : Z) r :
  ht0 d' = ht0 d → heap d' = heap d → find_in dictCompareKeys false k h d = Ok (r, d) →
  find_in dictCompareKeys false k h d' = Ok (r, d').
Proof.
  clear L. intros E0 Eh. unfold find_in, get_slot, match_key, next_of, mbind, M_bind, get, lift, deref. cbn. rewrite E0, Eh.
  destruct (slots (ht0 d) !! _); [|done]. destruct (scan _ _ _ _ _); intros E; by simplify_eq.
Qed.

(** The table that is due is made of memory that holds no entry where the key belongs. *)
Lemma key_index_wild d m0 m1 k hd :
  inv d m0 m1 → steady d (Z.of_nat (size (m0 ∪ m1))) = true → Z.of_nat (size (m0 ∪ m1)) < 2 ^ 60 →
  (m0 ∪ m1) !! canon k = None → due_slots d !! bidx (Z.of_nat (length (due_slots d)) - 1) (canon k) = Some hd →
  hd ≠ 0 → heap d !! hd = None → key_index k (dictHashKey k) d = Err FUndef.
Proof using L.
  intros Hi Hst Hn Hk Hhd H0 Hh. pose proof (expand_needed_eq d m0 m1 Hi Hst Hn) as He. unfold due_slots in Hhd.
  destruct (due d) as [n|]; [|by rewrite lookup_nil in Hhd]. destruct He as (He & Hr & -> & _ & j & Hj & ->).
  assert (0 < 2 ^ j) by (apply Z.pow_pos_nonneg; lia).
  rewrite (table_length (new_table:=new_table)), Z2Nat.id in Hhd by lia.
  unfold _dictKeyIndex. mstep He. change (DICT_OK =? DICT_ERR) with false. cbv iota.
  assert (find_both dictCompareKeys k (dictHashKey k) (with_new d (2 ^ j)) = Err FUndef) as Hf; [|by rewrite (bind_err _ _ _ _ Hf)].
  unfold find_both, with_new. destruct (Z.eqb_spec (table (ht0 d)) 0) as [Ht|Ht].
  { apply bind_err. by apply (find_in_wild _ false k hd). }
  rewrite map_union_empty in Hk. destruct (find_in_miss d m0 ∅ false k Hi) as [prev Hm]; [|done|].
  { cbn [ht]. destruct (o_shape _ _ _ (i_h0 _ _ _ Hi)) as [(? & _)|(_ & _ & _ & i & Hi' & ->)]; [done|apply Z.pow_pos_nonneg; lia]. }
  erewrite bind_ok; [|by eapply (find_in_first d)]. rewrite Z.eqb_refl. cbn [negb]. rewrite bind_get.
  cbn [dictIsRehashing set_idx rehashidx negb Z.eqb]. apply bind_err. by apply (find_in_wild _ true k hd).
Qed.

(** With a counter above 2^63 the doubled size wraps below it: the expansion is refused. *)
Lemma key_index_refused d m0 k (h : Z) :
  inv d m0 ∅ → rehashidx d = -1 → 2 ^ 63 < used (ht0 d) → dict_can_resize = true → key_index k h d = Ok ((-1, 0), d).
Proof.
  clear L. intros Hi Hr Hu Hc. unfold _dictKeyIndex. rewrite (bind_ok _ _ d DICT_ERR d); [done|].
  unfold _dictExpandIfNeeded. rewrite bind_get. rewrite (proj2 (rehashing_eq d) Hr).
  pose proof (o_used _ _ _ (i_h0 _ _ _ Hi)) as Hu2.
  destruct (o_shape _ _ _ (i_h0 _ _ _ Hi)) as [(_ & _ & _ & ? & _)|(_ & _ & _ & j & Hj & Hs)]; [lia|].
  assert (0 < 2 ^ j ≤ 2 ^ 62) by (split; [apply Z.pow_pos_nonneg; lia|apply Z.pow_le_mono_r; lia]).
  rewrite (proj2 (Z.eqb_neq _ _)), (proj2 (Z.leb_le _ _)), Hc by lia. cbn [andb orb].
  unfold dictExpand. rewrite bind_get, (proj2 (rehashing_eq d) Hr). cbn [orb].
  rewrite (proj2 (Z.ltb_lt _ _)); [done|]. unfold wrapu.
  rewrite (Z.mod_eq _ (2 ^ 64)) by lia. replace (used (ht0 d) * 2 / 2 ^ 64) with 1; [lia|].
  apply (Z.div_unique _ _ _ (used (ht0 d) * 2 - 2 ^ 64)); lia.
Qed.

(** The two maps with a new key in the table [t]. *)
Lemma insert_both m0 m1 c (t : bool) x : m0 ##ₘ m1 → (m0 ∪ m1) !! c = None ∨ is_Some (mt m0 m1 t !! c) →
  (if t then m0 else <[c := x]> m0) ##ₘ (if t then <[c := x]> m1 else m1) ∧
  (if t then m0 else <[c := x]> m0) ∪ (if t then <[c := x]> m1 else m1) = <[c := x]> (m0 ∪ m1).
Proof.
  clear L. intros Hd Hc.
  assert (mt m0 m1 (negb t) !! c = None) as Ho.
  { destruct Hc as [[H0 H1]%lookup_union_None|[y Hy]]; [by destruct t|].
    destruct t; simpl in *; [by eapply map_disjoint_Some_r|by eapply map_disjoint_Some_l]. }
  destruct t; simpl in Ho.
  - split; [by apply map_disjoint_insert_r|]. by rewrite insert_union_r.
  - split; [by apply map_disjoint_insert_l|]. by rewrite insert_union_l.
Qed.

Lemma dict_insert_run d m0 m1 k p v hd (t : bool) :
  inv d m0 m1 → (m0 ∪ m1) !! canon k = None → 0 < size_ (ht d t) → p ≠ 0 → heap d !! p = None →
  (t = dictIsRehashing d) → slots (ht d t) !! bidx (sizemask (ht d t)) (canon k) = Some hd →
  inv (with_table d t (<[p := mkEntry (dup (keyDup type) k) v hd]> (heap d))
         (<[bidx (sizemask (ht d t)) (canon k) := p]> (slots (ht d t))) (u64 (used (ht d t) + 1)))
    (if t then m0 else <[canon k := (p, v)]> m0) (if t then <[canon k := (p, v)]> m1 else m1).
Proof using L.
  intros Hi Hk Hs Hp Hnew Ht Hhd. set (c := canon k) in *. pose proof (i_disj _ _ _ Hi) as Hd.
  assert (∀ c' q v', (m0 ∪ m1) !! c' = Some (q, v') → q ≠ p) as Hne.
  { intros c' q v' Hq ->. destruct (i_item _ _ _ Hi _ _ _ Hq) as (_ & ? & ? & E & _). congruence. }
  destruct (insert_both m0 m1 c t (p, v) Hd (or_introl Hk)) as [Hdd Hdu].
  replace (if t then <[c := (p, v)]> m1 else m1) with (if t then <[c := (p, v)]> (mt m0 m1 t) else m1) in * by (by destruct t).
  replace (if t then m0 else <[c := (p, v)]> m0) with (if t then m0 else <[c := (p, v)]> (mt m0 m1 t)) in * by (by destruct t).
  apply update_inv; [done|done|done| | | | | |].
  - intros c' q v' Hq. rewrite Hdu in Hq. destruct (decide (c' = c)) as [->|Hcc].
    + rewrite lookup_insert_eq in Hq. injection Hq as <- <-. split; [done|]. eexists _, hd. rewrite lookup_insert_eq.
      split; [done|]. apply (dup_canon (dictHashKey:=dictHashKey)).
    + rewrite lookup_insert_ne in Hq by done. pose proof (Hne _ _ _ Hq). rewrite lookup_insert_ne by done. by apply (i_item _ _ _ Hi).
  - apply length_insert.
  - eapply bk_ext; [eapply bk_push; [exact (o_bk _ _ _ (i_ht _ _ _ t Hi))|exact Hhd|exact Hp| | |]|].
    + by rewrite lookup_insert_eq.
    + intros j (c' & v' & Hc' & _). by eapply (Hne _ _ _ (mt_sub _ _ _ _ _ Hd Hc')).
    + intros j q (c' & v' & Hc' & _). pose proof (Hne _ _ _ (mt_sub _ _ _ _ _ Hd Hc')). by rewrite lookup_insert_ne.
    + assert (mt m0 m1 t !! c = None) as Hnt by (apply lookup_union_None in Hk as []; by destruct t).
      intros i q _. split.
      * intros [(c' & v' & Hc' & Hb)|[-> ->]].
        -- exists c', v'. rewrite lookup_insert_ne; [done|]. intros <-. congruence.
        -- exists c, v. by rewrite lookup_insert_eq.
      * intros (c' & v' & Hc' & Hb). destruct (decide (c' = c)) as [->|].
        -- rewrite lookup_insert_eq in Hc'. right. split; [done|congruence].
        -- rewrite lookup_insert_ne in Hc' by done. left. by exists c', v'.
  - by apply wrapu_range.
  - intros c' q v' Hc'. pose proof (Hne _ _ _ (mt_sub _ _ _ _ _ Hd Hc')). unfold next_of. by rewrite lookup_insert_ne.
  - intros -> E. symmetry in Ht. apply rehashing_eq in Ht. done.
Qed.

Lemma add_raw_run d d1 m0 m1 k :
  step_if_rehashing dictHashKey d = Ok (tt, d1) → inv d1 m0 m1 →
  steady d1 (Z.of_nat (size (m0 ∪ m1))) = true → Z.of_nat (size (m0 ∪ m1)) < 2 ^ 60 →
  Forall (λ a, a = 0) (due_slots d1) →
  match (m0 ∪ m1) !! canon k with
  | Some (p, _) => ∃ d', add_raw k d = Ok ((0, p), d') ∧ inv d' m0 m1 ∧ same_rest d1 d'
  | None => ∃ p v d' m0' m1', add_raw k d = Ok ((p, 0), d') ∧ inv d' m0' m1' ∧ p ≠ 0 ∧
      m0' ∪ m1' = <[canon k := (p, v)]> (m0 ∪ m1) ∧ same_rest d1 d' ∧ heap d1 !! p = None
  end.
Proof using L.
  intros Hstep Hi Hst Hn Hz. destruct (key_index_run d1 m0 m1 k Hi Hst Hn Hz) as (d' & Hrun & Hi' & Hrest & Hh & Hs).
  unfold dictAddRaw. mstep Hstep. mstep Hrun. destruct ((m0 ∪ m1) !! canon k) as [[p v]|] eqn:Ek.
  - exists d'. done.
  - cbn [fst snd]. zneq (Z.of_nat (bidx (sizemask (ht d' (dictIsRehashing d'))) (canon k))) (-1). rewrite bind_get.
    destruct (entry_fresh (new_entry:=new_entry) (heap d')) as [Hp0 Hp]. destruct (new_entry (heap d')) as [p [jk jv jn]]. simpl in Hp0, Hp.
    set (t := dictIsRehashing d') in *. set (b := bidx (sizemask (ht d' t)) (canon k)) in *.
    destruct (lookup_lt_is_Some_2 _ _ (bidx_lt _ _ (canon k) (o_shape _ _ _ (i_ht _ _ _ t Hi')) Hs)) as [hd Hhd]. fold b in Hhd.
    pose proof (dict_insert_run d' m0 m1 k p jv hd t Hi' Ek Hs Hp0 Hp eq_refl Hhd) as Hi2.
    destruct (insert_both m0 m1 (canon k) t (p, jv) (i_disj _ _ _ Hi) (or_introl Ek)) as [_ Hdu].
    exists p, jv, (with_table d' t (<[p := mkEntry (dup (keyDup type) k) jv hd]> (heap d')) (<[b := p]> (slots (ht d' t))) (u64 (used (ht d' t) + 1))),
      (if t then m0 else <[canon k := (p, jv)]> m0), (if t then <[canon k := (p, jv)]> m1 else m1).
    split_and!; [|exact Hi2|done|done| |by rewrite <-Hh].
    + unfold put_entry. rewrite bind_modify. set (d2 := set_heap d' _).
      assert (slots (ht d2 t) !! Z.to_nat (Z.of_nat b) = Some hd) as Hhd2 by (rewrite Nat2Z.id; by destruct t).
      mstep (get_slot_run d2 t (Z.of_nat b) hd Hhd2).
      assert (heap d2 !! p = Some (mkEntry jk jv jn)) as Hp2 by (unfold d2; simpl; by rewrite lookup_insert_eq).
      mstep (dict_put_next_run d2 p _ hd Hp2). unfold put_slot, add_used. rewrite !bind_modify. rewrite Nat2Z.id.
      set (d3 := set_ht _ t _). unfold dictSetKey.
      assert (heap d3 !! p = Some (mkEntry jk jv hd)) as Hp3 by (unfold d3, d2; destruct t; simpl; by rewrite lookup_insert_eq).
      unfold mbind at 1, M_bind at 1. mstep (get_entry_run d3 p _ Hp3). unfold put_entry, modify. cbn [key val next].
      unfold mret, M_ret. do 2 f_equal. unfold with_table, d3, d2. destruct t; simpl; by rewrite !insert_insert_eq.
    + destruct Hrest. split; [by destruct t|by destruct t].
Qed.

Lemma setval_run d m0 m1 c p v v0 :
  inv d m0 m1 → (m0 ∪ m1) !! c = Some (p, v0) →
  ∃ d' m0' m1', dictSetVal type p v d = Ok (tt, d') ∧ inv d' m0' m1' ∧
    m0' ∪ m1' = <[c := (p, dup (valDup type) v)]> (m0 ∪ m1) ∧ same_rest d d'.
Proof.
  clear L. intros Hi Hc. destruct (i_item _ _ _ Hi _ _ _ Hc) as (Hp0 & k & nx & Hp & Hk). pose proof (i_disj _ _ _ Hi) as Hd.
  assert (∃ t, mt m0 m1 t !! c = Some (p, v0)) as [t Ht].
  { apply lookup_union_Some in Hc as [?|?]; [by exists false|by exists true|done]. }
  assert (0 < size_ (ht d t)) as Hs.
  { destruct (o_shape _ _ _ (i_ht _ _ _ t Hi)) as [(_ & _ & _ & _ & E)|(_ & _ & _ & j & Hj & ->)]; [rewrite E in Ht; done|apply Z.pow_pos_nonneg; lia]. }
  set (w := dup (valDup type) v). destruct (insert_both m0 m1 c t (p, w) Hd) as [Hdd Hdu]; [right; eauto|].
  exists (with_table d t (<[p := mkEntry k w nx]> (heap d)) (slots (ht d t)) (used (ht d t))),
    (if t then m0 else <[c := (p, w)]> m0), (if t then <[c := (p, w)]> m1 else m1).
  assert (∀ q, next <$> <[p := mkEntry k w nx]> (heap d) !! q = next_of d q) as Hnx.
  { intros q. unfold next_of. destruct (decide (q = p)) as [->|]; [rewrite lookup_insert_eq; by rewrite Hp|by rewrite lookup_insert_ne]. }
  split_and!; [| |done|split; by destruct t].
  - unfold dictSetVal. mstep (get_entry_run _ _ _ Hp). unfold put_entry, modify. cbn [key next]. do 2 f_equal.
    unfold with_table. destruct t, d as [? [] [] ? ? ?]; done.
  - replace (if t then <[c := (p, w)]> m1 else m1) with (if t then <[c := (p, w)]> (mt m0 m1 t) else m1) in * by (by destruct t).
    replace (if t then m0 else <[c := (p, w)]> m0) with (if t then m0 else <[c := (p, w)]> (mt m0 m1 t)) in * by (by destruct t).
    apply update_inv; [done|done|done| |done| |apply (i_ht _ _ _ t Hi)| |].
    + intros c' q v' Hq. rewrite Hdu in Hq. destruct (decide (c' = c)) as [->|Hcc].
      * rewrite lookup_insert_eq in Hq. injection Hq as <- <-. split; [done|]. exists k, nx. by rewrite lookup_insert_eq.
      * rewrite lookup_insert_ne in Hq by done. destruct (i_item _ _ _ Hi _ _ _ Hq) as (Hq0 & k' & nx' & Hh & Hk').
        split; [done|]. exists k', nx'. rewrite lookup_insert_ne; [done|]. intros <-.
        by destruct (addr_inj _ _ _ _ _ _ _ _ Hi Hc Hq) as [? _].
    + eapply bk_ext; [eapply bk_frame; [exact (o_bk _ _ _ (i_ht _ _ _ t Hi))|by intros; apply Hnx]|].
      intros i q _. split.
      * intros (c' & v' & Hc' & Hb). destruct (decide (c' = c)) as [->|].
        -- rewrite Ht in Hc'. injection Hc' as <- <-. exists c, w. by rewrite lookup_insert_eq.
        -- exists c', v'. by rewrite lookup_insert_ne.
      * intros (c' & v' & Hc' & Hb). destruct (decide (c' = c)) as [->|].
        -- rewrite lookup_insert_eq in Hc'. injection Hc' as <- <-. by exists c, v0.
        -- rewrite lookup_insert_ne in Hc' by done. by exists c', v'.
    + intros c' q v' _. apply Hnx.
    + intros -> E. simpl in *. destruct (i_busy _ _ _ Hi E) as (_ & _ & _ & Hu & Hlow).
      rewrite map_size_insert_Some by eauto. split; [done|]. intros c' [x Hx]. apply Hlow.
      destruct (decide (c' = c)) as [->|]; [eauto|]. rewrite lookup_insert_ne in Hx by done. eauto.
Qed.

End facts.
End RedisDictFacts.
