(* ===== verification/RedisIter.v ===== *)
(** Iterating over the redis dictionary: a walk with [dictNext] meets every entry once. *)

From S2P Require Import Prelude Chains Buckets RedisDict RedisDictFacts.
From stdpp Require Import options.

Module RedisIter.
Import RedisDict RedisDictFacts.

Section iter.
Context {W : Type} (canon hashc : Z → Z).
Implicit Types (d : @dict W) (it : dictIterator) (m : gmap Z (Z * Z)).

(** [dictNext] until it returns NULL. *)
Fixpoint walk (fuel : nat) it : M (@dict W) (list Z * dictIterator) :=
  match fuel with
  | O => fail FFuel
  | S fuel =>
      r ← dictNext it;
      if r.1 =? 0 then mret ([], r.2) else
      rs ← walk fuel r.2; mret (r.1 :: rs.1, rs.2)
  end.

(** The entries of the slots from [i] on, in the order of the walk. *)
Definition slots_yield d (t : bool) (i : nat) (l : list Z) : Prop :=
  ∃ ls ls', Forall2 (λ hd l, chain (next_of d) hd l) (drop i (slots (ht d t))) ls ∧
    (if dictIsRehashing d && negb t then Forall2 (λ hd l, chain (next_of d) hd l) (slots (ht1 d)) ls' else ls' = []) ∧
    l = concat ls ++ concat ls'.

(** What an iterator that has started will still deliver. *)
Definition yields d it (l : list Z) : Prop :=
  0 ≤ index it ∧
  if ientry it =? 0 then slots_yield d (itable it) (Z.to_nat (index it + 1)) l
  else ∃ l1 l2, chain (next_of d) (nextEntry it) l1 ∧ slots_yield d (itable it) (Z.to_nat (index it + 1)) l2 ∧ l = l1 ++ l2.

Definition slots_left d it : nat :=
  (length (slots (ht d (itable it))) - Z.to_nat (index it + 1) + (if itable it then 0 else length (slots (ht1 d))))%nat.

Definition same_iter it it' : Prop := (safe it', fingerprint it') = (safe it, fingerprint it).

Record fits d : Prop := {
  f_size t : size_ (ht d t) = Z.of_nat (length (slots (ht d t))) ∧ size_ (ht d t) < 2 ^ 63;
  f_busy : dictIsRehashing d = true → slots (ht1 d) ≠ [];
}.

Lemma iter_slot_run d it l :
  fits d → -1 ≤ index it → slots_yield d (itable it) (Z.to_nat (index it + 1)) l →
  ∃ b it', iter_slot it d = Ok ((b, it'), d) ∧ 0 ≤ index it' ∧ same_iter it it' ∧
    if (b : bool) then l = [] else
    (slots_left d it' < slots_left d it)%nat ∧
    ∃ l1 l2, chain (next_of d) (ientry it') l1 ∧ slots_yield d (itable it') (Z.to_nat (index it' + 1)) l2 ∧ l = l1 ++ l2.
Proof.
  intros Hf Hi (ls & ls' & H1 & H2 & ->). unfold iter_slot. rewrite bind_get. cbn [itable index set_pos].
  destruct (f_size _ Hf (itable it)) as [Hs Hb]. rewrite (wraps_small 64) by lia. rewrite Hs. set (i := Z.to_nat (index it + 1)) in *.
  destruct (Z.leb_spec (Z.of_nat (length (slots (ht d (itable it))))) (index it + 1)) as [Hle|Hgt].
  - rewrite drop_ge in H1 by lia. inversion H1; subst ls. simpl.
    destruct (dictIsRehashing d && negb (itable it)) eqn:E.
    + apply andb_true_iff in E as [Er Et]. apply negb_true_iff in Et.
      pose proof (f_busy _ Hf Er) as Hne. destruct (slots (ht1 d)) as [|h0 sl] eqn:Esl; [done|].
      inversion H2 as [|? l0 ? ls2 Hc Hrest]; subst.
      assert (slots (ht d true) !! Z.to_nat 0 = Some h0) as Hg by (simpl; by rewrite Esl).
      mstep (get_slot_run d true 0 h0 Hg). eexists false, _. split; [reflexivity|]. split; [done|]. split; [done|].
      cbn [itable index ientry set_entry set_pos]. split.
      * unfold slots_left. cbn [itable index set_entry set_pos]. simpl ht. rewrite Et, Esl. simpl. lia.
      * exists l0, (concat ls2). split; [done|]. split; [|done]. exists ls2, []. simpl ht. rewrite Esl. simpl.
        split; [done|]. rewrite andb_false_r. by rewrite app_nil_r.
    + subst ls'. eexists true, _. split; [reflexivity|]. split; [simpl; lia|done].
  - destruct (lookup_lt_is_Some_2 (slots (ht d (itable it))) i) as [hd Hhd]; [lia|].
    rewrite (drop_S _ _ _ Hhd) in H1. inversion H1 as [|? l0 ? ls2 Hc Hrest]; subst.
    mstep (get_slot_run d (itable it) (index it + 1) hd Hhd). eexists false, _. split; [reflexivity|]. split; [simpl; lia|]. split; [done|].
    cbn [itable index ientry set_entry set_pos]. split.
    + unfold slots_left. cbn [itable index set_entry set_pos]. lia.
    + exists l0, (concat ls2 ++ concat ls'). split; [done|]. split; [|simpl; by rewrite app_assoc].
      exists ls2, ls'. replace (Z.to_nat (index it + 1 + 1)) with (S i) by lia. done.
Qed.

Lemma next_loop_run fuel d it l :
  fits d → yields d it l → (slots_left d it + (if (ientry it =? 0)%Z then 0 else 1) < fuel)%nat →
  ∃ it', next_loop fuel it d = Ok ((default 0 (head l), it'), d) ∧ same_iter it it' ∧ 0 ≤ index it' ∧
    match l with [] => True | p :: l' => p ≠ 0 ∧ yields d it' l' end.
Proof.
  intros Hf. revert it l. induction fuel as [|fuel IH]; intros it l [Hi Hy] Hn; [lia|]. cbn [next_loop].
  assert (∃ b it1, iter_advance it d = Ok ((b, it1), d) ∧ 0 ≤ index it1 ∧ same_iter it it1 ∧
    if (b : bool) then l = [] else (slots_left d it1 < fuel)%nat ∧
      ∃ l1 l2, chain (next_of d) (ientry it1) l1 ∧ slots_yield d (itable it1) (Z.to_nat (index it1 + 1)) l2 ∧ l = l1 ++ l2)
    as (b & it1 & Hadv & Hi1 & Hsame & Hres).
  { unfold iter_advance. destruct (Z.eqb_spec (ientry it) 0) as [E|E]; cbn [negb].
    - unfold iter_start. rewrite (proj2 (Z.eqb_neq (index it) (-1))) by lia. cbn [andb].
      unfold mbind, M_bind, mret, M_ret. destruct (iter_slot_run d it l Hf ltac:(lia) Hy) as (b & it1 & Hrun & Hi1 & Hsame & Hres).
      exists b, it1. split_and!; [exact Hrun|done|done|]. destruct b; [done|]. destruct Hres as [? Hres]. split; [lia|exact Hres].
    - destruct Hy as (l1 & l2 & Hc & Hy & ->). exists false, (set_entry it (nextEntry it)). split; [done|]. split; [done|]. split; [done|].
      cbn [itable index ientry set_entry]. split; [change (slots_left d (set_entry it (nextEntry it))) with (slots_left d it); lia|]. by exists l1, l2. }
  mstep Hadv. destruct b.
  - subst l. by exists it1.
  - destruct Hres as (Hlt & l1 & l2 & Hc & Hy1 & ->). destruct (Z.eqb_spec (ientry it1) 0) as [E|E]; cbn [negb].
    + destruct l1 as [|a l1]; [|destruct Hc as (Ea & ? & _); congruence]. simpl.
      destruct (IH it1 l2) as (it' & Hrun & Hsame' & Hi' & Hl'); [split; [done|]; by rewrite (proj2 (Z.eqb_eq _ _) E)|rewrite (proj2 (Z.eqb_eq _ _) E); lia|].
      exists it'. split_and!; [exact Hrun|unfold same_iter in *; congruence|done|done].
    + destruct l1 as [|a l1]; [simpl in Hc; congruence|]. destruct Hc as (Ea & Ha & r & Hr & Hc). subst a.
      unfold next_of in Hr. destruct (heap d !! ientry it1) as [e|] eqn:He; [|done]. simpl in Hr. injection Hr as Hr.
      mstep (get_entry_run _ _ _ He). eexists. split; [reflexivity|]. split; [done|]. split; [done|]. cbn [app]. split; [done|]. split; [done|].
      cbn [ientry set_nextEntry]. rewrite (proj2 (Z.eqb_neq _ _)) by done. exists l1, l2. cbn [nextEntry set_nextEntry]. by rewrite Hr.
Qed.

Lemma dictNext_run d it l :
  fits d → yields d it l →
  ∃ it', dictNext it d = Ok ((default 0 (head l), it'), d) ∧ same_iter it it' ∧ 0 ≤ index it' ∧
    match l with [] => True | p :: l' => p ≠ 0 ∧ yields d it' l' end.
Proof.
  intros Hf Hy. unfold dictNext. rewrite bind_get. apply next_loop_run; [done|done|].
  destruct Hy as [Hi _]. unfold slots_left. destruct (itable it); simpl; destruct (ientry it =? 0); lia.
Qed.

Lemma walk_run fuel d it l :
  fits d → yields d it l → (length l < fuel)%nat →
  ∃ it', walk fuel it d = Ok ((l, it'), d) ∧ same_iter it it' ∧ 0 ≤ index it'.
Proof.
  intros Hf. revert it l. induction fuel as [|fuel IH]; intros it l Hy Hn; [lia|]. cbn [walk].
  destruct (dictNext_run d it l Hf Hy) as (it1 & Hrun & Hs1 & Hi1 & Hl). mstep Hrun. destruct l as [|p l].
  - simpl. exists it1. done.
  - destruct Hl as [Hp Hy1]. simpl in Hn. change (default 0 (head (p :: l))) with p. zneq p 0.
    destruct (IH it1 l Hy1 ltac:(lia)) as (it' & Hrun' & Hs' & Hi'). mstep Hrun'.
    exists it'. split_and!; [done|unfold same_iter in *; congruence|done].
Qed.

(** ** A fresh iterator *)

(** The first step of a fresh iterator, after the state and the iterator it starts with. *)
Lemma fresh_next d d1 it it1 l :
  index it = -1 → itable it = false → ientry it = 0 → iter_start it d = Ok (it1, d1) →
  index it1 = -1 → itable it1 = false → ientry it1 = 0 →
  length (slots (ht0 d1)) = length (slots (ht0 d)) → length (slots (ht1 d1)) = length (slots (ht1 d)) →
  fits d1 → slots_yield d1 false 0 l →
  ∃ it', dictNext it d = Ok ((default 0 (head l), it'), d1) ∧ same_iter it1 it' ∧ 0 ≤ index it' ∧
    match l with [] => True | p :: l' => p ≠ 0 ∧ yields d1 it' l' end.
Proof.
  intros Hi Ht He Hst Hi1 Ht1 He1 Hl0 Hl1 Hf Hy.
  destruct (iter_slot_run d1 it1 l Hf) as (b & it2 & Hrun & Hi2 & Hsame & Hres); [lia|by rewrite Hi1, Ht1|].
  unfold dictNext. rewrite bind_get. rewrite Nat.add_succ_r. cbn [next_loop]. unfold iter_advance. rewrite He, Z.eqb_refl. cbn [negb].
  assert ((iter_start it ≫= iter_slot) d = Ok ((b, it2), d1)) as Hadv by (by mstep Hst). mstep Hadv. destruct b.
  - subst l. by exists it2.
  - destruct Hres as (Hlt & l1 & l2 & Hc & Hy2 & ->). destruct (Z.eqb_spec (ientry it2) 0) as [E|E]; cbn [negb].
    + destruct l1 as [|a l1]; [|destruct Hc as (Ea & ? & _); congruence]. simpl.
      destruct (next_loop_run (length (slots (ht0 d)) + length (slots (ht1 d)) + 1) d1 it2 l2 Hf) as (it' & Hn & Hs' & Hi' & Hl').
      * split; [done|]. by rewrite (proj2 (Z.eqb_eq _ _) E).
      * rewrite (proj2 (Z.eqb_eq _ _) E). unfold slots_left in Hlt at 2. rewrite Hi1, Ht1 in Hlt. simpl in Hlt. lia.
      * exists it'. split_and!; [exact Hn|unfold same_iter in *; congruence|done|done].
    + destruct l1 as [|a l1]; [simpl in Hc; congruence|]. destruct Hc as (Ea & Ha & r & Hr & Hc). subst a.
      unfold next_of in Hr. destruct (heap d1 !! ientry it2) as [e|] eqn:Hh; [|done]. simpl in Hr. injection Hr as Hr.
      mstep (get_entry_run _ _ _ Hh). eexists. split; [reflexivity|]. split; [done|]. split; [done|]. cbn [app]. split; [done|]. split; [done|].
      cbn [ientry set_nextEntry]. rewrite (proj2 (Z.eqb_neq _ _)) by done. exists l1, l2. cbn [nextEntry set_nextEntry]. by rewrite Hr.
Qed.

(** The chains of a table of the dictionary, one per slot. *)
Lemma table_chains d m0 m1 t :
  inv canon hashc d m0 m1 →
  ∃ ls, Forall2 (λ hd l, chain (next_of d) hd l) (slots (ht d t)) ls ∧ NoDup (concat ls) ∧
    ∀ p, p ∈ concat ls ↔ ∃ c v, mt m0 m1 t !! c = Some (p, v).
Proof.
  intros Hi. pose proof (i_ht canon hashc _ _ _ t Hi) as [Hsh Hbk _].
  assert (∀ i hd, slots (ht d t) !! i = Some hd → ∃ l, chain (next_of d) hd l ∧ ∀ p, p ∈ l ↔ at_ hashc (sizemask (ht d t)) (mt m0 m1 t) i p) as Hbk' by exact Hbk.
  pose proof (at_apart canon hashc _ _ _ t (sizemask (ht d t)) Hi) as Hap.
  assert (∀ c p v, mt m0 m1 t !! c = Some (p, v) → (bidx hashc (sizemask (ht d t)) c < length (slots (ht d t)))%nat) as Hlt.
  { intros c p v Hc. apply (bidx_lt hashc _ (mt m0 m1 t)); [done|].
    destruct Hsh as [(_ & _ & _ & _ & E)|(_ & _ & _ & j & Hj & ->)]; [rewrite E in Hc; done|apply Z.pow_pos_nonneg; lia]. }
  set (R := at_ hashc (sizemask (ht d t)) (mt m0 m1 t)) in *.
  assert (∀ k sl, (∀ i hd, sl !! i = Some hd → ∃ l, chain (next_of d) hd l ∧ ∀ p, p ∈ l ↔ R (k + i)%nat p) →
    ∃ ls, Forall2 (λ hd l, chain (next_of d) hd l) sl ls ∧ NoDup (concat ls) ∧
      ∀ p, p ∈ concat ls ↔ ∃ i, (i < length sl)%nat ∧ R (k + i)%nat p) as Hgen.
  { intros k sl. revert k. induction sl as [|hd sl IH]; intros k H.
    - exists []. split_and!; [constructor|constructor|]. intros p. simpl. split; [set_solver|]. intros (i & ? & _). lia.
    - destruct (H 0%nat hd eq_refl) as (l & Hc & Hl). rewrite Nat.add_0_r in Hl.
      destruct (IH (S k)) as (ls & H2 & Hnd & Hin).
      { intros i h Hh. replace (S k + i)%nat with (k + S i)%nat by lia. by apply (H (S i)). }
      exists (l :: ls). split_and!; [by constructor| |].
      + simpl. apply NoDup_app. split_and!; [by eapply chain_NoDup| |done].
        intros p Hp Hp'. apply Hl in Hp. apply Hin in Hp' as (i & _ & Hi'). pose proof (Hap _ _ _ Hp Hi'). lia.
      + intros p. simpl. rewrite elem_of_app, Hl, Hin. split.
        * intros [Hp|(i & Hi' & Hp)]; [exists 0%nat; rewrite Nat.add_0_r; split; [simpl; lia|done]|].
          exists (S i). replace (k + S i)%nat with (S k + i)%nat by lia. split; [simpl; lia|done].
        * intros ([|i] & Hi' & Hp); [left; by rewrite Nat.add_0_r in Hp|]. right. exists i.
          replace (S k + i)%nat with (k + S i)%nat by lia. split; [simpl in Hi'; lia|done]. }
  destruct (Hgen 0%nat (slots (ht d t)) Hbk') as (ls & H2 & Hnd & Hin). exists ls. split_and!; [done|done|].
  intros p. rewrite Hin. split.
  - intros (i & _ & c & v & Hc & _). eauto.
  - intros (c & v & Hc). exists (bidx hashc (sizemask (ht d t)) c). split; [by eapply Hlt|]. exists c, v. done.
Qed.

Lemma dict_fits d m0 m1 : inv canon hashc d m0 m1 → fits d.
Proof.
  intros Hi. split.
  - intros t. destruct (o_shape _ _ _ _ (i_ht canon hashc _ _ _ t Hi)) as [(_ & -> & -> & _)|(_ & _ & <- & j & Hj & Hs)]; [done|].
    split; [done|]. rewrite Hs. apply Z.pow_lt_mono_r; lia.
  - intros E. apply rehashing_ne in E. destruct (i_busy _ _ _ _ _ Hi E) as (_ & _ & H & _). intros Hn.
    destruct (o_shape _ _ _ _ (i_h1 _ _ _ _ _ Hi)) as [(_ & _ & ? & _)|(_ & _ & Hl & _)]; [lia|]. rewrite Hn in Hl. simpl in Hl. lia.
Qed.

(** All entries, in the order of the walk. *)
Lemma dict_yields d m0 m1 : inv canon hashc d m0 m1 →
  ∃ l, slots_yield d false 0 l ∧ NoDup l ∧ ∀ p, p ∈ l ↔ ∃ c v, (m0 ∪ m1) !! c = Some (p, v).
Proof.
  intros Hi. destruct (table_chains d m0 m1 false Hi) as (ls & H2 & Hnd & Hin).
  destruct (table_chains d m0 m1 true Hi) as (ls' & H2' & Hnd' & Hin'). simpl in *.
  pose proof (i_disj _ _ _ _ _ Hi) as Hd.
  assert (dictIsRehashing d = false → ls' = []) as Hidle.
  { intros E. apply rehashing_eq in E. rewrite (i_idle _ _ _ _ _ Hi E) in H2'. by inversion H2'. }
  exists (concat ls ++ concat ls'). split_and!.
  - exists ls, ls'. split; [done|]. split; [|done]. destruct (dictIsRehashing d); [done|by apply Hidle].
  - apply NoDup_app. split_and!; [done| |done]. intros p (c & v & H0)%Hin (c' & v' & H1)%Hin'.
    destruct (addr_inj _ _ _ _ _ _ _ _ _ _ Hi (lookup_union_Some_l m0 m1 _ _ H0) (lookup_union_Some_r m0 m1 _ _ Hd H1)) as [-> ->].
    exact (proj1 (map_disjoint_spec m0 m1) Hd _ _ _ H0 H1).
  - intros p. rewrite elem_of_app, Hin, Hin'. split.
    + intros [(c & v & H)|(c & v & H)]; exists c, v; [by apply lookup_union_Some_l|by apply lookup_union_Some_r].
    + intros (c & v & [H|H]%lookup_union_Some); [left|right|done]; eauto.
Qed.

End iter.
End RedisIter.
