(* ===== verification/RedisDictProps.v ===== *)
(** The redis dictionary's properties: what each operation answers and leaves behind, how the
    rehash and the iterators behave, and what the counter of moved entries breaks. *)

From S2P Require Import Prelude Chains Buckets RedisDict RedisDictFacts RedisIter.
From stdpp Require Import options.

Module RedisDictProps.
Import RedisDict RedisDictFacts RedisIter.

Section props.
Context {W : Type} (type : dictType W).
Context (dictHashKey : Z → Z) (dictCompareKeys : Z → Z → bool) (dictFreeKey : Z → W → W).
Context (DICT_HT_INITIAL_SIZE dict_force_resize_ratio : Z) (dict_can_resize : bool).
Context (new_entry : gmap Z dictEntry → Z * dictEntry) (new_table : gmap Z dictEntry → Z → Z * list Z).
Context (canon hashc : Z → Z).
Context {L : DictLaws type dictHashKey dictCompareKeys DICT_HT_INITIAL_SIZE new_entry new_table canon hashc}.
Implicit Types (d : @dict W) (m : gmap Z (Z * Z)).

Abbreviation inv := (inv canon hashc).
Abbreviation add := (dictAdd type dictHashKey dictCompareKeys DICT_HT_INITIAL_SIZE dict_force_resize_ratio dict_can_resize new_entry new_table).
Abbreviation replace_ := (dictReplace type dictHashKey dictCompareKeys DICT_HT_INITIAL_SIZE dict_force_resize_ratio dict_can_resize new_entry new_table).

(** Unless the two [used] counters add up to zero, a lookup at any point of a rehash
    returns the value stored under the key, and 0 for a key that is not there; it may move a
    bucket but the contents stay the same. When the counters add up to zero it returns 0
    whatever the dictionary holds. *)
Theorem dict_fetch_spec d m0 m1 k :
  inv d m0 m1 →
  ∃ d' m0' m1', dictFetchValue dictHashKey dictCompareKeys k d =
      Ok (if u64 (used (ht0 d) + used (ht1 d)) =? 0 then 0 else default 0 (snd <$> (m0 ∪ m1) !! canon k), d') ∧
    inv d' m0' m1' ∧ m0' ∪ m1' = m0 ∪ m1 ∧ same_rest d d'.
Proof using L.
  intros Hi. destruct (dict_find_run type dictHashKey dictCompareKeys DICT_HT_INITIAL_SIZE new_entry new_table canon hashc d m0 m1 k Hi)
    as (d' & m0' & m1' & Hrun & Hi' & Hu & Hrest).
  exists d', m0', m1'. split; [|done]. unfold dictFetchValue. mstep Hrun.
  destruct (u64 (used (ht0 d) + used (ht1 d)) =? 0); [done|]. rewrite <-Hu.
  destruct ((m0' ∪ m1') !! canon k) as [[p v]|] eqn:Ek; [|done]. simpl.
  destruct (i_item _ _ _ _ _ Hi' _ _ _ Ek) as (Hp & ke & nx & Hh & _). zneq p 0.
  unfold dictGetVal. by mstep (get_entry_run _ _ _ Hh).
Qed.

(** The state after the rehash step an insertion begins with. *)
Definition after_step d : @dict W := match step_if_rehashing dictHashKey d with Ok (_, d1) => d1 | Err _ => d end.

(** The counter of the first table is right at the insertion, or no expansion can be due. *)
Definition steady_add d (n : Z) : bool := steady (after_step d) n.

(** What the memory holds that the insertion is given for a table; [] when it creates none. *)
Definition given_slots d : list Z :=
  due_slots DICT_HT_INITIAL_SIZE dict_force_resize_ratio dict_can_resize new_table (after_step d).

(** What an insertion of [k] answers and leaves behind. *)
Definition added d m0 m1 (k v : Z) : Prop :=
  match (m0 ∪ m1) !! canon k with
  | Some _ => ∃ d' m0' m1', add k v d = Ok (DICT_ERR, d') ∧ inv d' m0' m1' ∧ m0' ∪ m1' = m0 ∪ m1 ∧ same_rest d d'
  | None => ∃ p d' m0' m1', add k v d = Ok (DICT_OK, d') ∧ inv d' m0' m1' ∧
      m0' ∪ m1' = <[canon k := (p, dup (valDup type) v)]> (m0 ∪ m1) ∧ same_rest d d'
  end.

Lemma after_step_run d m0 m1 : inv d m0 m1 →
  ∃ m0a m1a, step_if_rehashing dictHashKey d = Ok (tt, after_step d) ∧ inv (after_step d) m0a m1a ∧
    m0a ∪ m1a = m0 ∪ m1 ∧ same_rest d (after_step d).
Proof using L.
  intros Hi. destruct (step_run type dictHashKey dictCompareKeys DICT_HT_INITIAL_SIZE new_entry new_table canon hashc d m0 m1 Hi)
    as (d1 & m0a & m1a & Hstep & Hi1 & Hu & Hr & _). exists m0a, m1a. unfold after_step. by rewrite Hstep.
Qed.

Lemma add_run d m0 m1 k v :
  inv d m0 m1 → steady_add d (Z.of_nat (size (m0 ∪ m1))) = true → Z.of_nat (size (m0 ∪ m1)) < 2 ^ 60 →
  Forall (λ a, a = 0) (given_slots d) → added d m0 m1 k v.
Proof using L.
  intros Hi Hst Hn Hz. destruct (after_step_run d m0 m1 Hi) as (m0a & m1a & Hstep & Hi1 & Hu & [Hr1 Hr2]). unfold added.
  rewrite <-Hu in *.
  pose proof (add_raw_run type dictHashKey dictCompareKeys DICT_HT_INITIAL_SIZE dict_force_resize_ratio dict_can_resize new_entry new_table
    canon hashc d _ m0a m1a k Hstep Hi1 Hst Hn Hz) as Hraw.
  destruct ((m0a ∪ m1a) !! canon k) as [[p v0]|] eqn:Ek.
  - destruct Hraw as (d' & Hrun & Hi' & [Hr3 Hr4]). exists d', m0a, m1a. unfold dictAdd. mstep Hrun. split_and!; [done|done|done|split; congruence].
  - destruct Hraw as (p & jv & d2 & m0b & m1b & Hrun & Hi2 & Hp & Hu2 & [Hr3 Hr4] & _).
    destruct (setval_run type canon hashc d2 m0b m1b (canon k) p v jv Hi2) as (d' & m0' & m1' & Hset & Hi' & Hu' & [Hr5 Hr6]).
    { rewrite Hu2. by rewrite lookup_insert_eq. }
    exists p, d', m0', m1'. unfold dictAdd. mstep Hrun. zneq p 0. mstep Hset.
    split_and!; [done|done| |split; congruence]. rewrite Hu', Hu2. by rewrite insert_insert_eq.
Qed.

Lemma add_wild d m0 m1 k v hd :
  inv d m0 m1 → steady_add d (Z.of_nat (size (m0 ∪ m1))) = true → Z.of_nat (size (m0 ∪ m1)) < 2 ^ 60 →
  (m0 ∪ m1) !! canon k = None → given_slots d !! bidx hashc (Z.of_nat (length (given_slots d)) - 1) (canon k) = Some hd →
  hd ≠ 0 → heap (after_step d) !! hd = None → add k v d = Err FUndef.
Proof using L.
  intros Hi Hst Hn Hk Hhd H0 Hh. destruct (after_step_run d m0 m1 Hi) as (m0a & m1a & Hstep & Hi1 & Hu & _). rewrite <-Hu in *.
  pose proof (key_index_wild type dictHashKey dictCompareKeys DICT_HT_INITIAL_SIZE dict_force_resize_ratio dict_can_resize new_entry new_table
    canon hashc _ m0a m1a k hd Hi1 Hst Hn Hk Hhd H0 Hh) as Hx.
  unfold dictAdd. apply bind_err. unfold dictAddRaw. mstep Hstep. by apply bind_err.
Qed.

(** C25. [dictAdd] while the counter of the first table is right or no expansion can be due
    (that is, up to the end of the first rehash), for fewer than 2^60 keys. When the call
    creates no table, or the memory it is given for the table is zero, a new key returns
    [DICT_OK] and is added with the duplicated value, and a key that is there returns [DICT_ERR]
    and the contents stay. Since [dictExpand] does not clear the table, that is not so for other
    memory: where a new key's slot of it is neither 0 nor an entry, the call follows it. *)
Theorem dict_add_spec d m0 m1 k v :
  inv d m0 m1 → steady_add d (Z.of_nat (size (m0 ∪ m1))) = true → Z.of_nat (size (m0 ∪ m1)) < 2 ^ 60 →
  (Forall (λ a, a = 0) (given_slots d) → added d m0 m1 k v) ∧
  (∀ hd, (m0 ∪ m1) !! canon k = None →
    given_slots d !! bidx hashc (Z.of_nat (length (given_slots d)) - 1) (canon k) = Some hd →
    hd ≠ 0 → heap (after_step d) !! hd = None → add k v d = Err FUndef).
Proof using L. intros. split; [by apply add_run|]. intros. by eapply add_wild. Qed.

(** Under the same conditions [dictReplace] stores the value under the key: a new key
    returns 1; for a key that is there the entry keeps its place, its old value goes to the
    destructor, and the function ends without returning a value. *)
Theorem dict_replace_spec d m0 m1 k v :
  inv d m0 m1 → steady_add d (Z.of_nat (size (m0 ∪ m1))) = true → Z.of_nat (size (m0 ∪ m1)) < 2 ^ 60 →
  Forall (λ a, a = 0) (given_slots d) →
  ∃ p d' m0' m1', replace_ k v d = Ok (match (m0 ∪ m1) !! canon k with Some _ => None | None => Some 1 end, d') ∧
    inv d' m0' m1' ∧ m0' ∪ m1' = <[canon k := (p, dup (valDup type) v)]> (m0 ∪ m1) ∧
    match (m0 ∪ m1) !! canon k with
    | None => same_rest d d'
    | Some (q, v0) => p = q ∧ iterators d' = iterators d ∧
        world d' = match valDestructor type with Some f => f v0 (world d) | None => world d end
    end.
Proof using L.
  intros Hi Hst Hn Hz. destruct (after_step_run d m0 m1 Hi) as (m0a & m1a & Hstep & Hi1 & Hu & [Hr1 Hr2]). rewrite <-Hu in *.
  pose proof (add_raw_run type dictHashKey dictCompareKeys DICT_HT_INITIAL_SIZE dict_force_resize_ratio dict_can_resize new_entry new_table
    canon hashc d _ m0a m1a k Hstep Hi1 Hst Hn Hz) as Hraw.
  destruct ((m0a ∪ m1a) !! canon k) as [[p v0]|] eqn:Ek.
  - destruct Hraw as (d2 & Hrun & Hi2 & [Hr3 Hr4]).
    destruct (setval_run type canon hashc d2 m0a m1a (canon k) p v v0 Hi2 Ek) as (d' & m0' & m1' & Hset & Hi' & Hu' & [Hr5 Hr6]).
    destruct (i_item _ _ _ _ _ Hi2 _ _ _ Ek) as (Hp & ke & nx & Hh & _).
    exists p, (match valDestructor type with Some f => set_world d' (f v0 (world d')) | None => d' end), m0', m1'.
    unfold dictReplace. mstep Hrun. rewrite Z.eqb_refl. cbn [negb]. mstep (get_entry_run _ _ _ Hh). mstep Hset. unfold dictFreeVal. cbn [val].
    rewrite <-Hr2, <-Hr4, <-Hr6. destruct (valDestructor type) as [f|]; split_and!; try done; try congruence.
    + by apply inv_world.
    + simpl. congruence.
  - destruct Hraw as (p & jv & d2 & m0b & m1b & Hrun & Hi2 & Hp & Hu2 & [Hr3 Hr4] & _).
    destruct (setval_run type canon hashc d2 m0b m1b (canon k) p v jv Hi2) as (d' & m0' & m1' & Hset & Hi' & Hu' & [Hr5 Hr6]).
    { rewrite Hu2. by rewrite lookup_insert_eq. }
    exists p, d', m0', m1'. unfold dictReplace. mstep Hrun. zneq p 0. mstep Hset.
    split_and!; [done|done| |split; congruence]. rewrite Hu', Hu2. by rewrite insert_insert_eq.
Qed.

(** Unless both [used] counters are zero, [dictDelete] removes exactly the key, returns
    whether it was there, passes the entry's key and value to the destructors and frees the
    entry. *)
Theorem dict_delete_spec d m0 m1 k :
  inv d m0 m1 → (used (ht0 d) =? 0) && (used (ht1 d) =? 0) = false →
  ∃ d' m0' m1', dictDelete type dictHashKey dictCompareKeys dictFreeKey k d =
      Ok (match (m0 ∪ m1) !! canon k with Some _ => DICT_OK | None => DICT_ERR end, d') ∧
    inv d' m0' m1' ∧ m0' ∪ m1' = delete (canon k) (m0 ∪ m1) ∧
    match (m0 ∪ m1) !! canon k with
    | None => world d' = world d
    | Some (p, v) => heap d' !! p = None ∧ ∃ key, canon key = canon k ∧
        world d' = match valDestructor type with Some f => f v (dictFreeKey key (world d)) | None => dictFreeKey key (world d) end
    end.
Proof using L.
  intros Hi Hz. destruct (genericDelete_run type dictHashKey dictCompareKeys dictFreeKey DICT_HT_INITIAL_SIZE new_entry new_table canon hashc
    d m0 m1 k false Hi Hz) as (d' & m0' & m1' & Hrun & Hi' & Hu & _ & Hres).
  exists d', m0', m1'. unfold dictDelete. mstep Hrun. destruct ((m0 ∪ m1) !! canon k) as [[p v]|]; [|done].
  destruct Hres as (Hp & e & Hk & Hv & Hh & Hw). simpl. zneq p 0. split_and!; [done|done|done|done|].
  exists (key e). split; [done|]. rewrite Hw, <-Hv. done.
Qed.

(** [dictRehash(d, 1)], [n] times, and once more: the last result. *)
Fixpoint rehash_times (n : nat) : M (@dict W) Z :=
  match n with
  | O => dictRehash dictHashKey 1
  | S n => dictRehash dictHashKey 1;; rehash_times n
  end.

Lemma rehash_times_run n d m0 m1 :
  inv d m0 m1 → (Z.to_nat (rehash_left d) ≤ n)%nat →
  ∃ d' m', rehash_times n d = Ok (0, d') ∧ inv d' m' ∅ ∧ m' = m0 ∪ m1 ∧ dictIsRehashing d' = false ∧ same_rest d d' ∧
    used (ht0 d') = final_used d m0.
Proof using L.
  revert d m0 m1. induction n as [|n IH]; intros d m0 m1 Hi Hle;
    destruct (dictRehash_run type dictHashKey dictCompareKeys DICT_HT_INITIAL_SIZE new_entry new_table canon hashc 1 d m0 m1 Hi)
      as (r & d1 & m0a & m1a & Hrun & Hi1 & Hu & Hrest & Hr & _ & Hdec & Hfin);
    pose proof (rehash_left_pos _ _ _ _ _ Hi) as [H0 _]; pose proof (rehash_left_pos _ _ _ _ _ Hi1) as [H1 Hpos];
    specialize (Hdec ltac:(lia)).
  - assert (dictIsRehashing d1 = false) as E.
    { destruct (dictIsRehashing d1); [|done]. assert (0 < rehash_left d1) by (by apply Hpos). lia. }
    exists d1, m0a. pose proof (proj1 (rehashing_eq _) E) as E'. pose proof (idle_empty _ _ _ _ _ Hi1 E') as ->.
    simpl. rewrite Hrun, Hr, E. rewrite map_union_empty in Hu. unfold final_used in Hfin at 1. rewrite E in Hfin. done.
  - destruct (IH d1 m0a m1a Hi1) as (d' & m' & Hrun' & Hi' & -> & Hd' & Hr5 & Hf5); [lia|].
    exists d', (m0 ∪ m1). cbn [rehash_times]. mstep Hrun. rewrite Hrun'. rewrite Hu in Hi'.
    destruct Hrest, Hr5. split_and!; [done|done|done|done|split; congruence|congruence].
Qed.

(** C32. A rehash whose source table is counted right (as the first one of a dictionary is) ends:
    one bucket (or ten empty ones) at a time, after at most two calls more than slots are left,
    [dictRehash] returns 0, the second table has become the first, and every entry is still
    there. *)
Theorem dict_rehash_finishes d m0 m1 :
  inv d m0 m1 →
  ∃ d' m', rehash_times (Z.to_nat (rehash_left d)) d = Ok (0, d') ∧ inv d' m' ∅ ∧ m' = m0 ∪ m1 ∧
    dictIsRehashing d' = false ∧ same_rest d d'.
Proof using L.
  intros Hi. destruct (rehash_times_run _ d m0 m1 Hi (le_n _)) as (d' & m' & ? & ? & ? & ? & ? & _). by exists d', m'.
Qed.

(** C35. What counting the moved entries down instead of up does. A rehash ends with the counter
    of the only table at what the second table's was less the entries that were still to move,
    modulo 2^64, although all the keys are there. If that is 0 (as many keys were added during
    the rehash as were moved), every lookup returns 0; if it is below zero (fewer were), every
    insertion is refused, of any key, when resizing is enabled. *)
Theorem dict_rehash_miscounts d m0 m1 :
  inv d m0 m1 → dictIsRehashing d = true →
  ∃ d', rehash_times (Z.to_nat (rehash_left d)) d = Ok (0, d') ∧ inv d' (m0 ∪ m1) ∅ ∧
    used (ht0 d') = u64 (used (ht1 d) - Z.of_nat (size m0)) ∧
    (used (ht0 d') = 0 → ∀ k, dictFetchValue dictHashKey dictCompareKeys k d' = Ok (0, d')) ∧
    (2 ^ 63 < used (ht0 d') → dict_can_resize = true → ∀ k v, add k v d' = Ok (DICT_ERR, d')).
Proof using L.
  intros Hi Hb. destruct (rehash_times_run _ d m0 m1 Hi (le_n _)) as (d' & m' & Hrun & Hi' & -> & Hd' & _ & Hf).
  unfold final_used in Hf. rewrite Hb in Hf. apply rehashing_eq in Hd' as Hr.
  exists d'. split_and!; [done|done|done| |].
  - intros Hz k. unfold dictFetchValue, dictFind. rewrite (bind_ok _ _ d' 0 d'); [done|]. rewrite bind_get.
    by rewrite (i_idle _ _ _ _ _ Hi' Hr), Hz.
  - intros Hu Hc k v. unfold dictAdd. rewrite (bind_ok _ _ d' (0, 0) d'); [done|]. unfold dictAddRaw.
    rewrite (bind_ok _ _ d' tt d'); [|unfold step_if_rehashing; rewrite bind_get; by rewrite Hd'].
    by mstep (key_index_refused dictCompareKeys DICT_HT_INITIAL_SIZE dict_force_resize_ratio dict_can_resize new_table canon hashc d' _ k
      (dictHashKey k) Hi' Hr Hu Hc).
Qed.

(** C26. A walk with [dictNext] over a dictionary that is not changed meanwhile, whether it is
    being rehashed or not, delivers every entry exactly once and then NULL; releasing an unsafe
    iterator passes the fingerprint check, and a safe one leaves the iterator count as it was. *)
Theorem dict_walk_complete d m0 m1 (sf : bool) junk :
  inv d m0 m1 → 0 ≤ iterators d < 2 ^ 64 - 1 →
  ∃ l it' d', walk (S (size (m0 ∪ m1))) (if sf then dictGetSafeIterator junk else dictGetIterator junk) d = Ok ((l, it'), d') ∧
    NoDup l ∧ (∀ p, p ∈ l ↔ ∃ c v, (m0 ∪ m1) !! c = Some (p, v)) ∧
    d' = (if sf then set_iterators d (iterators d + 1) else d) ∧ dictReleaseIterator it' d' = Ok (tt, d).
Proof.
  clear L. intros Hi Hit. set (d1 := if sf then set_iterators d (iterators d + 1) else d).
  assert (inv d1 m0 m1) as Hi1 by (unfold d1; destruct sf; [by apply inv_iterators|done]).
  destruct (dict_yields canon hashc d1 m0 m1 Hi1) as (l & Hy & Hnd & Hin). pose proof (dict_fits canon hashc d1 m0 m1 Hi1) as Hf.
  assert (length l = size (m0 ∪ m1)) as Hlen.
  { apply addr_count; [done|done|]. intros c c' p v v' H1 H2. by apply (addr_inj _ _ _ _ _ _ _ _ _ _ Hi H1 H2). }
  set (it := if sf then dictGetSafeIterator junk else dictGetIterator junk).
  set (it1 := if sf then it else set_fingerprint it (dictFingerprint d)).
  destruct (fresh_next d d1 it it1 l) as (it2 & Hrun & Hsame & Hi2 & Hl); try done; try (unfold it, it1, d1; by destruct sf).
  { unfold it, it1, d1, iter_start. destruct sf; [|done]. cbn [index itable safe dictGetSafeIterator andb negb Z.eqb Pos.eqb]. unfold mbind, M_bind, modify. by rewrite wrapu_small by lia. }
  assert (∃ it', walk (S (size (m0 ∪ m1))) it d = Ok ((l, it'), d1) ∧ same_iter it1 it' ∧ 0 ≤ index it') as (it' & Hw & Hs' & Hi').
  { rewrite <-Hlen. cbn [walk]. mstep Hrun. destruct l as [|p l]; [by exists it2|].
    change (default 0 (head (p :: l))) with p. destruct Hl as [Hp Hy2]. zneq p 0.
    destruct (walk_run (length (p :: l)) d1 it2 l Hf Hy2) as (it' & Hw & Hs & Hi'); [simpl; lia|]. mstep Hw.
    exists it'. split_and!; [done|unfold same_iter in *; congruence|done]. }
  exists l, it', d1. split_and!; [done|done|done|done|]. unfold dictReleaseIterator. rewrite bind_get.
  rewrite (proj2 (Z.eqb_neq (index it') (-1))) by lia. cbn [andb negb]. unfold same_iter in Hs'. injection Hs' as -> ->.
  unfold it1, it, d1. destruct sf; cbn [safe fingerprint set_fingerprint dictGetIterator dictGetSafeIterator].
  - unfold modify. cbn [iterators set_iterators]. rewrite wrapu_small by lia. do 2 f_equal. destruct d. unfold set_iterators. simpl. f_equal. lia.
  - by rewrite Z.eqb_refl.
Qed.
End props.

(** ** A dictionary of integers, for the witnesses *)

Definition ty : dictType (list Z) := mkType None None (Some (λ v w, v :: w)).
Definition ne (h : gmap Z dictEntry) : Z * dictEntry := (1 + map_fold (λ k _ a, Z.max k a) 0 h, mkEntry 7 7 7).
(** A table of slots that all hold [x]. *)
Definition nt (x : Z) (h : gmap Z dictEntry) (n : Z) : Z * list Z := (4096, replicate (Z.to_nat n) x).

Lemma ne_above h a : is_Some (h !! a) → a < (ne h).1.
Proof.
  unfold ne. simpl. revert a. induction h as [|i e m Hi Hf IH] using map_first_key_ind; intros a [x Hx]; [done|].
  rewrite map_fold_insert_first_key by done. destruct (decide (a = i)) as [->|Hne]; [lia|].
  rewrite lookup_insert_ne in Hx by done. specialize (IH a ltac:(eauto)). lia.
Qed.

Lemma ne_positive h : 0 < (ne h).1.
Proof. unfold ne. simpl. induction h as [|i e m Hi Hf IH] using map_first_key_ind; [rewrite map_fold_empty; lia|]. rewrite map_fold_insert_first_key by done. lia. Qed.

#[export] Instance int_laws x : DictLaws ty (λ k, k) Z.eqb 4 ne (nt x) (λ k, k) (λ k, k).
Proof.
  split; try done.
  - intros a b. destruct (Z.eqb_spec a b); symmetry; [by apply bool_decide_eq_true|by apply bool_decide_eq_false].
  - by exists 2.
  - intros h. pose proof (ne_positive h). split; [lia|]. destruct (h !! (ne h).1) eqn:E; [|done].
    pose proof (ne_above h (ne h).1 ltac:(eauto)). lia.
  - intros h n. apply length_replicate.
Qed.

Abbreviation addi := (dictAdd ty (λ k, k) Z.eqb 4 5 true ne (nt 0)).
Abbreviation fetchi := (dictFetchValue (λ k, k) Z.eqb).

(** ** Witnesses *)

(** The dictionary with the keys 1 to [n]; the fifth insertion starts a rehash. *)
Fixpoint filled (n : nat) : @dict (list Z) :=
  match n with
  | O => dictCreate ∅ []
  | S n => match addi (Z.of_nat n + 1) (Z.of_nat n + 101) (filled n) with Ok (_, d) => d | Err _ => filled n end
  end.

Abbreviation invi := (RedisDictFacts.inv (λ k, k) (λ k, k)).

Lemma filled_step n : (n ≤ 4)%nat →
  addi (Z.of_nat n + 1) (Z.of_nat n + 101) (filled n) = Ok (DICT_OK, filled (S n)) ∧
  steady_add (λ k, k) (filled n) (Z.of_nat n) = true ∧ Forall (λ a, a = 0) (given_slots (λ k, k) 4 5 true (nt 0) (filled n)).
Proof. intros Hn. do 5 (destruct n as [|n]; [split_and!; [vm_compute; reflexivity|vm_compute; reflexivity|vm_compute; repeat constructor]|]). lia. Qed.

Lemma create_inv : invi (dictCreate ∅ ([] : list Z)) ∅ ∅.
Proof.
  split; simpl; try done; [apply reset_ok|apply reset_ok].
Qed.

Lemma filled_inv n : (n ≤ 5)%nat →
  ∃ m0 m1, invi (filled n) m0 m1 ∧ size (m0 ∪ m1) = n ∧
    ∀ k, if decide (1 ≤ k ≤ Z.of_nat n) then ∃ p, (m0 ∪ m1) !! k = Some (p, k + 100) else (m0 ∪ m1) !! k = None.
Proof.
  induction n as [|n IH]; intros Hn.
  - exists ∅, ∅. split_and!; [apply create_inv|by rewrite map_union_empty, map_size_empty|]. intros k. rewrite decide_False by lia. done.
  - destruct IH as (m0 & m1 & Hi & Hsz & Hm); [lia|]. destruct (filled_step n ltac:(lia)) as (Hadd & Hst & Hz).
    pose proof (Hm (Z.of_nat n + 1)) as Hnew. rewrite decide_False in Hnew by lia.
    pose proof (add_run ty (λ k, k) Z.eqb 4 5 true ne (nt 0) (λ k, k) (λ k, k) (filled n) m0 m1 (Z.of_nat n + 1) (Z.of_nat n + 101) Hi) as Hrun.
    rewrite Hsz in Hrun. specialize (Hrun Hst ltac:(lia) Hz). unfold added in Hrun. cbv beta in Hrun. rewrite Hnew in Hrun.
    destruct Hrun as (p & d' & m0' & m1' & Hrun & Hi' & Hu & _). rewrite Hadd in Hrun. injection Hrun as <-.
    exists m0', m1'. split; [done|]. rewrite Hu. split; [by rewrite map_size_insert_None, Hsz|]. intros k.
    destruct (decide (k = Z.of_nat n + 1)) as [->|Hne].
    + rewrite decide_True by lia. rewrite lookup_insert_eq. exists p. do 2 f_equal. simpl. lia.
    + rewrite lookup_insert_ne by done. specialize (Hm k). case_decide; case_decide; try done; lia.
Qed.

(** Mid-rehash, key 2 is found. *)
Lemma dict_fetch_spec_witness : dictIsRehashing (filled 5) = true ∧ ∃ d', fetchi 2 (filled 5) = Ok (102, d').
Proof.
  split; [by vm_compute|]. destruct (filled_inv 5 ltac:(lia)) as (m0 & m1 & Hi & _ & Hm).
  destruct (dict_fetch_spec ty (λ k, k) Z.eqb 4 ne (nt 0) (λ k, k) (λ k, k) (filled 5) m0 m1 2 Hi) as (d' & m0' & m1' & Hrun & _).
  exists d'. specialize (Hm 2). rewrite decide_True in Hm by lia. destruct Hm as [p Hp]. cbv beta in Hrun. rewrite Hp in Hrun.
  assert ((u64 (used (ht0 (filled 5)) + used (ht1 (filled 5))) =? 0) = false) as E by (by vm_compute). rewrite E in Hrun. exact Hrun.
Defined.

(** The fifth insertion is given a table: of zeroes, and of values that are no entries. *)
Lemma dict_add_spec_witness :
  (∃ p d' m0' m1', addi 5 105 (filled 4) = Ok (DICT_OK, d') ∧ invi d' m0' m1' ∧ (m0' ∪ m1') !! 5 = Some (p, 105)) ∧
  dictAdd ty (λ k, k) Z.eqb 4 5 true ne (nt 999) 5 105 (filled 4) = Err FUndef.
Proof.
  destruct (filled_inv 4 ltac:(lia)) as (m0 & m1 & Hi & Hsz & Hm). specialize (Hm 5). rewrite decide_False in Hm by lia. split.
  - pose proof (dict_add_spec ty (λ k, k) Z.eqb 4 5 true ne (nt 0) (λ k, k) (λ k, k) (filled 4) m0 m1 5 105 Hi) as H.
    rewrite Hsz in H. destruct (H ltac:(by vm_compute) ltac:(lia)) as [Ha _]. specialize (Ha ltac:(vm_compute; repeat constructor)).
    unfold added in Ha. cbv beta in Ha. rewrite Hm in Ha.
    destruct Ha as (p & d' & m0' & m1' & H1 & H2 & H3 & _). exists p, d', m0', m1'. split; [exact H1|]. split; [exact H2|]. by rewrite H3, lookup_insert_eq.
  - pose proof (dict_add_spec ty (λ k, k) Z.eqb 4 5 true ne (nt 999) (λ k, k) (λ k, k) (filled 4) m0 m1 5 105 Hi) as H.
    rewrite Hsz in H. destruct (H ltac:(by vm_compute) ltac:(lia)) as [_ Hw].
    exact (Hw 999 Hm ltac:(by vm_compute) ltac:(lia) ltac:(by vm_compute)).
Defined.

(** The old value 102 goes to the destructor, which logs it. *)
Lemma dict_replace_spec_witness : ∃ d' m0' m1', dictReplace ty (λ k, k) Z.eqb 4 5 true ne (nt 0) 2 999 (filled 4) = Ok (None, d') ∧
  invi d' m0' m1' ∧ world d' = [102].
Proof.
  destruct (filled_inv 4 ltac:(lia)) as (m0 & m1 & Hi & Hsz & Hm). specialize (Hm 2). rewrite decide_True in Hm by lia. destruct Hm as [q Hq].
  pose proof (dict_replace_spec ty (λ k, k) Z.eqb 4 5 true ne (nt 0) (λ k, k) (λ k, k) (filled 4) m0 m1 2 999 Hi) as H.
  rewrite Hsz in H. specialize (H ltac:(by vm_compute) ltac:(lia) ltac:(vm_compute; repeat constructor)). cbv beta in H. rewrite Hq in H.
  destruct H as (p & d' & m0' & m1' & H1 & H2 & H3 & _ & _ & H4). exists d', m0', m1'. split; [exact H1|]. split; [exact H2|]. rewrite H4. by vm_compute.
Defined.

Lemma dict_delete_spec_witness : ∃ d' m0' m1', dictDelete ty (λ k, k) Z.eqb (λ k w, k :: w) 3 (filled 5) = Ok (DICT_OK, d') ∧
  invi d' m0' m1' ∧ (m0' ∪ m1') !! 3 = None ∧ world d' = [103; 3].
Proof.
  destruct (filled_inv 5 ltac:(lia)) as (m0 & m1 & Hi & _ & Hm). specialize (Hm 3). rewrite decide_True in Hm by lia. destruct Hm as [q Hq].
  pose proof (dict_delete_spec ty (λ k, k) Z.eqb (λ k w, k :: w) 4 ne (nt 0) (λ k, k) (λ k, k) (filled 5) m0 m1 3 Hi ltac:(by vm_compute)) as H.
  cbv beta in H. rewrite Hq in H. destruct H as (d' & m0' & m1' & H1 & H2 & H3 & _ & k & Hk & H4).
  exists d', m0', m1'. split; [exact H1|]. split; [exact H2|]. split; [by rewrite H3, lookup_delete_eq|]. rewrite H4, Hk. by vm_compute.
Defined.

Lemma dict_rehash_finishes_witness : rehash_left (filled 5) = 5 ∧ ∃ d' m', rehash_times (λ k, k) 5 (filled 5) = Ok (0, d') ∧ invi d' m' ∅ ∧ size m' = 5%nat.
Proof.
  split; [by vm_compute|]. destruct (filled_inv 5 ltac:(lia)) as (m0 & m1 & Hi & Hsz & _).
  destruct (dict_rehash_finishes ty (λ k, k) Z.eqb 4 ne (nt 0) (λ k, k) (λ k, k) (filled 5) m0 m1 Hi) as (d' & m' & H1 & H2 & -> & _).
  exists d', (m0 ∪ m1). split; [exact H1|]. split; [exact H2|exact Hsz].
Defined.

(** Four of five keys were moved down from one: 2^64 - 3 keys, and no insertion succeeds. *)
Lemma dict_rehash_miscounts_witness : ∃ d', rehash_times (λ k, k) 5 (filled 5) = Ok (0, d') ∧ used (ht0 d') = 2 ^ 64 - 3 ∧
  ∀ k v, addi k v d' = Ok (DICT_ERR, d').
Proof.
  destruct (filled_inv 5 ltac:(lia)) as (m0 & m1 & Hi & Hsz & _).
  destruct (dict_rehash_miscounts ty (λ k, k) Z.eqb 4 5 true ne (nt 0) (λ k, k) (λ k, k) (filled 5) m0 m1 Hi) as (d' & H1 & _ & H2 & _ & H3); [by vm_compute|].
  destruct (i_busy _ _ _ _ _ Hi) as (_ & _ & _ & Hu & _); [by vm_compute|]. rewrite <-Hu in H2.
  assert (used (ht0 d') = 2 ^ 64 - 3) as E by (rewrite H2; by vm_compute).
  exists d'. split; [exact H1|]. split; [exact E|]. apply H3; [lia|done].
Defined.

Lemma dict_walk_complete_witness : ∃ l it' d', walk 6 (dictGetIterator 0) (filled 5) = Ok ((l, it'), d') ∧ NoDup l ∧ dictReleaseIterator it' d' = Ok (tt, filled 5).
Proof.
  destruct (filled_inv 5 ltac:(lia)) as (m0 & m1 & Hi & Hsz & _).
  destruct (dict_walk_complete (λ k, k) (λ k, k) (filled 5) m0 m1 false 0 Hi) as (l & it' & d' & H1 & H2 & _ & _ & H3); [by vm_compute|].
  rewrite Hsz in H1. exists l, it', d'. split; [exact H1|]. split; [exact H2|exact H3].
Defined.

End RedisDictProps.
