(* ===== verification/McSlab.v ===== *)
(** The memcached slab allocator [memcached_slab/memcached_slab.c]: classes of chunks of one
    size, each with its pages and a doubly linked list of free chunks threaded through them.

    The file does not compile as it stands.  Misspelt names are read as meant: [preslab] is
    [perslab], [setting] is [settings], [p->size*perslab] is [p->size*p->perslab],
    [mem_malloced] is [mem_alloced], and [mem_size], which [memory_allocate] compares with and
    nothing declares, is [mem_avail].  [malloc] and [realloc] are parameters, as are the two
    [double] computations with [factor] and the constants the file does not define. *)

From S2P Require Import Prelude.
From stdpp Require Import options.

Module McSlab.

Definition POWER_SMALLEST := 1.

(** [struct _stritem] as far as the allocator uses it. *)
Record item := mkItem { next : Z; prev : Z; it_flags : Z; slabs_clsid_of : Z }.
Definition zero_item := mkItem 0 0 0 0.

Record slabclass_t := mkClass {
  size : Z;
  perslab : Z;
  slots : Z;
  sl_curr : Z;
  slabs : Z;
  slab_list : list Z;
  list_size : Z;
  requested : Z;
}.
Definition zero_class := mkClass 0 0 0 0 0 [] 0 0.

Record settings_t := mkSettings { chunk_size : Z; item_size_max : Z; slab_reassign : bool }.

(** [items] are the chunks written since their memory was cleared; any other chunk inside a
    page [(address, length)] of [pages] reads as zeros. *)
Record st := mkSt {
  items : gmap Z item;
  pages : list (Z * Z);
  slabclass : list slabclass_t;
  power_largest : Z;
  mem_limit : Z;
  mem_base : Z;
  mem_current : Z;
  mem_avail : Z;
  mem_alloced : Z;
}.

Abbreviation MS := (M st).

Definition set_mem s m p := mkSt m p (slabclass s) (power_largest s) (mem_limit s) (mem_base s) (mem_current s) (mem_avail s) (mem_alloced s).
Definition set_classes s l := mkSt (items s) (pages s) l (power_largest s) (mem_limit s) (mem_base s) (mem_current s) (mem_avail s) (mem_alloced s).
Definition set_largest s n := mkSt (items s) (pages s) (slabclass s) n (mem_limit s) (mem_base s) (mem_current s) (mem_avail s) (mem_alloced s).
Definition set_limit s n := mkSt (items s) (pages s) (slabclass s) (power_largest s) n (mem_base s) (mem_current s) (mem_avail s) (mem_alloced s).
Definition set_pool s b c a := mkSt (items s) (pages s) (slabclass s) (power_largest s) (mem_limit s) b c a (mem_alloced s).
Definition set_alloced s n := mkSt (items s) (pages s) (slabclass s) (power_largest s) (mem_limit s) (mem_base s) (mem_current s) (mem_avail s) n.

Definition with_slots c p n r := mkClass (size c) (perslab c) p n (slabs c) (slab_list c) (list_size c) r.
Definition with_list c n l k := mkClass (size c) (perslab c) (slots c) (sl_curr c) n l k (requested c).
Definition with_size c z n := mkClass z n (slots c) (sl_curr c) (slabs c) (slab_list c) (list_size c) (requested c).

Definition in_page (a : Z) (pg : Z * Z) : bool := (pg.1 <=? a) && (a <? pg.1 + pg.2).

Definition item_at s (a : Z) : option item :=
  match items s !! a with
  | Some it => Some it
  | None => if existsb (in_page a) (pages s) then Some zero_item else None
  end.

Definition get_item (a : Z) : MS item := s ← get; lift (deref (item_at s a)).
Definition put_item (a : Z) (it : item) : MS unit :=
  _ ← get_item a; modify (λ s, set_mem s (<[a := it]> (items s)) (pages s)).

Definition get_class (id : Z) : MS slabclass_t := s ← get; lift (deref (slabclass s !! Z.to_nat id)).
Definition put_class (id : Z) (c : slabclass_t) : MS unit :=
  modify (λ s, set_classes s (<[Z.to_nat id := c]> (slabclass s))).

(** [memset(ptr, 0, len)] on a page. *)
Definition memset0 (ptr len : Z) : MS unit :=
  modify (λ s, set_mem s (filter (λ x, in_page x.1 (ptr, len) = false) (items s)) ((ptr, len) :: pages s)).

Section slab.
Context (settings : settings_t) (sizeof_item ITEM_SLABBED CHUNK_ALIGN_BYTES POWER_LARGEST MAX_NUMBER_OF_SLAB_CLASSES : Z).
(** [malloc(n)] in a state: an address or 0; whether [realloc] of an array succeeds. *)
Context (malloc : st → Z → Z) (realloc_ok : st → Z → bool).
(** [size <= settings.item_size_max/factor] and [size *= factor], in [double] arithmetic. *)
Context (below_max : Z → bool) (times_factor : Z → Z).

(** ** Freeing and allocating chunks *)

Definition do_slabs_free (ptr sz id : Z) : MS unit :=
  it ← get_item ptr;
  lift (assert_ (slabs_clsid_of it =? 0));;
  s ← get;
  lift (assert_ ((POWER_SMALLEST <=? id) && (id <=? power_largest s)));;
  p ← get_class id;
  put_item ptr (mkItem (slots p) 0 (Z.lor (it_flags it) ITEM_SLABBED) (slabs_clsid_of it));;
  (if negb (slots p =? 0) then
     nx ← get_item (slots p);
     put_item (slots p) (mkItem (next nx) ptr (it_flags nx) (slabs_clsid_of nx))
   else mret tt);;
  put_class id (with_slots p ptr (u32 (sl_curr p + 1)) (u64 (requested p - sz))).

(** [for(x=0; x<p->perslab; x++)]. *)
Fixpoint split_loop (n : nat) (ptr id : Z) : MS unit :=
  match n with
  | O => mret tt
  | S n => do_slabs_free ptr 0 id;; p ← get_class id; split_loop n (ptr + size p) id
  end.

Definition split_slab_page_into_freelist (ptr id : Z) : MS unit :=
  p ← get_class id; split_loop (Z.to_nat (perslab p)) ptr id.

Definition memory_allocate (sz : Z) : MS Z :=
  s ← get;
  if mem_base s =? 0 then mret (malloc s sz) else
  if mem_avail s <? sz then mret 0 else
  let sz' := if negb (sz mod CHUNK_ALIGN_BYTES =? 0) then u64 (sz + sz mod CHUNK_ALIGN_BYTES) else sz in
  modify (λ s, set_pool s (mem_base s) (mem_current s + sz') (if sz' <? mem_avail s then mem_avail s - sz' else 0));;
  mret (mem_current s).

Definition grow_slab_list (id : Z) : MS Z :=
  p ← get_class id;
  if slabs p =? list_size p then
    let new_size := if negb (list_size p =? 0) then u32 (list_size p * 2) else 16 in
    s ← get;
    if negb (realloc_ok s (new_size * 8)) then mret 0 else
    put_class id (with_list p (slabs p) (slab_list p) (u32 new_size));; mret 1
  else mret 1.

(** [p->slab_list[p->slabs++]=ptr]; the entries in use are [slab_list]. *)
Definition do_slabs_newslab (id : Z) : MS Z :=
  p ← get_class id;
  s ← get;
  let len := s32 (if slab_reassign settings then item_size_max settings else u32 (size p * perslab p)) in
  if negb (mem_limit s =? 0) && (mem_limit s <? u64 (mem_alloced s + len)) && (0 <? slabs p) then mret 0 else
  g ← grow_slab_list id;
  if g =? 0 then mret 0 else
  ptr ← memory_allocate (u64 len);
  if ptr =? 0 then mret 0 else
  memset0 ptr (u64 len);;
  split_slab_page_into_freelist ptr id;;
  p ← get_class id;
  lift (if slabs p <? list_size p then Ok tt else Err FUndef);;
  put_class id (with_list p (u32 (slabs p + 1)) (slab_list p ++ [ptr]) (list_size p));;
  modify (λ s, set_alloced s (u64 (mem_alloced s + len)));;
  mret 1.

Definition do_slabs_alloc (sz id : Z) : MS Z :=
  s ← get;
  if (id <? POWER_SMALLEST) || (power_largest s <? id) then mret 0 else
  p ← get_class id;
  (if sl_curr p =? 0 then mret tt else
   it ← get_item (slots p); lift (assert_ (slabs_clsid_of it =? 0)));;
  r ← (if negb (sl_curr p =? 0) then mret 1 else do_slabs_newslab id);
  p ← get_class id;
  if (r =? 0) || (sl_curr p =? 0) then mret 0 else
  it ← get_item (slots p);
  (if negb (next it =? 0) then
     nx ← get_item (next it);
     put_item (next it) (mkItem (next nx) 0 (it_flags nx) (slabs_clsid_of nx))
   else mret tt);;
  put_class id (with_slots p (next it) (u32 (sl_curr p - 1)) (requested p));;
  p' ← get_class id;
  put_class id (with_slots p' (slots p') (sl_curr p') (u64 (requested p' + sz)));;
  mret (slots p).

(** ** Classes *)

(** [while(size>slabclass[res].size) if(res++ == power_largest) return 0;] *)
Fixpoint clsid_loop (fuel : nat) s (sz res : Z) : result Z :=
  c ← deref (slabclass s !! Z.to_nat res);
  if size c <? sz then
    if res =? power_largest s then Ok 0 else
    match fuel with O => Err FFuel | S fuel => clsid_loop fuel s sz (res + 1) end
  else Ok res.

Definition slabs_clsid s (sz : Z) : result Z :=
  if sz =? 0 then Ok 0 else clsid_loop (length (slabclass s)) s sz POWER_SMALLEST.

(** ** Initialisation *)

(** [for(i=POWER_SMALLEST; i<=POWER_LARGEST; i++)], [n] classes before the end. *)
Fixpoint prealloc_loop (n : nat) (i prealloc maxslabs : Z) : MS unit :=
  match n with
  | O => mret tt
  | S n =>
      if maxslabs <? u32 (prealloc + 1) then mret tt else
      r ← do_slabs_newslab i;
      if r =? 0 then fail (FExit 1) else prealloc_loop n (i + 1) (u32 (prealloc + 1)) maxslabs
  end.
Definition slabs_preallocate (maxslabs : Z) : MS unit :=
  prealloc_loop (Z.to_nat (POWER_LARGEST - POWER_SMALLEST + 1)) POWER_SMALLEST 0 maxslabs.

(** [while(++i < POWER_SMALLEST && size<=settings.item_size_max/factor)]; the final [i]. *)
Fixpoint init_loop (fuel : nat) (i sz : Z) : MS Z :=
  let i := i + 1 in
  if (i <? POWER_SMALLEST) && below_max sz then
    match fuel with
    | O => fail FFuel
    | S fuel =>
        let sz := if negb (sz mod CHUNK_ALIGN_BYTES =? 0) then u32 (sz + (CHUNK_ALIGN_BYTES - sz mod CHUNK_ALIGN_BYTES)) else sz in
        c ← get_class i;
        put_class i (with_size c sz (item_size_max settings / sz));;
        init_loop fuel i (u32 (times_factor sz))
    end
  else mret i.

Definition slabs_init (limit : Z) (prealloc : bool) (t_initial_malloc : option Z) : MS unit :=
  modify (λ s, set_limit s limit);;
  s ← get;
  (if prealloc then
     let b := malloc s (mem_limit s) in
     if negb (b =? 0) then modify (λ s, set_pool s b b (mem_limit s)) else modify (λ s, set_pool s 0 (mem_current s) (mem_avail s))
   else mret tt);;
  modify (λ s, set_classes s (replicate (Z.to_nat MAX_NUMBER_OF_SLAB_CLASSES) zero_class));;
  i ← init_loop (Z.to_nat MAX_NUMBER_OF_SLAB_CLASSES) (POWER_SMALLEST - 1) (u32 (sizeof_item + chunk_size settings));
  modify (λ s, set_largest s i);;
  c ← get_class i;
  put_class i (with_size c (item_size_max settings) 1);;
  (match t_initial_malloc with Some n => modify (λ s, set_alloced s (u64 n)) | None => mret tt end);;
  if prealloc then s ← get; slabs_preallocate (power_largest s) else mret tt.

End slab.
End McSlab.
