(* ===== verification/McSlabFacts.v ===== *)
(** The slab allocator keeps its chunks apart: invariant of the free lists, the pages and the
    chunks handed out, and the lemmas of freeing, splitting a page and allocating. *)

From S2P Require Import Prelude McSlab.
From stdpp Require Import options.

Module McSlabFacts.
Import McSlab.

(** ** Doubly linked free lists *)

Fixpoint dl (at_ : Z → option item) (pv p : Z) (l : list Z) : Prop :=
  match l with
  | [] => p = 0
  | a :: l => p = a ∧ a ≠ 0 ∧ ∃ it, at_ a = Some it ∧ prev it = pv ∧ slabs_clsid_of it = 0 ∧ dl at_ a (next it) l
  end.

Lemma dl_frame at_ at' pv p l : dl at_ pv p l → (∀ a, a ∈ l → at' a = at_ a) → dl at' pv p l.
Proof.
  revert pv p. induction l as [|a l IH]; intros pv p; simpl; [done|].
  intros (-> & H0 & it & Hit & Hp & Hc & Hl) Hf. split_and!; [done|done|]. exists it.
  split_and!; [rewrite Hf by set_solver; done|done|done|]. apply IH; [done|]. intros. apply Hf. set_solver.
Qed.

(** The first node's back pointer is the only thing that depends on where the list hangs. *)
Lemma dl_rehang at_ at' pv pv' p l :
  dl at_ pv p l → NoDup l →
  (∀ a, a ∈ l → a ≠ p → at' a = at_ a) →
  (∀ it, p ≠ 0 → at_ p = Some it → at' p = Some (mkItem (next it) pv' (it_flags it) (slabs_clsid_of it))) →
  dl at' pv' p l.
Proof.
  destruct l as [|a l]; simpl; [done|]. intros (-> & H0 & it & Hit & Hp & Hc & Hl) [Hna Hnd]%NoDup_cons Hf Hh.
  split_and!; [done|done|]. eexists. split; [by apply Hh|]. split_and!; [done|done|].
  eapply dl_frame; [exact Hl|]. intros b Hb. apply Hf; [set_solver|]. by intros ->.
Qed.

Lemma dl_head at_ pv p l : dl at_ pv p l → (p = 0 ↔ l = []).
Proof. destruct l as [|a l]; simpl; [done|]. intros (-> & H0 & _). done. Qed.

Lemma dl_head_in at_ pv p l : dl at_ pv p l → p ≠ 0 → p ∈ l.
Proof. destruct l as [|a l]; simpl; [done|]. intros (-> & _). set_solver. Qed.

(** ** Ranges of memory *)

Definition apart (a n b m : Z) : Prop := a + n ≤ b ∨ b + m ≤ a.

Section facts.
Context (settings : settings_t) (sizeof_item ITEM_SLABBED CHUNK_ALIGN_BYTES POWER_LARGEST MAX_NUMBER_OF_SLAB_CLASSES : Z).
Context (malloc : st → Z → Z) (realloc_ok : st → Z → bool).
Implicit Types (s : st) (ch : gmap Z (Z * bool)) (c : slabclass_t).

(** [malloc] returns memory of the size asked for that nobody has. *)
Hypothesis malloc_fresh : ∀ s n, malloc s n ≠ 0 →
  0 < malloc s n ∧ ∀ pg, pg ∈ pages s → apart (malloc s n) n pg.1 pg.2.

Definition size_of s (id : Z) : Z := default 0 (size <$> slabclass s !! Z.to_nat id).

Record class_ok c : Prop := {
  k_size : 0 < size c;
  k_per : 1 ≤ perslab c;
  k_len : size c * perslab c < 2 ^ 31;
  k_max : slab_reassign settings = true → size c * perslab c ≤ item_size_max settings < 2 ^ 31;
}.

(** [ch] are all chunks: their class, and whether they are handed out. *)
Record inv s ch : Prop := {
  v_class id : POWER_SMALLEST ≤ id ≤ power_largest s →
    ∃ c l, slabclass s !! Z.to_nat id = Some c ∧ class_ok c ∧
      dl (item_at s) 0 (slots c) l ∧ NoDup l ∧ (∀ a, a ∈ l ↔ ch !! a = Some (id, false)) ∧
      sl_curr c = Z.of_nat (length l) ∧ 0 ≤ slabs c ≤ list_size c ∧ slabs c ≤ Z.of_nat (base.size ch) ∧ list_size c < 2 ^ 32;
  v_chunk a id u : ch !! a = Some (id, u) →
    POWER_SMALLEST ≤ id ≤ power_largest s ∧ 0 < a ∧
    ∃ pg, pg ∈ pages s ∧ pg.1 ≤ a ∧ a + size_of s id ≤ pg.1 + pg.2;
  v_apart a b i j u v : ch !! a = Some (i, u) → ch !! b = Some (j, v) → a ≠ b → apart a (size_of s i) b (size_of s j);
  v_pool : mem_base s ≠ 0 → 0 < mem_base s ≤ mem_current s ∧ 0 ≤ mem_avail s < 2 ^ 64 ∧
    ∀ pg, pg ∈ pages s → pg.1 + pg.2 ≤ mem_current s;
  v_base : 0 ≤ mem_base s;
}.

Lemma size_of_pos s ch id : inv s ch → POWER_SMALLEST ≤ id ≤ power_largest s → 0 < size_of s id.
Proof.
  intros Hi Hid. destruct (v_class _ _ Hi id Hid) as (c & l & Hc & Hok & _). unfold size_of. rewrite Hc. apply Hok.
Qed.

Lemma in_page_spec a pg : in_page a pg = true ↔ pg.1 ≤ a < pg.1 + pg.2.
Proof. unfold in_page. rewrite andb_true_iff, Z.leb_le, Z.ltb_lt. done. Qed.

Lemma chunk_item s ch a x : inv s ch → ch !! a = Some x → ∃ it, item_at s a = Some it.
Proof.
  intros Hi Ha. destruct x as [id u]. destruct (v_chunk _ _ Hi _ _ _ Ha) as (Hid & _ & pg & Hpg & H1 & H2).
  pose proof (size_of_pos _ _ _ Hi Hid). unfold item_at. destruct (items s !! a); [eauto|].
  assert (existsb (in_page a) (pages s) = true) as ->; [|eauto]. apply existsb_exists. exists pg.
  split; [by apply list_elem_of_In|]. apply in_page_spec. lia.
Qed.

Lemma free_count ch l id : NoDup l → (∀ a, a ∈ l ↔ ch !! a = Some (id, false)) → (length l ≤ base.size ch)%nat.
Proof.
  intros Hnd Hl. rewrite <-(size_list_to_set (C:=gset Z)) by done. rewrite <-size_dom. apply subseteq_size.
  intros a Ha%elem_of_list_to_set. apply elem_of_dom. apply Hl in Ha. eauto.
Qed.

Lemma item_at_put s a it b :
  item_at (set_mem s (<[a := it]> (items s)) (pages s)) b = if decide (b = a) then Some it else item_at s b.
Proof.
  unfold item_at. simpl. case_decide as E; [subst; by rewrite lookup_insert_eq|by rewrite lookup_insert_ne].
Qed.

Lemma slab_item_run s a it : item_at s a = Some it → get_item a s = Ok (it, s).
Proof. intros H. unfold get_item. rewrite bind_get. unfold lift, deref. by rewrite H. Qed.
Lemma slab_put_run s a it0 it : item_at s a = Some it0 →
  put_item a it s = Ok (tt, set_mem s (<[a := it]> (items s)) (pages s)).
Proof. intros H. unfold put_item. by mstep (slab_item_run _ _ _ H). Qed.
Lemma slab_class_run s id c : slabclass s !! Z.to_nat id = Some c → get_class id s = Ok (c, s).
Proof. intros H. unfold get_class. rewrite bind_get. unfold lift, deref. by rewrite H. Qed.

(** A state that differs from [s] in the chunks' headers and one class' free list and counters. *)
Lemma class_update s ch s' ch' id c c' l' :
  inv s ch → POWER_SMALLEST ≤ id ≤ power_largest s → slabclass s !! Z.to_nat id = Some c →
  slabclass s' = <[Z.to_nat id := c']> (slabclass s) → size c' = size c → perslab c' = perslab c →
  pages s' = pages s → power_largest s' = power_largest s → mem_base s' = mem_base s → mem_current s' = mem_current s → mem_avail s' = mem_avail s →
  dl (item_at s') 0 (slots c') l' → NoDup l' → (∀ a, a ∈ l' ↔ ch' !! a = Some (id, false)) →
  sl_curr c' = Z.of_nat (length l') → 0 ≤ slabs c' ≤ list_size c' → slabs c' ≤ Z.of_nat (base.size ch') → list_size c' < 2 ^ 32 →
  (base.size ch ≤ base.size ch')%nat →
  (∀ a j, j ≠ id → ch' !! a = Some (j, false) ↔ ch !! a = Some (j, false)) →
  (∀ a j, j ≠ id → ch !! a = Some (j, false) → item_at s' a = item_at s a) →
  (∀ a j u, ch' !! a = Some (j, u) → POWER_SMALLEST ≤ j ≤ power_largest s ∧ 0 < a ∧
    ∃ pg, pg ∈ pages s ∧ pg.1 ≤ a ∧ a + size_of s j ≤ pg.1 + pg.2) →
  (∀ a b i j u v, ch' !! a = Some (i, u) → ch' !! b = Some (j, v) → a ≠ b → apart a (size_of s i) b (size_of s j)) →
  inv s' ch'.
Proof.
  intros Hi Hid Hc Hs' Hsz Hps Hpg Hpl Hmb Hmc Hma Hdl Hnd Hl Hcur Hsl Hsl2 Hls Hsize Hoth Hitem Hchunk Hap.
  assert (∀ j, size_of s' j = size_of s j) as Hso.
  { intros j. unfold size_of. rewrite Hs'. destruct (decide (Z.to_nat j = Z.to_nat id)) as [->|Hne].
    - rewrite list_lookup_insert_eq by (by eapply lookup_lt_Some). rewrite Hc. simpl. done.
    - by rewrite list_lookup_insert_ne. }
  split.
  - rewrite Hpl. intros j Hj. destruct (decide (j = id)) as [->|Hne].
    + exists c', l'. rewrite Hs', list_lookup_insert_eq by (by eapply lookup_lt_Some).
      destruct (v_class _ _ Hi id Hid) as (c0 & _ & Hc0 & Hok & _). rewrite Hc in Hc0. injection Hc0 as <-.
      split_and!; try done; try lia. destruct Hok. split; by rewrite ?Hsz, ?Hps.
    + destruct (v_class _ _ Hi j Hj) as (cj & l & Hcj & Hok & Hd & Hnj & Hlj & Hcu & H1 & H2 & H3).
      unfold POWER_SMALLEST in *. exists cj, l. rewrite Hs', list_lookup_insert_ne by lia. split_and!; try done; try lia.
      * eapply dl_frame; [exact Hd|]. intros a Ha. eapply Hitem; [exact Hne|]. by apply Hlj.
      * intros a. rewrite Hlj. by rewrite Hoth.
  - intros a j u Ha. rewrite Hpl, Hpg, Hso. by eapply Hchunk.
  - intros a b i j u v Ha Hb Hne. rewrite !Hso. by eapply Hap.
  - rewrite Hmb, Hmc, Hma, Hpg. apply Hi.
  - rewrite Hmb. apply Hi.
Qed.

(** ** Freeing *)

Abbreviation free := (do_slabs_free ITEM_SLABBED).

(** What an operation on a class leaves as it was. *)
Record frame s s' (id : Z) (c c' : slabclass_t) : Prop := {
  fr_pages : pages s' = pages s;
  fr_largest : power_largest s' = power_largest s;
  fr_base : mem_base s' = mem_base s;
  fr_current : mem_current s' = mem_current s;
  fr_avail : mem_avail s' = mem_avail s;
  fr_limit : mem_limit s' = mem_limit s;
  fr_alloced : mem_alloced s' = mem_alloced s;
  fr_old : slabclass s !! Z.to_nat id = Some c;
  fr_new : slabclass s' = <[Z.to_nat id := c']> (slabclass s);
  fr_class : (size c', perslab c', slabs c', slab_list c', list_size c') = (size c, perslab c, slabs c, slab_list c, list_size c);
}.

Lemma free_run s ch ptr sz id it :
  inv s ch → POWER_SMALLEST ≤ id ≤ power_largest s → item_at s ptr = Some it → slabs_clsid_of it = 0 →
  ch !! ptr = None ∨ ch !! ptr = Some (id, true) → 0 < ptr →
  (∃ pg, pg ∈ pages s ∧ pg.1 ≤ ptr ∧ ptr + size_of s id ≤ pg.1 + pg.2) →
  (∀ b j v, ch !! b = Some (j, v) → b ≠ ptr → apart ptr (size_of s id) b (size_of s j)) →
  Z.of_nat (base.size ch) + 1 < 2 ^ 32 →
  ∃ s' c c', free ptr sz id s = Ok (tt, s') ∧ inv s' (<[ptr := (id, false)]> ch) ∧ frame s s' id c c' ∧
    requested c' = u64 (requested c - sz) ∧
    (∀ a, a ≠ ptr → ch !! a = None ∨ (∃ j, ch !! a = Some (j, true)) → item_at s' a = item_at s a).
Proof.
  clear malloc_fresh malloc realloc_ok. intros Hi Hid Hit Hcls Hch Hpos Hpg Hap Hsz.
  destruct (v_class _ _ Hi id Hid) as (c & l & Hc & Hok & Hdl & Hnd & Hl & Hcur & Hsl & Hsl2 & Hls).
  pose proof (free_count _ _ _ Hnd Hl) as Hcnt.
  assert (ptr ∉ l) as Hptr by (intros H%Hl; destruct Hch; congruence).
  set (itn := mkItem (slots c) 0 (Z.lor (it_flags it) ITEM_SLABBED) 0).
  set (s1 := set_mem s (<[ptr := itn]> (items s)) (pages s)).
  set (h := slots c). set (c' := with_slots c ptr (u32 (sl_curr c + 1)) (u64 (requested c - sz))).
  assert (∃ s2, (if negb (h =? 0) then nx ← get_item h; put_item h (mkItem (next nx) ptr (it_flags nx) (slabs_clsid_of nx)) else mret tt) s1 = Ok (tt, s2) ∧
    pages s2 = pages s ∧ power_largest s2 = power_largest s ∧ mem_base s2 = mem_base s ∧ mem_current s2 = mem_current s ∧
    mem_avail s2 = mem_avail s ∧ mem_limit s2 = mem_limit s ∧ mem_alloced s2 = mem_alloced s ∧ slabclass s2 = slabclass s ∧
    (∀ a, a ≠ ptr → a ≠ h ∨ h = 0 → item_at s2 a = item_at s a) ∧ item_at s2 ptr = Some itn ∧
    (∀ x, h ≠ 0 → item_at s h = Some x → item_at s2 h = Some (mkItem (next x) ptr (it_flags x) (slabs_clsid_of x))))
    as (s2 & Hrun & E1 & E2 & E3 & E4 & E5 & E6 & E7 & E8 & Hs2 & Hs2p & Hs2h).
  { destruct (Z.eqb_spec h 0) as [E|Hne]; cbn [negb].
    - exists s1. split_and!; try done.
      + intros a Ha _. unfold s1. rewrite item_at_put. by rewrite decide_False.
      + unfold s1. rewrite item_at_put. by rewrite decide_True.
    - destruct l as [|a l]; [simpl in Hdl; done|]. destruct Hdl as (Eh & Ha0 & ih & Hih & _). fold h in Eh.
      assert (h ≠ ptr) as Hhp by (intros E; apply Hptr; rewrite <-E, Eh; set_solver).
      assert (item_at s1 h = Some ih) as Hih1 by (unfold s1; rewrite item_at_put, decide_False by done; by rewrite Eh).
      exists (set_mem s1 (<[h := mkItem (next ih) ptr (it_flags ih) (slabs_clsid_of ih)]> (items s1)) (pages s1)).
      mstep (slab_item_run _ _ _ Hih1). rewrite (slab_put_run _ _ _ _ Hih1). split_and!; try done.
      + intros b Hb [Hbh|?]; [|done]. rewrite item_at_put, decide_False by done. unfold s1. by rewrite item_at_put, decide_False.
      + rewrite item_at_put, decide_False by congruence. unfold s1. by rewrite item_at_put, decide_True.
      + intros x _ Hx. rewrite item_at_put, decide_True by done. rewrite Eh in Hx. rewrite Hih in Hx. by injection Hx as ->. }
  set (s' := set_classes s2 (<[Z.to_nat id := c']> (slabclass s2))). exists s', c, c'.
  assert (∀ a, item_at s' a = item_at s2 a) as Hs' by done.
  assert (Z.of_nat (length l) + 1 < 2 ^ 32) by lia.
  split_and!.
  - unfold do_slabs_free. mstep (slab_item_run _ _ _ Hit). rewrite Hcls, Z.eqb_refl. rewrite (bind_lift (assert_ true) _ s tt eq_refl).
    rewrite bind_get. rewrite (proj2 (Z.leb_le _ _)), (proj2 (Z.leb_le _ _)) by lia. rewrite (bind_lift (assert_ (true && true)) _ s tt eq_refl).
    mstep (slab_class_run _ _ _ Hc). mstep (slab_put_run _ _ _ itn Hit). fold s1 h. mstep Hrun. done.
  - eapply (class_update s ch s' _ id c c' (ptr :: l)); try done; try (by rewrite <-?E1, <-?E2, <-?E3, <-?E4, <-?E5).
    + unfold s'. simpl. by rewrite E8.
    + simpl. split_and!; [done|lia|]. exists itn. split_and!; [by rewrite Hs', Hs2p|done|done|].
      change (next itn) with h. eapply dl_rehang; [exact Hdl|done| |].
      * intros a Ha Hah. rewrite Hs'. apply Hs2; [by intros ->|by left].
      * intros x Hx0 Hx. rewrite Hs'. apply Hs2h; done.
    + apply NoDup_cons. done.
    + intros a. rewrite elem_of_cons, Hl. destruct (decide (a = ptr)) as [->|Hne].
      * rewrite lookup_insert_eq. naive_solver.
      * rewrite lookup_insert_ne by done. naive_solver.
    + simpl. rewrite wrapu_small by lia. lia.
    + simpl. destruct Hch as [Hch|Hch]; [rewrite map_size_insert_None by done|rewrite map_size_insert_Some by eauto]; lia.
    + destruct Hch as [Hch|Hch]; [rewrite map_size_insert_None by done|rewrite map_size_insert_Some by eauto]; lia.
    + intros a j Hj. destruct (decide (a = ptr)) as [->|Hne]; [|by rewrite lookup_insert_ne].
      rewrite lookup_insert_eq. destruct Hch as [-> | ->]; naive_solver.
    + intros a j Hj Ha. rewrite Hs'. apply Hs2; [intros ->; destruct Hch; congruence|]. destruct (decide (h = 0)) as [|Hh]; [by right|]. left.
      intros ->. pose proof (dl_head_in _ _ _ _ Hdl Hh) as Hin. apply Hl in Hin. fold h in Hin. congruence.
    + intros a j u Ha. destruct (decide (a = ptr)) as [->|Hne].
      * rewrite lookup_insert_eq in Ha. injection Ha as <- <-. done.
      * rewrite lookup_insert_ne in Ha by done. by apply (v_chunk _ _ Hi _ _ _ Ha).
    + intros a b i j u v Ha Hb Hne. destruct (decide (a = ptr)) as [->|Hap'].
      * rewrite lookup_insert_eq in Ha. injection Ha as <- <-. rewrite lookup_insert_ne in Hb by done. by eapply Hap.
      * rewrite lookup_insert_ne in Ha by done. destruct (decide (b = ptr)) as [->|Hbp].
        -- rewrite lookup_insert_eq in Hb. injection Hb as <- <-. destruct (Hap _ _ _ Ha Hap'); [by right|by left].
        -- rewrite lookup_insert_ne in Hb by done. by eapply (v_apart _ _ Hi a b).
  - split; try done. unfold s'. simpl. by rewrite E8.
  - done.
  - intros a Ha Hach. rewrite Hs'. apply Hs2; [done|]. destruct (decide (h = 0)) as [|Hh]; [by right|]. left. intros ->. pose proof (dl_head_in _ _ _ _ Hdl Hh) as Hin. apply Hl in Hin. fold h in Hin. destruct Hach as [?|[j ?]]; congruence.
Qed.

(** ** Splitting a page *)

Lemma frame_trans s s1 s2 id c c1 c2 : frame s s1 id c c1 → frame s1 s2 id c1 c2 → frame s s2 id c c2.
Proof.
  intros [] []. split; try congruence.
  - rewrite fr_new1, fr_new0. apply list_insert_insert_eq.
Qed.

Lemma frame_class s s' id c c' : frame s s' id c c' → slabclass s' !! Z.to_nat id = Some c'.
Proof. intros []. rewrite fr_new0. apply list_lookup_insert_eq. by eapply lookup_lt_Some. Qed.

Lemma frame_size s s' id c c' j : frame s s' id c c' → size_of s' j = size_of s j.
Proof.
  intros []. unfold size_of. rewrite fr_new0. destruct (decide (Z.to_nat j = Z.to_nat id)) as [->|Hne].
  - rewrite list_lookup_insert_eq by (by eapply lookup_lt_Some). rewrite fr_old0. simpl. congruence.
  - by rewrite list_lookup_insert_ne.
Qed.

Lemma frame_refl s id c : slabclass s !! Z.to_nat id = Some c → frame s s id c c.
Proof. intros H. split; try done. by rewrite list_insert_id. Qed.

(** Chunks are only added, free ones, in class [id]. *)
Definition grown ch ch' (id : Z) : Prop :=
  (∀ a x, ch !! a = Some x → ch' !! a = Some x) ∧ (∀ a x, ch' !! a = Some x → ch !! a = Some x ∨ x = (id, false)).

Lemma split_run n s ch ptr id c :
  inv s ch → POWER_SMALLEST ≤ id ≤ power_largest s → slabclass s !! Z.to_nat id = Some c → 0 < ptr →
  (∃ pg, pg ∈ pages s ∧ pg.1 ≤ ptr ∧ ptr + Z.of_nat n * size c ≤ pg.1 + pg.2) →
  (∀ i, (i < n)%nat → item_at s (ptr + Z.of_nat i * size c) = Some zero_item) →
  (∀ b j v, ch !! b = Some (j, v) → apart ptr (Z.of_nat n * size c) b (size_of s j)) →
  Z.of_nat (base.size ch) + Z.of_nat n < 2 ^ 32 →
  ∃ s' c' ch', split_loop ITEM_SLABBED n ptr id s = Ok (tt, s') ∧ inv s' ch' ∧ frame s s' id c c' ∧ grown ch ch' id ∧
    base.size ch' = (base.size ch + n)%nat ∧ ((0 < n)%nat → ch' !! ptr = Some (id, false)).
Proof.
  clear malloc_fresh malloc realloc_ok. revert s ch ptr c. induction n as [|n IH]; intros s ch ptr c Hi Hid Hc Hp Hpg Hz Hap Hsz.
  { exists s, c, ch. split; [done|]. split; [done|]. split; [by apply frame_refl|]. split; [split; auto|]. split; [lia|]. lia. }
  destruct (v_class _ _ Hi id Hid) as (c0 & l0 & Hc0 & Hok & _). rewrite Hc in Hc0. injection Hc0 as <-.
  assert (size_of s id = size c) as Hso by (unfold size_of; by rewrite Hc). pose proof (k_size _ Hok) as Hpos.
  assert (∀ b j v, ch !! b = Some (j, v) → 0 < size_of s j) as Hjpos.
  { intros b j v Hb. apply (size_of_pos _ _ _ Hi). by apply (v_chunk _ _ Hi _ _ _ Hb). }
  assert (ch !! ptr = None) as Hnew.
  { destruct (ch !! ptr) as [[j v]|] eqn:E; [|done]. pose proof (Hjpos _ _ _ E). destruct (Hap _ _ _ E); nia. }
  cbn [split_loop].
  destruct (free_run s ch ptr 0 id zero_item Hi Hid) as (s1 & c1 & c1' & Hrun & Hi1 & Hf1 & _ & Hit1); try done.
  - specialize (Hz 0%nat ltac:(lia)). by rewrite Z.mul_0_l, Z.add_0_r in Hz.
  - by left.
  - destruct Hpg as (pg & H1 & H2 & H3). exists pg. rewrite Hso. split_and!; [done|done|nia].
  - intros b j v Hb Hne. rewrite Hso. destruct (Hap _ _ _ Hb); [left; nia|by right].
  - lia.
  - pose proof (fr_old _ _ _ _ _ Hf1) as Hc1. rewrite Hc in Hc1. injection Hc1 as <-.
    pose proof (frame_class _ _ _ _ _ Hf1) as Hc1. assert (size c1' = size c) as Es by (pose proof (fr_class _ _ _ _ _ Hf1); congruence).
    destruct (IH s1 (<[ptr := (id, false)]> ch) (ptr + size c) c1') as (s' & c' & ch' & Hrun' & Hi' & Hf' & [Hg1 Hg2] & Hs' & _); try done.
    + by rewrite (fr_largest _ _ _ _ _ Hf1).
    + lia.
    + rewrite (fr_pages _ _ _ _ _ Hf1), Es. destruct Hpg as (pg & H1 & H2 & H3). exists pg. split_and!; [done|lia|nia].
    + intros i Hi'. rewrite Es. replace (ptr + size c + Z.of_nat i * size c) with (ptr + Z.of_nat (S i) * size c) by lia.
      rewrite Hit1; [apply Hz; lia|nia|]. left. destruct (ch !! (ptr + Z.of_nat (S i) * size c)) as [[j v]|] eqn:E; [|done].
      pose proof (Hjpos _ _ _ E). destruct (Hap _ _ _ E); nia.
    + intros b j v Hb. rewrite Es, (frame_size _ _ _ _ _ j Hf1). destruct (decide (b = ptr)) as [->|Hne].
      * rewrite lookup_insert_eq in Hb. injection Hb as <- <-. right. lia.
      * rewrite lookup_insert_ne in Hb by done. destruct (Hap _ _ _ Hb); [left; nia|right; lia].
    + rewrite map_size_insert_None by done. lia.
    + exists s', c', ch'. rewrite map_size_insert_None in Hs' by done. split_and!.
      * mstep Hrun. mstep (slab_class_run _ _ _ Hc1). by rewrite Es.
      * done.
      * by eapply frame_trans.
      * split; intros a x Ha; [apply Hg1; rewrite lookup_insert_ne; [done|]; intros <-; congruence|].
        destruct (Hg2 _ _ Ha) as [Ha'|?]; [|by right]. destruct (decide (a = ptr)) as [->|].
        -- rewrite lookup_insert_eq in Ha'. right. congruence.
        -- rewrite lookup_insert_ne in Ha' by done. by left.
      * lia.
      * intros _. apply Hg1. by rewrite lookup_insert_eq.
Qed.

(** ** A new page *)

Lemma memset_inv s ch ptr len :
  inv s ch → (∀ pg, pg ∈ pages s → apart ptr len pg.1 pg.2) → (mem_base s ≠ 0 → ptr + len ≤ mem_current s) →
  let s' := set_mem s (filter (λ x, in_page x.1 (ptr, len) = false) (items s)) ((ptr, len) :: pages s) in
  inv s' ch ∧ ∀ a, ptr ≤ a < ptr + len → item_at s' a = Some zero_item.
Proof.
  clear malloc_fresh malloc realloc_ok. intros Hi Hap Hcur s'.
  assert (∀ a, in_page a (ptr, len) = false → item_at s' a = item_at s a) as Hsame.
  { intros a Ha. unfold item_at, s'. simpl. rewrite Ha.
    destruct (items s !! a) as [it|] eqn:E.
    - assert (filter (λ x, in_page x.1 (ptr, len) = false) (items s) !! a = Some it) as ->; [|done]. by apply map_lookup_filter_Some.
    - assert (filter (λ x, in_page x.1 (ptr, len) = false) (items s) !! a = None) as ->; [|done]. apply map_lookup_filter_None. by left. }
  split.
  - destruct Hi as [Hcl Hch Hpa Hpo Hb].
    assert (∀ a x, ch !! a = Some x → in_page a (ptr, len) = false) as Hout.
    { intros a [id u] Ha. destruct (Hch _ _ _ Ha) as (Hid & _ & pg & Hpg & H1 & H2). destruct (in_page a (ptr, len)) eqn:E; [|done].
      apply in_page_spec in E. simpl in E. destruct (Hcl id Hid) as (c & l & Hc & Hok & _).
      unfold size_of in H2. rewrite Hc in H2. simpl in H2. pose proof (k_size _ Hok). destruct (Hap _ Hpg); lia. }
    split.
    + intros id Hid. destruct (Hcl id Hid) as (c & l & Hc & Hok & Hdl & Hnd & Hl & Hrest). exists c, l.
      split_and!; try done; try apply Hrest. eapply dl_frame; [exact Hdl|]. intros a Ha. apply Hsame. apply Hl in Ha. by eapply Hout.
    + intros a id u Ha. destruct (Hch _ _ _ Ha) as (? & ? & pg & Hpg & ?). split; [done|]. split; [done|]. exists pg. split; [set_solver|done].
    + exact Hpa.
    + intros Hne. destruct (Hpo Hne) as (H1 & H2 & H3). split; [done|]. split; [done|].
      intros pg [->|Hpg]%elem_of_cons; [by apply Hcur|by apply H3].
    + exact Hb.
  - intros a Ha. unfold item_at, s'. simpl. assert (in_page a (ptr, len) = true) as Hin by (apply in_page_spec; done).
    rewrite Hin. destruct (filter _ (items s) !! a) eqn:E; [|done]. apply map_lookup_filter_Some in E as [_ E]. simpl in E. congruence.
Qed.

Abbreviation allocate := (memory_allocate CHUNK_ALIGN_BYTES malloc).

(** What the state of the pool may do besides the classes. *)
Definition pool_only s s' : Prop := ∃ cur av, s' = set_pool s (mem_base s) cur av.

Lemma allocate_run s ch sz :
  inv s ch → 0 ≤ sz < 2 ^ 63 → 0 < CHUNK_ALIGN_BYTES ≤ 2 ^ 31 →
  ∃ p s', allocate sz s = Ok (p, s') ∧ inv s' ch ∧ pool_only s s' ∧
    (p = 0 ∨ (0 < p ∧ (∀ pg, pg ∈ pages s → apart p sz pg.1 pg.2) ∧ (mem_base s ≠ 0 → p + sz ≤ mem_current s'))).
Proof using malloc_fresh.
  intros Hi Hsz Hal. unfold memory_allocate. rewrite bind_get. destruct (Z.eqb_spec (mem_base s) 0) as [Hb|Hb].
  - exists (malloc s sz), s. split_and!; [done|done| |].
    + exists (mem_current s), (mem_avail s). by destruct s.
    + destruct (decide (malloc s sz = 0)) as [|Hne]; [by left|]. right. destruct (malloc_fresh s sz Hne) as [? ?]. by split_and!.
  - destruct (v_pool _ _ Hi Hb) as (Hb0 & Hav & Hpg). destruct (Z.ltb_spec (mem_avail s) sz) as [Hlt|Hge].
    + exists 0, s. split_and!; [done|done| |by left]. exists (mem_current s), (mem_avail s). by destruct s.
    + set (sz' := if negb (sz mod CHUNK_ALIGN_BYTES =? 0) then u64 (sz + sz mod CHUNK_ALIGN_BYTES) else sz).
      assert (sz ≤ sz') as Hle.
      { unfold sz'. destruct (negb _); [|lia]. pose proof (Z.mod_pos_bound sz CHUNK_ALIGN_BYTES ltac:(lia)). rewrite wrapu_small by lia. lia. }
      exists (mem_current s), (set_pool s (mem_base s) (mem_current s + sz') (if sz' <? mem_avail s then mem_avail s - sz' else 0)).
      split_and!; [done| |by eexists _, _|].
      * destruct Hi as [Hcl Hch Hpa Hpo Hbb]. split; [exact Hcl|exact Hch|exact Hpa| |exact Hbb].
        intros _. cbn [mem_base mem_current mem_avail set_pool]. split; [lia|]. split; [destruct (Z.ltb_spec sz' (mem_avail s)); lia|].
        intros pg Hin. specialize (Hpg _ Hin). lia.
      * right. split_and!; [lia| |simpl; lia]. intros pg Hin. right. by apply Hpg.
Qed.

(** Growing the page list of a class and counting a page leave the chunks alone. *)
Lemma counters_inv s ch id c n l k r :
  inv s ch → POWER_SMALLEST ≤ id ≤ power_largest s → slabclass s !! Z.to_nat id = Some c →
  0 ≤ n ≤ k → n ≤ Z.of_nat (base.size ch) → k < 2 ^ 32 →
  inv (set_classes s (<[Z.to_nat id := with_slots (with_list c n l k) (slots c) (sl_curr c) r]> (slabclass s))) ch.
Proof.
  clear malloc_fresh malloc realloc_ok. intros Hi Hid Hc Hn Hch Hk.
  destruct (v_class _ _ Hi id Hid) as (c0 & l0 & Hc0 & Hok & Hdl & Hnd & Hl & Hcur & _). rewrite Hc in Hc0. injection Hc0 as <-.
  eapply (class_update s ch _ ch id c _ l0); try done; try lia; try apply Hi.
Qed.

(** The sizes of the classes, which no operation changes. *)
Definition sizes s : list (Z * Z) := (λ c, (size c, perslab c)) <$> slabclass s.

Lemma sizes_insert s id c c' : slabclass s !! Z.to_nat id = Some c → size c' = size c → perslab c' = perslab c →
  (λ c, (size c, perslab c)) <$> <[Z.to_nat id := c']> (slabclass s) = sizes s.
Proof.
  intros Hc E1 E2. unfold sizes. rewrite list_fmap_insert, E1, E2. apply list_insert_id. by rewrite list_lookup_fmap, Hc.
Qed.

Lemma frame_sizes s s' id c c' : frame s s' id c c' → sizes s' = sizes s.
Proof. intros []. unfold sizes at 1. rewrite fr_new0. apply (sizes_insert s id c); congruence. Qed.

Abbreviation newslab := (do_slabs_newslab settings ITEM_SLABBED CHUNK_ALIGN_BYTES malloc realloc_ok).

Lemma grow_run s ch id c :
  inv s ch → POWER_SMALLEST ≤ id ≤ power_largest s → slabclass s !! Z.to_nat id = Some c → Z.of_nat (base.size ch) < 2 ^ 31 →
  ∃ r s' k, grow_slab_list realloc_ok id s = Ok (r, s') ∧ inv s' ch ∧
    s' = set_classes s (<[Z.to_nat id := with_list c (slabs c) (slab_list c) k]> (slabclass s)) ∧ (r = 0 ∨ slabs c < k).
Proof.
  clear malloc_fresh malloc. intros Hi Hid Hc Hsz. destruct (v_class _ _ Hi id Hid) as (c0 & l0 & Hc0 & _ & _ & _ & _ & _ & Hs1 & Hs2 & Hs3).
  rewrite Hc in Hc0. injection Hc0 as <-.
  assert (s = set_classes s (<[Z.to_nat id := with_list c (slabs c) (slab_list c) (list_size c)]> (slabclass s))) as Hid_s.
  { unfold with_list. rewrite list_insert_id; [by destruct s|]. rewrite Hc. by destruct c. }
  unfold grow_slab_list. mstep (slab_class_run _ _ _ Hc). destruct (Z.eqb_spec (slabs c) (list_size c)) as [E|E].
  - rewrite bind_get. set (n := if negb (list_size c =? 0) then u32 (list_size c * 2) else 16).
    assert (slabs c < n < 2 ^ 32) as Hn.
    { unfold n. destruct (Z.eqb_spec (list_size c) 0); cbn [negb]; [lia|]. rewrite wrapu_small by lia. lia. }
    destruct (realloc_ok s (n * 8)); cbn [negb].
    + eexists 1, _, n. split; [rewrite (wrapu_small 32) by lia; reflexivity|]. split; [|split; [done|right; lia]].
      change (with_list c (slabs c) (slab_list c) n) with (with_slots (with_list c (slabs c) (slab_list c) n) (slots c) (sl_curr c) (requested c)).
      eapply counters_inv; try done; lia.
    + exists 0, s, (list_size c). split_and!; [done|done|done|by left].
  - exists 1, s, (list_size c). split_and!; [done|done|done|right; lia].
Qed.

Lemma newslab_run s ch id c :
  inv s ch → POWER_SMALLEST ≤ id ≤ power_largest s → slabclass s !! Z.to_nat id = Some c →
  Z.of_nat (base.size ch) + perslab c < 2 ^ 31 → 0 < CHUNK_ALIGN_BYTES ≤ 2 ^ 31 →
  ∃ r s' ch', newslab id s = Ok (r, s') ∧ inv s' ch' ∧ power_largest s' = power_largest s ∧ sizes s' = sizes s ∧ grown ch ch' id ∧
    Z.of_nat (base.size ch') ≤ Z.of_nat (base.size ch) + perslab c ∧ ((r = 0 ∧ ch' = ch) ∨ (r = 1 ∧ ∃ p, ch' !! p = Some (id, false))).
Proof using malloc_fresh.
  intros Hi Hid Hc Hsz Hal. destruct (v_class _ _ Hi id Hid) as (c0 & l0 & Hc0 & Hok & Hrest). rewrite Hc in Hc0. injection Hc0 as <-.
  destruct Hok as [Hk1 Hk2 Hk3 Hk4]. assert (0 < size c * perslab c) by nia.
  unfold do_slabs_newslab. mstep (slab_class_run _ _ _ Hc). rewrite bind_get.
  set (len := s32 (if slab_reassign settings then item_size_max settings else u32 (size c * perslab c))).
  assert (size c * perslab c ≤ len < 2 ^ 31) as Hlen.
  { unfold len. destruct (slab_reassign settings).
    - specialize (Hk4 eq_refl). rewrite wraps_small by lia. lia.
    - rewrite wrapu_small by lia. rewrite wraps_small by lia. lia. }
  destruct (_ && _ && _).
  { exists 0, s, ch. split; [done|]. split; [done|]. split; [done|]. split; [done|]. split; [split; auto|]. split; [lia|by left]. }
  destruct (grow_run s ch id c Hi Hid Hc) as (g & s1 & k & Hg & Hi1 & Es1 & Hk); [lia|]. mstep Hg.
  set (c1 := with_list c (slabs c) (slab_list c) k) in *.
  assert (slabclass s1 !! Z.to_nat id = Some c1 ∧ power_largest s1 = power_largest s ∧ sizes s1 = sizes s) as (Hc1 & Hpl1 & Hsz1).
  { rewrite Es1. simpl. split_and!; [apply list_lookup_insert_eq; by eapply lookup_lt_Some|done|by apply (sizes_insert s id c)]. }
  destruct (Z.eqb_spec g 0) as [->|Hg0].
  { exists 0, s1, ch. split; [done|]. split; [done|]. split; [done|]. split; [done|]. split; [split; auto|]. split; [lia|by left]. }
  destruct Hk as [?|Hk]; [done|]. rewrite (wrapu_small 64) by lia.
  destruct (allocate_run s1 ch len Hi1) as (p & s2 & Ha & Hi2 & (cur & av & Es2) & Hp); [lia|done|]. mstep Ha.
  assert (slabclass s2 !! Z.to_nat id = Some c1 ∧ power_largest s2 = power_largest s ∧ sizes s2 = sizes s ∧ pages s2 = pages s1) as (Hc2 & Hpl2 & Hsz2 & Hpg2).
  { rewrite Es2. done. }
  destruct (Z.eqb_spec p 0) as [->|Hp0].
  { exists 0, s2, ch. split; [done|]. split; [done|]. split; [done|]. split; [done|]. split; [split; auto|]. split; [lia|by left]. }
  destruct Hp as [?|(Hpos & Hpap & Hpcur)]; [done|]. unfold memset0. rewrite bind_modify.
  destruct (memset_inv s2 ch p len Hi2) as [Hi3 Hzero]; [by rewrite Hpg2|by rewrite Es2 at 1|].
  set (s3 := set_mem s2 _ _) in *. assert (slabclass s3 !! Z.to_nat id = Some c1) as Hc3 by exact Hc2.
  assert (Z.of_nat (Z.to_nat (perslab c)) = perslab c) as Hper by lia.
  destruct (split_run (Z.to_nat (perslab c)) s3 ch p id c1 Hi3) as (s4 & c4 & ch4 & Hsp & Hi4 & Hf4 & Hgr & Hsz4 & Hptr); try done.
  { unfold s3. simpl. by rewrite Hpl2. }
  { exists (p, len). rewrite Hper. simpl. split; [set_solver|lia]. }
  { intros i Hi'. apply Hzero. simpl. nia. }
  { intros b j v Hb. rewrite Hper. destruct (v_chunk _ _ Hi2 _ _ _ Hb) as (Hj & _ & pg & Hpg & Hb1 & Hb2).
    change (size_of s3 j) with (size_of s2 j). simpl size. rewrite Hpg2 in Hpg. destruct (Hpap _ Hpg); [left; lia|right; lia]. }
  { lia. }
  unfold split_slab_page_into_freelist. unfold mbind at 1, M_bind at 1. rewrite (bind_ok _ _ _ _ _ (slab_class_run _ _ _ Hc3)).
  change (perslab c1) with (perslab c). rewrite Hsp.
  pose proof (frame_class _ _ _ _ _ Hf4) as Hc4. mstep (slab_class_run _ _ _ Hc4).
  pose proof (fr_class _ _ _ _ _ Hf4) as Ecl. injection Ecl as E1 E2 E3 E4 E5. change (slabs c1) with (slabs c) in E3. change (list_size c1) with k in E5.
  rewrite E3, E5. rewrite (proj2 (Z.ltb_lt _ _)) by done. rewrite (bind_lift (Ok tt) _ s4 tt eq_refl).
  assert (power_largest s4 = power_largest s) as Hpl4 by (rewrite (fr_largest _ _ _ _ _ Hf4); exact Hpl2).
  assert (sizes s4 = sizes s) as Hsi4 by (rewrite (frame_sizes _ _ _ _ _ Hf4); exact Hsz2).
  destruct (v_class _ _ Hi4 id) as (c5 & l5 & Hc5 & _ & _ & _ & _ & _ & Hb1 & Hb2 & Hb3); [by rewrite Hpl4|]. rewrite Hc4 in Hc5. injection Hc5 as <-.
  destruct Hrest as (_ & _ & _ & _ & Hr1 & Hr2 & Hr3). rewrite E3, E5 in *.
  eexists 1, _, ch4. split; [reflexivity|]. split.
  { assert (u32 (slabs c + 1) = slabs c + 1) as -> by (apply wrapu_small; lia).
    set (n := slabs c + 1).
    assert (∀ s0 ch0 m, inv s0 ch0 → inv (set_alloced s0 m) ch0) as Hal0.
    { intros s0 ch0 m [? ? ? ? ?]. by split. }
    apply Hal0. change (with_list c4 n (slab_list c4 ++ [p]) k) with (with_slots (with_list c4 n (slab_list c4 ++ [p]) k) (slots c4) (sl_curr c4) (requested c4)).
    eapply counters_inv; [exact Hi4|by rewrite Hpl4|exact Hc4|lia|lia|lia]. }
  split; [done|]. split; [simpl; unfold sizes at 1; simpl; rewrite (sizes_insert s4 id c4); done|]. split; [done|]. split; [lia|].
  right. split; [done|]. exists p. apply Hptr. lia.
Qed.

(** ** Allocating *)

(** The part of [do_slabs_alloc] that takes the first free chunk. *)
Definition take_first (sz id : Z) (p : slabclass_t) : M st Z :=
  it ← get_item (slots p);
  (if negb (next it =? 0) then
     nx ← get_item (next it);
     put_item (next it) (mkItem (next nx) 0 (it_flags nx) (slabs_clsid_of nx))
   else mret tt);;
  put_class id (with_slots p (next it) (u32 (sl_curr p - 1)) (requested p));;
  p' ← get_class id;
  put_class id (with_slots p' (slots p') (sl_curr p') (u64 (requested p' + sz)));;
  mret (slots p).

Lemma take_run s ch sz id c :
  inv s ch → POWER_SMALLEST ≤ id ≤ power_largest s → slabclass s !! Z.to_nat id = Some c → sl_curr c ≠ 0 → Z.of_nat (base.size ch) < 2 ^ 32 →
  ch !! slots c = Some (id, false) ∧ slots c ≠ 0 ∧
  ∃ s', take_first sz id c s = Ok (slots c, s') ∧ inv s' (<[slots c := (id, true)]> ch) ∧
    power_largest s' = power_largest s ∧ sizes s' = sizes s.
Proof.
  clear malloc_fresh malloc realloc_ok. intros Hi Hid Hc Hne Hsz.
  destruct (v_class _ _ Hi id Hid) as (c0 & l & Hc0 & Hok & Hdl & Hnd & Hl & Hcur & Hs1 & Hs2 & Hs3). rewrite Hc in Hc0. injection Hc0 as <-.
  pose proof (free_count _ _ _ Hnd Hl) as Hcnt.
  destruct l as [|h l]; [simpl in Hcur; done|]. destruct Hdl as (Eh & Hh0 & it & Hit & Hpv & Hcls & Hdl). apply NoDup_cons in Hnd as [Hhl Hnd].
  assert (ch !! h = Some (id, false)) as Hch by (apply Hl; set_solver). rewrite Eh. split; [done|]. split; [done|].
  set (r := next it) in *. set (c' := with_slots c r (u32 (sl_curr c - 1)) (u64 (requested c + sz))).
  assert (∃ s1, (if negb (r =? 0) then nx ← get_item r; put_item r (mkItem (next nx) 0 (it_flags nx) (slabs_clsid_of nx)) else mret tt) s = Ok (tt, s1) ∧
    (∃ m, s1 = set_mem s m (pages s)) ∧ (∀ a, a ≠ r ∨ r = 0 → item_at s1 a = item_at s a) ∧
    (∀ x, r ≠ 0 → item_at s r = Some x → item_at s1 r = Some (mkItem (next x) 0 (it_flags x) (slabs_clsid_of x))))
    as (s1 & Hrun & (m & Es1) & Hsame & Hhd).
  { destruct (Z.eqb_spec r 0) as [E|Hr]; cbn [negb].
    - exists s. split_and!; [done|exists (items s); by destruct s|done|done].
    - pose proof (dl_head_in _ _ _ _ Hdl Hr) as Hin. destruct (chunk_item s ch r (id, false) Hi) as [x Hx]; [apply Hl; set_solver|].
      exists (set_mem s (<[r := mkItem (next x) 0 (it_flags x) (slabs_clsid_of x)]> (items s)) (pages s)).
      mstep (slab_item_run _ _ _ Hx). rewrite (slab_put_run _ _ _ _ Hx). split_and!; [done|by eexists| |].
      + intros a [Ha|?]; [|done]. by rewrite item_at_put, decide_False.
      + intros y _ Hy. rewrite Hx in Hy. injection Hy as <-. by rewrite item_at_put, decide_True. }
  set (s' := set_classes s1 (<[Z.to_nat id := c']> (slabclass s1))). exists s'.
  assert (slabclass s1 = slabclass s) as Ecl by (by rewrite Es1).
  assert (∀ a, item_at s' a = item_at s1 a) as Hs' by done.
  split_and!.
  - unfold take_first. rewrite Eh. mstep (slab_item_run _ _ _ Hit). fold r. mstep Hrun. 
    set (s2 := set_classes s1 (<[Z.to_nat id := with_slots c r (u32 (sl_curr c - 1)) (requested c)]> (slabclass s1))).
    rewrite (bind_ok (put_class id _) _ s1 tt s2 eq_refl).
    assert (slabclass s2 !! Z.to_nat id = Some (with_slots c r (u32 (sl_curr c - 1)) (requested c))) as Hc2.
    { unfold s2. simpl. apply list_lookup_insert_eq. rewrite Ecl. by eapply lookup_lt_Some. }
    mstep (slab_class_run _ _ _ Hc2). unfold mbind, M_bind, put_class, modify, mret, M_ret. do 2 f_equal.
    unfold s', s2, c', set_classes. simpl. by rewrite list_insert_insert_eq.
  - assert (pages s' = pages s ∧ power_largest s' = power_largest s ∧ mem_base s' = mem_base s ∧ mem_current s' = mem_current s ∧ mem_avail s' = mem_avail s)
      as (? & ? & ? & ? & ?) by (unfold s'; by rewrite Es1).
    eapply (class_update s ch s' _ id c c' l); try done.
    + unfold s'. simpl. by rewrite Ecl.
    + change (slots c') with r. eapply dl_rehang; [exact Hdl|done| |].
      * intros a Ha Har. rewrite Hs'. apply Hsame. by left.
      * intros x Hx0 Hx. rewrite Hs'. by apply Hhd.
    + intros a. destruct (decide (a = h)) as [->|Hah].
      * rewrite lookup_insert_eq. naive_solver.
      * rewrite lookup_insert_ne by done. rewrite <-Hl. set_solver.
    + simpl. rewrite Hcur. simpl in Hcnt. simpl length. rewrite wrapu_small by lia. lia.
    + simpl. rewrite map_size_insert_Some by eauto. lia.
    + rewrite map_size_insert_Some by eauto. lia.
    + intros a j Hj. destruct (decide (a = h)) as [->|Hah]; [rewrite lookup_insert_eq; naive_solver|by rewrite lookup_insert_ne].
    + intros a j Hj Ha. rewrite Hs'. apply Hsame. destruct (decide (r = 0)) as [|Hr]; [by right|]. left. intros ->.
      pose proof (dl_head_in _ _ _ _ Hdl Hr) as Hin. assert (r ∈ h :: l) as Hin' by set_solver. apply Hl in Hin'. congruence.
    + intros a j u Ha. destruct (decide (a = h)) as [->|Hah].
      * rewrite lookup_insert_eq in Ha. injection Ha as <- <-. by apply (v_chunk _ _ Hi _ _ _ Hch).
      * rewrite lookup_insert_ne in Ha by done. by apply (v_chunk _ _ Hi _ _ _ Ha).
    + intros a b i j u v Ha Hb Hab.
      assert (∃ u', ch !! a = Some (i, u')) as [u' Ha'].
      { destruct (decide (a = h)) as [->|]; [rewrite lookup_insert_eq in Ha; injection Ha as <- <-; eauto|rewrite lookup_insert_ne in Ha by done; eauto]. }
      assert (∃ v', ch !! b = Some (j, v')) as [v' Hb'].
      { destruct (decide (b = h)) as [->|]; [rewrite lookup_insert_eq in Hb; injection Hb as <- <-; eauto|rewrite lookup_insert_ne in Hb by done; eauto]. }
      by eapply (v_apart _ _ Hi a b).
  - unfold s'. by rewrite Es1.
  - unfold sizes at 1, s'. simpl. rewrite Ecl. by apply (sizes_insert s id c).
Qed.

Abbreviation alloc := (do_slabs_alloc settings ITEM_SLABBED CHUNK_ALIGN_BYTES malloc realloc_ok).

(** Only [r] changes hands; other chunks at most appear, free. *)
Definition handed ch ch' (id r : Z) : Prop :=
  (∀ a x, a ≠ r → ch !! a = Some x → ch' !! a = Some x) ∧
  (∀ a x, a ≠ r → ch' !! a = Some x → ch !! a = Some x ∨ x = (id, false)).

Lemma slab_alloc_run s ch sz id c :
  inv s ch → POWER_SMALLEST ≤ id ≤ power_largest s → slabclass s !! Z.to_nat id = Some c →
  Z.of_nat (base.size ch) + perslab c < 2 ^ 31 → 0 < CHUNK_ALIGN_BYTES ≤ 2 ^ 31 →
  ∃ r s' ch', alloc sz id s = Ok (r, s') ∧ inv s' ch' ∧ power_largest s' = power_largest s ∧ sizes s' = sizes s ∧
    Z.of_nat (base.size ch') ≤ Z.of_nat (base.size ch) + perslab c ∧
    ((r = 0 ∧ ch' = ch) ∨ (r ≠ 0 ∧ ch' !! r = Some (id, true) ∧ (ch !! r = None ∨ ch !! r = Some (id, false)) ∧ handed ch ch' id r)).
Proof using malloc_fresh.
  intros Hi Hid Hc Hsz Hal. destruct (v_class _ _ Hi id Hid) as (c0 & l & Hc0 & Hok & Hdl & Hnd & Hl & Hcur & _). rewrite Hc in Hc0. injection Hc0 as <-.
  pose proof (k_per _ Hok) as Hper.
  assert (∀ s1 ch1 c1, inv s1 ch1 → power_largest s1 = power_largest s → sizes s1 = sizes s → slabclass s1 !! Z.to_nat id = Some c1 → sl_curr c1 ≠ 0 →
    grown ch ch1 id → Z.of_nat (base.size ch1) ≤ Z.of_nat (base.size ch) + perslab c →
    ∃ r s' ch', take_first sz id c1 s1 = Ok (r, s') ∧ inv s' ch' ∧ power_largest s' = power_largest s ∧ sizes s' = sizes s ∧
    Z.of_nat (base.size ch') ≤ Z.of_nat (base.size ch) + perslab c ∧
    ((r = 0 ∧ ch' = ch) ∨ (r ≠ 0 ∧ ch' !! r = Some (id, true) ∧ (ch !! r = None ∨ ch !! r = Some (id, false)) ∧ handed ch ch' id r))) as Htake.
  { intros s1 ch1 c1 Hi1 Hpl1 Hsi1 Hc1 Hcur1 [Hg1 Hg2] Hsz1.
    destruct (take_run s1 ch1 sz id c1 Hi1) as (Hch & Hr0 & s' & Hrun & Hi' & Hpl' & Hsi'); [by rewrite Hpl1|done|done|lia|].
    exists (slots c1), s', (<[slots c1 := (id, true)]> ch1). split; [done|]. split; [done|]. split; [congruence|]. split; [congruence|].
    split; [rewrite map_size_insert_Some by eauto; lia|]. right. split; [done|]. split; [by rewrite lookup_insert_eq|]. split.
    - destruct (ch !! slots c1) as [x|] eqn:E; [|by left]. right. apply Hg1 in E. congruence.
    - split; intros a x Ha; rewrite lookup_insert_ne by done; [apply Hg1|apply Hg2]. }
  unfold do_slabs_alloc. rewrite bind_get. rewrite (proj2 (Z.ltb_ge _ _)), (proj2 (Z.ltb_ge _ _)) by lia. cbn [orb].
  mstep (slab_class_run _ _ _ Hc). destruct (Z.eqb_spec (sl_curr c) 0) as [E|E]; cbn [negb].
  - unfold mbind at 1, M_bind at 1, mret at 1, M_ret at 1.
    destruct (newslab_run s ch id c Hi Hid Hc Hsz Hal) as (r & s1 & ch1 & Hrun & Hi1 & Hpl1 & Hsi1 & Hgr & Hsz1 & Hres). mstep Hrun.
    destruct (v_class _ _ Hi1 id) as (c1 & l1 & Hc1 & _ & _ & _ & Hl1 & Hcur1 & _); [by rewrite Hpl1|]. mstep (slab_class_run _ _ _ Hc1).
    destruct Hres as [[-> ->]|[-> [p Hp]]].
    + simpl. exists 0, s1, ch. split_and!; try done; by left.
    + assert (sl_curr c1 ≠ 0) as Hne1.
      { rewrite Hcur1. apply Hl1 in Hp. destruct l1; [set_solver|simpl; lia]. }
      rewrite (proj2 (Z.eqb_neq 1 0)) by done. rewrite (proj2 (Z.eqb_neq _ _)) by done. cbn [orb]. by eapply Htake.
  - destruct l as [|h l]; [simpl in Hcur; lia|]. destruct Hdl as (Eh & Hh0 & it & Hit & _ & Hcls & _).
    assert ((it ← get_item (slots c); lift (assert_ (slabs_clsid_of it =? 0))) s = Ok (tt, s)) as Has.
    { rewrite Eh. mstep (slab_item_run _ _ _ Hit). by rewrite Hcls. }
    mstep Has. unfold mbind at 1, M_bind at 1, mret at 1, M_ret at 1. mstep (slab_class_run _ _ _ Hc).
    rewrite (proj2 (Z.eqb_neq (sl_curr c) 0)) by done. cbn [orb Z.eqb]. eapply Htake; try done; [split; auto|lia].
Qed.

(** The owner of a chunk may write to it. *)
Lemma write_inv s ch a id it :
  inv s ch → ch !! a = Some (id, true) →
  put_item a it s = Ok (tt, set_mem s (<[a := it]> (items s)) (pages s)) ∧ inv (set_mem s (<[a := it]> (items s)) (pages s)) ch.
Proof.
  clear malloc_fresh malloc realloc_ok. intros Hi Ha. destruct (chunk_item _ _ _ _ Hi Ha) as [it0 Hit0].
  split; [by apply (slab_put_run _ _ it0)|]. destruct Hi as [Hcl Hch Hpa Hpo Hb]. split; [|exact Hch|exact Hpa|exact Hpo|exact Hb].
  intros j Hj. destruct (Hcl j Hj) as (c & l & Hc & Hok & Hdl & Hnd & Hl & Hrest). exists c, l. split_and!; try done; try apply Hrest.
  eapply dl_frame; [exact Hdl|]. intros b Hb'. rewrite item_at_put, decide_False; [done|]. intros ->. apply Hl in Hb'. congruence.
Qed.

End facts.
End McSlabFacts.
