(* ===== verification/McSlabProps.v ===== *)
(** The slab allocator's properties: chunks handed out never overlap, whatever sequence of
    calls led there; the classes that initialisation leaves; the choice of a class; the pool's
    alignment. *)

From stdpp Require Import relations.
From S2P Require Import Prelude McSlab McSlabFacts.
From stdpp Require Import options.
#[local] Open Scope Z_scope.

Module McSlabProps.
Import McSlab McSlabFacts.

Section clients.
Context (settings : settings_t) (ITEM_SLABBED CHUNK_ALIGN_BYTES : Z).
Context (malloc : st → Z → Z) (realloc_ok : st → Z → bool).

Abbreviation alloc := (do_slabs_alloc settings ITEM_SLABBED CHUNK_ALIGN_BYTES malloc realloc_ok).
Abbreviation free := (do_slabs_free ITEM_SLABBED).

(** ** The allocator and its clients as a transition system

    The second component is what the clients hold: chunks and their classes. A client allocates
    from a class, writes the header of a chunk it holds, or gives back a chunk it holds, whose
    [slabs_clsid] it has cleared. *)
Inductive step : st * gmap Z Z → st * gmap Z Z → Prop :=
  | step_alloc s h sz id r s' : POWER_SMALLEST ≤ id ≤ power_largest s → alloc sz id s = Ok (r, s') →
      step (s, h) (s', if r =? 0 then h else <[r := id]> h)
  | step_write s h a id it s' : h !! a = Some id → put_item a it s = Ok (tt, s') → step (s, h) (s', h)
  | step_free s h a sz id it s' : h !! a = Some id → item_at s a = Some it → slabs_clsid_of it = 0 →
      free a sz id s = Ok (tt, s') → step (s, h) (s', delete a h).

(** What holds of a reachable state: the chunks of the invariant that are handed out are those
    the clients hold; at most [P] chunks appear per step. *)
Record reach_inv (P : Z) (n : nat) (s : st) (h : gmap Z Z) : Prop := {
  r_inv : ∃ ch, inv settings s ch ∧ (∀ a id, h !! a = Some id ↔ ch !! a = Some (id, true)) ∧ Z.of_nat (base.size ch) ≤ P * Z.of_nat n;
  r_per : Forall (λ x, x.2 ≤ P) (sizes s);
}.

Hypothesis malloc_fresh : ∀ s n, malloc s n ≠ 0 →
  0 < malloc s n ∧ ∀ pg, pg ∈ pages s → apart (malloc s n) n pg.1 pg.2.
Hypothesis align : 0 < CHUNK_ALIGN_BYTES ≤ 2 ^ 31.

Lemma class_per P s id c : Forall (λ x, x.2 ≤ P) (sizes s) → slabclass s !! Z.to_nat id = Some c → perslab c ≤ P.
Proof.
  intros Hf Hc. rewrite Forall_lookup in Hf. apply (Hf (Z.to_nat id) (size c, perslab c)).
  unfold sizes. by rewrite list_lookup_fmap, Hc.
Qed.

Lemma free_held s ch a sz id it :
  inv settings s ch → ch !! a = Some (id, true) → item_at s a = Some it → slabs_clsid_of it = 0 → Z.of_nat (base.size ch) + 1 < 2 ^ 32 →
  ∃ s', free a sz id s = Ok (tt, s') ∧ inv settings s' (<[a := (id, false)]> ch) ∧ sizes s' = sizes s ∧ power_largest s' = power_largest s.
Proof.
  clear malloc_fresh align. intros Hi Ha Hit Hc Hsz. destruct (v_chunk _ _ _ Hi _ _ _ Ha) as (Hid & Hpos & Hpg).
  destruct (free_run settings ITEM_SLABBED s ch a sz id it Hi Hid Hit Hc) as (s' & c & c' & Hrun & Hi' & Hf & _); try done; [by right| |].
  - intros b j v Hb Hne. by eapply (v_apart _ _ _ Hi a b).
  - exists s'. split_and!; [done|done|by eapply frame_sizes|by apply (fr_largest _ _ _ _ _ Hf)].
Qed.

Lemma step_inv P n s h s' h' :
  reach_inv P n s h → P * Z.of_nat (S n) < 2 ^ 31 → 0 ≤ P → step (s, h) (s', h') → reach_inv P (S n) s' h'.
Proof using malloc_fresh align.
  intros [(ch & Hi & Hh & Hsz) Hper] Hn HP Hst. inversion Hst as [? ? sz id r ? Hid Hal|? ? a id it ? Ha Hw|? ? a sz id it ? Ha Hit Hc Hf]; subst.
  - destruct (v_class _ _ _ Hi id Hid) as (c & _ & Hc & _). pose proof (class_per _ _ _ _ Hper Hc).
    destruct (slab_alloc_run settings ITEM_SLABBED CHUNK_ALIGN_BYTES malloc realloc_ok malloc_fresh s ch sz id c Hi Hid Hc) as (r' & s1 & ch' & Hrun & Hi' & _ & Hsi & Hsz' & Hres); [lia|done|].
    rewrite Hal in Hrun. injection Hrun as <- <-. split; [|by rewrite Hsi]. exists ch'. split; [done|]. split; [|lia].
    destruct Hres as [[-> ->]|(Hr & Hr' & Hold & Hx & Hy)]; [done|]. rewrite (proj2 (Z.eqb_neq _ _)) by done. intros a j.
    destruct (decide (a = r)) as [->|Hne].
    + rewrite lookup_insert_eq, Hr'. naive_solver.
    + rewrite lookup_insert_ne, Hh by done. split; [apply Hx; done|]. intros Ha. destruct (Hy _ _ Hne Ha); [done|congruence].
  - apply Hh in Ha. destruct (write_inv settings s ch a id it Hi Ha) as [Hrun Hi']. rewrite Hw in Hrun. injection Hrun as ->.
    split; [|done]. exists ch. split_and!; [done|done|lia].
  - apply Hh in Ha. destruct (free_held s ch a sz id it Hi Ha Hit Hc) as (s1 & Hrun & Hi' & Hsi & _); [lia|].
    rewrite Hf in Hrun. injection Hrun as <-. split; [|by rewrite Hsi]. exists (<[a := (id, false)]> ch). split; [done|]. split.
    + intros b j. destruct (decide (b = a)) as [->|Hne].
      * rewrite lookup_delete_eq, lookup_insert_eq. naive_solver.
      * rewrite lookup_delete_ne, lookup_insert_ne by done. apply Hh.
    + rewrite map_size_insert_Some by eauto. lia.
Qed.

Lemma steps_inv P n x y :
  nsteps step n x y → ∀ k, reach_inv P k x.1 x.2 → P * Z.of_nat (k + n) < 2 ^ 31 → 0 ≤ P → reach_inv P (k + n) y.1 y.2.
Proof using malloc_fresh align.
  induction 1 as [x|n x y z Hs _ IH]; intros k Hr Hn HP; [by rewrite Nat.add_0_r|].
  replace (k + S n)%nat with (S k + n)%nat in * by lia. apply IH; [|done|done].
  destruct x, y. eapply step_inv; [exact Hr|nia|done|done].
Qed.

(** C7. However the clients use the allocator (as long as they hold what they free and clear
    its class mark), two chunks they hold never overlap, each lies inside a page, and every
    further allocation from a class and every further correct free succeeds in returning, without
    an assertion failing. *)
Theorem slab_clients_apart P n s0 s h :
  reach_inv P 0 s0 ∅ → nsteps step n (s0, ∅) (s, h) → 0 ≤ P → P * (Z.of_nat n + 1) < 2 ^ 31 →
  (∀ a b i j, h !! a = Some i → h !! b = Some j → a ≠ b → apart a (size_of s i) b (size_of s j)) ∧
  (∀ a i, h !! a = Some i → ∃ pg, pg ∈ pages s ∧ pg.1 ≤ a ∧ a + size_of s i ≤ pg.1 + pg.2) ∧
  (∀ id sz, POWER_SMALLEST ≤ id ≤ power_largest s → ∃ r s', alloc sz id s = Ok (r, s') ∧ (r ≠ 0 → h !! r = None)) ∧
  (∀ a i it sz, h !! a = Some i → item_at s a = Some it → slabs_clsid_of it = 0 → ∃ s', free a sz i s = Ok (tt, s')).
Proof using malloc_fresh align.
  intros H0 Hst HP Hn. destruct (steps_inv P n _ _ Hst 0 H0) as [(ch & Hi & Hh & Hsz) Hper]; [simpl; nia|done|]. simpl in *.
  split_and!.
  - intros a b i j Ha%Hh Hb%Hh Hne. by eapply (v_apart _ _ _ Hi a b).
  - intros a i Ha%Hh. by destruct (v_chunk _ _ _ Hi _ _ _ Ha) as (_ & _ & ?).
  - intros id sz Hid. destruct (v_class _ _ _ Hi id Hid) as (c & _ & Hc & _). pose proof (class_per _ _ _ _ Hper Hc).
    destruct (slab_alloc_run settings ITEM_SLABBED CHUNK_ALIGN_BYTES malloc realloc_ok malloc_fresh s ch sz id c Hi Hid Hc) as (r & s' & ch' & Hrun & _ & _ & _ & _ & Hres); [lia|done|].
    exists r, s'. split; [done|]. intros Hr. destruct Hres as [[? _]|(_ & _ & Hold & _)]; [done|].
    destruct (h !! r) as [j|] eqn:E; [|done]. apply Hh in E. destruct Hold; congruence.
  - intros a i it sz Ha%Hh Hit Hc. destruct (free_held s ch a sz i it Hi Ha Hit Hc) as (s' & Hrun & _); [lia|]. by exists s'.
Qed.

End clients.

(** ** Initialisation *)

Section init.
Context (settings : settings_t) (sizeof_item ITEM_SLABBED CHUNK_ALIGN_BYTES POWER_LARGEST MAX_NUMBER_OF_SLAB_CLASSES : Z).
Context (malloc : st → Z → Z) (realloc_ok : st → Z → bool) (below_max : Z → bool) (times_factor : Z → Z).
Abbreviation init := (slabs_init settings sizeof_item ITEM_SLABBED CHUNK_ALIGN_BYTES POWER_LARGEST MAX_NUMBER_OF_SLAB_CLASSES malloc realloc_ok below_max times_factor).

(** The loop that should build the table of classes tests [++i < POWER_SMALLEST] and never
    runs: initialisation without preallocation leaves one class, of the largest item size with
    one item per page; every request up to that size, however small, is directed to it, and a
    larger one to none. *)
Theorem slabs_init_one_class s limit :
  2 ≤ MAX_NUMBER_OF_SLAB_CLASSES → 0 < item_size_max settings →
  ∃ s', init limit false None s = Ok (tt, s') ∧ power_largest s' = 1 ∧
    (∀ i c, slabclass s' !! i = Some c → i ≠ 1%nat → c = zero_class) ∧
    (∃ c, slabclass s' !! 1%nat = Some c ∧ c = with_size zero_class (item_size_max settings) 1) ∧
    ∀ sz, 0 ≤ sz → slabs_clsid s' sz = Ok (if (0 <? sz) && (sz <=? item_size_max settings) then 1 else 0).
Proof.
  intros HM Hmax. set (N := Z.to_nat MAX_NUMBER_OF_SLAB_CLASSES). assert (2 ≤ N)%nat as HN by (unfold N; lia).
  set (cl := with_size zero_class (item_size_max settings) 1).
  set (s1 := set_largest (set_classes (set_limit s limit) (replicate N zero_class)) 1).
  exists (set_classes s1 (<[1%nat := cl]> (replicate N zero_class))).
  assert (∀ sz, init_loop settings CHUNK_ALIGN_BYTES below_max times_factor N (POWER_SMALLEST - 1) sz = mret 1) as Hloop.
  { intros sz. unfold POWER_SMALLEST. destruct N as [|N']; [lia|]. done. }
  split_and!; [|done| | |].
  - unfold slabs_init. rewrite bind_modify, bind_get. unfold mbind at 1, M_bind at 1, mret at 1, M_ret at 1. rewrite bind_modify. fold N.
    rewrite Hloop. unfold mbind at 1, M_bind at 1, mret at 1, M_ret at 1. rewrite bind_modify. fold s1.
    assert (slabclass s1 !! Z.to_nat 1 = Some zero_class) as Hc by (apply lookup_replicate; split; [done|lia]).
    mstep (slab_class_run _ _ _ Hc). done.
  - intros i c Hc Hi. simpl in Hc. rewrite list_lookup_insert_ne in Hc by done. by apply lookup_replicate in Hc as [-> _].
  - exists cl. split; [|done]. simpl. apply list_lookup_insert_eq. rewrite length_replicate. lia.
  - intros sz Hsz. unfold slabs_clsid. destruct (Z.eqb_spec sz 0) as [->|Hne]; [done|]. rewrite (proj2 (Z.ltb_lt 0 sz)) by lia. cbn [andb].
    simpl slabclass. rewrite length_insert, length_replicate. destruct N as [|N']; [lia|]. destruct N' as [|N']; [lia|].
    simpl. destruct (Z.ltb_spec (item_size_max settings) sz); destruct (Z.leb_spec sz (item_size_max settings)); try lia; done.
Qed.

End init.

(** On any table of classes [slabs_clsid] returns the first class, from 1 to
    [power_largest], whose chunks are large enough, and 0 for a size of 0 or one that fits no
    class; it always returns. *)
Theorem slabs_clsid_first s sz :
  1 ≤ power_largest s → (Z.to_nat (power_largest s) < length (slabclass s))%nat →
  ∃ r, slabs_clsid s sz = Ok r ∧
    if sz =? 0 then r = 0 else
    (r = 0 ∧ (∀ i, 1 ≤ i ≤ power_largest s → size_of s i < sz)) ∨
    (1 ≤ r ≤ power_largest s ∧ sz ≤ size_of s r ∧ ∀ i, 1 ≤ i < r → size_of s i < sz).
Proof.
  intros H1 Hlen. unfold slabs_clsid. destruct (Z.eqb_spec sz 0); [by exists 0|].
  assert (∀ fuel res, 1 ≤ res ≤ power_largest s → (Z.to_nat (power_largest s - res) ≤ fuel)%nat → (∀ i, 1 ≤ i < res → size_of s i < sz) →
    ∃ r, clsid_loop fuel s sz res = Ok r ∧
    ((r = 0 ∧ (∀ i, 1 ≤ i ≤ power_largest s → size_of s i < sz)) ∨
    (1 ≤ r ≤ power_largest s ∧ sz ≤ size_of s r ∧ ∀ i, 1 ≤ i < r → size_of s i < sz))) as Hgen.
  { intros fuel. induction fuel as [|f IH]; intros res Hr Hf Hlow;
      (destruct (lookup_lt_is_Some_2 (slabclass s) (Z.to_nat res)) as [c Hc]; [lia|]);
      assert (size_of s res = size c) as Hs by (unfold size_of; by rewrite Hc);
      cbn [clsid_loop]; unfold deref; rewrite Hc; unfold mbind, result_bind;
      (destruct (Z.ltb_spec (size c) sz) as [Hlt|Hge]; [|exists res; split; [done|]; right; split_and!; [lia|lia|lia|done]]);
      destruct (Z.eqb_spec res (power_largest s)) as [->|Hne].
    - exists 0. split; [done|]. left. split; [done|]. intros i Hi. destruct (decide (i = power_largest s)) as [->|]; [lia|apply Hlow; lia].
    - lia.
    - exists 0. split; [done|]. left. split; [done|]. intros i Hi. destruct (decide (i = power_largest s)) as [->|]; [lia|apply Hlow; lia].
    - apply IH; [lia|lia|]. intros i Hi. destruct (decide (i = res)) as [->|]; [lia|apply Hlow; lia]. }
  apply Hgen; unfold POWER_SMALLEST; [lia|lia|]. intros; lia.
Qed.

(** In a preallocated pool, an allocation whose size is not a multiple of the alignment
    adds the remainder instead of what is missing: with 8-byte alignment the pool pointer stays
    aligned exactly when the size leaves a remainder of 0 or 4. *)
Theorem pool_alignment_lost malloc s sz :
  mem_base s ≠ 0 → mem_current s mod 8 = 0 → 0 ≤ sz ≤ mem_avail s → mem_avail s < 2 ^ 63 →
  ∃ s', memory_allocate 8 malloc sz s = Ok (mem_current s, s') ∧
    (mem_current s' mod 8 = 0 ↔ sz mod 8 = 0 ∨ sz mod 8 = 4).
Proof.
  intros Hb Hc Hsz Hav. unfold memory_allocate. rewrite bind_get. rewrite (proj2 (Z.eqb_neq _ _)) by done.
  rewrite (proj2 (Z.ltb_ge _ _)) by lia. eexists. split; [reflexivity|]. cbn [mem_current set_pool].
  pose proof (Z.mod_pos_bound sz 8 ltac:(lia)). destruct (Z.eqb_spec (sz mod 8) 0) as [E|E]; cbn [negb].
  - rewrite Z.add_mod, Hc, E by lia. split; [by left|done].
  - rewrite wrapu_small by lia. rewrite (Z.add_mod (mem_current s)), (Z.add_mod sz) by lia. rewrite Hc, Z.add_0_l, !Z.mod_mod by lia.
    assert (sz mod 8 = 1 ∨ sz mod 8 = 2 ∨ sz mod 8 = 3 ∨ sz mod 8 = 4 ∨ sz mod 8 = 5 ∨ sz mod 8 = 6 ∨ sz mod 8 = 7) as Hcases by lia.
    destruct Hcases as [-> | [-> | [-> | [-> | [-> | [-> | ->]]]]]]; vm_compute; intuition congruence.
Qed.

(** ** Witnesses *)

(** [malloc] hands out memory above everything in use. *)
Definition bump (s : st) (n : Z) : Z := foldr (λ pg a, Z.max (pg.1 + pg.2) a) 4096 (pages s).

Lemma bump_fresh s n : bump s n ≠ 0 → 0 < bump s n ∧ ∀ pg, pg ∈ pages s → apart (bump s n) n pg.1 pg.2.
Proof.
  intros _. unfold bump. assert (∀ l, 0 < foldr (λ pg a, Z.max (pg.1 + pg.2) a) 4096 l ∧
    ∀ pg : Z * Z, pg ∈ l → pg.1 + pg.2 ≤ foldr (λ pg a, Z.max (pg.1 + pg.2) a) 4096 l) as H.
  { induction l as [|pg l [IH1 IH2]]; simpl; [split; [lia|set_solver]|]. split; [lia|].
    intros q [->|Hq]%elem_of_cons; [lia|]. specialize (IH2 q Hq). lia. }
  destruct (H (pages s)) as [H1 H2]. split; [done|]. intros pg Hpg. right. by apply H2.
Qed.

(** Two classes, of 32 byte chunks, two a page, and of 64 byte chunks. *)
Definition set64 := mkSettings 32 64 false.
Definition slab0 : st :=
  mkSt ∅ [] [zero_class; with_size zero_class 32 2; with_size zero_class 64 1] 2 0 0 0 0 0.

Lemma slab0_inv : reach_inv set64 2 0 slab0 ∅.
Proof.
  split; [|repeat constructor; simpl; lia]. exists ∅. split; [|split; [done|by rewrite map_size_empty]].
  split; try done; simpl; unfold POWER_SMALLEST.
  intros id Hid. change (1 ≤ id ≤ 2) in Hid. assert (id = 1 ∨ id = 2) as [-> | ->] by lia; eexists _, []; (split; [reflexivity|]);
    (split; [split; simpl; lia || done|]); split_and!; try done; try (by constructor); try (intros a; set_solver).
Qed.

Definition slab_alloc := do_slabs_alloc set64 1 8 bump (λ _ _, true).
Definition slab_state (n : nat) : st :=
  Nat.iter n (λ s, match slab_alloc 20 1 s with Ok (_, s') => s' | Err _ => s end) slab0.

Lemma slab_clients_apart_witness :
  nsteps (step set64 1 8 bump (λ _ _, true)) 2 (slab0, ∅) (slab_state 2, <[4096 := 1]> (<[4128 := 1]> ∅)) ∧
  apart 4096 (size_of (slab_state 2) 1) 4128 (size_of (slab_state 2) 1).
Proof.
  assert (nsteps (step set64 1 8 bump (λ _ _, true)) 2 (slab0, ∅) (slab_state 2, <[4096 := 1]> (<[4128 := 1]> ∅))) as Hn.
  { eapply nsteps_l; [apply (step_alloc set64 1 8 bump (λ _ _, true) slab0 ∅ 20 1 4128 (slab_state 1)); [vm_compute; split; discriminate|vm_compute; reflexivity]|].
    eapply nsteps_l; [apply (step_alloc set64 1 8 bump (λ _ _, true) (slab_state 1) _ 20 1 4096 (slab_state 2)); [vm_compute; split; discriminate|vm_compute; reflexivity]|].
    apply nsteps_O. }
  split; [exact Hn|].
  destruct (slab_clients_apart set64 1 8 bump (λ _ _, true) bump_fresh ltac:(lia) 2 2 slab0 (slab_state 2) _ slab0_inv Hn ltac:(lia) ltac:(lia)) as [H _].
  apply (H 4096 4128 1 1); [by rewrite lookup_insert_eq|rewrite lookup_insert_ne by done; by rewrite lookup_insert_eq|done].
Defined.

Lemma slabs_init_one_class_witness :
  ∃ s', slabs_init set64 48 1 8 200 201 bump (λ _ _, true) (λ _, true) (λ z, z * 5 / 4) 0 false None slab0 = Ok (tt, s') ∧ slabs_clsid s' 10 = Ok 1.
Proof.
  destruct (slabs_init_one_class set64 48 1 8 200 201 bump (λ _ _, true) (λ _, true) (λ z, z * 5 / 4) slab0 0 ltac:(lia) ltac:(done)) as (s' & H & _ & _ & _ & Hc).
  exists s'. split; [exact H|]. apply (Hc 10). lia.
Defined.

Lemma slabs_clsid_first_witness : ∃ r, slabs_clsid slab0 40 = Ok r ∧ (r = 0 ∨ 40 ≤ size_of slab0 r).
Proof.
  destruct (slabs_clsid_first slab0 40 ltac:(done) ltac:(vm_compute; lia)) as (r & H1 & H2). exists r. split; [exact H1|].
  destruct H2 as [[-> _]|(_ & H2 & _)]; [by left|by right].
Defined.

Lemma pool_alignment_lost_witness :
  ∃ s', memory_allocate 8 bump 10 (set_pool slab0 4096 4096 1000) = Ok (4096, s') ∧ mem_current s' mod 8 ≠ 0.
Proof.
  destruct (pool_alignment_lost bump (set_pool slab0 4096 4096 1000) 10) as (s' & H1 & H2); [done|done|simpl; lia|simpl; lia|].
  exists s'. split; [exact H1|]. intros H. apply H2 in H. vm_compute in H. destruct H; discriminate.
Defined.

End McSlabProps.
