(* ===== verification/NgxSlab.v ===== *)
(** The nginx slab pool [memcached_slab/ngx_slab.c]: whole pages from a list of free runs, and
    chunks of one size per page, counted in a bitmap that is in the page (small chunks), in the
    page's descriptor (exactly as many chunks as bits in a word) or in half of it (big chunks).

    The 64-bit branch of the constants is modelled.  The file does not compile as it stands:
    [&pages[pages]] in [ngx_slab_alloc_pages] is read as [&page[pages]], [bitmap[n[)] as
    [bitmap[n])], and [page->free.next] in [ngx_slab_free_pages] as [pool->free.next].  What
    compiles is kept: the precedence of [page->slab & NGX_SLAB_MAP_MASK == mask], the index [m]
    in [bitmap[m]], and the address of the slots, which [ngx_slab_alloc_locked] computes with
    [sizeof(ngx_slab_page_t)] and the other functions with [sizeof(ngx_slab_pool_t)]; it is an
    argument of the allocator here.  The page types and [ngx_pagesize], which the file does not
    define, are parameters; [ngx_slab_junk] is empty without debugging. *)

From S2P Require Import Prelude.
From stdpp Require Import options.

Module NgxSlab.

(** ** Constants *)

Definition NGX_SLAB_PAGE_MASK := 3.
Definition NGX_SLAB_PAGE_START := 0x8000000000000000.
Definition NGX_SLAB_PAGE_BUSY := 0xffffffffffffffff.
Definition NGX_SLAB_BUSY := 0xffffffffffffffff.
Definition NGX_SLAB_SHIFT_MASK := 0xf.
Definition NGX_SLAB_MAP_SHIFT := 32.
Definition NGX_SLAB_MAP_MASK := 0xffffffff00000000.

(** [sizeof(ngx_slab_page_t)] and [sizeof(uintptr_t)]. *)
Definition sizeof_page := 24.
Definition sizeof_word := 8.

(** Where the pool is, the size of its header and the offset of [free] in it; the kinds of a
    page; the page size. *)
Record consts := mkConsts {
  pool : Z;
  sizeof_pool : Z;
  free_off : Z;
  NGX_SLAB_PAGE : Z;
  NGX_SLAB_BIG : Z;
  NGX_SLAB_EXACT : Z;
  NGX_SLAB_SMALL : Z;
  NGX_SLAB_PAGE_FREE : Z;
  ngx_pagesize : Z;
  ngx_pagesize_shift : Z;
}.

(** ** State *)

Record ngx_slab_page_t := mkPage { slab : Z; next : Z; prev : Z }.

(** Descriptors (the list head [pool->free], the slots and the pages) and the words of the
    pages' memory by address; the fields of the pool; the allocator's globals. *)
Record st := mkSt {
  descs : gmap Z ngx_slab_page_t;
  words : gmap Z Z;
  min_size : Z;
  min_shift : Z;
  pages : Z;
  start : Z;
  end_ : Z;
  ngx_slab_max_size : Z;
  ngx_slab_exact_size : Z;
  ngx_slab_exact_shift : Z;
}.

Abbreviation MN := (M st).

Definition set_descs s d := mkSt d (words s) (min_size s) (min_shift s) (pages s) (start s) (end_ s) (ngx_slab_max_size s) (ngx_slab_exact_size s) (ngx_slab_exact_shift s).
Definition set_words s w := mkSt (descs s) w (min_size s) (min_shift s) (pages s) (start s) (end_ s) (ngx_slab_max_size s) (ngx_slab_exact_size s) (ngx_slab_exact_shift s).

Definition get_page (a : Z) : MN ngx_slab_page_t := s ← get; lift (deref (descs s !! a)).
Definition put_page (a : Z) (p : ngx_slab_page_t) : MN unit :=
  _ ← get_page a; modify (λ s, set_descs s (<[a := p]> (descs s))).
Definition put_slab (a v : Z) : MN unit := p ← get_page a; put_page a (mkPage v (next p) (prev p)).
Definition put_next (a v : Z) : MN unit := p ← get_page a; put_page a (mkPage (slab p) v (prev p)).
Definition put_prev (a v : Z) : MN unit := p ← get_page a; put_page a (mkPage (slab p) (next p) v).
Definition get_word (a : Z) : MN Z := s ← get; lift (deref (words s !! a)).
Definition put_word (a v : Z) : MN unit := _ ← get_word a; modify (λ s, set_words s (<[a := v]> (words s))).

Section ngx.
Context (C : consts).

Definition free_at : Z := pool C + free_off C.

(** [page[k]] *)
Definition page_at (page k : Z) : Z := page + sizeof_page * k.

(** [((page-pool->pages) << ngx_pagesize_shift) + pool->start]. *)
Definition page_addr s (page : Z) : Z :=
  u64 (start s + u64 (Z.shiftl ((page - pages s) / sizeof_page) (ngx_pagesize_shift C))).

(** ** Runs of pages *)

(** [for(p=page+1; pages; pages--)]. *)
Fixpoint mark_busy (n : nat) (p : Z) : MN unit :=
  match n with
  | O => mret tt
  | S n => put_page p (mkPage NGX_SLAB_PAGE_BUSY 0 (NGX_SLAB_PAGE C));; mark_busy n (p + sizeof_page)
  end.

(** [npages] pages are taken from the front of the run at [page], whose descriptor is [d]. *)
Definition take_run (page npages : Z) (d : ngx_slab_page_t) : MN Z :=
  (if npages <? slab d then
     put_page (page_at page npages) (mkPage (u64 (slab d - npages)) (next d) (prev d));;
     put_next (prev d) (page_at page npages);;
     put_prev (next d) (page_at page npages)
   else
     put_next (prev d) (next d);;
     put_prev (next d) (prev d));;
  put_page page (mkPage (Z.lor npages NGX_SLAB_PAGE_START) 0 (NGX_SLAB_PAGE C));;
  mark_busy (Z.to_nat (u64 (npages - 1))) (page_at page 1);;
  mret page.

(** [for(page=pool->free.next; page!=&pool->free; page=page->next)]. *)
Fixpoint alloc_pages_loop (fuel : nat) (page npages : Z) : MN Z :=
  if page =? free_at then mret 0 else
  d ← get_page page;
  if npages <=? slab d then take_run page npages d else
  match fuel with O => fail FFuel | S fuel => alloc_pages_loop fuel (next d) npages end.

Definition ngx_slab_alloc_pages (npages : Z) : MN Z :=
  f ← get_page free_at;
  s ← get;
  alloc_pages_loop (size (descs s)) (next f) npages.

(** [ngx_memzero(&page[1], pages*sizeof(ngx_slab_page_t))]. *)
Fixpoint zero_pages (n : nat) (p : Z) : MN unit :=
  match n with
  | O => mret tt
  | S n => put_page p (mkPage 0 0 0);; zero_pages n (p + sizeof_page)
  end.

(** [prev=(page->prev & ~NGX_SLAB_PAGE_MASK); prev->next=page->next; page->next->prev=page->prev]. *)
Definition unlink (page : Z) : MN unit :=
  d ← get_page page;
  put_next (Z.land (prev d) (Z.lnot NGX_SLAB_PAGE_MASK)) (next d);;
  d ← get_page page;
  put_prev (next d) (prev d).

Definition ngx_slab_free_pages (page npages : Z) : MN unit :=
  put_slab page npages;;
  zero_pages (Z.to_nat (u64 (npages - 1))) (page_at page 1);;
  d ← get_page page;
  (if negb (next d =? 0) then unlink page else mret tt);;
  put_prev page free_at;;
  f ← get_page free_at;
  put_next page (next f);;
  d ← get_page page;
  put_prev (next d) page;;
  put_next free_at page.

(** ** Chunks of a page *)

(** [for(m=1, i=0; m; m<<=1, i++) if(w & m) continue; ...]: the first [i] whose bit is clear. *)
Fixpoint clear_bit (fuel : nat) (w i : Z) : option Z :=
  match fuel with
  | O => None
  | S fuel => if Z.testbit w i then clear_bit fuel w (i + 1) else Some i
  end.

(** The same with [m & mask] as the condition and bits from [NGX_SLAB_MAP_SHIFT] on. *)
Fixpoint clear_bit_in (fuel : nat) (mask w i : Z) : option Z :=
  match fuel with
  | O => None
  | S fuel =>
      if Z.testbit mask (NGX_SLAB_MAP_SHIFT + i) then
        if Z.testbit w (NGX_SLAB_MAP_SHIFT + i) then clear_bit_in fuel mask w (i + 1) else Some i
      else None
  end.

Definition set_bit (w i : Z) : Z := Z.lor w (Z.shiftl 1 i).

(** The page leaves its list; [kind] is what a full page has in [prev]. *)
Definition page_full (page kind : Z) : MN unit :=
  unlink page;;
  put_next page 0;;
  put_prev page kind.

(** [map]: the words of a small page's bitmap. *)
Definition map_words (shift : Z) : Z := Z.shiftl 1 (ngx_pagesize_shift C - shift) / (sizeof_word * 8).
(** The chunks that the bitmap itself takes. *)
Definition map_chunks (shift : Z) : Z :=
  let n := Z.shiftl 1 (ngx_pagesize_shift C - shift) / 8 / Z.shiftl 1 shift in if n =? 0 then 1 else n.

(** [for(n=n+1; n<map; n++) if(bitmap[m] != NGX_SLAB_BUSY)]: whether it left with [goto done]. *)
Fixpoint rest_busy (k : nat) (bitmap m : Z) : MN bool :=
  match k with
  | O => mret false
  | S k => w ← get_word (bitmap + sizeof_word * m); if negb (w =? NGX_SLAB_BUSY) then mret true else rest_busy k bitmap m
  end.

(** [for(n=0; n<map; n++)] on a small page: the chunk's address. *)
Fixpoint small_words (k : nat) (page bitmap shift n map : Z) : MN (option Z) :=
  match k with
  | O => mret None
  | S k =>
      w ← get_word (bitmap + sizeof_word * n);
      if w =? NGX_SLAB_BUSY then small_words k page bitmap shift (n + 1) map else
      match clear_bit 64 w 0 with
      | None => small_words k page bitmap shift (n + 1) map
      | Some i =>
          put_word (bitmap + sizeof_word * n) (set_bit w i);;
          let off := u64 (Z.shiftl (n * sizeof_word * 8) shift + Z.shiftl i shift) in
          (if set_bit w i =? NGX_SLAB_BUSY then
             r ← rest_busy (Z.to_nat (map - (n + 1))) bitmap (Z.shiftl 1 i);
             if (r : bool) then mret tt else page_full page (NGX_SLAB_SMALL C)
           else mret tt);;
          mret (Some (u64 (bitmap + off)))
      end
  end.

Definition try_small (page shift : Z) : MN (option Z) :=
  s ← get;
  let map := map_words shift in
  small_words (Z.to_nat map) page (page_addr s page) shift 0 map.

Definition try_exact (page shift : Z) : MN (option Z) :=
  d ← get_page page;
  if slab d =? NGX_SLAB_BUSY then mret None else
  match clear_bit 64 (slab d) 0 with
  | None => mret None
  | Some i =>
      put_slab page (set_bit (slab d) i);;
      (if set_bit (slab d) i =? NGX_SLAB_BUSY then page_full page (NGX_SLAB_EXACT C) else mret tt);;
      s ← get;
      mret (Some (u64 (page_addr s page + Z.shiftl i shift)))
  end.

(** [mask], from the first page of the list. *)
Definition big_mask (slab0 : Z) : Z :=
  let n := u64 (ngx_pagesize_shift C - Z.land slab0 NGX_SLAB_SHIFT_MASK) in
  let n := Z.shiftl 1 n in
  let n := u64 (Z.shiftl 1 n - 1) in
  u64 (Z.shiftl n NGX_SLAB_MAP_SHIFT).

(** [page->slab & NGX_SLAB_MAP_MASK == mask] is [page->slab & (NGX_SLAB_MAP_MASK == mask)]. *)
Definition looks_full (slab mask : Z) : bool :=
  negb (Z.land slab (if NGX_SLAB_MAP_MASK =? mask then 1 else 0) =? 0).

Definition try_big (mask page shift : Z) : MN (option Z) :=
  d ← get_page page;
  if Z.land (slab d) NGX_SLAB_MAP_MASK =? mask then mret None else
  match clear_bit_in 64 mask (slab d) 0 with
  | None => mret None
  | Some i =>
      let w := set_bit (slab d) (NGX_SLAB_MAP_SHIFT + i) in
      put_slab page w;;
      (if looks_full w mask then page_full page (NGX_SLAB_BIG C) else mret tt);;
      s ← get;
      mret (Some (u64 (page_addr s page + Z.shiftl i shift)))
  end.

(** [do { ... page=page->next; } while(page)]. *)
Fixpoint scan_pages (fuel : nat) (try_page : Z → MN (option Z)) (page : Z) : MN (option Z) :=
  r ← try_page page;
  match r with
  | Some p => mret (Some p)
  | None =>
      d ← get_page page;
      if next d =? 0 then mret None else
      match fuel with O => fail FFuel | S fuel => scan_pages fuel try_page (next d) end
  end.

(** ** Allocation *)

(** [shift=1; for(s=size-1; s>>=1; shift++) {}]. *)
Fixpoint shift_loop (fuel : nat) (s shift : Z) : Z :=
  match fuel with
  | O => shift
  | S fuel => let s := Z.shiftr s 1 in if s =? 0 then shift else shift_loop fuel s (shift + 1)
  end.

(** The chunk's size as a shift. *)
Definition chunk_shift s (size : Z) : Z :=
  if min_size s <? size then shift_loop 64 (size - 1) 1 else min_shift s.

(** [for(i=1; i<map; i++) bitmap[i]=0]. *)
Fixpoint clear_words (k : nat) (a : Z) : MN unit :=
  match k with
  | O => mret tt
  | S k => put_word a 0;; clear_words k (a + sizeof_word)
  end.

(** A new page for chunks of a size, put at the head of its slot's list. *)
Definition new_page (slot shift : Z) : MN Z :=
  page ← ngx_slab_alloc_pages 1;
  if page =? 0 then mret 0 else
  s ← get;
  let base := page_addr s page in
  if shift <? ngx_slab_exact_shift s then
    let sz := Z.shiftl 1 shift in
    let n := map_chunks shift in
    put_word base (Z.shiftl 2 n - 1);;
    clear_words (Z.to_nat (map_words shift - 1)) (base + sizeof_word);;
    put_page page (mkPage shift slot (Z.lor slot (NGX_SLAB_SMALL C)));;
    put_next slot page;;
    mret (u64 (base + sz * n))
  else if shift =? ngx_slab_exact_shift s then
    put_page page (mkPage 1 slot (Z.lor slot (NGX_SLAB_EXACT C)));;
    put_next slot page;;
    mret base
  else
    put_page page (mkPage (Z.lor (Z.shiftl 1 NGX_SLAB_MAP_SHIFT) shift) slot (Z.lor slot (NGX_SLAB_BIG C)));;
    put_next slot page;;
    mret base.

(** The search of a slot's pages, by kind of chunk. *)
Definition search_slot (page shift : Z) : MN (option Z) :=
  s ← get;
  d ← get_page page;
  let fuel := size (descs s) in
  if shift <? ngx_slab_exact_shift s then scan_pages fuel (λ page, try_small page shift) page
  else if shift =? ngx_slab_exact_shift s then scan_pages fuel (λ page, try_exact page shift) page
  else scan_pages fuel (λ page, try_big (big_mask (slab d)) page shift) page.

(** [slots] is the address the function computes for the array of list heads. *)
Definition ngx_slab_alloc_locked (slots size : Z) : MN Z :=
  s ← get;
  if ngx_slab_max_size s <=? size then
    page ← ngx_slab_alloc_pages (Z.shiftr (u64 (size + ngx_pagesize C - 1)) (ngx_pagesize_shift C));
    s ← get;
    mret (if negb (page =? 0) then page_addr s page else 0)
  else
    let shift := chunk_shift s size in
    let slot := page_at slots (if min_size s <? size then shift - min_shift s else 0) in
    h ← get_page slot;
    d ← get_page (next h);
    r ← (if negb (next d =? next h) then search_slot (next h) shift else mret None);
    match r with
    | Some p => mret p
    | None => new_page slot shift
    end.

(** As [ngx_slab_alloc_locked] computes it, and as the other functions do. *)
Definition slots_in_alloc : Z := pool C + sizeof_page.
Definition slots_at : Z := pool C + sizeof_pool C.

(** ** Freeing *)

(** A full page goes back to the head of its slot's list. *)
Definition relist (page slot kind : Z) : MN unit :=
  h ← get_page slot;
  put_next page (next h);;
  put_next slot page;;
  put_prev page (Z.lor slot kind);;
  d ← get_page page;
  put_prev (next d) (Z.lor page kind).

(** [for(n=1; n<map; n++) if(bitmap[n]) goto done]: whether a word is not zero. *)
Fixpoint any_word (k : nat) (a : Z) : MN bool :=
  match k with
  | O => mret false
  | S k => w ← get_word a; if negb (w =? 0) then mret true else any_word k (a + sizeof_word)
  end.

Definition free_small (page p : Z) : MN unit :=
  d ← get_page page;
  let shift := Z.land (slab d) NGX_SLAB_SHIFT_MASK in
  if negb (Z.land p (Z.shiftl 1 shift - 1) =? 0) then mret tt else
  let n := Z.shiftr (Z.land p (ngx_pagesize C - 1)) shift in
  let bit := Z.land n (sizeof_word * 8 - 1) in
  let n := n / (sizeof_word * 8) in
  let bitmap := Z.land p (Z.lnot (ngx_pagesize C - 1)) in
  w ← get_word (bitmap + sizeof_word * n);
  if negb (Z.testbit w bit) then mret tt else
  s ← get;
  (if next d =? 0 then relist page (page_at slots_at (shift - min_shift s)) (NGX_SLAB_SMALL C) else mret tt);;
  put_word (bitmap + sizeof_word * n) (Z.land w (Z.lnot (Z.shiftl 1 bit)));;
  w0 ← get_word bitmap;
  if negb (Z.land w0 (Z.lnot (Z.shiftl 1 (map_chunks shift) - 1)) =? 0) then mret tt else
  r ← any_word (Z.to_nat (map_words shift - 1)) (bitmap + sizeof_word);
  if (r : bool) then mret tt else ngx_slab_free_pages page 1.

Definition free_exact (page p : Z) : MN unit :=
  d ← get_page page;
  s ← get;
  let bit := Z.shiftr (Z.land p (ngx_pagesize C - 1)) (ngx_slab_exact_shift s) in
  if negb (Z.land p (ngx_slab_exact_size s - 1) =? 0) then mret tt else
  if negb (Z.testbit (slab d) bit) then mret tt else
  (if slab d =? NGX_SLAB_BUSY then
     relist page (page_at slots_at (ngx_slab_exact_shift s - min_shift s)) (NGX_SLAB_EXACT C) else mret tt);;
  put_slab page (Z.land (slab d) (Z.lnot (Z.shiftl 1 bit)));;
  if negb (Z.land (slab d) (Z.lnot (Z.shiftl 1 bit)) =? 0) then mret tt else ngx_slab_free_pages page 1.

Definition free_big (page p : Z) : MN unit :=
  d ← get_page page;
  let shift := Z.land (slab d) NGX_SLAB_SHIFT_MASK in
  if negb (Z.land p (Z.shiftl 1 shift - 1) =? 0) then mret tt else
  let bit := Z.shiftr (Z.land p (ngx_pagesize C - 1)) shift + NGX_SLAB_MAP_SHIFT in
  if negb (Z.testbit (slab d) bit) then mret tt else
  s ← get;
  (if next d =? 0 then relist page (page_at slots_at (shift - min_shift s)) (NGX_SLAB_BIG C) else mret tt);;
  put_slab page (Z.land (slab d) (Z.lnot (Z.shiftl 1 bit)));;
  if negb (Z.land (Z.land (slab d) (Z.lnot (Z.shiftl 1 bit))) NGX_SLAB_MAP_MASK =? 0) then mret tt else ngx_slab_free_pages page 1.

Definition free_page (page p : Z) : MN unit :=
  d ← get_page page;
  if negb (Z.land p (ngx_pagesize C - 1) =? 0) then mret tt else
  if slab d =? NGX_SLAB_PAGE_FREE C then mret tt else
  if slab d =? NGX_SLAB_PAGE_BUSY then mret tt else
  ngx_slab_free_pages page (Z.land (slab d) (Z.lnot NGX_SLAB_PAGE_START)).

Definition ngx_slab_free_locked (p : Z) : MN unit :=
  s ← get;
  if (p <? start s) || (end_ s <? p) then mret tt else
  let page := page_at (pages s) (Z.shiftr (p - start s) (ngx_pagesize_shift C)) in
  d ← get_page page;
  let type := Z.land (prev d) NGX_SLAB_PAGE_MASK in
  if type =? NGX_SLAB_SMALL C then free_small page p else
  if type =? NGX_SLAB_EXACT C then free_exact page p else
  if type =? NGX_SLAB_BIG C then free_big page p else
  if type =? NGX_SLAB_PAGE C then free_page page p else mret tt.

(** ** Initialisation *)

Definition ngx_align_ptr (p a : Z) : Z := Z.land (u64 (p + (a - 1))) (u64 (Z.lnot (a - 1))).

(** [n] descriptors at [p]. *)
Fixpoint descriptors (n : nat) (p : Z) (f : Z → ngx_slab_page_t) : gmap Z ngx_slab_page_t :=
  match n with
  | O => ∅
  | S n => <[p := f p]> (descriptors n (p + sizeof_page) f)
  end.

(** [for(n=ngx_slab_exact_size; n>>=1; ngx_slab_exact_shift++) {}] is the same loop as the
    allocator's, from the current value of [ngx_slab_exact_shift]. *)
Definition init_globals s : st :=
  if ngx_slab_max_size s =? 0 then
    mkSt (descs s) (words s) (min_size s) (min_shift s) (pages s) (start s) (end_ s)
      (ngx_pagesize C / 2) (ngx_pagesize C / (8 * sizeof_word))
      (shift_loop 64 (ngx_pagesize C / (8 * sizeof_word)) (ngx_slab_exact_shift s))
  else s.

Definition ngx_slab_init : MN unit :=
  modify init_globals;;
  s ← get;
  let p := pool C + sizeof_pool C in
  let size := end_ s - p in
  let n := ngx_pagesize_shift C - min_shift s in
  let slots := descriptors (Z.to_nat n) p (λ a, mkPage 0 a 0) in
  let p := p + n * sizeof_page in
  let npages := size / (ngx_pagesize C + sizeof_page) in
  let pgs := descriptors (Z.to_nat npages) p (λ _, mkPage 0 0 0) in
  let start := ngx_align_ptr (p + npages * sizeof_page) (ngx_pagesize C) in
  let m := npages - (end_ s - start) / ngx_pagesize C in
  let npages' := if 0 <? m then npages - m else npages in
  _ ← lift (deref (pgs !! p));
  f ← get_page free_at;
  modify (λ s, mkSt (<[free_at := mkPage (slab f) p 0]> (<[p := mkPage npages' free_at free_at]> (pgs ∪ slots ∪ descs s)))
    (words s) (Z.shiftl 1 (min_shift s)) (min_shift s) p start (end_ s)
    (ngx_slab_max_size s) (ngx_slab_exact_size s) (ngx_slab_exact_shift s)).

End ngx.
End NgxSlab.
