(* ===== verification/NgxSlabFacts.v ===== *)
(** Facts about the nginx slab pool: the circular list of free runs, the descriptors of the
    runs, and what the page allocator and the page release do to them. *)

From S2P Require Import Prelude NgxSlab.
From stdpp Require Import options.

Module NgxSlabFacts.
Import NgxSlab.

(** ** Stores as functions on the descriptors *)

Definition with_next (v : Z) (p : ngx_slab_page_t) := mkPage (slab p) v (prev p).
Definition with_prev (v : Z) (p : ngx_slab_page_t) := mkPage (slab p) (next p) v.
Definition with_slab (v : Z) (p : ngx_slab_page_t) := mkPage v (next p) (prev p).

Abbreviation dmap := (gmap Z ngx_slab_page_t).

Lemma ngx_get_run s a p : descs s !! a = Some p → get_page a s = Ok (p, s).
Proof. intros H. unfold get_page. rewrite bind_get. unfold lift, deref. by rewrite H. Qed.

Lemma set_descs_id s : set_descs s (descs s) = s.
Proof. by destruct s. Qed.

Lemma ngx_put_run s a p q : descs s !! a = Some p → put_page a q s = Ok (tt, set_descs s (<[a := q]> (descs s))).
Proof. intros H. unfold put_page. by mstep (ngx_get_run _ _ _ H). Qed.

Lemma insert_alter (d : dmap) a p f : d !! a = Some p → <[a := f p]> d = alter f a d.
Proof.
  intros H. apply map_eq. intros b. destruct (decide (b = a)) as [->|].
  - by rewrite lookup_insert_eq, lookup_alter_eq, H.
  - by rewrite lookup_insert_ne, lookup_alter_ne by done.
Qed.

Lemma ngx_put_next_run s a v : is_Some (descs s !! a) → put_next a v s = Ok (tt, set_descs s (alter (with_next v) a (descs s))).
Proof. intros [p H]. unfold put_next. mstep (ngx_get_run _ _ _ H). rewrite (ngx_put_run _ _ _ _ H). by rewrite <-(insert_alter _ _ _ _ H). Qed.

Lemma ngx_put_prev_run s a v : is_Some (descs s !! a) → put_prev a v s = Ok (tt, set_descs s (alter (with_prev v) a (descs s))).
Proof. intros [p H]. unfold put_prev. mstep (ngx_get_run _ _ _ H). rewrite (ngx_put_run _ _ _ _ H). by rewrite <-(insert_alter _ _ _ _ H). Qed.

Lemma ngx_put_slab_run s a v : is_Some (descs s !! a) → put_slab a v s = Ok (tt, set_descs s (alter (with_slab v) a (descs s))).
Proof. intros [p H]. unfold put_slab. mstep (ngx_get_run _ _ _ H). rewrite (ngx_put_run _ _ _ _ H). by rewrite <-(insert_alter _ _ _ _ H). Qed.

Lemma alter_some (d : dmap) f a b : is_Some (d !! b) → is_Some (alter f a d !! b).
Proof. intros [p H]. destruct (decide (b = a)) as [->|]; [rewrite lookup_alter_eq, H; eauto|rewrite lookup_alter_ne by done; eauto]. Qed.
#[local] Hint Resolve alter_some : core.

(** The loops that mark or clear consecutive descriptors. *)
Fixpoint fill (n : nat) (p : Z) (v : ngx_slab_page_t) (d : dmap) : dmap :=
  match n with
  | O => d
  | S n => fill n (p + sizeof_page) v (<[p := v]> d)
  end.

Lemma lookup_fill_in n p v d k : 0 ≤ k < Z.of_nat n → fill n p v d !! (p + sizeof_page * k) = Some v.
Proof.
  revert p d k. induction n as [|n IH]; intros p d k Hk; [lia|]. simpl. destruct (decide (k = 0)) as [->|].
  - replace (p + sizeof_page * 0) with p by (unfold sizeof_page; lia). clear IH Hk.
    assert (∀ m q (d : dmap), p < q → d !! p = Some v → fill m q v d !! p = Some v) as Hgen.
    { induction m as [|m IHm]; intros q d' Hq Hd; [done|]. simpl. apply IHm; [unfold sizeof_page; lia|].
      by rewrite lookup_insert_ne by lia. }
    apply Hgen; [unfold sizeof_page; lia|]. by rewrite lookup_insert_eq.
  - replace (p + sizeof_page * k) with (p + sizeof_page + sizeof_page * (k - 1)) by lia. apply IH. lia.
Qed.

Lemma lookup_fill_out n p v d a : (∀ k, 0 ≤ k < Z.of_nat n → a ≠ p + sizeof_page * k) → fill n p v d !! a = d !! a.
Proof.
  revert p d. induction n as [|n IH]; intros p d H; [done|]. simpl. rewrite IH.
  - rewrite lookup_insert_ne; [done|]. intros E. apply (H 0); [lia|]. unfold sizeof_page. lia.
  - intros k Hk E. apply (H (k + 1)); [lia|]. rewrite E. unfold sizeof_page. lia.
Qed.

Lemma fill_run (go : nat → Z → MN unit) v :
  (∀ p s, go O p s = Ok (tt, s)) → (∀ n p, go (S n) p = (put_page p v;; go n (p + sizeof_page))) →
  ∀ n p s, (∀ k, 0 ≤ k < Z.of_nat n → is_Some (descs s !! (p + sizeof_page * k))) →
  go n p s = Ok (tt, set_descs s (fill n p v (descs s))).
Proof.
  intros H0 HS n. induction n as [|n IH]; intros p s Hd.
  - rewrite H0. simpl. by rewrite set_descs_id.
  - rewrite HS. destruct (Hd 0) as [q Hq]; [lia|]. rewrite Z.mul_0_r, Z.add_0_r in Hq. mstep (ngx_put_run _ _ _ v Hq).
    rewrite IH; [done|]. intros k Hk. simpl. destruct (decide (p + sizeof_page + sizeof_page * k = p)) as [->|]; [rewrite lookup_insert_eq; eauto|].
    rewrite lookup_insert_ne by done. replace (p + sizeof_page + sizeof_page * k) with (p + sizeof_page * (k + 1)) by lia. apply Hd. lia.
Qed.

(** ** Lists of runs *)

Definition hda (q : Z) (l : list (Z * Z)) : Z := match l with [] => q | (a, _) :: _ => a end.
Definition lasta (p : Z) (l : list (Z * Z)) : Z := match last l with None => p | Some x => x.1 end.

(** The descriptors of [l], each with the number of pages of its run, linked between [p] and [q]. *)
Fixpoint seg (d : dmap) (p : Z) (l : list (Z * Z)) (q : Z) : Prop :=
  match l with
  | [] => True
  | (a, n) :: l => d !! a = Some (mkPage n (hda q l) p) ∧ seg d a l q
  end.

Lemma hda_app q l1 l2 : hda q (l1 ++ l2) = hda (hda q l2) l1.
Proof. by destruct l1 as [|[]]. Qed.
Lemma lasta_snoc p l x : lasta p (l ++ [x]) = x.1.
Proof. unfold lasta. by rewrite last_snoc. Qed.
Lemma lasta_cons p x l : lasta p (x :: l) = lasta x.1 l.
Proof. unfold lasta. rewrite last_cons. by destruct (last l). Qed.
Lemma lasta_app p l1 l2 : lasta p (l1 ++ l2) = lasta (lasta p l1) l2.
Proof. revert p. induction l1 as [|x l1 IH]; intros p; [done|]. simpl. by rewrite !lasta_cons, IH. Qed.

Lemma lasta_in p l : lasta p l = p ∨ lasta p l ∈ l.*1.
Proof.
  unfold lasta. destruct (last l) as [x|] eqn:E; [right|by left]. apply list_elem_of_fmap. exists x. split; [done|]. by apply last_Some_elem_of.
Qed.
Lemma hda_in q l : hda q l = q ∨ hda q l ∈ l.*1.
Proof. destruct l as [|[a n] l]; [by left|right; simpl; set_solver]. Qed.

Lemma ring_seg_app d p l1 l2 q : seg d p (l1 ++ l2) q ↔ seg d p l1 (hda q l2) ∧ seg d (lasta p l1) l2 q.
Proof.
  revert p. induction l1 as [|[a n] l1 IH]; intros p; simpl; [tauto|].
  rewrite IH, lasta_cons, hda_app. simpl. tauto.
Qed.

Lemma ring_seg_frame d d' p l q : (∀ a, a ∈ l.*1 → d' !! a = d !! a) → seg d p l q → seg d' p l q.
Proof.
  revert p. induction l as [|[a n] l IH]; intros p Hd; simpl; [done|]. intros [H1 H2]. split.
  - rewrite Hd by (simpl; set_solver). done.
  - apply IH; [|done]. intros b Hb. apply Hd. simpl. set_solver.
Qed.

Lemma seg_lookup d p l q a : seg d p l q → a ∈ l.*1 → is_Some (d !! a).
Proof.
  revert p. induction l as [|[b n] l IH]; intros p; simpl; [set_solver|]. intros [H1 H2] [->|Hin]%elem_of_cons; eauto.
Qed.

Lemma seg_alter_next d p l q q' : seg d p l q → NoDup l.*1 → l ≠ [] → seg (alter (with_next q') (lasta p l) d) p l q'.
Proof.
  intros Hs Hnd Hl. destruct (exists_last Hl) as (l' & [b n] & ->). rewrite lasta_snoc. simpl.
  rewrite fmap_app, NoDup_app in Hnd. destruct Hnd as (_ & Hb & _).
  apply ring_seg_app in Hs as [H1 H2]. simpl in *. apply ring_seg_app. split; simpl.
  - eapply ring_seg_frame; [|exact H1]. intros a Ha. apply lookup_alter_ne. intros ->. apply (Hb _ Ha). set_solver.
  - split; [|done]. rewrite lookup_alter_eq, (proj1 H2). done.
Qed.

Lemma seg_alter_prev d p p' l q q0 : seg d p l q → NoDup l.*1 → l ≠ [] → seg (alter (with_prev p') (hda q0 l) d) p' l q.
Proof.
  intros Hs Hnd Hl. destruct l as [|[a n] l]; [done|]. simpl in *. apply NoDup_cons in Hnd as [Ha Hnd]. destruct Hs as [H1 H2]. split.
  - by rewrite lookup_alter_eq, H1.
  - eapply ring_seg_frame; [|exact H2]. intros b Hb. apply lookup_alter_ne. by intros ->.
Qed.

(** The circular list with its head [f]. *)
Definition ring (f : Z) (d : dmap) (l : list (Z * Z)) : Prop :=
  (∃ hs hp, d !! f = Some (mkPage hs (hda f l) hp)) ∧ seg d f l f.

Section ring.
Context (f : Z).
Implicit Types (d : dmap) (l m : list (Z * Z)).

Lemma ring_some d l a : ring f d l → a = f ∨ a ∈ l.*1 → is_Some (d !! a).
Proof. intros [(hs & hp & Hf) Hs] [->|Ha]; [by eauto|by eapply seg_lookup]. Qed.

(** The last node of [l1], or the head, is made to point to [w]. *)
Lemma ring_next_l d l1 l2 w :
  (∃ hs hp, d !! f = Some (mkPage hs (hda f (l1 ++ l2)) hp)) → seg d f l1 (hda f l2) → NoDup l1.*1 → f ∉ l1.*1 →
  let d' := alter (with_next w) (lasta f l1) d in
  (∃ hs hp, d' !! f = Some (mkPage hs (hda w l1) hp)) ∧ seg d' f l1 w.
Proof.
  intros (hs & hp & Hf) Hs Hnd Hin. destruct l1 as [|x l1].
  - split; [|done]. exists hs, hp. unfold lasta. simpl. by rewrite lookup_alter_eq, Hf.
  - split.
    + exists hs, hp. rewrite lookup_alter_ne. { rewrite Hf. by destruct x. }
      intros E. apply Hin. rewrite <-E. rewrite lasta_cons. destruct (lasta_in x.1 l1) as [->|]; simpl; set_solver.
    + by eapply seg_alter_next.
Qed.

(** The first node of [l2], or the head, is made to point back to [w]. *)
Lemma ring_prev_r d p l2 w :
  seg d p l2 f → NoDup l2.*1 → seg (alter (with_prev w) (hda f l2) d) w l2 f.
Proof. intros Hs Hnd. destruct l2 as [|x l2]; [done|]. by eapply seg_alter_prev. Qed.

Lemma ring_splice d l1 a n l2 m :
  ring f d (l1 ++ (a, n) :: l2) → NoDup (f :: (l1 ++ (a, n) :: l2).*1) →
  (∀ b, b ∈ m.*1 → b ∉ f :: (l1 ++ l2).*1) → seg d (lasta f l1) m (hda f l2) →
  let d' := alter (with_prev (lasta (lasta f l1) m)) (hda f l2) (alter (with_next (hda (hda f l2) m)) (lasta f l1) d) in
  ring f d' (l1 ++ m ++ l2).
Proof.
  intros [Hf Hs] Hnd Hm Hsm d'. apply NoDup_cons in Hnd as [Hfn Hnd].
  rewrite fmap_app in Hnd, Hfn. apply NoDup_app in Hnd as (Hn1 & Hd12 & Hn2). rewrite fmap_cons in *. simpl in *. apply NoDup_cons in Hn2 as [Ha2 Hn2].
  apply not_elem_of_app in Hfn as [Hf1 Hf2]. apply not_elem_of_cons in Hf2 as [Hfa Hf2].
  apply ring_seg_app in Hs as [Hs1 [Ha Hs2]]. set (d1 := alter (with_next (hda (hda f l2) m)) (lasta f l1) d) in *.
  destruct (ring_next_l d l1 ((a, n) :: l2) (hda (hda f l2) m)) as [(hs & hp & Hf') Hs1']; try done. fold d1 in Hf', Hs1'.
  assert (∀ b, b ∈ l2.*1 → b ∉ f :: l1.*1) as Hb2.
  { intros b Hb [->|Hb']%elem_of_cons; [done|]. apply (Hd12 b Hb'). set_solver. }
  assert (∀ b, b ∈ m.*1 → b ≠ lasta f l1 ∧ b ≠ hda f l2) as Hbm.
  { intros b Hb. specialize (Hm b Hb). rewrite fmap_app, not_elem_of_cons, not_elem_of_app in Hm. destruct Hm as (Hm0 & Hm1 & Hm2).
    split; intros ->; [destruct (lasta_in f l1) as [E|E]|destruct (hda_in f l2) as [E|E]]; congruence || done. }
  assert (∀ b, b ∈ l1.*1 → b ≠ hda f l2) as Hb1.
  { intros b Hb ->. destruct (hda_in f l2) as [E|E]; [by rewrite E in Hb|]. apply (Hd12 _ Hb). by apply list_elem_of_further. }
  split.
  - destruct (hda_in f l2) as [E|E].
    + exists hs, (lasta (lasta f l1) m). unfold d'. rewrite E, lookup_alter_eq, Hf'. rewrite !hda_app. by rewrite E.
    + exists hs, hp. unfold d'. rewrite lookup_alter_ne by congruence. by rewrite Hf', !hda_app.
  - rewrite ring_seg_app, ring_seg_app. split_and!.
    + rewrite hda_app. eapply ring_seg_frame; [|exact Hs1']. intros b Hb. unfold d'. apply lookup_alter_ne. intros E. by apply (Hb1 b).
    + eapply ring_seg_frame; [|exact Hsm]. intros b Hb. destruct (Hbm b Hb). unfold d', d1. by rewrite !lookup_alter_ne by done.
    + apply (ring_prev_r _ a); [|done]. eapply ring_seg_frame; [|exact Hs2]. intros b Hb. unfold d1. apply lookup_alter_ne. intros <-. apply (Hb2 _ Hb).
      apply elem_of_cons, lasta_in.
Qed.

Lemma ring_push d l a n :
  ring f d l → NoDup (f :: l.*1) → a ∉ f :: l.*1 → d !! a = Some (mkPage n (hda f l) f) →
  ring f (alter (with_next a) f (alter (with_prev a) (hda f l) d)) ((a, n) :: l).
Proof.
  intros [(hs & hp & Hf) Hs] Hnd Ha Hd. apply NoDup_cons in Hnd as [Hfn Hnd]. set (d1 := alter (with_prev a) (hda f l) d).
  assert (is_Some (d1 !! f)) as [[hs' hn' hp'] Hf1] by (apply alter_some; eauto). split.
  - exists hs', hp'. by rewrite lookup_alter_eq, Hf1.
  - simpl. split.
    + rewrite lookup_alter_ne by set_solver. unfold d1. rewrite lookup_alter_ne; [done|]. destruct (hda_in f l); set_solver.
    + eapply ring_seg_frame; [|by apply (ring_prev_r d f l a)]. intros b Hb. apply lookup_alter_ne. set_solver.
Qed.

Lemma ring_frame d d' l : (∀ a, a ∈ f :: l.*1 → d' !! a = d !! a) → ring f d l → ring f d' l.
Proof.
  intros H [(hs & hp & Hf) Hs]. split; [exists hs, hp; rewrite H; [done|set_solver]|].
  eapply ring_seg_frame; [|exact Hs]. intros a Ha. apply H. set_solver.
Qed.

Lemma ring_lookup d l1 a n l2 : ring f d (l1 ++ (a, n) :: l2) → d !! a = Some (mkPage n (hda f l2) (lasta f l1)).
Proof. intros [_ Hs]. apply ring_seg_app in Hs as [_ [Ha _]]. done. Qed.

(** The neighbours of a node of the list are there. *)
Lemma ring_neighbours d l1 a n l2 : ring f d (l1 ++ (a, n) :: l2) → is_Some (d !! lasta f l1) ∧ is_Some (d !! hda f l2).
Proof.
  intros Hr. split; (eapply ring_some; [exact Hr|]); rewrite fmap_app, fmap_cons.
  - destruct (lasta_in f l1) as [->|]; [by left|right; set_solver].
  - destruct (hda_in f l2) as [->|]; [by left|right; set_solver].
Qed.

(** A splice does not touch what is not in the list. *)
Lemma splice_out d l1 l2 v w b :
  b ∉ f :: (l1 ++ l2).*1 → alter (with_prev v) (hda f l2) (alter (with_next w) (lasta f l1) d) !! b = d !! b.
Proof.
  rewrite fmap_app, not_elem_of_cons, not_elem_of_app. intros (H0 & H1 & H2).
  rewrite !lookup_alter_ne; [done| |]; intros <-; [destruct (lasta_in f l1) as [E|E]|destruct (hda_in f l2) as [E|E]]; congruence || done.
Qed.
End ring.

(** ** The invariant of the pages *)

Section pages.
Context (C : consts).
Abbreviation f := (free_at C).

(** Page descriptors by page number. *)
Definition pa s (i : Z) : Z := pages s + sizeof_page * i.
Definition al s (l : list (Z * Z)) : list (Z * Z) := (λ x, (pa s x.1, x.2)) <$> l.

(** A run is in use (in [r]) or free (in [l]). *)
Definition run (l : list (Z * Z)) (r : gmap Z Z) (i n : Z) : Prop := r !! i = Some n ∨ (i, n) ∈ l.

Record layout (N : Z) (s : st) : Prop := {
  g_free : 0 < f;
  g_head : f + sizeof_page ≤ pages s;
  g_free4 : f mod 4 = 0;
  g_pages4 : pages s mod 4 = 0;
  g_N : 0 ≤ N < 2 ^ 62;
}.

(** The first [N] pages are the runs of [l] and [r]: their descriptors say so. *)
Record pinv (N : Z) (s : st) (l : list (Z * Z)) (r : gmap Z Z) : Prop := {
  n_geo : layout N s;
  n_ring : ring f (descs s) (al s l);
  n_nodup : NoDup l.*1;
  n_run : ∀ i n, run l r i n → 0 ≤ i ∧ 1 ≤ n ∧ i + n ≤ N;
  n_apart : ∀ i n j m, run l r i n → run l r j m → i = j ∧ n = m ∨ i + n ≤ j ∨ j + m ≤ i;
  n_sep : ∀ i n m, r !! i = Some n → (i, m) ∉ l;
  n_used : ∀ i n, r !! i = Some n → descs s !! pa s i = Some (mkPage (Z.lor n NGX_SLAB_PAGE_START) 0 (NGX_SLAB_PAGE C));
  n_busy : ∀ i n k, r !! i = Some n → 0 < k < n → descs s !! pa s (i + k) = Some (mkPage NGX_SLAB_PAGE_BUSY 0 (NGX_SLAB_PAGE C));
  n_zero : ∀ i n k, (i, n) ∈ l → 0 < k < n → descs s !! pa s (i + k) = Some (mkPage 0 0 0);
  n_cover : ∀ k, 0 ≤ k < N → ∃ i n, run l r i n ∧ i ≤ k < i + n;
}.

Lemma pa_inj s i j : pa s i = pa s j → i = j.
Proof. unfold pa, sizeof_page. lia. Qed.

Lemma pa_free N s i : layout N s → 0 ≤ i → pa s i ≠ f ∧ pa s i ≠ 0.
Proof. intros [? ? ? ? ?] Hi. unfold pa, sizeof_page in *. lia. Qed.

Lemma al_app s l1 l2 : al s (l1 ++ l2) = al s l1 ++ al s l2.
Proof. apply fmap_app. Qed.

Lemma al_elem s l i : pa s i ∈ (al s l).*1 → i ∈ l.*1.
Proof.
  unfold al. rewrite <-list_fmap_compose. intros (x & E & Hx)%list_elem_of_fmap. apply pa_inj in E as ->. apply list_elem_of_fmap. eauto.
Qed.

Lemma al_ring_nodup N s l : layout N s → NoDup l.*1 → (∀ i n, (i, n) ∈ l → 0 ≤ i) → NoDup (f :: (al s l).*1).
Proof.
  intros Hg Hnd H0. unfold al. rewrite <-list_fmap_compose. apply NoDup_cons. split.
  - intros ([i n] & E & Hx)%list_elem_of_fmap. destruct (pa_free N s i Hg); [by eapply H0|]. done.
  - replace ((fst ∘ λ x : Z * Z, (pa s x.1, x.2)) <$> l) with (pa s <$> l.*1) by (by rewrite <-list_fmap_compose).
    apply NoDup_fmap_2; [|done]. intros ? ?. apply pa_inj.
Qed.

Lemma elem_fst (l : list (Z * Z)) i : i ∈ l.*1 ↔ ∃ n, (i, n) ∈ l.
Proof. rewrite list_elem_of_fmap. split; [intros ([? n] & -> & ?); by exists n|intros (n & ?); by exists (i, n)]. Qed.

(** Two places in different runs are different. *)
Lemma run_ne N s l r i n j m x y : pinv N s l r → run l r i n → run l r j m → i ≠ j → 0 ≤ x < n → 0 ≤ y < m → pa s (i + x) ≠ pa s (j + y).
Proof. intros Hi H1 H2 Hne Hx Hy E%pa_inj. destruct (n_apart _ _ _ _ Hi _ _ _ _ H1 H2) as [[? _]|]; lia. Qed.

(** A place that is not the first of a free run is not on the list. *)
Lemma off_list N s l r i n x : pinv N s l r → run l r i n → 0 ≤ x < n → (x ≠ 0 ∨ r !! i = Some n) → pa s (i + x) ∉ f :: (al s l).*1.
Proof.
  intros Hi Hr Hx Hor. destruct (n_run _ _ _ _ Hi _ _ Hr) as (? & ? & ?). apply not_elem_of_cons. split.
  - apply (pa_free N s); [apply Hi|lia].
  - intros Hin%al_elem. apply elem_fst in Hin as [m Hm]. destruct (n_run _ _ _ _ Hi _ _ (or_intror Hm)) as (? & ? & ?).
    destruct (n_apart _ _ _ _ Hi _ _ _ _ Hr (or_intror Hm)) as [[E1 E2]|]; [|lia].
    destruct Hor as [|Hu]; [lia|]. assert (x = 0) as -> by lia. rewrite Z.add_0_r in Hm. by apply (n_sep _ _ _ _ Hi _ _ m Hu).
Qed.

Lemma desc_some N s l r k : pinv N s l r → 0 ≤ k < N → is_Some (descs s !! pa s k).
Proof.
  intros Hi Hk. destruct (n_cover _ _ _ _ Hi k Hk) as (i & n & Hr & Hik).
  destruct (decide (k = i)) as [->|Hne].
  - destruct Hr as [Hu|Hf]; [rewrite (n_used _ _ _ _ Hi _ _ Hu); eauto|].
    eapply ring_some; [apply (n_ring _ _ _ _ Hi)|]. right. unfold al. rewrite <-list_fmap_compose. apply list_elem_of_fmap. by exists (i, n).
  - replace k with (i + (k - i)) by lia.
    destruct Hr as [Hu|Hf]; [rewrite (n_busy _ _ _ _ Hi _ n (k - i) Hu)|rewrite (n_zero _ _ _ _ Hi _ n (k - i) Hf)]; eauto; lia.
Qed.

(** ** Taking pages from a run *)

Definition rest (i n np : Z) : list (Z * Z) := if np <? n then [(i + np, n - np)] else [].

Lemma rest_elem i n np j k : (j, k) ∈ rest i n np → np < n ∧ j = i + np ∧ k = n - np.
Proof. unfold rest. destruct (Z.ltb_spec np n); set_solver. Qed.

Lemma run_alloc l1 i n l2 r np j k :
  NoDup (l1 ++ (i, n) :: l2).*1 → r !! i = None → run (l1 ++ rest i n np ++ l2) (<[i := np]> r) j k →
  (j = i ∧ k = np) ∨ (np < n ∧ j = i + np ∧ k = n - np) ∨ (run (l1 ++ (i, n) :: l2) r j k ∧ j ≠ i).
Proof.
  intros Hnd Hr [Hu|Hf].
  - apply lookup_insert_Some in Hu as [[-> ->]|[Hne Hu]]; [by left|]. right; right. split; [by left|done].
  - rewrite fmap_app, fmap_cons, NoDup_app, NoDup_cons in Hnd. destruct Hnd as (_ & H1 & H2 & _). simpl in *.
    apply elem_of_app in Hf as [Hf|[Hf|Hf]%elem_of_app].
    + right; right. split; [right; set_solver|]. intros ->. apply (H1 i); [apply elem_fst; eauto|set_solver].
    + apply rest_elem in Hf as (? & ? & ?). right; left. done.
    + right; right. split; [right; set_solver|]. intros ->. apply H2. apply elem_fst; eauto.
Qed.

Section take.
Context (N : Z) (s : st) (l1 l2 : list (Z * Z)) (i n np : Z) (r : gmap Z Z).
Hypothesis Hinv : pinv N s (l1 ++ (i, n) :: l2) r.
Hypothesis Hnp : 1 ≤ np ≤ n.

Lemma take_here : run (l1 ++ (i, n) :: l2) r i n.
Proof using Type. clear. right. set_solver. Qed.

Lemma take_unused : r !! i = None.
Proof using Hinv.
  clear Hnp. destruct (r !! i) as [m|] eqn:E; [|done]. exfalso. apply (n_sep _ _ _ _ Hinv _ _ n E). set_solver.
Qed.

Lemma take_new_run j k : run (l1 ++ rest i n np ++ l2) (<[i := np]> r) j k →
  (j = i ∧ k = np) ∨ (np < n ∧ j = i + np ∧ k = n - np) ∨ (run (l1 ++ (i, n) :: l2) r j k ∧ j ≠ i).
Proof using Hinv. clear Hnp. apply run_alloc; [apply Hinv|apply take_unused]. Qed.

Lemma take_other j k : run (l1 ++ (i, n) :: l2) r j k → j ≠ i → j + k ≤ i ∨ i + n ≤ j.
Proof using Hinv.
  clear Hnp. intros Hr Hne. destruct (n_apart _ _ _ _ Hinv _ _ _ _ take_here Hr) as [[? ?]|]; lia.
Qed.

(** The run taken from is the only one at its place. *)
Lemma take_not_listed j k : (j, k) ∈ l1 ++ l2 → j ≠ i ∧ (j, k) ∈ l1 ++ (i, n) :: l2.
Proof using Hinv.
  clear Hnp. intros Hin. split; [|set_solver]. intros ->. pose proof (n_nodup _ _ _ _ Hinv) as Hnd.
  rewrite !fmap_app, fmap_cons, NoDup_app, NoDup_cons in Hnd. destruct Hnd as (_ & Hd & Hi2 & _).
  apply elem_of_app in Hin as [Hf|Hf]; [apply (Hd i); [apply elem_fst; eauto|simpl; set_solver]|apply Hi2, elem_fst; eauto].
Qed.

Lemma take_listed j k : (j, k) ∈ l1 ++ rest i n np ++ l2 → (j, k) ∈ l1 ++ l2 ∨ (np < n ∧ j = i + np ∧ k = n - np).
Proof using Type. clear Hinv Hnp. intros [Hf|[Hf|Hf]%elem_of_app]%elem_of_app; [left; set_solver|right; by apply rest_elem|left; set_solver]. Qed.

(** A place off the old list is off the new one, but for the start of what is left of the run. *)
Lemma take_off x : pa s x ∉ f :: (al s (l1 ++ (i, n) :: l2)).*1 → (np < n → x ≠ i + np) → pa s x ∉ f :: (al s (l1 ++ rest i n np ++ l2)).*1.
Proof using Type.
  clear Hinv Hnp. rewrite !not_elem_of_cons. intros [H1 H2] Hx. split; [done|]. intros (m & Hm)%al_elem%elem_fst.
  apply take_listed in Hm as [Hm|(Hlt & E & _)]; [|by apply Hx]. apply H2. unfold al. rewrite <-list_fmap_compose.
  apply list_elem_of_fmap. exists (x, m). split; [done|set_solver].
Qed.

Lemma take_nodup : NoDup (l1 ++ rest i n np ++ l2).*1.
Proof using Hinv Hnp.
  pose proof (n_nodup _ _ _ _ Hinv) as Hnd. rewrite !fmap_app, fmap_cons, NoDup_app, NoDup_cons in Hnd. destruct Hnd as (Hn & Hd & Hi2 & Hn2). simpl in *.
  assert (NoDup (l1.*1 ++ l2.*1)) as H12. { apply NoDup_app. split_and!; [done| |done]. intros x Hx Hx2. apply (Hd x Hx). set_solver. }
  unfold rest. destruct (Z.ltb_spec np n) as [Hlt|]; [|by rewrite fmap_app].
  rewrite fmap_app. simpl. rewrite <-Permutation_middle. apply NoDup_cons. split; [|done]. intros Hin. rewrite <-fmap_app in Hin.
  apply elem_fst in Hin as (m & Hm). apply take_not_listed in Hm as [Hne Hm]. destruct (n_run _ _ _ _ Hinv _ _ (or_intror Hm)).
  destruct (take_other _ _ (or_intror Hm) Hne); lia.
Qed.

Lemma take_cover k : 0 ≤ k < N → ∃ j m, run (l1 ++ rest i n np ++ l2) (<[i := np]> r) j m ∧ j ≤ k < j + m.
Proof using Hinv Hnp.
  intros Hk. destruct (n_cover _ _ _ _ Hinv k Hk) as (j & m & Hr & Hjk). destruct (decide (j = i)) as [->|Hne].
  - assert (m = n) as ->. { destruct (n_apart _ _ _ _ Hinv _ _ _ _ take_here Hr) as [[_ ->]|]; [done|]. destruct (n_run _ _ _ _ Hinv _ _ Hr). lia. }
    destruct (decide (k < i + np)) as [|Hge]; [exists i, np; split; [left; by rewrite lookup_insert_eq|lia]|].
    exists (i + np), (n - np). split; [|lia]. right. unfold rest. rewrite (proj2 (Z.ltb_lt np n)) by lia. set_solver.
  - exists j, m. split; [|done]. destruct Hr as [Hu|Hf]; [left; by rewrite lookup_insert_ne|right]. set_solver.
Qed.

Lemma take_apart j k j' k' :
  run (l1 ++ rest i n np ++ l2) (<[i := np]> r) j k → run (l1 ++ rest i n np ++ l2) (<[i := np]> r) j' k' →
  j = j' ∧ k = k' ∨ j + k ≤ j' ∨ j' + k' ≤ j.
Proof using Hinv Hnp.
  intros Hr Hr'. destruct (take_new_run _ _ Hr) as [[-> ->]|[(? & -> & ->)|[Ho Hne]]], (take_new_run _ _ Hr') as [[-> ->]|[(? & -> & ->)|[Ho' Hne']]];
    try lia; try pose proof (take_other _ _ Ho Hne); try pose proof (take_other _ _ Ho' Hne'); try lia.
  by apply (n_apart _ _ _ _ Hinv).
Qed.

Lemma take_sep j k m : <[i := np]> r !! j = Some k → (j, m) ∉ l1 ++ rest i n np ++ l2.
Proof using Hinv Hnp.
  intros Hu Hf. destruct (take_listed _ _ Hf) as [Ho|(Hlt & -> & ->)].
  - apply take_not_listed in Ho as [Hne Ho]. rewrite lookup_insert_ne in Hu by done. by eapply (n_sep _ _ _ _ Hinv).
  - rewrite lookup_insert_ne in Hu by lia. destruct (n_run _ _ _ _ Hinv _ _ (or_introl Hu)). destruct (take_other _ _ (or_introl Hu)); lia.
Qed.

Section after.
Context (d' : dmap).
Hypothesis Hring : ring f d' (al s (l1 ++ rest i n np ++ l2)).
Hypothesis Hh : d' !! pa s i = Some (mkPage (Z.lor np NGX_SLAB_PAGE_START) 0 (NGX_SLAB_PAGE C)).
Hypothesis Hb : ∀ k, 0 < k < np → d' !! pa s (i + k) = Some (mkPage NGX_SLAB_PAGE_BUSY 0 (NGX_SLAB_PAGE C)).
Hypothesis Hout : ∀ b, b ∉ f :: (al s (l1 ++ rest i n np ++ l2)).*1 → (∀ k, 0 ≤ k < np → b ≠ pa s (i + k)) → d' !! b = descs s !! b.

Lemma take_keep j k x : run (l1 ++ (i, n) :: l2) r j k → j ≠ i → 0 ≤ x < k → (x ≠ 0 ∨ r !! j = Some k) → d' !! pa s (j + x) = descs s !! pa s (j + x).
Proof using Hinv Hnp Hout.
  clear Hring Hh Hb. intros Hr Hne Hx Hor. destruct (n_run _ _ _ _ Hinv _ _ Hr) as (? & ? & ?). pose proof (take_other _ _ Hr Hne) as Hoth. apply Hout.
  - apply take_off; [by eapply off_list|lia].
  - intros y Hy E%pa_inj. lia.
Qed.

(** Inside a free run nothing changes. *)
Lemma take_zero j k x : (j, k) ∈ l1 ++ rest i n np ++ l2 → 0 < x < k → d' !! pa s (j + x) = Some (mkPage 0 0 0).
Proof using Hinv Hnp Hout.
  clear Hring Hh Hb. intros Hf Hx. destruct (take_listed _ _ Hf) as [Ho|(Hlt & -> & ->)].
  - apply take_not_listed in Ho as [Hne Ho]. erewrite take_keep; [|by right|done|lia|lia]. by apply (n_zero _ _ _ _ Hinv _ k).
  - rewrite Hout.
    + replace (i + np + x) with (i + (np + x)) by lia. apply (n_zero _ _ _ _ Hinv _ n); [set_solver|lia].
    + replace (i + np + x) with (i + (np + x)) by lia. apply take_off; [|lia]. eapply off_list; [exact Hinv|apply take_here|lia|lia].
    + intros y Hy E%pa_inj. lia.
Qed.

Lemma take_pinv : pinv N (set_descs s d') (l1 ++ rest i n np ++ l2) (<[i := np]> r).
Proof using Hinv Hnp Hring Hh Hb Hout.
  destruct (n_run _ _ _ _ Hinv _ _ take_here) as (Hi0 & Hn1 & HiN). split.
  - destruct (n_geo _ _ _ _ Hinv). by split.
  - done.
  - apply take_nodup.
  - intros j k Hr. destruct (take_new_run _ _ Hr) as [[-> ->]|[(? & -> & ->)|[Ho ?]]]; [lia|lia|by apply (n_run _ _ _ _ Hinv)].
  - apply take_apart.
  - apply take_sep.
  - intros j k Hu. apply lookup_insert_Some in Hu as [[<- <-]|[Hne Hu]]; [done|].
    destruct (n_run _ _ _ _ Hinv _ _ (or_introl Hu)). pose proof (take_keep j k 0 (or_introl Hu)) as Hk. rewrite Z.add_0_r in Hk.
    change (d' !! pa s j = Some (mkPage (Z.lor k NGX_SLAB_PAGE_START) 0 (NGX_SLAB_PAGE C))). rewrite Hk; [|done|lia|by right]. by apply (n_used _ _ _ _ Hinv).
  - intros j k x Hu Hx. apply lookup_insert_Some in Hu as [[<- <-]|[Hne Hu]]; [by apply Hb|].
    change (d' !! pa s (j + x) = Some (mkPage NGX_SLAB_PAGE_BUSY 0 (NGX_SLAB_PAGE C))). erewrite take_keep; [|by left|done|lia|by right].
    by apply (n_busy _ _ _ _ Hinv _ k).
  - apply take_zero.
  - apply take_cover.
Qed.
End after.

(** No place of what was taken is on the new list. *)
Lemma take_off_new k : 0 ≤ k < np → pa s (i + k) ∉ f :: (al s (l1 ++ rest i n np ++ l2)).*1.
Proof using Hinv Hnp.
  intros Hk. destruct (n_run _ _ _ _ Hinv _ _ take_here) as (Hi0 & Hn1 & HiN). apply not_elem_of_cons. split.
  { apply (pa_free N s); [apply Hinv|lia]. }
  intros (m & Hm)%al_elem%elem_fst. apply take_listed in Hm as [Hm|(_ & ? & _)]; [|lia].
  apply take_not_listed in Hm as [Hne Hm]. destruct (n_run _ _ _ _ Hinv _ _ (or_intror Hm)). destruct (take_other _ _ (or_intror Hm)); lia.
Qed.

Lemma take_finish d2 :
  ring f d2 (al s (l1 ++ rest i n np ++ l2)) →
  (∀ b, b ∉ f :: (al s (l1 ++ rest i n np ++ l2)).*1 → d2 !! b = descs s !! b) →
  ∃ d', (put_page (pa s i) (mkPage (Z.lor np NGX_SLAB_PAGE_START) 0 (NGX_SLAB_PAGE C));;
         mark_busy C (Z.to_nat (u64 (np - 1))) (page_at (pa s i) 1);; mret (pa s i)) (set_descs s d2) = Ok (pa s i, set_descs s d') ∧
    pinv N (set_descs s d') (l1 ++ rest i n np ++ l2) (<[i := np]> r).
Proof using Hinv Hnp.
  intros Hring Hout. destruct (n_run _ _ _ _ Hinv _ _ take_here) as (Hi0 & Hn1 & HiN). destruct (n_geo _ _ _ _ Hinv) as [_ _ _ _ HN].
  assert (∀ k, 0 ≤ k < np → is_Some (d2 !! pa s (i + k))) as Hex.
  { intros k Hk. rewrite Hout by by apply take_off_new. eapply desc_some; [exact Hinv|lia]. }
  rewrite wrapu_small by lia. set (u := mkPage (Z.lor np NGX_SLAB_PAGE_START) 0 (NGX_SLAB_PAGE C)). set (v := mkPage NGX_SLAB_PAGE_BUSY 0 (NGX_SLAB_PAGE C)).
  destruct (Hex 0) as [p0 Hp0]; [lia|]. rewrite Z.add_0_r in Hp0. mstep (ngx_put_run (set_descs s d2) _ _ u Hp0).
  set (d3 := <[pa s i := u]> d2). change (set_descs (set_descs s d2) _) with (set_descs s d3).
  assert (page_at (pa s i) 1 = pa s (i + 1)) as -> by (unfold page_at, pa, sizeof_page; lia).
  assert (∀ k, pa s (i + 1) + sizeof_page * k = pa s (i + (1 + k))) as Hpa by (intros; unfold pa, sizeof_page; lia).
  exists (fill (Z.to_nat (np - 1)) (pa s (i + 1)) v d3). split.
  - erewrite bind_ok; [reflexivity|]. apply (fill_run (mark_busy C) v); [done|done|].
    intros k Hk. rewrite Hpa. simpl. unfold d3. rewrite lookup_insert_ne by (intros E%pa_inj; lia). apply Hex. lia.
  - apply take_pinv.
    + eapply ring_frame; [|exact Hring]. intros a Ha. rewrite lookup_fill_out.
      * unfold d3. apply lookup_insert_ne. intros <-. apply (take_off_new 0); [lia|]. by rewrite Z.add_0_r.
      * intros k Hk ->. rewrite Hpa in Ha. apply (take_off_new (1 + k)) in Ha; [done|lia].
    + rewrite lookup_fill_out; [by unfold d3; rewrite lookup_insert_eq|]. intros k Hk E. rewrite Hpa in E. apply pa_inj in E. lia.
    + intros k Hk. replace (pa s (i + k)) with (pa s (i + 1) + sizeof_page * (k - 1)) by (rewrite Hpa; f_equal; lia). apply lookup_fill_in. lia.
    + intros b Hb Hne. rewrite lookup_fill_out; [|intros k Hk; rewrite Hpa; apply Hne; lia]. unfold d3.
      rewrite lookup_insert_ne; [by apply Hout|]. specialize (Hne 0 ltac:(lia)). rewrite Z.add_0_r in Hne. done.
Qed.

Lemma take_ring : ring f (descs s) (al s l1 ++ (pa s i, n) :: al s l2) ∧ NoDup (f :: (al s l1 ++ (pa s i, n) :: al s l2).*1).
Proof using Hinv.
  clear Hnp. pose proof (n_ring _ _ _ _ Hinv) as Hring. pose proof (al_ring_nodup N s _ (n_geo _ _ _ _ Hinv) (n_nodup _ _ _ _ Hinv)) as Hnd.
  rewrite al_app in Hring, Hnd. split; [exact Hring|]. apply Hnd. intros j k Hj. by apply (n_run _ _ _ _ Hinv _ _ (or_intror Hj)).
Qed.

Lemma take_run_ok :
  ∃ d', take_run C (pa s i) np (mkPage n (hda f (al s l2)) (lasta f (al s l1))) s = Ok (pa s i, set_descs s d') ∧
    pinv N (set_descs s d') (l1 ++ rest i n np ++ l2) (<[i := np]> r).
Proof using Hinv Hnp.
  destruct (n_run _ _ _ _ Hinv _ _ take_here) as (Hi0 & Hn1 & HiN). pose proof (n_geo _ _ _ _ Hinv) as Hgeo. destruct (Hgeo) as [_ _ _ _ HN].
  destruct take_ring as [Hring Hnd].
  destruct (ring_neighbours _ _ _ _ _ _ Hring) as [Hpv Hnx].
  unfold take_run. cbn [slab next prev]. assert (page_at (pa s i) np = pa s (i + np)) as -> by (unfold page_at, pa; lia).
  destruct (Z.ltb_spec np n) as [Hlt|Hge].
  - assert (pa s (i + np) ∉ f :: (al s (l1 ++ (i, n) :: l2)).*1) as Hoff by (eapply off_list; [exact Hinv|apply take_here|lia|lia]).
    rewrite al_app in Hoff. change (al s ((i, n) :: l2)) with ((pa s i, n) :: al s l2) in Hoff.
    rewrite (wrapu_small 64 (n - np)) by lia. destruct (desc_some N s _ r (i + np) Hinv) as [p0 Hp0]; [lia|].
    set (q := mkPage (n - np) (hda f (al s l2)) (lasta f (al s l1))). set (d1 := <[pa s (i + np) := q]> (descs s)).
    assert (∀ a, a ≠ pa s (i + np) → d1 !! a = descs s !! a) as Hd1 by (intros; apply lookup_insert_ne; done).
    assert (ring f d1 (al s l1 ++ (pa s i, n) :: al s l2)) as Hring1.
    { eapply ring_frame; [|exact Hring]. intros a Ha. apply Hd1. by intros ->. }
    set (d2 := alter (with_prev (pa s (i + np))) (hda f (al s l2)) (alter (with_next (pa s (i + np))) (lasta f (al s l1)) d1)).
    destruct (take_finish d2) as (d' & Hrun & Hp).
    + unfold rest. rewrite (proj2 (Z.ltb_lt np n)) by done. rewrite !al_app. simpl.
      apply (ring_splice f d1 (al s l1) (pa s i) n (al s l2) [(pa s (i + np), n - np)] Hring1 Hnd); simpl.
      * intros b ->%list_elem_of_singleton. intros Hin. apply Hoff. rewrite fmap_app, fmap_cons. rewrite fmap_app in Hin. set_solver.
      * split; [|done]. unfold d1. by rewrite lookup_insert_eq.
    + intros b Hb. unfold rest in Hb. rewrite (proj2 (Z.ltb_lt np n)) in Hb by done. rewrite !al_app in Hb. simpl in Hb. unfold d2.
      rewrite splice_out; [apply Hd1; intros ->; apply Hb; rewrite fmap_app; simpl; set_solver|].
      intros Hin. apply Hb. rewrite fmap_app in *. simpl. set_solver.
    + exists d'. split; [|done]. rewrite <-Hrun. refine (bind_ok _ _ _ tt (set_descs s d2) _). mstep (ngx_put_run _ _ _ q Hp0). fold d1.
      destruct (ring_neighbours _ _ _ _ _ _ Hring1) as [Hpv1 Hnx1]. mstep (ngx_put_next_run (set_descs s d1) _ (pa s (i + np)) Hpv1).
      apply ngx_put_prev_run. by apply alter_some.
  - assert (np = n) as Hnn by lia.
    set (d2 := alter (with_prev (lasta f (al s l1))) (hda f (al s l2)) (alter (with_next (hda f (al s l2))) (lasta f (al s l1)) (descs s))).
    assert (rest i n np = []) as Hrest by (unfold rest; by rewrite (proj2 (Z.ltb_ge np n)) by lia).
    destruct (take_finish d2) as (d' & Hrun & Hp); rewrite ?Hrest; simpl.
    + rewrite al_app. apply (ring_splice f (descs s) (al s l1) (pa s i) n (al s l2) [] Hring Hnd); simpl; [set_solver|done].
    + intros b Hb. unfold d2. rewrite splice_out; [done|]. by rewrite al_app in Hb.
    + exists d'. rewrite Hrest in Hp. split; [|done]. rewrite <-Hrun. refine (bind_ok _ _ _ tt (set_descs s d2) _). mstep (ngx_put_next_run s _ (hda f (al s l2)) Hpv).
      apply ngx_put_prev_run. by apply alter_some.
Qed.

End take.

Lemma nodup_size (d : dmap) (l : list Z) : NoDup l → (∀ a, a ∈ l → is_Some (d !! a)) → (length l ≤ size d)%nat.
Proof.
  intros Hnd H. rewrite <-(size_dom d), <-(size_list_to_set (C := gset Z) l) by done. apply subseteq_size.
  intros a Ha. apply elem_of_dom, H. set_solver.
Qed.

Lemma alloc_loop_ok N s r np l2 fuel l1 :
  pinv N s (l1 ++ l2) r → 1 ≤ np → (length l2 ≤ fuel)%nat →
  (alloc_pages_loop C fuel (hda f (al s l2)) np s = Ok (0, s) ∧ ∀ i n, (i, n) ∈ l2 → n < np) ∨
  ∃ l2a i n l2b d', l2 = l2a ++ (i, n) :: l2b ∧ np ≤ n ∧
    alloc_pages_loop C fuel (hda f (al s l2)) np s = Ok (pa s i, set_descs s d') ∧
    pinv N (set_descs s d') (l1 ++ l2a ++ rest i n np ++ l2b) (<[i := np]> r).
Proof.
  revert fuel l1. induction l2 as [|[i n] l2 IH]; intros fuel l1 Hinv Hnp Hf.
  - left. split; [|set_solver]. destruct fuel; simpl; by rewrite Z.eqb_refl.
  - assert (0 ≤ i) as Hi0 by (by destruct (n_run _ _ _ _ Hinv i n (take_here _ _ _ _ _))).
    destruct (pa_free N s i (n_geo _ _ _ _ Hinv) Hi0) as [Hpf _]. destruct (take_ring _ _ _ _ _ _ _ Hinv) as [Hring _].
    assert (∀ fuel, alloc_pages_loop C fuel (hda f (al s ((i, n) :: l2))) np s =
      (if np <=? n then take_run C (pa s i) np (mkPage n (hda f (al s l2)) (lasta f (al s l1))) else
       match fuel with O => fail FFuel | S fuel => alloc_pages_loop C fuel (hda f (al s l2)) np end) s) as Heq.
    { intros fu. destruct fu; simpl; rewrite (proj2 (Z.eqb_neq _ _)) by done; mstep (ngx_get_run _ _ _ (ring_lookup _ _ _ _ _ _ Hring)); done. }
    rewrite Heq. destruct (Z.leb_spec np n) as [Hle|Hgt].
    + right. destruct (take_run_ok N s l1 l2 i n np r Hinv) as (d' & Hrun & Hp); [lia|]. by exists [], i, n, l2, d'.
    + destruct fuel as [|fuel]; [simpl in Hf; lia|]. destruct (IH fuel (l1 ++ [(i, n)])) as [[Hrun Hall]|(l2a & j & m & l2b & d' & -> & Hm & Hrun & Hp)].
      * by rewrite <-app_assoc.
      * done.
      * simpl in Hf. lia.
      * left. split; [done|]. intros j k [E|Hj]%elem_of_cons; [by injection E as -> ->|by eapply Hall].
      * right. exists ((i, n) :: l2a), j, m, l2b, d'. split_and!; [done|done|done|]. by rewrite <-app_assoc in Hp.
Qed.

(** The allocator takes the first run that is long enough, and fails only when there is none. *)
Lemma alloc_pages_ok N s l r np :
  pinv N s l r → 1 ≤ np →
  (ngx_slab_alloc_pages C np s = Ok (0, s) ∧ ∀ i n, (i, n) ∈ l → n < np) ∨
  ∃ l1 i n l2 d', l = l1 ++ (i, n) :: l2 ∧ np ≤ n ∧
    ngx_slab_alloc_pages C np s = Ok (pa s i, set_descs s d') ∧
    pinv N (set_descs s d') (l1 ++ rest i n np ++ l2) (<[i := np]> r).
Proof.
  intros Hinv Hnp. pose proof (n_ring _ _ _ _ Hinv) as Hring. destruct (Hring) as [(hs & hp & Hf) _].
  unfold ngx_slab_alloc_pages. mstep (ngx_get_run _ _ _ Hf). rewrite bind_get. cbn [next].
  apply (alloc_loop_ok N s r np l _ []); [done|done|]. rewrite <-(length_fmap fst l). trans (length (al s l).*1); [unfold al; by rewrite !length_fmap|].
  apply nodup_size; [|intros a Ha; eapply ring_some; [exact Hring|by right]].
  eapply NoDup_cons_1_2. apply (al_ring_nodup N); [apply Hinv|apply Hinv|]. intros j k Hj. by apply (n_run _ _ _ _ Hinv _ _ (or_intror Hj)).
Qed.

(** ** Giving pages back *)

(** The run at [i] goes to the front of the list: from the runs in use, or from another place
    of the list (freed again). *)
Section give.
Context (N : Z) (s : st) (l l0 : list (Z * Z)) (i n : Z) (r r' : gmap Z Z).
Hypothesis Hinv : pinv N s l r.
Hypothesis Hcase : (r !! i = Some n ∧ l0 = l ∧ r' = delete i r) ∨ (∃ l1 l2, l = l1 ++ (i, n) :: l2 ∧ l0 = l1 ++ l2 ∧ r' = r).

Lemma give_here : run l r i n.
Proof using Hcase. clear Hinv. destruct Hcase as [(H & _)|(l1 & l2 & -> & _)]; [by left|right; set_solver]. Qed.

Lemma give_listed j k : (j, k) ∈ l0 → j ≠ i ∧ (j, k) ∈ l.
Proof using Hinv Hcase.
  intros Hj. destruct Hcase as [(H & -> & _)|(l1 & l2 & -> & -> & _)].
  - split; [|done]. intros ->. by apply (n_sep _ _ _ _ Hinv _ _ k H).
  - by eapply take_not_listed.
Qed.

Lemma give_used j k : r' !! j = Some k → j ≠ i ∧ r !! j = Some k.
Proof using Hinv Hcase.
  intros Hj. destruct Hcase as [(H & _ & ->)|(l1 & l2 & -> & _ & ->)].
  - apply lookup_delete_Some in Hj as [? ?]. done.
  - split; [|done]. intros ->. apply (n_sep _ _ _ _ Hinv _ _ n Hj). set_solver.
Qed.

Lemma give_run j k : run ((i, n) :: l0) r' j k ↔ run l r j k.
Proof using Hinv Hcase.
  split.
  - intros [Hu%give_used|[E|Hf%give_listed]%elem_of_cons]; [left; naive_solver| |right; naive_solver]. injection E as -> ->. apply give_here.
  - destruct Hcase as [(H & -> & ->)|(l1 & l2 & -> & -> & ->)]; intros [Hu|Hf].
    + destruct (decide (j = i)) as [->|]; [right; rewrite H in Hu; injection Hu as ->; set_solver|left; by rewrite lookup_delete_ne].
    + right. set_solver.
    + by left.
    + right. set_solver.
Qed.

Lemma give_nodup : NoDup ((i, n) :: l0).*1.
Proof using Hinv Hcase.
  simpl. apply NoDup_cons. split; [intros (k & [? _]%give_listed)%elem_fst; done|]. pose proof (n_nodup _ _ _ _ Hinv) as Hnd.
  destruct Hcase as [(H & -> & _)|(l1 & l2 & -> & -> & _)]; [done|]. rewrite fmap_app in *. simpl in Hnd.
  rewrite <-Permutation_middle in Hnd. by apply NoDup_cons in Hnd as [_ ?].
Qed.

(** What is not in the run has kept its place on or off the list. *)
Lemma give_off j k x : run l r j k → j ≠ i → 0 ≤ x < k → (x ≠ 0 ∨ r !! j = Some k) → pa s (j + x) ∉ f :: (al s ((i, n) :: l0)).*1.
Proof using Hinv Hcase.
  intros Hr Hne Hx Hor. pose proof (off_list N s l r j k x Hinv Hr Hx Hor) as Hoff. rewrite not_elem_of_cons in *. destruct Hoff as [H1 H2].
  split; [done|]. intros (m & [E|Hm]%elem_of_cons)%al_elem%elem_fst.
  - injection E as E1 E2. destruct (n_run _ _ _ _ Hinv _ _ give_here). apply (run_ne N s l r j k i n x 0 Hinv Hr give_here Hne Hx ltac:(lia)). f_equal. lia.
  - apply give_listed in Hm as [_ Hm]. apply H2. unfold al. rewrite <-list_fmap_compose. apply list_elem_of_fmap. by exists (j + x, m).
Qed.

Lemma give_pinv d' :
  ring f d' (al s ((i, n) :: l0)) → (∀ k, 0 < k < n → d' !! pa s (i + k) = Some (mkPage 0 0 0)) →
  (∀ b, b ∉ f :: (al s ((i, n) :: l0)).*1 → (∀ k, 0 ≤ k < n → b ≠ pa s (i + k)) → d' !! b = descs s !! b) →
  pinv N (set_descs s d') ((i, n) :: l0) r'.
Proof using Hinv Hcase.
  intros Hring Hz Hout.
  assert (∀ j k x, run l r j k → j ≠ i → 0 ≤ x < k → (x ≠ 0 ∨ r !! j = Some k) → d' !! pa s (j + x) = descs s !! pa s (j + x)) as Hkeep.
  { intros j k x Hr Hne Hx Hor. apply Hout; [by eapply give_off|]. intros y Hy. by eapply (run_ne N s l r j k i n x y); [..|apply give_here| | |]. }
  split.
  - destruct (n_geo _ _ _ _ Hinv). by split.
  - done.
  - apply give_nodup.
  - intros j k. rewrite give_run. apply (n_run _ _ _ _ Hinv).
  - intros j k j' k'. rewrite !give_run. apply (n_apart _ _ _ _ Hinv).
  - intros j k m [Hne Hu]%give_used [E|Hf]%elem_of_cons; [congruence|]. apply give_listed in Hf as [_ Hf]. by eapply (n_sep _ _ _ _ Hinv).
  - intros j k [Hne Hu]%give_used. destruct (n_run _ _ _ _ Hinv _ _ (or_introl Hu)). pose proof (Hkeep j k 0 (or_introl Hu) Hne ltac:(lia) (or_intror Hu)) as Hk.
    rewrite Z.add_0_r in Hk. change (d' !! pa s j = Some (mkPage (Z.lor k NGX_SLAB_PAGE_START) 0 (NGX_SLAB_PAGE C))). rewrite Hk. by apply (n_used _ _ _ _ Hinv).
  - intros j k x [Hne Hu]%give_used Hx. change (d' !! pa s (j + x) = Some (mkPage NGX_SLAB_PAGE_BUSY 0 (NGX_SLAB_PAGE C))).
    erewrite Hkeep; [|by left|done|lia|lia]. by apply (n_busy _ _ _ _ Hinv _ k).
  - intros j k x [E|Hf]%elem_of_cons Hx; [injection E as -> ->; by apply Hz|]. apply give_listed in Hf as [Hne Hf].
    change (d' !! pa s (j + x) = Some (mkPage 0 0 0)). erewrite Hkeep; [|by right|done|lia|lia]. by apply (n_zero _ _ _ _ Hinv _ k).
  - intros k Hk. destruct (n_cover _ _ _ _ Hinv k Hk) as (j & m & Hr & Hjk). exists j, m. by rewrite give_run.
Qed.

(** The end of [ngx_slab_free_pages]. *)
Lemma push_run d2 a k x y (la : list (Z * Z)) :
  ring f d2 la → NoDup (f :: la.*1) → a ∉ f :: la.*1 → d2 !! a = Some (mkPage k x y) →
  ∃ d', (put_prev a f;; fr ← get_page f; put_next a (next fr);; d ← get_page a; put_prev (next d) a;; put_next f a) (set_descs s d2) =
      Ok (tt, set_descs s d') ∧
    ring f d' ((a, k) :: la) ∧ ∀ b, b ∉ f :: a :: la.*1 → d' !! b = d2 !! b.
Proof using Type.
  clear Hinv Hcase. intros Hring Hnd Ha Hd. destruct (Hring) as [(hs & hp & Hf) _]. apply not_elem_of_cons in Ha as [Haf Hal].
  set (d3 := alter (with_prev f) a d2). set (d4 := alter (with_next (hda f la)) a d3).
  assert (d4 !! a = Some (mkPage k (hda f la) f)) as Hd4. { unfold d4, d3. by rewrite !lookup_alter_eq, Hd. }
  assert (∀ b, b ≠ a → d4 !! b = d2 !! b) as Hne4. { intros b Hb. unfold d4, d3. by rewrite !lookup_alter_ne by done. }
  assert (ring f d4 la) as Hring4. { eapply ring_frame; [|exact Hring]. intros b Hb. apply Hne4. intros ->. set_solver. }
  exists (alter (with_next a) f (alter (with_prev a) (hda f la) d4)). split_and!.
  - mstep (ngx_put_prev_run (set_descs s d2) a f (mk_is_Some _ _ Hd)). fold d3.
    assert (d3 !! f = Some (mkPage hs (hda f la) hp)) as Hf3 by (unfold d3; by rewrite lookup_alter_ne).
    mstep (ngx_get_run (set_descs s d3) _ _ Hf3). cbn [next]. mstep (ngx_put_next_run (set_descs s d3) a (hda f la) (alter_some _ _ _ _ (mk_is_Some _ _ Hd))). fold d4.
    mstep (ngx_get_run (set_descs s d4) _ _ Hd4). cbn [next].
    assert (is_Some (d4 !! hda f la)) as Hex by (eapply ring_some; [exact Hring4|apply hda_in]).
    mstep (ngx_put_prev_run (set_descs s d4) _ a Hex). rewrite ngx_put_next_run; [done|]. simpl. apply alter_some. eapply ring_some; [exact Hring4|by left].
  - apply ring_push; try done. set_solver.
  - intros b Hb. rewrite !not_elem_of_cons in Hb. destruct Hb as (Hbf & Hba & Hbl). rewrite !lookup_alter_ne; [by apply Hne4| |done].
    intros <-. destruct (hda_in f la) as [E|E]; [by rewrite E in Hbf|done].
Qed.

(** Inside the run nothing is on the list. *)
Lemma give_off_in k : 0 < k < n → pa s (i + k) ∉ f :: (al s ((i, n) :: l0)).*1.
Proof using Hinv Hcase.
  intros Hk. pose proof (off_list N s l r i n k Hinv give_here ltac:(lia) ltac:(lia)) as Hoff. rewrite not_elem_of_cons in *. destruct Hoff as [H1 H2].
  split; [done|]. intros (m & [E|Hm]%elem_of_cons)%al_elem%elem_fst.
  - injection E as E1 E2. lia.
  - apply give_listed in Hm as [_ Hm]. apply H2. unfold al. rewrite <-list_fmap_compose. apply list_elem_of_fmap. by exists (i + k, m).
Qed.

Lemma give_ring_nodup : NoDup (f :: (al s ((i, n) :: l0)).*1).
Proof using Hinv Hcase.
  apply (al_ring_nodup N); [apply Hinv|apply give_nodup|]. intros j k Hj. destruct (n_run _ _ _ _ Hinv j k); [|done]. apply give_run. by right.
Qed.

Lemma give_finish d3 x y :
  ring f d3 (al s l0) → d3 !! pa s i = Some (mkPage n x y) → (∀ k, 0 < k < n → d3 !! pa s (i + k) = Some (mkPage 0 0 0)) →
  (∀ b, b ∉ f :: (al s ((i, n) :: l0)).*1 → (∀ k, 0 ≤ k < n → b ≠ pa s (i + k)) → d3 !! b = descs s !! b) →
  ∃ d', (put_prev (pa s i) f;; fr ← get_page f; put_next (pa s i) (next fr);; d ← get_page (pa s i); put_prev (next d) (pa s i);; put_next f (pa s i)) (set_descs s d3) =
      Ok (tt, set_descs s d') ∧ pinv N (set_descs s d') ((i, n) :: l0) r'.
Proof using Hinv Hcase.
  intros Hring Hi Hz Hout. pose proof give_ring_nodup as Hnd. simpl in Hnd. change (al s ((i, n) :: l0)) with ((pa s i, n) :: al s l0) in *. simpl in *.
  apply NoDup_cons in Hnd as [Hf1 Hnd]. apply not_elem_of_cons in Hf1 as [Hfi Hfl]. apply NoDup_cons in Hnd as [Hil Hnd].
  destruct (push_run d3 (pa s i) n x y (al s l0)) as (d' & Hrun & Hring' & Hout'); try done; [by apply NoDup_cons|by apply not_elem_of_cons|].
  exists d'. split; [done|]. apply give_pinv; [done| |].
  - intros k Hk. rewrite Hout' by (by apply give_off_in). by apply Hz.
  - intros b Hb Hbk. change (al s ((i, n) :: l0)) with ((pa s i, n) :: al s l0) in Hb. simpl in Hb. rewrite Hout' by done. by apply Hout.
Qed.

End give.

Lemma land_tag x : x mod 4 = 0 → Z.land x (Z.lnot NGX_SLAB_PAGE_MASK) = x.
Proof.
  intros H. rewrite <-Z.ldiff_land. change NGX_SLAB_PAGE_MASK with (Z.ones 2). rewrite Z.ldiff_ones_r by lia.
  rewrite Z.shiftl_mul_pow2, Z.shiftr_div_pow2 by lia. change (2 ^ 2) with 4. pose proof (Z.div_mod x 4). lia.
Qed.

Lemma layout_mod N s i : layout N s → pa s i mod 4 = 0.
Proof. intros [_ _ _ H _]. unfold pa, sizeof_page. replace (pages s + 24 * i) with (pages s + 6 * i * 4) by lia. by rewrite Z_mod_plus_full. Qed.

Lemma al_mod N s l : layout N s → lasta f (al s l) mod 4 = 0.
Proof.
  intros Hg. destruct (lasta_in f (al s l)) as [E|Hin]; [rewrite E; apply Hg|]. unfold al in *. rewrite <-list_fmap_compose in Hin.
  apply list_elem_of_fmap in Hin as (y & E & _). rewrite E. by eapply layout_mod.
Qed.

(** Unlinking a node of the list. *)
Lemma page_unlink_run N s d l1 i n l2 :
  layout N s → ring f d (al s l1 ++ (pa s i, n) :: al s l2) → NoDup (f :: (al s l1 ++ (pa s i, n) :: al s l2).*1) →
  ∃ d', unlink (pa s i) (set_descs s d) = Ok (tt, set_descs s d') ∧ ring f d' (al s (l1 ++ l2)) ∧
    (∀ b, b ∉ f :: (al s (l1 ++ l2)).*1 → d' !! b = d !! b).
Proof.
  intros Hg Hring Hnd. pose proof (ring_lookup _ _ _ _ _ _ Hring) as Hd. destruct (ring_neighbours _ _ _ _ _ _ Hring) as [Hpv Hnx].
  exists (alter (with_prev (lasta f (al s l1))) (hda f (al s l2)) (alter (with_next (hda f (al s l2))) (lasta f (al s l1)) d)). split_and!.
  - unfold unlink. mstep (ngx_get_run (set_descs s d) _ _ Hd). cbn [prev next]. rewrite land_tag by (by eapply al_mod).
    mstep (ngx_put_next_run (set_descs s d) _ (hda f (al s l2)) Hpv).
    assert (alter (with_next (hda f (al s l2))) (lasta f (al s l1)) d !! pa s i = Some (mkPage n (hda f (al s l2)) (lasta f (al s l1)))) as Hd'.
    { rewrite lookup_alter_ne; [done|]. intros E. apply NoDup_cons in Hnd as [Hfn Hnd]. rewrite fmap_app in Hfn, Hnd. apply NoDup_app in Hnd as (_ & Hdj & _).
      destruct (lasta_in f (al s l1)) as [E'|Hin]; [apply Hfn; rewrite <-E', E; set_solver|]. apply (Hdj _ Hin). rewrite E. set_solver. }
    mstep (ngx_get_run (set_descs s _) _ _ Hd'). cbn [prev next]. rewrite ngx_put_prev_run; [done|]. by apply alter_some.
  - rewrite al_app. apply (ring_splice f d (al s l1) (pa s i) n (al s l2) [] Hring Hnd); simpl; [set_solver|done].
  - intros b Hb. apply splice_out. by rewrite <-al_app.
Qed.

(** Up to the relinking: the run's own descriptor gets its length, the others are cleared. *)
Lemma free_clear N s l r i n p0 :
  pinv N s l r → run l r i n → descs s !! pa s i = Some p0 →
  ∃ d2, d2 !! pa s i = Some (with_slab n p0) ∧ (∀ k, 0 < k < n → d2 !! pa s (i + k) = Some (mkPage 0 0 0)) ∧
    (∀ b, (∀ k, 0 ≤ k < n → b ≠ pa s (i + k)) → d2 !! b = descs s !! b) ∧
    ngx_slab_free_pages C (pa s i) n s = ((if negb (next p0 =? 0) then unlink (pa s i) else mret tt);;
      put_prev (pa s i) f;; fr ← get_page f; put_next (pa s i) (next fr);; d ← get_page (pa s i); put_prev (next d) (pa s i);; put_next f (pa s i)) (set_descs s d2).
Proof.
  intros Hinv Hhere Hp0. destruct (n_run _ _ _ _ Hinv _ _ Hhere) as (Hi0 & Hn1 & HiN). destruct (n_geo _ _ _ _ Hinv) as [_ _ _ _ HN].
  set (d1 := alter (with_slab n) (pa s i) (descs s)). set (d2 := fill (Z.to_nat (n - 1)) (pa s (i + 1)) (mkPage 0 0 0) d1).
  assert (∀ k, pa s (i + 1) + sizeof_page * k = pa s (i + (1 + k))) as Hpa by (intros; unfold pa, sizeof_page; lia).
  assert (d2 !! pa s i = Some (with_slab n p0)) as H2i.
  { unfold d2. rewrite lookup_fill_out; [unfold d1; by rewrite lookup_alter_eq, Hp0|]. intros k Hk E. rewrite Hpa in E. apply pa_inj in E. lia. }
  exists d2. split_and!; [done| | |].
  - intros k Hk. replace (pa s (i + k)) with (pa s (i + 1) + sizeof_page * (k - 1)) by (rewrite Hpa; f_equal; lia). apply lookup_fill_in. lia.
  - intros b Hb. unfold d2. rewrite lookup_fill_out; [|intros k Hk; rewrite Hpa; apply Hb; lia]. unfold d1. apply lookup_alter_ne.
    specialize (Hb 0 ltac:(lia)). rewrite Z.add_0_r in Hb. done.
  - unfold ngx_slab_free_pages. mstep (ngx_put_slab_run s (pa s i) n (mk_is_Some _ _ Hp0)). fold d1. rewrite wrapu_small by lia.
    assert (page_at (pa s i) 1 = pa s (i + 1)) as -> by (unfold page_at, pa, sizeof_page; lia).
    rewrite (bind_ok _ _ _ tt (set_descs s d2)); [|apply (fill_run zero_pages (mkPage 0 0 0)); [done|done|]].
    + by mstep (ngx_get_run (set_descs s d2) _ _ H2i).
    + intros k Hk. rewrite Hpa. simpl. apply alter_some. eapply desc_some; [exact Hinv|lia].
Qed.

Lemma free_pages_ok N s l l0 i n r r' :
  pinv N s l r → (r !! i = Some n ∧ l0 = l ∧ r' = delete i r) ∨ (∃ l1 l2, l = l1 ++ (i, n) :: l2 ∧ l0 = l1 ++ l2 ∧ r' = r) →
  ∃ d', ngx_slab_free_pages C (pa s i) n s = Ok (tt, set_descs s d') ∧ pinv N (set_descs s d') ((i, n) :: l0) r'.
Proof.
  intros Hinv Hcase. pose proof (give_here _ _ _ _ _ _ Hcase) as Hhere. destruct (n_run _ _ _ _ Hinv _ _ Hhere) as (Hi0 & Hn1 & HiN).
  pose proof (n_geo _ _ _ _ Hinv) as Hg. destruct (Hg) as [Hf0 _ _ _ HN].
  destruct (desc_some N s l r i Hinv) as [p0 Hp0]; [lia|]. destruct (free_clear N s l r i n p0 Hinv Hhere Hp0) as (d2 & H2i & H2z & H2o & ->).
  assert (∀ la, (∀ k, 0 < k < n → pa s (i + k) ∉ f :: la.*1) → (pa s i ∉ f :: la.*1 ∨ with_slab n p0 = p0) → ring f (descs s) la → ring f d2 la) as H2r.
  { intros la Hoff Hi. apply ring_frame. intros a Ha. destruct (decide (a = pa s i)) as [->|Hne]; [rewrite H2i; destruct Hi as [|E]; [done|by rewrite E]|].
    apply H2o. intros k Hk ->. destruct (decide (k = 0)) as [->|]; [by rewrite Z.add_0_r in Hne|]. apply (Hoff k); [lia|done]. }
  pose proof Hcase as [(Hu & -> & ->)|(l1 & l2 & -> & -> & ->)].
  - rewrite (n_used _ _ _ _ Hinv _ _ Hu) in Hp0. injection Hp0 as <-. cbn [next]. rewrite Z.eqb_refl. cbn [negb].
    eapply (give_finish N s l l i n r (delete i r) Hinv Hcase d2); [|exact H2i|exact H2z|by intros; apply H2o].
    apply H2r; [intros k Hk; eapply off_list; [exact Hinv|exact Hhere|lia|lia]| |apply Hinv].
    left. rewrite <-(Z.add_0_r i). eapply off_list; [exact Hinv|exact Hhere|lia|by right].
  - destruct (take_ring _ _ _ _ _ _ _ Hinv) as [Hring Hnd]. rewrite (ring_lookup _ _ _ _ _ _ Hring) in Hp0. injection Hp0 as <-. cbn [next].
    assert (hda f (al s l2) ≠ 0) as Hnz.
    { destruct (hda_in f (al s l2)) as [E|E]; [rewrite E; lia|]. unfold al in *. rewrite <-list_fmap_compose in E. apply list_elem_of_fmap in E as ([j m] & E & Hin). rewrite E.
      apply (pa_free N s); [done|]. apply (n_run _ _ _ _ Hinv j m). right. set_solver. }
    rewrite (proj2 (Z.eqb_neq _ _)) by done. cbn [negb].
    assert (∀ k, 0 < k < n → pa s (i + k) ∉ f :: (al s l1 ++ (pa s i, n) :: al s l2).*1) as Hoff.
    { intros k Hk. change ((pa s i, n) :: al s l2) with (al s ((i, n) :: l2)). rewrite <-al_app. eapply off_list; [exact Hinv|exact Hhere|lia|lia]. }
    destruct (page_unlink_run N s d2 l1 i n l2 Hg) as (d3 & Hul & Hring3 & Hout3); [by apply H2r; [exact Hoff|right|exact Hring]|exact Hnd|].
    mstep Hul. eapply (give_finish N s _ (l1 ++ l2) i n r r Hinv Hcase d3); [done|rewrite Hout3; [exact H2i|]|intros k Hk; rewrite Hout3; [by apply H2z|]|].
    + pose proof (give_ring_nodup _ _ _ _ _ _ _ _ Hinv Hcase) as Hnd'. change (al s ((i, n) :: l1 ++ l2)) with ((pa s i, n) :: al s (l1 ++ l2)) in Hnd'. simpl in Hnd'.
      rewrite !NoDup_cons, !not_elem_of_cons in *. naive_solver.
    + pose proof (give_off_in _ _ _ _ _ _ _ _ Hinv Hcase k Hk) as Ho. change (al s ((i, n) :: l1 ++ l2)) with ((pa s i, n) :: al s (l1 ++ l2)) in Ho. simpl in Ho. rewrite !not_elem_of_cons in *. naive_solver.
    + intros b Hb Hbk. change (al s ((i, n) :: l1 ++ l2)) with ((pa s i, n) :: al s (l1 ++ l2)) in Hb. simpl in Hb. rewrite Hout3; [by apply H2o|]. rewrite !not_elem_of_cons in *. naive_solver.
Qed.

(** A pool whose pages are one free run. *)
Lemma one_run_pinv N s hs hp :
  layout N s → 1 ≤ N → descs s !! f = Some (mkPage hs (pages s) hp) → descs s !! pages s = Some (mkPage N f f) →
  (∀ k, 0 < k < N → descs s !! pa s k = Some (mkPage 0 0 0)) → pinv N s [(0, N)] ∅.
Proof.
  intros Hg HN Hf Hp Hz. assert (∀ i n, run [(0, N)] ∅ i n → i = 0 ∧ n = N) as Hrun.
  { intros i n [Hu|Hi]; [done|]. apply list_elem_of_singleton in Hi. by injection Hi. }
  split; try done.
  - unfold al, pa; simpl. rewrite Z.mul_0_r, Z.add_0_r. split; simpl; [by exists hs, hp|done].
  - apply NoDup_singleton.
  - intros i n Hr. apply Hrun in Hr as [-> ->]. lia.
  - intros i n j k Hr Hr'. apply Hrun in Hr as [-> ->], Hr' as [-> ->]. by left.
  - intros i n k Hi Hk. apply list_elem_of_singleton in Hi. injection Hi as -> ->. by apply Hz.
  - intros k Hk. exists 0, N. split; [right; set_solver|lia].
Qed.
End pages.
End NgxSlabFacts.
