(* ===== verification/NgxSlabProps.v ===== *)
(** The nginx slab pool's properties: page allocation from an initialised pool, the round trip
    of a chunk on a page with one bitmap word, sizes that wrap around, and what goes wrong on
    the pages of other sizes. *)

From stdpp Require Import relations.
From S2P Require Import Prelude NgxSlab NgxSlabFacts.
From stdpp Require Import options.
#[local] Open Scope Z_scope.

Module NgxSlabProps.
Import NgxSlab NgxSlabFacts.

(** ** Machine words *)




Section pool.
Context (C : consts).
Abbreviation f := (free_at C).
Abbreviation ps := (2 ^ ngx_pagesize_shift C).


(** Where the pages are. *)
Record geom (N : Z) (s : st) : Prop := {
  o_page : NGX_SLAB_PAGE C = 0;
  o_free0 : NGX_SLAB_PAGE_FREE C = 0;
  o_kinds : NGX_SLAB_SMALL C ≠ 0 ∧ NGX_SLAB_EXACT C ≠ 0 ∧ NGX_SLAB_BIG C ≠ 0;
  o_ps : ngx_pagesize C = ps;
  o_sh : 5 ≤ ngx_pagesize_shift C ≤ 40;
  o_start : 0 < start s;
  o_align : start s mod ps = 0;
  o_end : start s + N * ps ≤ end_ s < 2 ^ 62;
}.


Lemma geom_ps N s : geom N s → 32 ≤ ps ≤ 2 ^ 40.
Proof. intros Hg. destruct (o_sh _ _ Hg). change 32 with (2 ^ 5). split; apply Z.pow_le_mono_r; lia. Qed.

Lemma page_addr_pa N s i : geom N s → 0 ≤ i < N → page_addr C s (pa s i) = start s + i * ps.
Proof.
  intros Hg Hi. pose proof (geom_ps _ _ Hg). destruct (o_end _ _ Hg). pose proof (o_start _ _ Hg). unfold page_addr, pa. replace (pages s + sizeof_page * i - pages s) with (i * sizeof_page) by lia.
  rewrite Z.div_mul by done. rewrite Z.shiftl_mul_pow2 by (pose proof (o_sh _ _ Hg); lia).
  assert (0 ≤ i * ps < N * ps) by (split; [apply Z.mul_nonneg_nonneg|apply Z.mul_lt_mono_pos_r]; lia). rewrite !wrapu_small; rewrite ?wrapu_small; lia.
Qed.

(** ** Initialisation *)



(** ** Whole pages: the allocator and its clients as a transition system *)









(** ** Sizes that wrap around *)

Lemma mark_busy_off n p s : (∃ k, 0 ≤ k < Z.of_nat n ∧ descs s !! (p + sizeof_page * k) = None) → mark_busy C n p s = Err FUndef.
Proof.
  revert p s. induction n as [|n IH]; intros p s (k & Hk & Hno); [lia|]. simpl. destruct (descs s !! p) as [q|] eqn:E.
  - mstep (ngx_put_run _ _ _ (mkPage NGX_SLAB_PAGE_BUSY 0 (NGX_SLAB_PAGE C)) E). apply IH. destruct (decide (k = 0)) as [->|].
    { rewrite Z.mul_0_r, Z.add_0_r in Hno. congruence. }
    exists (k - 1). split; [lia|]. simpl. rewrite lookup_insert_ne by (unfold sizeof_page; lia). rewrite <-Hno. f_equal. lia.
  - unfold mbind, M_bind, put_page, get_page, mbind, M_bind, get, lift. by rewrite E.
Qed.

(** More places than descriptors: one of them is outside. *)
Lemma off_the_end (d : gmap Z ngx_slab_page_t) n p : Z.of_nat (size d) < Z.of_nat n → ∃ k, 0 ≤ k < Z.of_nat n ∧ d !! (p + sizeof_page * k) = None.
Proof.
  intros Hn. set (L := (λ k, p + sizeof_page * Z.of_nat k) <$> seq 0 n).
  assert (NoDup L) as Hnd. { apply NoDup_fmap_2; [|apply NoDup_seq]. intros x y. unfold sizeof_page. lia. }
  destruct (decide (Forall (λ a, is_Some (d !! a)) L)) as [Hall|Hex].
  - pose proof (nodup_size d L Hnd (proj1 (Forall_forall _ _) Hall)) as Hle. unfold L in Hle. rewrite length_fmap, length_seq in Hle. lia.
  - apply not_Forall_Exists, Exists_exists in Hex as (a & Ha & Hno); [|apply _]. apply list_elem_of_fmap in Ha as (k & -> & Hk). apply elem_of_seq in Hk.
    exists (Z.of_nat k). split; [lia|]. by apply eq_None_not_Some.
Qed.

(** The number of pages is computed as [(size+ngx_pagesize-1) >> ngx_pagesize_shift] without
    a test: for a size within a page of 2^64 it is 0, any free run satisfies it, and the loop that
    marks the run's other pages, running 2^64-1 times, writes beyond the descriptors. *)
Theorem ngx_size_wraps N s l i n r slots size :
  pinv C N s ((i, n) :: l) r → ngx_pagesize C = ps → 5 ≤ ngx_pagesize_shift C ≤ 40 → ngx_slab_max_size s ≤ size → 2 ^ 64 - ps < size < 2 ^ 64 →
  Z.of_nat (base.size (descs s)) < 2 ^ 64 - 1 →
  ngx_slab_alloc_locked C slots size s = Err FUndef.
Proof.
  intros Hinv Hps Hsh Hmax Hsz Hd. assert (32 ≤ ps ≤ 2 ^ 40) as Hps32. { change 32 with (2 ^ 5). split; apply Z.pow_le_mono_r; lia. }
  unfold ngx_slab_alloc_locked. rewrite bind_get, (proj2 (Z.leb_le _ _)) by done. rewrite Hps, Z.shiftr_div_pow2 by lia.
  assert (u64 (size + ps - 1) / ps = 0) as ->.
  { unfold wrapu. replace (size + ps - 1) with (size + ps - 1 - 2 ^ 64 + 1 * 2 ^ 64) by lia. rewrite Z_mod_plus_full, Z.mod_small by lia. apply Z.div_small. lia. }
  destruct (n_run _ _ _ _ _ Hinv i n) as (Hi0 & Hn1 & HiN); [right; set_solver|]. pose proof (g_N _ _ _ (n_geo _ _ _ _ _ Hinv)) as HN.
  destruct (pa_free C N s i (n_geo _ _ _ _ _ Hinv) Hi0) as [Hpf _]. destruct (take_ring C N s [] l i n r Hinv) as [Hring _]. simpl in Hring.
  pose proof (ring_lookup _ _ [] _ _ _ Hring) as Hpi. destruct (ring_neighbours _ _ [] _ _ _ Hring) as [Hpv Hnx]. unfold lasta in Hpi, Hpv. simpl in Hpi, Hpv.
  destruct (Hring) as [(hs & hp & Hf) _]. simpl in Hf.
  enough (ngx_slab_alloc_pages C 0 s = Err FUndef) as Hp by (unfold mbind, M_bind; by rewrite Hp).
  unfold ngx_slab_alloc_pages. mstep (ngx_get_run _ _ _ Hf). rewrite bind_get. cbn [next].
  set (q := mkPage n (hda f (al s l)) f) in *.
  enough (take_run C (pa s i) 0 q s = Err FUndef) as Ht.
  { destruct (base.size (descs s)); simpl; rewrite (proj2 (Z.eqb_neq _ _)) by done; mstep (ngx_get_run _ _ _ Hpi); unfold q; cbn [slab];
      rewrite (proj2 (Z.leb_le 0 n)) by lia; exact Ht. }
  unfold take_run. unfold q at 1 2 3 4 5. cbn [slab next prev]. rewrite (proj2 (Z.ltb_lt 0 n)) by lia. assert (page_at (pa s i) 0 = pa s i) as -> by (unfold page_at; lia).
  rewrite Z.sub_0_r, (wrapu_small 64 n) by lia. fold q.
  set (d1 := <[pa s i := q]> (descs s)). set (d2 := alter (with_next (pa s i)) f d1). set (d3 := alter (with_prev (pa s i)) (hda f (al s l)) d2).
  rewrite (bind_ok _ _ _ tt (set_descs s d3)).
  2: { mstep (ngx_put_run s _ _ q Hpi). fold d1. assert (d1 = descs s) as E1 by (by apply insert_id). mstep (ngx_put_next_run (set_descs s d1) f (pa s i) ltac:(simpl; rewrite E1; eauto)).
       fold d2. apply ngx_put_prev_run. simpl. unfold d2. rewrite E1. by apply alter_some. }
  assert (is_Some (d3 !! pa s i)) as [p3 Hp3]. { unfold d3, d2, d1. apply alter_some, alter_some. rewrite lookup_insert_eq. eauto. }
  mstep (ngx_put_run (set_descs s d3) _ _ (mkPage (Z.lor 0 NGX_SLAB_PAGE_START) 0 (NGX_SLAB_PAGE C)) Hp3).
  unfold mbind, M_bind. rewrite mark_busy_off; [done|]. apply off_the_end. simpl. unfold wrapu. change ((0 - 1) mod 2 ^ 64) with (2 ^ 64 - 1).
  rewrite Z2Nat.id by lia. rewrite map_size_insert_Some by eauto. unfold d3, d2, d1. rewrite <-!size_dom, !dom_alter_L, dom_insert_lookup_L by eauto. by rewrite size_dom.
Qed.

End pool.

(** ** Chunks on pages with one bitmap word *)

(** The search finds the lowest clear bit. *)
Lemma clear_bit_spec fuel w i :
  (∃ j, i ≤ j < i + Z.of_nat fuel ∧ Z.testbit w j = false) →
  ∃ b, clear_bit fuel w i = Some b ∧ i ≤ b < i + Z.of_nat fuel ∧ Z.testbit w b = false ∧ ∀ j, i ≤ j < b → Z.testbit w j = true.
Proof.
  revert i. induction fuel as [|fuel IH]; intros i (j & Hj & Hw); [lia|]. simpl. destruct (Z.testbit w i) eqn:E.
  - destruct (IH (i + 1)) as (b & Hb & Hr & Hbw & Hlow). { exists j. split; [|done]. destruct (decide (j = i)) as [->|]; [congruence|lia]. }
    exists b. split_and!; [done|lia|lia|done|]. intros k Hk. destruct (decide (k = i)) as [->|]; [done|apply Hlow; lia].
  - exists i. split_and!; [done|lia|lia|done|lia].
Qed.

Lemma not_busy_bit w : 0 ≤ w < 2 ^ 64 → w ≠ NGX_SLAB_BUSY → ∃ j, 0 ≤ j < 0 + Z.of_nat 64 ∧ Z.testbit w j = false.
Proof.
  intros Hw Hne. destruct (decide (Forall (λ j, Z.testbit w (Z.of_nat j) = true) (seq 0 64))) as [Hall|Hex].
  - exfalso. apply Hne. change NGX_SLAB_BUSY with (Z.ones 64). apply Z.bits_inj'. intros b Hb. rewrite Z.testbit_ones_nonneg by lia.
    rewrite Forall_forall in Hall. destruct (Z.ltb_spec b 64).
    + specialize (Hall (Z.to_nat b)). rewrite Z2Nat.id in Hall by lia. apply Hall, elem_of_seq. lia.
    + apply Z.bits_above_log2; [lia|]. destruct (decide (w = 0)) as [->|]; [simpl; lia|]. assert (Z.log2 w < 64) by (apply Z.log2_lt_pow2; lia). lia.
  - apply not_Forall_Exists, Exists_exists in Hex as (j & Hj & Hb); [|apply _]. apply elem_of_seq in Hj. exists (Z.of_nat j). split; [lia|].
    apply not_true_is_false. exact Hb.
Qed.

Lemma set_bit_at w b : 0 ≤ b → Z.testbit (set_bit w b) b = true.
Proof. intros Hb. unfold set_bit. rewrite Z.shiftl_1_l, Z.lor_spec, Z.pow2_bits_true by done. apply orb_true_r. Qed.

Lemma set_bit_clear w b : 0 ≤ b → Z.testbit w b = false → Z.land (set_bit w b) (Z.lnot (Z.shiftl 1 b)) = w.
Proof.
  intros Hb Hw. unfold set_bit. rewrite Z.shiftl_1_l. apply Z.bits_inj'. intros k Hk. rewrite Z.land_spec, Z.lor_spec, Z.lnot_spec, Z.pow2_bits_eqb by lia.
  destruct (Z.eqb_spec b k) as [<-|]; [by rewrite Hw|]. by rewrite orb_false_r, andb_true_r.
Qed.

(** The loop counts the bits of [size-1]. *)
Lemma shift_loop_log2 fuel x k : 0 < x → Z.log2 x < Z.of_nat fuel → shift_loop fuel x k = k + Z.log2 x.
Proof.
  revert x k. induction fuel as [|fuel IH]; intros x k Hx Hf; [pose proof (Z.log2_nonneg x); lia|]. cbn [shift_loop].
  rewrite Z.shiftr_div_pow2 by lia. change (2 ^ 1) with 2. destruct (Z.eqb_spec (x / 2) 0) as [E|E].
  - assert (x = 1) as -> by (pose proof (Z.div_mod x 2); pose proof (Z.mod_pos_bound x 2); lia). simpl. lia.
  - assert (0 < x / 2) as Hx2 by (pose proof (Z.div_pos x 2); lia). assert (Z.log2 x = Z.succ (Z.log2 (x / 2))) as Hlog.
    { pose proof (Z.log2_shiftr x 1 Hx) as Hls. rewrite Z.shiftr_div_pow2 in Hls by lia. change (2 ^ 1) with 2 in Hls.
      assert (1 ≤ Z.log2 x) by (apply Z.log2_le_pow2; [lia|]; pose proof (Z.div_mod x 2); pose proof (Z.mod_pos_bound x 2); lia). lia. }
    rewrite IH by lia. lia.
Qed.

Section exact.
Context (C : consts) (N : Z) (s : st) (i w nx : Z) (h : ngx_slab_page_t).
Abbreviation ps := (2 ^ ngx_pagesize_shift C).
Abbreviation es := (ngx_pagesize_shift C - 6).
Abbreviation slot := (page_at (slots_at C) (es - min_shift s)).
Hypothesis Hg : geom C N s.
Hypothesis Hi : 0 ≤ i < N.
Hypothesis Hsh : 7 ≤ ngx_pagesize_shift C.
Hypothesis Hkind : NGX_SLAB_EXACT C = 2 ∧ NGX_SLAB_SMALL C ≠ 2.
Hypothesis Hes : ngx_slab_exact_shift s = es ∧ ngx_slab_exact_size s = 2 ^ es.
Hypothesis Hw : 0 < w < 2 ^ 64 - 1.
Hypothesis Hslot : slot mod 4 = 0.
Hypothesis Hne : slot ≠ pa s i ∧ nx ≠ pa s i.
Hypothesis Hd : descs s !! pa s i = Some (mkPage w nx (Z.lor slot 2)).
Hypothesis Hh : descs s !! slot = Some h ∧ next h = pa s i.
Hypothesis Hnx : is_Some (descs s !! nx).

Lemma chunk_place b : 0 ≤ b < 64 →
  let a := start s + i * ps + b * 2 ^ es in
  start s ≤ a < end_ s ∧ Z.shiftr (a - start s) (ngx_pagesize_shift C) = i ∧ a mod ps = b * 2 ^ es ∧ a mod 2 ^ es = 0 ∧ Z.shiftr (a mod ps) es = b.
Proof using Hg Hi Hsh.
  clear Hkind Hes Hw Hslot Hne Hd Hh Hnx. intros Hb. simpl. pose proof (geom_ps _ _ _ Hg) as Hps. pose proof (o_sh _ _ _ Hg). destruct (o_end _ _ _ Hg) as [He _].
  assert (ps = 64 * 2 ^ es) as Hpe by (change 64 with (2 ^ 6); rewrite <-Z.pow_add_r by lia; f_equal; lia).
  assert (0 < 2 ^ es) by (apply Z.pow_pos_nonneg; lia). assert (0 ≤ b * 2 ^ es < ps) as Hbr by nia.
  pose proof (Z.div_mod (start s) ps) as Hdm. rewrite (o_align _ _ _ Hg) in Hdm. set (c := start s / ps) in *.
  assert ((start s + i * ps + b * 2 ^ es) mod ps = b * 2 ^ es) as Hmod.
  { replace (start s + i * ps + b * 2 ^ es) with (b * 2 ^ es + (c + i) * ps) by lia. rewrite Z_mod_plus_full. by apply Z.mod_small. }
  split_and!.
  - assert (0 ≤ i * ps) by (apply Z.mul_nonneg_nonneg; lia). lia.
  - assert ((i + 1) * ps ≤ N * ps) by (apply Z.mul_le_mono_nonneg_r; lia). lia.
  - rewrite Z.shiftr_div_pow2 by lia. replace (start s + i * ps + b * 2 ^ es - start s) with (b * 2 ^ es + i * ps) by lia.
    rewrite Z.div_add, Z.div_small by lia. lia.
  - done.
  - replace (start s + i * ps + b * 2 ^ es) with ((c * 64 + i * 64 + b) * 2 ^ es) by (rewrite (Z.mul_comm ps c) in Hdm; rewrite Hpe in *; lia). apply Z.mod_mul. lia.
  - rewrite Hmod, Z.shiftr_div_pow2, Z.div_mul by lia. done.
Qed.

Lemma slot_tag : Z.land (Z.lor slot 2) (Z.lnot NGX_SLAB_PAGE_MASK) = slot ∧ Z.land (Z.lor slot 2) NGX_SLAB_PAGE_MASK = 2.
Proof using Hslot.
  clear Hg Hi Hsh Hkind Hes Hw Hne Hd Hh Hnx. rewrite !Z.land_lor_distr_l. split.
  - rewrite land_tag by done. by rewrite Z.lor_0_r.
  - change NGX_SLAB_PAGE_MASK with (Z.ones 2). rewrite Z.land_ones by lia. change (2 ^ 2) with 4. by rewrite Hslot.
Qed.

(** The descriptors after the allocation of chunk [b]: the page leaves the list when it is full. *)
Definition after_alloc (b : Z) : gmap Z ngx_slab_page_t :=
  let d1 := alter (with_slab (set_bit w b)) (pa s i) (descs s) in
  if set_bit w b =? NGX_SLAB_BUSY then
    alter (with_prev 2) (pa s i) (alter (with_next 0) (pa s i) (alter (with_prev (Z.lor slot 2)) nx (alter (with_next nx) slot d1)))
  else d1.

Lemma try_exact_run b :
  clear_bit 64 w 0 = Some b → 0 ≤ b < 64 →
  try_exact C (pa s i) es s = Ok (Some (start s + i * ps + b * 2 ^ es), set_descs s (after_alloc b)).
Proof using Hg Hi Hsh Hkind Hw Hslot Hne Hd Hh Hnx.
  clear Hes. intros Hb Hbr. unfold try_exact. mstep (ngx_get_run _ _ _ Hd). cbn [slab]. unfold NGX_SLAB_BUSY at 1. zneq w 0xffffffffffffffff. rewrite Hb.
  mstep (ngx_put_slab_run s (pa s i) (set_bit w b) (mk_is_Some _ _ Hd)). set (d1 := alter (with_slab (set_bit w b)) (pa s i) (descs s)).
  destruct (chunk_place b Hbr) as ([Ha1 Ha2] & _). pose proof (o_sh _ _ _ Hg). destruct (o_end _ _ _ Hg) as [_ He].
  assert (∀ d, (s' ← get; mret (Some (u64 (page_addr C s' (pa s i) + Z.shiftl b es)))) (set_descs s d) = Ok (Some (start s + i * ps + b * 2 ^ es), set_descs s d)) as Hend.
  { intros d. rewrite bind_get. change (page_addr C (set_descs s d) (pa s i)) with (page_addr C s (pa s i)). rewrite (page_addr_pa C N) by done.
    pose proof (o_start _ _ _ Hg). rewrite Z.shiftl_mul_pow2, wrapu_small by lia. done. }
  unfold after_alloc. fold d1. destruct (set_bit w b =? NGX_SLAB_BUSY) eqn:Efull; [|unfold mbind at 1, M_bind at 1, mret at 1, M_ret at 1; apply Hend].
  destruct Hne as [Hne1 Hne2]. destruct Hh as [Hh1 Hh2]. destruct slot_tag as [Htag _]. destruct Hkind as [-> _].
  set (d2 := alter (with_next nx) slot d1). set (d3 := alter (with_prev (Z.lor slot 2)) nx d2).
  assert (d1 !! pa s i = Some (mkPage (set_bit w b) nx (Z.lor slot 2))) as Hd1 by (unfold d1; by rewrite lookup_alter_eq, Hd).
  assert (d2 !! pa s i = Some (mkPage (set_bit w b) nx (Z.lor slot 2))) as Hd2 by (unfold d2; by rewrite lookup_alter_ne).
  rewrite (bind_ok _ _ _ tt (set_descs s (alter (with_prev 2) (pa s i) (alter (with_next 0) (pa s i) d3)))); [apply Hend|].
  unfold page_full. rewrite (bind_ok _ _ _ tt (set_descs s d3)).
  - mstep (ngx_put_next_run (set_descs s d3) (pa s i) 0 ltac:(apply alter_some; eauto)). apply ngx_put_prev_run. simpl. apply alter_some, alter_some. eauto.
  - unfold unlink. mstep (ngx_get_run (set_descs s d1) _ _ Hd1). cbn [prev next]. rewrite Htag.
    mstep (ngx_put_next_run (set_descs s d1) slot nx ltac:(apply alter_some; eauto)). fold d2.
    mstep (ngx_get_run (set_descs s d2) _ _ Hd2). cbn [prev next]. apply ngx_put_prev_run. simpl. by apply alter_some, alter_some.
Qed.

(** The descriptors after chunk [b] is given back. *)
Definition after_free (b : Z) : gmap Z ngx_slab_page_t :=
  if set_bit w b =? NGX_SLAB_BUSY then alter (with_prev (Z.lor (pa s i) 2)) nx (descs s) else descs s.

Lemma free_exact_run b :
  0 ≤ b < 64 → Z.testbit w b = false →
  free_exact C (pa s i) (start s + i * ps + b * 2 ^ es) (set_descs s (after_alloc b)) = Ok (tt, set_descs s (after_free b)).
Proof using Hg Hi Hsh Hkind Hes Hw Hslot Hne Hd Hh Hnx.
  intros Hb Hbit. destruct (chunk_place b Hb) as (_ & _ & Hm1 & Hm2 & Hm3). destruct Hes as [Hes1 Hes2]. destruct Hne as [Hne1 Hne2]. destruct Hh as [Hh1 Hh2].
  set (a := start s + i * ps + b * 2 ^ es) in *. set (D := after_alloc b). set (kd := if set_bit w b =? NGX_SLAB_BUSY then (0, 2) else (nx, Z.lor slot 2)).
  assert (D !! pa s i = Some (mkPage (set_bit w b) kd.1 kd.2)) as HD.
  { unfold D, after_alloc, kd. destruct (set_bit w b =? NGX_SLAB_BUSY); repeat (rewrite lookup_alter_eq || rewrite lookup_alter_ne by done); by rewrite Hd. }
  unfold free_exact. mstep (ngx_get_run (set_descs s D) _ _ HD). rewrite bind_get. cbn [slab ngx_slab_exact_shift ngx_slab_exact_size set_descs min_shift].
  pose proof (o_sh _ _ _ Hg). rewrite Hes1, Hes2, (o_ps _ _ _ Hg).
  assert (∀ k, 0 ≤ k → 2 ^ k - 1 = Z.ones k) as Hones by (intros; rewrite Z.ones_equiv; lia). rewrite !Hones, !Z.land_ones by lia. rewrite Hm2, Hm3. cbn [Z.eqb negb].
  rewrite set_bit_at by lia. cbn [negb]. rewrite set_bit_clear by (lia || done). rewrite (proj2 (Z.eqb_neq w 0)) by lia. cbn [negb].
  unfold after_free. unfold D, after_alloc in *. destruct (set_bit w b =? NGX_SLAB_BUSY) eqn:Efull.
  - set (d1 := alter (with_next nx) (pa s i) (alter (with_prev 2) (pa s i) (alter (with_next 0) (pa s i) (alter (with_prev (Z.lor slot 2)) nx (alter (with_next nx) slot (alter (with_slab (set_bit w b)) (pa s i) (descs s))))))).
    set (d2 := alter (with_prev (Z.lor slot 2)) (pa s i) (alter (with_next (pa s i)) slot d1)).
    destruct Hkind as [-> _]. unfold relist.
    assert (∃ q, alter (with_prev 2) (pa s i) (alter (with_next 0) (pa s i) (alter (with_prev (Z.lor slot 2)) nx (alter (with_next nx) slot (alter (with_slab (set_bit w b)) (pa s i) (descs s))))) !! slot = Some q ∧ next q = nx) as (q & Hq & Hqn).
    { rewrite !(lookup_alter_ne _ _ (pa s i)) by done. destruct (decide (nx = slot)) as [->|]; repeat (rewrite lookup_alter_eq || rewrite lookup_alter_ne by done); rewrite Hh1; by eexists. }
    assert (d2 !! pa s i = Some (mkPage (set_bit w b) nx (Z.lor slot 2))) as Hd2.
    { unfold d2, d1. repeat (rewrite lookup_alter_eq || rewrite lookup_alter_ne by done). by rewrite Hd. }
    rewrite (bind_ok _ _ _ tt (set_descs s (alter (with_prev (Z.lor (pa s i) 2)) nx d2))).
    2: { mstep (ngx_get_run (set_descs s _) _ _ Hq). rewrite Hqn. mstep (ngx_put_next_run (set_descs s _) (pa s i) nx (mk_is_Some _ _ HD)). fold d1.
         mstep (ngx_put_next_run (set_descs s d1) slot (pa s i) ltac:(apply alter_some; eauto)).
         mstep (ngx_put_prev_run (set_descs s (alter (with_next (pa s i)) slot d1)) (pa s i) (Z.lor slot 2) ltac:(apply alter_some, alter_some; eauto)). fold d2.
         mstep (ngx_get_run (set_descs s d2) _ _ Hd2). apply ngx_put_prev_run. simpl. unfold d2, d1. by repeat apply alter_some. }
    erewrite bind_ok; [|apply ngx_put_slab_run; simpl; apply alter_some; eauto]. unfold mret, M_ret. do 2 f_equal. simpl. unfold set_descs. f_equal. simpl.
    apply map_eq. intros k. unfold d2, d1. destruct (decide (k = pa s i)) as [->|Hk].
    + repeat (rewrite lookup_alter_eq || rewrite lookup_alter_ne by done). by rewrite Hd.
    + rewrite !(lookup_alter_ne _ _ (pa s i) k) by done. destruct (decide (k = slot)) as [->|Hks]; [destruct (decide (nx = slot)) as [->|]|];
        [repeat (rewrite lookup_alter_eq || rewrite lookup_alter_ne by done); rewrite Hh1; simpl; unfold with_next, with_prev, with_slab; simpl; rewrite <-Hh2; by destruct h..|].
      destruct (decide (k = nx)) as [->|]; repeat (rewrite lookup_alter_eq || rewrite lookup_alter_ne by done); [by destruct (descs s !! nx)|done].
  - unfold mbind at 1, M_bind at 1, mret at 1, M_ret at 1. erewrite bind_ok; [|apply ngx_put_slab_run; simpl; eauto]. unfold mret, M_ret. do 2 f_equal. simpl. unfold set_descs. f_equal. simpl.
    apply map_eq. intros k. destruct (decide (k = pa s i)) as [->|Hk]; [by rewrite !lookup_alter_eq, Hd|by rewrite !lookup_alter_ne].
Qed.

(** A request between half the exact size and the exact size, when its slot's first page has a
    free chunk: the page's lowest free chunk is handed out; giving it back restores every
    descriptor, also when the page was full in between and left the list (then only the [prev] of
    the page's successor, which nobody follows for a first page, is rewritten). *)
Theorem ngx_exact_roundtrip size :
  min_size s < size < ngx_slab_max_size s → 2 ^ (es - 1) < size ≤ 2 ^ es →
  ∃ b s1, 0 ≤ b < 64 ∧ Z.testbit w b = false ∧ (∀ j, 0 ≤ j < b → Z.testbit w j = true) ∧
    ngx_slab_alloc_locked C (slots_at C) size s = Ok (start s + i * ps + b * 2 ^ es, s1) ∧
    ngx_slab_free_locked C (start s + i * ps + b * 2 ^ es) s1 = Ok (tt, set_descs s (after_free b)).
Proof using Hg Hi Hsh Hkind Hes Hw Hslot Hne Hd Hh Hnx.
  intros Hsize Hpow. pose proof (o_sh _ _ _ Hg). destruct (clear_bit_spec 64 w 0) as (b & Hcb & Hb & Hbit & Hlow).
  { apply not_busy_bit; [lia|]. unfold NGX_SLAB_BUSY. lia. }
  assert (0 ≤ b < 64) as Hb' by lia. exists b, (set_descs s (after_alloc b)). split_and!; [lia|lia|done|done| |].
  - assert (chunk_shift s size = es) as Hcs.
    { unfold chunk_shift. rewrite (proj2 (Z.ltb_lt _ _)) by lia. assert (0 < 2 ^ (es - 1)) by (apply Z.pow_pos_nonneg; lia).
      assert (Z.log2 (size - 1) = es - 1) as Hlog by (apply Z.log2_unique; [lia|]; replace (Z.succ (es - 1)) with es by lia; lia). rewrite shift_loop_log2 by lia. lia. }
    unfold ngx_slab_alloc_locked. rewrite bind_get. rewrite (proj2 (Z.leb_gt _ _)), Hcs, (proj2 (Z.ltb_lt _ _)) by lia. destruct Hh as [Hh1 Hh2].
    mstep (ngx_get_run _ _ _ Hh1). rewrite Hh2. mstep (ngx_get_run _ _ _ Hd). cbn [next]. rewrite (proj2 (Z.eqb_neq _ _)) by tauto. cbn [negb].
    rewrite (bind_ok _ _ _ (Some (start s + i * ps + b * 2 ^ es)) (set_descs s (after_alloc b))); [done|].
    unfold search_slot. rewrite bind_get. mstep (ngx_get_run _ _ _ Hd). rewrite (proj1 Hes), Z.ltb_irrefl, Z.eqb_refl.
    destruct (base.size (descs s)); simpl; by mstep (try_exact_run b Hcb Hb').
  - destruct (chunk_place b Hb') as ([Ha1 Ha2] & Hidx & _). unfold ngx_slab_free_locked. rewrite bind_get. cbn [start end_ pages set_descs].
    assert ((start s + i * ps + b * 2 ^ es <? start s) || (end_ s <? start s + i * ps + b * 2 ^ es) = false) as -> by (apply orb_false_iff; rewrite !Z.ltb_ge; lia).
    rewrite Hidx. change (page_at (pages s) i) with (pa s i).
    assert (∃ q, after_alloc b !! pa s i = Some q ∧ Z.land (prev q) NGX_SLAB_PAGE_MASK = 2) as (q & Hq & Htype).
    { destruct slot_tag as [_ Htag]. destruct Hne as [Hne1 Hne2]. unfold after_alloc.
      destruct (set_bit w b =? NGX_SLAB_BUSY); repeat (rewrite lookup_alter_eq || rewrite lookup_alter_ne by done); rewrite Hd; by eexists. }
    mstep (ngx_get_run (set_descs s (after_alloc b)) _ _ Hq). rewrite Htype. destruct Hkind as [Hk1 Hk2]. rewrite Hk1.
    rewrite (proj2 (Z.eqb_neq _ _)) by done. rewrite Z.eqb_refl. by apply free_exact_run.
Qed.

End exact.

(** ** What goes wrong on other pages *)

(** A pool of three pages of 4096 bytes and slots from 8 bytes up. *)
Definition C4k := mkConsts 65536 176 32 0 1 2 3 0 4096 12.
Definition raw4k (w : gmap Z Z) : st := mkSt {[ 65568 := mkPage 0 0 0 ]} w 0 3 0 0 81920 0 0 0.
Definition page_words : gmap Z Z := list_to_map ((λ k, (69632 + 8 * Z.of_nat k, 0)) <$> seq 0 512).

(** [n] requests of one size in a fresh pool: the addresses. *)
Definition requests (n : nat) (slots size : Z) : result (list Z) :=
  match (ngx_slab_init C4k;; Nat.iter n (λ m, l ← m; a ← ngx_slab_alloc_locked C4k slots size; mret (l ++ [a])) (mret [])) (raw4k page_words) with
  | Ok (l, _) => Ok l
  | Err e => Err e
  end.

(** On pages with more than one bitmap word or half a word: [page->slab & NGX_SLAB_MAP_MASK ==
    mask] compares the two constants first, so a page of 32 chunks counts as full as soon as its
    (odd) shift is in [slab], and a page of fewer chunks never does.  In a pool of three pages,
    from 69632 on, six requests of 128 bytes exhaust the memory for 96; the 17th request of 256
    bytes is given memory below the pool; the 63rd request of 32 bytes, which fills a bitmap
    word, reads [bitmap[m]] with [m] = 2^63; and with the slots' address as the allocator
    computes it the first small request already reads outside the slots. *)
Theorem ngx_chunk_pages_broken :
  (∀ slab mask, looks_full slab mask = true ↔ mask = NGX_SLAB_MAP_MASK ∧ Z.testbit slab 0 = true) ∧
  requests 7 (slots_at C4k) 128 = Ok [69632; 69760; 73728; 73856; 77824; 77952; 0] ∧
  (∃ l, requests 17 (slots_at C4k) 256 = Ok (l ++ [53248]) ∧ 53248 < pool C4k) ∧
  (∃ l, requests 62 (slots_at C4k) 32 = Ok l) ∧ requests 63 (slots_at C4k) 32 = Err FUndef ∧
  requests 1 (slots_in_alloc C4k) 64 = Err FUndef.
Proof.
  split_and!.
  - intros sl mask. unfold looks_full. destruct (Z.eqb_spec NGX_SLAB_MAP_MASK mask) as [<-|Hne].
    + change 1 with (Z.ones 1). rewrite Z.land_ones by lia. change (2 ^ 1) with 2. rewrite <-Z.bit0_mod. by destruct (Z.testbit sl 0); simpl; naive_solver.
    + rewrite Z.land_0_r. simpl. split; [done|]. intros [-> _]. done.
  - vm_compute; reflexivity.
  - exists (take 16 ((λ k, 69632 + 256 * Z.of_nat k) <$> seq 0 16)). split; [vm_compute; reflexivity|reflexivity].
  - eexists. vm_compute; reflexivity.
  - vm_compute; reflexivity.
  - vm_compute; reflexivity.
Qed.

(** ** Witnesses *)


Definition after {A} (m : MN A) (s : st) : st := match m s with Ok (_, s') => s' | Err _ => s end.
Definition pool0 : st := after (ngx_slab_init C4k) (raw4k ∅).


Lemma pool0_pinv : pinv C4k 3 pool0 [(0, 3)] ∅.
Proof.
  apply (one_run_pinv C4k 3 pool0 0 0); [split; vm_compute; try done; split; done|lia|vm_compute; reflexivity|vm_compute; reflexivity|].
  intros k Hk. assert (k = 1 ∨ k = 2) as [-> | ->] by lia; vm_compute; reflexivity.
Qed.

Lemma ngx_size_wraps_witness : ngx_slab_alloc_locked C4k 0 (2 ^ 64 - 1) pool0 = Err FUndef.
Proof.
  apply (ngx_size_wraps C4k 3 pool0 [] 0 3 ∅ 0 (2 ^ 64 - 1) pool0_pinv); [reflexivity|vm_compute; split; discriminate|vm_compute; discriminate|vm_compute; split; reflexivity|vm_compute; reflexivity].
Defined.

(** The pool after a first request of 64 bytes: one page with one chunk in use. *)
Definition pool64 : st := after (ngx_slab_alloc_locked C4k (slots_at C4k) 64) pool0.

Lemma ngx_exact_roundtrip_witness :
  ∃ b s1, ngx_slab_alloc_locked C4k (slots_at C4k) 60 pool64 = Ok (69632 + 0 * 4096 + b * 64, s1) ∧
    ngx_slab_free_locked C4k (69632 + 0 * 4096 + b * 64) s1 = Ok (tt, set_descs pool64 (after_free pool64 0 1 65784 b)).
Proof.
  destruct (ngx_exact_roundtrip C4k 3 pool64 0 1 65784 (mkPage 0 65928 0)) with (size := 60) as (b & s1 & _ & _ & _ & H1 & H2).
  - split; try (by vm_compute); try (split; by vm_compute).
  - lia.
  - by vm_compute.
  - split; [reflexivity|discriminate].
  - split; reflexivity.
  - lia.
  - vm_compute; reflexivity.
  - split; vm_compute; discriminate.
  - vm_compute; reflexivity.
  - split; vm_compute; reflexivity.
  - eexists. vm_compute; reflexivity.
  - split; vm_compute; reflexivity.
  - split; vm_compute; done.
  - exists b, s1. split; [exact H1|exact H2].
Defined.

End NgxSlabProps.
