(* ===== verification/GbStream.v ===== *)
(** The byte streams in which the GB data restorer keeps its records, and the records:
    [gb/downdatarestorer_norah/dbstream.cpp], [device.cpp], [channel.cpp] and
    [executinginvitecmd.cpp].

    Bytes and strings are lists of numbers; a [std::string] may contain zero bytes.  Integers are
    little-endian, as on the machines the code runs on.  [operator new] is a parameter: it returns
    a buffer or throws. *)

From S2P Require Import Prelude.
From stdpp Require Import options.

Module GbStream.

(** ** Writing *)

(** [m_cursor] as the offset from [m_data]. *)
Record DBOutStream := mkOut { o_data : list Z; o_cursor : Z; o_capacity : Z }.

Abbreviation MO := (M DBOutStream).

Definition MAX_BLOCK_SIZE : Z := 4096.

(** The integer types that are written and read. *)
Inductive int_type := TBool | TChar | TUChar | TUShort | TUint64 | TUint32 | TInt8 | TInt16 | TInt32 | TInt64.

Definition sizeof (t : int_type) : nat :=
  match t with
  | TBool | TChar | TUChar | TInt8 => 1
  | TUShort | TInt16 => 2
  | TUint32 | TInt32 => 4
  | TUint64 | TInt64 => 8
  end.

(** What a C string at these bytes is: up to the first zero. *)
Fixpoint c_str (s : list Z) : list Z :=
  match s with
  | [] => []
  | b :: s => if b =? 0 then [] else b :: c_str s
  end.

Section out.
Context (new_ok : Z → bool).

Definition DBOutStream_new : result DBOutStream :=
  if new_ok MAX_BLOCK_SIZE then Ok (mkOut (replicate (Z.to_nat MAX_BLOCK_SIZE) 0) 0 MAX_BLOCK_SIZE) else Err FNoMem.

Definition getSize (o : DBOutStream) : Z := o_cursor o.

(** [while (m_cursor + size > m_data + m_capacity)]; [m_capacity] is an [int] whose overflow is
    undefined. *)
Fixpoint extend (fuel : nat) (size : Z) : MO unit :=
  o ← get;
  if o_capacity o <? o_cursor o + size then
    match fuel with
    | O => fail FFuel
    | S fuel =>
        let m_capacity := o_capacity o * 2 in
        if 2 ^ 31 <=? m_capacity then fail FUndef else
        if negb (new_ok m_capacity) then fail FNoMem else
        let newBuf := replicate (Z.to_nat m_capacity) 0 in
        let newBuf := if 0 <? getSize o then wr newBuf 0 (take (Z.to_nat (getSize o)) (o_data o)) else newBuf in
        put (mkOut newBuf (getSize o) m_capacity);;
        extend fuel size
    end
  else mret tt.

(** The size is passed as an [int]. *)
Definition save (p : list Z) : MO unit :=
  let size := s32 (Z.of_nat (length p)) in
  extend 32 size;;
  if size <? 0 then fail FUndef else
  modify (λ o, mkOut (wr (o_data o) (Z.to_nat (o_cursor o)) p) (o_cursor o + size) (o_capacity o)).

(** [operator <<] on the integer types. *)
Definition out_int (t : int_type) (v : Z) : MO unit := save (le_bytes (sizeof t) v).

(** On a C string, a string and a list of strings. *)
Definition out_cstr (str : list Z) : MO unit := save (c_str str ++ [0]).
Definition out_string (str : list Z) : MO unit := out_cstr str.
Fixpoint out_strings (l : list (list Z)) : MO unit :=
  match l with
  | [] => mret tt
  | s :: l => out_string s;; out_strings l
  end.
Definition out_strlist (l : list (list Z)) : MO unit :=
  out_int TUShort (u16 (Z.of_nat (length l)));; out_strings l.

End out.

(** ** Reading *)

(** [i_data] is the memory block that [m_data] points to; [m_cursor] is an offset into it. *)
Record DBInStream := mkIn { i_data : list Z; i_cursor : Z; i_datalen : Z; m_loadError : Z }.

Abbreviation MI := (M DBInStream).

Definition DBInStream_new (d : list Z) (n : Z) : DBInStream := mkIn d 0 n 0.

(** The bytes that [memcpy] stores, or nothing when [m_loadError] is set. *)
Definition load (size : Z) : MI (option (list Z)) :=
  i ← get;
  if i_datalen i <? i_cursor i + size then
    put (mkIn (i_data i) (i_cursor i) (i_datalen i) 1);; mret None
  else if (0 <=? i_cursor i) && (i_cursor i + size <=? Z.of_nat (length (i_data i))) then
    put (mkIn (i_data i) (i_cursor i + size) (i_datalen i) (m_loadError i));;
    mret (Some (rd (i_data i) (Z.to_nat (i_cursor i)) (Z.to_nat size)))
  else fail FUndef.

Definition decode (t : int_type) (bs : list Z) : Z :=
  let v := le_dec bs in
  match t with
  | TBool => if v =? 0 then 0 else 1
  | TUChar | TUShort | TUint32 | TUint64 => v
  | TChar | TInt8 => wraps 8 v
  | TInt16 => s16 v
  | TInt32 => s32 v
  | TInt64 => s64 v
  end.

(** [operator >>] on the integer types; the variable keeps its value [old] on an error. *)
Definition in_int (t : int_type) (old : Z) : MI Z :=
  r ← load (Z.of_nat (sizeof t));
  mret (match r with Some bs => decode t bs | None => old end).

(** The C string at the cursor, without any test against [m_datalen]; memory behind the block is
    not the stream's. *)
Definition at_cursor (i : DBInStream) : result (list Z) :=
  if (0 <=? i_cursor i) && (i_cursor i <? Z.of_nat (length (i_data i))) then
    let s := c_str (drop (Z.to_nat (i_cursor i)) (i_data i)) in
    if i_cursor i + Z.of_nat (length s) <? Z.of_nat (length (i_data i)) then Ok s else Err FUndef
  else Err FUndef.

Definition in_string : MI (list Z) :=
  i ← get;
  str ← lift (at_cursor i);
  put (mkIn (i_data i) (i_cursor i + Z.of_nat (length str) + 1) (i_datalen i) (m_loadError i));;
  mret str.

(** [strcpy] into a buffer of [room] bytes. *)
Definition in_cstr (room : Z) : MI (list Z) :=
  i ← get;
  str ← lift (at_cursor i);
  if room <? Z.of_nat (length str) + 1 then fail FUndef else
  put (mkIn (i_data i) (i_cursor i + Z.of_nat (length str) + 1) (i_datalen i) (m_loadError i));;
  mret str.

(** [while (num-- > 0)]. *)
Fixpoint in_strings (num : nat) : MI (list (list Z)) :=
  match num with
  | O => mret []
  | S num => s ← in_string; l ← in_strings num; mret (s :: l)
  end.

(** [num] has no initial value: using it after a failed load is undefined. *)
Definition in_strlist : MI (list (list Z)) :=
  r ← load (Z.of_nat (sizeof TUShort));
  match r with
  | Some bs => in_strings (Z.to_nat (decode TUShort bs))
  | None => fail FUndef
  end.

(** ** Records *)

(** [class DBSerialize]: what a record writes, and what it becomes by reading; [load] fills an
    existing object. *)
Class DBSerialize (A : Type) := {
  ser_save : (Z → bool) → A → MO unit;
  ser_load : A → MI A;
}.

Record Device := mkDevice { device_id_ : list Z; device_sip_ip_ : list Z; device_sip_port_ : Z; device_state_ : Z }.

Definition Device_save (new_ok : Z → bool) (d : Device) : MO unit :=
  out_string new_ok (device_id_ d);;
  out_string new_ok (device_sip_ip_ d);;
  out_int new_ok TUShort (device_sip_port_ d);;
  out_int new_ok TInt32 (device_state_ d).

Definition Device_load (old : Device) : MI Device :=
  id ← in_string;
  ip ← in_string;
  port ← in_int TUShort (device_sip_port_ old);
  state ← in_int TInt32 (device_state_ old);
  mret (mkDevice id ip port state).

Definition Device_new (device_id : list Z) : Device := mkDevice device_id [] 0 0.

#[global] Instance Device_serialize : DBSerialize Device := {| ser_save := Device_save; ser_load := Device_load |}.

Record Channel := mkChannel {
  channel_id : list Z; ch_device_id_ : list Z; ch_device_sip_ip_ : list Z; ch_device_sip_port_ : list Z;
  channel_device_id_ : list Z; channel_name_ : list Z }.

Definition GetChannelId (c : Channel) : list Z := ch_device_id_ c ++ channel_device_id_ c.

Definition Channel_save (new_ok : Z → bool) (c : Channel) : MO unit :=
  out_string new_ok (ch_device_id_ c);;
  out_string new_ok (ch_device_sip_ip_ c);;
  out_string new_ok (ch_device_sip_port_ c);;
  out_string new_ok (channel_device_id_ c);;
  out_string new_ok (channel_name_ c).

(** The member [channel_id] is neither written nor read. *)
Definition Channel_load (old : Channel) : MI Channel :=
  id ← in_string;
  ip ← in_string;
  port ← in_string;
  cid ← in_string;
  name ← in_string;
  mret (mkChannel (channel_id old) id ip port cid name).

Definition Channel_new (device_id channel_device_id : list Z) : Channel := mkChannel [] device_id [] [] channel_device_id [].

#[global] Instance Channel_serialize : DBSerialize Channel := {| ser_save := Channel_save; ser_load := Channel_load |}.

Record ExecutingInviteCmd := mkCmd {
  cmd_sender_id_ : list Z; cmd_device_id_ : list Z; cmd_type : Z; cmd_seq_ : Z; sip_restarted_ : bool }.

(** [ostringstream << int]. *)
Fixpoint digits (fuel : nat) (n : Z) : list Z :=
  match fuel with
  | O => []
  | S fuel => if n <? 10 then [48 + n] else digits fuel (n / 10) ++ [48 + n mod 10]
  end.
Definition ToString (i : Z) : list Z := if i <? 0 then 45 :: digits 11 (- i) else digits 11 i.

Definition GetId (c : ExecutingInviteCmd) : list Z := cmd_sender_id_ c ++ cmd_device_id_ c ++ ToString (cmd_seq_ c).

Definition SetSipRestarted (b : bool) (c : ExecutingInviteCmd) : ExecutingInviteCmd :=
  mkCmd (cmd_sender_id_ c) (cmd_device_id_ c) (cmd_type c) (cmd_seq_ c) b.

Definition Cmd_save (new_ok : Z → bool) (c : ExecutingInviteCmd) : MO unit :=
  out_string new_ok (cmd_sender_id_ c);;
  out_string new_ok (cmd_device_id_ c);;
  out_int new_ok TInt32 (cmd_type c);;
  out_int new_ok TInt32 (cmd_seq_ c).

Definition Cmd_load (old : ExecutingInviteCmd) : MI ExecutingInviteCmd :=
  sender ← in_string;
  dev ← in_string;
  ty ← in_int TInt32 (cmd_type old);
  seq ← in_int TInt32 (cmd_seq_ old);
  mret (mkCmd sender dev ty seq (sip_restarted_ old)).

#[global] Instance Cmd_serialize : DBSerialize ExecutingInviteCmd := {| ser_save := Cmd_save; ser_load := Cmd_load |}.

(** A record with the base class's [m_data_version]. *)
Definition save_with_version {A} `{!DBSerialize A} (new_ok : Z → bool) (x : A * Z) : MO unit :=
  ser_save new_ok x.1;; out_int new_ok TInt64 x.2.
Definition load_with_version {A} `{!DBSerialize A} (old : A * Z) : MI (A * Z) :=
  a ← ser_load old.1; v ← in_int TInt64 old.2; mret (a, v).

End GbStream.
