(* ===== verification/GbStreamProps.v ===== *)
(** The record streams: a buffer that grows behaves as an append-only byte string, and every
    record that is written is read back. *)

From S2P Require Import Prelude GbStream.
From stdpp Require Import options.

Module GbStreamProps.
Import GbStream.

(** ** The streams against byte strings *)

(** The stream holds [bs]. *)
Record ost (o : DBOutStream) (bs : list Z) : Prop := {
  os_cursor : o_cursor o = Z.of_nat (length bs);
  os_bytes : take (length bs) (o_data o) = bs;
  os_len : Z.of_nat (length (o_data o)) = o_capacity o;
  os_cap : MAX_BLOCK_SIZE ≤ o_capacity o < 2 ^ 31;
  os_in : Z.of_nat (length bs) ≤ o_capacity o;
}.

(** What is left to read is [rest]. *)
Definition ist (i : DBInStream) (rest : list Z) : Prop :=
  m_loadError i = 0 ∧ ∃ pre tail, i_data i = pre ++ rest ++ tail ∧ i_cursor i = Z.of_nat (length pre) ∧ i_datalen i = Z.of_nat (length pre + length rest).

Section streams.
Context (new_ok : Z → bool).
Hypothesis new_always : ∀ n, n < 2 ^ 31 → new_ok n = true.

Lemma new_stream : ∃ o, DBOutStream_new new_ok = Ok o ∧ ost o [].
Proof using new_always.
  unfold DBOutStream_new. rewrite new_always by done. eexists. split; [done|]. split; simpl; try done.
Qed.

Lemma extend_ok fuel size o bs :
  ost o bs → 0 ≤ size → Z.of_nat (length bs) + size ≤ 2 ^ 30 → Z.of_nat (length bs) + size ≤ o_capacity o * 2 ^ Z.of_nat fuel →
  ∃ o', extend new_ok fuel size o = Ok (tt, o') ∧ ost o' bs ∧ Z.of_nat (length bs) + size ≤ o_capacity o'.
Proof using new_always.
  revert o. induction fuel as [|fuel IH]; intros o Ho Hs Hle Hf; cbn [extend]; rewrite bind_get, (os_cursor _ _ Ho);
    (destruct (Z.ltb_spec (o_capacity o) (Z.of_nat (length bs) + size)); [|by exists o]).
  - lia.
  - pose proof (os_cap _ _ Ho). pose proof (os_in _ _ Ho). unfold MAX_BLOCK_SIZE in *. rewrite (proj2 (Z.leb_gt _ _)) by lia. rewrite new_always by lia. cbn [negb].
    unfold getSize. rewrite (os_cursor _ _ Ho), Nat2Z.id, (os_bytes _ _ Ho). set (cap := o_capacity o * 2).
    set (nb := if 0 <? Z.of_nat (length bs) then _ else _).
    assert (length nb = Z.to_nat cap ∧ take (length bs) nb = bs) as [Hnl Hnt].
    { unfold nb. destruct (Z.ltb_spec 0 (Z.of_nat (length bs))) as [Hp|Hp].
      - rewrite length_wr by (rewrite length_replicate; unfold cap; lia). rewrite length_replicate. split; [done|]. unfold wr. simpl. by rewrite take_app_length.
      - destruct bs; [|simpl in Hp; lia]. by rewrite length_replicate. }
    assert (ost (mkOut nb (Z.of_nat (length bs)) cap) bs) as Ho'. { split; simpl; [done|done|lia|unfold cap, MAX_BLOCK_SIZE; lia|unfold cap; lia]. }
    destruct (IH _ Ho' Hs Hle) as (o' & Hrun & Ho2 & Hc). { simpl. unfold cap. rewrite Nat2Z.inj_succ, Z.pow_succ_r in Hf by lia. lia. }
    exists o'. split; [|done]. unfold mbind, M_bind, put. exact Hrun.
Qed.

(** Whatever the buffer has to do, a write appends. *)
Lemma save_ok p o bs :
  ost o bs → Z.of_nat (length bs) + Z.of_nat (length p) ≤ 2 ^ 30 → ∃ o', save new_ok p o = Ok (tt, o') ∧ ost o' (bs ++ p).
Proof using new_always.
  intros Ho Hle. unfold save. rewrite wraps_small by lia.
  destruct (extend_ok 32 (Z.of_nat (length p)) o bs Ho) as (o1 & Hrun & Ho1 & Hc); [lia|lia| |].
  { pose proof (os_cap _ _ Ho). unfold MAX_BLOCK_SIZE in *. change (2 ^ Z.of_nat 32) with 4294967296. lia. }
  mstep Hrun. rewrite (proj2 (Z.ltb_ge _ _)) by lia. eexists. split; [done|]. pose proof (os_len _ _ Ho1). rewrite (os_cursor _ _ Ho1), Nat2Z.id. split; simpl.
  - rewrite length_app. lia.
  - unfold wr. rewrite (os_bytes _ _ Ho1), app_assoc. rewrite take_app_le by done. by rewrite firstn_all.
  - rewrite length_wr by lia. done.
  - apply Ho1.
  - rewrite length_app. lia.
Qed.
End streams.

Lemma load_ok i bs rest : ist i (bs ++ rest) → ∃ i', load (Z.of_nat (length bs)) i = Ok (Some bs, i') ∧ ist i' rest.
Proof.
  intros [He (pre & tail & Hd & Hc & Hn)]. unfold load. rewrite bind_get, Hc, Hn, Hd, !length_app.
  rewrite (proj2 (Z.ltb_ge _ _)) by lia. rewrite (proj2 (Z.leb_le 0 _)), (proj2 (Z.leb_le _ _)) by lia. cbn [andb].
  eexists. split.
  - unfold mbind, M_bind, put, mret, M_ret. rewrite !Nat2Z.id. unfold rd. rewrite drop_app_length, <-app_assoc, take_app_length. reflexivity.
  - split; [done|]. exists (pre ++ bs), tail. simpl. rewrite !length_app. split_and!; [by rewrite <-!app_assoc|lia|lia].
Qed.

Lemma c_str_stop s rest : Forall (λ b, b ≠ 0) s → c_str (s ++ 0 :: rest) = s.
Proof. induction 1 as [|b s Hb _ IH]; [done|]. simpl. rewrite (proj2 (Z.eqb_neq _ _)) by done. by rewrite IH. Qed.

Lemma c_str_id s : Forall (λ b, b ≠ 0) s → c_str s = s.
Proof. induction 1 as [|b s Hb _ IH]; [done|]. simpl. rewrite (proj2 (Z.eqb_neq _ _)) by done. by rewrite IH. Qed.

Lemma in_string_ok s i rest : Forall (λ b, b ≠ 0) s → ist i (s ++ 0 :: rest) → ∃ i', in_string i = Ok (s, i') ∧ ist i' rest.
Proof.
  intros Hs [He (pre & tail & Hd & Hc & Hn)]. unfold in_string. rewrite bind_get.
  assert (at_cursor i = Ok s) as Hat.
  { unfold at_cursor. rewrite Hc, Hd, !length_app. simpl. rewrite (proj2 (Z.leb_le 0 _)), (proj2 (Z.ltb_lt _ _)) by lia. cbn [andb].
    rewrite Nat2Z.id, drop_app_length, <-app_assoc. simpl. rewrite c_str_stop by done. by rewrite (proj2 (Z.ltb_lt _ _)) by lia. }
  rewrite (bind_lift _ _ _ _ Hat). eexists. split; [reflexivity|]. split; [done|]. rewrite length_app in Hn. simpl in Hn. exists (pre ++ s ++ [0]), tail. simpl. rewrite !length_app. simpl.
  split_and!; [by rewrite Hd, <-!app_assoc|lia|lia].
Qed.

(** ** Integers *)

(** The values of a type. *)
Definition in_type (t : int_type) (v : Z) : Prop :=
  match t with
  | TBool => v = 0 ∨ v = 1
  | TUChar | TUShort | TUint32 | TUint64 => 0 ≤ v < 2 ^ (8 * Z.of_nat (sizeof t))
  | TChar | TInt8 | TInt16 | TInt32 | TInt64 => - 2 ^ (8 * Z.of_nat (sizeof t) - 1) ≤ v < 2 ^ (8 * Z.of_nat (sizeof t) - 1)
  end.

Lemma wraps_wrapu w x : wraps w (x mod 2 ^ w) = wraps w x.
Proof. unfold wraps. by rewrite Zmod_mod. Qed.

Lemma decode_encode t v : in_type t v → decode t (le_bytes (sizeof t) v) = v.
Proof.
  intros Hv. unfold decode. rewrite le_dec_le_bytes. destruct t; simpl sizeof in *; cbn in Hv;
    try (apply Z.mod_small; assumption); try (rewrite wraps_wrapu; apply wraps_small; [done|assumption]).
  by destruct Hv as [-> | ->].
Qed.

Lemma in_int_ok t v old i rest : in_type t v → ist i (le_bytes (sizeof t) v ++ rest) → ∃ i', in_int t old i = Ok (v, i') ∧ ist i' rest.
Proof.
  intros Hv Hi. destruct (load_ok _ _ _ Hi) as (i' & Hrun & Hi'). rewrite length_le_bytes in Hrun.
  exists i'. split; [|done]. unfold in_int. mstep Hrun. by rewrite decode_encode.
Qed.

(** ** Records *)

(** What a record type promises: its encoding, which the stream gets when the record is written,
    and from which a read makes the record again, up to the members that are not stored, which
    the object read into keeps. *)
Class Stored (A : Type) `{!DBSerialize A} := {
  enc : A → list Z;
  storable : A → Prop;
  keep : A → A → A;
  save_enc new_ok a o bs : (∀ n, n < 2 ^ 31 → new_ok n = true) → storable a → ost o bs → Z.of_nat (length bs) + Z.of_nat (length (enc a)) ≤ 2 ^ 30 →
    ∃ o', ser_save new_ok a o = Ok (tt, o') ∧ ost o' (bs ++ enc a);
  load_enc a old i rest : storable a → ist i (enc a ++ rest) → ∃ i', ser_load old i = Ok (keep old a, i') ∧ ist i' rest;
}.

(** Strings are stored as C strings. *)
Definition text (s : list Z) : Prop := Forall (λ b, b ≠ 0) s.
Definition str (s : list Z) : list Z := s ++ [0].

Lemma out_string_ok new_ok s o bs :
  (∀ n, n < 2 ^ 31 → new_ok n = true) → text s → ost o bs → Z.of_nat (length bs) + Z.of_nat (length (str s)) ≤ 2 ^ 30 →
  ∃ o', out_string new_ok s o = Ok (tt, o') ∧ ost o' (bs ++ str s).
Proof. intros Hn Hs Ho Hl. unfold out_string, out_cstr. rewrite c_str_id by done. by apply save_ok. Qed.

Lemma out_int_ok new_ok t v o bs :
  (∀ n, n < 2 ^ 31 → new_ok n = true) → ost o bs → Z.of_nat (length bs) + Z.of_nat (sizeof t) ≤ 2 ^ 30 →
  ∃ o', out_int new_ok t v o = Ok (tt, o') ∧ ost o' (bs ++ le_bytes (sizeof t) v).
Proof. intros Hn Ho Hl. apply save_ok; [done|done|]. by rewrite length_le_bytes. Qed.

(** Steps of a write and of a read. *)
Ltac len := rewrite ?length_app, ?length_le_bytes in *; cbn [sizeof] in *; lia.
Ltac out_step :=
  match goal with
  | Hn : ∀ n, n < 2 ^ 31 → _ = true, Ho : ost ?o ?bs |- context [(out_string _ ?s ≫= _) ?o] =>
      let o' := fresh "o" in let H := fresh "Hrun" in let Ho' := fresh "Ho" in
      destruct (out_string_ok _ s o bs Hn ltac:(tauto) Ho ltac:(len)) as (o' & H & Ho'); mstep H; clear H Ho
  | Hn : ∀ n, n < 2 ^ 31 → _ = true, Ho : ost ?o ?bs |- context [(out_int _ ?t ?v ≫= _) ?o] =>
      let o' := fresh "o" in let H := fresh "Hrun" in let Ho' := fresh "Ho" in
      destruct (out_int_ok _ t v o bs Hn Ho ltac:(len)) as (o' & H & Ho'); mstep H; clear H Ho
  end.

(** The last write of a record. *)
Ltac out_last :=
  let E := match goal with
  | Hn : ∀ n, n < 2 ^ 31 → _ = true, Ho : ost ?o ?bs |- ∃ o', out_string _ ?s ?o = _ ∧ _ =>
      constr:(out_string_ok _ s o bs Hn ltac:(tauto) Ho ltac:(len))
  | Hn : ∀ n, n < 2 ^ 31 → _ = true, Ho : ost ?o ?bs |- ∃ o', out_int _ ?t ?v ?o = _ ∧ _ =>
      constr:(out_int_ok _ t v o bs Hn Ho ltac:(len))
  end in
  let o' := fresh in let Ho' := fresh in destruct E as (o' & ? & Ho'); exists o'; split; [done|]; by rewrite <-!app_assoc in Ho'.

Ltac in_step :=
  match goal with
  | Hi : ist ?i (str ?s ++ ?rest) |- context [(in_string ≫= _) ?i] =>
      let i' := fresh "i" in let H := fresh "Hrun" in let Hi' := fresh "Hi" in
      unfold str in Hi; rewrite <-(app_assoc s) in Hi; simpl in Hi;
      destruct (in_string_ok s i rest ltac:(tauto) Hi) as (i' & H & Hi'); mstep H; clear H Hi
  | Hi : ist ?i (le_bytes (sizeof ?t) ?v ++ ?rest) |- context [(in_int ?t ?old ≫= _) ?i] =>
      let i' := fresh "i" in let H := fresh "Hrun" in let Hi' := fresh "Hi" in
      destruct (in_int_ok t v old i rest ltac:(tauto) Hi) as (i' & H & Hi'); mstep H; clear H Hi
  end.

#[global] Program Instance Device_stored : Stored Device := {|
  enc d := str (device_id_ d) ++ str (device_sip_ip_ d) ++ le_bytes (sizeof TUShort) (device_sip_port_ d) ++ le_bytes (sizeof TInt32) (device_state_ d);
  storable d := text (device_id_ d) ∧ text (device_sip_ip_ d) ∧ in_type TUShort (device_sip_port_ d) ∧ in_type TInt32 (device_state_ d);
  keep _ d := d;
|}.
Next Obligation.
  intros new_ok d o bs Hn (H1 & H2 & H3 & H4) Ho Hl. unfold ser_save, Device_serialize, Device_save.
  do 3 out_step. out_last.
Qed.
Next Obligation.
  intros d old i rest (H1 & H2 & H3 & H4) Hi. unfold ser_load, Device_serialize, Device_load. rewrite <-!app_assoc in Hi. do 4 in_step. eexists. split; [|eassumption]. by destruct d.
Qed.

#[global] Program Instance Channel_stored : Stored Channel := {|
  enc c := str (ch_device_id_ c) ++ str (ch_device_sip_ip_ c) ++ str (ch_device_sip_port_ c) ++ str (channel_device_id_ c) ++ str (channel_name_ c);
  storable c := text (ch_device_id_ c) ∧ text (ch_device_sip_ip_ c) ∧ text (ch_device_sip_port_ c) ∧ text (channel_device_id_ c) ∧ text (channel_name_ c);
  keep old c := mkChannel (channel_id old) (ch_device_id_ c) (ch_device_sip_ip_ c) (ch_device_sip_port_ c) (channel_device_id_ c) (channel_name_ c);
|}.
Next Obligation.
  intros new_ok c o bs Hn (H1 & H2 & H3 & H4 & H5) Ho Hl. unfold ser_save, Channel_serialize, Channel_save.
  do 4 out_step. out_last.
Qed.
Next Obligation.
  intros c old i rest (H1 & H2 & H3 & H4 & H5) Hi. unfold ser_load, Channel_serialize, Channel_load. rewrite <-!app_assoc in Hi. do 5 in_step. eexists. by split; [|eassumption].
Qed.

#[global] Program Instance Cmd_stored : Stored ExecutingInviteCmd := {|
  enc c := str (cmd_sender_id_ c) ++ str (cmd_device_id_ c) ++ le_bytes (sizeof TInt32) (cmd_type c) ++ le_bytes (sizeof TInt32) (cmd_seq_ c);
  storable c := text (cmd_sender_id_ c) ∧ text (cmd_device_id_ c) ∧ in_type TInt32 (cmd_type c) ∧ in_type TInt32 (cmd_seq_ c);
  keep old c := mkCmd (cmd_sender_id_ c) (cmd_device_id_ c) (cmd_type c) (cmd_seq_ c) (sip_restarted_ old);
|}.
Next Obligation.
  intros new_ok c o bs Hn (H1 & H2 & H3 & H4) Ho Hl. unfold ser_save, Cmd_serialize, Cmd_save.
  do 3 out_step. out_last.
Qed.
Next Obligation.
  intros c old i rest (H1 & H2 & H3 & H4) Hi. unfold ser_load, Cmd_serialize, Cmd_load. rewrite <-!app_assoc in Hi. do 4 in_step. eexists. by split; [|eassumption].
Qed.

(** ** What is written is read back *)

(** [x], written with its version to a new stream, is read into [old] as [y] from the bytes the
    stream hands out, all of which are read. *)
Definition round_trips {A} `{!DBSerialize A} (new_ok : Z → bool) (x old y : A * Z) : Prop :=
  ∃ o o' i', DBOutStream_new new_ok = Ok o ∧ save_with_version new_ok x o = Ok (tt, o') ∧
    load_with_version old (DBInStream_new (take (Z.to_nat (getSize o')) (o_data o')) (getSize o')) = Ok (y, i') ∧
    m_loadError i' = 0 ∧ i_cursor i' = getSize o'.

Lemma ist_new bs : ist (DBInStream_new bs (Z.of_nat (length bs))) bs.
Proof. split; [done|]. exists [], []. simpl. rewrite app_nil_r. done. Qed.

Lemma ist_end bs i' : ist i' [] → i_data i' = bs → i_datalen i' = Z.of_nat (length bs) → m_loadError i' = 0 ∧ i_cursor i' = Z.of_nat (length bs).
Proof. intros [He (pre & tail & Hd & Hc & Hn)] _ Hl. split; [done|]. simpl in Hn. lia. Qed.

(** Reading moves the cursor only. *)
Definition same_block {A} (m : MI A) : Prop := ∀ i a i', m i = Ok (a, i') → i_datalen i' = i_datalen i ∧ i_data i' = i_data i.

Lemma same_bind {A B} (m : MI A) (f : A → MI B) : same_block m → (∀ a, same_block (f a)) → same_block (m ≫= f).
Proof.
  intros Hm Hf i b i' H. unfold mbind, M_bind in H. destruct (m i) as [[a i1]|] eqn:E; [|done]. destruct (Hm _ _ _ E), (Hf _ _ _ _ H). split; congruence.
Qed.
Lemma same_ret {A} (a : A) : same_block (mret a).
Proof. intros i x i' H. by injection H as <- <-. Qed.
Lemma same_load n : same_block (load n).
Proof.
  intros i a i' H. unfold load in H. rewrite bind_get in H. case_match; [by injection H as <- <-|]. case_match; [by injection H as <- <-|done].
Qed.
Lemma same_int t old : same_block (in_int t old).
Proof. apply same_bind; [apply same_load|intros; apply same_ret]. Qed.
Lemma same_string : same_block in_string.
Proof. intros i a i' H. unfold in_string in H. rewrite bind_get in H. unfold mbind, M_bind, lift in H. destruct (at_cursor i); [|done]. by injection H as <- <-. Qed.
Ltac same := repeat first [apply same_ret | apply same_int | apply same_string | apply same_load | apply same_bind; [|intros ?] | assumption].

Lemma stored_roundtrip {A} `{Stored A} new_ok (a old : A) v v0 :
  (∀ n, n < 2 ^ 31 → new_ok n = true) → same_block (ser_load old) → storable a → in_type TInt64 v → Z.of_nat (length (enc a)) + 8 ≤ 2 ^ 30 →
  round_trips new_ok (a, v) (old, v0) (keep old a, v).
Proof.
  intros Hn Hsame Ha Hv Hl. destruct (new_stream new_ok Hn) as (o & Hnew & Ho).
  destruct (save_enc new_ok a o [] Hn Ha Ho) as (o1 & Hrun1 & Ho1); [simpl; lia|]. simpl in Ho1.
  destruct (out_int_ok new_ok TInt64 v o1 (enc a) Hn Ho1) as (o2 & Hrun2 & Ho2); [simpl; lia|]. set (bs := enc a ++ le_bytes (sizeof TInt64) v) in *.
  assert (getSize o2 = Z.of_nat (length bs)) as Hsize by apply Ho2.
  destruct (load_enc a old (DBInStream_new bs (Z.of_nat (length bs))) (le_bytes (sizeof TInt64) v) Ha (ist_new bs)) as (i1 & Hl1 & Hi1).
  rewrite <-(app_nil_r (le_bytes _ v)) in Hi1. destruct (in_int_ok TInt64 v v0 i1 [] Hv Hi1) as (i2 & Hl2 & Hi2).
  assert (load_with_version (old, v0) (DBInStream_new bs (Z.of_nat (length bs))) = Ok (keep old a, v, i2)) as Hload.
  { unfold load_with_version. simpl. mstep Hl1. by mstep Hl2. }
  exists o, o2, i2. split_and!; [done|unfold save_with_version; simpl; by mstep Hrun1| | |].
  - rewrite Hsize, Nat2Z.id, (os_bytes _ _ Ho2). done.
  - apply Hi2.
  - destruct (Hsame _ _ _ Hl1) as [E1 F1], (same_int _ _ _ _ _ Hl2) as [E2 F2].
    rewrite Hsize. apply (ist_end bs i2 Hi2); [by rewrite F2, F1|by rewrite E2, E1].
Qed.

(** C20. Devices, channels and commands (their strings without zero bytes, their numbers in the
    range of their types, up to 2^30 bytes): written with a version to a new stream, through
    however many enlargements of the buffer, they are read back from the stream's bytes, and all
    bytes are read; a channel's and a command's members that are not stored keep the value they
    had in the object that is read into. *)
Theorem gb_records_roundtrip new_ok v v0 :
  (∀ n, n < 2 ^ 31 → new_ok n = true) → in_type TInt64 v →
  (∀ d old : Device, storable d → Z.of_nat (length (enc d)) + 8 ≤ 2 ^ 30 → round_trips new_ok (d, v) (old, v0) (d, v)) ∧
  (∀ c old : Channel, storable c → Z.of_nat (length (enc c)) + 8 ≤ 2 ^ 30 →
    round_trips new_ok (c, v) (old, v0) (mkChannel (channel_id old) (ch_device_id_ c) (ch_device_sip_ip_ c) (ch_device_sip_port_ c) (channel_device_id_ c) (channel_name_ c), v)) ∧
  (∀ c old : ExecutingInviteCmd, storable c → Z.of_nat (length (enc c)) + 8 ≤ 2 ^ 30 →
    round_trips new_ok (c, v) (old, v0) (SetSipRestarted (sip_restarted_ old) c, v)).
Proof.
  intros Hn Hv. split_and!; intros x old Hx Hl.
  - refine (stored_roundtrip new_ok x old v v0 Hn _ Hx Hv Hl). unfold ser_load, Device_serialize, Device_load. same.
  - refine (stored_roundtrip new_ok x old v v0 Hn _ Hx Hv Hl). unfold ser_load, Channel_serialize, Channel_load. same.
  - refine (stored_roundtrip new_ok x old v v0 Hn _ Hx Hv Hl). unfold ser_load, Cmd_serialize, Cmd_load. same.
Qed.

(** Ranges of given numbers. *)
Ltac calc := vm_compute; first [done | split; congruence | congruence].

Definition device1 : Device := mkDevice [65; 66] [49] 5060 1.

Lemma gb_records_roundtrip_witness : round_trips (λ _, true) (device1, 7) (Device_new [], 0) (device1, 7).
Proof.
  refine (proj1 (gb_records_roundtrip (λ _, true) 7 0 _ _) device1 (Device_new []) _ _); [done|calc| |calc].
  split_and!; [repeat constructor; done..|calc|calc].
Defined.

(** ** Lists of strings *)

Definition strs (l : list (list Z)) : list Z := concat (str <$> l).

Lemma out_strings_ok new_ok l o bs :
  (∀ n, n < 2 ^ 31 → new_ok n = true) → Forall text l → ost o bs → Z.of_nat (length bs) + Z.of_nat (length (strs l)) ≤ 2 ^ 30 →
  ∃ o', out_strings new_ok l o = Ok (tt, o') ∧ ost o' (bs ++ strs l).
Proof.
  intros Hn Hl. revert o bs. induction Hl as [|s l Hs _ IH]; intros o bs Ho Hle.
  - exists o. by rewrite app_nil_r.
  - change (strs (s :: l)) with (str s ++ strs l) in *. rewrite length_app in Hle. cbn [out_strings]. destruct (out_string_ok new_ok s o bs Hn Hs Ho) as (o1 & Hrun & Ho1); [lia|].
    destruct (IH o1 _ Ho1) as (o2 & Hrun2 & Ho2); [rewrite length_app; lia|]. exists o2. split; [by mstep Hrun|]. by rewrite app_assoc.
Qed.

Lemma in_strings_ok l rest n i :
  Forall text l → (n ≤ length l)%nat → ist i (strs l ++ rest) → ∃ i', in_strings n i = Ok (take n l, i') ∧ ist i' (strs (drop n l) ++ rest).
Proof.
  revert l i. induction n as [|n IH]; intros l i Hl Hn Hi; [by exists i|]. destruct l as [|s l]; [simpl in Hn; lia|].
  apply Forall_cons in Hl as [Hs Hl]. unfold strs in Hi. simpl in Hi. unfold str in Hi at 1. rewrite <-!app_assoc in Hi. simpl in Hi.
  destruct (in_string_ok s i _ Hs Hi) as (i1 & Hrun & Hi1). destruct (IH l i1 Hl) as (i2 & Hrun2 & Hi2); [simpl in Hn; lia|done|].
  exists i2. split; [|done]. simpl. mstep Hrun. by mstep Hrun2.
Qed.

Lemma strs_empty l : length (strs l) = 0%nat ↔ length l = 0%nat.
Proof. destruct l as [|s l]; [done|]. unfold strs, str. simpl. rewrite !length_app. simpl. lia. Qed.

Lemma same_strings n : same_block (in_strings n).
Proof. induction n; simpl; same. Qed.

(** A list of strings is written with its length in 16 bits: the reader gets the first
    (length mod 65536) strings back, so all of them exactly when there are fewer than 65536. *)
Theorem gb_strlist_roundtrip new_ok l :
  (∀ n, n < 2 ^ 31 → new_ok n = true) → Forall text l → Z.of_nat (length (strs l)) + 2 ≤ 2 ^ 30 →
  ∃ o o', DBOutStream_new new_ok = Ok o ∧ out_strlist new_ok l o = Ok (tt, o') ∧
    ∃ i', in_strlist (DBInStream_new (take (Z.to_nat (getSize o')) (o_data o')) (getSize o')) = Ok (take (Z.to_nat (Z.of_nat (length l) mod 65536)) l, i') ∧
      (i_cursor i' = getSize o' ↔ Z.of_nat (length l) < 65536).
Proof.
  intros Hn Hl Hle. destruct (new_stream new_ok Hn) as (o & Hnew & Ho). set (k := Z.of_nat (length l) mod 65536).
  assert (0 ≤ k < 65536) as Hk by (apply Z.mod_pos_bound; lia).
  assert (k ≤ Z.of_nat (length l)) as Hmod by (apply Z.mod_le; lia). assert (Z.to_nat k ≤ length l)%nat as Hmod' by lia.
  destruct (out_int_ok new_ok TUShort k o [] Hn Ho) as (o1 & Hrun1 & Ho1); [simpl; lia|]. rewrite app_nil_l in Ho1.
  destruct (out_strings_ok new_ok l o1 _ Hn Hl Ho1) as (o2 & Hrun2 & Ho2); [rewrite length_le_bytes; simpl sizeof; lia|]. set (bs := le_bytes (sizeof TUShort) k ++ strs l) in *.
  exists o, o2. split; [done|]. split; [unfold out_strlist; change (u16 (Z.of_nat (length l))) with k; by mstep Hrun1|].
  assert (getSize o2 = Z.of_nat (length bs)) as Hsize by apply Ho2. rewrite Hsize, Nat2Z.id, (os_bytes _ _ Ho2).
  destruct (load_ok _ _ _ (ist_new bs)) as (i1 & Hl1 & Hi1). rewrite length_le_bytes in Hl1. rewrite <-(app_nil_r (strs l)) in Hi1.
  destruct (in_strings_ok l [] _ i1 Hl Hmod' Hi1) as (i2 & Hl2 & Hi2). exists i2.
  assert (in_strlist (DBInStream_new bs (Z.of_nat (length bs))) = Ok (take (Z.to_nat k) l, i2)) as Hrun.
  { unfold in_strlist. mstep Hl1. rewrite decode_encode by exact Hk. exact Hl2. }
  split; [done|]. destruct Hi2 as [_ (pre & tail & Hd & Hc & Hdl)].
  assert (i_datalen i2 = Z.of_nat (length bs)) as Hdl2.
  { destruct (same_load _ _ _ _ Hl1) as [E1 _]. destruct (same_strings _ _ _ _ Hl2) as [E2 _]. rewrite E2, E1. done. }
  rewrite app_nil_r in Hdl. assert (i_cursor i2 = Z.of_nat (length bs) ↔ length (strs (drop (Z.to_nat k) l)) = 0%nat) as -> by lia.
  rewrite strs_empty, length_drop. split; [intros Hz; assert (k = Z.of_nat (length l)) by lia; lia|].
  intros Hlt. unfold k. rewrite Z.mod_small by lia. lia.
Qed.

Lemma gb_strlist_roundtrip_witness :
  ∃ o o', DBOutStream_new (λ _, true) = Ok o ∧ out_strlist (λ _, true) [[65]; [66]] o = Ok (tt, o') ∧
    ∃ i', in_strlist (DBInStream_new (take (Z.to_nat (getSize o')) (o_data o')) (getSize o')) = Ok ([[65]; [66]], i') ∧ (i_cursor i' = getSize o' ↔ 2 < 65536).
Proof. refine (gb_strlist_roundtrip (λ _, true) [[65]; [66]] _ _ _); [done|repeat constructor; done|calc]. Defined.

(** ** Records that are cut off *)

Lemma in_string_at pre s post n e :
  text s → in_string (mkIn (pre ++ s ++ 0 :: post) (Z.of_nat (length pre)) n e) = Ok (s, mkIn (pre ++ s ++ 0 :: post) (Z.of_nat (length pre + length s) + 1) n e).
Proof.
  intros Hs. unfold in_string. rewrite bind_get. unfold at_cursor. cbn [i_data i_cursor i_datalen m_loadError]. rewrite !length_app. cbn [length].
  rewrite (proj2 (Z.leb_le 0 _)), (proj2 (Z.ltb_lt _ _)) by lia. cbn [andb]. rewrite Nat2Z.id, drop_app_length, c_str_stop by done.
  rewrite (proj2 (Z.ltb_lt _ _)) by lia. unfold mbind, M_bind, lift, put, mret, M_ret. do 3 f_equal. lia.
Qed.

Lemma in_int_short t old i : i_datalen i < i_cursor i + Z.of_nat (sizeof t) → in_int t old i = Ok (old, mkIn (i_data i) (i_cursor i) (i_datalen i) 1).
Proof. intros H. unfold in_int, load, mbind, M_bind, get. by rewrite (proj2 (Z.ltb_lt _ _)) by done. Qed.

Lemma text_take n s : text s → text (take n s).
Proof. apply Forall_take. Qed.

(** The integers of a device, when the block does not hold both. *)
Lemma device_ints_short id ip old i :
  i_datalen i < i_cursor i + 6 → 0 ≤ i_cursor i → i_datalen i ≤ Z.of_nat (length (i_data i)) →
  ∃ port i', (port ← in_int TUShort (device_sip_port_ old); state ← in_int TInt32 (device_state_ old); mret (mkDevice id ip port state)) i =
    Ok (mkDevice id ip port (device_state_ old), i') ∧ m_loadError i' = 1.
Proof.
  intros Hlt H0 Hd. destruct (Z.ltb_spec (i_datalen i) (i_cursor i + 2)) as [H|H].
  - mstep (in_int_short TUShort (device_sip_port_ old) i H). set (i1 := mkIn _ _ _ _).
    assert (i_datalen i1 < i_cursor i1 + Z.of_nat (sizeof TInt32)) as H4 by (unfold i1; simpl; lia). mstep (in_int_short TInt32 (device_state_ old) i1 H4). by eexists _, _.
  - set (i1 := mkIn (i_data i) (i_cursor i + 2) (i_datalen i) (m_loadError i)).
    assert (in_int TUShort (device_sip_port_ old) i = Ok (decode TUShort (rd (i_data i) (Z.to_nat (i_cursor i)) 2), i1)) as E.
    { unfold in_int, load, mbind, M_bind, get. change (Z.of_nat (sizeof TUShort)) with 2. rewrite (proj2 (Z.ltb_ge _ _)) by done.
      rewrite (proj2 (Z.leb_le 0 _)) by lia. rewrite (proj2 (Z.leb_le _ _)) by lia. reflexivity. }
    mstep E. assert (i_datalen i1 < i_cursor i1 + Z.of_nat (sizeof TInt32)) as H4 by (unfold i1; simpl; lia). mstep (in_int_short TInt32 (device_state_ old) i1 H4). by eexists _, _.
Qed.

(** A device of which only the first [n] bytes are there (and the zero byte that ends the
    string they come from): when they end within the device's id, the reader runs past its
    block; when they end later it keeps to the block, reports the error in [m_loadError] and
    leaves the object with its own state.  The string operator itself never tests the bound. *)
Theorem gb_device_truncated d old n :
  storable d → (n < length (enc d))%nat →
  let read := Device_load old (DBInStream_new (take n (enc d) ++ [0]) (Z.of_nat n)) in
  if (n <=? length (device_id_ d))%nat then read = Err FUndef
  else ∃ ip port i', read = Ok (mkDevice (device_id_ d) ip port (device_state_ old), i') ∧ m_loadError i' = 1.
Proof.
  destruct d as [id ip port state]. intros (Hid & Hip & _ & _) Hn read. cbn [enc storable Device_stored device_id_ device_sip_ip_ device_sip_port_ device_state_] in *.
  set (ints := le_bytes (sizeof TUShort) port ++ le_bytes (sizeof TInt32) state) in *.
  assert (length ints = 6%nat) as Hints by (unfold ints; rewrite length_app, !length_le_bytes; done).
  unfold str in *. rewrite !length_app in Hn. cbn [length] in Hn. destruct (Nat.leb_spec n (length id)) as [Hle|Hgt].
  - unfold read, DBInStream_new, Device_load. rewrite <-app_assoc, take_app_le by done. mstep (in_string_at [] (take n id) [] (Z.of_nat n) 0 (text_take n _ Hid)).
    unfold in_string at 1. unfold mbind, M_bind, get, lift, at_cursor. cbn [i_cursor i_data]. rewrite !length_app, length_take. cbn [length].
    rewrite (proj2 (Z.ltb_ge (Z.of_nat _ + 1) _)) by lia. by rewrite andb_false_r.
  - unfold read, DBInStream_new, Device_load. rewrite take_app_ge by (rewrite length_app; simpl; lia).
    rewrite <-!app_assoc, length_app, Nat.sub_add_distr. cbn [app length]. set (k := (n - length id - 1)%nat). set (rest := take k _ ++ [0]).
    mstep (in_string_at [] id rest (Z.of_nat n) 0 Hid).
    assert (∃ ip' post, text ip' ∧ rest = ip' ++ 0 :: post ∧ (length ip' < length ip ∧ post = [] ∨ length ip' = length ip)%nat) as (ip' & post & Htx & Hrest & Hlen).
    { unfold rest. destruct (decide (k ≤ length ip)%nat) as [Hk|Hk].
      - exists (take k ip), []. split; [by apply text_take|]. rewrite take_app_le by done. split; [done|]. rewrite length_take. destruct (decide (k = length ip)); [right; lia|left; split; [lia|done]].
      - exists ip. rewrite take_app_ge by lia. destruct (k - length ip)%nat as [|k'] eqn:E; [lia|]. exists (take k' ints ++ [0]). split; [done|]. split; [|lia]. simpl. by rewrite <-app_assoc. }
    rewrite Hrest. cbn [app length]. replace (Z.of_nat (0 + length id) + 1) with (Z.of_nat (length (id ++ [0]))) by (rewrite length_app; simpl; lia).
    change (id ++ 0 :: ip' ++ 0 :: post) with (id ++ [0] ++ ip' ++ 0 :: post). rewrite app_assoc.
    mstep (in_string_at (id ++ [0]) ip' post (Z.of_nat n) 0 Htx). set (i := mkIn _ _ _ _).
    assert (length rest = S k ∧ length rest = S (length ip' + length post)) as [Hl1 Hl2].
    { split; [unfold rest; rewrite length_app, length_take, !length_app; simpl; lia|]. rewrite Hrest, length_app. simpl. lia. }
    destruct (device_ints_short id ip' old i) as (p & i' & E & He); [| |simpl..].
    + cbn [i i_datalen i_cursor]. rewrite length_app. cbn [length]. destruct Hlen as [[? ->]|?]; [cbn [length] in Hl2|]; lia.
    + cbn [i i_cursor]. lia.
    + rewrite !length_app. simpl. lia.
    + exists ip', p, i'. exact (conj E He).
Qed.

Lemma gb_device_truncated_witness :
  Device_load (Device_new []) (DBInStream_new [65; 66; 0] 2) = Err FUndef ∧
  ∃ ip port i', Device_load (Device_new []) (DBInStream_new [65; 66; 0; 49; 0] 4) = Ok (mkDevice [65; 66] ip port 0, i') ∧ m_loadError i' = 1.
Proof.
  split; [refine (gb_device_truncated device1 (Device_new []) 2 _ _)|refine (gb_device_truncated device1 (Device_new []) 4 _ _)].
  1, 3: split_and!; [repeat constructor; done..|calc|calc].
  all: vm_compute; lia.
Defined.

End GbStreamProps.
