(* ===== verification/GbResp.v ===== *)
(** The redis protocol of the GB data restorer: commands and replies
    ([gb/downdatarestorer_norah/redisbase.cpp]) and the resumable reply parser of a connection
    ([recv] and [parse] of [redisconnection.cpp]).

    The socket is a parameter: the list of what its reads return, [None] for a failed read (an
    error or a timeout).  [malloc] is a parameter too: which sizes it can serve. *)

From S2P Require Import Prelude GbStream.
From stdpp Require Import options.

Module GbResp.
Import GbStream.

Definition REDIS_READ_BUFF_SIZE : Z := 4096.

Inductive RedisReplyType :=
  REDIS_REPLY_UNKNOWN | REDIS_REPLY_NIL | REDIS_REPLY_ERROR | REDIS_REPLY_STATUS | REDIS_REPLY_INTEGER
| REDIS_REPLY_STRING | REDIS_REPLY_ARRAY | REDIS_REPLY_MULTI_ARRRY.

Inductive RedisParseState :=
  REDIS_PARSE_UNKNOWN_STATE | REDIS_PARSE_TYPE | REDIS_PARSE_LENGTH | REDIS_PARSE_ARRAYLENGTH | REDIS_PARSE_INTEGER | REDIS_PARSE_RESULT | REDIS_PARSE_STRING
| REDIS_PARSE_CURSORLEN | REDIS_PARSE_CURSOR | REDIS_PARSE_KEYSLEN | REDIS_PARSE_KEYLEN | REDIS_PARSE_KEY
| REDIS_PARSE_CHECK_ARRAYS_SIZE | REDIS_PARSE_RESULT_OK | REDIS_PARSE_RESULT_ERR.

(** [arrayValue] is null or a block of [arrayLen] bytes, followed by a zero byte. *)
Record ReplyArrayInfo := mkInfo { ai_type : RedisReplyType; arrayValue : option (list Z); arrayLen : Z }.

Record RedisReplyInfo := mkReply { replyType : RedisReplyType; resultString : list Z; intValue : Z; arrayList : list ReplyArrayInfo }.

Definition RedisReplyInfo_new : RedisReplyInfo := mkReply REDIS_REPLY_UNKNOWN [] 0 [].

(** ** Library functions on C strings *)

(** [strstr(s, "\r\n")] as an offset; the bytes are followed by a zero byte. *)
Fixpoint strstr_crlf (s : list Z) : option nat :=
  match s with
  | [] => None
  | b :: s => if b =? 0 then None else if (b =? 13) && bool_decide (head s = Some 10) then Some O else S <$> strstr_crlf s
  end.

Definition isspace (b : Z) : bool := (b =? 32) || (9 <=? b) && (b <=? 13).
Definition isdigit (b : Z) : bool := (48 <=? b) && (b <=? 57).

Fixpoint skip_space (s : list Z) : list Z :=
  match s with
  | b :: s' => if isspace b then skip_space s' else s
  | [] => []
  end.
Fixpoint scan_digits (acc : Z) (s : list Z) : Z :=
  match s with
  | b :: s' => if isdigit b then scan_digits (acc * 10 + (b - 48)) s' else acc
  | [] => acc
  end.
(** A number that is not an [int] is undefined behaviour. *)
Definition atoi (s : list Z) : result Z :=
  let s := skip_space s in
  let v := match s with
           | 45 :: s => - scan_digits 0 s
           | 43 :: s => scan_digits 0 s
           | _ => scan_digits 0 s
           end in
  if (- 2 ^ 31 <=? v) && (v <? 2 ^ 31) then Ok v else Err FUndef.

(** ** Commands *)

(** [paraValue] is a block of [paraLen] bytes and a zero byte. *)
Record RedisCmdParaInfo := mkPara { paraValue : list Z; paraLen : Z }.

(** Bytes are copied to the end of what is in a buffer of [room] bytes. *)
Definition emit (room : Z) (out bs : list Z) : result (list Z) :=
  if room <? Z.of_nat (length out + length bs) then Err FUndef else Ok (out ++ bs).

Definition CRLF : list Z := [13; 10].

Fixpoint create_paras (room : Z) (out : list Z) (paraList : list RedisCmdParaInfo) : result (list Z) :=
  match paraList with
  | [] => Ok out
  | paraInfo :: paraList =>
      out ← emit room out (36 :: ToString (paraLen paraInfo) ++ CRLF);
      (if (paraLen paraInfo <? 0) || (Z.of_nat (length (paraValue paraInfo)) <? paraLen paraInfo) then Err FUndef else Ok tt);;
      out ← emit room out (take (Z.to_nat (paraLen paraInfo)) (paraValue paraInfo));
      out ← emit room out CRLF;
      create_paras room out paraList
  end.

(** [None] is the result false; the buffer, of [room] bytes, then stays empty. *)
Definition createRedisCommand (room : Z) (paraList : list RedisCmdParaInfo) : result (option (list Z)) :=
  match paraList with
  | [] => Ok None
  | _ =>
      out ← emit room [] (42 :: ToString (Z.of_nat (length paraList)) ++ CRLF);
      out ← create_paras room out paraList;
      Ok (Some out)
  end.

(** ** The parser *)

(** The connection's parser members, and the reply being filled; [m_unparse] is [m_unparseBuf]
    with its [m_unparseLen] bytes, empty for a null pointer. *)
Record conn := mkConn {
  m_unparse : list Z; m_parseState : RedisParseState; m_arrayNum : Z; m_doneNum : Z; m_arrayLen : Z; m_valid : bool; reply : RedisReplyInfo }.

Definition set_unparse (u : list Z) (c : conn) := mkConn u (m_parseState c) (m_arrayNum c) (m_doneNum c) (m_arrayLen c) (m_valid c) (reply c).
Definition set_state (s : RedisParseState) (c : conn) := mkConn (m_unparse c) s (m_arrayNum c) (m_doneNum c) (m_arrayLen c) (m_valid c) (reply c).
Definition set_arrayNum (n : Z) (c : conn) := mkConn (m_unparse c) (m_parseState c) n (m_doneNum c) (m_arrayLen c) (m_valid c) (reply c).
Definition set_doneNum (n : Z) (c : conn) := mkConn (m_unparse c) (m_parseState c) (m_arrayNum c) n (m_arrayLen c) (m_valid c) (reply c).
Definition set_arrayLen (n : Z) (c : conn) := mkConn (m_unparse c) (m_parseState c) (m_arrayNum c) (m_doneNum c) n (m_valid c) (reply c).
Definition set_valid (c : conn) := mkConn (m_unparse c) (m_parseState c) (m_arrayNum c) (m_doneNum c) (m_arrayLen c) true (reply c).
Definition set_reply (r : RedisReplyInfo) (c : conn) := mkConn (m_unparse c) (m_parseState c) (m_arrayNum c) (m_doneNum c) (m_arrayLen c) (m_valid c) r.

Definition set_type (t : RedisReplyType) (c : conn) := set_reply (mkReply t (resultString (reply c)) (intValue (reply c)) (arrayList (reply c))) c.
Definition set_intValue (n : Z) (c : conn) := set_reply (mkReply (replyType (reply c)) (resultString (reply c)) n (arrayList (reply c))) c.
Definition set_resultString (s : list Z) (c : conn) := set_reply (mkReply (replyType (reply c)) s (intValue (reply c)) (arrayList (reply c))) c.
Definition push_back (a : ReplyArrayInfo) (c : conn) := set_reply (mkReply (replyType (reply c)) (resultString (reply c)) (intValue (reply c)) (arrayList (reply c) ++ [a])) c.

Abbreviation MC := (M conn).

(** Where an iteration of the loop goes on; [parseBuf] is the rest of the bytes. *)
Inductive flow :=
| Break (haveArray : bool) (parseBuf : list Z)
| CheckBuf (parseBuf : list Z)
| ReturnFalse.

Section parser.
Context (malloc_ok : Z → bool).

(** The memory is cleared at once, so a null pointer is undefined behaviour. *)
Definition alloc {S} (n : Z) : M S unit := if (0 <=? n) && malloc_ok n then mret tt else fail FUndef.

(** [memcpy(buf, parseBuf, n)] into [char buf[4096]], all zero, which is then used as a C string. *)
Definition copy_buf (n : nat) (bs : list Z) : result (list Z) :=
  if 4096 <=? Z.of_nat n then Err FUndef else Ok (take n bs).

(** An element is complete. *)
Definition push_element (a : ReplyArrayInfo) : MC unit :=
  modify (push_back a);;
  modify (λ c, set_doneNum (m_doneNum c + 1) c);;
  c ← get;
  if m_doneNum c <? m_arrayNum c then modify (set_state REDIS_PARSE_LENGTH) else modify set_valid.

Definition parse_type (haveArray : bool) (bs : list Z) : MC flow :=
  b ← lift (deref (head bs));
  if b =? 45 then modify (λ c, set_type REDIS_REPLY_ERROR (set_state REDIS_PARSE_RESULT c));; mret (Break haveArray bs)
  else if b =? 43 then modify (λ c, set_type REDIS_REPLY_STATUS (set_state REDIS_PARSE_RESULT c));; mret (Break haveArray bs)
  else if b =? 58 then modify (λ c, set_type REDIS_REPLY_INTEGER (set_state REDIS_PARSE_INTEGER c));; mret (Break haveArray bs)
  else if b =? 36 then modify (λ c, set_arrayNum 1 (set_type REDIS_REPLY_STRING (set_state REDIS_PARSE_LENGTH c)));; mret (Break haveArray bs)
  else if b =? 42 then modify (λ c, set_type REDIS_REPLY_ARRAY (set_state REDIS_PARSE_ARRAYLENGTH c));; mret (Break haveArray bs)
  else modify (set_type REDIS_REPLY_UNKNOWN);; mret ReturnFalse.

Definition parse_integer (haveArray : bool) (bs : list Z) : MC flow :=
  match strstr_crlf bs with
  | Some p =>
      buf ← lift (copy_buf p bs);
      v ← lift (atoi buf);
      modify (λ c, set_valid (set_intValue v c));;
      mret (Break haveArray (drop (p + 1) bs))
  | None => mret (CheckBuf bs)
  end.

Definition parse_result (haveArray : bool) (bs : list Z) : MC flow :=
  match strstr_crlf bs with
  | Some p =>
      buf ← lift (copy_buf p bs);
      modify (λ c, set_valid (set_resultString buf c));;
      mret (Break haveArray (drop (p + 1) bs))
  | None => mret (CheckBuf bs)
  end.

(** The line of an element that is not a bulk string. *)
Definition parse_line (haveArray : bool) (bs : list Z) : MC flow :=
  match strstr_crlf bs with
  | Some p =>
      if Z.of_nat p <=? 0 then mret (CheckBuf bs) else
      alloc (Z.of_nat p + 1);;
      push_element (mkInfo REDIS_REPLY_STRING (Some (take p bs)) (Z.of_nat p));;
      mret (Break haveArray (drop (p + 1) bs))
  | None => mret (CheckBuf bs)
  end.

Definition is_line (b : Z) : bool := (b =? 45) || (b =? 43) || (b =? 58).

Definition parse_length (haveArray : bool) (bs : list Z) : MC flow :=
  b ← lift (deref (head bs));
  if haveArray && is_line b then parse_line haveArray bs else
  let bs := if b =? 36 then drop 1 bs else bs in
  match strstr_crlf bs with
  | Some p =>
      buf ← lift (copy_buf p bs);
      v ← lift (atoi buf);
      modify (set_arrayLen v);;
      (if negb (v =? -1) then modify (set_state REDIS_PARSE_STRING) else push_element (mkInfo REDIS_REPLY_NIL None (-1)));;
      mret (Break haveArray (drop (p + 1) bs))
  | None => mret (CheckBuf bs)
  end.

(** [m_arrayLen + 2] is an [int]; a negative length makes [malloc] and [memcpy] undefined. *)
Definition parse_string (haveArray : bool) (bs : list Z) : MC flow :=
  c ← get;
  if 2 ^ 31 <=? m_arrayLen c + 2 then fail FUndef else
  if m_arrayLen c + 2 <=? Z.of_nat (length bs) then
    if m_arrayLen c <? 0 then fail FUndef else
    alloc (m_arrayLen c + 1);;
    push_element (mkInfo REDIS_REPLY_STRING (Some (take (Z.to_nat (m_arrayLen c)) bs)) (m_arrayLen c));;
    mret (Break haveArray (drop (Z.to_nat (m_arrayLen c) + 1) bs))
  else mret (CheckBuf bs).

Definition parse_arraylength (haveArray : bool) (bs : list Z) : MC flow :=
  match strstr_crlf bs with
  | Some p =>
      buf ← lift (copy_buf p bs);
      v ← lift (atoi buf);
      modify (set_arrayNum v);;
      if v =? 0 then modify set_valid;; mret (Break haveArray (drop (p + 1) bs))
      else if v =? -1 then modify (λ c, set_intValue (-1) (set_valid c));; mret (Break haveArray (drop (p + 1) bs))
      else modify (set_state REDIS_PARSE_LENGTH);; mret (Break true (drop (p + 1) bs))
  | None => mret (CheckBuf bs)
  end.

(** The [switch]. *)
Definition parse_step (haveArray : bool) (bs : list Z) : MC flow :=
  c ← get;
  match m_parseState c with
  | REDIS_PARSE_TYPE => parse_type haveArray bs
  | REDIS_PARSE_INTEGER => parse_integer haveArray bs
  | REDIS_PARSE_RESULT => parse_result haveArray bs
  | REDIS_PARSE_LENGTH => parse_length haveArray bs
  | REDIS_PARSE_STRING => parse_string haveArray bs
  | REDIS_PARSE_ARRAYLENGTH => parse_arraylength haveArray bs
  | _ => mret (Break haveArray bs)
  end.

(** What follows the label [check_buf]. *)
Definition check_buf (bs : list Z) : MC bool :=
  c ← get;
  (if negb (m_valid c) && (1 <=? Z.of_nat (length bs)) then alloc (Z.of_nat (length bs) + 1);; modify (set_unparse bs) else mret tt);;
  mret true.

Fixpoint parse_loop (fuel : nat) (haveArray : bool) (bs : list Z) : MC bool :=
  match bs with
  | [] => check_buf []
  | _ =>
      match fuel with
      | O => fail FFuel
      | S fuel =>
          r ← parse_step haveArray bs;
          match r with
          | Break haveArray bs => parse_loop fuel haveArray (drop 1 bs)
          | CheckBuf bs => check_buf bs
          | ReturnFalse => mret false
          end
      end
  end.

(** Every iteration advances [parseBuf]. *)
Definition parse (bs : list Z) : MC bool :=
  modify (λ c, match m_parseState c with REDIS_PARSE_UNKNOWN_STATE => set_state REDIS_PARSE_TYPE c | _ => c end);;
  parse_loop (length bs) false bs.

(** ** Receiving *)

(** [while (!m_valid)]; [mallocLen] bytes are at [toParseBuf], and the parser relies on a zero
    byte behind what was received. *)
Fixpoint recv_loop (mallocLen : Z) (reads : list (option (list Z))) : MC (bool * list (option (list Z))) :=
  c ← get;
  if m_valid c then modify (set_unparse []);; mret (true, reads) else
  match reads with
  | Some recvBuf :: reads =>
      let toParseBuf := m_unparse c ++ recvBuf in
      mallocLen ← (if (0 <? Z.of_nat (length (m_unparse c))) && (mallocLen <=? Z.of_nat (length toParseBuf)) then
                    if 2 ^ 31 <=? mallocLen * 2 then fail FUndef else alloc (mallocLen * 2);; mret (mallocLen * 2)
                  else mret mallocLen);
      if mallocLen <=? Z.of_nat (length toParseBuf) then fail FUndef else
      modify (set_unparse []);;
      parse toParseBuf;;
      recv_loop mallocLen reads
  | _ => modify (set_unparse []);; mret (false, drop 1 reads)
  end.

(** The result, and the reads that are left for the next reply. *)
Definition recv (replyInfo : RedisReplyInfo) (reads : list (option (list Z))) : MC (bool * list (option (list Z))) :=
  put (mkConn [] REDIS_PARSE_UNKNOWN_STATE 0 0 0 false replyInfo);;
  alloc REDIS_READ_BUFF_SIZE;;
  recv_loop REDIS_READ_BUFF_SIZE reads.

End parser.

End GbResp.
