(* ===== verification/GbRespProps.v ===== *)
(** The reply parser: the reply does not depend on how the bytes arrive, and commands are
    encoded so that this parser would read their arguments back. *)

From S2P Require Import Prelude GbStream GbResp.
From stdpp Require Import options.

Module GbRespProps.
Import GbStream GbResp.

(** ** Numbers in decimal *)

Lemma digits_range f n : 0 ≤ n → Forall (λ b, isdigit b = true) (digits f n).
Proof.
  revert n. induction f as [|f IH]; intros n Hn; simpl; [done|]. destruct (Z.ltb_spec n 10).
  - repeat constructor. unfold isdigit. apply andb_true_iff. split; apply Z.leb_le; lia.
  - apply Forall_app. split; [apply IH, Z.div_pos; lia|]. pose proof (Z.mod_pos_bound n 10). repeat constructor. apply andb_true_iff. split; apply Z.leb_le; lia.
Qed.

Lemma scan_digits_app acc a b : Forall (λ x, isdigit x = true) a → scan_digits acc (a ++ b) = scan_digits (scan_digits acc a) b.
Proof. intros Ha. revert acc. induction Ha as [|x a Hx _ IH]; intros acc; simpl; [done|]. rewrite Hx. apply IH. Qed.

Lemma scan_digits_digits f n : 0 ≤ n < 10 ^ Z.of_nat f → scan_digits 0 (digits f n) = n.
Proof.
  revert n. induction f as [|f IH]; intros n Hn; simpl digits; [change (10 ^ Z.of_nat 0) with 1 in Hn; simpl; lia|].
  destruct (Z.ltb_spec n 10) as [Hlt|Hge].
  - simpl. assert (isdigit (48 + n) = true) as -> by (apply andb_true_iff; split; apply Z.leb_le; lia). lia.
  - rewrite Nat2Z.inj_succ, Z.pow_succ_r in Hn by lia. rewrite scan_digits_app by (apply digits_range, Z.div_pos; lia).
    rewrite IH by (split; [apply Z.div_pos; lia|apply Z.div_lt_upper_bound; lia]). simpl. pose proof (Z.mod_pos_bound n 10).
    assert (isdigit (48 + n mod 10) = true) as -> by (apply andb_true_iff; split; apply Z.leb_le; lia). pose proof (Z.div_mod n 10). lia.
Qed.

Lemma length_digits f n : (length (digits f n) ≤ f)%nat.
Proof. revert n. induction f as [|f IH]; intros n; simpl; [done|]. destruct (n <? 10); simpl; [lia|]. rewrite length_app. simpl. specialize (IH (n / 10)). lia. Qed.

Lemma digits_cons f n : 0 ≤ n → ∃ b l, digits (S f) n = b :: l ∧ isdigit b = true.
Proof.
  intros Hn. pose proof (digits_range (S f) n Hn) as H. destruct (digits (S f) n) as [|b l] eqn:E.
  - simpl in E. destruct (n <? 10); [done|]. by destruct (digits f (n / 10)).
  - apply Forall_cons in H as [Hb _]. by exists b, l.
Qed.

Definition int_ok (n : Z) : Prop := - 2 ^ 31 ≤ n < 2 ^ 31.

Lemma atoi_ToString n : int_ok n → atoi (ToString n) = Ok n.
Proof.
  intros Hn. unfold int_ok in Hn. unfold ToString. assert ((- 2 ^ 31 <=? n) && (n <? 2 ^ 31) = true) as Hr.
  { apply andb_true_iff. split; [apply Z.leb_le|apply Z.ltb_lt]; lia. }
  destruct (Z.ltb_spec n 0) as [H|H].
  - unfold atoi. cbn [skip_space isspace]. change (isspace 45) with false. cbn iota. rewrite scan_digits_digits by lia. rewrite Z.opp_involutive. by rewrite Hr.
  - unfold atoi. pose proof (scan_digits_digits 11 n ltac:(lia)) as Hs. destruct (digits_cons 10 n H) as (b & l & E & Hb). rewrite E in *.
    apply andb_true_iff in Hb as [H1 H2]. apply Z.leb_le in H1, H2. cbn [skip_space]. assert (isspace b = false) as ->.
    { unfold isspace. apply orb_false_iff. split; [apply Z.eqb_neq; lia|]. apply andb_false_iff. right. apply Z.leb_gt. lia. }
    assert (∀ k : Z, match b :: l with 45 :: s => - scan_digits 0 s | 43 :: s => scan_digits 0 s | _ => scan_digits 0 (b :: l) end = scan_digits 0 (b :: l)) as Hm.
    { intros _. assert (b ≠ 45 ∧ b ≠ 43) as [? ?] by lia. repeat case_match; done || congruence. }
    rewrite (Hm 0), Hs. by rewrite Hr.
Qed.

(** Bytes of a line: no zero, no carriage return. *)
Definition line_ok (s : list Z) : Prop := Forall (λ b, b ≠ 0 ∧ b ≠ 13) s ∧ (length s < 4096)%nat.

Lemma ToString_line n : line_ok (ToString n) ∧ (length (ToString n) ≤ 12)%nat.
Proof.
  assert (∀ k, 0 ≤ k → Forall (λ b, b ≠ 0 ∧ b ≠ 13) (digits 11 k)) as Hd.
  { intros k Hk. eapply Forall_impl; [by apply digits_range|]. intros b Hb. apply andb_true_iff in Hb as [H1 H2]. apply Z.leb_le in H1, H2. lia. }
  unfold line_ok, ToString. pose proof (length_digits 11 (- n)). pose proof (length_digits 11 n). destruct (Z.ltb_spec n 0).
  - split_and!; [constructor; [lia|apply Hd; lia]|cbn [length]; lia|cbn [length]; lia].
  - split_and!; [apply Hd; lia|lia|lia].
Qed.

(** ** Lines in a part of the bytes *)

Lemma strstr_split s bs d T :
  Forall (λ b, b ≠ 0 ∧ b ≠ 13) s → bs ++ d = s ++ CRLF ++ T →
  (∃ T1, bs = s ++ CRLF ++ T1 ∧ T = T1 ++ d ∧ strstr_crlf bs = Some (length s)) ∨ strstr_crlf bs = None ∧ d ≠ [].
Proof.
  intros Hs. revert bs. induction Hs as [|b s [H0 H13] _ IH]; intros bs Heq.
  - destruct bs as [|x [|y bs]]; simpl in Heq; [subst d; by right|injection Heq as -> ->; by right|]. injection Heq as -> -> Heq. left. exists bs. by split_and!.
  - destruct bs as [|x bs]; [simpl in Heq; subst d; by right|]. injection Heq as -> Heq. simpl. rewrite (proj2 (Z.eqb_neq b 0)), (proj2 (Z.eqb_neq b 13)) by done. cbn [andb].
    destruct (IH bs Heq) as [(T1 & -> & -> & ->)|[-> Hd]]; [left; by exists T1|by right].
Qed.

Lemma string_split (v bs d T : list Z) :
  bs ++ d = v ++ CRLF ++ T → (length v + 2 ≤ length bs)%nat → ∃ T1, bs = v ++ CRLF ++ T1 ∧ T = T1 ++ d.
Proof.
  revert bs. induction v as [|b v IH]; intros bs Heq Hl.
  - destruct bs as [|x [|y bs]]; simpl in Hl; [lia|lia|]. injection Heq as -> -> Heq. by exists bs.
  - destruct bs as [|x bs]; simpl in Hl; [lia|]. injection Heq as -> Heq. destruct (IH bs Heq) as (T1 & -> & ->); [lia|]. by exists T1.
Qed.

Lemma drop_line (s T : list Z) : drop 1 (drop (length s + 1) (s ++ CRLF ++ T)) = T.
Proof. rewrite drop_drop. replace (length s + 1 + 1)%nat with (length (s ++ CRLF)) by (rewrite length_app; simpl; lia). rewrite app_assoc. apply drop_app_length. Qed.

Lemma copy_line (s T : list Z) : (length s < 4096)%nat → copy_buf (length s) (s ++ T) = Ok s.
Proof. intros H. unfold copy_buf. rewrite (proj2 (Z.leb_gt _ _)) by lia. by rewrite take_app_length. Qed.

(** ** Replies *)

(** The replies of the server: those of the protocol whose arrays are of bulk strings. *)
Inductive rvalue :=
| RStatus (s : list Z) | RError (s : list Z) | RInt (n : Z)
| RBulk (o : option (list Z)) | RNullArray | RArray (l : list (option (list Z))).

Definition bulk_body (o : option (list Z)) : list Z :=
  match o with
  | None => ToString (-1) ++ CRLF
  | Some v => ToString (Z.of_nat (length v)) ++ CRLF ++ v ++ CRLF
  end.
Definition bulk (o : option (list Z)) : list Z := 36 :: bulk_body o.
Definition bulks (l : list (option (list Z))) : list Z := concat (bulk <$> l).

Definition encode (r : rvalue) : list Z :=
  match r with
  | RStatus s => 43 :: s ++ CRLF
  | RError s => 45 :: s ++ CRLF
  | RInt n => 58 :: ToString n ++ CRLF
  | RBulk o => bulk o
  | RNullArray => 42 :: ToString (-1) ++ CRLF
  | RArray l => 42 :: ToString (Z.of_nat (length l)) ++ CRLF ++ bulks l
  end.

Definition bulk_info (o : option (list Z)) : ReplyArrayInfo :=
  match o with
  | None => mkInfo REDIS_REPLY_NIL None (-1)
  | Some v => mkInfo REDIS_REPLY_STRING (Some v) (Z.of_nat (length v))
  end.

(** What the client gets. *)
Definition info (r : rvalue) : RedisReplyInfo :=
  match r with
  | RStatus s => mkReply REDIS_REPLY_STATUS s 0 []
  | RError s => mkReply REDIS_REPLY_ERROR s 0 []
  | RInt n => mkReply REDIS_REPLY_INTEGER [] n []
  | RBulk o => mkReply REDIS_REPLY_STRING [] 0 [bulk_info o]
  | RNullArray => mkReply REDIS_REPLY_ARRAY [] (-1) []
  | RArray l => mkReply REDIS_REPLY_ARRAY [] 0 (bulk_info <$> l)
  end.

Definition reply_ok (r : rvalue) : Prop :=
  match r with
  | RStatus s | RError s => line_ok s
  | RInt n => int_ok n
  | _ => True
  end ∧ Z.of_nat (length (encode r)) ≤ 2 ^ 28.

(** ** Where the parser is *)

Definition elems (r : rvalue) : option (RedisReplyType * list (option (list Z))) :=
  match r with
  | RBulk o => Some (REDIS_REPLY_STRING, [o])
  | RArray l => Some (REDIS_REPLY_ARRAY, l)
  | _ => None
  end.

(** With the bytes [R] still to come; an element's dollar sign may have been read before, but
    then not in this call of [parse]. *)
Inductive at_ (r : rvalue) (ha : bool) (c : conn) : list Z → Prop :=
| AtType :
    m_parseState c = REDIS_PARSE_TYPE → m_doneNum c = 0 → reply c = RedisReplyInfo_new → ha = false → at_ r ha c (encode r)
| AtInt n :
    r = RInt n → m_parseState c = REDIS_PARSE_INTEGER → reply c = mkReply REDIS_REPLY_INTEGER [] 0 [] → at_ r ha c (ToString n ++ CRLF)
| AtResult s t :
    (r = RStatus s ∧ t = REDIS_REPLY_STATUS ∨ r = RError s ∧ t = REDIS_REPLY_ERROR) → m_parseState c = REDIS_PARSE_RESULT → reply c = mkReply t [] 0 [] →
    at_ r ha c (s ++ CRLF)
| AtNull :
    r = RNullArray → m_parseState c = REDIS_PARSE_ARRAYLENGTH → reply c = mkReply REDIS_REPLY_ARRAY [] 0 [] → at_ r ha c (ToString (-1) ++ CRLF)
| AtArray l :
    r = RArray l → m_parseState c = REDIS_PARSE_ARRAYLENGTH → reply c = mkReply REDIS_REPLY_ARRAY [] 0 [] → m_doneNum c = 0 →
    at_ r ha c (ToString (Z.of_nat (length l)) ++ CRLF ++ bulks l)
| AtLength t l1 o l2 (dollar : bool) :
    elems r = Some (t, l1 ++ o :: l2) → m_parseState c = REDIS_PARSE_LENGTH → reply c = mkReply t [] 0 (bulk_info <$> l1) →
    m_doneNum c = Z.of_nat (length l1) → m_arrayNum c = Z.of_nat (length (l1 ++ o :: l2)) → (dollar = false → ha = false) →
    at_ r ha c ((if dollar then [36] else []) ++ bulk_body o ++ bulks l2)
| AtString t l1 v l2 :
    elems r = Some (t, l1 ++ Some v :: l2) → m_parseState c = REDIS_PARSE_STRING → reply c = mkReply t [] 0 (bulk_info <$> l1) →
    m_doneNum c = Z.of_nat (length l1) → m_arrayNum c = Z.of_nat (length (l1 ++ Some v :: l2)) → m_arrayLen c = Z.of_nat (length v) →
    at_ r ha c (v ++ CRLF ++ bulks l2).

Definition finished (r : rvalue) (c : conn) : Prop := m_valid c = true ∧ reply c = info r.

(** The next iteration, or the end of the loop. *)
Definition next_ (r : rvalue) (ha : bool) (c : conn) (R : list Z) : Prop := m_valid c = false ∧ at_ r ha c R ∨ finished r c ∧ R = [].

(** An iteration that started with the bytes [bs] of [bs ++ d]. *)
Definition steps_to (r : rvalue) (c : conn) (bs d : list Z) (res : result (flow * conn)) : Prop :=
  (∃ ha' c' bs', res = Ok (Break ha' bs', c') ∧ (length (drop 1 bs') < length bs)%nat ∧ next_ r ha' c' (drop 1 bs' ++ d)) ∨
  (∃ u, res = Ok (CheckBuf u, c) ∧ at_ r false c (u ++ d) ∧ (length u ≤ length bs)%nat ∧ d ≠ []).

Lemma elems_info r t l : elems r = Some (t, l) → info r = mkReply t [] 0 (bulk_info <$> l).
Proof. by destruct r; simpl; intros [= <- <-]. Qed.

Section parsing.
Context (malloc_ok : Z → bool).
Hypothesis malloc_always : ∀ n, 0 ≤ n < 2 ^ 30 → malloc_ok n = true.

Lemma alloc_ok n (c : conn) : 0 ≤ n < 2 ^ 30 → alloc malloc_ok n c = Ok (tt, c).
Proof using malloc_always. intros Hn. unfold alloc. rewrite malloc_always by done. by rewrite (proj2 (Z.leb_le 0 n)) by lia. Qed.

Lemma push_ok r t l1 o l2 c :
  elems r = Some (t, l1 ++ o :: l2) → reply c = mkReply t [] 0 (bulk_info <$> l1) → m_doneNum c = Z.of_nat (length l1) → m_arrayNum c = Z.of_nat (length (l1 ++ o :: l2)) →
  m_valid c = false → ∃ c', push_element (bulk_info o) c = Ok (tt, c') ∧ ∀ ha, next_ r ha c' (bulks l2).
Proof.
  clear. intros He Hr Hd Hn Hv. unfold push_element. rewrite !bind_modify, bind_get. rewrite length_app in Hn. cbn [length] in Hn.
  set (c1 := set_doneNum _ _). assert (reply c1 = mkReply t [] 0 (bulk_info <$> (l1 ++ [o]))) as Hr1 by (simpl; rewrite Hr; simpl; by rewrite fmap_app).
  assert (m_doneNum c1 = Z.of_nat (length l1) + 1) as Hd1 by (simpl; lia). assert (m_arrayNum c1 = m_arrayNum c) as Hn1 by done.
  destruct (Z.ltb_spec (m_doneNum c1) (m_arrayNum c1)) as [Hlt|Hge].
  - destruct l2 as [|o2 l2]; [simpl in Hn; lia|]. eexists. split; [done|]. intros ha. left. split; [done|].
    change (bulks (o2 :: l2)) with ([36] ++ bulk_body o2 ++ bulks l2).
    apply (AtLength _ _ _ t (l1 ++ [o]) o2 l2 true); [by rewrite <-app_assoc|done|done|cbn [set_state m_doneNum]; rewrite length_app; simpl; lia| |done].
    cbn [set_state m_arrayNum]. rewrite Hn1, Hn, !length_app. simpl. lia.
  - destruct l2 as [|o2 l2]; [|simpl in Hn; lia]. eexists. split; [done|]. intros ha. right. split; [|done]. split; [done|].
    cbn [set_valid reply]. rewrite Hr1. by rewrite (elems_info _ _ _ He).
Qed.

Lemma line_step s bs d T (f : nat → MC flow) r c :
  Forall (λ b, b ≠ 0 ∧ b ≠ 13) s → bs ++ d = s ++ CRLF ++ T → at_ r false c (bs ++ d) →
  (∀ T1, bs = s ++ CRLF ++ T1 → ∃ ha' c', f (length s) c = Ok (Break ha' (drop (length s + 1) bs), c') ∧ next_ r ha' c' T) →
  steps_to r c bs d (match strstr_crlf bs with Some p => f p | None => mret (CheckBuf bs) end c).
Proof.
  clear. intros Hs Heq Hat Hf. destruct (strstr_split s bs d T Hs Heq) as [(T1 & -> & -> & ->)|[-> Hd]].
  - destruct (Hf T1 eq_refl) as (ha' & c' & -> & Hn). left. exists ha', c', (drop (length s + 1) (s ++ CRLF ++ T1)). split; [done|]. rewrite drop_line.
    split; [|done]. rewrite !length_app. simpl. lia.
  - right. by exists bs.
Qed.

Lemma integer_step n ha bs d c :
  int_ok n → m_valid c = false → m_parseState c = REDIS_PARSE_INTEGER → reply c = mkReply REDIS_REPLY_INTEGER [] 0 [] → bs ++ d = ToString n ++ CRLF →
  steps_to (RInt n) c bs d (parse_integer ha bs c).
Proof.
  clear. intros Hn Hv Hst Hr Heq. destruct (ToString_line n) as [[Hl Hlen] _]. refine (line_step _ bs d [] (λ p, _) _ _ Hl _ _ _).
  - by rewrite Heq.
  - rewrite Heq. by apply AtInt.
  - intros T1 ->. eexists _, _. split; [|right; split; [split|done]].
    + rewrite (bind_lift _ _ _ _ (copy_line _ _ Hlen)), (bind_lift _ _ _ _ (atoi_ToString n Hn)), bind_modify. done.
    + done.
    + simpl. by rewrite Hr.
Qed.

Lemma result_step s t r ha bs d c :
  line_ok s → (r = RStatus s ∧ t = REDIS_REPLY_STATUS ∨ r = RError s ∧ t = REDIS_REPLY_ERROR) →
  m_valid c = false → m_parseState c = REDIS_PARSE_RESULT → reply c = mkReply t [] 0 [] → bs ++ d = s ++ CRLF →
  steps_to r c bs d (parse_result ha bs c).
Proof.
  clear. intros [Hl Hlen] Hrt Hv Hst Hr Heq. refine (line_step _ bs d [] (λ p, _) _ _ Hl _ _ _).
  - by rewrite Heq.
  - rewrite Heq. by apply (AtResult _ _ _ s t).
  - intros T1 ->. eexists _, _. split; [|right; split; [split|done]].
    + rewrite (bind_lift _ _ _ _ (copy_line _ _ Hlen)), bind_modify. done.
    + done.
    + simpl. rewrite Hr. by destruct Hrt as [[-> ->]|[-> ->]].
Qed.

Lemma null_step ha bs d c :
  m_valid c = false → m_parseState c = REDIS_PARSE_ARRAYLENGTH → reply c = mkReply REDIS_REPLY_ARRAY [] 0 [] → bs ++ d = ToString (-1) ++ CRLF →
  steps_to RNullArray c bs d (parse_arraylength ha bs c).
Proof.
  clear. intros Hv Hst Hr Heq. destruct (ToString_line (-1)) as [[Hl Hlen] _]. refine (line_step _ bs d [] (λ p, _) _ _ Hl _ _ _).
  - by rewrite Heq.
  - rewrite Heq. by apply AtNull.
  - intros T1 ->. eexists _, _. split; [|right; split; [split|done]].
    + rewrite (bind_lift _ _ _ _ (copy_line _ _ Hlen)), (bind_lift _ _ _ (-1) eq_refl). reflexivity.
    + done.
    + simpl. by rewrite Hr.
Qed.

Lemma array_step l ha bs d c :
  Z.of_nat (length l) < 2 ^ 31 → m_valid c = false → m_parseState c = REDIS_PARSE_ARRAYLENGTH → reply c = mkReply REDIS_REPLY_ARRAY [] 0 [] → m_doneNum c = 0 →
  bs ++ d = ToString (Z.of_nat (length l)) ++ CRLF ++ bulks l → steps_to (RArray l) c bs d (parse_arraylength ha bs c).
Proof.
  clear. intros Hn Hv Hst Hr Hd Heq. destruct (ToString_line (Z.of_nat (length l))) as [[Hl Hlen] _]. refine (line_step _ bs d _ (λ p, _) _ _ Hl Heq _ _).
  - rewrite Heq. by apply (AtArray _ _ _ l).
  - intros T1 ->. assert (int_ok (Z.of_nat (length l))) as Hint by (unfold int_ok; lia).
    rewrite (bind_lift _ _ _ _ (copy_line _ _ Hlen)), (bind_lift _ _ _ _ (atoi_ToString _ Hint)), bind_modify. rewrite (proj2 (Z.eqb_neq _ (-1))) by lia.
    destruct l as [|o l].
    + eexists _, _. split; [done|]. right. split; [|done]. split; [done|]. simpl. by rewrite Hr.
    + rewrite (proj2 (Z.eqb_neq _ 0)) by (simpl; lia). eexists _, _. split; [done|]. left. split; [done|].
      change (bulks (o :: l)) with ([36] ++ bulk_body o ++ bulks l). by apply (AtLength _ _ _ REDIS_REPLY_ARRAY [] o l true).
Qed.

Lemma steps_to_more r c bs bs' d res : (length bs' ≤ length bs)%nat → steps_to r c bs' d res → steps_to r c bs d res.
Proof. clear. intros Hl [(ha & c' & u & -> & Hu & Hn)|(u & -> & Hat & Hu & Hd)]; [left; exists ha, c', u; split_and!; [done|lia|done]|right; exists u; split_and!; [done|done|lia|done]]. Qed.

(** The line of an element's length, its dollar sign read. *)
Lemma length_line t l1 o l2 r ha bs d c :
  Z.of_nat (length (bs ++ d)) ≤ 2 ^ 28 → m_valid c = false →
  elems r = Some (t, l1 ++ o :: l2) → m_parseState c = REDIS_PARSE_LENGTH → reply c = mkReply t [] 0 (bulk_info <$> l1) →
  m_doneNum c = Z.of_nat (length l1) → m_arrayNum c = Z.of_nat (length (l1 ++ o :: l2)) →
  bs ++ d = bulk_body o ++ bulks l2 →
  steps_to r c bs d (match strstr_crlf bs with
    | Some p =>
        buf ← lift (copy_buf p bs);
        v ← lift (atoi buf);
        modify (set_arrayLen v);;
        (if negb (v =? -1) then modify (set_state REDIS_PARSE_STRING) else push_element (mkInfo REDIS_REPLY_NIL None (-1)));;
        mret (Break ha (drop (p + 1) bs))
    | None => mret (CheckBuf bs)
    end c).
Proof.
  clear. intros Hb Hv He Hst Hr Hd Hn Heq. assert (at_ r false c (bs ++ d)) as Hat by (rewrite Heq; by apply (AtLength _ _ _ t l1 o l2 false)).
  destruct o as [v|]; cbn [bulk_body] in Heq; rewrite <-!app_assoc in Heq.
  - destruct (ToString_line (Z.of_nat (length v))) as [[Hl Hlen] _].
    assert (int_ok (Z.of_nat (length v))) as Hint. { rewrite Heq, !length_app in Hb. unfold int_ok. lia. }
    refine (line_step _ bs d _ (λ p, _) _ _ Hl Heq Hat _). intros T1 ->.
    rewrite (bind_lift _ _ _ _ (copy_line _ _ Hlen)), (bind_lift _ _ _ _ (atoi_ToString _ Hint)), bind_modify. rewrite (proj2 (Z.eqb_neq _ (-1))) by lia.
    eexists _, _. split; [reflexivity|]. left. split; [done|]. by apply (AtString _ _ _ t l1 v l2).
  - destruct (ToString_line (-1)) as [[Hl Hlen] _]. refine (line_step _ bs d _ (λ p, _) _ _ Hl Heq Hat _). intros T1 ->.
    destruct (push_ok r t l1 None l2 (set_arrayLen (-1) c) He Hr Hd Hn Hv) as (c' & Hpush & Hnext). exists ha, c'. split; [|apply Hnext].
    rewrite (bind_lift _ _ _ _ (copy_line _ _ Hlen)), (bind_lift _ _ _ (-1) eq_refl), bind_modify. cbn [negb Z.eqb Pos.eqb]. by mstep Hpush.
Qed.

(** A length starts with a digit or a minus sign. *)
Lemma body_head o : ∃ b l, bulk_body o = b :: l ∧ b ≠ 36.
Proof.
  clear. destruct o as [v|]; [|by eexists _, _]. unfold bulk_body, ToString. rewrite (proj2 (Z.ltb_ge _ _)) by lia.
  destruct (digits_cons 10 (Z.of_nat (length v))) as (b & l & -> & Hb); [lia|]. eexists _, _. split; [done|]. apply andb_true_iff in Hb as [H _]. apply Z.leb_le in H. lia.
Qed.

Lemma length_step t l1 o l2 (dollar : bool) r ha bs d c :
  bs ≠ [] → Z.of_nat (length (bs ++ d)) ≤ 2 ^ 28 → m_valid c = false →
  elems r = Some (t, l1 ++ o :: l2) → m_parseState c = REDIS_PARSE_LENGTH → reply c = mkReply t [] 0 (bulk_info <$> l1) →
  m_doneNum c = Z.of_nat (length l1) → m_arrayNum c = Z.of_nat (length (l1 ++ o :: l2)) → (dollar = false → ha = false) →
  bs ++ d = (if dollar then [36] else []) ++ bulk_body o ++ bulks l2 →
  steps_to r c bs d (parse_length malloc_ok ha bs c).
Proof.
  clear. intros Hbs Hb Hv He Hst Hr Hd Hn Hha Heq. destruct bs as [|b bs]; [done|]. unfold parse_length. rewrite (bind_lift _ _ _ b) by done. destruct dollar.
  - injection Heq as -> Heq. change (is_line 36) with false. rewrite andb_false_r. cbn [Z.eqb Pos.eqb drop]. cbn [app length] in Hb.
    apply (steps_to_more _ _ _ bs); [simpl; lia|]. apply (length_line t l1 o l2); try done. rewrite drop_0. lia.
  - destruct (body_head o) as (b' & l & Hbody & Hne). rewrite Hha by done. cbn [andb]. assert (b = b') as -> by (rewrite Hbody in Heq; by injection Heq).
    rewrite (proj2 (Z.eqb_neq _ _)) by done. by apply (length_line t l1 o l2).
Qed.

Lemma string_step t l1 v l2 r ha bs d c :
  Z.of_nat (length (bs ++ d)) ≤ 2 ^ 28 → m_valid c = false →
  elems r = Some (t, l1 ++ Some v :: l2) → m_parseState c = REDIS_PARSE_STRING → reply c = mkReply t [] 0 (bulk_info <$> l1) →
  m_doneNum c = Z.of_nat (length l1) → m_arrayNum c = Z.of_nat (length (l1 ++ Some v :: l2)) → m_arrayLen c = Z.of_nat (length v) →
  bs ++ d = v ++ CRLF ++ bulks l2 → steps_to r c bs d (parse_string malloc_ok ha bs c).
Proof using malloc_always.
  intros Hb Hv He Hst Hr Hd Hn Hlen Heq. assert (Z.of_nat (length v) ≤ 2 ^ 28) as Hvl by (rewrite Heq, !length_app in Hb; lia).
  unfold parse_string. rewrite bind_get, Hlen. rewrite (proj2 (Z.leb_gt (2 ^ 31) _)) by lia. destruct (Z.leb_spec (Z.of_nat (length v) + 2) (Z.of_nat (length bs))) as [Hle|Hgt].
  - destruct (string_split v bs d (bulks l2) Heq) as (T1 & -> & HT); [lia|]. rewrite (proj2 (Z.ltb_ge _ 0)) by lia. mstep (alloc_ok (Z.of_nat (length v) + 1) c ltac:(lia)).
    rewrite Nat2Z.id, take_app_length. destruct (push_ok r t l1 (Some v) l2 c He Hr Hd Hn Hv) as (c' & Hpush & Hnext). cbn [bulk_info] in Hpush. mstep Hpush.
    left. eexists ha, c', _. split; [done|]. rewrite drop_line. split; [rewrite !length_app; simpl; lia|]. rewrite <-HT. apply Hnext.
  - right. exists bs. split_and!; [done|rewrite Heq; by apply (AtString _ _ _ t l1 v l2)|done|]. intros ->. rewrite app_nil_r in Heq. rewrite Heq, !length_app in Hgt. simpl in Hgt. lia.
Qed.

Lemma type_step r bs d c :
  bs ≠ [] → m_valid c = false → m_parseState c = REDIS_PARSE_TYPE → m_doneNum c = 0 → reply c = RedisReplyInfo_new → bs ++ d = encode r →
  steps_to r c bs d (parse_type false bs c).
Proof.
  clear. intros Hbs Hv Hst Hd Hr Heq. destruct bs as [|b bs]; [done|]. unfold parse_type. rewrite (bind_lift _ _ _ b) by done.
  left. destruct r as [s|s|n|o| |l]; injection Heq as -> Heq; cbn [Z.eqb Pos.eqb];
    (eexists _, _, (_ :: bs); split; [reflexivity|]; rewrite skipn_cons, drop_0; split; [cbn [length]; lia|]; left; split; [done|]; rewrite Heq).
  - apply (AtResult _ _ _ s REDIS_REPLY_STATUS); [by left|done|]. simpl. by rewrite Hr.
  - apply (AtResult _ _ _ s REDIS_REPLY_ERROR); [by right|done|]. simpl. by rewrite Hr.
  - apply (AtInt _ _ _ n); [done|done|]. simpl. by rewrite Hr.
  - rewrite <-(app_nil_r (bulk_body o)). apply (AtLength _ _ _ REDIS_REPLY_STRING [] o [] false); [done|done| |done|done|done]. simpl. by rewrite Hr.
  - apply AtNull; [done|done|]. simpl. by rewrite Hr.
  - apply (AtArray _ _ _ l); [done|done| |done]. simpl. by rewrite Hr.
Qed.

Lemma length_bulks l : (length l ≤ length (bulks l))%nat.
Proof. clear. unfold bulks. induction l as [|o l IH]; [done|]. rewrite fmap_cons. cbn [concat]. rewrite length_app. unfold bulk at 1. cbn [length]. lia. Qed.

Lemma step_ok r ha bs d c :
  reply_ok r → bs ≠ [] → Z.of_nat (length (bs ++ d)) ≤ 2 ^ 28 → m_valid c = false → at_ r ha c (bs ++ d) →
  steps_to r c bs d (parse_step malloc_ok ha bs c).
Proof using malloc_always.
  intros [Hok Hlen] Hbs Hb Hv Hat. unfold parse_step. rewrite bind_get. remember (bs ++ d) as R eqn:HR.
  destruct Hat as [Hst|n -> Hst|s t Hrt Hst| -> Hst|l -> Hst|t l1 o l2 dollar He Hst|t l1 v l2 He Hst]; rewrite Hst.
  - subst ha. by apply type_step.
  - by apply integer_step.
  - apply (result_step s t); [|done..]. by destruct Hrt as [[-> _]|[-> _]].
  - by apply null_step.
  - apply array_step; [|done..]. cbn [encode length] in Hlen. rewrite !length_app in Hlen. pose proof (length_bulks l). lia.
  - apply (length_step t l1 o l2 dollar); try done. by rewrite <-HR.
  - apply (string_step t l1 v l2); try done. by rewrite <-HR.
Qed.

(** The unparsed bytes are set at the end of [parse] only. *)
Definition keeps {A} (m : MC A) : Prop := ∀ c a c', m c = Ok (a, c') → m_unparse c' = m_unparse c.

Lemma keeps_ret {A} (a : A) : keeps (mret a).
Proof. clear. intros c x c' H. by injection H as <- <-. Qed.
Lemma keeps_bind {A B} (m : MC A) (f : A → MC B) : keeps m → (∀ a, keeps (f a)) → keeps (m ≫= f).
Proof. clear. intros Hm Hf c b c' H. unfold mbind, M_bind in H. destruct (m c) as [[a c1]|] eqn:E; [|done]. by rewrite (Hf _ _ _ _ H), (Hm _ _ _ E). Qed.
Lemma keeps_lift {A} (r : result A) : keeps (lift r).
Proof. clear. intros c x c' H. unfold lift in H. destruct r; [|done]. by injection H as <- <-. Qed.
Lemma keeps_get : keeps get.
Proof. clear. intros c x c' H. by injection H as <- <-. Qed.
Lemma keeps_modify h : (∀ c, m_unparse (h c) = m_unparse c) → keeps (modify h).
Proof. clear. intros Hh c x c' H. by injection H as <- <-. Qed.
Lemma keeps_fail {A} e : keeps (fail e : MC A).
Proof. clear. by intros c x c' H. Qed.
Ltac keeps :=
  repeat first [apply keeps_ret | apply keeps_lift | apply keeps_get | apply keeps_fail | apply keeps_modify; done
    | apply keeps_bind; [|intros ?] | case_match | progress unfold alloc, push_element, parse_line].

Lemma keeps_step ha bs : keeps (parse_step malloc_ok ha bs).
Proof.
  clear. unfold parse_step, parse_type, parse_integer, parse_result, parse_length, parse_string, parse_arraylength. keeps.
Qed.

Lemma at_weaken r ha c R : at_ r ha c R → at_ r false c R.
Proof. clear. destruct 1; by econstructor. Qed.

Lemma at_unparse r ha c u R : at_ r ha c R → at_ r ha (set_unparse u c) R.
Proof. clear. destruct 1; by econstructor. Qed.

Lemma at_nonempty r ha c R : at_ r ha c R → R ≠ [].
Proof.
  clear. destruct 1 as [| | | | |t l1 o l2 dollar|]; try (intros E; apply (f_equal length) in E; rewrite ?length_app in E; simpl in E; lia).
  - by destruct r.
  - destruct (body_head o) as (b & l & -> & _). by destruct dollar.
Qed.

(** What a call of [parse] comes to when the bytes [d] are still missing. *)
Definition parsed (r : rvalue) (c : conn) (n : nat) (d : list Z) : Prop :=
  finished r c ∧ d = [] ∨ m_valid c = false ∧ at_ r false c (m_unparse c ++ d) ∧ (length (m_unparse c) ≤ n)%nat ∧ d ≠ [].

Lemma check_buf_ok r c bs d n :
  m_unparse c = [] → m_valid c = false → at_ r false c (bs ++ d) → (length bs ≤ n)%nat → d ≠ [] → Z.of_nat (length bs) ≤ 2 ^ 28 →
  ∃ c', check_buf malloc_ok bs c = Ok (true, c') ∧ parsed r c' n d.
Proof using malloc_always.
  intros Hu Hv Hat Hn Hd Hb. unfold check_buf. rewrite bind_get, Hv. destruct (Z.leb_spec 1 (Z.of_nat (length bs))) as [H|H]; cbn [negb andb].
  - unfold mbind at 1, M_bind at 1. mstep (alloc_ok (Z.of_nat (length bs) + 1) c ltac:(lia)). eexists. split; [done|]. right. by split_and!; [|apply at_unparse| |].
  - destruct bs; [|simpl in H; lia]. eexists. split; [done|]. right. rewrite Hu. by split_and!.
Qed.

Lemma loop_ok r fuel ha bs d c :
  reply_ok r → Z.of_nat (length (bs ++ d)) ≤ 2 ^ 28 → (length bs ≤ fuel)%nat → m_unparse c = [] → next_ r ha c (bs ++ d) →
  ∃ c', parse_loop malloc_ok fuel ha bs c = Ok (true, c') ∧ parsed r c' (length bs) d.
Proof using malloc_always.
  intros Hr. revert ha bs c. induction fuel as [|fuel IH]; intros ha bs c Hb Hf Hu Hn.
  - destruct bs; [|simpl in Hf; lia]. destruct Hn as [[Hv Hat]|[Hfin Hd]].
    + apply check_buf_ok; [done|done|by eapply at_weaken|done|by eapply at_nonempty|simpl; lia].
    + exists c. split; [|by left]. simpl. unfold check_buf. rewrite bind_get. by rewrite (proj1 Hfin).
  - destruct bs as [|b bs].
    + destruct Hn as [[Hv Hat]|[Hfin Hd]]; [apply check_buf_ok; [done|done|by eapply at_weaken|done|by eapply at_nonempty|simpl; lia]|].
      exists c. split; [|by left]. simpl. unfold check_buf. rewrite bind_get. by rewrite (proj1 Hfin).
    + destruct Hn as [[Hv Hat]|[_ Hd]]; [|done]. cbn [parse_loop].
      destruct (step_ok r ha (b :: bs) d c Hr ltac:(done) Hb Hv Hat) as [(ha' & c1 & u & Hrun & Hlt & Hn1)|(u & Hrun & Hat1 & Hlt & Hd)]; mstep Hrun.
      * pose proof (keeps_step _ _ _ _ _ Hrun) as Hk. rewrite length_app in Hb. destruct (IH ha' (drop 1 u) c1) as (c' & Hloop & Hp); [rewrite length_app; lia|lia|by rewrite Hk|done|].
        exists c'. split; [done|]. destruct Hp as [?|(? & ? & ? & ?)]; [by left|right]. split_and!; [done|done|lia|done].
      * rewrite length_app in Hb. apply check_buf_ok; [done|done|done|done|done|lia].
Qed.

(** Before a call of [parse]: the first one finds the state unknown. *)
Definition before (r : rvalue) (c : conn) (R : list Z) : Prop :=
  m_valid c = false ∧
  (m_parseState c = REDIS_PARSE_UNKNOWN_STATE ∧ m_doneNum c = 0 ∧ reply c = RedisReplyInfo_new ∧ R = encode r ∨
   m_parseState c ≠ REDIS_PARSE_UNKNOWN_STATE ∧ at_ r false c R).

Lemma at_known r ha c R : at_ r ha c R → m_parseState c ≠ REDIS_PARSE_UNKNOWN_STATE.
Proof. clear. destruct 1; congruence. Qed.

Lemma parse_ok r bs d c :
  reply_ok r → Z.of_nat (length (bs ++ d)) ≤ 2 ^ 28 → m_unparse c = [] → before r c (bs ++ d) →
  ∃ c', parse malloc_ok bs c = Ok (true, c') ∧ parsed r c' (length bs) d.
Proof using malloc_always.
  intros Hr Hb Hu [Hv Hbef]. unfold parse. rewrite bind_modify. apply loop_ok; [done|done|done| |].
  - by case_match.
  - left. destruct Hbef as [(Hst & Hd & Hrep & ->)|[Hst Hat]].
    + rewrite Hst. split; [done|]. by constructor.
    + by destruct (m_parseState c).
Qed.

Lemma recv_loop_ok r mallocLen chunks later c :
  reply_ok r → Forall (λ d, 1 ≤ Z.of_nat (length d) < REDIS_READ_BUFF_SIZE) chunks →
  4096 ≤ mallocLen ≤ 2 ^ 29 → Z.of_nat (length (m_unparse c)) < mallocLen → Z.of_nat (length (m_unparse c ++ concat chunks)) ≤ 2 ^ 28 → chunks ≠ [] →
  before r c (m_unparse c ++ concat chunks) →
  ∃ c', recv_loop malloc_ok mallocLen ((Some <$> chunks) ++ later) c = Ok ((true, later), c') ∧ reply c' = info r.
Proof using malloc_always.
  intros Hr Hch. revert mallocLen c. unfold REDIS_READ_BUFF_SIZE in *. induction Hch as [|d chunks Hd Hch IH]; intros mallocLen c Hm Hu Hb Hne Hbef; [done|]. clear Hne.
  rewrite fmap_cons. cbn [app recv_loop concat] in *. rewrite app_assoc in Hb, Hbef. rewrite bind_get, (proj1 Hbef). cbn [concat] in *.
  set (bs := m_unparse c ++ d) in *. assert (Z.of_nat (length bs) ≤ 2 ^ 28) as Hbs by (rewrite length_app in Hb; lia).
  assert (Z.of_nat (length bs) < mallocLen + 4096) as Hbs2 by (unfold bs; rewrite length_app; lia).
  set (k := if (0 <? Z.of_nat (length (m_unparse c))) && (mallocLen <=? Z.of_nat (length bs)) then _ else _).
  assert (∃ m', k c = Ok (m', c) ∧ 4096 ≤ m' ≤ 2 ^ 29 ∧ Z.of_nat (length bs) < m') as (m' & Hk & Hm' & Hlt).
  { unfold k. destruct (Z.ltb_spec 0 (Z.of_nat (length (m_unparse c)))); cbn [andb]; [destruct (Z.leb_spec mallocLen (Z.of_nat (length bs)))|].
    - rewrite (proj2 (Z.leb_gt _ _)) by lia. mstep (alloc_ok (mallocLen * 2) c ltac:(lia)). exists (mallocLen * 2). split; [done|]. lia.
    - exists mallocLen. split; [done|]. lia.
    - exists mallocLen. split; [done|]. split; [done|]. unfold bs. rewrite length_app. lia. }
  mstep Hk. rewrite (proj2 (Z.leb_gt _ _)) by done. rewrite bind_modify.
  assert (before r (set_unparse [] c) (bs ++ concat chunks)) as Hbef1.
  { destruct Hbef as [Hv [Hx|[Hx Hat]]]; (split; [done|]); [by left|right; split; [done|by apply at_unparse]]. }
  destruct (parse_ok r bs (concat chunks) (set_unparse [] c) Hr Hb eq_refl Hbef1) as (c1 & Hrun & Hp). mstep Hrun.
  destruct Hp as [[Hfin Hnil]|(Hv & Hat & Hlen & Hne)].
  - assert (chunks = []) as ->. { destruct Hch as [|d' chunks' Hd' _]; [done|]. simpl in Hnil. apply app_nil in Hnil as [-> _]. simpl in Hd'. lia. }
    destruct Hfin as [Hv Hrep]. exists (set_unparse [] c1). split; [|done]. destruct later; cbn [fmap list_fmap app recv_loop]; rewrite bind_get, Hv; reflexivity.
  - destruct (IH m' c1) as (c' & Hloop & Hrep); [done|lia|rewrite length_app in *; lia|by intros ->|split; [done|right; split; [by eapply at_known|done]]|].
    by exists c'.
Qed.

End parsing.

Lemma recv_split malloc_ok r chunks later c :
  (∀ n, 0 ≤ n < 2 ^ 30 → malloc_ok n = true) → reply_ok r →
  Forall (λ d, 1 ≤ Z.of_nat (length d) < REDIS_READ_BUFF_SIZE) chunks → concat chunks = encode r →
  ∃ c', recv malloc_ok RedisReplyInfo_new ((Some <$> chunks) ++ later) c = Ok ((true, later), c') ∧ reply c' = info r.
Proof.
  intros Hm Hr Hch Hcat. unfold recv. set (c0 := mkConn [] REDIS_PARSE_UNKNOWN_STATE 0 0 0 false RedisReplyInfo_new).
  assert ((put c0 : MC unit) c = Ok (tt, c0)) as Hput by done. mstep Hput. mstep (alloc_ok malloc_ok Hm REDIS_READ_BUFF_SIZE c0 ltac:(unfold REDIS_READ_BUFF_SIZE; lia)).
  apply (recv_loop_ok malloc_ok Hm r); [done|done|unfold REDIS_READ_BUFF_SIZE; lia|done|simpl; rewrite Hcat; apply Hr| |].
  - intros ->. simpl in Hcat. by destruct r.
  - split; [done|]. left. simpl. by rewrite Hcat.
Qed.

(** C15. A reply of the server (a status, an error, an integer, a bulk string, or an array of bulk
    strings) is received as that reply however the network cuts its bytes into reads: into any
    nonempty pieces that fit the receive buffer.  The reads that follow are left for the next
    reply. *)
Theorem gb_recv_any_split malloc_ok r chunks later c :
  (∀ n, 0 ≤ n < 2 ^ 30 → malloc_ok n = true) → reply_ok r →
  Forall (λ d, 1 ≤ Z.of_nat (length d) < REDIS_READ_BUFF_SIZE) chunks → concat chunks = encode r →
  ∃ c', recv malloc_ok RedisReplyInfo_new ((Some <$> chunks) ++ later) c = Ok ((true, later), c') ∧ reply c' = info r.
Proof. apply recv_split. Qed.

Lemma gb_recv_any_split_witness :
  ∃ c', recv (λ _, true) RedisReplyInfo_new [Some [42; 49; 13]; Some [10; 36]; Some [51; 13; 10; 65; 0]; Some [66; 13; 10]; Some [43]] (mkConn [] REDIS_PARSE_TYPE 0 0 0 true RedisReplyInfo_new)
    = Ok ((true, [Some [43]]), c') ∧ reply c' = info (RArray [Some [65; 0; 66]]).
Proof.
  refine (gb_recv_any_split (λ _, true) (RArray [Some [65; 0; 66]]) [[42; 49; 13]; [10; 36]; [51; 13; 10; 65; 0]; [66; 13; 10]] [Some [43]] _ _ _ _ _);
    [done|split; [done|vm_compute; congruence]|repeat constructor; vm_compute; congruence|done].
Defined.

(** The result of [parse] does depend on the reads for an array with elements that are not
    bulk strings, as EXEC answers with: [haveArray] is a local variable, so when the reply is cut
    after its first line the elements' lines are taken for lengths.  The reply "*2 :1 :2" in one
    piece has the elements ":1" and ":2"; in two pieces it is never complete, and the read that
    waits for more fails. *)
Theorem gb_exec_reply_split c :
  let one := [42; 50; 13; 10] in
  let two := [58; 49; 13; 10; 58; 50; 13; 10] in
  (∃ c', recv (λ _, true) RedisReplyInfo_new [Some (one ++ two)] c = Ok ((true, []), c') ∧
    reply c' = mkReply REDIS_REPLY_ARRAY [] 0 [mkInfo REDIS_REPLY_STRING (Some [58; 49]) 2; mkInfo REDIS_REPLY_STRING (Some [58; 50]) 2]) ∧
  (∃ c', recv (λ _, true) RedisReplyInfo_new [Some one; Some two] c = Ok ((false, []), c') ∧ m_valid c' = false ∧ arrayList (reply c') = [mkInfo REDIS_REPLY_STRING (Some []) 0]).
Proof. split; eexists; by vm_compute. Qed.

(** ** Every call returns *)

(** No iteration runs out of fuel, and the bytes that are left get fewer. *)
Definition advances (bs : list Z) (m : MC flow) : Prop :=
  ∀ c, m c ≠ Err FFuel ∧ ∀ ha bs' c', m c = Ok (Break ha bs', c') → (length bs' ≤ length bs)%nat.
Definition no_fuel {A} (m : MC A) : Prop := ∀ c, m c ≠ Err FFuel.

Lemma adv_bind {A} bs (m : MC A) f : no_fuel m → (∀ a, advances bs (f a)) → advances bs (m ≫= f).
Proof.
  intros Hm Hf c. unfold mbind, M_bind. specialize (Hm c). destruct (m c) as [[a c1]|e].
  - apply Hf.
  - split; [congruence|done].
Qed.
Lemma adv_break bs ha bs' : (length bs' ≤ length bs)%nat → advances bs (mret (Break ha bs')).
Proof. intros H c. split; [done|]. by intros ? ? ? [= <- <- <-]. Qed.
Lemma adv_check bs u : advances bs (mret (CheckBuf u)).
Proof. done. Qed.
Lemma adv_false bs : advances bs (mret ReturnFalse).
Proof. done. Qed.
Lemma adv_fail bs e : e ≠ FFuel → advances bs (fail e).
Proof. intros H c. split; [unfold fail; congruence|done]. Qed.
Lemma adv_more bs bs' m : (length bs' ≤ length bs)%nat → advances bs' m → advances bs m.
Proof. intros Hl Hm c. split; [apply Hm|]. intros ha u c' H. destruct (Hm c) as [_ Hm']. specialize (Hm' _ _ _ H). lia. Qed.
Lemma nf_lift {A} (r : result A) : r ≠ Err FFuel → no_fuel (lift r).
Proof. intros H c. unfold lift. destruct r; congruence. Qed.
Lemma nf_alloc malloc_ok n : no_fuel (alloc malloc_ok n : MC unit).
Proof. intros c. unfold alloc. by case_match. Qed.
Lemma nf_push a : no_fuel (push_element a).
Proof. intros c. unfold push_element. rewrite !bind_modify, bind_get. by case_match. Qed.
Lemma nf_get : no_fuel get.
Proof. done. Qed.
Lemma nf_modify h : no_fuel (modify h).
Proof. done. Qed.
Lemma atoi_no_fuel s : atoi s ≠ Err FFuel.
Proof. unfold atoi. by case_match. Qed.
Lemma copy_no_fuel n bs : copy_buf n bs ≠ Err FFuel.
Proof. unfold copy_buf. by case_match. Qed.
Lemma head_no_fuel (bs : list Z) : deref (head bs) ≠ Err FFuel.
Proof. by destruct bs. Qed.

Create HintDb fuel.
#[local] Hint Resolve nf_lift nf_alloc nf_push nf_get nf_modify atoi_no_fuel copy_no_fuel head_no_fuel adv_check adv_false : fuel.

Ltac adv :=
  repeat first [apply adv_break; rewrite ?length_drop; lia | apply adv_fail; done | solve [eauto with fuel]
    | apply adv_bind; [solve [eauto with fuel]|intros ?] | match goal with |- advances _ (if ?b then _ else _) => destruct b end
    | match goal with |- advances _ (match ?x with _ => _ end) => destruct x end].

Lemma adv_line malloc_ok ha bs : advances bs (parse_line malloc_ok ha bs).
Proof. unfold parse_line. adv. Qed.

Lemma adv_step malloc_ok ha bs : advances bs (parse_step malloc_ok ha bs).
Proof.
  unfold parse_step. apply adv_bind; [done|]. intros c. destruct (m_parseState c); try (apply adv_break; lia).
  - unfold parse_type. adv.
  - unfold parse_length. apply adv_bind; [auto with fuel|]. intros b. destruct (ha && is_line b); [apply adv_line|].
    apply (adv_more _ (if b =? 36 then drop 1 bs else bs)); [destruct (b =? 36); rewrite ?length_drop; lia|]. set (u := if b =? 36 then _ else _). clearbody u.
    destruct (strstr_crlf u) as [p|]; [|apply adv_check]. do 3 (apply adv_bind; [auto with fuel|intros ?]). destruct (negb _); adv.
  - unfold parse_arraylength. adv.
  - unfold parse_integer. adv.
  - unfold parse_result. adv.
  - unfold parse_string. adv.
Qed.

(** On any bytes, in any state of the connection, [parse] returns: its loop ends, since every
    iteration leaves fewer bytes. *)
Theorem gb_parse_returns malloc_ok bs c : parse malloc_ok bs c ≠ Err FFuel.
Proof.
  unfold parse. rewrite bind_modify. set (c1 := match m_parseState c with REDIS_PARSE_UNKNOWN_STATE => _ | _ => _ end). clearbody c1. clear c.
  assert (∀ u c, check_buf malloc_ok u c ≠ Err FFuel) as Hcheck.
  { intros u c. unfold check_buf. rewrite bind_get. destruct (negb _ && _); [|done]. unfold mbind, M_bind. pose proof (nf_alloc malloc_ok (Z.of_nat (length u) + 1) c). destruct (alloc malloc_ok (Z.of_nat (length u) + 1) c) as [[]|]; [done|congruence]. }
  assert (∀ fuel ha u c, (length u ≤ fuel)%nat → parse_loop malloc_ok fuel ha u c ≠ Err FFuel) as H.
  { induction fuel as [|fuel IH]; intros ha u c Hl; (destruct u as [|b u]; [apply Hcheck|]); [simpl in Hl; lia|]. cbn [parse_loop].
    destruct (adv_step malloc_ok ha (b :: u) c) as [Hnf Hle]. unfold mbind, M_bind. destruct (parse_step _ _ _ c) as [[[ha' u'|u'|] c']|e]; [|apply Hcheck|done|congruence].
    apply IH. specialize (Hle _ _ _ eq_refl). rewrite length_drop. simpl in *. lia. }
  by apply H.
Qed.

(** ** Commands *)

(** The parameter that [fillCommandPara] makes of a string. *)
Definition para (v : list Z) : RedisCmdParaInfo := mkPara (v ++ [0]) (Z.of_nat (length v)).

Lemma emit_spec room out bs : emit room out bs = if room <? Z.of_nat (length (out ++ bs)) then Err FUndef else Ok (out ++ bs).
Proof. unfold emit. by rewrite length_app. Qed.

Lemma create_paras_ok room out vs :
  Z.of_nat (length out) ≤ room →
  create_paras room out (para <$> vs) =
    if room <? Z.of_nat (length (out ++ bulks (Some <$> vs))) then Err FUndef else Ok (out ++ bulks (Some <$> vs)).
Proof.
  revert out. induction vs as [|v vs IH]; intros out Hout.
  - unfold bulks. rewrite app_nil_r. by rewrite (proj2 (Z.ltb_ge _ _)) by done.
  - rewrite !fmap_cons. cbn [create_paras]. unfold mbind, result_bind. change (bulks (Some v :: (Some <$> vs))) with (bulk (Some v) ++ bulks (Some <$> vs)).
    assert ((paraLen (para v) <? 0) || (Z.of_nat (length (paraValue (para v))) <? paraLen (para v)) = false) as Hp.
    { unfold para. cbn [paraLen paraValue]. rewrite length_app. cbn [length]. apply orb_false_iff. split; apply Z.ltb_ge; lia. }
    assert (take (Z.to_nat (paraLen (para v))) (paraValue (para v)) = v) as Hv by (unfold para; cbn [paraLen paraValue]; by rewrite Nat2Z.id, take_app_length).
    rewrite Hp, Hv.
    set (h := 36 :: ToString (paraLen (para v)) ++ CRLF). assert (bulk (Some v) = h ++ v ++ CRLF) as Hh by (unfold h, bulk, bulk_body; simpl; by rewrite <-!app_assoc).
    rewrite Hh. rewrite !emit_spec. assert (∀ l, (length (out ++ h) ≤ length (out ++ (h ++ v ++ CRLF) ++ l) ∧ length ((out ++ h) ++ v) ≤ length (out ++ (h ++ v ++ CRLF) ++ l) ∧ length (((out ++ h) ++ v) ++ CRLF) ≤ length (out ++ (h ++ v ++ CRLF) ++ l))%nat) as Hle.
    { intros l. rewrite !length_app. lia. }
    specialize (Hle (bulks (Some <$> vs))). destruct Hle as (Hl1 & Hl2 & Hl3).
    destruct (Z.ltb_spec room (Z.of_nat (length (out ++ h)))) as [H1|H1]; [by rewrite (proj2 (Z.ltb_lt _ _)) by lia|]. rewrite !emit_spec.
    destruct (Z.ltb_spec room (Z.of_nat (length ((out ++ h) ++ v)))) as [H2|H2]; [by rewrite (proj2 (Z.ltb_lt _ _)) by lia|]. rewrite !emit_spec.
    destruct (Z.ltb_spec room (Z.of_nat (length (((out ++ h) ++ v) ++ CRLF)))) as [H3|H3]; [by rewrite (proj2 (Z.ltb_lt _ _)) by lia|].
    rewrite IH by done. by rewrite <-!app_assoc.
Qed.

Lemma command_bytes room vs :
  createRedisCommand room (para <$> vs) =
    if bool_decide (vs = []) then Ok None
    else if room <? Z.of_nat (length (encode (RArray (Some <$> vs)))) then Err FUndef else Ok (Some (encode (RArray (Some <$> vs)))).
Proof.
  destruct vs as [|v vs]; [done|]. rewrite bool_decide_false by done. set (l := v :: vs). unfold createRedisCommand, mbind, result_bind.
  destruct (para <$> l) as [|p ps] eqn:E; [done|]. rewrite <-E. rewrite length_fmap, emit_spec, app_nil_l.
  set (h := 42 :: ToString (Z.of_nat (length l)) ++ CRLF). assert (encode (RArray (Some <$> l)) = h ++ bulks (Some <$> l)) as Henc.
  { unfold encode, h. rewrite length_fmap. simpl. by rewrite <-app_assoc. }

  rewrite Henc. destruct (Z.ltb_spec room (Z.of_nat (length h))) as [H|H].  - rewrite (proj2 (Z.ltb_lt room (Z.of_nat (length (h ++ bulks (Some <$> l)))))); [|rewrite length_app; lia]. done.
  - rewrite create_paras_ok by done. by destruct (room <? Z.of_nat (length (h ++ bulks (Some <$> l)))).
Qed.

(** A command is written as the array of its parameters, in the encoding that the reply
    parser reads, exactly when the buffer has room for it, and the writer runs past the buffer
    otherwise; without parameters nothing is written. *)
Theorem gb_command_encoding room vs :
  createRedisCommand room (para <$> vs) =
    if bool_decide (vs = []) then Ok None
    else if room <? Z.of_nat (length (encode (RArray (Some <$> vs)))) then Err FUndef else Ok (Some (encode (RArray (Some <$> vs)))).
Proof. apply command_bytes. Qed.

End GbRespProps.
