(* ===== verification/GbPool.v ===== *)
(** Connections to redis and their pool: [gb/downdatarestorer_norah/rediscluster.cpp] and the
    sending half of [redisconnection.cpp].

    Connections are structs in a heap and the pool's vectors hold pointers to them; a pointer to
    a deleted connection is undefined to use.  The network is a parameter, the class [Net]. *)

From S2P Require Import Prelude GbStream GbResp.
From stdpp Require Import options.

Module GbPool.
Import GbStream GbResp.

(** What [socket.cpp] and the clock do, for the sockets of one server.  A write reports how many
    bytes were written and whether the socket is still open; the reads are what the following
    [Socket::read]s return; [net_probe] is the non-blocking read of one byte that finds out
    whether the peer has closed. *)
Class Net (S : Type) := {
  net_connect : S → option Z * S;
  net_close : Z → S → S;
  net_probe : Z → S → bool * S;
  net_write : Z → list Z → S → Z * bool * S;
  net_reads : Z → S → list (option (list Z));
  net_rest : Z → list (option (list Z)) → S → S;
  net_time : S → Z;
}.

(** [c_fd] is the socket, [None] for [INVALID_SOCKET_HANDLE]; the parser's members are set
    anew by every [recv].  The constructor leaves [m_available] and [m_connectTime] open; they
    are set before they are read. *)
Record RedisConnection := mkConnection { c_fd : option Z; m_available : bool; m_connectTime : Z; m_canRelease : bool }.

Definition RedisConnection_new : RedisConnection := mkConnection None false 0 true.

Definition CONNECTION_RELEASE_TIME : Z := 10.

Section pool.
Context {NS : Type} `{!Net NS}.
Context (malloc_ok : Z → bool).

Record pool := mkPool { conns : gmap Z RedisConnection; next_ptr : Z; m_connections : list Z; m_tmpConnections : list Z; net : NS }.

Abbreviation MP := (M pool).

Definition set_conns (c : gmap Z RedisConnection) (p : pool) := mkPool c (next_ptr p) (m_connections p) (m_tmpConnections p) (net p).
Definition set_connections (l : list Z) (p : pool) := mkPool (conns p) (next_ptr p) l (m_tmpConnections p) (net p).
Definition set_tmp (l : list Z) (p : pool) := mkPool (conns p) (next_ptr p) (m_connections p) l (net p).
Definition set_net (s : NS) (p : pool) := mkPool (conns p) (next_ptr p) (m_connections p) (m_tmpConnections p) s.

Definition at_conn (c : Z) : MP RedisConnection := p ← get; lift (deref (conns p !! c)).
Definition put_conn (c : Z) (r : RedisConnection) : MP unit := at_conn c;; modify (λ p, set_conns (<[c := r]> (conns p)) p).

(** [new RedisConnection] and [delete]. *)
Definition new_conn : MP Z :=
  p ← get;
  put (mkPool (<[next_ptr p := RedisConnection_new]> (conns p)) (next_ptr p + 1) (m_connections p) (m_tmpConnections p) (net p));;
  mret (next_ptr p).
Definition delete_conn (c : Z) : MP unit := at_conn c;; modify (λ p, set_conns (delete c (conns p)) p).

(** ** [RedisConnection] *)

Definition set_fd (f : option Z) (r : RedisConnection) := mkConnection f (m_available r) (m_connectTime r) (m_canRelease r).

Definition SetCanRelease (c : Z) (b : bool) : MP unit :=
  r ← at_conn c; put_conn c (mkConnection (c_fd r) (m_available r) (m_connectTime r) b).

Definition connect (c : Z) : MP bool :=
  r ← at_conn c;
  p ← get;
  let '(fd, s) := net_connect (net p) in
  modify (set_net s);;
  put_conn c (set_fd fd r);;
  mret (bool_decide (is_Some fd)).

Definition close (c : Z) : MP unit :=
  r ← at_conn c;
  match c_fd r with
  | Some fd => modify (λ p, set_net (net_close fd (net p)) p);; put_conn c (set_fd None r)
  | None => mret tt
  end.

Definition checkConnectionStatus (c : Z) : MP unit :=
  r ← at_conn c;
  match c_fd r with
  | Some fd =>
      p ← get;
      let '(closed, s) := net_probe fd (net p) in
      modify (set_net s);;
      if (closed : bool) then close c else mret tt
  | None => mret tt
  end.

(** [writeFull] returns the bytes written, which [send] converts to [bool]. *)
Definition send (c : Z) (request : list Z) : MP bool :=
  r ← at_conn c;
  match c_fd r with
  | None => mret false
  | Some fd =>
      p ← get;
      let '(written, open, s) := net_write fd request (net p) in
      modify (set_net s);;
      (if (open : bool) then mret tt else close c);;
      mret (negb (written =? 0))
  end.

(** [recv] of a connection: a failed read closes the socket. *)
Definition conn_recv (c : Z) (replyInfo : RedisReplyInfo) : MP (bool * RedisReplyInfo) :=
  r ← at_conn c;
  p ← get;
  let reads := match c_fd r with Some fd => net_reads fd (net p) | None => [] end in
  '(ok, rest, k) ← lift (recv malloc_ok replyInfo reads (mkConn [] REDIS_PARSE_UNKNOWN_STATE 0 0 0 false replyInfo));
  match c_fd r with Some fd => modify (λ p, set_net (net_rest fd rest (net p)) p) | None => mret tt end;;
  (if (ok : bool) then mret tt else close c);;
  mret (ok, reply k).

Definition doRedisCommand (c : Z) (paraList : list RedisCmdParaInfo) (paraLen : Z) (replyInfo : RedisReplyInfo) : MP (bool * RedisReplyInfo) :=
  checkConnectionStatus c;;
  r ← at_conn c;
  ok ← match c_fd r with None => connect c | Some _ => mret true end;
  if negb ok then mret (false, replyInfo) else
  alloc malloc_ok paraLen;;
  cmd ← lift (createRedisCommand paraLen paraList);
  ok ← send c (default [] cmd);
  if negb ok then mret (false, replyInfo) else
  conn_recv c replyInfo.

(** ** [RedisCluster] *)

(** [initConnectPool]; its [goto CLEAR] deletes the connections made so far. *)
Fixpoint delete_all (l : list Z) : MP unit :=
  match l with
  | [] => mret tt
  | c :: l => delete_conn c;; delete_all l
  end.

Fixpoint init_loop (connectionNum : nat) : MP bool :=
  match connectionNum with
  | O => mret true
  | S connectionNum =>
      c ← new_conn;
      ok ← connect c;
      if negb ok then delete_conn c;; mret false else
      r ← at_conn c;
      put_conn c (mkConnection (c_fd r) true 0 (m_canRelease r));;
      modify (λ p, set_connections (m_connections p ++ [c]) p);;
      init_loop connectionNum
  end.

Definition initConnectPool (connectionNum : Z) : MP bool :=
  ok ← init_loop (Z.to_nat connectionNum);
  if (ok : bool) then mret true else
  p ← get;
  delete_all (m_connections p);;
  mret false.

Fixpoint close_all (l : list Z) : MP unit :=
  match l with
  | [] => mret tt
  | c :: l => (if c =? 0 then mret tt else close c;; delete_conn c);; close_all l
  end.

Definition freeConnectPool : MP bool :=
  p ← get;
  close_all (m_connections p);;
  modify (set_connections []);;
  p ← get;
  close_all (m_tmpConnections p);;
  modify (set_tmp []);;
  mret true.

Fixpoint all_available (l : list Z) : MP bool :=
  match l with
  | [] => mret true
  | c :: l => r ← at_conn c; if negb (m_available r) then mret false else all_available l
  end.
Definition checkIfCanFree : MP bool := p ← get; all_available (m_connections p).

(** The temporary connections that are still young enough; the others are closed. *)
Fixpoint expire_tmp (currentTime : Z) (l : list Z) : MP (list Z) :=
  match l with
  | [] => mret []
  | c :: l =>
      r ← at_conn c;
      if u32 (m_connectTime r + CONNECTION_RELEASE_TIME) <=? currentTime
      then close c;; delete_conn c;; expire_tmp currentTime l
      else l ← expire_tmp currentTime l; mret (c :: l)
  end.

(** The first free connection. *)
Fixpoint take_available (currentTime : Z) (l : list Z) : MP (option Z) :=
  match l with
  | [] => mret None
  | c :: l =>
      r ← at_conn c;
      if m_available r
      then put_conn c (mkConnection (c_fd r) false currentTime (m_canRelease r));; mret (Some c)
      else take_available currentTime l
  end.

(** The first one that has been in use for too long is replaced by a new connection; [pre] are
    the pointers before it.  When the new one cannot connect, its slot keeps the old pointer. *)
Fixpoint reclaim (currentTime : Z) (pre l : list Z) : MP (option Z) :=
  match l with
  | [] => mret None
  | c :: l =>
      r ← at_conn c;
      if m_canRelease r && (u32 (m_connectTime r + CONNECTION_RELEASE_TIME) <=? currentTime) then
        close c;;
        delete_conn c;;
        c' ← new_conn;
        ok ← connect c';
        if negb ok then mret None else
        r' ← at_conn c';
        put_conn c' (mkConnection (c_fd r') false currentTime (m_canRelease r'));;
        modify (set_connections (pre ++ c' :: l));;
        mret (Some c')
      else reclaim currentTime (pre ++ [c]) l
  end.

(** 0 is the null pointer. *)
Definition getAvailableConnection : MP Z :=
  p ← get;
  let currentTime := u32 (net_time (net p)) in
  tmp ← expire_tmp currentTime (m_tmpConnections p);
  modify (set_tmp tmp);;
  c ← take_available currentTime (m_connections p);
  match c with
  | Some c => mret c
  | None => c ← reclaim currentTime [] (m_connections p); mret (default 0 c)
  end.

(** [vector::erase] at the first place of the pointer. *)
Fixpoint erase (conn : Z) (l : list Z) : list Z :=
  match l with
  | [] => []
  | c :: l => if c =? conn then l else c :: erase conn l
  end.

Definition releaseConnection (conn : Z) : MP unit :=
  p ← get;
  if bool_decide (conn ∈ m_connections p) then
    r ← at_conn conn;
    put_conn conn (mkConnection (c_fd r) true (m_connectTime r) (m_canRelease r))
  else if bool_decide (conn ∈ m_tmpConnections p) then
    close conn;;
    delete_conn conn;;
    modify (λ p, set_tmp (erase conn (m_tmpConnections p)) p)
  else mret tt.

(** For a connection that cannot be used any more. *)
Definition freeConnection (conn : Z) : MP unit :=
  p ← get;
  let currentTime := u32 (net_time (net p)) in
  match list_find (λ c, c = conn) (m_connections p) with
  | Some (i, _) =>
      close conn;;
      delete_conn conn;;
      c' ← new_conn;
      ok ← connect c';
      if negb ok then mret tt else
      r' ← at_conn c';
      put_conn c' (mkConnection (c_fd r') false currentTime (m_canRelease r'));;
      modify (λ p, set_connections (<[i := c']> (m_connections p)) p)
  | None => mret tt
  end.

Definition checkConnectionAlive (conn : Z) : MP bool :=
  p ← get;
  if bool_decide (conn ∈ m_connections p) then
    r ← at_conn conn;
    (if m_available r then put_conn conn (mkConnection (c_fd r) false (m_connectTime r) (m_canRelease r)) else mret tt);;
    mret true
  else mret false.

(** [RedisCluster::doRedisCommand]: on a pooled connection, or on one made for this command. *)
Definition cluster_doRedisCommand (paraList : list RedisCmdParaInfo) (paraLen : Z) (replyInfo : RedisReplyInfo) : MP (bool * RedisReplyInfo) :=
  connection ← getAvailableConnection;
  if negb (connection =? 0) then
    r ← doRedisCommand connection paraList paraLen replyInfo;
    releaseConnection connection;;
    mret r
  else
    connection ← new_conn;
    ok ← connect connection;
    if negb ok then delete_conn connection;; mret (false, replyInfo) else
    r ← doRedisCommand connection paraList paraLen replyInfo;
    close connection;;
    delete_conn connection;;
    mret r.

(** The last component is [*conn]. *)
Definition doRedisCommandOneConnection (paraList : list RedisCmdParaInfo) (paraLen : Z) (replyInfo : RedisReplyInfo) (release : bool) (conn : Z) : MP (bool * RedisReplyInfo * Z) :=
  conn ← (if conn =? 0 then getAvailableConnection else mret conn);
  '(r, conn, early) ←
    (if negb (conn =? 0) then r ← doRedisCommand conn paraList paraLen replyInfo; mret (r, conn, false)
     else
       conn ← new_conn;
       ok ← connect conn;
       if negb ok then mret ((false, replyInfo), conn, true) else
       p ← get;
       c ← at_conn conn;
       put_conn conn (mkConnection (c_fd c) (m_available c) (u32 (net_time (net p))) (m_canRelease c));;
       r ← doRedisCommand conn paraList paraLen replyInfo;
       modify (λ p, set_tmp (m_tmpConnections p ++ [conn]) p);;
       mret (r, conn, false));
  (if negb early && release then releaseConnection conn else mret tt);;
  mret (r, conn).

End pool.
Arguments pool : clear implicits.
Arguments mkPool {_}.

End GbPool.
