(* ===== verification/GbClient.v ===== *)
(** The redis client of the GB restorer in stand-alone mode: the commands, the parsing of their
    replies and transactions, of [gb/downdatarestorer_norah/redisclient.cpp].

    The two other modes reach a server through tables of nodes and are a parameter: what a
    command does then ([other_mode]).  Freeing replies and parameters has no effect of its own. *)

From stdpp Require Import strings.
From S2P Require Import Prelude GbStream GbResp GbPool.
From stdpp Require Import options.
#[local] Open Scope Z_scope.

Module GbClient.
Import GbStream GbResp GbPool.

Inductive RedisMode := STAND_ALONE_OR_PROXY_MODE | CLUSTER_MODE | SENTINEL_MODE.

#[global] Instance RedisMode_eq : EqDecision RedisMode.
Proof. solve_decision. Defined.
#[global] Instance RedisReplyType_eq : EqDecision RedisReplyType.
Proof. solve_decision. Defined.

Inductive RedisCommandType :=
| REDIS_COMMAND_UNKNOWN | REDIS_COMMAND_AUTH
| REDIS_COMMAND_GET | REDIS_COMMAND_EXISTS | REDIS_COMMAND_DBSIZE | REDIS_COMMAND_ZCOUNT | REDIS_COMMAND_ZCARD | REDIS_COMMAND_ZSCORE
| REDIS_COMMAND_ZRANGEBYSCORE | REDIS_COMMAND_SCARD | REDIS_COMMAND_SISMEMBER | REDIS_COMMAND_SMEMBERS
| REDIS_COMMAND_SET | REDIS_COMMAND_DEL | REDIS_COMMAND_EXPIRE | REDIS_COMMAND_ZADD | REDIS_COMMAND_ZREM | REDIS_COMMAND_ZINCRBY
| REDIS_COMMAND_ZREMRANGEBYSCORE | REDIS_COMMAND_SADD | REDIS_COMMAND_SREM
| REDIS_COMMAND_WATCH | REDIS_COMMAND_UNWATCH | REDIS_COMMAND_MULTI | REDIS_COMMAND_EXEC | REDIS_COMMAND_DISCARD.

(** The bytes of a literal. *)
Definition lit (s : string) : list Z := (λ a, Z.of_N (Ascii.N_of_ascii a)) <$> String.list_ascii_of_string s.

Definition tolower (b : Z) : Z := if (65 <=? b) && (b <=? 90) then b + 32 else b.
Definition strncmp_eq (n : nat) (a b : list Z) : bool := bool_decide (take n a = take n b).

(** The outputs of a command: the members, the object and the count that the caller passes. *)
Record outputs (A : Type) := mkOuts { o_members : list (list Z); o_serial : option A; o_count : option Z }.
Arguments mkOuts {_}.
Arguments o_members {_}.
Arguments o_serial {_}.
Arguments o_count {_}.

Section client.
Context {NS : Type} `{!Net NS}.
Context (malloc_ok new_ok : Z → bool).

(** [proxy] is [m_redisProxy.clusterHandler]. *)
Record client := mkClient { m_redisMode : RedisMode; proxy : option (pool NS) }.

Abbreviation MR := (M client).

Definition on_pool {A} (m : M (pool NS) A) : MR A :=
  k ← get;
  p ← lift (deref (proxy k));
  '(a, p) ← lift (m p);
  put (mkClient (m_redisMode k) (Some p));;
  mret a.

(** ** Replies *)

(** Whether the call returns true and sets [needRedirect], and [redirectInfo]. *)
Definition checkIfNeedRedirect (mode : RedisMode) (r : RedisReplyInfo) : option (list Z) :=
  if bool_decide (mode = STAND_ALONE_OR_PROXY_MODE) then None else
  if bool_decide (replyType r = REDIS_REPLY_ERROR) && strncmp_eq 5 (tolower <$> resultString r) (lit "moved") then
    match list_find (λ b, b = 32) (reverse (resultString r)) with
    | Some (i, _) => Some (drop (length (resultString r) - i) (resultString r))
    | None => None
    end
  else None.

Definition is_redirect (mode : RedisMode) (r : RedisReplyInfo) : bool := bool_decide (is_Some (checkIfNeedRedirect mode r)).

(** The object that [serial] becomes; a load that fails has changed it too. *)
Definition parseGetSerialReply {A} `{!DBSerialize A} (mode : RedisMode) (r : RedisReplyInfo) (serial : A) : result (bool * A) :=
  if is_redirect mode r then Ok (true, serial) else
  if negb (bool_decide (replyType r = REDIS_REPLY_STRING)) then Ok (false, serial) else
  match arrayList r with
  | [] => Ok (false, serial)
  | a :: _ =>
      if bool_decide (ai_type a = REDIS_REPLY_NIL) then Ok (false, serial) else
      v ← deref (arrayValue a);
      '(serial, i) ← ser_load serial (DBInStream_new (v ++ [0]) (arrayLen a));
      Ok (m_loadError i =? 0, serial)
  end.

Definition parseFindReply (mode : RedisMode) (r : RedisReplyInfo) : bool :=
  is_redirect mode r || bool_decide (replyType r = REDIS_REPLY_INTEGER).
Definition parseSetSerialReply (mode : RedisMode) (r : RedisReplyInfo) : bool :=
  is_redirect mode r || bool_decide (replyType r = REDIS_REPLY_STATUS).
Definition parseStatusResponseReply (mode : RedisMode) (r : RedisReplyInfo) : bool :=
  is_redirect mode r || bool_decide (replyType r = REDIS_REPLY_STATUS).
Definition parseQueuedResponseReply (r : RedisReplyInfo) : bool := bool_decide (replyType r = REDIS_REPLY_STATUS).

(** The strings among the elements, as C strings. *)
Fixpoint string_elements (l : list ReplyArrayInfo) : result (list (list Z)) :=
  match l with
  | [] => Ok []
  | a :: l =>
      rest ← (if bool_decide (ai_type a = REDIS_REPLY_STRING) then v ← deref (arrayValue a); Ok [c_str v] else Ok []);
      l ← string_elements l;
      Ok (rest ++ l)
  end.

Definition parseGetKeysReply (r : RedisReplyInfo) (keys : list (list Z)) : result (bool * list (list Z)) :=
  if bool_decide (replyType r = REDIS_REPLY_ERROR) then Ok (true, keys) else
  if negb (bool_decide (replyType r = REDIS_REPLY_ARRAY)) then Ok (false, keys) else
  l ← string_elements (arrayList r);
  Ok (true, keys ++ l).

(** The loop over the elements of an EXEC reply. *)
Fixpoint exec_elements (l : list ReplyArrayInfo) : result bool :=
  match l with
  | [] => Ok true
  | a :: l =>
      if bool_decide (ai_type a = REDIS_REPLY_STRING) then
        v ← deref (arrayValue a);
        let v := v ++ [0] in
        if strncmp_eq 1 v (lit "-") then Ok false
        else if strncmp_eq 2 v (lit ":0") then Ok true
        else if strncmp_eq 3 v (lit "$-1") then Ok false
        else if strncmp_eq 3 v (lit "*-1") then Ok false
        else exec_elements l
      else exec_elements l
  end.

Definition parseExecReply (r : RedisReplyInfo) : result bool :=
  if bool_decide (replyType r = REDIS_REPLY_NIL) then Ok false else
  if negb (bool_decide (replyType r = REDIS_REPLY_ARRAY)) then Ok false else
  if intValue r =? -1 then Ok false else
  exec_elements (arrayList r).

(** The score is copied into a buffer of 64 bytes. *)
Definition parse_score (r : RedisReplyInfo) : result (option Z) :=
  if negb (bool_decide (replyType r = REDIS_REPLY_STRING)) then Ok None else
  match arrayList r with
  | [] => Ok None
  | a :: _ =>
      if bool_decide (ai_type a = REDIS_REPLY_NIL) then Ok None else
      v ← deref (arrayValue a);
      if 64 <=? arrayLen a then Err FUndef else
      n ← atoi (c_str v);
      Ok (Some n)
  end.

Definition is_integer (r : RedisReplyInfo) : bool := bool_decide (replyType r = REDIS_REPLY_INTEGER).

Definition ParseRedisReplyForStandAloneAndMasterMode {A} `{!DBSerialize A} (mode : RedisMode) (r : RedisReplyInfo) (commandType : RedisCommandType) (out : outputs A) : result (bool * outputs A) :=
  match commandType with
  | REDIS_COMMAND_GET =>
      serial ← deref (o_serial out);
      '(ok, serial) ← parseGetSerialReply mode r serial;
      Ok (ok, mkOuts (o_members out) (Some serial) (o_count out))
  | REDIS_COMMAND_SET | REDIS_COMMAND_AUTH => Ok (parseSetSerialReply mode r, out)
  | REDIS_COMMAND_EXISTS | REDIS_COMMAND_DEL | REDIS_COMMAND_EXPIRE | REDIS_COMMAND_ZADD | REDIS_COMMAND_ZREM =>
      if negb (parseFindReply mode r) then Ok (false, out) else
      if is_integer r && (intValue r =? 1) then Ok (true, out)
      else if is_integer r && (intValue r =? 0) then Ok (false, out)
      else Ok (true, out)
  | REDIS_COMMAND_ZINCRBY => Ok (bool_decide (replyType r = REDIS_REPLY_STRING), out)
  | REDIS_COMMAND_ZREMRANGEBYSCORE =>
      if negb (parseFindReply mode r) then Ok (false, out) else
      if is_integer r && (0 <? intValue r) then Ok (true, out)
      else if is_integer r && (intValue r =? 0) then Ok (false, out)
      else Ok (true, out)
  | REDIS_COMMAND_ZCOUNT | REDIS_COMMAND_DBSIZE | REDIS_COMMAND_ZCARD | REDIS_COMMAND_SCARD | REDIS_COMMAND_SADD | REDIS_COMMAND_SREM | REDIS_COMMAND_SISMEMBER =>
      if negb (parseFindReply mode r) then Ok (false, out) else
      if is_integer r then Ok (true, mkOuts (o_members out) (o_serial out) (match o_count out with Some _ => Some (intValue r) | None => None end))
      else Ok (false, out)
  | REDIS_COMMAND_ZSCORE =>
      n ← parse_score r;
      match n, o_count out with
      | Some n, Some _ => Ok (true, mkOuts (o_members out) (o_serial out) (Some n))
      | _, _ => Ok (false, out)
      end
  | REDIS_COMMAND_ZRANGEBYSCORE | REDIS_COMMAND_SMEMBERS =>
      '(ok, l) ← parseGetKeysReply r (o_members out);
      Ok (ok, mkOuts l (o_serial out) (o_count out))
  | _ => Ok (false, out)
  end.

(** ** Commands *)

Definition fillCommandPara (paraValue : list Z) (paraLen : Z) (paraList : list RedisCmdParaInfo) : MR (list RedisCmdParaInfo) :=
  alloc malloc_ok (paraLen + 1);;
  if Z.of_nat (length paraValue) + 1 <? paraLen then fail FUndef else
  mret (paraList ++ [mkPara (take (Z.to_nat paraLen) (paraValue ++ [0]) ++ [0]) paraLen]).

(** A string parameter. *)
Definition fill (v : list Z) (paraList : list RedisCmdParaInfo) : MR (list RedisCmdParaInfo) :=
  fillCommandPara v (s32 (Z.of_nat (length v))) paraList.

Definition len (v : list Z) : Z := Z.of_nat (length v).

Definition doRedisCommandStandAlone {A} `{!DBSerialize A} (commandLen : Z) (commandList : list RedisCmdParaInfo) (commandType : RedisCommandType) (out : outputs A) : MR (bool * outputs A) :=
  k ← get;
  if bool_decide (proxy k = None) then mret (false, out) else
  '(ok, r) ← on_pool (cluster_doRedisCommand malloc_ok commandList commandLen RedisReplyInfo_new);
  if negb ok then mret (false, out) else
  lift (ParseRedisReplyForStandAloneAndMasterMode (m_redisMode k) r commandType out).

Context (other_mode : ∀ A (_ : DBSerialize A), list Z → Z → list RedisCmdParaInfo → RedisCommandType → outputs A → MR (bool * outputs A)).

Definition doRedisCommand {A} `{H : !DBSerialize A} (key : list Z) (commandLen : Z) (commandList : list RedisCmdParaInfo) (commandType : RedisCommandType) (out : outputs A) : MR (bool * outputs A) :=
  k ← get;
  match m_redisMode k with
  | STAND_ALONE_OR_PROXY_MODE => doRedisCommandStandAlone commandLen commandList commandType out
  | _ => other_mode A H key commandLen commandList commandType out
  end.

(** The overloads that pass no outputs, a count or a list; the object type does not matter. *)
Definition do_plain (key : list Z) (commandLen : Z) (commandList : list RedisCmdParaInfo) (commandType : RedisCommandType) : MR bool :=
  r ← doRedisCommand key commandLen commandList commandType (mkOuts [] (None : option Device) None); mret r.1.
Definition do_count (key : list Z) (commandLen : Z) (commandList : list RedisCmdParaInfo) (commandType : RedisCommandType) (count : Z) : MR Z :=
  r ← doRedisCommand key commandLen commandList commandType (mkOuts [] (None : option Device) (Some count)); mret (default count (o_count r.2)).
Definition do_members (key : list Z) (commandLen : Z) (commandList : list RedisCmdParaInfo) (commandType : RedisCommandType) (members : list (list Z)) : MR (bool * list (list Z)) :=
  r ← doRedisCommand key commandLen commandList commandType (mkOuts members (None : option Device) None); mret (r.1, o_members r.2).

Definition getSerial {A} `{!DBSerialize A} (key : list Z) (serial : A) : MR (bool * A) :=
  l ← fillCommandPara (lit "get") 3 [];
  l ← fill key l;
  r ← doRedisCommand key (s32 (15 + (len key + 20))) l REDIS_COMMAND_GET (mkOuts [] (Some serial) None);
  mret (r.1, default serial (o_serial r.2)).

(** What the object writes to a new stream. *)
Definition serialize {A} `{!DBSerialize A} (serial : A) : MR (list Z) :=
  o ← lift (DBOutStream_new new_ok);
  '(_, o) ← lift (ser_save new_ok serial o);
  mret (take (Z.to_nat (getSize o)) (o_data o)).

Definition setSerial_string (key value : list Z) : MR bool :=
  l ← fillCommandPara (lit "set") 3 [];
  l ← fill key l;
  l ← fill value l;
  do_plain key (s32 (15 + (len key + 20) + (len value + 20))) l REDIS_COMMAND_SET.

Definition setSerial {A} `{!DBSerialize A} (key : list Z) (serial : A) : MR bool :=
  l ← fillCommandPara (lit "set") 3 [];
  l ← fill key l;
  value ← serialize serial;
  l ← fill value l;
  do_plain key (s32 (15 + (len key + 20) + (len value + 20))) l REDIS_COMMAND_SET.

(** [toStr] of an unsigned number; the largest one is written "-1". *)
Definition toStr (n : Z) : list Z := if n =? 2 ^ 32 - 1 then lit "-1" else ToString n.

Definition setSerialWithExpire {A} `{!DBSerialize A} (key : list Z) (serial : A) (expireTime : Z) : MR bool :=
  l ← fillCommandPara (lit "setex") 5 [];
  l ← fill key l;
  l ← fill (toStr expireTime) l;
  value ← serialize serial;
  l ← fill value l;
  do_plain key (s32 (17 + (len key + 20) + (len (toStr expireTime) + 20) + (len value + 20))) l REDIS_COMMAND_SET.

Definition find (key : list Z) : MR bool :=
  l ← fillCommandPara (lit "exists") 6 []; l ← fill key l; do_plain key (s32 (15 + (len key + 20))) l REDIS_COMMAND_EXISTS.
Definition del (key : list Z) : MR bool :=
  l ← fillCommandPara (lit "del") 3 []; l ← fill key l; do_plain key (s32 (15 + (len key + 20))) l REDIS_COMMAND_DEL.
Definition setKeyExpireTime (key : list Z) (expireTime : Z) : MR bool :=
  l ← fillCommandPara (lit "expire") 6 []; l ← fill key l; l ← fill (toStr expireTime) l;
  do_plain key (s32 (15 + (len key + 20) + (len (toStr expireTime) + 20))) l REDIS_COMMAND_EXPIRE.

Definition zadd (key member : list Z) (score : Z) : MR bool :=
  l ← fillCommandPara (lit "zadd") 4 []; l ← fill key l; l ← fill (ToString score) l; l ← fill member l;
  do_plain key (s32 (16 + (len key + 20) + (len (ToString score) + 20) + (len member + 20))) l REDIS_COMMAND_ZADD.
Definition zrem (key member : list Z) : MR bool :=
  l ← fillCommandPara (lit "zrem") 4 []; l ← fill key l; l ← fill member l;
  do_plain key (s32 (16 + (len key + 20) + (len member + 20))) l REDIS_COMMAND_ZREM.
Definition zincby (key member : list Z) (increment : Z) : MR bool :=
  l ← fillCommandPara (lit "zincrby") 7 []; l ← fill key l; l ← fill (ToString increment) l; l ← fill member l;
  do_plain key (s32 (19 + (len key + 20) + (len (ToString increment) + 20) + (len member + 20))) l REDIS_COMMAND_ZINCRBY.
Definition zcount (key : list Z) (start end_ : Z) : MR Z :=
  l ← fillCommandPara (lit "zcount") 6 []; l ← fill key l; l ← fill (ToString start) l; l ← fill (ToString end_) l;
  do_count key (s32 (18 + (len key + 20) + (len (ToString start) + 20) + (len (ToString end_) + 20))) l REDIS_COMMAND_ZCOUNT 0.
Definition zcard (key : list Z) : MR Z :=
  l ← fill (lit "zcard") []; l ← fill key l; do_count key (s32 (len (lit "zcard") + 11 + (len key + 20))) l REDIS_COMMAND_ZCARD 0.
Definition dbsize : MR Z :=
  l ← fill (lit "DBSIZE") []; do_count [] (s32 (len (lit "DBSIZE") + 11)) l REDIS_COMMAND_DBSIZE 0.
Definition zscore (key member : list Z) : MR Z :=
  l ← fillCommandPara (lit "zscore") 6 []; l ← fill key l; l ← fill member l;
  do_count key (s32 (18 + (len key + 20) + (len member + 20))) l REDIS_COMMAND_ZSCORE (-1).
Definition zrangebyscore (key : list Z) (start end_ : Z) (members : list (list Z)) : MR (bool * list (list Z)) :=
  l ← fillCommandPara (lit "zrangebyscore") 13 []; l ← fill key l; l ← fill (ToString start) l; l ← fill (ToString end_) l;
  do_members key (s32 (25 + (len key + 20) + (len (ToString start) + 20) + (len (ToString end_) + 20))) l REDIS_COMMAND_ZRANGEBYSCORE members.
Definition zremrangebyscore (key : list Z) (start end_ : Z) : MR bool :=
  l ← fillCommandPara (lit "zremrangebyscore") 16 []; l ← fill key l; l ← fill (ToString start) l; l ← fill (ToString end_) l;
  do_plain key (s32 (28 + (len key + 20) + (len (ToString start) + 20) + (len (ToString end_) + 20))) l REDIS_COMMAND_ZREMRANGEBYSCORE.

Definition sadd (key member : list Z) : MR bool :=
  l ← fill (lit "sadd") []; l ← fill key l; l ← fill member l;
  do_plain key (s32 (len (lit "sadd") + 11 + (len key + 20) + (len member + 20))) l REDIS_COMMAND_SADD.
Definition srem (key member : list Z) : MR bool :=
  l ← fill (lit "srem") []; l ← fill key l; l ← fill member l;
  do_plain key (s32 (len (lit "srem") + 11 + (len key + 20) + (len member + 20))) l REDIS_COMMAND_SREM.
Definition scard (key : list Z) : MR Z :=
  l ← fill (lit "scard") []; l ← fill key l; do_count key (s32 (len (lit "scard") + 11 + (len key + 20))) l REDIS_COMMAND_SCARD 0.
Definition sismember (key member : list Z) : MR bool :=
  l ← fill (lit "sismember") []; l ← fill key l; l ← fill member l;
  n ← do_count key (s32 (len (lit "sismember") + 11 + (len key + 20) + (len member + 20))) l REDIS_COMMAND_SISMEMBER (-1);
  mret (n =? 1).
Definition smembers (key : list Z) (members : list (list Z)) : MR (bool * list (list Z)) :=
  l ← fill (lit "smembers") []; l ← fill key l;
  do_members key (s32 (len (lit "smembers") + 11 + (len key + 11))) l REDIS_COMMAND_SMEMBERS members.

(** ** Transactions *)

Definition standalone : MR bool := k ← get; mret (bool_decide (m_redisMode k = STAND_ALONE_OR_PROXY_MODE)).

(** The new value of the caller's pointer, 0 at first. *)
Definition PrepareTransaction (conn : Z) : MR (bool * Z) :=
  ok ← standalone;
  if negb ok then mret (false, conn) else
  con ← on_pool getAvailableConnection;
  if con =? 0 then mret (false, conn) else
  on_pool (SetCanRelease con false);;
  mret (true, con).

(** The pointer is passed by value, so a connection made for a null pointer stays unknown. *)
Definition doTransactionCommandInConnection (commandLen : Z) (commandList : list RedisCmdParaInfo) (commandType : RedisCommandType) (con : Z) : MR bool :=
  k ← get;
  if bool_decide (proxy k = None) then mret false else
  '(ok, r, _) ← on_pool (doRedisCommandOneConnection malloc_ok commandList commandLen RedisReplyInfo_new false con);
  if negb ok then mret false else
  match commandType with
  | REDIS_COMMAND_SET | REDIS_COMMAND_DEL | REDIS_COMMAND_SADD | REDIS_COMMAND_SREM => mret (parseQueuedResponseReply r)
  | REDIS_COMMAND_WATCH | REDIS_COMMAND_UNWATCH | REDIS_COMMAND_MULTI | REDIS_COMMAND_DISCARD => mret (parseStatusResponseReply (m_redisMode k) r)
  | REDIS_COMMAND_EXEC => lift (parseExecReply r)
  | _ => mret false
  end.

Definition WatchKey (key : list Z) (con : Z) : MR bool :=
  l ← fillCommandPara (lit "watch") 5 []; l ← fill key l; doTransactionCommandInConnection (s32 (18 + (len key + 20))) l REDIS_COMMAND_WATCH con.
Fixpoint WatchKeys (keys : list (list Z)) (con : Z) : MR bool :=
  match keys with
  | [] => mret true
  | key :: keys => ok ← WatchKey key con; if negb ok then mret false else WatchKeys keys con
  end.
Definition Unwatch (con : Z) : MR bool :=
  l ← fillCommandPara (lit "unwatch") 6 []; doTransactionCommandInConnection 20 l REDIS_COMMAND_UNWATCH con.

Definition StartTransaction (con : Z) : MR bool :=
  ok ← standalone;
  if negb ok then mret false else
  l ← fillCommandPara (lit "multi") 5 []; doTransactionCommandInConnection 18 l REDIS_COMMAND_MULTI con.
Definition DiscardTransaction (con : Z) : MR bool :=
  ok ← standalone;
  if negb ok then mret false else
  l ← fillCommandPara (lit "discard") 7 []; doTransactionCommandInConnection 18 l REDIS_COMMAND_DISCARD con.
Definition ExecTransaction (con : Z) : MR bool :=
  ok ← standalone;
  if negb ok then mret false else
  l ← fillCommandPara (lit "exec") 4 []; doTransactionCommandInConnection 18 l REDIS_COMMAND_EXEC con.

Definition FinishTransaction (conn : Z) : MR (bool * Z) :=
  ok ← standalone;
  if negb ok then mret (false, conn) else
  if conn =? 0 then mret (false, conn) else
  on_pool (releaseConnection conn);;
  mret (true, 0).

Definition Set_ {A} `{!DBSerialize A} (con : Z) (key : list Z) (serial : A) : MR bool :=
  l ← fillCommandPara (lit "set") 3 []; l ← fill key l; value ← serialize serial; l ← fill value l;
  doTransactionCommandInConnection (s32 (15 + (len key + 20) + (len value + 20))) l REDIS_COMMAND_SET con.
Definition Set_string (con : Z) (key value : list Z) : MR bool :=
  l ← fillCommandPara (lit "set") 3 []; l ← fill key l; l ← fill value l;
  doTransactionCommandInConnection (s32 (15 + (len key + 20) + (len value + 20))) l REDIS_COMMAND_SET con.
Definition Del (con : Z) (key : list Z) : MR bool :=
  l ← fillCommandPara (lit "del") 3 []; l ← fill key l; doTransactionCommandInConnection (s32 (15 + (len key + 20))) l REDIS_COMMAND_DEL con.
Definition Sadd (con : Z) (setKey member : list Z) : MR bool :=
  l ← fillCommandPara (lit "sadd") 4 []; l ← fill setKey l; l ← fill member l;
  doTransactionCommandInConnection (s32 (15 + (len setKey + 20) + (len member + 20))) l REDIS_COMMAND_SADD con.
Definition Srem (con : Z) (setKey member : list Z) : MR bool :=
  l ← fillCommandPara (lit "srem") 4 []; l ← fill setKey l; l ← fill member l;
  doTransactionCommandInConnection (s32 (15 + (len setKey + 20) + (len member + 20))) l REDIS_COMMAND_SREM con.

(** ** The life of a client *)

(** [core] is what the commands use; [l_net] is the network while there is no pool. *)
Record RedisClient := mkRedisClient { core : client; m_connected : bool; m_passwd : list Z; l_net : NS }.

Abbreviation ML := (M RedisClient).

Definition RedisClient_new (s : NS) : RedisClient := mkRedisClient (mkClient STAND_ALONE_OR_PROXY_MODE None) false [] s.

Definition set_core (k : client) (c : RedisClient) : RedisClient := mkRedisClient k (m_connected c) (m_passwd c) (l_net c).

Definition freeRedisProxy : ML bool :=
  c ← get;
  match proxy (core c) with
  | Some p =>
      '(_, p) ← lift (freeConnectPool p);
      put (mkRedisClient (mkClient (m_redisMode (core c)) None) (m_connected c) (m_passwd c) (net p));;
      mret true
  | None => mret true
  end.

Definition ParseAuthReply (r : RedisReplyInfo) : bool := bool_decide (replyType r = REDIS_REPLY_STATUS).

(** On one connection of the pool. *)
Definition AuthPasswd (passwd : list Z) : MR bool :=
  l ← fillCommandPara (lit "auth") 4 [];
  l ← fill passwd l;
  '(ok, r) ← on_pool (cluster_doRedisCommand malloc_ok l (s32 (15 + (len passwd + 20))) RedisReplyInfo_new);
  if negb ok then mret false else mret (ParseAuthReply r).

(** The result of the authentication is not looked at. *)
Definition initRedisProxy (connectionNum : Z) : ML bool :=
  freeRedisProxy;;
  c ← get;
  '(ok, p) ← lift (initConnectPool connectionNum (mkPool ∅ 1 [] [] (l_net c)));
  if negb ok then put (mkRedisClient (mkClient (m_redisMode (core c)) None) (m_connected c) (m_passwd c) (net p));; mret false else
  put (mkRedisClient (mkClient (m_redisMode (core c)) (Some p)) (m_connected c) (m_passwd c) (l_net c));;
  (if bool_decide (m_passwd c = []) then mret tt
   else c ← get; '(_, k) ← lift (AuthPasswd (m_passwd c) (core c)); put (set_core k c));;
  mret true.

Context (other_init : RedisMode → Z → ML bool) (other_free : ML bool).

Definition init (redis_mode : RedisMode) (connectionNum : Z) (passwd : list Z) : ML bool :=
  c ← get;
  if m_connected c then mret false else
  put (mkRedisClient (mkClient redis_mode (proxy (core c))) (m_connected c) passwd (l_net c));;
  ok ← (if bool_decide (redis_mode = STAND_ALONE_OR_PROXY_MODE) then initRedisProxy (u32 connectionNum) else other_init redis_mode connectionNum);
  if negb ok then mret false else
  modify (λ c, mkRedisClient (core c) true (m_passwd c) (l_net c));;
  mret true.

Definition freeRedisClient : ML bool :=
  c ← get;
  if negb (m_connected c) then mret false else
  modify (λ c, mkRedisClient (core c) (m_connected c) [] (l_net c));;
  (if bool_decide (m_redisMode (core c) = STAND_ALONE_OR_PROXY_MODE) then freeRedisProxy else other_free);;
  modify (λ c, mkRedisClient (core c) false (m_passwd c) (l_net c));;
  mret true.

End client.
Arguments client : clear implicits.
Arguments mkClient {_}.
Arguments RedisClient : clear implicits.
Arguments mkRedisClient {_}.

End GbClient.
