(* ===== verification/GbMgr.v ===== *)
(** The managers of the GB restorer, which keep devices, channels and commands in redis:
    [gb/downdatarestorer_norah/devicemgr.cpp], [channelmgr.cpp] and [executinginvitecmdmgr.cpp].

    They are written against the interface [RedisApi], the operations of a redis client that they
    call; the client of [GbClient] is an instance.  The read-write locks around the bodies order
    the calls and have no other effect. *)

From stdpp Require Import strings.
From S2P Require Import Prelude GbStream GbResp GbPool GbClient.
From stdpp Require Import options.
#[local] Open Scope Z_scope.

Module GbMgr.
Import GbStream GbResp GbPool GbClient.

(** ** What the managers use of a client *)

Class RedisApi (W : Type) := {
  api_get : ∀ {A} `{!DBSerialize A}, list Z → A → M W (bool * A);
  api_set : ∀ {A} `{!DBSerialize A}, list Z → A → M W bool;
  api_del : list Z → M W bool;
  api_sadd : list Z → list Z → M W bool;
  api_srem : list Z → list Z → M W bool;
  api_scard : list Z → M W Z;
  api_sismember : list Z → list Z → M W bool;
  api_smembers : list Z → list (list Z) → M W (bool * list (list Z));
  tx_prepare : Z → M W (bool * Z);
  tx_start : Z → M W bool;
  tx_set : ∀ {A} `{!DBSerialize A}, Z → list Z → A → M W bool;
  tx_del : Z → list Z → M W bool;
  tx_sadd : Z → list Z → list Z → M W bool;
  tx_srem : Z → list Z → list Z → M W bool;
  tx_exec : Z → M W bool;
  tx_finish : Z → M W (bool * Z);
}.

(** [RedisClient]. *)
Definition client_api {NS} `{!Net NS} (malloc_ok new_ok : Z → bool)
    (other_mode : ∀ A (_ : DBSerialize A), list Z → Z → list RedisCmdParaInfo → RedisCommandType → outputs A → M (client NS) (bool * outputs A)) : RedisApi (client NS) := {|
  api_get A H := getSerial malloc_ok other_mode;
  api_set A H := setSerial malloc_ok new_ok other_mode;
  api_del := del malloc_ok other_mode;
  api_sadd := sadd malloc_ok other_mode;
  api_srem := srem malloc_ok other_mode;
  api_scard := scard malloc_ok other_mode;
  api_sismember := sismember malloc_ok other_mode;
  api_smembers := smembers malloc_ok other_mode;
  tx_prepare := PrepareTransaction;
  tx_start := StartTransaction malloc_ok;
  tx_set A H := Set_ malloc_ok new_ok;
  tx_del := Del malloc_ok;
  tx_sadd := Sadd malloc_ok;
  tx_srem := Srem malloc_ok;
  tx_exec := ExecTransaction malloc_ok;
  tx_finish := FinishTransaction;
|}.

(** ** The operations that the three managers share *)

Section manager.
Context {W : Type} `{!RedisApi W}.
Context {A : Type} `{!DBSerialize A}.
Context (id_of : A → list Z).

(** Statements that [goto FAIL] unless they return true. *)
Fixpoint all_true (l : list (M W bool)) : M W bool :=
  match l with
  | [] => mret true
  | m :: l => ok ← m; if (ok : bool) then all_true l else mret false
  end.

(** A transaction on its own connection. *)
Definition in_transaction (cmds : Z → list (M W bool)) : M W Z :=
  '(ok, con) ← tx_prepare 0;
  ok ← (if (ok : bool) then all_true (tx_start con :: cmds con ++ [tx_exec con]) else mret false);
  if (ok : bool) then tx_finish con;; mret 0
  else (if con =? 0 then mret tt else tx_finish con;; mret tt);; mret (-1).

(** [Load]: [fresh] is the local object that is read into, [touch] what is done to it then. *)
Fixpoint load_each (prefix : list Z) (fresh : A) (touch : A → A) (ids : list (list Z)) (l : list A) : M W (list A) :=
  match ids with
  | [] => mret l
  | id :: ids =>
      '(ok, x) ← api_get (prefix ++ id) fresh;
      load_each prefix fresh touch ids (if (ok : bool) then l ++ [touch x] else l)
  end.
Definition load_all (set_key prefix : list Z) (fresh : A) (touch : A → A) (l : list A) : M W (Z * list A) :=
  '(_, ids) ← api_smembers set_key [];
  l ← load_each prefix fresh touch ids l;
  mret (0, l).

Definition search (set_key prefix id : list Z) (x : A) : M W (Z * A) :=
  exist ← api_sismember set_key id;
  if (exist : bool) then
    '(ok, x) ← api_get (prefix ++ id) x;
    if (ok : bool) then mret (0, x) else mret (-1, x)
  else mret (-1, x).

(** [undo_prefix] is the prefix of the key that a failed call removes, or sets, again. *)
Definition insert_in_cluster (set_key prefix undo_prefix : list Z) (x : A) : M W Z :=
  ok ← api_set (prefix ++ id_of x) x;
  if negb ok then mret (-1) else
  ok ← api_sadd set_key (id_of x);
  if (ok : bool) then mret 0 else
  api_del (undo_prefix ++ id_of x);;
  mret (-1).

Definition delete_in_cluster (set_key prefix undo_prefix : list Z) (x : A) : M W Z :=
  ok ← api_del (prefix ++ id_of x);
  if negb ok then mret (-1) else
  ok ← api_srem set_key (id_of x);
  if (ok : bool) then mret 0 else
  api_set (undo_prefix ++ id_of x) x;;
  mret (-1).

Definition insert_in_transaction (set_key prefix : list Z) (x : A) : M W Z :=
  in_transaction (λ con, [tx_set con (prefix ++ id_of x) x; tx_sadd con set_key (id_of x)]).

Definition delete_in_transaction (set_key prefix : list Z) (x : A) : M W Z :=
  in_transaction (λ con, [tx_del con (prefix ++ id_of x); tx_srem con set_key (id_of x)]).

Fixpoint del_each (prefix : list Z) (ids : list (list Z)) : M W unit :=
  match ids with
  | [] => mret tt
  | id :: ids => api_del (prefix ++ id);; del_each prefix ids
  end.
Definition clear_all (set_key prefix : list Z) : M W Z :=
  '(_, ids) ← api_smembers set_key [];
  api_del set_key;;
  del_each prefix ids;;
  mret 0.

Fixpoint set_each (set_key prefix : list Z) (l : list A) : M W unit :=
  match l with
  | [] => mret tt
  | x :: l => api_sadd set_key (id_of x);; api_set (prefix ++ id_of x) x;; set_each set_key prefix l
  end.
Definition update_all (set_key prefix : list Z) (l : list A) : M W Z :=
  clear_all set_key prefix;;
  set_each set_key prefix l;;
  mret 0.

End manager.

(** ** [DeviceMgr] *)

Section DeviceMgr.
Context {W : Type} `{!RedisApi W}.
Context (redis_mode_ : RedisMode).

Definition device_set_key : list Z := lit "gbddrdeviceset".
Definition device_key_prefix : list Z := lit "gbddrdeviceset".

(** The times are updated by functions that do nothing. *)
Definition LoadDevices (devices : list Device) : M W (Z * list Device) := load_all device_set_key device_key_prefix (Device_new []) id devices.
Definition SearchDevice (device_id : list Z) (device : Device) : M W (Z * Device) := search device_set_key device_key_prefix device_id device.
Definition InsertDeviceInCluster : Device → M W Z := insert_in_cluster device_id_ device_set_key device_key_prefix device_key_prefix.
Definition InsertDeviceInTransaction : Device → M W Z := insert_in_transaction device_id_ device_set_key device_key_prefix.
Definition InsertDevice (device : Device) : M W Z :=
  if bool_decide (redis_mode_ = STAND_ALONE_OR_PROXY_MODE) then InsertDeviceInTransaction device else InsertDeviceInCluster device.
Definition DeleteDeviceInCluster : Device → M W Z := delete_in_cluster device_id_ device_set_key device_key_prefix device_key_prefix.
Definition DeleteDeviceInTransaction : Device → M W Z := delete_in_transaction device_id_ device_set_key device_key_prefix.
Definition DeleteDevice (device : Device) : M W Z :=
  if bool_decide (redis_mode_ = STAND_ALONE_OR_PROXY_MODE) then DeleteDeviceInTransaction device else DeleteDeviceInCluster device.
Definition ClearDevices : M W Z := clear_all device_set_key device_key_prefix.
Definition UpdateDevices : list Device → M W Z := update_all device_id_ device_set_key device_key_prefix.
Definition GetDeviceCount : M W Z := api_scard device_set_key.

End DeviceMgr.

(** ** [ChannelMgr] *)

Section ChannelMgr.
Context {W : Type} `{!RedisApi W}.
Context (redis_mode_ : RedisMode).

Definition channel_set_key : list Z := lit "gbddrchannelset".
Definition channel_key_prefix : list Z := lit "gbddrchannelset".

Definition LoadChannels (channels : list Channel) : M W (Z * list Channel) := load_all channel_set_key channel_key_prefix (Channel_new [] []) id channels.
Definition SearchChannel (channel_id : list Z) (channel : Channel) : M W (Z * Channel) := search channel_set_key channel_key_prefix channel_id channel.
Definition InsertChannelInCluster : Channel → M W Z := insert_in_cluster GetChannelId channel_set_key channel_key_prefix channel_key_prefix.
Definition InsertChannelInTransaction : Channel → M W Z := insert_in_transaction GetChannelId channel_set_key channel_key_prefix.
Definition InsertChannel (channel : Channel) : M W Z :=
  if bool_decide (redis_mode_ = STAND_ALONE_OR_PROXY_MODE) then InsertChannelInTransaction channel else InsertChannelInCluster channel.
Definition DeleteChannelInCluster : Channel → M W Z := delete_in_cluster GetChannelId channel_set_key channel_key_prefix channel_key_prefix.
Definition DeleteChannelInTransaction : Channel → M W Z := delete_in_transaction GetChannelId channel_set_key channel_key_prefix.
Definition DeleteChannel (channel : Channel) : M W Z :=
  if bool_decide (redis_mode_ = STAND_ALONE_OR_PROXY_MODE) then DeleteChannelInTransaction channel else DeleteChannelInCluster channel.
Definition ClearChannels : M W Z := clear_all channel_set_key channel_key_prefix.
Definition UpdateChannels : list Channel → M W Z := update_all GetChannelId channel_set_key channel_key_prefix.
Definition GetChannelCount : M W Z := api_scard channel_set_key.

End ChannelMgr.

(** ** [ExecutingInviteCmdMgr] *)

Section ExecutingInviteCmdMgr.
Context {W : Type} `{!RedisApi W}.
Context (redis_mode_ : RedisMode) (worker_thread_num_ : Z).

Definition cmd_set_key_prefix : list Z := lit "gbddrexecutinginvitecmdset".
Definition cmd_key_prefix : list Z := lit "gbddrexecutinginvitecmdset".
Definition cmd_set_key (worker_thread_no : Z) : list Z := cmd_set_key_prefix ++ ToString worker_thread_no.
Definition cmd_prefix (worker_thread_no : Z) : list Z := cmd_key_prefix ++ ToString worker_thread_no.

Definition worker_ok (worker_thread_no : Z) : bool := negb ((worker_thread_no <? 0) || (worker_thread_num_ <=? worker_thread_no)).

Definition Load (worker_thread_no : Z) (cmd_list : list ExecutingInviteCmd) : M W (Z * list ExecutingInviteCmd) :=
  if negb (worker_ok worker_thread_no) then mret (-1, cmd_list) else
  load_all (cmd_set_key worker_thread_no) (cmd_prefix worker_thread_no) (mkCmd [] [] 0 0 false) (SetSipRestarted true) cmd_list.

(** The [Load] of all lists takes and releases the lock of one worker after the other.
    [cmd_lists.resize]; one round of its loop: the next [i] and the lists, or [None] when the loop
    has ended and 0 is returned. *)
Definition resize (cmd_lists : list (list ExecutingInviteCmd)) : list (list ExecutingInviteCmd) :=
  take (Z.to_nat worker_thread_num_) cmd_lists ++ replicate (Z.to_nat worker_thread_num_ - length cmd_lists) [].
Definition Load_all_next (i : Z) (cmd_lists : list (list ExecutingInviteCmd)) : M W (option (Z * list (list ExecutingInviteCmd))) :=
  if negb (i <? worker_thread_num_) then mret None else
  cmd_list ← lift (deref (cmd_lists !! Z.to_nat i));
  '(_, cmd_list) ← Load i cmd_list;
  mret (Some (i + 1, <[Z.to_nat i := cmd_list]> cmd_lists)).

Definition Search (id : list Z) (cmd : ExecutingInviteCmd) (worker_thread_no : Z) : M W (Z * ExecutingInviteCmd) :=
  if negb (worker_ok worker_thread_no) then mret (-1, cmd) else
  search (cmd_set_key worker_thread_no) (cmd_prefix worker_thread_no) id cmd.

(** The undo statements leave the worker's number out of the key. *)
Definition InsertInCluster (cmd : ExecutingInviteCmd) (worker_thread_no : Z) : M W Z :=
  insert_in_cluster GetId (cmd_set_key worker_thread_no) (cmd_prefix worker_thread_no) cmd_key_prefix cmd.
Definition InsertInTransaction (cmd : ExecutingInviteCmd) (worker_thread_no : Z) : M W Z :=
  insert_in_transaction GetId (cmd_set_key worker_thread_no) (cmd_prefix worker_thread_no) cmd.
Definition Insert (cmd : ExecutingInviteCmd) (worker_thread_no : Z) : M W Z :=
  if negb (worker_ok worker_thread_no) then mret (-1) else
  if bool_decide (redis_mode_ = STAND_ALONE_OR_PROXY_MODE) then InsertInTransaction cmd worker_thread_no else InsertInCluster cmd worker_thread_no.

Definition DeleteInCluster (cmd : ExecutingInviteCmd) (worker_thread_no : Z) : M W Z :=
  delete_in_cluster GetId (cmd_set_key worker_thread_no) (cmd_prefix worker_thread_no) cmd_key_prefix cmd.
Definition DeleteInTransaction (cmd : ExecutingInviteCmd) (worker_thread_no : Z) : M W Z :=
  delete_in_transaction GetId (cmd_set_key worker_thread_no) (cmd_prefix worker_thread_no) cmd.
Definition Delete (cmd : ExecutingInviteCmd) (worker_thread_no : Z) : M W Z :=
  if negb (worker_ok worker_thread_no) then mret (-1) else
  if bool_decide (redis_mode_ = STAND_ALONE_OR_PROXY_MODE) then DeleteInTransaction cmd worker_thread_no else DeleteInCluster cmd worker_thread_no.

Definition ClearWithLockHeld (worker_thread_no : Z) : M W Z :=
  if negb (worker_ok worker_thread_no) then mret (-1) else clear_all (cmd_set_key worker_thread_no) (cmd_prefix worker_thread_no).
Definition Clear (worker_thread_no : Z) : M W Z := ClearWithLockHeld worker_thread_no.
(** So does the [Clear] of all lists; one round of its loop: the next [i], or [None] when the loop
    has ended and 0 is returned. *)
Definition Clear_all_next (i : Z) : M W (option Z) :=
  if negb (i <? worker_thread_num_) then mret None else Clear i;; mret (Some (i + 1)).

Definition Update (cmd_list : list ExecutingInviteCmd) (worker_thread_no : Z) : M W Z :=
  if negb (worker_ok worker_thread_no) then mret (-1) else
  update_all GetId (cmd_set_key worker_thread_no) (cmd_prefix worker_thread_no) cmd_list.
Fixpoint update_workers (i : Z) (cmd_lists : list (list ExecutingInviteCmd)) : M W unit :=
  match cmd_lists with
  | [] => mret tt
  | l :: cmd_lists => Update l i;; update_workers (i + 1) cmd_lists
  end.
Definition Update_all (cmd_lists : list (list ExecutingInviteCmd)) : M W Z :=
  if negb (Z.of_nat (length cmd_lists) =? worker_thread_num_) then mret (-1) else update_workers 0 cmd_lists;; mret 0.

Definition GetExecutingInviteCmdListSize (worker_thread_no : Z) : M W Z :=
  if negb (worker_ok worker_thread_no) then mret (-1) else api_scard (cmd_set_key worker_thread_no).

End ExecutingInviteCmdMgr.

End GbMgr.
