(* ===== verification/GbSpec.v ===== *)
(** What the managers of the GB restorer rely on: the contents of a redis database, the commands
    that change it, and the laws of a client that runs them ([RedisLaws]). *)

From stdpp Require Import strings.
From S2P Require Import Prelude GbStream GbStreamProps GbResp GbRespProps GbPool GbClient GbMgr.
From stdpp Require Import options.
#[local] Open Scope Z_scope.

Module GbSpec.
Import GbStream GbStreamProps GbResp GbRespProps GbPool GbClient GbMgr.

(** ** The database *)

Inductive robj := RStr (v : list Z) | RSet (s : gset (list Z)).
Abbreviation rdb := (gmap (list Z) robj).

(** The commands that change it, as redis documents them: an empty set is no longer a key, and a
    set command on a string is refused. *)
Inductive qcmd := QSet (k v : list Z) | QDel (k : list Z) | QSadd (k m : list Z) | QSrem (k m : list Z).

Definition WRONGTYPE : list Z := lit "WRONGTYPE Operation against a key holding the wrong kind of value".

Definition num (b : bool) : rvalue := RInt (if b then 1 else 0).

Definition put_set (k : list Z) (s : gset (list Z)) (d : rdb) : rdb := if bool_decide (s = ∅) then delete k d else <[k := RSet s]> d.

Definition q_run (d : rdb) (c : qcmd) : rdb * rvalue :=
  match c with
  | QSet k v => (<[k := RStr v]> d, RStatus (lit "OK"))
  | QDel k => (delete k d, num (bool_decide (is_Some (d !! k))))
  | QSadd k m =>
      match d !! k with
      | None => (<[k := RSet {[m]}]> d, num true)
      | Some (RSet s) => (<[k := RSet ({[m]} ∪ s)]> d, num (bool_decide (m ∉ s)))
      | Some (RStr _) => (d, RError WRONGTYPE)
      end
  | QSrem k m =>
      match d !! k with
      | None => (d, num false)
      | Some (RSet s) => (put_set k (s ∖ {[m]}) d, num (bool_decide (m ∈ s)))
      | Some (RStr _) => (d, RError WRONGTYPE)
      end
  end.

Fixpoint q_runs (d : rdb) (l : list qcmd) : rdb * list rvalue :=
  match l with
  | [] => (d, [])
  | c :: l => let '(d, r) := q_run d c in let '(d, rs) := q_runs d l in (d, r :: rs)
  end.

(** Whether the client reports success: a command on its own, and a transaction, whose replies
    are looked at up to the first zero. *)
Definition q_ok (c : qcmd) (r : rvalue) : bool :=
  match c, r with
  | QSet _ _, RStatus _ => true
  | QDel _, RInt n => n =? 1
  | (QSadd _ _ | QSrem _ _), RInt _ => true
  | _, _ => false
  end.
Fixpoint exec_ok (rs : list rvalue) : bool :=
  match rs with
  | [] => true
  | RError _ :: _ => false
  | RInt 0 :: _ => true
  | _ :: rs => exec_ok rs
  end.

(** The set at a key; nothing at the key is the empty set. *)
Definition set_at (d : rdb) (k : list Z) (s : gset (list Z)) : Prop := d !! k = Some (RSet s) ∨ d !! k = None ∧ s = ∅.

(** ** Sizes *)

(** Keys, members and records up to a megabyte, and sets whose listing fits the receive buffer. *)
Definition short (l : list Z) : Prop := Z.of_nat (length l) ≤ 2 ^ 20.
Definition listing (s : gset (list Z)) : Z := Z.of_nat (sum_list_with (λ m, length m + 17)%nat (elements s) + 15).
Definition listable (s : gset (list Z)) : Prop := listing s ≤ 2 ^ 28 ∧ set_Forall text s.

Definition q_short (c : qcmd) : Prop :=
  match c with
  | QSet k v => short k ∧ short v
  | QDel k => short k
  | QSadd k m | QSrem k m => short k ∧ short m
  end.

(** ** The laws of a client *)

(** [idle]: commands can be run; [held]: a connection has been taken for a transaction; [queued]:
    the transaction has been started and these commands wait for EXEC. *)
Class RedisLaws (W : Type) `{!RedisApi W} := {
  ldb : W → rdb;
  idle : W → Prop;
  held : W → Z → Prop;
  queued : W → Z → list qcmd → Prop;

  law_set {A} `{!DBSerialize A, !Stored A} w k (a : A) : idle w → storable a → q_short (QSet k (enc a)) →
    ∃ w', api_set k a w = Ok (true, w') ∧ idle w' ∧ ldb w' = <[k := RStr (enc a)]> (ldb w);
  law_del w k : idle w → short k →
    ∃ w', api_del k w = Ok (q_ok (QDel k) (q_run (ldb w) (QDel k)).2, w') ∧ idle w' ∧ ldb w' = delete k (ldb w);
  law_sadd w k m : idle w → short k → short m →
    ∃ w', api_sadd k m w = Ok (q_ok (QSadd k m) (q_run (ldb w) (QSadd k m)).2, w') ∧ idle w' ∧ ldb w' = (q_run (ldb w) (QSadd k m)).1;
  law_srem w k m : idle w → short k → short m →
    ∃ w', api_srem k m w = Ok (q_ok (QSrem k m) (q_run (ldb w) (QSrem k m)).2, w') ∧ idle w' ∧ ldb w' = (q_run (ldb w) (QSrem k m)).1;

  law_get {A} `{!DBSerialize A} w k v (old a : A) i : idle w → short k → short v → ldb w !! k = Some (RStr v) →
    ser_load old (DBInStream_new (v ++ [0]) (Z.of_nat (length v))) = Ok (a, i) →
    ∃ w', api_get k old w = Ok ((m_loadError i =? 0, a), w') ∧ idle w' ∧ ldb w' = ldb w;
  law_get_none {A} `{!DBSerialize A} w k (old : A) : idle w → short k → ldb w !! k = None →
    ∃ w', api_get k old w = Ok ((false, old), w') ∧ idle w' ∧ ldb w' = ldb w;
  law_scard w k s : idle w → short k → set_at (ldb w) k s → Z.of_nat (size s) < 2 ^ 31 →
    ∃ w', api_scard k w = Ok (Z.of_nat (size s), w') ∧ idle w' ∧ ldb w' = ldb w;
  law_sismember w k m s : idle w → short k → short m → set_at (ldb w) k s →
    ∃ w', api_sismember k m w = Ok (bool_decide (m ∈ s), w') ∧ idle w' ∧ ldb w' = ldb w;
  law_smembers w k s : idle w → short k → set_at (ldb w) k s → listable s →
    ∃ l w', api_smembers k [] w = Ok ((true, l), w') ∧ l ≡ₚ elements s ∧ idle w' ∧ ldb w' = ldb w;
  law_smembers_str w k v : idle w → short k → ldb w !! k = Some (RStr v) →
    ∃ w', api_smembers k [] w = Ok ((true, []), w') ∧ idle w' ∧ ldb w' = ldb w;

  law_prepare w : idle w → ∃ con w', tx_prepare 0 w = Ok ((true, con), w') ∧ con ≠ 0 ∧ held w' con ∧ ldb w' = ldb w;
  law_start w con : held w con → ∃ w', tx_start con w = Ok (true, w') ∧ queued w' con [] ∧ ldb w' = ldb w;
  law_tx_set {A} `{!DBSerialize A, !Stored A} w con q k (a : A) : queued w con q → storable a → q_short (QSet k (enc a)) →
    ∃ w', tx_set con k a w = Ok (true, w') ∧ queued w' con (q ++ [QSet k (enc a)]) ∧ ldb w' = ldb w;
  law_tx_del w con q k : queued w con q → short k → ∃ w', tx_del con k w = Ok (true, w') ∧ queued w' con (q ++ [QDel k]) ∧ ldb w' = ldb w;
  law_tx_sadd w con q k m : queued w con q → short k → short m → ∃ w', tx_sadd con k m w = Ok (true, w') ∧ queued w' con (q ++ [QSadd k m]) ∧ ldb w' = ldb w;
  law_tx_srem w con q k m : queued w con q → short k → short m → ∃ w', tx_srem con k m w = Ok (true, w') ∧ queued w' con (q ++ [QSrem k m]) ∧ ldb w' = ldb w;
  law_exec w con q : queued w con q → (length q ≤ 10)%nat →
    ∃ w', tx_exec con w = Ok (exec_ok (q_runs (ldb w) q).2, w') ∧ held w' con ∧ ldb w' = (q_runs (ldb w) q).1;
  law_finish w con : held w con → ∃ r w', tx_finish con w = Ok (r, w') ∧ idle w' ∧ ldb w' = ldb w;
}.

End GbSpec.
