(* ===== verification/GbMgrFacts.v ===== *)
(** The managers against the laws of a client: each operation implements the operation of a
    finite map from ids to records. *)

From stdpp Require Import strings.
From S2P Require Import Prelude GbStream GbStreamProps GbResp GbRespProps GbPool GbClient GbMgr GbSpec.
From stdpp Require Import options.
#[local] Open Scope Z_scope.

Module GbMgrFacts.
Import GbStream GbStreamProps GbResp GbRespProps GbPool GbClient GbMgr GbSpec.

Section manager.
Context {W : Type} `{!RedisApi W, !RedisLaws W}.
Context {A : Type} `{!DBSerialize A, !Stored A}.
Context (id_of : A → list Z) (K : list Z).
Implicit Types (m : gmap (list Z) A) (d : rdb) (w : W).

(** ** How the database holds the map *)

(** All managers use the same string as the key of the set and as the prefix of the records. *)
Definition entry_ok (id : list Z) (a : A) : Prop :=
  id_of a = id ∧ id ≠ [] ∧ text id ∧ short (K ++ id) ∧ storable a ∧ short (enc a).

Record holds (m : gmap (list Z) A) (d : rdb) : Prop := {
  h_set : d !! K = if bool_decide (m = ∅) then None else Some (RSet (dom m));
  h_rec id : id ≠ [] → d !! (K ++ id) = (RStr ∘ enc) <$> m !! id;
}.

Record rep (m : gmap (list Z) A) (w : W) : Prop := {
  r_idle : idle w;
  r_holds : holds m (ldb w);
  r_entries : map_Forall entry_ok m;
  r_list : listable (dom m);
}.

(** Keys of others. *)
Definition frame (d d' : rdb) : Prop := ∀ k, (∀ id, k ≠ K ++ id) → d' !! k = d !! k.

Lemma keys_refl d : frame d d.
Proof. done. Qed.
Lemma keys_trans d1 d2 d3 : frame d1 d2 → frame d2 d3 → frame d1 d3.
Proof. intros H1 H2 k Hk. by rewrite H2, H1. Qed.

Lemma key_ne id : id ≠ [] → K ++ id ≠ K.
Proof. intros Hid E. rewrite <-(app_nil_r K) in E at 2. by apply app_inv_head in E. Qed.

Lemma short_K id : short (K ++ id) → short K ∧ short id.
Proof. unfold short. rewrite length_app. lia. Qed.

Lemma holds_set_at m d : holds m d → set_at d K (dom m).
Proof.
  intros H. unfold set_at. rewrite (h_set _ _ H). case_bool_decide as E; [|by left]. right. rewrite E. by rewrite dom_empty_L.
Qed.

Lemma entry_id m id a : map_Forall entry_ok m → m !! id = Some a → id ≠ [] ∧ short (K ++ id).
Proof. intros Hm Ha. destruct (Hm _ _ Ha) as (_ & ? & _ & ? & _). done. Qed.

Lemma no_empty_id m : map_Forall entry_ok m → m !! [] = None.
Proof. intros Hm. destruct (m !! []) eqn:E; [|done]. by destruct (entry_id _ _ _ Hm E). Qed.

(** An empty database holds the empty map. *)
Lemma rep_empty w : idle w → ldb w = ∅ → rep ∅ w.
Proof.
  intros Hi Hd. split; [done| |apply map_Forall_empty|].
  - rewrite Hd. split; [by rewrite lookup_empty, bool_decide_true|]. intros id _. by rewrite !lookup_empty.
  - rewrite dom_empty_L. split; [by vm_compute|]. intros x Hx. set_solver.
Qed.

(** ** Insertion *)

Lemma holds_insert m d id a : id ≠ [] → holds m d → holds (<[id := a]> m) (<[K := RSet ({[id]} ∪ dom m)]> (<[K ++ id := RStr (enc a)]> d)).
Proof.
  intros Hid H. split.
  - rewrite lookup_insert_eq. rewrite bool_decide_false by (apply insert_non_empty). by rewrite dom_insert_L.
  - intros id' Hid'. rewrite lookup_insert_ne by (intros E; by apply (key_ne id' Hid')). destruct (decide (id' = id)) as [->|Hne].
    + by rewrite !lookup_insert_eq.
    + rewrite !lookup_insert_ne; [by apply H| |]; [done|]. intros E. by apply app_inv_head in E.
Qed.

Lemma sadd_db m d id : holds m d → (q_run d (QSadd K id)).1 = <[K := RSet ({[id]} ∪ dom m)]> d ∧ ∃ b, (q_run d (QSadd K id)).2 = num b.
Proof.
  intros H. cbn [q_run]. rewrite (h_set _ _ H). case_bool_decide as E; (split; [|by eexists]); [|done]. simpl. rewrite E, dom_empty_L. by rewrite (right_id_L ∅ (∪)).
Qed.

Lemma set_then m d id a : id ≠ [] → holds m d → ∃ b, q_run (<[K ++ id := RStr (enc a)]> d) (QSadd K id) = (<[K := RSet ({[id]} ∪ dom m)]> (<[K ++ id := RStr (enc a)]> d), num b).
Proof.
  intros Hid H. cbn [q_run]. rewrite lookup_insert_ne by (intros E; by apply (key_ne id Hid)). rewrite (h_set _ _ H). case_bool_decide as E; eexists; [|done].
  rewrite E, dom_empty_L. by rewrite (right_id_L ∅ (∪)).
Qed.

Lemma frame_insert d id v s : frame d (<[K := RSet s]> (<[K ++ id := RStr v]> d)).
Proof. intros k Hk. rewrite !lookup_insert_ne; [done| |]; [by intros E; apply (Hk id)|]. intros E. apply (Hk []). by rewrite app_nil_r. Qed.

Lemma rep_insert m w w' id a :
  rep m w → entry_ok id a → listable (dom (<[id := a]> m)) → idle w' → ldb w' = <[K := RSet ({[id]} ∪ dom m)]> (<[K ++ id := RStr (enc a)]> (ldb w)) →
  rep (<[id := a]> m) w' ∧ frame (ldb w) (ldb w').
Proof.
  intros Hr He Hl Hi Hd. split; [split|]; [done| | |done|].
  - rewrite Hd. apply holds_insert; [apply He|apply Hr].
  - apply map_Forall_insert_2; [done|apply Hr].
  - rewrite Hd. apply frame_insert.
Qed.

(** A transaction all whose commands are queued; its result is that of EXEC. *)
Lemma transaction_run w (cmds : Z → list (M W bool)) q :
  idle w → (length q ≤ 10)%nat →
  (∀ con w1, queued w1 con [] → ldb w1 = ldb w → ∃ w2, (∀ l, all_true (cmds con ++ l) w1 = all_true l w2) ∧ queued w2 con q ∧ ldb w2 = ldb w) →
  ∃ w', in_transaction cmds w = Ok (if exec_ok (q_runs (ldb w) q).2 then 0 else -1, w') ∧ idle w' ∧ ldb w' = (q_runs (ldb w) q).1.
Proof.
  clear. intros Hi Hq Hc. destruct (law_prepare w Hi) as (con & w1 & H1 & Hcon & Hh & Hd1). unfold in_transaction. mstep H1.
  destruct (law_start w1 con Hh) as (w2 & H2 & Hqd & Hd2). destruct (Hc con w2 Hqd) as (w3 & H3 & Hqd3 & Hd3); [congruence|].
  destruct (law_exec w3 con q Hqd3 Hq) as (w4 & H4 & Hh4 & Hd4). rewrite Hd3 in H4, Hd4. set (ok := exec_ok (q_runs (ldb w) q).2) in *.
  assert (all_true (tx_start con :: cmds con ++ [tx_exec con]) w1 = Ok (ok, w4)) as Hall. { cbn [all_true]. mstep H2. rewrite H3. cbn [all_true]. mstep H4. by destruct ok. }
  mstep Hall. destruct (law_finish w4 con Hh4) as (r & w5 & H5 & Hi5 & Hd5). exists w5. split; [|split; [done|congruence]]. destruct ok; [by mstep H5|]. rewrite (proj2 (Z.eqb_neq _ _)) by done.
  unfold mbind, M_bind in *. by rewrite H5.
Qed.

Lemma transaction_ok w (cmds : Z → list (M W bool)) q :
  idle w → (length q ≤ 10)%nat →
  (∀ con w1, queued w1 con [] → ldb w1 = ldb w → ∃ w2, (∀ l, all_true (cmds con ++ l) w1 = all_true l w2) ∧ queued w2 con q ∧ ldb w2 = ldb w) →
  exec_ok (q_runs (ldb w) q).2 = true →
  ∃ w', in_transaction cmds w = Ok (0, w') ∧ idle w' ∧ ldb w' = (q_runs (ldb w) q).1.
Proof. clear. intros Hi Hq Hc Hok. destruct (transaction_run w cmds q Hi Hq Hc) as (w' & H & H'). rewrite Hok in H. by exists w'. Qed.

Lemma q_runs2 d c1 c2 : q_runs d [c1; c2] = ((q_run (q_run d c1).1 c2).1, [(q_run d c1).2; (q_run (q_run d c1).1 c2).2]).
Proof. cbn [q_runs]. destruct (q_run d c1) as [d1 r1]. cbn [fst snd]. by destruct (q_run d1 c2). Qed.

Lemma insert_queues w con k (a : A) l :
  queued w con [] → storable a → q_short (QSet k (enc a)) → short K → short l →
  ∃ w2, (∀ r, all_true ([tx_set con k a; tx_sadd con K l] ++ r) w = all_true r w2) ∧ queued w2 con [QSet k (enc a); QSadd K l] ∧ ldb w2 = ldb w.
Proof.
  intros Hq Ha Hs HsK Hl. destruct (law_tx_set w con [] k a Hq Ha Hs) as (w2 & H2 & Hq2 & Hd2). destruct (law_tx_sadd w2 con _ K l Hq2 HsK Hl) as (w3 & H3 & Hq3 & Hd3).
  exists w3. split; [|split; [exact Hq3|congruence]]. intros r. cbn [app all_true]. mstep H2. by mstep H3.
Qed.

Lemma insert_tx_ok m w a :
  rep m w → entry_ok (id_of a) a → listable (dom (<[id_of a := a]> m)) →
  ∃ w', insert_in_transaction id_of K K a w = Ok (0, w') ∧ rep (<[id_of a := a]> m) w' ∧ frame (ldb w) (ldb w').
Proof.
  intros Hr He Hl. pose proof He as (_ & Hne & Htx & Hsk & Hst & Hse). destruct (short_K _ Hsk) as [HsK Hsi].
  destruct (set_then m (ldb w) (id_of a) a Hne (r_holds _ _ Hr)) as (b & Hq).
  destruct (transaction_ok w (λ con, [tx_set con (K ++ id_of a) a; tx_sadd con K (id_of a)]) [QSet (K ++ id_of a) (enc a); QSadd K (id_of a)]) as (w' & Hrun & Hi' & Hd').
  - apply Hr.
  - simpl. lia.
  - intros con w1 Hq1 Hd1. rewrite <-Hd1. by apply insert_queues.
  - rewrite q_runs2. change (q_run (ldb w) (QSet (K ++ id_of a) (enc a))).1 with (<[K ++ id_of a := RStr (enc a)]> (ldb w)). rewrite Hq. by destruct b.
  - exists w'. split; [done|]. apply (rep_insert m w w'); [done|done|done|done|]. rewrite Hd', q_runs2. change (q_run (ldb w) (QSet (K ++ id_of a) (enc a))).1 with (<[K ++ id_of a := RStr (enc a)]> (ldb w)). by rewrite Hq.
Qed.

Lemma insert_cl_ok U m w a :
  rep m w → entry_ok (id_of a) a → listable (dom (<[id_of a := a]> m)) →
  ∃ w', insert_in_cluster id_of K K U a w = Ok (0, w') ∧ rep (<[id_of a := a]> m) w' ∧ frame (ldb w) (ldb w').
Proof.
  intros Hr He Hl. pose proof He as (_ & Hne & Htx & Hsk & Hst & Hse). destruct (short_K _ Hsk) as [HsK Hsi].
  destruct (set_then m (ldb w) (id_of a) a Hne (r_holds _ _ Hr)) as (b & Hq).
  destruct (law_set w (K ++ id_of a) a (r_idle _ _ Hr) Hst (conj Hsk Hse)) as (w1 & H1 & Hi1 & Hd1).
  destruct (law_sadd w1 K (id_of a) Hi1 HsK Hsi) as (w2 & H2 & Hi2 & Hd2). rewrite Hd1, Hq in H2, Hd2. simpl in H2, Hd2.
  exists w2. split; [unfold insert_in_cluster; mstep H1; by mstep H2|]. by apply (rep_insert m w w2).
Qed.

(** ** Deletion *)

Lemma holds_delete m d id :
  id ≠ [] → holds m d → ∃ b, q_run (delete (K ++ id) d) (QSrem K id) = ((q_run (delete (K ++ id) d) (QSrem K id)).1, num b) ∧ holds (delete id m) (q_run (delete (K ++ id) d) (QSrem K id)).1.
Proof.
  intros Hid H. assert (delete (K ++ id) d !! K = d !! K) as HK by (apply lookup_delete_ne; intros E; by apply (key_ne id Hid)).
  cbn [q_run]. rewrite HK, (h_set _ _ H). case_bool_decide as E.
  - exists false. split; [done|]. subst m. rewrite delete_empty. split; simpl.
    + rewrite HK, (h_set _ _ H). by rewrite !bool_decide_true.
    + intros id' Hid'. destruct (decide (id' = id)) as [->|Hne]; [by rewrite lookup_delete_eq|].
      rewrite lookup_delete_ne by (intros F; by apply app_inv_head in F). by rewrite (h_rec _ _ H).
  - eexists. split; [done|]. simpl. rewrite <-dom_delete_L. assert (dom (delete id m) = ∅ ↔ delete id m = ∅) as Hdom by (apply dom_empty_iff_L). split.
    + unfold put_set. destruct (decide (delete id m = ∅)) as [Hem|Hnem].
      * rewrite !bool_decide_true by (done || by apply Hdom). apply lookup_delete_eq.
      * rewrite !bool_decide_false by (done || (intros F; by apply Hnem, Hdom)). apply lookup_insert_eq.
    + intros id' Hid'. assert (∀ s, put_set K s (delete (K ++ id) d) !! (K ++ id') = delete (K ++ id) d !! (K ++ id')) as ->.
      { intros s. unfold put_set. case_bool_decide; [apply lookup_delete_ne|apply lookup_insert_ne]; intros F; by apply (key_ne id' Hid'). }
      destruct (decide (id' = id)) as [->|Hne]; [by rewrite !lookup_delete_eq|].
      rewrite !lookup_delete_ne; [by apply H|done|]. intros F. by apply app_inv_head in F.
Qed.

Lemma listing_mono (s1 s2 : gset (list Z)) : s1 ⊆ s2 → listing s1 ≤ listing s2.
Proof.
  clear. intros Hs. unfold listing. assert (elements s2 ≡ₚ elements s1 ++ elements (s2 ∖ s1)) as ->.
  { rewrite <-elements_disj_union by set_solver. f_equiv. by rewrite <-union_difference. }
  rewrite sum_list_with_app. lia.
Qed.

Lemma listable_mono (s1 s2 : gset (list Z)) : s1 ⊆ s2 → listable s2 → listable s1.
Proof. clear. intros Hs [Hl Ht]. split; [pose proof (listing_mono _ _ Hs); lia|]. intros x Hx. by apply Ht, Hs. Qed.

Lemma frame_srem d id : frame d (q_run (delete (K ++ id) d) (QSrem K id)).1.
Proof.
  intros k Hk. assert (k ≠ K ++ id ∧ k ≠ K) as [H1 H2] by (split; [apply Hk|rewrite <-(app_nil_r K); apply Hk]).
  cbn [q_run]. repeat case_match; unfold put_set; repeat case_match; simpl; rewrite ?lookup_insert_ne, ?lookup_delete_ne by done; done.
Qed.

Lemma rep_delete m w w' id :
  rep m w → id ≠ [] → idle w' → ldb w' = (q_run (delete (K ++ id) (ldb w)) (QSrem K id)).1 → rep (delete id m) w' ∧ frame (ldb w) (ldb w').
Proof.
  intros Hr Hid Hi Hd. split; [split|]; [done| | | |].
  - rewrite Hd. destruct (holds_delete m (ldb w) id Hid (r_holds _ _ Hr)) as (b & _ & H). exact H.
  - apply map_Forall_delete, Hr.
  - apply (listable_mono _ (dom m)); [|apply Hr]. rewrite dom_delete_L. set_solver.
  - rewrite Hd. apply frame_srem.
Qed.

Lemma delete_tx_ok m w a :
  rep m w → id_of a ≠ [] → short (K ++ id_of a) →
  ∃ w', delete_in_transaction id_of K K a w = Ok (0, w') ∧ rep (delete (id_of a) m) w' ∧ frame (ldb w) (ldb w').
Proof.
  intros Hr Hne Hsk. destruct (short_K _ Hsk) as [HsK Hsi]. destruct (holds_delete m (ldb w) (id_of a) Hne (r_holds _ _ Hr)) as (b & Hq & Hh).
  destruct (transaction_ok w (λ con, [tx_del con (K ++ id_of a); tx_srem con K (id_of a)]) [QDel (K ++ id_of a); QSrem K (id_of a)]) as (w' & Hrun & Hi' & Hd').
  - apply Hr.
  - simpl. lia.
  - intros con w1 Hq1 Hd1. destruct (law_tx_del w1 con [] (K ++ id_of a) Hq1 Hsk) as (w2 & H2 & Hq2 & Hd2).
    destruct (law_tx_srem w2 con _ K (id_of a) Hq2 HsK Hsi) as (w3 & H3 & Hq3 & Hd3). exists w3. split; [|split; [exact Hq3|congruence]].
    intros l. cbn [app all_true]. mstep H2. by mstep H3.
  - rewrite q_runs2. change (q_run (ldb w) (QDel (K ++ id_of a))).1 with (delete (K ++ id_of a) (ldb w)). rewrite Hq. cbn [q_run snd]. unfold num. by destruct b; case_match.
  - exists w'. split; [done|]. apply (rep_delete m w w'); [done|done|done|]. by rewrite Hd', q_runs2.
Qed.

Lemma delete_cl_ok U m w a :
  rep m w → id_of a ≠ [] → short (K ++ id_of a) →
  ∃ w', delete_in_cluster id_of K K U a w = Ok (if bool_decide (is_Some (m !! id_of a)) then 0 else -1, w') ∧ rep (delete (id_of a) m) w' ∧ frame (ldb w) (ldb w').
Proof.
  intros Hr Hne Hsk. destruct (short_K _ Hsk) as [HsK Hsi]. destruct (holds_delete m (ldb w) (id_of a) Hne (r_holds _ _ Hr)) as (b & Hq & Hh).
  destruct (law_del w (K ++ id_of a) (r_idle _ _ Hr) Hsk) as (w1 & H1 & Hi1 & Hd1). unfold delete_in_cluster.
  assert (q_ok (QDel (K ++ id_of a)) (q_run (ldb w) (QDel (K ++ id_of a))).2 = bool_decide (is_Some (m !! id_of a))) as Hok.
  { cbn [q_run snd num q_ok]. rewrite (h_rec _ _ (r_holds _ _ Hr)) by done. destruct (m !! id_of a); by rewrite ?bool_decide_true, ?bool_decide_false by (by intros [? ?]). }
  rewrite Hok in H1. mstep H1. case_bool_decide as Hin; cbn [negb].
  - destruct (law_srem w1 K (id_of a) Hi1 HsK Hsi) as (w2 & H2 & Hi2 & Hd2). rewrite Hd1 in H2, Hd2. rewrite Hq in H2. cbn [snd num q_ok] in H2. mstep H2.
    exists w2. split; [done|]. by apply (rep_delete m w w2).
  - assert (m !! id_of a = None) as Hnone by (by destruct (m !! id_of a); [destruct Hin|]). rewrite delete_id by done.
    assert (ldb w1 = ldb w) as Hsame. { rewrite Hd1. apply delete_id. by rewrite (h_rec _ _ (r_holds _ _ Hr)), Hnone. }
    exists w1. split; [done|]. split; [|rewrite Hsame; apply keys_refl]. split; [done|rewrite Hsame; apply Hr|apply Hr|apply Hr].
Qed.

(** ** Looking up *)

Lemma rep_same m w w' : rep m w → idle w' → ldb w' = ldb w → rep m w' ∧ frame (ldb w) (ldb w').
Proof. intros Hr Hi Hd. split; [|rewrite Hd; apply keys_refl]. split; [done|rewrite Hd; apply Hr|apply Hr|apply Hr]. Qed.

Lemma load_stored (a old : A) : storable a → ∃ i, ser_load old (DBInStream_new (enc a ++ [0]) (Z.of_nat (length (enc a)))) = Ok (keep old a, i) ∧ m_loadError i = 0.
Proof.
  clear. intros Ha. destruct (load_enc a old (DBInStream_new (enc a ++ [0]) (Z.of_nat (length (enc a)))) [] Ha) as (i & Hi & Hist).
  - rewrite app_nil_r. split; [done|]. exists [], [0]. by simpl.
  - exists i. split; [done|]. apply Hist.
Qed.

Lemma get_ok m w id (old : A) :
  rep m w → id ≠ [] → short (K ++ id) →
  ∃ w', api_get (K ++ id) old w = Ok (match m !! id with Some a => (true, keep old a) | None => (false, old) end, w') ∧ rep m w' ∧ frame (ldb w) (ldb w').
Proof.
  intros Hr Hne Hsk. pose proof (h_rec _ _ (r_holds _ _ Hr) id Hne) as Hrec. destruct (m !! id) as [a|] eqn:E.
  - destruct (r_entries _ _ Hr _ _ E) as (_ & _ & _ & _ & Hst & Hse). destruct (load_stored a old Hst) as (i & Hi & He).
    destruct (law_get w (K ++ id) (enc a) old (keep old a) i (r_idle _ _ Hr) Hsk Hse Hrec Hi) as (w' & Hrun & Hi' & Hd'). rewrite He in Hrun. exists w'. split; [done|]. by apply rep_same.
  - destruct (law_get_none w (K ++ id) old (r_idle _ _ Hr) Hsk Hrec) as (w' & Hrun & Hi' & Hd'). exists w'. split; [done|]. by apply rep_same.
Qed.

Lemma search_ok m w id (old : A) :
  rep m w → short (K ++ id) →
  ∃ w', search K K id old w = Ok (match m !! id with Some a => (0, keep old a) | None => (-1, old) end, w') ∧ rep m w' ∧ frame (ldb w) (ldb w').
Proof.
  intros Hr Hsk. destruct (short_K _ Hsk) as [HsK Hsi].
  destruct (law_sismember w K id (dom m) (r_idle _ _ Hr) HsK Hsi (holds_set_at _ _ (r_holds _ _ Hr))) as (w1 & H1 & Hi1 & Hd1).
  destruct (rep_same m w w1 Hr Hi1 Hd1) as [Hr1 Hf1]. unfold search. mstep H1. destruct (m !! id) as [a|] eqn:E.
  - rewrite bool_decide_true by (apply elem_of_dom; by exists a). destruct (entry_id _ _ _ (r_entries _ _ Hr) E) as [Hne _].
    destruct (get_ok m w1 id old Hr1 Hne Hsk) as (w2 & H2 & Hr2 & Hf2). rewrite E in H2. mstep H2. exists w2. split; [done|]. split; [done|]. by eapply keys_trans.
  - rewrite bool_decide_false by (by apply not_elem_of_dom). by exists w1.
Qed.

Lemma load_each_ok m (fresh : A) touch ids w l :
  rep m w → Forall (λ id, id ∈ dom m) ids →
  ∃ w', load_each K fresh touch ids l w = Ok (l ++ ((touch ∘ keep fresh) <$> omap (m !!.) ids), w') ∧ rep m w' ∧ frame (ldb w) (ldb w').
Proof.
  intros Hr Hids. revert w l Hr. induction Hids as [|id ids Hid _ IH]; intros w l Hr.
  - exists w. simpl. rewrite app_nil_r. split; [done|]. split; [done|apply keys_refl].
  - apply elem_of_dom in Hid as [a Ha]. destruct (entry_id _ _ _ (r_entries _ _ Hr) Ha) as [Hne Hsk].
    destruct (get_ok m w id fresh Hr Hne Hsk) as (w1 & H1 & Hr1 & Hf1). rewrite Ha in H1. destruct (IH w1 (l ++ [touch (keep fresh a)]) Hr1) as (w2 & H2 & Hr2 & Hf2).
    exists w2. split; [|split; [done|by eapply keys_trans]]. simpl. mstep H1. rewrite Ha. simpl. rewrite H2. by rewrite <-app_assoc.
Qed.

Lemma values_perm m ids : ids ≡ₚ elements (dom m) → omap (m !!.) ids ≡ₚ (map_to_list m).*2.
Proof.
  clear. intros ->. assert (elements (dom m) ≡ₚ (map_to_list m).*1) as ->.
  { apply NoDup_Permutation; [apply NoDup_elements|apply NoDup_fst_map_to_list|]. intros id. rewrite elem_of_elements, elem_of_dom. split.
    - intros [a Ha]. apply list_elem_of_fmap. exists (id, a). split; [done|]. by apply elem_of_map_to_list.
    - intros ([id' a] & -> & H)%list_elem_of_fmap. apply elem_of_map_to_list in H. by exists a. }
  assert (∀ l, (∀ p, p ∈ l → m !! p.1 = Some p.2) → omap (m !!.) l.*1 = l.*2) as H.
  { induction l as [|[id a] l IH]; intros Hl; [done|]. simpl. pose proof (Hl (id, a) ltac:(left)) as E. simpl in E. rewrite E. simpl. f_equal. apply IH. intros p Hp. apply Hl. by right. }
  rewrite H; [done|]. intros [id a] Hp. by apply elem_of_map_to_list in Hp.
Qed.

Lemma smembers_ok m w :
  rep m w → short K → ∃ ids w', api_smembers K [] w = Ok ((true, ids), w') ∧ ids ≡ₚ elements (dom m) ∧ rep m w' ∧ frame (ldb w) (ldb w').
Proof.
  intros Hr HsK. destruct (law_smembers w K (dom m) (r_idle _ _ Hr) HsK (holds_set_at _ _ (r_holds _ _ Hr)) (r_list _ _ Hr)) as (ids & w' & H & Hp & Hi & Hd).
  exists ids, w'. split; [done|]. split; [done|]. by apply rep_same.
Qed.

Lemma load_all_ok m w (fresh : A) touch l :
  rep m w → short K →
  ∃ l' w', load_all K K fresh touch l w = Ok ((0, l ++ l'), w') ∧ l' ≡ₚ (touch ∘ keep fresh) <$> (map_to_list m).*2 ∧ rep m w' ∧ frame (ldb w) (ldb w').
Proof.
  intros Hr HsK. destruct (smembers_ok m w Hr HsK) as (ids & w1 & H1 & Hp & Hr1 & Hf1).
  destruct (load_each_ok m fresh touch ids w1 l Hr1) as (w2 & H2 & Hr2 & Hf2). { apply Forall_forall. intros id Hid. rewrite Hp in Hid. by apply elem_of_elements in Hid. }
  exists ((touch ∘ keep fresh) <$> omap (m !!.) ids), w2. split; [unfold load_all; mstep H1; by mstep H2|]. split; [by rewrite (values_perm m ids Hp)|]. split; [done|]. by eapply keys_trans.
Qed.

(** ** Clearing and replacing *)

Lemma del_each_ok ids w :
  idle w → Forall (λ id, short (K ++ id)) ids →
  ∃ w', del_each K ids w = Ok (tt, w') ∧ idle w' ∧ ∀ k, ldb w' !! k = if bool_decide (k ∈ (K ++.) <$> ids) then None else ldb w !! k.
Proof.
  intros Hi Hids. revert w Hi. induction Hids as [|id ids Hs _ IH]; intros w Hi; [by exists w|].
  destruct (law_del w (K ++ id) Hi Hs) as (w1 & H1 & Hi1 & Hd1). destruct (IH w1 Hi1) as (w2 & H2 & Hi2 & Hd2). exists w2. split; [simpl; by mstep H1|]. split; [done|].
  intros k. rewrite Hd2, Hd1, fmap_cons. destruct (decide (k = K ++ id)) as [->|Hne].
  - rewrite lookup_delete_eq. rewrite (bool_decide_true (K ++ id ∈ (K ++ id) :: _)) by left. by case_bool_decide.
  - rewrite lookup_delete_ne by done. assert (bool_decide (k ∈ (K ++.) <$> ids) = bool_decide (k ∈ (K ++ id) :: ((K ++.) <$> ids))) as ->; [|done].
    apply bool_decide_ext. rewrite elem_of_cons. naive_solver.
Qed.

Lemma clear_all_ok m w : rep m w → short K → ∃ w', clear_all K K w = Ok (0, w') ∧ rep ∅ w' ∧ frame (ldb w) (ldb w').
Proof.
  intros Hr HsK. destruct (smembers_ok m w Hr HsK) as (ids & w1 & H1 & Hp & Hr1 & Hf1). destruct (law_del w1 K (r_idle _ _ Hr1) HsK) as (w2 & H2 & Hi2 & Hd2).
  assert (∀ id, id ∈ ids ↔ id ∈ dom m) as Hids by (intros id; by rewrite Hp, elem_of_elements).
  destruct (del_each_ok ids w2 Hi2) as (w3 & H3 & Hi3 & Hd3).
  { apply Forall_forall. intros id Hid. apply Hids, elem_of_dom in Hid as [a Ha]. by apply (entry_id _ _ _ (r_entries _ _ Hr) Ha). }
  exists w3. split; [unfold clear_all; mstep H1; mstep H2; by mstep H3|]. assert (∀ k, ldb w3 !! k = if bool_decide (k ∈ (K ++.) <$> ids) then None else delete K (ldb w1) !! k) as Hd by (by rewrite <-Hd2).
  split; [split|].
  - done.
  - split.
    + rewrite Hd, lookup_delete_eq. rewrite (bool_decide_true (∅ = ∅)) by done. by case_bool_decide.
    + intros id Hid. rewrite Hd, lookup_empty. case_bool_decide as Hin; [done|]. rewrite lookup_delete_ne by (intros E; by apply (key_ne id Hid)).
      rewrite (h_rec _ _ (r_holds _ _ Hr1)) by done. destruct (m !! id) eqn:E; [|done]. destruct Hin. apply list_elem_of_fmap. exists id. split; [done|]. apply Hids, elem_of_dom. by eexists.
  - apply map_Forall_empty.
  - rewrite dom_empty_L. apply (listable_mono _ (dom m)); [set_solver|apply Hr].
  - apply (keys_trans _ _ _ Hf1). intros k Hk. rewrite Hd. rewrite bool_decide_false by (intros (id & -> & _)%list_elem_of_fmap; by apply (Hk id)).
    apply lookup_delete_ne. rewrite <-(app_nil_r K). intros E. by apply (Hk []).
Qed.

Definition insert_list (l : list A) (m : gmap (list Z) A) : gmap (list Z) A := foldl (λ m a, <[id_of a := a]> m) m l.

Lemma insert_list_dom l m : dom m ⊆ dom (insert_list l m).
Proof. clear. revert m. induction l as [|a l IH]; intros m; [done|]. simpl. etransitivity; [|apply IH]. rewrite dom_insert_L. set_solver. Qed.

Lemma set_each_ok l m w :
  rep m w → Forall (λ a, entry_ok (id_of a) a) l → listable (dom (insert_list l m)) →
  ∃ w', set_each id_of K K l w = Ok (tt, w') ∧ rep (insert_list l m) w' ∧ frame (ldb w) (ldb w').
Proof.
  intros Hr Hl. revert m w Hr. induction Hl as [|a l He _ IH]; intros m w Hr Hlist.
  - exists w. split; [done|]. split; [done|apply keys_refl].
  - pose proof He as (_ & Hne & Htx & Hsk & Hst & Hse). destruct (short_K _ Hsk) as [HsK Hsi]. destruct (sadd_db m (ldb w) (id_of a) (r_holds _ _ Hr)) as [Hdb _].
    destruct (law_sadd w K (id_of a) (r_idle _ _ Hr) HsK Hsi) as (w1 & H1 & Hi1 & Hd1). rewrite Hdb in Hd1.
    destruct (law_set w1 (K ++ id_of a) a Hi1 Hst (conj Hsk Hse)) as (w2 & H2 & Hi2 & Hd2). rewrite Hd1, insert_insert_ne in Hd2 by (intros E; by apply (key_ne _ Hne)).
    destruct (rep_insert m w w2 (id_of a) a Hr He) as [Hr2 Hf2]; [|done|done|].
    { apply (listable_mono _ (dom (insert_list (a :: l) m))); [|done]. simpl. apply insert_list_dom. }
    destruct (IH _ w2 Hr2 Hlist) as (w3 & H3 & Hr3 & Hf3). exists w3. split; [simpl; mstep H1; by mstep H2|]. split; [done|]. by eapply keys_trans.
Qed.

Lemma update_all_ok m w l :
  rep m w → short K → Forall (λ a, entry_ok (id_of a) a) l → listable (dom (insert_list l ∅)) →
  ∃ w', update_all id_of K K l w = Ok (0, w') ∧ rep (insert_list l ∅) w' ∧ frame (ldb w) (ldb w').
Proof.
  intros Hr HsK Hl Hlist. destruct (clear_all_ok m w Hr HsK) as (w1 & H1 & Hr1 & Hf1). destruct (set_each_ok l ∅ w1 Hr1 Hl Hlist) as (w2 & H2 & Hr2 & Hf2).
  exists w2. split; [unfold update_all; mstep H1; by mstep H2|]. split; [done|]. by eapply keys_trans.
Qed.

Lemma size_listing (s : gset (list Z)) : Z.of_nat (size s) ≤ listing s.
Proof.
  clear. unfold listing, size, set_size. simpl. induction (elements s) as [|x l IH]; simpl; lia.
Qed.

Lemma count_ok m w : rep m w → short K → ∃ w', api_scard K w = Ok (Z.of_nat (size m), w') ∧ rep m w' ∧ frame (ldb w) (ldb w').
Proof.
  intros Hr HsK. destruct (law_scard w K (dom m) (r_idle _ _ Hr) HsK (holds_set_at _ _ (r_holds _ _ Hr))) as (w' & H & Hi & Hd).
  - pose proof (size_listing (dom m)). destruct (r_list _ _ Hr) as [Hl _]. lia.
  - rewrite size_dom in H. exists w'. split; [done|]. by apply rep_same.
Qed.

End manager.
End GbMgrFacts.
