(* ===== verification/GbLink.v ===== *)
(** From a redis server to the laws of the client: what a server answers ([RedisServer], over
    the network of [GbPool]), and that the client in stand-alone mode, through its connection
    pool, its commands and its reply parser, then obeys [RedisLaws]. *)

From stdpp Require Import strings.
From S2P Require Import Prelude GbStream GbStreamProps GbResp GbRespProps GbPool GbClient GbMgr GbSpec.
From stdpp Require Import options.
#[local] Open Scope Z_scope.

Module GbLink.
Import GbStream GbStreamProps GbResp GbRespProps GbPool GbClient GbMgr GbSpec.

(** ** Replies to EXEC *)

(** The replies to the commands of a transaction are lines. *)
Definition line_of (r : rvalue) : list Z :=
  match r with
  | RStatus s => 43 :: s
  | RError s => 45 :: s
  | RInt n => 58 :: ToString n
  | _ => []
  end.
Definition lines (l : list (list Z)) : list Z := concat ((λ s, s ++ CRLF) <$> l).
Definition lines_reply (l : list (list Z)) : list Z := 42 :: ToString (Z.of_nat (length l)) ++ CRLF ++ lines l.
Definition line_info (s : list Z) : ReplyArrayInfo := mkInfo REDIS_REPLY_STRING (Some s) (Z.of_nat (length s)).

Definition exec_line (s : list Z) : Prop := line_ok s ∧ ∃ b t, s = b :: t ∧ is_line b = true.

Lemma strstr_line s T : Forall (λ b, b ≠ 0 ∧ b ≠ 13) s → strstr_crlf (s ++ CRLF ++ T) = Some (length s).
Proof.
  intros Hs. destruct (strstr_split s (s ++ CRLF ++ T) [] T Hs) as [(T1 & _ & _ & H)|[_ H]]; [by rewrite app_nil_r|done|done].
Qed.

Section exec.
Context (malloc_ok : Z → bool).
Hypothesis malloc_always : ∀ n, 0 ≤ n < 2 ^ 30 → malloc_ok n = true.

Lemma exec_loop l1 l2 fuel c :
  Forall exec_line l2 → l2 ≠ [] → (length (lines l2) ≤ fuel)%nat →
  m_parseState c = REDIS_PARSE_LENGTH → reply c = mkReply REDIS_REPLY_ARRAY [] 0 (line_info <$> l1) → m_valid c = false →
  m_doneNum c = Z.of_nat (length l1) → m_arrayNum c = Z.of_nat (length (l1 ++ l2)) →
  ∃ c', parse_loop malloc_ok fuel true (lines l2) c = Ok (true, c') ∧ m_valid c' = true ∧ reply c' = mkReply REDIS_REPLY_ARRAY [] 0 (line_info <$> (l1 ++ l2)).
Proof using malloc_always.
  intros Hl2. revert l1 fuel c. induction Hl2 as [|s l2 Hs _ IH]; intros l1 fuel c Hne Hf Hst Hr Hv Hd Hn; [done|]. clear Hne.
  destruct Hs as [[Hok Hlen] (b & t & Es & Hb)]. change (lines (s :: l2)) with ((s ++ CRLF) ++ lines l2) in *. rewrite <-app_assoc in *.
  destruct fuel as [|fuel]; [rewrite Es in Hf; simpl in Hf; lia|].
  assert (parse_step malloc_ok true (s ++ CRLF ++ lines l2) c = (push_element (line_info s);; mret (Break true (drop (length s + 1) (s ++ CRLF ++ lines l2)))) c) as Hstep.
  { unfold parse_step. rewrite bind_get, Hst. unfold parse_length. rewrite (bind_lift _ _ _ b) by (by rewrite Es). rewrite Hb. cbn [andb]. unfold parse_line. rewrite strstr_line by done.
    rewrite (proj2 (Z.leb_gt _ 0)) by (rewrite Es; simpl; lia). mstep (alloc_ok malloc_ok malloc_always (Z.of_nat (length s) + 1) c ltac:(lia)). by rewrite take_app_length. }
  rewrite length_app in Hn. cbn [length] in Hn.
  assert (∃ b' t', s ++ CRLF ++ lines l2 = b' :: t') as (b' & t' & Ecat) by (rewrite Es; by eexists _, _). rewrite Ecat. cbn [parse_loop]. rewrite <-Ecat.
  set (c1 := if m_doneNum c + 1 <? m_arrayNum c then set_state REDIS_PARSE_LENGTH (set_doneNum (m_doneNum c + 1) (push_back (line_info s) c)) else set_valid (set_doneNum (m_doneNum c + 1) (push_back (line_info s) c))).
  assert (push_element (line_info s) c = Ok (tt, c1)) as Hpush by (unfold push_element, c1; rewrite !bind_modify, bind_get; simpl; by case_match).
  assert (reply c1 = mkReply REDIS_REPLY_ARRAY [] 0 (line_info <$> (l1 ++ [s]))) as Hr1 by (unfold c1; case_match; simpl; rewrite Hr; simpl; by rewrite fmap_app).
  rewrite (bind_ok _ _ _ (Break true (drop (length s + 1) (s ++ CRLF ++ lines l2))) c1) by (rewrite Hstep; by mstep Hpush). rewrite drop_line.
  destruct l2 as [|s2 l2].
  - exists c1. unfold c1 in *. rewrite (proj2 (Z.ltb_ge _ _)) in * by (simpl in Hn; lia). split; [|done]. destruct fuel; done.
  - destruct (IH (l1 ++ [s]) fuel c1) as (c' & Hrun & Hv' & Hr'); try done.
    + rewrite 2!length_app in Hf. change (length CRLF) with 2%nat in Hf. lia.
    + unfold c1. by rewrite (proj2 (Z.ltb_lt _ _)) by (simpl in Hn; lia).
    + unfold c1. by rewrite (proj2 (Z.ltb_lt _ _)) by (simpl in Hn; lia).
    + unfold c1. rewrite (proj2 (Z.ltb_lt _ _)) by (simpl in Hn; lia). simpl. rewrite length_app. simpl. lia.
    + unfold c1. rewrite (proj2 (Z.ltb_lt _ _)) by (simpl in Hn; lia). simpl. rewrite Hn, !length_app. simpl. lia.
    + exists c'. split; [done|]. split; [done|]. by rewrite <-app_assoc in Hr'.
Qed.

(** An EXEC reply that arrives in one read. *)
Lemma recv_lines l later c0 :
  Forall exec_line l → Z.of_nat (length (lines_reply l)) < 4096 →
  ∃ c', recv malloc_ok RedisReplyInfo_new (Some (lines_reply l) :: later) c0 = Ok ((true, later), c') ∧ reply c' = mkReply REDIS_REPLY_ARRAY [] 0 (line_info <$> l).
Proof using malloc_always.
  intros Hl Hsz. unfold recv. set (c1 := mkConn [] REDIS_PARSE_UNKNOWN_STATE 0 0 0 false RedisReplyInfo_new).
  assert ((put c1 : MC unit) c0 = Ok (tt, c1)) as Hput by done. mstep Hput. mstep (alloc_ok malloc_ok malloc_always REDIS_READ_BUFF_SIZE c1 ltac:(unfold REDIS_READ_BUFF_SIZE; lia)).
  cbn [recv_loop]. rewrite bind_get. cbn [m_valid c1]. change (m_unparse c1 ++ lines_reply l) with (lines_reply l).
  set (k := if (0 <? Z.of_nat (length (m_unparse c1))) && _ then _ else _). assert (k c1 = Ok (4096, c1)) as Hk by done. mstep Hk. rewrite (proj2 (Z.leb_gt _ _)) by done. rewrite bind_modify.
  set (bs := lines_reply l) in *.
  assert (∃ c', parse malloc_ok bs (set_unparse [] c1) = Ok (true, c') ∧ m_valid c' = true ∧ reply c' = mkReply REDIS_REPLY_ARRAY [] 0 (line_info <$> l)) as (c' & Hp & Hv & Hr).
  { destruct (ToString_line (Z.of_nat (length l))) as [[Hok Hlen] _]. assert (int_ok (Z.of_nat (length l))) as Hint.
    { unfold int_ok. assert (length l ≤ length (lines l))%nat as Hll. { clear. unfold lines. induction l as [|x l IH]; [done|]. rewrite fmap_cons. cbn [concat]. rewrite !length_app. simpl. lia. }
      unfold bs, lines_reply in Hsz. cbn [length] in Hsz. rewrite !length_app in Hsz. lia. }
    unfold parse. rewrite bind_modify. set (c2 := match m_parseState (set_unparse [] c1) with REDIS_PARSE_UNKNOWN_STATE => _ | _ => _ end).
    unfold bs at 1, lines_reply at 1. unfold bs, lines_reply. cbn [length parse_loop]. set (T := ToString (Z.of_nat (length l)) ++ CRLF ++ lines l).
    set (c3 := set_type REDIS_REPLY_ARRAY (set_state REDIS_PARSE_ARRAYLENGTH c2)).
    assert (parse_step malloc_ok false (42 :: T) c2 = Ok (Break false (42 :: T), c3)) as H1 by done. mstep H1. rewrite skipn_cons, drop_0.
    assert (0 < length T)%nat as HT by (unfold T; rewrite !length_app; simpl; lia). destruct (length T) as [|n] eqn:En; [lia|].
    assert (∃ ha c4, parse_step malloc_ok false T c3 = Ok (Break ha (drop (length (ToString (Z.of_nat (length l))) + 1) T), c4) ∧
      (l = [] ∧ m_valid c4 = true ∧ reply c4 = mkReply REDIS_REPLY_ARRAY [] 0 [] ∨ l ≠ [] ∧ ha = true ∧ c4 = set_state REDIS_PARSE_LENGTH (set_arrayNum (Z.of_nat (length l)) c3))) as (ha & c4 & H2 & Hc4).
    { change (parse_step malloc_ok false T c3) with (parse_arraylength false T c3). unfold parse_arraylength, T. rewrite strstr_line by done.
      rewrite (bind_lift _ _ _ _ (copy_line _ _ Hlen)), (bind_lift _ _ _ _ (atoi_ToString _ Hint)), bind_modify. rewrite (proj2 (Z.eqb_neq _ (-1))) by lia.
      destruct l as [|x l']; [eexists _, _; split; [reflexivity|by left]|]. rewrite (proj2 (Z.eqb_neq _ 0)) by (simpl; lia). eexists _, _. split; [reflexivity|by right]. }
    destruct T as [|x T'] eqn:ET; [done|]. cbn [parse_loop]. rewrite <-ET in *. mstep H2. unfold T. rewrite drop_line. unfold T in En. rewrite !length_app in En. change (length CRLF) with 2%nat in En.
    destruct Hc4 as [(-> & Hv4 & Hr4)|(Hne & -> & ->)].
    - exists c4. split; [|done]. destruct n; cbn [lines fmap list_fmap concat parse_loop]; unfold check_buf; rewrite bind_get, Hv4; done.
    - destruct (exec_loop [] l n (set_state REDIS_PARSE_LENGTH (set_arrayNum (Z.of_nat (length l)) c3))) as (c' & Hrun & Hv & Hr); try done; [lia|]. by exists c'. }
  mstep Hp. exists (set_unparse [] c'). split; [|done]. destruct later; cbn [recv_loop]; rewrite bind_get, Hv; reflexivity.
Qed.
End exec.

(** ** Sizes of commands *)

Lemma length_digits_bound f n k : 0 ≤ n < 10 ^ Z.of_nat (S k) → (length (digits f n) ≤ S k)%nat.
Proof.
  revert n k. induction f as [|f IH]; intros n k Hn; simpl; [lia|]. destruct (Z.ltb_spec n 10) as [H|H]; [simpl; lia|]. rewrite length_app. cbn [length].
  destruct k as [|k]; [simpl in Hn; lia|]. rewrite Nat2Z.inj_succ, Z.pow_succ_r in Hn by lia. assert (0 ≤ n / 10 < 10 ^ Z.of_nat (S k)) as Hd by (split; [apply Z.div_pos; lia|apply Z.div_lt_upper_bound; lia]).
  specialize (IH (n / 10) k Hd). lia.
Qed.

Lemma length_ToString n k : 0 ≤ n < 10 ^ Z.of_nat (S k) → (length (ToString n) ≤ S k)%nat.
Proof. intros Hn. unfold ToString. rewrite (proj2 (Z.ltb_ge _ _)) by lia. by apply length_digits_bound. Qed.

(** What a parameter takes: the command's name, and a key or value of up to a megabyte. *)
Lemma bulk_name v : (length v ≤ 9)%nat → (length (bulk (Some v)) ≤ length v + 6)%nat.
Proof.
  intros Hv. unfold bulk, bulk_body. cbn [length]. rewrite !length_app. cbn [length CRLF]. pose proof (length_ToString (Z.of_nat (length v)) 0 ltac:(simpl; lia)). lia.
Qed.
Lemma bulk_short v : short v → (length (bulk (Some v)) ≤ length v + 12)%nat.
Proof.
  unfold short. intros Hv. unfold bulk, bulk_body. cbn [length]. rewrite !length_app. cbn [length CRLF]. pose proof (length_ToString (Z.of_nat (length v)) 6 ltac:(simpl; lia)). lia.
Qed.
Lemma bulk_any v : (length (bulk (Some v)) ≤ length v + 17)%nat.
Proof. unfold bulk, bulk_body. cbn [length]. rewrite !length_app. cbn [length CRLF]. destruct (ToString_line (Z.of_nat (length v))) as [_ H]. lia. Qed.

Definition cmd_bytes (args : list (list Z)) : list Z := encode (RArray (Some <$> args)).

Lemma cmd_bytes_length args : (length args ≤ 9)%nat → (length (cmd_bytes args) ≤ 4 + length (bulks (Some <$> args)))%nat.
Proof.
  intros Ha. unfold cmd_bytes, encode. cbn [length]. rewrite !length_app, length_fmap. cbn [length CRLF]. pose proof (length_ToString (Z.of_nat (length args)) 0 ltac:(simpl; lia)). lia.
Qed.

(** ** Commands and servers *)

(** The commands of the managers. *)
Inductive rcmd := CQ (c : qcmd) | CGet (k : list Z) | CScard (k : list Z) | CSismember (k m : list Z) | CSmembers (k : list Z) | CMulti | CExec.

Definition q_args (c : qcmd) : list (list Z) :=
  match c with
  | QSet k v => [lit "set"; k; v]
  | QDel k => [lit "del"; k]
  | QSadd k m => [lit "sadd"; k; m]
  | QSrem k m => [lit "srem"; k; m]
  end.
Definition rargs (c : rcmd) : list (list Z) :=
  match c with
  | CQ c => q_args c
  | CGet k => [lit "get"; k]
  | CScard k => [lit "scard"; k]
  | CSismember k m => [lit "sismember"; k; m]
  | CSmembers k => [lit "smembers"; k]
  | CMulti => [lit "multi"]
  | CExec => [lit "exec"]
  end.

Inductive sreply := SPlain (r : rvalue) | SLines (l : list (list Z)).

(** The documented effect of a command on the database, the session (its queue, in a
    transaction) and the reply; what is not used is left open. *)
Definition serves (d : rdb) (st : option (list qcmd)) (c : rcmd) (d' : rdb) (st' : option (list qcmd)) (r : sreply) : Prop :=
  match c, st with
  | CQ c, None => d' = (q_run d c).1 ∧ st' = None ∧ r = SPlain (q_run d c).2
  | CQ c, Some q => d' = d ∧ st' = Some (q ++ [c]) ∧ r = SPlain (RStatus (lit "QUEUED"))
  | CMulti, None => d' = d ∧ st' = Some [] ∧ r = SPlain (RStatus (lit "OK"))
  | CExec, Some q => d' = (q_runs d q).1 ∧ st' = None ∧ r = SLines (line_of <$> (q_runs d q).2)
  | CGet k, None =>
      d' = d ∧ st' = None ∧
      r = SPlain (match d !! k with None => RBulk None | Some (RStr v) => RBulk (Some v) | Some (RSet _) => RError WRONGTYPE end)
  | CScard k, None => d' = d ∧ st' = None ∧ ∀ s, set_at d k s → r = SPlain (RInt (Z.of_nat (size s)))
  | CSismember k m, None => d' = d ∧ st' = None ∧ ∀ s, set_at d k s → r = SPlain (num (bool_decide (m ∈ s)))
  | CSmembers k, None =>
      d' = d ∧ st' = None ∧ (∀ s, set_at d k s → ∃ l, l ≡ₚ elements s ∧ r = SPlain (RArray (Some <$> l))) ∧
      (∀ v, d !! k = Some (RStr v) → r = SPlain (RError WRONGTYPE))
  | _, _ => True
  end.

(** How a reply arrives: a plain one in any pieces, the reply to EXEC in one. *)
Definition delivers (r : sreply) (reads : list (option (list Z))) : Prop :=
  match r with
  | SPlain r => ∃ chunks later, reads = (Some <$> chunks) ++ later ∧ Forall (λ d, 1 ≤ Z.of_nat (length d) < REDIS_READ_BUFF_SIZE) chunks ∧ concat chunks = encode r
  | SLines l => ∃ later, reads = Some (lines_reply l) :: later
  end.

(** A reliable server: connections stay open, every command is answered. *)
Class RedisServer (NS : Type) `{!Net NS} := {
  sdb : NS → rdb;
  sess : NS → gmap Z (option (list qcmd));
  probe_law s fd : is_Some (sess s !! fd) → ∃ s', net_probe fd s = (false, s') ∧ sess s' = sess s ∧ sdb s' = sdb s;
  write_law s fd st c : sess s !! fd = Some st → Z.of_nat (length (cmd_bytes (rargs c))) ≤ 2 ^ 23 →
    ∃ n s' st' r, net_write fd (cmd_bytes (rargs c)) s = (n, true, s') ∧ 0 < n ∧ serves (sdb s) st c (sdb s') st' r ∧
      sess s' = <[fd := st']> (sess s) ∧ delivers r (net_reads fd s');
  connect_law s : match net_connect s with
    | (Some fd, s') => sess s' = <[fd := None]> (sess s) ∧ sdb s' = sdb s
    | (None, s') => sess s' = sess s ∧ sdb s' = sdb s end;
  rest_law s fd rest : sess (net_rest fd rest s) = sess s ∧ sdb (net_rest fd rest s) = sdb s;
}.

(** What the client makes of a reply. *)
Definition sinfo (r : sreply) : RedisReplyInfo :=
  match r with
  | SPlain r => info r
  | SLines l => mkReply REDIS_REPLY_ARRAY [] 0 (line_info <$> l)
  end.
Definition sreply_ok (r : sreply) : Prop :=
  match r with
  | SPlain r => reply_ok r
  | SLines l => Forall exec_line l ∧ Z.of_nat (length (lines_reply l)) < 4096
  end.

Section link.
Context {NS : Type} `{!Net NS, !RedisServer NS}.
Context (malloc_ok new_ok : Z → bool).
Hypothesis malloc_always : ∀ n, 0 ≤ n < 2 ^ 30 → malloc_ok n = true.
Hypothesis new_always : ∀ n, n < 2 ^ 31 → new_ok n = true.
Implicit Types (p : pool NS) (k : client NS).

Lemma recv_sreply r reads c0 :
  sreply_ok r → delivers r reads → ∃ later c', recv malloc_ok RedisReplyInfo_new reads c0 = Ok ((true, later), c') ∧ reply c' = sinfo r.
Proof using malloc_always.
  destruct r as [r|l]; simpl.
  - intros Hok (chunks & later & -> & Hch & Hcat). destruct (recv_split malloc_ok r chunks later c0 malloc_always Hok Hch Hcat) as (c' & H & Hr). by exists later, c'.
  - intros [Hl Hsz] [later ->]. destruct (recv_lines malloc_ok malloc_always l later c0 Hl Hsz) as (c' & H & Hr). by exists later, c'.
Qed.

(** ** The pool *)

(** All connections are open and idle on the server; [out] is the one that is in use, with its
    socket and the state of its session. *)
Record pool_at p (out : option (Z * Z * option (list qcmd))) : Prop := {
  pa_tmp : m_tmpConnections p = [];
  pa_some : m_connections p ≠ [];
  pa_each c : c ∈ m_connections p → c ≠ 0 ∧ ∃ r fd, conns p !! c = Some r ∧ c_fd r = Some fd ∧
    (m_available r = true ∨ (λ o, o.1.1) <$> out = Some c) ∧ (sess (net p) !! fd = Some None ∨ (λ o, o.1.2) <$> out = Some fd);
  pa_out con fd st : out = Some (con, fd, st) → con ∈ m_connections p ∧ (∃ r, conns p !! con = Some r ∧ c_fd r = Some fd) ∧ sess (net p) !! fd = Some st;
}.

Lemma get_conn p : pool_at p None → ∃ con fd p', getAvailableConnection p = Ok (con, p') ∧ con ≠ 0 ∧ pool_at p' (Some (con, fd, None)) ∧ net p' = net p.
Proof using.
  intros Hp. destruct (m_connections p) as [|c cs] eqn:Ec; [by destruct (pa_some _ _ Hp)|].
  destruct (pa_each _ _ Hp c) as (Hc0 & r & fd & Hr & Hfd & Hav & Hs); [rewrite Ec; by left|]. simpl in Hav, Hs. destruct Hav as [Hav|]; [|done]. destruct Hs as [Hs|]; [|done].
  unfold getAvailableConnection. rewrite bind_get, (pa_tmp _ _ Hp). set (t := u32 (net_time (net p))). cbn [expire_tmp].
  set (p1 := set_tmp [] p). assert ((mret [] : M (pool NS) (list Z)) p = Ok ([], p)) as H0 by done. mstep H0. rewrite bind_modify. fold p1. rewrite Ec. cbn [take_available].
  assert (at_conn c p1 = Ok (r, p1)) as H1. { unfold at_conn. rewrite bind_get. cbn [conns p1 set_tmp]. unfold lift. by rewrite Hr. }
  set (r' := mkConnection (c_fd r) false t (m_canRelease r)). set (p2 := set_conns (<[c := r']> (conns p1)) p1).
  assert (put_conn c r' p1 = Ok (tt, p2)) as H2 by (unfold put_conn; by mstep H1).
  assert (take_available t (c :: cs) p1 = Ok (Some c, p2)) as H3. { cbn [take_available]. mstep H1. rewrite Hav. by mstep H2. }
  cbn [take_available] in H3. mstep H3. exists c, fd, p2. split; [done|]. split; [done|]. split; [|done]. split.
  - done.
  - cbn. by rewrite Ec.
  - intros c' Hc'. destruct (pa_each _ _ Hp c' Hc') as (Hc'0 & r2 & fd2 & Hr2 & Hfd2 & Hav2 & Hs2). split; [done|]. simpl in Hav2, Hs2. destruct (decide (c' = c)) as [->|Hne].
    + exists r', fd. cbn. rewrite lookup_insert_eq. split_and!; [done|done|by right|by left].
    + exists r2, fd2. cbn. rewrite lookup_insert_ne by done. destruct Hav2; [|done]. destruct Hs2; [|done]. split_and!; [done|done|by left|by left].
  - intros ? ? ? [= <- <- <-]. split; [cbn; rewrite Ec; by left|]. split; [|done]. exists r'. cbn. by rewrite lookup_insert_eq.
Qed.

Lemma release_conn p con fd : pool_at p (Some (con, fd, None)) → ∃ p', releaseConnection con p = Ok (tt, p') ∧ pool_at p' None ∧ net p' = net p.
Proof using.
  intros Hp. destruct (pa_out _ _ Hp con fd None eq_refl) as (Hin & (r & Hr & Hfd) & Hs). unfold releaseConnection. rewrite bind_get, bool_decide_true by done.
  assert (at_conn con p = Ok (r, p)) as H1 by (unfold at_conn; rewrite bind_get; unfold lift; by rewrite Hr). mstep H1.
  unfold put_conn. mstep H1. eexists. split; [done|]. split; [|done]. split; [apply Hp|apply Hp| |done]. intros c Hc. destruct (pa_each _ _ Hp c Hc) as (Hc0 & r2 & fd2 & Hr2 & Hfd2 & Hav2 & Hs2). split; [done|].
  simpl in Hav2, Hs2. assert (sess (net p) !! fd2 = Some None) as Hs2' by (destruct Hs2 as [?|[= ->]]; done). destruct (decide (c = con)) as [->|Hne].
  - eexists _, fd. cbn. rewrite lookup_insert_eq. split_and!; [done|done|by left|by left].
  - exists r2, fd2. cbn. rewrite lookup_insert_ne by done. destruct Hav2 as [?|[= ->]]; [|done]. split_and!; [done|done|by left|by left].
Qed.

(** The network changes under a connection in use. *)
Lemma pool_at_net p con fd st st' s' :
  pool_at p (Some (con, fd, st)) → sess s' = <[fd := st']> (sess (net p)) → pool_at (set_net s' p) (Some (con, fd, st')).
Proof using.
  intros Hp Hs. split; [apply Hp|apply Hp| |].
  - intros c Hc. destruct (pa_each _ _ Hp c Hc) as (Hc0 & r2 & fd2 & Hr2 & Hfd2 & Hav2 & Hs2). split; [done|]. exists r2, fd2. simpl in *. split_and!; [done|done|done|].
    rewrite Hs. destruct (decide (fd2 = fd)) as [->|Hne]; [by right|left]. rewrite lookup_insert_ne by done. by destruct Hs2 as [|[= ->]].
  - intros ? ? ? [= <- <- <-]. destruct (pa_out _ _ Hp con fd st eq_refl) as (Hin & Hr & Hst). split; [done|]. split; [done|]. simpl. by rewrite Hs, lookup_insert_eq.
Qed.

Lemma pool_at_same p con fd st s' : pool_at p (Some (con, fd, st)) → sess s' = sess (net p) → pool_at (set_net s' p) (Some (con, fd, st)).
Proof using.
  intros Hp Hs. apply (pool_at_net p con fd st); [done|]. rewrite insert_id; [done|]. by apply (pa_out _ _ Hp con fd st).
Qed.

Lemma do_conn p con fd st c room :
  pool_at p (Some (con, fd, st)) → Z.of_nat (length (cmd_bytes (rargs c))) ≤ room ≤ 2 ^ 23 →
  (∀ d' st' r, serves (sdb (net p)) st c d' st' r → sreply_ok r) →
  ∃ st' r p', GbPool.doRedisCommand malloc_ok con (para <$> rargs c) room RedisReplyInfo_new p = Ok ((true, sinfo r), p') ∧
    serves (sdb (net p)) st c (sdb (net p')) st' r ∧ pool_at p' (Some (con, fd, st')).
Proof using malloc_always.
  intros Hp Hroom Hok. destruct (pa_out _ _ Hp con fd st eq_refl) as (Hin & (r & Hr & Hfd) & Hst).
  assert (∀ s, at_conn con (set_net s p) = Ok (r, set_net s p)) as Hat by (intros s; unfold at_conn; rewrite bind_get; unfold lift; by simpl; rewrite Hr).
  assert (at_conn con p = Ok (r, p)) as Hat0 by (unfold at_conn; rewrite bind_get; unfold lift; by rewrite Hr).
  unfold GbPool.doRedisCommand. destruct (probe_law (net p) fd) as (s1 & Hpr & Hs1 & Hd1); [by rewrite Hst|].
  assert (checkConnectionStatus con p = Ok (tt, set_net s1 p)) as H1. { unfold checkConnectionStatus. mstep Hat0. rewrite Hfd, bind_get, Hpr. done. }
  mstep H1. mstep (Hat s1). rewrite Hfd. assert (∀ b, (mret b : M (pool NS) bool) (set_net s1 p) = Ok (b, set_net s1 p)) as Hret by done. mstep (Hret true). cbn [negb].
  assert (alloc malloc_ok room (set_net s1 p) = Ok (tt, set_net s1 p)) as Hal.
  { unfold alloc. rewrite malloc_always by lia. by rewrite (proj2 (Z.leb_le 0 _)) by lia. }
  mstep Hal. assert (createRedisCommand room (para <$> rargs c) = Ok (Some (cmd_bytes (rargs c)))) as Hcmd.
  { rewrite command_bytes. rewrite bool_decide_false by (by destruct c as [[]| | | | | |]). fold (cmd_bytes (rargs c)). by rewrite (proj2 (Z.ltb_ge _ _)) by lia. }
  rewrite (bind_lift _ _ _ _ Hcmd). cbn [default].
  destruct (write_law s1 fd st c) as (n & s2 & st' & rep & Hw & Hn & Hsv & Hs2 & Hdel); [by rewrite Hs1|lia|]. rewrite Hd1 in Hsv. rewrite Hs1 in Hs2.
  assert (send con (cmd_bytes (rargs c)) (set_net s1 p) = Ok (true, set_net s2 p)) as Hsend.
  { unfold send. mstep (Hat s1). rewrite Hfd, bind_get. cbn [net set_net]. rewrite Hw, bind_modify. rewrite (proj2 (Z.eqb_neq _ _)) by lia. done. }
  mstep Hsend. cbn [negb]. destruct (recv_sreply rep (net_reads fd s2) (mkConn [] REDIS_PARSE_UNKNOWN_STATE 0 0 0 false RedisReplyInfo_new)) as (later & c' & Hrecv & Hrep); [by eapply Hok|done|].
  destruct (rest_law s2 fd later) as [Hs3 Hd3]. set (p3 := set_net (net_rest fd later s2) p).
  assert (conn_recv malloc_ok con RedisReplyInfo_new (set_net s2 p) = Ok ((true, sinfo rep), p3)) as Hcr.
  { unfold conn_recv. mstep (Hat s2). rewrite bind_get, Hfd. cbn [net set_net]. rewrite (bind_lift _ _ _ _ Hrecv). cbn [fst snd]. rewrite bind_modify. cbn [mbind]. rewrite Hrep. done. }
  exists st', rep, p3. split; [done|]. split; [simpl; by rewrite Hd3|]. apply (pool_at_net p con fd st); [done|]. by rewrite Hs3.
Qed.

Lemma do_cluster p c room :
  pool_at p None → Z.of_nat (length (cmd_bytes (rargs c))) ≤ room ≤ 2 ^ 23 →
  (∀ d' st' r, serves (sdb (net p)) None c d' st' r → sreply_ok r ∧ st' = None) →
  ∃ r p', cluster_doRedisCommand malloc_ok (para <$> rargs c) room RedisReplyInfo_new p = Ok ((true, sinfo r), p') ∧
    serves (sdb (net p)) None c (sdb (net p')) None r ∧ pool_at p' None.
Proof using malloc_always.
  intros Hp Hroom Hok. destruct (get_conn p Hp) as (con & fd & p1 & H1 & Hcon & Hp1 & Hn1).
  destruct (do_conn p1 con fd None c room Hp1 Hroom) as (st' & r & p2 & H2 & Hsv & Hp2). { intros d' st' r Hs. rewrite Hn1 in Hs. by apply (Hok _ _ _ Hs). }
  rewrite Hn1 in Hsv. assert (st' = None) as -> by (by apply (Hok _ _ _ Hsv)). destruct (release_conn p2 con fd Hp2) as (p3 & H3 & Hp3 & Hn3).
  exists r, p3. split; [|by rewrite Hn3]. unfold cluster_doRedisCommand. mstep H1. rewrite (proj2 (Z.eqb_neq _ _)) by done. cbn [negb]. mstep H2. by mstep H3.
Qed.

Lemma do_one p con fd st c room :
  pool_at p (Some (con, fd, st)) → con ≠ 0 → Z.of_nat (length (cmd_bytes (rargs c))) ≤ room ≤ 2 ^ 23 →
  (∀ d' st' r, serves (sdb (net p)) st c d' st' r → sreply_ok r) →
  ∃ st' r p', doRedisCommandOneConnection malloc_ok (para <$> rargs c) room RedisReplyInfo_new false con p = Ok ((true, sinfo r, con), p') ∧
    serves (sdb (net p)) st c (sdb (net p')) st' r ∧ pool_at p' (Some (con, fd, st')).
Proof using malloc_always.
  intros Hp Hcon Hroom Hok. destruct (do_conn p con fd st c room Hp Hroom Hok) as (st' & r & p' & H & Hsv & Hp'). exists st', r, p'. split; [|done].
  unfold doRedisCommandOneConnection. rewrite (proj2 (Z.eqb_neq con 0)) by done. assert ((mret con : M (pool NS) Z) p = Ok (con, p)) as H0 by done. mstep H0.
  rewrite (proj2 (Z.eqb_neq con 0)) by done. cbn [negb]. unfold mbind at 1, M_bind at 1. mstep H. done.
Qed.

(** ** Making the pool *)

(** A pool that is being made: its connections are open, free and distinct. *)
Record making p : Prop := {
  mk_tmp : m_tmpConnections p = [];
  mk_next : 1 ≤ next_ptr p;
  mk_nodup : NoDup (m_connections p);
  mk_each c : c ∈ m_connections p → 1 ≤ c < next_ptr p ∧ ∃ r fd, conns p !! c = Some r ∧ c_fd r = Some fd ∧ m_available r = true ∧ sess (net p) !! fd = Some None;
}.

Lemma making_pool p : making p → m_connections p ≠ [] → pool_at p None.
Proof using.
  intros H Hne. split; [apply H|done| |done]. intros c Hc. destruct (mk_each _ H c Hc) as (Hc0 & r & fd & Hr & Hfd & Hav & Hs). split; [lia|]. exists r, fd. split_and!; [done|done|by left|by left].
Qed.

(** One more connection, open or not. *)
Lemma connect_new p :
  making p → ∃ ok p1 p', new_conn p = Ok (next_ptr p, p1) ∧ GbPool.connect (next_ptr p) p1 = Ok (ok, p') ∧
    sdb (net p') = sdb (net p) ∧ m_connections p' = m_connections p ∧ next_ptr p' = next_ptr p + 1 ∧ making p' ∧
    ∃ r, conns p' !! next_ptr p = Some r ∧ (ok = true → ∃ fd, c_fd r = Some fd ∧ sess (net p') !! fd = Some None).
Proof using.
  intros H. pose proof (connect_law (net p)) as Hcl. destruct (net_connect (net p)) as [o s'] eqn:Ec. set (p1 := mkPool (<[next_ptr p := RedisConnection_new]> (conns p)) (next_ptr p + 1) (m_connections p) (m_tmpConnections p) (net p)).
  set (p2 := set_net s' p1). set (p3 := set_conns (<[next_ptr p := set_fd o RedisConnection_new]> (conns p2)) p2). exists (bool_decide (is_Some o)), p1, p3.
  assert (at_conn (next_ptr p) p1 = Ok (RedisConnection_new, p1)) as Ha1 by (unfold at_conn; rewrite bind_get; unfold lift; cbn; by rewrite lookup_insert_eq).
  assert (at_conn (next_ptr p) p2 = Ok (RedisConnection_new, p2)) as Ha2 by (unfold at_conn; rewrite bind_get; unfold lift; cbn; by rewrite lookup_insert_eq).
  assert (sdb s' = sdb (net p)) as Hdb by (destruct o; apply Hcl). split; [done|]. split.
  { unfold GbPool.connect. mstep Ha1. rewrite bind_get. change (net p1) with (net p). rewrite Ec, bind_modify. fold p2. assert (put_conn (next_ptr p) (set_fd o RedisConnection_new) p2 = Ok (tt, p3)) as Hpu by (unfold put_conn; by mstep Ha2). by mstep Hpu. }
  split; [done|]. split; [done|]. split; [done|].
  assert (∀ c', c' ≠ next_ptr p → conns p3 !! c' = conns p !! c') as Hother by (intros c' Hc'; cbn; by rewrite !lookup_insert_ne by done). split.
  - split; [apply H|cbn; pose proof (mk_next _ H); lia|apply H|]. intros c Hc. destruct (mk_each _ H c Hc) as (Hc0 & r & fd & Hr & Hfd & Hav & Hs). split; [cbn; lia|]. exists r, fd. rewrite Hother by lia. split_and!; [done|done|done|].
    change (net p3) with s'. destruct o as [fd'|]; destruct Hcl as [-> _]; [|done]. destruct (decide (fd = fd')) as [->|Hne]; [by rewrite lookup_insert_eq|by rewrite lookup_insert_ne].
  - exists (set_fd o RedisConnection_new). split; [apply lookup_insert_eq|]. intros Ho. destruct o as [fd|]; [|done]. exists fd. split; [done|]. change (net p3) with s'. destruct Hcl as [-> _]. apply lookup_insert_eq.
Qed.

Lemma at_conn_ok p c r : conns p !! c = Some r → at_conn c p = Ok (r, p).
Proof using. intros Hr. unfold at_conn. rewrite bind_get. unfold lift. by rewrite Hr. Qed.

Lemma init_loop_ok n p :
  making p → ∃ b p', init_loop n p = Ok (b, p') ∧ sdb (net p') = sdb (net p) ∧ making p' ∧ (b = true → length (m_connections p') = (length (m_connections p) + n)%nat).
Proof using.
  revert p. induction n as [|n IH]; intros p H; [exists true, p; split_and!; [done|done|done|lia]|].
  destruct (connect_new p H) as (ok & p1 & p2 & H1 & H2 & Hd & Hc & Hn & H3 & r & Hr & Hfd). cbn [init_loop]. mstep H1. mstep H2. pose proof (at_conn_ok _ _ _ Hr) as Ha. destruct ok; cbn [negb].
  - destruct (Hfd eq_refl) as (fd & Hf & Hs). set (r' := mkConnection (c_fd r) true 0 (m_canRelease r)). set (p3 := set_conns (<[next_ptr p := r']> (conns p2)) p2). assert (put_conn (next_ptr p) r' p2 = Ok (tt, p3)) as Hpu by (unfold put_conn; by mstep Ha).
    mstep Ha. mstep Hpu. rewrite bind_modify. set (p4 := set_connections (m_connections p3 ++ [next_ptr p]) p3). assert (making p4) as H4.
    { pose proof (mk_next _ H) as Hnx. split; [apply H3|apply H3| |].
      - cbn. rewrite Hc. apply NoDup_app. split; [apply H|]. split; [|apply NoDup_singleton]. intros c Hin Hin'%list_elem_of_singleton. subst c. destruct (mk_each _ H _ Hin). lia.
      - intros c Hin. cbn in Hin. rewrite Hc in Hin. apply elem_of_app in Hin as [Hin|Hin%list_elem_of_singleton].
        + destruct (mk_each _ H c Hin) as (Hlt & _). destruct (mk_each _ H3 c) as (Hlt2 & r2 & fd2 & Hr2 & Hx); [by rewrite Hc|]. split; [done|]. exists r2, fd2. split; [|done]. cbn. rewrite lookup_insert_ne by lia. done.
        + subst c. split; [cbn; lia|]. exists r', fd. cbn. rewrite lookup_insert_eq. done. }
    destruct (IH p4 H4) as (b & p5 & H5 & Hd5 & H6 & Hl). exists b, p5. split; [done|]. split; [by rewrite Hd5|]. split; [done|]. intros Hb. rewrite (Hl Hb). cbn. rewrite Hc, length_app. simpl. lia.
  - set (p3 := set_conns (delete (next_ptr p) (conns p2)) p2). assert (delete_conn (next_ptr p) p2 = Ok (tt, p3)) as Hde by (unfold delete_conn; by mstep Ha). mstep Hde.
    exists false, p3. split_and!; [done|done| |done]. split; [apply H3|apply H3|apply H3|]. intros c Hin. cbn in Hin. rewrite Hc in Hin. destruct (mk_each _ H c Hin) as (Hlt & _).
    destruct (mk_each _ H3 c) as (Hlt2 & r2 & fd2 & Hr2 & Hx); [by rewrite Hc|]. split; [done|]. exists r2, fd2. split; [|done]. cbn. rewrite lookup_delete_ne by lia. done.
Qed.

Lemma delete_all_ok l p : NoDup l → (∀ c, c ∈ l → is_Some (conns p !! c)) → ∃ p', delete_all l p = Ok (tt, p') ∧ net p' = net p.
Proof using.
  intros Hl. revert p. induction Hl as [|c l Hc _ IH]; intros p Hin; [by exists p|]. destruct (Hin c) as [r Hr]; [left|]. pose proof (at_conn_ok _ _ _ Hr) as Ha. set (p1 := set_conns (delete c (conns p)) p).
  assert (delete_conn c p = Ok (tt, p1)) as Hde by (unfold delete_conn; by mstep Ha). destruct (IH p1) as (p' & H' & Hn). { intros c' Hc'. cbn. rewrite lookup_delete_ne by (intros <-; done). apply Hin. by right. }
  exists p'. split; [cbn; by mstep Hde|done].
Qed.

Lemma init_pool_ok n s :
  ∃ b p, initConnectPool n (mkPool ∅ 1 [] [] s) = Ok (b, p) ∧ sdb (net p) = sdb s ∧ (b = true → 0 < n → pool_at p None ∧ Z.of_nat (length (m_connections p)) = n).
Proof using.
  assert (making (mkPool ∅ 1 [] [] s)) as H0. { split; [done|done|apply NoDup_nil_2|]. by intros c Hc%elem_of_nil. }
  destruct (init_loop_ok (Z.to_nat n) _ H0) as (b & p & H1 & Hd & Hp & Hl). unfold initConnectPool. mstep H1. destruct b.
  - exists true, p. split; [done|]. split; [done|]. intros _ Hn. specialize (Hl eq_refl). cbn in Hl. split; [|lia]. apply making_pool; [done|]. intros E. rewrite E in Hl. simpl in Hl. lia.
  - rewrite bind_get. destruct (delete_all_ok (m_connections p) p (mk_nodup _ Hp)) as (p' & H2 & Hn). { intros c Hc. destruct (mk_each _ Hp c Hc) as (_ & r & fd & Hr & _). by exists r. }
    mstep H2. exists false, p'. split; [done|]. split; [by rewrite Hn|done].
Qed.

(** ** The client *)

Definition kdb k : rdb := match proxy k with Some p => sdb (net p) | None => ∅ end.
Definition k_at k (out : option (Z * Z * option (list qcmd))) : Prop :=
  m_redisMode k = STAND_ALONE_OR_PROXY_MODE ∧ ∃ p, proxy k = Some p ∧ pool_at p out.

Context (other_mode : ∀ A (_ : DBSerialize A), list Z → Z → list RedisCmdParaInfo → RedisCommandType → outputs A → M (client NS) (bool * outputs A)).

Lemma fill_para v n l k : n = Z.of_nat (length v) → Z.of_nat (length v) ≤ 2 ^ 23 → fillCommandPara malloc_ok v n l k = Ok (l ++ [para v], k).
Proof using malloc_always.
  intros -> Hv. unfold fillCommandPara. assert (alloc malloc_ok (Z.of_nat (length v) + 1) k = Ok (tt, k)) as Hal.
  { unfold alloc. rewrite malloc_always by lia. by rewrite (proj2 (Z.leb_le 0 _)) by lia. }
  mstep Hal. rewrite (proj2 (Z.ltb_ge _ _)) by lia. by rewrite Nat2Z.id, take_app_length.
Qed.

Lemma fill_ok v l k : Z.of_nat (length v) ≤ 2 ^ 23 → fill malloc_ok v l k = Ok (l ++ [para v], k).
Proof using malloc_always. intros Hv. unfold fill. rewrite wraps_small by lia. by apply fill_para. Qed.

Lemma run_api {A} `{!DBSerialize A} c room type (out : outputs A) key k :
  k_at k None → Z.of_nat (length (cmd_bytes (rargs c))) ≤ room ≤ 2 ^ 23 →
  (∀ d' st' r, serves (kdb k) None c d' st' r → sreply_ok r ∧ st' = None) →
  ∃ r k', k_at k' None ∧ serves (kdb k) None c (kdb k') None r ∧
    GbClient.doRedisCommand malloc_ok other_mode key room (para <$> rargs c) type out k =
      match ParseRedisReplyForStandAloneAndMasterMode STAND_ALONE_OR_PROXY_MODE (sinfo r) type out with Ok x => Ok (x, k') | Err e => Err e end.
Proof using malloc_always.
  intros [Hm (p & Hk & Hp)] Hroom Hok. unfold kdb in *. rewrite Hk in *. destruct (do_cluster p c room Hp Hroom Hok) as (r & p' & H & Hsv & Hp').
  exists r, (mkClient STAND_ALONE_OR_PROXY_MODE (Some p')). split; [split; [done|by exists p']|]. split; [done|].
  unfold GbClient.doRedisCommand. rewrite bind_get, Hm. unfold doRedisCommandStandAlone. rewrite bind_get, Hk. rewrite bool_decide_false by done.
  assert (on_pool (cluster_doRedisCommand malloc_ok (para <$> rargs c) room RedisReplyInfo_new) k = Ok ((true, sinfo r), mkClient STAND_ALONE_OR_PROXY_MODE (Some p'))) as Hon.
  { unfold on_pool. rewrite bind_get, Hk. rewrite (bind_lift _ _ _ p) by done. rewrite (bind_lift _ _ _ _ H). by rewrite Hm. }
  mstep Hon. cbn [negb]. rewrite Hm. unfold lift. by case_match.
Qed.

Lemma run_tx c room type k con fd st :
  k_at k (Some (con, fd, st)) → con ≠ 0 → Z.of_nat (length (cmd_bytes (rargs c))) ≤ room ≤ 2 ^ 23 →
  (∀ d' st' r, serves (kdb k) st c d' st' r → sreply_ok r) →
  ∃ st' r k', k_at k' (Some (con, fd, st')) ∧ serves (kdb k) st c (kdb k') st' r ∧
    doTransactionCommandInConnection malloc_ok room (para <$> rargs c) type con k =
      match (match type with
             | REDIS_COMMAND_SET | REDIS_COMMAND_DEL | REDIS_COMMAND_SADD | REDIS_COMMAND_SREM => Ok (parseQueuedResponseReply (sinfo r))
             | REDIS_COMMAND_WATCH | REDIS_COMMAND_UNWATCH | REDIS_COMMAND_MULTI | REDIS_COMMAND_DISCARD => Ok (parseStatusResponseReply STAND_ALONE_OR_PROXY_MODE (sinfo r))
             | REDIS_COMMAND_EXEC => parseExecReply (sinfo r)
             | _ => Ok false end) with Ok x => Ok (x, k') | Err e => Err e end.
Proof using malloc_always.
  intros [Hm (p & Hk & Hp)] Hcon Hroom Hok. unfold kdb in *. rewrite Hk in *. destruct (do_one p con fd st c room Hp Hcon Hroom Hok) as (st' & r & p' & H & Hsv & Hp').
  exists st', r, (mkClient STAND_ALONE_OR_PROXY_MODE (Some p')). split; [split; [done|by exists p']|]. split; [done|].
  unfold doTransactionCommandInConnection. rewrite bind_get, Hk. rewrite bool_decide_false by done.
  assert (on_pool (doRedisCommandOneConnection malloc_ok (para <$> rargs c) room RedisReplyInfo_new false con) k = Ok ((true, sinfo r, con), mkClient STAND_ALONE_OR_PROXY_MODE (Some p'))) as Hon.
  { unfold on_pool. rewrite bind_get, Hk. rewrite (bind_lift _ _ _ p) by done. rewrite (bind_lift _ _ _ _ H). by rewrite Hm. }
  mstep Hon. cbn [negb]. rewrite Hm. unfold lift. by destruct type; try case_match.
Qed.

(** ** The replies fit *)

Definition q_reply (r : rvalue) : Prop := r = RStatus (lit "OK") ∨ r = RError WRONGTYPE ∨ ∃ b, r = num b.

Lemma q_run_reply d c : q_reply (q_run d c).2.
Proof using. unfold q_reply. destruct c; simpl; repeat case_match; simpl; eauto. Qed.

Lemma line_ok_dec s : bool_decide (Forall (λ b, b ≠ 0 ∧ b ≠ 13) s) && (length s <? 4096)%nat = true → line_ok s.
Proof using. intros [H1 H2]%andb_true_iff. apply bool_decide_eq_true in H1. apply Nat.ltb_lt in H2. done. Qed.

Lemma status_ok s : line_ok s → (length s ≤ 4096)%nat → reply_ok (RStatus s).
Proof using. intros Hs Hl. split; [done|]. cbn [encode length]. rewrite length_app. cbn [length CRLF]. lia. Qed.

Lemma q_reply_ok r : q_reply r → reply_ok r.
Proof using.
  intros [->|[->|[b ->]]].
  - apply status_ok; [by apply line_ok_dec|by vm_compute; lia].
  - split; [by apply line_ok_dec|by vm_compute].
  - destruct b; (split; [cbn [num]; unfold int_ok; lia|by vm_compute]).
Qed.

Lemma queued_ok : reply_ok (RStatus (lit "QUEUED")).
Proof using. apply status_ok; [by apply line_ok_dec|by vm_compute; lia]. Qed.
Lemma ok_ok : reply_ok (RStatus (lit "OK")).
Proof using. apply status_ok; [by apply line_ok_dec|by vm_compute; lia]. Qed.
Lemma wrong_ok : reply_ok (RError WRONGTYPE).
Proof using. apply q_reply_ok. right. by left. Qed.

Lemma bulk_ok v : short v → reply_ok (RBulk (Some v)).
Proof using. intros Hv. split; [done|]. cbn [encode]. pose proof (bulk_any v). unfold short in Hv. lia. Qed.

Lemma members_ok s l : listable s → l ≡ₚ elements s → reply_ok (RArray (Some <$> l)).
Proof using.
  intros [Hl _] Hp. split; [done|]. cbn [encode length]. rewrite !length_app, length_fmap. cbn [length CRLF]. destruct (ToString_line (Z.of_nat (length l))) as [_ Ht].
  assert (length (bulks (Some <$> l)) ≤ sum_list_with (λ m, length m + 17) l)%nat as Hb.
  { clear. unfold bulks. induction l as [|x l IH]; [done|]. rewrite !fmap_cons. cbn [concat sum_list_with]. rewrite length_app. pose proof (bulk_any x). lia. }
  unfold listing in Hl. rewrite <-Hp in Hl. lia.
Qed.

Lemma q_runs_replies d q : Forall q_reply (q_runs d q).2 ∧ length (q_runs d q).2 = length q.
Proof using.
  revert d. induction q as [|c q IH]; intros d; simpl; [done|]. pose proof (q_run_reply d c) as Hr. destruct (q_run d c) as [d1 r1]. specialize (IH d1). destruct (q_runs d1 q) as [d2 rs].
  simpl in *. destruct IH as [IH1 IH2]. split; [by constructor|]. by rewrite IH2.
Qed.

Lemma line_of_ok r : q_reply r → exec_line (line_of r) ∧ (length (line_of r) ≤ 80)%nat.
Proof using.
  intros [->|[->|[b ->]]]; [| |destruct b]; (split; [split; [by apply line_ok_dec|by eexists _, _]|vm_compute; lia]).
Qed.

Lemma exec_reply_ok d q : (length q ≤ 10)%nat → sreply_ok (SLines (line_of <$> (q_runs d q).2)).
Proof using.
  intros Hq. destruct (q_runs_replies d q) as [Hr Hl]. cbn [sreply_ok]. split.
  - apply Forall_fmap. eapply Forall_impl; [exact Hr|]. intros r H. by apply line_of_ok.
  - unfold lines_reply. cbn [length]. rewrite !length_app. cbn [length CRLF]. destruct (ToString_line (Z.of_nat (length (line_of <$> (q_runs d q).2)))) as [_ Ht].
    assert (length (lines (line_of <$> (q_runs d q).2)) ≤ 82 * length (q_runs d q).2)%nat as Hb; [|lia].
    clear -Hr. unfold lines. induction Hr as [|r rs H _ IH]; [done|]. rewrite !fmap_cons. cbn [concat length]. rewrite !length_app. destruct (line_of_ok r H) as [_ H80]. cbn [length CRLF]. lia.
Qed.

Lemma exec_parse rs : Forall q_reply rs → exec_elements (line_info <$> (line_of <$> rs)) = Ok (exec_ok rs).
Proof using.
  induction 1 as [|r rs H _ IH]; [done|]. rewrite !fmap_cons. destruct H as [->|[->|[b ->]]].
  - exact IH.
  - done.
  - destruct b; [exact IH|done].
Qed.

(** ** The laws *)

Lemma size1 n : (length n ≤ 9)%nat → (length (cmd_bytes [n]) ≤ 10 + length n)%nat.
Proof using.
  intros Hn. pose proof (cmd_bytes_length [n] ltac:(simpl; lia)) as H. unfold bulks in H. cbn [fmap list_fmap concat] in H. rewrite app_nil_r in H. pose proof (bulk_name n Hn). lia.
Qed.
Lemma size2 n v : (length n ≤ 9)%nat → short v → (length (cmd_bytes [n; v]) ≤ 22 + length n + length v)%nat.
Proof using.
  intros Hn Hv. pose proof (cmd_bytes_length [n; v] ltac:(simpl; lia)) as H. unfold bulks in H. cbn [fmap list_fmap concat] in H. rewrite app_nil_r, length_app in H.
  pose proof (bulk_name n Hn). pose proof (bulk_short v Hv). lia.
Qed.
Lemma size3 n v u : (length n ≤ 9)%nat → short v → short u → (length (cmd_bytes [n; v; u]) ≤ 34 + length n + length v + length u)%nat.
Proof using.
  intros Hn Hv Hu. pose proof (cmd_bytes_length [n; v; u] ltac:(simpl; lia)) as H. unfold bulks in H. cbn [fmap list_fmap concat] in H. rewrite app_nil_r, !length_app in H.
  pose proof (bulk_name n Hn). pose proof (bulk_short v Hv). pose proof (bulk_short u Hu). lia.
Qed.

(** Fill in the parameters of a command. *)
Ltac fills :=
  repeat match goal with
  | |- context [(fillCommandPara malloc_ok ?v ?n ?l ≫= _) ?k] => mstep (fill_para v n l k ltac:(reflexivity) ltac:(vm_compute; congruence))
  | Hv : short ?v |- context [(fill malloc_ok ?v ?l ≫= _) ?k] => mstep (fill_ok v l k ltac:(unfold short in Hv; lia))
  | |- context [(fill malloc_ok ?v ?l ≫= _) ?k] => mstep (fill_ok v l k ltac:(vm_compute; congruence))
  end.

(** The size of a command's buffer. *)
Ltac room :=
  cbn [rargs q_args];
  first
  [ match goal with |- Z.of_nat (length (cmd_bytes [?n; ?v; ?u])) ≤ _ ≤ _ =>
      let H := fresh in pose proof (size3 n v u ltac:(vm_compute; lia) ltac:(assumption) ltac:(assumption)) as H; let l := eval vm_compute in (length n) in change (length n) with l in H end
  | match goal with |- Z.of_nat (length (cmd_bytes [?n; ?v])) ≤ _ ≤ _ =>
      let H := fresh in pose proof (size2 n v ltac:(vm_compute; lia) ltac:(assumption)) as H; let l := eval vm_compute in (length n) in change (length n) with l in H end
  | match goal with |- Z.of_nat (length (cmd_bytes [?n])) ≤ _ ≤ _ =>
      let H := fresh in pose proof (size1 n ltac:(vm_compute; lia)) as H; let l := eval vm_compute in (length n) in change (length n) with l in H end ];
  unfold short, len in *;
  repeat match goal with |- context [Z.of_nat (length (lit ?n))] => let l := eval vm_compute in (Z.of_nat (length (lit n))) in change (Z.of_nat (length (lit n))) with l end;
  try rewrite wraps_small by lia; lia.

(** Run the command [c]. *)
Ltac use_api c :=
  unfold do_plain, do_count, do_members;
  match goal with
  | Hk : k_at ?k None |- context [GbClient.doRedisCommand malloc_ok other_mode ?key ?rm ?l ?type ?out] =>
      change l with (para <$> rargs c);
      let r := fresh "r" in let k' := fresh "k'" in let Hk' := fresh "Hk'" in let Hsv := fresh "Hsv" in let Hrun := fresh "Hrun" in
      destruct (run_api c rm type out key k Hk) as (r & k' & Hk' & Hsv & Hrun); [room| |exists k'; unfold mbind, M_bind; rewrite Hrun; clear Hrun]
  end.

Lemma del_law k key :
  k_at k None → short key →
  ∃ k', del malloc_ok other_mode key k = Ok (q_ok (QDel key) (q_run (kdb k) (QDel key)).2, k') ∧ k_at k' None ∧ kdb k' = delete key (kdb k).
Proof using malloc_always.
  intros Hk Hs. unfold del. fills. use_api (CQ (QDel key)).
  - intros d' st' r (-> & -> & ->). split; [apply q_reply_ok, q_run_reply|done].
  - destruct Hsv as (Hd & _ & ->). split; [|done]. cbn [q_run snd sinfo]. unfold num. by case_bool_decide.
Qed.

Lemma sadd_law k key m :
  k_at k None → short key → short m →
  ∃ k', sadd malloc_ok other_mode key m k = Ok (q_ok (QSadd key m) (q_run (kdb k) (QSadd key m)).2, k') ∧ k_at k' None ∧ kdb k' = (q_run (kdb k) (QSadd key m)).1.
Proof using malloc_always.
  intros Hk Hs Hm. unfold sadd. fills. use_api (CQ (QSadd key m)).
  - intros d' st' r (-> & -> & ->). split; [apply q_reply_ok, q_run_reply|done].
  - destruct Hsv as (Hd & _ & ->). split; [|done]. cbn [q_run]. by destruct (kdb k !! key) as [[]|].
Qed.

Lemma srem_law k key m :
  k_at k None → short key → short m →
  ∃ k', srem malloc_ok other_mode key m k = Ok (q_ok (QSrem key m) (q_run (kdb k) (QSrem key m)).2, k') ∧ k_at k' None ∧ kdb k' = (q_run (kdb k) (QSrem key m)).1.
Proof using malloc_always.
  intros Hk Hs Hm. unfold srem. fills. use_api (CQ (QSrem key m)).
  - intros d' st' r (-> & -> & ->). split; [apply q_reply_ok, q_run_reply|done].
  - destruct Hsv as (Hd & _ & ->). split; [|done]. cbn [q_run]. by destruct (kdb k !! key) as [[]|].
Qed.

Lemma serialize_ok {A} `{!DBSerialize A, !Stored A} (a : A) k : storable a → short (enc a) → serialize new_ok a k = Ok (enc a, k).
Proof using new_always.
  intros Ha Hs. unfold short in Hs. destruct (new_stream new_ok new_always) as (o & Hnew & Ho). destruct (save_enc new_ok a o [] new_always Ha Ho) as (o' & Hrun & Ho'); [simpl; lia|].
  unfold serialize. rewrite (bind_lift _ _ _ _ Hnew), (bind_lift _ _ _ _ Hrun). unfold getSize. rewrite (os_cursor _ _ Ho'), Nat2Z.id. simpl in *. by rewrite (os_bytes _ _ Ho').
Qed.

Lemma set_law {A} `{!DBSerialize A, !Stored A} k key (a : A) :
  k_at k None → storable a → q_short (QSet key (enc a)) →
  ∃ k', setSerial malloc_ok new_ok other_mode key a k = Ok (true, k') ∧ k_at k' None ∧ kdb k' = <[key := RStr (enc a)]> (kdb k).
Proof using malloc_always new_always.
  intros Hk Ha [Hs Hv]. unfold setSerial. fills. mstep (serialize_ok a k Ha Hv). fills. use_api (CQ (QSet key (enc a))).
  - intros d' st' r (-> & -> & ->). split; [apply q_reply_ok, q_run_reply|done].
  - destruct Hsv as (Hd & _ & ->). done.
Qed.

Lemma get_law {A} `{!DBSerialize A} k key v (old a : A) i :
  k_at k None → short key → short v → kdb k !! key = Some (RStr v) → ser_load old (DBInStream_new (v ++ [0]) (Z.of_nat (length v))) = Ok (a, i) →
  ∃ k', getSerial malloc_ok other_mode key old k = Ok ((m_loadError i =? 0, a), k') ∧ k_at k' None ∧ kdb k' = kdb k.
Proof using malloc_always.
  intros Hk Hs Hv Hkey Hload. unfold getSerial. fills. use_api (CGet key).
  - intros d' st' r (-> & -> & ->). rewrite Hkey. split; [by apply bulk_ok|done].
  - destruct Hsv as (Hd & _ & ->). split; [|done]. rewrite Hkey. cbn [ParseRedisReplyForStandAloneAndMasterMode o_serial deref]. unfold parseGetSerialReply. cbn -[DBInStream_new ser_load app].
    unfold mbind, result_bind. by rewrite Hload.
Qed.

Lemma get_none_law {A} `{!DBSerialize A} k key (old : A) :
  k_at k None → short key → kdb k !! key = None → ∃ k', getSerial malloc_ok other_mode key old k = Ok ((false, old), k') ∧ k_at k' None ∧ kdb k' = kdb k.
Proof using malloc_always.
  intros Hk Hs Hkey. unfold getSerial. fills. use_api (CGet key).
  - intros d' st' r (-> & -> & ->). rewrite Hkey. split; [split; [done|by vm_compute]|done].
  - destruct Hsv as (Hd & _ & ->). split; [|done]. by rewrite Hkey.
Qed.

Lemma scard_law k key s :
  k_at k None → short key → set_at (kdb k) key s → Z.of_nat (size s) < 2 ^ 31 →
  ∃ k', scard malloc_ok other_mode key k = Ok (Z.of_nat (size s), k') ∧ k_at k' None ∧ kdb k' = kdb k.
Proof using malloc_always.
  intros Hk Hs Hset Hsz. unfold scard. fills. use_api (CScard key).
  - intros d' st' r (-> & -> & Hr). rewrite (Hr s Hset). split; [|done]. split; [unfold int_ok; lia|]. cbn [encode length]. rewrite !length_app. destruct (ToString_line (Z.of_nat (size s))). cbn [length CRLF]. lia.
  - destruct Hsv as (Hd & _ & Hr). rewrite (Hr s Hset). done.
Qed.

Lemma sismember_law k key m s :
  k_at k None → short key → short m → set_at (kdb k) key s →
  ∃ k', sismember malloc_ok other_mode key m k = Ok (bool_decide (m ∈ s), k') ∧ k_at k' None ∧ kdb k' = kdb k.
Proof using malloc_always.
  intros Hk Hs Hm Hset. unfold sismember. fills. use_api (CSismember key m).
  - intros d' st' r (-> & -> & Hr). rewrite (Hr s Hset). split; [|done]. apply q_reply_ok. right. right. by eexists.
  - destruct Hsv as (Hd & _ & Hr). rewrite (Hr s Hset). split; [|done]. unfold num. by case_bool_decide.
Qed.

Lemma string_elements_bulk l : Forall text l → string_elements (bulk_info <$> (Some <$> l)) = Ok l.
Proof using. induction 1 as [|s l Hs _ IH]; [done|]. rewrite !fmap_cons. cbn [string_elements bulk_info ai_type arrayValue]. rewrite bool_decide_true by done. unfold mbind, result_bind, deref. rewrite IH. by rewrite c_str_id. Qed.

Lemma smembers_law k key s :
  k_at k None → short key → set_at (kdb k) key s → listable s →
  ∃ l k', smembers malloc_ok other_mode key [] k = Ok ((true, l), k') ∧ l ≡ₚ elements s ∧ k_at k' None ∧ kdb k' = kdb k.
Proof using malloc_always.
  intros Hk Hs Hset Hl. cut (∃ k' l, smembers malloc_ok other_mode key [] k = Ok ((true, l), k') ∧ l ≡ₚ elements s ∧ k_at k' None ∧ kdb k' = kdb k); [naive_solver|].
  unfold smembers. fills. use_api (CSmembers key).
  - intros d' st' r (-> & -> & Hr & _). destruct (Hr s Hset) as (l & Hp & ->). split; [by apply (members_ok s)|done].
  - destruct Hsv as (Hd & _ & Hr & _). destruct (Hr s Hset) as (l & Hp & ->). exists l. split; [|done]. cbn [ParseRedisReplyForStandAloneAndMasterMode]. unfold parseGetKeysReply. cbn [sinfo info replyType arrayList].
    rewrite bool_decide_false, bool_decide_true by done. cbn [negb]. rewrite string_elements_bulk; [done|]. apply Forall_forall. intros x Hx. apply (proj2 Hl). rewrite Hp in Hx. by apply elem_of_elements in Hx.
Qed.

Lemma smembers_str_law k key v :
  k_at k None → short key → kdb k !! key = Some (RStr v) → ∃ k', smembers malloc_ok other_mode key [] k = Ok ((true, []), k') ∧ k_at k' None ∧ kdb k' = kdb k.
Proof using malloc_always.
  intros Hk Hs Hkey. unfold smembers. fills. use_api (CSmembers key).
  - intros d' st' r (-> & -> & _ & Hr). rewrite (Hr v Hkey). split; [apply wrong_ok|done].
  - destruct Hsv as (Hd & _ & _ & Hr). by rewrite (Hr v Hkey).
Qed.

(** ** Transactions *)

Definition k_held k (con : Z) : Prop := con ≠ 0 ∧ ∃ fd, k_at k (Some (con, fd, None)).
Definition k_queued k (con : Z) (q : list qcmd) : Prop := con ≠ 0 ∧ ∃ fd, k_at k (Some (con, fd, Some q)).

Lemma standalone_ok k out : k_at k out → standalone k = Ok (true, k).
Proof using. intros [Hm _]. unfold standalone. rewrite bind_get, Hm. done. Qed.

Lemma on_pool_ok {A} (m : M (pool NS) A) k p a p' : proxy k = Some p → m p = Ok (a, p') → on_pool m k = Ok (a, mkClient (m_redisMode k) (Some p')).
Proof using. intros Hk Hm. unfold on_pool. rewrite bind_get, Hk. rewrite (bind_lift _ _ _ p) by done. by rewrite (bind_lift _ _ _ _ Hm). Qed.

Lemma prepare_law k : k_at k None → ∃ con k', PrepareTransaction 0 k = Ok ((true, con), k') ∧ con ≠ 0 ∧ k_held k' con ∧ kdb k' = kdb k.
Proof using.
  intros Hk. pose proof Hk as [Hm (p & Hp & Hat)]. destruct (get_conn p Hat) as (con & fd & p1 & H1 & Hcon & Hp1 & Hn1). unfold PrepareTransaction. mstep (standalone_ok _ _ Hk). cbn [negb].
  mstep (on_pool_ok _ k p con p1 Hp H1). rewrite (proj2 (Z.eqb_neq _ _)) by done.
  destruct (pa_out _ _ Hp1 con fd None eq_refl) as (Hin & (r & Hr & Hfd) & Hs). set (r' := mkConnection (c_fd r) (m_available r) (m_connectTime r) false). set (p2 := set_conns (<[con := r']> (conns p1)) p1).
  assert (at_conn con p1 = Ok (r, p1)) as Hac by (unfold at_conn; rewrite bind_get; unfold lift; by rewrite Hr).
  assert (SetCanRelease con false p1 = Ok (tt, p2)) as H2 by (unfold SetCanRelease; mstep Hac; unfold put_conn; by mstep Hac).
  mstep (on_pool_ok (SetCanRelease con false) (mkClient (m_redisMode k) (Some p1)) p1 tt p2 eq_refl H2).
  exists con, (mkClient (m_redisMode k) (Some p2)). split; [done|]. split; [done|]. split; [|unfold kdb; rewrite Hp; cbn [proxy]; change (net p2) with (net p1); by rewrite Hn1].
  split; [done|]. exists fd. split; [done|]. exists p2. split; [done|]. split; [apply Hp1|apply Hp1| |].
  - intros c Hc. destruct (pa_each _ _ Hp1 c Hc) as (Hc0 & r2 & fd2 & Hr2 & Hfd2 & Hav2 & Hs2). split; [done|]. destruct (decide (c = con)) as [->|Hne].
    + exists r', fd. cbn. rewrite lookup_insert_eq. split_and!; [done|done|by right|by right].
    + exists r2, fd2. cbn. rewrite lookup_insert_ne by done. by split_and!.
  - intros ? ? ? [= <- <- <-]. split; [done|]. split; [|done]. exists r'. cbn. by rewrite lookup_insert_eq.
Qed.

Lemma finish_law k con : k_held k con → ∃ r k', FinishTransaction con k = Ok (r, k') ∧ k_at k' None ∧ kdb k' = kdb k.
Proof using.
  intros [Hcon (fd & Hk)]. pose proof Hk as [Hm (p & Hp & Hat)]. destruct (release_conn p con fd Hat) as (p' & H & Hp' & Hn). unfold FinishTransaction. mstep (standalone_ok _ _ Hk). cbn [negb].
  rewrite (proj2 (Z.eqb_neq _ _)) by done. mstep (on_pool_ok _ k p tt p' Hp H). eexists _, _. split; [done|]. split; [split; [done|by exists p']|]. unfold kdb. rewrite Hp. simpl. by rewrite Hn.
Qed.

(** Run the command [c] of the transaction. *)
Ltac use_tx c :=
  match goal with
  | Hk : k_at ?k (Some (?con, ?fd, ?st)), Hcon : ?con ≠ 0 |- context [doTransactionCommandInConnection malloc_ok ?rm ?l ?type ?con ?k] =>
      change l with (para <$> rargs c);
      let st' := fresh "st" in let r := fresh "r" in let k' := fresh "k'" in let Hk' := fresh "Hk'" in let Hsv := fresh "Hsv" in let Hrun := fresh "Hrun" in
      destruct (run_tx c rm type k con fd st Hk Hcon) as (st' & r & k' & Hk' & Hsv & Hrun); [room| |exists k'; rewrite Hrun; clear Hrun]
  end.

Lemma start_law k con : k_held k con → ∃ k', StartTransaction malloc_ok con k = Ok (true, k') ∧ k_queued k' con [] ∧ kdb k' = kdb k.
Proof using malloc_always.
  intros [Hcon (fd & Hk)]. unfold StartTransaction. mstep (standalone_ok _ _ Hk). cbn [negb]. fills. use_tx CMulti.
  - intros d' st' r (-> & -> & ->). apply ok_ok.
  - destruct Hsv as (Hd & -> & ->). split; [done|]. split; [|done]. split; [done|]. by exists fd.
Qed.

Lemma queued_step k con q c room type :
  k_queued k con q → Z.of_nat (length (cmd_bytes (q_args c))) ≤ room ≤ 2 ^ 23 → type ∈ [REDIS_COMMAND_SET; REDIS_COMMAND_DEL; REDIS_COMMAND_SADD; REDIS_COMMAND_SREM] →
  ∃ k', doTransactionCommandInConnection malloc_ok room (para <$> rargs (CQ c)) type con k = Ok (true, k') ∧ k_queued k' con (q ++ [c]) ∧ kdb k' = kdb k.
Proof using malloc_always.
  intros [Hcon (fd & Hk)] Hroom Ht. destruct (run_tx (CQ c) room type k con fd (Some q) Hk Hcon Hroom) as (st' & r & k' & Hk' & (Hd & -> & ->) & Hrun).
  - intros d' st' r (-> & -> & ->). apply queued_ok.
  - exists k'. split; [|split; [split; [done|by exists fd]|done]]. rewrite Hrun. by repeat (apply elem_of_cons in Ht as [->|Ht]; [done|]); apply elem_of_nil in Ht.
Qed.

Lemma tx_set_law {A} `{!DBSerialize A, !Stored A} k con q key (a : A) :
  k_queued k con q → storable a → q_short (QSet key (enc a)) →
  ∃ k', Set_ malloc_ok new_ok con key a k = Ok (true, k') ∧ k_queued k' con (q ++ [QSet key (enc a)]) ∧ kdb k' = kdb k.
Proof using malloc_always new_always. intros Hq Ha [Hs Hv]. unfold Set_. fills. mstep (serialize_ok a k Ha Hv). fills. apply (queued_step k con q (QSet key (enc a))); [done|room|set_solver]. Qed.

Lemma tx_del_law k con q key : k_queued k con q → short key → ∃ k', Del malloc_ok con key k = Ok (true, k') ∧ k_queued k' con (q ++ [QDel key]) ∧ kdb k' = kdb k.
Proof using malloc_always. clear new_always new_ok. intros Hq Hs. unfold Del. fills. apply (queued_step k con q (QDel key)); [done|room|set_solver]. Qed.

Lemma tx_sadd_law k con q key m : k_queued k con q → short key → short m → ∃ k', Sadd malloc_ok con key m k = Ok (true, k') ∧ k_queued k' con (q ++ [QSadd key m]) ∧ kdb k' = kdb k.
Proof using malloc_always. clear new_always new_ok. intros Hq Hs Hm. unfold Sadd. fills. apply (queued_step k con q (QSadd key m)); [done|room|set_solver]. Qed.

Lemma tx_srem_law k con q key m : k_queued k con q → short key → short m → ∃ k', Srem malloc_ok con key m k = Ok (true, k') ∧ k_queued k' con (q ++ [QSrem key m]) ∧ kdb k' = kdb k.
Proof using malloc_always. clear new_always new_ok. intros Hq Hs Hm. unfold Srem. fills. apply (queued_step k con q (QSrem key m)); [done|room|set_solver]. Qed.

Lemma exec_law k con q :
  k_queued k con q → (length q ≤ 10)%nat → ∃ k', ExecTransaction malloc_ok con k = Ok (exec_ok (q_runs (kdb k) q).2, k') ∧ k_held k' con ∧ kdb k' = (q_runs (kdb k) q).1.
Proof using malloc_always.
  intros [Hcon (fd & Hk)] Hq. unfold ExecTransaction. mstep (standalone_ok _ _ Hk). cbn [negb]. fills. use_tx CExec.
  - intros d' st' r (-> & -> & ->). by apply exec_reply_ok.
  - destruct Hsv as (Hd & -> & ->). split; [|split; [split; [done|by exists fd]|done]]. unfold parseExecReply. cbn [sinfo replyType intValue arrayList].
    rewrite bool_decide_false, bool_decide_true by done. cbn [negb]. change (0 =? -1) with false. cbn iota. rewrite exec_parse by (apply q_runs_replies). done.
Qed.

(** The client on a reliable server obeys the laws. *)
Definition link_laws : @RedisLaws (client NS) (client_api malloc_ok new_ok other_mode).
Proof using malloc_always new_always RedisServer0.
  unshelve refine (@Build_RedisLaws (client NS) (client_api malloc_ok new_ok other_mode) kdb (λ k, k_at k None) k_held k_queued _ _ _ _ _ _ _ _ _ _ _ _ _ _ _ _ _ _).
  - intros A H1 H2 k key a. exact (set_law k key a).
  - exact del_law.
  - exact sadd_law.
  - exact srem_law.
  - intros A H k key v old a i. exact (get_law k key v old a i).
  - intros A H k key old. exact (get_none_law k key old).
  - exact scard_law.
  - exact sismember_law.
  - exact smembers_law.
  - exact smembers_str_law.
  - exact prepare_law.
  - exact start_law.
  - intros A H1 H2 k con q key a. exact (tx_set_law k con q key a).
  - exact tx_del_law.
  - exact tx_sadd_law.
  - exact tx_srem_law.
  - exact exec_law.
  - exact finish_law.
Defined.

End link.

End GbLink.
