(* ===== verification/GbToy.v ===== *)
(** A redis server that runs: an instance of [Net] and of [RedisServer], on which the sessions of
    the client and the managers are evaluated.  It reads the requests with the parser of
    [GbResp]. *)

From stdpp Require Import strings.
From S2P Require Import Prelude GbStream GbStreamProps GbResp GbRespProps GbPool GbClient GbMgr GbSpec GbLink.
From stdpp Require Import options.
#[local] Open Scope Z_scope.

Module GbToy.
Import GbStream GbStreamProps GbResp GbRespProps GbPool GbClient GbMgr GbSpec GbLink.

(** ** Requests and replies *)

(** Reads of at most 4095 bytes. *)
Fixpoint pieces (fuel : nat) (l : list Z) : list (list Z) :=
  match fuel, l with
  | S fuel, _ :: _ => take 4095 l :: pieces fuel (drop 4095 l)
  | _, _ => []
  end.

Lemma pieces_concat fuel l : (length l ≤ fuel)%nat → concat (pieces fuel l) = l.
Proof.
  revert l. induction fuel as [|fuel IH]; intros [|x l] Hl; try done; [simpl in Hl; lia|]. cbn [pieces concat].
  rewrite IH by (rewrite length_drop; simpl in *; lia). apply take_drop.
Qed.

Lemma pieces_size fuel l : Forall (λ d, 1 ≤ Z.of_nat (length d) < REDIS_READ_BUFF_SIZE) (pieces fuel l).
Proof.
  revert l. induction fuel as [|fuel IH]; intros [|x l]; try constructor; [|apply IH]. rewrite length_take. unfold REDIS_READ_BUFF_SIZE. cbn [length]. lia.
Qed.

Definition request (bs : list Z) : list (list Z) :=
  match recv (λ _, true) RedisReplyInfo_new ((Some <$> pieces (length bs) bs) ++ []) (mkConn [] REDIS_PARSE_UNKNOWN_STATE 0 0 0 false RedisReplyInfo_new) with
  | Ok (_, c) => (λ a, default [] (arrayValue a)) <$> arrayList (reply c)
  | Err _ => []
  end.

Lemma request_args args : Z.of_nat (length (cmd_bytes args)) ≤ 2 ^ 28 → request (cmd_bytes args) = args.
Proof.
  intros Hl. unfold request. destruct (recv_split (λ _, true) (RArray (Some <$> args)) (pieces (length (cmd_bytes args)) (cmd_bytes args)) [] (mkConn [] REDIS_PARSE_UNKNOWN_STATE 0 0 0 false RedisReplyInfo_new)) as (c & -> & Hc).
  - done.
  - split; done.
  - apply pieces_size.
  - by apply pieces_concat.
  - cbn iota beta. rewrite Hc. cbn [info arrayList]. rewrite <-!list_fmap_compose. clear. induction args as [|a args IH]; [done|]. rewrite fmap_cons. by rewrite IH.
Qed.

Definition command_of (args : list (list Z)) : option rcmd :=
  match args with
  | [n] => if bool_decide (n = lit "multi") then Some CMulti else if bool_decide (n = lit "exec") then Some CExec else None
  | [n; k] =>
      if bool_decide (n = lit "get") then Some (CGet k) else if bool_decide (n = lit "del") then Some (CQ (QDel k)) else
      if bool_decide (n = lit "scard") then Some (CScard k) else if bool_decide (n = lit "smembers") then Some (CSmembers k) else None
  | [n; k; v] =>
      if bool_decide (n = lit "set") then Some (CQ (QSet k v)) else if bool_decide (n = lit "sadd") then Some (CQ (QSadd k v)) else
      if bool_decide (n = lit "srem") then Some (CQ (QSrem k v)) else if bool_decide (n = lit "sismember") then Some (CSismember k v) else None
  | _ => None
  end.

Lemma command_of_args c : command_of (rargs c) = Some c.
Proof. by destruct c as [[]| | | | | |]. Qed.

(** ** The server *)

Definition set_of (d : rdb) (k : list Z) : option (gset (list Z)) :=
  match d !! k with None => Some ∅ | Some (RSet s) => Some s | Some (RStr _) => None end.

Definition on_set (d : rdb) (k : list Z) (f : gset (list Z) → rvalue) : sreply :=
  SPlain (match set_of d k with Some s => f s | None => RError WRONGTYPE end).

Definition queued_reply : sreply := SPlain (RStatus (lit "QUEUED")).
Definition error_reply : sreply := SPlain (RError (lit "ERR unknown command")).

Definition run (d : rdb) (st : option (list qcmd)) (c : rcmd) : rdb * option (list qcmd) * sreply :=
  match c, st with
  | CQ c, None => ((q_run d c).1, None, SPlain (q_run d c).2)
  | CQ c, Some q => (d, Some (q ++ [c]), queued_reply)
  | CMulti, None => (d, Some [], SPlain (RStatus (lit "OK")))
  | CExec, Some q => ((q_runs d q).1, None, SLines (line_of <$> (q_runs d q).2))
  | CGet k, None => (d, None, SPlain (match d !! k with None => RBulk None | Some (RStr v) => RBulk (Some v) | Some (RSet _) => RError WRONGTYPE end))
  | CScard k, None => (d, None, on_set d k (λ s, RInt (Z.of_nat (size s))))
  | CSismember k m, None => (d, None, on_set d k (λ s, num (bool_decide (m ∈ s))))
  | CSmembers k, None => (d, None, on_set d k (λ s, RArray (Some <$> elements s)))
  | _, _ => (d, st, error_reply)
  end.

Lemma set_of_at d k s : set_at d k s → set_of d k = Some s.
Proof. unfold set_of. by intros [->|[-> ->]]. Qed.

Lemma run_serves d st c : serves d st c (run d st c).1.1 (run d st c).1.2 (run d st c).2.
Proof.
  destruct c as [c|k|k|k m|k| |], st as [q|]; try done; cbn [serves run fst snd]; unfold on_set.
  - split; [done|]. split; [done|]. by intros s ->%set_of_at.
  - split; [done|]. split; [done|]. by intros s ->%set_of_at.
  - split; [done|]. split; [done|]. split; [intros s ->%set_of_at; by exists (elements s)|]. intros v Hv. unfold set_of. by rewrite Hv.
Qed.

Definition bytes_of (r : sreply) : list (option (list Z)) :=
  match r with
  | SPlain r => (Some <$> pieces (length (encode r)) (encode r)) ++ []
  | SLines l => [Some (lines_reply l)]
  end.

Lemma bytes_of_delivers r : delivers r (bytes_of r).
Proof.
  destruct r as [r|l]; [|by exists []]. exists (pieces (length (encode r)) (encode r)), []. split; [done|]. split; [apply pieces_size|by apply pieces_concat].
Qed.

(** Sockets are numbered from 1; [t_room] is how many may still be opened.  When its memory is
    full ([t_full]) the server refuses commands that need more, as redis does, also those that
    would be queued, and takes no new connection; it is then not reliable. *)
Record toy := mkToy { t_db : rdb; t_sess : gmap Z (option (list qcmd)); t_out : gmap Z (list (option (list Z))); t_next : Z; t_room : nat; t_time : Z; t_full : bool }.

Definition oom_reply : sreply := SPlain (RError (lit "OOM command not allowed when used memory > 'maxmemory'.")).
Definition needs_memory (c : rcmd) : bool := match c with CQ (QSet _ _ | QSadd _ _) => true | _ => false end.

Definition set_out (fd : Z) (l : list (option (list Z))) (s : toy) : toy := mkToy (t_db s) (t_sess s) (<[fd := l]> (t_out s)) (t_next s) (t_room s) (t_time s) (t_full s).

Definition toy_write (fd : Z) (bs : list Z) (s : toy) : Z * bool * toy :=
  match t_sess s !! fd, command_of (request bs) with
  | Some st, Some c =>
      if t_full s && needs_memory c then (Z.of_nat (length bs), true, set_out fd (bytes_of oom_reply) s) else
      let '(d, st, r) := run (t_db s) st c in
      (Z.of_nat (length bs), true, mkToy d (<[fd := st]> (t_sess s)) (<[fd := bytes_of r]> (t_out s)) (t_next s) (t_room s) (t_time s) (t_full s))
  | Some _, None => (Z.of_nat (length bs), true, set_out fd (bytes_of error_reply) s)
  | None, _ => (0, false, s)
  end.

#[global] Instance toy_net : Net toy := {|
  net_connect s :=
    match t_room s, t_full s with
    | O, _ | _, true => (None, s)
    | S n, false => (Some (t_next s), mkToy (t_db s) (<[t_next s := None]> (t_sess s)) (t_out s) (t_next s + 1) n (t_time s) (t_full s))
    end;
  net_close fd s := mkToy (t_db s) (delete fd (t_sess s)) (t_out s) (t_next s) (t_room s) (t_time s) (t_full s);
  net_probe fd s := (bool_decide (t_sess s !! fd = None), s);
  net_write := toy_write;
  net_reads fd s := default [] (t_out s !! fd);
  net_rest := set_out;
  net_time := t_time;
|}.

#[global] Program Instance toy_server : RedisServer toy := {| sdb := t_db; sess s := if t_full s then ∅ else t_sess s |}.
Next Obligation. intros s fd [st Hst]. cbn in Hst. destruct (t_full s) eqn:Ef; [done|]. exists s. cbn. rewrite Ef. by rewrite bool_decide_false by (by rewrite Hst). Qed.
Next Obligation.
  intros s fd st c Hst Hl. cbn in Hst. destruct (t_full s) eqn:Ef; [done|]. cbn [net_write toy_net]. unfold toy_write. rewrite Hst, request_args, command_of_args by lia. rewrite Ef. cbn [andb].
  pose proof (run_serves (t_db s) st c) as Hs. destruct (run (t_db s) st c) as [[d st'] r]. eexists _, _, st', r. split; [done|]. split; [|split; [exact Hs|split; [done|]]].
  - assert (0 < length (cmd_bytes (rargs c)))%nat; [|lia]. unfold cmd_bytes, encode. simpl. lia.
  - cbn [net_reads toy_net t_out]. rewrite lookup_insert_eq. apply bytes_of_delivers.
Qed.
Next Obligation. intros s. cbn. destruct (t_room s), (t_full s) eqn:Ef; cbn; by rewrite ?Ef. Qed.
Next Obligation. done. Qed.

(** An empty server that accepts [n] connections, and a client whose pool is connected to it. *)
Definition toy_start (n : nat) : toy := mkToy ∅ ∅ ∅ 1 n 0 false.

(** The modes that are not used here. *)
Definition no_mode {NS} A (_ : DBSerialize A) (_ : list Z) (_ : Z) (_ : list RedisCmdParaInfo) (_ : RedisCommandType) (out : outputs A) : M (client NS) (bool * outputs A) := mret (false, out).
Definition no_init {NS} (_ : RedisMode) (_ : Z) : M (RedisClient NS) bool := mret false.

#[global] Instance toy_api : RedisApi (client toy) := client_api (λ _, true) (λ _, true) no_mode.
#[global] Instance toy_laws : RedisLaws (client toy).
Proof. by apply link_laws. Defined.

(** What [init] of a new client leads to. *)
Definition toy_init (mode : RedisMode) (n : Z) : option (client toy) :=
  match init (λ _, true) no_init mode n [] (RedisClient_new (toy_start 10)) with
  | Ok (true, c) => Some (core c)
  | _ => None
  end.
Definition toy_client_of (n : Z) : client toy := default (mkClient STAND_ALONE_OR_PROXY_MODE None) (toy_init STAND_ALONE_OR_PROXY_MODE n).
Definition toy_client : client toy := toy_client_of 2.

(** With [n] connections the client is idle and the database empty. *)
Ltac solve_toy_at n :=
  split; [by vm_compute|]; destruct (init_pool_ok n (toy_start 10)) as (b & p & Hp & Hd & Hat);
  assert (b = true) as -> by
   (assert ((λ r, match r with Ok (b, _) => b | Err _ => false end) (initConnectPool n (mkPool ∅ 1 [] [] (toy_start 10))) = true) as Hb by (by vm_compute); by rewrite Hp in Hb);
  assert (toy_client_of n = mkClient STAND_ALONE_OR_PROXY_MODE (Some p)) as -> by
   (assert (toy_client_of n = mkClient STAND_ALONE_OR_PROXY_MODE (match initConnectPool n (mkPool ∅ 1 [] [] (toy_start 10)) with Ok (_, p) => Some p | _ => None end)) as -> by (by vm_compute); by rewrite Hp);
  split; [split; [done|]; exists p; split; [done|]; by apply Hat|exact Hd].

Lemma toy_client_at : toy_init STAND_ALONE_OR_PROXY_MODE 2 = Some toy_client ∧ k_at toy_client None ∧ kdb toy_client = ∅.
Proof. unfold toy_client. solve_toy_at 2. Qed.
Lemma toy_client_3_at : toy_init STAND_ALONE_OR_PROXY_MODE 3 = Some (toy_client_of 3) ∧ k_at (toy_client_of 3) None ∧ kdb (toy_client_of 3) = ∅.
Proof. solve_toy_at 3. Qed.

End GbToy.
