(* ===== verification/GbClientProps.v ===== *)
(** What the redis client of [redisclient.cpp] and its pool promise, over any server that keeps
    [RedisServer], and two ways in which they fail their callers. *)

From stdpp Require Import strings.
From S2P Require Import Prelude GbStream GbStreamProps GbResp GbRespProps GbPool GbClient GbMgr GbSpec GbMgrFacts GbLink GbToy.
From stdpp Require Import options.
#[local] Open Scope Z_scope.

Module GbClientProps.
Import GbStream GbStreamProps GbResp GbRespProps GbPool GbClient GbMgr GbSpec GbMgrFacts GbLink GbToy.

(** ** Pools *)

Section pool.
Context {NS : Type} `{!Net NS}.
Implicit Types (p : pool NS).

Lemma take_none t l p : (∀ c, c ∈ l → ∃ r, conns p !! c = Some r ∧ m_available r = false) → take_available t l p = Ok (None, p).
Proof.
  induction l as [|c l IH]; intros H; [done|]. destruct (H c) as (r & Hr & Ha); [left|]. cbn [take_available]. assert (at_conn c p = Ok (r, p)) as Hac by (unfold at_conn; rewrite bind_get; unfold lift; by rewrite Hr).
  mstep Hac. rewrite Ha. apply IH. intros c' Hc'. apply H. by right.
Qed.

(** When all connections are in use, [getAvailableConnection] takes the first one that was handed
    out ten seconds ago or more away from its user: it is closed and deleted, though its user still holds
    it, and the next command of that user uses the deleted connection. *)
Theorem gb_pool_reclaims_in_use malloc_ok p c cs r fd fd' s' :
  m_tmpConnections p = [] → m_connections p = c :: cs → c ≠ next_ptr p →
  conns p !! c = Some r → m_available r = false → m_canRelease r = true → c_fd r = Some fd →
  (∀ c', c' ∈ cs → ∃ r', conns p !! c' = Some r' ∧ m_available r' = false) →
  u32 (m_connectTime r + CONNECTION_RELEASE_TIME) ≤ u32 (net_time (net p)) →
  net_connect (net_close fd (net p)) = (Some fd', s') →
  ∃ p', getAvailableConnection p = Ok (next_ptr p, p') ∧ m_connections p' = next_ptr p :: cs ∧
    ∀ paraList paraLen replyInfo, GbPool.doRedisCommand malloc_ok c paraList paraLen replyInfo p' = Err FUndef.
Proof.
  intros Ht Hcs Hne Hr Hav Hcr Hfd Hoth Hold Hnet. set (t := u32 (net_time (net p))) in *. set (p1 := set_tmp [] p).
  assert (∀ q : pool NS, conns q !! c = Some r → at_conn c q = Ok (r, q)) as Hat by (intros q Hq; unfold at_conn; rewrite bind_get; unfold lift; by rewrite Hq).
  set (p2 := set_net (net_close fd (net p)) p1). set (p3 := set_conns (<[c := set_fd None r]> (conns p2)) p2).
  assert (GbPool.close c p1 = Ok (tt, p3)) as Hcl by (unfold GbPool.close, put_conn; mstep (Hat p1 Hr); rewrite Hfd, bind_modify; by mstep (Hat p2 Hr)).
  set (p4 := set_conns (delete c (conns p3)) p3). assert (delete_conn c p3 = Ok (tt, p4)) as Hde.
  { unfold delete_conn. assert (at_conn c p3 = Ok (set_fd None r, p3)) as Ha3 by (unfold at_conn; rewrite bind_get; unfold lift; cbn; by rewrite lookup_insert_eq). by mstep Ha3. }
  set (n := next_ptr p) in *. set (p5 := mkPool (<[n := RedisConnection_new]> (conns p4)) (n + 1) (m_connections p4) (m_tmpConnections p4) (net p4)). assert (new_conn p4 = Ok (n, p5)) as Hnew by done.
  assert (∀ (q : pool NS) x, conns q !! n = Some x → at_conn n q = Ok (x, q)) as Hatn by (intros q x Hq; unfold at_conn; rewrite bind_get; unfold lift; by rewrite Hq).
  set (p6 := set_conns (<[n := set_fd (Some fd') RedisConnection_new]> (conns p5)) (set_net s' p5)). assert (GbPool.connect n p5 = Ok (true, p6)) as Hco.
  { unfold GbPool.connect. mstep (Hatn p5 RedisConnection_new ltac:(apply lookup_insert_eq)). rewrite bind_get. change (net p5) with (net_close fd (net p)). rewrite Hnet, bind_modify. unfold put_conn.
    assert ((at_conn n;; modify (λ p0, set_conns (<[n := set_fd (Some fd') RedisConnection_new]> (conns p0)) p0)) (set_net s' p5) = Ok (tt, p6)) as Hpu by (by mstep (Hatn (set_net s' p5) RedisConnection_new ltac:(apply lookup_insert_eq))). by mstep Hpu. }
  set (r6 := set_fd (Some fd') RedisConnection_new). set (r7 := mkConnection (c_fd r6) false t (m_canRelease r6)). set (p7 := set_conns (<[n := r7]> (conns p6)) p6).
  assert (put_conn n r7 p6 = Ok (tt, p7)) as Hpu by (unfold put_conn; by mstep (Hatn p6 r6 ltac:(apply lookup_insert_eq))).
  exists (set_connections (n :: cs) p7). split; [|split; [done|]].
  - unfold getAvailableConnection. rewrite bind_get, Ht. fold t. cbn [expire_tmp]. assert ((mret [] : M (pool NS) (list Z)) p = Ok ([], p)) as H0 by done. mstep H0. rewrite bind_modify. fold p1. rewrite Hcs.
    assert (take_available t (c :: cs) p1 = Ok (None, p1)) as Htk by (apply take_none; intros c' [->|Hc']%elem_of_cons; [by exists r|by apply Hoth]). mstep Htk.
    assert (reclaim t [] (c :: cs) p1 = Ok (Some n, set_connections (n :: cs) p7)) as Hre; [|by mstep Hre]. cbn [reclaim]. mstep (Hat p1 Hr). rewrite Hcr, (proj2 (Z.leb_le _ _)) by done. cbn [andb].
    mstep Hcl. mstep Hde. mstep Hnew. mstep Hco. cbn [negb]. mstep (Hatn p6 r6 ltac:(apply lookup_insert_eq)). mstep Hpu. done.
  - intros. unfold GbPool.doRedisCommand, checkConnectionStatus, mbind, M_bind. unfold at_conn at 1. rewrite bind_get. unfold lift. cbn. rewrite !lookup_insert_ne by done. by rewrite lookup_delete_eq.
Qed.

End pool.

(** Ten seconds after the only connection was handed out. *)
Definition busy_pool : pool toy := mkPool {[1 := mkConnection (Some 1) false 5 true]} 2 [1] [] (mkToy ∅ {[1 := None]} ∅ 2 1 15 false).

Lemma gb_pool_reclaims_in_use_witness :
  ∃ p', getAvailableConnection busy_pool = Ok (2, p') ∧ m_connections p' = [2] ∧
    ∀ paraList paraLen replyInfo, GbPool.doRedisCommand (λ _, true) 1 paraList paraLen replyInfo p' = Err FUndef.
Proof.
  refine (gb_pool_reclaims_in_use (λ _, true) busy_pool 1 [] (mkConnection (Some 1) false 5 true) 1 2 _ eq_refl eq_refl _ eq_refl eq_refl eq_refl eq_refl _ _ eq_refl);
    [done|by intros c' Hc'%elem_of_nil|by vm_compute].
Defined.

(** ** The client over a reliable server *)

Section client.
Context {NS : Type} `{!Net NS, !RedisServer NS}.
Context (malloc_ok new_ok : Z → bool).
Context (other_mode : ∀ A (_ : DBSerialize A), list Z → Z → list RedisCmdParaInfo → RedisCommandType → outputs A → M (client NS) (bool * outputs A)).
Implicit Types (p : pool NS) (k : client NS).

(** [init] of a new client in stand-alone mode, without a password, either connects all the
    connections asked for, is then ready for commands and has left the database alone; or it
    leaves a client that is not connected and has no pool. *)
Theorem gb_client_init (other_init : RedisMode → Z → M (RedisClient NS) bool) (n : Z) (s : NS) :
  0 < n < 2 ^ 32 →
  ∃ b c, init malloc_ok other_init STAND_ALONE_OR_PROXY_MODE n [] (RedisClient_new s) = Ok (b, c) ∧ m_connected c = b ∧
    if b then k_at (core c) None ∧ kdb (core c) = sdb s ∧ ∃ p, proxy (core c) = Some p ∧ Z.of_nat (length (m_connections p)) = n
    else proxy (core c) = None ∧ sdb (l_net c) = sdb s.
Proof.
  intros Hn. destruct (init_pool_ok n s) as (b & p & Hp & Hd & Hat). unfold init, initRedisProxy, freeRedisProxy, mbind, M_bind, get, put, lift. cbn -[initConnectPool u32]. rewrite bool_decide_true by done.
  assert (u32 n = n) as -> by (apply Z.mod_small; lia). cbn [proxy core m_passwd l_net m_redisMode m_connected mret M_ret]. rewrite Hp. destruct b; cbn.
  - eexists _, _. split; [reflexivity|]. split; [done|]. destruct (Hat eq_refl ltac:(lia)) as [Hat1 Hlen]. split; [split; [done|by exists p]|]. split; [exact Hd|]. by exists p.
  - eexists _, _. split; [reflexivity|]. done.
Qed.

(** C21. What is stored is read back, through the whole of the client: serialisation, the encoding of
    the commands, the pool, a network that delivers the replies in any pieces, the parser and the
    deserialisation.  [keep old a] is [a] but for the members that are not stored. *)
Theorem gb_set_get_roundtrip {A} `{!DBSerialize A, !Stored A} k key (a old : A) :
  (∀ n, 0 ≤ n < 2 ^ 30 → malloc_ok n = true) → (∀ n, n < 2 ^ 31 → new_ok n = true) →
  k_at k None → storable a → short key → short (enc a) →
  ∃ k1 k2, setSerial malloc_ok new_ok other_mode key a k = Ok (true, k1) ∧ getSerial malloc_ok other_mode key old k1 = Ok ((true, keep old a), k2).
Proof.
  intros Hm Hnew Hk Ha Hs He. destruct (set_law malloc_ok new_ok Hm Hnew other_mode k key a Hk Ha (conj Hs He)) as (k1 & H1 & Hk1 & Hd1). destruct (load_stored a old Ha) as (i & Hi & Herr).
  destruct (get_law malloc_ok Hm other_mode k1 key (enc a) old (keep old a) i Hk1 Hs He) as (k2 & H2 & _); [by rewrite Hd1, lookup_insert_eq|done|]. exists k1, k2. split; [done|]. by rewrite Herr in H2.
Qed.

(** ** A connection that is left in a transaction *)

Lemma get_first p con cs r fd st :
  pool_at p (Some (con, fd, st)) → m_connections p = con :: cs → conns p !! con = Some r → m_available r = true →
  ∃ p', getAvailableConnection p = Ok (con, p') ∧ pool_at p' (Some (con, fd, st)) ∧ net p' = net p.
Proof.
  intros Hp Hcs Hr Hav. destruct (pa_out _ _ Hp con fd st eq_refl) as (Hin & (r0 & Hr0 & Hfd) & Hs). assert (r0 = r) as -> by congruence. set (t := u32 (net_time (net p))). set (p1 := set_tmp [] p).
  assert (at_conn con p1 = Ok (r, p1)) as Ha by (unfold at_conn; rewrite bind_get; unfold lift; by cbn; rewrite Hr). set (r' := mkConnection (c_fd r) false t (m_canRelease r)). set (p2 := set_conns (<[con := r']> (conns p1)) p1).
  assert (take_available t (con :: cs) p1 = Ok (Some con, p2)) as Ht by (cbn [take_available]; mstep Ha; rewrite Hav; unfold put_conn; assert ((at_conn con;; modify (λ p0, set_conns (<[con := r']> (conns p0)) p0)) p1 = Ok (tt, p2)) as Hpu by (by mstep Ha); by mstep Hpu).
  exists p2. split.
  - unfold getAvailableConnection. rewrite bind_get, (pa_tmp _ _ Hp). cbn [expire_tmp]. assert ((mret [] : M (pool NS) (list Z)) p = Ok ([], p)) as H0 by done. mstep H0. rewrite bind_modify. fold p1. fold t. rewrite Hcs. by mstep Ht.
  - split; [|done]. split; [done|cbn; by rewrite Hcs| |].
    + intros c Hc. destruct (pa_each _ _ Hp c Hc) as (Hc0 & r2 & fd2 & Hr2 & Hfd2 & Hav2 & Hs2). split; [done|]. destruct (decide (c = con)) as [->|Hne].
      * exists r', fd. cbn. rewrite lookup_insert_eq. split_and!; [done|done|by right|by right].
      * exists r2, fd2. cbn. rewrite lookup_insert_ne by done. by split_and!.
    + intros ? ? ? [= <- <- <-]. split; [done|]. split; [|done]. exists r'. cbn. by rewrite lookup_insert_eq.
Qed.

(** A connection that goes back to the pool inside a transaction makes the client lie: when it is
    the next one to be used, [setSerial] returns true, since the server's QUEUED is a status like
    OK, and nothing is stored. *)
Theorem gb_set_in_transaction_lies {A} `{!DBSerialize A, !Stored A} k p con cs r fd q key (a : A) :
  (∀ n, 0 ≤ n < 2 ^ 30 → malloc_ok n = true) → (∀ n, n < 2 ^ 31 → new_ok n = true) →
  m_redisMode k = STAND_ALONE_OR_PROXY_MODE → proxy k = Some p → pool_at p (Some (con, fd, Some q)) →
  m_connections p = con :: cs → conns p !! con = Some r → m_available r = true → con ≠ 0 →
  storable a → short key → short (enc a) →
  ∃ k', setSerial malloc_ok new_ok other_mode key a k = Ok (true, k') ∧ kdb k' = kdb k.
Proof.
  intros Hm Hnew Hmode Hk Hp Hcs Hr Hav Hcon Ha Hs He. assert (Z.of_nat (length key) ≤ 2 ^ 23 ∧ Z.of_nat (length (enc a)) ≤ 2 ^ 23) as [Hs2 He2] by (unfold short in *; lia). destruct (get_first p con cs r fd _ Hp Hcs Hr Hav) as (p1 & H1 & Hp1 & Hn1).
  set (c := CQ (QSet key (enc a))). set (room := s32 (15 + (len key + 20) + (len (enc a) + 20))). assert (Z.of_nat (length (cmd_bytes (rargs c))) ≤ room ≤ 2 ^ 23) as Hroom.
  { pose proof (size3 (lit "set") key (enc a) ltac:(vm_compute; lia) Hs He) as Hz. change (length (lit "set")) with 3%nat in Hz. unfold room, len, short in *. rewrite wraps_small by (cbn; lia). cbn [c rargs q_args]. lia. }
  destruct (do_conn malloc_ok Hm p1 con fd (Some q) c room Hp1 Hroom) as (st' & rep & p2 & H2 & Hsv & Hp2). { intros d' st' rep (-> & -> & ->). apply queued_ok. }
  destruct Hsv as (Hd & _ & ->). destruct (pa_out _ _ Hp2 con fd st' eq_refl) as (Hin2 & (r2 & Hr2 & _) & _).
  assert (∃ p3, releaseConnection con p2 = Ok (tt, p3) ∧ net p3 = net p2) as (p3 & H3 & Hn3).
  { unfold releaseConnection. rewrite bind_get, bool_decide_true by done. assert (at_conn con p2 = Ok (r2, p2)) as Hac by (unfold at_conn; rewrite bind_get; unfold lift; by rewrite Hr2). mstep Hac. unfold put_conn. mstep Hac. by eexists. }
  assert (cluster_doRedisCommand malloc_ok (para <$> rargs c) room RedisReplyInfo_new p = Ok ((true, sinfo (SPlain (RStatus (lit "QUEUED")))), p3)) as H.
  { unfold cluster_doRedisCommand. mstep H1. rewrite (proj2 (Z.eqb_neq _ _)) by done. cbn [negb]. mstep H2. by mstep H3. }
  exists (mkClient STAND_ALONE_OR_PROXY_MODE (Some p3)). split; [|unfold kdb; rewrite Hk; cbn; rewrite Hn3, Hd; by rewrite Hn1].
  unfold setSerial. mstep (fill_para malloc_ok Hm (lit "set") 3 [] k ltac:(reflexivity) ltac:(vm_compute; congruence)). mstep (fill_ok malloc_ok Hm key ([] ++ [para (lit "set")]) k Hs2).
  mstep (serialize_ok new_ok Hnew a k Ha He). mstep (fill_ok malloc_ok Hm (enc a) (([] ++ [para (lit "set")]) ++ [para key]) k He2). change ((([] ++ [para (lit "set")]) ++ [para key]) ++ [para (enc a)]) with (para <$> rargs c). fold room.
  assert (∀ out : outputs Device, doRedisCommandStandAlone malloc_ok room (para <$> rargs c) REDIS_COMMAND_SET out k = Ok ((true, out), mkClient STAND_ALONE_OR_PROXY_MODE (Some p3))) as Hdo.
  { intros out. unfold doRedisCommandStandAlone. rewrite bind_get, Hk, bool_decide_false by done. mstep (on_pool_ok (cluster_doRedisCommand malloc_ok (para <$> rargs c) room RedisReplyInfo_new) k p _ p3 Hk H). rewrite Hmode. done. }
  unfold do_plain, GbClient.doRedisCommand, mbind, M_bind, get. rewrite Hmode. by rewrite Hdo.
Qed.

End client.

(** ** The witnesses *)

Lemma gb_client_init_witness :
  ∃ b c, init (λ _, true) no_init STAND_ALONE_OR_PROXY_MODE 3 [] (RedisClient_new (toy_start 2)) = Ok (b, c) ∧ m_connected c = b.
Proof.
  destruct (gb_client_init (λ _, true) no_init 3 (toy_start 2)) as (b & c & H1 & H2 & _); [done|]. by exists b, c.
Defined.

Definition dev_b : Device := Device_new (lit "b").

Lemma gb_set_get_roundtrip_witness :
  ∃ k1 k2, setSerial (λ _, true) (λ _, true) no_mode (lit "key") dev_b toy_client = Ok (true, k1) ∧
    getSerial (λ _, true) no_mode (lit "key") (Device_new []) k1 = Ok ((true, dev_b), k2).
Proof.
  refine (gb_set_get_roundtrip (λ _, true) (λ _, true) no_mode toy_client (lit "key") dev_b (Device_new []) _ _ _ _ _ _); [done|done|apply toy_client_at|split_and!; by repeat constructor|done|done].
Defined.

(** The server's memory is full while a device is inserted: SET is refused inside the transaction,
    and the connection goes back to the pool without DISCARD. *)
Definition with_full (b : bool) (k : client toy) : client toy :=
  match proxy k with
  | Some p => mkClient (m_redisMode k) (Some (set_net (mkToy (t_db (net p)) (t_sess (net p)) (t_out (net p)) (t_next (net p)) (t_room (net p)) (t_time (net p)) b) p))
  | None => k
  end.
Definition left_in_transaction : client toy :=
  match InsertDevice STAND_ALONE_OR_PROXY_MODE dev_b (with_full true toy_client) with Ok (_, k) => with_full false k | Err _ => toy_client end.
Definition left_pool : pool toy := default (mkPool ∅ 1 [] [] (toy_start 0)) (proxy left_in_transaction).

Lemma left_pool_at : pool_at left_pool (Some (1, 1, Some [])).
Proof.
  assert (m_connections left_pool = [1; 2]) as Ec by (by vm_compute). assert (conns left_pool !! 1 = Some (mkConnection (Some 1) true 0 false)) as E1 by (by vm_compute).
  assert (conns left_pool !! 2 = Some (mkConnection (Some 2) true 0 true)) as E2 by (by vm_compute). assert (sess (net left_pool) !! 1 = Some (Some [])) as S1 by (by vm_compute). assert (sess (net left_pool) !! 2 = Some None) as S2 by (by vm_compute).
  split; [by vm_compute|by rewrite Ec| |].
  - intros c Hc. rewrite Ec in Hc. apply elem_of_cons in Hc as [->|Hc%list_elem_of_singleton]; [|subst c]; (split; [done|]).
    + eexists _, 1. split_and!; [exact E1|done|by right|by right].
    + eexists _, 2. split_and!; [exact E2|done|by left|by left].
  - intros con fd st [= <- <- <-]. rewrite Ec. split; [left|]. split; [|done]. eexists. by split; [exact E1|].
Qed.

Lemma gb_set_in_transaction_lies_witness :
  ∃ k', setSerial (λ _, true) (λ _, true) no_mode (lit "key") dev_b left_in_transaction = Ok (true, k') ∧ kdb k' = kdb left_in_transaction.
Proof.
  apply (gb_set_in_transaction_lies (λ _, true) (λ _, true) no_mode left_in_transaction left_pool 1 [2] (mkConnection (Some 1) true 0 false) 1 []);
    [done|done|by vm_compute|by vm_compute|apply left_pool_at|by vm_compute|by vm_compute|done|done|split_and!; by repeat constructor|done|done].
Defined.

End GbClientProps.
