(* ===== verification/GbRestorer.v ===== *)
(** The write-behind front of the GB restorer: [gb/downdatarestorer_norah/downdatarestorer.cpp]
    and [downdatarestorer.h].

    Worker threads queue operations; a background thread takes them from the queue and runs them
    on the managers of [GbMgr].  The threads are program counters over the shared state and run
    in any order ([step]).  A step of the background thread is what it does between two places
    where another thread can be seen: a read of [force_thread_exit_], a lock, a wait, a call.  A
    call of a manager that holds one of its locks to the end is one step, since every other call
    that touches the same keys holds that lock; so is a call that only holds the queue's lock.
    The two calls of [ExecutingInviteCmdMgr] that take the workers' locks one after the other,
    [Clear] of all lists ([TClear]) and [Load] of all lists ([loads]), take a step for each
    worker.  [new] does not return null, and pthread's mutexes and conditions can be made. *)

From stdpp Require Import strings.
From S2P Require Import Prelude GbStream GbResp GbPool GbClient GbMgr.
From stdpp Require Import options.
#[local] Open Scope Z_scope.

Module GbRestorer.
Import GbStream GbResp GbPool GbClient GbMgr.

Definition DDR_OK : Z := 1.
Definition DDR_FAIL : Z := 0.

(** ** Operations *)

Inductive OperationType := INSERT | DELETE | CLEAR | UPDATE.

(** [entity_type_] and [entities_], the copies that the operation owns. *)
Inductive Entities :=
| DEVICE (l : list Device) | CHANNEL (l : list Channel) | EXECUTING_INVITE_CMD (l : list ExecutingInviteCmd).

Record DataRestorerOperation := mkOperation { operation_type_ : OperationType; entities_ : Entities; executing_invite_cmd_list_no_ : Z }.

(** ** State *)

(** Where a background thread is in [DataRestorerThreadFunc]. *)
Inductive place :=
| TTop                                  (* while(!force_thread_exit_) *)
| TLock                                 (* MutexLockGuard guard *)
| TEmpty                                (* while(operations_queue_.empty()) *)
| TCheck                                (* if(force_thread_exit_) break, in that loop *)
| TWait                                 (* about to wait *)
| TSleep                                (* in Wait, the mutex released *)
| TRelock                               (* woken, taking the mutex again *)
| TAfter                                (* after that loop, the mutex held *)
| TExec (operation : DataRestorerOperation)
| TClear (operation : DataRestorerOperation) (i : Z)  (* in Clear of all lists, before worker i *)
| TExit                                 (* after the outer loop *)
| TDone.

(** Where the thread that starts and stops the restorer is. *)
Inductive control :=
| CIdle
| CStarting                             (* Start, the thread created, before the latch *)
| CSignal                               (* Stop, force_thread_exit_ set, before SignalAll *)
| CWait.                                (* Stop, in the latch's Wait *)

(** The calls that read, and their answers.  [RCmdLists] begins a load of all lists, with the
    number that the call gets as answer, and [RCmdListsNext] is the next round of its loop. *)
Inductive read :=
| RDevice (id : list Z) (d : Device) | RChannel (id : list Z) (c : Channel) | RCmd (no : Z) (id : list Z) (c : ExecutingInviteCmd)
| RDevices (l : list Device) | RChannels (l : list Channel) | RCmds (no : Z) (l : list ExecutingInviteCmd) | RCmdLists (l : list (list ExecutingInviteCmd)) | RCmdListsNext (call : Z)
| RDeviceCount | RChannelCount | RCmdCount (no : Z).
Inductive answer :=
| ADevice (r : Z) (d : Device) | AChannel (r : Z) (c : Channel) | ACmd (r : Z) (c : ExecutingInviteCmd)
| ADevices (r : Z) (l : list Device) | AChannels (r : Z) (l : list Channel) | ACmds (r : Z) (l : list ExecutingInviteCmd) | ACall (call : Z) | ARound (no : Z) (l : list ExecutingInviteCmd) | ACmdLists (r : Z) (l : list (list ExecutingInviteCmd))
| ACount (n : Z).

(** What happens in a step. *)
Inductive label :=
| LThread (t : nat) | LSpurious (t : nat) | LCall (op : DataRestorerOperation) | LRead (r : read) (a : answer)
| LInit (mode : RedisMode) (n : Z) | LUninit | LStart (created : bool) | LStarted | LStop | LSignalled | LStopped.

Section restorer.
Context {W : Type} `{!RedisApi W}.

(** What a new [RedisClient] is after [init] in a mode, with so many connections, has returned
    true; and [freeRedisClient]. *)
Context (client_init : RedisMode → Z → option W) (client_free : M W bool).

(** The three managers: the client they point to, its mode and the number of workers. *)
Record managers := mkManagers { mg_client : Z; mg_mode : RedisMode; mg_workers : Z }.

(** A call of [LoadExecutingInviteCmdLists] that has not returned: the manager that it runs on,
    [None] once that is deleted, and the [i] and [cmd_lists] of its loop. *)
Record load := mkLoad { ld_mgr : option managers; ld_i : Z; ld_lists : list (list ExecutingInviteCmd) }.

(** [exit_latch] is the count of [data_restorer_threads_exit_latch], [None] for a null pointer;
    [clients] are the clients on the heap. *)
Record restorer := mkRestorer {
  clients : gmap Z W; next_client : Z; redis_client_ : option Z;
  inited_ : bool; started_ : bool; force_thread_exit_ : bool;
  data_restorer_background_threads_num_ : Z; data_restorer_threads_ : list nat;
  exit_latch : option Z; mgrs : option managers;
  mutex_owner : option nat; operations_queue_ : list DataRestorerOperation;
  worker_thread_num_ : Z; redis_mode_ : RedisMode;
  threads : list place; ctl : control;
  loads : gmap Z load; next_load : Z;
}.

Abbreviation MD := (M restorer).

Definition set_clients c (s : restorer) := mkRestorer c (next_client s) (redis_client_ s) (inited_ s) (started_ s) (force_thread_exit_ s) (data_restorer_background_threads_num_ s) (data_restorer_threads_ s) (exit_latch s) (mgrs s) (mutex_owner s) (operations_queue_ s) (worker_thread_num_ s) (redis_mode_ s) (threads s) (ctl s) (loads s) (next_load s).
Definition set_threads l (s : restorer) := mkRestorer (clients s) (next_client s) (redis_client_ s) (inited_ s) (started_ s) (force_thread_exit_ s) (data_restorer_background_threads_num_ s) (data_restorer_threads_ s) (exit_latch s) (mgrs s) (mutex_owner s) (operations_queue_ s) (worker_thread_num_ s) (redis_mode_ s) l (ctl s) (loads s) (next_load s).
Definition set_queue o q (s : restorer) := mkRestorer (clients s) (next_client s) (redis_client_ s) (inited_ s) (started_ s) (force_thread_exit_ s) (data_restorer_background_threads_num_ s) (data_restorer_threads_ s) (exit_latch s) (mgrs s) o q (worker_thread_num_ s) (redis_mode_ s) (threads s) (ctl s) (loads s) (next_load s).
Definition set_latch c (s : restorer) := mkRestorer (clients s) (next_client s) (redis_client_ s) (inited_ s) (started_ s) (force_thread_exit_ s) (data_restorer_background_threads_num_ s) (data_restorer_threads_ s) c (mgrs s) (mutex_owner s) (operations_queue_ s) (worker_thread_num_ s) (redis_mode_ s) (threads s) (ctl s) (loads s) (next_load s).
Definition set_life st f m c (s : restorer) := mkRestorer (clients s) (next_client s) (redis_client_ s) (inited_ s) st f (data_restorer_background_threads_num_ s) (data_restorer_threads_ s) (exit_latch s) m (mutex_owner s) (operations_queue_ s) (worker_thread_num_ s) (redis_mode_ s) (threads s) c (loads s) (next_load s).

Definition set_loads ls n (s : restorer) := mkRestorer (clients s) (next_client s) (redis_client_ s) (inited_ s) (started_ s) (force_thread_exit_ s) (data_restorer_background_threads_num_ s) (data_restorer_threads_ s) (exit_latch s) (mgrs s) (mutex_owner s) (operations_queue_ s) (worker_thread_num_ s) (redis_mode_ s) (threads s) (ctl s) ls n.

Definition DownDataRestorer_new : restorer :=
  mkRestorer ∅ 1 None false false false 0 [] None None None [] 0 STAND_ALONE_OR_PROXY_MODE [] CIdle ∅ 1.

(** ** The managers, through their pointers *)

Definition on_managers {A} (p : option managers) (f : RedisMode → Z → M W A) : MD A :=
  s ← get;
  m ← lift (deref p);
  k ← lift (deref (clients s !! mg_client m));
  '(a, k) ← lift (f (mg_mode m) (mg_workers m) k);
  modify (set_clients (<[mg_client m := k]> (clients s)));;
  mret a.

Definition with_managers {A} (f : RedisMode → Z → M W A) : MD A := s ← get; on_managers (mgrs s) f.

(** [*operation.entities_.begin()]. *)
Definition first {A} (l : list A) : result A := deref (head l).

(** [Clear()] of all lists is called for the worker -1. *)
Definition clears_all (op : DataRestorerOperation) : bool :=
  match operation_type_ op, entities_ op with CLEAR, EXECUTING_INVITE_CMD _ => executing_invite_cmd_list_no_ op =? -1 | _, _ => false end.

(** The body of [DataRestorerThreadFunc] for one operation, other than the [Clear] of all lists;
    the results are not looked at, and the copies are deleted. *)
Definition perform (op : DataRestorerOperation) (mode : RedisMode) (n : Z) : M W unit :=
  let no := executing_invite_cmd_list_no_ op in
  match operation_type_ op, entities_ op with
  | INSERT, DEVICE l => x ← lift (first l); InsertDevice mode x;; mret tt
  | INSERT, CHANNEL l => x ← lift (first l); InsertChannel mode x;; mret tt
  | INSERT, EXECUTING_INVITE_CMD l => x ← lift (first l); Insert mode n x no;; mret tt
  | DELETE, DEVICE l => x ← lift (first l); DeleteDevice mode x;; mret tt
  | DELETE, CHANNEL l => x ← lift (first l); DeleteChannel mode x;; mret tt
  | DELETE, EXECUTING_INVITE_CMD l => x ← lift (first l); Delete mode n x no;; mret tt
  | CLEAR, DEVICE _ => ClearDevices;; mret tt
  | CLEAR, CHANNEL _ => ClearChannels;; mret tt
  | CLEAR, EXECUTING_INVITE_CMD _ => Clear n no;; mret tt
  | UPDATE, DEVICE l => UpdateDevices l;; mret tt
  | UPDATE, CHANNEL l => UpdateChannels l;; mret tt
  | UPDATE, EXECUTING_INVITE_CMD l => Update n l no;; mret tt
  end.
Definition execute (op : DataRestorerOperation) : MD unit := with_managers (perform op).

(** ** The background thread *)

Definition goto (t : nat) (p : place) : MD unit := modify (λ s, set_threads (<[t := p]> (threads s)) s).

(** [pthread_cond_broadcast]. *)
Definition wake (p : place) : place := match p with TSleep => TRelock | _ => p end.
Definition SignalAll : MD unit := modify (λ s, set_threads (wake <$> threads s) s).
(** [pthread_cond_signal]; there is at most one that sleeps. *)
Fixpoint wake_one (l : list place) : list place :=
  match l with
  | [] => []
  | TSleep :: l => TRelock :: l
  | p :: l => p :: wake_one l
  end.
Definition Signal : MD unit := modify (λ s, set_threads (wake_one (threads s)) s).

(** One step of thread [t]; false when it has to wait. *)
Definition thread_step (t : nat) : MD bool :=
  s ← get;
  match threads s !! t with
  | Some TTop => goto t (if force_thread_exit_ s then TExit else TLock);; mret true
  | Some (TLock | TRelock) =>
      match mutex_owner s with
      | None => modify (set_queue (Some t) (operations_queue_ s));; goto t TEmpty;; mret true
      | Some _ => mret false
      end
  | Some TEmpty => goto t (match operations_queue_ s with [] => TCheck | _ => TAfter end);; mret true
  | Some TCheck => goto t (if force_thread_exit_ s then TAfter else TWait);; mret true
  | Some TWait => modify (set_queue None (operations_queue_ s));; goto t TSleep;; mret true
  | Some TAfter =>
      if force_thread_exit_ s then modify (set_queue None (operations_queue_ s));; goto t TExit;; mret true else
      match operations_queue_ s with
      | [] => fail FAssert
      | op :: q => modify (set_queue None q);; goto t (TExec op);; mret true
      end
  | Some (TExec op) => if clears_all op then goto t (TClear op 0);; mret true else execute op;; goto t TTop;; mret true
  | Some (TClear op i) =>
      next ← with_managers (λ _ n, Clear_all_next n i);
      goto t (match next with Some i => TClear op i | None => TTop end);; mret true
  | Some TExit =>
      count ← lift (deref (exit_latch s));
      modify (set_latch (Some (count - 1)));; goto t TDone;; mret true
  | Some (TSleep | TDone) | None => mret false
  end.

(** ** Starting and stopping *)

Definition Init (redis_mode : RedisMode) (worker_thread_num : Z) : MD Z :=
  s ← get;
  if inited_ s then mret DDR_FAIL else
  lift (assert_ (bool_decide (redis_client_ s = None)));;
  match client_init redis_mode (worker_thread_num + 1) with
  | None =>
      put (mkRestorer (clients s) (next_client s) None (inited_ s) (started_ s) (force_thread_exit_ s) 1 (data_restorer_threads_ s) (exit_latch s) (mgrs s) (mutex_owner s) (operations_queue_ s) worker_thread_num redis_mode (threads s) (ctl s) (loads s) (next_load s));;
      mret DDR_FAIL
  | Some k =>
      put (mkRestorer (<[next_client s := k]> (clients s)) (next_client s + 1) (Some (next_client s)) true (started_ s) (force_thread_exit_ s) 1 (data_restorer_threads_ s) (exit_latch s) (mgrs s) (mutex_owner s) (operations_queue_ s) worker_thread_num redis_mode (threads s) (ctl s) (loads s) (next_load s));;
      mret DDR_OK
  end.

Definition Uninit : MD Z :=
  s ← get;
  c ← match inited_ s, redis_client_ s with
      | true, Some p =>
          k ← lift (deref (clients s !! p));
          lift (client_free k);;
          mret (delete p (clients s), None)
      | _, r => mret (clients s, r)
      end;
  put (mkRestorer c.1 (next_client s) c.2 false (started_ s) (force_thread_exit_ s) (data_restorer_background_threads_num_ s) (data_restorer_threads_ s) (exit_latch s) (mgrs s) (mutex_owner s) (operations_queue_ s) (worker_thread_num_ s) (redis_mode_ s) (threads s) (ctl s) (loads s) (next_load s));;
  mret DDR_OK.

(** [Start], up to the creation of the latch; [created] is whether [pthread_create] succeeds.
    [None] when it goes on with [Start_latch].  One background thread is made. *)
Definition Start (created : bool) : MD (option Z) :=
  s ← get;
  if negb (inited_ s) then mret (Some DDR_FAIL) else
  if started_ s then mret (Some DDR_FAIL) else
  c ← lift (deref (redis_client_ s));
  let ids := data_restorer_threads_ s ++ (if created then [length (threads s)] else []) in
  put (mkRestorer (clients s) (next_client s) (redis_client_ s) (inited_ s) (started_ s) (force_thread_exit_ s) (data_restorer_background_threads_num_ s) ids (exit_latch s)
         (Some (mkManagers c (redis_mode_ s) (worker_thread_num_ s))) (mutex_owner s) (operations_queue_ s) (worker_thread_num_ s) (redis_mode_ s)
         (threads s ++ (if created then [TTop] else [])) (match ids with [] => ctl s | _ => CStarting end) (loads s) (next_load s));;
  mret (match ids with [] => Some DDR_FAIL | _ => None end).

Definition Start_latch : MD Z :=
  s ← get;
  put (set_life true (force_thread_exit_ s) (mgrs s) CIdle (set_latch (Some (Z.of_nat (length (data_restorer_threads_ s)))) s));;
  mret DDR_OK.

(** [Stop], up to [SignalAll]; [SignalAll]; and what follows the wait for the latch, which waits
    while the count is not zero (false). *)
Definition Stop : MD (option Z) :=
  s ← get;
  if negb (started_ s) then mret (Some DDR_FAIL) else
  put (set_life (started_ s) true (mgrs s) CSignal s);;
  mret None.

Definition Stop_signal : MD unit := SignalAll;; modify (λ s, set_life (started_ s) (force_thread_exit_ s) (mgrs s) CWait s).

Definition Stop_wait : MD bool :=
  s ← get;
  count ← lift (deref (exit_latch s));
  if negb (count =? 0) then mret false else
  put (set_life false (force_thread_exit_ s) None CIdle (set_latch None (set_loads ((λ ld, mkLoad None (ld_i ld) (ld_lists ld)) <$> loads s) (next_load s) s)));;
  mret true.

(** ** Calls of the workers *)

(** [CHECK(started_)]. *)
Definition check_started : MD unit := s ← get; lift (assert_ (started_ s)).

(** Append to the queue under its lock and wake the thread; [None] when the lock is held. *)
Definition push (signal : MD unit) (op : DataRestorerOperation) : MD (option Z) :=
  check_started;;
  s ← get;
  match mutex_owner s with
  | Some _ => mret None
  | None => modify (set_queue None (operations_queue_ s ++ [op]));; signal;; mret (Some DDR_OK)
  end.

Definition InsertDeviceList (device : Device) : MD (option Z) := push SignalAll (mkOperation INSERT (DEVICE [device]) (-1)).
Definition DeleteDeviceList (device : Device) : MD (option Z) := push SignalAll (mkOperation DELETE (DEVICE [device]) (-1)).
Definition ClearDeviceList : MD (option Z) := push SignalAll (mkOperation CLEAR (DEVICE []) (-1)).
Definition UpdateDeviceList (devices : list Device) : MD (option Z) := push SignalAll (mkOperation UPDATE (DEVICE devices) (-1)).
Definition InsertChannelList (channel : Channel) : MD (option Z) := push SignalAll (mkOperation INSERT (CHANNEL [channel]) (-1)).
Definition DeleteChannelList (channel : Channel) : MD (option Z) := push SignalAll (mkOperation DELETE (CHANNEL [channel]) (-1)).
Definition ClearChannelList : MD (option Z) := push SignalAll (mkOperation CLEAR (CHANNEL []) (-1)).
Definition UpdateChannelList (channels : list Channel) : MD (option Z) := push SignalAll (mkOperation UPDATE (CHANNEL channels) (-1)).
Definition InsertExecutingInviteCmdList (worker_thread_no : Z) (cmd : ExecutingInviteCmd) : MD (option Z) :=
  push Signal (mkOperation INSERT (EXECUTING_INVITE_CMD [cmd]) worker_thread_no).
Definition DeleteExecutingInviteCmdList (worker_thread_no : Z) (cmd : ExecutingInviteCmd) : MD (option Z) :=
  push SignalAll (mkOperation DELETE (EXECUTING_INVITE_CMD [cmd]) worker_thread_no).
Definition ClearExecutingInviteCmdList : MD (option Z) := push SignalAll (mkOperation CLEAR (EXECUTING_INVITE_CMD []) (-1)).
Definition ClearExecutingInviteCmdList_no (worker_thread_no : Z) : MD (option Z) := push SignalAll (mkOperation CLEAR (EXECUTING_INVITE_CMD []) worker_thread_no).
Definition UpdateExecutingInviteCmdList (worker_thread_no : Z) (cmds : list ExecutingInviteCmd) : MD (option Z) :=
  push SignalAll (mkOperation UPDATE (EXECUTING_INVITE_CMD cmds) worker_thread_no).

(** The calls that the overload with all lists makes, one after the other. *)
Definition UpdateExecutingInviteCmdLists (cmd_lists : list (list ExecutingInviteCmd)) : MD (list (MD (option Z))) :=
  check_started;;
  s ← get;
  lift (assert_ (Z.of_nat (length cmd_lists) =? worker_thread_num_ s));;
  mret (imap (λ i l, UpdateExecutingInviteCmdList (Z.of_nat i) l) cmd_lists).

(** Reads go to the managers at once. *)
Definition GetDeviceCount : MD Z := check_started;; with_managers (λ _ _, GbMgr.GetDeviceCount).
Definition GetChannelCount : MD Z := check_started;; with_managers (λ _ _, GbMgr.GetChannelCount).
Definition GetExecutingInviteCmdCount (worker_thread_no : Z) : MD Z := check_started;; with_managers (λ _ n, GetExecutingInviteCmdListSize n worker_thread_no).
Definition LoadDeviceList (devices : list Device) : MD (Z * list Device) :=
  check_started;; '(_, l) ← with_managers (λ _ _, LoadDevices devices); mret (DDR_OK, l).
Definition LoadChannelList (channels : list Channel) : MD (Z * list Channel) :=
  check_started;; '(_, l) ← with_managers (λ _ _, LoadChannels channels); mret (DDR_OK, l).
(** The load of all lists: the call up to its loop, a round of the loop, and [DDR_OK] with the
    lists when the loop has ended. *)
Definition LoadExecutingInviteCmdLists (cmd_lists : list (list ExecutingInviteCmd)) : MD Z :=
  check_started;;
  s ← get;
  m ← lift (deref (mgrs s));
  modify (set_loads (<[next_load s := mkLoad (Some m) 0 (resize (mg_workers m) cmd_lists)]> (loads s)) (next_load s + 1));;
  mret (next_load s).
Definition LoadExecutingInviteCmdLists_next (call : Z) : MD answer :=
  s ← get;
  ld ← lift (deref (loads s !! call));
  next ← on_managers (ld_mgr ld) (λ _ n, Load_all_next n (ld_i ld) (ld_lists ld));
  match next with
  | Some (i, cmd_lists) =>
      modify (λ s, set_loads (<[call := mkLoad (ld_mgr ld) i cmd_lists]> (loads s)) (next_load s) s);;
      mret (ARound (ld_i ld) (default [] (cmd_lists !! Z.to_nat (ld_i ld))))
  | None => modify (λ s, set_loads (delete call (loads s)) (next_load s) s);; mret (ACmdLists DDR_OK (ld_lists ld))
  end.
Definition LoadExecutingInviteCmdList (worker_thread_no : Z) (cmds : list ExecutingInviteCmd) : MD (Z * list ExecutingInviteCmd) :=
  check_started;; '(_, l) ← with_managers (λ _ n, Load n worker_thread_no cmds); mret (DDR_OK, l).
Definition select {A} (r : Z * A) : Z * A := (if r.1 <? 0 then DDR_FAIL else DDR_OK, r.2).
Definition SelectDeviceList (device_id : list Z) (device : Device) : MD (Z * Device) :=
  check_started;; r ← with_managers (λ _ _, SearchDevice device_id device); mret (select r).
Definition SelectChannelList (channel_id : list Z) (channel : Channel) : MD (Z * Channel) :=
  check_started;; r ← with_managers (λ _ _, SearchChannel channel_id channel); mret (select r).
Definition SelectExecutingInviteCmdList (worker_thread_no : Z) (cmd_id : list Z) (cmd : ExecutingInviteCmd) : MD (Z * ExecutingInviteCmd) :=
  check_started;; r ← with_managers (λ _ n, Search n cmd_id cmd worker_thread_no); mret (select r).

Fixpoint stat_each (n : nat) (i : Z) : MD unit :=
  match n with
  | O => mret tt
  | S n => GetExecutingInviteCmdCount i;; stat_each n (i + 1)
  end.
Definition GetStat : MD Z :=
  s ← get;
  if negb (started_ s) then mret DDR_FAIL else
  GetDeviceCount;;
  GetChannelCount;;
  stat_each (Z.to_nat (worker_thread_num_ s)) 0;;
  mret DDR_OK.

(** ** Executions *)

(** The calls that queue an operation. *)
Inductive calls : DataRestorerOperation → MD (option Z) → Prop :=
| calls_insert_device d : calls (mkOperation INSERT (DEVICE [d]) (-1)) (InsertDeviceList d)
| calls_delete_device d : calls (mkOperation DELETE (DEVICE [d]) (-1)) (DeleteDeviceList d)
| calls_clear_devices : calls (mkOperation CLEAR (DEVICE []) (-1)) ClearDeviceList
| calls_update_devices l : calls (mkOperation UPDATE (DEVICE l) (-1)) (UpdateDeviceList l)
| calls_insert_channel c : calls (mkOperation INSERT (CHANNEL [c]) (-1)) (InsertChannelList c)
| calls_delete_channel c : calls (mkOperation DELETE (CHANNEL [c]) (-1)) (DeleteChannelList c)
| calls_clear_channels : calls (mkOperation CLEAR (CHANNEL []) (-1)) ClearChannelList
| calls_update_channels l : calls (mkOperation UPDATE (CHANNEL l) (-1)) (UpdateChannelList l)
| calls_insert_cmd no c : calls (mkOperation INSERT (EXECUTING_INVITE_CMD [c]) no) (InsertExecutingInviteCmdList no c)
| calls_delete_cmd no c : calls (mkOperation DELETE (EXECUTING_INVITE_CMD [c]) no) (DeleteExecutingInviteCmdList no c)
| calls_clear_cmds : calls (mkOperation CLEAR (EXECUTING_INVITE_CMD []) (-1)) ClearExecutingInviteCmdList
| calls_clear_cmds_no no : calls (mkOperation CLEAR (EXECUTING_INVITE_CMD []) no) (ClearExecutingInviteCmdList_no no)
| calls_update_cmds no l : calls (mkOperation UPDATE (EXECUTING_INVITE_CMD l) no) (UpdateExecutingInviteCmdList no l).

(** What a call that reads returns. *)
Definition run_read (r : read) : MD answer :=
  match r with
  | RDevice id d => r ← SelectDeviceList id d; mret (ADevice r.1 r.2)
  | RChannel id c => r ← SelectChannelList id c; mret (AChannel r.1 r.2)
  | RCmd no id c => r ← SelectExecutingInviteCmdList no id c; mret (ACmd r.1 r.2)
  | RDevices l => r ← LoadDeviceList l; mret (ADevices r.1 r.2)
  | RChannels l => r ← LoadChannelList l; mret (AChannels r.1 r.2)
  | RCmds no l => r ← LoadExecutingInviteCmdList no l; mret (ACmds r.1 r.2)
  | RCmdLists l => c ← LoadExecutingInviteCmdLists l; mret (ACall c)
  | RCmdListsNext c => LoadExecutingInviteCmdLists_next c
  | RDeviceCount => n ← GetDeviceCount; mret (ACount n)
  | RChannelCount => n ← GetChannelCount; mret (ACount n)
  | RCmdCount no => n ← GetExecutingInviteCmdCount no; mret (ACount n)
  end.

Inductive step : restorer → label → restorer → Prop :=
| step_thread t s s' : thread_step t s = Ok (true, s') → step s (LThread t) s'
| step_spurious t s : threads s !! t = Some TSleep → step s (LSpurious t) (set_threads (<[t := TRelock]> (threads s)) s)
| step_call op m s s' : calls op m → m s = Ok (Some DDR_OK, s') → step s (LCall op) s'
| step_read r a s s' : run_read r s = Ok (a, s') → step s (LRead r a) s'
| step_init mode n s s' r : ctl s = CIdle → Init mode n s = Ok (r, s') → step s (LInit mode n) s'
| step_uninit s s' r : ctl s = CIdle → Uninit s = Ok (r, s') → step s LUninit s'
| step_start b s s' r : ctl s = CIdle → Start b s = Ok (r, s') → step s (LStart b) s'
| step_started s s' r : ctl s = CStarting → Start_latch s = Ok (r, s') → step s LStarted s'
| step_stop s s' r : ctl s = CIdle → Stop s = Ok (r, s') → step s LStop s'
| step_signalled s s' : ctl s = CSignal → Stop_signal s = Ok (tt, s') → step s LSignalled s'
| step_stopped s s' : ctl s = CWait → Stop_wait s = Ok (true, s') → step s LStopped s'.

Inductive steps : restorer → list label → restorer → Prop :=
| steps_nil s : steps s [] s
| steps_snoc s tr s' l s'' : steps s tr s' → step s' l s'' → steps s (tr ++ [l]) s''.

(** The operations that have been accepted. *)
Definition accepted (tr : list label) : list DataRestorerOperation :=
  omap (λ l, match l with LCall op => Some op | _ => None end) tr.

End restorer.
Arguments restorer : clear implicits.
Arguments mkRestorer {_}.

End GbRestorer.
