(* ===== verification/GbStore.v ===== *)
(** What the restorer stores, as finite maps, and that the managers' operations, run by the
    background thread on a client that obeys the laws, are those of the maps. *)

From stdpp Require Import strings.
From S2P Require Import Prelude GbStream GbStreamProps GbResp GbRespProps GbPool GbClient GbMgr GbSpec GbMgrFacts GbRestorer.
From stdpp Require Import options.
#[local] Open Scope Z_scope.

Module GbStore.
Import GbStream GbStreamProps GbResp GbRespProps GbPool GbClient GbMgr GbSpec GbMgrFacts GbRestorer.

(** ** The store *)

#[global] Instance OperationType_eq : EqDecision OperationType.
Proof. solve_decision. Defined.

Record store := mkStore {
  st_devices : gmap (list Z) Device; st_channels : gmap (list Z) Channel;
  st_cmds : list (gmap (list Z) ExecutingInviteCmd)   (* a map for each worker *)
}.

Definition apply_map {A} (id_of : A → list Z) (t : OperationType) (l : list A) (m : gmap (list Z) A) : gmap (list Z) A :=
  match t, l with
  | INSERT, a :: _ => <[id_of a := a]> m
  | DELETE, a :: _ => delete (id_of a) m
  | CLEAR, _ => ∅
  | UPDATE, l => insert_list id_of l ∅
  | _, [] => m
  end.

(** A worker that does not exist is ignored; clearing the commands of worker -1 clears all. *)
Definition apply_op (op : DataRestorerOperation) (σ : store) : store :=
  let no := executing_invite_cmd_list_no_ op in
  match entities_ op with
  | DEVICE l => mkStore (apply_map device_id_ (operation_type_ op) l (st_devices σ)) (st_channels σ) (st_cmds σ)
  | CHANNEL l => mkStore (st_devices σ) (apply_map GetChannelId (operation_type_ op) l (st_channels σ)) (st_cmds σ)
  | EXECUTING_INVITE_CMD l =>
      mkStore (st_devices σ) (st_channels σ)
        (match operation_type_ op with
         | CLEAR => if no =? -1 then (λ _, ∅) <$> st_cmds σ else if no <? 0 then st_cmds σ else alter (λ _, ∅) (Z.to_nat no) (st_cmds σ)
         | t => if no <? 0 then st_cmds σ else alter (apply_map GetId t l) (Z.to_nat no) (st_cmds σ)
         end)
  end.

Definition apply_ops (l : list DataRestorerOperation) (σ : store) : store := foldl (flip apply_op) σ l.

(** What an operation needs: records that can be stored, with ids that are not empty. *)
Definition map_ok {A} `{!DBSerialize A, !Stored A} (id_of : A → list Z) (K : list Z) (t : OperationType) (l : list A) (m : gmap (list Z) A) : Prop :=
  match t, l with
  | INSERT, a :: _ => entry_ok id_of K (id_of a) a ∧ listable (dom (<[id_of a := a]> m))
  | DELETE, a :: _ => id_of a ≠ [] ∧ short (K ++ id_of a)
  | CLEAR, _ => True
  | UPDATE, l => Forall (λ a, entry_ok id_of K (id_of a) a) l ∧ listable (dom (insert_list id_of l ∅))
  | _, [] => False
  end.

Definition op_ok (op : DataRestorerOperation) (σ : store) : Prop :=
  let no := executing_invite_cmd_list_no_ op in
  match entities_ op with
  | DEVICE l => map_ok device_id_ device_set_key (operation_type_ op) l (st_devices σ)
  | CHANNEL l => map_ok GetChannelId channel_set_key (operation_type_ op) l (st_channels σ)
  | EXECUTING_INVITE_CMD l => ∀ m, 0 ≤ no → st_cmds σ !! Z.to_nat no = Some m → map_ok GetId (cmd_set_key no) (operation_type_ op) l m
  end ∧
  match operation_type_ op, entities_ op with (INSERT | DELETE), (DEVICE [] | CHANNEL [] | EXECUTING_INVITE_CMD []) => False | _, _ => True end.

Fixpoint ops_ok (l : list DataRestorerOperation) (σ : store) : Prop :=
  match l with
  | [] => True
  | op :: l => op_ok op σ ∧ ops_ok l (apply_op op σ)
  end.

(** The commands of a worker as they are loaded. *)
Definition loaded (m : gmap (list Z) ExecutingInviteCmd) : list ExecutingInviteCmd :=
  (SetSipRestarted true ∘ keep (mkCmd [] [] 0 0 false)) <$> (map_to_list m).*2.

(** What a read returns; a load in any order.  In a load of all lists each round loads a list. *)
Definition read_spec (σ : store) (r : read) (a : answer) : Prop :=
  match r with
  | RDevice id d => a = match st_devices σ !! id with Some x => ADevice DDR_OK (keep d x) | None => ADevice DDR_FAIL d end
  | RChannel id c => a = match st_channels σ !! id with Some x => AChannel DDR_OK (keep c x) | None => AChannel DDR_FAIL c end
  | RCmd no id c =>
      a = match (if no <? 0 then None else st_cmds σ !! Z.to_nat no) ≫= (.!! id) with Some x => ACmd DDR_OK (keep c x) | None => ACmd DDR_FAIL c end
  | RDevices l => ∃ l', a = ADevices DDR_OK (l ++ l') ∧ l' ≡ₚ keep (Device_new []) <$> (map_to_list (st_devices σ)).*2
  | RChannels l => ∃ l', a = AChannels DDR_OK (l ++ l') ∧ l' ≡ₚ keep (Channel_new [] []) <$> (map_to_list (st_channels σ)).*2
  | RCmds no l =>
      match (if no <? 0 then None else st_cmds σ !! Z.to_nat no) with
      | Some m => ∃ l', a = ACmds DDR_OK (l ++ l') ∧ l' ≡ₚ loaded m
      | None => a = ACmds DDR_OK l
      end
  | RCmdLists _ => ∃ c, a = ACall c
  | RCmdListsNext _ =>
      match a with
      | ARound no l => ∃ m l0 l', st_cmds σ !! Z.to_nat no = Some m ∧ l = l0 ++ l' ∧ l' ≡ₚ loaded m
      | ACmdLists r _ => r = DDR_OK
      | _ => False
      end
  | RDeviceCount => a = ACount (Z.of_nat (size (st_devices σ)))
  | RChannelCount => a = ACount (Z.of_nat (size (st_channels σ)))
  | RCmdCount no => a = ACount (match (if no <? 0 then None else st_cmds σ !! Z.to_nat no) with Some m => Z.of_nat (size m) | None => -1 end)
  end.

Definition read_ok (r : read) : Prop :=
  match r with
  | RDevice id _ => short (device_set_key ++ id)
  | RChannel id _ => short (channel_set_key ++ id)
  | RCmd no id _ => short (cmd_set_key no ++ id)
  | _ => True
  end.

(** ** A clear of all lists under way *)

(** The first [i] workers' lists have been cleared. *)
Definition clear_first (i : nat) (σ : store) : store := mkStore (st_devices σ) (st_channels σ) (((λ _, ∅) <$> take i (st_cmds σ)) ++ drop i (st_cmds σ)).

Lemma clear_first_0 σ : clear_first 0 σ = σ.
Proof. by destruct σ. Qed.

Lemma clear_first_all op i σ : clears_all op = true → (length (st_cmds σ) ≤ i)%nat → clear_first i σ = apply_op op σ.
Proof.
  destruct op as [[] [l|l|l] no]; try done. intros Hno%Z.eqb_eq Hi. cbn in Hno. subst no. unfold clear_first, apply_op. cbn. by rewrite take_ge, drop_ge, app_nil_r by done.
Qed.

Lemma clear_first_lookup op i σ j :
  clears_all op = true → st_cmds (clear_first i σ) !! j = if decide (j < i)%nat then st_cmds (apply_op op σ) !! j else st_cmds σ !! j.
Proof.
  intros Hop. rewrite <-(clear_first_all op (length (st_cmds σ)) σ Hop) by done. cbn. rewrite firstn_all, drop_all, app_nil_r.
  destruct (decide (j < length (st_cmds σ))%nat) as [Hj|Hj].
  - case_decide as Hi; [rewrite lookup_app_l by (rewrite length_fmap, length_take; lia); by rewrite !list_lookup_fmap, lookup_take_lt|].
    rewrite lookup_app_r by (rewrite length_fmap, length_take; lia). rewrite length_fmap, length_take, lookup_drop. f_equal. lia.
  - assert (st_cmds σ !! j = None) as Hn by (apply lookup_ge_None; lia). rewrite list_lookup_fmap, Hn. rewrite (proj2 (lookup_ge_None _ _)); [by case_decide|]. rewrite length_app, length_fmap, length_take, length_drop. lia.
Qed.

(** A read of one list sees it before the clear or after it. *)
Lemma read_clear_first op i σ r a : clears_all op = true → read_spec (clear_first i σ) r a → read_spec σ r a ∨ read_spec (apply_op op σ) r a.
Proof.
  intros Hop. pose proof (λ j, clear_first_lookup op i σ j Hop) as Hj. destruct op as [[] [lo|lo|lo] no0]; try done. set (op := mkOperation _ _ _) in *.
  destruct r as [id d|id c|no id c|l|l|no l|ls|c| | |no]; cbn [read_spec]; try (by left); try (rewrite Hj; destruct (decide (Z.to_nat no < i)%nat); auto).
  destruct a as [| | | | | | |no l| |]; try (by left). intros (m & l0 & l' & Hm & Hl). rewrite Hj in Hm. destruct (decide (Z.to_nat no < i)%nat); [right|left]; by exists m, l0, l'.
Qed.

(** ** Keys of different managers *)

Definition apart (K K' : list Z) : Prop := ∀ id id', K ++ id ≠ K' ++ id'.

Lemma apart_sym K K' : apart K K' → apart K' K.
Proof. intros H id id' E. by apply (H id' id). Qed.

Lemma apart_take n K K' : (n ≤ length K)%nat → (n ≤ length K')%nat → take n K ≠ take n K' → apart K K'.
Proof. intros Hn Hn' Ht id id' E. apply Ht. apply (f_equal (take n)) in E. by rewrite !take_app_le in E by done. Qed.

Lemma digit_key n : 0 ≤ n < 10 → ToString n = [48 + n].
Proof. intros Hn. assert (n = 0 ∨ n = 1 ∨ n = 2 ∨ n = 3 ∨ n = 4 ∨ n = 5 ∨ n = 6 ∨ n = 7 ∨ n = 8 ∨ n = 9) as H by lia. by destruct_or! H; subst. Qed.

Lemma cmd_key_apart i j : 0 ≤ i < 10 → 0 ≤ j < 10 → i ≠ j → apart (cmd_set_key i) (cmd_set_key j).
Proof.
  intros Hi Hj Hne id id' E. unfold cmd_set_key in E. rewrite <-!app_assoc in E. apply app_inv_head in E. rewrite !digit_key in E by done. injection E as E _. lia.
Qed.

Lemma device_channel_apart : apart device_set_key channel_set_key.
Proof. by apply (apart_take 6); vm_compute; [lia|lia|]. Qed.
Lemma cmd_key_head i : (6 ≤ length (cmd_set_key i))%nat ∧ take 6 (cmd_set_key i) = take 6 cmd_set_key_prefix.
Proof.
  assert (6 ≤ length cmd_set_key_prefix)%nat by (vm_compute; lia). unfold cmd_set_key. split; [rewrite length_app; lia|by apply take_app_le].
Qed.
Lemma device_cmd_apart i : apart device_set_key (cmd_set_key i).
Proof. destruct (cmd_key_head i) as [Hl Ht]. apply (apart_take 6); [vm_compute; lia|done|]. by rewrite Ht. Qed.
Lemma channel_cmd_apart i : apart channel_set_key (cmd_set_key i).
Proof. destruct (cmd_key_head i) as [Hl Ht]. apply (apart_take 6); [vm_compute; lia|done|]. by rewrite Ht. Qed.

Lemma alter_at {A} (f : A → A) (l : list A) i m : l !! i = Some m → alter f i l = <[i := f m]> l.
Proof. intros Hm. rewrite list_insert_alter. apply list_alter_ext; [|done]. intros x Hx. congruence. Qed.

(** ** The store in a client's database *)

Section store.
Context {W : Type} `{!RedisApi W, !RedisLaws W}.
Implicit Types (σ : store) (w : W).

Definition dev_rep (m : gmap (list Z) Device) w : Prop := rep device_id_ device_set_key m w.
Definition chan_rep (m : gmap (list Z) Channel) w : Prop := rep GetChannelId channel_set_key m w.
Definition cmd_rep (i : Z) (m : gmap (list Z) ExecutingInviteCmd) w : Prop := rep GetId (cmd_set_key i) m w.

(** The keys of up to ten workers are apart. *)
Record sys (n : Z) σ w : Prop := {
  y_dev : dev_rep (st_devices σ) w;
  y_chan : chan_rep (st_channels σ) w;
  y_cmd i m : st_cmds σ !! i = Some m → cmd_rep (Z.of_nat i) m w;
  y_len : Z.of_nat (length (st_cmds σ)) = n;
  y_num : n ≤ 10;
}.

Lemma rep_frame {A} `{!DBSerialize A, !Stored A} (id_of : A → list Z) K K' m w w' :
  apart K K' → rep id_of K m w → idle w' → frame K' (ldb w) (ldb w') → rep id_of K m w'.
Proof.
  intros Ha Hr Hi Hf. assert (∀ id, ldb w' !! (K ++ id) = ldb w !! (K ++ id)) as H by (intros id; apply Hf, Ha). split; [done| |apply Hr|apply Hr]. split.
  - rewrite <-(app_nil_r K) at 1. rewrite H, app_nil_r. apply Hr.
  - intros id Hid. rewrite H. by apply Hr.
Qed.

Lemma sys_device n σ w w' m : sys n σ w → dev_rep m w' → frame device_set_key (ldb w) (ldb w') → sys n (mkStore m (st_channels σ) (st_cmds σ)) w'.
Proof.
  intros Hs Hr Hf. pose proof (r_idle _ _ _ _ Hr) as Hi. split; [done| | |apply Hs|apply Hs].
  - apply (rep_frame _ _ device_set_key _ w); [apply apart_sym, device_channel_apart|apply Hs|done|done].
  - intros i m' Hm. apply (rep_frame _ _ device_set_key _ w); [apply apart_sym, device_cmd_apart|by apply (y_cmd _ _ _ Hs)|done|done].
Qed.

Lemma sys_channel n σ w w' m : sys n σ w → chan_rep m w' → frame channel_set_key (ldb w) (ldb w') → sys n (mkStore (st_devices σ) m (st_cmds σ)) w'.
Proof.
  intros Hs Hr Hf. pose proof (r_idle _ _ _ _ Hr) as Hi. split; [|done| |apply Hs|apply Hs].
  - apply (rep_frame _ _ channel_set_key _ w); [apply device_channel_apart|apply Hs|done|done].
  - intros i m' Hm. apply (rep_frame _ _ channel_set_key _ w); [apply apart_sym, channel_cmd_apart|by apply (y_cmd _ _ _ Hs)|done|done].
Qed.

Lemma sys_cmd n σ w w' i m :
  sys n σ w → (i < length (st_cmds σ))%nat → cmd_rep (Z.of_nat i) m w' → frame (cmd_set_key (Z.of_nat i)) (ldb w) (ldb w') →
  sys n (mkStore (st_devices σ) (st_channels σ) (<[i := m]> (st_cmds σ))) w'.
Proof.
  intros Hs Hi Hr Hf. pose proof (r_idle _ _ _ _ Hr) as Hid. pose proof (y_len _ _ _ Hs). pose proof (y_num _ _ _ Hs). split.
  - apply (rep_frame _ _ (cmd_set_key (Z.of_nat i)) _ w); [apply device_cmd_apart|apply Hs|done|done].
  - apply (rep_frame _ _ (cmd_set_key (Z.of_nat i)) _ w); [apply channel_cmd_apart|apply Hs|done|done].
  - intros j m' Hm. cbn [st_cmds] in Hm. destruct (decide (j = i)) as [->|Hne]; [by rewrite list_lookup_insert_eq in Hm by done; injection Hm as <-|].
    rewrite list_lookup_insert_ne in Hm by done. pose proof (lookup_lt_Some _ _ _ Hm). apply (rep_frame _ _ (cmd_set_key (Z.of_nat i)) _ w); [apply cmd_key_apart; lia|by apply (y_cmd _ _ _ Hs)|done|done].
  - cbn. by rewrite length_insert.
  - done.
Qed.

Definition empty_store (n : Z) : store := mkStore ∅ ∅ (replicate (Z.to_nat n) ∅).

Lemma sys_empty n w : idle w → ldb w = ∅ → 0 ≤ n ≤ 10 → sys n (empty_store n) w.
Proof.
  intros Hi Hd Hn. split; [by apply rep_empty|by apply rep_empty| |cbn; rewrite length_replicate; lia|lia]. intros i m Hm. cbn in Hm. apply lookup_replicate in Hm as [-> _]. by apply rep_empty.
Qed.

(** ** One manager *)

Section one.
Context {A : Type} `{!DBSerialize A, !Stored A}.
Context (id_of : A → list Z) (K : list Z).

(** An operation of a manager in either mode. *)
Definition mgr_op (mode : RedisMode) (t : OperationType) (l : list A) (no_undo : list Z) : M W unit :=
  match t with
  | INSERT => x ← lift (first l); (if bool_decide (mode = STAND_ALONE_OR_PROXY_MODE) then insert_in_transaction id_of K K x else insert_in_cluster id_of K K no_undo x);; mret tt
  | DELETE => x ← lift (first l); (if bool_decide (mode = STAND_ALONE_OR_PROXY_MODE) then delete_in_transaction id_of K K x else delete_in_cluster id_of K K no_undo x);; mret tt
  | CLEAR => clear_all K K;; mret tt
  | UPDATE => update_all id_of K K l;; mret tt
  end.

Lemma mgr_op_ok mode t l U m w :
  rep id_of K m w → short K → map_ok id_of K t l m →
  ∃ w', mgr_op mode t l U w = Ok (tt, w') ∧ rep id_of K (apply_map id_of t l m) w' ∧ frame K (ldb w) (ldb w').
Proof.
  intros Hr HK Hok. unfold mgr_op. destruct t, l as [|a l]; cbn [map_ok] in Hok; try done; cbn [apply_map].
  - destruct Hok as [He Hl]. rewrite (bind_lift _ _ _ a) by done. case_bool_decide.
    + destruct (insert_tx_ok id_of K m w a Hr He Hl) as (w' & H1 & H2). exists w'. split; [by mstep H1|done].
    + destruct (insert_cl_ok id_of K U m w a Hr He Hl) as (w' & H1 & H2). exists w'. split; [by mstep H1|done].
  - destruct Hok as [Hne Hs]. rewrite (bind_lift _ _ _ a) by done. case_bool_decide.
    + destruct (delete_tx_ok id_of K m w a Hr Hne Hs) as (w' & H1 & H2). exists w'. split; [by mstep H1|done].
    + destruct (delete_cl_ok id_of K U m w a Hr Hne Hs) as (w' & H1 & H2). exists w'. split; [by mstep H1|done].
  - destruct (clear_all_ok id_of K m w Hr HK) as (w' & H1 & H2). exists w'. split; [by mstep H1|done].
  - destruct (clear_all_ok id_of K m w Hr HK) as (w' & H1 & H2). exists w'. split; [by mstep H1|done].
  - destruct Hok as [He Hl]. destruct (update_all_ok id_of K m w [] Hr HK He Hl) as (w' & H1 & H2). exists w'. split; [by mstep H1|done].
  - destruct Hok as [He Hl]. destruct (update_all_ok id_of K m w (a :: l) Hr HK He Hl) as (w' & H1 & H2). exists w'. split; [by mstep H1|done].
Qed.

End one.

(** ** An operation of the background thread *)

Lemma short_device : short device_set_key.
Proof. by vm_compute. Qed.
Lemma short_channel : short channel_set_key.
Proof. by vm_compute. Qed.
Lemma short_cmd i : short (cmd_set_key i).
Proof.
  unfold short, cmd_set_key. rewrite length_app. destruct (ToString_line i) as [_ H]. assert (length cmd_set_key_prefix = 26%nat) as -> by done. lia.
Qed.

Lemma worker_range n σ w no : sys n σ w → worker_ok n no = true → (Z.to_nat no < length (st_cmds σ))%nat ∧ Z.of_nat (Z.to_nat no) = no.
Proof.
  intros Hs H. unfold worker_ok in H. apply negb_true_iff, orb_false_iff in H as [H1 H2]. apply Z.ltb_ge in H1. apply Z.leb_gt in H2. pose proof (y_len _ _ _ Hs). lia.
Qed.

Lemma worker_out n σ w no : sys n σ w → worker_ok n no = false → no < 0 ∨ st_cmds σ !! Z.to_nat no = None.
Proof.
  intros Hs H. unfold worker_ok in H. apply negb_false_iff, orb_true_iff in H as [H|H]; [apply Z.ltb_lt in H; by left|]. apply Z.leb_le in H. pose proof (y_len _ _ _ Hs).
  destruct (Z.ltb_spec no 0); [by left|]. right. apply lookup_ge_None. lia.
Qed.

(** Commands of one worker. *)
Lemma cmd_op_ok n σ w mode t l no :
  sys n σ w → worker_ok n no = true → (∀ m, 0 ≤ no → st_cmds σ !! Z.to_nat no = Some m → map_ok GetId (cmd_set_key no) t l m) →
  ∃ w', mgr_op GetId (cmd_set_key no) mode t l cmd_key_prefix w = Ok (tt, w') ∧
    sys n (mkStore (st_devices σ) (st_channels σ) (if no <? 0 then st_cmds σ else alter (apply_map GetId t l) (Z.to_nat no) (st_cmds σ))) w'.
Proof.
  intros Hs Hw Hok. destruct (worker_range _ _ _ _ Hs Hw) as [Hlt Hno]. destruct (lookup_lt_is_Some_2 _ _ Hlt) as [m Hm]. pose proof (y_cmd _ _ _ Hs _ _ Hm) as Hr. rewrite Hno in Hr.
  destruct (mgr_op_ok GetId (cmd_set_key no) mode t l cmd_key_prefix m w Hr (short_cmd no)) as (w' & H1 & H2 & H3); [apply Hok; [lia|done]|]. exists w'. split; [done|].
  rewrite (proj2 (Z.ltb_ge _ _)) by lia. rewrite <-Hno in H2, H3. pose proof (sys_cmd n σ w w' _ _ Hs Hlt H2 H3) as Hsys.
  assert (<[Z.to_nat no := apply_map GetId t l m]> (st_cmds σ) = alter (apply_map GetId t l) (Z.to_nat no) (st_cmds σ)) as <-; [|done].
  by rewrite (alter_at _ _ _ m).
Qed.

(** A round of the clear of all lists. *)
Lemma clear_next_ok n σ w i :
  sys n (clear_first i σ) w → Z.of_nat (length (st_cmds σ)) = n → (i ≤ length (st_cmds σ))%nat →
  ∃ w', Clear_all_next n (Z.of_nat i) w = Ok (if decide (i < length (st_cmds σ))%nat then Some (Z.of_nat (S i)) else None, w') ∧ sys n (clear_first (S i) σ) w'.
Proof.
  intros Hs Hn Hi. unfold Clear_all_next. case_decide as Hlt.
  - rewrite (proj2 (Z.ltb_lt _ _)) by lia. cbn [negb]. assert (worker_ok n (Z.of_nat i) = true) as Hw. { unfold worker_ok. rewrite (proj2 (Z.ltb_ge _ _)), (proj2 (Z.leb_gt _ _)) by lia. done. }
    destruct (cmd_op_ok n _ w STAND_ALONE_OR_PROXY_MODE CLEAR [] (Z.of_nat i) Hs Hw ltac:(done)) as (w1 & H1 & Hs1). rewrite (proj2 (Z.ltb_ge _ _)), Nat2Z.id in Hs1 by lia. exists w1. split.
    + unfold Clear, ClearWithLockHeld. rewrite Hw. cbn [negb]. unfold mgr_op in H1. change (cmd_prefix (Z.of_nat i)) with (cmd_set_key (Z.of_nat i)).
      unfold mbind, M_bind in H1 |- *. destruct (clear_all _ _ w) as [[r w3]|]; [|done]. injection H1 as ->. replace (Z.of_nat i + 1) with (Z.of_nat (S i)) by lia. done.
    + assert (alter (apply_map GetId CLEAR []) i (st_cmds (clear_first i σ)) = st_cmds (clear_first (S i) σ)) as E; [|by rewrite E in Hs1].
      destruct (lookup_lt_is_Some_2 (st_cmds σ) i Hlt) as [m Hm]. cbn. rewrite (drop_S (st_cmds σ) m i), (take_S_r _ _ m), fmap_app by done.
      rewrite alter_app_r_alt by (rewrite length_fmap, length_take; lia). rewrite length_fmap, length_take. replace (i - _)%nat with 0%nat by lia. by rewrite <-app_assoc.
  - rewrite (proj2 (Z.ltb_ge _ _)) by lia. exists w. split; [done|]. assert (clear_first (S i) σ = clear_first i σ) as ->; [|done]. unfold clear_first. by rewrite !take_ge, !drop_ge by lia.
Qed.

Lemma perform_device mode t l no n w : perform (mkOperation t (DEVICE l) no) mode n w = mgr_op device_id_ device_set_key mode t l device_key_prefix w.
Proof. by destruct t. Qed.
Lemma perform_channel mode t l no n w : perform (mkOperation t (CHANNEL l) no) mode n w = mgr_op GetChannelId channel_set_key mode t l channel_key_prefix w.
Proof. by destruct t. Qed.
Lemma perform_cmd mode t l no n w :
  worker_ok n no = true → perform (mkOperation t (EXECUTING_INVITE_CMD l) no) mode n w = mgr_op GetId (cmd_set_key no) mode t l cmd_key_prefix w.
Proof.
  intros Hw. by destruct t; cbn [perform operation_type_ entities_ executing_invite_cmd_list_no_]; unfold Insert, Delete, Clear, ClearWithLockHeld, Update; rewrite Hw.
Qed.
Lemma perform_cmd_out mode t l no n w :
  worker_ok n no = false → (t = INSERT ∨ t = DELETE → l ≠ []) → perform (mkOperation t (EXECUTING_INVITE_CMD l) no) mode n w = Ok (tt, w).
Proof.
  intros Hw Hl. destruct t; cbn [perform operation_type_ entities_ executing_invite_cmd_list_no_]; unfold Insert, Delete, Clear, ClearWithLockHeld, Update; rewrite ?Hw; try done.
  - destruct l; [by destruct (Hl (or_introl eq_refl))|done].
  - destruct l; [by destruct (Hl (or_intror eq_refl))|done].
Qed.

(** The thread's operations are those of the store. *)
Lemma perform_ok op mode n σ w :
  sys n σ w → op_ok op σ → clears_all op = false → ∃ w', perform op mode n w = Ok (tt, w') ∧ sys n (apply_op op σ) w'.
Proof.
  intros Hs [Hok Hl] Hca. destruct op as [t [l|l|l] no]; cbn [entities_ operation_type_ executing_invite_cmd_list_no_] in *; unfold apply_op; cbn [entities_ operation_type_ executing_invite_cmd_list_no_].
  - rewrite perform_device. destruct (mgr_op_ok device_id_ device_set_key mode t l device_key_prefix _ w (y_dev _ _ _ Hs) short_device Hok) as (w' & H1 & H2 & H3). exists w'. split; [done|]. by apply (sys_device n σ w).
  - rewrite perform_channel. destruct (mgr_op_ok GetChannelId channel_set_key mode t l channel_key_prefix _ w (y_chan _ _ _ Hs) short_channel Hok) as (w' & H1 & H2 & H3). exists w'. split; [done|]. by apply (sys_channel n σ w).
  - assert (∃ w', perform (mkOperation t (EXECUTING_INVITE_CMD l) no) mode n w = Ok (tt, w') ∧
        sys n (mkStore (st_devices σ) (st_channels σ) (if no <? 0 then st_cmds σ else alter (apply_map GetId t l) (Z.to_nat no) (st_cmds σ))) w') as (w' & H1 & H2).
    { destruct (worker_ok n no) eqn:Hw; [rewrite perform_cmd by done; by apply cmd_op_ok|]. exists w. split.
      - apply perform_cmd_out; [done|]. intros [-> | ->]; by destruct l.
      - destruct (worker_out n σ w no Hs Hw) as [Hneg|Hnone]; [rewrite (proj2 (Z.ltb_lt _ _)) by done; by destruct σ|].
        assert (alter (apply_map GetId t l) (Z.to_nat no) (st_cmds σ) = st_cmds σ) as ->; [|by destruct σ, (no <? 0)]. apply list_eq. intros i. rewrite list_lookup_alter. case_decide as E; [|done]. subst i. by rewrite Hnone. }
    exists w'. split; [done|]. destruct t; [done|done| |done]. cbn in Hca. by rewrite Hca.
Qed.

End store.

End GbStore.
