(* ===== verification/GbMgrProps.v ===== *)
(** Records that the managers lose: the key of the set and the prefix of the records are the same
    string, and the numbers of the workers are not set off from the ids. *)

From stdpp Require Import strings.
From S2P Require Import Prelude GbStream GbStreamProps GbResp GbRespProps GbPool GbClient GbMgr GbSpec GbMgrFacts GbLink GbToy GbRestorer GbStore.
From stdpp Require Import options.
#[local] Open Scope Z_scope.

Module GbMgrProps.
Import GbStream GbStreamProps GbResp GbRespProps GbPool GbClient GbMgr GbSpec GbMgrFacts GbLink GbToy GbRestorer GbStore.

Section mgr.
Context {W : Type} `{!RedisApi W, !RedisLaws W}.
Implicit Types (w : W).

(** A device with an empty id is stored under the key of the set of ids: the insertion reports
    failure, the set has become a string, and [LoadDevices] returns success with none of the
    devices that were stored before. *)
Theorem gb_empty_id_hides_devices m w d l :
  dev_rep m w → device_id_ d = [] → storable d → short (enc d) →
  ∃ w1 w2, InsertDevice STAND_ALONE_OR_PROXY_MODE d w = Ok (-1, w1) ∧ LoadDevices l w1 = Ok ((0, l), w2).
Proof.
  intros Hr Hid Hst Hse. pose proof short_device as HsK. unfold InsertDevice. rewrite bool_decide_true by done. unfold InsertDeviceInTransaction, insert_in_transaction. rewrite Hid, app_nil_r. change device_key_prefix with device_set_key. set (K := device_set_key) in *.
  destruct (transaction_run w (λ con, [tx_set con K d; tx_sadd con K []]) [QSet K (enc d); QSadd K []]) as (w1 & H1 & Hi1 & Hd1).
  - apply Hr.
  - simpl. lia.
  - intros con w0 Hq Hd. rewrite <-Hd. by apply insert_queues.
  - rewrite q_runs2 in H1, Hd1. cbn [q_run fst] in H1, Hd1. rewrite lookup_insert_eq in H1, Hd1. cbn in H1, Hd1. exists w1.
    destruct (law_smembers_str w1 K (enc d) Hi1 HsK) as (w2 & H2 & _); [by rewrite Hd1, lookup_insert_eq|]. exists w2. split; [done|]. unfold LoadDevices, load_all. by mstep H2.
Qed.

Lemma insert_standalone n c no w :
  worker_ok n no = true → Insert STAND_ALONE_OR_PROXY_MODE n c no w = insert_in_transaction GetId (cmd_set_key no) (cmd_set_key no) c w.
Proof. intros Hw. unfold Insert. by rewrite Hw, bool_decide_true by done. Qed.

(** With more than ten workers their keys overlap: a command of worker 1 whose id begins with
    the digit 0 is stored over the command of worker 10 with the rest of that id.  The insertion
    succeeds, and worker 10 then finds the command of worker 1. *)
Theorem gb_worker_keys_overlap n m w c id (x old : ExecutingInviteCmd) s1 :
  10 < n → cmd_rep 10 m w → m !! id = Some old → set_at (ldb w) (cmd_set_key 1) s1 →
  GetId c = 48 :: id → text (GetId c) → short (cmd_set_key 1 ++ GetId c) → storable c → short (enc c) →
  ∃ w1 w2, Insert STAND_ALONE_OR_PROXY_MODE n c 1 w = Ok (0, w1) ∧ Search n id x 10 w1 = Ok ((0, keep x c), w2).
Proof.
  intros Hn Hr Hm Hs1 Hid Htx Hsk Hst Hse. set (K1 := cmd_set_key 1) in *. set (K2 := cmd_set_key 10) in *. assert (K2 = K1 ++ [48]) as HK by done. assert (worker_ok n 1 = true ∧ worker_ok n 10 = true) as [Hw1 Hw2].
  { unfold worker_ok. rewrite (proj2 (Z.leb_gt n 1)), (proj2 (Z.leb_gt n 10)) by lia. done. }
  destruct (entry_id _ _ _ _ _ (r_entries _ _ _ _ Hr) Hm) as [Hne Hsk2]. fold K2 in Hsk2. destruct (short_K K2 id Hsk2) as [HsK2 Hsi2]. destruct (short_K K1 (GetId c) Hsk) as [HsK1 Hsi].
  assert (K1 ++ GetId c = K2 ++ id) as Hkey by (rewrite Hid, HK, <-app_assoc; done). assert (K1 ≠ K2) as Hne12 by (rewrite HK; intros E; apply (f_equal length) in E; rewrite length_app in E; simpl in E; lia).
  assert (K1 ++ GetId c ≠ K1) as Hne1 by (rewrite Hid; intros E; apply (f_equal length) in E; rewrite length_app in E; simpl in E; lia). assert (K2 ++ id ≠ K2) as Hne2 by (by apply key_ne).
  destruct (transaction_run w (λ con, [tx_set con (K1 ++ GetId c) c; tx_sadd con K1 (GetId c)]) [QSet (K1 ++ GetId c) (enc c); QSadd K1 (GetId c)]) as (w1 & H1 & Hi1 & Hd1).
  - apply Hr.
  - simpl. lia.
  - intros con w0 Hq Hd. rewrite <-Hd. by apply insert_queues.
  - assert ((q_runs (ldb w) [QSet (K1 ++ GetId c) (enc c); QSadd K1 (GetId c)]) = (<[K1 := RSet ({[GetId c]} ∪ s1)]> (<[K1 ++ GetId c := RStr (enc c)]> (ldb w)), [RStatus (lit "OK"); num (bool_decide (GetId c ∉ s1))])) as Eq.
    { rewrite q_runs2. cbn [q_run fst snd]. rewrite lookup_insert_ne by done. destruct Hs1 as [-> | [-> ->]]; [done|]. rewrite (right_id_L ∅ (∪)). rewrite bool_decide_true by set_solver. done. }
    rewrite Eq in H1, Hd1. cbn [fst snd] in H1, Hd1.
    destruct (law_sismember w1 K2 id (dom m) Hi1 HsK2 Hsi2) as (w2 & H2 & Hi2 & Hd2).
    { rewrite Hd1. unfold set_at. rewrite lookup_insert_ne, lookup_insert_ne by (rewrite ?Hkey; done). exact (holds_set_at _ _ _ (r_holds _ _ _ _ Hr)). }
    rewrite bool_decide_true in H2 by (apply elem_of_dom; by exists old). destruct (load_stored c x Hst) as (i & Hi & Herr).
    destruct (law_get w2 (K2 ++ id) (enc c) x (keep x c) i Hi2 Hsk2 Hse) as (w3 & H3 & _); [by rewrite Hd2, Hd1, <-Hkey, lookup_insert_ne, lookup_insert_eq|done|]. rewrite Herr in H3.
    exists w1, w3. split.
    + rewrite insert_standalone by done. unfold insert_in_transaction. fold K1. rewrite H1. by case_bool_decide.
    + unfold Search, search. rewrite Hw2. cbn [negb]. change (cmd_prefix 10) with K2. fold K2. mstep H2. by mstep H3.
Qed.

End mgr.

(** ** The witnesses *)

(** Nothing below depends on how the client was made. *)
#[local] Opaque toy_client.

Lemma toy_rep {A} `{!DBSerialize A, !Stored A} (id_of : A → list Z) K : rep id_of K ∅ toy_client.
Proof. destruct toy_client_at as (_ & Hk & Hd). by apply rep_empty. Qed.

(** One stored record. *)
Lemma toy_insert {A} `{!DBSerialize A, !Stored A} (id_of : A → list Z) K a :
  entry_ok id_of K (id_of a) a → ∃ w, insert_in_transaction id_of K K a toy_client = Ok (0, w) ∧ rep id_of K {[id_of a := a]} w ∧ frame K (ldb toy_client) (ldb w).
Proof.
  intros He. destruct (insert_tx_ok id_of K ∅ toy_client a (toy_rep id_of K) He) as (w & H1 & H2 & H3); [|exists w; split; [exact H1|]; split; [|exact H3]; exact H2]. destruct He as (_ & _ & Ht & Hs & _). rewrite insert_empty, dom_singleton_L. split.
  - unfold listing. rewrite elements_singleton. unfold short in Hs. rewrite length_app in Hs. cbn. lia.
  - intros x Hx. apply elem_of_singleton in Hx as ->. done.
Qed.

Definition dev_1 : Device := Device_new (lit "1").

Lemma gb_empty_id_hides_devices_witness :
  ∃ w w1 w2, InsertDevice STAND_ALONE_OR_PROXY_MODE dev_1 toy_client = Ok (0, w) ∧ InsertDevice STAND_ALONE_OR_PROXY_MODE (Device_new []) w = Ok (-1, w1) ∧ LoadDevices [] w1 = Ok ((0, []), w2).
Proof.
  destruct (toy_insert device_id_ device_set_key dev_1) as (w & H & Hr & _); [split_and!; (done || by repeat constructor)|].
  destruct (gb_empty_id_hides_devices _ w (Device_new []) [] Hr eq_refl) as (w1 & w2 & H1 & H2); [split_and!; by repeat constructor|done|]. exists w, w1, w2. split; [exact H|]. split; [exact H1|exact H2].
Defined.

Definition cmd_10 : ExecutingInviteCmd := mkCmd (lit "s") (lit "d") 0 5 false.
Definition cmd_1 : ExecutingInviteCmd := mkCmd (lit "0s") (lit "d") 1 5 false.

Lemma gb_worker_keys_overlap_witness :
  ∃ w w1 w2, Insert STAND_ALONE_OR_PROXY_MODE 11 cmd_10 10 toy_client = Ok (0, w) ∧ Insert STAND_ALONE_OR_PROXY_MODE 11 cmd_1 1 w = Ok (0, w1) ∧
    Search 11 (lit "sd5") cmd_10 10 w1 = Ok ((0, cmd_1), w2).
Proof.
  destruct (toy_insert GetId (cmd_set_key 10) cmd_10) as (w & H & Hr & Hf); [split_and!; (done || by repeat constructor)|].
  pose proof (gb_worker_keys_overlap 11 {[GetId cmd_10 := cmd_10]} w cmd_1 (lit "sd5") cmd_10 cmd_10 ∅ ltac:(lia) Hr (lookup_singleton_eq _ _)) as Hov.
  destruct Hov as (w1 & w2 & H1 & H2).
  - right. split; [|done]. assert (ldb toy_client = ∅) as Hdb by exact (proj2 (proj2 toy_client_at)). rewrite Hf; [by rewrite Hdb|]. intros id E. apply (f_equal length) in E. rewrite length_app in E. change (length (cmd_set_key 1)) with 27%nat in E. change (length (cmd_set_key 10)) with 28%nat in E. lia.
  - done.
  - by repeat constructor.
  - by vm_compute.
  - split_and!; by repeat constructor.
  - by vm_compute.
  - exists w, w1, w2. split; [rewrite insert_standalone by done; exact H|]. split; [exact H1|exact H2].
Defined.

End GbMgrProps.
