(* ===== verification/GbRestorerFacts.v ===== *)
(** Steps of the restorer over a client that obeys the laws: reads and the background thread's
    operations keep the store, and the invariant of a restorer that has been started once. *)

From stdpp Require Import strings.
From S2P Require Import Prelude GbStream GbStreamProps GbResp GbRespProps GbPool GbClient GbMgr GbSpec GbMgrFacts GbRestorer GbStore.
From stdpp Require Import options.
#[local] Open Scope Z_scope.

Module GbRestorerFacts.
Import GbStream GbStreamProps GbResp GbRespProps GbPool GbClient GbMgr GbSpec GbMgrFacts GbRestorer GbStore.

#[global] Instance place_eq_dec_sleep p : Decision (p = TSleep).
Proof. destruct p; (by left) || by right. Defined.

Section reads.
Context {W : Type} `{!RedisApi W, !RedisLaws W}.
Implicit Types (σ : store) (w : W).

(** A call that leaves a manager's map as it is leaves the store. *)
Lemma sys_device_same n σ w w' : sys n σ w → dev_rep (st_devices σ) w' → frame device_set_key (ldb w) (ldb w') → sys n σ w'.
Proof. intros Hs Hr Hf. pose proof (sys_device n σ w w' _ Hs Hr Hf). by destruct σ. Qed.
Lemma sys_channel_same n σ w w' : sys n σ w → chan_rep (st_channels σ) w' → frame channel_set_key (ldb w) (ldb w') → sys n σ w'.
Proof. intros Hs Hr Hf. pose proof (sys_channel n σ w w' _ Hs Hr Hf). by destruct σ. Qed.
Lemma sys_cmd_same n σ w w' i m : sys n σ w → st_cmds σ !! i = Some m → cmd_rep (Z.of_nat i) m w' → frame (cmd_set_key (Z.of_nat i)) (ldb w) (ldb w') → sys n σ w'.
Proof.
  intros Hs Hm Hr Hf. pose proof (sys_cmd n σ w w' i m Hs (lookup_lt_Some _ _ _ Hm) Hr Hf) as H. rewrite list_insert_id in H by done. by destruct σ.
Qed.

Lemma worker_map n σ w no : sys n σ w → worker_ok n no = true → ∃ m, (if no <? 0 then None else st_cmds σ !! Z.to_nat no) = Some m ∧ st_cmds σ !! Z.to_nat no = Some m ∧ cmd_rep no m w ∧ Z.of_nat (Z.to_nat no) = no.
Proof.
  intros Hs Hw. destruct (worker_range n σ w no Hs Hw) as [Hlt Hno]. destruct (lookup_lt_is_Some_2 _ _ Hlt) as [m Hm]. exists m. rewrite (proj2 (Z.ltb_ge _ _)) by lia.
  split; [done|]. split; [done|]. split; [|done]. pose proof (y_cmd _ _ _ Hs _ _ Hm) as H. by rewrite Hno in H.
Qed.

Lemma worker_none n σ w no : sys n σ w → worker_ok n no = false → (if no <? 0 then None else st_cmds σ !! Z.to_nat no) = None.
Proof. intros Hs Hw. destruct (worker_out n σ w no Hs Hw) as [H|H]; [by rewrite (proj2 (Z.ltb_lt _ _))|]. by destruct (no <? 0). Qed.

Lemma search_device_ok n σ w id d :
  sys n σ w → short (device_set_key ++ id) → ∃ w', SearchDevice id d w = Ok (match st_devices σ !! id with Some a => (0, keep d a) | None => (-1, d) end, w') ∧ sys n σ w'.
Proof. intros Hs Hid. destruct (search_ok device_id_ device_set_key _ w id d (y_dev _ _ _ Hs) Hid) as (w' & H1 & H2 & H3). exists w'. split; [done|]. by apply (sys_device_same n σ w). Qed.

Lemma search_channel_ok n σ w id c :
  sys n σ w → short (channel_set_key ++ id) → ∃ w', SearchChannel id c w = Ok (match st_channels σ !! id with Some a => (0, keep c a) | None => (-1, c) end, w') ∧ sys n σ w'.
Proof. intros Hs Hid. destruct (search_ok GetChannelId channel_set_key _ w id c (y_chan _ _ _ Hs) Hid) as (w' & H1 & H2 & H3). exists w'. split; [done|]. by apply (sys_channel_same n σ w). Qed.

Lemma search_cmd_ok n σ w no id c :
  sys n σ w → short (cmd_set_key no ++ id) →
  ∃ w', Search n id c no w = Ok (match (if no <? 0 then None else st_cmds σ !! Z.to_nat no) ≫= (.!! id) with Some a => (0, keep c a) | None => (-1, c) end, w') ∧ sys n σ w'.
Proof.
  intros Hs Hid. unfold Search. destruct (worker_ok n no) eqn:Hw; cbn [negb].
  - destruct (worker_map n σ w no Hs Hw) as (m & -> & Hm & Hr & Hno). destruct (search_ok GetId (cmd_set_key no) m w id c Hr Hid) as (w' & H1 & H2 & H3). exists w'. split; [done|].
    apply (sys_cmd_same n σ w w' (Z.to_nat no) m); rewrite ?Hno; done.
  - exists w. by rewrite (worker_none n σ w no Hs Hw).
Qed.

Lemma load_devices_ok n σ w l :
  sys n σ w → ∃ l' w', LoadDevices l w = Ok ((0, l ++ l'), w') ∧ l' ≡ₚ keep (Device_new []) <$> (map_to_list (st_devices σ)).*2 ∧ sys n σ w'.
Proof.
  intros Hs. destruct (load_all_ok device_id_ device_set_key _ w (Device_new []) id l (y_dev _ _ _ Hs) short_device) as (l' & w' & H1 & Hp & H2 & H3). exists l', w'. split; [done|]. split; [done|]. by apply (sys_device_same n σ w).
Qed.

Lemma load_channels_ok n σ w l :
  sys n σ w → ∃ l' w', LoadChannels l w = Ok ((0, l ++ l'), w') ∧ l' ≡ₚ keep (Channel_new [] []) <$> (map_to_list (st_channels σ)).*2 ∧ sys n σ w'.
Proof.
  intros Hs. destruct (load_all_ok GetChannelId channel_set_key _ w (Channel_new [] []) id l (y_chan _ _ _ Hs) short_channel) as (l' & w' & H1 & Hp & H2 & H3). exists l', w'. split; [done|]. split; [done|]. by apply (sys_channel_same n σ w).
Qed.

Lemma load_cmds_ok n σ w no l m :
  sys n σ w → st_cmds σ !! no = Some m →
  ∃ l' w', Load n (Z.of_nat no) l w = Ok ((0, l ++ l'), w') ∧ l' ≡ₚ loaded m ∧ sys n σ w'.
Proof.
  intros Hs Hm. pose proof (lookup_lt_Some _ _ _ Hm) as Hlt. pose proof (y_len _ _ _ Hs) as Hlen. unfold Load. assert (worker_ok n (Z.of_nat no) = true) as ->.
  { unfold worker_ok. rewrite (proj2 (Z.ltb_ge _ _)), (proj2 (Z.leb_gt _ _)) by lia. done. }
  cbn [negb]. destruct (load_all_ok GetId (cmd_set_key (Z.of_nat no)) m w (mkCmd [] [] 0 0 false) (SetSipRestarted true) l (y_cmd _ _ _ Hs _ _ Hm) (short_cmd _)) as (l' & w' & H1 & Hp & H2 & H3).
  exists l', w'. split; [done|]. split; [done|]. by apply (sys_cmd_same n σ w w' no m).
Qed.

(** A round of the load of all lists. *)
Lemma load_next_ok n σ w i ls :
  sys n σ w → Z.of_nat (length ls) = n → (i < length ls)%nat →
  ∃ l0 m l' w', ls !! i = Some l0 ∧ st_cmds σ !! i = Some m ∧ l' ≡ₚ loaded m ∧ Load_all_next n (Z.of_nat i) ls w = Ok (Some (Z.of_nat (S i), <[i := l0 ++ l']> ls), w') ∧ sys n σ w'.
Proof.
  intros Hs Hn Hi. pose proof (y_len _ _ _ Hs). destruct (lookup_lt_is_Some_2 ls i Hi) as [l0 Hl0]. destruct (lookup_lt_is_Some_2 (st_cmds σ) i ltac:(lia)) as [m Hm].
  destruct (load_cmds_ok n σ w i l0 m Hs Hm) as (l' & w' & H1 & Hp & Hs'). exists l0, m, l', w'. do 3 (split; [done|]). split; [|done].
  unfold Load_all_next. rewrite (proj2 (Z.ltb_lt _ _)) by lia. cbn [negb]. rewrite Nat2Z.id. rewrite (bind_lift _ _ _ l0) by (by rewrite Hl0). mstep H1. by replace (Z.of_nat i + 1) with (Z.of_nat (S i)) by lia.
Qed.

Lemma count_devices_ok n σ w : sys n σ w → ∃ w', GbMgr.GetDeviceCount w = Ok (Z.of_nat (size (st_devices σ)), w') ∧ sys n σ w'.
Proof. intros Hs. destruct (count_ok device_id_ device_set_key _ w (y_dev _ _ _ Hs) short_device) as (w' & H1 & H2 & H3). exists w'. split; [done|]. by apply (sys_device_same n σ w). Qed.
Lemma count_channels_ok n σ w : sys n σ w → ∃ w', GbMgr.GetChannelCount w = Ok (Z.of_nat (size (st_channels σ)), w') ∧ sys n σ w'.
Proof. intros Hs. destruct (count_ok GetChannelId channel_set_key _ w (y_chan _ _ _ Hs) short_channel) as (w' & H1 & H2 & H3). exists w'. split; [done|]. by apply (sys_channel_same n σ w). Qed.
Lemma count_cmds_ok n σ w no :
  sys n σ w → ∃ w', GetExecutingInviteCmdListSize n no w = Ok (match (if no <? 0 then None else st_cmds σ !! Z.to_nat no) with Some m => Z.of_nat (size m) | None => -1 end, w') ∧ sys n σ w'.
Proof.
  intros Hs. unfold GetExecutingInviteCmdListSize. destruct (worker_ok n no) eqn:Hw; cbn [negb].
  - destruct (worker_map n σ w no Hs Hw) as (m & -> & Hm & Hr & Hno). destruct (count_ok GetId (cmd_set_key no) m w Hr (short_cmd no)) as (w' & H1 & H2 & H3). exists w'. split; [done|].
    apply (sys_cmd_same n σ w w' (Z.to_nat no) m); rewrite ?Hno; done.
  - exists w. by rewrite (worker_none n σ w no Hs Hw).
Qed.

End reads.

(** ** The restorer *)

Section restorer.
Context {W : Type} `{!RedisApi W, !RedisLaws W}.
Context (client_init : RedisMode → Z → option W) (client_free : M W bool).
Implicit Types (σ : store) (s : restorer W) (h : list DataRestorerOperation).

(** The client that the managers use holds the store [σ]. *)
Definition attached (mg : managers) σ s : Prop := ∃ k, clients s !! mg_client mg = Some k ∧ sys (mg_workers mg) σ k.

Lemma on_managers_ok {A} (f : RedisMode → Z → M W A) s mg k a k' :
  clients s !! mg_client mg = Some k → f (mg_mode mg) (mg_workers mg) k = Ok (a, k') →
  on_managers (Some mg) f s = Ok (a, set_clients (<[mg_client mg := k']> (clients s)) s).
Proof.
  intros Hk Hf. unfold on_managers. rewrite bind_get. rewrite (bind_lift _ _ _ mg) by done. rewrite (bind_lift _ _ _ k) by (by rewrite Hk). by rewrite (bind_lift _ _ _ _ Hf).
Qed.
Lemma with_managers_ok {A} (f : RedisMode → Z → M W A) s mg k a k' :
  mgrs s = Some mg → clients s !! mg_client mg = Some k → f (mg_mode mg) (mg_workers mg) k = Ok (a, k') →
  with_managers f s = Ok (a, set_clients (<[mg_client mg := k']> (clients s)) s).
Proof.
  intros Hm Hk Hf. unfold with_managers. rewrite bind_get, Hm. by apply (on_managers_ok f s mg k).
Qed.

Lemma attached_set mg σ s k : sys (mg_workers mg) σ k → attached mg σ (set_clients (<[mg_client mg := k]> (clients s)) s).
Proof. intros Hs. exists k. split; [apply lookup_insert_eq|done]. Qed.

(** The call runs [f] on the managers, which leads to client [k']. *)
Tactic Notation "read_with" uconstr(f) constr(k') constr(H) :=
  match goal with
  | Hm : mgrs ?s = Some ?mg, Hk : clients ?s !! mg_client ?mg = Some ?k, Hch : check_started ?s = _ |- _ =>
      let Hw := fresh "Hw" in
      pose proof (with_managers_ok f s mg k _ k' Hm Hk H) as Hw; eexists _, k'; split; [first [unfold mbind at 1 2 3, M_bind at 1 2 3 | unfold mbind, M_bind]; rewrite Hch, Hw; reflexivity|]
  end.

(** The reads that are one step. *)
Definition plain (r : read) : bool := match r with RCmdLists _ | RCmdListsNext _ => false | _ => true end.

Lemma run_read_ok r σ s mg :
  plain r = true → started_ s = true → mgrs s = Some mg → attached mg σ s → read_ok r →
  ∃ a k, run_read r s = Ok (a, set_clients (<[mg_client mg := k]> (clients s)) s) ∧ read_spec σ r a ∧ sys (mg_workers mg) σ k.
Proof.
  intros Hpl Hst Hm (k & Hk & Hs) Hok. assert (check_started s = Ok (tt, s)) as Hch by (unfold check_started; rewrite bind_get; by rewrite Hst).
  destruct r as [id d|id c|no id c|l|l|no l|ls|c| | |no]; try done; cbn [read_ok] in Hok; cbn [run_read read_spec]; unfold SelectDeviceList, SelectChannelList, SelectExecutingInviteCmdList, LoadDeviceList, LoadChannelList, LoadExecutingInviteCmdList, GetDeviceCount, GetChannelCount, GetExecutingInviteCmdCount.
  - destruct (search_device_ok _ σ k id d Hs Hok) as (k' & H & Hs'). read_with (λ _ _, SearchDevice id d) k' H. split; [by destruct (_ !! id)|done].
  - destruct (search_channel_ok _ σ k id c Hs Hok) as (k' & H & Hs'). read_with (λ _ _, SearchChannel id c) k' H. split; [by destruct (_ !! id)|done].
  - destruct (search_cmd_ok _ σ k no id c Hs Hok) as (k' & H & Hs'). read_with (λ _ n, Search n id c no) k' H. split; [by destruct (_ ≫= _)|done].
  - destruct (load_devices_ok _ σ k l Hs) as (l' & k' & H & Hp & Hs'). read_with (λ _ _, LoadDevices l) k' H. split; [by exists l'|done].
  - destruct (load_channels_ok _ σ k l Hs) as (l' & k' & H & Hp & Hs'). read_with (λ _ _, LoadChannels l) k' H. split; [by exists l'|done].
  - destruct (worker_ok (mg_workers mg) no) eqn:Hwk.
    + destruct (worker_map _ σ k no Hs Hwk) as (m & -> & Hm' & Hr & Hno). destruct (load_cmds_ok _ σ k (Z.to_nat no) l m Hs Hm') as (l' & k' & H & Hp & Hs'). rewrite Hno in H.
      read_with (λ _ n, Load n no l) k' H. split; [by exists l'|done].
    + rewrite (worker_none _ σ k no Hs Hwk). assert (Load (mg_workers mg) no l k = Ok ((-1, l), k)) as H by (unfold Load; by rewrite Hwk).
      read_with (λ _ n, Load n no l) k H. done.
  - destruct (count_devices_ok _ σ k Hs) as (k' & H & Hs'). by read_with (λ _ _, GbMgr.GetDeviceCount) k' H.
  - destruct (count_channels_ok _ σ k Hs) as (k' & H & Hs'). by read_with (λ _ _, GbMgr.GetChannelCount) k' H.
  - destruct (count_cmds_ok _ σ k no Hs) as (k' & H & Hs'). by read_with (λ _ n, GetExecutingInviteCmdListSize n no) k' H.
Qed.

(** ** The invariant *)

(** The mutex is held by the thread, or by nobody between the calls of the workers. *)
Definition holder (p : place) : option nat := match p with TEmpty | TCheck | TWait | TAfter => Some 0%nat | _ => None end.
(** It has seen the queue empty and will wait, or does. *)
Definition waits (p : place) : bool := match p with TCheck | TWait | TSleep => true | _ => false end.
(** The operations that have been accepted and not run to the end. *)
Definition pending (p : place) (q : list DataRestorerOperation) : list DataRestorerOperation := match p with TExec op | TClear op _ => op :: q | _ => q end.
(** What is stored when the operations that have been run leave [σ]: a clear of all lists may be
    under way. *)
Definition reached (p : place) σ : store := match p with TClear _ i => clear_first (Z.to_nat i) σ | _ => σ end.
Definition clearing (n : Z) (p : place) : Prop := match p with TClear op i => clears_all op = true ∧ 0 ≤ i ≤ n | _ => True end.

(** A restorer that has been started once: starting, running, stopping and stopped. *)
Inductive alive (mg : managers) s (p : place) : Prop :=
| alive_starting : ctl s = CStarting → started_ s = false → force_thread_exit_ s = false → exit_latch s = None → mgrs s = Some mg → p ≠ TExit → p ≠ TDone → alive mg s p
| alive_running : ctl s = CIdle → started_ s = true → force_thread_exit_ s = false → exit_latch s = Some 1 → mgrs s = Some mg → p ≠ TExit → p ≠ TDone → alive mg s p
| alive_stopping : ctl s = CSignal ∨ ctl s = CWait → started_ s = true → force_thread_exit_ s = true → exit_latch s = Some (match p with TDone => 0 | _ => 1 end) → mgrs s = Some mg → alive mg s p
| alive_stopped : ctl s = CIdle → started_ s = false → force_thread_exit_ s = true → exit_latch s = None → p = TDone → alive mg s p.

(** A load of all lists that is followed from its beginning: its number, the lists it was given and
    the operations that had been run then. *)
Record watch := mkWatch { wt_done : list DataRestorerOperation; wt_call : Z; wt_given : list (list ExecutingInviteCmd) }.

(** List [j] is what was given followed by the list of worker [j] after some of the accepted
    operations, those that had been run when the call began among them. *)
Definition list_ok σ0 (wt : watch) h (j : nat) (l : list ExecutingInviteCmd) : Prop :=
  ∃ d m l', wt_done wt `prefix_of` d ∧ d `prefix_of` h ∧ st_cmds (apply_ops d σ0) !! j = Some m ∧ l = default [] (wt_given wt !! j) ++ l' ∧ l' ≡ₚ loaded m.
Definition load_ok σ0 wt h (ld : load) : Prop :=
  ∀ j l, ld_lists ld !! j = Some l → if decide (Z.of_nat j < ld_i ld) then list_ok σ0 wt h j l else l = default [] (wt_given wt !! j).
Definition load_wf (mg : managers) (ld : load) : Prop :=
  (ld_mgr ld = Some mg ∨ ld_mgr ld = None) ∧ 0 ≤ ld_i ld ≤ mg_workers mg ∧ Z.of_nat (length (ld_lists ld)) = mg_workers mg.

Record inv (mg : managers) σ0 (wt : watch) h s : Prop := {
  i_one : length (data_restorer_threads_ s) = 1%nat;
  i_client : inited_ s = true ∧ redis_client_ s = Some (mg_client mg);
  i_call : wt_call wt < next_load s;
  i_loads c ld : loads s !! c = Some ld → c < next_load s ∧ load_wf mg ld ∧ (c = wt_call wt → load_ok σ0 wt h ld);
  i_place : ∃ p done, threads s = [p] ∧ alive mg s p ∧ mutex_owner s = holder p ∧
    (waits p = true → operations_queue_ s = []) ∧ (p = TAfter → operations_queue_ s ≠ [] ∨ force_thread_exit_ s = true) ∧ clearing (mg_workers mg) p ∧
    h = done ++ pending p (operations_queue_ s) ∧ wt_done wt `prefix_of` done ∧ attached mg (reached p (apply_ops done σ0)) s;
}.

(** Labels of a life that is started once. *)
Definition once (l : label) : Prop := match l with LUninit | LStart _ => False | _ => True end.

Lemma ops_ok_app l1 l2 σ : ops_ok (l1 ++ l2) σ ↔ ops_ok l1 σ ∧ ops_ok l2 (apply_ops l1 σ).
Proof. clear. revert σ. induction l1 as [|op l1 IH]; intros σ; [simpl; naive_solver|]. cbn [app ops_ok]. rewrite IH. cbn. naive_solver. Qed.

Lemma apply_ops_snoc l op σ : apply_ops (l ++ [op]) σ = apply_op op (apply_ops l σ).
Proof. clear. unfold apply_ops. by rewrite foldl_app. Qed.

Lemma load_ok_mono σ0 wt h h' ld : load_ok σ0 wt h ld → load_ok σ0 wt (h ++ h') ld.
Proof.
  clear. intros Hl j l Hj. specialize (Hl j l Hj). case_decide; [|done]. destruct Hl as (d & m & l' & H1 & H2 & H3). exists d, m, l'. split; [done|]. split; [by apply prefix_app_r|done].
Qed.

(** Nothing but the thread, the queue, the life and the clients changes. *)
Definition kept s s' : Prop :=
  data_restorer_threads_ s' = data_restorer_threads_ s ∧ inited_ s' = inited_ s ∧ redis_client_ s' = redis_client_ s ∧ loads s' = loads s ∧ next_load s' = next_load s.
(** The life does not change either. *)
Definition same_life s s' : Prop :=
  ctl s' = ctl s ∧ started_ s' = started_ s ∧ force_thread_exit_ s' = force_thread_exit_ s ∧ exit_latch s' = exit_latch s ∧ mgrs s' = mgrs s.

Lemma inv_kept mg σ0 wt h h' s s' p done :
  inv mg σ0 wt h s → kept s s' → threads s' = [p] → alive mg s' p → mutex_owner s' = holder p →
  (waits p = true → operations_queue_ s' = []) → (p = TAfter → operations_queue_ s' ≠ [] ∨ force_thread_exit_ s' = true) → clearing (mg_workers mg) p →
  h ++ h' = done ++ pending p (operations_queue_ s') → wt_done wt `prefix_of` done → attached mg (reached p (apply_ops done σ0)) s' → inv mg σ0 wt (h ++ h') s'.
Proof.
  intros [H1 H2 H3 H4 _] (E1 & E2 & E3 & E4 & E5) Ht Hal Hmu Hsl Haf Hcl Hh Hd Hat. split; [by rewrite E1|by rewrite E2, E3|by rewrite E5| |by exists p, done].
  intros c ld Hc. rewrite E4 in Hc. rewrite E5. destruct (H4 c ld Hc) as (H5 & H6 & H7). split; [done|]. split; [done|]. intros E. by apply load_ok_mono, H7.
Qed.

Lemma alive_goto mg s s' p p' : alive mg s p → same_life s s' → p ≠ TDone → p' ≠ TDone → (p' = TExit → force_thread_exit_ s = true) → alive mg s' p'.
Proof.
  intros Hal (E1 & E2 & E3 & E4 & E5) Hp Hp' Hex. destruct Hal as [A1 A2 A3 A4 A5|A1 A2 A3 A4 A5|A1 A2 A3 A4 A5|A1 A2 A3 A4 A5].
  - apply alive_starting; [congruence..| |done]. intros F. specialize (Hex F). congruence.
  - apply alive_running; [congruence..| |done]. intros F. specialize (Hex F). congruence.
  - apply alive_stopping; [by rewrite E1|congruence|congruence| |congruence]. rewrite E4, A4. by destruct p, p'.
  - done.
Qed.

(** The thread moves from [p] to [p'] and changes nothing of the restorer's life. *)
Lemma inv_goto mg σ0 wt h s s' p p' done :
  inv mg σ0 wt h s → kept s s' → same_life s s' → alive mg s p → p ≠ TDone → threads s' = [p'] → p' ≠ TDone → (p' = TExit → force_thread_exit_ s = true) →
  mutex_owner s' = holder p' → (waits p' = true → operations_queue_ s' = []) → (p' = TAfter → operations_queue_ s' ≠ [] ∨ force_thread_exit_ s' = true) → clearing (mg_workers mg) p' →
  h = done ++ pending p' (operations_queue_ s') → wt_done wt `prefix_of` done → attached mg (reached p' (apply_ops done σ0)) s' → inv mg σ0 wt h s'.
Proof.
  intros Hi Hk Hl Hal Hp Ht Hp' Hex Hmu Hsl Haf Hcl Hh Hd Hat. rewrite <-(app_nil_r h). eapply inv_kept; try done; [by eapply alive_goto|by rewrite app_nil_r].
Qed.

(** A step of the background thread. *)
Lemma thread_inv mg σ0 wt h s :
  inv mg σ0 wt h s → ops_ok h σ0 → ∃ b s', thread_step 0 s = Ok (b, s') ∧ (if b then inv mg σ0 wt h s' else s' = s).
Proof.
  intros Hi Hok. pose proof Hi as [_ _ _ _ (p & done & Ht & Hal & Hmu & Hsl & Haf & Hcl & Hh & Hd & Hat)]. unfold thread_step. rewrite bind_get, Ht. cbn [lookup list_lookup].
  assert (∀ s1 p' f, threads s1 = [p] → (goto 0 p' ≫= f : M (restorer W) bool) s1 = f tt (set_threads [p'] s1)) as Hgo by (intros s1 p' f E; unfold goto; rewrite bind_modify; by rewrite E).
  destruct p as [| | | | | | | |op|op i| |]; cbn [holder] in Hmu; rewrite ?Hmu, ?Hgo by done; rewrite ?bind_modify, ?Hgo by done.
  - eexists _, _. split; [done|]. eapply (inv_goto _ _ _ _ s _ TTop _ done); try done; by destruct (force_thread_exit_ s).
  - eexists _, _. split; [done|]. by eapply (inv_goto _ _ _ _ s _ TLock _ done).
  - eexists _, _. split; [done|]. eapply (inv_goto _ _ _ _ s _ TEmpty _ done); try done; cbn; destruct (operations_queue_ s); try done. by left.
  - eexists _, _. split; [done|]. eapply (inv_goto _ _ _ _ s _ TCheck _ done); try done; cbn; destruct (force_thread_exit_ s); try done. by right.
  - eexists _, _. split; [done|]. by eapply (inv_goto _ _ _ _ s _ TWait _ done).
  - by exists false, s.
  - eexists _, _. split; [done|]. by eapply (inv_goto _ _ _ _ s _ TRelock _ done).
  - destruct (force_thread_exit_ s) eqn:Hf.
    + rewrite bind_modify, Hgo by done. eexists _, _. split; [done|]. by eapply (inv_goto _ _ _ _ s _ TAfter _ done).
    + destruct (operations_queue_ s) as [|op q] eqn:Eq; [by destruct (Haf eq_refl)|]. rewrite bind_modify, Hgo by done. eexists _, _. split; [done|]. by eapply (inv_goto _ _ _ _ s _ TAfter _ done).
  - cbn [pending reached] in *. destruct (clears_all op) eqn:Hca.
    + rewrite Hgo by done. eexists _, _. split; [done|]. destruct Hat as (k & Hk & Hs). pose proof (y_len _ _ _ Hs). eapply (inv_goto _ _ _ _ s _ (TExec op) (TClear op 0) done); try done.
      * split; [done|lia].
      * exists k. cbn [reached]. by rewrite clear_first_0.
    + assert (mgrs s = Some mg) as Hm by (by destruct Hal). destruct Hat as (k & Hk & Hs). rewrite Hh in Hok. apply ops_ok_app in Hok as [_ [Hop _]].
      destruct (perform_ok op (mg_mode mg) (mg_workers mg) _ k Hs Hop Hca) as (k' & Hrun & Hs'). pose proof (with_managers_ok (perform op) s mg k tt k' Hm Hk Hrun) as Hw. unfold execute. mstep Hw. rewrite Hgo by done.
      eexists _, _. split; [done|]. eapply (inv_goto _ _ _ _ s _ (TExec op) TTop (done ++ [op])); try done; [by rewrite <-app_assoc|by apply prefix_app_r|]. cbn [reached]. rewrite apply_ops_snoc. by apply (attached_set mg _ s).
  - cbn [pending reached clearing] in *. destruct Hcl as [Hca Hi0]. assert (mgrs s = Some mg) as Hm by (by destruct Hal). destruct Hat as (k & Hk & Hs). set (σ := apply_ops done σ0) in *.
    assert (Z.of_nat (length (st_cmds σ)) = mg_workers mg) as Hlen. { pose proof (y_len _ _ _ Hs) as E. cbn in E. rewrite length_app, length_fmap, <-length_app, take_drop in E. done. }
    destruct (clear_next_ok (mg_workers mg) σ k (Z.to_nat i) Hs Hlen ltac:(lia)) as (k' & Hrun & Hs'). rewrite Z2Nat.id in Hrun by lia.
    pose proof (with_managers_ok (λ _ n, Clear_all_next n i) s mg k _ k' Hm Hk Hrun) as Hw. mstep Hw. rewrite Hgo by done. eexists _, _. split; [done|]. case_decide as Hlt.
    + eapply (inv_goto _ _ _ _ s _ (TClear op i) _ done); try done; [split; [done|lia]|]. cbn [reached]. rewrite Nat2Z.id. by apply (attached_set mg _ s).
    + eapply (inv_goto _ _ _ _ s _ (TClear op i) TTop (done ++ [op])); try done; [by rewrite <-app_assoc|by apply prefix_app_r|]. cbn [reached]. rewrite apply_ops_snoc; fold σ; rewrite <-(clear_first_all op (S (Z.to_nat i)) σ) by (done || lia). by apply (attached_set mg _ s).
  - destruct Hal as [| |A1 A2 A3 A4 A5|]; try done. rewrite A4. rewrite (bind_lift _ _ _ 1) by done. rewrite bind_modify, Hgo by done. eexists _, _. split; [done|]. rewrite <-(app_nil_r h).
    eapply (inv_kept _ _ _ _ _ s _ TDone done); try done; [by apply alive_stopping|by rewrite app_nil_r].
  - by exists false, s.
Qed.

(** Waking the thread. *)
Lemma wake_one_single p : wake_one [p] = [wake p].
Proof. by destruct p. Qed.

Lemma call_inv mg σ0 wt h s op m s' : inv mg σ0 wt h s → calls op m → m s = Ok (Some DDR_OK, s') → inv mg σ0 wt (h ++ [op]) s'.
Proof.
  intros Hi Hc Hrun. pose proof Hi as [_ _ _ _ (p & done & Ht & Hal & Hmu & Hsl & Haf & Hcl & Hh & Hd & Hat)].
  assert (started_ s = true ∧ mutex_owner s = None ∧ s' = set_threads [wake p] (set_queue None (operations_queue_ s ++ [op]) s)) as (Hst & Hno & ->).
  { assert (push SignalAll op s = Ok (Some DDR_OK, s') ∨ push Signal op s = Ok (Some DDR_OK, s')) as Hpush by (revert Hrun; destruct Hc; intros Hrun; (by left) || by right).
    unfold push, check_started, mbind, M_bind, get, lift in Hpush. destruct (started_ s); [|by destruct Hpush]. cbn in Hpush. rewrite Hmu in *. destruct (holder p); [by destruct Hpush|]. split; [done|]. split; [done|].
    destruct Hpush as [E|E]; injection E as <-; cbn; rewrite Ht; [done|by rewrite wake_one_single]. }
  assert (holder p = None) as Hhp by congruence. eapply (inv_kept _ _ _ _ _ s _ (wake p) done); try done; try (by destruct p).
  - destruct Hal as [A1 A2 A3 A4 A5|A1 A2 A3 A4 A5|A1 A2 A3 A4 A5|A1 A2 A3 A4 A5]; [by rewrite Hst in A2| | |by rewrite Hst in A2].
    + apply alive_running; try done; by destruct p.
    + apply alive_stopping; try done. cbn. rewrite A4. by destruct p.
  - rewrite Hh, <-app_assoc. by destruct p.
Qed.

(** The operations that a read sees: those that have been run, and the clear of all lists that may
    be under way. *)
Definition sees (p : place) (done d : list DataRestorerOperation) : Prop := d = done ∨ ∃ op i, p = TClear op i ∧ d = done ++ [op].

Lemma sees_reached n p done σ0 r a : clearing n p → read_spec (reached p (apply_ops done σ0)) r a → ∃ d, sees p done d ∧ read_spec (apply_ops d σ0) r a.
Proof.
  clear. intros Hcl. destruct p as [| | | | | | | |op|op i| |]; cbn [reached]; try (intros H; exists done; by split; [left|]).
  intros [H|H]%(read_clear_first op); [exists done; by split; [left|]| |apply Hcl]. exists (done ++ [op]). split; [right; by exists op, i|by rewrite apply_ops_snoc].
Qed.

Lemma sees_prefix p done d q : sees p done d → done `prefix_of` d ∧ d `prefix_of` done ++ pending p q.
Proof.
  clear. intros [-> | (op & i & -> & ->)]; [split; [done|by apply prefix_app_r]|]. split; [by apply prefix_app_r|]. apply prefix_app. by exists q.
Qed.

Lemma sees_list n p done σ0 j m : clearing n p → st_cmds (reached p (apply_ops done σ0)) !! j = Some m → ∃ d, sees p done d ∧ st_cmds (apply_ops d σ0) !! j = Some m.
Proof.
  clear. intros Hcl. destruct p as [| | | | | | | |op|op i| |]; cbn [reached]; try (intros H; exists done; by split; [left|]). rewrite (clear_first_lookup op) by apply Hcl.
  case_decide; [|intros H'; exists done; by split; [left|]]. intros H'. exists (done ++ [op]). split; [right; by exists op, i|by rewrite apply_ops_snoc].
Qed.

Lemma resize_lookup n (ls : list (list ExecutingInviteCmd)) j l : resize n ls !! j = Some l → l = default [] (ls !! j).
Proof.
  clear. unfold resize. intros [H|[Hle H]]%lookup_app_Some; [by apply lookup_take_Some in H as [-> _]|]. apply lookup_replicate in H as [-> Hj]. rewrite (proj2 (lookup_ge_None _ _)); [done|]. rewrite length_take in *. lia.
Qed.
Lemma length_resize n (ls : list (list ExecutingInviteCmd)) : length (resize n ls) = Z.to_nat n.
Proof. clear. unfold resize. rewrite length_app, length_take, length_replicate. lia. Qed.

Lemma check_started_true {A} (f : unit → M (restorer W) A) s x : (check_started ≫= f) s = Ok x → started_ s = true ∧ f tt s = Ok x.
Proof. clear. unfold check_started, mbind, M_bind, get, lift. by destruct (started_ s). Qed.

Lemma read_started r s a s' : plain r = true → run_read r s = Ok (a, s') → started_ s = true.
Proof.
  clear. intros Hpl Hrun. destruct (started_ s) eqn:E; [done|]. exfalso. assert (check_started s = Err FAssert) as Hch by (unfold check_started; rewrite bind_get; by rewrite E).
  destruct r; try done; cbn [run_read] in Hrun; unfold SelectDeviceList, SelectChannelList, SelectExecutingInviteCmdList, LoadDeviceList, LoadChannelList, LoadExecutingInviteCmdList, GetDeviceCount, GetChannelCount, GetExecutingInviteCmdCount in Hrun;
    unfold mbind, M_bind in Hrun; by rewrite Hch in Hrun.
Qed.

(** A step that only changes the clients and the loads. *)
Lemma inv_loads mg σ0 wt wt' h s s' p done k ls n :
  inv mg σ0 wt h s → s' = set_loads ls n (set_clients (<[mg_client mg := k]> (clients s)) s) → threads s = [p] → h = done ++ pending p (operations_queue_ s) →
  sys (mg_workers mg) (reached p (apply_ops done σ0)) k → wt_done wt' `prefix_of` done →
  wt_call wt' < n → (∀ c ld, ls !! c = Some ld → c < n ∧ load_wf mg ld ∧ (c = wt_call wt' → load_ok σ0 wt' h ld)) → inv mg σ0 wt' h s'.
Proof.
  intros [H1 H2 H3 H4 (p0 & done0 & Ht & Hal & Hmu & Hsl & Haf & Hcl & Hh & Hd & Hat)] -> Hp Hh' Hs Hd' Hn Hls. assert (p0 = p) as -> by congruence. assert (done0 = done) as -> by (rewrite Hh in Hh'; by apply app_inv_tail in Hh').
  split; [done|done|done|done|]. exists p, done. split; [done|]. split; [by destruct Hal; [apply alive_starting|apply alive_running|apply alive_stopping|apply alive_stopped]|]. do 6 (split; [done|]). exists k. by split; [apply lookup_insert_eq|].
Qed.

Lemma started_managers mg σ0 wt h s : inv mg σ0 wt h s → started_ s = true → mgrs s = Some mg.
Proof. intros [_ _ _ _ (p & done & Ht & Hal & _)] Hst. destruct Hal; congruence. Qed.

Lemma set_same s mg k : clients s !! mg_client mg = Some k → set_clients (<[mg_client mg := k]> (clients s)) s = s.
Proof. clear. intros Hk. rewrite insert_id by done. by destruct s. Qed.

(** A load of all lists begins, which may be the one that is watched. *)
Lemma begin_inv mg σ0 wt wt' h s given a s' p done :
  inv mg σ0 wt h s → run_read (RCmdLists given) s = Ok (a, s') → threads s = [p] → h = done ++ pending p (operations_queue_ s) →
  a = ACall (next_load s) ∧ (wt' = wt ∨ wt' = mkWatch done (next_load s) given → inv mg σ0 wt' h s').
Proof.
  intros Hi Hrun Ht Hh. cbn [run_read] in Hrun. unfold mbind at 1, M_bind at 1 in Hrun. destruct (LoadExecutingInviteCmdLists given s) as [[c s1]|] eqn:E; [|done]. injection Hrun as <- <-.
  unfold LoadExecutingInviteCmdLists in E. apply check_started_true in E as [Hst E]. pose proof (started_managers _ _ _ _ _ Hi Hst) as Hm. rewrite bind_get, Hm in E. injection E as <- <-. split; [done|]. intros Hwt.
  pose proof Hi as [H1 H2 H3 H4 (p0 & done0 & Ht0 & Hal & Hmu & Hsl & Haf & Hcl & Hh0 & Hd & (k & Hk & Hs))]. assert (p0 = p) as -> by congruence. assert (done0 = done) as -> by (rewrite Hh0 in Hh; by apply app_inv_tail in Hh).
  eapply (inv_loads _ _ wt wt' h s _ p done k); [done|by rewrite (set_same s mg k)|done|done|done|by destruct Hwt as [-> | ->]|by destruct Hwt as [-> | ->]; cbn; lia|].
  intros c ld Hc. pose proof (y_len _ _ _ Hs) as Hlen. apply lookup_insert_Some in Hc as [[<- <-]|[Hne Hc]].
  - split; [lia|]. split; [split; [by left|]; split; cbn; [lia|rewrite length_resize; lia]|]. intros E. destruct Hwt as [-> | ->]; [lia|]. intros j l Hj. cbn in Hj |- *. rewrite decide_False by lia. by eapply resize_lookup.
  - destruct (H4 c ld Hc) as (H5 & H6 & H7). split; [lia|]. split; [done|]. intros E. destruct Hwt as [-> | ->]; [by apply H7|]. cbn in E. lia.
Qed.

(** A round of a load of all lists; when the loop has ended the watched call returns what the
    rounds have loaded. *)
Lemma round_inv mg σ0 wt h s c a s' :
  inv mg σ0 wt h s → run_read (RCmdListsNext c) s = Ok (a, s') →
  inv mg σ0 wt h s' ∧ (∃ p done d, threads s = [p] ∧ h = done ++ pending p (operations_queue_ s) ∧ sees p done d ∧ read_spec (apply_ops d σ0) (RCmdListsNext c) a) ∧
  (c = wt_call wt → ∀ x ls, a = ACmdLists x ls → Z.of_nat (length ls) = mg_workers mg ∧ ∀ j l, ls !! j = Some l → list_ok σ0 wt h j l).
Proof.
  intros Hi Hrun. pose proof Hi as [H1 H2 H3 H4 (p & done & Ht & Hal & Hmu & Hsl & Haf & Hcl & Hh & Hd & (k & Hk & Hs))]. cbn [run_read] in Hrun. unfold LoadExecutingInviteCmdLists_next in Hrun. rewrite bind_get in Hrun.
  destruct (loads s !! c) as [ld|] eqn:Hld; [|done]. destruct (H4 c ld Hld) as (Hc & (Hmg & Hi0 & Hlen) & Hok). rewrite (bind_lift _ _ _ ld) in Hrun by done.
  destruct (ld_mgr ld) as [mg'|] eqn:Emg; [|done]. assert (mg' = mg) as -> by (destruct Hmg; congruence). clear Hmg.
  destruct (decide (ld_i ld < mg_workers mg)) as [Hlt|Hge].
  - destruct (load_next_ok (mg_workers mg) _ k (Z.to_nat (ld_i ld)) (ld_lists ld) Hs Hlen ltac:(lia)) as (l0 & m & l' & k' & Hl0 & Hm & Hp & Hrun' & Hs'). rewrite Z2Nat.id in Hrun' by lia.
    rewrite (bind_ok _ _ _ _ _ (on_managers_ok (λ _ n, Load_all_next n (ld_i ld) (ld_lists ld)) s mg k _ k' Hk Hrun')) in Hrun. rewrite bind_modify in Hrun. rewrite list_lookup_insert_eq in Hrun by lia. injection Hrun as <- <-.
    destruct (sees_list _ _ _ _ _ _ Hcl Hm) as (d & Hsee & Hdm). split; [|split; [|done]].
    + eapply (inv_loads _ _ wt wt h s _ p done k'); [done|reflexivity|done..|]. intros c' ld' Hc'. cbn in Hc'. apply lookup_insert_Some in Hc' as [[<- <-]|[Hne Hc']]; [|by apply H4].
      split; [done|]. split; [split; [by left|]; split; cbn; [lia|by rewrite length_insert]|]. intros E j l Hj. cbn in Hj |- *. specialize (Hok E). destruct (decide (j = Z.to_nat (ld_i ld))) as [->|Hne].
      * rewrite list_lookup_insert_eq in Hj by lia. injection Hj as <-. rewrite decide_True by lia. destruct (sees_prefix _ _ _ (operations_queue_ s) Hsee) as [P1 P2]. exists d, m, l'. split; [by trans done|]. split; [by rewrite Hh|]. split; [done|]. split; [|done].
        specialize (Hok _ _ Hl0). rewrite decide_False in Hok by lia. by rewrite Hok.
      * rewrite list_lookup_insert_ne in Hj by done. specialize (Hok _ _ Hj). case_decide; case_decide; (done || lia).
    + exists p, done, d. do 3 (split; [done|]). by exists m, l0, l'.
  - assert (Load_all_next (mg_workers mg) (ld_i ld) (ld_lists ld) k = Ok (None, k)) as Hrun' by (unfold Load_all_next; by rewrite (proj2 (Z.ltb_ge _ _)) by lia).
    rewrite (bind_ok _ _ _ _ _ (on_managers_ok (λ _ n, Load_all_next n (ld_i ld) (ld_lists ld)) s mg k _ k Hk Hrun')), bind_modify in Hrun. injection Hrun as <- <-. split; [|split].
    + eapply (inv_loads _ _ wt wt h s _ p done k); [done|reflexivity|done..|]. intros c' ld' Hc'. cbn in Hc'. apply lookup_delete_Some in Hc' as [_ Hc']. by apply H4.
    + exists p, done, done. by do 3 (split; [done || by left|]).
    + intros E x ls [= <- <-]. split; [done|]. intros j l Hj. specialize (Hok E _ _ Hj). apply lookup_lt_Some in Hj. by rewrite decide_True in Hok by lia.
Qed.

Lemma read_inv mg σ0 wt h s r a s' :
  inv mg σ0 wt h s → read_ok r → run_read r s = Ok (a, s') →
  inv mg σ0 wt h s' ∧ ∃ p done d, threads s = [p] ∧ h = done ++ pending p (operations_queue_ s) ∧ sees p done d ∧ read_spec (apply_ops d σ0) r a.
Proof.
  intros Hi Hok Hrun. pose proof Hi as [H1 H2 H3 H4 (p & done & Ht & Hal & Hmu & Hsl & Haf & Hcl & Hh & Hd & Hat)]. destruct (plain r) eqn:Hpl.
  - pose proof (read_started _ _ _ _ Hpl Hrun) as Hst. pose proof (started_managers _ _ _ _ _ Hi Hst) as Hm. destruct (run_read_ok r _ s mg Hpl Hst Hm Hat Hok) as (a' & k & Hrun' & Hsp & Hk). rewrite Hrun in Hrun'. injection Hrun' as -> ->. split.
    + eapply (inv_loads _ _ wt wt h s _ p done k (loads s) (next_load s)); try done.
    + destruct (sees_reached _ _ _ _ _ _ Hcl Hsp) as (d & Hsee & Hsp'). by exists p, done, d.
  - destruct r; try done.
    + destruct (begin_inv _ _ _ wt _ _ _ _ _ _ _ Hi Hrun Ht Hh) as [-> Hi']. split; [by apply Hi'; left|]. exists p, done, done. do 2 (split; [done|]). split; [by left|]. by eexists.
    + by destruct (round_inv _ _ _ _ _ _ _ _ Hi Hrun) as (? & ? & _).
Qed.

Lemma init_inited mode n s r s' : inited_ s = true → Init client_init mode n s = Ok (r, s') → s' = s ∧ r = DDR_FAIL.
Proof. intros Hin. unfold Init. rewrite bind_get, Hin. by intros [= <- <-]. Qed.

(** The controlling thread: it starts and stops the restorer, and may try to initialise it again. *)
Lemma control_inv mg σ0 wt h s l s' :
  inv mg σ0 wt h s → (l = LStarted ∨ l = LStop ∨ l = LSignalled ∨ l = LStopped ∨ ∃ mode n, l = LInit mode n) → step client_init client_free s l s' → inv mg σ0 wt h s'.
Proof.
  intros Hi Hl Hstep. pose proof Hi as [H1 H2 H3 H4 (p & done & Ht & Hal & Hmu & Hsl & Haf & Hcl & Hh & Hd & Hat)].
  destruct Hstep as [| | | |mode n s s' r Hc Hrun| | |s s' r Hc Hrun|s s' r Hc Hrun|s s' Hc Hrun|s s' Hc Hrun]; try (by destruct_or! Hl; [..|destruct Hl as (? & ? & ?)]); clear Hl.
  1: by destruct (init_inited _ _ _ _ _ (proj1 H2) Hrun) as [-> _].
  all: rewrite <-(app_nil_r h).
  - injection Hrun as <- <-. eapply (inv_kept _ _ _ _ _ s _ p done); try done; [|by rewrite app_nil_r]. destruct Hal as [A1 A2 A3 A4 A5 A6 A7|A1|[A1|A1]|A1]; try congruence. apply alive_running; try done. cbn. by rewrite H1.
  - unfold Stop in Hrun. rewrite bind_get in Hrun. destruct Hal as [A1|A1 A2 A3 A4 A5 A6 A7|[A1|A1]|A1 A2 A3 A4 A5]; try congruence; rewrite A2 in Hrun; injection Hrun as <- <-.
    + eapply (inv_kept _ _ _ _ _ s _ p done); try done; [|by right|by rewrite app_nil_r]. apply alive_stopping; try done; [by left|]. cbn. rewrite A4. by destruct p.
    + by rewrite app_nil_r.
  - injection Hrun as <-. destruct Hal as [A1|A1|A1 A2 A3 A4 A5|A1]; try congruence. eapply (inv_kept _ _ _ _ _ s _ (wake p) done); try done; try (by cbn; rewrite ?Ht; destruct p).
    + apply alive_stopping; try done; [by right|]. cbn. rewrite A4. by destruct p.
    + rewrite app_nil_r, Hh. by destruct p.
  - unfold Stop_wait, mbind, M_bind, get, lift in Hrun. destruct Hal as [A1|A1|A1 A2 A3 A4 A5|A1]; try congruence. rewrite A4 in Hrun. cbn [deref] in Hrun. destruct p; try done. injection Hrun as <-. rewrite app_nil_r.
    split; [done|done|done| |]; [|exists TDone, done; split; [done|]; split; [by apply alive_stopped|done]].
    intros c ld Hc'. cbn in Hc'. rewrite lookup_fmap in Hc'. destruct (loads s !! c) as [ld'|] eqn:E; [|done]. injection Hc' as <-. destruct (H4 c ld' E) as (H5 & (H6 & H7) & H8). split; [done|]. split; [split; [by right|done]|done].
Qed.

(** Every step of a life that is started once keeps the invariant. *)
Definition label_ok (l : label) : Prop := match l with LRead r _ => read_ok r | _ => True end.

Lemma life_step mg σ0 wt h s l s' :
  inv mg σ0 wt h s → ops_ok h σ0 → once l → label_ok l → step client_init client_free s l s' → inv mg σ0 wt (h ++ accepted [l]) s'.
Proof.
  intros Hi Hok Ho Hl Hstep. pose proof Hstep as Hst. destruct Hstep as [t s s' Hrun|t s Hp|op m s s' Hc Hrun|r a s s' Hrun|mode n s s' r Hc Hrun| | | | | |]; try done; cbn [accepted omap list_omap app]; rewrite ?app_nil_r.
  - destruct t as [|t].
    + destruct (thread_inv mg σ0 wt h s Hi Hok) as (b & s1 & Hrun' & Hi'). rewrite Hrun in Hrun'. by injection Hrun' as <- <-.
    + exfalso. destruct Hi as [_ _ _ _ (p & done & Ht & _)]. unfold thread_step in Hrun. rewrite bind_get, Ht in Hrun. done.
  - pose proof Hi as [_ _ _ _ (p & done & Ht & Hal & Hmu & Hsl & Haf & Hcl & Hh & Hd & Hat)]. rewrite Ht in Hp. destruct t as [|t]; [|done]. injection Hp as ->. eapply (inv_goto _ _ _ _ s _ TSleep TRelock done); try done. cbn. by rewrite Ht.
  - by eapply call_inv.
  - by eapply read_inv.
  - eapply control_inv; [done| |done]. do 4 right. by eexists _, _.
  - eapply control_inv; [done| |done]. by left.
  - eapply control_inv; [done| |done]. right. by left.
  - eapply control_inv; [done| |done]. right. right. by left.
  - eapply control_inv; [done| |done]. do 3 right. by left.
Qed.

(** ** Executions *)

(** A new restorer, initialised and with its thread created. *)
Definition boot (mode : RedisMode) (n : Z) : result (restorer W) :=
  '(_, s) ← Init client_init mode n DownDataRestorer_new;
  '(_, s) ← Start true s;
  Ok s.

(** No call is watched yet. *)
Definition no_watch : watch := mkWatch [] 0 [].

Lemma boot_inv mode n k σ0 s : client_init mode (n + 1) = Some k → sys n σ0 k → boot mode n = Ok s → inv (mkManagers 1 mode n) σ0 no_watch [] s.
Proof.
  intros Hk Hs Hb. unfold boot, Init, mbind, result_bind, M_bind, get in Hb. cbn -[Start] in Hb. rewrite Hk in Hb. injection Hb as <-.
  split; [done|done|done|done|]. exists TTop, []. split; [done|]. split; [by apply alive_starting|]. do 6 (split; [done|]). exists k. by split; [apply lookup_insert_eq|].
Qed.

Lemma accepted_app l1 l2 : accepted (l1 ++ l2) = accepted l1 ++ accepted l2.
Proof. clear. apply omap_app. Qed.

Lemma life_steps mg σ0 wt h s tr s' :
  inv mg σ0 wt h s → steps client_init client_free s tr s' → Forall once tr → Forall label_ok tr → ops_ok (h ++ accepted tr) σ0 → inv mg σ0 wt (h ++ accepted tr) s'.
Proof.
  intros Hi Hst. induction Hst as [s|s tr s1 l s2 Hst IH Hstep]; intros Ho Hl Hok; [by rewrite app_nil_r|].
  apply Forall_app in Ho as [Ho Ho1]. apply Forall_app in Hl as [Hl Hl1]. rewrite Forall_singleton in Ho1, Hl1. rewrite accepted_app, app_assoc in *. pose proof (proj1 (proj1 (ops_ok_app _ _ _) Hok)) as Hok1.
  eapply life_step; [by apply IH|done|done|done|done].
Qed.

(** An execution is taken apart at a label. *)
Lemma steps_split s tr1 l tr2 s' :
  steps client_init client_free s (tr1 ++ l :: tr2) s' → ∃ s1 s2, steps client_init client_free s tr1 s1 ∧ step client_init client_free s1 l s2 ∧ steps client_init client_free s2 tr2 s'.
Proof.
  clear. revert s'. induction tr2 as [|l2 tr2 IH] using rev_ind; intros s' H.
  - inversion H as [s0 E1 E2|s0 tr0 s1 l0 s2 H1 H2 E1 E2 E3]; [by destruct tr1|]. apply app_inj_tail in E2 as [-> ->]. exists s1, s'. by split_and!; [|..|constructor].
  - rewrite app_comm_cons, app_assoc in H. inversion H as [s0 E1 E2|s0 tr0 s1 l0 s2 H1 H2 E1 E2 E3]; [by destruct (tr1 ++ l :: tr2)|]. apply app_inj_tail in E2 as [-> ->]. destruct (IH _ H1) as (s3 & s4 & H3 & H4 & H5). exists s3, s4. split_and!; [done|done|by eapply steps_snoc].
Qed.

(** ** The thread drains the queue *)

Fixpoint run_thread (n : nat) s : result (restorer W) :=
  match n with
  | O => Ok s
  | S n => '(b, s) ← thread_step 0 s; run_thread n s
  end.

(** How far the thread is from waiting with nothing to do, with [n] workers. *)
Definition rank (n : nat) (p : place) : nat :=
  match p with TTop => n + 8 | TLock | TRelock => n + 7 | TEmpty => n + 6 | TCheck => n + 5 | TWait => n + 4 | TAfter => n + 3 | TExec _ => n + 2 | TClear _ i => 1 + (n - Z.to_nat i) | _ => 0 end.
Definition work (n : nat) (p : place) (q : list DataRestorerOperation) : nat := (n + 9) * length (pending p q) + rank n p.

Lemma managers_kept {A} (f : RedisMode → Z → M W A) s a s' :
  with_managers f s = Ok (a, s') → force_thread_exit_ s' = force_thread_exit_ s ∧ threads s' = threads s ∧ operations_queue_ s' = operations_queue_ s.
Proof.
  clear. unfold with_managers, on_managers, mbind, M_bind, get, lift, modify. destruct (mgrs s); [|done]. cbn. destruct (clients s !! _); [|done]. cbn. destruct (f _ _ _) as [[]|]; [|done]. by intros [= _ <-].
Qed.

(** Without being told to exit it comes closer. *)
Lemma thread_progress mg σ0 wt h s p :
  inv mg σ0 wt h s → ops_ok h σ0 → force_thread_exit_ s = false → threads s = [p] → p ≠ TSleep →
  let n := Z.to_nat (mg_workers mg) in
  ∃ s' p', thread_step 0 s = Ok (true, s') ∧ force_thread_exit_ s' = false ∧ threads s' = [p'] ∧ (work n p' (operations_queue_ s') < work n p (operations_queue_ s))%nat.
Proof.
  intros Hi Hok Hf Ht Hp n. unfold work. destruct (thread_inv _ _ _ _ _ Hi Hok) as (b & s' & Hrun & _). destruct Hi as [_ _ _ _ (p0 & done & Ht0 & Hal & Hmu & Hsl & Haf & Hcl & Hh & Hd & Hat)]. assert (p0 = p) as -> by congruence. clear Ht0.
  assert (p ≠ TExit ∧ p ≠ TDone) as [Hp1 Hp2] by (destruct Hal; (done || congruence)).
  exists s'. pose proof Hrun as Hr. unfold thread_step, goto, mbind, M_bind, get, modify in Hr. rewrite Ht in Hr. cbn [lookup list_lookup] in Hr.
  destruct p as [| | | | | | | |op|op i| |]; try done; cbn [holder] in Hmu; rewrite ?Hmu, ?Hf in Hr; try (injection Hr as <- <-; eexists; split; [exact Hrun|]; cbn; rewrite Ht; split; [done|]; split; [done|]; cbn; lia).
  - injection Hr as <- <-. eexists. split; [exact Hrun|]. cbn. rewrite Ht. split; [done|]. split; [done|]. destruct (operations_queue_ s); cbn; lia.
  - destruct (operations_queue_ s) as [|op q] eqn:Eq; [destruct (Haf eq_refl); [done|congruence]|]. injection Hr as <- <-. eexists. split; [exact Hrun|]. cbn. rewrite Ht. split; [done|]. split; [done|]. cbn. lia.
  - destruct (clears_all op).
    + injection Hr as <- <-. eexists. split; [exact Hrun|]. cbn. rewrite Ht. split; [done|]. split; [done|]. cbn [pending length rank]. lia.
    + unfold execute in Hr. destruct (with_managers (perform op) s) as [[[] s1]|] eqn:E; [|done]. injection Hr as <- <-. destruct (managers_kept _ _ _ _ E) as (E1 & E2 & E3).
      eexists. split; [exact Hrun|]. cbn. rewrite E1, E2, Ht. split; [done|]. split; [done|]. cbn. rewrite E3. lia.
  - destruct Hcl as [Hca Hi0]. destruct (with_managers _ s) as [[next s1]|] eqn:E; [|done]. injection Hr as <- <-. destruct (managers_kept _ _ _ _ E) as (E1 & E2 & E3).
    assert (next = None ∨ next = Some (i + 1) ∧ i < mg_workers mg) as Hnext.
    { assert (mgrs s = Some mg) as Hm by (by destruct Hal). revert E. unfold with_managers, on_managers, Clear_all_next, mbind, M_bind, get, lift, modify. rewrite Hm. cbn [deref]. destruct (clients s !! mg_client mg); [|done]. cbn [deref].
      destruct (Z.ltb_spec i (mg_workers mg)); cbn [negb]; [|intros [= <- _]; by left]. destruct (Clear _ _ _) as [[]|]; [|done]. intros [= <- _]. by right. }
    eexists. split; [exact Hrun|]. cbn. rewrite E1, E2, Ht. split; [done|]. split; [done|]. destruct Hnext as [-> | [-> Hlt]]; cbn; rewrite E3; lia.
Qed.

Lemma thread_drains mg σ0 wt h s :
  inv mg σ0 wt h s → ops_ok h σ0 → force_thread_exit_ s = false →
  ∃ n s', run_thread n s = Ok s' ∧ inv mg σ0 wt h s' ∧ threads s' = [TSleep].
Proof.
  intros Hi Hok Hf. pose proof Hi as [_ _ _ _ (p & _ & Ht & _)]. remember (work (Z.to_nat (mg_workers mg)) p (operations_queue_ s)) as m eqn:Em. revert s p Hi Hf Ht Em. induction (lt_wf m) as [m _ IH]. intros s p Hi Hf Ht ->.
  destruct (decide (p = TSleep)) as [->|Hne]; [by exists 0%nat, s|].
  destruct (thread_progress _ _ _ _ _ _ Hi Hok Hf Ht Hne) as (s1 & p1 & Hrun & Hf1 & Ht1 & Hlt). destruct (thread_inv _ _ _ _ _ Hi Hok) as (b & s1' & Hrun' & Hi1). rewrite Hrun in Hrun'. injection Hrun' as <- <-.
  destruct (IH _ Hlt s1 p1 Hi1 Hf1 Ht1 eq_refl) as (n & s' & Hn & H'). exists (S n), s'. split; [|done]. cbn [run_thread]. unfold mbind, result_bind. by rewrite Hrun.
Qed.

End restorer.
End GbRestorerFacts.
