(* ===== verification/GbRestorerProps.v ===== *)
(** What the restorer of [downdatarestorer.cpp] promises: a write-behind store that is drained in
    order and read as it is, while it is started once; and what happens when it is stopped and
    started again. *)

From stdpp Require Import strings.
From S2P Require Import Prelude GbStream GbStreamProps GbResp GbRespProps GbPool GbClient GbMgr GbSpec GbMgrFacts GbLink GbToy GbRestorer GbStore GbRestorerFacts.
From stdpp Require Import options.
#[local] Open Scope Z_scope.

Module GbRestorerProps.
Import GbStream GbStreamProps GbResp GbRespProps GbPool GbClient GbMgr GbSpec GbMgrFacts GbLink GbToy GbRestorer GbStore GbRestorerFacts.

(** ** A restorer that is told to exit *)

Section restart.
Context {W : Type} `{!RedisApi W}.
Context (client_init : RedisMode → Z → option W) (client_free : M W bool).
Implicit Types (s : restorer W).

(** Only the clients and the loads change. *)
Definition frames {A} (m : M (restorer W) A) : Prop := ∀ s a s', m s = Ok (a, s') → ∃ c ls n, s' = set_loads ls n (set_clients c s).

Lemma frames_ret {A} (a : A) : frames (mret a).
Proof. intros s a' s' [= _ <-]. exists (clients s), (loads s), (next_load s). by destruct s. Qed.
Lemma frames_bind {A B} (m : M (restorer W) A) (f : A → M (restorer W) B) : frames m → (∀ a, frames (f a)) → frames (m ≫= f).
Proof.
  intros Hm Hf s b s'. unfold mbind, M_bind. destruct (m s) as [[a s1]|] eqn:E; [|done]. intros E'. apply Hm in E as (c & ls & n & ->). apply Hf in E' as (c' & ls' & n' & ->). by exists c', ls', n'.
Qed.
Lemma frames_check : frames check_started.
Proof. intros s [] s'. unfold check_started, mbind, M_bind, get, lift. destruct (started_ s); [|done]. intros [= <-]. exists (clients s), (loads s), (next_load s). by destruct s. Qed.
Lemma frames_get : frames get.
Proof. intros s a s' [= _ <-]. exists (clients s), (loads s), (next_load s). by destruct s. Qed.
Lemma frames_lift {A} (x : result A) : frames (lift x).
Proof. intros s a s'. unfold lift. destruct x; [|done]. intros [= _ <-]. exists (clients s), (loads s), (next_load s). by destruct s. Qed.
Lemma frames_on {A} mg (f : RedisMode → Z → M W A) : frames (on_managers mg f).
Proof.
  intros s a s'. unfold on_managers, mbind, M_bind, get, lift, modify. destruct mg; [|done]. cbn. destruct (clients s !! _); [|done]. cbn. destruct (f _ _ _) as [[]|]; [|done].
  intros [= _ <-]. by eexists _, _, _.
Qed.
Lemma frames_managers {A} (f : RedisMode → Z → M W A) : frames (with_managers f).
Proof. intros s a s'. unfold with_managers. rewrite bind_get. apply frames_on. Qed.
Lemma frames_loads (f : restorer W → restorer W) : (∀ s, ∃ ls n, f s = set_loads ls n s) → frames (modify f).
Proof. intros Hf s [] s' [= <-]. destruct (Hf s) as (ls & n & ->). exists (clients s), ls, n. by destruct s. Qed.
#[local] Hint Resolve frames_ret frames_check frames_get frames_lift frames_on frames_managers : core.
Ltac frame_reads :=
  repeat lazymatch goal with
  | |- frames (_ ≫= _) => apply frames_bind; [|intros ?]
  | |- frames (match _ with _ => _ end) => case_match
  | |- frames (modify _) => apply frames_loads; intros ?; by eexists _, _
  | |- _ => by auto
  end.

Lemma frames_read r : frames (run_read r).
Proof.
  destruct r; cbn [run_read]; unfold SelectDeviceList, SelectChannelList, SelectExecutingInviteCmdList, LoadDeviceList, LoadChannelList, LoadExecutingInviteCmdList, LoadExecutingInviteCmdLists, LoadExecutingInviteCmdLists_next, GetDeviceCount, GetChannelCount, GetExecutingInviteCmdCount;
    frame_reads.
Qed.

(** A thread that takes nothing from the queue when it is told to exit. *)
Definition quiet (p : place) : Prop := match p with TTop | TExit | TDone => True | _ => False end.

Lemma quiet_wake l : Forall quiet l → wake <$> l = l ∧ wake_one l = l.
Proof. induction 1 as [|p l Hp _ [IH1 IH2]]; [done|]. rewrite fmap_cons, IH1. by destruct p; simpl; rewrite ?IH2. Qed.

Lemma push_inv (sig : M (restorer W) unit) op s r s' :
  push sig op s = Ok (Some r, s') → sig = SignalAll ∨ sig = Signal → Forall quiet (threads s) → s' = set_queue None (operations_queue_ s ++ [op]) s.
Proof.
  unfold push, check_started, mbind, M_bind, get, lift, modify. intros E Hs Hq. destruct (started_ s); [|done]. cbn in E. destruct (mutex_owner s); [done|].
  destruct (quiet_wake _ Hq) as [H1 H2]. destruct Hs as [-> | ->]; injection E as _ <-; cbn; rewrite ?H1, ?H2; done.
Qed.

Lemma call_shape op (m : M (restorer W) (option Z)) : calls op m → m = push SignalAll op ∨ m = push Signal op.
Proof. destruct 1; (by left) || by right. Qed.

Lemma quiet_thread t s s' :
  force_thread_exit_ s = true → Forall quiet (threads s) → thread_step t s = Ok (true, s') →
  force_thread_exit_ s' = true ∧ Forall quiet (threads s') ∧ operations_queue_ s' = operations_queue_ s.
Proof.
  intros Hf Hq. unfold thread_step, goto, mbind, M_bind, get, modify, lift. destruct (threads s !! t) as [p|] eqn:Ep; [|done].
  assert (quiet p) as Hp by (by eapply Forall_lookup_1). destruct p; try done.
  - rewrite Hf. intros [= <-]. cbn. split; [done|]. split; [|done]. by apply Forall_insert.
  - destruct (exit_latch s); [|done]. intros [= <-]. cbn. split; [done|]. split; [|done]. by apply Forall_insert.
Qed.

Lemma quiet_step s l s' :
  force_thread_exit_ s = true → Forall quiet (threads s) → step client_init client_free s l s' →
  force_thread_exit_ s' = true ∧ Forall quiet (threads s') ∧ operations_queue_ s' = operations_queue_ s ++ accepted [l].
Proof.
  intros Hf Hq Hstep. destruct Hstep as [t s s' Hrun|t s Hp|op m s s' Hc Hrun|r a s s' Hrun|mode n s s' r Hc Hrun|s s' r Hc Hrun|b s s' r Hc Hrun|s s' r Hc Hrun|s s' r Hc Hrun|s s' Hc Hrun|s s' Hc Hrun];
    cbn [accepted omap list_omap]; rewrite ?app_nil_r.
  - by apply (quiet_thread t).
  - exfalso. by pose proof (Forall_lookup_1 _ _ _ _ Hq Hp).
  - assert (s' = set_queue None (operations_queue_ s ++ [op]) s) as ->; [|done]. destruct (call_shape _ _ Hc) as [-> | ->]; eapply push_inv; eauto.
  - apply frames_read in Hrun as (c & ls & n & ->). done.
  - unfold Init, mbind, M_bind, get, lift, put in Hrun. destruct (inited_ s); [by injection Hrun as _ <-|]. case_bool_decide; [|done]. cbn in Hrun. destruct (client_init mode _); by injection Hrun as _ <-.
  - unfold Uninit, mbind, M_bind, get, lift, put in Hrun. destruct (inited_ s), (redis_client_ s); try (by injection Hrun as _ <-). destruct (clients s !! _); [|done]. cbn in Hrun. destruct (client_free _); [|done]. by injection Hrun as _ <-.
  - unfold Start, mbind, M_bind, get, lift, put in Hrun. destruct (inited_ s); [|by injection Hrun as _ <-]. destruct (started_ s); [by injection Hrun as _ <-|]. destruct (redis_client_ s); [|done]. injection Hrun as _ <-. cbn.
    split; [done|]. split; [|done]. apply Forall_app. split; [done|]. by destruct b; [apply Forall_singleton|].
  - by injection Hrun as _ <-.
  - unfold Stop, mbind, M_bind, get, put in Hrun. destruct (started_ s); by injection Hrun as _ <-.
  - injection Hrun as <-. cbn. by rewrite (proj1 (quiet_wake _ Hq)).
  - unfold Stop_wait, mbind, M_bind, get, put, lift in Hrun. destruct (exit_latch s) as [c|]; [|done]. cbn in Hrun. destruct (c =? 0); [|done]. by injection Hrun as <-.
Qed.

Lemma quiet_steps s tr s' :
  force_thread_exit_ s = true → Forall quiet (threads s) → steps client_init client_free s tr s' →
  force_thread_exit_ s' = true ∧ Forall quiet (threads s') ∧ operations_queue_ s' = operations_queue_ s ++ accepted tr.
Proof.
  intros Hf Hq Hst. induction Hst as [s|s tr s1 l s2 Hst IH Hstep]; [by rewrite app_nil_r|]. destruct (IH Hf Hq) as (Hf1 & Hq1 & E1).
  destruct (quiet_step _ _ _ Hf1 Hq1 Hstep) as (Hf2 & Hq2 & E2). split; [done|]. split; [done|]. by rewrite E2, E1, accepted_app, app_assoc.
Qed.

(** After the second start the latch counts two threads, of which one is left. *)
Definition hangs s : Prop :=
  ∃ p, threads s = [TDone; p] ∧ quiet p ∧ force_thread_exit_ s = true ∧ length (data_restorer_threads_ s) = 2%nat ∧
    (ctl s = CStarting ∧ exit_latch s = None ∧ p ≠ TDone ∨ ctl s ≠ CStarting ∧ exit_latch s = Some (match p with TDone => 1 | _ => 2 end)).

Lemma hangs_step s l s' : hangs s → once l → step client_init client_free s l s' → hangs s' ∧ l ≠ LStopped.
Proof.
  intros (p & Ht & Hp & Hf & Hn & Hc) Ho Hstep. assert (Forall quiet (threads s)) as Hq by (rewrite Ht; by repeat constructor).
  destruct Hstep as [t s s' Hrun|t s Hsl|op m s s' Hca Hrun|r a s s' Hrun|mode n s s' r Hct Hrun| | |s s' r Hct Hrun|s s' r Hct Hrun|s s' Hct Hrun|s s' Hct Hrun]; try done; (split; [|done]) || exfalso.
  - unfold thread_step, goto, mbind, M_bind, get, modify, lift in Hrun. rewrite Ht in Hrun. destruct t as [|[|t]]; cbn [lookup list_lookup] in Hrun; try done. destruct p; try done.
    + rewrite Hf in Hrun. injection Hrun as <-. exists TExit. cbn. rewrite Ht. split; [done|]. split; [done|]. split; [done|]. split; [done|]. naive_solver.
    + destruct Hc as [(H1 & H2 & H3)|[H1 H2]]; rewrite H2 in Hrun; [done|]. injection Hrun as <-. exists TDone. cbn. rewrite Ht. split_and!; try done. by right.
  - by pose proof (Forall_lookup_1 _ _ _ _ Hq Hsl).
  - assert (s' = set_queue None (operations_queue_ s ++ [op]) s) as ->; [|by exists p]. destruct (call_shape _ _ Hca) as [-> | ->]; eapply push_inv; eauto.
  - apply frames_read in Hrun as (c & ls & n & ->). by exists p.
  - unfold Init, mbind, M_bind, get, lift, put in Hrun. destruct (inited_ s); [injection Hrun as _ <-; by exists p|]. case_bool_decide; [|done]. cbn in Hrun. destruct (client_init mode _); injection Hrun as _ <-; by exists p.
  - injection Hrun as _ <-. exists p. cbn. rewrite Hn. split_and!; try done. right. destruct Hc as [(H1 & H2 & H3)|[H1 H2]]; [|done]. by destruct p.
  - unfold Stop, mbind, M_bind, get, put in Hrun. destruct (started_ s); injection Hrun as _ <-; exists p; [|done]. split_and!; try done. right. destruct Hc as [(H1 & H2 & H3)|[H1 H2]]; [congruence|done].
  - injection Hrun as <-. exists p. cbn. rewrite Ht. split_and!; try done; [by destruct p|]. right. destruct Hc as [(H1 & H2 & H3)|[H1 H2]]; [congruence|done].
  - unfold Stop_wait, mbind, M_bind, get, put, lift in Hrun. destruct Hc as [(H1 & H2 & H3)|[H1 H2]]; [congruence|]. rewrite H2 in Hrun. by destruct p.
Qed.

Lemma hangs_steps s tr s' : hangs s → Forall once tr → steps client_init client_free s tr s' → hangs s' ∧ LStopped ∉ tr.
Proof.
  intros Hh Ho Hst. induction Hst as [s|s tr s1 l s2 Hst IH Hstep]; [split; [done|apply not_elem_of_nil]|]. apply Forall_app in Ho as [Ho Ho1]. rewrite Forall_singleton in Ho1. destruct (IH Hh Ho) as [Hh1 Hn].
  destruct (hangs_step _ _ _ Hh1 Ho1 Hstep) as [Hh2 Hl]. split; [done|]. rewrite not_elem_of_app, not_elem_of_cons. split; [done|]. split; [done|apply not_elem_of_nil].
Qed.

End restart.

(** ** Schedules that are run *)

#[global] Instance Device_eq : EqDecision Device.
Proof. solve_decision. Defined.
#[global] Instance Channel_eq : EqDecision Channel.
Proof. solve_decision. Defined.
#[global] Instance Cmd_eq : EqDecision ExecutingInviteCmd.
Proof. solve_decision. Defined.
#[global] Instance answer_eq : EqDecision answer.
Proof. solve_decision. Defined.

Section schedule.
Context {W : Type} `{!RedisApi W}.
Context (client_init : RedisMode → Z → option W) (client_free : M W bool).
Implicit Types (s : restorer W).

(** The call for an operation. *)
Definition call_of (op : DataRestorerOperation) : option (M (restorer W) (option Z)) :=
  let no := executing_invite_cmd_list_no_ op in
  match operation_type_ op, entities_ op with
  | INSERT, EXECUTING_INVITE_CMD [c] => Some (InsertExecutingInviteCmdList no c)
  | DELETE, EXECUTING_INVITE_CMD [c] => Some (DeleteExecutingInviteCmdList no c)
  | CLEAR, EXECUTING_INVITE_CMD [] => Some (ClearExecutingInviteCmdList_no no)
  | UPDATE, EXECUTING_INVITE_CMD l => Some (UpdateExecutingInviteCmdList no l)
  | INSERT, DEVICE [d] => if decide (no = -1) then Some (InsertDeviceList d) else None
  | DELETE, DEVICE [d] => if decide (no = -1) then Some (DeleteDeviceList d) else None
  | CLEAR, DEVICE [] => if decide (no = -1) then Some ClearDeviceList else None
  | UPDATE, DEVICE l => if decide (no = -1) then Some (UpdateDeviceList l) else None
  | INSERT, CHANNEL [c] => if decide (no = -1) then Some (InsertChannelList c) else None
  | DELETE, CHANNEL [c] => if decide (no = -1) then Some (DeleteChannelList c) else None
  | CLEAR, CHANNEL [] => if decide (no = -1) then Some ClearChannelList else None
  | UPDATE, CHANNEL l => if decide (no = -1) then Some (UpdateChannelList l) else None
  | _, _ => None
  end.

Lemma call_of_calls op m : call_of op = Some m → calls op m.
Proof.
  destruct op as [t e no]. unfold call_of. cbn. destruct t, e as [l|l|l]; try (destruct l as [|x [|]]); intros E; repeat case_decide; try done; injection E as <-; subst; constructor.
Qed.

Definition done_with {A} (r : result (A * restorer W)) : option (restorer W) := match r with Ok (_, s) => Some s | Err _ => None end.
Definition done_if (r : result (bool * restorer W)) : option (restorer W) := match r with Ok (true, s) => Some s | _ => None end.

(** A step with a label that determines it. *)
Definition do_label (l : label) s : option (restorer W) :=
  match l, ctl s with
  | LThread t, _ => done_if (thread_step t s)
  | LCall op, _ => m ← call_of op; match m s with Ok (Some 1, s') => Some s' | _ => None end
  | LRead r a, _ => match run_read r s with Ok (a', s') => if decide (a' = a) then Some s' else None | Err _ => None end
  | LStart b, CIdle => done_with (Start b s)
  | LStarted, CStarting => done_with (Start_latch s)
  | LStop, CIdle => done_with (Stop s)
  | LSignalled, CSignal => done_with (Stop_signal s)
  | LStopped, CWait => done_if (Stop_wait s)
  | _, _ => None
  end.
Fixpoint do_labels (tr : list label) s : option (restorer W) :=
  match tr with
  | [] => Some s
  | l :: tr => s ← do_label l s; do_labels tr s
  end.

Lemma do_label_step l s s' : do_label l s = Some s' → step client_init client_free s l s'.
Proof.
  destruct l; cbn [do_label]; try (by destruct (ctl s)).
  - unfold done_if. destruct (thread_step t s) as [[[] ?]|] eqn:E; try (by destruct (ctl s)). intros H. assert (r = s') as -> by (by destruct (ctl s); injection H). by constructor.
  - intros H. assert (call_of op ≫= (λ m, match m s with Ok (Some 1, s') => Some s' | _ => None end) = Some s') as H' by (by destruct (ctl s)). apply bind_Some in H' as (m & Hm & H').
    destruct (m s) as [[[z|] s1]|] eqn:E; try done. destruct z as [|[]|]; try done. injection H' as ->. eapply step_call; [by apply call_of_calls|done].
  - destruct (run_read r s) as [[a' s1]|] eqn:E; [|by destruct (ctl s)]. case_decide as Ea; [|by destruct (ctl s)]. subst a'. intros H. assert (s1 = s') as -> by (by destruct (ctl s); injection H). by constructor.
  - destruct (ctl s) eqn:Ec; try done. unfold done_with. destruct (Start created s) as [[]|] eqn:E; [|done]. intros [= <-]. by eapply step_start.
  - destruct (ctl s) eqn:Ec; try done. intros [= <-]. by eapply step_started.
  - destruct (ctl s) eqn:Ec; try done. unfold done_with. destruct (Stop s) as [[]|] eqn:E; [|done]. intros [= <-]. by eapply step_stop.
  - destruct (ctl s) eqn:Ec; try done. intros [= <-]. by eapply step_signalled.
  - destruct (ctl s) eqn:Ec; try done. unfold done_if. destruct (Stop_wait s) as [[[] ?]|] eqn:E; try done. intros [= <-]. by eapply step_stopped.
Qed.

Lemma steps_cons s l s1 tr s' : step client_init client_free s l s1 → steps client_init client_free s1 tr s' → steps client_init client_free s (l :: tr) s'.
Proof.
  intros H1 H2. induction H2 as [s1|s1 tr s2 l2 s3 H2 IH H3]; [|rewrite app_comm_cons; eapply steps_snoc; [by apply IH|done]].
  change [l] with ([] ++ [l]). eapply steps_snoc; [apply steps_nil|done].
Qed.

Lemma do_labels_steps tr s s' : do_labels tr s = Some s' → steps client_init client_free s tr s'.
Proof.
  revert s. induction tr as [|l tr IH]; intros s; cbn [do_labels]; [intros [= ->]; constructor|]. intros (s1 & H1 & H2)%bind_Some. eapply steps_cons; [by apply do_label_step|by apply IH].
Qed.

(** The thread sleeps and [Stop] waits for it. *)
Lemma stuck_asleep s l s' :
  threads s = [TSleep] → ctl s = CWait → exit_latch s = Some 1 → step client_init client_free s l s' →
  (∃ op, l = LCall op) ∨ (∃ r a, l = LRead r a) ∨ (∃ t, l = LSpurious t).
Proof.
  intros Ht Hc Hl Hst. destruct Hst as [t s s' Hrun|t s Hp|op m s s' Hca Hrun|r a s s' Hrun|mode n s s' r Hct Hrun|s s' r Hct Hrun|b s s' r Hct Hrun|s s' r Hct Hrun|s s' r Hct Hrun|s s' Hct Hrun|s s' Hct Hrun]; try congruence.
  - unfold thread_step in Hrun. rewrite bind_get, Ht in Hrun. by destruct t as [|t].
  - right. right. by exists t.
  - left. by exists op.
  - right. left. by exists r, a.
  - unfold Stop_wait, mbind, M_bind, get, lift in Hrun. by rewrite Hl in Hrun.
Qed.

End schedule.

(** ** A restorer that is started once *)

Section restorer.
Context {W : Type} `{!RedisApi W, !RedisLaws W}.
Context (client_init : RedisMode → Z → option W) (client_free : M W bool).
Context (mode : RedisMode) (n : Z) (k0 : W) (σ0 : store) (s0 s : restorer W) (tr : list label).

(** The client connects, its database holds the store [σ0]; the restorer is booted and then [tr]
    happens, in which it is not started again and what is stored has proper sizes. *)
Record runs_once : Prop := {
  ro_init : client_init mode (n + 1) = Some k0;
  ro_store : sys n σ0 k0;
  ro_boot : boot client_init mode n = Ok s0;
  ro_steps : steps client_init client_free s0 tr s;
  ro_once : Forall once tr;
  ro_reads : Forall label_ok tr;
  ro_ops : ops_ok (accepted tr) σ0;
}.

Lemma runs_once_inv : runs_once → inv (mkManagers 1 mode n) σ0 no_watch (accepted tr) s.
Proof. intros []. by apply (life_steps client_init client_free _ _ _ [] s0); [eapply boot_inv|..]. Qed.

(** After [tr1] the restorer is in [s1], with its thread at [p], and the operations [done] have been
    run. *)
Definition moment (tr1 : list label) (s1 : restorer W) (p : place) (done : list DataRestorerOperation) : Prop :=
  steps client_init client_free s0 tr1 s1 ∧ threads s1 = [p] ∧ accepted tr1 = done ++ pending p (operations_queue_ s1).

(** The execution is taken apart at a label. *)
Lemma runs_at tr1 l tr2 :
  runs_once → tr = tr1 ++ l :: tr2 →
  ∃ s1 s2, steps client_init client_free s0 tr1 s1 ∧ step client_init client_free s1 l s2 ∧ steps client_init client_free s2 tr2 s ∧
    inv (mkManagers 1 mode n) σ0 no_watch (accepted tr1) s1 ∧ label_ok l ∧ Forall once tr2 ∧ Forall label_ok tr2 ∧ ops_ok (accepted tr1 ++ accepted (l :: tr2)) σ0.
Proof.
  intros [Hk Hs Hb Hst Ho Hl Hops] ->. destruct (steps_split _ _ _ _ _ _ _ Hst) as (s1 & s2 & H1 & H2 & H3). exists s1, s2. do 3 (split; [done|]). apply Forall_app in Ho as [Ho1 [_ Ho2]%Forall_cons]. apply Forall_app in Hl as [Hl1 [Hl2 Hl3]%Forall_cons].
  rewrite accepted_app in Hops. split; [|done]. apply (life_steps client_init client_free _ _ _ [] s0); [by eapply boot_inv|done|done|done|]. by apply ops_ok_app in Hops as [? _].
Qed.

(** C4. The restorer is a write-behind store.  Whatever the interleaving of the workers' calls, the
    background thread, spurious wake-ups and a stop, over a redis that answers:
    - the operations that were accepted are those that the database has seen, in that order and
      each exactly once, followed by the ones still queued; only a clear of all the workers'
      command lists shows while it is under way, with the first lists cleared already;
    - a read answers according to the operations that have been run at that moment, to which the
      clear of all lists under way may be counted;
    - a load of all the command lists takes the workers' locks one after the other, so it is no
      snapshot: each list is that of a moment during the call, so it has all operations that had
      been run when the call began, and none that were not accepted when it returned. *)
Theorem gb_restorer_write_behind :
  runs_once →
  (∃ p done k, threads s = [p] ∧ accepted tr = done ++ pending p (operations_queue_ s) ∧ clients s !! 1 = Some k ∧ sys n (reached p (apply_ops done σ0)) k) ∧
  (∀ tr1 r a tr2, tr = tr1 ++ LRead r a :: tr2 → ∃ s1 p done d, moment tr1 s1 p done ∧ sees p done d ∧ read_spec (apply_ops d σ0) r a) ∧
  (∀ tr1 given c tr2 x ls tr3, tr = tr1 ++ LRead (RCmdLists given) (ACall c) :: tr2 ++ LRead (RCmdListsNext c) (ACmdLists x ls) :: tr3 →
    ∃ s1 p done, moment tr1 s1 p done ∧ x = DDR_OK ∧ Z.of_nat (length ls) = n ∧
      ∀ j l, ls !! j = Some l → ∃ d m l', done `prefix_of` d ∧ d `prefix_of` accepted (tr1 ++ tr2) ∧
        st_cmds (apply_ops d σ0) !! j = Some m ∧ l = default [] (given !! j) ++ l' ∧ l' ≡ₚ loaded m).
Proof.
  intros H. split; [|split].
  - destruct (runs_once_inv H) as [_ _ _ _ (p & done & Ht & _ & _ & _ & _ & _ & Hh & _ & (k & Hk & Hs))]. by exists p, done, k.
  - intros tr1 r a tr2 E. destruct (runs_at _ _ _ H E) as (s1 & s2 & H1 & H2 & _ & Hi & Hl & _). inversion H2 as [| | |r' a' s3 s4 Hrun| | | | | | |]; subst.
    destruct (read_inv _ _ _ _ _ _ _ _ Hi Hl Hrun) as [_ (p & done & d & Ht & Hh & Hsee & Hsp)]. by exists s1, p, done, d.
  - intros tr1 given c tr2 x ls tr3 E. destruct (runs_at _ _ _ H E) as (s1 & s2 & H1 & H2 & H3 & Hi & _ & Ho & Hl & Hops). inversion H2 as [| | |r' a' s3 s4 Hrun| | | | | | |]; subst.
    pose proof Hi as [_ _ _ _ (p & done & Ht & _ & _ & _ & _ & _ & Hh & _)]. destruct (begin_inv _ _ _ (mkWatch done c given) _ _ _ _ _ _ _ Hi Hrun Ht Hh) as [[= ->] Hi2]. specialize (Hi2 (or_intror eq_refl)).
    exists s1, p, done. split; [done|]. destruct (steps_split _ _ _ _ _ _ _ H3) as (s5 & s6 & H5 & H6 & _). apply Forall_app in Ho as [Ho _]. apply Forall_app in Hl as [Hl _]. cbn [accepted omap list_omap] in Hops. fold (accepted (tr2 ++ LRead (RCmdListsNext (next_load s1)) (ACmdLists x ls) :: tr3)) in Hops. rewrite accepted_app, app_assoc in Hops.
    apply ops_ok_app in Hops as [Hops _]. pose proof (life_steps client_init client_free _ _ _ _ _ _ _ Hi2 H5 Ho Hl Hops) as Hi5. rewrite <-accepted_app in Hi5. inversion H6 as [| | |r' a' s7 s8 Hrun6| | | | | | |]; subst.
    destruct (round_inv _ _ _ _ _ _ _ _ Hi5 Hrun6) as (_ & (p5 & d5 & d6 & _ & _ & _ & Hx) & Hret). split; [exact Hx|]. exact (Hret eq_refl _ _ eq_refl).
Qed.

(** C14. Until it is told to stop the background thread alone drains the queue: after finitely many
    of its steps, none of which fails, it waits on an empty queue, and the database holds what
    all accepted operations leave. *)
Theorem gb_restorer_drains :
  runs_once → force_thread_exit_ s = false →
  ∃ m s' k, run_thread m s = Ok s' ∧ threads s' = [TSleep] ∧ operations_queue_ s' = [] ∧ clients s' !! 1 = Some k ∧ sys n (apply_ops (accepted tr) σ0) k.
Proof.
  intros H Hf. destruct (thread_drains _ _ _ _ _ (runs_once_inv H) (ro_ops H) Hf) as (m & s' & Hrun & [_ _ _ _ (p & done & Ht & _ & _ & Hsl & _ & _ & Hh & _ & (k & Hk & Hs))] & Hsleep).
  exists m, s', k. assert (p = TSleep) as -> by congruence. rewrite (Hsl eq_refl) in *. rewrite app_nil_r in Hh. subst done. by split_and!.
Qed.

(** C9. The life of a restorer that is started once and not uninitialised, over a redis that
    answers, is safe: no step of the background thread fails (no assertion, no null or deleted
    manager, client or latch), and neither does the wait of [Stop].  Not to uninitialise it is
    needed: [Uninit] does not look at [started_], and after it the thread's next operation uses
    the deleted client. *)
Theorem gb_restorer_safe :
  runs_once →
  (∀ t, ∃ b s', thread_step t s = Ok (b, s')) ∧ (ctl s = CWait → ∃ b s', Stop_wait s = Ok (b, s')) ∧
  (started_ s = true → ∀ r s1 op, Uninit client_free s = Ok (r, s1) → threads s1 = [TExec op] → clears_all op = false → thread_step 0 s1 = Err FUndef).
Proof.
  intros H. pose proof (runs_once_inv H) as Hi. split; [|split].
  - intros [|t]; [destruct (thread_inv _ _ _ _ _ Hi (ro_ops H)) as (b & s' & ? & _); by exists b, s'|]. destruct Hi as [_ _ _ _ (p & done & Ht & _)]. exists false, s. unfold thread_step. by rewrite bind_get, Ht.
  - intros Hc. destruct Hi as [_ _ _ _ (p & done & _ & Hal & _)]. destruct Hal as [| |A1 A2 A3 A4|]; try congruence. unfold Stop_wait, mbind, M_bind, get, lift, put. rewrite A4. destruct p; by eexists _, _.
  - intros Hst r s1 op Hun Ht Hop. pose proof (started_managers _ _ _ _ _ Hi Hst) as Hm. destruct (i_client _ _ _ _ _ Hi) as [Hin Hcl].
    assert (mgrs s1 = Some (mkManagers 1 mode n) ∧ clients s1 !! 1 = None) as [Hm1 Hc1].
    { unfold Uninit, mbind, M_bind, get, lift, put in Hun. rewrite Hin, Hcl in Hun. destruct (clients s !! _); [|done]. cbn in Hun. destruct (client_free _); [|done]. injection Hun as _ <-. split; [done|]. apply lookup_delete_eq. }
    unfold thread_step, execute, with_managers, on_managers, mbind, M_bind, get, lift. rewrite Ht. cbn [lookup list_lookup]. rewrite Hop, Hm1. cbn [deref mg_client]. by rewrite Hc1.
Qed.

(** [force_thread_exit_] is not reset: once [Stop] has returned, no later [Start], nor [Init] and
    [Uninit], brings the restorer back.  Every operation accepted (with DDR_OK) from then on
    stays in the queue for ever, behind those that [Stop] left there. *)
Theorem gb_restorer_restart_ignores tr' s' :
  runs_once → ctl s = CIdle → force_thread_exit_ s = true → steps client_init client_free s tr' s' →
  operations_queue_ s' = operations_queue_ s ++ accepted tr'.
Proof.
  intros H Hc Hf Hst. destruct (runs_once_inv H) as [_ _ _ _ (p & done & Ht & Hal & _)]. destruct Hal as [| |[]|A1 A2 A3 A4 ->]; try congruence.
  by apply (quiet_steps client_init client_free s tr' s'); [done|rewrite Ht; by apply Forall_singleton|].
Qed.

(** [data_restorer_threads_] is not emptied: after the second [Start] the latch waits for two
    threads, one of which has ended long ago, so the second [Stop] never returns. *)
Theorem gb_restorer_second_stop_hangs s1 tr' s' :
  runs_once → ctl s = CIdle → force_thread_exit_ s = true → Start true s = Ok (None, s1) →
  steps client_init client_free s1 tr' s' → Forall once tr' → LStopped ∉ tr'.
Proof.
  intros H Hc Hf Hst Hsteps Ho. destruct (runs_once_inv H) as [H1 _ _ _ (p & done & Ht & Hal & _)]. destruct Hal as [| |[]|A1 A2 A3 A4 ->]; try congruence.
  apply (hangs_steps client_init client_free s1 tr' s'); [|done|done]. unfold Start, mbind, M_bind, get, lift, put in Hst. destruct (inited_ s); [|done]. rewrite A2 in Hst. destruct (redis_client_ s); [|done].
  injection Hst as _ <-. exists TTop. cbn. rewrite Ht, length_app, H1. split_and!; try done. left. split_and!; [|done|done]. by destruct (data_restorer_threads_ s).
Qed.

End restorer.
(** C36. [Stop] sets [force_thread_exit_] without the queue's lock, so its wake-up can be lost: when
    the background thread has just seen it unset and is about to wait, [Stop] waits for a thread
    that sleeps, and nothing but another call of a worker or a spurious wake-up ends that. *)
Theorem gb_restorer_lost_wakeup {W} `{!RedisApi W} (client_init : RedisMode → Z → option W) (client_free : M W bool) mode n k s0 :
  client_init mode (n + 1) = Some k → boot client_init mode n = Ok s0 →
  ∃ s, steps client_init client_free s0 [LStarted; LThread 0; LThread 0; LThread 0; LThread 0; LStop; LSignalled; LThread 0] s ∧ ctl s = CWait ∧ exit_latch s = Some 1 ∧
    ∀ l s', step client_init client_free s l s' → (∃ op, l = LCall op) ∨ (∃ r a, l = LRead r a) ∨ (∃ t, l = LSpurious t).
Proof.
  intros Hk Hb. unfold boot, Init, mbind, result_bind, M_bind, get in Hb. cbn -[Start] in Hb. rewrite Hk in Hb. injection Hb as <-. set (s0 := mkRestorer _ _ _ _ _ _ _ _ _ _ _ _ _ _ _ _ _ _). set (tr := [LStarted; _; _; _; _; _; _; _]).
  exists (default s0 (do_labels tr s0)). split; [apply do_labels_steps; by vm_compute|]. split; [by vm_compute|]. split; [by vm_compute|]. intros l s'. by apply stuck_asleep; vm_compute.
Qed.

(** ** The witnesses *)

(** Nothing below depends on how the client was made. *)
#[local] Opaque toy_client_of.

(** A restorer for two workers. *)
Definition toy_boot : restorer (client toy) := match boot toy_init STAND_ALONE_OR_PROXY_MODE 2 with Ok s => s | Err _ => DownDataRestorer_new end.
Definition toy_labels (tr : list label) : restorer (client toy) := default DownDataRestorer_new (do_labels tr toy_boot).

Definition dev_a : Device := Device_new (lit "a").
Definition cmd_a : ExecutingInviteCmd := mkCmd (lit "s") (lit "d") 0 5 false.
Definition op_a : DataRestorerOperation := mkOperation INSERT (DEVICE [dev_a]) (-1).
Definition op_cmd : DataRestorerOperation := mkOperation INSERT (EXECUTING_INVITE_CMD [cmd_a]) 1.
Definition op_clear : DataRestorerOperation := mkOperation CLEAR (EXECUTING_INVITE_CMD []) (-1).

Lemma op_a_ok : op_ok op_a (empty_store 2).
Proof.
  split; [|done]. cbn. split; [split_and!; try done; repeat constructor; done|]. split; [by vm_compute|]. intros x Hx. cbn in Hx. rewrite dom_insert_L, dom_empty_L in Hx. assert (x = lit "a") as -> by set_solver. by repeat constructor.
Qed.
Lemma op_cmd_ok σ : st_cmds σ = [∅; ∅] → op_ok op_cmd σ.
Proof.
  intros E. split; [|done]. cbn. rewrite E. intros m _ [= <-]. split; [split_and!; try done; repeat constructor; done|]. split; [by vm_compute|]. intros x Hx. rewrite dom_insert_L, dom_empty_L in Hx. assert (x = GetId cmd_a) as -> by set_solver. by repeat constructor.
Qed.

Lemma toy_runs_once tr :
  do_labels tr toy_boot = Some (toy_labels tr) → Forall once tr → Forall label_ok tr → accepted tr `prefix_of` [op_a; op_cmd; op_clear] →
  runs_once toy_init (mret true) STAND_ALONE_OR_PROXY_MODE 2 (toy_client_of 3) (empty_store 2) toy_boot (toy_labels tr) tr.
Proof.
  intros Hd Ho Hl [l Ha]. destruct toy_client_3_at as (Hi & Hk & Hdb). split; [done| |by vm_compute| |done|done|].
  - apply sys_empty; [exact Hk|exact Hdb|lia].
  - by apply do_labels_steps.
  - apply (ops_ok_app _ l). rewrite <-Ha. split; [apply op_a_ok|]. split; [by apply op_cmd_ok|]. split; [|exact I]. split; [intros m Hm; by destruct (Hm eq_refl)|exact I].
Qed.

(** The device is stored; a load of all lists begins and loads the empty list of worker 0, a
    command is stored for worker 1 and then loaded; the lists are cleared, and while that is under
    way the command is still counted. *)
Definition run (n : nat) : list label := replicate n (LThread 0).
Definition tr_run : list label :=
  [LStarted; LCall op_a; LCall op_cmd; LCall op_clear] ++ run 5 ++ [LRead (RCmdLists []) (ACall 1); LRead (RCmdListsNext 1) (ARound 0 [])] ++ run 5 ++
  [LRead (RCmdListsNext 1) (ARound 1 [SetSipRestarted true cmd_a]); LRead (RCmdListsNext 1) (ACmdLists DDR_OK [[]; [SetSipRestarted true cmd_a]])] ++
  run 6 ++ [LRead (RCmdCount 1) (ACount 1)].


Lemma gb_restorer_write_behind_witness :
  (∃ p done k, threads (toy_labels tr_run) = [p] ∧ accepted tr_run = done ++ pending p (operations_queue_ (toy_labels tr_run)) ∧
    clients (toy_labels tr_run) !! 1 = Some k ∧ sys 2 (reached p (apply_ops done (empty_store 2))) k) ∧
  (∃ s1 p done d, moment toy_init (mret true) toy_boot (take 24 tr_run) s1 p done ∧ sees p done d ∧ read_spec (apply_ops d (empty_store 2)) (RCmdCount 1) (ACount 1)) ∧
  (∃ d m l', d `prefix_of` [op_a; op_cmd; op_clear] ∧ st_cmds (apply_ops d (empty_store 2)) !! 1%nat = Some m ∧ [SetSipRestarted true cmd_a] = l' ∧ l' ≡ₚ loaded m).
Proof.
  destruct (gb_restorer_write_behind toy_init (mret true) STAND_ALONE_OR_PROXY_MODE 2 (toy_client_of 3) (empty_store 2) toy_boot (toy_labels tr_run) tr_run) as (H1 & H2 & H3).
  { apply toy_runs_once; [by vm_compute|by repeat constructor|by repeat constructor|by exists []]. }
  split; [exact H1|]. split; [exact (H2 (take 24 tr_run) _ _ [] eq_refl)|].
  destruct (H3 (take 9 tr_run) [] 1 (take 7 (drop 10 tr_run)) DDR_OK [[]; [SetSipRestarted true cmd_a]] (drop 18 tr_run) eq_refl) as (s1 & p & done & _ & _ & _ & H).
  destruct (H 1%nat _ eq_refl) as (d & m & l' & _ & Hd & Hm & Hl & Hp). exists d, m, l'. split; [exact Hd|]. split; [exact Hm|]. split; [exact Hl|exact Hp].
Defined.

Definition tr_call : list label := [LStarted; LCall op_a].

Lemma gb_restorer_drains_witness :
  ∃ m s' k, run_thread m (toy_labels tr_call) = Ok s' ∧ threads s' = [TSleep] ∧ operations_queue_ s' = [] ∧
    clients s' !! 1 = Some k ∧ sys 2 (apply_ops [op_a] (empty_store 2)) k.
Proof.
  apply (gb_restorer_drains toy_init (mret true) STAND_ALONE_OR_PROXY_MODE 2 (toy_client_of 3) (empty_store 2) toy_boot (toy_labels tr_call) tr_call); [|by vm_compute].
  apply toy_runs_once; [by vm_compute|by repeat constructor|by repeat constructor|by eexists].
Defined.

(** The thread has taken the operation when the restorer is uninitialised. *)
Definition tr_taken : list label := tr_call ++ run 4.
Definition toy_gone : restorer (client toy) := match Uninit (mret true) (toy_labels tr_taken) with Ok (_, s) => s | Err _ => DownDataRestorer_new end.

Lemma gb_restorer_safe_witness :
  (∃ b s', thread_step 0 (toy_labels tr_taken) = Ok (b, s')) ∧ thread_step 0 toy_gone = Err FUndef.
Proof.
  destruct (gb_restorer_safe toy_init (mret true) STAND_ALONE_OR_PROXY_MODE 2 (toy_client_of 3) (empty_store 2) toy_boot (toy_labels tr_taken) tr_taken) as (H1 & _ & H3).
  { apply toy_runs_once; [by vm_compute|by repeat constructor|by repeat constructor|by eexists]. }
  split; [exact (H1 0%nat)|]. apply (H3 ltac:(by vm_compute) DDR_OK toy_gone op_a); by vm_compute.
Defined.

(** The restorer is stopped with an operation in the queue. *)
Definition tr_stop : list label := [LStarted; LCall op_a; LStop; LSignalled; LThread 0; LThread 0; LStopped].
Definition tr_again : list label := [LStart true; LStarted; LCall op_a; LStop; LSignalled; LThread 1; LThread 1].

Lemma gb_restorer_restart_ignores_witness : ∃ s', do_labels tr_again (toy_labels tr_stop) = Some s' ∧ operations_queue_ s' = [op_a; op_a].
Proof.
  eexists. split; [by vm_compute|].
  apply (gb_restorer_restart_ignores toy_init (mret true) STAND_ALONE_OR_PROXY_MODE 2 (toy_client_of 3) (empty_store 2) toy_boot (toy_labels tr_stop) tr_stop tr_again); [|by vm_compute|by vm_compute|].
  - apply toy_runs_once; [by vm_compute|by repeat constructor|by repeat constructor|by eexists].
  - apply do_labels_steps. by vm_compute.
Defined.

Lemma gb_restorer_second_stop_hangs_witness : LStopped ∉ [LStarted; LStop; LSignalled; LThread 1; LThread 1].
Proof.
  apply (gb_restorer_second_stop_hangs toy_init (mret true) STAND_ALONE_OR_PROXY_MODE 2 (toy_client_of 3) (empty_store 2) toy_boot (toy_labels tr_stop) tr_stop
    (default DownDataRestorer_new (do_labels [LStart true] (toy_labels tr_stop))) _ (default DownDataRestorer_new (do_labels [LStart true; LStarted; LStop; LSignalled; LThread 1; LThread 1] (toy_labels tr_stop))));
    [|by vm_compute|by vm_compute|by vm_compute|apply do_labels_steps; by vm_compute|by repeat constructor].
  apply toy_runs_once; [by vm_compute|by repeat constructor|by repeat constructor|by eexists].
Defined.

Lemma gb_restorer_lost_wakeup_witness :
  ∃ s, steps toy_init (mret true) toy_boot [LStarted; LThread 0; LThread 0; LThread 0; LThread 0; LStop; LSignalled; LThread 0] s ∧ ctl s = CWait.
Proof.
  destruct (gb_restorer_lost_wakeup toy_init (mret true) STAND_ALONE_OR_PROXY_MODE 2 (toy_client_of 3) toy_boot) as (s & H1 & H2 & _); [apply toy_client_3_at|by vm_compute|]. by exists s.
Defined.

End GbRestorerProps.
