(* ===== verification/Rings.v ===== *)
(** Circular doubly linked lists with a head node: [ring nx pv s l] says that following [nx] from
    the head [s] visits the nodes [l] and comes back to [s], and that [pv] leads back. *)

From S2P Require Import Prelude Chains.
From stdpp Require Import options.

Fixpoint dseg (nx pv : Z → option Z) (p : Z) (l : list Z) (q : Z) : Prop :=
  match l with
  | [] => nx p = Some q ∧ pv q = Some p
  | a :: l => nx p = Some a ∧ pv a = Some p ∧ dseg nx pv a l q
  end.

Definition ring (nx pv : Z → option Z) (s : Z) (l : list Z) : Prop := dseg nx pv s l s.

(** The list without one node. *)
Definition without (a : Z) (l : list Z) : list Z := filter (λ b, b ≠ a) l.

Lemma without_id a l : a ∉ l → without a l = l.
Proof.
  unfold without. induction l as [|b l IH]; intros Ha; [done|].
  rewrite filter_cons_True by set_solver. f_equal. apply IH. set_solver.
Qed.

Lemma without_mid a l1 l2 : a ∉ l1 → a ∉ l2 → without a (l1 ++ a :: l2) = l1 ++ l2.
Proof.
  intros H1 H2. unfold without. rewrite filter_app, filter_cons_False by auto. fold (without a l1) (without a l2).
  by rewrite !without_id.
Qed.

Lemma elem_of_without a b l : b ∈ without a l ↔ b ∈ l ∧ b ≠ a.
Proof. unfold without. rewrite list_elem_of_filter. naive_solver. Qed.

Lemma NoDup_without a l : NoDup l → NoDup (without a l).
Proof. apply NoDup_filter. Qed.

Section rings.
Implicit Types (nx pv : Z → option Z) (l : list Z).

Lemma dseg_app nx pv p l1 a l2 q :
  dseg nx pv p (l1 ++ a :: l2) q ↔ dseg nx pv p l1 a ∧ dseg nx pv a l2 q.
Proof. revert p. induction l1 as [|b l1 IH]; intros p; simpl; [naive_solver|]. rewrite IH. naive_solver. Qed.

Lemma dseg_last nx pv p l q : dseg nx pv p l q → nx (link_of p l) = Some q ∧ pv q = Some (link_of p l).
Proof.
  revert p. induction l as [|a l IH]; intros p; [done|]. intros (_ & _ & H). rewrite link_of_cons. by apply IH.
Qed.

Lemma dseg_first nx pv p l q : dseg nx pv p l q → nx p = head (l ++ [q]).
Proof. destruct l; simpl; naive_solver. Qed.

(** The nodes of a segment are allocated. *)
Lemma dseg_nodes nx pv p l q a : dseg nx pv p l q → a ∈ l → is_Some (nx a) ∧ is_Some (pv a).
Proof.
  revert p. induction l as [|b l IH]; intros p; [set_solver|]. intros (H1 & H2 & H) [->|]%elem_of_cons; [|eauto].
  split; [|eauto]. rewrite (dseg_first _ _ _ _ _ H). destruct l; simpl; eauto.
Qed.

(** Changing where a segment leads to. *)
Lemma dseg_end nx pv nx' pv' p l q q' :
  dseg nx pv p l q → NoDup (p :: l) →
  nx' (link_of p l) = Some q' → pv' q' = Some (link_of p l) →
  (∀ b, b ∈ p :: l → b ≠ link_of p l → nx' b = nx b) → (∀ b, b ∈ l → pv' b = pv b) →
  dseg nx' pv' p l q'.
Proof.
  revert p. induction l as [|a l IH]; intros p; simpl; [done|].
  intros (H1 & H2 & H) Hnd Hl Hq Hnx Hpv. rewrite link_of_cons in *. apply NoDup_cons in Hnd as [Hp Hnd].
  split_and!.
  - rewrite Hnx; [done|set_solver|]. intros E. apply Hp. rewrite E.
    destruct (link_of_in a l) as [[-> _]|]; set_solver.
  - rewrite Hpv; [done|set_solver].
  - apply IH; try done; [|set_solver]. intros b Hb. apply Hnx. set_solver.
Qed.

Lemma dseg_frame nx pv nx' pv' p l q :
  dseg nx pv p l q → (∀ b, b ∈ p :: l → nx' b = nx b) → (∀ b, b ∈ q :: l → pv' b = pv b) →
  dseg nx' pv' p l q.
Proof.
  revert p. induction l as [|a l IH]; intros p; simpl.
  - intros [H1 H2] Hn Hp. rewrite Hn, Hp by set_solver. done.
  - intros (H1 & H2 & H) Hn Hp. rewrite Hn, Hp by set_solver. split_and!; [done|done|].
    apply IH; [done|set_solver|set_solver].
Qed.

Lemma circ_frame nx pv nx' pv' s l :
  ring nx pv s l → (∀ b, b ∈ s :: l → nx' b = nx b ∧ pv' b = pv b) → ring nx' pv' s l.
Proof. intros H Hf. eapply dseg_frame; [exact H| |]; intros b Hb; by apply Hf. Qed.

(** A node of a ring does not lead to itself. *)
Lemma ring_next_ne nx pv s l a : ring nx pv s l → NoDup (s :: l) → a ∈ l → nx a ≠ Some a.
Proof.
  intros Hr Hnd (l1 & l2 & ->)%list_elem_of_split. apply dseg_app in Hr as [_ H2].
  rewrite (dseg_first _ _ _ _ _ H2). apply NoDup_cons in Hnd as [Hs Hnd].
  apply NoDup_app in Hnd as (_ & _ & [Ha _]%NoDup_cons). destruct l2 as [|b l2]; simpl; intros [= ->]; set_solver.
Qed.

(** The node's neighbours, and that the ring closes when they are linked to each other. *)
Lemma ring_remove nx pv s l a :
  ring nx pv s l → NoDup (s :: l) → a ∈ l →
  ∃ p n, pv a = Some p ∧ nx a = Some n ∧ p ∈ s :: l ∧ n ∈ s :: l ∧ p ≠ a ∧ n ≠ a ∧
    (p = n → p = s) ∧
    ∀ nx' pv', nx' p = Some n → pv' n = Some p →
      (∀ b, b ∈ s :: l → b ≠ p → b ≠ a → nx' b = nx b) →
      (∀ b, b ∈ s :: l → b ≠ n → b ≠ a → pv' b = pv b) →
      ring nx' pv' s (without a l).
Proof.
  intros Hr Hnd (l1 & l2 & ->)%list_elem_of_split. pose proof Hr as [H1 H2]%dseg_app.
  apply NoDup_cons in Hnd as [Hs Hnd]. pose proof Hnd as (Hn1 & Hd & [Ha Hn2]%NoDup_cons)%NoDup_app.
  destruct (dseg_last _ _ _ _ _ H1) as [Hl1 Hl2]. pose proof (dseg_first _ _ _ _ _ H2) as Hf.
  assert (link_of s l1 ∈ s :: l1) as Hin by (destruct (link_of_in s l1) as [[-> _]|]; set_solver).
  assert (a ∉ l1) as Ha1 by (intros ?; eapply Hd; [done|set_solver]).
  assert (a ≠ s) as Has by (intros ->; set_solver).
  rewrite without_mid by done.
  assert (∃ n, head (l2 ++ [s]) = Some n) as [n Hn] by (destruct l2; simpl; eauto).
  rewrite Hn in Hf. exists (link_of s l1), n.
  assert (n ∈ s :: l2) as Hnin by (destruct l2; simplify_eq/=; set_solver).
  split_and!; [done|done|set_solver|set_solver| | | |].
  - intros E. rewrite E in Hin. apply elem_of_cons in Hin as [?|?]; done.
  - intros ->. apply elem_of_cons in Hnin as [?|?]; done.
  - intros E. rewrite E in Hin. apply elem_of_cons in Hin as [?|?]; [congruence|].
    apply elem_of_cons in Hnin as [?|?]; [congruence|]. exfalso. eapply Hd; [done|set_solver].
  - intros nx' pv' Hx Hp Hfn Hfp. destruct l2 as [|b l2]; simplify_eq/=.
    + rewrite app_nil_r. eapply dseg_end; [exact H1|by apply NoDup_cons; set_solver|done|done| |].
      * intros b Hb Hne. apply Hfn; [set_solver|done|]. intros ->. apply elem_of_cons in Hb as [?|?]; done.
      * intros b Hb. apply Hfp; [set_solver|intros ->; set_solver|]. intros ->. done.
    + destruct H2 as (_ & _ & H2). apply dseg_app. apply NoDup_cons in Hn2 as [Hb2 Hn2]. split.
      * eapply dseg_end; [exact H1|by apply NoDup_cons; set_solver|done|done| |].
        -- intros c Hc Hne. apply Hfn; [set_solver|done|]. intros ->. apply elem_of_cons in Hc as [?|?]; done.
        -- intros c Hc. apply Hfp; [set_solver| |intros ->; done]. intros ->. eapply Hd; [done|set_solver].
      * eapply dseg_frame; [exact H2| |].
        -- intros c Hc. apply Hfn; [set_solver| |intros ->; set_solver]. intros ->.
           apply elem_of_cons in Hin as [Hin|Hin]; [rewrite Hin in Hc; set_solver|]. eapply Hd; [done|set_solver].
        -- intros c Hc. apply Hfp; [set_solver| |].
           ++ intros ->. apply elem_of_cons in Hc as [->|?]; [set_solver|done].
           ++ intros ->. apply elem_of_cons in Hc as [->|?]; [done|set_solver].
Qed.

Lemma ring_last nx pv s l : ring nx pv s l →
  pv s = Some (link_of s l) ∧ nx (link_of s l) = Some s ∧ link_of s l ∈ s :: l.
Proof.
  intros Hr. destruct (dseg_last _ _ _ _ _ Hr). split_and!; [done|done|].
  destruct (link_of_in s l) as [[-> _]|]; set_solver.
Qed.

Lemma ring_append nx pv nx' pv' s l a :
  ring nx pv s l → NoDup (s :: l) → a ∉ s :: l →
  nx' (link_of s l) = Some a → pv' a = Some (link_of s l) → nx' a = Some s → pv' s = Some a →
  (∀ b, b ∈ s :: l → b ≠ link_of s l → nx' b = nx b) → (∀ b, b ∈ l → pv' b = pv b) →
  ring nx' pv' s (l ++ [a]).
Proof. intros Hr Hnd Ha H1 H2 H3 H4 H5 H6. apply dseg_app. split; [by eapply dseg_end|done]. Qed.

End rings.
