(* ===== verification/LruCache.v ===== *)
(** The sharded LRU cache of [ComponentsW/cache.leveldb/cache.cpp], with the slices of
    [common/Slice.h] and the hash function of [common/hash.cpp].

    A shard ([LRUCache]) is a hash table of handles ([HandleTable]) and two circular lists of
    them: [in_use_] holds the cached handles that clients refer to, [lru_] the others, oldest
    first.  Handles live in a heap; the heads of the two lists are handles too.  A handle is laid
    out as on a 64-bit machine: its members from [key_data] on are kept as the bytes they occupy,
    because [Insert] copies the key there, over whatever members the bytes of the key reach. *)

From S2P Require Import Prelude Chains.
From stdpp Require Import options.

Module LruCache.

(** ** Slices *)

(** [data_] is the memory from the pointer to the end of its object. *)
Record Slice := mkSlice { data_ : list Z; size_ : Z }.

Fixpoint memcmp (a b : list Z) (n : nat) : option Z :=
  match n, a, b with
  | O, _, _ => Some 0
  | S n, x :: a, y :: b => if x <? y then Some (-1) else if y <? x then Some 1 else memcmp a b n
  | _, _, _ => None
  end.

Definition compare (a b : Slice) : option Z :=
  let sz := if size_ a <? size_ b then size_ a else size_ b in
  ret ← memcmp (data_ a) (data_ b) (Z.to_nat sz);
  Some (if (ret <? 0) || ((ret =? 0) && (size_ a <? size_ b)) then -1
        else if (0 <? ret) || ((ret =? 0) && (size_ b <? size_ a)) then 1
        else 0).

Definition slice_eq (a b : Slice) : option bool := r ← compare a b; Some (r =? 0).

(** A client's key: its bytes, and their number. *)
Definition slice (k : list Z) : Slice := mkSlice k (Z.of_nat (length k)).

(** ** The hash function *)

Definition DecodeFixed32 (l : list Z) : Z := le_dec (take 4 l).

Definition hash_m := 3332679571. (* 0xc6a4a793 *)

(** [while (data + 4 <= limit)], then the [switch] on the number of bytes left. *)
Fixpoint Hash_loop (data : list Z) (h : Z) : Z :=
  match data with
  | b0 :: b1 :: b2 :: b3 :: data =>
      let h := u32 (h + DecodeFixed32 [b0; b1; b2; b3]) in
      let h := u32 (h * hash_m) in
      let h := Z.lxor h (Z.shiftr h 16) in
      Hash_loop data h
  | [] => h
  | _ =>
      let h := match data with [_; _; b2] => u32 (h + u32 (Z.shiftl b2 16)) | _ => h end in
      let h := match data with [_; b1; _] | [_; b1] => u32 (h + u32 (Z.shiftl b1 8)) | _ => h end in
      let h := u32 (h + default 0 (head data)) in
      let h := u32 (h * hash_m) in
      Z.lxor h (Z.shiftr h 24)
  end.

Definition Hash (data : list Z) (seed : Z) : Z :=
  Hash_loop data (Z.lxor seed (u32 (u32 (Z.of_nat (length data)) * hash_m))).

Definition HashSlice (k : list Z) : Z := Hash k 0.

(** ** Handles *)

Record LRUHandle := mkHandle {
  deleter : Z; next_hash : Z; next : Z; prev : Z; in_cache : bool; refs : Z; charge : Z;
  tail : list Z; (* the bytes of the block from [key_data] on *)
}.

(** [sizeof(LRUHandle)] and [offsetof]: [key_data] is followed by padding and three members. *)
Definition sizeof_LRUHandle := 80.
Definition off_key_data := 48.
Definition off_key_length : nat := 8. (* 56, from [key_data] *)
Definition off_hash : nat := 16.
Definition off_value : nat := 24.

Definition key_length (n : LRUHandle) : Z := le_dec (rd (tail n) off_key_length 8).
Definition hash (n : LRUHandle) : Z := le_dec (rd (tail n) off_hash 4).
Definition value (n : LRUHandle) : Z := le_dec (rd (tail n) off_value 8).

(** [key()] of the handle at [a]: [None] when its assertion fails. *)
Definition key (a : Z) (n : LRUHandle) : option Slice :=
  if next n =? a then None else Some (mkSlice (tail n) (key_length n)).

Definition with_deleter x n := mkHandle x (next_hash n) (next n) (prev n) (in_cache n) (refs n) (charge n) (tail n).
Definition with_next_hash x n := mkHandle (deleter n) x (next n) (prev n) (in_cache n) (refs n) (charge n) (tail n).
Definition with_next x n := mkHandle (deleter n) (next_hash n) x (prev n) (in_cache n) (refs n) (charge n) (tail n).
Definition with_prev x n := mkHandle (deleter n) (next_hash n) (next n) x (in_cache n) (refs n) (charge n) (tail n).
Definition with_in_cache x n := mkHandle (deleter n) (next_hash n) (next n) (prev n) x (refs n) (charge n) (tail n).
Definition with_refs x n := mkHandle (deleter n) (next_hash n) (next n) (prev n) (in_cache n) x (charge n) (tail n).
Definition with_charge x n := mkHandle (deleter n) (next_hash n) (next n) (prev n) (in_cache n) (refs n) x (tail n).
Definition with_tail x n := mkHandle (deleter n) (next_hash n) (next n) (prev n) (in_cache n) (refs n) (charge n) x.

Record HandleTable := mkTable { length_ : Z; elems_ : Z; list_ : list Z }.

(** [lru_] and [in_use_] are the addresses of the heads of the two lists. *)
Record LRUCache := mkCache {
  capacity_ : Z; usage_ : Z; lru_ : Z; in_use_ : Z; table_ : HandleTable;
}.

(** What a deleter was called with, and which one. *)
Record call := mkCall { c_deleter : Z; c_key : list Z; c_value : Z }.

Record st := mkSt {
  heap : gmap Z LRUHandle; calls : list call; shard_ : list LRUCache; last_id_ : Z;
}.

Definition set_heap (s : st) h := mkSt h (calls s) (shard_ s) (last_id_ s).
Definition set_shard (s : st) i c := mkSt (heap s) (calls s) (<[i := c]> (shard_ s)) (last_id_ s).
Definition set_table (c : LRUCache) t := mkCache (capacity_ c) (usage_ c) (lru_ c) (in_use_ c) t.
Definition set_usage (c : LRUCache) u := mkCache (capacity_ c) u (lru_ c) (in_use_ c) (table_ c).
Definition set_capacity (c : LRUCache) u := mkCache u (usage_ c) (lru_ c) (in_use_ c) (table_ c).

Abbreviation MS := (M st).

Definition handle (a : Z) : MS LRUHandle := s ← get; lift (deref (heap s !! a)).
Definition upd (a : Z) (f : LRUHandle → LRUHandle) : MS unit :=
  handle a;; modify (λ s, set_heap s (alter f a (heap s))).
Definition shard (i : nat) : MS LRUCache := s ← get; lift (deref (shard_ s !! i)).
Definition upd_shard (i : nat) (f : LRUCache → LRUCache) : MS unit :=
  c ← shard i; modify (λ s, set_shard s i (f c)).

(** [memcpy] and member assignments into the bytes from [key_data] on. *)
Definition store (a : Z) (off : nat) (bs : list Z) : MS unit :=
  n ← handle a;
  if (off + length bs <=? length (tail n))%nat then upd a (with_tail (wr (tail n) off bs))
  else fail FUndef.

(** [key()] of the handle at [a]. *)
Definition key_of (a : Z) : MS Slice :=
  n ← handle a;
  match key a n with Some k => mret k | None => fail FAssert end.

Definition next_of (h : gmap Z LRUHandle) (a : Z) : option Z := next_hash <$> h !! a.

(** The handle has the hash value and the key: where [FindPointer] stops. *)
Definition found (h : gmap Z LRUHandle) (k : Slice) (hv : Z) (a : Z) : option bool :=
  n ← h !! a;
  if negb (hash n =? hv) then Some false else
  k' ← key a n; slice_eq k k'.

(** ** [HandleTable], member [table_] of shard [i] *)

Definition slot (t : HandleTable) (hv : Z) : nat := Z.to_nat (Z.land hv (u32 (length_ t - 1))).

(** The link found, as the handle it is in (0: the slot of the table), and the handle it leads to. *)
Definition FindPointer (i : nat) (k : Slice) (hv : Z) : MS (Z * Z) :=
  c ← shard i;
  hd ← lift (deref (list_ (table_ c) !! slot (table_ c) hv));
  s ← get;
  lift (scan (size (heap s)) (next_of (heap s)) (found (heap s) k hv) 0 hd).

(** Assigning [v] to the link found. *)
Definition set_link (i : nat) (hv link v : Z) : MS unit :=
  if link =? 0 then
    upd_shard i (λ c, let t := table_ c in
      set_table c (mkTable (length_ t) (elems_ t) (<[slot t hv := v]> (list_ t))))
  else upd link (with_next_hash v).

Definition add_elems (i : nat) (d : Z) : MS unit :=
  upd_shard i (λ c, let t := table_ c in set_table c (mkTable (length_ t) (u32 (elems_ t + d)) (list_ t))).

Definition table_Lookup (i : nat) (k : Slice) (hv : Z) : MS Z :=
  ptr ← FindPointer i k hv; mret ptr.2.

(** [while(new_length < elems_) new_length *= 2]. *)
Fixpoint double (fuel : nat) (new_length elems : Z) : result Z :=
  if new_length <? elems then
    match fuel with O => Err FFuel | S fuel => double fuel (u32 (new_length * 2)) elems end
  else Ok new_length.

(** [while (h != NULL)]: one chain moved to the new table. *)
Fixpoint move_chain (fuel : nat) (h new_length : Z) (new_list : list Z) (count : Z) : MS (list Z * Z) :=
  if h =? 0 then mret (new_list, count) else
  match fuel with
  | O => fail FFuel
  | S fuel =>
      n ← handle h;
      let b := Z.to_nat (Z.land (hash n) (u32 (new_length - 1))) in
      hd ← lift (deref (new_list !! b));
      upd h (with_next_hash hd);;
      move_chain fuel (next_hash n) new_length (<[b := h]> new_list) (u32 (count + 1))
  end.

Fixpoint move_chains (old : list Z) (new_length : Z) (new_list : list Z) (count : Z) : MS (list Z * Z) :=
  match old with
  | [] => mret (new_list, count)
  | h :: old =>
      s ← get;
      r ← move_chain (size (heap s)) h new_length new_list count;
      move_chains old new_length r.1 r.2
  end.

Definition Resize (i : nat) : MS unit :=
  c ← shard i;
  let t := table_ c in
  new_length ← lift (double 32 4 (elems_ t));
  r ← move_chains (list_ t) new_length (replicate (Z.to_nat new_length) 0) 0;
  lift (assert_ (elems_ t =? r.2));;
  upd_shard i (λ c, set_table c (mkTable new_length (elems_ t) r.1)).

Definition table_Insert (i : nat) (h : Z) : MS Z :=
  k ← key_of h;
  n ← handle h;
  ptr ← FindPointer i k (hash n);
  let old := ptr.2 in
  nh ← (if old =? 0 then mret 0 else o ← handle old; mret (next_hash o));
  upd h (with_next_hash nh);;
  set_link i (hash n) ptr.1 h;;
  (if old =? 0 then
     add_elems i 1;;
     c ← shard i;
     if length_ (table_ c) <? elems_ (table_ c) then Resize i else mret tt
   else mret tt);;
  mret old.

Definition table_Remove (i : nat) (k : Slice) (hv : Z) : MS Z :=
  ptr ← FindPointer i k hv;
  let result := ptr.2 in
  (if result =? 0 then mret tt else
     n ← handle result;
     set_link i hv ptr.1 (next_hash n);;
     add_elems i (-1));;
  mret result.

(** ** [LRUCache], shard [i] *)

Definition LRU_Remove (e : Z) : MS unit :=
  n ← handle e; upd (next n) (with_prev (prev n));;
  n ← handle e; upd (prev n) (with_next (next n)).

Definition LRU_Append (list e : Z) : MS unit :=
  upd e (with_next list);;
  l ← handle list; upd e (with_prev (prev l));;
  n ← handle e; upd (prev n) (with_next e);;
  n ← handle e; upd (next n) (with_prev e).

Definition Ref (i : nat) (e : Z) : MS unit :=
  c ← shard i;
  n ← handle e;
  (if (refs n =? 1) && in_cache n then LRU_Remove e;; LRU_Append (in_use_ c) e else mret tt);;
  upd e (λ n, with_refs (u32 (refs n + 1)) n).

Definition Unref (i : nat) (e : Z) : MS unit :=
  c ← shard i;
  n ← handle e;
  lift (assert_ (0 <? refs n));;
  upd e (λ n, with_refs (u32 (refs n - 1)) n);;
  n ← handle e;
  if refs n =? 0 then
    lift (assert_ (negb (in_cache n)));;
    k ← key_of e;
    modify (λ s, mkSt (heap s)
      (calls s ++ [mkCall (deleter n) (take (Z.to_nat (size_ k)) (data_ k)) (value n)]) (shard_ s) (last_id_ s));;
    modify (λ s, set_heap s (delete e (heap s)))
  else if in_cache n && (refs n =? 1) then
    LRU_Remove e;; LRU_Append (lru_ c) e
  else mret tt.

Definition FinishErase (i : nat) (e : Z) : MS bool :=
  if e =? 0 then mret false else
  n ← handle e;
  lift (assert_ (in_cache n));;
  LRU_Remove e;;
  upd e (with_in_cache false);;
  upd_shard i (λ c, set_usage c (u64 (usage_ c - charge n)));;
  Unref i e;;
  mret true.

Definition Lookup (i : nat) (k : list Z) (hv : Z) : MS Z :=
  e ← table_Lookup i (slice k) hv;
  (if e =? 0 then mret tt else Ref i e);;
  mret e.

Definition Release (i : nat) (e : Z) : MS unit := Unref i e.

Definition Erase (i : nat) (k : list Z) (hv : Z) : MS unit :=
  e ← table_Remove i (slice k) hv; FinishErase i e;; mret tt.

(** The oldest entry of [lru_] removed, as the loops of [Insert] and [Prune] do. *)
Definition remove_oldest (i : nat) (old : Z) : MS unit :=
  n ← handle old;
  lift (assert_ (refs n =? 1));;
  k ← key_of old;
  e ← table_Remove i k (hash n);
  erased ← FinishErase i e;
  lift (assert_ erased).

(** [while (usage_ > capacity_ && lru_.next != &lru_)]. *)
Fixpoint evict (fuel : nat) (i : nat) : MS unit :=
  c ← shard i;
  l ← handle (lru_ c);
  if (capacity_ c <? usage_ c) && negb (next l =? lru_ c) then
    match fuel with
    | O => fail FFuel
    | S fuel => remove_oldest i (next l);; evict fuel i
    end
  else mret tt.

Fixpoint prune_loop (fuel : nat) (i : nat) : MS unit :=
  c ← shard i;
  l ← handle (lru_ c);
  if negb (next l =? lru_ c) then
    match fuel with
    | O => fail FFuel
    | S fuel => remove_oldest i (next l);; prune_loop fuel i
    end
  else mret tt.

Definition Prune (i : nat) : MS unit := s ← get; prune_loop (size (heap s)) i.

Section alloc.
(** [malloc], given the size and the blocks in use, and what the memory it returns holds. *)
Context (malloc : Z → gset Z → Z) (junk : Z).

Definition new_handle (key_size : Z) : MS Z :=
  s ← get;
  let bytes := sizeof_LRUHandle - 1 + key_size in
  let e := malloc bytes (dom (heap s)) in
  if e =? 0 then fail FUndef else
  modify (λ s, set_heap s (<[e := mkHandle junk junk junk junk false junk junk
    (replicate (Z.to_nat (bytes - off_key_data)) junk)]> (heap s)));;
  mret e.

Definition Insert (i : nat) (k : list Z) (hv val chg del : Z) : MS Z :=
  e ← new_handle (size_ (slice k));
  store e off_value (le_bytes 8 val);;
  upd e (with_deleter del);;
  upd e (with_charge chg);;
  store e off_key_length (le_bytes 8 (size_ (slice k)));;
  store e off_hash (le_bytes 4 hv);;
  upd e (with_in_cache false);;
  upd e (with_refs 1);;
  store e 0 k;;
  c ← shard i;
  (if 0 <? capacity_ c then
     upd e (λ n, with_refs (u32 (refs n + 1)) n);;
     upd e (with_in_cache true);;
     LRU_Append (in_use_ c) e;;
     upd_shard i (λ c, set_usage c (u64 (usage_ c + chg)));;
     old ← table_Insert i e;
     FinishErase i old;; mret tt
   else upd e (with_next 0));;
  s ← get;
  evict (size (heap s)) i;;
  mret e.

(** ** [ShardedLRUCache] *)

Definition kNumShardBits := 4.
Definition kNumShards : nat := 16.

Definition Shard (hv : Z) : nat := Z.to_nat (Z.shiftr hv (32 - kNumShardBits)).

Inductive op :=
  | OInsert (k : list Z) (val chg del : Z)
  | OLookup (k : list Z)
  | ORelease (h : Z)
  | OErase (k : list Z)
  | OValue (h : Z)
  | ONewId
  | OPrune
  | OTotalCharge.

Definition cache_Insert (k : list Z) (val chg del : Z) : MS Z :=
  let hv := HashSlice k in Insert (Shard hv) k hv val chg del.
Definition cache_Lookup (k : list Z) : MS Z :=
  let hv := HashSlice k in Lookup (Shard hv) k hv.
Definition cache_Release (h : Z) : MS unit := n ← handle h; Release (Shard (hash n)) h.
Definition cache_Erase (k : list Z) : MS unit :=
  let hv := HashSlice k in Erase (Shard hv) k hv.
Definition cache_Value (h : Z) : MS Z := n ← handle h; mret (value n).
Definition NewId : MS Z :=
  s ← get;
  let id := u64 (last_id_ s + 1) in
  modify (λ s, mkSt (heap s) (calls s) (shard_ s) id);; mret id.

(** [for (int s = 0; s < kNumShards; s++)], from shard [s] on. *)
Fixpoint cache_Prune (n s : nat) : MS unit :=
  match n with O => mret tt | S n => Prune s;; cache_Prune n (S s) end.
Fixpoint cache_TotalCharge (n s : nat) (total : Z) : MS Z :=
  match n with
  | O => mret total
  | S n => c ← shard s; cache_TotalCharge n (S s) (u64 (total + usage_ c))
  end.

(** One call of the cache; [void] results are 0. *)
Definition exec (o : op) : MS Z :=
  match o with
  | OInsert k val chg del => cache_Insert k val chg del
  | OLookup k => cache_Lookup k
  | ORelease h => cache_Release h;; mret 0
  | OErase k => cache_Erase k;; mret 0
  | OValue h => cache_Value h
  | ONewId => NewId
  | OPrune => cache_Prune kNumShards 0;; mret 0
  | OTotalCharge => cache_TotalCharge kNumShards 0 0
  end.
End alloc.

(** ** Construction and destruction *)

(** [LRUCache::LRUCache] and [SetCapacity] for shard [s]; its two list heads are at [2s+1] and
    [2s+2], members of the object and not blocks of [malloc].  [capacity_] starts undefined
    ([junk]); the table is resized to its first size by the constructor of [HandleTable]. *)
Definition lru_addr (s : nat) : Z := 2 * Z.of_nat s + 1.
Definition in_use_addr (s : nat) : Z := 2 * Z.of_nat s + 2.

Definition empty_head (junk a : Z) : LRUHandle := mkHandle junk junk a a false junk junk [].

Definition new_shard (junk : Z) (s : nat) : MS unit :=
  modify (λ t, set_heap t (<[lru_addr s := empty_head junk (lru_addr s)]>
    (<[in_use_addr s := empty_head junk (in_use_addr s)]> (heap t))));;
  modify (λ t, mkSt (heap t) (calls t)
    (shard_ t ++ [mkCache junk 0 (lru_addr s) (in_use_addr s) (mkTable 0 0 [])]) (last_id_ t));;
  Resize s.

Definition SetCapacity (s : nat) (cap : Z) : MS unit := upd_shard s (λ c, set_capacity c cap).

Fixpoint new_shards (junk : Z) (n s : nat) : MS unit :=
  match n with O => mret tt | S n => new_shard junk s;; new_shards junk n (S s) end.
Fixpoint set_capacities (cap : Z) (n s : nat) : MS unit :=
  match n with O => mret tt | S n => SetCapacity s cap;; set_capacities cap n (S s) end.

Definition per_shard (capacity : Z) : Z := u64 (capacity + (Z.of_nat kNumShards - 1)) / Z.of_nat kNumShards.

Definition NewLRUCache (junk capacity : Z) : MS unit :=
  new_shards junk kNumShards 0;;
  set_capacities (per_shard capacity) kNumShards 0.

(** [LRUCache::~LRUCache]: [for (e = lru_.next; e != &lru_; e = next)]. *)
Fixpoint destroy_loop (fuel : nat) (i : nat) (head e : Z) : MS unit :=
  if e =? head then mret tt else
  match fuel with
  | O => fail FFuel
  | S fuel =>
      n ← handle e;
      lift (assert_ (in_cache n));;
      upd e (with_in_cache false);;
      lift (assert_ (refs n =? 1));;
      Unref i e;;
      destroy_loop fuel i head (next n)
  end.

Definition destroy_shard (i : nat) : MS unit :=
  c ← shard i;
  u ← handle (in_use_ c);
  lift (assert_ (next u =? in_use_ c));;
  l ← handle (lru_ c);
  s ← get;
  destroy_loop (size (heap s)) i (lru_ c) (next l).

(** [~ShardedLRUCache]: the shards, last one first. *)
Fixpoint delete_cache (n : nat) : MS unit :=
  match n with O => mret tt | S n => destroy_shard n;; delete_cache n end.

Definition start : st := mkSt ∅ [] [] 0.

End LruCache.
