(* ===== verification/LruSpec.v ===== *)
(** What the LRU cache of [LruCache] promises, without lists, chains and counters: handles, which
    of them are cached under their keys, and the cached ones that nobody refers to, oldest first. *)

From S2P Require Import Prelude Rings LruCache.
From stdpp Require Import options.

Module LruSpec.
Import LruCache.

(** An entry that clients refer to [e_refs] times. *)
Record entry := mkEntry {
  e_key : list Z; e_value : Z; e_charge : Z; e_deleter : Z; e_refs : Z;
}.

Definition with_erefs (n : Z) (e : entry) : entry := mkEntry (e_key e) (e_value e) (e_charge e) (e_deleter e) n.

(** The call that disposes of an entry. *)
Definition call_of (e : entry) : call := mkCall (e_deleter e) (e_key e) (e_value e).

(** One shard: the capacity, the entries that exist, by handle, the handle cached under each key,
    and the handles that may be evicted. *)
Record lcache := mkL { cap : Z; live : gmap Z entry; tbl : gmap (list Z) Z; lru : list Z }.

Definition charge_of (l : gmap Z entry) (h : Z) : Z := default 0 (e_charge <$> l !! h).

(** The sum of [f] over the handles of a table. *)
Definition total (f : Z → Z) (m : gmap (list Z) Z) : Z := map_fold (λ _ h u, f h + u) 0 m.

Definition usage (a : lcache) : Z := total (charge_of (live a)) (tbl a).

(** ** Operations: the new cache and the calls of deleters *)

(** The entry of a key leaves the cache: it goes away now, or when its last reference does. *)
Definition unhook (k : list Z) (a : lcache) : lcache * list call :=
  match tbl a !! k with
  | None => (a, [])
  | Some h =>
      match live a !! h with
      | None => (a, [])
      | Some e =>
          if e_refs e =? 0
          then (mkL (cap a) (delete h (live a)) (delete k (tbl a)) (without h (lru a)), [call_of e])
          else (mkL (cap a) (live a) (delete k (tbl a)) (lru a), [])
      end
  end.

Definition take_ref (h : Z) (a : lcache) : lcache :=
  match live a !! h with
  | None => a
  | Some e => mkL (cap a) (<[h := with_erefs (e_refs e + 1) e]> (live a)) (tbl a) (without h (lru a))
  end.

Definition drop_ref (h : Z) (a : lcache) : lcache * list call :=
  match live a !! h with
  | None => (a, [])
  | Some e =>
      if e_refs e =? 1 then
        if bool_decide (tbl a !! e_key e = Some h)
        then (mkL (cap a) (<[h := with_erefs 0 e]> (live a)) (tbl a) (lru a ++ [h]), [])
        else (mkL (cap a) (delete h (live a)) (tbl a) (lru a), [call_of e])
      else (mkL (cap a) (<[h := with_erefs (e_refs e - 1) e]> (live a)) (tbl a) (lru a), [])
  end.

(** The oldest entries go while the cache is over its capacity ([full]) or all of them. *)
Fixpoint shrink (full : lcache → bool) (n : nat) (a : lcache) : lcache * list call :=
  match n, lru a with
  | S n, h :: _ =>
      if full a then
        match live a !! h with
        | None => (a, [])
        | Some e =>
            let r := unhook (e_key e) a in
            let r' := shrink full n r.1 in (r'.1, r.2 ++ r'.2)
        end
      else (a, [])
  | _, _ => (a, [])
  end.

Definition over (a : lcache) : bool := cap a <? usage a.

Definition spec_evict (a : lcache) : lcache * list call := shrink over (length (lru a)) a.
Definition spec_prune (a : lcache) : lcache * list call := shrink (λ _, true) (length (lru a)) a.

(** A new entry under handle [h], referred to by its creator; it replaces the key's old one. *)
Definition add (h : Z) (e : entry) (a : lcache) : lcache * list call :=
  if 0 <? cap a then
    let r := unhook (e_key e) a in
    let a1 := mkL (cap a) (<[h := e]> (live r.1)) (<[e_key e := h]> (tbl r.1)) (lru r.1) in
    let r' := spec_evict a1 in (r'.1, r.2 ++ r'.2)
  else spec_evict (mkL (cap a) (<[h := e]> (live a)) (tbl a) (lru a)).

(** ** The whole cache *)

Record sys := mkSys { shards : list lcache; log : list call; ids : Z }.

(** The shard and the entry of a handle. *)
Definition owner (x : sys) (h : Z) : option (nat * lcache) := list_find (λ a, is_Some (live a !! h)) (shards x).
Definition entry_of (x : sys) (h : Z) : option entry := r ← owner x h; live r.2 !! h.

Definition run_shard (x : sys) (i : nat) (f : lcache → lcache * list call) : option sys :=
  a ← shards x !! i;
  let r := f a in Some (mkSys (<[i := r.1]> (shards x)) (log x ++ r.2) (ids x)).

Definition run_all (x : sys) (f : lcache → lcache * list call) : sys :=
  mkSys ((λ a, (f a).1) <$> shards x) (log x ++ concat ((λ a, (f a).2) <$> shards x)) (ids x).

Definition sum (l : list Z) : Z := foldr Z.add 0 l.

(** What a call that returned [r] does: [None] when it may not return that. *)
Definition spec_step (o : op) (r : Z) (x : sys) : option sys :=
  match o with
  | OInsert k val chg del =>
      if bool_decide (r ≠ 0 ∧ entry_of x r = None)
      then run_shard x (Shard (HashSlice k)) (add r (mkEntry k val chg del 1)) else None
  | OLookup k =>
      a ← shards x !! Shard (HashSlice k);
      if r =? default 0 (tbl a !! k)
      then run_shard x (Shard (HashSlice k)) (λ a, (take_ref r a, [])) else None
  | ORelease h => o ← owner x h; run_shard x o.1 (drop_ref h)
  | OErase k => run_shard x (Shard (HashSlice k)) (unhook k)
  | OValue h => e ← entry_of x h; if r =? e_value e then Some x else None
  | ONewId => if r =? u64 (ids x + 1) then Some (mkSys (shards x) (log x) r) else None
  | OPrune => Some (run_all x spec_prune)
  | OTotalCharge => if r =? u64 (sum (usage <$> shards x)) then Some x else None
  end.

(** ** What clients may do *)

(** Keys of one to eight bytes, released handles that are held, and no more references, entries
    and charges than the counters hold. *)
Definition legal (o : op) (x : sys) : bool :=
  match o with
  | OInsert k val chg del =>
      bool_decide (1 ≤ Z.of_nat (length k) ≤ 8 ∧ Forall byte_ok k ∧ 0 ≤ val < 2 ^ 64 ∧ 0 ≤ chg) &&
      match shards x !! Shard (HashSlice k) with
      | Some a => (usage a + chg <? 2 ^ 64) && (Z.of_nat (size (tbl a)) <? 2 ^ 31)
      | None => false
      end
  | OLookup k =>
      match shards x !! Shard (HashSlice k) with
      | Some a => match tbl a !! k with
                  | Some h => match live a !! h with Some e => e_refs e <? 2 ^ 32 - 2 | None => false end
                  | None => true
                  end
      | None => false
      end
  | ORelease h => match entry_of x h with Some e => 0 <? e_refs e | None => false end
  | OErase k => true
  | OValue h => match entry_of x h with Some e => 0 <? e_refs e | None => false end
  | ONewId | OPrune | OTotalCharge => true
  end.

Definition new_sys (capacity : Z) : sys :=
  mkSys (replicate kNumShards (mkL (per_shard capacity) ∅ ∅ [])) [] 0.

End LruSpec.
