(* ===== verification/LruFacts.v ===== *)
(** The two lists and the heap of the LRU cache: how the list operations change a heap, and the
    representation of the entries of [LruSpec] by handles. *)

From S2P Require Import Prelude Chains Buckets Rings LruCache LruSpec.
From stdpp Require Import options.

Module LruFacts.
Import LruCache LruSpec.

(** ** Hash values and slices *)

Lemma lxor_range a b w : 0 ≤ w → 0 ≤ a < 2 ^ w → 0 ≤ b < 2 ^ w → 0 ≤ Z.lxor a b < 2 ^ w.
Proof.
  intros Hw Ha Hb. assert (0 ≤ Z.lxor a b) as H0 by (apply Z.lxor_nonneg; lia). split; [done|].
  assert (∀ x, 0 ≤ x < 2 ^ w → x mod 2 ^ w = x) as Hm by (intros; by apply Z.mod_small).
  assert (Z.lxor a b mod 2 ^ w = Z.lxor a b) as <-; [|by apply Z.mod_pos_bound, Z.pow_pos_nonneg].
  apply Z.bits_inj'. intros n Hn. destruct (decide (n < w)).
  - by rewrite Z.mod_pow2_bits_low.
  - rewrite Z.mod_pow2_bits_high by lia. rewrite Z.lxor_spec.
    rewrite <-(Hm a), <-(Hm b) by done. rewrite !Z.mod_pow2_bits_high by lia. done.
Qed.

Lemma shiftr_range x w n : 0 ≤ n → 0 ≤ x < 2 ^ w → 0 ≤ Z.shiftr x n < 2 ^ w.
Proof.
  intros Hn Hx. rewrite Z.shiftr_div_pow2 by done. assert (1 ≤ 2 ^ n) by (pose proof (Z.pow_pos_nonneg 2 n); lia).
  split; [by apply Z.div_pos; lia|]. eapply Z.le_lt_trans; [apply Z.div_le_upper_bound|apply Hx]; nia.
Qed.

Lemma Hash_loop_range n data h : (length data ≤ n)%nat → 0 ≤ h < 2 ^ 32 → 0 ≤ Hash_loop data h < 2 ^ 32.
Proof.
  assert (∀ x k, 0 ≤ k → 0 ≤ Z.lxor (u32 x) (Z.shiftr (u32 x) k) < 2 ^ 32) as Hx.
  { intros x k Hk. pose proof (wrapu_range 32 x ltac:(lia)).
    apply lxor_range; [lia|done|by apply shiftr_range]. }
  revert data h. induction n as [|n IH]; intros data h Hl Hh; (destruct data as [|b0 [|b1 [|b2 [|b3 data]]]];
    [done|simpl in Hl; try lia; by apply Hx..|simpl in Hl; try lia]).
  cbn [Hash_loop]. apply IH; [lia|by apply Hx].
Qed.

Lemma HashSlice_range k : 0 ≤ HashSlice k < 2 ^ 32.
Proof. eapply Hash_loop_range; [done|]. rewrite Z.lxor_0_l. by apply wrapu_range. Qed.

Lemma Shard_lt k : (Shard (HashSlice k) < kNumShards)%nat.
Proof.
  unfold Shard, kNumShards, kNumShardBits. pose proof (HashSlice_range k).
  rewrite Z.shiftr_div_pow2 by lia. change (2 ^ (32 - 4)) with 268435456.
  assert (HashSlice k / 268435456 < 16); [|lia]. apply Z.div_lt_upper_bound; lia.
Qed.

Lemma memcmp_eq n a b : (n ≤ length a)%nat → (n ≤ length b)%nat →
  ∃ r, memcmp a b n = Some r ∧ (r = 0 ↔ take n a = take n b).
Proof.
  revert a b. induction n as [|n IH]; intros a b Ha Hb; [exists 0; by destruct a, b|].
  destruct a as [|x a], b as [|y b]; simpl in *; try lia.
  destruct (Z.ltb_spec x y); [exists (-1); split; [done|]; split; [done|congruence || (intros [= ? ?]; lia)]|].
  destruct (Z.ltb_spec y x); [exists 1; split; [done|]; split; [done|intros [= ? ?]; lia]|].
  destruct (IH a b) as (r & Hr & He); [lia|lia|]. exists r. split; [done|]. rewrite He.
  assert (x = y) as -> by lia. split; [by intros ->|by intros [=]].
Qed.

(** A slice that holds the bytes [k]. *)
Definition holds (s : Slice) (k : list Z) : Prop := size_ s = Z.of_nat (length k) ∧ take (length k) (data_ s) = k.

Lemma holds_slice k : holds (slice k) k.
Proof. split; [done|]. apply firstn_all. Qed.

Lemma holds_length s k : holds s k → (length k ≤ length (data_ s))%nat.
Proof. intros [_ H]. apply (f_equal length) in H. rewrite length_take in H. lia. Qed.

Lemma slice_eq_run s1 s2 k1 k2 : holds s1 k1 → holds s2 k2 → slice_eq s1 s2 = Some (bool_decide (k1 = k2)).
Proof.
  intros H1 H2. pose proof (holds_length _ _ H1). pose proof (holds_length _ _ H2). destruct H1 as [S1 T1], H2 as [S2 T2].
  unfold slice_eq, compare. rewrite S1, S2.
  set (n := Z.to_nat (if _ <? _ then _ else _)).
  assert (n = length k1 `min` length k2)%nat as Hn by (unfold n; case_match; lia). clearbody n.
  destruct (memcmp_eq n (data_ s1) (data_ s2)) as (r & Hr & He); [lia|lia|]. rewrite Hr. cbn [mbind option_bind].
  assert (k1 = k2 ↔ r = 0 ∧ length k1 = length k2) as Hk.
  { rewrite He. split.
    - intros ->. split; [|done]. rewrite Hn, Nat.min_id. congruence.
    - intros [Ht Hl]. rewrite Hn, <-Hl, Nat.min_id in Ht. congruence. }
  f_equal. repeat match goal with |- context [bool_decide ?P] => destruct (bool_decide_reflect P) as [HP|HP] end;
    zbool; simpl; try lia; try done; naive_solver lia.
Qed.

(** ** Handles and what changes *)

(** The bytes of a handle that hold a key, its hash value and a value. *)
Definition tail_of (t k : list Z) (v : Z) : Prop :=
  length t = (31 + length k)%nat ∧ take (length k) t = k ∧
  le_dec (rd t off_key_length 8) = Z.of_nat (length k) ∧ le_dec (rd t off_hash 4) = HashSlice k ∧
  le_dec (rd t off_value 8) = v.

Definition nxt (hp : gmap Z LRUHandle) (a : Z) : option Z := next <$> hp !! a.
Definition prv (hp : gmap Z LRUHandle) (a : Z) : option Z := prev <$> hp !! a.
(** A handle without its list links. *)
Definition body (n : LRUHandle) : LRUHandle := with_next 0 (with_prev 0 n).
Definition bod (hp : gmap Z LRUHandle) (a : Z) : option LRUHandle := body <$> hp !! a.

(** The assertion of [key()]. *)
Definition nextok (hp : gmap Z LRUHandle) (a : Z) : Prop := nxt hp a ≠ Some a.

Section alters.
Context (hp : gmap Z LRUHandle).

Lemma fmap_alter {B} (g : LRUHandle → B) f p a :
  g <$> alter f p hp !! a = if decide (a = p) then (g ∘ f) <$> hp !! a else g <$> hp !! a.
Proof.
  case_decide; subst.
  - rewrite lookup_alter_eq. by destruct (hp !! p).
  - by rewrite lookup_alter_ne.
Qed.

Lemma fmap_alter_same {B} (g : LRUHandle → B) f p a :
  (∀ n, g (f n) = g n) → g <$> alter f p hp !! a = g <$> hp !! a.
Proof.
  intros Hg. rewrite fmap_alter. case_decide; [|done]. destruct (hp !! a); [|done]. simpl. f_equal. apply Hg.
Qed.

Lemma alter_other f p a : a ≠ p → alter f p hp !! a = hp !! a.
Proof. intros. by rewrite lookup_alter_ne. Qed.

Lemma is_Some_alter f p a : is_Some (alter f p hp !! a) ↔ is_Some (hp !! a).
Proof. rewrite lookup_alter. case_decide; subst; by rewrite ?fmap_is_Some. Qed.
End alters.

(** What a projection keeps is equal when the projections are. *)
Lemma fmap_through {B} (g : LRUHandle → LRUHandle) (f : LRUHandle → B) (o o' : option LRUHandle) :
  (∀ n, f (g n) = f n) → g <$> o' = g <$> o → f <$> o' = f <$> o.
Proof.
  intros Hf. destruct o as [n|], o' as [n'|]; simpl; intros H; try done. f_equal. injection H as H.
  by rewrite <-(Hf n), <-(Hf n'), H.
Qed.

Lemma bod_some hp hp' a : bod hp' a = bod hp a → is_Some (hp !! a) → is_Some (hp' !! a).
Proof. unfold bod. intros H [n Hn]. rewrite Hn in H. destruct (hp' !! a); [eauto|done]. Qed.

Lemma nxt_some hp a x : nxt hp a = Some x → is_Some (hp !! a).
Proof. unfold nxt. destruct (hp !! a); [eauto|done]. Qed.
Lemma prv_some hp a x : prv hp a = Some x → is_Some (hp !! a).
Proof. unfold prv. destruct (hp !! a); [eauto|done]. Qed.

(** ** Running the accessors, on shard [i] of a fixed cache *)

Section shard.
Context (s0 : st) (i : nat) (Hi : (i < length (shard_ s0))%nat).

(** The state in which the shard is [C], the heap [hp] and [g] more deleters were called. *)
Definition cfg (hp : gmap Z LRUHandle) (C : LRUCache) (g : list call) : st :=
  mkSt hp (calls s0 ++ g) (<[i := C]> (shard_ s0)) (last_id_ s0).

Lemma handle_run hp C g a n : hp !! a = Some n → handle a (cfg hp C g) = Ok (n, cfg hp C g).
Proof. intros Ha. unfold handle. rewrite bind_get. unfold deref, lift. simpl. by rewrite Ha. Qed.

Lemma upd_run hp C g a f : is_Some (hp !! a) → upd a f (cfg hp C g) = Ok (tt, cfg (alter f a hp) C g).
Proof. intros [n Ha]. unfold upd. by mstep (handle_run hp C g a n Ha). Qed.

Lemma shard_run hp C g : shard i (cfg hp C g) = Ok (C, cfg hp C g).
Proof using Hi.
  unfold shard. rewrite bind_get. unfold deref, lift. simpl. by rewrite list_lookup_insert_eq.
Qed.

Lemma upd_shard_run hp C g f : upd_shard i f (cfg hp C g) = Ok (tt, cfg hp (f C) g).
Proof using Hi.
  unfold upd_shard. mstep (shard_run hp C g). unfold modify, set_shard, cfg. simpl. by rewrite list_insert_insert_eq.
Qed.

(** ** The list operations *)

Lemma LRU_Remove_run hp C g s l e :
  ring (nxt hp) (prv hp) s l → NoDup (s :: l) → e ∈ l →
  ∃ hp', LRU_Remove e (cfg hp C g) = Ok (tt, cfg hp' C g) ∧ ring (nxt hp') (prv hp') s (without e l) ∧
    (∀ x, x ∉ s :: l → hp' !! x = hp !! x) ∧ hp' !! e = hp !! e ∧ (∀ x, bod hp' x = bod hp x) ∧
    (∀ x, x ≠ s → nextok hp x → nextok hp' x).
Proof.
  intros Hr Hnd He. destruct (ring_remove _ _ _ _ _ Hr Hnd He) as (p & n & Hp & Hn & Hpin & Hnin & Hpe & Hne & Hpn & Hcl).
  assert (∀ x, x ∈ s :: l → is_Some (hp !! x)) as Hal.
  { intros x [->|Hx]%elem_of_cons.
    - by eapply prv_some, (ring_last _ _ _ _ Hr).
    - destruct (dseg_nodes _ _ _ _ _ x Hr Hx) as [[? ?] _]. by eapply nxt_some. }
  destruct (hp !! e) as [ne|] eqn:Ee; [|by unfold nxt in Hn; rewrite Ee in Hn].
  assert (next ne = n ∧ prev ne = p) as [En Ep] by (unfold nxt, prv in *; rewrite Ee in *; simplify_eq/=; done).
  set (hp1 := alter (with_prev p) n hp). set (hp2 := alter (with_next n) p hp1).
  assert (hp1 !! e = Some ne) as Ee1 by (unfold hp1; by rewrite alter_other).
  exists hp2. split_and!.
  - unfold LRU_Remove. mstep (handle_run hp C g e ne Ee). rewrite En, Ep.
    mstep (upd_run hp C g n (with_prev p) (Hal n Hnin)). fold hp1. mstep (handle_run hp1 C g e ne Ee1). rewrite En, Ep.
    apply upd_run. unfold hp1. apply is_Some_alter. by apply Hal.
  - apply Hcl; unfold nxt, prv, hp2, hp1.
    + rewrite fmap_alter, decide_True by done. destruct (proj2 (is_Some_alter hp (with_prev p) n p) (Hal p Hpin)) as [np Enp]. by rewrite Enp.
    + rewrite fmap_alter_same by done. rewrite fmap_alter, decide_True by done. destruct (Hal n Hnin) as [nn Enn]. by rewrite Enn.
    + intros b _ Hbp _. rewrite fmap_alter, decide_False by done. by rewrite fmap_alter_same.
    + intros b _ Hbn _. rewrite fmap_alter_same by done. by rewrite fmap_alter, decide_False by done.
  - intros x Hx. unfold hp2, hp1. rewrite !alter_other by (intros ->; done). done.
  - unfold hp2, hp1. by rewrite !alter_other.
  - intros x. unfold bod, hp2, hp1. by rewrite !fmap_alter_same.
  - intros x Hxs Hx. unfold nextok, nxt, hp2. rewrite fmap_alter. unfold hp1. case_decide as Hxp.
    + destruct (alter (with_prev p) n hp !! x); simpl; [|done]. intros [= ->]. subst. naive_solver.
    + by rewrite fmap_alter_same.
Qed.

Lemma LRU_Append_run hp C g s l e :
  ring (nxt hp) (prv hp) s l → NoDup (s :: l) → e ∉ s :: l → is_Some (hp !! e) →
  ∃ hp', LRU_Append s e (cfg hp C g) = Ok (tt, cfg hp' C g) ∧ ring (nxt hp') (prv hp') s (l ++ [e]) ∧
    (∀ x, x ∉ s :: e :: l → hp' !! x = hp !! x) ∧ (∀ x, bod hp' x = bod hp x) ∧
    (∀ x, x ≠ s → x ≠ e → nextok hp x → nextok hp' x) ∧ nextok hp' e.
Proof.
  clear Hi. intros Hr Hnd He Hse. destruct (ring_last _ _ _ _ Hr) as (Hps & Hnt & Htin). set (t := link_of s l) in *.
  assert (is_Some (hp !! s)) as Hss by (by eapply prv_some). assert (is_Some (hp !! t)) as Hst by (by eapply nxt_some).
  assert (e ≠ s ∧ e ≠ t) as [Hes Het] by (split; intros ->; set_solver).
  destruct Hss as [ns Es]. assert (prev ns = t) as Ens by (unfold prv in Hps; rewrite Es in Hps; by simplify_eq/=).
  destruct Hse as [ne Ee].
  set (hp1 := alter (with_next s) e hp). set (hp2 := alter (with_prev t) e hp1).
  set (hp3 := alter (with_next e) t hp2). set (hp4 := alter (with_prev e) s hp3).
  assert (hp2 !! e = Some (with_prev t (with_next s ne))) as Ee2.
  { unfold hp2, hp1. by rewrite !lookup_alter_eq, Ee. }
  assert (hp3 !! e = Some (with_prev t (with_next s ne))) as Ee3 by (unfold hp3; by rewrite alter_other).
  exists hp4. split_and!.
  - unfold LRU_Append. mstep (upd_run hp C g e (with_next s) ltac:(eauto)). fold hp1.
    assert (hp1 !! s = Some ns) as Es1 by (unfold hp1; by rewrite alter_other). mstep (handle_run hp1 C g s ns Es1). rewrite Ens.
    mstep (upd_run hp1 C g e (with_prev t) ltac:(unfold hp1; apply is_Some_alter; eauto)). fold hp2.
    mstep (handle_run hp2 C g e _ Ee2). simpl prev.
    mstep (upd_run hp2 C g t (with_next e) ltac:(unfold hp2, hp1; rewrite !is_Some_alter; eauto)). fold hp3.
    mstep (handle_run hp3 C g e _ Ee3). simpl next. apply upd_run. unfold hp3, hp2, hp1. rewrite !is_Some_alter. eauto.
  - assert (∀ b, nxt hp4 b = if decide (b = t) then Some e else if decide (b = e) then Some s else nxt hp b) as Hn4.
    { intros b. unfold nxt, hp4. rewrite fmap_alter_same by done. unfold hp3. rewrite fmap_alter. case_decide; subst.
      - destruct Hst as [nt Et]. unfold hp2, hp1. rewrite !alter_other by done. by rewrite Et.
      - unfold hp2. rewrite fmap_alter_same by done. unfold hp1. rewrite fmap_alter. case_decide; subst; [by rewrite Ee|done]. }
    assert (∀ b, prv hp4 b = if decide (b = s) then Some e else if decide (b = e) then Some t else prv hp b) as Hp4.
    { intros b. unfold prv, hp4. rewrite fmap_alter. case_decide; subst.
      - destruct (proj2 (is_Some_alter hp2 (with_next e) t s)) as [n3 E3]; [|by unfold hp3; rewrite E3].
        unfold hp2, hp1. rewrite !alter_other by done. eauto.
      - unfold hp3. rewrite fmap_alter_same by done. unfold hp2. rewrite fmap_alter. case_decide; subst.
        + unfold hp1. by rewrite lookup_alter_eq, Ee.
        + unfold hp1. by rewrite fmap_alter_same. }
    eapply ring_append; [exact Hr|done|done|..].
    + rewrite Hn4. by rewrite decide_True.
    + rewrite Hp4. rewrite decide_False, decide_True by done. done.
    + rewrite Hn4. rewrite decide_False, decide_True by done. done.
    + rewrite Hp4. by rewrite decide_True.
    + intros b Hb Hbt. rewrite Hn4. rewrite !decide_False; [done| |done]. intros ->. done.
    + intros b Hb. rewrite Hp4. apply NoDup_cons in Hnd as [Hs _]. rewrite !decide_False; [done| |]; intros ->; set_solver.
  - intros x Hx. unfold hp4, hp3, hp2, hp1. rewrite !alter_other; [done|set_solver..| |set_solver].
    intros ->. apply elem_of_cons in Htin. set_solver.
  - intros x. unfold bod, hp4, hp3, hp2, hp1. by rewrite !fmap_alter_same.
  - intros x Hxs Hxe Hx. unfold nextok, nxt, hp4. rewrite fmap_alter_same by done. unfold hp3. rewrite fmap_alter.
    case_decide.
    + destruct (hp2 !! x); simpl; congruence.
    + unfold hp2. rewrite fmap_alter_same by done. unfold hp1. by rewrite fmap_alter, decide_False.
  - unfold nextok, nxt, hp4. rewrite fmap_alter_same by done. rewrite Ee3. simpl. congruence.
Qed.
End shard.
End LruFacts.
