(* ===== verification/LruTable.v ===== *)
(** The hash table of a shard of the LRU cache implements a finite map from keys to handles:
    lookup, insertion with growth, and removal. *)

From S2P Require Import Prelude Chains Buckets Rings LruCache LruSpec LruFacts.
From stdpp Require Import options.

Module LruTable.
Import LruCache LruSpec LruFacts.

Definition tl (hp : gmap Z LRUHandle) (h : Z) : option (list Z) := tail <$> hp !! h.
(** A handle without its hash chain link. *)
Definition unchained (n : LRUHandle) : LRUHandle := with_next_hash 0 n.
Definition unc (hp : gmap Z LRUHandle) (h : Z) : option LRUHandle := unchained <$> hp !! h.

(** The handles of the slot [j]. *)
Definition slot_of (T : HandleTable) (m : gmap (list Z) Z) (j : nat) (h : Z) : Prop :=
  ∃ k, m !! k = Some h ∧ slot T (HashSlice k) = j.

Record table_at (hp : gmap Z LRUHandle) (T : HandleTable) (m : gmap (list Z) Z) : Prop := {
  t_log : ∃ j, 2 ≤ j ≤ 31 ∧ length_ T = 2 ^ j ∧ Z.of_nat (length (list_ T)) = 2 ^ j;
  t_bk : bk (next_of hp) (list_ T) (slot_of T m);
  t_elems : elems_ T = Z.of_nat (size m);
  t_size : Z.of_nat (size m) ≤ 2 ^ 31;
  t_key k h : m !! k = Some h → h ≠ 0 ∧ ∃ t v, tl hp h = Some t ∧ tail_of t k v;
}.

(** The handles of a table. *)
Definition img (m : gmap (list Z) Z) (h : Z) : Prop := ∃ k, m !! k = Some h.

Lemma tail_of_inj t k k' v v' : tail_of t k v → tail_of t k' v' → k = k'.
Proof.
  intros (_ & H1 & L1 & _) (_ & H2 & L2 & _). rewrite L1 in L2. apply Nat2Z.inj in L2.
  rewrite <-L2 in H2. congruence.
Qed.

Lemma table_inj hp T m k k' h : table_at hp T m → m !! k = Some h → m !! k' = Some h → k = k'.
Proof.
  intros Ht H1 H2. destruct (t_key _ _ _ Ht _ _ H1) as (_ & t & v & E & Hv).
  destruct (t_key _ _ _ Ht _ _ H2) as (_ & t' & v' & E' & Hv'). rewrite E in E'. simplify_eq.
  by eapply tail_of_inj.
Qed.

Lemma table_apart hp T m : table_at hp T m → apart (slot_of T m).
Proof. intros Ht j1 j2 h (k & H1 & <-) (k' & H2 & <-). by rewrite (table_inj _ _ _ _ _ _ Ht H1 H2). Qed.

Lemma table_frame hp hp' T m : table_at hp T m →
  (∀ h, img m h → next_of hp' h = next_of hp h ∧ tl hp' h = tl hp h) → table_at hp' T m.
Proof.
  intros [Hl Hb He Hs Hk] Hf. split; try done.
  - eapply bk_frame; [exact Hb|]. intros j h (k & Hm & _). apply Hf. by exists k.
  - intros k h Hm. destruct (Hf h) as [_ ->]; [by exists k|]. by apply Hk.
Qed.

Lemma mask_pow hv j : 0 ≤ j ≤ 31 → Z.land hv (u32 (2 ^ j - 1)) = hv mod 2 ^ j.
Proof.
  intros Hj. assert (1 ≤ 2 ^ j ≤ 2 ^ 31) by (split; [pose proof (Z.pow_pos_nonneg 2 j); lia|by apply Z.pow_le_mono_r; lia]).
  rewrite wrapu_small by lia. rewrite <-Z.land_ones by lia. by rewrite Z.ones_equiv, Z.sub_1_r.
Qed.

Lemma slot_lt T n hv j : 0 ≤ j ≤ 31 → length_ T = 2 ^ j → Z.of_nat n = 2 ^ j → (slot T hv < n)%nat.
Proof.
  intros Hj Hl Hn. unfold slot. rewrite Hl, mask_pow by done.
  pose proof (Z.mod_pos_bound hv (2 ^ j) ltac:(apply Z.pow_pos_nonneg; lia)). lia.
Qed.

(** The link before the cut is in a handle of the table. *)
Lemma link_img hp T m j l1 l2 : (∀ p, p ∈ l1 ++ l2 ↔ slot_of T m j p) → table_at hp T m →
  link_of 0 l1 ≠ 0 → img m (link_of 0 l1) ∧ is_Some (hp !! link_of 0 l1).
Proof.
  intros Hl Ht Hne. destruct (link_of_in 0 l1) as [[? _]|Hin]; [done|].
  assert (img m (link_of 0 l1)) as [k Hk] by (destruct (proj1 (Hl (link_of 0 l1))) as (k & ? & _); [set_solver|by exists k]).
  split; [by exists k|]. destruct (t_key _ _ _ Ht _ _ Hk) as (_ & t & v & E & _).
  unfold tl in E. destruct (hp !! link_of 0 l1); [eauto|done].
Qed.

Section shard.
Context (s0 : st) (i : nat) (Hi : (i < length (shard_ s0))%nat).
Abbreviation cfg := (cfg s0 i).

Definition all_nextok hp m := ∀ h, img m h → nextok hp h.

Lemma lru_next_alloc hp a : is_Some (next_of hp a) → is_Some (hp !! a).
Proof. unfold next_of. by rewrite fmap_is_Some. Qed.

Lemma found_eq hp T m K k k' h : table_at hp T m → all_nextok hp m → holds K k → m !! k' = Some h →
  found hp K (HashSlice k) h = Some (bool_decide (k = k')).
Proof.
  intros Ht Hn HK Hm. destruct (t_key _ _ _ Ht _ _ Hm) as (_ & t & v & E & Hv). unfold found, tl in *.
  pose proof (Hn h ltac:(by exists k')) as Hnx. unfold nextok, nxt in Hnx.
  destruct (hp !! h) as [n|] eqn:En; [|done]. simpl in *. simplify_eq/=. destruct Hv as (Hl & Htk & Hlen & Hh & _).
  assert (hash n = HashSlice k') as -> by done. destruct (Z.eqb_spec (HashSlice k') (HashSlice k)) as [He|He]; simpl.
  - unfold key. rewrite (proj2 (Z.eqb_neq _ _)) by congruence. cbn. apply slice_eq_run; [done|]. split; [done|]. done.
  - f_equal. symmetry. apply bool_decide_eq_false. congruence.
Qed.

(** What [FindPointer] finds: the chain of the slot, cut at the link it returns. *)
Lemma find_pointer_run hp C g m K k : table_at hp (table_ C) m → all_nextok hp m → holds K k →
  ∃ hd l1 l2, list_ (table_ C) !! slot (table_ C) (HashSlice k) = Some hd ∧ chain (next_of hp) hd (l1 ++ l2) ∧
    (∀ p, p ∈ l1 ++ l2 ↔ slot_of (table_ C) m (slot (table_ C) (HashSlice k)) p) ∧
    (if m !! k is Some h then head l2 = Some h else l2 = []) ∧
    FindPointer i K (HashSlice k) (cfg hp C g) = Ok ((link_of 0 l1, default 0 (m !! k)), cfg hp C g).
Proof using Hi.
  intros Ht Hn HK. destruct (t_log _ _ _ Ht) as (j & Hj & HL & Hlen).
  destruct (lookup_lt_is_Some_2 (list_ (table_ C)) (slot (table_ C) (HashSlice k))) as [hd Hhd].
  { eapply slot_lt; [|exact HL|exact Hlen]. lia. }
  destruct (t_bk _ _ _ Ht _ _ Hhd) as (l & Hc & Hl). pose proof (chain_le_size hp _ _ _ Hc (lru_next_alloc hp)) as Hsz.
  assert (∀ r, scan (size hp) (next_of hp) (found hp K (HashSlice k)) 0 hd = Ok r →
    FindPointer i K (HashSlice k) (cfg hp C g) = Ok (r, cfg hp C g)) as Hrun.
  { intros r Hr. unfold FindPointer. mstep (shard_run s0 i Hi hp C g). unfold deref. rewrite Hhd.
    rewrite (bind_lift _ _ _ hd eq_refl). rewrite bind_get. cbn [heap LruFacts.cfg]. by rewrite Hr. }
  assert (∀ q, q ∈ l → ∃ k', m !! k' = Some q ∧ found hp K (HashSlice k) q = Some (bool_decide (k = k'))) as Hf.
  { intros q (k' & Hk' & _)%Hl. exists k'. split; [done|]. by eapply found_eq. }
  exists hd. destruct (m !! k) as [h|] eqn:Ek.
  - assert (h ∈ l) as (l1 & l2 & ->)%list_elem_of_split by (apply Hl; by exists k).
    exists l1, (h :: l2). split_and!; [done|done|done|done|]. apply Hrun. simpl.
    apply (scan_hit (next_of hp) (found hp K (HashSlice k)) (size hp) 0 hd l1 h l2); [done| | |].
    + rewrite length_app in Hsz. simpl in Hsz. lia.
    + intros b Hb. destruct (Hf b) as (k' & Hk' & ->); [set_solver|]. f_equal. apply bool_decide_eq_false. intros ->.
      rewrite Ek in Hk'. simplify_eq. pose proof (chain_NoDup _ _ _ Hc) as (_ & Hd & _)%NoDup_app. eapply Hd; [done|set_solver].
    + destruct (Hf h) as (k' & Hk' & ->); [set_solver|]. f_equal. apply bool_decide_eq_true. by eapply table_inj.
  - exists l, []. rewrite app_nil_r. split_and!; [done|done|done|done|]. apply Hrun. simpl.
    apply scan_miss; [done|done|]. intros b Hb. destruct (Hf b Hb) as (k' & Hk' & ->). f_equal.
    apply bool_decide_eq_false. congruence.
Qed.

Lemma set_link_run hp C g hv link v : (link ≠ 0 → is_Some (hp !! link)) →
  set_link i hv link v (cfg hp C g) = Ok (tt, cfg (if decide (link = 0) then hp else alter (with_next_hash v) link hp)
    (if decide (link = 0) then set_table C (mkTable (length_ (table_ C)) (elems_ (table_ C))
       (<[slot (table_ C) hv := v]> (list_ (table_ C)))) else C) g).
Proof using Hi.
  intros Hl. unfold set_link. destruct (Z.eqb_spec link 0).
  - rewrite !decide_True by done. by rewrite (upd_shard_run s0 i Hi).
  - rewrite !decide_False by done. by apply upd_run, Hl.
Qed.

Lemma Remove_hit hp C g m K k h : table_at hp (table_ C) m → all_nextok hp m → holds K k → m !! k = Some h →
  ∃ hp' T', table_Remove i K (HashSlice k) (cfg hp C g) = Ok (h, cfg hp' (set_table C T') g) ∧
    table_at hp' T' (delete k m) ∧ (∀ x, ¬ img m x → hp' !! x = hp !! x) ∧ (∀ x, unc hp' x = unc hp x) ∧
    next_of hp' h = next_of hp h.
Proof using Hi.
  intros Ht Hn HK Hk. destruct (find_pointer_run hp C g m K k Ht Hn HK) as (hd & l1 & l2 & Hhd & Hc & Hl & Hl2 & Hf).
  rewrite Hk in Hl2, Hf. simpl in Hf. destruct l2 as [|h' l2]; [done|]. injection Hl2 as ->.
  set (T := table_ C) in *. set (link := link_of 0 l1) in *.
  destruct (t_key _ _ _ Ht _ _ Hk) as (Hh0 & t & v & Eh & Hv).
  destruct (hp !! h) as [n|] eqn:En; [|by unfold tl in Eh; rewrite En in Eh].
  pose proof (chain_NoDup _ _ _ Hc) as (Hnd1 & Hd & [Hn2 _]%NoDup_cons)%NoDup_app.
  assert (h ∉ l1) as Hn1 by (intros ?; eapply Hd; [done|set_solver]).
  assert (link ≠ h) as Hlh. { unfold link. destruct (link_of_in 0 l1) as [[-> _]|?]; [done|]. intros E. by rewrite E in *. }
  set (hp' := if decide (link = 0) then hp else alter (with_next_hash (next_hash n)) link hp).
  set (lst' := if decide (link = 0) then <[slot T (HashSlice k) := next_hash n]> (list_ T) else list_ T).
  set (T' := mkTable (length_ T) (u32 (elems_ T + -1)) lst').
  assert (∀ x, x ≠ link ∨ link = 0 → hp' !! x = hp !! x) as Hx'.
  { intros x Hx. unfold hp'. case_decide; [done|]. apply alter_other. naive_solver. }
  assert (∀ x, unc hp' x = unc hp x) as Hu. { intros x. unfold unc, hp'. case_decide; [done|]. by rewrite fmap_alter_same. }
  assert (∀ x, x ≠ link ∨ link = 0 → next_of hp' x = next_of hp x) as Hnx. { intros x Hx. unfold next_of. by rewrite Hx'. }
  exists hp', T'. split_and!.
  - unfold table_Remove. mstep Hf. zneq h 0. rewrite (bind_ok _ _ _ tt (cfg hp' (set_table C T') g)); [done|].
    mstep (handle_run s0 i hp C g h n En).
    pose proof (set_link_run hp C g (HashSlice k) link (next_hash n)) as Hsl. fold T hp' in Hsl.
    mstep (Hsl (λ E, proj2 (link_img _ _ _ _ _ _ Hl Ht E))).
    unfold add_elems. rewrite (upd_shard_run s0 i Hi). do 3 f_equal. unfold T', lst', T. by case_decide.
  - assert (bk (next_of hp') lst' (λ j p, if decide (j = slot T (HashSlice k)) then p ∈ l1 ++ l2 else slot_of T m j p)) as Hbk.
    { eapply (bk_relink (next_of hp) (next_of hp') (list_ T) lst' _ _ hd l1 (h :: l2) (next_hash n) l2);
        [apply Ht|exact Hhd|exact Hc|exact Hl| | | |].
      - apply seg_app in Hc as (r & _ & (-> & _ & r' & Hr' & Hs)). unfold next_of in Hr'. rewrite En in Hr'.
        simplify_eq/=. eapply seg_frame; [exact Hs|]. intros a Ha. apply Hnx.
        destruct (decide (link = 0)); [by right|left]. unfold link in *. intros ->.
        destruct (link_of_in 0 l1) as [[? _]|?]; [done|]. eapply Hd; [done|set_solver].
      - fold link. unfold lst', hp', next_of. case_decide; [done|]. split; [done|]. rewrite lookup_alter_eq.
        destruct (proj2 (link_img _ _ _ _ _ _ Hl Ht ltac:(done))) as [nl Enl]. fold link in Enl. by rewrite Enl.
      - fold link. intros p _ Hp. apply Hnx. by left.
      - intros j p Hj Hp. apply Hnx. destruct (decide (link = 0)); [by right|left]. intros ->.
        destruct (link_of_in 0 l1) as [[? _]|Hin]; [done|]. fold link in Hin. apply Hj.
        eapply table_apart; [exact Ht|exact Hp|]. apply Hl. set_solver. }
    assert (∀ j p, slot_of T' (delete k m) j p ↔ slot_of T m j p ∧ p ≠ h) as Hso.
    { intros j p. unfold slot_of. change (slot T') with (slot T). split.
      - intros (k' & [Hne Hk']%lookup_delete_Some & Hs). split; [eauto|]. intros ->. apply Hne. by eapply table_inj.
      - intros [(k' & Hk' & Hs) Hp]. exists k'. rewrite lookup_delete_ne by congruence. done. }
    destruct Ht as [Hlog Hb Hel Hsz Hkey]. split.
    + destruct Hlog as (j & ? & ? & Hll). exists j. unfold T', lst'. simpl. case_decide; rewrite ?length_insert; done.
    + eapply bk_ext; [exact Hbk|]. intros j p _. rewrite Hso. case_decide as Hj; subst.
      * rewrite <-Hl. split; [intros Hp; split; [set_solver|intros ->; set_solver]|set_solver].
      * split; [|naive_solver]. intros Hp. split; [done|]. intros ->. destruct Hp as (k' & Hk' & <-). apply Hj.
        destruct (Hkey _ _ Hk') as (_ & t' & v' & E' & Hv'). rewrite Eh in E'. simplify_eq.
        by rewrite (tail_of_inj _ _ _ _ _ Hv Hv').
    + unfold T'. simpl. rewrite Hel. rewrite map_size_delete_Some by eauto. assert (size m ≠ 0)%nat.
      { intros E. apply map_size_empty_iff in E. subst. by rewrite lookup_empty in Hk. }
      rewrite wrapu_small; lia.
    + rewrite map_size_delete_Some by eauto. lia.
    + intros k' p [_ Hk']%lookup_delete_Some. destruct (Hkey _ _ Hk') as (? & t' & v' & E' & Hv'). split; [done|].
      exists t', v'. split; [|done]. unfold tl in *. unfold hp'. case_decide; [done|]. by rewrite fmap_alter_same.
  - intros x Hx. apply Hx'. destruct (decide (link = 0)); [by right|left]. intros ->. apply Hx. by apply (link_img _ _ _ _ _ _ Hl Ht).
  - done.
  - apply Hnx. left. done.
Qed.

Lemma Remove_miss hp C g m K k : table_at hp (table_ C) m → all_nextok hp m → holds K k → m !! k = None →
  table_Remove i K (HashSlice k) (cfg hp C g) = Ok (0, cfg hp C g).
Proof using Hi.
  intros Ht Hn HK Hk. destruct (find_pointer_run hp C g m K k Ht Hn HK) as (hd & l1 & l2 & _ & _ & _ & _ & Hf).
  rewrite Hk in Hf. unfold table_Remove. by mstep Hf.
Qed.

Lemma Lookup_run hp C g m K k : table_at hp (table_ C) m → all_nextok hp m → holds K k →
  table_Lookup i K (HashSlice k) (cfg hp C g) = Ok (default 0 (m !! k), cfg hp C g).
Proof using Hi.
  intros Ht Hn HK. destruct (find_pointer_run hp C g m K k Ht Hn HK) as (hd & l1 & l2 & _ & _ & _ & _ & Hf).
  unfold table_Lookup. by mstep Hf.
Qed.
(** ** Growth *)

Lemma lru_move_chain_run l : ∀ fuel h hp C g m j nl new count Q,
  chain (next_of hp) h l → (length l ≤ fuel)%nat → 2 ≤ j ≤ 31 → nl = 2 ^ j → Z.of_nat (length new) = 2 ^ j →
  (∀ q, q ∈ l → ∃ k t v, m !! k = Some q ∧ tl hp q = Some t ∧ tail_of t k v) →
  (∀ k k' q, m !! k = Some q → m !! k' = Some q → k = k') →
  bk (next_of hp) new Q → (∀ b q, Q b q → q ∉ l) → 0 ≤ count → count + Z.of_nat (length l) < 2 ^ 32 →
  ∃ hp' new', move_chain fuel h nl new count (cfg hp C g) = Ok ((new', count + Z.of_nat (length l)), cfg hp' C g) ∧
    length new' = length new ∧
    bk (next_of hp') new' (λ b q, Q b q ∨ (q ∈ l ∧ slot_of (mkTable nl 0 []) m b q)) ∧
    (∀ x, x ∉ l → hp' !! x = hp !! x) ∧ (∀ x, unc hp' x = unc hp x).
Proof.
  clear Hi. induction l as [|a l IH]; intros fuel h hp C g m j nl new count Q Hc Hf Hj Hnl Hln Hk Hinj Hb Hd Hc0 Hcl.
  { simpl in Hc. subst. exists hp, new. rewrite Z.add_0_r. destruct fuel; split_and!; try done;
      (eapply bk_ext; [exact Hb|]; intros b q _; set_solver). }
  pose proof (chain_NoDup _ _ _ Hc) as [Hal _]%NoDup_cons. destruct Hc as (-> & Ha0 & r & Hr & Hc).
  simpl in Hf. destruct fuel as [|fuel]; [lia|].
  destruct (Hk a) as (k & t & v & Hka & Hta & Hv); [set_solver|].
  destruct (hp !! a) as [n|] eqn:En; [|by unfold tl in Hta; rewrite En in Hta].
  assert (hash n = HashSlice k) as Hh. { unfold tl in Hta. rewrite En in Hta. simplify_eq/=. apply Hv. }
  assert (next_hash n = r) as Hnr by (unfold next_of in Hr; rewrite En in Hr; by simplify_eq/=).
  set (b := slot (mkTable nl 0 []) (HashSlice k)).
  destruct (lookup_lt_is_Some_2 new b) as [hd Hhd]. { eapply slot_lt; [|exact Hnl|exact Hln]. lia. }
  set (hp1 := alter (with_next_hash hd) a hp).
  assert (∀ x, x ≠ a → hp1 !! x = hp !! x) as Hx1 by (intros; by apply alter_other).
  assert (∀ x, unc hp1 x = unc hp x) as Hu1 by (intros x; unfold unc, hp1; by rewrite fmap_alter_same).
  destruct (IH fuel r hp1 C g m j nl (<[b := a]> new) (u32 (count + 1)) (λ b' q, Q b' q ∨ (b' = b ∧ q = a)))
    as (hp' & new' & Hrun & Hlen' & Hbk' & Hout & Hu); try done.
  - eapply seg_frame; [exact Hc|]. intros x Hx. unfold next_of. rewrite Hx1; [done|]. by intros ->.
  - lia.
  - by rewrite length_insert.
  - intros q Hq. destruct (Hk q) as (k' & t' & v' & ? & ? & ?); [set_solver|]. exists k', t', v'. split_and!; [done| |done].
    unfold tl, hp1. by rewrite fmap_alter_same.
  - eapply bk_push; [exact Hb|exact Hhd|done| | |].
    + unfold next_of, hp1. rewrite lookup_alter_eq. by rewrite En.
    + intros b' Hq. apply (Hd _ _ Hq). set_solver.
    + intros b' q Hq. unfold next_of. rewrite Hx1; [done|]. intros ->. apply (Hd _ _ Hq). set_solver.
  - intros b' q [Hq|[_ ->]]; [|done]. intros ?. apply (Hd _ _ Hq). set_solver.
  - simpl in Hcl. rewrite wrapu_small; lia.
  - simpl in Hcl. rewrite wrapu_small; lia.
  - simpl in Hcl. rewrite wrapu_small in Hrun by lia. exists hp', new'. split_and!.
    + cbn [move_chain]. zneq a 0. mstep (handle_run s0 i hp C g a n En). rewrite Hh.
      change (Z.to_nat (Z.land (HashSlice k) (u32 (nl - 1)))) with b. unfold deref. rewrite Hhd.
      rewrite (bind_lift _ _ _ hd eq_refl). mstep (upd_run s0 i hp C g a (with_next_hash hd) ltac:(eauto)). fold hp1.
      rewrite Hnr, wrapu_small by lia. rewrite Hrun. simpl length. do 3 f_equal. lia.
    + by rewrite Hlen', length_insert.
    + eapply bk_ext; [exact Hbk'|]. intros b' q _. rewrite elem_of_cons. split.
      * intros [[?|[-> ->]]|[? ?]]; [by left|right|right; naive_solver]. split; [by left|]. by exists k.
      * intros [?|[[->|?] Hs]]; [by left; left| |right; naive_solver]. left. right. split; [|done].
        destruct Hs as (k' & Hk' & <-). unfold b. by rewrite (Hinj _ _ _ Hk' Hka).
    + intros x Hx. rewrite Hout by set_solver. apply Hx1. set_solver.
    + intros x. by rewrite Hu.
Qed.

Lemma lru_move_chains_run old : ∀ ls hp C g m j nl new count Q,
  Forall2 (λ hd l, chain (next_of hp) hd l) old ls → NoDup (concat ls) → 2 ≤ j ≤ 31 → nl = 2 ^ j →
  Z.of_nat (length new) = 2 ^ j →
  (∀ q, q ∈ concat ls → ∃ k t v, m !! k = Some q ∧ tl hp q = Some t ∧ tail_of t k v) →
  (∀ k k' q, m !! k = Some q → m !! k' = Some q → k = k') →
  bk (next_of hp) new Q → (∀ b q, Q b q → q ∉ concat ls) → 0 ≤ count → count + Z.of_nat (length (concat ls)) < 2 ^ 32 →
  ∃ hp' new', move_chains old nl new count (cfg hp C g) = Ok ((new', count + Z.of_nat (length (concat ls))), cfg hp' C g) ∧
    length new' = length new ∧
    bk (next_of hp') new' (λ b q, Q b q ∨ (q ∈ concat ls ∧ slot_of (mkTable nl 0 []) m b q)) ∧
    (∀ x, x ∉ concat ls → hp' !! x = hp !! x) ∧ (∀ x, unc hp' x = unc hp x).
Proof.
  clear Hi. induction old as [|h old IH]; intros ls hp C g m j nl new count Q Hf Hnd Hj Hnl Hln Hk Hinj Hb Hd Hc0 Hcl.
  { apply Forall2_nil_inv_l in Hf as ->. exists hp, new. rewrite Z.add_0_r. split_and!; try done.
    eapply bk_ext; [exact Hb|]. intros b q _. set_solver. }
  apply Forall2_cons_inv_l in Hf as (l & ls' & Hc & Hf & ->). simpl in *. rewrite length_app in Hcl.
  apply NoDup_app in Hnd as (_ & Hdis & Hnd).
  destruct (lru_move_chain_run l (size hp) h hp C g m j nl new count Q) as (hp1 & new1 & Hrun1 & Hl1 & Hb1 & Ho1 & Hu1); try done.
  { eapply chain_le_size; [exact Hc|]. apply lru_next_alloc. }
  { intros q Hq. apply Hk. set_solver. }
  { intros b q Hq Hin. apply (Hd _ _ Hq). set_solver. }
  { lia. }
  destruct (IH ls' hp1 C g m j nl new1 (count + Z.of_nat (length l)) (λ b q, Q b q ∨ (q ∈ l ∧ slot_of (mkTable nl 0 []) m b q)))
    as (hp' & new' & Hrun & Hlen' & Hbk' & Hout & Hu); try done.
  - eapply chains_frame; [exact Hf|]. intros a Ha. unfold next_of. rewrite Ho1; [done|]. intros ?. by eapply Hdis.
  - by rewrite Hl1.
  - intros q Hq. destruct (Hk q) as (k & t & v & ? & Ht & ?); [set_solver|]. exists k, t, v. split_and!; [done| |done].
    unfold tl in *. rewrite Ho1; [done|]. intros ?. by eapply Hdis.
  - intros b q [Hq|[Hq _]] Hin; [|by eapply Hdis]. apply (Hd _ _ Hq). set_solver.
  - lia.
  - lia.
  - exists hp', new'. split_and!.
    + cbn [move_chains]. rewrite bind_get. change (heap (cfg hp C g)) with hp. mstep Hrun1. rewrite Hrun.
      rewrite length_app. do 3 f_equal. lia.
    + by rewrite Hlen'.
    + eapply bk_ext; [exact Hbk'|]. intros b q _. rewrite elem_of_app. naive_solver.
    + intros x Hx. rewrite Hout by set_solver. apply Ho1. set_solver.
    + intros x. by rewrite Hu.
Qed.

Lemma double_run n e j : 2 ≤ j ≤ 31 → e ≤ 2 ^ 31 → 31 - j ≤ Z.of_nat n →
  ∃ j', 2 ≤ j' ≤ 31 ∧ e ≤ 2 ^ j' ∧ double n (2 ^ j) e = Ok (2 ^ j').
Proof.
  clear Hi. revert j. induction n as [|n IH]; intros j Hj He Hn.
  - assert (j = 31) as -> by lia. exists 31. split_and!; [lia|lia|lia|]. cbn [double]. destruct (Z.ltb_spec (2 ^ 31) e); [lia|done].
  - cbn [double]. destruct (Z.ltb_spec (2 ^ j) e) as [Hlt|Hge]; [|exists j; split_and!; try done; lia].
    assert (j < 31). { destruct (decide (j = 31)) as [->|]; [lia|lia]. }
    assert (2 ^ j * 2 = 2 ^ (j + 1)) as -> by (rewrite Z.pow_add_r by lia; lia).
    assert (2 ^ (j + 1) ≤ 2 ^ 31) by (apply Z.pow_le_mono_r; lia). pose proof (Z.pow_pos_nonneg 2 (j + 1)).
    rewrite wrapu_small by lia. apply IH; lia.
Qed.

Lemma Resize_run hp C g m : table_at hp (table_ C) m →
  ∃ hp' T', Resize i (cfg hp C g) = Ok (tt, cfg hp' (set_table C T') g) ∧ table_at hp' T' m ∧
    (∀ x, ¬ img m x → hp' !! x = hp !! x) ∧ (∀ x, unc hp' x = unc hp x).
Proof using Hi.
  intros Ht. destruct (double_run 32 (elems_ (table_ C)) 2) as (j & Hj & _ & Hdb); [lia|destruct Ht; lia|lia|].
  destruct (bk_lists _ _ _ (t_bk _ _ _ Ht) (table_apart _ _ _ Ht)) as (ls & Hf & Hnd & Hls).
  assert (∀ q, q ∈ concat ls ↔ img m q) as Hls'.
  { intros q. rewrite Hls. split; [intros (? & _ & k & ? & _); by exists k|]. intros [k Hk].
    destruct (t_log _ _ _ Ht) as (j' & ? & HL & Hlen).
    exists (slot (table_ C) (HashSlice k)). split; [|by exists k]. eapply slot_lt; [|exact HL|exact Hlen]. lia. }
  assert (length (concat ls) = size m) as Hlen.
  { rewrite <-length_map_to_list, <-(length_fmap snd). apply Permutation_length. apply NoDup_Permutation; [done| |].
    - apply NoDup_fmap_2_strong; [|apply NoDup_map_to_list]. intros [k h] [k' h'] H1%elem_of_map_to_list H2%elem_of_map_to_list E.
      simpl in E. subst. by rewrite (table_inj _ _ _ _ _ _ Ht H1 H2).
    - intros q. rewrite Hls'. rewrite list_elem_of_fmap. split.
      + intros [k Hk]. exists (k, q). split; [done|]. by apply elem_of_map_to_list.
      + intros ([k q'] & -> & Hk%elem_of_map_to_list). by exists k. }
  assert (1 ≤ 2 ^ j ≤ 2 ^ 31) by (split; [pose proof (Z.pow_pos_nonneg 2 j); lia|by apply Z.pow_le_mono_r; lia]).
  destruct (lru_move_chains_run (list_ (table_ C)) ls hp C g m j (2 ^ j) (replicate (Z.to_nat (2 ^ j)) 0) 0 (λ _ _, False))
    as (hp' & new' & Hrun & Hlen' & Hbk & Hout & Hu); try done.
  - rewrite length_replicate. lia.
  - intros q [k Hk]%Hls'. destruct (t_key _ _ _ Ht _ _ Hk) as (_ & t & v & ? & ?). by exists k, t, v.
  - intros k k' q. by eapply table_inj.
  - apply bk_empty.
  - rewrite Hlen. destruct Ht. lia.
  - rewrite length_replicate in Hlen'. exists hp', (mkTable (2 ^ j) (elems_ (table_ C)) new'). split_and!.
    + unfold Resize. mstep (shard_run s0 i Hi hp C g). change 4 with (2 ^ 2). mstep Hdb. mstep Hrun.
      rewrite Hlen, <-(t_elems _ _ _ Ht). cbn [fst snd]. rewrite Z.add_0_l, Z.eqb_refl.
      rewrite (bind_lift _ _ _ tt eq_refl). by rewrite (upd_shard_run s0 i Hi).
    + destruct Ht as [Hlog Hb Hel Hsz Hkey]. split; try done.
      * exists j. split_and!; [lia|lia|done|]. simpl. lia.
      * eapply bk_ext; [exact Hbk|]. intros b q _. split; [intros [[]|[_ ?]]; done|]. intros Hs. right.
        split; [|done]. apply Hls'. destruct Hs as (k & ? & _). by exists k.
      * intros k q Hk. destruct (Hkey _ _ Hk) as (? & t & v & Et & ?). split; [done|]. exists t, v. split; [|done].
        unfold tl in *. rewrite <-Et. by apply (fmap_through unchained), Hu.
    + intros x Hx. apply Hout. by rewrite Hls'.
    + done.
Qed.
(** ** Insertion *)

(** The heap and the slots after the new handle took the place of the old one, or the end of the
    chain. *)
Definition linked hp (h nh link : Z) : gmap Z LRUHandle :=
  if decide (link = 0) then alter (with_next_hash nh) h hp
  else alter (with_next_hash h) link (alter (with_next_hash nh) h hp).

Definition linked_slots (T : HandleTable) (b : nat) (h link : Z) : list Z :=
  if decide (link = 0) then <[b := h]> (list_ T) else list_ T.

Lemma linked_same hp h nh link x : x ≠ h → x ≠ link ∨ link = 0 → linked hp h nh link !! x = hp !! x.
Proof.
  intros Hx Hl. unfold linked. case_decide; [by apply alter_other|]. rewrite !alter_other; [done|done|naive_solver].
Qed.

Lemma linked_unc hp h nh link x : unc (linked hp h nh link) x = unc hp x.
Proof. unfold unc, linked. case_decide; by rewrite !fmap_alter_same. Qed.

Lemma linked_at hp T m k h t v hd l1 l2 :
  table_at hp T m → tl hp h = Some t → tail_of t k v → ¬ img m h → h ≠ 0 → Z.of_nat (size m) < 2 ^ 31 →
  list_ T !! slot T (HashSlice k) = Some hd → chain (next_of hp) hd (l1 ++ l2) →
  (∀ p, p ∈ l1 ++ l2 ↔ slot_of T m (slot T (HashSlice k)) p) →
  (if m !! k is Some h' then head l2 = Some h' else l2 = []) →
  ∃ nh, (if m !! k is Some h' then next_of hp h' = Some nh else nh = 0) ∧
    table_at (linked hp h nh (link_of 0 l1))
      (mkTable (length_ T) (Z.of_nat (size (<[k := h]> m))) (linked_slots T (slot T (HashSlice k)) h (link_of 0 l1)))
      (<[k := h]> m).
Proof.
  clear Hi. intros Ht Hth Hv Hnh Hh0 Hsz Hhd Hc Hl Hl2. set (link := link_of 0 l1). set (b := slot T (HashSlice k)) in *.
  assert (∃ nh l3, (if m !! k is Some h' then next_of hp h' = Some nh else nh = 0) ∧ chain (next_of hp) nh l3 ∧
    (∀ p, p ∈ l3 ↔ p ∈ l2 ∧ m !! k ≠ Some p)) as (nh & l3 & Hnx & Hc3 & Hl3).
  { pose proof (chain_NoDup _ _ _ Hc) as (_ & _ & Hnd)%NoDup_app.
    apply seg_app in Hc as (r & _ & Hc). destruct (m !! k) as [h'|] eqn:Ek.
    - destruct l2 as [|? l2]; [done|]. injection Hl2 as ->. destruct Hc as (-> & _ & nh & Hnh' & Hc).
      exists nh, l2. split_and!; [done|done|]. apply NoDup_cons in Hnd as [? _]. intros p. split; [set_solver|].
      intros [[->|?]%elem_of_cons ?]; [congruence|done].
    - exists 0, []. subst. split_and!; [done|done|]. set_solver. }
  exists nh. split; [done|]. set (hp' := linked hp h nh link).
  assert (∀ p, p ∈ l1 ++ l2 → img m p ∧ p ≠ h) as Hin.
  { intros p (k' & Hk' & _)%Hl. split; [by exists k'|]. intros ->. apply Hnh. by exists k'. }
  assert (link = 0 ∨ link ∈ l1) as Hlink by (unfold link; destruct (link_of_in 0 l1) as [[-> _]|?]; auto).
  assert (link ≠ h) as Hlh. { intros E. destruct Hlink as [?|Hli]; [congruence|]. destruct (Hin link) as [_ ?]; [set_solver|done]. }
  assert (∀ x, x ≠ h → x ≠ link ∨ link = 0 → next_of hp' x = next_of hp x) as Hnx'.
  { intros x ? ?. unfold next_of, hp'. by rewrite linked_same. }
  assert (is_Some (hp !! h)) as [n En] by (unfold tl in Hth; destruct (hp !! h); [eauto|done]).
  assert (next_of hp' h = Some nh) as Hnxh.
  { unfold next_of, hp', linked. case_decide; [by rewrite lookup_alter_eq, En|].
    rewrite alter_other by done. by rewrite lookup_alter_eq, En. }
  pose proof (chain_NoDup _ _ _ Hc) as (_ & Hd & _)%NoDup_app.
  assert (∀ x, x ∈ l3 → x ≠ link ∨ link = 0) as Hl3l.
  { intros x [Hx _]%Hl3. destruct Hlink as [?|Hli]; [by right|left]. intros ->. by eapply Hd. }
  assert (bk (next_of hp') (linked_slots T b h link) (λ j p, if decide (j = b) then p ∈ l1 ++ h :: l3 else slot_of T m j p)) as Hbk.
  { eapply (bk_relink (next_of hp) (next_of hp') (list_ T) _ _ _ hd l1 l2 h (h :: l3));
      [apply Ht|exact Hhd|exact Hc|exact Hl| | | |].
    - simpl. split_and!; [done|done|]. exists nh. split; [done|]. eapply seg_frame; [exact Hc3|]. intros x Hx.
      apply Hnx'; [|by apply Hl3l]. apply Hl3 in Hx as [? _]. apply Hin. set_solver.
    - fold link. unfold linked_slots. case_decide; [done|]. split; [done|]. unfold next_of, hp', linked. rewrite decide_False by done.
      rewrite lookup_alter_eq. destruct (link_img _ _ _ _ _ _ Hl Ht ltac:(done)) as [_ [nl Enl]]. fold link in Enl.
      rewrite alter_other by done. by rewrite Enl.
    - fold link. intros p Hp Hne. apply Hnx'; [|by left]. apply Hin. set_solver.
    - intros j p Hj Hp. apply Hnx'.
      + intros ->. destruct Hp as (k' & ? & _). apply Hnh. by exists k'.
      + destruct Hlink as [?|Hli]; [by right|left]. intros ->. apply Hj. eapply table_apart; [exact Ht|exact Hp|]. apply Hl. set_solver. }
  assert (∀ k' p, <[k := h]> m !! k' = Some p ↔ (k' = k ∧ p = h) ∨ (k' ≠ k ∧ m !! k' = Some p)) as Him.
  { intros k' p. rewrite lookup_insert_Some. naive_solver. }
  split; simpl.
  - destruct (t_log _ _ _ Ht) as (j & ? & ? & ?). exists j. unfold linked_slots. case_decide; rewrite ?length_insert; done.
  - eapply bk_ext; [exact Hbk|]. intros j p _. unfold slot_of. change (slot (mkTable _ _ _)) with (slot T). setoid_rewrite Him.
    case_decide as Hj.
    + rewrite elem_of_app, elem_of_cons, Hl3. split.
      * intros [Hp|[->|[Hp Hpk]]]; [| |].
        -- assert (slot_of T m b p) as (k' & Hk' & Hs) by (apply Hl; set_solver). exists k'. split; [|by subst]. right. split; [|done].
           intros ->. rewrite Hk' in Hl2. destruct l2; [done|]. simplify_eq/=. eapply Hd; [exact Hp|set_solver].
        -- exists k. split; [by left|done].
        -- assert (slot_of T m b p) as (k' & Hk' & Hs) by (apply Hl; set_solver). exists k'. split; [|by subst]. right. split; [|done].
           intros ->. done.
      * intros (k' & [[-> ->]|[Hne Hk']] & Hs); [by right; left|].
        assert (p ∈ l1 ++ l2) as [?|Hp]%elem_of_app by (apply Hl; exists k'; split; [done|congruence]); [by left|]. right. right. split; [done|].
        intros Hk. apply Hne. by eapply table_inj.
    + split.
      * intros (k' & Hk' & Hs). exists k'. split; [|done]. right. split; [|done]. intros ->. by apply Hj.
      * intros (k' & [[-> ->]|[Hne Hk']] & Hs); [by destruct Hj|]. by exists k'.
  - done.
  - rewrite map_size_insert. case_match; simpl; lia.
  - assert (∀ x, tl hp' x = tl hp x) as Htl by (intros x; apply (fmap_through unchained); [done|apply linked_unc]).
    intros k' p [[-> ->]|[_ Hk']]%Him; rewrite Htl; [eauto|]. by apply (t_key _ _ _ Ht).
Qed.

Lemma Insert_run hp C g m k h t v :
  table_at hp (table_ C) m → all_nextok hp m → nextok hp h → tl hp h = Some t → tail_of t k v → ¬ img m h → h ≠ 0 →
  Z.of_nat (size m) < 2 ^ 31 →
  ∃ hp' T', table_Insert i h (cfg hp C g) = Ok (default 0 (m !! k), cfg hp' (set_table C T') g) ∧
    table_at hp' T' (<[k := h]> m) ∧ (∀ x, ¬ img m x → x ≠ h → hp' !! x = hp !! x) ∧ (∀ x, unc hp' x = unc hp x).
Proof using Hi.
  intros Ht Hn Hnh Hth Hv Hni Hh0 Hsz. destruct (hp !! h) as [n|] eqn:En; [|by unfold tl in Hth; rewrite En in Hth].
  assert (tail n = t) as Htn by (unfold tl in Hth; rewrite En in Hth; by simplify_eq/=).
  assert (hash n = HashSlice k) as Hh by (unfold hash; rewrite Htn; apply Hv).
  assert (holds (mkSlice (tail n) (key_length n)) k) as HK.
  { split; simpl; [unfold key_length; rewrite Htn; apply Hv|rewrite Htn; apply Hv]. }
  destruct (find_pointer_run hp C g m _ k Ht Hn HK) as (hd & l1 & l2 & Hhd & Hc & Hl & Hl2 & Hf).
  destruct (linked_at hp (table_ C) m k h t v hd l1 l2) as (nh & Hnx & Hat); try done.
  set (T := table_ C) in *. set (link := link_of 0 l1) in *.
  set (hp1 := linked hp h nh link) in *. set (lst := linked_slots T _ h link) in *.
  set (T1 := mkTable (length_ T) (Z.of_nat (size (<[k := h]> m))) lst) in *.
  assert (∀ x, ¬ img m x → x ≠ h → hp1 !! x = hp !! x) as Hout.
  { intros x Hx Hxh. apply linked_same; [done|]. destruct (decide (link = 0)); [by right|left].
    intros ->. apply Hx. by apply (link_img _ _ _ _ _ _ Hl Ht). }
  assert (key_of h (cfg hp C g) = Ok (mkSlice (tail n) (key_length n), cfg hp C g)) as Hkey.
  { unfold key_of. mstep (handle_run s0 i hp C g h n En). unfold key. unfold nextok, nxt in Hnh. rewrite En in Hnh.
    rewrite (proj2 (Z.eqb_neq _ _)); [done|]. simpl in Hnh. congruence. }
  assert ((if default 0 (m !! k) =? 0 then mret 0 else o ← handle (default 0 (m !! k)); mret (next_hash o)) (cfg hp C g) =
    Ok (nh, cfg hp C g)) as Hnhr.
  { destruct (m !! k) as [h'|] eqn:Ek; simpl; [|by subst]. destruct (t_key _ _ _ Ht _ _ Ek) as (Hh'0 & _). zneq h' 0.
    unfold next_of in Hnx. destruct (hp !! h') as [n'|] eqn:En'; [|done]. simplify_eq/=. by mstep (handle_run s0 i hp C g h' n' En'). }
  assert (set_link i (HashSlice k) link h (cfg (alter (with_next_hash nh) h hp) C g) =
    Ok (tt, cfg hp1 (set_table C (mkTable (length_ T) (elems_ T) lst)) g)) as Hsl.
  { rewrite (set_link_run (alter (with_next_hash nh) h hp) C g (HashSlice k) link h).
    - do 3 f_equal; [unfold lst, linked_slots; fold T; case_decide; [done|by destruct C as [? ? ? ? []]]].
    - intros Hne. apply is_Some_alter. by apply (link_img _ _ _ _ _ _ Hl Ht). }
  unfold table_Insert. mstep Hkey. mstep (handle_run s0 i hp C g h n En). rewrite Hh. mstep Hf. mstep Hnhr.
  mstep (upd_run s0 i hp C g h (with_next_hash nh) ltac:(eauto)). mstep Hsl.
  destruct (m !! k) as [h'|] eqn:Ek; simpl default.
  - destruct (t_key _ _ _ Ht _ _ Ek) as (Hh'0 & _). zneq h' 0. exists hp1, T1. split_and!; [|done|done|intros; apply linked_unc].
    rewrite (bind_ok _ _ _ tt (cfg hp1 (set_table C T1) g)); [done|]. unfold mret, M_ret. do 4 f_equal.
    unfold T1. f_equal. rewrite (t_elems _ _ _ Ht). rewrite map_size_insert, Ek. done.
  - rewrite Z.eqb_refl. assert (add_elems i 1 (cfg hp1 (set_table C (mkTable (length_ T) (elems_ T) lst)) g) =
      Ok (tt, cfg hp1 (set_table C T1) g)) as Hadd.
    { unfold add_elems. rewrite (upd_shard_run s0 i Hi). do 4 f_equal. unfold T1. f_equal. simpl.
      rewrite (t_elems _ _ _ Ht). rewrite map_size_insert, Ek. simpl. rewrite wrapu_small; lia. }
    destruct (Z.ltb_spec (length_ T1) (elems_ T1)) as [Hlt|Hge].
    + destruct (Resize_run hp1 (set_table C T1) g _ Hat) as (hp2 & T2 & Hrs & Hat2 & Hout2 & Hu2).
      exists hp2, T2. split_and!; [|done| |intros x; rewrite Hu2; apply linked_unc].
      * rewrite (bind_ok _ _ _ tt (cfg hp2 (set_table C T2) g)); [done|]. mstep Hadd.
        mstep (shard_run s0 i Hi hp1 (set_table C T1) g). simpl. change (length_ T1) with (length_ T) in Hlt. simpl in Hlt.
        rewrite (proj2 (Z.ltb_lt _ _)) by done. exact Hrs.
      * intros x Hx Hxh. rewrite Hout2; [by apply Hout|]. intros [k' [[_ ?]|[_ ?]]%lookup_insert_Some]; [done|]. apply Hx. by exists k'.
    + exists hp1, T1. split_and!; [|done|done|intros; apply linked_unc].
      rewrite (bind_ok _ _ _ tt (cfg hp1 (set_table C T1) g)); [done|]. mstep Hadd.
      mstep (shard_run s0 i Hi hp1 (set_table C T1) g). simpl. simpl in Hge. by rewrite (proj2 (Z.ltb_ge _ _)).
Qed.
End shard.
End LruTable.
