(* ===== verification/LruWf.v ===== *)
(** The specification of the LRU cache on its own: well-formed caches, that the operations keep
    them well-formed, and what they do to the charges. *)

From S2P Require Import Prelude Rings LruCache LruSpec.
From stdpp Require Import options.

Module LruWf.
Import LruCache LruSpec.

(** ** Sums over a table *)

Lemma total_insert f m k h : m !! k = None → total f (<[k := h]> m) = f h + total f m.
Proof. intros Hk. unfold total. rewrite map_fold_insert_L; [done| |done]. intros. lia. Qed.

Lemma total_delete f m k h : m !! k = Some h → total f m = f h + total f (delete k m).
Proof. intros Hk. unfold total. rewrite (map_fold_delete_L _ _ k h); [done| |done]. intros. lia. Qed.

Lemma total_ext f f' m : (∀ k h, m !! k = Some h → f h = f' h) → total f m = total f' m.
Proof.
  induction m as [|k h m Hk IH] using map_ind; intros Hf; [done|].
  rewrite !total_insert by done. rewrite (Hf k h) by (by rewrite lookup_insert_eq). f_equal.
  apply IH. intros k' h' Hk'. apply (Hf k'). rewrite lookup_insert_ne by congruence. done.
Qed.

Lemma total_nonneg f m : (∀ k h, m !! k = Some h → 0 ≤ f h) → 0 ≤ total f m.
Proof.
  induction m as [|k h m Hk IH] using map_ind; intros Hf; [done|].
  rewrite total_insert by done. assert (0 ≤ f h) by (apply (Hf k); by rewrite lookup_insert_eq).
  assert (0 ≤ total f m); [|lia]. apply IH. intros k' h' Hk'. apply (Hf k'). by rewrite lookup_insert_ne by congruence.
Qed.

(** ** Well-formed caches *)

Record wf (a : lcache) : Prop := {
  w_tbl k h : tbl a !! k = Some h → ∃ e, live a !! h = Some e ∧ e_key e = k;
  w_refs h e : live a !! h = Some e → 0 ≤ e_refs e < 2 ^ 32 - 1;
  w_idle h e : live a !! h = Some e → e_refs e = 0 → tbl a !! e_key e = Some h;
  w_nd : NoDup (lru a);
  w_lru h : h ∈ lru a ↔ ∃ e, live a !! h = Some e ∧ e_refs e = 0;
  w_chg h e : live a !! h = Some e → 0 ≤ e_charge e;
}.

Lemma tbl_inj a k k' h : wf a → tbl a !! k = Some h → tbl a !! k' = Some h → k = k'.
Proof.
  intros Hw H1 H2. destruct (w_tbl _ Hw _ _ H1) as (e & E1 & <-). destruct (w_tbl _ Hw _ _ H2) as (e' & E2 & <-). congruence.
Qed.

Lemma usage_nonneg a : wf a → 0 ≤ usage a.
Proof.
  intros Hw. apply total_nonneg. intros k h Hk. destruct (w_tbl _ Hw _ _ Hk) as (e & He & _).
  unfold charge_of. rewrite He. by eapply w_chg.
Qed.

Lemma unhook_wf a k : wf a → wf (unhook k a).1.
Proof.
  intros Hw. unfold unhook. destruct (tbl a !! k) as [h|] eqn:Ek; [|done].
  destruct (live a !! h) as [e|] eqn:Eh; [|done].
  destruct (w_tbl _ Hw _ _ Ek) as (e' & Ee & He'). simplify_eq. destruct Hw as [Ht Hr Hi Hn Hl Hc].
  destruct (Z.eqb_spec (e_refs e) 0) as [E0|E0]; cbn [fst]; split; cbn [tbl live lru].
  - intros k' h' [Hne Hk']%lookup_delete_Some. destruct (Ht _ _ Hk') as (e'' & Ee'' & <-). exists e''. split; [|done].
    rewrite lookup_delete_ne; [done|]. intros ->. rewrite Eh in Ee''. by simplify_eq.
  - intros h' e'' [_ ?]%lookup_delete_Some. eauto.
  - intros h' e'' [Hne He'']%lookup_delete_Some Hz. pose proof (Hi _ _ He'' Hz) as Hk'.
    rewrite lookup_delete_ne; [done|]. intros E. rewrite <-E, Ek in Hk'. congruence.
  - by apply NoDup_without.
  - intros h'. rewrite elem_of_without, Hl. setoid_rewrite lookup_delete_Some. naive_solver.
  - intros h' e'' [_ ?]%lookup_delete_Some. eauto.
  - intros k' h' [Hne Hk']%lookup_delete_Some. by apply Ht.
  - done.
  - intros h' e'' He'' Hz. pose proof (Hi _ _ He'' Hz) as Hk'. rewrite lookup_delete_ne; [done|].
    intros E. rewrite <-E, Ek in Hk'. congruence.
  - done.
  - done.
  - done.
Qed.

(** The charges after an entry left the cache. *)
Lemma unhook_usage a k h e : wf a → tbl a !! k = Some h → live a !! h = Some e →
  usage (unhook k a).1 = usage a - e_charge e.
Proof.
  intros Hw Ek Eh. unfold usage. rewrite (total_delete _ (tbl a) k h) by done. unfold charge_of at 2. rewrite Eh. simpl.
  unfold unhook. rewrite Ek, Eh. destruct (Z.eqb_spec (e_refs e) 0); simpl; [|lia].
  rewrite (total_ext (charge_of (delete h (live a))) (charge_of (live a))); [lia|].
  intros k' h' [Hne Hk']%lookup_delete_Some. unfold charge_of. rewrite lookup_delete_ne; [done|].
  intros ->. apply Hne. by eapply tbl_inj.
Qed.

Lemma unhook_miss a k : tbl a !! k = None → unhook k a = (a, []).
Proof. intros Hk. unfold unhook. by rewrite Hk. Qed.

Lemma unhook_usage_le a k : wf a → usage (unhook k a).1 ≤ usage a.
Proof.
  intros Hw. destruct (tbl a !! k) as [h|] eqn:Ek; [|by rewrite unhook_miss].
  destruct (w_tbl _ Hw _ _ Ek) as (e & Ee & _). rewrite (unhook_usage a k h e) by done.
  pose proof (w_chg _ Hw _ _ Ee). lia.
Qed.

Lemma unhook_cap a k : cap (unhook k a).1 = cap a.
Proof. unfold unhook. repeat case_match; done. Qed.

Lemma unhook_live a k x : is_Some (live (unhook k a).1 !! x) → is_Some (live a !! x).
Proof. unfold unhook. repeat case_match; simpl; try done. rewrite lookup_delete_is_Some. by intros [_ ?]. Qed.

Lemma unhook_tbl a k : wf a → tbl (unhook k a).1 = delete k (tbl a).
Proof.
  intros Hw. unfold unhook. destruct (tbl a !! k) as [h|] eqn:Ek; [|by rewrite delete_id].
  destruct (w_tbl _ Hw _ _ Ek) as (e & -> & _). by case_match.
Qed.

Lemma refs_usage a h n : usage (mkL (cap a) (alter (with_erefs n) h (live a)) (tbl a) (lru a)) = usage a.
Proof.
  apply total_ext. intros k h' _. simpl. unfold charge_of. rewrite lookup_alter. case_decide; [|done].
  subst. by destruct (live a !! h').
Qed.

Lemma take_ref_wf a h k e : wf a → tbl a !! k = Some h → live a !! h = Some e → e_refs e < 2 ^ 32 - 2 → wf (take_ref h a).
Proof.
  intros Hw Ek Eh Hlt. destruct (w_tbl _ Hw _ _ Ek) as (e' & Ee & He'). simplify_eq. destruct Hw as [Ht Hr Hi Hn Hl Hc].
  pose proof (Hr _ _ Eh). unfold take_ref. rewrite Eh. split; cbn [tbl live lru].
  - intros k' h' Hk'. destruct (decide (h' = h)) as [->|].
    + exists (with_erefs (e_refs e + 1) e). rewrite lookup_insert_eq. split; [done|]. destruct (Ht _ _ Hk') as (e'' & ? & <-). by simplify_eq.
    + rewrite lookup_insert_ne by done. by apply Ht.
  - intros h' e'' [[-> <-]|[? ?]]%lookup_insert_Some; [simpl; lia|eauto].
  - intros h' e'' [[-> <-]|[? ?]]%lookup_insert_Some; [simpl; lia|eauto].
  - by apply NoDup_without.
  - intros h'. rewrite elem_of_without, Hl. setoid_rewrite lookup_insert_Some. split; [naive_solver|].
    intros (e'' & [[-> <-]|[Hne ?]] & Hz); [simpl in Hz; lia|]. naive_solver.
  - intros h' e'' [[-> <-]|[? ?]]%lookup_insert_Some; [simpl; eauto|eauto].
Qed.

Lemma take_ref_usage a h : usage (take_ref h a) = usage a.
Proof.
  unfold take_ref. destruct (live a !! h) as [e|] eqn:Eh; [|done]. apply total_ext. intros k h' _. simpl. unfold charge_of.
  destruct (decide (h' = h)) as [->|]; [by rewrite lookup_insert_eq, Eh|by rewrite lookup_insert_ne].
Qed.

Lemma drop_ref_wf a h e : wf a → live a !! h = Some e → 0 < e_refs e → wf (drop_ref h a).1.
Proof.
  intros Hw Eh Hpos. destruct Hw as [Ht Hr Hi Hn Hl Hc]. pose proof (Hr _ _ Eh). unfold drop_ref. rewrite Eh.
  assert (∀ n k' h', tbl a !! k' = Some h' → ∃ e'', <[h := with_erefs n e]> (live a) !! h' = Some e'' ∧ e_key e'' = k') as Ht'.
  { intros n k' h' Hk'. destruct (Ht _ _ Hk') as (e'' & He'' & Hke). destruct (decide (h' = h)) as [->|].
    - exists (with_erefs n e). rewrite lookup_insert_eq. simplify_eq. done.
    - exists e''. by rewrite lookup_insert_ne. }
  destruct (Z.eqb_spec (e_refs e) 1) as [E1|E1]; [destruct (bool_decide_reflect (tbl a !! e_key e = Some h)) as [Hc'|Hc']|];
    cbn [fst]; split; cbn [tbl live lru]; try (by eauto).
  - intros h' e'' [[-> <-]|[? ?]]%lookup_insert_Some; [simpl; lia|eauto].
  - intros h' e'' [[-> <-]|[? ?]]%lookup_insert_Some; [done|eauto].
  - apply NoDup_app. split_and!; [done| |apply NoDup_singleton]. intros x (e' & ? & ?)%Hl ->%list_elem_of_singleton. simplify_eq. lia.
  - intros h'. rewrite elem_of_app, Hl, list_elem_of_singleton. setoid_rewrite lookup_insert_Some. split.
    + intros [(e' & ? & ?)| ->]; [exists e'; split; [right; split; [intros ->; simplify_eq; lia|done]|done]|].
      exists (with_erefs 0 e). split; [by left|done].
    + intros (e'' & [[-> <-]|[Hne ?]] & Hz); [by right|]. left. eauto.
  - intros h' e'' [[-> <-]|[? ?]]%lookup_insert_Some; [simpl; eauto|eauto].
  - intros k' h' Hk'. destruct (Ht _ _ Hk') as (e'' & He'' & Hke). exists e''. split; [|done].
    rewrite lookup_delete_ne; [done|]. intros ->. simplify_eq.
  - intros h' e'' [_ ?]%lookup_delete_Some. eauto.
  - intros h' e'' [_ ?]%lookup_delete_Some. eauto.
  - intros h'. rewrite Hl. setoid_rewrite lookup_delete_Some. split; [|naive_solver]. intros (e' & ? & ?). exists e'.
    split_and!; [intros ->; simplify_eq; lia|done|done].
  - intros h' e'' [_ ?]%lookup_delete_Some. eauto.
  - intros h' e'' [[-> <-]|[? ?]]%lookup_insert_Some; [simpl; lia|eauto].
  - intros h' e'' [[-> <-]|[? ?]]%lookup_insert_Some; [simpl; lia|eauto].
  - intros h'. rewrite Hl. setoid_rewrite lookup_insert_Some. split.
    + intros (e' & ? & ?). exists e'. split; [right; split; [intros ->; simplify_eq; lia|done]|done].
    + intros (e'' & [[-> <-]|[Hne ?]] & Hz); [simpl in Hz; lia|eauto].
  - intros h' e'' [[-> <-]|[? ?]]%lookup_insert_Some; [simpl; eauto|eauto].
Qed.

Lemma drop_ref_usage a h : wf a → usage (drop_ref h a).1 = usage a.
Proof.
  intros Hw. unfold drop_ref. destruct (live a !! h) as [e|] eqn:Eh; [|done].
  assert (∀ n k h', tbl a !! k = Some h' → charge_of (<[h := with_erefs n e]> (live a)) h' = charge_of (live a) h') as Hx.
  { intros n k h' _. unfold charge_of. destruct (decide (h' = h)) as [->|]; [by rewrite lookup_insert_eq, Eh|by rewrite lookup_insert_ne]. }
  repeat case_match; simpl; apply total_ext; simpl; eauto. intros k h' Hk. unfold charge_of. rewrite lookup_delete_ne; [done|].
  intros ->. destruct (w_tbl _ Hw _ _ Hk) as (e' & ? & <-). simplify_eq. case_bool_decide; done.
Qed.

(** A new entry, when its key is not cached: in the cache, or only with its creator. *)
Lemma add_wf a h e (c : bool) : wf a → live a !! h = None → (c = true → tbl a !! e_key e = None) → e_refs e = 1 → 0 ≤ e_charge e →
  wf (mkL (cap a) (<[h := e]> (live a)) (if c then <[e_key e := h]> (tbl a) else tbl a) (lru a)).
Proof.
  intros [Ht Hr Hi Hn Hl Hc] Hh Hk Hr1 Hch. split; cbn [tbl live lru].
  - intros k h' Hk'. assert (k = e_key e ∧ h' = h ∨ tbl a !! k = Some h') as [[-> ->]|Hk''].
    { destruct c; [apply lookup_insert_Some in Hk'; naive_solver|by right]. }
    + exists e. by rewrite lookup_insert_eq.
    + destruct (Ht _ _ Hk'') as (e' & ? & ?). exists e'. rewrite lookup_insert_ne by congruence. done.
  - intros h' e' [[-> <-]|[? ?]]%lookup_insert_Some; [lia|eauto].
  - intros h' e' [[-> <-]|[? ?]]%lookup_insert_Some; [lia|]. intros Hz. destruct c; [|eauto].
    rewrite lookup_insert_ne; [eauto|]. intros E. pose proof (Hi h' e' ltac:(done) Hz). specialize (Hk eq_refl). congruence.
  - done.
  - intros h'. rewrite Hl. setoid_rewrite lookup_insert_Some. split; [|naive_solver lia].
    intros (e' & ? & ?). exists e'. split; [right; split; [congruence|done]|done].
  - intros h' e' [[-> <-]|[? ?]]%lookup_insert_Some; [done|eauto].
Qed.

Lemma add_usage a h e (c : bool) : wf a → live a !! h = None → (c = true → tbl a !! e_key e = None) →
  usage (mkL (cap a) (<[h := e]> (live a)) (if c then <[e_key e := h]> (tbl a) else tbl a) (lru a)) =
  usage a + if c then e_charge e else 0.
Proof.
  intros Hw Hh Hk. unfold usage; simpl.
  assert (total (charge_of (<[h:=e]> (live a))) (tbl a) = total (charge_of (live a)) (tbl a)) as Hx.
  { apply total_ext. intros k h' Hk'. unfold charge_of. rewrite lookup_insert_ne; [done|]. intros ->.
    destruct (w_tbl _ Hw _ _ Hk') as (e' & ? & _). congruence. }
  destruct c; [|lia]. rewrite total_insert by auto. rewrite Hx. unfold charge_of at 1. rewrite lookup_insert_eq. simpl. lia.
Qed.

(** Replacing does not see the new entry. *)
Lemma unhook_add a k h e : live a !! h = None → wf a →
  unhook k (mkL (cap a) (<[h := e]> (live a)) (tbl a) (lru a)) =
  (mkL (cap a) (<[h := e]> (live (unhook k a).1)) (tbl (unhook k a).1) (lru (unhook k a).1), (unhook k a).2).
Proof.
  intros Hh Hw. unfold unhook. simpl. destruct (tbl a !! k) as [h'|] eqn:Ek; [|done].
  destruct (w_tbl _ Hw _ _ Ek) as (e' & He' & _). assert (h ≠ h') by congruence.
  rewrite lookup_insert_ne by done. rewrite He'. case_match; [|done]. simpl. by rewrite delete_insert_ne.
Qed.

(** ** Shrinking *)

Lemma shrink_nil full n a : lru a = [] → shrink full n a = (a, []).
Proof. intros H. destruct n; [done|]. simpl. by rewrite H. Qed.

Lemma shrink_stop full n a : full a = false → shrink full n a = (a, []).
Proof. intros H. destruct n; [done|]. simpl. rewrite H. by destruct (lru a). Qed.

(** Taking out the oldest entry. *)
Lemma unhook_oldest a h l e : wf a → lru a = h :: l → live a !! h = Some e →
  tbl a !! e_key e = Some h ∧ e_refs e = 0 ∧
  unhook (e_key e) a = (mkL (cap a) (delete h (live a)) (delete (e_key e) (tbl a)) l, [call_of e]).
Proof.
  intros Hw Hl Hh. destruct (proj1 (w_lru _ Hw h)) as (e' & He' & Hz); [rewrite Hl; set_solver|]. simplify_eq.
  pose proof (w_idle _ Hw _ _ Hh Hz) as Hk. split_and!; [done|done|]. unfold unhook. rewrite Hk, Hh, Hz. simpl. do 2 f_equal.
  rewrite Hl. pose proof (w_nd _ Hw) as Hnd. rewrite Hl in Hnd. apply NoDup_cons in Hnd as [? _].
  apply (without_mid h [] l); [set_solver|done].
Qed.

Lemma oldest_live a h l : wf a → lru a = h :: l → ∃ e, live a !! h = Some e.
Proof. intros Hw Hl. destruct (proj1 (w_lru _ Hw h)) as (e & ? & _); [rewrite Hl; set_solver|]. eauto. Qed.

Lemma shrink_wf full n a : wf a → wf (shrink full n a).1.
Proof.
  revert a. induction n as [|n IH]; intros a Hw; [done|]. simpl. destruct (lru a) as [|h l]; [done|].
  destruct (full a); [|done]. destruct (live a !! h); [|done]. simpl. by apply IH, unhook_wf.
Qed.

Lemma shrink_usage_le full n a : wf a → usage (shrink full n a).1 ≤ usage a.
Proof.
  revert a. induction n as [|n IH]; intros a Hw; [done|]. simpl. destruct (lru a) as [|h l]; [done|].
  destruct (full a); [|done]. destruct (live a !! h) as [e|]; [|done]. simpl.
  pose proof (unhook_usage_le a (e_key e) Hw). pose proof (IH _ (unhook_wf a (e_key e) Hw)). lia.
Qed.

Lemma shrink_cap full n a : cap (shrink full n a).1 = cap a.
Proof.
  revert a. induction n as [|n IH]; intros a; [done|]. simpl. destruct (lru a) as [|h l]; [done|].
  destruct (full a); [|done]. destruct (live a !! h) as [e|]; [|done]. simpl. by rewrite IH, unhook_cap.
Qed.

Lemma shrink_live full n a x : is_Some (live (shrink full n a).1 !! x) → is_Some (live a !! x).
Proof.
  revert a. induction n as [|n IH]; intros a; [done|]. simpl. destruct (lru a) as [|h l]; [done|].
  destruct (full a); [|done]. destruct (live a !! h) as [e|]; [|done]. simpl. intros H%IH. by eapply unhook_live.
Qed.

(** What an eviction is for: the charges fit afterwards, or nothing is left to evict. *)
Lemma evict_fits a : wf a → usage (spec_evict a).1 ≤ cap a ∨ lru (spec_evict a).1 = [].
Proof.
  unfold spec_evict. intros Hw. assert (∀ n a, wf a → (length (lru a) ≤ n)%nat →
    usage (shrink over n a).1 ≤ cap a ∨ lru (shrink over n a).1 = []) as H; [|by apply H].
  clear a Hw. induction n as [|n IH]; intros a Hw Hn.
  - right. simpl. by apply nil_length_inv; lia.
  - simpl. destruct (lru a) as [|h l] eqn:El; [by right|]. destruct (over a) eqn:Eo; [|left; unfold over in Eo; simpl; lia].
    destruct (oldest_live a h l Hw El) as [e He]. rewrite He. simpl.
    destruct (unhook_oldest a h l e Hw El He) as (_ & _ & Hu). rewrite Hu. simpl.
    apply (IH (mkL (cap a) (delete h (live a)) (delete (e_key e) (tbl a)) l)); [|simpl in *; lia].
    pose proof (unhook_wf a (e_key e) Hw) as Hw'. by rewrite Hu in Hw'.
Qed.

End LruWf.
