(* ===== verification/LruInv.v ===== *)
(** The shards of the LRU cache implement the caches of [LruSpec]: the representation of a cache
    by a heap and one lemma per operation of [LRUCache]. *)

From S2P Require Import Prelude Chains Buckets Rings LruCache LruSpec LruFacts LruTable LruWf.
From stdpp Require Import options.

Module LruInv.
Import LruCache LruSpec LruFacts LruTable LruWf.

Implicit Types hp : gmap Z LRUHandle.

(** ** The representation *)

(** The members of a handle apart from its links. *)
Definition ent (n : LRUHandle) : Z * bool * Z * Z * list Z := (deleter n, in_cache n, refs n, charge n, tail n).

(** The handle of an entry that is cached or not; the cache counts as one reference. *)
Definition entry_at hp (h : Z) (e : entry) (c : bool) : Prop :=
  ∃ t, ent <$> hp !! h = Some (e_deleter e, c, e_refs e + Z.b2z c, e_charge e, t) ∧ tail_of t (e_key e) (e_value e).

Definition cached (a : lcache) (h : Z) (e : entry) : bool := bool_decide (tbl a !! e_key e = Some h).

Record two_rings hp (s1 : Z) l1 (s2 : Z) l2 : Prop := {
  r_1 : ring (nxt hp) (prv hp) s1 l1;
  r_2 : ring (nxt hp) (prv hp) s2 l2;
  r_nd1 : NoDup (s1 :: l1);
  r_nd2 : NoDup (s2 :: l2);
  r_dis x : x ∈ s1 :: l1 → x ∉ s2 :: l2;
}.

(** The heap of a shard: [cd] says which entries are cached. *)
Record heap_g hp (C : LRUCache) (cp : Z) (lv : gmap Z entry) (lr us : list Z) (cd : Z → entry → bool) : Prop := {
  g_cap : capacity_ C = cp;
  g_heads : lv !! lru_ C = None ∧ lv !! in_use_ C = None;
  g_rings : two_rings hp (lru_ C) lr (in_use_ C) us;
  g_us h : h ∈ us ↔ ∃ e, lv !! h = Some e ∧ cd h e = true ∧ 0 < e_refs e;
  g_live h e : lv !! h = Some e → h ≠ 0 ∧ nextok hp h ∧ entry_at hp h e (cd h e);
}.

Definition heap_at hp (C : LRUCache) (a : lcache) (us : list Z) : Prop :=
  heap_g hp C (cap a) (live a) (lru a) us (cached a).

Record inv hp (C : LRUCache) (a : lcache) (us : list Z) : Prop := {
  i_heap : heap_at hp C a us;
  i_wf : wf a;
  i_table : table_at hp (table_ C) (tbl a);
  i_usage : usage_ C = usage a;
  i_bound : usage a < 2 ^ 64;
}.

(** What a shard owns of the heap. *)
Definition own (C : LRUCache) (a : lcache) (x : Z) : Prop := x = lru_ C ∨ x = in_use_ C ∨ is_Some (live a !! x).

Section fields.
Context {hp : gmap Z LRUHandle} {C : LRUCache} {a : lcache} {us : list Z}.

Lemma a_heads : heap_at hp C a us → live a !! lru_ C = None ∧ live a !! in_use_ C = None.
Proof. apply g_heads. Qed.
Lemma a_rings : heap_at hp C a us → two_rings hp (lru_ C) (lru a) (in_use_ C) us.
Proof. apply g_rings. Qed.
Lemma a_us : heap_at hp C a us → ∀ h, h ∈ us ↔ ∃ e, live a !! h = Some e ∧ tbl a !! e_key e = Some h ∧ 0 < e_refs e.
Proof. intros Hh h. rewrite (g_us _ _ _ _ _ _ _ Hh). unfold cached. by setoid_rewrite bool_decide_eq_true. Qed.
Lemma a_live : heap_at hp C a us → ∀ h e, live a !! h = Some e → h ≠ 0 ∧ nextok hp h ∧ entry_at hp h e (cached a h e).
Proof. apply g_live. Qed.
End fields.

Lemma two_rings_swap hp s1 l1 s2 l2 : two_rings hp s1 l1 s2 l2 → two_rings hp s2 l2 s1 l1.
Proof. intros []. split; try done. intros x H1 H2. by eapply r_dis0. Qed.

Lemma two_rings_frame hp hp' s1 l1 s2 l2 : two_rings hp s1 l1 s2 l2 →
  (∀ x, x ∈ s1 :: l1 ++ s2 :: l2 → nxt hp' x = nxt hp x ∧ prv hp' x = prv hp x) → two_rings hp' s1 l1 s2 l2.
Proof.
  intros [H1 H2 ? ? ?] Hf. split; try done; (eapply circ_frame; [done|]); intros b Hb; apply Hf; set_solver.
Qed.

Lemma entry_at_frame hp hp' h e c : ent <$> hp' !! h = ent <$> hp !! h → entry_at hp h e c → entry_at hp' h e c.
Proof. intros E (t & H & Ht). exists t. by rewrite E. Qed.

Lemma ent_bod hp hp' x : bod hp' x = bod hp x → ent <$> hp' !! x = ent <$> hp !! x.
Proof. by apply (fmap_through body). Qed.
Lemma ent_unc hp hp' x : unc hp' x = unc hp x → ent <$> hp' !! x = ent <$> hp !! x.
Proof. by apply (fmap_through unchained). Qed.
Lemma nxt_unc hp hp' x : unc hp' x = unc hp x → nxt hp' x = nxt hp x.
Proof. by apply (fmap_through unchained). Qed.
Lemma prv_unc hp hp' x : unc hp' x = unc hp x → prv hp' x = prv hp x.
Proof. by apply (fmap_through unchained). Qed.
Lemma tl_bod hp hp' x : bod hp' x = bod hp x → tl hp' x = tl hp x.
Proof. by apply (fmap_through body). Qed.
Lemma next_of_bod hp hp' x : bod hp' x = bod hp x → next_of hp' x = next_of hp x.
Proof. by apply (fmap_through body). Qed.

Lemma heap_g_ext hp C cp lv lr us cd cd' : heap_g hp C cp lv lr us cd → (∀ h e, lv !! h = Some e → cd' h e = cd h e) →
  heap_g hp C cp lv lr us cd'.
Proof.
  intros [Hc Hh Hr Hu Hl] He. split; try done.
  - intros h. rewrite Hu. split; intros (e & H1 & H2 & H3); exists e; (split_and!; [done| |done]); [by rewrite He|by rewrite <-He].
  - intros h e Hhe. rewrite He by done. by apply Hl.
Qed.

Lemma heap_g_unc hp hp' C T cp lv lr us cd : heap_g hp C cp lv lr us cd → (∀ x, unc hp' x = unc hp x) →
  heap_g hp' (set_table C T) cp lv lr us cd.
Proof.
  intros [Hc Hh Hr Hu Hl] Hunc. split; try done.
  - eapply two_rings_frame; [exact Hr|]. intros x _. split; [by apply nxt_unc|by apply prv_unc].
  - intros h e He. destruct (Hl h e He) as (? & Hn & Hent). split_and!; [done| |].
    + unfold nextok. by rewrite (nxt_unc hp).
    + eapply entry_at_frame; [|exact Hent]. by apply ent_unc.
Qed.

Lemma heap_nextok hp C a us : heap_at hp C a us → wf a → all_nextok hp (tbl a).
Proof. intros Hh Hw h [k Hk]. destruct (w_tbl _ Hw _ _ Hk) as (e & He & _). by apply (a_live Hh h e). Qed.

(** Two changes of a handle that do the same to it. *)
Lemma alter_as (f f' : LRUHandle → LRUHandle) h hp n : hp !! h = Some n → f n = f' n → alter f h hp = alter f' h hp.
Proof.
  intros Hh Hf. apply map_eq. intros x. destruct (decide (x = h)) as [->|].
  - rewrite !lookup_alter_eq, Hh. simpl. by rewrite Hf.
  - by rewrite !alter_other.
Qed.

(** Changing the entry of one handle, in a heap whose other entries are as before. *)
Lemma heap_g_intro hp hp' C cp lv lv' lr lr' us us' cd cd' h : heap_g hp C cp lv lr us cd →
  lv' !! lru_ C = None → lv' !! in_use_ C = None → two_rings hp' (lru_ C) lr' (in_use_ C) us' →
  (∀ x, x ∈ us' ↔ ∃ e, lv' !! x = Some e ∧ cd' x e = true ∧ 0 < e_refs e) →
  (∀ x e, x ≠ h → lv' !! x = Some e → lv !! x = Some e ∧ cd' x e = cd x e) →
  (∀ x, x ≠ h → is_Some (lv !! x) → ent <$> hp' !! x = ent <$> hp !! x ∧ (nextok hp x → nextok hp' x)) →
  (∀ e, lv' !! h = Some e → h ≠ 0 ∧ nextok hp' h ∧ entry_at hp' h e (cd' h e)) →
  heap_g hp' C cp lv' lr' us' cd'.
Proof.
  intros [Hc Hh Hr Hu Hl] H1 H2 Hr' Hus Ho Hf Hhe. split; try done.
  intros x e He. destruct (decide (x = h)) as [->|Hx]; [by apply Hhe|]. destruct (Ho x e Hx He) as [He' ->].
  destruct (Hl x e He') as (? & ? & ?). destruct (Hf x Hx ltac:(eauto)) as [? Hn]. split_and!; [done|by apply Hn|].
  by eapply entry_at_frame.
Qed.

Lemma heap_at_intro hp hp' C a a' us us' h : heap_at hp C a us → cap a' = cap a →
  live a' !! lru_ C = None → live a' !! in_use_ C = None → two_rings hp' (lru_ C) (lru a') (in_use_ C) us' →
  (∀ x, x ∈ us' ↔ ∃ e, live a' !! x = Some e ∧ tbl a' !! e_key e = Some x ∧ 0 < e_refs e) →
  (∀ x e, x ≠ h → live a' !! x = Some e → live a !! x = Some e ∧ cached a' x e = cached a x e) →
  (∀ x, x ≠ h → is_Some (live a !! x) → ent <$> hp' !! x = ent <$> hp !! x ∧ (nextok hp x → nextok hp' x)) →
  (∀ e, live a' !! h = Some e → h ≠ 0 ∧ nextok hp' h ∧ entry_at hp' h e (cached a' h e)) →
  heap_at hp' C a' us'.
Proof.
  intros Hh Hcap H1 H2 Hr' Hus Ho Hf Hhe. unfold heap_at. rewrite Hcap.
  eapply (heap_g_intro hp hp' C _ _ _ _ _ us us' _ _ h); try done.
  intros x. rewrite Hus. unfold cached. by setoid_rewrite bool_decide_eq_true.
Qed.

Lemma entry_handle hp h e c : entry_at hp h e c →
  ∃ n, hp !! h = Some n ∧ deleter n = e_deleter e ∧ in_cache n = c ∧ refs n = e_refs e + Z.b2z c ∧
    charge n = e_charge e ∧ tail_of (tail n) (e_key e) (e_value e).
Proof. intros (t & H & Ht). destruct (hp !! h) as [n|]; [|done]. exists n. unfold ent in H. simpl in H. simplify_eq. done. Qed.

Abbreviation heap_a hp C a us cd := (heap_g hp C (cap a) (live a) (lru a) us cd).

Lemma members_owned hp C a us cd x : heap_a hp C a us cd → wf a → x ∈ lru_ C :: lru a ++ in_use_ C :: us → own C a x.
Proof.
  intros Hh Hw. rewrite elem_of_cons, elem_of_app, elem_of_cons, (w_lru _ Hw), (g_us _ _ _ _ _ _ _ Hh). unfold own.
  naive_solver.
Qed.

Section shard.
Context (s0 : st) (i : nat) (Hi : (i < length (shard_ s0))%nat).
Abbreviation cfg := (cfg s0 i).

(** A handle moves from one list to the end of the other. *)
Lemma move_run hp C g s1 l1 s2 l2 h : two_rings hp s1 l1 s2 l2 → h ∈ l1 →
  ∃ hp', (LRU_Remove h;; LRU_Append s2 h) (cfg hp C g) = Ok (tt, cfg hp' C g) ∧
    two_rings hp' s1 (without h l1) s2 (l2 ++ [h]) ∧
    (∀ x, x ∉ s1 :: l1 ++ s2 :: l2 → hp' !! x = hp !! x) ∧ (∀ x, bod hp' x = bod hp x) ∧
    (∀ x, x ≠ s1 → x ≠ s2 → nextok hp x → nextok hp' x).
Proof.
  clear Hi. intros [H1 H2 N1 N2 Hd] Hh.
  destruct (LRU_Remove_run s0 i hp C g s1 l1 h H1 N1 Hh) as (hp1 & Hrun1 & Hr1 & Ho1 & He1 & Hb1 & Hn1).
  assert (h ∉ s2 :: l2) as Hh2 by (apply Hd; set_solver).
  assert (ring (nxt hp1) (prv hp1) s2 l2) as H2'.
  { eapply circ_frame; [exact H2|]. intros b Hb. unfold nxt, prv. rewrite Ho1; [done|]. intros ?. by eapply Hd. }
  assert (is_Some (hp1 !! h)) as Hs.
  { rewrite He1. destruct (dseg_nodes _ _ _ _ _ h H1 Hh) as [[? ?] _]. by eapply nxt_some. }
  destruct (LRU_Append_run s0 i hp1 C g s2 l2 h H2' N2 Hh2 Hs) as (hp2 & Hrun2 & Hr2 & Ho2 & Hb2 & Hn2 & Hn2').
  assert (∀ x, x ∈ s1 :: without h l1 → x ∈ s1 :: l1 ∧ x ≠ h) as Hx.
  { intros x. rewrite !elem_of_cons, elem_of_without. intros [->|[? ?]]; [|naive_solver]. split; [by left|].
    intros ->. apply NoDup_cons in N1 as [? _]. done. }
  exists hp2. split_and!.
  - by mstep Hrun1.
  - split.
    + eapply circ_frame; [exact Hr1|]. intros b [Hb Hbh]%Hx. unfold nxt, prv. rewrite Ho2; [done|].
      intros [->|[->|?]%elem_of_cons]%elem_of_cons; [|done|]; (eapply Hd; [exact Hb|set_solver]).
    + done.
    + apply NoDup_cons in N1 as [Hn N1]. apply NoDup_cons. split; [rewrite elem_of_without; naive_solver|by apply NoDup_without].
    + change (s2 :: l2 ++ [h]) with ((s2 :: l2) ++ [h]). apply NoDup_app. split_and!; [done| |apply NoDup_singleton].
      intros x ? ->%list_elem_of_singleton. done.
    + intros x [Hx1 Hxh]%Hx. rewrite elem_of_cons, elem_of_app, list_elem_of_singleton. pose proof (Hd x Hx1). set_solver.
  - intros x Hx'. rewrite Ho2, Ho1; [done|set_solver|]. intros Hin. apply Hx'. set_solver.
  - intros x. by rewrite Hb2.
  - intros x Hx1 Hx2 Hx'. destruct (decide (x = h)) as [->|]; [done|]. apply Hn2; [done|done|]. by apply Hn1.
Qed.

(** ** Counting references *)

Lemma Unref_dec hp C g h n : hp !! h = Some n → 1 < refs n < 2 ^ 32 → in_cache n && (refs n =? 2) = false →
  Unref i h (cfg hp C g) = Ok (tt, cfg (alter (with_refs (refs n - 1)) h hp) C g).
Proof using Hi.
  intros Hh Hr Hb. unfold Unref. mstep (shard_run s0 i Hi hp C g). mstep (handle_run s0 i hp C g h n Hh).
  rewrite (proj2 (Z.ltb_lt _ _)) by lia. rewrite (bind_lift _ _ _ tt eq_refl).
  mstep (upd_run s0 i hp C g h (λ n, with_refs (u32 (refs n - 1)) n) ltac:(eauto)).
  rewrite (alter_as _ (with_refs (refs n - 1)) h hp n) by (done || (simpl; by rewrite wrapu_small by lia)).
  assert (alter (with_refs (refs n - 1)) h hp !! h = Some (with_refs (refs n - 1) n)) as Hh' by (by rewrite lookup_alter_eq, Hh).
  mstep (handle_run s0 i _ C g h _ Hh'). cbn [refs with_refs in_cache]. zneq (refs n - 1) 0.
  destruct (Z.eqb_spec (refs n - 1) 1); [|by rewrite andb_false_r].
  rewrite (proj2 (Z.eqb_eq (refs n) 2)) in Hb by lia. rewrite andb_true_r in *. by rewrite Hb.
Qed.

Lemma Unref_free hp C g h n k v : hp !! h = Some n → refs n = 1 → in_cache n = false → nextok hp h → tail_of (tail n) k v →
  Unref i h (cfg hp C g) = Ok (tt, cfg (delete h hp) C (g ++ [mkCall (deleter n) k v])).
Proof using Hi.
  intros Hh Hr Hc Hn (Hl & Htk & Hkl & _ & Hv). unfold Unref. mstep (shard_run s0 i Hi hp C g). mstep (handle_run s0 i hp C g h n Hh).
  rewrite Hr. rewrite (bind_lift _ _ _ tt eq_refl).
  mstep (upd_run s0 i hp C g h (λ n, with_refs (u32 (refs n - 1)) n) ltac:(eauto)).
  rewrite (alter_as _ (with_refs 0) h hp n) by (done || (simpl; by rewrite Hr)). set (hp1 := alter (with_refs 0) h hp).
  assert (hp1 !! h = Some (with_refs 0 n)) as Hh' by (unfold hp1; by rewrite lookup_alter_eq, Hh).
  mstep (handle_run s0 i hp1 C g h _ Hh'). simpl. rewrite Hc. rewrite (bind_lift _ _ _ tt eq_refl).
  assert (key_of h (cfg hp1 C g) = Ok (mkSlice (tail n) (Z.of_nat (length k)), cfg hp1 C g)) as Hk.
  { unfold key_of. mstep (handle_run s0 i hp1 C g h _ Hh'). unfold key. simpl. unfold nextok, nxt in Hn. rewrite Hh in Hn. simpl in Hn.
    rewrite (proj2 (Z.eqb_neq _ _)) by congruence. by rewrite <-Hkl. }
  mstep Hk. unfold modify at 1 2. unfold mbind, M_bind. do 2 f_equal. unfold set_heap, LruFacts.cfg. simpl.
  rewrite Nat2Z.id, Htk. unfold value. simpl. rewrite Hv. rewrite app_assoc. f_equal.
  apply map_eq. intros x. destruct (decide (x = h)) as [->|]; [by rewrite !lookup_delete_eq|].
  rewrite !lookup_delete_ne by done. by apply alter_other.
Qed.

(** The last reference of a client goes and the handle is cached: it can be evicted now. *)
Lemma Unref_park hp C g h n l us : hp !! h = Some n → refs n = 2 → in_cache n = true →
  two_rings hp (lru_ C) l (in_use_ C) us → h ∈ us → h ≠ lru_ C →
  ∃ hp', Unref i h (cfg hp C g) = Ok (tt, cfg hp' C g) ∧ two_rings hp' (lru_ C) (l ++ [h]) (in_use_ C) (without h us) ∧
    (∀ x, x ∉ lru_ C :: l ++ in_use_ C :: us → hp' !! x = hp !! x) ∧
    (∀ x, bod hp' x = bod (alter (with_refs 1) h hp) x) ∧
    (∀ x, x ≠ lru_ C → x ≠ in_use_ C → nextok hp x → nextok hp' x).
Proof using Hi.
  intros Hh Hr Hc Hrings Hus Hne. set (hp1 := alter (with_refs 1) h hp).
  assert (hp1 !! h = Some (with_refs 1 n)) as Hh' by (unfold hp1; by rewrite lookup_alter_eq, Hh).
  assert (two_rings hp1 (in_use_ C) us (lru_ C) l) as Hr1.
  { apply two_rings_swap. eapply two_rings_frame; [exact Hrings|]. intros x _. unfold nxt, prv, hp1. by rewrite !fmap_alter_same. }
  destruct (move_run hp1 C g _ _ _ _ h Hr1 Hus) as (hp2 & Hrun & Hr2 & Ho & Hb & Hn).
  exists hp2. split_and!.
  - unfold Unref. mstep (shard_run s0 i Hi hp C g). mstep (handle_run s0 i hp C g h n Hh).
    rewrite Hr. rewrite (bind_lift _ _ _ tt eq_refl).
    mstep (upd_run s0 i hp C g h (λ n, with_refs (u32 (refs n - 1)) n) ltac:(eauto)).
    rewrite (alter_as _ (with_refs 1) h hp n) by (done || (simpl; by rewrite Hr)). fold hp1.
    mstep (handle_run s0 i hp1 C g h _ Hh'). simpl. rewrite Hc. simpl. exact Hrun.
  - by apply two_rings_swap.
  - intros x Hx. rewrite Ho by set_solver. unfold hp1. apply alter_other. intros ->. set_solver.
  - done.
  - intros x Hx1 Hx2 Hx. apply Hn; [done|done|]. unfold nextok, nxt, hp1. by rewrite fmap_alter_same.
Qed.

(** ** [Lookup] *)

(** A table does not see the counts and the links of the lists. *)
Lemma table_refs hp hp1 hp2 T m h n : table_at hp T m → (∀ x, bod hp2 x = bod hp1 x) → hp1 = alter (with_refs n) h hp →
  table_at hp2 T m.
Proof.
  clear Hi. intros Ht Hb ->. eapply table_frame; [exact Ht|]. intros x _.
  rewrite (next_of_bod _ _ _ (Hb x)), (tl_bod _ _ _ (Hb x)). unfold next_of, tl. by rewrite !fmap_alter_same.
Qed.

Lemma ent_refs hp h r n : hp !! h = Some n →
  ent <$> alter (with_refs r) h hp !! h = Some (deleter n, in_cache n, r, charge n, tail n).
Proof. intros Hh. by rewrite lookup_alter_eq, Hh. Qed.

Lemma Ref_run hp C g a us k h e : inv hp C a us → tbl a !! k = Some h → live a !! h = Some e → e_refs e < 2 ^ 32 - 2 →
  ∃ hp' us', Ref i h (cfg hp C g) = Ok (tt, cfg hp' C g) ∧ inv hp' C (take_ref h a) us' ∧
    (∀ x, ¬ own C a x → hp' !! x = hp !! x).
Proof using Hi.
  intros [Hh Hw Ht Hu Hub] Hk He Hlt. pose proof (take_ref_wf a h k e Hw Hk He Hlt) as Hw'.
  pose proof (w_refs _ Hw _ _ He) as Hrf. destruct (w_tbl _ Hw _ _ Hk) as (e0 & He0 & Hek). simplify_eq.
  destruct (a_live Hh _ _ He) as (Hh0 & Hnx & Hen). unfold cached in Hen. rewrite bool_decide_true in Hen by done.
  destruct (entry_handle _ _ _ _ Hen) as (n & Hn & Hnd & Hnc & Hnr & Hnch & Hnt). simpl in Hnr.
  destruct (a_heads Hh) as [Hhl Hhu].
  assert (h ≠ lru_ C ∧ h ≠ in_use_ C) as [Hhl' Hhu'] by (split; intros E; rewrite E in He; congruence).
  set (us' := if decide (e_refs e = 0) then us ++ [h] else us).
  assert (∃ hp1, (if (refs n =? 1) && in_cache n then LRU_Remove h;; LRU_Append (in_use_ C) h else mret tt) (cfg hp C g) =
      Ok (tt, cfg hp1 C g) ∧ two_rings hp1 (lru_ C) (without h (lru a)) (in_use_ C) us' ∧
      (∀ x, x ∉ lru_ C :: lru a ++ in_use_ C :: us → hp1 !! x = hp !! x) ∧ (∀ x, bod hp1 x = bod hp x) ∧
      (∀ x, x ≠ lru_ C → x ≠ in_use_ C → nextok hp x → nextok hp1 x)) as (hp1 & Hrun & Hr1 & Ho1 & Hb1 & Hn1).
  { rewrite Hnc, andb_true_r. unfold us'. destruct (decide (e_refs e = 0)) as [E|E].
    - rewrite (proj2 (Z.eqb_eq _ _)) by lia. destruct (move_run hp C g _ _ _ _ h (a_rings Hh)) as (hp1 & ?); [|by exists hp1].
      apply (w_lru _ Hw). eauto.
    - rewrite (proj2 (Z.eqb_neq _ _)) by lia. exists hp. split_and!; try done. rewrite without_id; [apply Hh|].
      rewrite (w_lru _ Hw). naive_solver. }
  assert (is_Some (hp1 !! h)) as Hs1 by (eapply bod_some; eauto).
  set (f := with_refs (e_refs e + 2)). set (hp2 := alter f h hp1).
  assert (hp1 !! h ≫= (λ n1, Some (refs n1)) = Some (e_refs e + 1)) as Hr1n.
  { pose proof (ent_bod _ _ _ (Hb1 h)) as E. rewrite Hn in E. destruct (hp1 !! h); [|done]. unfold ent in E. simpl in *. simplify_eq. f_equal. lia. }
  exists hp2, us'. split_and!.
  - unfold Ref. mstep (shard_run s0 i Hi hp C g). mstep (handle_run s0 i hp C g h n Hn). mstep Hrun.
    rewrite (upd_run s0 i hp1 C g h _ Hs1). destruct Hs1 as [n1 Hn1']. do 3 f_equal. rewrite Hn1' in Hr1n. simpl in Hr1n. simplify_eq.
    eapply alter_as; [exact Hn1'|]. unfold f. rewrite Hr1n. rewrite wrapu_small by lia. f_equal. lia.
  - assert (∀ x, ent <$> hp2 !! x = ent <$> alter f h hp !! x) as Hent2.
    { intros x. unfold hp2. rewrite !fmap_alter. case_decide; [|by apply ent_bod]. subst.
      pose proof (ent_bod _ _ _ (Hb1 h)) as E. rewrite Hn in E |- *. destruct (hp1 !! h); [|done].
      injection E as ? ? ? ? ?. unfold ent, f. simpl. congruence. }
    assert (∀ x, nxt hp2 x = nxt hp1 x ∧ prv hp2 x = prv hp1 x) as Hnp.
    { intros x. unfold nxt, prv, hp2. by rewrite !fmap_alter_same. }
    assert (cap (take_ref h a) = cap a ∧ tbl (take_ref h a) = tbl a ∧ lru (take_ref h a) = without h (lru a) ∧
      live (take_ref h a) = <[h := with_erefs (e_refs e + 1) e]> (live a)) as (Ecap & Etbl & Elru & Elive) by (unfold take_ref; by rewrite He).
    split; [|done| |by rewrite take_ref_usage|by rewrite take_ref_usage].
    + eapply (heap_at_intro hp hp2 C a (take_ref h a) us us' h); try done; rewrite ?Elive, ?Etbl, ?Elru.
      * by rewrite lookup_insert_ne.
      * by rewrite lookup_insert_ne.
      * eapply two_rings_frame; [exact Hr1|]. intros; apply Hnp.
      * intros x. setoid_rewrite lookup_insert_Some. unfold us'. destruct (decide (x = h)) as [->|Hxh].
        -- split; [intros _|intros _; destruct (decide (e_refs e = 0)); [set_solver|apply (a_us Hh); exists e; split_and!; [done|done|lia]]].
           exists (with_erefs (e_refs e + 1) e). split_and!; [by left|done|simpl; lia].
        -- transitivity (x ∈ us); [destruct (decide (e_refs e = 0)); set_solver|]. rewrite (a_us Hh).
           split; intros (e' & ? & ? & ?); exists e'; naive_solver.
      * intros x e' Hxh. rewrite lookup_insert_ne by done. intros. split; [done|]. unfold cached. by rewrite Etbl.
      * intros x Hxh [e' He']. split; [rewrite Hent2; unfold f; by rewrite fmap_alter, decide_False|].
        intros Hx. unfold nextok. rewrite (proj1 (Hnp x)). apply Hn1; [intros ->; congruence|intros ->; congruence|done].
      * intros e'. rewrite lookup_insert_eq. intros [= <-]. split_and!; [done|unfold nextok; rewrite (proj1 (Hnp h)); by apply Hn1|].
        unfold cached. rewrite Etbl. rewrite bool_decide_true by done. exists (tail n). split; [|done]. rewrite Hent2. unfold f.
        rewrite (ent_refs _ _ _ _ Hn). rewrite Hnd, Hnc, Hnch. simpl. do 4 f_equal. lia.
    + rewrite Etbl. eapply table_frame; [exact Ht|]. intros x _. pose proof (Hb1 x) as Hbx. unfold next_of, tl, hp2, f.
      rewrite !fmap_alter_same by done. split; [by apply next_of_bod|by apply tl_bod].
  - intros x Hx. unfold hp2, f. rewrite alter_other by (intros ->; apply Hx; right; right; eauto). apply Ho1.
    intros Hin. apply Hx. by eapply members_owned.
Qed.

Lemma Lookup_ok hp C g a us k : inv hp C a us →
  (∀ h e, tbl a !! k = Some h → live a !! h = Some e → e_refs e < 2 ^ 32 - 2) →
  ∃ hp' us', Lookup i k (HashSlice k) (cfg hp C g) = Ok (default 0 (tbl a !! k), cfg hp' C g) ∧
    inv hp' C (take_ref (default 0 (tbl a !! k)) a) us' ∧ (∀ x, ¬ own C a x → hp' !! x = hp !! x).
Proof using Hi.
  intros Hinv Hlt. pose proof Hinv as [Hh Hw Ht Hu Hub]. unfold Lookup.
  mstep (Lookup_run s0 i Hi hp C g _ _ k Ht (heap_nextok _ _ _ _ Hh Hw) (holds_slice k)).
  destruct (tbl a !! k) as [h|] eqn:Ek; simpl.
  - destruct (w_tbl _ Hw _ _ Ek) as (e & He & _). destruct (a_live Hh _ _ He) as (Hh0 & _). zneq h 0.
    destruct (Ref_run hp C g a us k h e Hinv Ek He (Hlt h e eq_refl He)) as (hp' & us' & Hrun & ? & ?).
    exists hp', us'. split_and!; [|done|done]. by mstep Hrun.
  - exists hp, us. assert (live a !! 0 = None) as H0.
    { destruct (live a !! 0) as [e|] eqn:E; [|done]. by destruct (a_live Hh _ _ E). }
    unfold take_ref. rewrite H0. done.
Qed.

(** ** [Release] *)

(** A heap with one count changed and, maybe, links of the lists. *)
Lemma recount_at hp hp' C a us us' h e n r l : heap_at hp C a us → live a !! h = Some e → hp !! h = Some n →
  0 < e_refs e → 0 ≤ r → (∀ x, bod hp' x = bod (alter (with_refs (r + Z.b2z (cached a h e))) h hp) x) →
  (∀ x, x ≠ lru_ C → x ≠ in_use_ C → nextok hp x → nextok hp' x) →
  two_rings hp' (lru_ C) l (in_use_ C) us' →
  (∀ x, x ∈ us' ↔ x ∈ us ∧ (x = h → 0 < r)) →
  heap_at hp' C (mkL (cap a) (<[h := with_erefs r e]> (live a)) (tbl a) l) us'.
Proof.
  clear Hi. intros Hh He Hn Hr0 Hr Hb Hnx Hrings Hus. destruct (a_heads Hh) as [Hhl Hhu].
  destruct (a_live Hh _ _ He) as (Hh0 & Hhn & Hen).
  assert (h ≠ lru_ C ∧ h ≠ in_use_ C) as [Hhl' Hhu'] by (split; intros E; rewrite E in He; congruence).
  eapply (heap_at_intro hp hp' C a _ us us' h); cbn [cap live tbl lru]; try done.
  - by rewrite lookup_insert_ne.
  - by rewrite lookup_insert_ne.
  - intros x. rewrite Hus, (a_us Hh). setoid_rewrite lookup_insert_Some. destruct (decide (x = h)) as [->|Hxh].
    + split.
      * intros [(e' & ? & ? & ?) Hpos]. simplify_eq. exists (with_erefs r e). split_and!; [by left|done|]. by apply Hpos.
      * intros (e' & [[_ <-]|[? _]] & Hk & Hpos); [|done]. split; [|done]. exists e. split_and!; done.
    + naive_solver.
  - intros x e' Hxh. by rewrite lookup_insert_ne.
  - intros x Hxh [e' He']. split.
    + rewrite (ent_bod _ _ _ (Hb x)). by rewrite fmap_alter, decide_False.
    + apply Hnx; intros ->; congruence.
  - intros e'. rewrite lookup_insert_eq. intros [= <-]. split_and!; [done|by apply Hnx|].
    change (cached _ h (with_erefs r e)) with (cached a h e). destruct Hen as (t & Ht & Htl). exists t. split; [|done].
    rewrite Hn in Ht. unfold ent in Ht. simpl in Ht. injection Ht as E1 E2 E3 E4 E5.
    rewrite (ent_bod _ _ _ (Hb h)), (ent_refs _ _ _ _ Hn). simpl. congruence.
Qed.

(** An entry that is not cached goes away. *)
Lemma free_at hp C a us h e : heap_at hp C a us → live a !! h = Some e → cached a h e = false →
  h ∉ lru a → heap_at (delete h hp) C (mkL (cap a) (delete h (live a)) (tbl a) (lru a)) us.
Proof.
  clear Hi. intros Hh He Hc Hl. destruct (a_heads Hh) as [Hhl Hhu]. apply bool_decide_eq_false in Hc.
  assert (h ∉ lru_ C :: lru a ++ in_use_ C :: us) as Hno.
  { rewrite elem_of_cons, elem_of_app, elem_of_cons, (a_us Hh). intros [->|[?|[->|(e' & ? & ? & _)]]]; congruence. }
  eapply (heap_at_intro hp _ C a _ us us h); cbn [cap live tbl lru]; try done.
  - by apply lookup_delete_None; right.
  - by apply lookup_delete_None; right.
  - eapply two_rings_frame; [apply Hh|]. intros x Hx. unfold nxt, prv. rewrite lookup_delete_ne; [done|]. by intros ->.
  - intros x. rewrite (a_us Hh). setoid_rewrite lookup_delete_Some. split; [|naive_solver].
    intros (e' & ? & ? & ?). exists e'. split_and!; try done. intros ->. simplify_eq.
  - intros x e' Hx [_ ?]%lookup_delete_Some. done.
  - intros x Hx _. unfold nextok, nxt. by rewrite lookup_delete_ne.
  - intros e'. by rewrite lookup_delete_eq.
Qed.

Lemma Release_ok hp C g a us h e : inv hp C a us → live a !! h = Some e → 0 < e_refs e →
  ∃ hp' us', Release i h (cfg hp C g) = Ok (tt, cfg hp' C (g ++ (drop_ref h a).2)) ∧ inv hp' C (drop_ref h a).1 us' ∧
    (∀ x, ¬ own C a x → hp' !! x = hp !! x).
Proof using Hi.
  intros [Hh Hw Ht Hu Hub] He Hpos. pose proof (drop_ref_wf a h e Hw He Hpos) as Hw'. pose proof (drop_ref_usage a h Hw) as Hu'.
  pose proof (w_refs _ Hw _ _ He) as Hrf. destruct (a_live Hh _ _ He) as (Hh0 & Hnx & Hen).
  destruct (entry_handle _ _ _ _ Hen) as (n & Hn & Hnd & Hnc & Hnr & Hnch & Hnt).
  assert (h ∉ lru a) as Hnl by (rewrite (w_lru _ Hw); intros (e' & ? & ?); simplify_eq; lia).
  assert (own C a h) as Hown by (right; right; eauto). unfold Release.
  assert (h ≠ lru_ C ∧ h ≠ in_use_ C) as [Hhl Hhu].
  { destruct (a_heads Hh). split; intros E; rewrite E in He; congruence. }
  assert (drop_ref h a = if e_refs e =? 1 then if cached a h e
      then (mkL (cap a) (<[h := with_erefs 0 e]> (live a)) (tbl a) (lru a ++ [h]), [])
      else (mkL (cap a) (delete h (live a)) (tbl a) (lru a), [call_of e])
    else (mkL (cap a) (<[h := with_erefs (e_refs e - 1) e]> (live a)) (tbl a) (lru a), [])) as Hdr
    by (unfold drop_ref; by rewrite He).
  rewrite Hdr in *. clear Hdr. destruct (Z.eqb_spec (e_refs e) 1) as [E1|E1]; [destruct (cached a h e) eqn:Ec|]; cbn [fst snd] in *.
  - assert (h ∈ us) as Hus. { apply (a_us Hh). exists e. apply bool_decide_eq_true in Ec. done. }
    destruct (Unref_park hp C g h n (lru a) us Hn) as (hp' & Hrun & Hr' & Ho & Hb & Hnx'); [simpl in Hnr; lia|done|apply Hh|done|done|].
    exists hp', (without h us). rewrite app_nil_r. split_and!; [done| |].
    + split; [|done| |by rewrite Hu'|by rewrite Hu'].
      * eapply (recount_at hp hp' C a us _ h e n 0); try done; [by rewrite Ec|].
        intros x. rewrite elem_of_without. naive_solver lia.
      * eapply (table_refs hp _ hp' _ _ h 1); [exact Ht|exact Hb|done].
    + intros x Hx. apply Ho. intros Hin. apply Hx. by eapply members_owned.
  - simpl in Hnr. exists (delete h hp), us. split_and!.
    + rewrite (Unref_free hp C g h n (e_key e) (e_value e) Hn) by (done || lia). by rewrite Hnd.
    + split; [|done| |by rewrite Hu'|by rewrite Hu'].
      * by eapply free_at.
      * eapply table_frame; [exact Ht|]. intros x [k Hk]. unfold next_of, tl. rewrite lookup_delete_ne; [done|]. intros ->.
        destruct (w_tbl _ Hw _ _ Hk) as (e' & ? & <-). simplify_eq. unfold cached in Ec. by rewrite bool_decide_true in Ec.
    + intros x Hx. rewrite lookup_delete_ne; [done|]. by intros ->.
  - set (r := e_refs e - 1 + Z.b2z (cached a h e)). assert (refs n - 1 = r) as Hrn by (unfold r; lia).
    exists (alter (with_refs r) h hp), us. rewrite app_nil_r. split_and!.
    + rewrite <-Hrn. apply Unref_dec; [done|destruct (cached a h e); simpl in *; lia|]. rewrite Hnc. destruct (cached a h e); [|done].
      simpl in *. apply Z.eqb_neq. lia.
    + split; [|done| |by rewrite Hu'|by rewrite Hu'].
      * eapply (recount_at hp _ C a us us h e n (e_refs e - 1)); try done; [lia| | |].
        -- intros x _ _. unfold nextok, nxt. by rewrite fmap_alter_same.
        -- eapply two_rings_frame; [apply Hh|]. intros x _. unfold nxt, prv. by rewrite !fmap_alter_same.
        -- intros x. naive_solver lia.
      * by eapply (table_refs hp _ _ _ _ h r).
    + intros x Hx. apply alter_other. by intros ->.
Qed.

(** ** Leaving the cache *)

Lemma ring_unlink_run hp C g s1 l1 s2 l2 h : two_rings hp s1 l1 s2 l2 → h ∈ l1 →
  ∃ hp', LRU_Remove h (cfg hp C g) = Ok (tt, cfg hp' C g) ∧ two_rings hp' s1 (without h l1) s2 l2 ∧
    (∀ x, x ∉ s1 :: l1 → hp' !! x = hp !! x) ∧ (∀ x, bod hp' x = bod hp x) ∧
    (∀ x, x ≠ s1 → nextok hp x → nextok hp' x).
Proof.
  clear Hi. intros [H1 H2 N1 N2 Hd] Hh.
  destruct (LRU_Remove_run s0 i hp C g s1 l1 h H1 N1 Hh) as (hp1 & Hrun1 & Hr1 & Ho1 & He1 & Hb1 & Hn1).
  exists hp1. split_and!; try done. split; try done.
  - eapply circ_frame; [exact H2|]. intros b Hb. unfold nxt, prv. rewrite Ho1; [done|]. intros ?. by eapply Hd.
  - apply NoDup_cons in N1 as [Hn N1]. apply NoDup_cons. split; [rewrite elem_of_without; naive_solver|by apply NoDup_without].
  - intros x Hx. apply Hd. apply elem_of_cons in Hx as [->|[? _]%elem_of_without]; set_solver.
Qed.

(** A cached handle taken out of whichever list it is in. *)
Lemma uncache_run hp C g a us cd h e : heap_a hp C a us cd → wf a → live a !! h = Some e → cd h e = true →
  ∃ hp', LRU_Remove h (cfg hp C g) = Ok (tt, cfg hp' C g) ∧
    two_rings hp' (lru_ C) (without h (lru a)) (in_use_ C) (without h us) ∧
    (∀ x, ¬ own C a x → hp' !! x = hp !! x) ∧ (∀ x, bod hp' x = bod hp x) ∧
    (∀ x, x ≠ lru_ C → x ≠ in_use_ C → nextok hp x → nextok hp' x).
Proof.
  clear Hi. intros Hh Hw He Hcd.
  pose proof (w_refs _ Hw _ _ He) as Hrf. destruct (decide (e_refs e = 0)) as [E|E].
  - destruct (ring_unlink_run hp C g _ _ _ _ h (g_rings _ _ _ _ _ _ _ Hh)) as (hp' & Hrun & Hr & Ho & Hb & Hn).
    { apply (w_lru _ Hw). eauto. }
    exists hp'. rewrite (without_id h us); [|rewrite (g_us _ _ _ _ _ _ _ Hh); naive_solver lia]. split_and!; try done; [|auto].
    intros x Hx. apply Ho. intros Hin. apply Hx. eapply members_owned; [exact Hh|done|]. set_solver.
  - destruct (ring_unlink_run hp C g _ _ _ _ h (two_rings_swap _ _ _ _ _ (g_rings _ _ _ _ _ _ _ Hh))) as (hp' & Hrun & Hr & Ho & Hb & Hn).
    { apply (g_us _ _ _ _ _ _ _ Hh). exists e. split_and!; [done|done|lia]. }
    exists hp'. rewrite (without_id h (lru a)); [|rewrite (w_lru _ Hw); naive_solver]. split_and!; try done; [by apply two_rings_swap| |auto].
    intros x Hx. apply Ho. intros Hin. apply Hx. eapply members_owned; [exact Hh|done|]. set_solver.
Qed.

Lemma heap_g_usage hp C cp lv lr us cd u : heap_g hp C cp lv lr us cd → heap_g hp (set_usage C u) cp lv lr us cd.
Proof. clear Hi. by intros []. Qed.

(** Which entries are cached when [h] no longer is. *)
Definition uncached (h : Z) (cd : Z → entry → bool) (x : Z) (e : entry) : bool := cd x e && negb (bool_decide (x = h)).

Lemma uncached_ne h cd x e : x ≠ h → uncached h cd x e = cd x e.
Proof. intros Hx. unfold uncached. rewrite bool_decide_false by done. apply andb_true_r. Qed.

Lemma uncached_eq h cd e : uncached h cd h e = false.
Proof. unfold uncached. rewrite bool_decide_true by done. apply andb_false_r. Qed.

(** The heap after the entry of [k] left the cache, with its handle freed or recounted. *)
Lemma unhook_at hp hp1 hp2 C a us cd k h e : heap_a hp C a us cd → wf a → tbl a !! k = Some h → live a !! h = Some e →
  cd h e = true →
  two_rings hp1 (lru_ C) (without h (lru a)) (in_use_ C) (without h us) →
  (∀ x, bod hp1 x = bod hp x) → (∀ x, x ≠ lru_ C → x ≠ in_use_ C → nextok hp x → nextok hp1 x) →
  hp2 = (if e_refs e =? 0 then delete h hp1 else alter (λ n, with_refs (e_refs e) (with_in_cache false n)) h hp1) →
  heap_a hp2 C (unhook k a).1 (without h us) (uncached h cd).
Proof.
  clear Hi. intros Hh Hw Hk He Hcd Hr Hb Hnx Ehp2. destruct (g_heads _ _ _ _ _ _ _ Hh) as [Hhl Hhu].
  destruct (g_live _ _ _ _ _ _ _ Hh _ _ He) as (Hh0 & Hhn & Hen). pose proof (w_refs _ Hw _ _ He) as Hrf.
  destruct (w_tbl _ Hw _ _ Hk) as (e' & ? & Hke). assert (e' = e) as -> by congruence. subst k.
  assert (h ≠ lru_ C ∧ h ≠ in_use_ C) as [Hhl' Hhu'] by (split; intros E; rewrite E in He; congruence).
  assert (∀ x, x ≠ h → hp2 !! x = hp1 !! x) as Hx2.
  { intros x Hx. rewrite Ehp2. case_match; [by rewrite lookup_delete_ne|by apply alter_other]. }
  assert (∀ x, x ∈ lru_ C :: without h (lru a) ++ in_use_ C :: without h us → x ≠ h) as Hxr.
  { intros x. rewrite elem_of_cons, elem_of_app, elem_of_cons, !elem_of_without. intros [->|[[_ ?]|[->|[_ ?]]]]; done. }
  assert (two_rings hp2 (lru_ C) (without h (lru a)) (in_use_ C) (without h us)) as Hr2.
  { eapply two_rings_frame; [exact Hr|]. intros x Hx%Hxr. unfold nxt, prv. by rewrite Hx2. }
  assert (∀ x, x ≠ h → is_Some (live a !! x) → ent <$> hp2 !! x = ent <$> hp !! x ∧ (nextok hp x → nextok hp2 x)) as Hf.
  { intros x Hx [e' He']. rewrite (Hx2 x Hx). split; [by apply ent_bod|]. intros Hn. unfold nextok, nxt. rewrite Hx2 by done.
    apply Hnx; [intros ->; congruence|intros ->; congruence|done]. }
  assert (∀ lv : gmap Z entry, (∀ x, x ≠ h → lv !! x = live a !! x) → ∀ x, x ∈ without h us ↔
    ∃ e', lv !! x = Some e' ∧ uncached h cd x e' = true ∧ 0 < e_refs e') as Hus.
  { intros lv Hlv x. rewrite elem_of_without, (g_us _ _ _ _ _ _ _ Hh). split.
    - intros [(e' & ? & ? & ?) Hxh]. exists e'. rewrite Hlv, uncached_ne by done. done.
    - intros (e' & Hx & Hu & ?). assert (x ≠ h) as Hxh by (intros ->; by rewrite uncached_eq in Hu).
      rewrite Hlv in Hx by done. rewrite uncached_ne in Hu by done. eauto 10. }
  unfold unhook. rewrite Hk, He. destruct (Z.eqb_spec (e_refs e) 0) as [E0|E0]; cbn [fst];
    (eapply (heap_g_intro hp hp2 C _ _ _ _ _ us _ cd _ h); cbn [cap live tbl lru]; [done|..]; try done).
  - by apply lookup_delete_None; right.
  - by apply lookup_delete_None; right.
  - apply Hus. intros x Hx. by rewrite lookup_delete_ne.
  - intros x e' Hx [_ ?]%lookup_delete_Some. split; [done|]. by apply uncached_ne.
  - intros e'. by rewrite lookup_delete_eq.
  - rewrite (without_id h (lru a)) in Hr2; [done|]. rewrite (w_lru _ Hw). naive_solver.
  - by apply Hus.
  - intros x e' Hx ?. split; [done|]. by apply uncached_ne.
  - intros e' He'. assert (e' = e) as -> by congruence. rewrite uncached_eq. rewrite Hcd in Hen. split_and!; [done| |].
    + unfold nextok, nxt. rewrite Ehp2. rewrite fmap_alter_same by done. by apply Hnx.
    + destruct Hen as (t & Ht & Htl). exists t. split; [|done]. rewrite <-(ent_bod _ _ _ (Hb h)) in Ht. rewrite Ehp2, lookup_alter_eq.
      destruct (hp1 !! h) as [n1|]; [|done]. unfold ent in *. simpl in *. injection Ht as ? ? ? ? ?. rewrite Z.add_0_r. congruence.
Qed.

Lemma FinishErase_run hp C g a us cd k h e : heap_a hp C a us cd → wf a → tbl a !! k = Some h → live a !! h = Some e →
  cd h e = true →
  ∃ hp', FinishErase i h (cfg hp C g) =
      Ok (true, cfg hp' (set_usage C (u64 (usage_ C - e_charge e))) (g ++ (unhook k a).2)) ∧
    heap_a hp' (set_usage C (u64 (usage_ C - e_charge e))) (unhook k a).1 (without h us) (uncached h cd) ∧
    (∀ x, x ≠ h → bod hp' x = bod hp x) ∧ (∀ x, ¬ own C a x → hp' !! x = hp !! x).
Proof using Hi.
  intros Hh Hw Hk He Hcd. destruct (w_tbl _ Hw _ _ Hk) as (e' & ? & Hke). simplify_eq.
  pose proof (w_refs _ Hw _ _ He) as Hrf. destruct (g_live _ _ _ _ _ _ _ Hh _ _ He) as (Hh0 & Hhn & Hen). rewrite Hcd in Hen.
  destruct (entry_handle _ _ _ _ Hen) as (n & Hn & Hnd & Hnc & Hnr & Hnch & Hnt).
  destruct (uncache_run hp C g a us cd h e Hh Hw He Hcd) as (hp1 & Hrun & Hr1 & Ho1 & Hb1 & Hnx1).
  set (hp2 := alter (with_in_cache false) h hp1). set (C' := set_usage C (u64 (usage_ C - e_charge e))).
  set (hp3 := if e_refs e =? 0 then delete h hp1 else alter (λ n, with_refs (e_refs e) (with_in_cache false n)) h hp1).
  destruct (g_heads _ _ _ _ _ _ _ Hh) as [Hhl Hhu].
  assert (h ≠ lru_ C ∧ h ≠ in_use_ C) as [Hhl' Hhu'] by (split; intros E; rewrite E in He; congruence).
  destruct (hp1 !! h) as [n1|] eqn:Hn1; [|pose proof (Hb1 h) as E; unfold bod in E; by rewrite Hn, Hn1 in E].
  assert (ent n1 = ent n) as En1. { pose proof (ent_bod _ _ _ (Hb1 h)) as E. rewrite Hn1, Hn in E. simpl in E. congruence. }
  injection En1 as En1 En2 En3 En4 En5.
  assert (hp2 !! h = Some (with_in_cache false n1)) as Hn2 by (unfold hp2; by rewrite lookup_alter_eq, Hn1).
  assert (Unref i h (cfg hp2 C' g) = Ok (tt, cfg hp3 C' (g ++ (unhook (e_key e) a).2))) as Hun.
  { unfold unhook. rewrite Hk, He. unfold hp3. simpl in Hnr. destruct (Z.eqb_spec (e_refs e) 0) as [E0|E0]; cbn [snd].
    - rewrite (Unref_free hp2 C' g h _ (e_key e) (e_value e) Hn2); simpl; try done.
      + do 3 f_equal; [|unfold call_of; by rewrite En1, Hnd]. apply map_eq. intros x. unfold hp2.
        destruct (decide (x = h)) as [->|]; [by rewrite !lookup_delete_eq|]. rewrite !lookup_delete_ne by done. by apply alter_other.
      + lia.
      + unfold nextok, nxt. unfold hp2. rewrite fmap_alter_same by done. by apply Hnx1.
      + by rewrite En5.
    - rewrite (Unref_dec hp2 C' g h _ Hn2); simpl; [|lia|done]. rewrite app_nil_r. do 3 f_equal. apply map_eq. intros x.
      unfold hp2. destruct (decide (x = h)) as [->|]; [|by rewrite !alter_other]. rewrite !lookup_alter_eq, Hn1. simpl.
      do 2 f_equal. lia. }
  exists hp3. split_and!.
  - unfold FinishErase. zneq h 0. mstep (handle_run s0 i hp C g h n Hn). rewrite Hnc. rewrite (bind_lift _ _ _ tt eq_refl).
    mstep Hrun. mstep (upd_run s0 i hp1 C g h (with_in_cache false) ltac:(eauto)). fold hp2.
    mstep (upd_shard_run s0 i Hi hp2 C g (λ c, set_usage c (u64 (usage_ c - charge n)))). rewrite Hnch. fold C'. by mstep Hun.
  - apply heap_g_usage. by eapply (unhook_at hp hp1 hp3 C a us).
  - intros x Hx. rewrite <-Hb1. unfold bod, hp3. case_match; [by rewrite lookup_delete_ne|by rewrite alter_other].
  - intros x Hx. assert (x ≠ h) by (intros ->; apply Hx; right; right; eauto). rewrite <-Ho1 by done.
    unfold hp3. case_match; [by rewrite lookup_delete_ne|by apply alter_other].
Qed.

Lemma unhook_cached a k h x e : wf a → tbl a !! k = Some h →
  cached (unhook k a).1 x e = uncached h (cached a) x e.
Proof.
  clear Hi. intros Hw Hk. unfold cached, uncached. rewrite unhook_tbl by done. destruct (decide (x = h)) as [->|Hx].
  - rewrite (bool_decide_true (h = h)) by done. rewrite andb_false_r. apply bool_decide_eq_false. intros [Hne Hk']%lookup_delete_Some.
    apply Hne. by eapply tbl_inj.
  - rewrite (bool_decide_false (x = h)) by done. rewrite andb_true_r. apply bool_decide_ext. rewrite lookup_delete_Some.
    split; [by intros []|]. intros Hk'. split; [|done]. intros E. rewrite <-E, Hk in Hk'. congruence.
Qed.

(** Erasing a key, through a slice that holds it. *)
Lemma erase_run hp C g a us K k h : inv hp C a us → holds K k → tbl a !! k = Some h →
  ∃ hp1 hp' C1 C' us', table_Remove i K (HashSlice k) (cfg hp C g) = Ok (h, cfg hp1 C1 g) ∧
    FinishErase i h (cfg hp1 C1 g) = Ok (true, cfg hp' C' (g ++ (unhook k a).2)) ∧
    inv hp' C' (unhook k a).1 us' ∧ (∀ x, ¬ own C a x → hp' !! x = hp !! x) ∧ lru_ C' = lru_ C ∧ in_use_ C' = in_use_ C.
Proof using Hi.
  intros [Hh Hw Ht Hu Hub] HK Hk. destruct (w_tbl _ Hw _ _ Hk) as (e & He & Hke).
  destruct (Remove_hit s0 i Hi hp C g _ K k h Ht (heap_nextok _ _ _ _ Hh Hw) HK Hk) as (hp1 & T1 & Hrun1 & Ht1 & Ho1 & Hu1 & _).
  pose proof (heap_g_unc hp hp1 C T1 _ _ _ us _ Hh Hu1) as Hh1. set (C1 := set_table C T1) in *.
  destruct (FinishErase_run hp1 C1 g a us (cached a) k h e Hh1 Hw Hk He) as (hp2 & Hrun2 & Hh2 & Hb2 & Ho2).
  { apply bool_decide_eq_true. by rewrite Hke. }
  pose proof (unhook_usage a k h e Hw Hk He) as Huu. pose proof (usage_nonneg _ (unhook_wf a k Hw)).
  pose proof (w_chg _ Hw _ _ He). eexists hp1, hp2, C1, _, _. split_and!; [exact Hrun1|exact Hrun2| | |done|done].
  - split; [|by apply unhook_wf| | |lia].
    + eapply heap_g_ext; [exact Hh2|]. intros x e' He'. by eapply unhook_cached.
    + rewrite unhook_tbl by done. eapply table_frame; [exact Ht1|]. intros x [k' [Hne Hk']%lookup_delete_Some].
      assert (x ≠ h) as Hx by (intros ->; apply Hne; by eapply tbl_inj).
      split; [by apply next_of_bod, Hb2|by apply tl_bod, Hb2].
    + simpl. rewrite Hu, Huu. rewrite wrapu_small; lia.
  - intros x Hx. rewrite Ho2 by done. apply Ho1. intros [k' Hk']. destruct (w_tbl _ Hw _ _ Hk') as (e' & ? & _). apply Hx. right. right. eauto.
Qed.

Lemma Erase_ok hp C g a us k : inv hp C a us →
  ∃ hp' C' us', Erase i k (HashSlice k) (cfg hp C g) = Ok (tt, cfg hp' C' (g ++ (unhook k a).2)) ∧
    inv hp' C' (unhook k a).1 us' ∧ (∀ x, ¬ own C a x → hp' !! x = hp !! x) ∧ lru_ C' = lru_ C ∧ in_use_ C' = in_use_ C.
Proof using Hi.
  intros Hinv. unfold Erase. destruct (tbl a !! k) as [h|] eqn:Ek.
  - destruct (erase_run hp C g a us (slice k) k h Hinv (holds_slice k) Ek) as (hp1 & hp' & C1 & C' & us' & H1 & H2 & H3).
    exists hp', C', us'. split; [|done]. mstep H1. by mstep H2.
  - pose proof Hinv as [Hh Hw Ht _ _]. rewrite unhook_miss by done. exists hp, C, us. rewrite app_nil_r. split; [|done].
    by mstep (Remove_miss s0 i Hi hp C g _ (slice k) k Ht (heap_nextok _ _ _ _ Hh Hw) (holds_slice k) Ek).
Qed.

End shard.
End LruInv.
