(* ===== verification/LruOps.v ===== *)
(** The loops and the insertion of a shard of the LRU cache. *)

From S2P Require Import Prelude Chains Buckets Rings LruCache LruSpec LruFacts LruTable LruWf LruInv.
From stdpp Require Import options.

Module LruOps.
Import LruCache LruSpec LruFacts LruTable LruWf LruInv.

Implicit Types hp : gmap Z LRUHandle.

(** What an operation leaves as it is: the heap outside of the shard, and where its lists are. *)
Definition kept hp hp' (C C' : LRUCache) (P : Z → Prop) : Prop :=
  (∀ x, ¬ P x → hp' !! x = hp !! x) ∧ lru_ C' = lru_ C ∧ in_use_ C' = in_use_ C.

Section shard.
Context (s0 : st) (i : nat) (Hi : (i < length (shard_ s0))%nat).
Abbreviation cfg := (cfg s0 i).

(** ** Evicting *)

Lemma remove_oldest_run hp C g a us h l e : inv hp C a us → lru a = h :: l → live a !! h = Some e →
  ∃ hp' C' us', remove_oldest i h (cfg hp C g) = Ok (tt, cfg hp' C' (g ++ (unhook (e_key e) a).2)) ∧
    inv hp' C' (unhook (e_key e) a).1 us' ∧ kept hp hp' C C' (own C a).
Proof using Hi.
  intros Hinv Hl He. pose proof Hinv as [Hh Hw _ _ _]. destruct (unhook_oldest a h l e Hw Hl He) as (Hk & Hz & _).
  destruct (a_live Hh _ _ He) as (_ & Hnx & Hen). unfold cached in Hen. rewrite bool_decide_true in Hen by done.
  destruct (entry_handle _ _ _ _ Hen) as (n & Hn & _ & _ & Hnr & _ & Htl).
  assert (holds (mkSlice (tail n) (key_length n)) (e_key e)) as HK by (split; apply Htl).
  assert (key_of h (cfg hp C g) = Ok (mkSlice (tail n) (key_length n), cfg hp C g)) as Hkey.
  { unfold key_of. mstep (handle_run s0 i hp C g h n Hn). unfold key. unfold nextok, nxt in Hnx. rewrite Hn in Hnx.
    rewrite (proj2 (Z.eqb_neq _ _)); [done|]. simpl in Hnx. congruence. }
  destruct (erase_run s0 i Hi hp C g a us _ _ h Hinv HK Hk) as (hp1 & hp' & C1 & C' & us' & H1 & H2 & H3 & H4).
  exists hp', C', us'. split; [|done]. unfold remove_oldest. mstep (handle_run s0 i hp C g h n Hn).
  rewrite Hnr, Hz. rewrite (bind_lift _ _ _ tt eq_refl). mstep Hkey.
  assert (hash n = HashSlice (e_key e)) as -> by apply Htl. mstep H1. by mstep H2.
Qed.

(** What the loops read: the oldest entry, or the head itself. *)
Lemma oldest_run hp C a us : inv hp C a us →
  ∃ n, hp !! lru_ C = Some n ∧ next n = default (lru_ C) (head (lru a)) ∧ (next n =? lru_ C) = bool_decide (lru a = []).
Proof.
  clear Hi. intros [[_ _ Hr _ _] _ _ _ _]. pose proof (dseg_first _ _ _ _ _ (r_1 _ _ _ _ _ Hr)) as Hf. unfold nxt in Hf.
  destruct (hp !! lru_ C) as [n|]; [|by destruct (lru a)]. exists n. simpl in Hf.
  assert (next n = default (lru_ C) (head (lru a))) as E by (destruct (lru a); simpl in *; congruence).
  split_and!; [done|done|]. rewrite E. pose proof (r_nd1 _ _ _ _ _ Hr) as [Hs _]%NoDup_cons. destruct (lru a) as [|h l]; simpl.
  - by rewrite Z.eqb_refl.
  - apply Z.eqb_neq. intros ->. set_solver.
Qed.

Lemma own_unhook C C' a k x : lru_ C' = lru_ C → in_use_ C' = in_use_ C → own C' (unhook k a).1 x → own C a x.
Proof. clear Hi. intros H1 H2 [->|[->|H]]; [left|right; left|right; right]; try done. by eapply unhook_live. Qed.

(** Both loops: [full] is the condition of the loop that reads the shard. *)
Section loop.
Context (full : lcache → bool) (loop : nat → nat → M st unit) (cond : LRUCache → bool).
Context (Hcond : ∀ hp C a us, inv hp C a us → cond C = full a).
Context (Hloop : ∀ fuel, loop fuel i = (c ← shard i; l ← handle (lru_ c);
  if cond c && negb (next l =? lru_ c) then
    match fuel with O => fail FFuel | S fuel => remove_oldest i (next l);; loop fuel i end
  else mret tt)).

Lemma loop_run n : ∀ fuel hp C g a us, inv hp C a us → length (lru a) = n → (n ≤ fuel)%nat →
  ∃ hp' C' us', loop fuel i (cfg hp C g) = Ok (tt, cfg hp' C' (g ++ (shrink full n a).2)) ∧
    inv hp' C' (shrink full n a).1 us' ∧ kept hp hp' C C' (own C a).
Proof using Hi Hcond Hloop.
  induction n as [|n IH]; intros fuel hp C g a us Hinv Hlen Hf; rewrite Hloop;
    destruct (oldest_run hp C a us Hinv) as (nl & Hnl & Hnext & Hempty);
    mstep (shard_run s0 i Hi hp C g); mstep (handle_run s0 i hp C g _ nl Hnl); rewrite Hempty.
  - apply nil_length_inv in Hlen. rewrite bool_decide_true by done. rewrite andb_false_r.
    exists hp, C, us. simpl. rewrite app_nil_r. done.
  - destruct (lru a) as [|h l] eqn:El; [done|]. rewrite bool_decide_false by done. rewrite andb_true_r.
    rewrite (Hcond _ _ _ _ Hinv). simpl shrink. rewrite El. destruct (full a); [|exists hp, C, us; simpl; rewrite app_nil_r; done].
    destruct (oldest_live a h l (i_wf _ _ _ _ Hinv) El) as [e He]. rewrite He. destruct fuel as [|fuel]; [lia|].
    rewrite Hnext. simpl default. destruct (remove_oldest_run hp C g a us h l e Hinv El He) as (hp1 & C1 & us1 & Hrun & Hinv1 & Hk1 & Hl1 & Hu1).
    destruct (unhook_oldest a h l e (i_wf _ _ _ _ Hinv) El He) as (_ & _ & Hun).
    destruct (IH fuel hp1 C1 (g ++ (unhook (e_key e) a).2) _ us1 Hinv1) as (hp' & C' & us' & Hrun' & Hinv' & Hk' & Hl' & Hu').
    { rewrite Hun. simpl in *. lia. }
    { lia. }
    exists hp', C', us'. split_and!; [mstep Hrun; rewrite Hrun'; by rewrite app_assoc|done|split_and!; [|congruence|congruence]].
    intros x Hx. rewrite Hk', Hk1; [done|done|]. intros Ho. apply Hx. by eapply own_unhook.
Qed.
End loop.

Lemma evict_run fuel hp C g a us : inv hp C a us → (length (lru a) ≤ fuel)%nat →
  ∃ hp' C' us', evict fuel i (cfg hp C g) = Ok (tt, cfg hp' C' (g ++ (spec_evict a).2)) ∧
    inv hp' C' (spec_evict a).1 us' ∧ kept hp hp' C C' (own C a).
Proof using Hi.
  intros Hinv Hf. eapply (loop_run over evict (λ c, capacity_ c <? usage_ c)); [| |done|done|done].
  - intros hp1 C1 a1 us1 Hinv1. unfold over. by rewrite (g_cap _ _ _ _ _ _ _ (i_heap _ _ _ _ Hinv1)), (i_usage _ _ _ _ Hinv1).
  - by intros [].
Qed.

(** The evictable handles are in the heap: the fuel of the loops is enough. *)
Lemma lru_le_size hp C a us : inv hp C a us → (length (lru a) ≤ size hp)%nat.
Proof.
  clear Hi. intros [Hh Hw _ _ _]. rewrite <-(size_dom (D := gset Z)). rewrite <-(size_list_to_set (C := gset Z) (lru a)) by apply Hw.
  apply subseteq_size. intros h Hin%elem_of_list_to_set. apply (w_lru _ Hw) in Hin as (e & He & _).
  destruct (a_live Hh _ _ He) as (_ & _ & Hen). destruct (entry_handle _ _ _ _ Hen) as (n & Hn & _).
  apply elem_of_dom. eauto.
Qed.

Lemma Prune_ok hp C g a us : inv hp C a us →
  ∃ hp' C' us', Prune i (cfg hp C g) = Ok (tt, cfg hp' C' (g ++ (spec_prune a).2)) ∧
    inv hp' C' (spec_prune a).1 us' ∧ kept hp hp' C C' (own C a).
Proof using Hi.
  intros Hinv. unfold Prune. rewrite bind_get.
  eapply (loop_run (λ _, true) prune_loop (λ _, true)); [done|by intros []|done|done|by eapply lru_le_size].
Qed.

(** ** Inserting *)

(** The bytes of a new handle from [key_data] on, whatever was there. *)
Definition new_tail (t k : list Z) (v : Z) : list Z :=
  wr (wr (wr (wr t off_value (le_bytes 8 v)) off_key_length (le_bytes 8 (Z.of_nat (length k))))
    off_hash (le_bytes 4 (HashSlice k))) 0 k.

Lemma new_tail_of t k v : length t = (31 + length k)%nat → (1 ≤ length k ≤ 8)%nat → 0 ≤ v < 2 ^ 64 → tail_of (new_tail t k v) k v.
Proof.
  clear Hi. intros Ht Hk Hv. unfold new_tail, off_value, off_key_length, off_hash.
  pose proof (length_le_bytes 8 v) as L1. pose proof (length_le_bytes 8 (Z.of_nat (length k))) as L2.
  pose proof (length_le_bytes 4 (HashSlice k)) as L3.
  set (t1 := wr t 24 (le_bytes 8 v)). assert (length t1 = length t) as E1 by (unfold t1; apply length_wr; lia).
  set (t2 := wr t1 8 (le_bytes 8 (Z.of_nat (length k)))). assert (length t2 = length t) as E2 by (unfold t2; rewrite length_wr; lia).
  set (t3 := wr t2 16 (le_bytes 4 (HashSlice k))). assert (length t3 = length t) as E3 by (unfold t3; rewrite length_wr; lia).
  unfold tail_of, off_value, off_key_length, off_hash. split_and!.
  - rewrite length_wr; lia.
  - change (take (length k) (wr t3 0 k)) with (rd (wr t3 0 k) 0 (length k)). apply rd_wr_eq; lia.
  - rewrite rd_wr_ne by lia. unfold t3. rewrite rd_wr_ne by lia.
    unfold t2. rewrite rd_wr_eq by lia. rewrite le_dec_le_bytes. apply Z.mod_small. lia.
  - rewrite rd_wr_ne by lia. unfold t3. rewrite rd_wr_eq by lia. rewrite le_dec_le_bytes.
    apply Z.mod_small. apply HashSlice_range.
  - rewrite rd_wr_ne by lia. unfold t3. rewrite rd_wr_ne by lia.
    unfold t2. rewrite rd_wr_ne by lia. unfold t1. rewrite rd_wr_eq by lia.
    rewrite le_dec_le_bytes. apply Z.mod_small. lia.
Qed.

Lemma store_run hp C g h n off bs : hp !! h = Some n → (off + length bs ≤ length (tail n))%nat →
  store h off bs (cfg hp C g) = Ok (tt, cfg (<[h := with_tail (wr (tail n) off bs) n]> hp) C g).
Proof.
  clear Hi. intros Hh Hl. unfold store. mstep (handle_run s0 i hp C g h n Hh). rewrite (proj2 (Nat.leb_le _ _)) by done.
  rewrite (upd_run s0 i hp C g h) by eauto. do 3 f_equal. apply map_eq. intros x. destruct (decide (x = h)) as [->|].
  - by rewrite lookup_alter_eq, lookup_insert_eq, Hh.
  - by rewrite alter_other, lookup_insert_ne.
Qed.

Lemma set_run hp C g h n f : hp !! h = Some n → upd h f (cfg hp C g) = Ok (tt, cfg (<[h := f n]> hp) C g).
Proof.
  clear Hi. intros Hh. rewrite (upd_run s0 i hp C g h) by eauto. do 3 f_equal. apply map_eq. intros x. destruct (decide (x = h)) as [->|].
  - by rewrite lookup_alter_eq, lookup_insert_eq, Hh.
  - by rewrite alter_other, lookup_insert_ne.
Qed.
End shard.
End LruOps.
