(* ===== verification/LruInsert.v ===== *)
(** [Insert] of a shard of the LRU cache. *)

From S2P Require Import Prelude Chains Buckets Rings LruCache LruSpec LruFacts LruTable LruWf LruInv LruOps.
From stdpp Require Import options.

Module LruInsert.
Import LruCache LruSpec LruFacts LruTable LruWf LruInv LruOps.

Implicit Types hp : gmap Z LRUHandle.

(** ** The cache with a new entry, before the eviction *)

(** A handle for an entry that is not in the specification's table yet: both it and the entry it
    replaces are cached. *)
Definition also (a : lcache) (h : Z) (x : Z) (e : entry) : bool := cached a x e || bool_decide (x = h).

Definition joined (h : Z) (e : entry) (a : lcache) : lcache := mkL (cap a) (<[h := e]> (live a)) (tbl a) (lru a).

(** The cache in which [h] took the place of the old entry of its key. *)
Definition replaced (h : Z) (e : entry) (a : lcache) : lcache :=
  let r := unhook (e_key e) a in mkL (cap a) (<[h := e]> (live r.1)) (<[e_key e := h]> (tbl r.1)) (lru r.1).

Lemma tbl_live_ne a k h h' : wf a → live a !! h = None → tbl a !! k = Some h' → h' ≠ h.
Proof. intros Hw Hh Hk ->. destruct (w_tbl _ Hw _ _ Hk) as (e & ? & _). congruence. Qed.

Lemma replaced_wf a h e : wf a → live a !! h = None → e_refs e = 1 → 0 ≤ e_charge e →
  wf (replaced h e a) ∧ usage (replaced h e a) = usage (unhook (e_key e) a).1 + e_charge e.
Proof.
  intros Hw Hh Hr Hc. pose proof (unhook_wf a (e_key e) Hw) as Hw'.
  assert (live (unhook (e_key e) a).1 !! h = None) as Hh'.
  { apply eq_None_not_Some. intros Hs%unhook_live. rewrite Hh in Hs. by destruct Hs. }
  assert (tbl (unhook (e_key e) a).1 !! e_key e = None) as Hk' by (rewrite unhook_tbl by done; by rewrite lookup_delete_eq).
  unfold replaced. rewrite <-(unhook_cap a (e_key e)). split.
  - by apply (add_wf _ h e true).
  - by apply (add_usage _ h e true).
Qed.

Lemma replaced_tbl a h e : wf a → tbl (replaced h e a) = <[e_key e := h]> (tbl a).
Proof. intros Hw. simpl. rewrite unhook_tbl by done. by rewrite insert_delete_eq. Qed.

(** Which entries are cached after the replacement. *)
Lemma replaced_cached a h e x e' : wf a → live a !! h = None →
  live (replaced h e a) !! x = Some e' →
  cached (replaced h e a) x e' =
    match tbl a !! e_key e with Some old => uncached old (also a h) x e' | None => also a h x e' end.
Proof.
  intros Hw Hh Hx. unfold cached at 1. rewrite replaced_tbl by done. simpl in Hx.
  destruct (decide (x = h)) as [->|Hxh].
  - rewrite lookup_insert_eq in Hx. injection Hx as <-. rewrite lookup_insert_eq, bool_decide_true by done.
    unfold uncached, also. rewrite (bool_decide_true (h = h)), orb_true_r by done. destruct (tbl a !! e_key e) as [old|] eqn:Ek; [|done].
    rewrite bool_decide_false; [done|]. pose proof (tbl_live_ne _ _ _ _ Hw Hh Ek). congruence.
  - rewrite lookup_insert_ne in Hx by done. unfold uncached, also, cached. rewrite (bool_decide_false (x = h)), orb_false_r by done.
    assert (∀ b : bool, (b = true ↔ <[e_key e:=h]> (tbl a) !! e_key e' = Some x) → bool_decide (<[e_key e:=h]> (tbl a) !! e_key e' = Some x) = b) as Hb.
    { intros b Hb. destruct b; [apply bool_decide_eq_true; naive_solver|apply bool_decide_eq_false; naive_solver]. }
    apply Hb. rewrite lookup_insert_Some. destruct (tbl a !! e_key e) as [old|] eqn:Ek.
    + rewrite andb_true_iff, negb_true_iff, bool_decide_eq_true, bool_decide_eq_false. split.
      * intros [? ?]. right. split; [|done]. intros E. rewrite <-E, Ek in *. congruence.
      * intros [[_ ?]|[Hne Hk]]; [congruence|]. split; [done|]. intros ->. apply Hne. by eapply tbl_inj.
    + rewrite bool_decide_eq_true. split; [|naive_solver]. intros Hk. right. split; [|done]. intros E. rewrite <-E in Hk. congruence.
Qed.

Section shard.
Context (s0 : st) (i : nat) (Hi : (i < length (shard_ s0))%nat).
Abbreviation cfg := (cfg s0 i).

(** The handle joins the list of the entries in use. *)
Lemma join_run hp C g a us h e n : heap_at hp C a us → wf a → hp !! h = None → h ≠ 0 → live a !! h = None →
  deleter n = e_deleter e → in_cache n = true → refs n = 2 → charge n = e_charge e → e_refs e = 1 →
  tail_of (tail n) (e_key e) (e_value e) →
  ∃ hp', LRU_Append (in_use_ C) h (cfg (<[h := n]> hp) C g) = Ok (tt, cfg hp' C g) ∧
    heap_a hp' C (joined h e a) (us ++ [h]) (also a h) ∧ (∀ x, x ≠ h → bod hp' x = bod hp x) ∧ bod hp' h = Some (body n) ∧
    (∀ x, ¬ own C a x → x ≠ h → hp' !! x = hp !! x).
Proof.
  clear Hi. intros Hh Hw Hno Hh0 Hhl Hd Hc Hr Hch Her Ht. destruct (a_heads Hh) as [Hl0 Hu0]. set (hp1 := <[h := n]> hp).
  assert (∀ x, x ∈ lru_ C :: lru a ++ in_use_ C :: us → x ≠ h) as Hmem.
  { intros x Hx ->. pose proof (a_rings Hh) as [R1 R2 _ _ _]. assert (is_Some (hp !! h)) as [? ?]; [|congruence].
    apply elem_of_cons in Hx as [->|[Hx|[->|Hx]%elem_of_cons]%elem_of_app].
    - by eapply prv_some, (ring_last _ _ _ _ R1).
    - destruct (dseg_nodes _ _ _ _ _ h R1 Hx) as [[? ?] _]. by eapply nxt_some.
    - by eapply prv_some, (ring_last _ _ _ _ R2).
    - destruct (dseg_nodes _ _ _ _ _ h R2 Hx) as [[? ?] _]. by eapply nxt_some. }
  assert (∀ x, x ≠ h → hp1 !! x = hp !! x) as Hx1 by (intros x Hx; unfold hp1; by rewrite lookup_insert_ne).
  assert (two_rings hp1 (lru_ C) (lru a) (in_use_ C) us) as [R1 R2 N1 N2 Hdis].
  { eapply two_rings_frame; [exact (a_rings Hh)|]. intros x Hx%Hmem. unfold nxt, prv. by rewrite Hx1. }
  destruct (LRU_Append_run s0 i hp1 C g _ us h R2 N2) as (hp' & Hrun & Hr' & Ho & Hb & Hn & Hnh).
  { intros Hin. apply (Hmem h); [set_solver|done]. }
  { unfold hp1. rewrite lookup_insert_eq. eauto. }
  exists hp'. split_and!; [done| | | |].
  - eapply (heap_g_intro hp hp' C _ _ _ _ _ us _ (cached a) _ h); [exact Hh|..]; cbn [cap live tbl lru joined].
    + rewrite lookup_insert_ne; [done|]. intros E. apply (Hmem (lru_ C)); [set_solver|done].
    + rewrite lookup_insert_ne; [done|]. intros E. apply (Hmem (in_use_ C)); [set_solver|done].
    + split; try done.
      * eapply circ_frame; [exact R1|]. intros b Hb'. unfold nxt, prv. rewrite Ho; [done|].
        intros [->|[->|?]%elem_of_cons]%elem_of_cons; [eapply Hdis; [done|set_solver]|by eapply (Hmem h); [set_solver|]|eapply Hdis; [done|set_solver]].
      * change (in_use_ C :: us ++ [h]) with ((in_use_ C :: us) ++ [h]). apply NoDup_app. split_and!; [done| |apply NoDup_singleton].
        intros x Hx ->%list_elem_of_singleton. apply (Hmem h); [set_solver|done].
      * intros x Hx. rewrite elem_of_cons, elem_of_app, list_elem_of_singleton. pose proof (Hdis x Hx).
        assert (x ≠ h) by (apply Hmem; set_solver). set_solver.
    + intros x. rewrite elem_of_app, list_elem_of_singleton, (a_us Hh). setoid_rewrite lookup_insert_Some. unfold also. split.
      * intros [(e' & He' & Hk' & ?)| ->].
        -- exists e'. split_and!; [right; split; [congruence|done]| |done]. unfold cached. by rewrite bool_decide_true.
        -- exists e. split_and!; [by left| |lia]. rewrite (bool_decide_true (h = h)) by done. apply orb_true_r.
      * intros (e' & [[-> <-]|[Hne He']] & Hcd & ?); [by right|]. left. exists e'. split_and!; [done| |done].
        rewrite (bool_decide_false (x = h)), orb_false_r in Hcd by done. by apply bool_decide_eq_true in Hcd.
    + intros x e' Hx. rewrite lookup_insert_ne by done. intros He'. split; [done|]. unfold also.
      rewrite (bool_decide_false (x = h)) by done. apply orb_false_r.
    + intros x Hx [e' He']. split.
      * rewrite (ent_bod _ _ _ (Hb x)). by rewrite Hx1.
      * intros Hnx. apply Hn; [intros ->; congruence|done|]. unfold nextok, nxt. by rewrite Hx1.
    + intros e'. rewrite lookup_insert_eq. intros [= <-]. split_and!; [done|done|]. unfold also. rewrite (bool_decide_true (h = h)) by done.
      rewrite orb_true_r. exists (tail n). split; [|done]. rewrite (ent_bod _ _ _ (Hb h)). unfold hp1. rewrite lookup_insert_eq. unfold ent. simpl.
      rewrite Hd, Hc, Hr, Hch, Her. done.
  - intros x Hx. rewrite Hb. unfold bod. by rewrite Hx1.
  - rewrite Hb. unfold bod, hp1. by rewrite lookup_insert_eq.
  - intros x Hx Hxh. rewrite Ho, Hx1; [done|done|]. intros [->|[->|Hin]%elem_of_cons]%elem_of_cons; [apply Hx; right; by left|done|].
    apply Hx. eapply members_owned; [exact Hh|done|]. set_solver.
Qed.

(** The old entry of the key, if any, leaves the cache. *)
Lemma replace_run hp C g a us h e : heap_a hp C (joined h e a) us (also a h) → wf a → live a !! h = None → h ≠ 0 →
  e_refs e = 1 → 0 ≤ e_charge e → table_at hp (table_ C) (<[e_key e := h]> (tbl a)) →
  usage_ C = usage a + e_charge e → usage a + e_charge e < 2 ^ 64 →
  ∃ r hp' C' us', FinishErase i (default 0 (tbl a !! e_key e)) (cfg hp C g) =
      Ok (r, cfg hp' C' (g ++ (unhook (e_key e) a).2)) ∧ inv hp' C' (replaced h e a) us' ∧
    kept hp hp' C C' (λ x, own C a x ∨ x = h).
Proof using Hi.
  intros Hh Hw Hhl Hh0 Her Hch Ht Hu Hub. destruct (replaced_wf a h e Hw Hhl Her Hch) as [Hw' Hu'].
  destruct (tbl a !! e_key e) as [old|] eqn:Ek; simpl default.
  - destruct (w_tbl _ Hw _ _ Ek) as (e0 & He0 & Hke). pose proof (tbl_live_ne _ _ _ _ Hw Hhl Ek) as Hne.
    assert (wf (joined h e a)) as Hwj by (by apply (add_wf a h e false)).
    assert (live (joined h e a) !! old = Some e0) as He0' by (simpl; by rewrite lookup_insert_ne).
    assert (also a h old e0 = true) as Hal by (unfold also, cached; rewrite bool_decide_true; [done|congruence]).
    destruct (FinishErase_run s0 i Hi hp C g (joined h e a) us (also a h) (e_key e) old e0 Hh Hwj Ek He0' Hal)
      as (hp' & Hrun & Hh' & Hb & Ho).
    unfold joined in Hrun, Hh'. rewrite unhook_add in Hrun, Hh' by done. simpl in Hrun, Hh'.
    pose proof (unhook_usage a _ _ _ Hw Ek He0). pose proof (w_chg _ Hw _ _ He0). pose proof (usage_nonneg _ (unhook_wf a (e_key e) Hw)).
    eexists true, hp', _, _. split_and!; [exact Hrun| |split_and!; [|done|done]].
    + split; [|done| | |lia].
      * eapply heap_g_ext; [exact Hh'|]. intros x e' Hx. rewrite replaced_cached by done. by rewrite Ek.
      * rewrite replaced_tbl by done. eapply table_frame; [exact Ht|]. intros x [k' Hk'].
        assert (x ≠ old) as Hx.
        { intros ->. apply lookup_insert_Some in Hk' as [[_ ?]|[Hne' Hk']]; [congruence|]. apply Hne'. by eapply tbl_inj. }
        split; [by apply next_of_bod, Hb|by apply tl_bod, Hb].
      * simpl. rewrite Hu, Hu'. rewrite wrapu_small; lia.
    + intros x Hx. apply Ho. intros [->|[->|[e' He']]]; apply Hx; [left; by left|left; right; by left|].
      simpl in He'. apply lookup_insert_Some in He' as [[? _]|[_ ?]]; [by right|]. left. right. right. eauto.
  - exists false, hp, C, us. pose proof (unhook_miss a _ Ek) as Hm. rewrite Hm. rewrite app_nil_r. split_and!; [done| |done].
    rewrite Hm in Hu'. simpl in Hu'. split; [|done| |lia|lia].
    + unfold heap_at, replaced. rewrite Hm. simpl. eapply heap_g_ext; [exact Hh|]. intros x e' Hx.
      pose proof (replaced_cached a h e x e' Hw Hhl) as Hrc. unfold replaced in Hrc. rewrite Hm, Ek in Hrc. by apply Hrc.
    + by rewrite replaced_tbl.
Qed.

(** ** The whole operation *)

Section alloc.
Context (malloc : Z → gset Z → Z) (junk : Z).

(** [Insert] after the members of the new handle are set. *)
Definition insert_rest (chg e : Z) : MS Z :=
  c ← shard i;
  (if 0 <? capacity_ c then
     upd e (λ n, with_refs (u32 (refs n + 1)) n);;
     upd e (with_in_cache true);;
     LRU_Append (in_use_ c) e;;
     upd_shard i (λ c, set_usage c (u64 (usage_ c + chg)));;
     old ← table_Insert i e;
     FinishErase i old;; mret tt
   else upd e (with_next 0));;
  s ← get;
  evict (size (heap s)) i;;
  mret e.

Definition fresh_handle (k : list Z) (v c d : Z) : LRUHandle :=
  mkHandle d junk junk junk false 1 c (new_tail (replicate (31 + length k) junk) k v).

Lemma Insert_fill hp C g k v c d : (1 ≤ length k)%nat →
  let h := malloc (79 + Z.of_nat (length k)) (dom hp) in h ≠ 0 →
  Insert malloc junk i k (HashSlice k) v c d (cfg hp C g) = insert_rest c h (cfg (<[h := fresh_handle k v c d]> hp) C g).
Proof.
  clear Hi. intros Hk h Hh0. unfold Insert.
  assert (new_handle malloc junk (size_ (slice k)) (cfg hp C g) = Ok (h, cfg (<[h := mkHandle junk junk junk junk false junk junk
    (replicate (31 + length k) junk)]> hp) C g)) as Hnew.
  { unfold new_handle. rewrite bind_get. cbv zeta.
    change (malloc (sizeof_LRUHandle - 1 + size_ (slice k)) (dom (heap (cfg hp C g)))) with h. zneq h 0. unfold modify, mbind, M_bind, mret, M_ret. do 2 f_equal. unfold set_heap, LruFacts.cfg. cbn [heap calls shard_ last_id_].
    do 4 f_equal. unfold sizeof_LRUHandle, off_key_data. simpl size_. lia. }
  assert (∀ (n : LRUHandle) hp', <[h := n]> hp' !! h = Some n) as Hlk by (intros; by rewrite lookup_insert_eq).
  assert (off_value + length (le_bytes 8 v) ≤ length (replicate (31 + length k) junk))%nat as B1.
  { rewrite length_le_bytes, length_replicate. unfold off_value. lia. }
  pose proof (length_wr _ _ _ B1) as E1.
  assert (off_key_length + length (le_bytes 8 (size_ (slice k))) ≤
    length (wr (replicate (31 + length k) junk) off_value (le_bytes 8 v)))%nat as B2.
  { rewrite E1, length_le_bytes, length_replicate. unfold off_key_length. lia. }
  pose proof (length_wr _ _ _ B2) as E2. rewrite E1 in E2.
  pose proof (λ H, length_wr (wr (wr (replicate (31 + length k) junk) off_value (le_bytes 8 v)) off_key_length
    (le_bytes 8 (size_ (slice k)))) off_hash (le_bytes 4 (HashSlice k)) H) as E3.
  assert (off_hash + length (le_bytes 4 (HashSlice k)) ≤ length (wr (wr (replicate (31 + length k) junk) off_value (le_bytes 8 v)) off_key_length
    (le_bytes 8 (size_ (slice k)))))%nat as B3.
  { rewrite E2, length_le_bytes, length_replicate. unfold off_hash. lia. }
  specialize (E3 B3). rewrite E2, length_replicate in E3.
  mstep Hnew. erewrite bind_ok by (apply store_run; [apply Hlk|exact B1]). rewrite insert_insert_eq.
  rewrite (bind_ok _ _ _ _ _ (set_run s0 i _ C g h _ (with_deleter d) (Hlk _ _))), insert_insert_eq.
  rewrite (bind_ok _ _ _ _ _ (set_run s0 i _ C g h _ (with_charge c) (Hlk _ _))), insert_insert_eq.
  erewrite bind_ok by (apply store_run; [apply Hlk|exact B2]). rewrite insert_insert_eq.
  erewrite bind_ok by (apply store_run; [apply Hlk|exact B3]). rewrite insert_insert_eq.
  rewrite (bind_ok _ _ _ _ _ (set_run s0 i _ C g h _ (with_in_cache false) (Hlk _ _))), insert_insert_eq.
  rewrite (bind_ok _ _ _ _ _ (set_run s0 i _ C g h _ (with_refs 1) (Hlk _ _))), insert_insert_eq.
  erewrite bind_ok by (apply store_run; [apply Hlk|cbn [tail with_tail with_charge with_deleter with_refs with_in_cache]; rewrite E3; lia]).
  rewrite insert_insert_eq. done.
Qed.

Lemma Insert_ok hp C g a us k v c d : inv hp C a us → (1 ≤ length k ≤ 8)%nat → 0 ≤ v < 2 ^ 64 → 0 ≤ c →
  usage a + c < 2 ^ 64 → Z.of_nat (size (tbl a)) < 2 ^ 31 →
  let h := malloc (79 + Z.of_nat (length k)) (dom hp) in h ≠ 0 → h ∉ dom hp →
  let r := add h (mkEntry k v c d 1) a in
  ∃ hp' C' us', Insert malloc junk i k (HashSlice k) v c d (cfg hp C g) = Ok (h, cfg hp' C' (g ++ r.2)) ∧
    inv hp' C' r.1 us' ∧ kept hp hp' C C' (λ x, own C a x ∨ x = h).
Proof using Hi.
  intros [Hh Hw Ht Hu Hub] Hk Hv Hc Hus Hsz h Hh0 Hno%not_elem_of_dom r. set (e := mkEntry k v c d 1).
  assert (live a !! h = None) as Hhl.
  { destruct (live a !! h) as [e'|] eqn:E; [|done]. destruct (a_live Hh _ _ E) as (_ & _ & Hen).
    destruct (entry_handle _ _ _ _ Hen) as (n & ? & _). congruence. }
  pose proof (new_tail_of (replicate (31 + length k) junk) k v ltac:(apply length_replicate) Hk Hv) as Htl.
  pose proof (usage_nonneg _ Hw) as Hu0. rewrite (Insert_fill hp C g k v c d (proj1 Hk) Hh0). fold h. set (n1 := fresh_handle k v c d).
  assert (∀ hp', <[h := n1]> hp' !! h = Some n1) as Hlk by (intros; by rewrite lookup_insert_eq).
  assert (∀ a1 hp1 C1 us1 g1, inv hp1 C1 a1 us1 → kept hp hp1 C C1 (λ x, own C a x ∨ x = h) →
    (∀ x, own C1 a1 x → own C a x ∨ x = h) →
    ∃ hp' C' us', (s ← get; evict (size (heap s)) i;; mret h) (cfg hp1 C1 g1) = Ok (h, cfg hp' C' (g1 ++ (spec_evict a1).2)) ∧
      inv hp' C' (spec_evict a1).1 us' ∧ kept hp hp' C C' (λ x, own C a x ∨ x = h)) as Hev.
  { intros a1 hp1 C1 us1 g1 Hinv1 (Hk1 & Hl1 & Hu1) Hown.
    destruct (evict_run s0 i Hi (size hp1) hp1 C1 g1 a1 us1 Hinv1 (lru_le_size _ _ _ _ Hinv1)) as (hp' & C' & us' & Hrun & Hinv' & Hk' & Hl' & Hu').
    exists hp', C', us'. split_and!; [rewrite bind_get; by mstep Hrun|done|]. split_and!; [|congruence|congruence].
    intros x Hx. rewrite Hk', Hk1; [done|done|]. intros Ho. by apply Hx, Hown. }
  unfold insert_rest. mstep (shard_run s0 i Hi (<[h := n1]> hp) C g). rewrite (g_cap _ _ _ _ _ _ _ Hh). unfold r, add. fold e.
  destruct (0 <? cap a) eqn:Ecap.
  - set (n2 := mkHandle d junk junk junk true 2 c (tail n1)).
    destruct (join_run hp C g a us h e n2 Hh Hw Hno Hh0 Hhl) as (hp3 & Hrun3 & Hh3 & Hb3 & Hbh3 & Ho3); try done.
    set (C1 := set_usage C (u64 (usage_ C + c))).
    assert (table_at hp3 (table_ C) (tbl a)) as Ht3.
    { eapply table_frame; [exact Ht|]. intros x [k' Hk']. pose proof (tbl_live_ne _ _ _ _ Hw Hhl Hk').
      split; [by apply next_of_bod, Hb3|by apply tl_bod, Hb3]. }
    assert (∀ x, is_Some (live (joined h e a) !! x) → nextok hp3 x) as Hnx3.
    { intros x [e' He']. by apply (g_live _ _ _ _ _ _ _ Hh3 x e'). }
    destruct (Insert_run s0 i Hi hp3 C1 g (tbl a) k h (tail n1) v) as (hp4 & T4 & Hrun4 & Ht4 & Ho4 & Hu4); try done.
    { intros x [k' Hk']. apply Hnx3. destruct (w_tbl _ Hw _ _ Hk') as (e' & He' & _). simpl.
      rewrite lookup_insert_ne by (intros ->; congruence). eauto. }
    { apply Hnx3. simpl. rewrite lookup_insert_eq. eauto. }
    { unfold bod, tl in *. destruct (hp3 !! h) as [n3|]; [|done]. exact (f_equal (fmap (M := option) tail) Hbh3). }
    { intros [k' Hk']. by apply (tbl_live_ne _ _ _ _ Hw Hhl Hk'). }
    pose proof (heap_g_unc _ hp4 _ T4 _ _ _ _ _ (heap_g_usage _ _ _ _ _ _ _ (u64 (usage_ C + c)) Hh3) Hu4) as Hh4. fold C1 in Hh4.
    destruct (replace_run hp4 (set_table C1 T4) g a _ h e Hh4 Hw Hhl Hh0) as (b & hp5 & C5 & us5 & Hrun5 & Hinv5 & Hk5 & Hl5 & Hu5); try done.
    { simpl. rewrite Hu. rewrite wrapu_small; lia. }
    destruct (Hev (replaced h e a) hp5 C5 us5 (g ++ (unhook k a).2)) as (hp' & C' & us' & Hrun' & Hinv' & Hkept); [done| | |].
    { split_and!; [|done|done]. intros x Hx. rewrite Hk5 by done. rewrite Ho4; [|intros [k' Hk']|naive_solver].
      - apply Ho3; naive_solver.
      - apply Hx. left. right. right. destruct (w_tbl _ Hw _ _ Hk') as (e' & ? & _). eauto. }
    { intros x [->|[->|Hx]]; [left; left; done|left; right; left; done|]. simpl in Hx. apply lookup_insert_is_Some in Hx as [<-|[_ Hx]]; [by right|].
      left. right. right. by eapply unhook_live. }
    exists hp', C', us'. split_and!; [|exact Hinv'|exact Hkept].
    rewrite (bind_ok _ _ _ tt (cfg hp5 C5 (g ++ (unhook k a).2))); [rewrite Hrun'; by rewrite <-app_assoc|].
    rewrite (bind_ok _ _ _ _ _ (set_run s0 i _ C g h _ _ (Hlk _))), insert_insert_eq.
    rewrite (bind_ok _ _ _ _ _ (set_run s0 i _ C g h _ (with_in_cache true) (lookup_insert_eq _ _ _))), insert_insert_eq.
    change (with_in_cache true (with_refs (u32 (refs n1 + 1)) n1)) with n2. mstep Hrun3.
    mstep (upd_shard_run s0 i Hi hp3 C g (λ c0, set_usage c0 (u64 (usage_ c0 + c)))). fold C1. mstep Hrun4. by mstep Hrun5.
  - set (hp2 := <[h := with_next 0 n1]> hp).
    assert (∀ x, x ≠ h → hp2 !! x = hp !! x) as Hx2 by (intros x Hx; unfold hp2; by rewrite lookup_insert_ne).
    assert (∀ k', tbl a !! k' ≠ Some h) as Hnt by (intros k' Hk'; by apply (tbl_live_ne _ _ _ _ Hw Hhl Hk')).
    assert (∀ x, own C a x → x ≠ h) as Hoh.
    { intros x Hx ->. destruct Hx as [E|[E|[? ?]]]; [| |congruence].
      - pose proof (prv_some _ _ _ (proj1 (ring_last _ _ _ _ (r_1 _ _ _ _ _ (a_rings Hh))))) as [? ?]. congruence.
      - pose proof (prv_some _ _ _ (proj1 (ring_last _ _ _ _ (r_2 _ _ _ _ _ (a_rings Hh))))) as [? ?]. congruence. }
    assert (inv hp2 C (joined h e a) us) as Hinv2.
    { pose proof (add_usage a h e false Hw Hhl ltac:(done)) as Hua. cbn iota in Hua. rewrite Z.add_0_r in Hua. fold (joined h e a) in Hua.
      split; [|by apply (add_wf a h e false)| |lia|lia].
      - eapply (heap_at_intro hp hp2 C a _ us us h Hh); cbn [cap live tbl lru joined]; try done.
        + rewrite lookup_insert_ne; [apply (a_heads Hh)|]. pose proof (Hoh (lru_ C) ltac:(by left)). done.
        + rewrite lookup_insert_ne; [apply (a_heads Hh)|]. pose proof (Hoh (in_use_ C) ltac:(right; by left)). done.
        + eapply two_rings_frame; [exact (a_rings Hh)|]. intros x Hx. unfold nxt, prv. rewrite Hx2; [done|]. apply Hoh. by eapply members_owned.
        + intros x. rewrite (a_us Hh). setoid_rewrite lookup_insert_Some. split; intros (e' & ? & ? & ?); exists e'; naive_solver.
        + intros x e' Hx. by rewrite lookup_insert_ne.
        + intros x Hx _. unfold nextok, nxt. by rewrite Hx2.
        + intros e'. rewrite lookup_insert_eq. intros [= <-]. unfold nextok, nxt, hp2, cached. rewrite !lookup_insert_eq. split_and!; [done|simpl; congruence|].
          cbn [tbl joined]. rewrite bool_decide_false by done. exists (tail n1). unfold hp2. rewrite lookup_insert_eq. done.
      - eapply table_frame; [exact Ht|]. intros x [k' Hk']. unfold next_of, tl. rewrite Hx2; [done|]. intros ->. by eapply Hnt. }
    destruct (Hev (joined h e a) hp2 C us g Hinv2) as (hp' & C' & us' & Hrun' & Hinv' & Hkept).
    { split_and!; [|done|done]. intros x Hx. apply Hx2. naive_solver. }
    { intros x [->|[->|Hx]]; [left; left; done|left; right; left; done|]. simpl in Hx. apply lookup_insert_is_Some in Hx as [<-|[_ Hx]]; [by right|].
      left. right. by right. }
    exists hp', C', us'. split_and!; [|exact Hinv'|exact Hkept].
    rewrite (bind_ok _ _ _ _ _ (set_run s0 i _ C g h _ (with_next 0) (Hlk _))), insert_insert_eq. exact Hrun'.
Qed.
End alloc.
End shard.
End LruInsert.
