(* ===== verification/LruSys.v ===== *)
(** The sharded LRU cache implements [LruSpec]: sixteen shards in one heap, call by call. *)

From S2P Require Import Prelude Chains Buckets Rings LruCache LruSpec LruFacts LruTable LruWf LruInv LruOps LruInsert.
From stdpp Require Import options.

Module LruSys.
Import LruCache LruSpec LruFacts LruTable LruWf LruInv LruOps LruInsert.

Implicit Types hp : gmap Z LRUHandle.
#[local] Opaque HashSlice Shard.

(** ** The keys of a cache *)

Definition keys_sub (a' a : lcache) : Prop :=
  ∀ h e', live a' !! h = Some e' → ∃ e, live a !! h = Some e ∧ e_key e = e_key e'.

Lemma keys_sub_refl a : keys_sub a a.
Proof. intros h e ?. eauto. Qed.

Lemma keys_sub_trans a b c : keys_sub a b → keys_sub b c → keys_sub a c.
Proof. intros H1 H2 h e (e1 & He1 & E1)%H1. destruct (H2 h e1 He1) as (e2 & ? & E2). exists e2. split; [done|]. congruence. Qed.

Lemma unhook_sub a k : keys_sub (unhook k a).1 a.
Proof.
  unfold unhook. repeat case_match; try apply keys_sub_refl; intros h' e'; simpl; [intros [_ ?]%lookup_delete_Some|]; eauto.
Qed.

Lemma take_ref_sub a h : keys_sub (take_ref h a) a.
Proof.
  unfold take_ref. destruct (live a !! h) eqn:E; [|apply keys_sub_refl]. intros h' e'. simpl.
  intros [[<- <-]|[_ ?]]%lookup_insert_Some; eauto.
Qed.

Lemma drop_ref_sub a h : keys_sub (drop_ref h a).1 a.
Proof.
  unfold drop_ref. destruct (live a !! h) eqn:E; [|apply keys_sub_refl]. repeat case_match; intros h' e'; simpl.
  - intros [[<- <-]|[_ ?]]%lookup_insert_Some; eauto.
  - intros [_ ?]%lookup_delete_Some. eauto.
  - intros [[<- <-]|[_ ?]]%lookup_insert_Some; eauto.
Qed.

Lemma shrink_sub full n a : keys_sub (shrink full n a).1 a.
Proof.
  revert a. induction n as [|n IH]; intros a; [apply keys_sub_refl|]. simpl. destruct (lru a) as [|h l]; [apply keys_sub_refl|].
  destruct (full a); [|apply keys_sub_refl]. destruct (live a !! h); [|apply keys_sub_refl]. simpl.
  eapply keys_sub_trans; [apply IH|apply unhook_sub].
Qed.

Lemma add_sub a h e x e' : live (add h e a).1 !! x = Some e' →
  (x = h ∧ e_key e' = e_key e) ∨ ∃ e0, live a !! x = Some e0 ∧ e_key e0 = e_key e'.
Proof.
  unfold add, spec_evict. case_match; simpl; intros (e1 & He1 & <-)%shrink_sub; simpl in He1;
    apply lookup_insert_Some in He1 as [[<- <-]|[_ He1]]; eauto.
  right. by apply unhook_sub in He1.
Qed.

(** ** The representation of the whole cache *)

Definition homed (i : nat) (a : lcache) : Prop := ∀ h e, live a !! h = Some e → Shard (HashSlice (e_key e)) = i.

Record sys_at (s : st) (x : sys) : Prop := {
  y_len : length (shard_ s) = kNumShards ∧ length (shards x) = kNumShards;
  y_log : calls s = log x;
  y_ids : last_id_ s = ids x;
  y_shard i C a : shard_ s !! i = Some C → shards x !! i = Some a → (∃ us, inv (heap s) C a us) ∧ homed i a;
  y_apart i j C a C' a' p : shard_ s !! i = Some C → shards x !! i = Some a → shard_ s !! j = Some C' →
    shards x !! j = Some a' → own C a p → own C' a' p → i = j;
}.

Lemma inv_frame hp hp' C a us : inv hp C a us → (∀ p, own C a p → hp' !! p = hp !! p) → inv hp' C a us.
Proof.
  intros [Hh Hw Ht Hu Hub] Hf. split; try done.
  - pose proof Hh as [Hc Hhd Hr Hus Hl]. split; try done.
    + eapply two_rings_frame; [exact Hr|]. intros x Hx. unfold nxt, prv. rewrite Hf; [done|]. by eapply members_owned.
    + intros h e He. destruct (Hl h e He) as (? & ? & Hen). assert (own C a h) as Ho by (right; right; eauto).
      split_and!; [done|unfold nextok, nxt; by rewrite Hf|]. eapply entry_at_frame; [|exact Hen]. by rewrite Hf.
  - eapply table_frame; [exact Ht|]. intros h [k Hk]. destruct (w_tbl _ Hw _ _ Hk) as (e & He & _).
    unfold next_of, tl. rewrite Hf; [done|]. right. right. eauto.
Qed.

Lemma own_alloc hp C a us p : inv hp C a us → own C a p → is_Some (hp !! p).
Proof.
  intros [Hh _ _ _ _] [->|[->|[e He]]].
  - by eapply prv_some, (ring_last _ _ _ _ (r_1 _ _ _ _ _ (a_rings Hh))).
  - by eapply prv_some, (ring_last _ _ _ _ (r_2 _ _ _ _ _ (a_rings Hh))).
  - destruct (a_live Hh _ _ He) as (_ & _ & Hen). destruct (entry_handle _ _ _ _ Hen) as (n & ? & _). eauto.
Qed.

(** A call that changes one shard, and may allocate one block. *)
Lemma step_shard s x i C a hp' C' a' us' g (P : Z → Prop) :
  sys_at s x → shard_ s !! i = Some C → shards x !! i = Some a → inv hp' C' a' us' → homed i a' →
  kept (heap s) hp' C C' (λ p, own C a p ∨ P p) → (∀ p, P p → heap s !! p = None) →
  (∀ p, is_Some (live a' !! p) → is_Some (live a !! p) ∨ P p) →
  sys_at (cfg s i hp' C' g) (mkSys (<[i := a']> (shards x)) (log x ++ g) (ids x)).
Proof.
  intros [[L1 L2] Hlog Hid Hsh Hap] HC Ha Hinv Hhome (Hk & Hl & Hu) HP Hlv.
  assert (i < length (shard_ s))%nat as Hi1 by (by eapply lookup_lt_Some).
  assert (i < length (shards x))%nat as Hi2 by (by eapply lookup_lt_Some).
  assert (∀ p, own C' a' p → own C a p ∨ P p) as Hown.
  { intros p [->|[->|Hp%Hlv]]; [left; left; done|left; right; left; done|]. destruct Hp; [left; right; by right|by right]. }
  assert (∀ j Cj aj p, j ≠ i → shard_ s !! j = Some Cj → shards x !! j = Some aj → own Cj aj p → ¬ (own C a p ∨ P p)) as Hdis.
  { intros j Cj aj p Hj HCj Haj Hp [Ho|HPp].
    - apply Hj. by eapply (Hap j i).
    - destruct (Hsh _ _ _ HCj Haj) as [[us Hinvj] _]. destruct (own_alloc _ _ _ _ _ Hinvj Hp). rewrite HP in *; done. }
  split; simpl.
  - by rewrite !length_insert.
  - by rewrite Hlog.
  - done.
  - intros j Cj aj HCj Haj. destruct (decide (j = i)) as [->|Hj].
    + rewrite list_lookup_insert_eq in HCj by done. rewrite list_lookup_insert_eq in Haj by done. simplify_eq. split; [by exists us'|done].
    + rewrite list_lookup_insert_ne in HCj by done. rewrite list_lookup_insert_ne in Haj by done. destruct (Hsh _ _ _ HCj Haj) as [[us Hinvj] ?]. split; [|done]. exists us.
      eapply inv_frame; [exact Hinvj|]. intros p Hp. apply Hk. by eapply Hdis.
  - intros j1 j2 C1 a1 C2 a2 p H1 H2 H3 H4 Ho1 Ho2. destruct (decide (j1 = i)) as [->|Hj1], (decide (j2 = i)) as [->|Hj2]; [done| | |].
    + rewrite list_lookup_insert_eq in H1 by done. rewrite list_lookup_insert_eq in H2 by done. rewrite list_lookup_insert_ne in H3 by done. rewrite list_lookup_insert_ne in H4 by done. simplify_eq.
      exfalso. eapply (Hdis j2); [done|done|done|exact Ho2|]. by apply Hown.
    + rewrite list_lookup_insert_eq in H3 by done. rewrite list_lookup_insert_eq in H4 by done. rewrite list_lookup_insert_ne in H1 by done. rewrite list_lookup_insert_ne in H2 by done. simplify_eq.
      exfalso. eapply (Hdis j1); [done|done|done|exact Ho1|]. by apply Hown.
    + rewrite list_lookup_insert_ne in H1 by done. rewrite list_lookup_insert_ne in H2 by done. rewrite list_lookup_insert_ne in H3 by done. rewrite list_lookup_insert_ne in H4 by done. by eapply Hap.
Qed.

Lemma homed_sub i a a' : homed i a → keys_sub a' a → homed i a'.
Proof. intros Hh Hs h e (e0 & He0 & <-)%Hs. by eapply Hh. Qed.

Lemma keys_sub_live a a' p : keys_sub a' a → is_Some (live a' !! p) → is_Some (live a !! p).
Proof. intros Hs [e (e0 & ? & _)%Hs]. eauto. Qed.

Lemma shard_split s x i : sys_at s x → (i < kNumShards)%nat →
  ∃ C a us, shard_ s !! i = Some C ∧ shards x !! i = Some a ∧ inv (heap s) C a us ∧ homed i a ∧
    s = cfg s i (heap s) C [] ∧ (i < length (shard_ s))%nat.
Proof.
  intros Hs Hi. destruct (y_len _ _ Hs) as [L1 L2]. destruct (lookup_lt_is_Some_2 (shard_ s) i) as [C HC]; [lia|].
  destruct (lookup_lt_is_Some_2 (shards x) i) as [a Ha]; [lia|]. destruct (y_shard _ _ Hs _ _ _ HC Ha) as [[us Hinv] Hh].
  exists C, a, us. split_and!; try done; [|lia]. unfold cfg. rewrite app_nil_r, list_insert_id by done. by destruct s.
Qed.

(** The entry of a handle and its shard. *)
Lemma owner_eq s x h e : sys_at s x → entry_of x h = Some e →
  ∃ i a, owner x h = Some (i, a) ∧ shards x !! i = Some a ∧ live a !! h = Some e ∧ (i < kNumShards)%nat.
Proof.
  intros Hs He. unfold entry_of in He. destruct (owner x h) as [[i a]|] eqn:Eo; [|done]. simpl in He.
  apply list_find_Some in Eo as (Ha & _ & _). exists i, a. split_and!; try done.
  destruct (y_len _ _ Hs) as [_ <-]. by eapply lookup_lt_Some.
Qed.

Section calls.
Context (malloc : Z → gset Z → Z) (junk : Z).
Hypothesis malloc_ok : ∀ n X, malloc n X ≠ 0 ∧ malloc n X ∉ X.

Abbreviation exec := (exec malloc junk).

Lemma lookup_step s x k : sys_at s x → legal (OLookup k) x = true →
  ∃ r s' x', exec (OLookup k) s = Ok (r, s') ∧ spec_step (OLookup k) r x = Some x' ∧ sys_at s' x'.
Proof.
  clear malloc_ok. intros Hs Hlegal. destruct (shard_split s x _ Hs (Shard_lt k)) as (C & a & us & HC & Ha & Hinv & Hh & Es & Hi).
  cbn [legal] in Hlegal. rewrite Ha in Hlegal.
  destruct (Lookup_ok s _ Hi (heap s) C [] a us k Hinv) as (hp' & us' & Hrun & Hinv' & Hk).
  { intros h e E1 E2. rewrite E1, E2 in Hlegal. lia. }
  rewrite <-Es in Hrun. eexists _, _, _. split_and!; [exact Hrun| |].
  - cbn [spec_step]. rewrite Ha. cbn [mbind option_bind]. rewrite Z.eqb_refl. unfold run_shard. rewrite Ha. done.
  - apply (step_shard s x _ C a hp' C _ us' [] (λ _, False)); try done.
    + eapply homed_sub; [exact Hh|apply take_ref_sub].
    + split_and!; [|done|done]. intros p Hp. apply Hk. naive_solver.
    + intros p Hp. left. eapply keys_sub_live; [apply take_ref_sub|done].
Qed.

Lemma erase_step s x k : sys_at s x →
  ∃ s' x', exec (OErase k) s = Ok (0, s') ∧ spec_step (OErase k) 0 x = Some x' ∧ sys_at s' x'.
Proof.
  clear malloc_ok. intros Hs. destruct (shard_split s x _ Hs (Shard_lt k)) as (C & a & us & HC & Ha & Hinv & Hh & Es & Hi).
  destruct (Erase_ok s _ Hi (heap s) C [] a us k Hinv) as (hp' & C' & us' & Hrun & Hinv' & Hk & Hl & Hu).
  rewrite <-Es in Hrun. eexists _, _. split_and!; [cbn [LruCache.exec]; unfold cache_Erase; by mstep Hrun| |].
  - cbn [spec_step]. unfold run_shard. rewrite Ha. done.
  - apply (step_shard s x _ C a hp' C' _ us' _ (λ _, False)); try done.
    + eapply homed_sub; [exact Hh|apply unhook_sub].
    + split_and!; [|done|done]. intros p Hp. apply Hk. naive_solver.
    + intros p Hp. left. by eapply unhook_live.
Qed.

Lemma release_step s x h : sys_at s x → legal (ORelease h) x = true →
  ∃ s' x', exec (ORelease h) s = Ok (0, s') ∧ spec_step (ORelease h) 0 x = Some x' ∧ sys_at s' x'.
Proof.
  clear malloc_ok. intros Hs Hlegal. cbn [legal] in Hlegal. destruct (entry_of x h) as [e|] eqn:Ee; [|done].
  destruct (owner_eq s x h e Hs Ee) as (i & a & Ho & Ha & He & Hlt).
  destruct (shard_split s x i Hs Hlt) as (C & a' & us & HC & Ha' & Hinv & Hh & Es & Hi). simplify_eq.
  destruct (Release_ok s i Hi (heap s) C [] a us h e Hinv He) as (hp' & us' & Hrun & Hinv' & Hk); [lia|].
  destruct (a_live (i_heap _ _ _ _ Hinv) _ _ He) as (_ & _ & Hen). destruct (entry_handle _ _ _ _ Hen) as (n & Hn & _ & _ & _ & _ & Htl).
  pose proof (handle_run s i (heap s) C [] h n Hn) as Hhr. rewrite <-Es in Hrun, Hhr. eexists _, _. split_and!.
  - cbn [LruCache.exec]. unfold cache_Release.
    rewrite (bind_ok _ _ _ tt (cfg s i hp' C ([] ++ (drop_ref h a).2))); [done|]. mstep Hhr.
    assert (hash n = HashSlice (e_key e)) as -> by apply Htl. rewrite (Hh _ _ He). exact Hrun.
  - cbn [spec_step]. rewrite Ho. cbn [mbind option_bind fst]. unfold run_shard. rewrite Ha. done.
  - apply (step_shard s x _ C a hp' C _ us' _ (λ _, False)); try done.
    + eapply homed_sub; [exact Hh|apply drop_ref_sub].
    + split_and!; [|done|done]. intros p Hp. apply Hk. naive_solver.
    + intros p Hp. left. eapply keys_sub_live; [apply drop_ref_sub|done].
Qed.

Lemma insert_step s x k v c d : sys_at s x → legal (OInsert k v c d) x = true →
  ∃ r s' x', exec (OInsert k v c d) s = Ok (r, s') ∧ spec_step (OInsert k v c d) r x = Some x' ∧ sys_at s' x'.
Proof using malloc_ok.
  intros Hs Hlegal. destruct (shard_split s x _ Hs (Shard_lt k)) as (C & a & us & HC & Ha & Hinv & Hh & Es & Hi).
  cbn [legal] in Hlegal. rewrite Ha in Hlegal. apply andb_true_iff in Hlegal as [(Hkl & _ & Hv & Hc)%bool_decide_eq_true Hlegal].
  apply andb_true_iff in Hlegal as [Hus Hsz]. set (h := malloc (79 + Z.of_nat (length k)) (dom (heap s))).
  destruct (malloc_ok (79 + Z.of_nat (length k)) (dom (heap s))) as [Hh0 Hno]. fold h in Hh0, Hno.
  destruct (Insert_ok s _ Hi malloc junk (heap s) C [] a us k v c d Hinv) as (hp' & C' & us' & Hrun & Hinv' & Hk); try done; try lia.
  fold h in Hrun, Hinv', Hk. set (e := mkEntry k v c d 1) in *.
  exists h, (cfg s (Shard (HashSlice k)) hp' C' ([] ++ (add h e a).2)). eexists. split_and!.
  - rewrite <-Es in Hrun. exact Hrun.
  - cbn [spec_step]. rewrite bool_decide_true; [unfold run_shard; by rewrite Ha|]. split; [done|].
    destruct (entry_of x h) as [e'|] eqn:Ee; [|done]. destruct (owner_eq s x h e' Hs Ee) as (i & a' & _ & Ha' & He' & Hlt).
    destruct (shard_split s x i Hs Hlt) as (Ci & ai & usi & HCi & Hai & Hinvi & _). simplify_eq.
    destruct (own_alloc _ _ _ _ h Hinvi) as [n Hn]; [right; right; eauto|]. apply not_elem_of_dom in Hno. congruence.
  - apply (step_shard s x _ C a hp' C' _ us' _ (λ p, p = h)); try done.
    + intros p e' [[-> E]|(e0 & He0 & <-)]%add_sub; [by rewrite E|]. by eapply Hh.
    + intros p ->. by apply not_elem_of_dom.
    + intros p [e' [[-> _]|(e0 & He0 & _)]%add_sub]; [by right|left; eauto].
Qed.

Lemma value_step s x h : sys_at s x → legal (OValue h) x = true →
  ∃ r, exec (OValue h) s = Ok (r, s) ∧ spec_step (OValue h) r x = Some x.
Proof.
  clear malloc_ok. intros Hs Hlegal. cbn [legal] in Hlegal. destruct (entry_of x h) as [e|] eqn:Ee; [|done].
  destruct (owner_eq s x h e Hs Ee) as (i & a & Ho & Ha & He & Hlt).
  destruct (shard_split s x i Hs Hlt) as (C & a' & us & HC & Ha' & Hinv & Hh & Es & Hi). simplify_eq.
  destruct (a_live (i_heap _ _ _ _ Hinv) _ _ He) as (_ & _ & Hen). destruct (entry_handle _ _ _ _ Hen) as (n & Hn & _ & _ & _ & _ & Htl).
  exists (e_value e). split.
  - pose proof (handle_run s i (heap s) C [] h n Hn) as Hhr. rewrite <-Es in Hhr. cbn [LruCache.exec]. unfold cache_Value. mstep Hhr.
    assert (value n = e_value e) as -> by apply Htl. done.
  - cbn [spec_step]. rewrite Ee. simpl. by rewrite Z.eqb_refl.
Qed.

Lemma prune_loop_step n : ∀ j s x, sys_at s x → (j + n = kNumShards)%nat →
  ∃ s', cache_Prune n j s = Ok (tt, s') ∧ sys_at s' (mkSys (take j (shards x) ++ ((λ a, (spec_prune a).1) <$> drop j (shards x)))
    (log x ++ concat ((λ a, (spec_prune a).2) <$> drop j (shards x))) (ids x)).
Proof.
  clear malloc_ok malloc junk. induction n as [|n IH]; intros j s x Hs Hj.
  - exists s. split; [done|]. destruct (y_len _ _ Hs) as [_ L]. rewrite drop_ge by lia. rewrite take_ge by lia. simpl. rewrite !app_nil_r. by destruct x.
  - destruct (shard_split s x j Hs) as (C & a & us & HC & Ha & Hinv & Hh & Es & Hi); [lia|].
    destruct (Prune_ok s j Hi (heap s) C [] a us Hinv) as (hp' & C' & us' & Hrun & Hinv' & Hk & Hl & Hu).
    assert (sys_at (cfg s j hp' C' (spec_prune a).2) (mkSys (<[j := (spec_prune a).1]> (shards x)) (log x ++ (spec_prune a).2) (ids x))) as Hs1.
    { apply (step_shard s x _ C a hp' C' _ us' _ (λ _, False)); try done.
      + eapply homed_sub; [exact Hh|apply shrink_sub].
      + split_and!; [|done|done]. intros p Hp. apply Hk. naive_solver.
      + intros p Hp. left. by eapply shrink_live. }
    destruct (IH (S j) _ _ Hs1) as (s' & Hrun' & Hs'); [lia|]. exists s'. split.
    + rewrite <-Es in Hrun. cbn [cache_Prune]. mstep Hrun. exact Hrun'.
    + simpl in Hs'. assert (j < length (shards x))%nat as Hjx by (by eapply lookup_lt_Some).
      rewrite (take_S_r _ j (spec_prune a).1) in Hs' by (by rewrite list_lookup_insert_eq).
      rewrite take_insert_ge in Hs' by lia. rewrite drop_insert_lt in Hs' by lia.
      rewrite (drop_S (shards x) a j Ha). simpl. rewrite <-app_assoc in Hs'. simpl in Hs'. by rewrite <-app_assoc in Hs'.
Qed.

Lemma total_loop_step n : ∀ j s x total, sys_at s x → (j + n = kNumShards)%nat → 0 ≤ total < 2 ^ 64 →
  cache_TotalCharge n j total s = Ok (u64 (total + sum (usage <$> drop j (shards x))), s).
Proof.
  clear malloc_ok malloc junk. induction n as [|n IH]; intros j s x total Hs Hj Ht.
  - destruct (y_len _ _ Hs) as [_ L]. rewrite drop_ge by lia. simpl. rewrite Z.add_0_r, wrapu_small by done. done.
  - destruct (shard_split s x j Hs) as (C & a & us & HC & Ha & Hinv & Hh & Es & Hi); [lia|].
    pose proof (shard_run s j Hi (heap s) C []) as Hrun. rewrite <-Es in Hrun.
    cbn [cache_TotalCharge]. mstep Hrun. rewrite (IH (S j) s x _ Hs ltac:(lia) (wrapu_range 64 _ ltac:(lia))).
    assert (∀ y l, sum (y :: l) = y + sum l) as Hsum by done. rewrite (drop_S (shards x) a j Ha), fmap_cons, Hsum.
    rewrite (i_usage _ _ _ _ Hinv). do 2 f_equal. unfold wrapu. rewrite Zplus_mod_idemp_l. f_equal. lia.
Qed.

(** Every legal call returns, returns what the specification allows, and keeps the representation. *)
Lemma exec_step s x o : sys_at s x → legal o x = true →
  ∃ r s' x', exec o s = Ok (r, s') ∧ spec_step o r x = Some x' ∧ sys_at s' x'.
Proof using malloc_ok.
  intros Hs Hl. destruct o as [k v c d|k|h|k|h| | |].
  - by apply insert_step.
  - by apply lookup_step.
  - exists 0. by apply release_step.
  - exists 0. by apply erase_step.
  - destruct (value_step s x h Hs Hl) as (r & ? & ?). eauto 10.
  - exists (u64 (ids x + 1)). eexists _, _. split_and!; [|cbn [spec_step]; by rewrite Z.eqb_refl|].
    + cbn [LruCache.exec]. unfold NewId. rewrite bind_get. rewrite (y_ids _ _ Hs). done.
    + by destruct Hs.
  - destruct (prune_loop_step kNumShards 0 s x Hs eq_refl) as (s' & Hrun & Hs'). exists 0, s'. eexists. split_and!; [|done|exact Hs'].
    cbn [LruCache.exec]. by mstep Hrun.
  - eexists _, s, x. split_and!; [|cbn [spec_step]|done].
    + cbn [LruCache.exec]. apply (total_loop_step kNumShards 0 s x 0 Hs); [done|lia].
    + rewrite drop_0, Z.add_0_l, Z.eqb_refl. done.
Qed.
End calls.
End LruSys.
