(* ===== verification/LruEnd.v ===== *)
(** The beginning and the end of an LRU cache: its constructor, its destructor, and that every
    entry is either alive or was handed to its deleter once. *)

From S2P Require Import Prelude Chains Buckets Rings LruCache LruSpec LruFacts LruTable LruWf LruInv LruOps LruInsert LruSys.
From stdpp Require Import options.

Module LruEnd.
Import LruCache LruSpec LruFacts LruTable LruWf LruInv LruOps LruInsert LruSys.

Implicit Types hp : gmap Z LRUHandle.
#[local] Opaque HashSlice Shard.

(** ** Construction *)

(** The sixteen empty shards. *)
Definition init_heap (junk : Z) (n : nat) : gmap Z LRUHandle :=
  list_to_map (flat_map (λ s, [(lru_addr s, empty_head junk (lru_addr s)); (in_use_addr s, empty_head junk (in_use_addr s))]) (seq 0 n)).

Definition init_shard (c : Z) (s : nat) : LRUCache :=
  mkCache c 0 (lru_addr s) (in_use_addr s) (mkTable 4 0 [0; 0; 0; 0]).

Definition init (junk c : Z) : st := mkSt (init_heap junk kNumShards) [] (init_shard c <$> seq 0 kNumShards) 0.

Lemma new_cache_run junk capacity : NewLRUCache junk capacity start = Ok (tt, init junk (per_shard capacity)).
Proof. unfold NewLRUCache. generalize (per_shard capacity). intros c. by vm_compute. Qed.

Lemma init_heads junk s : (s < kNumShards)%nat →
  init_heap junk kNumShards !! lru_addr s = Some (empty_head junk (lru_addr s)) ∧
  init_heap junk kNumShards !! in_use_addr s = Some (empty_head junk (in_use_addr s)).
Proof. unfold kNumShards. intros Hs. do 16 (destruct s as [|s]; [by vm_compute|]). lia. Qed.

Lemma init_inv junk c s : (s < kNumShards)%nat → inv (init_heap junk kNumShards) (init_shard c s) (mkL c ∅ ∅ []) [].
Proof.
  intros Hs. destruct (init_heads junk s Hs) as [H1 H2]. assert (lru_addr s ≠ in_use_addr s) as Hne by (unfold lru_addr, in_use_addr; lia).
  assert (∀ a, init_heap junk kNumShards !! a = Some (empty_head junk a) → ring (nxt (init_heap junk kNumShards)) (prv (init_heap junk kNumShards)) a []) as Hring.
  { intros a Ha. split; [unfold nxt|unfold prv]; by rewrite Ha. }
  split; [| | |done|done].
  - split; cbn [cap live tbl lru lru_ in_use_ init_shard capacity_]; try done.
    + split; [by apply Hring|by apply Hring|apply NoDup_singleton|apply NoDup_singleton|]. set_solver.
    + intros h. split; [set_solver|]. intros (e & He & _). by rewrite lookup_empty in He.
  - split; cbn [cap live tbl lru]; try done; try apply NoDup_nil_2.
    intros h. split; [set_solver|]. intros (e & He & _). by rewrite lookup_empty in He.
  - split; cbn [table_ init_shard tbl length_ elems_ list_]; try done.
    + exists 2. done.
    + eapply bk_ext; [apply (bk_empty _ 4)|]. intros j p _. split; [done|]. by intros (k & Hk & _).
Qed.

Lemma init_at junk capacity : sys_at (init junk (per_shard capacity)) (new_sys capacity).
Proof.
  assert (∀ i C a, shard_ (init junk (per_shard capacity)) !! i = Some C → shards (new_sys capacity) !! i = Some a →
    (i < kNumShards)%nat ∧ C = init_shard (per_shard capacity) i ∧ a = mkL (per_shard capacity) ∅ ∅ []) as Hsh.
  { intros i C a. cbn [shard_ init shards new_sys]. rewrite list_lookup_fmap. intros HC [-> Hi]%lookup_replicate.
    rewrite lookup_seq_lt in HC by done. by simplify_eq/=. }
  split; try done.
  - intros i C a HC Ha. destruct (Hsh i C a HC Ha) as (Hi & -> & ->). split; [|done]. exists []. by apply init_inv.
  - intros i j C a C' a' p HC Ha HC' Ha'. destruct (Hsh i C a HC Ha) as (Hi & -> & ->). destruct (Hsh j C' a' HC' Ha') as (Hj & -> & ->).
    unfold own. cbn [lru_ in_use_ init_shard live]. rewrite lookup_empty. unfold lru_addr, in_use_addr.
    intros [->|[->|[? ?]]] [?|[?|[? ?]]]; try done; lia.
Qed.

(** ** Where the entries are *)

(** The calls that would dispose of the entries of a cache. *)
Definition held (a : lcache) : list call := call_of <$> (map_to_list (live a)).*2.

Lemma held_delete a h e c t l : live a !! h = Some e → call_of e :: held (mkL c (delete h (live a)) t l) ≡ₚ held a.
Proof. intros He. unfold held. cbn [live]. rewrite <-(map_to_list_delete (live a) h e He). done. Qed.

Lemma held_insert a h e c t l : live a !! h = None → held (mkL c (<[h := e]> (live a)) t l) ≡ₚ call_of e :: held a.
Proof. intros He. unfold held. cbn [live]. by rewrite map_to_list_insert. Qed.

Lemma held_refs a h e n c t l : live a !! h = Some e → held (mkL c (<[h := with_erefs n e]> (live a)) t l) ≡ₚ held a.
Proof.
  intros He. rewrite <-(held_delete a h e c t l He). unfold held. cbn [live]. rewrite <-insert_delete_eq.
  rewrite map_to_list_insert by (by rewrite lookup_delete_eq). done.
Qed.

Lemma unhook_held a k : (unhook k a).2 ++ held (unhook k a).1 ≡ₚ held a.
Proof.
  unfold unhook. destruct (tbl a !! k) as [h|]; [|done]. destruct (live a !! h) as [e|] eqn:E; [|done].
  case_match; [|done]. simpl. by apply held_delete.
Qed.

Lemma take_ref_held a h : held (take_ref h a) ≡ₚ held a.
Proof. unfold take_ref. destruct (live a !! h) as [e|] eqn:E; [|done]. by apply held_refs. Qed.

Lemma drop_ref_held a h : (drop_ref h a).2 ++ held (drop_ref h a).1 ≡ₚ held a.
Proof.
  unfold drop_ref. destruct (live a !! h) as [e|] eqn:E; [|done]. repeat case_match; simpl;
    [by apply held_refs|by apply held_delete|by apply held_refs].
Qed.

Lemma shrink_held full n a : (shrink full n a).2 ++ held (shrink full n a).1 ≡ₚ held a.
Proof.
  revert a. induction n as [|n IH]; intros a; [done|]. simpl. destruct (lru a) as [|h l]; [done|].
  destruct (full a); [|done]. destruct (live a !! h) as [e|]; [|done]. simpl. rewrite <-app_assoc, IH. apply unhook_held.
Qed.

Lemma add_held a h e : live a !! h = None → (add h e a).2 ++ held (add h e a).1 ≡ₚ call_of e :: held a.
Proof.
  intros Hh. unfold add, spec_evict. case_match; simpl.
  - rewrite <-app_assoc, shrink_held. rewrite held_insert.
    + rewrite Permutation_app_comm. simpl. rewrite Permutation_app_comm. by rewrite unhook_held.
    + apply eq_None_not_Some. intros Hs%unhook_live. rewrite Hh in Hs. by destruct Hs.
  - rewrite shrink_held. by apply held_insert.
Qed.

(** All entries of the cache. *)
Definition all_held (x : sys) : list call := concat (held <$> shards x).

Definition inserted_by (o : op) : list call :=
  match o with OInsert k v c d => [mkCall d k v] | _ => [] end.

Lemma run_shard_held x i f x' ins : run_shard x i f = Some x' → (∀ a, shards x !! i = Some a → (f a).2 ++ held (f a).1 ≡ₚ ins ++ held a) →
  log x' ++ all_held x' ≡ₚ ins ++ log x ++ all_held x.
Proof.
  unfold run_shard. destruct (shards x !! i) as [a|] eqn:Ea; [|done]. intros [= <-] Hf. specialize (Hf a eq_refl).
  unfold all_held. cbn [log shards]. rewrite <-(take_drop_middle (shards x) i a Ea) at 2.
  rewrite insert_take_drop by (by eapply lookup_lt_Some). rewrite !fmap_app, !fmap_cons, !concat_app. cbn [concat].
  set (L := concat (held <$> take i (shards x))). set (R := concat (held <$> drop (S i) (shards x))).
  transitivity (log x ++ ((f a).2 ++ held (f a).1) ++ L ++ R); [solve_Permutation|]. rewrite Hf. solve_Permutation.
Qed.

Lemma run_all_held x f : (∀ a, (f a).2 ++ held (f a).1 ≡ₚ held a) →
  log (run_all x f) ++ all_held (run_all x f) ≡ₚ log x ++ all_held x.
Proof.
  intros Hf. unfold run_all, all_held. cbn [log shards]. rewrite <-app_assoc. apply Permutation_app_head.
  induction (shards x) as [|a l IH]; [done|]. rewrite !fmap_cons. cbn [concat].
  transitivity (((f a).2 ++ held (f a).1) ++ concat ((λ a, (f a).2) <$> l) ++ concat (held <$> ((λ a, (f a).1) <$> l))); [solve_Permutation|].
  by rewrite Hf, IH.
Qed.

Lemma owner_none x h a : entry_of x h = None → a ∈ shards x → live a !! h = None.
Proof.
  intros He Ha. unfold entry_of, owner in He. destruct (list_find _ (shards x)) as [[i a']|] eqn:E; simpl in He.
  - apply list_find_Some in E as (_ & [? ?] & _). congruence.
  - apply list_find_None in E. rewrite Forall_forall in E. specialize (E a Ha). by apply eq_None_not_Some.
Qed.

(** A call moves entries between the cache and the log, and an insertion adds one. *)
Lemma step_held o r x x' : spec_step o r x = Some x' → log x' ++ all_held x' ≡ₚ inserted_by o ++ log x ++ all_held x.
Proof.
  destruct o as [k v c d|k|h|k|h| | |]; cbn [spec_step inserted_by]; rewrite ?app_nil_l.
  - destruct (bool_decide_reflect (r ≠ 0 ∧ entry_of x r = None)) as [[_ Hn]|]; [|done]. intros H.
    apply (run_shard_held _ _ _ _ [mkCall d k v] H). intros a Ha. rewrite add_held; [done|].
    eapply owner_none; [done|]. by eapply list_elem_of_lookup_2.
  - destruct (shards x !! Shard (HashSlice k)) as [a|]; [|done]. cbn [mbind option_bind]. case_match; [|done].
    intros Hx. apply (run_shard_held _ _ _ _ [] Hx). intros a' _. apply take_ref_held.
  - destruct (owner x h) as [[i a]|]; [|done]. intros H. apply (run_shard_held _ _ _ _ [] H). intros a' _. apply drop_ref_held.
  - intros H. apply (run_shard_held _ _ _ _ [] H). intros a' _. apply unhook_held.
  - destruct (entry_of x h) as [e|]; [|done]. cbn [mbind option_bind]. case_match; [|done]. by intros [= <-].
  - case_match; [|done]. by intros [= <-].
  - intros [= <-]. apply run_all_held. intros a. apply shrink_held.
  - case_match; [|done]. by intros [= <-].
Qed.

(** ** Destruction *)

(** The calls for the entries of a list of handles. *)
Definition disposed (lv : gmap Z entry) (l : list Z) : list call := omap (λ h, call_of <$> lv !! h) l.

Lemma disposed_perm lv l l' : l ≡ₚ l' → disposed lv l ≡ₚ disposed lv l'.
Proof. induction 1; cbn; repeat case_match; by rewrite ?IHPermutation, ?IHPermutation1 || eauto using Permutation. Qed.

Section shard.
Context (s0 : st) (i : nat) (Hi : (i < length (shard_ s0))%nat).
Abbreviation cfg := (cfg s0 i).

Lemma destroy_loop_run lv C head l : ∀ fuel hp g p, seg (nxt hp) p l head → NoDup l → head ∉ l →
  (∀ h, h ∈ l → ∃ e, lv !! h = Some e ∧ e_refs e = 0 ∧ nextok hp h ∧ entry_at hp h e true) → (length l ≤ fuel)%nat →
  ∃ hp', destroy_loop fuel i head p (cfg hp C g) = Ok (tt, cfg hp' C (g ++ disposed lv l)) ∧
    (∀ x, x ∉ l → hp' !! x = hp !! x).
Proof using Hi.
  induction l as [|h l IH]; intros fuel hp g p Hseg Hnd Hhd Hl Hf.
  { simpl in Hseg. subst. exists hp. rewrite app_nil_r. split; [|done]. destruct fuel; cbn [destroy_loop]; by rewrite Z.eqb_refl. }
  simpl in Hf. destruct fuel as [|fuel]; [lia|]. destruct Hseg as (-> & Hh0 & r & Hr & Hseg). apply NoDup_cons in Hnd as [Hhl Hnd].
  destruct (Hl h) as (e & He & Hz & Hnx & Hen); [set_solver|]. destruct (entry_handle _ _ _ _ Hen) as (n & Hn & Hd & Hc & Hrf & _ & Htl).
  assert (next n = r) as Hnr by (unfold nxt in Hr; rewrite Hn in Hr; by simplify_eq/=).
  set (hp1 := alter (with_in_cache false) h hp).
  assert (hp1 !! h = Some (with_in_cache false n)) as Hn1 by (unfold hp1; by rewrite lookup_alter_eq, Hn).
  assert (Unref i h (cfg hp1 C g) = Ok (tt, cfg (delete h hp1) C (g ++ [call_of e]))) as Hun.
  { rewrite (Unref_free s0 i Hi hp1 C g h _ (e_key e) (e_value e) Hn1); simpl; [by rewrite Hd|rewrite Hrf, Hz; done|done| |done].
    unfold nextok, nxt, hp1. by rewrite fmap_alter_same. }
  assert (∀ x, x ≠ h → delete h hp1 !! x = hp !! x) as Hx.
  { intros x Hx. rewrite lookup_delete_ne by done. by apply alter_other. }
  destruct (IH fuel (delete h hp1) (g ++ [call_of e]) r) as (hp' & Hrun & Hout); try done.
  - eapply seg_frame; [exact Hseg|]. intros x Hxl. unfold nxt. rewrite Hx; [done|]. by intros ->.
  - set_solver.
  - intros x Hxl. assert (x ≠ h) by (by intros ->). destruct (Hl x) as (e' & ? & ? & ? & ?); [set_solver|]. exists e'. split_and!; try done.
    + unfold nextok, nxt. by rewrite Hx.
    + eapply entry_at_frame; [|done]. by rewrite Hx.
  - lia.
  - exists hp'. split.
    + cbn [destroy_loop]. rewrite (proj2 (Z.eqb_neq h head)) by set_solver. mstep (handle_run s0 i hp C g h n Hn).
      rewrite Hc. rewrite (bind_lift _ _ _ tt eq_refl). mstep (upd_run s0 i hp C g h (with_in_cache false) ltac:(eauto)). fold hp1.
      rewrite Hrf, Hz. rewrite (bind_lift _ _ _ tt eq_refl). mstep Hun. rewrite Hnr, Hrun. rewrite <-app_assoc.
      cbn [disposed omap list_omap]. rewrite He. done.
    + intros x Hxl. rewrite Hout by set_solver. apply Hx. set_solver.
Qed.

Lemma dseg_seg nx pv p l q : dseg nx pv p l q → (∀ x, x ∈ l → x ≠ 0) → ∃ r, nx p = Some r ∧ seg nx r l q.
Proof.
  clear Hi. revert p. induction l as [|a l IH]; intros p; [intros [? _]; by exists q|]. intros (H1 & _ & H2) Hnz. exists a. split; [done|].
  destruct (IH a H2) as (r & Hr & Hs); [set_solver|]. simpl. split_and!; [done|set_solver|]. eauto.
Qed.

Lemma disposed_all lv l : NoDup l → (∀ h, h ∈ l ↔ is_Some (lv !! h)) → disposed lv l ≡ₚ call_of <$> (map_to_list lv).*2.
Proof.
  clear Hi. intros Hnd Hl. assert (l ≡ₚ (map_to_list lv).*1) as Hperm.
  { apply NoDup_Permutation; [done|apply NoDup_fst_map_to_list|]. intros h. rewrite Hl, list_elem_of_fmap. split.
    - intros [e He]. exists (h, e). split; [done|]. by apply elem_of_map_to_list.
    - intros ([h' e] & -> & He%elem_of_map_to_list). eauto. }
  rewrite (disposed_perm _ _ _ Hperm). unfold disposed. assert (∀ kvs : list (Z * entry), (∀ h e, (h, e) ∈ kvs → lv !! h = Some e) →
    omap (λ h, call_of <$> lv !! h) kvs.*1 = call_of <$> kvs.*2) as H.
  { induction kvs as [|[h e] kvs IH]; intros Hk; [done|]. cbn. rewrite (Hk h e) by set_solver. simpl. f_equal. apply IH. set_solver. }
  rewrite H; [done|]. intros h e. by apply elem_of_map_to_list.
Qed.

Lemma destroy_shard_run hp C g a us : inv hp C a us → (∀ h e, live a !! h = Some e → e_refs e = 0) →
  ∃ hp' c, destroy_shard i (cfg hp C g) = Ok (tt, cfg hp' C (g ++ c)) ∧ c ≡ₚ held a ∧ (∀ x, ¬ own C a x → hp' !! x = hp !! x).
Proof using Hi.
  intros Hinv Hz. pose proof Hinv as [Hh Hw _ _ _]. pose proof (a_rings Hh) as [R1 R2 N1 N2 _].
  assert (us = []) as ->. { destruct us as [|h us]; [done|]. destruct (proj1 (a_us Hh h)) as (e & He & _ & ?); [set_solver|]. rewrite (Hz _ _ He) in *. lia. }
  destruct (hp !! in_use_ C) as [nu|] eqn:Hnu; [|by destruct R2 as [E _]; unfold nxt in E; rewrite Hnu in E].
  assert (next nu = in_use_ C) as Enu by (destruct R2 as [E _]; unfold nxt in E; rewrite Hnu in E; by simplify_eq/=).
  assert (∀ h, h ∈ lru a → ∃ e, live a !! h = Some e ∧ e_refs e = 0 ∧ nextok hp h ∧ entry_at hp h e true) as Hent.
  { intros h (e & He & H0)%(w_lru _ Hw). exists e. destruct (a_live Hh _ _ He) as (_ & ? & Hen). split_and!; try done.
    unfold cached in Hen. rewrite bool_decide_true in Hen; [done|]. by apply (w_idle _ Hw). }
  destruct (dseg_seg _ _ _ _ _ R1) as (p & Hp & Hseg). { intros x (e & He & _)%Hent. by apply (a_live Hh x e). }
  destruct (hp !! lru_ C) as [nl|] eqn:Hnl; [|by unfold nxt in Hp; rewrite Hnl in Hp].
  assert (next nl = p) as Enl by (unfold nxt in Hp; rewrite Hnl in Hp; by simplify_eq/=).
  apply NoDup_cons in N1 as [Hhd Hnd].
  destruct (destroy_loop_run (live a) C (lru_ C) (lru a) (size hp) hp g p Hseg Hnd Hhd Hent (lru_le_size _ _ _ _ Hinv)) as (hp' & Hrun & Ho).
  exists hp', (disposed (live a) (lru a)). split_and!.
  - unfold destroy_shard. mstep (shard_run s0 i Hi hp C g). mstep (handle_run s0 i hp C g _ nu Hnu). rewrite Enu, Z.eqb_refl.
    rewrite (bind_lift _ _ _ tt eq_refl). mstep (handle_run s0 i hp C g _ nl Hnl). rewrite bind_get, Enl. exact Hrun.
  - apply disposed_all; [done|]. intros h. rewrite (w_lru _ Hw). split; [intros (e & ? & _); eauto|]. intros [e He]. exists e. split; [done|]. by eapply Hz.
  - intros x Hx. apply Ho. intros (e & He & _)%Hent. apply Hx. right. right. eauto.
Qed.
End shard.

(** No client refers to any entry. *)
Definition idle (x : sys) : bool := forallb (λ a, bool_decide (map_Forall (λ _ e, e_refs e = 0) (live a))) (shards x).

Lemma idle_refs x a h e : idle x = true → a ∈ shards x → live a !! h = Some e → e_refs e = 0.
Proof.
  unfold idle. rewrite forallb_forall. intros Hi Ha%list_elem_of_In He. specialize (Hi a Ha). apply bool_decide_eq_true in Hi. by apply (Hi h e).
Qed.

Lemma delete_cache_run x n : ∀ s, idle x = true → length (shards x) = kNumShards → length (shard_ s) = kNumShards → (n ≤ kNumShards)%nat →
  (∀ i C a, (i < n)%nat → shard_ s !! i = Some C → shards x !! i = Some a → ∃ us, inv (heap s) C a us) →
  (∀ i j C a C' a' p, shard_ s !! i = Some C → shards x !! i = Some a → shard_ s !! j = Some C' →
    shards x !! j = Some a' → own C a p → own C' a' p → i = j) →
  ∃ s', delete_cache n s = Ok (tt, s') ∧ calls s' ≡ₚ calls s ++ concat (held <$> take n (shards x)).
Proof.
  induction n as [|n IH]; intros s Hid L2 L1 Hn Hinv Hap; [exists s; by rewrite app_nil_r|].
  destruct (lookup_lt_is_Some_2 (shard_ s) n) as [C HC]; [lia|]. destruct (lookup_lt_is_Some_2 (shards x) n) as [a Ha]; [lia|].
  destruct (Hinv n C a) as [us Hinvn]; [lia|done|done|].
  destruct (destroy_shard_run s n ltac:(lia) (heap s) C [] a us Hinvn) as (hp' & c & Hrun & Hc & Ho).
  { intros h e He. eapply idle_refs; [done| |exact He]. by eapply list_elem_of_lookup_2. }
  assert (s = cfg s n (heap s) C []) as Es. { unfold cfg. rewrite app_nil_r, list_insert_id by done. by destruct s. }
  rewrite <-Es in Hrun. assert (shard_ (cfg s n hp' C ([] ++ c)) = shard_ s) as Esh by (unfold cfg; cbn [shard_]; by rewrite list_insert_id).
  destruct (IH (cfg s n hp' C ([] ++ c)) Hid L2) as (s' & Hrun' & Hs'); rewrite ?Esh; try done; [lia| |].
  - intros i Ci ai Hi HCi Hai. destruct (Hinv i Ci ai) as [us' Hinvi]; [lia|done|done|]. exists us'. eapply inv_frame; [exact Hinvi|].
    intros p Hp. apply Ho. intros Hp'. assert (i = n); [|lia]. by eapply (Hap i n).
  - exists s'. split; [cbn [delete_cache]; by mstep Hrun|]. rewrite Hs'. unfold cfg. cbn [calls]. rewrite (take_S_r _ _ _ Ha), fmap_app, concat_app.
    cbn [fmap list_fmap concat app]. rewrite app_nil_r, <-app_assoc, Hc. apply Permutation_app_head. apply Permutation_app_comm.
Qed.

Lemma delete_cache_ok s x : sys_at s x → idle x = true →
  ∃ s', delete_cache kNumShards s = Ok (tt, s') ∧ calls s' ≡ₚ log x ++ all_held x.
Proof.
  intros [[L1 L2] Hlog _ Hsh Hap] Hid. destruct (delete_cache_run x kNumShards s Hid L2 L1) as (s' & Hrun & Hc); [done| |done|].
  - intros i C a _ HC Ha. by apply (Hsh i C a HC Ha).
  - exists s'. split; [done|]. rewrite Hc, Hlog, take_ge by lia. done.
Qed.
End LruEnd.
