(* ===== verification/LruLongKeys.v ===== *)
(** Keys of more than eight bytes in the LRU cache: [Insert] copies them over the members that
    follow [key_data]. *)

From S2P Require Import Prelude Chains Buckets Rings LruCache LruSpec LruFacts LruTable LruWf LruInv LruOps LruInsert LruSys LruEnd.
From stdpp Require Import options.

Module LruLongKeys.
Import LruCache LruSpec LruFacts LruTable LruWf LruInv LruOps LruInsert LruSys LruEnd.

#[local] Opaque HashSlice Shard.

(** What is left of the members of a new handle. *)
Lemma long_tail t k v : length t = (31 + length k)%nat → (16 ≤ length k)%nat →
  length (new_tail t k v) = (31 + length k)%nat ∧
  le_dec (rd (new_tail t k v) off_key_length 8) = le_dec (rd k 8 8) ∧
  ((32 ≤ length k)%nat → le_dec (rd (new_tail t k v) off_value 8) = le_dec (rd k 24 8)).
Proof.
  intros Ht Hk. unfold new_tail.
  assert (length (wr t off_value (le_bytes 8 v)) = length t) as E1 by (apply length_wr; rewrite length_le_bytes; unfold off_value; lia).
  revert E1. generalize (wr t off_value (le_bytes 8 v)). intros t1 E1.
  assert (length (wr t1 off_key_length (le_bytes 8 (Z.of_nat (length k)))) = length t1) as E2
    by (apply length_wr; rewrite length_le_bytes; unfold off_key_length; lia).
  revert E2. generalize (wr t1 off_key_length (le_bytes 8 (Z.of_nat (length k)))). intros t2 E2.
  assert (length (wr t2 off_hash (le_bytes 4 (HashSlice k))) = length t2) as E3
    by (apply length_wr; rewrite length_le_bytes; unfold off_hash; lia).
  revert E3. generalize (wr t2 off_hash (le_bytes 4 (HashSlice k))). intros t3 E3. split_and!.
  - rewrite length_wr; lia.
  - rewrite rd_wr_in by (unfold off_key_length; lia). done.
  - intros Hk'. rewrite rd_wr_in by (unfold off_value; lia). done.
Qed.

(** Slices of different sizes are not equal, as long as their bytes are there to compare. *)
Lemma slice_ne k (K : Slice) : size_ K ≠ Z.of_nat (length k) → (length k ≤ length (data_ K))%nat → slice_eq (slice k) K = Some false.
Proof.
  intros Hs Hl. unfold slice_eq, compare. cbn [size_ slice data_].
  set (n := Z.to_nat (if _ <? _ then _ else _)). assert (n ≤ length k)%nat as Hn by (unfold n; case_match; lia). clearbody n.
  destruct (memcmp_eq n k (data_ K)) as (r & Hr & _); [lia|lia|]. rewrite Hr. cbn [mbind option_bind]. f_equal.
  zbool; simpl; try done; lia.
Qed.

Section shard.
Context (s0 : st) (i : nat) (Hi : (i < length (shard_ s0))%nat).
Abbreviation cfg := (cfg s0 i).

(** Linking a handle into an empty table, wherever its hash value leads. *)
Lemma insert_empty hp C g h n : table_ C = mkTable 4 0 [0; 0; 0; 0] → hp !! h = Some n → next n ≠ h → h ≠ 0 →
  table_Insert i h (cfg hp C g) = Ok (0, cfg (alter (with_next_hash 0) h hp)
    (set_table C (mkTable 4 1 (<[slot (table_ C) (hash n) := h]> [0; 0; 0; 0]))) g).
Proof using Hi.
  intros HT Hn Hnx Hh0. set (sl := slot (table_ C) (hash n)). assert (sl < 4)%nat as Hsl.
  { unfold sl. apply (slot_lt (table_ C) 4 (hash n) 2); [lia|by rewrite HT|done]. }
  assert (∀ K, FindPointer i K (hash n) (cfg hp C g) = Ok ((0, 0), cfg hp C g)) as Hf.
  { intros K. unfold FindPointer. mstep (shard_run s0 i Hi hp C g). fold sl. rewrite HT. cbn [list_].
    assert ([0; 0; 0; 0] !! sl = Some 0) as -> by (do 4 (destruct sl as [|sl]; [done|]); lia).
    rewrite (bind_lift _ _ _ 0 eq_refl). rewrite bind_get. by destruct (size (heap (cfg hp C g))). }
  unfold table_Insert. rewrite (bind_ok _ _ _ (mkSlice (tail n) (key_length n)) (cfg hp C g)).
  2:{ unfold key_of. mstep (handle_run s0 i hp C g h n Hn). unfold key. by rewrite (proj2 (Z.eqb_neq _ _)). }
  mstep (handle_run s0 i hp C g h n Hn). mstep (Hf (mkSlice (tail n) (key_length n))).
  change (0 =? 0) with true. cbv iota. rewrite (bind_ok _ _ _ 0 (cfg hp C g)) by done.
  mstep (upd_run s0 i hp C g h (with_next_hash 0) ltac:(eauto)).
  pose proof (set_link_run s0 i Hi (alter (with_next_hash 0) h hp) C g (hash n) 0 h ltac:(done)) as Hl. rewrite !decide_True in Hl by done.
  mstep Hl. fold sl. rewrite HT. cbn [length_ elems_ list_].
  rewrite (bind_ok _ _ _ tt (cfg (alter (with_next_hash 0) h hp) (set_table C (mkTable 4 1 (<[sl := h]> [0; 0; 0; 0]))) g)); [done|].
  unfold add_elems. erewrite bind_ok by apply (upd_shard_run s0 i Hi). erewrite bind_ok by apply (shard_run s0 i Hi). done.
Qed.

(** Looking up a key for which the only handle of the table does not stand. *)
Lemma lookup_lone hp C g h n k sl : table_ C = mkTable 4 1 (<[sl := h]> [0; 0; 0; 0]) → hp !! h = Some n → next n ≠ h → h ≠ 0 →
  next_hash n = 0 → key_length n ≠ Z.of_nat (length k) → (length k ≤ length (tail n))%nat →
  Lookup i k (HashSlice k) (cfg hp C g) = Ok (0, cfg hp C g).
Proof using Hi.
  intros HT Hn Hnx Hh0 Hnh Hkl Htl. set (sl' := slot (table_ C) (HashSlice k)). assert (sl' < 4)%nat as Hsl.
  { unfold sl'. apply (slot_lt (table_ C) 4 (HashSlice k) 2); [lia|by rewrite HT|done]. }
  assert (∃ hd l, list_ (table_ C) !! sl' = Some hd ∧ chain (next_of hp) hd l ∧ (l = [] ∨ l = [h])) as (hd & l & Hhd & Hc & Hl).
  { rewrite HT. cbn [list_]. destruct (decide (sl' = sl)) as [->|Hne].
    - rewrite list_lookup_insert_eq by (simpl; lia). exists h, [h]. split_and!; [done| |by right]. simpl. split_and!; [done|done|].
      exists 0. split; [|done]. unfold next_of. by rewrite Hn, <-Hnh.
    - rewrite list_lookup_insert_ne by done. exists 0, []. split_and!; [|done|by left]. do 4 (destruct sl' as [|sl']; [done|]); lia. }
  assert (found hp (slice k) (HashSlice k) h = Some false) as Hfd.
  { unfold found. rewrite Hn. cbn [mbind option_bind]. destruct (hash n =? HashSlice k); [|done]. cbn [negb]. unfold key.
    rewrite (proj2 (Z.eqb_neq _ _)) by done. cbn [mbind option_bind]. by apply slice_ne. }
  pose proof (scan_miss (next_of hp) (found hp (slice k) (HashSlice k)) (size hp) 0 hd l Hc
    (chain_le_size hp _ _ _ Hc (lru_next_alloc hp))) as Hs.
  assert (table_Lookup i (slice k) (HashSlice k) (cfg hp C g) = Ok (0, cfg hp C g)) as Hlk.
  { unfold table_Lookup, FindPointer. rewrite (bind_ok _ _ _ (link_of 0 l, 0) (cfg hp C g)); [done|].
    mstep (shard_run s0 i Hi hp C g). fold sl'. unfold deref. rewrite Hhd. rewrite (bind_lift _ _ _ hd eq_refl). rewrite bind_get.
    cbn [heap LruFacts.cfg]. rewrite Hs; [done|]. intros b Hb. destruct Hl as [El|El]; rewrite El in Hb; [set_solver|]. by apply list_elem_of_singleton in Hb as ->. }
  unfold Lookup. by mstep Hlk.
Qed.

(** The insertion of a key of any length into an empty shard. *)
Lemma insert_first malloc junk hp C g k v c d n : (1 ≤ length k)%nat →
  table_ C = mkTable 4 0 [0; 0; 0; 0] → 0 < capacity_ C → lru_ C ≠ in_use_ C →
  hp !! lru_ C = Some n → next n = lru_ C → ring (nxt hp) (prv hp) (in_use_ C) [] →
  let h := malloc (79 + Z.of_nat (length k)) (dom hp) in h ≠ 0 → h ∉ dom hp →
  ∃ hp' C' n' sl, Insert malloc junk i k (HashSlice k) v c d (cfg hp C g) = Ok (h, cfg hp' C' g) ∧
    table_ C' = mkTable 4 1 (<[sl := h]> [0; 0; 0; 0]) ∧ hp' !! h = Some n' ∧ next n' ≠ h ∧ next_hash n' = 0 ∧
    tail n' = new_tail (replicate (31 + length k) junk) k v.
Proof using Hi.
  intros Hk HT Hcap Hne Hl Hln Hr h Hh0 Hno%not_elem_of_dom. rewrite (Insert_fill s0 i malloc junk hp C g k v c d Hk Hh0). fold h.
  set (n1 := fresh_handle junk k v c d). set (n2 := mkHandle d junk junk junk true 2 c (tail n1)).
  assert (is_Some (hp !! in_use_ C)) as [nu Hnu] by (by eapply prv_some, (ring_last _ _ _ _ Hr)).
  assert (h ≠ lru_ C ∧ h ≠ in_use_ C) as [Hhl Hhu] by (split; intros E; rewrite E in Hno; congruence).
  destruct (LRU_Append_run s0 i (<[h := n2]> hp) C g (in_use_ C) [] h) as (hp3 & Hrun3 & _ & Ho3 & Hb3 & _ & Hn3).
  { eapply circ_frame; [exact Hr|]. intros b ->%list_elem_of_singleton. unfold nxt, prv. by rewrite lookup_insert_ne. }
  { apply NoDup_singleton. }
  { by intros ?%list_elem_of_singleton. }
  { rewrite lookup_insert_eq. eauto. }
  pose proof (Hb3 h) as Hbh. unfold bod in Hbh. rewrite lookup_insert_eq in Hbh. destruct (hp3 !! h) as [n3|] eqn:E3; [|done].
  assert (next n3 ≠ h) as Hnx3 by (unfold nextok, nxt in Hn3; rewrite E3 in Hn3; simpl in Hn3; congruence).
  assert (tail n3 = tail n1) as Ht3. { pose proof (f_equal (fmap (M := option) tail) Hbh) as E. by injection E. }
  set (C1 := set_usage C (u64 (usage_ C + c))).
  pose proof (insert_empty hp3 C1 g h n3 HT E3 Hnx3 Hh0) as Hins. set (hp4 := alter (with_next_hash 0) h hp3) in *.
  set (C2 := set_table C1 _) in Hins.
  exists hp4, C2, (with_next_hash 0 n3), (slot (table_ C1) (hash n3)).
  split_and!; [|done|unfold hp4; by rewrite lookup_alter_eq, E3|done|done|exact Ht3].
  unfold insert_rest. mstep (shard_run s0 i Hi (<[h := n1]> hp) C g). rewrite (proj2 (Z.ltb_lt _ _)) by done.
  rewrite (bind_ok _ _ _ tt (cfg hp4 C2 g)).
  - rewrite bind_get. assert (hp4 !! lru_ C2 = Some n) as Hl4.
    { change (lru_ C2) with (lru_ C). unfold hp4. rewrite alter_other by done. rewrite Ho3; [by rewrite lookup_insert_ne|]. set_solver. }
    rewrite (bind_ok _ _ _ tt (cfg hp4 C2 g)); [done|]. destruct (size (heap (cfg hp4 C2 g))); cbn [evict];
      mstep (shard_run s0 i Hi hp4 C2 g); mstep (handle_run s0 i hp4 C2 g _ n Hl4); rewrite Hln;
      change (lru_ C2) with (lru_ C); rewrite Z.eqb_refl, andb_false_r; done.
  - rewrite (bind_ok _ _ _ _ _ (set_run s0 i _ C g h _ _ (lookup_insert_eq _ _ _))), insert_insert_eq.
    rewrite (bind_ok _ _ _ _ _ (set_run s0 i _ C g h _ (with_in_cache true) (lookup_insert_eq _ _ _))), insert_insert_eq.
    change (with_in_cache true (with_refs (u32 (refs n1 + 1)) n1)) with n2. mstep Hrun3.
    mstep (upd_shard_run s0 i Hi hp3 C g (λ c0, set_usage c0 (u64 (usage_ c0 + c)))). fold C1. by mstep Hins.
Qed.
End shard.
End LruLongKeys.
