(* ===== verification/LruProps.v ===== *)
(** Properties of the LRU cache: sessions of clients refine [LruSpec], the lists hold what their
    comments say, the charges stay within the capacity, every entry is disposed of once, and what
    happens to keys of more than eight bytes. *)

From S2P Require Import Prelude Chains Buckets Rings LruCache LruSpec LruFacts LruTable LruWf LruInv LruOps LruInsert LruSys LruEnd LruLongKeys.
From stdpp Require Import options.

Module LruProps.
Import LruCache LruSpec LruFacts LruTable LruWf LruInv LruOps LruInsert LruSys LruEnd LruLongKeys.

#[local] Opaque HashSlice Shard.

(** The specification along a list of calls and their results. *)
Fixpoint replay (tr : list (op * Z)) (x : sys) : option sys :=
  match tr with
  | [] => Some x
  | (o, r) :: tr => x' ← spec_step o r x; replay tr x'
  end.

Lemma replay_snoc tr o r x : replay (tr ++ [(o, r)]) x = x' ← replay tr x; spec_step o r x'.
Proof.
  revert x. induction tr as [|[o' r'] tr IH]; intros x; cbn [replay app].
  - destruct (spec_step o r x) eqn:E; simpl; by rewrite E.
  - destruct (spec_step o' r' x); simpl; [apply IH|done].
Qed.

(** What was given to the cache. *)
Definition inserted (tr : list (op * Z)) : list call := concat ((λ c, inserted_by c.1) <$> tr).

Section sessions.
Context (malloc : Z → gset Z → Z) (junk : Z).

(** The calls that were made and the state they led to; each call was legal for the specification
    and may depend on what the earlier ones returned. *)
Inductive session (capacity : Z) : list (op * Z) → st → Prop :=
  | session_new s : NewLRUCache junk capacity start = Ok (tt, s) → session capacity [] s
  | session_call tr s x o r s' :
      session capacity tr s → replay tr (new_sys capacity) = Some x → legal o x = true →
      exec malloc junk o s = Ok (r, s') → session capacity (tr ++ [(o, r)]) s'.

Hypothesis malloc_ok : ∀ n X, malloc n X ≠ 0 ∧ malloc n X ∉ X.

Lemma session_at capacity tr s : session capacity tr s →
  ∃ x, replay tr (new_sys capacity) = Some x ∧ sys_at s x.
Proof using malloc_ok.
  induction 1 as [s Hnew|tr s x o r s' _ (x0 & Hx0 & Hat) Hx Hl Hrun].
  - rewrite new_cache_run in Hnew. injection Hnew as <-. exists (new_sys capacity). split; [done|apply init_at].
  - assert (x0 = x) as -> by congruence. destruct (exec_step malloc junk malloc_ok s x o Hat Hl) as (r' & s'' & x' & Hrun' & Hsp & Hat').
    rewrite Hrun in Hrun'. injection Hrun' as <- <-. exists x'. split; [|done]. rewrite replay_snoc, Hx. exact Hsp.
Qed.
End sessions.

(** The capacities do not change. *)
Lemma step_caps c o r x x' : spec_step o r x = Some x' → Forall (λ a, cap a = c) (shards x) → Forall (λ a, cap a = c) (shards x').
Proof.
  assert (∀ i f x', run_shard x i f = Some x' → (∀ a, cap (f a).1 = cap a) → Forall (λ a, cap a = c) (shards x) →
    Forall (λ a, cap a = c) (shards x')) as Hrs.
  { intros i f x1. unfold run_shard. destruct (shards x !! i) as [a|] eqn:Ea; [|done]. intros [= <-] Hf Hall.
    apply Forall_insert; [done|]. rewrite Hf. by eapply (Forall_lookup_1 (λ a, cap a = c)). }
  destruct o as [k v ch d|k|h|k|h| | |]; cbn [spec_step]; intros H Hall.
  - case_match; [|done]. eapply Hrs; [exact H| |done]. intros a. unfold add, spec_evict. case_match; simpl; by rewrite shrink_cap.
  - destruct (shards x !! Shard (HashSlice k)); [|done]. cbn [mbind option_bind] in H. case_match; [|done].
    eapply Hrs; [exact H| |done]. intros a. simpl. unfold take_ref. by case_match.
  - destruct (owner x h); [|done]. eapply Hrs; [exact H| |done]. intros a. unfold drop_ref. by repeat case_match.
  - eapply Hrs; [exact H| |done]. intros a. apply unhook_cap.
  - destruct (entry_of x h); [|done]. cbn [mbind option_bind] in H. case_match; by simplify_eq.
  - case_match; by simplify_eq.
  - simplify_eq. apply Forall_fmap. eapply Forall_impl; [exact Hall|]. intros a Ha. simpl. unfold spec_prune. by rewrite shrink_cap.
  - case_match; by simplify_eq.
Qed.

Lemma replay_caps c tr x x' : replay tr x = Some x' → Forall (λ a, cap a = c) (shards x) → Forall (λ a, cap a = c) (shards x').
Proof.
  revert x. induction tr as [|[o r] tr IH]; intros x; cbn [replay]; [by intros [= <-]|].
  destruct (spec_step o r x) as [x1|] eqn:E; [|done]. intros H Hall. eapply IH; [exact H|]. by eapply step_caps.
Qed.

Lemma replay_held tr x x' : replay tr x = Some x' → log x' ++ all_held x' ≡ₚ inserted tr ++ log x ++ all_held x.
Proof.
  revert x. induction tr as [|[o r] tr IH]; intros x; cbn [replay]; [by intros [= <-]|].
  destruct (spec_step o r x) as [x1|] eqn:E; [|done]. intros H. rewrite (IH _ H), (step_held _ _ _ _ E).
  unfold inserted. rewrite fmap_cons. cbn [concat fst]. solve_Permutation.
Qed.

Lemma new_sys_held capacity : log (new_sys capacity) ++ all_held (new_sys capacity) = [].
Proof.
  unfold all_held, new_sys. cbn [log shards app]. generalize kNumShards. intros n. induction n as [|n IH]; [done|].
  cbn [replicate]. rewrite fmap_cons. cbn [concat]. rewrite IH. unfold held. cbn [live]. by rewrite map_to_list_empty.
Qed.

(** An insertion leaves the charges within the capacity, or nothing to evict. *)
Lemma add_fits a h e : wf a → live a !! h = None → e_refs e = 1 → 0 ≤ e_charge e →
  usage (add h e a).1 ≤ cap a ∨ lru (add h e a).1 = [].
Proof.
  intros Hw Hh Hr Hc. unfold add. destruct (0 <? cap a).
  - apply (evict_fits (replaced h e a)). by apply replaced_wf.
  - apply (evict_fits (joined h e a)). by apply (add_wf a h e false).
Qed.

(** ** Properties *)

(** C5. The cache implements its specification.  However clients call it, each call within the
    specification's terms (keys of one to eight bytes, only handles that are held are used and
    released, counters in range) and depending on earlier results as it likes, every call returns;
    it returns the handle, value, charge or id that the specification gives (a table of the
    entries cached under their keys, the entries themselves while someone refers to them, and the
    order of their last use); and the deleters were called exactly for the entries, and in the
    order, that the specification drops. *)
Theorem lru_session_refines malloc junk capacity tr s :
  (∀ n X, malloc n X ≠ 0 ∧ malloc n X ∉ X) → session malloc junk capacity tr s →
  ∃ x, replay tr (new_sys capacity) = Some x ∧ calls s = log x ∧
    ∀ o, legal o x = true → ∃ r s' x',
      exec malloc junk o s = Ok (r, s') ∧ spec_step o r x = Some x' ∧ calls s' = log x'.
Proof.
  intros Hm Hs. destruct (session_at _ _ Hm _ _ _ Hs) as (x & Hx & Hat). exists x. split_and!; [done|apply Hat|].
  intros o Hl. destruct (exec_step malloc junk Hm s x o Hat Hl) as (r & s' & x' & ? & ? & Hat'). exists r, s', x'. split_and!; try done. apply Hat'.
Qed.

(** C17. The lists are what their comments say: in every state that clients can reach by calls within
    the specification's terms (above all with keys of one to eight bytes: a longer key overwrites
    the handle's length, hash and value) and with a malloc that finds memory, the heads [lru_] and
    [in_use_] of each shard lead through disjoint rings, the handles on [lru_] are cached with one
    reference, those on [in_use_] are cached with at least two, and every cached handle's key leads
    to it in the hash table. *)
Theorem lru_lists_typed malloc junk capacity tr s i C :
  (∀ n X, malloc n X ≠ 0 ∧ malloc n X ∉ X) → session malloc junk capacity tr s → shard_ s !! i = Some C →
  ∃ lr us m, two_rings (heap s) (lru_ C) lr (in_use_ C) us ∧ table_at (heap s) (table_ C) m ∧
    (∀ h, h ∈ lr → ∃ n, heap s !! h = Some n ∧ in_cache n = true ∧ refs n = 1) ∧
    (∀ h, h ∈ us → ∃ n, heap s !! h = Some n ∧ in_cache n = true ∧ 2 ≤ refs n) ∧
    (∀ h, h ∈ lr ∨ h ∈ us ↔ ∃ k, m !! k = Some h).
Proof.
  intros Hm Hs HC. destruct (session_at _ _ Hm _ _ _ Hs) as (x & _ & Hat). destruct (y_len _ _ Hat) as [L1 L2].
  destruct (lookup_lt_is_Some_2 (shards x) i) as [a Ha]; [rewrite L2, <-L1; by eapply lookup_lt_Some|].
  destruct (y_shard _ _ Hat _ _ _ HC Ha) as [[us [Hh Hw Ht _ _]] _]. exists (lru a), us, (tbl a).
  assert (∀ h e, live a !! h = Some e → tbl a !! e_key e = Some h → ∃ n, heap s !! h = Some n ∧ in_cache n = true ∧ refs n = e_refs e + 1) as Hen.
  { intros h e He Hk. destruct (a_live Hh _ _ He) as (_ & _ & Hen). unfold cached in Hen. rewrite bool_decide_true in Hen by done.
    destruct (entry_handle _ _ _ _ Hen) as (n & ? & _ & ? & ? & _). eauto. }
  split_and!; [apply (a_rings Hh)|done| | |].
  - intros h (e & He & Hz)%(w_lru _ Hw). destruct (Hen h e He (w_idle _ Hw _ _ He Hz)) as (n & ? & ? & ?). exists n. split_and!; [done|done|lia].
  - intros h (e & He & Hk & Hp)%(a_us Hh). destruct (Hen h e He Hk) as (n & ? & ? & ?). exists n. split_and!; [done|done|lia].
  - intros h. rewrite (w_lru _ Hw), (a_us Hh). split.
    + intros [(e & He & Hz)|(e & He & Hk & _)]; exists (e_key e); [by apply (w_idle _ Hw)|done].
    + intros [k Hk]. destruct (w_tbl _ Hw _ _ Hk) as (e & He & <-). pose proof (w_refs _ Hw _ _ He).
      destruct (decide (e_refs e = 0)); [left|right]; exists e; [done|]. split_and!; [done|done|lia].
Qed.

(** C34. The capacity: after an insertion (of a key of one to eight bytes, within the specification's
    terms as all calls before it) the charges of the key's shard are within the shard's share of the capacity, or the shard has nothing left to evict: its [lru_] list is empty and
    clients refer to every entry it caches. *)
Theorem lru_bounded malloc junk capacity tr s x k v c d r s' :
  (∀ n X, malloc n X ≠ 0 ∧ malloc n X ∉ X) → session malloc junk capacity tr s →
  replay tr (new_sys capacity) = Some x → legal (OInsert k v c d) x = true →
  exec malloc junk (OInsert k v c d) s = Ok (r, s') →
  ∃ C n, shard_ s' !! Shard (HashSlice k) = Some C ∧ heap s' !! lru_ C = Some n ∧
    (usage_ C ≤ per_shard capacity ∨ next n = lru_ C).
Proof.
  intros Hm Hs Hx Hl Hrun. destruct (session_at _ _ Hm _ _ _ Hs) as (x0 & Hx0 & Hat).
  assert (x0 = x) as -> by congruence. destruct (exec_step malloc junk Hm s x _ Hat Hl) as (r' & s1 & x' & Hrun' & Hsp & Hat'). rewrite Hrun in Hrun'. injection Hrun' as <- <-.
  assert (Forall (λ a, cap a = per_shard capacity) (shards x)) as Hcaps.
  { eapply replay_caps; [exact Hx|]. by apply Forall_replicate. }
  destruct (shard_split s x _ Hat (Shard_lt k)) as (C0 & a & us0 & _ & Ha & Hinv0 & _).
  destruct (shard_split s' x' _ Hat' (Shard_lt k)) as (C & a' & us & HC & Ha' & Hinv & _).
  cbn [spec_step] in Hsp. destruct (bool_decide_reflect (r ≠ 0 ∧ entry_of x r = None)) as [[_ Hnone]|]; [|done].
  unfold run_shard in Hsp. rewrite Ha in Hsp. cbn [mbind option_bind] in Hsp. injection Hsp as <-. cbn [shards] in Ha'.
  rewrite list_lookup_insert_eq in Ha' by (by eapply lookup_lt_Some). injection Ha' as <-.
  pose proof (Forall_lookup_1 _ _ _ _ Hcaps Ha) as Hcap. simpl in Hcap.
  destruct (oldest_run _ _ _ _ Hinv) as (n & Hn & Hnext & _). exists C, n. split_and!; [done|done|].
  rewrite (i_usage _ _ _ _ Hinv), Hnext, <-Hcap. cbn [legal] in Hl. apply andb_true_iff in Hl as [(_ & _ & _ & Hc)%bool_decide_eq_true _].
  destruct (add_fits a r (mkEntry k v c d 1)) as [H|H]; [apply Hinv0| |done|done|by left|right; by rewrite H].
  eapply owner_none; [exact Hnone|]. by eapply list_elem_of_lookup_2.
Qed.

(** C10. In a session within the specification's terms (above all with keys of one to eight bytes: a
    longer key overwrites its handle, and deleters get other keys and values) and with a malloc
    that finds memory, every entry is disposed of once: when no client refers to an entry any more
    and the cache is deleted, the destructor's assertions hold, and the deleters were called,
    during the session and by the destructor together, exactly once for every key and value that
    was inserted, whether it was replaced, erased, evicted, pruned, or never cached at all. *)
Theorem lru_deletes_once malloc junk capacity tr s x :
  (∀ n X, malloc n X ≠ 0 ∧ malloc n X ∉ X) → session malloc junk capacity tr s →
  replay tr (new_sys capacity) = Some x → idle x = true →
  ∃ s', delete_cache kNumShards s = Ok (tt, s') ∧ calls s' ≡ₚ inserted tr.
Proof.
  intros Hm Hs Hx Hid. destruct (session_at _ _ Hm _ _ _ Hs) as (x0 & Hx0 & Hat). assert (x0 = x) as -> by congruence.
  destruct (delete_cache_ok s x Hat Hid) as (s' & Hrun & Hc). exists s'. split; [done|].
  rewrite Hc, (replay_held _ _ _ Hx), new_sys_held. by rewrite app_nil_r.
Qed.
(** A key of sixteen bytes or more overwrites the members that follow [key_data] in its
    handle.  Its length is then what bytes 9 to 16 of the key spell; unless that happens to be the
    length, the entry just inserted into a new cache is not found, and with 32 bytes or more the
    value the handle gives is made of the key's bytes 25 to 32 instead of the one inserted. *)
Theorem lru_long_key_lost malloc junk capacity k v c d :
  (∀ n X, malloc n X ≠ 0 ∧ malloc n X ∉ X) → 0 < per_shard capacity → (16 ≤ length k)%nat →
  le_dec (rd k 8 8) ≠ Z.of_nat (length k) →
  ∃ s h s', NewLRUCache junk capacity start = Ok (tt, s) ∧ exec malloc junk (OInsert k v c d) s = Ok (h, s') ∧ h ≠ 0 ∧
    exec malloc junk (OLookup k) s' = Ok (0, s') ∧
    ((32 ≤ length k)%nat → exec malloc junk (OValue h) s' = Ok (le_dec (rd k 24 8), s')).
Proof.
  intros Hm Hcap Hk Hlen. set (i := Shard (HashSlice k)). pose proof (Shard_lt k) as Hi. fold i in Hi.
  set (s := init junk (per_shard capacity)). exists s.
  set (C := init_shard (per_shard capacity) i). destruct (init_heads junk i Hi) as [Hl Hu].
  assert (s = cfg s i (heap s) C []) as Es.
  { unfold cfg. rewrite list_insert_id; [done|]. unfold s. cbn [shard_ init]. rewrite list_lookup_fmap, lookup_seq_lt by done. done. }
  assert (i < length (shard_ s))%nat as Hi' by (unfold s; cbn [shard_ init]; by rewrite length_fmap, length_seq).
  destruct (Hm (79 + Z.of_nat (length k)) (dom (heap s))) as [Hh0 Hno].
  destruct (insert_first s i Hi' malloc junk (heap s) C [] k v c d (empty_head junk (lru_addr i)))
    as (hp' & C' & n' & sl & Hrun & HT & Hn' & Hnx & Hnh & Htl); try done.
  { lia. }
  { unfold C. cbn [lru_ in_use_ init_shard]. unfold lru_addr, in_use_addr. lia. }
  { unfold C. cbn [in_use_ init_shard]. split; [unfold nxt|unfold prv]; unfold s; cbn [heap init]; by rewrite Hu. }
  rewrite <-Es in Hrun. set (h := malloc _ _) in *.
  destruct (long_tail (replicate (31 + length k) junk) k v) as (T1 & T2 & T3); [apply length_replicate|done|].
  exists h, (cfg s i hp' C' []). split_and!; [apply new_cache_run|exact Hrun|done| |].
  - apply (lookup_lone s i Hi' hp' C' [] h n' k sl); try done.
    + unfold key_length. by rewrite Htl, T2.
    + rewrite Htl, T1. lia.
  - intros Hk'. cbn [exec]. unfold cache_Value. mstep (handle_run s i hp' C' [] h n' Hn'). unfold value. by rewrite Htl, T3.
Qed.

(** ** Witnesses *)

(** An allocator: the address after the highest block. *)
Definition bump (n : Z) (X : gset Z) : Z := 1 + foldr Z.max 0 (elements X).

Lemma bump_ok n X : bump n X ≠ 0 ∧ bump n X ∉ X.
Proof.
  unfold bump. assert (∀ l, 0 ≤ foldr Z.max 0 l ∧ ∀ x, x ∈ l → x ≤ foldr Z.max 0 l) as H.
  { induction l as [|y l [IH0 IH]]; [split; [done|set_solver]|]. simpl. split; [lia|]. intros x [->|Hx]%elem_of_cons; [lia|].
    specialize (IH x Hx). lia. }
  destruct (H (elements X)) as [H0 Hx]. split; [lia|]. intros Hin%elem_of_elements%Hx. lia.
Qed.

(** A client that makes the calls of a list as long as they are legal. *)
Fixpoint drive (capacity : Z) (os : list op) (tr : list (op * Z)) (s : st) : option (list (op * Z) * st) :=
  match os with
  | [] => Some (tr, s)
  | o :: os =>
      x ← replay tr (new_sys capacity);
      if legal o x then
        match exec bump 7 o s with Ok (r, s') => drive capacity os (tr ++ [(o, r)]) s' | Err _ => None end
      else None
  end.

Lemma drive_session capacity os tr s tr' s' : session bump 7 capacity tr s → drive capacity os tr s = Some (tr', s') →
  session bump 7 capacity tr' s'.
Proof.
  revert tr s. induction os as [|o os IH]; intros tr s Hs; cbn [drive]; [by intros [= <- <-]|].
  destruct (replay tr (new_sys capacity)) as [x|] eqn:Ex; [|done]. cbn [mbind option_bind]. destruct (legal o x) eqn:El; [|done].
  destruct (exec bump 7 o s) as [[r s1]|] eqn:Er; [|done]. apply IH. by eapply session_call.
Qed.

(** Four entries, one of them replaced and one looked up while it is in use; the blocks are 33 to 36. *)
Definition demo_ops : list op :=
  [OInsert [1; 2] 55 1 9; OInsert [1; 3] 56 1 9; OLookup [1; 2]; ORelease 33; OInsert [1; 2] 57 1 9; ORelease 33; OValue 35;
   ORelease 34; OInsert [7] 58 3 9; OTotalCharge; ORelease 36; OErase [7]; ONewId; OPrune; ORelease 35].

Definition demo : list (op * Z) * st :=
  default ([], start) (match NewLRUCache 7 16 start with Ok (_, s) => drive 16 demo_ops [] s | Err _ => None end).
Definition demo_spec : sys := default (new_sys 16) (replay demo.1 (new_sys 16)).

Lemma demo_session : session bump 7 16 demo.1 demo.2.
Proof.
  apply (drive_session 16 demo_ops [] (init 7 (per_shard 16))); [|by vm_compute].
  apply session_new, new_cache_run.
Qed.

Lemma demo_replay : replay demo.1 (new_sys 16) = Some demo_spec.
Proof. by vm_compute. Qed.

#[local] Opaque demo demo_spec.

Lemma lru_session_refines_witness :
  ∃ x, replay demo.1 (new_sys 16) = Some x ∧ calls demo.2 = log x ∧
    ∀ o, legal o x = true → ∃ r s' x',
      exec bump 7 o demo.2 = Ok (r, s') ∧ spec_step o r x = Some x' ∧ calls s' = log x'.
Proof. exact (lru_session_refines bump 7 16 demo.1 demo.2 bump_ok demo_session). Defined.

Lemma lru_lists_typed_witness :
  ∃ C, shard_ demo.2 !! 3%nat = Some C ∧ ∃ lr us m,
    two_rings (heap demo.2) (lru_ C) lr (in_use_ C) us ∧ table_at (heap demo.2) (table_ C) m ∧
    (∀ h, h ∈ lr → ∃ n, heap demo.2 !! h = Some n ∧ in_cache n = true ∧ refs n = 1) ∧
    (∀ h, h ∈ us → ∃ n, heap demo.2 !! h = Some n ∧ in_cache n = true ∧ 2 ≤ refs n) ∧
    (∀ h, h ∈ lr ∨ h ∈ us ↔ ∃ k, m !! k = Some h).
Proof.
  destruct (shard_ demo.2 !! 3%nat) as [C|] eqn:E; [|exfalso; revert E; vm_compute; discriminate].
  exists C. split; [done|]. exact (lru_lists_typed bump 7 16 demo.1 demo.2 3 C bump_ok demo_session E).
Defined.

Lemma lru_bounded_witness :
  ∃ r s', exec bump 7 (OInsert [8; 8] 5 1 9) demo.2 = Ok (r, s') ∧
    ∃ C n, shard_ s' !! Shard (HashSlice [8; 8]) = Some C ∧ heap s' !! lru_ C = Some n ∧
      (usage_ C ≤ per_shard 16 ∨ next n = lru_ C).
Proof.
  destruct (exec bump 7 (OInsert [8; 8] 5 1 9) demo.2) as [[r s']|] eqn:E; [|exfalso; revert E; vm_compute; discriminate].
  exists r, s'. split; [done|].
  apply (lru_bounded bump 7 16 demo.1 demo.2 demo_spec [8; 8] 5 1 9 r s' bump_ok demo_session demo_replay); [|exact E].
  by vm_compute.
Defined.

Lemma lru_deletes_once_witness :
  ∃ s', delete_cache kNumShards demo.2 = Ok (tt, s') ∧ calls s' ≡ₚ inserted demo.1.
Proof.
  apply (lru_deletes_once bump 7 16 demo.1 demo.2 demo_spec bump_ok demo_session demo_replay). by vm_compute.
Defined.

Lemma lru_long_key_lost_witness :
  ∃ s h s', NewLRUCache 7 16 start = Ok (tt, s) ∧ exec bump 7 (OInsert (replicate 32 65) 55 1 9) s = Ok (h, s') ∧ h ≠ 0 ∧
    exec bump 7 (OLookup (replicate 32 65)) s' = Ok (0, s') ∧
    ((32 ≤ length (replicate 32 65))%nat → exec bump 7 (OValue h) s' = Ok (le_dec (rd (replicate 32 65) 24 8), s')).
Proof.
  apply (lru_long_key_lost bump 7 16 (replicate 32 65) 55 1 9 bump_ok); [by vm_compute|simpl; lia|by vm_compute].
Defined.
End LruProps.
