(* ===== verification/HeapBlocks.v ===== *)
(** The process heap as the components see it that ask it for raw memory (the arena, the skip
    lists, nginx's pool): the blocks in use, as addresses with sizes.  The allocator is a
    parameter; [MallocLaws] is what its documentation promises. *)

From S2P Require Import Prelude.
From stdpp Require Import options.

(** A range of addresses: its start and its size. *)
Definition apart (r q : Z * Z) : Prop := r.1 + r.2 ≤ q.1 ∨ q.1 + q.2 ≤ r.1.
Definition within (r q : Z * Z) : Prop := q.1 ≤ r.1 ∧ r.1 + r.2 ≤ q.1 + q.2.

(** Blocks in use, by address. *)
Abbreviation blocks := (gmap Z Z).

(** The address of a new block of the given size, given the blocks in use; 0 when there is none. *)
Class Malloc := new_block : Z → blocks → Z.

(** A block is aligned for every type, inside the address space, and apart from the others. *)
Class MallocLaws {malloc_fn : Malloc} : Prop := {
  new_block_apart n l b m : 0 ≤ n → new_block n l ≠ 0 → l !! b = Some m → apart (new_block n l, n) (b, m);
  new_block_fresh n l : 0 ≤ n → new_block n l ≠ 0 → l !! new_block n l = None;
  new_block_range n l : 0 ≤ n → new_block n l ≠ 0 → 0 < new_block n l ∧ new_block n l + n < 2 ^ 64;
  new_block_aligned n l : 0 ≤ n → new_block n l mod 16 = 0;
}.

Section blocks.
Context {malloc_fn : Malloc}.

(** [malloc] and [posix_memalign] (of alignment at most 16). *)
Definition malloc (n : Z) : M blocks Z := λ l,
  let a := new_block n l in if a =? 0 then Ok (0, l) else Ok (a, <[a := n]> l).

(** [operator new] throws when there is no memory. *)
Definition operator_new (n : Z) : M blocks Z :=
  a ← malloc n; if a =? 0 then fail FNoMem else mret a.

(** [free] and [delete]: the null pointer is ignored, anything but a block in use is an error. *)
Definition free (a : Z) : M blocks unit := λ l,
  if a =? 0 then Ok (tt, l) else
  match l !! a with Some _ => Ok (tt, delete a l) | None => Err FUndef end.

(** A computation on a part of the state. *)
Definition zoom {S T A} (get_ : S → T) (set_ : S → T → S) (m : M T A) : M S A := λ s,
  match m (get_ s) with Ok (a, t) => Ok (a, set_ s t) | Err e => Err e end.

(** [operator new] ends in one of two ways. *)
Lemma operator_new_ok n l :
  (operator_new n l = Ok (new_block n l, <[new_block n l := n]> l) ∧ new_block n l ≠ 0) ∨
  (operator_new n l = Err FNoMem ∧ new_block n l = 0).
Proof.
  unfold operator_new, malloc. munfold. destruct (Z.eqb_spec (new_block n l) 0) as [E|E].
  - right. by rewrite Z.eqb_refl.
  - left. by rewrite (proj2 (Z.eqb_neq _ _)).
Qed.

Lemma free_ok a l : is_Some (l !! a) → a ≠ 0 → free a l = Ok (tt, delete a l).
Proof. intros [n Hn] Ha. unfold free. zneq a 0. by rewrite Hn. Qed.

(** A block that was just allocated and is freed leaves the heap as it was. *)
Lemma free_new a n l : a ≠ 0 → l !! a = None → free a (<[a := n]> l) = Ok (tt, l).
Proof. intros Ha Hl. rewrite free_ok by (rewrite ?lookup_insert_eq; eauto). by rewrite delete_insert_id. Qed.

Lemma zoom_ok {S T A} (g : S → T) p (m : M T A) s a t : m (g s) = Ok (a, t) → zoom g p m s = Ok (a, p s t).
Proof. intros E. unfold zoom. by rewrite E. Qed.

Lemma zoom_err {S T A} (g : S → T) p (m : M T A) s e : m (g s) = Err e → zoom g p m s = Err e.
Proof. intros E. unfold zoom. by rewrite E. Qed.

(** A computation that gives what it should, unless the heap is out of memory. *)
Definition ends {A} (r : result A) (P : A → Prop) : Prop :=
  (∃ a, r = Ok a ∧ P a) ∨ (r = Err FNoMem ∧ ∃ n l, new_block n l = 0).

Lemma ends_ok {A} (a : A) (P : A → Prop) : P a → ends (Ok a) P.
Proof. left. eauto. Qed.

Lemma ends_weaken {A} (r : result A) (P Q : A → Prop) : ends r P → (∀ a, P a → Q a) → ends r Q.
Proof. intros [(a & -> & Ha)|?] Hw; [left; eauto|by right]. Qed.

Lemma ends_bind {S A B} (m : M S A) (f : A → M S B) s P Q :
  ends (m s) P → (∀ a s', P (a, s') → ends (f a s') Q) → ends ((m ≫= f) s) Q.
Proof.
  intros [([a s'] & E & Ha)|[E ?]] Hf; unfold mbind, M_bind; rewrite E; [by apply Hf|by right].
Qed.

(** A computation that stops with a fault, unless the heap is out of memory first. *)
Definition fails {A} (e : fault) (r : result A) : Prop := r = Err e ∨ (r = Err FNoMem ∧ ∃ n l, new_block n l = 0).

Lemma fails_bind {S A B} e (m : M S A) (f : A → M S B) s P :
  ends (m s) P → (∀ a s', P (a, s') → fails e (f a s')) → fails e ((m ≫= f) s).
Proof.
  intros [([a s'] & E & Ha)|[E ?]] Hf; unfold mbind, M_bind; rewrite E; [by apply Hf|by right].
Qed.

Lemma zoom_ends {S T A} (g : S → T) p (m : M T A) s (P : A * T → Prop) :
  ends (m (g s)) P → ends (zoom g p m s) (λ r, ∃ t, r.2 = p s t ∧ P (r.1, t)).
Proof. unfold zoom. intros [([a t] & -> & Ha)|[-> ?]]; [left; eexists; split; [done|]; eauto|by right]. Qed.

Lemma operator_new_ends n l :
  ends (operator_new n l) (λ r, r = (new_block n l, <[new_block n l := n]> l) ∧ new_block n l ≠ 0).
Proof. destruct (operator_new_ok n l) as [[-> ?]|[-> ?]]; [left|right]; eauto. Qed.

(** No block in use overlaps another. *)
Definition blocks_apart (l : blocks) : Prop :=
  ∀ a n b m, l !! a = Some n → l !! b = Some m → a ≠ b → apart (a, n) (b, m).

Lemma ranges_apart_sym r q : apart r q → apart q r.
Proof. unfold apart. lia. Qed.

Lemma within_apart r q b c : within r b → within q c → apart b c → apart r q.
Proof. unfold within, apart. lia. Qed.

Lemma blocks_apart_new `{!MallocLaws} n l :
  0 ≤ n → new_block n l ≠ 0 → blocks_apart l → blocks_apart (<[new_block n l := n]> l).
Proof.
  intros Hn Hz Hl a m b k Ha Hb Hne.
  destruct (decide (a = new_block n l)) as [->|Ea]; destruct (decide (b = new_block n l)) as [->|Eb]; [done| | |].
  - rewrite lookup_insert_eq in Ha. rewrite lookup_insert_ne in Hb by done. simplify_eq. by apply new_block_apart.
  - rewrite lookup_insert_eq in Hb. rewrite lookup_insert_ne in Ha by done. simplify_eq.
    by apply ranges_apart_sym, new_block_apart.
  - rewrite lookup_insert_ne in Ha, Hb by done. by eapply Hl.
Qed.

Lemma blocks_apart_delete a l : blocks_apart l → blocks_apart (delete a l).
Proof. intros Hl b n c m [_ Hb]%lookup_delete_Some [_ Hc]%lookup_delete_Some. by apply Hl. Qed.
End blocks.

#[export] Hint Resolve ranges_apart_sym blocks_apart_delete : csem.

(** ** An allocator that runs *)

(** The first address behind all blocks. *)
Definition top (l : blocks) : Z := map_fold (λ a n t, Z.max t (a + Z.max n 0 + 1)) 16 l.
Definition bump_block : Malloc := λ n l,
  let a := 16 * ((top l + 15) / 16) in if a + n <? 2 ^ 64 then a else 0.

Lemma top_above l : 16 ≤ top l ∧ ∀ a n, l !! a = Some n → a + Z.max n 0 < top l.
Proof.
  unfold top. apply (map_fold_weak_ind (λ t m, 16 ≤ t ∧ ∀ a n, m !! a = Some n → a + Z.max n 0 < t)).
  - split; [lia|]. intros a n. by rewrite lookup_empty.
  - intros b k m t Hb [H1 H2]. split; [lia|]. intros a n [[-> ->]|[? Ha]]%lookup_insert_Some; [lia|].
    specialize (H2 _ _ Ha). lia.
Qed.

#[export] Instance bump_block_laws : @MallocLaws bump_block.
Proof.
  assert (∀ n l, new_block (Malloc := bump_block) n l ≠ 0 →
    top l ≤ new_block (Malloc := bump_block) n l ∧ new_block (Malloc := bump_block) n l + n < 2 ^ 64) as Hb.
  { intros n l. unfold new_block, bump_block. zbool; intros ?; [|done]. split; [|done].
    pose proof (Z.div_mod (top l + 15) 16 ltac:(lia)). pose proof (Z.mod_pos_bound (top l + 15) 16 ltac:(lia)). lia. }
  constructor.
  - intros n l b m Hn H0 Hl. destruct (Hb n l H0). destruct (top_above l) as [_ Ht]. specialize (Ht _ _ Hl).
    unfold apart. simpl. lia.
  - intros n l Hn H0. destruct (Hb n l H0). destruct (l !! _) eqn:E; [|done]. exfalso.
    destruct (top_above l) as [_ Ht]. specialize (Ht _ _ E).
    lia.
  - intros n l Hn H0. destruct (Hb n l H0). destruct (top_above l). lia.
  - intros n l _. unfold new_block, bump_block. zbool; [|done]. rewrite Z.mul_comm. apply Z_mod_mult.
Qed.
