(* ===== verification/Arena.v ===== *)
(** The arena allocator of [ComponentsW/common/arena.cpp]: small requests are cut from blocks of
    4096 bytes, large ones get a block of their own, and all blocks are released together. *)

From S2P Require Import Prelude HeapBlocks.
From stdpp Require Import options.

Module Arena.

(** [mem] is the process heap. *)
Record st := mkSt {
  mem : blocks; alloc_ptr_ : Z; alloc_bytes_remaining_ : Z; memory_usage_ : Z; blocks_ : list Z;
}.

Definition set_mem (s : st) m :=
  mkSt m (alloc_ptr_ s) (alloc_bytes_remaining_ s) (memory_usage_ s) (blocks_ s).
Definition set_alloc (s : st) p n := mkSt (mem s) p n (memory_usage_ s) (blocks_ s).
Definition add_block (s : st) b bytes :=
  mkSt (mem s) (alloc_ptr_ s) (alloc_bytes_remaining_ s) (u64 (memory_usage_ s + bytes + 8)) (blocks_ s ++ [b]).

Abbreviation MS := (M st).

Definition kBlockSize := 4096.

Definition new_arena (m : blocks) : st := mkSt m 0 0 0 [].

Section arena.
Context {malloc_fn : Malloc}.

Definition AllocateNewBlock (bytes : Z) : MS Z :=
  result ← zoom mem set_mem (operator_new bytes);
  modify (λ s, add_block s result bytes);;
  mret result.

(** [bytes] cut from the current block. *)
Definition advance (bytes : Z) : MS unit :=
  modify (λ s, set_alloc s (u64 (alloc_ptr_ s + bytes)) (u64 (alloc_bytes_remaining_ s - bytes))).

Definition AllocateFallback (bytes : Z) : MS Z :=
  if kBlockSize / 4 <? bytes then AllocateNewBlock bytes else
  b ← AllocateNewBlock kBlockSize;
  modify (λ s, set_alloc s b kBlockSize);;
  s ← get;
  advance bytes;;
  mret (alloc_ptr_ s).

Definition Allocate (bytes : Z) : MS Z :=
  lift (assert_ (0 <? bytes));;
  s ← get;
  if bytes <=? alloc_bytes_remaining_ s then advance bytes;; mret (alloc_ptr_ s)
  else AllocateFallback bytes.

Definition AllocateAligned (bytes : Z) : MS Z :=
  let align := 8 in
  lift (assert_ (Z.land align (align - 1) =? 0));;
  s ← get;
  let current_mod := Z.land (alloc_ptr_ s) (align - 1) in
  let slop := if current_mod =? 0 then 0 else align - current_mod in
  let needed := u64 (bytes + slop) in
  result ← (if needed <=? alloc_bytes_remaining_ s then advance needed;; mret (u64 (alloc_ptr_ s + slop))
            else AllocateFallback bytes);
  lift (assert_ (Z.land result (align - 1) =? 0));;
  mret result.

Definition MemoryUsage : MS Z := s ← get; mret (memory_usage_ s).

Fixpoint delete_blocks (l : list Z) : MS unit :=
  match l with
  | [] => mret tt
  | b :: l => zoom mem set_mem (free b);; delete_blocks l
  end.

(** [~Arena]. *)
Definition delete_arena : MS unit := s ← get; delete_blocks (blocks_ s).

(** A client: requests, each for aligned memory or not. *)
Fixpoint requests (l : list (bool * Z)) : MS (list Z) :=
  match l with
  | [] => mret []
  | (aligned, n) :: l =>
      a ← (if aligned then AllocateAligned n else Allocate n); r ← requests l; mret (a :: r)
  end.
End arena.

(** ** The invariant *)

(** The bytes of the arena's blocks, and a pointer for each. *)
Fixpoint usage (m : blocks) (l : list Z) : Z :=
  match l with [] => 0 | b :: l => default 0 (m !! b) + 8 + usage m l end.

(** A range inside one of the arena's blocks. *)
Definition in_block (s : st) (r : Z * Z) : Prop :=
  ∃ b n, b ∈ blocks_ s ∧ mem s !! b = Some n ∧ within r (b, n).

(** [used]: the ranges handed out. *)
Record arena_inv (used : list (Z * Z)) (s : st) : Prop := {
  ai_heap : blocks_apart (mem s);
  ai_blocks b : b ∈ blocks_ s → ∃ n, mem s !! b = Some n ∧ 0 < b ∧ 0 < n ∧ b + n < 2 ^ 64 ∧ b mod 16 = 0;
  ai_nodup : NoDup (blocks_ s);
  ai_used : Forall (in_block s) used;
  ai_pos : Forall (λ r, 0 < r.2) used;
  ai_apart : ForallOrdPairs apart used;
  ai_rest : 0 ≤ alloc_bytes_remaining_ s;
  ai_free : 0 < alloc_bytes_remaining_ s →
    in_block s (alloc_ptr_ s, alloc_bytes_remaining_ s) ∧ Forall (apart (alloc_ptr_ s, alloc_bytes_remaining_ s)) used;
  ai_usage : memory_usage_ s = u64 (usage (mem s) (blocks_ s));
}.

Section frame.
Implicit Types (s : st) (used : list (Z * Z)).

Lemma new_arena_inv m : blocks_apart m → arena_inv [] (new_arena m).
Proof. intros Hm. split; simpl; try done; try lia; try set_solver; constructor. Qed.

Lemma usage_frame m m' l : (∀ b, b ∈ l → m' !! b = m !! b) → usage m' l = usage m l.
Proof. induction l as [|b l IH]; intros Hf; simpl; [done|]. rewrite Hf by set_solver. rewrite IH by set_solver. done. Qed.

Lemma usage_snoc m l b : usage m (l ++ [b]) = usage m l + default 0 (m !! b) + 8.
Proof. induction l as [|c l IH]; simpl; lia. Qed.

Lemma in_block_bounds used s r : arena_inv used s → in_block s r → 0 ≤ r.2 → 0 < r.1 ∧ r.1 + r.2 < 2 ^ 64.
Proof.
  intros Hi (b & n & Hb & Hn & [? ?]) ?. destruct (ai_blocks _ _ Hi b Hb) as (n' & ? & ? & ? & ? & _).
  simplify_eq/=. lia.
Qed.

(** The blocks in use change, but not those of the arena. *)
Lemma arena_inv_frame used s m :
  arena_inv used s → blocks_apart m → (∀ b, b ∈ blocks_ s → m !! b = mem s !! b) → arena_inv used (set_mem s m).
Proof.
  intros Hi Hm Hf.
  assert (∀ r, in_block s r → in_block (set_mem s m) r) as Hin.
  { intros r (b & n & Hb & Hn & Hw). exists b, n. simpl. rewrite Hf by done. done. }
  split; simpl; try apply Hi; try done.
  - intros b Hb. rewrite Hf by done. by apply Hi.
  - eapply Forall_impl; [apply Hi|done].
  - intros Hr. destruct (ai_free _ _ Hi Hr). auto.
  - rewrite (ai_usage _ _ Hi). f_equal. symmetry. by apply usage_frame.
Qed.

Lemma arena_inv_free used s a : arena_inv used s → a ∉ blocks_ s → arena_inv used (set_mem s (delete a (mem s))).
Proof.
  intros Hi Ha. apply arena_inv_frame; [done|apply blocks_apart_delete, Hi|].
  intros b Hb. apply lookup_delete_ne. by intros ->.
Qed.
End frame.

Section facts.
Context {malloc_fn : Malloc} {Hlaws : MallocLaws}.
Implicit Types (s : st) (used : list (Z * Z)).
#[local] Set Default Proof Using "All".

Lemma arena_inv_new used s n :
  arena_inv used s → 0 ≤ n → new_block n (mem s) ≠ 0 → arena_inv used (set_mem s (<[new_block n (mem s) := n]> (mem s))).
Proof.
  intros Hi Hn Ha. apply arena_inv_frame; [done|by apply blocks_apart_new; [..|apply Hi]|].
  intros b Hb. apply lookup_insert_ne. intros <-. destruct (ai_blocks _ _ Hi _ Hb) as (? & E & _).
  by rewrite new_block_fresh in E.
Qed.

(** What a request that gives [r] does. *)
Definition gave used s (r : Z * Z) (s' : st) : Prop :=
  arena_inv (r :: used) s' ∧ (∀ b n, mem s !! b = Some n → mem s' !! b = Some n) ∧
  blocks_ s `prefix_of` blocks_ s' ∧
  (∀ b, b ∉ blocks_ s' → mem s' !! b = mem s !! b) ∧ (∀ b, b ∈ blocks_ s' → b ∈ blocks_ s ∨ mem s !! b = None).

Lemma AllocateNewBlock_spec used s n :
  arena_inv used s → 0 < n →
  (∃ b, AllocateNewBlock n s = Ok (b, add_block (set_mem s (<[b := n]> (mem s))) b n) ∧ b = new_block n (mem s) ∧ b ≠ 0) ∨
  (AllocateNewBlock n s = Err FNoMem ∧ new_block n (mem s) = 0).
Proof.
  intros Hi Hn. unfold AllocateNewBlock. destruct (operator_new_ok n (mem s)) as [[E H0]|[E H0]].
  - left. exists (new_block n (mem s)). split; [|done]. mstep (zoom_ok _ set_mem _ _ _ _ E). done.
  - right. split; [|done]. unfold mbind, M_bind. by rewrite (zoom_err _ _ _ _ _ E).
Qed.

(** The arena with a block of [n] bytes more. *)
Lemma add_block_inv used s s' n b :
  b = new_block n (mem s) → arena_inv used s → 0 < n → b ≠ 0 →
  s' = add_block (set_mem s (<[b := n]> (mem s))) b n →
  arena_inv used s' ∧ (∀ r, within r (b, n) → in_block s' r ∧ Forall (apart r) used) ∧
  (∀ c m, mem s !! c = Some m → mem s' !! c = Some m) ∧ blocks_ s `prefix_of` blocks_ s' ∧
  (∀ c, c ∉ blocks_ s' → mem s' !! c = mem s !! c) ∧ (∀ c, c ∈ blocks_ s' → c ∈ blocks_ s ∨ mem s !! c = None).
Proof.
  intros Eb Hi Hn H0 ->. rewrite Eb in H0.
  pose proof (new_block_fresh n (mem s) ltac:(lia) H0) as Hf.
  pose proof (new_block_range n (mem s) ltac:(lia) H0) as [Hb1 Hb2].
  pose proof (new_block_aligned n (mem s) ltac:(lia)) as Hb3.
  pose proof (arena_inv_new _ _ n Hi ltac:(lia) H0) as Hi'.
  pose proof (λ c m, new_block_apart n (mem s) c m ltac:(lia) H0) as Hap.
  rewrite <-Eb in *.
  assert (b ∉ blocks_ s) as Hb. { intros ?. destruct (ai_blocks _ _ Hi b) as (? & E & _); [done|]. by rewrite Hf in E. }
  assert (∀ r, in_block (set_mem s (<[b := n]> (mem s))) r →
    in_block (add_block (set_mem s (<[b := n]> (mem s))) b n) r) as Hin.
  { intros r (c & m & Hc & Hm & Hw). exists c, m. simpl in *. split; [set_solver|done]. }
  split_and!.
  - split; simpl; try apply Hi'.
    + intros c [Hc|Hc]%elem_of_app; [by apply Hi'|]. apply list_elem_of_singleton in Hc as ->.
      exists n. rewrite lookup_insert_eq. split_and!; try done; lia.
    + apply NoDup_app. split_and!; [apply Hi|set_solver|apply NoDup_singleton].
    + eapply Forall_impl; [apply Hi'|done].
    + intros Hr. destruct (ai_free _ _ Hi' Hr). auto.
    + pose proof (ai_usage _ _ Hi') as Hu. simpl in Hu. rewrite Hu, usage_snoc, lookup_insert_eq. simpl. unfold u64, wrapu.
      rewrite <-Z.add_assoc, Zplus_mod_idemp_l. f_equal. lia.
  - intros r Hr. split.
    + exists b, n. simpl. rewrite lookup_insert_eq. split_and!; [set_solver|done|done].
    + eapply Forall_impl; [apply (ai_used _ _ Hi)|]. intros q (c & m & Hc & Hm & Hw).
      eapply within_apart; [exact Hr|exact Hw|]. by apply Hap.
  - intros c m Hc. simpl. rewrite lookup_insert_ne; [done|]. intros <-. by rewrite Hf in Hc.
  - simpl. by apply prefix_app_r.
  - intros c Hc. simpl. apply lookup_insert_ne. intros <-. apply Hc. simpl. set_solver.
  - intros c [?|Hc]%elem_of_app; [by left|]. apply list_elem_of_singleton in Hc as ->. by right.
Qed.

(** [n] bytes cut from the free range, [k] behind its start. *)
Lemma cut_gave used s k n :
  arena_inv used s → 0 ≤ k → 0 < n → k + n ≤ alloc_bytes_remaining_ s →
  gave used s (alloc_ptr_ s + k, n)
    (set_alloc s (u64 (alloc_ptr_ s + (k + n))) (u64 (alloc_bytes_remaining_ s - (k + n)))).
Proof.
  intros Hi Hk Hn Hr. destruct (ai_free _ _ Hi ltac:(lia)) as [Hb Hf].
  destruct (in_block_bounds _ _ _ Hi Hb) as [? ?]; [simpl; lia|]. simpl in *.
  rewrite !wrapu_small by lia.
  assert (∀ r, within r (alloc_ptr_ s, alloc_bytes_remaining_ s) → in_block s r) as Hw.
  { intros r [? ?]. destruct Hb as (b & m & ? & ? & [? ?]). exists b, m. simpl in *. split_and!; [done|done|].
    split; simpl; lia. }
  split_and!; simpl; [|done|done|done|by left]. split; simpl; try apply Hi; try lia.
  - constructor; [|apply Hi]. apply Hw. split; simpl; lia.
  - constructor; [simpl; lia|apply Hi].
  - constructor; [|apply Hi]. eapply Forall_impl; [exact Hf|]. intros r. unfold apart. simpl. lia.
  - intros ?. split; [apply Hw; split; simpl; lia|]. constructor; [unfold apart; simpl; lia|].
    eapply Forall_impl; [exact Hf|]. intros r. unfold apart. simpl. lia.
Qed.

(** How a request ends: with memory, or because the process has none. *)
Definition answered used s (n : Z) (r : result (Z * st)) : Prop :=
  (∃ a s', r = Ok (a, s') ∧ gave used s (a, n) s') ∨ (r = Err FNoMem ∧ ∃ k m, new_block k m = 0).

Lemma AllocateFallback_spec used s n :
  arena_inv used s → 0 < n →
  (∃ a s', AllocateFallback n s = Ok (a, s') ∧ gave used s (a, n) s' ∧ a mod 16 = 0) ∨
  (AllocateFallback n s = Err FNoMem ∧ ∃ k m, new_block k m = 0).
Proof.
  intros Hi Hn. unfold AllocateFallback. change (kBlockSize / 4) with 1024. zbool.
  - destruct (AllocateNewBlock_spec used s n Hi Hn) as [(b & E & Eb & H0)|[E H0]]; [|right; eauto].
    destruct (add_block_inv used s _ n b Eb Hi Hn H0 eq_refl) as (Hi' & Hw & H1 & H2 & H3 & H4).
    left. eexists _, _. split; [exact E|]. split; [|rewrite Eb; apply new_block_aligned; lia].
    destruct (Hw (b, n)) as [Hb Ha]; [split; simpl; lia|]. split_and!; [|done..].
    split; try apply Hi'.
    + constructor; [done|apply Hi'].
    + constructor; [simpl; lia|apply Hi'].
    + constructor; [done|apply Hi'].
    + intros Hr. destruct (ai_free _ _ Hi' Hr) as [? Hf]. split; [done|]. constructor; [|done].
      destruct (ai_free _ _ Hi Hr) as [(c & m & Hc & Hm & Hcw) _].
      apply (within_apart _ _ (c, m) (b, n)); [exact Hcw|split; simpl; lia|].
      apply ranges_apart_sym. subst b. apply new_block_apart; [lia|done|done].
  - destruct (AllocateNewBlock_spec used s kBlockSize Hi ltac:(done)) as [(b & E & Eb & H0)|[E H0]].
    2: { right. split; [|eauto]. unfold mbind, M_bind. by rewrite E. }
    destruct (add_block_inv used s _ kBlockSize b Eb Hi ltac:(done) H0 eq_refl) as (Hi' & Hw & H1 & H2 & H3 & H4).
    left. mstep E. rewrite bind_modify, bind_get. unfold advance. rewrite bind_modify.
    eexists _, _. split; [done|]. split; [|simpl; rewrite Eb; by apply new_block_aligned].
    set (s1 := add_block _ _ _) in *.
    assert (arena_inv used (set_alloc s1 b kBlockSize)) as Hi2.
    { split; simpl; try apply Hi'; [done|]. intros _. apply Hw. split; simpl; lia. }
    destruct (cut_gave used _ 0 n Hi2) as (H5 & _ & _ & _ & _); [lia|lia|simpl; unfold kBlockSize; lia|].
    cbn [alloc_ptr_ alloc_bytes_remaining_ set_alloc] in *. rewrite Z.add_0_r, Z.add_0_l in H5. done.
Qed.

Lemma Allocate_spec used s n : arena_inv used s → 0 < n → answered used s n (Allocate n s).
Proof.
  intros Hi Hn. unfold Allocate. rewrite (proj2 (Z.ltb_lt _ _)) by done.
  rewrite (bind_lift _ _ _ tt) by done. rewrite bind_get. destruct (Z.leb_spec n (alloc_bytes_remaining_ s)).
  - left. eexists _, _. split; [done|]. pose proof (cut_gave used s 0 n Hi ltac:(lia) Hn ltac:(lia)) as Hg.
    by rewrite Z.add_0_r, Z.add_0_l in Hg.
  - destruct (AllocateFallback_spec used s n Hi Hn) as [(a & s' & ? & ? & _)|?]; [left; eauto|by right].
Qed.

Lemma land_7 x : Z.land x 7 = x mod 8.
Proof. change 7 with (Z.ones 3). by rewrite Z.land_ones. Qed.

Lemma AllocateAligned_spec used s n :
  arena_inv used s → 0 < n < 2 ^ 63 → answered used s n (AllocateAligned n s) ∧
  ∀ a s', AllocateAligned n s = Ok (a, s') → a mod 8 = 0.
Proof.
  intros Hi Hn. unfold AllocateAligned. change (8 - 1) with 7. rewrite (bind_lift _ _ _ tt) by done.
  rewrite bind_get, land_7. pose proof (Z.mod_pos_bound (alloc_ptr_ s) 8 ltac:(lia)).
  set (slop := if _ =? 0 then 0 else _).
  assert (0 ≤ slop < 8 ∧ (alloc_ptr_ s + slop) mod 8 = 0) as [Hs Hal].
  { subst slop. zbool; [rewrite Z.add_0_r; lia|]. split; [lia|].
    rewrite Zplus_mod, (Z.mod_small (8 - _)) by lia. rewrite Zplus_minus. done. }
  rewrite (wrapu_small 64) by lia. destruct (Z.leb_spec (n + slop) (alloc_bytes_remaining_ s)).
  - pose proof (cut_gave used s slop n Hi ltac:(lia) ltac:(lia) ltac:(lia)) as Hg.
    destruct (ai_free _ _ Hi ltac:(lia)) as [Hb _]. destruct (in_block_bounds _ _ _ Hi Hb) as [? ?]; [simpl; lia|].
    simpl in *. rewrite (Z.add_comm slop n) in Hg. unfold advance. munfold. cbn.
    rewrite (wrapu_small 64 (alloc_ptr_ s + slop)) by lia. rewrite land_7, Hal. cbn. split.
    + left. eexists _, _. split; [done|]. exact Hg.
    + intros a s' [= <- _]. done.
  - destruct (AllocateFallback_spec used s n Hi ltac:(lia)) as [(a & s' & E & Hg & Ha)|[E Hf]].
    + mstep E. rewrite land_7. assert (a mod 8 = 0) as Ha8.
      { rewrite (Z.div_mod a 16), Ha by lia. replace (16 * (a / 16) + 0) with (2 * (a / 16) * 8) by lia. apply Z_mod_mult. }
      rewrite Ha8. cbn. split; [left; eauto|]. intros ? ? [= <- _]. done.
    + unfold mbind, M_bind. rewrite E. split; [right; eauto|done].
Qed.

(** The destructor releases the arena's blocks and nothing else. *)
Lemma delete_blocks_ok s l :
  NoDup l → (∀ b, b ∈ l → is_Some (mem s !! b) ∧ b ≠ 0) →
  delete_blocks l s = Ok (tt, set_mem s (filter (λ p, p.1 ∉ l) (mem s))).
Proof.
  revert s. induction l as [|b l IH]; intros s Hnd Hl.
  - simpl. munfold. repeat f_equal. destruct s; unfold set_mem; simpl. f_equal. symmetry.
    apply map_filter_id. set_solver.
  - apply NoDup_cons in Hnd as [Hb Hnd]. destruct (Hl b) as [Hm H0]; [set_solver|]. cbn [delete_blocks].
    mstep (zoom_ok mem set_mem _ s _ _ (free_ok b (mem s) Hm H0)). rewrite IH; [|done|].
    + repeat f_equal. unfold set_mem. simpl. f_equal. apply map_eq. intros c. apply option_eq. intros n.
      rewrite !map_lookup_filter_Some, lookup_delete_Some. simpl. set_solver.
    + intros c Hc. simpl. rewrite lookup_delete_ne by (by intros ->). apply Hl. set_solver.
Qed.
End facts.
End Arena.
