(* ===== verification/ArenaProps.v ===== *)
(** The arena: what it hands out is the client's alone, and its destructor gives everything back. *)

From S2P Require Import Prelude HeapBlocks Arena.
From stdpp Require Import options.

Import Arena.

Module ArenaProps.

Section pairs.
Context {A : Type} (R : A → A → Prop) {Hsym : Symmetric R}.

Lemma pairs_perm l l' : l ≡ₚ l' → ForallOrdPairs R l → ForallOrdPairs R l'.
Proof using Hsym.
  induction 1 as [|x l l' Hp IH|x y l|l1 l2 l3 ? IH1 ? IH2]; intros Hl; [done| | |auto].
  - inversion Hl; subst. constructor; [|auto]. by rewrite <-Hp.
  - inversion Hl as [|? ? Hx Hl']; subst. inversion Hl'; subst. inversion Hx; subst.
    repeat constructor; auto.
Qed.

Lemma pairs_lookup l i j x y : ForallOrdPairs R l → i ≠ j → l !! i = Some x → l !! j = Some y → R x y.
Proof using Hsym.
  intros Hl. revert i j. induction Hl as [|z l Hz Hl IH]; intros [|i] [|j] Hne Hi Hj; simplify_eq/=; eauto.
  - eapply Forall_lookup_1 in Hz; eauto.
  - symmetry. eapply Forall_lookup_1 in Hz; eauto.
Qed.
End pairs.

#[export] Instance apart_symmetric : Symmetric apart.
Proof. intros r q. apply ranges_apart_sym. Qed.

Section requests.
Context {malloc_fn : Malloc} {Hlaws : MallocLaws}.
#[local] Set Default Proof Using "All".

(** The ranges a client was given. *)
Definition given (l : list (bool * Z)) (addrs : list Z) : list (Z * Z) := zip addrs (l.*2).

(** The heap of another arena state: the blocks of the arena are new, the others are untouched. *)
Definition grew (m : blocks) (s : st) : Prop :=
  (∀ b, b ∉ blocks_ s → mem s !! b = m !! b) ∧ (∀ b, b ∈ blocks_ s → m !! b = None).

Lemma request_answered used s (al : bool) n :
  arena_inv used s → 0 < n < 2 ^ 63 →
  answered used s n ((if al then AllocateAligned n else Allocate n) s) ∧
  ∀ a s', (if al then AllocateAligned n else Allocate n) s = Ok (a, s') → al = true → a mod 8 = 0.
Proof.
  intros Hi Hn. destruct al; [|split; [by apply Allocate_spec; [..|lia]|done]].
  destruct (AllocateAligned_spec used s n Hi Hn) as [H1 H2]. split; [done|]. intros a s' E _. by eapply H2.
Qed.

Lemma requests_run m used s l :
  arena_inv used s → grew m s → Forall (λ q, 0 < q.2 < 2 ^ 63) l →
  (∃ addrs s', requests l s = Ok (addrs, s') ∧ length addrs = length l ∧
    arena_inv (reverse (given l addrs) ++ used) s' ∧ grew m s' ∧
    Forall2 (λ q a, q.1 = true → a mod 8 = 0) l addrs) ∨
  (requests l s = Err FNoMem ∧ ∃ k m, new_block k m = 0).
Proof.
  revert used s. induction l as [|[al n] l IH]; intros used s Hi Hg Hl.
  - left. exists [], s. split_and!; try done.
  - apply Forall_cons in Hl as [Hn Hl]. simpl in Hn. destruct (request_answered used s al n Hi Hn) as [[Hok|[E Hf]] Hal].
    2: { right. split; [|done]. simpl. unfold mbind, M_bind. by rewrite E. }
    destruct Hok as (a & s1 & E & Hi1 & _ & Hpre & Hsame & Hnew).
    assert (grew m s1) as Hg1.
    { destruct Hg as [Ho Hn']. split.
      - intros b Hb. rewrite Hsame by done. apply Ho. intros ?. apply Hb. by eapply elem_of_prefix.
      - intros b Hb. destruct (Hnew b Hb) as [?|Hf]; [by apply Hn'|]. destruct (decide (b ∈ blocks_ s)); [by apply Hn'|].
        by rewrite <-Ho. }
    cbn [requests]. mstep E.
    destruct (IH _ _ Hi1 Hg1 Hl) as [(addrs & s' & E' & Hlen & Hi' & Hg' & Hal')|[E' Hf]].
    + left. mstep E'. exists (a :: addrs), s'. split_and!; [done|by simpl; f_equal| |done|].
      * unfold given in *. simpl. rewrite reverse_cons, <-app_assoc. done.
      * constructor; [|done]. simpl. by apply (Hal _ _ E).
    + right. split; [|done]. unfold mbind, M_bind. by rewrite E'.
Qed.

(** The arena is deleted: the heap is what it was when it was made. *)
Lemma delete_arena_restores m used s : arena_inv used s → grew m s →
  ∃ s', delete_arena s = Ok (tt, s') ∧ mem s' = m.
Proof.
  intros Hi [Ho Hn]. eexists. split.
  - unfold delete_arena. rewrite bind_get. apply delete_blocks_ok; [apply Hi|].
    intros b Hb. destruct (ai_blocks _ _ Hi b Hb) as (n & -> & ? & _). split; [eauto|lia].
  - simpl. apply map_eq. intros b. apply option_eq. intros n. rewrite map_lookup_filter_Some. simpl. split.
    + intros [Hb Hnb]. by rewrite <-Ho.
    + intros Hb. assert (b ∉ blocks_ s) as Hnb by (intros H; by rewrite (Hn b H) in Hb). by rewrite Ho.
Qed.

(** C11. Whatever a client asks of an arena, in whatever order, the ranges it is given do not
    overlap each other, lie inside blocks the arena took from the heap (so they overlap nothing
    that was there before), and are aligned when that was asked for; [MemoryUsage] is the size
    of the blocks and of a pointer to each; and deleting the arena leaves the heap as it was.
    Nothing stops the arena but a heap that is out of memory. *)
Theorem arena_apart m l :
  blocks_apart m → Forall (λ q, 0 < q.2 < 2 ^ 63) l →
  (∃ addrs s, requests l (new_arena m) = Ok (addrs, s) ∧
    Forall2 (λ q a, q.1 = true → a mod 8 = 0) l addrs ∧
    (∀ i j r q, i ≠ j → given l addrs !! i = Some r → given l addrs !! j = Some q → apart r q) ∧
    (∀ r, r ∈ given l addrs → ∃ b n, m !! b = None ∧ mem s !! b = Some n ∧ within r (b, n)) ∧
    MemoryUsage s = Ok (u64 (usage (mem s) (blocks_ s)), s) ∧
    ∃ s', delete_arena s = Ok (tt, s') ∧ mem s' = m) ∨
  (requests l (new_arena m) = Err FNoMem ∧ ∃ k m', new_block k m' = 0).
Proof.
  intros Hm Hl. destruct (requests_run m [] (new_arena m) l) as [(addrs & s & E & Hlen & Hi & Hg & Hal)|?].
  - by apply new_arena_inv.
  - split; [done|]. set_solver.
  - done.
  - left. exists addrs, s. rewrite app_nil_r in Hi. split_and!; [done|done| | | |by eapply delete_arena_restores].
    + intros i j r q. apply pairs_lookup; [apply _|]. eapply (pairs_perm apart); [apply reverse_Permutation|apply Hi].
    + intros r Hr. pose proof (ai_used _ _ Hi) as Hu. rewrite Forall_forall in Hu.
      destruct (Hu r) as (b & n & Hb & Hn & Hw); [by rewrite elem_of_reverse|]. exists b, n. split_and!; [|done|done].
      by apply Hg.
    + unfold MemoryUsage. rewrite bind_get. rewrite (ai_usage _ _ Hi). done.
  - by right.
Qed.
End requests.

Lemma arena_apart_witness :
  let l := [(false, 3); (true, 40); (true, 2000); (false, 1000); (true, 4000); (true, 1024); (true, 1024); (true, 1024)] in
  ∃ addrs s, requests (malloc_fn := bump_block) l (new_arena {[ 64 := 100 ]}) = Ok (addrs, s) ∧
    addrs = [176; 184; 224; 2224; 4288; 3224; 8304; 9328] ∧
    (∀ i j r q, i ≠ j → given l addrs !! i = Some r → given l addrs !! j = Some q → apart r q).
Proof.
  intros l. destruct (arena_apart (malloc_fn := bump_block) {[ 64 := 100 ]} l) as [(addrs & s & E & _ & Ha & _)|[E _]].
  - intros a n b k [<- <-]%lookup_singleton_Some [<- <-]%lookup_singleton_Some. done.
  - unfold l. repeat (apply Forall_cons; split; [cbn [snd]; lia|]). constructor.
  - exists addrs, s. split_and!; [done| |done].
    assert (fst <$> requests (malloc_fn := bump_block) l (new_arena {[ 64 := 100 ]}) = Ok [176; 184; 224; 2224; 4288; 3224; 8304; 9328])
      as E2 by by vm_compute.
    rewrite E in E2. by injection E2.
  - exfalso. assert (match requests (malloc_fn := bump_block) l (new_arena {[ 64 := 100 ]}) with Ok _ => true | _ => false end = true)
      as E2 by by vm_compute. by rewrite E in E2.
Defined.
End ArenaProps.
