(* ===== verification/SkipLevels.v ===== *)
(** Skip lists as the chains of their levels, shared by the two versions of the source: [levels]
    says that following the links of level [l] from the head visits the nodes of more than [l]
    levels, in order; the loops that search such a list; and how links are changed. *)

From S2P Require Import Prelude Chains.
From stdpp Require Import options.

(** ** The loops *)

(** [while (p->next[l] != e && p->next[l]->key < k) p = p->next[l]]. *)
Fixpoint walk (fuel : nat) (nx key : Z → option Z) (e k p : Z) : result Z :=
  q ← deref (nx p);
  if q =? e then Ok p else
  kq ← deref (key q);
  if kq <? k then match fuel with O => Err FFuel | S fuel => walk fuel nx key e k q end
  else Ok p.

(** The body of [FindPre]: the node before [k] on each level below [n], and the highest level on
    which [k] was met, as [enc] counts it ([none] when there is none).  [H] is the number of levels. *)
Fixpoint find_pre (fuel : nat) (nx : nat → Z → option Z) (key : Z → option Z) (e h : Z) (H : nat)
    (none : Z) (enc : nat → Z) (k : Z) (n : nat) (pre : list Z) (level : Z) : result (list Z * Z) :=
  match n with
  | O => Ok (pre, level)
  | S l =>
      p ← (if (S l =? H)%nat then Ok h else deref (pre !! S l));
      p ← walk fuel (nx l) key e k p;
      q ← deref (nx l p);
      level ← (if q =? e then Ok level else
               kq ← deref (key q); Ok (if (kq =? k) && (level =? none) then enc l else level));
      find_pre fuel nx key e h H none enc k l (<[l := p]> pre) level
  end.

(** The loop [while (true)] of [FindLessThan], [FindGreaterOrEqual] and [FindLast]: forward while
    [go] says so, else down a level; [check] is the assertion on the current node. *)
Fixpoint descend (fuel : nat) (nx : nat → Z → option Z) (check : Z → result unit) (go : Z → result bool)
    (x : Z) (level : nat) (prev : option (list Z)) : result (Z * Z * option (list Z)) :=
  check x;;
  next ← deref (nx level x);
  b ← go next;
  if (b : bool) then
    match fuel with O => Err FFuel | S fuel => descend fuel nx check go next level prev end
  else
    let prev := insert level x <$> prev in
    match level with
    | O => Ok (x, next, prev)
    | S l => match fuel with O => Err FFuel | S fuel => descend fuel nx check go x l prev end
    end.

(** The loops over the levels of a node, highest first, that change links; [next] and [set_next]
    read and write the link of a node on a level. *)
Section links.
Context {T : Type} (next : Z → nat → M T Z) (set_next : Z → nat → Z → M T unit).

(** [newnode->next[l] = pre[l]->next[l]; pre[l]->next[l] = newnode]. *)
Fixpoint link (pre : list Z) (newnode : Z) (n : nat) : M T unit :=
  match n with
  | O => mret tt
  | S l =>
      p ← lift (deref (pre !! l));
      q ← next p l;
      set_next newnode l q;;
      set_next p l newnode;;
      link pre newnode l
  end.

(** [pre[l]->next[l] = pre[l]->next[l]->next[l]]. *)
Fixpoint unlink (pre : list Z) (n : nat) : M T unit :=
  match n with
  | O => mret tt
  | S l =>
      p ← lift (deref (pre !! l));
      q ← next p l;
      r ← next q l;
      set_next p l r;;
      unlink pre l
  end.
End links.

(** What these loops rely on: links that exist can be read and written, and writing one changes
    nothing else ([frame] relates states that differ in links only), in states where no two nodes
    share their links ([linked]). *)
Class LinkStore (T : Type) := {
  nxt : T → nat → Z → option Z;
  next : Z → nat → M T Z;
  set_next : Z → nat → Z → M T unit;
  linked : T → Prop;
  frame : T → T → Prop;
  #[global] frame_preorder :: PreOrder frame;
  frame_linked s s' : frame s s' → linked s → linked s';
  next_ok s p l q : nxt s l p = Some q → next p l s = Ok (q, s);
  set_next_ok s p l x : linked s → is_Some (nxt s l p) →
    ∃ s', set_next p l x s = Ok (tt, s') ∧ frame s s' ∧
      ∀ l' b, nxt s' l' b = if decide (l' = l ∧ b = p) then Some x else nxt s l' b;
}.

(** ** Nodes and levels *)

(** A node of the list: its address, its key and its number of levels. *)
Record ent := mkEnt { ea : Z; ek : Z; el : nat }.

Definition lvl (l : nat) (ns : list ent) : list Z := ea <$> filter (λ x, l < el x)%nat ns.

Definition levels (nx : nat → Z → option Z) (h e : Z) (H : nat) (ns : list ent) : Prop :=
  ∀ l, (l < H)%nat → seg (nx l) h (h :: lvl l ns) e.

(** The number of levels on which [k] appears. *)
Definition height (k : Z) (ns : list ent) : nat :=
  foldr (λ x t, if ek x =? k then Nat.max (el x) t else t) 0%nat ns.

Section lvl.
Implicit Types (ns : list ent).

Lemma lvl_app l ns1 ns2 : lvl l (ns1 ++ ns2) = lvl l ns1 ++ lvl l ns2.
Proof. unfold lvl. by rewrite filter_app, fmap_app. Qed.

Lemma lvl_cons_in l x ns : (l < el x)%nat → lvl l (x :: ns) = ea x :: lvl l ns.
Proof. intros. unfold lvl. by rewrite filter_cons_True. Qed.

Lemma lvl_cons_out l x ns : ¬ (l < el x)%nat → lvl l (x :: ns) = lvl l ns.
Proof. intros. unfold lvl. by rewrite filter_cons_False. Qed.

Lemma elem_of_lvl l ns a : a ∈ lvl l ns ↔ ∃ x, x ∈ ns ∧ ea x = a ∧ (l < el x)%nat.
Proof. unfold lvl. rewrite list_elem_of_fmap. setoid_rewrite list_elem_of_filter. naive_solver. Qed.

Lemma lvl_subset l l' ns a : (l' ≤ l)%nat → a ∈ lvl l ns → a ∈ lvl l' ns.
Proof. rewrite !elem_of_lvl. intros ? (x & ? & ? & ?). exists x. split_and!; [done|done|lia]. Qed.

Lemma length_lvl l ns : (length (lvl l ns) ≤ length ns)%nat.
Proof. unfold lvl. rewrite length_fmap. apply length_filter. Qed.

Lemma lvl_addr l ns a : a ∈ lvl l ns → a ∈ ea <$> ns.
Proof. rewrite elem_of_lvl, list_elem_of_fmap. naive_solver. Qed.

Lemma lvl_0 ns : (∀ x, x ∈ ns → (0 < el x)%nat) → lvl 0 ns = ea <$> ns.
Proof.
  induction ns as [|x ns IH]; intros Hn; [done|]. rewrite lvl_cons_in by (apply Hn; set_solver).
  simpl. f_equal. apply IH. set_solver.
Qed.

Lemma NoDup_lvl l ns : NoDup (ea <$> ns) → NoDup (lvl l ns).
Proof.
  unfold lvl. induction ns as [|x ns IH]; [done|]. intros [Hx Hnd]%NoDup_cons.
  rewrite filter_cons. case_decide; [|auto]. apply NoDup_cons. split; [|auto].
  intros (y & ? & [_ ?]%list_elem_of_filter)%list_elem_of_fmap. apply Hx. apply list_elem_of_fmap. eauto.
Qed.
End lvl.

(** ** Changing the links of all levels of a node *)

Section linking.
Context {T : Type} {LS : LinkStore T} (h e : Z) (H : nat) (ns1 ns2 : list ent) (x : ent).
Context (Hnd : NoDup (h :: (ea <$> ns1 ++ x :: ns2))) (Hx0 : ea x ≠ 0) (HxH : (el x ≤ H)%nat).
#[local] Set Default Proof Using "Type*".

(** The levels while a node is linked in or out: those below [n] are still to be done. *)
Definition halfway (nxf : nat → Z → option Z) (n : nat) (before after : list ent) : Prop :=
  ∀ l, (l < H)%nat → seg (nxf l) h (h :: lvl l (if (l <? n)%nat then before else after)) e.

Lemma links_nodup l : NoDup (h :: lvl l ns1 ++ lvl l (x :: ns2)) ∧ NoDup (h :: lvl l ns1 ++ lvl l ns2) ∧
  ea x ∉ h :: lvl l ns1 ++ lvl l ns2.
Proof.
  apply NoDup_cons in Hnd as [Hh Hn]. pose proof Hn as Hn'. rewrite fmap_app, fmap_cons in Hn', Hh.
  apply NoDup_app in Hn' as (Hn1 & Hd & [Hx Hn2]%NoDup_cons).
  assert (NoDup (ea <$> ns1 ++ ns2)) as Hn3.
  { rewrite fmap_app. apply NoDup_app. split_and!; [done|set_solver|done]. }
  split_and!.
  - rewrite <-lvl_app. apply NoDup_cons. split; [|by apply NoDup_lvl].
    intros ?%lvl_addr. rewrite fmap_app, fmap_cons in *. set_solver.
  - rewrite <-lvl_app. apply NoDup_cons. split; [|by apply NoDup_lvl].
    intros ?%lvl_addr. rewrite fmap_app in *. set_solver.
  - rewrite <-lvl_app. intros [E|Hin%lvl_addr]%elem_of_cons; [apply Hh; rewrite <-E; set_solver|].
    rewrite fmap_app in Hin. set_solver.
Qed.

Lemma link_in_cons l : link_of h (lvl l ns1) ∈ h :: lvl l ns1.
Proof. destruct (link_of_in h (lvl l ns1)) as [[-> _]|]; set_solver. Qed.

Lemma link_run pre n s : linked s →
  (n ≤ el x)%nat → (∀ l, (l < n)%nat → pre !! l = Some (link_of h (lvl l ns1))) →
  (∀ l, (l < n)%nat → is_Some (nxt s l (ea x))) →
  halfway (nxt s) n (ns1 ++ ns2) (ns1 ++ x :: ns2) →
  ∃ s', link next set_next pre (ea x) n s = Ok (tt, s') ∧ frame s s' ∧ levels (nxt s') h e H (ns1 ++ x :: ns2).
Proof.
  revert s. induction n as [|l IH]; intros s Hok Hn Hpre Hsome Hh.
  - exists s. split_and!; done.
  - cbn [link]. rewrite Hpre by lia. rewrite (bind_lift _ _ _ (link_of h (lvl l ns1))) by done.
    destruct (links_nodup l) as (_ & Hnd2 & Hnot). pose proof (link_in_cons l) as Hin.
    pose proof (Hh l ltac:(lia)) as Hs. rewrite (proj2 (Nat.ltb_lt l (S l))), lvl_app in Hs by lia.
    pose proof (seg_link _ _ _ _ _ Hs) as Hq. mstep (next_ok _ _ _ _ Hq).
    destruct (set_next_ok s (ea x) l (first e (lvl l ns2)) Hok ltac:(apply Hsome; lia)) as (s1 & E1 & Hf1 & Hn1).
    mstep E1.
    assert (link_of h (lvl l ns1) ≠ ea x) as Hne by (intros E; apply Hnot; rewrite <-E; set_solver).
    destruct (set_next_ok s1 (link_of h (lvl l ns1)) l (ea x) ltac:(by eapply frame_linked)) as (s2 & E2 & Hf2 & Hn2).
    { rewrite Hn1, decide_False by naive_solver. rewrite Hq. eauto. }
    mstep E2.
    assert (∀ l' b, nxt s2 l' b = if decide (l' = l ∧ b = link_of h (lvl l ns1)) then Some (ea x)
      else if decide (l' = l ∧ b = ea x) then Some (first e (lvl l ns2)) else nxt s l' b) as Hnx.
    { intros. by rewrite Hn2, Hn1. }
    destruct (IH s2) as (s' & E & Hfr & Hl).
    + by do 2 (eapply frame_linked; [done|]).
    + lia.
    + intros. apply Hpre. lia.
    + intros l' Hl'. rewrite Hnx, !decide_False by naive_solver lia. apply Hsome. lia.
    + intros l' Hl'. destruct (decide (l' = l)) as [->|Hll].
      * rewrite (proj2 (Nat.ltb_ge l l)) by lia. rewrite lvl_app, lvl_cons_in by lia.
        eapply seg_insert; [exact Hs|done|done|done| | |].
        -- rewrite Hnx. by rewrite decide_True.
        -- rewrite Hnx, decide_False, decide_True by naive_solver. done.
        -- intros b Hb1 Hb2. rewrite Hnx, !decide_False by naive_solver. done.
      * replace (l' <? l)%nat with (l' <? S l)%nat by (destruct (Nat.ltb_spec l' l), (Nat.ltb_spec l' (S l)); lia).
        eapply seg_frame; [apply Hh; lia|]. intros b Hb. rewrite Hnx, !decide_False by naive_solver. done.
    + exists s'. split_and!; [done| |done]. trans s1; [done|]. by trans s2.
Qed.

Lemma unlink_levels_run pre n s : linked s →
  (n ≤ el x)%nat → (∀ l, (l < n)%nat → pre !! l = Some (link_of h (lvl l ns1))) →
  halfway (nxt s) n (ns1 ++ x :: ns2) (ns1 ++ ns2) →
  ∃ s', unlink next set_next pre n s = Ok (tt, s') ∧ frame s s' ∧ levels (nxt s') h e H (ns1 ++ ns2).
Proof.
  revert s. induction n as [|l IH]; intros s Hok Hn Hpre Hh.
  - exists s. split_and!; done.
  - cbn [unlink]. rewrite Hpre by lia. rewrite (bind_lift _ _ _ (link_of h (lvl l ns1))) by done.
    destruct (links_nodup l) as (Hnd1 & _ & Hnot).
    pose proof (Hh l ltac:(lia)) as Hs. rewrite (proj2 (Nat.ltb_lt l (S l))), lvl_app in Hs by lia.
    rewrite lvl_cons_in in Hs, Hnd1 by lia.
    pose proof (seg_link _ _ _ _ _ Hs) as Hq. unfold first in Hq; simpl in Hq. mstep (next_ok _ _ _ _ Hq).
    pose proof (seg_link (nxt s l) h (lvl l ns1 ++ [ea x]) (lvl l ns2) e) as Hr. rewrite <-app_assoc in Hr.
    specialize (Hr Hs). unfold link_of in Hr at 1. rewrite last_snoc in Hr. simpl in Hr. mstep (next_ok _ _ _ _ Hr).
    destruct (set_next_ok s (link_of h (lvl l ns1)) l (first e (lvl l ns2)) Hok ltac:(eauto)) as (s1 & E1 & Hf1 & Hn1).
    mstep E1. destruct (IH s1) as (s' & E & Hfr & Hl).
    + by eapply frame_linked.
    + lia.
    + intros. apply Hpre. lia.
    + intros l' Hl'. destruct (decide (l' = l)) as [->|Hll].
      * rewrite (proj2 (Nat.ltb_ge l l)) by lia. rewrite lvl_app. eapply seg_remove; [exact Hs|done| |].
        -- rewrite Hn1. by rewrite decide_True.
        -- intros b Hb. rewrite Hn1, decide_False by naive_solver. done.
      * replace (l' <? l)%nat with (l' <? S l)%nat by (destruct (Nat.ltb_spec l' l), (Nat.ltb_spec l' (S l)); lia).
        eapply seg_frame; [apply Hh; lia|]. intros b Hb. rewrite Hn1, decide_False by naive_solver. done.
    + exists s'. split_and!; [done| |done]. by trans s1.
Qed.
End linking.


(** ** Searching *)

Lemma walk_levels_run (key : Z → option Z) e fuel nxl k p m1 m2 :
  seg nxl p (p :: m1 ++ m2) e → (length m1 ≤ fuel)%nat →
  (∀ a, a ∈ m1 → a ≠ e ∧ ∃ ka, key a = Some ka ∧ ka < k) →
  (∀ a, head m2 = Some a → a ≠ e ∧ ∃ ka, key a = Some ka ∧ k ≤ ka) →
  walk fuel nxl key e k p = Ok (link_of p m1).
Proof.
  revert fuel p. induction m1 as [|a m1 IH]; intros fuel p Hs Hf H1 H2.
  - pose proof (seg_link nxl p [] m2 e Hs) as Hl. change (link_of p []) with p in *.
    destruct fuel; simpl; rewrite Hl; simpl; destruct m2 as [|b m2]; unfold first; simpl;
      rewrite ?Z.eqb_refl; try done; destruct (H2 b eq_refl) as [Hne (kb & Hk & ?)]; zneq b e;
      rewrite Hk; simpl; by rewrite (proj2 (Z.ltb_ge _ _)).
  - simpl in Hf. destruct fuel as [|fuel]; [lia|]. destruct Hs as (_ & _ & r & Hr & Hs). pose proof Hs as (-> & _).
    simpl. rewrite Hr. simpl. destruct (H1 a) as [Hne (ka & Hk & ?)]; [set_solver|]. zneq a e. rewrite Hk. simpl.
    rewrite (proj2 (Z.ltb_lt _ _)) by done. rewrite link_of_cons. apply IH; [done|lia|set_solver|done].
Qed.

Section search.
Context (nx : nat → Z → option Z) (key : Z → option Z) (h e : Z) (H : nat).
Implicit Types (ns : list ent).

(** The list [ns1 ++ ns2] is laid out in memory, and [k] belongs between the two parts. *)
Record split_at (k : Z) (ns1 ns2 : list ent) : Prop := {
  sp_levels : levels nx h e H (ns1 ++ ns2);
  sp_key x : x ∈ ns1 ++ ns2 → key (ea x) = Some (ek x) ∧ ea x ≠ e;
  sp_below x : x ∈ ns1 → ek x < k;
  sp_above x : x ∈ ns2 → k ≤ ek x;
}.

Context (k : Z) (ns1 ns2 : list ent) (Hsp : split_at k ns1 ns2).
#[local] Set Default Proof Using "Hsp".

Lemma sp_seg l : (l < H)%nat → seg (nx l) h (h :: lvl l ns1 ++ lvl l ns2) e.
Proof. intros Hl. rewrite <-lvl_app. by apply Hsp. Qed.

Lemma sp_lvl1 l a : a ∈ lvl l ns1 → a ≠ e ∧ ∃ ka, key a = Some ka ∧ ka < k.
Proof.
  intros (x & Hx & <- & _)%elem_of_lvl. destruct (sp_key _ _ _ Hsp x) as [? ?]; [set_solver|].
  split; [done|]. exists (ek x). split; [done|]. by apply Hsp.
Qed.

Lemma sp_lvl2 l a : a ∈ lvl l ns2 → a ≠ e ∧ ∃ ka, key a = Some ka ∧ k ≤ ka.
Proof.
  intros (x & Hx & <- & _)%elem_of_lvl. destruct (sp_key _ _ _ Hsp x) as [? ?]; [set_solver|].
  split; [done|]. exists (ek x). split; [done|]. by apply Hsp.
Qed.

(** The node before [k] on level [l], and the walk to it from any earlier one. *)
Lemma walk_level fuel l p :
  (l < H)%nat → (length ns1 ≤ fuel)%nat → p ∈ h :: lvl l ns1 →
  walk fuel (nx l) key e k p = Ok (link_of h (lvl l ns1)) ∧
  nx l (link_of h (lvl l ns1)) = Some (first e (lvl l ns2)).
Proof.
  intros Hl Hf Hp. pose proof (sp_seg l Hl) as Hs. split; [|by eapply seg_link].
  destruct (seg_from _ _ _ _ _ _ Hs Hp) as (m & Hm & <- & Hlen & Hin). pose proof (length_lvl l ns1).
  eapply walk_levels_run; [exact Hm|lia| |].
  - intros a Ha. by apply (sp_lvl1 l), Hin.
  - intros a Ha. apply (sp_lvl2 l). destruct (lvl l ns2); simplify_eq/=. set_solver.
Qed.

Lemma link_below l : link_of h (lvl (S l) ns1) ∈ h :: lvl l ns1.
Proof.
  destruct (link_of_in h (lvl (S l) ns1)) as [[-> _]|Hin]; [set_solver|].
  apply elem_of_cons. right. eapply lvl_subset; [|exact Hin]. lia.
Qed.
End search.

(** Keys in ascending order, possibly with repetitions. *)
Definition sorted_keys (ns : list ent) : Prop := StronglySorted (λ x y, ek x ≤ ek y) ns.

(** The list at a key. *)
Lemma keys_split (k : Z) ns : sorted_keys ns →
  ∃ ns1 ns2, ns = ns1 ++ ns2 ∧ (∀ x, x ∈ ns1 → ek x < k) ∧ (∀ x, x ∈ ns2 → k ≤ ek x).
Proof.
  induction ns as [|y ns IH]; intros Hs; [exists [], []; set_solver|].
  apply StronglySorted_inv in Hs as [Hs Hy]. rewrite Forall_forall in Hy.
  destruct (decide (ek y < k)).
  - destruct (IH Hs) as (n1 & n2 & -> & H1 & H2). exists (y :: n1), n2. set_solver.
  - exists [], (y :: ns). split_and!; [done|set_solver|]. intros x [->|Hx]%elem_of_cons; [lia|].
    specialize (Hy x Hx). lia.
Qed.

(** The first node of level [l] at or after [k] has the key [k] when [l] is below the height of [k]. *)
Lemma first_height k l ns :
  sorted_keys ns → (∀ x, x ∈ ns → k ≤ ek x) →
  match filter (λ x, l < el x)%nat ns with
  | [] => (height k ns ≤ l)%nat
  | x :: _ => ek x = k ↔ (l < height k ns)%nat
  end.
Proof.
  induction ns as [|y ns IH]; intros Hs Hk; [simpl; lia|].
  apply StronglySorted_inv in Hs as [Hs Hy]. rewrite Forall_forall in Hy.
  pose proof (Hk y ltac:(set_solver)). specialize (IH Hs ltac:(set_solver)).
  assert (k < ek y → height k ns = 0%nat) as H0.
  { intros Hlt. clear IH Hk Hs. induction ns as [|z ns IH']; [done|]. simpl.
    pose proof (Hy z ltac:(set_solver)). rewrite (proj2 (Z.eqb_neq _ _)) by lia. apply IH'. set_solver. }
  rewrite filter_cons. cbn [height foldr]. fold (height k ns). case_decide.
  - destruct (Z.eqb_spec (ek y) k); [split; [lia|done]|]. rewrite H0 by lia. split; [done|lia].
  - destruct (filter _ ns) as [|z l'] eqn:E.
    + destruct (ek y =? k); lia.
    + destruct (Z.eqb_spec (ek y) k); [|done]. rewrite IH. lia.
Qed.

Section find_pre.
Context (nx : nat → Z → option Z) (key : Z → option Z) (h e : Z) (H : nat).
Context (k : Z) (ns1 ns2 : list ent) (Hsp : split_at nx key h e H k ns1 ns2).
Context (none : Z) (enc : nat → Z) (Henc : ∀ l, enc l ≠ none) (Hs : sorted_keys ns2).
#[local] Set Default Proof Using "Type*".

(** The levels below [H] on which [k] is. *)
Definition seen : nat := Nat.min (height k ns2) H.

(** The level found so far, when the levels from [n] on are done. *)
Definition met (n : nat) : Z := if decide (n < seen)%nat then enc (seen - 1)%nat else none.

(** The nodes before [k] are recorded on the levels from [n] on. *)
Definition recorded (n : nat) (pre : list Z) : Prop :=
  length pre = H ∧ ∀ l, (n ≤ l < H)%nat → pre !! l = Some (link_of h (lvl l ns1)).

(** What is met on level [l]. *)
Lemma met_step l kq x rest :
  (l < H)%nat → filter (λ x, l < el x)%nat ns2 = x :: rest → kq = ek x →
  (if (kq =? k) && (met (S l) =? none) then enc l else met (S l)) = met l.
Proof.
  intros Hl E ->. pose proof (first_height k l ns2 Hs (sp_above _ _ _ _ _ _ _ _ Hsp)) as Hh. rewrite E in Hh.
  unfold met. destruct (Z.eqb_spec (ek x) k) as [Ek|Ek]; cbn [andb].
  - apply Hh in Ek. rewrite (decide_True (P := (l < seen)%nat)) by (unfold seen; lia). destruct (decide (S l < seen)%nat).
    + by rewrite (proj2 (Z.eqb_neq _ _)).
    + rewrite Z.eqb_refl. f_equal. unfold seen in *. lia.
  - rewrite !decide_False by (unfold seen; intros ?; apply Ek, Hh; lia). done.
Qed.

Lemma find_pre_run fuel n pre :
  (n ≤ H)%nat → (length ns1 ≤ fuel)%nat → recorded n pre →
  ∃ pre', find_pre fuel nx key e h H none enc k n pre (met n) = Ok (pre', met 0) ∧ recorded 0 pre'.
Proof.
  intros Hn Hf. revert pre. induction n as [|l IH]; intros pre [Hlen Hpre].
  - exists pre. done.
  - assert ((if (S l =? H)%nat then Ok h else deref (pre !! S l)) =
      Ok (if (S l =? H)%nat then h else link_of h (lvl (S l) ns1))) as E.
    { destruct (Nat.eqb_spec (S l) H); [done|]. rewrite Hpre by lia. done. }
    cbn [find_pre]. rewrite E. cbn [mbind result_bind].
    destruct (walk_level nx key h e H k ns1 ns2 Hsp fuel l (if (S l =? H)%nat then h else link_of h (lvl (S l) ns1))) as [-> Hnx];
      [lia|done| |].
    { destruct (S l =? H)%nat; [set_solver|]. by eapply link_below. }
    cbn [mbind result_bind]. rewrite Hnx. cbn [mbind result_bind deref].
    assert ((if first e (lvl l ns2) =? e then Ok (met (S l)) else
      kq ← deref (key (first e (lvl l ns2))); Ok (if (kq =? k) && (met (S l) =? none) then enc l else met (S l))) = Ok (met l)) as ->.
    { pose proof (first_height k l ns2 Hs (sp_above _ _ _ _ _ _ _ _ Hsp)) as Hh. unfold lvl, first.
      destruct (filter _ ns2) as [|x rest] eqn:Ef; simpl.
      - rewrite Z.eqb_refl. unfold met, seen. by rewrite !decide_False by lia.
      - assert (x ∈ ns2) as Hx by (eapply (list_elem_of_filter (λ x, l < el x)%nat); rewrite Ef; set_solver).
        destruct (sp_key _ _ _ _ _ _ _ _ Hsp x) as [Hk Hne]; [set_solver|]. zneq (ea x) e. rewrite Hk.
        cbn [mbind result_bind deref]. f_equal. eapply met_step; [lia|done|done]. }
    cbn [mbind result_bind]. apply IH; [lia|]. split; [by rewrite length_insert|]. intros j Hj.
    destruct (decide (j = l)) as [->|]; [by rewrite list_lookup_insert_eq by lia|].
    rewrite list_lookup_insert_ne by done. apply Hpre. lia.
Qed.
End find_pre.

Section descend.
Context (nx : nat → Z → option Z) (h e : Z) (H : nat) (ns1 ns2 : list ent) (Hlv : levels nx h e H (ns1 ++ ns2)).
Context (check : Z → result unit) (go : Z → result bool).
Context (Hcheck : ∀ x, x ∈ h :: (ea <$> ns1) → check x = Ok tt).
Context (Hgo1 : ∀ x, x ∈ ea <$> ns1 → go x = Ok true) (Hgo2 : ∀ x, x ∈ e :: (ea <$> ns2) → go x = Ok false).
#[local] Set Default Proof Using "Type*".

(** Along one level. *)
Lemma descend_along fuel l x m prev :
  (∀ b, b ∈ m → b ∈ lvl l ns1) → x ∈ h :: lvl l ns1 → seg (nx l) x (x :: m ++ lvl l ns2) e →
  descend (length m + fuel) nx check go x l prev = descend fuel nx check go (link_of x m) l prev.
Proof.
  revert x. induction m as [|a m IH]; intros x Hm Hx Hs; [done|].
  pose proof Hs as (_ & _ & r & Hr & Hs'). pose proof Hs' as (-> & _).
  cbn [length Nat.add descend]. rewrite Hcheck by (apply elem_of_cons in Hx as [->|?%lvl_addr]; set_solver).
  rewrite Hr. cbn [mbind result_bind deref]. rewrite Hgo1 by (eapply lvl_addr, Hm; set_solver). cbn [mbind result_bind].
  rewrite link_of_cons. apply IH; [set_solver| |done]. apply elem_of_cons. right. apply Hm. set_solver.
Qed.

(** To the end of one level, and down. *)
Lemma descend_level fuel l x :
  (l < H)%nat → x ∈ h :: lvl l ns1 → (length ns1 ≤ fuel)%nat →
  ∃ f, (fuel - length ns1 ≤ f)%nat ∧
    descend fuel nx check go x l None =
    match l with
    | O => Ok (link_of h (lvl l ns1), first e (lvl l ns2), None)
    | S l' => match f with O => Err FFuel | S f => descend f nx check go (link_of h (lvl l ns1)) l' None end
    end.
Proof.
  intros Hl Hx Hf. pose proof (Hlv _ Hl) as Hs. rewrite lvl_app in Hs.
  destruct (seg_from _ _ _ _ _ _ Hs Hx) as (m & Hm & Hlink & Hlen & Hin). pose proof (length_lvl l ns1).
  exists (fuel - length m)%nat. split; [lia|]. replace fuel with (length m + (fuel - length m))%nat at 1 by lia.
  rewrite descend_along by done. rewrite Hlink.
  assert (check (link_of h (lvl l ns1)) = Ok tt) as Hc.
  { apply Hcheck. destruct (link_of_in h (lvl l ns1)) as [[-> _]|?%lvl_addr]; set_solver. }
  assert (go (first e (lvl l ns2)) = Ok false) as Hg.
  { apply Hgo2. unfold first. destruct (lvl l ns2) eqn:E; simpl; [set_solver|].
    apply elem_of_cons. right. apply (lvl_addr l). rewrite E. set_solver. }
  destruct (fuel - length m)%nat; cbn [descend]; rewrite Hc, (seg_link _ _ _ _ _ Hs);
    cbn [mbind result_bind deref]; rewrite Hg; by destruct l.
Qed.

Lemma descend_run fuel l x :
  (l < H)%nat → x ∈ h :: lvl l ns1 → (S l * S (length ns1) ≤ S fuel)%nat →
  descend fuel nx check go x l None = Ok (link_of h (lvl 0 ns1), first e (lvl 0 ns2), None).
Proof.
  revert fuel x. induction l as [|l IH]; intros fuel x Hl Hx Hf.
  - destruct (descend_level fuel 0 x Hl Hx) as (f & _ & ->); [lia|done].
  - destruct (descend_level fuel (S l) x Hl Hx) as (f & Hf' & ->); [lia|]. destruct f as [|f]; [lia|].
    apply IH; [lia| |lia]. destruct (link_of_in h (lvl (S l) ns1)) as [[-> _]|Hin]; [set_solver|].
    apply elem_of_cons. right. eapply lvl_subset; [|exact Hin]. lia.
Qed.
End descend.
