(* ===== verification/SkipList.v ===== *)
(** The skip list of [ComponentsW/skiplist.leveldb/skiplist_iterator.h], for keys of type
    [uint64_t]: nodes of one to [max_height_] levels in an arena, insertion and removal by key,
    and iterators.  ([skiplist_arena.h] is the same code without iterators.) *)

From S2P Require Import Prelude Chains HeapBlocks Arena SkipLevels.
From stdpp Require Import options.

Module SkipList.

(** A node; [next_] is its array of links, one for each of its levels. *)
Record Node := mkNode { key : Z; level : Z; next_ : list Z }.

(** The arena with the nodes placed in it, and how often [rand] was called. *)
Record st := mkSt { arena : Arena.st; nodes : gmap Z Node; rands : nat }.

Record SkipList := mkList { head_ : Z; max_height_ : Z }.

Record Iterator := mkIter { node_ : Z }.

Definition set_arena (s : st) a := mkSt a (nodes s) (rands s).
Definition set_nodes (s : st) n := mkSt (arena s) n (rands s).
Definition set_mem (s : st) m := set_arena s (Arena.set_mem (arena s) m).

Abbreviation MS := (M st).

(** [sizeof(Node)]: the key, the level with its padding, and one link. *)
Definition sizeof_Node := 24.

(** Number of levels. *)
Definition height_of (sl : SkipList) : nat := Z.to_nat (max_height_ sl).

Definition nx (s : st) (l : nat) (a : Z) : option Z := n ← nodes s !! a; next_ n !! l.
Definition key_of (s : st) (a : Z) : option Z := key <$> nodes s !! a.

(** [Node::Next] and [Node::SetNext]; a level the node does not have is outside its memory. *)
Definition Next (p : Z) (n : nat) : MS Z := s ← get; lift (deref (nx s n p)).
Definition SetNext (p : Z) (n : nat) (x : Z) : MS unit :=
  Next p n;;
  modify (λ s, set_nodes s (alter (λ nd, mkNode (key nd) (level nd) (<[n := x]> (next_ nd))) p (nodes s))).

Section skiplist.
(** The allocator, the results of [rand], the comparator, and what fresh memory holds. *)
Context {malloc_fn : Malloc} (rand : nat → Z) (comparator_ : Z → Z → Z) (junk : Z).

Definition NewNode (k lev : Z) : MS Z :=
  p ← zoom arena set_arena (Arena.AllocateAligned (u64 (sizeof_Node + 8 * (lev - 1))));
  modify (λ s, set_nodes s (<[p := mkNode k lev (replicate (Z.to_nat lev) junk)]> (nodes s)));;
  mret p.

(** [while (rand() % 2 && level < max_height_) level++]. *)
Fixpoint raise (fuel : nat) (max lev : Z) : MS Z :=
  s ← get;
  modify (λ s, mkSt (arena s) (nodes s) (S (rands s)));;
  if negb (Z.rem (rand (rands s)) 2 =? 0) && (lev <? max) then
    match fuel with O => fail FFuel | S fuel => raise fuel max (lev + 1) end
  else mret lev.

Definition RandomLevel (sl : SkipList) : MS Z := raise (height_of sl) (max_height_ sl) 1.

Fixpoint clear_links (h : Z) (n : nat) (i : nat) : MS unit :=
  match n with O => mret tt | S n => SetNext h i 0;; clear_links h n (S i) end.

(** The constructor. *)
Definition new_SkipList (max_level : Z) : MS SkipList :=
  h ← NewNode 0 max_level;
  clear_links h (Z.to_nat max_level) 0;;
  mret (mkList h max_level).

(** [new Node*[max_height_]] and [delete[]]; the contents of the array are passed as a list. *)
Definition new_pre (sl : SkipList) : MS Z :=
  zoom (λ s, Arena.mem (arena s)) set_mem (operator_new (8 * max_height_ sl)).
Definition delete_pre (a : Z) : MS unit := zoom (λ s, Arena.mem (arena s)) set_mem (free a).
Definition fresh_pre (sl : SkipList) : list Z := replicate (height_of sl) junk.

(** The array passed ([None]: the null pointer) is filled; the result is whether the key was
    found, the array, and [*level]. *)
Definition FindPre (sl : SkipList) (k : Z) (pre : option (list Z)) : MS (bool * list Z * Z) :=
  tmp ← match pre with None => new_pre sl | Some _ => mret 0 end;
  s ← get;
  r ← lift (find_pre (size (nodes s)) (nx s) (key_of s) 0 (head_ sl) (height_of sl) 0 (λ l, Z.of_nat l + 1)
              k (height_of sl) (default (fresh_pre sl) pre) 0);
  match pre with None => delete_pre tmp | Some _ => mret tt end;;
  mret (negb (r.2 =? 0), r.1, r.2).

Definition Remove (sl : SkipList) (k : Z) : MS unit :=
  a ← new_pre sl;
  r ← FindPre sl k (Some (fresh_pre sl));
  let '(found, pre, lev) := r in
  if negb found then mret tt else
  unlink Next SetNext pre (Z.to_nat lev);;
  delete_pre a.

Definition Insert (sl : SkipList) (k : Z) : MS unit :=
  lev ← RandomLevel sl;
  a ← new_pre sl;
  r ← FindPre sl k (Some (fresh_pre sl));
  let '(exist', pre, dummy) := r in
  if (exist' : bool) then mret tt else
  newnode ← NewNode k lev;
  link Next SetNext pre newnode (Z.to_nat lev);;
  delete_pre a.

Definition Contains (sl : SkipList) (k : Z) : MS bool :=
  r ← FindPre sl k None; mret r.1.1.

(** ** The loops over levels *)

Definition descend_from_top (sl : SkipList) (check : st → Z → result unit) (go : st → Z → result bool)
    (prev : option (list Z)) : MS (Z * Z * option (list Z)) :=
  s ← get;
  lift (descend (height_of sl * S (size (nodes s))) (nx s) (check s) (go s) (head_ sl) (height_of sl - 1) prev).

Definition FindLast (sl : SkipList) : MS Z :=
  r ← descend_from_top sl (λ _ _, Ok tt) (λ _ next, Ok (negb (next =? 0))) None; mret r.1.1.

Definition FindLessThan (sl : SkipList) (k : Z) : MS Z :=
  r ← descend_from_top sl
        (λ s x, if x =? head_ sl then Ok tt else kx ← deref (key_of s x); assert_ (comparator_ kx k <? 0))
        (λ s next, if next =? 0 then Ok false else kn ← deref (key_of s next); Ok (negb (0 <=? comparator_ kn k)))
        None;
  mret r.1.1.

Definition KeyIsAfterNode (s : st) (k n : Z) : result bool :=
  if negb (n =? 0) then kn ← deref (key_of s n); Ok (comparator_ kn k <? 0) else Ok false.

Definition FindGreaterOrEqual (sl : SkipList) (k : Z) (prev : option (list Z)) : MS (Z * option (list Z)) :=
  r ← descend_from_top sl (λ _ _, Ok tt) (λ s next, KeyIsAfterNode s k next) prev; mret (r.1.2, r.2).

(** ** Iterators *)

Definition new_Iterator : Iterator := mkIter 0.

Definition Valid (it : Iterator) : bool := negb (node_ it =? 0).

Definition iter_key (it : Iterator) : MS Z :=
  lift (assert_ (Valid it));; s ← get; lift (deref (key_of s (node_ it))).

Definition iter_Next (it : Iterator) : MS Iterator :=
  lift (assert_ (Valid it));; n ← Next (node_ it) 0; mret (mkIter n).

Definition iter_Prev (sl : SkipList) (it : Iterator) : MS Iterator :=
  lift (assert_ (Valid it));;
  s ← get;
  k ← lift (deref (key_of s (node_ it)));
  n ← FindLessThan sl k;
  mret (mkIter (if n =? head_ sl then 0 else n)).

Definition Seek (sl : SkipList) (target : Z) : MS Iterator :=
  r ← FindGreaterOrEqual sl target None; mret (mkIter r.1).

Definition SeekToFirst (sl : SkipList) : MS Iterator := n ← Next (head_ sl) 0; mret (mkIter n).

Definition SeekToLast (sl : SkipList) : MS Iterator :=
  n ← FindLast sl; mret (mkIter (if n =? head_ sl then 0 else n)).

(** ** A client with a list and an iterator *)

Inductive op :=
  | OInsert (k : Z) | ORemove (k : Z) | OContains (k : Z)
  | OSeek (k : Z) | OFirst | OLast | ONext | OPrev | OValid | OKey.

Inductive out := RUnit | RBool (b : bool) | RKey (k : Z).

Definition exec (sl : SkipList) (it : Iterator) (o : op) : MS (out * Iterator) :=
  match o with
  | OInsert k => Insert sl k;; mret (RUnit, it)
  | ORemove k => Remove sl k;; mret (RUnit, it)
  | OContains k => b ← Contains sl k; mret (RBool b, it)
  | OSeek k => it ← Seek sl k; mret (RUnit, it)
  | OFirst => it ← SeekToFirst sl; mret (RUnit, it)
  | OLast => it ← SeekToLast sl; mret (RUnit, it)
  | ONext => it ← iter_Next it; mret (RUnit, it)
  | OPrev => it ← iter_Prev sl it; mret (RUnit, it)
  | OValid => mret (RBool (Valid it), it)
  | OKey => k ← iter_key it; mret (RKey k, it)
  end.

Fixpoint session (sl : SkipList) (it : Iterator) (os : list op) : MS (list out) :=
  match os with
  | [] => mret []
  | o :: os => r ← exec sl it o; rs ← session sl r.2 os; mret (r.1 :: rs)
  end.

(** A list made on an empty arena, and used. *)
Definition program (max_level : Z) (os : list op) : MS (list out) :=
  sl ← new_SkipList max_level; session sl new_Iterator os.

Definition start (m : blocks) : st := mkSt (Arena.new_arena m) ∅ 0.
End skiplist.
End SkipList.
