(* ===== verification/SkipFacts.v ===== *)
(** The skip list's invariant: one list of nodes in ascending order of their keys, every level a
    chain through it, the nodes disjoint ranges of the arena; and what the operations do to it. *)

From S2P Require Import Prelude Chains HeapBlocks Arena SkipLevels SkipList.
From stdpp Require Import options.

Import SkipList.

Module SkipFacts.

(** The process heap. *)
Abbreviation heap s := (Arena.mem (arena s)).

(** What never changes about a node: key, level and number of links. *)
Definition shape (s : st) (a : Z) : option (Z * Z * nat) :=
  (λ n, (key n, level n, length (next_ n))) <$> nodes s !! a.

(** The bytes of a node with [n] links. *)
Definition node_bytes (n : nat) : Z := sizeof_Node + 8 * (Z.of_nat n - 1).

Record skip_inv (sl : SkipList) (ns : list ent) (used : list (Z * Z)) (s : st) : Prop := {
  si_arena : Arena.arena_inv used (arena s);
  si_max : max_height_ sl = Z.of_nat (height_of sl) ∧ (1 ≤ height_of sl)%nat ∧ max_height_ sl < 2 ^ 31;
  si_head : ∃ k l, shape s (head_ sl) = Some (k, l, height_of sl);
  si_ent x : x ∈ ns → shape s (ea x) = Some (ek x, Z.of_nat (el x), el x) ∧ (1 ≤ el x ≤ height_of sl)%nat;
  si_nodup : NoDup (head_ sl :: (ea <$> ns));
  si_sorted : StronglySorted (λ x y, ek x < ek y) ns;
  si_levels : levels (nx s) (head_ sl) 0 (height_of sl) ns;
  si_nodes a k l n : shape s a = Some (k, l, n) → (0 < n)%nat ∧ (a, node_bytes n) ∈ used;
}.

(** Nodes are never changed but for their links, and never released. *)
Definition keeps (s s' : st) : Prop := ∀ a v, shape s a = Some v → shape s' a = Some v.

Section basic.
Implicit Types (s : st).

Lemma keeps_refl s : keeps s s.
Proof. by intros a v. Qed.

Lemma keeps_trans s1 s2 s3 : keeps s1 s2 → keeps s2 s3 → keeps s1 s3.
Proof. unfold keeps. eauto. Qed.

Lemma shape_key s a k l n : shape s a = Some (k, l, n) → key_of s a = Some k.
Proof. unfold shape, key_of. destruct (nodes s !! a); intros; simplify_eq/=; done. Qed.

Lemma shape_nx s a k l n i : shape s a = Some (k, l, n) → (i < n)%nat → is_Some (nx s i a).
Proof.
  unfold shape, nx. destruct (nodes s !! a) as [nd|]; intros; simplify_eq/=. by apply lookup_lt_is_Some.
Qed.

(** [Next] and [SetNext] on a link that exists. *)
Lemma Next_ok s p l q : nx s l p = Some q → Next p l s = Ok (q, s).
Proof. intros E. unfold Next. rewrite bind_get, E. done. Qed.

Lemma SetNext_ok s p l x : is_Some (nx s l p) →
  ∃ s', SetNext p l x s = Ok (tt, s') ∧ arena s' = arena s ∧ rands s' = rands s ∧
    (∀ a, shape s' a = shape s a) ∧
    ∀ l' b, nx s' l' b = if decide (l' = l ∧ b = p) then Some x else nx s l' b.
Proof.
  intros [q Hq]. unfold SetNext. mstep (Next_ok _ _ _ _ Hq). eexists. split; [done|]. split_and!; [done|done| |].
  - intros a. unfold shape. simpl. destruct (decide (a = p)) as [->|].
    + rewrite lookup_alter_eq. destruct (nodes s !! p); simpl; [|done]. by rewrite length_insert.
    + by rewrite lookup_alter_ne by done.
  - intros l' b. unfold nx in *. simpl. destruct (decide (b = p)) as [->|].
    + rewrite lookup_alter_eq. destruct (nodes s !! p) as [n|] eqn:E; simplify_eq/=.
      case_decide as Hd.
      * destruct Hd as [-> _]. apply list_lookup_insert_eq. by eapply lookup_lt_Some.
      * apply list_lookup_insert_ne. naive_solver.
    + rewrite lookup_alter_ne by done. rewrite decide_False by naive_solver. done.
Qed.

Definition same_nodes (s s' : st) : Prop :=
  arena s' = arena s ∧ rands s' = rands s ∧ ∀ a, shape s' a = shape s a.

#[global] Instance same_nodes_preorder : PreOrder same_nodes.
Proof.
  split; [by intros s|]. intros s1 s2 s3 (E1 & E2 & E3) (F1 & F2 & F3).
  split_and!; [congruence|congruence|]. intros a. by rewrite F3.
Qed.

#[export, program] Instance node_links : LinkStore st :=
  {| nxt := nx; next := Next; set_next := SetNext; linked := λ _, True; frame := same_nodes |}.
Next Obligation. done. Qed.
Next Obligation. intros. by apply Next_ok. Qed.
Next Obligation.
  intros s p l x _ Hs. destruct (SetNext_ok s p l x Hs) as (s' & E & H1 & H2 & H3 & H4). exists s'. done.
Qed.

Lemma sorted_app_inv ns1 ns2 : StronglySorted (λ x y, ek x < ek y) (ns1 ++ ns2) →
  StronglySorted (λ x y, ek x < ek y) ns1 ∧ StronglySorted (λ x y, ek x < ek y) ns2 ∧
  ∀ x y, x ∈ ns1 → y ∈ ns2 → ek x < ek y.
Proof.
  induction ns1 as [|z ns1 IH]; simpl; intros Hs; [split_and!; [constructor|done|set_solver]|].
  apply StronglySorted_inv in Hs as [Hs Hz]. rewrite Forall_forall in Hz. destruct (IH Hs) as (H1 & H2 & H3).
  split_and!; [|done|set_solver]. constructor; [done|]. rewrite Forall_forall. set_solver.
Qed.

Lemma keys_sorted_app ns1 ns2 :
  StronglySorted (λ x y, ek x < ek y) ns1 → StronglySorted (λ x y, ek x < ek y) ns2 →
  (∀ x y, x ∈ ns1 → y ∈ ns2 → ek x < ek y) → StronglySorted (λ x y, ek x < ek y) (ns1 ++ ns2).
Proof.
  intros H1 H2 H3. induction H1 as [|z ns1 Hs IH Hz]; simpl; [done|]. constructor; [set_solver|].
  rewrite Forall_forall in Hz |- *. set_solver.
Qed.

Lemma sorted_weak ns : StronglySorted (λ x y, ek x < ek y) ns → sorted_keys ns.
Proof.
  unfold sorted_keys. induction 1 as [|x ns Hs IH Hx]; constructor; [done|]. eapply Forall_impl; [exact Hx|].
  simpl. intros. lia.
Qed.

(** The list at a key. *)
Lemma sorted_split (k : Z) ns : StronglySorted (λ x y, ek x < ek y) ns →
  ∃ ns1 ns2, ns = ns1 ++ ns2 ∧ (∀ x, x ∈ ns1 → ek x < k) ∧ (∀ x, x ∈ ns2 → k ≤ ek x).
Proof. intros Hs. by apply keys_split, sorted_weak. Qed.

(** In a list without repetitions the height of a key is that of its node. *)
Lemma height_zero k ns : (∀ x, x ∈ ns → ek x ≠ k) → height k ns = 0%nat.
Proof.
  induction ns as [|y ns IH]; intros Hn; [done|]. simpl. rewrite (proj2 (Z.eqb_neq _ _)) by (apply Hn; set_solver).
  apply IH. set_solver.
Qed.

Lemma height_head x ns : StronglySorted (λ x y, ek x < ek y) (x :: ns) → height (ek x) (x :: ns) = el x.
Proof.
  intros [_ Hx]%StronglySorted_inv. rewrite Forall_forall in Hx. cbn [height foldr]. rewrite Z.eqb_refl.
  fold (height (ek x) ns). rewrite height_zero; [lia|]. intros y Hy ?. specialize (Hx y Hy). lia.
Qed.
End basic.

Section inv.
Context (sl : SkipList) (ns : list ent) (used : list (Z * Z)) (s : st) (Hi : skip_inv sl ns used s).
#[local] Set Default Proof Using "Hi".

Lemma si_nonzero x : x ∈ ns → ea x ≠ 0.
Proof.
  intros Hx. eapply (chain_nonzero (nx s 0) (head_ sl)); [apply Hi; destruct (si_max _ _ _ _ Hi); lia|].
  apply elem_of_cons. right. apply elem_of_lvl. exists x. split_and!; [done|done|].
  destruct (si_ent _ _ _ _ Hi x Hx). lia.
Qed.

Lemma si_head_nonzero : head_ sl ≠ 0.
Proof. destruct (si_levels _ _ _ _ Hi 0%nat) as (_ & ? & _); [|done]. destruct (si_max _ _ _ _ Hi). lia. Qed.

Lemma si_lvl_0 : lvl 0 ns = ea <$> ns.
Proof. apply lvl_0. intros x Hx. destruct (si_ent _ _ _ _ Hi x Hx). lia. Qed.

Lemma si_key x : x ∈ ns → key_of s (ea x) = Some (ek x).
Proof. intros Hx. eapply shape_key. by destruct (si_ent _ _ _ _ Hi x Hx). Qed.

(** The fuel of the loops: no more nodes in the list than in the arena. *)
Lemma si_size : (length ns ≤ size (nodes s))%nat.
Proof.
  rewrite <-(length_fmap ea), <-(size_dom (D := gset Z)).
  rewrite <-(size_list_to_set (C := gset Z) (ea <$> ns)) by (eapply NoDup_cons_1_2; apply Hi).
  apply subseteq_size. intros a (x & -> & Hx)%elem_of_list_to_set%list_elem_of_fmap. apply elem_of_dom.
  destruct (si_ent _ _ _ _ Hi x Hx) as [E _]. unfold shape in E. destruct (nodes s !! ea x); [eauto|done].
Qed.

(** A range the arena gives is no node. *)
Lemma si_fresh a n : (0 < n)%Z → Forall (apart (a, n)) used → shape s a = None.
Proof.
  intros Hn Ha. destruct (shape s a) as [[[k l] i]|] eqn:E; [|done]. exfalso.
  destruct (si_nodes _ _ _ _ Hi _ _ _ _ E) as [H0 Hu]. rewrite Forall_forall in Ha. specialize (Ha _ Hu).
  unfold apart, node_bytes, sizeof_Node in Ha. simpl in Ha. lia.
Qed.

Lemma si_split k ns1 ns2 :
  ns = ns1 ++ ns2 → (∀ x, x ∈ ns1 → ek x < k) → (∀ x, x ∈ ns2 → k ≤ ek x) →
  split_at (nx s) (key_of s) (head_ sl) 0 (height_of sl) k ns1 ns2.
Proof.
  intros E H1 H2. split; rewrite <-?E; [apply Hi| |done|done]. intros x Hx. split; [by apply si_key|by apply si_nonzero].
Qed.

(** The heap or the arena changed, but not the nodes. *)
Lemma si_frame a' r' used' : Arena.arena_inv used' a' → (∀ q, q ∈ used → q ∈ used') →
  skip_inv sl ns used' (mkSt a' (nodes s) r').
Proof.
  intros Ha Hu. split; [done|apply Hi..|]. intros a k l n Hs. destruct (si_nodes _ _ _ _ Hi _ _ _ _ Hs). auto.
Qed.
End inv.
End SkipFacts.
