(* ===== verification/SkipOps.v ===== *)
(** The skip list: what it promises, and what its operations and the searches of its iterators do. *)

From S2P Require Import Prelude Chains HeapBlocks Arena SkipLevels SkipList SkipFacts.
From stdpp Require Import options.

Import SkipList.

(** The specification: a set of keys, given in ascending order, and an iterator that is at one of
    them or nowhere. *)
Module SkipSpec.

(** [pos]: the key the iterator is at, and whether the entry it is at is still in the list. *)
Record spec := mkSpec { keys : list Z; pos : option (Z * bool) }.

Definition add (k : Z) (ks : list Z) : list Z := filter (λ x, x < k) ks ++ k :: filter (λ x, k < x) ks.
Definition remove (k : Z) (ks : list Z) : list Z := filter (λ x, x ≠ k) ks.

Definition at_key (o : option Z) : option (Z * bool) := (λ k, (k, true)) <$> o.

(** One call.  [None]: the client may not make it; [Err]: the iterator's assertion fails. *)
Definition step (o : op) (p : spec) : option (result (out * spec)) :=
  let ks := keys p in
  match o with
  | OInsert k => Some (Ok (RUnit, mkSpec (add k ks) (pos p)))
  | ORemove k => Some (Ok (RUnit, mkSpec (remove k ks)
      match pos p with Some (k', b) => Some (k', b && negb (k' =? k)) | None => None end))
  | OContains k => Some (Ok (RBool (bool_decide (k ∈ ks)), p))
  | OSeek k => Some (Ok (RUnit, mkSpec ks (at_key (head (filter (λ x, k ≤ x) ks)))))
  | OFirst => Some (Ok (RUnit, mkSpec ks (at_key (head ks))))
  | OLast => Some (Ok (RUnit, mkSpec ks (at_key (last ks))))
  | ONext =>
      match pos p with
      | None => Some (Err FAssert)
      | Some (k, true) => Some (Ok (RUnit, mkSpec ks (at_key (head (filter (λ x, k < x) ks)))))
      | Some (k, false) => None
      end
  | OPrev =>
      match pos p with
      | None => Some (Err FAssert)
      | Some (k, _) => Some (Ok (RUnit, mkSpec ks (at_key (last (filter (λ x, x < k) ks)))))
      end
  | OValid => Some (Ok (RBool (bool_decide (is_Some (pos p))), p))
  | OKey => match pos p with None => Some (Err FAssert) | Some (k, _) => Some (Ok (RKey k, p)) end
  end.

Fixpoint steps (os : list op) (p : spec) : option (result (list out)) :=
  match os with
  | [] => Some (Ok [])
  | o :: os =>
      match step o p with
      | None => None
      | Some (Err f) => Some (Err f)
      | Some (Ok (r, p')) =>
          match steps os p' with None => None | Some (Err f) => Some (Err f) | Some (Ok rs) => Some (Ok (r :: rs)) end
      end
  end.

Definition empty : spec := mkSpec [] None.
End SkipSpec.

Import SkipSpec SkipFacts.

Module SkipOps.

(** ** The operations *)

Lemma height_bound sl ns1 ns2 used k s : skip_inv sl (ns1 ++ ns2) used s → (height k ns2 ≤ height_of sl)%nat.
Proof.
  intros Hi. assert (∀ x, x ∈ ns2 → (el x ≤ height_of sl)%nat) as Hb.
  { intros x Hx. destruct (si_ent _ _ _ _ Hi x) as [_ ?]; [set_solver|lia]. }
  clear Hi. induction ns2 as [|x ns IH]; [simpl; lia|]. simpl. specialize (IH ltac:(set_solver)).
  specialize (Hb x ltac:(set_solver)). destruct (ek x =? k); lia.
Qed.

(** A node at a fresh address. *)
Lemma ent_nodup sl ns1 ns2 used s x :
  skip_inv sl (ns1 ++ ns2) used s → shape s (ea x) = None → NoDup (head_ sl :: (ea <$> ns1 ++ x :: ns2)).
Proof.
  intros Hi Hnone. assert (ea x ∉ head_ sl :: (ea <$> ns1 ++ ns2)) as Hnot.
  { intros [E|(y & E & Hy)%list_elem_of_fmap]%elem_of_cons.
    - destruct (si_head _ _ _ _ Hi) as (? & ? & E'). by rewrite <-E, Hnone in E'.
    - destruct (si_ent _ _ _ _ Hi y Hy) as [E' _]. by rewrite <-E, Hnone in E'. }
  eapply (NoDup_Permutation_proper (ea x :: head_ sl :: (ea <$> ns1 ++ ns2))).
  - rewrite !fmap_app, fmap_cons. solve_Permutation.
  - apply NoDup_cons. split; [done|apply Hi].
Qed.

Section random.
Context (rand : nat → Z).

Lemma raise_ok fuel max lev s :
  1 ≤ lev ≤ max → (Z.to_nat (max - lev) ≤ fuel)%nat →
  ∃ lev' r, raise rand fuel max lev s = Ok (lev', mkSt (arena s) (nodes s) r) ∧ 1 ≤ lev' ≤ max.
Proof.
  revert lev s. induction fuel as [|fuel IH]; intros lev s Hl Hf; cbn [raise]; rewrite bind_get, bind_modify.
  - rewrite (proj2 (Z.ltb_ge lev max)), andb_false_r by lia. eexists lev, _. split; [done|lia].
  - destruct (negb _ && _) eqn:E; [|eexists lev, _; split; [done|lia]].
    apply andb_true_iff in E as [_ ?%Z.ltb_lt].
    destruct (IH (lev + 1) (mkSt (arena s) (nodes s) (S (rands s)))) as (lev' & r & -> & ?); [lia|lia|eauto].
Qed.

Lemma RandomLevel_ok sl ns used s : skip_inv sl ns used s →
  ∃ lev r, RandomLevel rand sl s = Ok (Z.of_nat lev, mkSt (arena s) (nodes s) r) ∧ (1 ≤ lev ≤ height_of sl)%nat ∧
    skip_inv sl ns used (mkSt (arena s) (nodes s) r).
Proof.
  intros Hi. destruct (si_max _ _ _ _ Hi) as (Hm & ? & _). unfold RandomLevel.
  destruct (raise_ok (height_of sl) (max_height_ sl) 1 s) as (lev & r & E & ?); [lia|lia|].
  exists (Z.to_nat lev), r. rewrite Z2Nat.id by lia. split_and!; [done|lia|lia|].
  eapply (si_frame _ _ _ _ Hi); [apply Hi|done].
Qed.

End random.

Section find.
Context {malloc_fn : Malloc} (junk : Z) (sl : SkipList) (ns1 ns2 : list ent) (used : list (Z * Z)) (s : st) (k : Z).
Context (Hi : skip_inv sl (ns1 ++ ns2) used s) (H1 : ∀ x, x ∈ ns1 → ek x < k) (H2 : ∀ x, x ∈ ns2 → k ≤ ek x).
#[local] Set Default Proof Using "Type*".

Lemma find_pre_ok :
  ∃ pre, find_pre (size (nodes s)) (nx s) (key_of s) 0 (head_ sl) (height_of sl) 0 (λ l, Z.of_nat l + 1) k
    (height_of sl) (fresh_pre junk sl) 0 = Ok (pre, Z.of_nat (height k ns2)) ∧
    ∀ l, (l < height_of sl)%nat → pre !! l = Some (link_of (head_ sl) (lvl l ns1)).
Proof.
  pose proof (si_split _ _ _ _ Hi k ns1 ns2 eq_refl H1 H2) as Hsp. pose proof (height_bound sl _ _ _ k _ Hi) as Hb.
  pose proof (sorted_app_inv _ _ (si_sorted _ _ _ _ Hi)) as (_ & Hs2 & _). pose proof (si_size _ _ _ _ Hi) as Hsz.
  rewrite length_app in Hsz.
  destruct (find_pre_run (nx s) (key_of s) (head_ sl) 0 (height_of sl) k ns1 ns2 Hsp 0 (λ l, Z.of_nat l + 1)
    ltac:(intros; simpl; lia) (sorted_weak _ Hs2) (size (nodes s)) (height_of sl) (fresh_pre junk sl)) as (pre & E & Hp).
  - lia.
  - lia.
  - split; [apply length_replicate|]. intros. lia.
  - exists pre. split; [|intros; apply Hp; lia].
    assert (met (height_of sl) k ns2 0 (λ l, Z.of_nat l + 1) (height_of sl) = 0) as E1. { unfold met, seen. by rewrite decide_False by lia. }
    assert (met (height_of sl) k ns2 0 (λ l, Z.of_nat l + 1) 0 = Z.of_nat (height k ns2)) as E2. { unfold met, seen. case_decide; lia. }
    by rewrite E1, E2 in E.
Qed.

Lemma FindPre_ok :
  ∃ pre, FindPre junk sl k (Some (fresh_pre junk sl)) s =
      Ok ((negb (Z.of_nat (height k ns2) =? 0), pre, Z.of_nat (height k ns2)), s) ∧
    ∀ l, (l < height_of sl)%nat → pre !! l = Some (link_of (head_ sl) (lvl l ns1)).
Proof.
  destruct find_pre_ok as (pre & E & Hp). exists pre. split; [|done]. unfold FindPre.
  rewrite (bind_ok _ _ s 0 s) by done. rewrite bind_get. by rewrite (bind_lift _ _ _ _ E).
Qed.
End find.

Section alloc.
Context {malloc_fn : Malloc} {Hlaws : MallocLaws}.
#[local] Set Default Proof Using "All".

(** The array of predecessors: a block of its own, outside the arena. *)
Definition array_at (sl : SkipList) (s : st) (a : Z) (s' : st) : Prop :=
  a ≠ 0 ∧ heap s !! a = None ∧ (a ∉ Arena.blocks_ (arena s)) ∧ s' = set_mem s (<[a := 8 * max_height_ sl]> (heap s)).

Lemma new_pre_ends sl ns used s : skip_inv sl ns used s →
  ends (new_pre sl s) (λ r, array_at sl s r.1 r.2 ∧ skip_inv sl ns used r.2).
Proof.
  intros Hi. destruct (si_max _ _ _ _ Hi) as (Hm & ? & _). unfold new_pre.
  eapply ends_weaken; [apply zoom_ends, operator_new_ends|]. intros [a s'] (t & E & [= -> ->] & H0). simpl in *. subst s'.
  assert (heap s !! new_block (8 * max_height_ sl) (heap s) = None) as Hf by (apply new_block_fresh; [lia|done]).
  split.
  - split_and!; [done|done| |done]. intros Hb. destruct (Arena.ai_blocks _ _ (si_arena _ _ _ _ Hi) _ Hb) as (? & E & _).
    by rewrite Hf in E.
  - eapply (si_frame _ _ _ _ Hi); [|done]. apply Arena.arena_inv_new; [apply Hi|lia|done].
Qed.

(** The array is released later, whatever was allocated in the meantime. *)
Lemma delete_pre_ok sl ns used s a : skip_inv sl ns used s → a ≠ 0 → is_Some (heap s !! a) → a ∉ Arena.blocks_ (arena s) →
  delete_pre a s = Ok (tt, set_mem s (delete a (heap s))) ∧ skip_inv sl ns used (set_mem s (delete a (heap s))).
Proof.
  intros Hi H0 Hs Hb. split.
  - unfold delete_pre. apply (zoom_ok _ set_mem _ _ _ _ (free_ok _ _ Hs H0)).
  - eapply (si_frame _ _ _ _ Hi); [|done]. apply Arena.arena_inv_free; [apply Hi|done].
Qed.

(** A new node: fresh memory of the arena. *)
Lemma NewNode_ends junk k (lev : nat) used s :
  Arena.arena_inv used (arena s) → (1 ≤ lev)%nat → Z.of_nat lev < 2 ^ 31 →
  (∀ a k l n, shape s a = Some (k, l, n) → (0 < n)%nat ∧ (a, node_bytes n) ∈ used) →
  ends (NewNode junk k (Z.of_nat lev) s) (λ r, let p := r.1 in let s' := r.2 in
    p ≠ 0 ∧ shape s p = None ∧ shape s' p = Some (k, Z.of_nat lev, lev) ∧
    (∀ a, a ≠ p → shape s' a = shape s a ∧ ∀ l, nx s' l a = nx s l a) ∧
    Arena.arena_inv ((p, node_bytes lev) :: used) (arena s') ∧
    (∀ b n, heap s !! b = Some n → heap s' !! b = Some n) ∧
    (∀ b, b ∈ Arena.blocks_ (arena s') → b ∈ Arena.blocks_ (arena s) ∨ heap s !! b = None)).
Proof.
  intros Ha Hl Hl' Hn. unfold NewNode.
  assert (u64 (sizeof_Node + 8 * (Z.of_nat lev - 1)) = node_bytes lev) as ->.
  { unfold node_bytes, sizeof_Node. apply wrapu_small. lia. }
  destruct (Arena.AllocateAligned_spec used (arena s) (node_bytes lev) Ha) as [[(p & a' & E & Hg)|[E Hf]] _].
  { unfold node_bytes, sizeof_Node. lia. }
  2: { right. split; [|done]. unfold mbind, M_bind, zoom. by rewrite E. }
  destruct Hg as (Hi' & Hkeep & _ & _ & Hnew). left. eexists. split.
  { mstep (zoom_ok arena set_arena _ s _ _ E). rewrite bind_modify. done. }
  assert (shape s p = None) as Hfresh.
  { destruct (shape s p) as [[[k0 l0] i]|] eqn:Es; [|done]. exfalso. destruct (Hn _ _ _ _ Es) as [H0 Hu].
    pose proof (Arena.ai_apart _ _ Hi') as Hap. inversion Hap as [|? ? Hall]; subst. rewrite Forall_forall in Hall.
    specialize (Hall _ Hu). unfold apart, node_bytes, sizeof_Node in Hall. simpl in Hall. lia. }
  simpl. split_and!; [|done| | |done|done|done].
  - pose proof (Arena.ai_used _ _ Hi') as Hu. inversion Hu as [|? ? Hb]; subst.
    destruct (Arena.in_block_bounds _ _ _ Hi' Hb) as [? _]; [simpl; unfold node_bytes, sizeof_Node; lia|]. simpl in *. lia.
  - unfold shape. simpl. rewrite lookup_insert_eq. simpl. by rewrite length_replicate, Nat2Z.id.
  - intros a Hne. unfold shape, nx. simpl. by rewrite lookup_insert_ne by done.
Qed.

(** ** [Contains] *)

Lemma Contains_ends junk sl ns1 ns2 used s k :
  skip_inv sl (ns1 ++ ns2) used s → (∀ x, x ∈ ns1 → ek x < k) → (∀ x, x ∈ ns2 → k ≤ ek x) →
  ends (Contains junk sl k s) (λ r, r = (negb (Z.of_nat (height k ns2) =? 0), s)).
Proof.
  intros Hi H1 H2. unfold Contains.
  apply (ends_bind _ _ _ (λ r, (r.1.1.1, r.2) = (negb (Z.of_nat (height k ns2) =? 0), s)));
    [|intros [[b pre] lev] s' E; by apply ends_ok].
  unfold FindPre. eapply ends_bind; [by eapply new_pre_ends|]. intros a s1 [(H0 & Hnone & Hb & Es1) Hi1]. simpl in *.
  destruct (find_pre_ok junk sl ns1 ns2 used s1 k Hi1 H1 H2) as (pre & E & _).
  rewrite bind_get. mstep E. destruct (delete_pre_ok sl _ used s1 a Hi1 H0) as [E2 _].
  - subst s1. simpl. rewrite lookup_insert_eq. eauto.
  - by subst s1.
  - mstep E2. apply ends_ok. subst s1. unfold set_mem, set_arena, Arena.set_mem. simpl.
    rewrite delete_insert_id by done. by destruct s as [[] ? ?].
Qed.

(** ** [Insert] *)

(** The list with a new node on it, once the node is linked on all its levels. *)
Lemma insert_inv sl ns1 ns2 used s s1 s2 x :
  skip_inv sl (ns1 ++ ns2) used s →
  (∀ y, y ∈ ns1 → ek y < ek x) → (∀ y, y ∈ ns2 → ek x < ek y) → (1 ≤ el x ≤ height_of sl)%nat →
  shape s (ea x) = None → shape s1 (ea x) = Some (ek x, Z.of_nat (el x), el x) →
  (∀ a, a ≠ ea x → shape s1 a = shape s a ∧ ∀ l, nx s1 l a = nx s l a) →
  Arena.arena_inv ((ea x, node_bytes (el x)) :: used) (arena s2) →
  (∀ a, shape s2 a = shape s1 a) → levels (nx s2) (head_ sl) 0 (height_of sl) (ns1 ++ x :: ns2) →
  skip_inv sl (ns1 ++ x :: ns2) ((ea x, node_bytes (el x)) :: used) s2 ∧ keeps s s2.
Proof.
  intros Hi H1 H2 Hl Hnone Hx Hother Ha Hsh Hlev.
  assert (∀ a v, shape s a = Some v → shape s2 a = Some v) as Hk.
  { intros a v E. rewrite Hsh. destruct (Hother a) as [-> _]; [|done]. intros ->. by rewrite Hnone in E. }
  pose proof (sorted_app_inv _ _ (si_sorted _ _ _ _ Hi)) as (Hs1 & Hs2 & Hs3).
  split; [split; [done|apply Hi| | | | |done|]|done].
  - destruct (si_head _ _ _ _ Hi) as (k & l & E). eauto.
  - intros y Hy. rewrite elem_of_app, elem_of_cons in Hy. destruct Hy as [Hy|[->|Hy]].
    + destruct (si_ent _ _ _ _ Hi y) as [? ?]; [set_solver|auto].
    + rewrite Hsh. done.
    + destruct (si_ent _ _ _ _ Hi y) as [? ?]; [set_solver|auto].
  - by eapply ent_nodup.
  - apply keys_sorted_app; [done|constructor; [done|rewrite Forall_forall; done]|]. intros y z Hy [->|Hz]%elem_of_cons; auto.
  - intros a k l n E. rewrite Hsh in E. destruct (decide (a = ea x)) as [->|Hne].
    + rewrite Hx in E. simplify_eq. split; [lia|set_solver].
    + destruct (Hother a Hne) as [E' _]. rewrite E' in E. destruct (si_nodes _ _ _ _ Hi _ _ _ _ E). set_solver.
Qed.

Section insert.
Context (rand : nat → Z) (junk : Z) (sl : SkipList) (ns1 ns2 : list ent) (used : list (Z * Z)) (s : st) (k : Z).
Context (Hi : skip_inv sl (ns1 ++ ns2) used s) (H1 : ∀ x, x ∈ ns1 → ek x < k) (H2 : ∀ x, x ∈ ns2 → k ≤ ek x).

(** A key that is there: nothing happens to the list, and the array stays behind. *)
Lemma Insert_present : (0 < height k ns2)%nat →
  ends (Insert rand junk sl k s) (λ r, ∃ a n,
    array_at sl (mkSt (arena s) (nodes s) n) a r.2 ∧ skip_inv sl (ns1 ++ ns2) used r.2 ∧ keeps s r.2).
Proof.
  intros Hh. unfold Insert. destruct (RandomLevel_ok rand sl _ _ s Hi) as (lev & n & E & _ & Hi0). mstep E.
  eapply ends_bind; [by eapply new_pre_ends|]. intros a s1 [Harr Hi1]. simpl in *.
  destruct (FindPre_ok junk sl ns1 ns2 used s1 k Hi1 H1 H2) as (pre & E1 & _). mstep E1.
  rewrite (proj2 (Z.eqb_neq _ _)) by lia. apply ends_ok. exists a, n. split_and!; [done|done|].
  destruct Harr as (_ & _ & _ & ->). by intros b v.
Qed.

(** A new key: one node more, in its place; the array is released. *)
Lemma Insert_absent : height k ns2 = 0%nat → (∀ x, x ∈ ns2 → k < ek x) →
  ends (Insert rand junk sl k s) (λ r, ∃ x used', ek x = k ∧
    skip_inv sl (ns1 ++ x :: ns2) used' r.2 ∧ keeps s r.2).
Proof.
  intros Hh Hlt. unfold Insert. destruct (RandomLevel_ok rand sl _ _ s Hi) as (lev & n & E & Hlev & Hi0). mstep E.
  eapply ends_bind; [by eapply new_pre_ends|]. intros a s1 [(Ha0 & Hnone & Hab & Es1) Hi1]. simpl in *.
  destruct (FindPre_ok junk sl ns1 ns2 used s1 k Hi1 H1 H2) as (pre & E1 & Hpre). mstep E1. rewrite Hh. cbn [Z.of_nat Z.eqb negb].
  destruct (si_max _ _ _ _ Hi1) as (Hm & _ & Hmax).
  eapply ends_bind; [eapply (NewNode_ends junk k lev used s1); [apply Hi1|lia|lia|apply Hi1]|].
  intros p s2 (Hp0 & Hpn & Hps & Hother & Har & Hkeep & Hnew). simpl in *.
  pose (x := mkEnt p k lev). rewrite Nat2Z.id.
  destruct (link_run (head_ sl) 0 (height_of sl) ns1 ns2 x) with (pre := pre) (n := lev) (s := s2)
    as (s3 & E3 & (Ha3 & _ & Hsh3) & Hl3).
  - by eapply ent_nodup.
  - done.
  - simpl. lia.
  - done.
  - simpl. lia.
  - intros l Hl. apply Hpre. lia.
  - intros l Hl. eapply shape_nx; [exact Hps|]. lia.
  - intros l Hl. assert (lvl l (if (l <? lev)%nat then ns1 ++ ns2 else ns1 ++ x :: ns2) = lvl l (ns1 ++ ns2)) as ->.
    { destruct (Nat.ltb_spec l lev); [done|]. rewrite !lvl_app, lvl_cons_out by (simpl; lia). done. }
    eapply seg_frame; [by apply Hi1|]. intros b Hb. apply Hother. intros ->.
    apply elem_of_cons in Hb as [->|(y & Hy & Ey & _)%elem_of_lvl].
    + destruct (si_head _ _ _ _ Hi1) as (? & ? & E'). by rewrite Hpn in E'.
    + destruct (si_ent _ _ _ _ Hi1 y Hy) as [E' _]. by rewrite Ey, Hpn in E'.
  - mstep E3. destruct (insert_inv sl ns1 ns2 used s1 s2 s3 x) as [Hi3 Hk3]; try done.
    { by rewrite Ha3. }
    destruct (delete_pre_ok sl _ _ s3 a Hi3 Ha0) as [E4 Hi4].
    + rewrite Ha3. eexists. apply Hkeep. subst s1. simpl. apply lookup_insert_eq.
    + rewrite Ha3. intros [?|E']%Hnew; [by subst s1|]. subst s1. simpl in E'. by rewrite lookup_insert_eq in E'.
    + rewrite E4. apply ends_ok. exists x, ((ea x, node_bytes (el x)) :: used). split_and!; [done|done|].
      intros b v Hb. change (shape s3 b = Some v). apply Hk3. by subst s1.
Qed.
End insert.

(** ** [Remove] *)

Section remove.
Context (junk : Z) (sl : SkipList) (ns1 ns2 : list ent) (used : list (Z * Z)) (s : st) (k : Z).
Context (Hi : skip_inv sl (ns1 ++ ns2) used s) (H1 : ∀ x, x ∈ ns1 → ek x < k) (H2 : ∀ x, x ∈ ns2 → k ≤ ek x).

Lemma Remove_absent : height k ns2 = 0%nat →
  ends (Remove junk sl k s) (λ r, ∃ a, array_at sl s a r.2 ∧ skip_inv sl (ns1 ++ ns2) used r.2 ∧ keeps s r.2).
Proof.
  intros Hh. unfold Remove. eapply ends_bind; [by eapply new_pre_ends|]. intros a s1 [Harr Hi1]. simpl in *.
  destruct (FindPre_ok junk sl ns1 ns2 used s1 k Hi1 H1 H2) as (pre & E1 & _). mstep E1. rewrite Hh.
  apply ends_ok. exists a. split_and!; [done|done|]. destruct Harr as (_ & _ & _ & ->). by intros b v.
Qed.

Lemma Remove_present x ns3 : ns2 = x :: ns3 → ek x = k →
  ends (Remove junk sl k s) (λ r, skip_inv sl (ns1 ++ ns3) used r.2 ∧ keeps s r.2 ∧ heap r.2 = heap s).
Proof.
  intros Ens Ek. unfold Remove. eapply ends_bind; [by eapply new_pre_ends|].
  intros a s1 [(Ha0 & Hnone & Hab & Es1) Hi1]. simpl in *.
  destruct (FindPre_ok junk sl ns1 ns2 used s1 k Hi1 H1 H2) as (pre & E1 & Hpre). mstep E1.
  pose proof (sorted_app_inv _ _ (si_sorted _ _ _ _ Hi1)) as (Hs1 & Hs2 & Hs3). rewrite Ens in *.
  rewrite <-Ek, height_head by done. destruct (si_ent _ _ _ _ Hi1 x) as [_ Hx]; [set_solver|].
  rewrite (proj2 (Z.eqb_neq _ _)) by lia. cbn [negb]. rewrite Nat2Z.id.
  destruct (unlink_levels_run (head_ sl) 0 (height_of sl) ns1 ns3 x) with (pre := pre) (n := el x) (s := s1)
    as (s2 & E2 & (Ha2 & _ & Hsh2) & Hl2).
  - apply Hi1.
  - eapply si_nonzero; [exact Hi1|set_solver].
  - lia.
  - done.
  - lia.
  - intros l Hl. apply Hpre. lia.
  - intros l Hl. assert (lvl l (if (l <? el x)%nat then ns1 ++ x :: ns3 else ns1 ++ ns3) = lvl l (ns1 ++ x :: ns3)) as ->.
    { destruct (Nat.ltb_spec l (el x)); [done|]. rewrite !lvl_app, lvl_cons_out by lia. done. }
    by apply Hi1.
  - mstep E2. assert (skip_inv sl (ns1 ++ ns3) used s2) as Hi2.
    { split; rewrite ?Ha2; [apply Hi1|apply Hi1| | | | |done|].
      - destruct (si_head _ _ _ _ Hi1) as (k0 & l0 & E). exists k0, l0. by rewrite Hsh2.
      - intros y Hy. rewrite Hsh2. apply Hi1. set_solver.
      - pose proof (si_nodup _ _ _ _ Hi1) as Hnd. rewrite fmap_app, fmap_cons in Hnd. rewrite fmap_app.
        eapply (sublist_NoDup _ (head_ sl :: (ea <$> ns1) ++ ea x :: (ea <$> ns3))); [done|].
        constructor. apply sublist_app; [done|]. by constructor.
      - apply keys_sorted_app; [done|by apply StronglySorted_inv in Hs2 as [? _]|]. intros y z ? ?. apply Hs3; set_solver.
      - intros b k0 l0 n. rewrite Hsh2. apply Hi1. }
    destruct (delete_pre_ok sl _ _ s2 a Hi2 Ha0) as [E4 Hi4].
    + rewrite Ha2. subst s1. simpl. rewrite lookup_insert_eq. eauto.
    + rewrite Ha2. by subst s1.
    + rewrite E4. apply ends_ok. split_and!; [done| |].
      * intros b v Hb. change (shape s2 b = Some v). rewrite Hsh2. by subst s1.
      * simpl. rewrite Ha2. subst s1. simpl. by apply delete_insert_id.
Qed.
End remove.

(** ** The constructor *)

Lemma clear_links_ok h H n i s :
  (i + n = H)%nat → h ≠ 0 → (∀ l, (l < H)%nat → is_Some (nx s l h)) → (∀ l, (l < i)%nat → nx s l h = Some 0) →
  ∃ s', clear_links h n i s = Ok (tt, s') ∧ arena s' = arena s ∧ (∀ a, shape s' a = shape s a) ∧
    ∀ l, (l < H)%nat → nx s' l h = Some 0.
Proof.
  revert i s. induction n as [|n IH]; intros i s Hn H0 Hsome Hdone; cbn [clear_links].
  - exists s. split_and!; [done|done|done|]. intros. apply Hdone. lia.
  - destruct (SetNext_ok s h i 0) as (s1 & E1 & Ha1 & _ & Hs1 & Hn1); [apply Hsome; lia|]. mstep E1.
    destruct (IH (S i) s1) as (s2 & E2 & Ha2 & Hs2 & Hn2).
    + lia.
    + done.
    + intros l Hl. rewrite Hn1. case_decide; [eauto|]. by apply Hsome.
    + intros l Hl. rewrite Hn1. case_decide; [done|]. apply Hdone. destruct (decide (l = i)); [naive_solver|lia].
    + exists s2. split_and!; [done|congruence| |done]. intros a. by rewrite Hs2, Hs1.
Qed.

Lemma new_SkipList_ends junk m (H : nat) : blocks_apart m → (1 ≤ H)%nat → Z.of_nat H < 2 ^ 31 →
  ends (new_SkipList junk (Z.of_nat H) (start m)) (λ r, ∃ used, max_height_ r.1 = Z.of_nat H ∧ skip_inv r.1 [] used r.2).
Proof.
  intros Hm H1 H2. unfold new_SkipList.
  eapply ends_bind; [apply (NewNode_ends junk 0 H []); [by apply Arena.new_arena_inv|lia|lia|]|].
  { intros a k l n. unfold shape. simpl. by rewrite lookup_empty. }
  intros h s1 (Hh0 & _ & Hsh & Hother & Ha & _). simpl in *. rewrite Nat2Z.id.
  destruct (clear_links_ok h H H 0 s1) as (s2 & E2 & Ha2 & Hs2 & Hn2); [lia|done| |lia|].
  { intros l Hl. by eapply shape_nx. }
  mstep E2. apply ends_ok. exists [(h, node_bytes H)]. split; [done|].
  assert (height_of (mkList h (Z.of_nat H)) = H) as EH by (unfold height_of; simpl; lia).
  split; rewrite ?EH; simpl; [by rewrite Ha2|lia| |set_solver| |constructor| |].
  - exists 0, (Z.of_nat H). by rewrite EH, Hs2.
  - apply NoDup_singleton.
  - intros l Hl. rewrite EH in Hl. split_and!; [done|done|]. exists 0. split; [by apply Hn2|done].
  - intros a k l n. rewrite Hs2. destruct (decide (a = h)) as [->|Hne].
    + rewrite Hsh. intros. simplify_eq. split; [lia|set_solver].
    + destruct (Hother a Hne) as [-> _]. unfold shape. simpl. by rewrite lookup_empty.
Qed.
End alloc.

(** * Searching for iterators *)

Section search.
Context (sl : SkipList) (ns1 ns2 : list ent) (used : list (Z * Z)) (s : st) (Hi : skip_inv sl (ns1 ++ ns2) used s).
#[local] Set Default Proof Using "Hi".

Lemma top_run {B} check go (f : Z * Z * option (list Z) → MS B) :
  (∀ x, x ∈ head_ sl :: (ea <$> ns1) → check s x = Ok tt) →
  (∀ x, x ∈ ea <$> ns1 → go s x = Ok true) → (∀ x, x ∈ 0 :: (ea <$> ns2) → go s x = Ok false) →
  (descend_from_top sl check go None ≫= f) s = f (link_of (head_ sl) (ea <$> ns1), first 0 (ea <$> ns2), None) s.
Proof.
  intros Hc H1 H2. apply bind_ok. unfold descend_from_top. rewrite bind_get. pose proof (si_size _ _ _ _ Hi) as Hsz.
  rewrite length_app in Hsz. destruct (si_max _ _ _ _ Hi) as (_ & ? & _).
  rewrite (descend_run (nx s) (head_ sl) 0 (height_of sl) ns1 ns2 (si_levels _ _ _ _ Hi)); [|done|done|done|lia|set_solver|].
  - pose proof (si_lvl_0 _ _ _ _ Hi) as E. rewrite !lvl_0; [done|..]; intros x Hx;
      destruct (si_ent _ _ _ _ Hi x) as [_ ?]; set_solver by lia.
  - replace (S (height_of sl - 1)) with (height_of sl) by lia.
    trans (height_of sl * S (size (nodes s)))%nat; [|lia]. apply Nat.mul_le_mono_l. lia.
Qed.

Lemma node_key x : x ∈ ns1 ++ ns2 → key_of s (ea x) = Some (ek x) ∧ ea x ≠ 0.
Proof. intros Hx. split; [by eapply si_key|by eapply si_nonzero]. Qed.

Section split.
Context (comparator_ : Z → Z → Z) (Hcmp : ∀ a b, (comparator_ a b <? 0) = (a <? b)).
Context (k : Z) (H1 : ∀ x, x ∈ ns1 → ek x < k) (H2 : ∀ x, x ∈ ns2 → k ≤ ek x).
#[local] Set Default Proof Using "Hi Hcmp H1 H2".

Lemma FindLessThan_ok : FindLessThan comparator_ sl k s = Ok (link_of (head_ sl) (ea <$> ns1), s).
Proof.
  unfold FindLessThan. rewrite top_run; [done|..].
  - intros x [->|(y & -> & Hy)%list_elem_of_fmap]%elem_of_cons; [by rewrite Z.eqb_refl|].
    destruct (_ =? _); [done|]. destruct (node_key y) as [-> _]; [set_solver|]. simpl. rewrite Hcmp.
    by rewrite (proj2 (Z.ltb_lt _ _)) by auto.
  - intros x (y & -> & Hy)%list_elem_of_fmap. destruct (node_key y) as [-> ?]; [set_solver|]. zneq (ea y) 0. simpl.
    rewrite Z.leb_antisym, Hcmp. by rewrite (proj2 (Z.ltb_lt _ _)) by auto.
  - intros x [->|(y & -> & Hy)%list_elem_of_fmap]%elem_of_cons; [done|].
    destruct (node_key y) as [-> ?]; [set_solver|]. zneq (ea y) 0. simpl.
    rewrite Z.leb_antisym, Hcmp. by rewrite (proj2 (Z.ltb_ge _ _)) by auto.
Qed.

Lemma FindGreaterOrEqual_ok : FindGreaterOrEqual comparator_ sl k None s = Ok ((first 0 (ea <$> ns2), None), s).
Proof.
  unfold FindGreaterOrEqual. rewrite top_run; [done|done|..]; unfold KeyIsAfterNode.
  - intros x (y & -> & Hy)%list_elem_of_fmap. destruct (node_key y) as [-> ?]; [set_solver|]. zneq (ea y) 0. simpl.
    rewrite Hcmp. by rewrite (proj2 (Z.ltb_lt _ _)) by auto.
  - intros x [->|(y & -> & Hy)%list_elem_of_fmap]%elem_of_cons; [done|].
    destruct (node_key y) as [-> ?]; [set_solver|]. zneq (ea y) 0. simpl.
    rewrite Hcmp. by rewrite (proj2 (Z.ltb_ge _ _)) by auto.
Qed.
End split.
End search.

Lemma FindLast_ok sl ns used s : skip_inv sl ns used s → FindLast sl s = Ok (link_of (head_ sl) (ea <$> ns), s).
Proof.
  intros Hi. unfold FindLast. rewrite <-(app_nil_r ns) in Hi.
  rewrite (top_run sl ns [] used s Hi); [done|done|..].
  - intros x (y & -> & Hy)%list_elem_of_fmap. destruct (node_key sl ns [] used s Hi y) as [_ ?]; [set_solver|]. by zneq (ea y) 0.
  - intros x ->%list_elem_of_singleton. done.
Qed.

(** ** The relation to the specification *)

Definition iter_ok (s : st) (ns : list ent) (it : Iterator) (p : option (Z * bool)) : Prop :=
  match p with
  | None => node_ it = 0
  | Some (k, live) => node_ it ≠ 0 ∧ key_of s (node_ it) = Some k ∧ (live = true → ∃ x, x ∈ ns ∧ ea x = node_ it ∧ ek x = k)
  end.

Definition refines (sl : SkipList) (it : Iterator) (s : st) (p : spec) : Prop :=
  ∃ ns used, skip_inv sl ns used s ∧ keys p = ek <$> ns ∧ iter_ok s ns it (pos p).

Section positions.
Context (sl : SkipList) (ns : list ent) (used : list (Z * Z)) (s : st) (Hi : skip_inv sl ns used s).
#[local] Set Default Proof Using "Hi".

Lemma iter_first ns2 : (∀ x, x ∈ ns2 → x ∈ ns) → iter_ok s ns (mkIter (first 0 (ea <$> ns2))) (at_key (head (ek <$> ns2))).
Proof.
  intros Hsub. destruct ns2 as [|x ns2]; [done|]. assert (x ∈ ns) as Hx by (apply Hsub; set_solver).
  split_and!; [by eapply si_nonzero|by eapply si_key|]. intros _. exists x. done.
Qed.

Lemma iter_last ns1 : (∀ x, x ∈ ns1 → x ∈ ns) →
  iter_ok s ns (mkIter (let n := link_of (head_ sl) (ea <$> ns1) in if n =? head_ sl then 0 else n)) (at_key (last (ek <$> ns1))).
Proof.
  intros Hsub. unfold link_of. rewrite !fmap_last. destruct (last ns1) as [x|] eqn:E; simpl.
  - assert (x ∈ ns) as Hx by (apply Hsub; by apply last_Some_elem_of).
    rewrite (proj2 (Z.eqb_neq _ _)).
    + split_and!; [by eapply si_nonzero|by eapply si_key|]. intros _. exists x. done.
    + intros Ex. pose proof (si_nodup _ _ _ _ Hi) as [Hn _]%NoDup_cons. apply Hn. rewrite <-Ex. apply list_elem_of_fmap. eauto.
  - by rewrite Z.eqb_refl.
Qed.

(** The node behind one of the list. *)
Lemma next_ok u x v : ns = u ++ x :: v → nx s 0 (ea x) = Some (first 0 (ea <$> v)).
Proof.
  intros E. destruct (si_max _ _ _ _ Hi) as (_ & ? & _). pose proof (si_levels _ _ _ _ Hi 0%nat ltac:(lia)) as Hs.
  rewrite (si_lvl_0 _ _ _ _ Hi), E, fmap_app, fmap_cons in Hs.
  pose proof (seg_link (nx s 0) (head_ sl) ((ea <$> u) ++ [ea x]) (ea <$> v) 0) as Hl. rewrite <-app_assoc in Hl.
  specialize (Hl Hs). unfold link_of in Hl. by rewrite last_snoc in Hl.
Qed.
End positions.

(** A filter that keeps one part of a list. *)
Section filters.
Context {A : Type} (P : A → Prop) {Pdec : ∀ x, Decision (P x)}.
Implicit Types l : list A.

Lemma filter_all l : (∀ x, x ∈ l → P x) → filter P l = l.
Proof. induction l as [|x l IH]; intros Hl; [done|]. rewrite filter_cons_True by set_solver. f_equal. apply IH. set_solver. Qed.

Lemma filter_none l : (∀ x, x ∈ l → ¬ P x) → filter P l = [].
Proof. induction l as [|x l IH]; intros Hl; [done|]. rewrite filter_cons_False by set_solver. apply IH. set_solver. Qed.

Lemma filter_front l1 l2 : (∀ x, x ∈ l1 → P x) → (∀ x, x ∈ l2 → ¬ P x) → filter P (l1 ++ l2) = l1.
Proof. intros H1 H2. by rewrite filter_app, filter_all, filter_none, app_nil_r. Qed.

Lemma filter_back l1 l2 : (∀ x, x ∈ l1 → ¬ P x) → (∀ x, x ∈ l2 → P x) → filter P (l1 ++ l2) = l2.
Proof. intros H1 H2. by rewrite filter_app, filter_none, filter_all. Qed.
End filters.
End SkipOps.
