(* ===== verification/SkipProps.v ===== *)
(** The skip list implements an ordered set with an iterator, and loses memory in two cases. *)

From S2P Require Import Prelude Chains HeapBlocks Arena SkipLevels SkipList SkipFacts SkipOps.
From stdpp Require Import options.

Import SkipList SkipSpec SkipFacts SkipOps.

Module SkipProps.

(** A key is in the list, or has a place in it. *)
Inductive place (k : Z) : list ent → list ent → Prop :=
  | place_at x ns1 ns2 : ek x = k → (∀ y, y ∈ ns1 → ek y < k) → (∀ y, y ∈ ns2 → k < ek y) → place k ns1 (x :: ns2)
  | place_none ns1 ns2 : (∀ y, y ∈ ns1 → ek y < k) → (∀ y, y ∈ ns2 → k < ek y) → place k ns1 ns2.

Lemma place_exists k ns : StronglySorted (λ x y, ek x < ek y) ns → ∃ ns1 ns2, ns = ns1 ++ ns2 ∧ place k ns1 ns2.
Proof.
  intros Hs. destruct (sorted_split k ns Hs) as (ns1 & ns2 & -> & H1 & H2). exists ns1, ns2. split; [done|].
  apply sorted_app_inv in Hs as (_ & Hs & _). destruct ns2 as [|x ns2]; [by apply place_none; set_solver|].
  apply StronglySorted_inv in Hs as [_ Hx]. rewrite Forall_forall in Hx.
  destruct (decide (ek x = k)) as [E|E].
  - apply place_at; [done|done|]. intros y Hy. specialize (Hx y Hy). lia.
  - apply place_none; [done|]. pose proof (H2 x ltac:(set_solver)). intros y [->|Hy]%elem_of_cons; [lia|].
    specialize (Hx y Hy). lia.
Qed.

Lemma place_split k ns1 ns2 : place k ns1 ns2 → (∀ x, x ∈ ns1 → ek x < k) ∧ (∀ x, x ∈ ns2 → k ≤ ek x).
Proof.
  destruct 1 as [x ns1 ns2 E H1 H2|ns1 ns2 H1 H2]; (split; [done|]).
  - intros y [->|Hy]%elem_of_cons; [lia|]. specialize (H2 y Hy). lia.
  - intros y Hy. specialize (H2 y Hy). lia.
Qed.

(** Sides of the key list, for the filters of the specification. *)
Ltac on_keys := let y := fresh in let x := fresh in let Hx := fresh in
  intros y (x & -> & Hx)%list_elem_of_fmap;
  repeat match goal with H : ∀ z, z ∈ _ → _ |- _ => first [specialize (H x Hx)|clear H] end; lia.

Lemma add_keys x ns1 ns2 : (∀ y, y ∈ ns1 → ek y < ek x) → (∀ y, y ∈ ns2 → ek x < ek y) →
  add (ek x) (ek <$> ns1 ++ ns2) = ek <$> ns1 ++ x :: ns2.
Proof.
  intros H1 H2. unfold add. rewrite !fmap_app, fmap_cons.
  rewrite (filter_front (λ y, y < ek x)), (filter_back (λ y, ek x < y)); [done|on_keys..].
Qed.

Lemma add_keys_there x ns1 ns2 : (∀ y, y ∈ ns1 → ek y < ek x) → (∀ y, y ∈ ns2 → ek x < ek y) →
  add (ek x) (ek <$> ns1 ++ x :: ns2) = ek <$> ns1 ++ x :: ns2.
Proof.
  intros H1 H2. unfold add. rewrite !fmap_app, fmap_cons, !filter_app.
  rewrite (filter_all (λ y, y < ek x) (ek <$> ns1)), (filter_none (λ y, ek x < y) (ek <$> ns1)) by on_keys.
  rewrite !filter_cons_False by lia.
  rewrite (filter_none (λ y, y < ek x) (ek <$> ns2)), (filter_all (λ y, ek x < y) (ek <$> ns2)) by on_keys.
  by rewrite app_nil_r.
Qed.

Lemma remove_keys x ns1 ns2 : (∀ y, y ∈ ns1 → ek y < ek x) → (∀ y, y ∈ ns2 → ek x < ek y) →
  remove (ek x) (ek <$> ns1 ++ x :: ns2) = ek <$> ns1 ++ ns2.
Proof.
  intros H1 H2. unfold remove. rewrite !fmap_app, fmap_cons, filter_app, filter_cons_False by naive_solver.
  rewrite !filter_all; [done|on_keys..].
Qed.

Lemma remove_keys_none k ns1 ns2 : (∀ y, y ∈ ns1 → ek y < k) → (∀ y, y ∈ ns2 → k < ek y) →
  remove k (ek <$> ns1 ++ ns2) = ek <$> ns1 ++ ns2.
Proof.
  intros H1 H2. unfold remove. apply filter_all. intros y (x & -> & [Hx|Hx]%elem_of_app)%list_elem_of_fmap.
  - specialize (H1 x Hx). lia.
  - specialize (H2 x Hx). lia.
Qed.

(** Iterators survive what keeps the nodes. *)
Lemma iter_keeps s s' ns ns' it p : iter_ok s ns it p → keeps s s' → (∀ x, x ∈ ns → x ∈ ns') → iter_ok s' ns' it p.
Proof.
  intros Hit Hk Hsub. destruct p as [[k b]|]; [|done]. destruct Hit as (H0 & Hkey & Hl). split_and!; [done| |].
  - unfold key_of in Hkey. destruct (nodes s !! node_ it) as [n|] eqn:E; simplify_eq/=.
    eapply shape_key, Hk. unfold shape. by rewrite E.
  - intros Hb. destruct (Hl Hb) as (x & ? & ?). exists x. auto.
Qed.

Lemma iter_removed s s' ns1 ns2 x it p :
  NoDup (ea <$> ns1 ++ x :: ns2) → iter_ok s (ns1 ++ x :: ns2) it p → keeps s s' →
  iter_ok s' (ns1 ++ ns2) it match p with Some (k, b) => Some (k, b && negb (k =? ek x)) | None => None end.
Proof.
  intros Hnd Hit Hk. eapply iter_keeps in Hit; [|exact Hk|by intros y Hy; exact Hy].
  destruct p as [[k b]|]; [|done]. destruct Hit as (H0 & Hkey & Hl). split_and!; [done|done|].
  intros [Hb Hne]%andb_true_iff. destruct (Hl Hb) as (y & Hy & Ey & Ek). exists y. split_and!; [|done|done].
  rewrite elem_of_app, elem_of_cons in Hy. rewrite elem_of_app. destruct Hy as [?|[->|?]]; [by left| |by right].
  rewrite Ek, Z.eqb_refl in Hne. done.
Qed.

Section refinement.
Context {malloc_fn : Malloc} {Hlaws : MallocLaws} (rand : nat → Z).
Context (comparator_ : Z → Z → Z) (Hcmp : ∀ a b, (comparator_ a b <? 0) = (a <? b)) (junk : Z).
#[local] Set Default Proof Using "All".

Implicit Types (sl : SkipList) (it : Iterator) (s : st) (p : spec).

Lemma Insert_refines sl it s ks ps k : refines sl it s (mkSpec ks ps) →
  ends (Insert rand junk sl k s) (λ r, refines sl it r.2 (mkSpec (add k ks) ps)).
Proof.
  intros (ns & used & Hi & Ek & Hit). simpl in *.
  destruct (place_exists k ns (si_sorted _ _ _ _ Hi)) as (ns1 & ns2 & -> & Hp).
  pose proof (place_split _ _ _ Hp) as [H1 H2]. pose proof (sorted_app_inv _ _ (si_sorted _ _ _ _ Hi)) as (_ & Hs & _).
  destruct Hp as [x ns1 ns2 Ex _ H3|ns1 ns2 _ H3].
  - eapply ends_weaken; [apply (Insert_present rand junk sl ns1 (x :: ns2) used s k Hi H1 H2)|].
    { rewrite <-Ex, height_head by done. destruct (si_ent _ _ _ _ Hi x) as [_ ?]; [set_solver|lia]. }
    intros [[] s'] (a & n & _ & Hi' & Hk). exists (ns1 ++ x :: ns2), used. split_and!; [done| |by eapply iter_keeps].
    simpl. rewrite Ek, <-Ex. apply add_keys_there; naive_solver.
  - eapply ends_weaken; [apply (Insert_absent rand junk sl ns1 ns2 used s k Hi H1 H2); [|done]|].
    { apply height_zero. intros y Hy ?. specialize (H3 y Hy). lia. }
    intros [[] s'] (x & used' & Ex & Hi' & Hk). exists (ns1 ++ x :: ns2), used'. split_and!; [done| |].
    + simpl. rewrite Ek, <-Ex. apply add_keys; naive_solver.
    + eapply iter_keeps; [exact Hit|done|set_solver].
Qed.

Lemma Remove_refines sl it s ks ps k : refines sl it s (mkSpec ks ps) →
  ends (Remove junk sl k s) (λ r, refines sl it r.2 (mkSpec (remove k ks)
    match ps with Some (k', b) => Some (k', b && negb (k' =? k)) | None => None end)).
Proof.
  intros (ns & used & Hi & Ek & Hit). simpl in *.
  destruct (place_exists k ns (si_sorted _ _ _ _ Hi)) as (ns1 & ns2 & -> & Hp).
  pose proof (place_split _ _ _ Hp) as [H1 H2].
  destruct Hp as [x ns1 ns2 Ex _ H3|ns1 ns2 _ H3].
  - eapply ends_weaken; [by apply (Remove_present junk sl ns1 (x :: ns2) used s k Hi H1 H2 x ns2)|].
    intros [[] s'] (Hi' & Hk & _). exists (ns1 ++ ns2), used. subst k ks. split_and!; [done|by simpl; apply remove_keys|].
    simpl. eapply iter_removed; [|exact Hit|done]. pose proof (si_nodup _ _ _ _ Hi) as [_ ?]%NoDup_cons. done.
  - eapply ends_weaken; [apply (Remove_absent junk sl ns1 ns2 used s k Hi H1 H2)|].
    { apply height_zero. intros y Hy ?. specialize (H3 y Hy). lia. }
    intros [[] s'] (a & _ & Hi' & Hk). exists (ns1 ++ ns2), used. subst ks. split_and!; [done|by simpl; apply remove_keys_none|].
    simpl. destruct ps as [[k' b]|]; [|done]. pose proof (iter_keeps _ _ _ _ _ _ Hit Hk (λ x H, H)) as Hit'.
    destruct Hit' as (H0 & Hkey & Hl). split_and!; [done|done|]. intros [Hb _]%andb_true_iff. auto.
Qed.

Lemma Contains_refines sl it s ks ps k : refines sl it s (mkSpec ks ps) →
  ends (Contains junk sl k s) (λ r, r = (bool_decide (k ∈ ks), s)).
Proof.
  intros (ns & used & Hi & Ek & Hit). cbn [keys pos] in *. subst ks.
  destruct (place_exists k ns (si_sorted _ _ _ _ Hi)) as (ns1 & ns2 & -> & Hp).
  pose proof (place_split _ _ _ Hp) as [H1 H2]. pose proof (sorted_app_inv _ _ (si_sorted _ _ _ _ Hi)) as (_ & Hs & _).
  eapply ends_weaken; [apply (Contains_ends junk sl ns1 ns2 used s k Hi H1 H2)|]. intros r ->. f_equal.
  destruct Hp as [x ns1 ns2 Ex _ H3|ns1 ns2 _ H3].
  - rewrite bool_decide_true by (rewrite fmap_app, fmap_cons; set_solver).
    rewrite <-Ex, height_head by done. destruct (si_ent _ _ _ _ Hi x) as [_ ?]; [set_solver|].
    rewrite (proj2 (Z.eqb_neq _ _)) by lia. done.
  - rewrite bool_decide_false, height_zero; [done| |].
    + intros y Hy ?. specialize (H3 y Hy). lia.
    + intros (y & -> & [Hy|Hy]%elem_of_app)%list_elem_of_fmap; [specialize (H1 y Hy)|specialize (H3 y Hy)]; lia.
Qed.

Lemma Seek_refines sl it s ks ps k : refines sl it s (mkSpec ks ps) →
  ∃ it', Seek comparator_ sl k s = Ok (it', s) ∧ refines sl it' s (mkSpec ks (at_key (head (filter (λ x, k ≤ x) ks)))).
Proof.
  intros (ns & used & Hi & Ek & _). cbn [keys pos] in *. subst ks.
  destruct (sorted_split k ns (si_sorted _ _ _ _ Hi)) as (ns1 & ns2 & -> & H1 & H2).
  eexists. split.
  - unfold Seek. mstep (FindGreaterOrEqual_ok sl ns1 ns2 used s Hi comparator_ Hcmp k H1 H2). done.
  - exists (ns1 ++ ns2), used. split_and!; [done|done|]. simpl. rewrite fmap_app, (filter_back (λ x, k ≤ x)) by on_keys.
    apply (iter_first _ _ _ _ Hi). set_solver.
Qed.

Lemma SeekToFirst_refines sl it s ks ps : refines sl it s (mkSpec ks ps) →
  ∃ it', SeekToFirst sl s = Ok (it', s) ∧ refines sl it' s (mkSpec ks (at_key (head ks))).
Proof.
  intros (ns & used & Hi & Ek & _). cbn [keys pos] in *. subst ks.
  destruct (si_max _ _ _ _ Hi) as (_ & ? & _). pose proof (si_levels _ _ _ _ Hi 0%nat ltac:(lia)) as Hs.
  rewrite (si_lvl_0 _ _ _ _ Hi) in Hs. pose proof (seg_link (nx s 0) (head_ sl) [] (ea <$> ns) 0 Hs) as Hn.
  eexists. split; [unfold SeekToFirst; by mstep (Next_ok _ _ _ _ Hn)|].
  exists ns, used. split_and!; [done|done|]. by apply (iter_first _ _ _ _ Hi).
Qed.

Lemma SeekToLast_refines sl it s ks ps : refines sl it s (mkSpec ks ps) →
  ∃ it', SeekToLast sl s = Ok (it', s) ∧ refines sl it' s (mkSpec ks (at_key (last ks))).
Proof.
  intros (ns & used & Hi & Ek & _). cbn [keys pos] in *. subst ks.
  eexists. split; [unfold SeekToLast; by mstep (FindLast_ok sl ns used s Hi)|].
  exists ns, used. split_and!; [done|done|]. by apply (iter_last _ _ _ _ Hi).
Qed.

Lemma Valid_iter s ns it ps : iter_ok s ns it ps → Valid it = bool_decide (is_Some ps).
Proof.
  unfold Valid. destruct ps as [[k b]|]; [intros (H0 & _)|intros H0; simpl in H0; by rewrite H0].
  rewrite (proj2 (Z.eqb_neq _ _)) by done. by rewrite bool_decide_true by eauto.
Qed.

Lemma iter_Next_refines sl it s ks k : refines sl it s (mkSpec ks (Some (k, true))) →
  ∃ it', iter_Next it s = Ok (it', s) ∧ refines sl it' s (mkSpec ks (at_key (head (filter (λ x, k < x) ks)))).
Proof.
  intros (ns & used & Hi & Ek & Hit). cbn [keys pos] in *. subst ks. unfold iter_Next.
  rewrite (Valid_iter _ _ _ _ Hit), bool_decide_true by eauto. destruct Hit as (H0 & _ & Hl).
  destruct (Hl eq_refl) as (x & (u & v & E)%list_elem_of_split & Ex & Ek). rewrite (bind_lift _ _ _ tt) by done.
  rewrite <-Ex. mstep (Next_ok _ _ _ _ (next_ok _ _ _ _ Hi u x v E)). eexists. split; [done|].
  exists ns, used. split_and!; [done|done|]. simpl. pose proof (si_sorted _ _ _ _ Hi) as Hs.
  rewrite E in Hs |- *. apply sorted_app_inv in Hs as (_ & [_ Hx]%StronglySorted_inv & Huv). rewrite Forall_forall in Hx.
  assert (filter (λ y, k < y) (ek <$> u ++ x :: v) = ek <$> v) as ->.
  { rewrite cons_middle, app_assoc, fmap_app. apply filter_back.
    - intros y (z & -> & [Hz|Hz]%elem_of_app)%list_elem_of_fmap.
      + pose proof (Huv z x Hz ltac:(set_solver)). lia.
      + apply list_elem_of_singleton in Hz as ->. lia.
    - intros y (z & -> & Hz)%list_elem_of_fmap. specialize (Hx z Hz). lia. }
  rewrite <-E. apply (iter_first _ _ _ _ Hi). rewrite E. set_solver.
Qed.

Lemma iter_Prev_refines sl it s ks k b : refines sl it s (mkSpec ks (Some (k, b))) →
  ∃ it', iter_Prev comparator_ sl it s = Ok (it', s) ∧ refines sl it' s (mkSpec ks (at_key (last (filter (λ x, x < k) ks)))).
Proof.
  intros (ns & used & Hi & Ek & Hit). cbn [keys pos] in *. subst ks. unfold iter_Prev.
  rewrite (Valid_iter _ _ _ _ Hit), bool_decide_true by eauto. destruct Hit as (H0 & Hkey & _).
  rewrite (bind_lift _ _ _ tt) by done. rewrite bind_get, Hkey. rewrite (bind_lift _ _ _ k) by done.
  destruct (sorted_split k ns (si_sorted _ _ _ _ Hi)) as (ns1 & ns2 & -> & H1 & H2).
  mstep (FindLessThan_ok sl ns1 ns2 used s Hi comparator_ Hcmp k H1 H2). eexists. split; [done|].
  exists (ns1 ++ ns2), used. split_and!; [done|done|]. simpl. rewrite fmap_app, (filter_front (λ x, x < k)) by on_keys.
  apply (iter_last _ _ _ _ Hi). set_solver.
Qed.

(** One call follows the specification. *)
Lemma exec_refines sl it s p o : refines sl it s p →
  match step o p with
  | None => True
  | Some (Err f) => exec rand comparator_ junk sl it o s = Err f
  | Some (Ok (r, p')) => ends (exec rand comparator_ junk sl it o s) (λ q, q.1.1 = r ∧ refines sl q.1.2 q.2 p')
  end.
Proof.
  intros Hr. destruct p as [ks ps]. pose proof Hr as (ns & used & Hi & Ek & Hit). cbn [pos] in Hit.
  pose proof (Valid_iter _ _ _ _ Hit) as Hv.
  assert (∀ (m : MS Iterator) f, (∃ it', m s = Ok (it', s) ∧ refines sl it' s f) →
    ends ((m ≫= λ it, mret (RUnit, it)) s) (λ q, q.1.1 = RUnit ∧ refines sl q.1.2 q.2 f)) as Hmove.
  { intros m f (it' & E & ?). rewrite (bind_ok _ _ _ _ _ E). by apply ends_ok. }
  assert (ps = None → ∀ B (g : unit → MS B), (lift (assert_ (Valid it)) ≫= g) s = Err FAssert) as Hbad.
  { intros -> B g. rewrite Hv. done. }
  destruct o as [k|k|k|k| | | | | |]; cbn [step exec keys pos].
  - eapply ends_bind; [by apply Insert_refines|]. intros [] s' ?. by apply ends_ok.
  - eapply ends_bind; [by apply Remove_refines|]. intros [] s' ?. by apply ends_ok.
  - eapply ends_bind; [by eapply Contains_refines|]. intros b s' [= -> ->]. by apply ends_ok.
  - by eapply Hmove, Seek_refines.
  - by eapply Hmove, SeekToFirst_refines.
  - by eapply Hmove, SeekToLast_refines.
  - destruct ps as [[k []]|]; [by apply Hmove, iter_Next_refines|done|].
    unfold iter_Next, mbind at 1, M_bind at 1. by rewrite Hbad.
  - destruct ps as [[k b]|]; [by eapply Hmove, iter_Prev_refines|].
    unfold iter_Prev, mbind at 1, M_bind at 1. by rewrite Hbad.
  - rewrite Hv. by apply ends_ok.
  - destruct ps as [[k b]|].
    + destruct Hit as (_ & Hkey & _). unfold iter_key. rewrite Hv, bool_decide_true by eauto.
      erewrite (bind_ok _ _ s k s); [by apply ends_ok|]. rewrite (bind_lift _ _ _ tt) by done. rewrite bind_get, Hkey. done.
    + unfold iter_key, mbind at 1, M_bind at 1. by rewrite Hbad.
Qed.

Lemma session_refines sl it s p os r : refines sl it s p → steps os p = Some r →
  match r with
  | Err f => session rand comparator_ junk sl it os s = Err f ∨
      (session rand comparator_ junk sl it os s = Err FNoMem ∧ ∃ n m, new_block n m = 0)
  | Ok rs => ends (session rand comparator_ junk sl it os s) (λ q, q.1 = rs)
  end.
Proof.
  revert it s p r. induction os as [|o os IH]; intros it s p r Hr Hs; cbn [steps session] in *.
  - simplify_eq. by apply ends_ok.
  - pose proof (exec_refines sl it s p o Hr) as He. destruct (step o p) as [[[x p']|f]|]; [| |done].
    + destruct He as [([[x' it'] s'] & E & Hx & Hr')|[E Hf]]; simpl in *; subst.
      * destruct (steps os p') as [r'|] eqn:Es; [|done]. specialize (IH _ _ _ _ Hr' Es). mstep E.
        destruct r' as [rs|f]; simplify_eq.
        -- eapply ends_bind; [exact IH|]. intros rs' s'' E'. simpl in E'. subst rs'. by apply ends_ok.
        -- unfold mbind, M_bind. destruct IH as [->|[-> ?]]; [by left|right; eauto].
      * unfold mbind, M_bind. rewrite E. destruct (steps os p') as [[rs|f]|]; simplify_eq; by right.
    + simplify_eq. left. unfold mbind, M_bind. by rewrite He.
Qed.

Lemma new_SkipList_refines m H : blocks_apart m → 1 ≤ H < 2 ^ 31 →
  ends (new_SkipList junk H (start m)) (λ r, refines r.1 new_Iterator r.2 empty).
Proof.
  intros Hm HH. rewrite <-(Z2Nat.id H) by lia.
  eapply ends_weaken; [apply (new_SkipList_ends junk m (Z.to_nat H) Hm); lia|].
  intros r (used & _ & Hi). exists [], used. done.
Qed.

(** C6. A skip list in an arena is an ordered set with an iterator.  Whatever calls a client makes
    of a list it constructed, insertions, removals and searches mixed with moves of an iterator,
    and whatever levels [rand] chooses, every call returns what it returns for a set of keys kept
    in order: an iterator stands at the least key not below the one sought, at the first or the
    last key, or moves to a neighbour, also when keys were inserted or removed in between; a call
    on an iterator that stands nowhere fails its assertion.  The one call that is not allowed is
    [Next] on an iterator whose key was removed.  Nothing else stops the list but a heap that is
    out of memory. *)
Theorem skip_session_refines m H os r :
  blocks_apart m → 1 ≤ H < 2 ^ 31 → steps os empty = Some r →
  let c := program rand comparator_ junk H os (start m) in
  fst <$> c = r ∨ (c = Err FNoMem ∧ ∃ n l, new_block n l = 0).
Proof.
  intros Hm HH Hs c. subst c. unfold program. unfold mbind, M_bind.
  destruct (new_SkipList_refines m H Hm HH) as [([sl s] & -> & Hr)|[-> Hf]]; [|by right].
  pose proof (session_refines sl new_Iterator s empty os r Hr Hs) as Hc. destruct r as [rs|f].
  - destruct Hc as [([rs' s'] & -> & Hq)|[-> Hf]]; [|by right]. left. simpl in *. by subst.
  - destruct Hc as [->|[-> Hf]]; [by left|by right].
Qed.

(** A call that has nothing to do loses memory: inserting a key that is in the list, or
    removing one that is not, returns without releasing the array [pre] of [max_height_]
    pointers, which is not in the arena, so that deleting the arena does not release it either. *)
Theorem skip_idle_calls_leak sl it s p k :
  refines sl it s p →
  let o := if bool_decide (k ∈ keys p) then OInsert k else ORemove k in
  ends (exec rand comparator_ junk sl it o s) (λ q, ∃ a,
    heap s !! a = None ∧ (a ∉ Arena.blocks_ (arena q.2)) ∧ heap q.2 = <[a := 8 * max_height_ sl]> (heap s)).
Proof.
  intros (ns & used & Hi & Ek & _). rewrite Ek.
  destruct (place_exists k ns (si_sorted _ _ _ _ Hi)) as (ns1 & ns2 & -> & Hp).
  pose proof (place_split _ _ _ Hp) as [H1 H2]. pose proof (sorted_app_inv _ _ (si_sorted _ _ _ _ Hi)) as (_ & Hs & _).
  destruct Hp as [x ns1 ns2 Ex _ H3|ns1 ns2 _ H3].
  - rewrite bool_decide_true by (rewrite fmap_app, fmap_cons; set_solver). cbn [exec].
    eapply ends_bind; [apply (Insert_present rand junk sl ns1 (x :: ns2) used s k Hi H1 H2)|].
    { rewrite <-Ex, height_head by done. destruct (si_ent _ _ _ _ Hi x) as [_ ?]; [set_solver|lia]. }
    intros [] s' (a & n & (_ & ? & ? & E) & _). simpl in *. apply ends_ok. exists a. subst s'. done.
  - rewrite bool_decide_false.
    2: { intros (y & -> & [Hy|Hy]%elem_of_app)%list_elem_of_fmap; [specialize (H1 y Hy)|specialize (H3 y Hy)]; lia. }
    cbn [exec]. eapply ends_bind; [apply (Remove_absent junk sl ns1 ns2 used s k Hi H1 H2)|].
    { apply height_zero. intros y Hy ?. specialize (H3 y Hy). lia. }
    intros [] s' (a & (_ & ? & ? & E) & _). simpl in *. apply ends_ok. exists a. subst s'. done.
Qed.
End refinement.

(** ** Witnesses *)

Definition demo_heap : blocks := {[ 64 := 100 ]}.

Lemma demo_heap_apart : blocks_apart demo_heap.
Proof. unfold demo_heap. intros a n b k [<- <-]%lookup_singleton_Some [<- <-]%lookup_singleton_Some. done. Qed.

Definition demo_rand (n : nat) : Z := Z.of_nat (n * n / 3).

Lemma demo_cmp a b : (a - b <? 0) = (a <? b).
Proof. zbool; lia. Qed.

Definition demo_ops : list op :=
  [OInsert 5; OInsert 3; OInsert 9; OInsert 7; OInsert 3; OContains 7; OSeek 6; ORemove 7; OKey; OPrev; OKey; OContains 7;
   OFirst; OKey; ONext; OInsert 6; ONext; OKey; ONext; OKey; OPrev; OPrev; OKey; OLast; OKey; ONext; OValid; OSeek 10; OPrev].

Definition demo_outs : list out :=
  [RUnit; RUnit; RUnit; RUnit; RUnit; RBool true; RUnit; RUnit; RKey 7; RUnit; RKey 5; RBool false;
   RUnit; RKey 3; RUnit; RUnit; RUnit; RKey 6; RUnit; RKey 9; RUnit; RUnit; RKey 5; RUnit; RKey 9; RUnit; RBool false; RUnit].

Lemma skip_session_refines_witness :
  fst <$> program (malloc_fn := bump_block) demo_rand Z.sub 7 4 (take 28 demo_ops) (start demo_heap) = Ok demo_outs ∧
  fst <$> program (malloc_fn := bump_block) demo_rand Z.sub 7 4 demo_ops (start demo_heap) = Err FAssert.
Proof.
  split.
  - destruct (skip_session_refines (malloc_fn := bump_block) demo_rand Z.sub demo_cmp 7 demo_heap 4 (take 28 demo_ops) (Ok demo_outs))
      as [E|[E _]]; [exact demo_heap_apart|lia|by vm_compute|exact E|].
    exfalso. assert (match program (malloc_fn := bump_block) demo_rand Z.sub 7 4 (take 28 demo_ops) (start demo_heap) with
      Ok _ => true | _ => false end = true) as E2 by by vm_compute. by rewrite E in E2.
  - destruct (skip_session_refines (malloc_fn := bump_block) demo_rand Z.sub demo_cmp 7 demo_heap 4 demo_ops (Err FAssert))
      as [E|[E _]]; [exact demo_heap_apart|lia|by vm_compute|exact E|].
    exfalso. assert (match program (malloc_fn := bump_block) demo_rand Z.sub 7 4 demo_ops (start demo_heap) with
      Err FNoMem => false | _ => true end = true) as E2 by by vm_compute. by rewrite E in E2.
Defined.

Lemma skip_idle_calls_leak_witness :
  ∃ sl s, new_SkipList (malloc_fn := bump_block) 7 4 (start demo_heap) = Ok (sl, s) ∧
  ends (malloc_fn := bump_block) (exec (malloc_fn := bump_block) demo_rand Z.sub 7 sl new_Iterator (ORemove 5) s) (λ q, ∃ a,
    heap s !! a = None ∧ (a ∉ Arena.blocks_ (arena q.2)) ∧ heap q.2 = <[a := 8 * max_height_ sl]> (heap s)).
Proof.
  destruct (new_SkipList_refines (malloc_fn := bump_block) demo_rand Z.sub demo_cmp 7 demo_heap 4 demo_heap_apart ltac:(lia))
    as [([sl s] & E & Hr)|[E _]].
  - exists sl, s. split; [exact E|].
    exact (skip_idle_calls_leak (malloc_fn := bump_block) demo_rand Z.sub demo_cmp 7 sl new_Iterator s empty 5 Hr).
  - exfalso. assert (match new_SkipList (malloc_fn := bump_block) 7 4 (start demo_heap) with Ok _ => true | _ => false end = true)
      as E2 by by vm_compute. by rewrite E in E2.
Defined.
End SkipProps.
