(* ===== verification/SkipLite.v ===== *)
(** The first skip list of the source, [ComponentsW/skiplist.leveldb/skiplist_lite.cpp]: keys of
    type [int], nodes and their arrays of links from [operator new], a node [tail_] at the end of
    every level, and removal that deletes nodes. *)

From S2P Require Import Prelude Chains HeapBlocks SkipLevels.
From stdpp Require Import options.

Module SkipLite.

(** A node; [next_] is the address of its array of links. *)
Record Node := mkNode { key : Z; level : Z; next_ : Z }.

(** The process heap, the nodes and arrays in it, and how often [rand] was called. *)
Record st := mkSt { mem : blocks; nodes : gmap Z Node; arrays : gmap Z (list Z); rands : nat }.

Record SkipList := mkList { head_ : Z; tail_ : Z; MAXLEVEL : Z }.

Definition set_mem (s : st) m := mkSt m (nodes s) (arrays s) (rands s).
Definition set_nodes (s : st) n := mkSt (mem s) n (arrays s) (rands s).
Definition set_arrays (s : st) a := mkSt (mem s) (nodes s) a (rands s).

Abbreviation MS := (M st).

Definition sizeof_Node := 16.

Definition levels_of (sl : SkipList) : nat := Z.to_nat (MAXLEVEL sl).

Definition nx (s : st) (l : nat) (a : Z) : option Z :=
  n ← nodes s !! a; arr ← arrays s !! next_ n; arr !! l.
Definition key_of (s : st) (a : Z) : option Z := key <$> nodes s !! a.

(** [p->next_[l]] and [p->next_[l] = x]. *)
Definition Next (p : Z) (l : nat) : MS Z := s ← get; lift (deref (nx s l p)).
Definition SetNext (p : Z) (l : nat) (x : Z) : MS unit :=
  Next p l;;
  s ← get;
  n ← lift (deref (nodes s !! p));
  modify (λ s, set_arrays s (alter (λ arr, <[l := x]> arr) (next_ n) (arrays s))).

(** [Compare], with the [Comparator] of [skiplist_lite.h]. *)
Definition Compare (a b : Z) : Z := if a <? b then -1 else if b <? a then 1 else 0.

Section skiplist.
(** The allocator, the results of [rand], and what fresh memory holds. *)
Context {malloc_fn : Malloc} (rand : nat → Z) (junk : Z).

(** [new Node(key)] and [new Node*[n]]. *)
Definition new_node (k : Z) : MS Z :=
  a ← zoom mem set_mem (operator_new sizeof_Node);
  modify (λ s, set_nodes s (<[a := mkNode k junk junk]> (nodes s)));;
  mret a.
Definition new_array (n : Z) : MS Z :=
  a ← zoom mem set_mem (operator_new (8 * n));
  modify (λ s, set_arrays s (<[a := replicate (Z.to_nat n) junk]> (arrays s)));;
  mret a.

(** [delete] and [delete[]]: what was there is gone. *)
Definition delete_node (a : Z) : MS unit :=
  zoom mem set_mem (free a);; modify (λ s, set_nodes s (delete a (nodes s))).
Definition delete_array (a : Z) : MS unit :=
  zoom mem set_mem (free a);; modify (λ s, set_arrays s (delete a (arrays s))).

Definition NewNode (k lev : Z) : MS Z :=
  result ← new_node k;
  modify (λ s, set_nodes s (alter (λ n, mkNode (key n) lev (next_ n)) result (nodes s)));;
  arr ← new_array lev;
  modify (λ s, set_nodes s (alter (λ n, mkNode (key n) (level n) arr) result (nodes s)));;
  mret result.

(** [while (rand() % 2 && level < MAXLEVEL) level++]. *)
Fixpoint raise (fuel : nat) (max lev : Z) : MS Z :=
  s ← get;
  modify (λ s, mkSt (mem s) (nodes s) (arrays s) (S (rands s)));;
  if negb (Z.rem (rand (rands s)) 2 =? 0) && (lev <? max) then
    match fuel with O => fail FFuel | S fuel => raise fuel max (lev + 1) end
  else mret lev.

Definition RandomLevel (sl : SkipList) : MS Z := raise (levels_of sl) (MAXLEVEL sl) 1.

Fixpoint set_links (h t : Z) (n i : nat) : MS unit :=
  match n with O => mret tt | S n => SetNext h i t;; set_links h t n (S i) end.

(** The constructor. *)
Definition new_SkipList (max_level : Z) : MS SkipList :=
  h ← NewNode 0 max_level;
  t ← NewNode 0 1;
  set_links h t (Z.to_nat max_level) 0;;
  SetNext t 0 0;;
  mret (mkList h t max_level).

(** The loop over the levels below [n]: the node before [k] on each of them.  The keys are
    compared by [<] in [FindPre] and by [Compare] in [Insert], which is the same. *)
Definition search (sl : SkipList) (k : Z) (n : nat) (pre : list Z) : MS (list Z * Z) :=
  s ← get;
  lift (find_pre (size (nodes s)) (nx s) (key_of s) (tail_ sl) (head_ sl) n (-1) Z.of_nat k n pre (-1)).

(** [new Node*[n]] for a local array and its release; the contents are passed as a list. *)
Definition new_pre (n : Z) : MS Z := zoom mem set_mem (operator_new (8 * n)).
Definition delete_pre (a : Z) : MS unit := zoom mem set_mem (free a).

Definition FindPre (sl : SkipList) (k : Z) (pre : option (list Z)) : MS (bool * list Z * Z) :=
  tmp ← match pre with None => new_pre (MAXLEVEL sl) | Some _ => mret 0 end;
  r ← search sl k (levels_of sl) (default (replicate (levels_of sl) junk) pre);
  match pre with None => delete_pre tmp | Some _ => mret tt end;;
  mret (negb (r.2 =? -1), r.1, r.2).

Definition Insert (sl : SkipList) (k : Z) : MS unit :=
  lev ← RandomLevel sl;
  a ← new_pre lev;
  r ← search sl k (Z.to_nat lev) (replicate (Z.to_nat lev) junk);
  newnode ← NewNode k lev;
  link Next SetNext r.1 newnode (Z.to_nat lev);;
  delete_pre a.

Definition Remove (sl : SkipList) (k : Z) : MS unit :=
  a ← new_pre (MAXLEVEL sl);
  r ← FindPre sl k (Some (replicate (levels_of sl) junk));
  let '(found, pre, lev) := r in
  if negb found then mret tt else
  unlink Next SetNext pre (Z.to_nat (lev + 1));;
  p ← lift (deref (pre !! 0%nat));
  q ← Next p 0;
  s ← get;
  n ← lift (deref (nodes s !! q));
  delete_array (next_ n);;
  q ← Next p 0;
  delete_node q;;
  delete_pre a.

Definition Contains (sl : SkipList) (k : Z) : MS bool := r ← FindPre sl k None; mret r.1.1.

(** The destructor: [while (head_->next_[0] != tail_)]. *)
Fixpoint destroy_nodes (fuel : nat) (sl : SkipList) : MS unit :=
  curr ← Next (head_ sl) 0;
  if curr =? tail_ sl then mret tt else
  match fuel with
  | O => fail FFuel
  | S fuel =>
      r ← Next curr 0;
      SetNext (head_ sl) 0 r;;
      s ← get;
      n ← lift (deref (nodes s !! curr));
      delete_array (next_ n);;
      delete_node curr;;
      destroy_nodes fuel sl
  end.

Definition destroy (sl : SkipList) : MS unit :=
  s ← get;
  destroy_nodes (size (nodes s)) sl;;
  s ← get;
  n ← lift (deref (nodes s !! head_ sl));
  delete_array (next_ n);;
  delete_node (head_ sl);;
  delete_node (tail_ sl).

(** A client: a list, insertions of the keys [ks], and an end. *)
Fixpoint insert_all (sl : SkipList) (ks : list Z) : MS unit :=
  match ks with [] => mret tt | k :: ks => Insert sl k;; insert_all sl ks end.

Definition program {A} (max_level : Z) (ks : list Z) (rest : SkipList → MS A) : MS A :=
  sl ← new_SkipList max_level; insert_all sl ks;; rest sl.

Definition start (m : blocks) : st := mkSt m ∅ ∅ 0.
End skiplist.
End SkipLite.
