(* ===== verification/SkipLiteFacts.v ===== *)
(** The first skip list: reading and writing links, new and deleted nodes, the invariant, searching
    and inserting. *)

From S2P Require Import Prelude Chains HeapBlocks SkipLevels SkipLite.
From stdpp Require Import options.

Import SkipLite.

Module SkipLiteFacts.

(** ** The heap of nodes and arrays *)

(** Every node owns an array; the rest of the heap is [m]. *)
Record store (m : blocks) (s : st) : Prop := {
  so_node a n : nodes s !! a = Some n →
    a ≠ 0 ∧ mem s !! a = Some sizeof_Node ∧ m !! a = None ∧ arrays s !! a = None ∧ is_Some (arrays s !! next_ n);
  so_array b arr : arrays s !! b = Some arr →
    b ≠ 0 ∧ mem s !! b = Some (8 * Z.of_nat (length arr)) ∧ m !! b = None;
  so_inj a n b n' : nodes s !! a = Some n → nodes s !! b = Some n' → next_ n = next_ n' → a = b;
  so_owner b arr : arrays s !! b = Some arr → ∃ a n, nodes s !! a = Some n ∧ next_ n = b;
  so_rest b : nodes s !! b = None → arrays s !! b = None → mem s !! b = m !! b;
}.

(** Links are all that differs. *)
Definition same_objects (s s' : st) : Prop :=
  mem s' = mem s ∧ nodes s' = nodes s ∧ rands s' = rands s ∧
  ∀ b, length <$> arrays s' !! b = length <$> arrays s !! b.

(** No two nodes share an array. *)
Definition owned (s : st) : Prop :=
  ∀ a n b n', nodes s !! a = Some n → nodes s !! b = Some n' → next_ n = next_ n' → a = b.

#[global] Instance same_objects_preorder : PreOrder same_objects.
Proof.
  split; [by intros s|]. intros s1 s2 s3 (E1 & E2 & E3 & E4) (F1 & F2 & F3 & F4).
  split_and!; [congruence|congruence|congruence|]. intros b. by rewrite F4.
Qed.

Section links.
Implicit Types (s : st).

Lemma lite_Next_ok s p l q : nx s l p = Some q → Next p l s = Ok (q, s).
Proof. intros E. unfold Next. rewrite bind_get, E. done. Qed.

Lemma nx_inv s l p q : nx s l p = Some q → ∃ n arr, nodes s !! p = Some n ∧ arrays s !! next_ n = Some arr ∧ arr !! l = Some q.
Proof.
  unfold nx. intros E. destruct (nodes s !! p) as [n|]; [|done]. simpl in E.
  destruct (arrays s !! next_ n) as [arr|] eqn:Ea; [|done]. eauto.
Qed.

Lemma lite_SetNext_ok s p l x : owned s → is_Some (nx s l p) →
  ∃ s', SetNext p l x s = Ok (tt, s') ∧ same_objects s s' ∧
    ∀ l' b, nx s' l' b = if decide (l' = l ∧ b = p) then Some x else nx s l' b.
Proof.
  intros Hown [q Hq]. destruct (nx_inv _ _ _ _ Hq) as (n & arr & Hn & Harr & Hl). unfold SetNext.
  mstep (lite_Next_ok _ _ _ _ Hq). rewrite bind_get, Hn. rewrite (bind_lift _ _ _ n) by done.
  eexists. split; [done|]. split.
  - split_and!; [done|done|done|]. intros b. simpl. destruct (decide (b = next_ n)) as [->|].
    + rewrite lookup_alter_eq, Harr. simpl. by rewrite length_insert.
    + by rewrite lookup_alter_ne by done.
  - intros l' b. unfold nx. simpl. destruct (nodes s !! b) as [n'|] eqn:Eb; simpl.
    + destruct (decide (b = p)) as [->|Hb].
      * simplify_eq. rewrite lookup_alter_eq, Harr. simpl. case_decide as Hd.
        -- destruct Hd as [-> _]. apply list_lookup_insert_eq. by eapply lookup_lt_Some.
        -- apply list_lookup_insert_ne. naive_solver.
      * rewrite decide_False by naive_solver. rewrite lookup_alter_ne; [done|]. intros E. by apply Hb, (Hown b n' p n).
    + rewrite decide_False; [done|]. intros [_ ->]. congruence.
Qed.

Lemma owned_frame s s' : same_objects s s' → owned s → owned s'.
Proof. intros (_ & E & _) Ho a n b n'. rewrite E. apply Ho. Qed.

#[export, program] Instance array_links : LinkStore st :=
  {| nxt := nx; next := Next; set_next := SetNext; linked := owned; frame := same_objects |}.
Next Obligation. exact owned_frame. Qed.
Next Obligation. intros. by apply lite_Next_ok. Qed.
Next Obligation. intros. by apply lite_SetNext_ok. Qed.

Lemma store_frame m s s' : same_objects s s' → store m s → store m s'.
Proof.
  intros (E1 & E2 & _ & E4) Hs.
  assert (∀ b arr, arrays s' !! b = Some arr → ∃ arr', arrays s !! b = Some arr' ∧ length arr' = length arr) as Ha.
  { intros b arr E. specialize (E4 b). rewrite E in E4. destruct (arrays s !! b) as [arr'|]; simplify_eq/=. eauto. }
  assert (∀ b, arrays s' !! b = None ↔ arrays s !! b = None) as Hno.
  { intros b. specialize (E4 b). destruct (arrays s' !! b), (arrays s !! b); simplify_eq/=; done. }
  split; rewrite ?E1, ?E2.
  - intros a n Hn. destruct (so_node _ _ Hs a n Hn) as (H0 & H1 & H2 & H3 & [arr H4]). split_and!; [done|done|done|by apply Hno|].
    destruct (arrays s' !! next_ n) eqn:E; [eauto|]. apply Hno in E. congruence.
  - intros b arr E. destruct (Ha _ _ E) as (arr' & E' & <-). by apply (so_array _ _ Hs).
  - apply Hs.
  - intros b arr E. destruct (Ha _ _ E) as (arr' & E' & _). by apply (so_owner _ _ Hs b arr').
  - intros b Hb Hb'. apply Hno in Hb'. by apply Hs.
Qed.

Lemma store_owned m s : store m s → owned s.
Proof. intros Hs. exact (so_inj _ _ Hs). Qed.
End links.

(** ** Allocation *)

Section alloc.
Context {malloc_fn : Malloc} {Hlaws : MallocLaws} (junk : Z).
#[local] Set Default Proof Using "Type*".

(** The state with a node and its array more. *)
Definition with_node (s : st) (p arr k : Z) (lev : nat) : st :=
  mkSt (<[arr := 8 * Z.of_nat lev]> (<[p := sizeof_Node]> (mem s))) (<[p := mkNode k (Z.of_nat lev) arr]> (nodes s))
    (<[arr := replicate lev junk]> (arrays s)) (rands s).

Lemma lite_NewNode_ends m s k (lev : nat) : store m s →
  ends (NewNode junk k (Z.of_nat lev) s) (λ r, ∃ arr, r.2 = with_node s r.1 arr k lev ∧ r.1 ≠ 0 ∧ arr ≠ 0 ∧ arr ≠ r.1 ∧
    mem s !! r.1 = None ∧ mem s !! arr = None).
Proof.
  intros Hs. unfold NewNode, new_node, new_array.
  apply (ends_bind _ _ _ (λ r, r.1 ≠ 0 ∧ mem s !! r.1 = None ∧
    r.2 = mkSt (<[r.1 := sizeof_Node]> (mem s)) (<[r.1 := mkNode k junk junk]> (nodes s)) (arrays s) (rands s))).
  { eapply ends_bind; [apply zoom_ends, operator_new_ends|]. intros p s1 (t & E & [= -> ->] & H0). simpl in *. subst s1.
    apply ends_ok. split_and!; [done| |done]. by apply new_block_fresh. }
  intros p s1 (H0 & Hp & E). simpl in *. subst s1. rewrite bind_modify. simpl.
  apply (ends_bind _ _ _ (λ r, r.1 ≠ 0 ∧ r.1 ≠ p ∧ mem s !! r.1 = None ∧
    r.2 = mkSt (<[r.1 := 8 * Z.of_nat lev]> (<[p := sizeof_Node]> (mem s))) (<[p := mkNode k (Z.of_nat lev) junk]> (nodes s))
      (<[r.1 := replicate lev junk]> (arrays s)) (rands s))).
  { eapply ends_bind; [apply zoom_ends, operator_new_ends|]. intros a s2 (t & E & [= -> ->] & Ha). simpl in *. subst s2.
    set (l := <[p := sizeof_Node]> (mem s)) in *.
    assert (l !! new_block (8 * Z.of_nat lev) l = None) as Hf by (apply new_block_fresh; [lia|done]).
    unfold l in Hf at 1. apply lookup_insert_None in Hf as [Hf Hne].
    apply ends_ok. simpl. split_and!; [done|by intros E|done|]. unfold set_arrays, set_mem, set_nodes. simpl.
    rewrite Nat2Z.id. f_equal. rewrite alter_insert_eq. done. }
  intros a s2 (Ha0 & Hne & Ha & E). simpl in *. subst s2. apply ends_ok. exists a. simpl. split_and!; try done.
  unfold with_node, set_nodes. simpl. f_equal. rewrite alter_insert_eq. done.
Qed.

Lemma store_with_node m s p arr k lev :
  store m s → p ≠ 0 → arr ≠ 0 → arr ≠ p → mem s !! p = None → mem s !! arr = None → store m (with_node s p arr k lev).
Proof.
  intros Hs Hp0 Ha0 Hne Hp Ha.
  assert (∀ b, mem s !! b = None → nodes s !! b = None ∧ arrays s !! b = None ∧ m !! b = None) as Hnone.
  { intros b Hb. destruct (nodes s !! b) as [n|] eqn:E1; [destruct (so_node _ _ Hs b n E1) as (_ & E & _); congruence|].
    destruct (arrays s !! b) as [x|] eqn:E2; [destruct (so_array _ _ Hs b x E2) as (_ & E & _); congruence|].
    split_and!; [done|done|]. by rewrite <-(so_rest _ _ Hs b). }
  destruct (Hnone p Hp) as (Hp1 & Hp2 & Hp3). destruct (Hnone arr Ha) as (Ha1 & Ha2 & Ha3).
  split; simpl.
  - intros a n [[<- <-]|[Hap Hn]]%lookup_insert_Some; simpl.
    + rewrite (lookup_insert_ne _ arr p), lookup_insert_eq, lookup_insert_ne, lookup_insert_eq by done. eauto.
    + destruct (so_node _ _ Hs a n Hn) as (? & E & ? & ? & [x Hx]).
      assert (a ≠ arr) by congruence. assert (next_ n ≠ arr) by congruence.
      rewrite !lookup_insert_ne by done. eauto.
  - intros b x [[<- <-]|[Hb Hx]]%lookup_insert_Some.
    + rewrite lookup_insert_eq, length_replicate. done.
    + destruct (so_array _ _ Hs b x Hx) as (? & E & ?). assert (b ≠ p) by congruence. rewrite !lookup_insert_ne by done. done.
  - intros a n b n' [[<- <-]|[Hap Hn]]%lookup_insert_Some [[<- <-]|[Hbp Hn']]%lookup_insert_Some; simpl; intros E; [done| | |].
    + destruct (so_node _ _ Hs b n' Hn') as (_ & _ & _ & _ & [x Hx]). congruence.
    + destruct (so_node _ _ Hs a n Hn) as (_ & _ & _ & _ & [x Hx]). congruence.
    + by eapply (so_inj _ _ Hs).
  - intros b x [[<- <-]|[Hb Hx]]%lookup_insert_Some.
    + eexists p, _. by rewrite lookup_insert_eq.
    + destruct (so_owner _ _ Hs b x Hx) as (a & n & Hn & <-). exists a, n.
      rewrite lookup_insert_ne by congruence. done.
  - intros b [Hb1 Hb2]%lookup_insert_None [Hb3 Hb4]%lookup_insert_None. rewrite !lookup_insert_ne by done. by apply Hs.
Qed.
End alloc.

(** ** Release *)

Section release.
Implicit Types (s : st).

(** A block of the rest of the heap is allocated or released: the arrays of the callers. *)
Lemma store_rest_new m s a n : store m s → mem s !! a = None → store (<[a := n]> m) (set_mem s (<[a := n]> (mem s))).
Proof.
  intros Hs Ha. assert (∀ b v, mem s !! b = Some v → b ≠ a) as Hne by (intros b v ? ->; congruence).
  split; simpl; [| |apply Hs|apply Hs|].
  - intros b nd Hn. destruct (so_node _ _ Hs b nd Hn) as (? & E & ?). rewrite !lookup_insert_ne by (apply Hne in E; done). done.
  - intros b x Hx. destruct (so_array _ _ Hs b x Hx) as (? & E & ?). rewrite !lookup_insert_ne by (apply Hne in E; done). done.
  - intros b ? ?. destruct (decide (b = a)) as [->|]; [by rewrite !lookup_insert_eq|].
    rewrite !lookup_insert_ne by done. by apply Hs.
Qed.

Lemma store_rest_free m s a n : store (<[a := n]> m) s → m !! a = None → store m (set_mem s (delete a (mem s))).
Proof.
  intros Hs Ha. assert (∀ b, (<[a := n]> m) !! b = None → b ≠ a) as Hne by (intros b ? ->; by rewrite lookup_insert_eq in *).
  split; simpl; [| |apply Hs|apply Hs|].
  - intros b nd Hn. destruct (so_node _ _ Hs b nd Hn) as (? & ? & E & ?). pose proof (Hne b E).
    rewrite lookup_insert_ne in E by done. rewrite lookup_delete_ne by done. done.
  - intros b x Hx. destruct (so_array _ _ Hs b x Hx) as (? & ? & E). pose proof (Hne b E).
    rewrite lookup_insert_ne in E by done. rewrite lookup_delete_ne by done. done.
  - intros b Hb Hb'. pose proof (so_rest _ _ Hs b Hb Hb') as E. destruct (decide (b = a)) as [->|].
    + by rewrite lookup_delete_eq.
    + rewrite lookup_delete_ne by done. by rewrite lookup_insert_ne in E by done.
Qed.

(** The state without a node and its array. *)
Definition without_node (s : st) (a arr : Z) : st :=
  mkSt (delete a (delete arr (mem s))) (delete a (nodes s)) (delete arr (arrays s)) (rands s).

Lemma drop_node m s a n : store m s → nodes s !! a = Some n →
  delete_array (next_ n) s = Ok (tt, mkSt (delete (next_ n) (mem s)) (nodes s) (delete (next_ n) (arrays s)) (rands s)) ∧
  delete_node a (mkSt (delete (next_ n) (mem s)) (nodes s) (delete (next_ n) (arrays s)) (rands s)) =
    Ok (tt, without_node s a (next_ n)) ∧
  store m (without_node s a (next_ n)).
Proof.
  intros Hs Hn. destruct (so_node _ _ Hs a n Hn) as (Ha0 & Ha & Hma & Haa & [x Hx]).
  destruct (so_array _ _ Hs _ _ Hx) as (Hb0 & Hb & Hmb). assert (next_ n ≠ a) as Hne by congruence.
  split_and!.
  - unfold delete_array. mstep (zoom_ok mem set_mem _ s _ _ (free_ok _ _ (mk_is_Some _ _ Hb) Hb0)). done.
  - unfold delete_node. erewrite bind_ok; [|apply zoom_ok, free_ok; [simpl; by rewrite lookup_delete_ne|done]]. done.
  - split; simpl.
    + intros b nb [Hba Hnb]%lookup_delete_Some. destruct (so_node _ _ Hs b nb Hnb) as (? & E & ? & ? & ?).
      assert (b ≠ next_ n) by congruence. assert (next_ nb ≠ next_ n) by (intros E'; apply Hba; symmetry; by apply (so_inj _ _ Hs b nb a n)).
      rewrite !lookup_delete_ne by done. done.
    + intros b y [Hbn Hy]%lookup_delete_Some. destruct (so_array _ _ Hs b y Hy) as (? & E & ?).
      assert (b ≠ a) by congruence. rewrite !lookup_delete_ne by done. done.
    + intros b nb c nc [_ ?]%lookup_delete_Some [_ ?]%lookup_delete_Some. by apply Hs.
    + intros b y [Hbn Hy]%lookup_delete_Some. destruct (so_owner _ _ Hs b y Hy) as (c & nc & Hc & <-). exists c, nc.
      rewrite lookup_delete_ne by congruence. done.
    + intros b Hb1 Hb2. rewrite lookup_delete_None in Hb1. rewrite lookup_delete_None in Hb2.
      destruct (decide (b = a)) as [->|]; [by rewrite lookup_delete_eq|]. rewrite lookup_delete_ne by done.
      destruct (decide (b = next_ n)) as [->|]; [by rewrite lookup_delete_eq|]. rewrite lookup_delete_ne by done.
      apply Hs; naive_solver.
Qed.

Lemma nx_without m s a n l b : store m s → nodes s !! a = Some n → b ≠ a → nx (without_node s a (next_ n)) l b = nx s l b.
Proof.
  intros Hs Hn Hb. unfold nx. simpl. rewrite lookup_delete_ne by done. destruct (nodes s !! b) as [nb|] eqn:E; simpl; [|done].
  rewrite lookup_delete_ne; [done|]. intros E'. by apply Hb, (so_inj _ _ Hs b nb a n).
Qed.

Lemma start_store m : store m (start m).
Proof. split; simpl; intros *; by rewrite ?lookup_empty. Qed.
End release.

(** * Operations *)

(** A node with a key and a number of links. *)
Definition has (s : st) (a k : Z) (len : nat) : Prop :=
  ∃ n arr, nodes s !! a = Some n ∧ key n = k ∧ arrays s !! next_ n = Some arr ∧ length arr = len.

Record lite_inv (m : blocks) (sl : SkipList) (ns : list ent) (s : st) : Prop := {
  li_store : store m s;
  li_max : MAXLEVEL sl = Z.of_nat (levels_of sl) ∧ (1 ≤ levels_of sl)%nat ∧ MAXLEVEL sl < 2 ^ 31;
  li_head : ∃ k, has s (head_ sl) k (levels_of sl);
  li_tail : ∃ k, has s (tail_ sl) k 1;
  li_ent x : x ∈ ns → has s (ea x) (ek x) (el x) ∧ (1 ≤ el x ≤ levels_of sl)%nat;
  li_nodup : NoDup (tail_ sl :: head_ sl :: (ea <$> ns));
  li_sorted : sorted_keys ns;
  li_levels : levels (nx s) (head_ sl) (tail_ sl) (levels_of sl) ns;
  li_only a : is_Some (nodes s !! a) → a ∈ tail_ sl :: head_ sl :: (ea <$> ns);
}.

Section inv.
Implicit Types (s : st) (sl : SkipList).

Lemma has_key s a k len : has s a k len → key_of s a = Some k.
Proof. intros (n & arr & E & <- & _). unfold key_of. by rewrite E. Qed.

Lemma has_nx s a k len l : has s a k len → (l < len)%nat → is_Some (nx s l a).
Proof. intros (n & arr & E & _ & E' & <-) Hl. unfold nx. rewrite E. simpl. rewrite E'. simpl. by apply lookup_lt_is_Some. Qed.

Lemma has_frame s s' a k len : same_objects s s' → has s a k len → has s' a k len.
Proof.
  intros (_ & E2 & _ & E4) (n & arr & E & Hk & E' & Hl). exists n. specialize (E4 (next_ n)). rewrite E' in E4.
  destruct (arrays s' !! next_ n) as [arr'|]; simplify_eq/=. exists arr'. rewrite E2. split_and!; [done|done|done|congruence].
Qed.

Lemma lite_frame m m' sl ns s s' :
  lite_inv m sl ns s → store m' s' → nodes s' = nodes s → arrays s' = arrays s → lite_inv m' sl ns s'.
Proof.
  intros Hi Hs En Ea.
  assert (∀ a k len, has s a k len → has s' a k len) as Hh by (intros a k len; unfold has; by rewrite En, Ea).
  split; [done|apply Hi| | | |apply Hi|apply Hi| |].
  - destruct (li_head _ _ _ _ Hi) as [k ?]. eauto.
  - destruct (li_tail _ _ _ _ Hi) as [k ?]. eauto.
  - intros x Hx. destruct (li_ent _ _ _ _ Hi x Hx). auto.
  - intros l Hl. eapply seg_frame; [by apply Hi|]. intros a _. unfold nx. by rewrite En, Ea.
  - intros a. rewrite En. apply Hi.
Qed.

(** The fuel of the loops. *)
Lemma li_size m sl ns s : lite_inv m sl ns s → (length ns ≤ size (nodes s))%nat.
Proof.
  intros Hi. rewrite <-(length_fmap ea), <-(size_dom (D := gset Z)).
  pose proof (li_nodup _ _ _ _ Hi) as [_ [_ Hnd]%NoDup_cons]%NoDup_cons.
  rewrite <-(size_list_to_set (C := gset Z) (ea <$> ns)) by done.
  apply subseteq_size. intros a (x & -> & Hx)%elem_of_list_to_set%list_elem_of_fmap. apply elem_of_dom.
  destruct (li_ent _ _ _ _ Hi x Hx) as [(n & _ & E & _) _]. eauto.
Qed.

Lemma li_split m sl ns1 ns2 s k lev :
  lite_inv m sl (ns1 ++ ns2) s → (lev ≤ levels_of sl)%nat →
  (∀ x, x ∈ ns1 → ek x < k) → (∀ x, x ∈ ns2 → k ≤ ek x) →
  split_at (nx s) (key_of s) (head_ sl) (tail_ sl) lev k ns1 ns2.
Proof.
  intros Hi Hlev H1 H2. split; [| |done|done].
  - intros l Hl. apply Hi. lia.
  - intros x Hx. split; [eapply has_key; by apply Hi|]. intros E.
    pose proof (li_nodup _ _ _ _ Hi) as [Ht _]%NoDup_cons. apply Ht. rewrite <-E. apply elem_of_cons. right.
    apply list_elem_of_fmap. eauto.
Qed.

Lemma sorted_keys_insert ns1 ns2 x : sorted_keys (ns1 ++ ns2) →
  (∀ y, y ∈ ns1 → ek y < ek x) → (∀ y, y ∈ ns2 → ek x ≤ ek y) → sorted_keys (ns1 ++ x :: ns2).
Proof.
  unfold sorted_keys. induction ns1 as [|z ns1 IH]; simpl; intros Hs H1 H2.
  - constructor; [done|]. by rewrite Forall_forall.
  - apply StronglySorted_inv in Hs as [Hs Hz]. constructor; [apply IH; set_solver|].
    rewrite Forall_forall in Hz |- *. intros y Hy. rewrite elem_of_app, elem_of_cons in Hy.
    destruct Hy as [Hy|[->|Hy]]; [apply Hz; set_solver| |apply Hz; set_solver].
    pose proof (H1 z ltac:(set_solver)). lia.
Qed.

(** A block that is not the list's. *)
Lemma rest_block m s a n : store m s → m !! a = Some n → mem s !! a = Some n.
Proof.
  intros Hs Ha. rewrite (so_rest _ _ Hs); [done|..].
  - destruct (nodes s !! a) as [nd|] eqn:E; [|done]. destruct (so_node _ _ Hs a nd E) as (_ & _ & ? & _). congruence.
  - destruct (arrays s !! a) as [x|] eqn:E; [|done]. destruct (so_array _ _ Hs a x E) as (_ & _ & ?). congruence.
Qed.
End inv.

Section search.
Context (junk : Z).

(** The nodes before [k] on the levels below [lev], and the level found. *)
Lemma lite_search_ok m sl ns1 ns2 s k lev :
  lite_inv m sl (ns1 ++ ns2) s → (lev ≤ levels_of sl)%nat →
  (∀ x, x ∈ ns1 → ek x < k) → (∀ x, x ∈ ns2 → k ≤ ek x) →
  ∃ pre, search sl k lev (replicate lev junk) s = Ok ((pre, Z.of_nat (Nat.min (height k ns2) lev) - 1), s) ∧
    ∀ l, (l < lev)%nat → pre !! l = Some (link_of (head_ sl) (lvl l ns1)).
Proof.
  intros Hi Hlev H1 H2. pose proof (li_split _ _ _ _ _ k lev Hi Hlev H1 H2) as Hsp.
  pose proof (li_size _ _ _ _ Hi) as Hsz. rewrite length_app in Hsz.
  assert (sorted_keys ns2) as Hs2.
  { pose proof (li_sorted _ _ _ _ Hi) as Hs. clear -Hs. induction ns1; [done|]. apply IHns1. by inversion Hs. }
  destruct (find_pre_run (nx s) (key_of s) (head_ sl) (tail_ sl) lev k ns1 ns2 Hsp (-1) Z.of_nat
    ltac:(intros; simpl; lia) Hs2 (size (nodes s)) lev (replicate lev junk)) as (pre & E & Hp).
  - lia.
  - lia.
  - split; [apply length_replicate|]. intros. lia.
  - exists pre. split; [|intros; apply Hp; lia]. unfold search. rewrite bind_get.
    assert (met lev k ns2 (-1) Z.of_nat lev = -1) as E1. { unfold met, seen. by rewrite decide_False by lia. }
    assert (met lev k ns2 (-1) Z.of_nat 0 = Z.of_nat (Nat.min (height k ns2) lev) - 1) as E2.
    { unfold met, seen. case_decide; lia. }
    rewrite E1, E2 in E. by rewrite E.
Qed.
End search.

(** ** Insertion *)

Lemma lite_raise_ok rand fuel max lev s :
  1 ≤ lev ≤ max → (Z.to_nat (max - lev) ≤ fuel)%nat →
  ∃ lev' r, raise rand fuel max lev s = Ok (lev', mkSt (mem s) (nodes s) (arrays s) r) ∧ 1 ≤ lev' ≤ max.
Proof.
  revert lev s. induction fuel as [|fuel IH]; intros lev s Hl Hf; cbn [raise]; rewrite bind_get, bind_modify.
  - rewrite (proj2 (Z.ltb_ge lev max)), andb_false_r by lia. eexists lev, _. split; [done|lia].
  - destruct (negb _ && _) eqn:E; [|eexists lev, _; split; [done|lia]].
    apply andb_true_iff in E as [_ ?%Z.ltb_lt].
    destruct (IH (lev + 1) (mkSt (mem s) (nodes s) (arrays s) (S (rands s)))) as (lev' & r & -> & ?); [lia|lia|eauto].
Qed.

Lemma store_rands m s r : store m s → store m (mkSt (mem s) (nodes s) (arrays s) r).
Proof. intros Hs. split; apply Hs. Qed.

(** The list with a node at a fresh address that is not linked yet. *)
Section grown.
Context (junk : Z) (m : blocks) (sl : SkipList) (ns1 ns2 : list ent) (s : st) (p arr k : Z) (lev : nat).
Context (Hi : lite_inv m sl (ns1 ++ ns2) s) (Hp0 : p ≠ 0) (Harr0 : arr ≠ 0) (Hne : arr ≠ p).
Context (Hpm : mem s !! p = None) (Harrm : mem s !! arr = None).
#[local] Set Default Proof Using "Type*".

Lemma grown_fresh : nodes s !! p = None ∧ arrays s !! arr = None.
Proof.
  split.
  - destruct (nodes s !! p) as [n|] eqn:E; [|done]. destruct (so_node _ _ (li_store _ _ _ _ Hi) p n E) as (_ & ? & _). congruence.
  - destruct (arrays s !! arr) eqn:E; [|done]. destruct (so_array _ _ (li_store _ _ _ _ Hi) _ _ E) as (_ & ? & _). congruence.
Qed.

Lemma grown_not_in : p ∉ tail_ sl :: head_ sl :: (ea <$> ns1 ++ ns2).
Proof.
  destruct grown_fresh as [Hpn _]. intros Hin. assert (is_Some (nodes s !! p)) as [? ?]; [|congruence].
  rewrite !elem_of_cons, list_elem_of_fmap in Hin. destruct Hin as [->|[->|(y & -> & Hy)]].
  - destruct (li_tail _ _ _ _ Hi) as (? & ? & ? & ? & _). eauto.
  - destruct (li_head _ _ _ _ Hi) as (? & ? & ? & ? & _). eauto.
  - destruct (li_ent _ _ _ _ Hi y Hy) as [(? & ? & ? & _) _]. eauto.
Qed.

Lemma grown_has b kb len : has s b kb len → has (with_node junk s p arr k lev) b kb len.
Proof.
  destruct grown_fresh as [Hpn Harrn]. intros (n & y & En & Ek & Ey & Ly). exists n, y. simpl.
  rewrite !lookup_insert_ne by congruence. done.
Qed.

Lemma grown_nx l b : b ≠ p → nx (with_node junk s p arr k lev) l b = nx s l b.
Proof.
  destruct grown_fresh as [_ Harrn]. intros Hb. unfold nx. simpl. rewrite lookup_insert_ne by done.
  destruct (nodes s !! b) as [n|] eqn:En; simpl; [|done].
  destruct (so_node _ _ (li_store _ _ _ _ Hi) b n En) as (_ & _ & _ & _ & [y Hy]).
  rewrite lookup_insert_ne by congruence. done.
Qed.

Lemma grown_new : has (with_node junk s p arr k lev) p k lev.
Proof.
  eexists _, _. simpl. rewrite lookup_insert_eq. split_and!; [done|done| |]; simpl; [apply lookup_insert_eq|apply length_replicate].
Qed.

Context (H1 : ∀ x, x ∈ ns1 → ek x < k) (H2 : ∀ x, x ∈ ns2 → k ≤ ek x) (Hl : (1 ≤ lev ≤ levels_of sl)%nat).
Abbreviation x := (mkEnt p k lev).

Lemma grown_nodup : NoDup (tail_ sl :: head_ sl :: (ea <$> ns1 ++ x :: ns2)).
Proof.
  eapply (NoDup_Permutation_proper (p :: tail_ sl :: head_ sl :: (ea <$> ns1 ++ ns2))).
  - rewrite !fmap_app, fmap_cons. solve_Permutation.
  - apply NoDup_cons. split; [apply grown_not_in|apply Hi].
Qed.

(** Once the node is linked on its levels, the list has it. *)
Lemma grown_inv s' : same_objects (with_node junk s p arr k lev) s' →
  levels (nx s') (head_ sl) (tail_ sl) (levels_of sl) (ns1 ++ x :: ns2) → lite_inv m sl (ns1 ++ x :: ns2) s'.
Proof.
  intros Hf Hlv. split; [|apply Hi| | | |apply grown_nodup| |done|].
  - eapply store_frame; [exact Hf|]. apply store_with_node; try done. apply Hi.
  - destruct (li_head _ _ _ _ Hi) as [kh Hh]. exists kh. eapply has_frame; [exact Hf|by apply grown_has].
  - destruct (li_tail _ _ _ _ Hi) as [kh Hh]. exists kh. eapply has_frame; [exact Hf|by apply grown_has].
  - intros y Hy. rewrite elem_of_app, elem_of_cons in Hy. assert (y = x ∨ y ∈ ns1 ++ ns2) as [->|Hy'] by set_solver.
    + split; [eapply has_frame; [exact Hf|apply grown_new]|done].
    + destruct (li_ent _ _ _ _ Hi y Hy') as [? ?]. split; [eapply has_frame; [exact Hf|by apply grown_has]|done].
  - apply sorted_keys_insert; [apply Hi|done|done].
  - intros b. destruct Hf as (_ & En & _). rewrite En. simpl. destruct (decide (b = p)) as [->|].
    + intros _. rewrite fmap_app, fmap_cons. set_solver.
    + rewrite lookup_insert_ne by done. intros Hb%(li_only _ _ _ _ Hi). rewrite fmap_app, fmap_cons. rewrite fmap_app in Hb. set_solver.
Qed.

Lemma grown_linked pre : (∀ l, (l < lev)%nat → pre !! l = Some (link_of (head_ sl) (lvl l ns1))) →
  ∃ s', link Next SetNext pre p lev (with_node junk s p arr k lev) = Ok (tt, s') ∧ lite_inv m sl (ns1 ++ x :: ns2) s'.
Proof.
  intros Hpre. pose proof grown_nodup as Hnd.
  destruct (link_run (head_ sl) (tail_ sl) (levels_of sl) ns1 ns2 x) with (pre := pre) (n := lev)
    (s := with_node junk s p arr k lev) as (s' & E & Hf & Hlv); try done.
  - by apply NoDup_cons in Hnd as [_ ?].
  - simpl. lia.
  - eapply store_owned. apply store_with_node; try done. apply Hi.
  - intros l Hl'. eapply has_nx; [apply grown_new|done].
  - intros l Hl'. assert (lvl l (if (l <? lev)%nat then ns1 ++ ns2 else ns1 ++ x :: ns2) = lvl l (ns1 ++ ns2)) as ->.
    { destruct (Nat.ltb_spec l lev); [done|]. rewrite !lvl_app, lvl_cons_out by (simpl; lia). done. }
    eapply seg_frame; [by apply Hi|]. intros b Hb. apply grown_nx. intros ->.
    apply grown_not_in. rewrite !elem_of_cons. right. apply elem_of_cons in Hb as [->|Hb%lvl_addr]; [by left|by right].
  - exists s'. split; [done|by apply grown_inv].
Qed.
End grown.

Section alloc.
Context {malloc_fn : Malloc} {Hlaws : MallocLaws}.
#[local] Set Default Proof Using "All".

(** The array of predecessors joins the rest of the heap while it is needed. *)
Lemma lite_new_pre_ends m sl ns s n : lite_inv m sl ns s → 0 ≤ n →
  ends (new_pre n s) (λ r, r.1 ≠ 0 ∧ m !! r.1 = None ∧ r.2 = set_mem s (<[r.1 := 8 * n]> (mem s)) ∧
    lite_inv (<[r.1 := 8 * n]> m) sl ns r.2).
Proof.
  intros Hi Hn. unfold new_pre. eapply ends_weaken; [apply zoom_ends, operator_new_ends|].
  intros [a s'] (t & E & [= -> ->] & H0). simpl in *. subst s'.
  assert (mem s !! new_block (8 * n) (mem s) = None) as Hf by (apply new_block_fresh; [lia|done]).
  split_and!; [done| |done|].
  - destruct (m !! new_block (8 * n) (mem s)) eqn:E; [|done].
    by rewrite (rest_block _ _ _ _ (li_store _ _ _ _ Hi) E) in Hf.
  - eapply lite_frame; [exact Hi|by apply store_rest_new; [apply Hi|]|done|done].
Qed.

Lemma lite_delete_pre_ok m sl ns s a n : lite_inv (<[a := n]> m) sl ns s → a ≠ 0 → m !! a = None →
  delete_pre a s = Ok (tt, set_mem s (delete a (mem s))) ∧ lite_inv m sl ns (set_mem s (delete a (mem s))).
Proof.
  intros Hi H0 Ha. assert (mem s !! a = Some n) as E by (eapply rest_block; [apply Hi|apply lookup_insert_eq]).
  split; [apply (zoom_ok mem set_mem _ s _ _ (free_ok _ _ (mk_is_Some _ _ E) H0))|].
  eapply lite_frame; [exact Hi|by eapply store_rest_free; [apply Hi|]|done|done].
Qed.

(** A node at a fresh address, linked on its levels. *)
Lemma Insert_ends rand junk m sl ns1 ns2 s k :
  lite_inv m sl (ns1 ++ ns2) s → (∀ x, x ∈ ns1 → ek x < k) → (∀ x, x ∈ ns2 → k ≤ ek x) →
  ends (Insert rand junk sl k s) (λ r, ∃ x, ek x = k ∧ lite_inv m sl (ns1 ++ x :: ns2) r.2).
Proof.
  intros Hi H1 H2. unfold Insert, RandomLevel. destruct (li_max _ _ _ _ Hi) as (Hm & Hm1 & Hm2).
  destruct (lite_raise_ok rand (levels_of sl) (MAXLEVEL sl) 1 s) as (levz & r & E & Hlev); [lia|lia|]. mstep E.
  assert (lite_inv m sl (ns1 ++ ns2) (mkSt (mem s) (nodes s) (arrays s) r)) as Hi0
    by (eapply lite_frame; [exact Hi|apply store_rands, Hi|done|done]).
  eapply ends_bind; [eapply lite_new_pre_ends; [exact Hi0|lia]|]. intros a s1 (Ha0 & Ham & _ & Hi1). simpl in *.
  set (lev := Z.to_nat levz) in *. assert (levz = Z.of_nat lev) as Elev by lia. rewrite Elev in *.
  assert (1 ≤ lev ≤ levels_of sl)%nat as Hl by lia.
  destruct (lite_search_ok junk _ sl ns1 ns2 s1 k lev Hi1 ltac:(lia) H1 H2) as (pre & E1 & Hpre). mstep E1.
  eapply ends_bind; [apply (lite_NewNode_ends junk _ s1 k lev (li_store _ _ _ _ Hi1))|].
  intros p s2 (arr & Es2 & Hp0 & Harr0 & Hne & Hpm & Harrm). simpl in *. subst s2.
  destruct (grown_linked junk _ sl ns1 ns2 s1 p arr k lev Hi1 Hp0 Harr0 Hne Hpm Harrm H1 H2 Hl pre Hpre) as (s3 & E3 & Hi3).
  mstep E3. destruct (lite_delete_pre_ok m sl _ s3 a _ Hi3 Ha0 Ham) as [-> Hi4]. apply ends_ok. by exists (mkEnt p k lev).
Qed.
End alloc.
End SkipLiteFacts.
