(* ===== verification/SkipLiteEnd.v ===== *)
(** The first skip list: construction, removal, and destruction. *)

From S2P Require Import Prelude Chains HeapBlocks SkipLevels SkipLite SkipLiteFacts.
From stdpp Require Import options.

Import SkipLite SkipLiteFacts.

Module SkipLiteEnd.

(** ** Destruction *)

(** The nodes in front of [q] are destroyed one after the other; nothing is looked at behind it. *)
Lemma destroy_prefix m sl f ns q s :
  store m s → seg (nx s 0) (head_ sl) (head_ sl :: (ea <$> ns)) q → NoDup (head_ sl :: (ea <$> ns)) → tail_ sl ∉ ea <$> ns →
  ∃ s', destroy_nodes (length ns + f) sl s = destroy_nodes f sl s' ∧ store m s' ∧ nx s' 0 (head_ sl) = Some q ∧
    (∀ b, b ∉ ea <$> ns → nodes s' !! b = nodes s !! b) ∧ (∀ b, b ∈ ea <$> ns → nodes s' !! b = None) ∧
    (∀ b n, nodes s' !! b = Some n → length <$> arrays s' !! next_ n = length <$> arrays s !! next_ n) ∧
    (∀ b, arrays s !! b = None → arrays s' !! b = None).
Proof.
  revert s. induction ns as [|x ns IH]; intros s Hs Hseg Hnd Ht.
  - exists s. destruct Hseg as (_ & _ & r & Hr & Hq). simpl in Hq. subst r. split_and!; try done. set_solver.
  - apply NoDup_cons in Hnd as [Hh Hnd]. pose proof Hnd as [Hx Hnd']%NoDup_cons.
    destruct Hseg as (_ & Hh0 & r & Hr & Hseg). rewrite fmap_cons in *. pose proof Hseg as (-> & Hx0 & r & Hr' & Hseg').
    cbn [length Nat.add destroy_nodes]. mstep (lite_Next_ok _ _ _ _ Hr). rewrite (proj2 (Z.eqb_neq _ _)) by set_solver.
    mstep (lite_Next_ok _ _ _ _ Hr').
    destruct (lite_SetNext_ok s (head_ sl) 0 r (store_owned _ _ Hs) (mk_is_Some _ _ Hr)) as (s1 & E1 & Hf1 & Hn1). mstep E1.
    pose proof (store_frame _ _ _ Hf1 Hs) as Hs1. destruct (nx_inv _ _ _ _ Hr') as (n & arr & Hn & _).
    pose proof Hf1 as (_ & En & _ & Ea). rewrite bind_get, En, Hn. rewrite (bind_lift _ _ _ n) by done.
    rewrite <-En in Hn. destruct (drop_node m s1 (ea x) n Hs1 Hn) as (E2 & E3 & Hs2). mstep E2. mstep E3.
    destruct (IH (without_node s1 (ea x) (next_ n))) as (s' & E & Hs' & Hq & Hk1 & Hk2 & Hk3 & Hk4); [done| |by apply NoDup_cons; set_solver|set_solver|].
    + split_and!; [done|done|]. exists r. split.
      * rewrite (nx_without m) by (done || set_solver). rewrite Hn1. by rewrite decide_True.
      * eapply seg_frame; [exact Hseg'|]. intros b Hb. rewrite (nx_without m) by (done || set_solver).
        rewrite Hn1, decide_False by (intros [_ ->]; set_solver). done.
    + exists s'. split_and!; [done|done|done| | | |].
      * intros b Hb. rewrite Hk1 by set_solver. simpl. rewrite lookup_delete_ne by set_solver. by rewrite En.
      * intros b [->|Hb]%elem_of_cons; [|by apply Hk2]. rewrite Hk1 by done. simpl. by rewrite lookup_delete_eq.
      * intros b nb Hnb. rewrite (Hk3 b nb Hnb). simpl. destruct (decide (b ∈ ea <$> ns)) as [Hin|Hin].
        { by rewrite (Hk2 b Hin) in Hnb. }
        rewrite Hk1 in Hnb by done. simpl in Hnb. apply lookup_delete_Some in Hnb as [Hbx Hnb].
        rewrite lookup_delete_ne; [apply Ea|]. intros E'. by apply Hbx, (so_inj _ _ Hs1 (ea x) n b nb).
      * intros b Hb. apply Hk4. simpl. apply lookup_delete_None. right. specialize (Ea b). rewrite Hb in Ea.
        by destruct (arrays s1 !! b).
Qed.

(** The list whole: everything is released but the array of [tail_]. *)
Lemma destroy_whole m sl ns s : lite_inv m sl ns s →
  ∃ s' a, destroy sl s = Ok (tt, s') ∧ m !! a = None ∧ mem s' = <[a := 8]> m.
Proof.
  intros Hi. destruct (li_max _ _ _ _ Hi) as (_ & H1 & _). pose proof (li_levels _ _ _ _ Hi 0%nat ltac:(lia)) as Hseg.
  rewrite lvl_0 in Hseg by (intros x Hx; destruct (li_ent _ _ _ _ Hi x Hx); lia).
  pose proof (li_nodup _ _ _ _ Hi) as [Ht Hnd]%NoDup_cons.
  pose proof (li_size _ _ _ _ Hi) as Hsz. unfold destroy. rewrite bind_get.
  replace (size (nodes s)) with (length ns + (size (nodes s) - length ns))%nat by lia.
  destruct (destroy_prefix m sl (size (nodes s) - length ns) ns (tail_ sl) s) as (s1 & E & Hs1 & Hq & Hk1 & Hk2 & Hk3 & _);
    [apply Hi|done|done|set_solver|].
  assert (destroy_nodes (size (nodes s) - length ns) sl s1 = Ok (tt, s1)) as E1.
  { destruct (size (nodes s) - length ns)%nat; cbn [destroy_nodes]; mstep (lite_Next_ok _ _ _ _ Hq); by rewrite Z.eqb_refl. }
  rewrite E1 in E. mstep E.
  destruct (li_head _ _ _ _ Hi) as (kh & nh & ah & Hnh & _). destruct (li_tail _ _ _ _ Hi) as (kt & nt & at_ & Hnt & _ & Hat & Hlt).
  rewrite <-(Hk1 (head_ sl)) in Hnh by (apply NoDup_cons in Hnd as [? _]; done).
  rewrite <-(Hk1 (tail_ sl)) in Hnt by set_solver. rewrite bind_get, Hnh. rewrite (bind_lift _ _ _ nh) by done.
  destruct (drop_node m s1 (head_ sl) nh Hs1 Hnh) as (E2 & E3 & Hs2). mstep E2. mstep E3.
  set (s2 := without_node s1 (head_ sl) (next_ nh)) in *.
  assert (nodes s2 !! tail_ sl = Some nt) as Hnt2 by (simpl; rewrite lookup_delete_ne by set_solver; done).
  destruct (so_node _ _ Hs2 _ _ Hnt2) as (Ht0 & Htm & Htm' & Hta & [y Hy]).
  unfold delete_node. erewrite bind_ok; [|apply zoom_ok, free_ok; [by eauto|done]]. eexists _, (next_ nt). split; [done|].
  destruct (so_array _ _ Hs2 _ _ Hy) as (_ & Hym & Hym'). split; [done|].
  assert (length y = 1%nat) as Hly.
  { specialize (Hk3 _ _ Hnt). rewrite Hat in Hk3. simpl in Hy. apply lookup_delete_Some in Hy as [_ Hy]. rewrite Hy in Hk3.
    simpl in Hk3. congruence. }
  simpl. apply map_eq. intros b. destruct (decide (b = next_ nt)) as [->|Hb].
  { rewrite lookup_insert_eq. rewrite lookup_delete_ne by congruence. change (mem s2 !! next_ nt = Some 8). rewrite Hym, Hly. done. }
  rewrite lookup_insert_ne by done. destruct (decide (b = tail_ sl)) as [->|Hbt]; [by rewrite lookup_delete_eq|].
  rewrite lookup_delete_ne by done. change (mem s2 !! b = m !! b).
  assert (∀ c, is_Some (nodes s2 !! c) → c = tail_ sl) as Honly.
  { intros c [nc Hc]. simpl in Hc. apply lookup_delete_Some in Hc as [Hch Hc]. destruct (decide (c ∈ ea <$> ns)) as [Hin|Hin].
    - by rewrite (Hk2 c Hin) in Hc.
    - rewrite Hk1 in Hc by done. pose proof (li_only _ _ _ _ Hi c ltac:(eauto)) as Hin'. set_solver. }
  apply (so_rest _ _ Hs2).
  - destruct (nodes s2 !! b) eqn:Eb; [|done]. exfalso. apply Hbt, Honly. eauto.
  - destruct (arrays s2 !! b) eqn:Eb; [|done]. exfalso. destruct (so_owner _ _ Hs2 _ _ Eb) as (c & nc & Hc & <-).
    assert (c = tail_ sl) as -> by (apply Honly; eauto). congruence.
Qed.

(** A list with a deleted node [q] still on it. *)
Record dangling (m : blocks) (sl : SkipList) (ns : list ent) (q : Z) (s : st) : Prop := {
  da_store : store m s;
  da_seg : seg (nx s 0) (head_ sl) (head_ sl :: (ea <$> ns)) q;
  da_nodup : NoDup (head_ sl :: (ea <$> ns));
  da_tail : tail_ sl ∉ head_ sl :: (ea <$> ns);
  da_gone : q ≠ 0 ∧ nodes s !! q = None ∧ arrays s !! q = None ∧ m !! q = None;
}.

Lemma destroy_dangling m sl ns q s : dangling m sl ns q s → destroy sl s = Err FUndef.
Proof.
  intros [Hs Hseg Hnd Ht (Hq0 & Hq1 & Hq2 & Hq3)].
  assert (∀ a, a ∈ head_ sl :: (ea <$> ns) → is_Some (nodes s !! a)) as Hin.
  { intros a Ha. apply list_elem_of_split in Ha as (l1 & l2 & El). rewrite El in Hseg.
    apply seg_app in Hseg as (r & _ & (-> & _ & r' & Hr & _)). destruct (nx_inv _ _ _ _ Hr) as (n & ? & ? & _). eauto. }
  assert (length ns < size (nodes s))%nat as Hsz.
  { assert (length (head_ sl :: (ea <$> ns)) ≤ size (nodes s))%nat as Hle; [|simpl in Hle; rewrite length_fmap in Hle; lia].
    rewrite <-(size_dom (D := gset Z)), <-(size_list_to_set (C := gset Z) (head_ sl :: (ea <$> ns))) by done.
    apply subseteq_size. intros a Ha%elem_of_list_to_set. by apply elem_of_dom, Hin. }
  unfold destroy. rewrite bind_get. destruct (size (nodes s) - length ns)%nat as [|f] eqn:Ef; [lia|].
  replace (size (nodes s)) with (length ns + S f)%nat by lia.
  destruct (destroy_prefix m sl (S f) ns q s) as (s1 & E & Hs1 & Hq & Hk1 & Hk2 & _ & Hk4); [done|done|done|set_solver|].
  assert (nodes s1 !! q = None) as Hgone.
  { destruct (decide (q ∈ ea <$> ns)) as [Hi|Hi]; [by apply Hk2|by rewrite Hk1]. }
  destruct (decide (q = tail_ sl)) as [->|Hne].
  - assert (destroy_nodes (S f) sl s1 = Ok (tt, s1)) as E1.
    { cbn [destroy_nodes]. mstep (lite_Next_ok _ _ _ _ Hq). by rewrite Z.eqb_refl. }
    rewrite E1 in E. mstep E. destruct (nx_inv _ _ _ _ Hq) as (nh & ah & Hnh & _).
    rewrite bind_get, Hnh. rewrite (bind_lift _ _ _ nh) by done.
    destruct (drop_node m s1 (head_ sl) nh Hs1 Hnh) as (E2 & E3 & Hs2). mstep E2. mstep E3.
    assert (mem (without_node s1 (head_ sl) (next_ nh)) !! tail_ sl = None) as Hm.
    { rewrite (so_rest _ _ Hs2); [done|by simpl; rewrite lookup_delete_None; right|].
      simpl. rewrite lookup_delete_None. right. by apply Hk4. }
    unfold delete_node. unfold mbind, M_bind. rewrite (zoom_err mem set_mem _ _ FUndef); [done|].
    unfold free. rewrite (proj2 (Z.eqb_neq _ _)) by done. by rewrite Hm.
  - cbn [destroy_nodes] in E. rewrite (bind_ok _ _ _ _ _ (lite_Next_ok _ _ _ _ Hq)) in E. rewrite (proj2 (Z.eqb_neq _ _)) in E by done.
    unfold mbind, M_bind. unfold mbind, M_bind in E. rewrite E. unfold Next, nx, mbind, M_bind. simpl. by rewrite Hgone.
Qed.

(** ** Removal *)

(** The end of [Remove]: the node behind [p], and its array, are deleted. *)
Lemma delete_behind {B} m s p q n (f : unit → MS B) : store m s → nx s 0 p = Some q → nodes s !! q = Some n → p ≠ q →
  (n ← lift (deref (nodes s !! q)); delete_array (next_ n);; q ← Next p 0; delete_node q ≫= f) s =
  f tt (without_node s q (next_ n)).
Proof.
  intros Hs Hp Hn Hne. rewrite Hn. rewrite (bind_lift _ _ _ n) by done.
  destruct (drop_node m s q n Hs Hn) as (E2 & E3 & _). mstep E2.
  assert (nx (mkSt (delete (next_ n) (mem s)) (nodes s) (delete (next_ n) (arrays s)) (rands s)) 0 p = Some q) as Hp'.
  { pose proof (nx_without m s q n 0 p Hs Hn Hne) as E. rewrite Hp in E. unfold nx in E |- *. simpl in *.
    by rewrite lookup_delete_ne in E by done. }
  mstep (lite_Next_ok _ _ _ _ Hp'). by mstep E3.
Qed.

Lemma successor_apart (t h q a : Z) (l1 l2 : list Z) :
  NoDup (t :: h :: l1 ++ a :: l2) → q ∈ t :: l2 → (q ∉ h :: l1) ∧ q ≠ a.
Proof.
  intros [Ht [Hh (_ & Hd & [Ha _]%NoDup_cons)%NoDup_app]%NoDup_cons]%NoDup_cons Hq. split.
  - intros [->|Hin]%elem_of_cons; [set_solver|]. apply elem_of_cons in Hq as [->|Hq]; [set_solver|].
    eapply Hd; [exact Hin|set_solver].
  - intros ->. set_solver.
Qed.

Section remove.
Context {malloc_fn : Malloc} {Hlaws : MallocLaws} (junk : Z).
#[local] Set Default Proof Using "All".

(** What [Remove] does when the node is unlinked: [p] is the node before it. *)
Definition Remove_end (pre : list Z) (a : Z) : MS unit :=
  p ← lift (deref (pre !! 0%nat));
  q ← Next p 0;
  s ← get;
  n ← lift (deref (nodes s !! q));
  delete_array (next_ n);;
  q ← Next p 0;
  delete_node q;;
  delete_pre a.

Lemma Remove_rest m sl ns1 x ns2 s1 s2 pre a n :
  lite_inv (<[a := n]> m) sl (ns1 ++ x :: ns2) s1 → a ≠ 0 → m !! a = None → same_objects s1 s2 →
  levels (nx s2) (head_ sl) (tail_ sl) (levels_of sl) (ns1 ++ ns2) →
  pre !! 0%nat = Some (link_of (head_ sl) (ea <$> ns1)) →
  ends (Remove_end pre a s2) (λ r, dangling m sl ns1 (first (tail_ sl) (ea <$> ns2)) r.2 ∧ key_of r.2 (ea x) = Some (ek x)).
Proof.
  intros Hi1 Ha0 Ham Hf2 Hl2 Hpre. unfold Remove_end. rewrite Hpre.
  rewrite (bind_lift _ _ _ (link_of (head_ sl) (ea <$> ns1))) by done.
  destruct (li_max _ _ _ _ Hi1) as (_ & Hm1 & _). pose proof (Hl2 0%nat ltac:(lia)) as Hseg. rewrite lvl_app in Hseg.
  rewrite !lvl_0 in Hseg by (intros y Hy; destruct (li_ent _ _ _ _ Hi1 y) as [_ ?]; [set_solver|lia]).
  pose proof (seg_link _ _ _ _ _ Hseg) as Hq. mstep (lite_Next_ok _ _ _ _ Hq). rewrite bind_get.
  set (q := first (tail_ sl) (ea <$> ns2)) in *. pose proof (store_frame _ _ _ Hf2 (li_store _ _ _ _ Hi1)) as Hs2.
  pose proof Hf2 as (_ & En2 & _ & _).
  pose proof (li_nodup _ _ _ _ Hi1) as Hnd. rewrite fmap_app, fmap_cons in Hnd.
  assert (q ∈ tail_ sl :: (ea <$> ns2)) as Hqin by (unfold q; destruct ns2; set_solver).
  assert ((q ∉ head_ sl :: (ea <$> ns1)) ∧ q ≠ ea x) as [Hqn Hqx] by (by apply (successor_apart _ _ _ _ _ _ Hnd)).
  assert (is_Some (nodes s2 !! q)) as [nq Hnq].
  { rewrite En2. apply elem_of_cons in Hqin as [->|(y & -> & Hy)%list_elem_of_fmap].
    - destruct (li_tail _ _ _ _ Hi1) as (? & ? & ? & ? & _). eauto.
    - destruct (li_ent _ _ _ _ Hi1 y) as [(? & ? & ? & _) _]; [set_solver|eauto]. }
  rewrite (delete_behind _ s2 _ q nq _ Hs2 Hq Hnq).
  2: { intros E. apply Hqn. rewrite <-E. destruct (link_of_in (head_ sl) (ea <$> ns1)) as [[-> _]|]; set_solver. }
  destruct (drop_node _ s2 q nq Hs2 Hnq) as (_ & _ & Hs3). destruct (so_node _ _ Hs2 q nq Hnq) as (Hq0 & _ & Hqm & Hqa & _).
  assert (mem (without_node s2 q (next_ nq)) !! a = Some n) as Eam by (eapply rest_block; [exact Hs3|apply lookup_insert_eq]).
  unfold delete_pre. erewrite zoom_ok; [|apply (free_ok a); [by eauto|done]]. apply ends_ok. cbn [snd]. split.
  + split; [by eapply store_rest_free| |by rewrite app_comm_cons in Hnd; apply NoDup_cons in Hnd as [_ (? & _ & _)%NoDup_app]| |].
    * change (head_ sl :: (ea <$> ns1) ++ (ea <$> ns2)) with ((head_ sl :: (ea <$> ns1)) ++ (ea <$> ns2)) in Hseg.
      apply seg_app in Hseg as (r & Hsg & Hr). rewrite (seg_start _ _ _ _ Hr) in Hsg.
      eapply seg_frame; [exact Hsg|]. intros b Hb. change (nx (without_node s2 q (next_ nq)) 0 b = nx s2 0 b).
      apply (nx_without _ _ _ _ _ _ Hs2 Hnq). intros ->. done.
    * apply NoDup_cons in Hnd as [Ht _]. set_solver.
    * simpl. split_and!; [done|apply lookup_delete_eq|by apply lookup_delete_None; right|].
      apply lookup_insert_None in Hqm as [? _]. done.
  + unfold key_of. simpl. rewrite lookup_delete_ne by done. rewrite En2. eapply has_key. apply Hi1. set_solver.
Qed.

(** The removed node stays, unlinked; the node behind it is deleted, and stays linked. *)
Lemma Remove_dangles m sl ns1 x ns2 s k :
  lite_inv m sl (ns1 ++ x :: ns2) s → (∀ y, y ∈ ns1 → ek y < k) → ek x = k → (∀ y, y ∈ ns2 → k < ek y) →
  ends (Remove junk sl k s) (λ r, dangling m sl ns1 (first (tail_ sl) (ea <$> ns2)) r.2 ∧ key_of r.2 (ea x) = Some (ek x)).
Proof.
  intros Hi H1 Ek H2. destruct (li_max _ _ _ _ Hi) as (Hm & Hm1 & _).
  assert (∀ y, y ∈ x :: ns2 → k ≤ ek y) as H2'.
  { intros y [->|Hy]%elem_of_cons; [lia|]. specialize (H2 y Hy). lia. }
  assert (height k (x :: ns2) = el x) as Hh.
  { cbn [height foldr]. rewrite Ek, Z.eqb_refl. fold (height k ns2).
    assert (height k ns2 = 0%nat) as ->; [|lia]. clear -H2. induction ns2 as [|y ns IH]; [done|]. simpl.
    pose proof (H2 y ltac:(set_solver)). rewrite (proj2 (Z.eqb_neq _ _)) by lia. apply IH. set_solver. }
  destruct (li_ent _ _ _ _ Hi x) as [_ Hx]; [set_solver|].
  unfold Remove. eapply ends_bind; [eapply lite_new_pre_ends; [exact Hi|lia]|]. intros a s1 (Ha0 & Ham & _ & Hi1). cbn [fst snd] in *.
  destruct (lite_search_ok junk _ sl ns1 (x :: ns2) s1 k (levels_of sl) Hi1 ltac:(lia) H1 H2') as (pre & E1 & Hpre).
  rewrite Hh, Nat.min_l in E1 by lia.
  assert (FindPre junk sl k (Some (replicate (levels_of sl) junk)) s1 = Ok ((true, pre, Z.of_nat (el x) - 1), s1)) as E2.
  { unfold FindPre. rewrite (bind_ok _ _ s1 0 s1) by done. mstep E1. rewrite (bind_ok _ _ s1 tt s1) by done.
    cbn [fst snd]. rewrite (proj2 (Z.eqb_neq _ _)) by lia. done. }
  mstep E2. replace (Z.to_nat (Z.of_nat (el x) - 1 + 1)) with (el x) by lia.
  destruct (unlink_levels_run (head_ sl) (tail_ sl) (levels_of sl) ns1 ns2 x) with (pre := pre) (n := el x) (s := s1)
    as (s2 & E3 & Hf2 & Hl2).
  - pose proof (li_nodup _ _ _ _ Hi) as [_ ?]%NoDup_cons. done.
  - destruct (li_ent _ _ _ _ Hi x) as [(n & arr & En & _) _]; [set_solver|].
    by destruct (so_node _ _ (li_store _ _ _ _ Hi) _ _ En).
  - lia.
  - eapply store_owned, Hi1.
  - lia.
  - intros l Hl. apply Hpre. lia.
  - intros l Hl. assert (lvl l (if (l <? el x)%nat then ns1 ++ x :: ns2 else ns1 ++ ns2) = lvl l (ns1 ++ x :: ns2)) as ->.
    { destruct (Nat.ltb_spec l (el x)); [done|]. rewrite !lvl_app, lvl_cons_out by lia. done. }
    by apply Hi1.
  - mstep E3. eapply Remove_rest; [exact Hi1|done|done|done|done|]. rewrite Hpre by lia. f_equal.
    rewrite lvl_0; [done|]. intros y Hy. destruct (li_ent _ _ _ _ Hi y) as [_ ?]; [set_solver|lia].
Qed.
End remove.
End SkipLiteEnd.
