(* ===== verification/SkipLiteProps.v ===== *)
(** The first skip list: correct while nothing is removed, and broken by the first removal. *)

From S2P Require Import Prelude Chains HeapBlocks SkipLevels SkipLite SkipLiteFacts SkipLiteEnd.
From stdpp Require Import options.

Import SkipLite SkipLiteFacts SkipLiteEnd.

Module SkipLiteProps.

(** All links of the head set to the tail. *)
Lemma set_links_ok h t H n i s :
  (i + n = H)%nat → owned s → (∀ l, (l < H)%nat → is_Some (nx s l h)) → (∀ l, (l < i)%nat → nx s l h = Some t) →
  ∃ s', set_links h t n i s = Ok (tt, s') ∧ same_objects s s' ∧ (∀ l, (l < H)%nat → nx s' l h = Some t).
Proof.
  revert i s. induction n as [|n IH]; intros i s Hn Ho Hsome Hdone; cbn [set_links].
  - exists s. split_and!; [done|done|]. intros. apply Hdone. lia.
  - destruct (lite_SetNext_ok s h i t Ho) as (s1 & E1 & Hf1 & Hn1); [apply Hsome; lia|]. mstep E1.
    destruct (IH (S i) s1) as (s2 & E2 & Hf2 & Hn2).
    + lia.
    + by eapply owned_frame.
    + intros l Hl. rewrite Hn1. case_decide; [eauto|]. by apply Hsome.
    + intros l Hl. rewrite Hn1. case_decide; [done|]. apply Hdone. destruct (decide (l = i)); [naive_solver|lia].
    + exists s2. split_and!; [done|by trans s1|done].
Qed.

Lemma height_pos k ns : (∀ x, x ∈ ns → (1 ≤ el x)%nat) → (0 < height k ns)%nat ↔ k ∈ ek <$> ns.
Proof.
  induction ns as [|y ns IH]; intros Hn; [simpl; split; [lia|set_solver]|].
  specialize (IH ltac:(set_solver)). pose proof (Hn y ltac:(set_solver)). rewrite fmap_cons, elem_of_cons, <-IH.
  cbn [height foldr]. fold (height k ns). destruct (Z.eqb_spec (ek y) k); [split; [naive_solver|lia]|].
  split; [by right|]. intros [E|]; [congruence|done].
Qed.

Section program.
Context {malloc_fn : Malloc} {Hlaws : MallocLaws} (rand : nat → Z) (junk : Z).
#[local] Set Default Proof Using "All".

Lemma lite_new_SkipList_ends m (H : nat) : (1 ≤ H)%nat → Z.of_nat H < 2 ^ 31 →
  ends (new_SkipList junk (Z.of_nat H) (start m)) (λ r, lite_inv m r.1 [] r.2).
Proof.
  intros H1 H2. unfold new_SkipList. pose proof (start_store m) as Hs0.
  eapply ends_bind; [apply (lite_NewNode_ends junk m _ 0 H Hs0)|].
  intros h s1 (ha & E1 & Hh0 & Hha0 & Hhne & Hhm & Hham). cbn [fst snd] in *.
  pose proof (store_with_node junk m _ h ha 0 H Hs0 Hh0 Hha0 Hhne Hhm Hham) as Hs1. rewrite <-E1 in Hs1.
  eapply ends_bind; [apply (lite_NewNode_ends junk m _ 0 1 Hs1)|].
  intros t s2 (ta & E2 & Ht0 & Hta0 & Htne & Htm & Htam). cbn [fst snd] in *.
  pose proof (store_with_node junk m _ t ta 0 1 Hs1 Ht0 Hta0 Htne Htm Htam) as Hs2. rewrite <-E2 in Hs2.
  assert (h ≠ t ∧ ha ≠ ta ∧ h ≠ ta ∧ ha ≠ t) as (Hht & Haa & Hhta & Hhat).
  { subst s1. simpl in Htm, Htam. rewrite !lookup_insert_None in Htm, Htam. naive_solver. }
  assert (has s2 h 0 H) as Hh.
  { subst s2 s1. eexists _, _. simpl. rewrite lookup_insert_ne, lookup_insert_eq by done. split_and!; [done|done| |].
    - simpl. rewrite lookup_insert_ne, lookup_insert_eq by done. done.
    - apply length_replicate. }
  assert (has s2 t 0 1) as Ht.
  { subst s2. eexists _, _. simpl. rewrite lookup_insert_eq. split_and!; [done|done|simpl; apply lookup_insert_eq|done]. }
  rewrite Nat2Z.id. destruct (set_links_ok h t H H 0 s2) as (s3 & E3 & Hf3 & Hn3); [lia|by eapply store_owned| |lia|].
  { intros l Hl. eapply has_nx; [exact Hh|done]. }
  mstep E3. pose proof (store_frame _ _ _ Hf3 Hs2) as Hs3.
  destruct (lite_SetNext_ok s3 t 0 0 (store_owned _ _ Hs3)) as (s4 & E4 & Hf4 & Hn4).
  { eapply has_nx; [eapply has_frame; [exact Hf3|exact Ht]|lia]. }
  mstep E4. apply ends_ok. cbn [fst snd].
  assert (levels_of (mkList h t (Z.of_nat H)) = H) as EH by (unfold levels_of; simpl; lia).
  assert (same_objects s2 s4) as Hf by by trans s3.
  split; rewrite ?EH; simpl; [by eapply store_frame|lia| | |set_solver| |constructor| |].
  - exists 0. by eapply has_frame.
  - exists 0. by eapply has_frame.
  - repeat constructor; set_solver.
  - intros l Hl. split_and!; [done|done|]. exists t. rewrite Hn4, decide_False by naive_solver. split; [by apply Hn3|done].
  - intros b. destruct Hf as (_ & En & _). rewrite En. subst s2 s1. simpl. intros [n Hn].
    rewrite !lookup_insert_Some, lookup_empty in Hn. set_solver.
Qed.

Lemma insert_all_ends m sl ks ns s : lite_inv m sl ns s →
  ends (insert_all rand junk sl ks s) (λ r, ∃ ns', lite_inv m sl ns' r.2 ∧ ek <$> ns' ≡ₚ ks ++ (ek <$> ns)).
Proof.
  revert ns s. induction ks as [|k ks IH]; intros ns s Hi; cbn [insert_all].
  - apply ends_ok. by exists ns.
  - destruct (keys_split k ns (li_sorted _ _ _ _ Hi)) as (ns1 & ns2 & -> & H1 & H2).
    eapply ends_bind; [apply (Insert_ends rand junk m sl ns1 ns2 s k Hi H1 H2)|]. intros [] s1 (x & Ex & Hi1).
    eapply ends_weaken; [by apply (IH _ _ Hi1)|]. intros [[] s2] (ns' & Hi2 & Hp). exists ns'. split; [done|].
    rewrite Hp, !fmap_app, fmap_cons, Ex. solve_Permutation.
Qed.

Lemma program_ends {A} m H ks (rest : SkipList → MS A) P : 1 ≤ H < 2 ^ 31 →
  (∀ sl ns s, lite_inv m sl ns s → ek <$> ns ≡ₚ ks → ends (rest sl s) P) →
  ends (program rand junk H ks rest (start m)) P.
Proof.
  intros HH Hrest. unfold program. rewrite <-(Z2Nat.id H) by lia.
  eapply ends_bind; [apply (lite_new_SkipList_ends m (Z.to_nat H)); lia|]. intros sl s Hi. cbn [fst snd] in *.
  eapply ends_bind; [by apply insert_all_ends|]. intros [] s' (ns & Hi' & Hp). cbn [snd] in *.
  rewrite fmap_nil, app_nil_r in Hp. by eapply Hrest.
Qed.

Lemma lite_Contains_ends m sl ns s k : lite_inv m sl ns s →
  ends (Contains junk sl k s) (λ r, r.1 = bool_decide (k ∈ ek <$> ns) ∧ lite_inv m sl ns r.2).
Proof.
  intros Hi. destruct (keys_split k ns (li_sorted _ _ _ _ Hi)) as (ns1 & ns2 & -> & H1 & H2). unfold Contains.
  destruct (li_max _ _ _ _ Hi) as (Hm & Hm1 & _).
  apply (ends_bind _ _ _ (λ r, r.1.1.1 = bool_decide (k ∈ ek <$> ns1 ++ ns2) ∧ lite_inv m sl (ns1 ++ ns2) r.2));
    [|intros r s' [? ?]; by apply ends_ok].
  unfold FindPre. eapply ends_bind; [eapply lite_new_pre_ends; [exact Hi|lia]|]. intros a s1 (Ha0 & Ham & _ & Hi1). cbn [fst snd] in *.
  destruct (lite_search_ok junk _ sl ns1 ns2 s1 k (levels_of sl) Hi1 ltac:(lia) H1 H2) as (pre & E1 & _).
  change (default (replicate (levels_of sl) junk) None) with (replicate (levels_of sl) junk). mstep E1.
  destruct (lite_delete_pre_ok m sl _ s1 a _ Hi1 Ha0 Ham) as [E2 Hi2]. mstep E2. apply ends_ok. cbn [fst snd]. split; [|done].
  assert (∀ x, x ∈ ns2 → (1 ≤ el x)%nat) as Hel.
  { intros x Hx. destruct (li_ent _ _ _ _ Hi x) as [_ ?]; [set_solver|lia]. }
  pose proof (height_pos k ns2 Hel) as Hh. case_bool_decide as Hin.
  - rewrite (proj2 (Z.eqb_neq _ _)); [done|]. assert (0 < height k ns2)%nat; [|lia]. apply Hh.
    apply list_elem_of_fmap in Hin as (y & -> & [Hy|Hy]%elem_of_app); [specialize (H1 y Hy); lia|]. apply list_elem_of_fmap. eauto.
  - rewrite (proj2 (Z.eqb_eq _ _)); [done|]. assert (¬ (0 < height k ns2)%nat); [|lia]. rewrite Hh. intros Hin2. apply Hin.
    rewrite fmap_app. set_solver.
Qed.

(** A client in two parts. *)
Lemma program_split {A} H ks (rest : SkipList → MS A) s :
  program rand junk H ks rest s = (program rand junk H ks (λ sl, mret sl) ≫= rest) s.
Proof.
  unfold program, mbind, M_bind. destruct (new_SkipList junk H s) as [[sl s1]|]; [|done].
  destruct (insert_all rand junk sl ks s1) as [[[] s2]|]; done.
Qed.

Lemma Remove_key_dangles m sl ns s ks k : NoDup ks → k ∈ ks → lite_inv m sl ns s → ek <$> ns ≡ₚ ks →
  ends (Remove junk sl k s) (λ r, ∃ ns1 q x, dangling m sl ns1 q r.2 ∧ key_of r.2 x = Some k).
Proof.
  intros Hnd Hk Hi Hp. rewrite <-Hp in Hnd, Hk.
  destruct (keys_split k ns (li_sorted _ _ _ _ Hi)) as (ns1 & ns2 & -> & H1 & H2).
  rewrite fmap_app in Hnd, Hk. apply NoDup_app in Hnd as (_ & _ & Hnd).
  assert (k ∈ ek <$> ns2) as Hk2.
  { apply elem_of_app in Hk as [(y & -> & Hy)%list_elem_of_fmap|]; [specialize (H1 y Hy); lia|done]. }
  assert (sorted_keys ns2) as Hs2.
  { pose proof (li_sorted _ _ _ _ Hi) as Hs. clear -Hs. induction ns1; [done|]. apply IHns1. by inversion Hs. }
  destruct ns2 as [|x ns2]; [set_solver|]. apply StronglySorted_inv in Hs2 as [_ Hx]. rewrite Forall_forall in Hx.
  rewrite fmap_cons in Hnd, Hk2. apply NoDup_cons in Hnd as [Hn _].
  assert (ek x = k) as Ex.
  { apply elem_of_cons in Hk2 as [->|(y & Ey & Hy)%list_elem_of_fmap]; [done|]. pose proof (H2 x ltac:(set_solver)).
    specialize (Hx y Hy). lia. }
  eapply ends_weaken; [apply (Remove_dangles junk m sl ns1 x ns2 s k Hi H1 Ex)|].
  - intros y Hy. specialize (Hx y Hy). assert (ek y ≠ ek x); [|lia]. intros E. apply Hn. rewrite <-E. apply list_elem_of_fmap. eauto.
  - intros [[] s'] (Hd & Hkey). cbn [snd] in *. eexists ns1, _, (ea x). split; [exact Hd|by rewrite Hkey, Ex].
Qed.

(** While no key is removed, the first skip list is a set of the keys inserted, whatever
    levels [rand] chooses; and its destructor returns everything it took from the heap but the
    array of one link of [tail_], eight bytes that it never releases. *)
Theorem lite_set_until_destroyed m H ks k : 1 ≤ H < 2 ^ 31 →
  ends (program rand junk H ks (λ sl, b ← Contains junk sl k; destroy sl;; mret b) (start m))
    (λ r, r.1 = bool_decide (k ∈ ks) ∧ ∃ a, m !! a = None ∧ mem r.2 = <[a := 8]> m).
Proof.
  intros HH. apply program_ends; [done|]. intros sl ns s Hi Hp.
  eapply ends_bind; [by apply lite_Contains_ends|]. intros b s1 [Hb Hi1]. cbn [fst snd] in *.
  destruct (destroy_whole m sl ns s1 Hi1) as (s2 & a & E & Ha & Hm). mstep E. apply ends_ok. cbn [fst snd]. split.
  - rewrite Hb. apply bool_decide_ext. by rewrite Hp.
  - by exists a.
Qed.

(** Removing a key deletes the wrong node.  After the links around the node of the key are
    changed, [Remove] deletes what the predecessor now points to, which is the node behind the
    removed one (or [tail_]): that node is gone but still on the list, the removed one is never
    released, and destroying the list uses the deleted node, or deletes [tail_] a second time. *)
Theorem lite_remove_deletes_successor m H ks k : 1 ≤ H < 2 ^ 31 → NoDup ks → k ∈ ks →
  ends (program rand junk H ks (λ sl, Remove junk sl k) (start m))
    (λ r, ∃ p q x, nx r.2 0 p = Some q ∧ nodes r.2 !! q = None ∧ key_of r.2 x = Some k) ∧
  fails FUndef (program rand junk H ks (λ sl, Remove junk sl k;; destroy sl) (start m)).
Proof.
  intros HH Hnd Hk. split.
  - apply program_ends; [done|]. intros sl ns s Hi Hp. eapply ends_weaken; [by eapply Remove_key_dangles|].
    intros [[] s'] (ns1 & q & x & Hd & Hx). cbn [snd] in *. exists (link_of (head_ sl) (ea <$> ns1)), q, x.
    split_and!; [|apply Hd|done]. pose proof (da_seg _ _ _ _ _ Hd) as Hsg. rewrite <-(app_nil_r (ea <$> ns1)) in Hsg.
    by apply seg_link in Hsg.
  - rewrite program_split. eapply fails_bind.
    + apply (program_ends m H ks (λ sl, mret sl) (λ r, ∃ ns, lite_inv m r.1 ns r.2 ∧ ek <$> ns ≡ₚ ks) HH).
      intros sl ns s Hi Hp. apply ends_ok. by exists ns.
    + intros sl s (ns & Hi & Hp). cbn [fst snd] in *. eapply fails_bind; [by eapply Remove_key_dangles|].
      intros [] s' (ns1 & q & x & Hd & _). left. by eapply destroy_dangling.
Qed.
End program.

(** ** Witnesses *)

Definition lite_rand (n : nat) : Z := Z.of_nat (n * n / 3).

Lemma lite_set_until_destroyed_witness :
  ∃ s, program (malloc_fn := bump_block) lite_rand 7 4 [5; 3; 9; 3; 7] (λ sl, b ← Contains (malloc_fn := bump_block) 7 sl 9; destroy sl;; mret b)
      (start {[ 64 := 100 ]}) = Ok (true, s) ∧ ∃ a, mem s = <[a := 8]> {[ 64 := 100 ]}.
Proof.
  assert (bool_decide (9 ∈ [5; 3; 9; 3; 7]) = true) as E9 by by vm_compute.
  destruct (lite_set_until_destroyed (malloc_fn := bump_block) lite_rand 7 {[ 64 := 100 ]} 4 [5; 3; 9; 3; 7] 9 ltac:(lia))
    as [([b s] & E & Hb & a & _ & Hm)|[E _]].
  - exists s. cbn [fst snd] in Hb, Hm. rewrite E9 in Hb. rewrite E, Hb. split; [done|by exists a].
  - exfalso. assert (match program (malloc_fn := bump_block) lite_rand 7 4 [5; 3; 9; 3; 7]
      (λ sl, b ← Contains (malloc_fn := bump_block) 7 sl 9; destroy sl;; mret b) (start {[ 64 := 100 ]}) with Ok _ => true | _ => false end = true)
      as E2 by by vm_compute. by rewrite E in E2.
Defined.

Lemma lite_remove_deletes_successor_witness :
  program (malloc_fn := bump_block) lite_rand 7 4 [5; 3; 9; 7] (λ sl, Remove (malloc_fn := bump_block) 7 sl 5;; destroy sl) (start {[ 64 := 100 ]}) = Err FUndef.
Proof.
  destruct (lite_remove_deletes_successor (malloc_fn := bump_block) lite_rand 7 {[ 64 := 100 ]} 4 [5; 3; 9; 7] 5) as [_ [E|[E _]]].
  - lia.
  - by apply (bool_decide_unpack _).
  - by apply (bool_decide_unpack _).
  - exact E.
  - exfalso. assert (match program (malloc_fn := bump_block) lite_rand 7 4 [5; 3; 9; 7] (λ sl, Remove (malloc_fn := bump_block) 7 sl 5;; destroy sl)
      (start {[ 64 := 100 ]}) with Err FNoMem => false | _ => true end = true) as E2 by by vm_compute. by rewrite E in E2.
Defined.
End SkipLiteProps.
