(* ===== verification/NgxPool.v ===== *)
(** nginx's memory pool, [ngx_pool/ngx_palloc.cpp]: small requests are cut from a list of blocks of
    one size, large ones are blocks of the process heap, and everything is released with the
    pool, after the cleanup handlers have run. *)

From S2P Require Import Prelude Chains HeapBlocks.
From stdpp Require Import options.

Module NgxPool.

(** [ngx_pool_data_t], the part of [ngx_pool_t] that every block has. *)
Record ngx_pool_data_t := mkData { last : Z; end_ : Z; next : Z; failed : Z }.

(** The rest of [ngx_pool_t], which only the first block has. *)
Record ngx_pool_head := mkHead { max : Z; current : Z; large : Z; cleanup : Z }.

Record ngx_pool_large_t := mkLarge { l_next : Z; alloc : Z }.
Record ngx_pool_cleanup_t := mkCleanup { handler : Z; data : Z; c_next : Z }.
Record ngx_pool_cleanup_file_t := mkFile { fd : Z; name : Z }.

(** What handlers do: the system calls of the two that are here, and calls of others. *)
Inductive event := Close (fd : Z) | Unlink (name : Z) | Call (handler data : Z).

(** The process heap and the structures in it, by address, and what handlers did. *)
Record st := mkSt {
  mem : blocks; datas : gmap Z ngx_pool_data_t; heads : gmap Z ngx_pool_head;
  larges : gmap Z ngx_pool_large_t; cleanups : gmap Z ngx_pool_cleanup_t;
  files : gmap Z ngx_pool_cleanup_file_t; events : list event;
}.

Definition set_mem (s : st) x := mkSt x (datas s) (heads s) (larges s) (cleanups s) (files s) (events s).
Definition set_datas (s : st) x := mkSt (mem s) x (heads s) (larges s) (cleanups s) (files s) (events s).
Definition set_heads (s : st) x := mkSt (mem s) (datas s) x (larges s) (cleanups s) (files s) (events s).
Definition set_larges (s : st) x := mkSt (mem s) (datas s) (heads s) x (cleanups s) (files s) (events s).
Definition set_cleanups (s : st) x := mkSt (mem s) (datas s) (heads s) (larges s) x (files s) (events s).
Definition set_files (s : st) x := mkSt (mem s) (datas s) (heads s) (larges s) (cleanups s) x (events s).
Definition add_event (s : st) e := mkSt (mem s) (datas s) (heads s) (larges s) (cleanups s) (files s) (events s ++ [e]).

Abbreviation MS := (M st).

Definition sizeof_pool_data := 32.
Definition sizeof_pool := 72.
Definition sizeof_large := 16.
Definition sizeof_cleanup := 24.
Definition sizeof_cleanup_file := 24.
Definition NGX_ALIGNMENT := 8.

(** The handlers of this file, as function pointers. *)
Definition ngx_pool_cleanup_file := 1.
Definition ngx_pool_delete_file := 2.

Definition ngx_align_ptr (p a : Z) : Z := Z.land (u64 (p + (a - 1))) (u64 (Z.lnot (a - 1))).

Definition data_at (p : Z) : MS ngx_pool_data_t := s ← get; lift (deref (datas s !! p)).
Definition head_at (p : Z) : MS ngx_pool_head := s ← get; lift (deref (heads s !! p)).
Definition upd_data (p : Z) (f : ngx_pool_data_t → ngx_pool_data_t) : MS unit :=
  data_at p;; modify (λ s, set_datas s (alter f p (datas s))).
Definition upd_head (p : Z) (f : ngx_pool_head → ngx_pool_head) : MS unit :=
  head_at p;; modify (λ s, set_heads s (alter f p (heads s))).

Definition with_last x d := mkData x (end_ d) (next d) (failed d).
Definition with_next x d := mkData (last d) (end_ d) x (failed d).
Definition with_failed x d := mkData (last d) (end_ d) (next d) x.
Definition with_current x h := mkHead (max h) x (large h) (cleanup h).
Definition with_large x h := mkHead (max h) (current h) x (cleanup h).
Definition with_cleanup x h := mkHead (max h) (current h) (large h) x.

Section pool.
(** The allocator and the size of a page. *)
Context {malloc_fn : Malloc} (ngx_pagesize : Z).

Definition NGX_MAX_ALLOC_FROM_POOL := u32 (ngx_pagesize - 1).

(** [ngx_alloc]: [LOG_FATAL] aborts when there is no memory. *)
Definition ngx_alloc (n : Z) : MS Z :=
  p ← zoom mem set_mem (malloc n); if p =? 0 then fail FNoMem else mret p.

(** [posix_memalign] with the alignment 16. *)
Definition ngx_memalign (n : Z) : MS Z := zoom mem set_mem (malloc n).

(** The members of the structure are written: undefined when the block is too small for it. *)
Definition ngx_create_pool (size : Z) : MS Z :=
  p ← ngx_memalign size;
  if p =? 0 then mret 0 else
  if size <? sizeof_pool then fail FUndef else
  let size' := u64 (size - sizeof_pool) in
  modify (λ s, set_datas s (<[p := mkData (u64 (p + sizeof_pool)) (u64 (p + size)) 0 0]> (datas s)));;
  modify (λ s, set_heads s (<[p := mkHead (if size' <? NGX_MAX_ALLOC_FROM_POOL then size' else NGX_MAX_ALLOC_FROM_POOL)
                                          p 0 0]> (heads s)));;
  mret p.

(** [for(p=pool->current; p->d.next; p=p->d.next) if((p->d.failed)++ > 4) pool->current=p->d.next]:
    the last block. *)
Fixpoint count_failures (fuel : nat) (pool p : Z) : MS Z :=
  d ← data_at p;
  if next d =? 0 then mret p else
  match fuel with
  | O => fail FFuel
  | S fuel =>
      upd_data p (with_failed (u32 (failed d + 1)));;
      (if 4 <? failed d then upd_head pool (with_current (next d)) else mret tt);;
      count_failures fuel pool (next d)
  end.

Definition ngx_palloc_block (pool size : Z) : MS Z :=
  d ← data_at pool;
  let psize := u64 (end_ d - pool) in
  b ← ngx_memalign psize;
  if b =? 0 then mret 0 else
  if psize <? sizeof_pool_data then fail FUndef else
  let m := ngx_align_ptr (u64 (b + sizeof_pool_data)) NGX_ALIGNMENT in
  modify (λ s, set_datas s (<[b := mkData (u64 (m + size)) (u64 (b + psize)) 0 0]> (datas s)));;
  h ← head_at pool;
  s ← get;
  p ← count_failures (base.size (datas s)) pool (current h);
  upd_data p (with_next b);;
  mret m.

(** The loop of [ngx_palloc_small] over the blocks from [p] on; [None] when none has the room. *)
Fixpoint search_blocks (fuel : nat) (p n : Z) (align : bool) : MS (option Z) :=
  d ← data_at p;
  let m := if align then ngx_align_ptr (last d) NGX_ALIGNMENT else last d in
  if n <=? u64 (end_ d - m) then upd_data p (with_last (u64 (m + n)));; mret (Some m)
  else if next d =? 0 then mret None else
  match fuel with O => fail FFuel | S fuel => search_blocks fuel (next d) n align end.

Definition ngx_palloc_small (pool n : Z) (align : bool) : MS Z :=
  h ← head_at pool;
  s ← get;
  r ← search_blocks (base.size (datas s)) (current h) n align;
  match r with Some m => mret m | None => ngx_palloc_block pool n end.

(** The search of [ngx_palloc_large] for a node to use again: whether there was one. *)
Fixpoint reuse_large (fuel : nat) (l n p : Z) : MS bool :=
  if l =? 0 then mret false else
  s ← get;
  nd ← lift (deref (larges s !! l));
  if alloc nd =? 0 then
    modify (λ s, set_larges s (<[l := mkLarge (l_next nd) p]> (larges s)));; mret true
  else if 3 <? n then mret false else
  match fuel with O => fail FFuel | S fuel => reuse_large fuel (l_next nd) (u32 (n + 1)) p end.

Definition ngx_palloc_large (pool n : Z) : MS Z :=
  p ← ngx_alloc n;
  h ← head_at pool;
  reused ← reuse_large 5 (large h) 0 p;
  if (reused : bool) then mret p else
  l ← ngx_palloc_small pool sizeof_large true;
  if l =? 0 then zoom mem set_mem (free p);; mret 0 else
  h ← head_at pool;
  modify (λ s, set_larges s (<[l := mkLarge (large h) p]> (larges s)));;
  upd_head pool (with_large l);;
  mret p.

Definition ngx_palloc (pool n : Z) : MS Z :=
  h ← head_at pool;
  if n <=? max h then ngx_palloc_small pool n true else ngx_palloc_large pool n.

(** Not implemented in the source. *)
Definition ngx_reset_pool (pool : Z) : MS unit := mret tt.
Definition ngx_pnalloc (pool n : Z) : MS Z := mret 0.
Definition ngx_pcalloc (pool n : Z) : MS Z := mret 0.
Definition ngx_pmemalign (pool n alignment : Z) : MS Z := mret 0.
Definition ngx_pfree (pool p : Z) : MS Z := mret 0.

(** ** Cleanup handlers *)

Definition ngx_pool_cleanup_add (pool n : Z) : MS Z :=
  c ← ngx_palloc pool sizeof_cleanup;
  if c =? 0 then mret 0 else
  d ← (if negb (n =? 0) then ngx_palloc pool n else mret 0);
  if negb (n =? 0) && (d =? 0) then mret 0 else
  h ← head_at pool;
  modify (λ s, set_cleanups s (<[c := mkCleanup 0 d (cleanup h)]> (cleanups s)));;
  upd_head pool (with_cleanup c);;
  mret c.

(** [ngx_pool_cleanup_file(data)] and [ngx_pool_delete_file(data)]: failed calls are only logged. *)
Definition cleanup_file (d : Z) : MS unit :=
  s ← get; f ← lift (deref (files s !! d)); modify (λ s, add_event s (Close (fd f))).
Definition delete_file (d : Z) : MS unit :=
  s ← get; f ← lift (deref (files s !! d));
  modify (λ s, add_event s (Unlink (name f)));; modify (λ s, add_event s (Close (fd f))).

(** [handler(data)]. *)
Definition run_handler (hd d : Z) : MS unit :=
  if hd =? ngx_pool_cleanup_file then cleanup_file d
  else if hd =? ngx_pool_delete_file then delete_file d
  else modify (λ s, add_event s (Call hd d)).

Fixpoint run_cleanup_file (fuel : nat) (c fdn : Z) : MS unit :=
  if c =? 0 then mret tt else
  match fuel with
  | O => fail FFuel
  | S fuel =>
      s ← get;
      n ← lift (deref (cleanups s !! c));
      if handler n =? ngx_pool_cleanup_file then
        f ← lift (deref (files s !! data n));
        if fd f =? fdn then
          run_handler (handler n) (data n);;
          modify (λ s, set_cleanups s (<[c := mkCleanup 0 (data n) (c_next n)]> (cleanups s)))
        else run_cleanup_file fuel (c_next n) fdn
      else run_cleanup_file fuel (c_next n) fdn
  end.

Definition ngx_pool_run_cleanup_file (pool fdn : Z) : MS unit :=
  h ← head_at pool; s ← get; run_cleanup_file (base.size (cleanups s)) (cleanup h) fdn.

(** ** The end *)

Fixpoint run_cleanups (fuel : nat) (c : Z) : MS unit :=
  if c =? 0 then mret tt else
  match fuel with
  | O => fail FFuel
  | S fuel =>
      s ← get;
      n ← lift (deref (cleanups s !! c));
      (if handler n =? 0 then mret tt else run_handler (handler n) (data n));;
      run_cleanups fuel (c_next n)
  end.

Fixpoint free_larges (fuel : nat) (l : Z) : MS unit :=
  if l =? 0 then mret tt else
  match fuel with
  | O => fail FFuel
  | S fuel =>
      s ← get;
      n ← lift (deref (larges s !! l));
      (if alloc n =? 0 then mret tt else zoom mem set_mem (free (alloc n)));;
      free_larges fuel (l_next n)
  end.

(** [for(p=pool, n=pool->d.next; ; p=n, n=n->d.next) { free(p); if(n==NULL) break; }]. *)
Fixpoint free_blocks (fuel : nat) (p n : Z) : MS unit :=
  zoom mem set_mem (free p);;
  modify (λ s, set_datas s (delete p (datas s)));;
  if n =? 0 then mret tt else
  match fuel with
  | O => fail FFuel
  | S fuel => d ← data_at n; free_blocks fuel n (next d)
  end.

Definition ngx_destroy_pool (pool : Z) : MS unit :=
  h ← head_at pool;
  s ← get;
  run_cleanups (base.size (cleanups s)) (cleanup h);;
  free_larges (base.size (larges s)) (large h);;
  d ← data_at pool;
  free_blocks (base.size (datas s)) pool (next d).

(** ** A client *)

(** Memory, a cleanup with a handler and [n] bytes of data, a cleanup for a file, and closing a file. *)
Inductive op := OAlloc (n : Z) | OCleanup (n hd : Z) | OFile (hd fdn nm : Z) | OCloseFile (fdn : Z).

(** The client fills in what it got, as [ngx_pool_test.cpp] does. *)
Definition set_handler (c hd : Z) : MS unit :=
  s ← get; n ← lift (deref (cleanups s !! c));
  modify (λ s, set_cleanups s (<[c := mkCleanup hd (data n) (c_next n)]> (cleanups s))).

Definition exec (pool : Z) (o : op) : MS Z :=
  match o with
  | OAlloc n => ngx_palloc pool n
  | OCleanup n hd =>
      c ← ngx_pool_cleanup_add pool n;
      if c =? 0 then mret 0 else set_handler c hd;; mret c
  | OFile hd fdn nm =>
      c ← ngx_pool_cleanup_add pool sizeof_cleanup_file;
      if c =? 0 then mret 0 else
      set_handler c hd;;
      s ← get; n ← lift (deref (cleanups s !! c));
      modify (λ s, set_files s (<[data n := mkFile fdn nm]> (files s)));;
      mret c
  | OCloseFile fdn => ngx_pool_run_cleanup_file pool fdn;; mret 0
  end.

Fixpoint session (pool : Z) (os : list op) : MS (list Z) :=
  match os with
  | [] => mret []
  | o :: os => r ← exec pool o; rs ← session pool os; mret (r :: rs)
  end.

Definition start (m : blocks) : st := mkSt m ∅ ∅ ∅ ∅ ∅ [].
End pool.
End NgxPool.
