(* ===== verification/NgxPoolFacts.v ===== *)
(** nginx's memory pool: the invariant of its blocks, and what allocating from them does: the search
    of the blocks, a new block, and the result of [ngx_palloc_small]. *)

From S2P Require Import Prelude Chains HeapBlocks NgxPool.
From stdpp Require Import options.

Import NgxPool.

Module NgxPoolFacts.

(** ** Alignment *)

Lemma align_8 p : 0 ≤ p → p + 8 ≤ 2 ^ 64 → ngx_align_ptr p NGX_ALIGNMENT = 8 * ((p + 7) / 8).
Proof.
  intros H1 H2. unfold ngx_align_ptr, NGX_ALIGNMENT. change (8 - 1) with 7. rewrite (wrapu_small 64 (p + 7)) by lia.
  assert (u64 (Z.lnot 7) = Z.lnot 7 mod 2 ^ 64) as -> by done.
  assert (Z.land (p + 7) (Z.lnot 7 mod 2 ^ 64) = Z.ldiff (p + 7) (Z.ones 3)) as ->.
  { rewrite <-Z.land_ones by lia. change (Z.lnot 7) with (Z.lnot (Z.ones 3)). rewrite (Z.land_comm (Z.lnot _)), Z.land_assoc.
    rewrite Z.land_ones by lia. rewrite Z.mod_small by lia. by rewrite <-Z.ldiff_land. }
  rewrite Z.ldiff_ones_r by lia. rewrite Z.shiftr_div_pow2, Z.shiftl_mul_pow2 by lia. change (2 ^ 3) with 8. lia.
Qed.

(** The aligned address is the first multiple of eight, so it does not pass an aligned end. *)
Lemma align_bounds p e m : 0 ≤ p → p + 8 ≤ 2 ^ 64 → m = ngx_align_ptr p NGX_ALIGNMENT →
  p ≤ m < p + 8 ∧ m mod 8 = 0 ∧ (p ≤ e → e mod 8 = 0 → m ≤ e).
Proof.
  intros H1 H2 ->. rewrite align_8 by done.
  pose proof (Z.div_mod (p + 7) 8 ltac:(lia)). pose proof (Z.mod_pos_bound (p + 7) 8 ltac:(lia)).
  split_and!; [lia|lia|by rewrite Z.mul_comm; apply Z_mod_mult|]. intros He Hm.
  pose proof (Z.div_mod e 8 ltac:(lia)). assert ((p + 7) / 8 ≤ e / 8); [|lia].
  apply Z.lt_succ_r. apply Z.div_lt_upper_bound; lia.
Qed.

Lemma aligned_16 b : b mod 16 = 0 → b mod 8 = 0.
Proof.
  intros H. rewrite (Z.div_mod b 16), H by lia. replace (16 * (b / 16) + 0) with (2 * (b / 16) * 8) by lia. apply Z_mod_mult.
Qed.

(** ** Out of memory *)

Section refusals.
Context {malloc_fn : Malloc}.

(** The heap after blocks of the sizes [ns] were taken from it. *)
Fixpoint after (ns : list Z) (l : blocks) : blocks :=
  match ns with [] => l | n :: ns => after ns (<[new_block n l := n]> l) end.

(** At most [j] blocks of at most [K] bytes were taken from the heap [l]. *)
Definition grew (j : nat) (K : Z) (l l' : blocks) : Prop := ∃ ns, (length ns ≤ j)%nat ∧ Forall (λ n, 0 ≤ n ≤ K) ns ∧ l' = after ns l.

(** The allocator had no block of [k <= K] bytes for the heap [l], or for [l] with at most [j] blocks
    of at most [K] bytes more. *)
Definition refused (j : nat) (K : Z) (l : blocks) : Prop := ∃ l' k, grew j K l l' ∧ 0 ≤ k ≤ K ∧ new_block k l' = 0.

Lemma after_app ns1 ns2 l : after (ns1 ++ ns2) l = after ns2 (after ns1 l).
Proof. revert l. induction ns1 as [|n ns1 IH]; intros l; [done|]. simpl. apply IH. Qed.

Lemma grew_refl j K l : grew j K l l.
Proof. exists []. split_and!; [simpl; lia|constructor|done]. Qed.
Lemma grew_one K n l : 0 ≤ n ≤ K → grew 1 K l (<[new_block n l := n]> l).
Proof. intros Hn. exists [n]. split_and!; [done|constructor; [done|constructor]|done]. Qed.
Lemma grew_trans j1 j2 K l1 l2 l3 : grew j1 K l1 l2 → grew j2 K l2 l3 → grew (j1 + j2) K l1 l3.
Proof.
  intros (n1 & L1 & F1 & ->) (n2 & L2 & F2 & ->). exists (n1 ++ n2). rewrite length_app, after_app. split_and!; [lia|by apply Forall_app|done].
Qed.
Lemma grew_mono j j' K K' l l' : grew j K l l' → (j ≤ j')%nat → K ≤ K' → grew j' K' l l'.
Proof. intros (ns & L & F & ->) Hj HK. exists ns. split_and!; [lia| |done]. eapply Forall_impl; [exact F|]. simpl. lia. Qed.

Lemma refused_now j K k l : 0 ≤ k ≤ K → new_block k l = 0 → refused j K l.
Proof. intros Hk H0. exists l, k. split; [apply grew_refl|done]. Qed.
Lemma refused_later j1 j2 K l l' : grew j1 K l l' → refused j2 K l' → refused (j1 + j2) K l.
Proof. intros Hg (l2 & k & Hg2 & H). exists l2, k. split; [by eapply grew_trans|done]. Qed.
Lemma refused_mono j j' K K' l : refused j K l → (j ≤ j')%nat → K ≤ K' → refused j' K' l.
Proof. intros (l' & k & Hg & Hk & H0) Hj HK. exists l', k. split; [by eapply grew_mono|]. split; [lia|done]. Qed.

(** A computation that gives what it should, unless the heap [l] it starts with runs out of memory. *)
Definition served (l : blocks) (j : nat) (K : Z) {A} (r : result A) (P : A → Prop) : Prop :=
  (∃ a, r = Ok a ∧ P a) ∨ (r = Err FNoMem ∧ refused j K l).

Lemma served_ok l j K {A} (a : A) (P : A → Prop) : P a → served l j K (Ok a) P.
Proof. left. eauto. Qed.
Lemma served_weaken l j j' K K' {A} (r : result A) (P Q : A → Prop) : served l j K r P → (j ≤ j')%nat → K ≤ K' → (∀ a, P a → Q a) → served l j' K' r Q.
Proof. intros [(a & -> & Ha)|[-> H]] Hj HK Hw; [left; eauto|right]. split; [done|by eapply refused_mono]. Qed.
Lemma served_later l l' j1 j2 K {A} (r : result A) (P : A → Prop) : grew j1 K l l' → served l' j2 K r P → served l (j1 + j2) K r P.
Proof. intros Hg [?|[-> H]]; [by left|right]. split; [done|by eapply refused_later]. Qed.
Lemma served_bind l j1 j K {S A B} (m : M S A) (f : A → M S B) s P Q :
  served l j1 K (m s) P → (j1 ≤ j)%nat → (∀ a s', P (a, s') → served l j K (f a s') Q) → served l j K ((m ≫= f) s) Q.
Proof.
  intros [([a s'] & E & Ha)|[E H]] Hj Hf; unfold mbind, M_bind; rewrite E; [by apply Hf|right]. split; [done|by eapply refused_mono].
Qed.

End refusals.

(** ** The invariant *)

(** The links between blocks, and what else of a block matters. *)
Definition dnx (s : st) (b : Z) : option Z := next <$> datas s !! b.
Definition extent (s : st) (b : Z) : option (Z * Z) := (λ d, (last d, end_ d)) <$> datas s !! b.

(** The bytes of a block's own structure. *)
Definition hdr (pool b : Z) : Z := if b =? pool then sizeof_pool else sizeof_pool_data.

(** A range handed out: cut from a block, or a block of the heap itself. *)
Definition lent (pool : Z) (bs ex : list Z) (s : st) (r : Z * Z) : Prop :=
  (∃ b l e, b ∈ bs ∧ extent s b = Some (l, e) ∧ b + hdr pool b ≤ r.1 ∧ r.1 + r.2 ≤ l) ∨
  (r.1 ∈ ex ∧ mem s !! r.1 = Some r.2).

(** [bs]: the blocks of the pool, each of [sz] bytes; [ex]: its large blocks; [used]: the ranges
    handed out; [m0]: the rest of the heap. *)
Record core_inv (m0 : blocks) (pool sz : Z) (bs ex : list Z) (used : list (Z * Z)) (s : st) : Prop := {
  co_sz : sizeof_pool ≤ sz ∧ sz mod 8 = 0 ∧ sz < 2 ^ 63;
  co_heap : blocks_apart (mem s);
  co_block b : b ∈ bs → mem s !! b = Some sz ∧ 0 < b ∧ b + sz < 2 ^ 64 ∧ b mod 8 = 0 ∧
    ∃ l, extent s b = Some (l, b + sz) ∧ b + hdr pool b ≤ l ≤ b + sz;
  co_chain : chain (dnx s) pool bs;
  co_head : ∃ h, heads s !! pool = Some h ∧ 0 ≤ max h ≤ sz - sizeof_pool ∧ current h ∈ bs;
  co_nodup : NoDup (bs ++ ex);
  co_ex a : a ∈ ex → a ≠ 0 ∧ is_Some (mem s !! a);
  co_used : Forall (lent pool bs ex s) used;
  co_pos : Forall (λ r, 0 ≤ r.2 ∧ 0 < r.1) used;
  co_apart : ForallOrdPairs apart used;
  co_rest b : b ∉ bs ++ ex → mem s !! b = m0 !! b;
  co_own b : b ∈ bs ++ ex → m0 !! b = None;
  co_datas b : is_Some (datas s !! b) → b ∈ bs;
}.

(** Nothing but blocks and [current] changed. *)
Definition same_lists (pool : Z) (s s' : st) : Prop :=
  larges s' = larges s ∧ cleanups s' = cleanups s ∧ files s' = files s ∧ events s' = events s ∧
  ∀ h, heads s !! pool = Some h → ∃ c, heads s' !! pool = Some (with_current c h).

Lemma same_lists_refl pool s : same_lists pool s s.
Proof. split_and!; try done. intros h E. exists (current h). rewrite E. by destruct h. Qed.

Lemma same_lists_trans pool s1 s2 s3 : same_lists pool s1 s2 → same_lists pool s2 s3 → same_lists pool s1 s3.
Proof.
  intros (E1 & E2 & E3 & E4 & E5) (F1 & F2 & F3 & F4 & F5). split_and!; try congruence. intros h Hh.
  destruct (E5 h Hh) as [c Hc]. destruct (F5 _ Hc) as [c' Hc']. by exists c'.
Qed.

(** Changing blocks only. *)
Lemma same_lists_datas pool s x : same_lists pool s (set_datas s x).
Proof. split_and!; try done. intros h E. exists (current h). simpl. rewrite E. by destruct h. Qed.

Lemma same_lists_mem pool s x : same_lists pool s (set_mem s x).
Proof. split_and!; try done. intros h E. exists (current h). simpl. rewrite E. by destruct h. Qed.

Section core.
Context (m0 : blocks) (pool sz : Z) (bs ex : list Z) (used : list (Z * Z)) (s : st).
Context (Hi : core_inv m0 pool sz bs ex used s).
#[local] Set Default Proof Using "Hi".

Lemma pool_in : pool ∈ bs.
Proof.
  destruct (co_head _ _ _ _ _ _ _ Hi) as (h & _ & _ & Hc). pose proof (co_chain _ _ _ _ _ _ _ Hi) as Hch.
  destruct bs as [|b l]; [set_solver|]. destruct Hch as (-> & _). set_solver.
Qed.

Lemma blocks_size : (length bs ≤ base.size (datas s))%nat.
Proof.
  eapply chain_le_size; [apply Hi|]. intros a [x Hx]. unfold dnx in Hx. destruct (datas s !! a); [eauto|done].
Qed.

(** The chain from one of the blocks. *)
Lemma chain_from b : b ∈ bs → ∃ l, chain (dnx s) b (b :: l) ∧ (length l < base.size (datas s))%nat ∧ (∀ c, c ∈ l → c ∈ bs) ∧
  link_of b l = link_of pool bs.
Proof.
  intros (l1 & l2 & E)%list_elem_of_split. pose proof (co_chain _ _ _ _ _ _ _ Hi) as Hc. rewrite E in Hc.
  apply seg_app in Hc as (r & _ & Hc). pose proof Hc as (-> & _). exists l2. split_and!; [done| | |].
  - pose proof blocks_size as Hs. rewrite E, length_app in Hs. simpl in Hs. lia.
  - intros c Hc'. rewrite E. set_solver.
  - rewrite E. unfold link_of at 2. by rewrite last_app_cons, <-(link_of_cons pool).
Qed.

(** A range in the free part of a block meets nothing that was handed out. *)
Lemma free_apart b l e r : b ∈ bs → extent s b = Some (l, e) → l ≤ r.1 → within r (b, sz) → Forall (apart r) used.
Proof.
  intros Hb He Hl Hw. eapply Forall_impl; [apply (co_used _ _ _ _ _ _ _ Hi)|].
  destruct (co_block _ _ _ _ _ _ _ Hi b Hb) as (Hm & _). intros q [(c & l' & e' & Hc & He' & H1 & H2)|[Hq Hqm]].
  - destruct (decide (c = b)) as [->|Hne].
    + rewrite He in He'. simplify_eq. unfold apart. lia.
    + destruct (co_block _ _ _ _ _ _ _ Hi c Hc) as (Hm' & _ & _ & _ & l2 & He2 & ?). rewrite He2 in He'. simplify_eq.
      apply (within_apart _ _ (b, sz) (c, sz)); [done| |apply (co_heap _ _ _ _ _ _ _ Hi); done].
      unfold within, hdr, sizeof_pool, sizeof_pool_data in *. simpl. destruct (c =? pool); lia.
  - apply (within_apart _ _ (b, sz) q); [done|split; simpl; lia|]. destruct q as [q k]. simpl in *.
    apply (co_heap _ _ _ _ _ _ _ Hi); [done|done|]. intros <-. pose proof (co_nodup _ _ _ _ _ _ _ Hi) as (_ & Hd & _)%NoDup_app.
    by eapply Hd.
Qed.

(** [n] bytes cut from a block. *)
Lemma cut_block b l n m :
  b ∈ bs → extent s b = Some (l, b + sz) → l ≤ m → m + n ≤ b + sz → 0 ≤ n →
  core_inv m0 pool sz bs ex ((m, n) :: used) (set_datas s (alter (with_last (m + n)) b (datas s))).
Proof.
  intros Hb He Hl Hn H0. set (s' := set_datas s _).
  assert (∀ c, dnx s' c = dnx s c) as Hd.
  { intros c. unfold dnx, s'. simpl. destruct (decide (c = b)) as [->|]; [|by rewrite lookup_alter_ne by done].
    rewrite lookup_alter_eq. by destruct (datas s !! b). }
  assert (extent s' b = Some (m + n, b + sz)) as He'.
  { unfold extent, s' in *. simpl. rewrite lookup_alter_eq. destruct (datas s !! b); simplify_eq/=. congruence. }
  assert (∀ c, c ≠ b → extent s' c = extent s c) as Ho.
  { intros c Hc. unfold extent, s'. simpl. by rewrite lookup_alter_ne by done. }
  destruct (co_block _ _ _ _ _ _ _ Hi b Hb) as (Hm & Hb0 & Hb1 & Hb2 & l' & El & Hl'). rewrite He in El. simplify_eq.
  assert (∀ r, lent pool bs ex s r → lent pool bs ex s' r) as Hlent.
  { intros r [(c & lc & ec & Hc & Hec & H1 & H2)|?]; [left|by right]. destruct (decide (c = b)) as [->|Hne].
    - rewrite He in Hec. simplify_eq. exists b, (m + n), (b + sz). split_and!; [done|done|done|lia].
    - exists c, lc, ec. rewrite Ho by done. done. }
  split; try apply Hi.
  - intros c Hc. destruct (decide (c = b)) as [->|Hne].
    + split_and!; try done. exists (m + n). split; [done|lia].
    + rewrite Ho by done. by apply Hi.
  - eapply seg_frame; [apply Hi|]. intros. apply Hd.
  - constructor; [left|eapply Forall_impl; [apply Hi|done]]. exists b, (m + n), (b + sz). simpl. split_and!; [done|done|lia|lia].
  - constructor; [|apply Hi]. simpl. unfold hdr, sizeof_pool, sizeof_pool_data in *. destruct (b =? pool); lia.
  - constructor; [|apply Hi]. eapply free_apart; [done|exact He|simpl; lia|].
    unfold within, hdr, sizeof_pool, sizeof_pool_data in *. simpl. destruct (b =? pool); lia.
  - intros c [d Hc]. apply Hi. unfold s' in Hc. simpl in Hc. destruct (decide (c = b)) as [->|].
    + rewrite lookup_alter_eq in Hc. destruct (datas s !! b); [eauto|done].
    + rewrite lookup_alter_ne in Hc by done. eauto.
Qed.

Lemma data_at_ok b l e : extent s b = Some (l, e) → ∃ d, data_at b s = Ok (d, s) ∧ datas s !! b = Some d ∧ last d = l ∧ end_ d = e.
Proof.
  unfold extent, data_at. intros E. destruct (datas s !! b) as [d|] eqn:Ed; simplify_eq/=. exists d.
  rewrite bind_get, Ed. done.
Qed.

(** The end of a block and the first free address in it. *)
Lemma block_bounds b : b ∈ bs → ∃ l, extent s b = Some (l, b + sz) ∧ 0 ≤ l ≤ b + sz ∧ b + hdr pool b ≤ l ∧ b + sz ≤ 2 ^ 64 - 8 ∧ (b + sz) mod 8 = 0.
Proof.
  intros Hb. destruct (co_block _ _ _ _ _ _ _ Hi b Hb) as (_ & Hb0 & Hb1 & Hb2 & l & El & Hl).
  destruct (co_sz _ _ _ _ _ _ _ Hi) as (Hs1 & Hs2 & Hs3).
  assert ((b + sz) mod 8 = 0) as Hm by (by rewrite Zplus_mod, Hb2, Hs2). exists l.
  pose proof (Z.div_mod (b + sz) 8 ltac:(lia)). unfold hdr, sizeof_pool, sizeof_pool_data in *.
  split_and!; [done|destruct (b =? pool); lia|lia|lia|lia|done].
Qed.

(** One block of the search: taken, or passed. *)
Lemma try_block n p fuel : 0 ≤ n → p ∈ bs →
  (∃ m s', search_blocks fuel p n true s = Ok (Some m, s') ∧ m mod 8 = 0 ∧ m ≠ 0 ∧
    core_inv m0 pool sz bs ex ((m, n) :: used) s' ∧ same_lists pool s s' ∧ mem s' = mem s) ∨
  ∃ d, datas s !! p = Some d ∧ search_blocks fuel p n true s =
    if next d =? 0 then Ok (None, s) else match fuel with O => Err FFuel | S fuel => search_blocks fuel (next d) n true s end.
Proof.
  intros Hn Hp. destruct (block_bounds p Hp) as (l & El & Hl & Hh & He & Hm).
  destruct (data_at_ok p _ _ El) as (d & Ed & Hd & Hdl & Hde).
  destruct (align_bounds l (p + sz) (ngx_align_ptr (last d) NGX_ALIGNMENT)) as (Ha1 & Ha2 & Ha3); [lia|lia|by rewrite Hdl|].
  specialize (Ha3 ltac:(lia) Hm).
  remember (ngx_align_ptr (last d) NGX_ALIGNMENT) as m eqn:Em.
  assert (∀ f', search_blocks f' p n true s =
    if n <=? p + sz - m then Ok (Some m, set_datas s (alter (with_last (m + n)) p (datas s)))
    else if next d =? 0 then Ok (None, s) else match f' with O => Err FFuel | S f' => search_blocks f' (next d) n true s end) as E.
  { intros f'. destruct f'; cbn [search_blocks]; mstep Ed; cbv zeta; rewrite <-Em, Hde, (wrapu_small 64 (p + sz - _)) by lia;
      destruct (Z.leb_spec n (p + sz - m)); try (by destruct (next d =? 0)); unfold upd_data, mbind, M_bind; rewrite Ed;
      rewrite (wrapu_small 64 (m + n)) by lia; done. }
  rewrite E. destruct (Z.leb_spec n (p + sz - m)) as [Hfit|Hfit]; [left|right; eauto].
  eexists m, _. split; [done|]. split_and!; [done| |eapply cut_block; [done|exact El|lia|lia|done]|apply same_lists_datas|done].
  unfold hdr, sizeof_pool, sizeof_pool_data in Hh. destruct (co_block _ _ _ _ _ _ _ Hi p Hp) as (_ & ? & _). destruct (p =? pool); lia.
Qed.

(** The search for a block with room for [n] bytes. *)
Lemma search_blocks_ok n p l fuel : 0 ≤ n → p ∈ bs → (∀ c, c ∈ l → c ∈ bs) → chain (dnx s) p (p :: l) → (length l ≤ fuel)%nat →
  search_blocks fuel p n true s = Ok (None, s) ∨
  ∃ m s', search_blocks fuel p n true s = Ok (Some m, s') ∧ m mod 8 = 0 ∧ m ≠ 0 ∧
    core_inv m0 pool sz bs ex ((m, n) :: used) s' ∧ same_lists pool s s' ∧ mem s' = mem s.
Proof.
  intros Hn. revert p fuel. induction l as [|c l IH]; intros p fuel Hp Hl Hc Hf.
  - pose proof Hc as (_ & _ & r & Hr & Hr0). simpl in Hr0. subst r.
    destruct (try_block n p fuel Hn Hp) as [?|[d (Hd & E)]]; [by right|left]. rewrite E.
    unfold dnx in Hr. rewrite Hd in Hr. simplify_eq/=. rewrite Hr. done.
  - pose proof Hc as (_ & _ & r & Hr & Hc'). pose proof Hc' as (-> & Hc0 & _).
    destruct (try_block n p fuel Hn Hp) as [?|[d (Hd & E)]]; [by right|]. rewrite E.
    unfold dnx in Hr. rewrite Hd in Hr. simplify_eq/=. rewrite (proj2 (Z.eqb_neq _ _)) by done.
    destruct fuel as [|fuel]; [lia|]. apply IH; [set_solver|set_solver|done|lia].
Qed.
End core.

(** * Allocating *)

(** ** Counting failures *)

(** The loop changes [failed], and [current] to a block it visits. *)
Definition counted (pool : Z) (l : list Z) (s s' : st) : Prop :=
  (∀ b, dnx s' b = dnx s b) ∧ (∀ b, extent s' b = extent s b) ∧ mem s' = mem s ∧ same_lists pool s s' ∧
  ∀ h, heads s !! pool = Some h → ∃ c, heads s' !! pool = Some (with_current c h) ∧ (c = current h ∨ c ∈ l).

Lemma counted_refl pool l s : counted pool l s s.
Proof.
  split_and!; try done; [apply same_lists_refl|]. intros h E. exists (current h). rewrite E. split; [by destruct h|by left].
Qed.

Lemma counted_trans pool l1 l2 s1 s2 s3 : counted pool l1 s1 s2 → counted pool l2 s2 s3 → counted pool (l1 ++ l2) s1 s3.
Proof.
  intros (A1 & A2 & A3 & A4 & A5) (B1 & B2 & B3 & B4 & B5). split_and!; try congruence; [by eapply same_lists_trans|].
  intros h Hh. destruct (A5 h Hh) as (c & Hc & Hin). destruct (B5 _ Hc) as (c' & Hc' & Hin'). exists c'. split; [done|].
  rewrite elem_of_app. destruct Hin' as [->|?]; simpl; tauto.
Qed.

Lemma counted_failed pool l p x s : counted pool l s (set_datas s (alter (with_failed x) p (datas s))).
Proof.
  split_and!; [| |done|apply same_lists_datas|].
  1, 2: intros b; unfold dnx, extent; simpl; destruct (decide (b = p)) as [->|]; [|by rewrite lookup_alter_ne by done].
  1, 2: rewrite lookup_alter_eq; by destruct (datas s !! p).
  intros h E. exists (current h). simpl. rewrite E. split; [by destruct h|by left].
Qed.

Lemma counted_current pool l c s : c ∈ l → counted pool l s (set_heads s (alter (with_current c) pool (heads s))).
Proof.
  intros Hc. split_and!; try done; [split_and!; try done|]; intros h E; exists c; simpl; rewrite lookup_alter_eq, E; auto.
Qed.

(** One block of the loop, and the blocks behind it. *)
Lemma count_failures_ok pool l p fuel s :
  is_Some (heads s !! pool) → chain (dnx s) p (p :: l) → (length l ≤ fuel)%nat →
  ∃ s', count_failures fuel pool p s = Ok (link_of p l, s') ∧ counted pool l s s'.
Proof.
  revert p fuel s. induction l as [|a l IH]; intros p fuel s [h Hh] Hc Hf; pose proof Hc as (_ & _ & r & Hr & Hc');
    unfold dnx in Hr; destruct (datas s !! p) as [d|] eqn:Ed; simplify_eq/=;
    assert (data_at p s = Ok (d, s)) as Ea by (unfold data_at; rewrite bind_get, Ed; done).
  - exists s. split; [|apply counted_refl]. destruct fuel; cbn [count_failures]; mstep Ea; by rewrite Hr.
  - destruct Hc' as (<- & Ha & Hc'). destruct fuel as [|fuel]; [lia|]. cbn [count_failures]. mstep Ea. zneq (next d) 0.
    set (s1 := set_datas s (alter (with_failed (u32 (failed d + 1))) p (datas s))).
    assert (upd_data p (with_failed (u32 (failed d + 1))) s = Ok (tt, s1)) as E1 by (unfold upd_data; mstep Ea; done).
    mstep E1.
    assert (∃ s2, (if 4 <? failed d then upd_head pool (with_current (next d)) else mret tt) s1 = Ok (tt, s2) ∧
      counted pool (next d :: l) s1 s2) as (s2 & E2 & C2).
    { destruct (4 <? failed d); [|exists s1; split; [done|apply counted_refl]].
      eexists. split; [unfold upd_head, head_at, mbind, M_bind, get; simpl; rewrite Hh; done|].
      apply counted_current. set_solver. }
    mstep E2. pose proof (counted_trans _ _ _ _ _ _ (counted_failed pool [] p _ s) C2) as C. simpl in C.
    destruct (IH (next d) fuel s2) as (s3 & E3 & C3).
    + destruct C as (_ & _ & _ & _ & C). destruct (C h Hh) as (? & -> & _). eauto.
    + apply (seg_frame (dnx s) (dnx s2) (next d) (next d :: l) 0); [done|]. intros. apply C.
    + lia.
    + exists s3. rewrite link_of_cons. split; [done|]. destruct (counted_trans _ _ _ _ _ _ C C3) as (A1 & A2 & A3 & A4 & A5).
      split_and!; try done. intros h' Hh'. destruct (A5 h' Hh') as (c & ? & [?|Hin]); exists c; split; try done; set_solver.
Qed.

(** ** A new block *)

Section grow.
Context {malloc_fn : Malloc} {laws : MallocLaws}.
Context (m0 : blocks) (pool sz : Z) (bs ex : list Z) (used : list (Z * Z)) (s : st).
Context (Hi : core_inv m0 pool sz bs ex used s).
#[local] Set Default Proof Using "laws Hi".

(** Memory of the heap that is in use is not where a new block is. *)
Lemma new_elsewhere n : 0 ≤ n → new_block n (mem s) ≠ 0 → (new_block n (mem s) ∉ bs ++ ex) ∧ m0 !! new_block n (mem s) = None.
Proof.
  intros Hn H0. pose proof (new_block_fresh n (mem s) Hn H0) as Hf.
  assert (new_block n (mem s) ∉ bs ++ ex) as Hni.
  { intros [Hb|Hb]%elem_of_app.
    - destruct (co_block _ _ _ _ _ _ _ Hi _ Hb) as (E & _). congruence.
    - destruct (co_ex _ _ _ _ _ _ _ Hi _ Hb) as (_ & x & E). congruence. }
  split; [done|]. by rewrite <-(co_rest _ _ _ _ _ _ _ Hi).
Qed.

(** What is lent is in a block of the heap, so a new block is apart from it. *)
Lemma new_apart n r : 0 ≤ n → new_block n (mem s) ≠ 0 → within r (new_block n (mem s), n) → Forall (apart r) used.
Proof.
  intros Hn H0 Hw. eapply Forall_impl; [apply (co_used _ _ _ _ _ _ _ Hi)|]. intros q Hq.
  assert (∃ a k, mem s !! a = Some k ∧ within q (a, k)) as (a & k & Ha & Hqa).
  { destruct Hq as [(b & l & e & Hb & He & H1 & H2)|[_ Hq]]; [|exists q.1, q.2; unfold within; simpl; split; [done|lia]].
    destruct (co_block _ _ _ _ _ _ _ Hi _ Hb) as (Hm & _ & _ & _ & l' & El & Hl). rewrite He in El. simplify_eq.
    exists b, sz. split; [done|]. unfold within, hdr, sizeof_pool, sizeof_pool_data in *. simpl. destruct (b =? pool); lia. }
  apply (within_apart _ _ _ _ Hw Hqa). by apply new_block_apart.
Qed.

(** What is lent stays lent when blocks are added to the heap and to the pool. *)
Lemma lent_grow bs' ex' s' r :
  (∀ b, b ∈ bs → b ∈ bs' ∧ extent s' b = extent s b) → (∀ a, a ∈ ex → a ∈ ex' ∧ mem s' !! a = mem s !! a) →
  lent pool bs ex s r → lent pool bs' ex' s' r.
Proof.
  intros Hb He [(b & l & e & H1 & H2 & H3 & H4)|[H1 H2]]; [left|right].
  - destruct (Hb _ H1) as [? E]. exists b, l, e. by rewrite E.
  - destruct (He _ H1) as [? ->]. done.
Qed.

Lemma core_grow b n s' :
  b = new_block sz (mem s) → b ≠ 0 → 0 ≤ n → n ≤ sz - sizeof_pool_data → mem s' = <[b := sz]> (mem s) →
  extent s' b = Some (b + sizeof_pool_data + n, b + sz) → (∀ x, x ≠ b → extent s' x = extent s x) →
  dnx s' b = Some 0 → dnx s' (link_of pool bs) = Some b → (∀ x, x ≠ b → x ≠ link_of pool bs → dnx s' x = dnx s x) →
  (∃ h, heads s' !! pool = Some h ∧ 0 ≤ max h ≤ sz - sizeof_pool ∧ current h ∈ bs) →
  core_inv m0 pool sz (bs ++ [b]) ex ((b + sizeof_pool_data, n) :: used) s'.
Proof.
  intros Eb H0 Hn Hn' Em Exb Ex Edb Edl Ed Eh. destruct (co_sz _ _ _ _ _ _ _ Hi) as (Hs1 & Hs2 & Hs3).
  assert (0 ≤ sz) as Hsz by (unfold sizeof_pool in *; lia).
  destruct (new_elsewhere sz Hsz) as [Hni Hm0]; [by rewrite <-Eb|]. rewrite <-Eb in Hni, Hm0.
  pose proof (new_block_range sz (mem s) Hsz ltac:(by rewrite <-Eb)) as Hrg. rewrite <-Eb in Hrg.
  pose proof (new_block_aligned sz (mem s) Hsz) as Hal. rewrite <-Eb in Hal.
  assert (∀ x, x ∈ bs → x ≠ b) as Hbs by set_solver. assert (∀ x, x ∈ ex → x ≠ b) as Hex by set_solver.
  assert (b ≠ pool) as Hbp by (intros ->; eapply Hbs; [eapply pool_in, Hi|done]).
  assert (∀ x, x ≠ b → mem s' !! x = mem s !! x) as Hmem by (intros; rewrite Em; by rewrite lookup_insert_ne).
  assert (Forall (lent pool (bs ++ [b]) ex s') used) as Hus.
  { eapply Forall_impl; [apply Hi|]. intros r. apply lent_grow; intros; split; auto; set_solver. }
  assert (hdr pool b = sizeof_pool_data) as Hhd by (unfold hdr; by zneq b pool).
  split; try apply Hi.
  - rewrite Em, Eb. apply blocks_apart_new; [done|by rewrite <-Eb|apply Hi].
  - intros x Hx. rewrite elem_of_app, list_elem_of_singleton in Hx. destruct Hx as [Hx| ->].
    + rewrite Hmem, Ex by auto. by apply Hi.
    + split_and!; [by rewrite Em, lookup_insert_eq|lia|lia|by apply aligned_16|].
      eexists. split; [exact Exb|]. rewrite Hhd. lia.
  - pose proof (co_chain _ _ _ _ _ _ _ Hi) as Hc. destruct bs as [|x l]; [exfalso; pose proof (pool_in _ _ _ _ _ _ _ Hi); set_solver|].
    pose proof Hc as (-> & _). rewrite link_of_cons in *. apply seg_app. exists b. split; [|split_and!; [done|done|by exists 0]].
    eapply seg_retarget; [exact Hc|by eapply chain_NoDup|done|]. intros y Hy. apply Ed. auto.
  - destruct Eh as (h & ? & ? & ?). exists h. split_and!; [done|lia|lia|set_solver].
  - pose proof (co_nodup _ _ _ _ _ _ _ Hi) as Hnd. rewrite <-app_assoc. simpl. rewrite <-Permutation_middle. by constructor.
  - intros a Ha. rewrite Hmem by auto. by apply Hi.
  - constructor; [|done]. left. exists b. eexists _, _. split_and!; [set_solver|exact Exb|simpl; lia|simpl; lia].
  - constructor; [|apply Hi]. simpl. unfold sizeof_pool_data. lia.
  - constructor; [|apply Hi]. apply (new_apart sz); rewrite <-?Eb; [done|done|].
    unfold within, sizeof_pool_data in *. simpl. lia.
  - intros x Hx. rewrite Hmem by set_solver. apply Hi. set_solver.
  - intros x Hx. rewrite !elem_of_app, list_elem_of_singleton in Hx. destruct Hx as [[Hx| ->]|Hx]; [apply Hi; set_solver|done|apply Hi; set_solver].
  - intros x Hx. destruct (decide (x = b)) as [->|Hne]; [set_solver|].
    assert (is_Some (datas s !! x)) as Hs; [|set_unfold; left; by apply Hi]. specialize (Ex x Hne). unfold extent in Ex.
    destruct (datas s !! x); [eauto|]. destruct Hx as [? E]. by rewrite E in Ex.
Qed.

(** A new block: the memory behind its structure is aligned. *)
Lemma fresh_range b : b = new_block sz (mem s) → b ≠ 0 →
  0 < b ∧ b + sz < 2 ^ 64 ∧ ngx_align_ptr (u64 (b + sizeof_pool_data)) NGX_ALIGNMENT = b + sizeof_pool_data.
Proof.
  intros Eb H0. destruct (co_sz _ _ _ _ _ _ _ Hi) as (Hs1 & _). unfold sizeof_pool, sizeof_pool_data in *.
  pose proof (new_block_range sz (mem s) ltac:(lia) ltac:(by rewrite <-Eb)) as Hrg. rewrite <-Eb in Hrg.
  pose proof (new_block_aligned sz (mem s) ltac:(lia)) as Hal. rewrite <-Eb in Hal. split_and!; [lia|lia|].
  rewrite wrapu_small by lia. destruct (align_bounds (b + 32) (b + 32) _ ltac:(lia) ltac:(lia) eq_refl) as (H1 & _ & H3).
  apply Z.le_antisymm; [|apply H1]. apply H3; [done|]. rewrite Zplus_mod, (aligned_16 b Hal). done.
Qed.

(** What a small request gives: the null pointer, when the heap is out of memory, or a new range. *)
Definition small_post (n : Z) (r : Z) (s' : st) : Prop :=
  (r = 0 ∧ s' = s ∧ new_block sz (mem s) = 0) ∨
  (r ≠ 0 ∧ r mod 8 = 0 ∧ same_lists pool s s' ∧ grew 1 sz (mem s) (mem s') ∧ ∃ bs', core_inv m0 pool sz bs' ex ((r, n) :: used) s').

(** The heap with a new block that has lent [n] bytes and is not linked yet. *)
Definition with_block (b n : Z) : st :=
  set_datas (set_mem s (<[b := sz]> (mem s))) (<[b := mkData (b + sizeof_pool_data + n) (b + sz) 0 0]> (datas s)).

(** The last block is one of the pool's. *)
Lemma last_block : link_of pool bs ∈ bs ∧ is_Some (dnx s (link_of pool bs)).
Proof.
  assert (link_of pool bs ∈ bs) as Hin by (destruct (link_of_in pool bs) as [[-> _]|]; [eapply pool_in, Hi|done]).
  split; [done|]. eapply chain_next; [apply (co_chain _ _ _ _ _ _ _ Hi)|done].
Qed.

(** Linking it, after the failures were counted. *)
Lemma block_linked b n l s2 :
  b = new_block sz (mem s) → b ≠ 0 → 0 ≤ n ≤ sz - sizeof_pool_data → (∀ c, c ∈ l → c ∈ bs) → counted pool l (with_block b n) s2 →
  ∃ s', upd_data (link_of pool bs) (with_next b) s2 = Ok (tt, s') ∧ same_lists pool s s' ∧ mem s' = <[b := sz]> (mem s) ∧
    core_inv m0 pool sz (bs ++ [b]) ex ((b + sizeof_pool_data, n) :: used) s'.
Proof.
  intros Eb H0 Hn Hl (C1 & C2 & C3 & C4 & C5). destruct last_block as [Hin [q Hq]]. set (k := link_of pool bs) in *.
  destruct (co_sz _ _ _ _ _ _ _ Hi) as (Hs1 & _). unfold sizeof_pool in Hs1.
  assert (b ∉ bs) as Hnb. { rewrite Eb in H0 |- *. destruct (new_elsewhere sz ltac:(lia) H0) as [Hni _]. set_solver. }
  assert (k ≠ b) as Hkb by (by intros <-).
  assert (∀ x, x ≠ b → datas (with_block b n) !! x = datas s !! x) as Hd by (intros; simpl; by rewrite lookup_insert_ne).
  destruct (datas s2 !! k) as [d|] eqn:Ed.
  2: { specialize (C1 k). unfold dnx in C1, Hq. rewrite Ed, Hd in C1 by done. destruct (datas s !! k); done. }
  exists (set_datas s2 (alter (with_next b) k (datas s2))). split; [|split; [|split; [exact C3|]]].
  - unfold upd_data, data_at, mbind, M_bind, get, modify. rewrite Ed. done.
  - eapply same_lists_trans; [|apply same_lists_datas]. eapply same_lists_trans; [|exact C4].
    eapply same_lists_trans; [|apply same_lists_datas]. apply same_lists_mem.
  - assert (∀ x, extent (set_datas s2 (alter (with_next b) k (datas s2))) x = extent (with_block b n) x) as Hx.
    { intros x. rewrite <-C2. unfold extent. simpl. destruct (decide (x = k)) as [->|]; [|by rewrite lookup_alter_ne].
      rewrite lookup_alter_eq. by destruct (datas s2 !! k). }
    apply core_grow; try done; try lia.
    + rewrite Hx. unfold extent. simpl. by rewrite lookup_insert_eq.
    + intros x Hne. rewrite Hx. unfold extent. by rewrite Hd.
    + unfold dnx. simpl. rewrite lookup_alter_ne by done. specialize (C1 b). unfold dnx in C1. rewrite C1. simpl. by rewrite lookup_insert_eq.
    + unfold dnx. simpl. rewrite lookup_alter_eq, Ed. done.
    + intros x Hne Hk. unfold dnx. simpl. rewrite lookup_alter_ne by done. specialize (C1 x). unfold dnx in C1. by rewrite C1, Hd.
    + destruct (co_head _ _ _ _ _ _ _ Hi) as (h & Hh & Hmx & Hcu). destruct (C5 h Hh) as (c & Hc & Hcl). simpl.
      eexists. split; [exact Hc|]. simpl. split; [done|]. destruct Hcl as [->|?]; auto.
Qed.

Lemma ngx_palloc_block_ok n : 0 ≤ n ≤ sz - sizeof_pool_data → ∃ r s', ngx_palloc_block pool n s = Ok (r, s') ∧ small_post n r s'.
Proof.
  intros Hn. destruct (block_bounds _ _ _ _ _ _ _ Hi pool (pool_in _ _ _ _ _ _ _ Hi)) as (l & El & Hl & _ & Hhi & _).
  destruct (co_sz _ _ _ _ _ _ _ Hi) as (Hs1 & Hs2 & Hs3). unfold sizeof_pool in Hs1.
  destruct (data_at_ok _ _ _ _ _ _ _ Hi pool _ _ El) as (d & Ed & Hd & _ & Hde).
  destruct (co_head _ _ _ _ _ _ _ Hi) as (h & Hh & Hmx & Hcu).
  unfold ngx_palloc_block. mstep Ed. cbv zeta. rewrite Hde. replace (pool + sz - pool) with sz by lia.
  rewrite (wrapu_small 64 sz) by lia. destruct (Z.eqb_spec (new_block sz (mem s)) 0) as [E0|E0].
  { exists 0, s. split; [|by left]. unfold ngx_memalign, zoom, malloc, mbind, M_bind. rewrite E0. simpl. by destruct s. }
  remember (new_block sz (mem s)) as b eqn:Eb.
  assert (ngx_memalign sz s = Ok (b, set_mem s (<[b := sz]> (mem s)))) as E1.
  { unfold ngx_memalign, zoom, malloc. rewrite <-Eb. by zneq b 0. }
  mstep E1. zneq b 0. destruct (Z.ltb_spec sz sizeof_pool_data) as [?|_]; [unfold sizeof_pool_data in *; lia|].
  destruct (fresh_range b Eb E0) as (Hb1 & Hb2 & ->).
  rewrite (wrapu_small 64 (b + sz)), (wrapu_small 64 (_ + n)) by (unfold sizeof_pool_data in *; lia).
  rewrite (bind_ok _ _ _ tt (with_block b n)) by done.
  assert (head_at pool (with_block b n) = Ok (h, with_block b n)) as E2 by (unfold head_at; rewrite bind_get; simpl; by rewrite Hh).
  mstep E2. rewrite bind_get. assert (b ∉ bs ++ ex) as Hnb by (rewrite Eb in E0 |- *; apply new_elsewhere; lia || done).
  destruct (chain_from _ _ _ _ _ _ _ Hi _ Hcu) as (tl & Hc & Hln & Htl & Elk).
  destruct (count_failures_ok pool tl (current h) (base.size (datas (with_block b n))) (with_block b n)) as (s2 & E3 & C).
  { simpl. eauto. }
  { eapply seg_frame; [exact Hc|]. intros x Hx. unfold dnx. simpl. rewrite lookup_insert_ne; [done|]. intros <-.
    apply Hnb, elem_of_app. left. apply elem_of_cons in Hx as [->|?]; auto. }
  { simpl. rewrite map_size_insert. destruct (datas s !! b); simpl; lia. }
  mstep E3. rewrite Elk. destruct (block_linked b n tl s2 Eb E0 Hn Htl C) as (s' & E4 & Hsl & Hms & Hi'). mstep E4.
  exists (b + sizeof_pool_data), s'. split; [done|]. right. split_and!; [unfold sizeof_pool_data; lia| |done|rewrite Hms, Eb; apply grew_one; lia|eauto].
  rewrite Zplus_mod, (aligned_16 b); [done|]. rewrite Eb. apply new_block_aligned. lia.
Qed.

(** Small requests: with alignment, as every caller asks for it. *)
Lemma ngx_palloc_small_ok n : 0 ≤ n ≤ sz - sizeof_pool_data → ∃ r s', ngx_palloc_small pool n true s = Ok (r, s') ∧ small_post n r s'.
Proof.
  intros Hn. destruct (co_head _ _ _ _ _ _ _ Hi) as (h & Hh & _ & Hcu).
  assert (head_at pool s = Ok (h, s)) as E1 by (unfold head_at; by rewrite bind_get, Hh).
  unfold ngx_palloc_small. mstep E1. rewrite bind_get.
  destruct (chain_from _ _ _ _ _ _ _ Hi _ Hcu) as (tl & Hc & Hln & Htl & _).
  destruct (search_blocks_ok _ _ _ _ _ _ _ Hi n (current h) tl (base.size (datas s))) as [E|(m & s' & E & Hm & H0 & Hi' & Hsl & Hms)];
    [lia|done|done|done|lia| |]; mstep E; [by apply ngx_palloc_block_ok|].
  exists m, s'. split; [done|]. right. split_and!; [done|done|done|rewrite Hms; apply grew_refl|eauto].
Qed.
End grow.
End NgxPoolFacts.
