(* ===== verification/NgxPoolLists.v ===== *)
(** nginx's memory pool: the lists of large blocks and of cleanup handlers, the operations on the
    whole pool, a client's session, and the end of the pool. *)

From S2P Require Import Prelude Chains HeapBlocks NgxPool NgxPoolFacts.
From stdpp Require Import options.

Import NgxPool NgxPoolFacts.

Module NgxPoolLists.

(** ** What a pool promises to do at its end *)

(** A registered handler, with its file when the data is one. *)
Record entry := mkEntry { e_hd : Z; e_file : option (Z * Z) }.

(** Events without the addresses of the data. *)
Definition erase (e : event) : event := match e with Call hd _ => Call hd 0 | _ => e end.

(** What running a handler does. *)
Definition runs (e : entry) : list event :=
  if e_hd e =? 0 then [] else
  match e_file e with
  | Some (f, nm) =>
      if e_hd e =? ngx_pool_cleanup_file then [Close f]
      else if e_hd e =? ngx_pool_delete_file then [Unlink nm; Close f] else [Call (e_hd e) 0]
  | None => [Call (e_hd e) 0]
  end.

(** Closing the file [fdn] before the end: the newest handler that would close it runs now. *)
Fixpoint close_first (fdn : Z) (es : list entry) : list entry * list event :=
  match es with
  | [] => ([], [])
  | e :: es =>
      let r := close_first fdn es in
      match e_file e with
      | Some (f, nm) =>
          if (e_hd e =? ngx_pool_cleanup_file) && (f =? fdn) then (mkEntry 0 (Some (f, nm)) :: es, [Close f])
          else (e :: r.1, r.2)
      | None => (e :: r.1, r.2)
      end
  end.

(** One request of the client, that gave [r]: the handlers, newest first, and the events so far. *)
Definition step (o : op) (r : Z) (x : list entry * list event) : list entry * list event :=
  match o with
  | OAlloc _ => x
  | OCleanup _ hd => if r =? 0 then x else (mkEntry hd None :: x.1, x.2)
  | OFile hd f nm => if r =? 0 then x else (mkEntry hd (Some (f, nm)) :: x.1, x.2)
  | OCloseFile f => let c := close_first f x.1 in (c.1, x.2 ++ c.2)
  end.

(** The entry of the cleanup structure [c]. *)
Definition entry_ok (used : list (Z * Z)) (s : st) (c : Z) (e : entry) : Prop :=
  ∃ nd, cleanups s !! c = Some nd ∧ handler nd = e_hd e ∧
  match e_file e with
  | Some (f, nm) => files s !! data nd = Some (mkFile f nm) ∧ (data nd, sizeof_cleanup_file) ∈ used
  | None => e_hd e ≠ ngx_pool_cleanup_file ∧ e_hd e ≠ ngx_pool_delete_file
  end.

Definition lnx (s : st) (l : Z) : option Z := l_next <$> larges s !! l.
Definition cnx (s : st) (c : Z) : option Z := c_next <$> cleanups s !! c.

(** [ls], [cs]: the structures of the large blocks and of the cleanups; [es]: the handlers. *)
Record lists_inv (pool : Z) (ex : list Z) (used : list (Z * Z)) (ls cs : list Z) (es : list entry) (s : st) : Prop := {
  pi_lists : ∃ h, heads s !! pool = Some h ∧ chain (lnx s) (large h) ls ∧ chain (cnx s) (cleanup h) cs;
  pi_allocs : Forall2 (λ l a, alloc <$> larges s !! l = Some a) ls ex;
  pi_large_used l : l ∈ ls → (l, sizeof_large) ∈ used;
  pi_cleanup_used c : c ∈ cs → (c, sizeof_cleanup) ∈ used;
  pi_entries : Forall2 (entry_ok used s) cs es;
}.

Lemma entry_ok_mono used used' s s' c e :
  (∀ r, r ∈ used → r ∈ used') → cleanups s' !! c = cleanups s !! c → files s' = files s → entry_ok used s c e → entry_ok used' s' c e.
Proof.
  intros Hu Ec Ef (nd & Hc & Hh & He). exists nd. rewrite Ec, Ef. split_and!; [done|done|].
  destruct (e_file e) as [[f nm]|]; [|done]. destruct He. auto.
Qed.

(** Ranges that were handed out at different times are apart. *)
Lemma apart_new m0 pool sz bs ex add used s r q :
  core_inv m0 pool sz bs ex (add ++ used) s → r ∈ add → q ∈ used → apart r q.
Proof.
  intros Hi. pose proof (co_apart _ _ _ _ _ _ _ Hi) as Ha. clear Hi. revert Ha. induction add as [|x add IH]; [set_solver|].
  simpl. intros Ha [->|Hr]%elem_of_cons Hq; inversion Ha as [|? ? Hf Ht]; subst; [|auto].
  rewrite Forall_forall in Hf. apply Hf. set_solver.
Qed.

(** A new structure has an address of its own. *)
Lemma new_address m0 pool sz bs ex add used s r n a k :
  core_inv m0 pool sz bs ex (add ++ used) s → (r, n) ∈ add → (a, k) ∈ used → 0 < n → 0 < k → r ≠ a.
Proof. intros Hi Hr Hq Hn Hk ->. pose proof (apart_new _ _ _ _ _ _ _ _ _ _ Hi Hr Hq) as Ha. unfold apart in Ha. simpl in Ha. lia. Qed.

Lemma Forall2_in_l {A B} (P Q : A → B → Prop) l k : Forall2 P l k → (∀ x y, x ∈ l → P x y → Q x y) → Forall2 Q l k.
Proof. induction 1; constructor; set_solver. Qed.

Lemma Forall2_in {A B} (P : A → B → Prop) l k x : Forall2 P l k → x ∈ l → ∃ y, y ∈ k ∧ P x y.
Proof. induction 1; set_solver. Qed.

(** The lists do not notice a small request. *)
Lemma lists_same pool ex used used' ls cs es s s' :
  lists_inv pool ex used ls cs es s → (∀ r, r ∈ used → r ∈ used') → same_lists pool s s' → lists_inv pool ex used' ls cs es s'.
Proof.
  intros Hp Hu (E1 & E2 & E3 & _ & E5). destruct (pi_lists _ _ _ _ _ _ _ Hp) as (h & Hh & Hl & Hc).
  destruct (E5 h Hh) as [c Hc']. split.
  - exists (with_current c h). unfold lnx, cnx. rewrite E1, E2. done.
  - rewrite E1. apply Hp.
  - intros l Hin. by apply Hu, Hp.
  - intros l Hin. by apply Hu, Hp.
  - eapply Forall2_impl; [apply Hp|]. intros x y. apply entry_ok_mono; [done|by rewrite E2|done].
Qed.

(** A new structure for the large block [a]. *)
Definition push_large (pool l a : Z) (h : ngx_pool_head) (s : st) : st :=
  set_heads (set_larges s (<[l := mkLarge (large h) a]> (larges s))) (alter (with_large l) pool (heads s)).

Lemma lists_large pool ex used ls cs es s l a h :
  lists_inv pool ex used ls cs es s → heads s !! pool = Some h → (l, sizeof_large) ∈ used → l ∉ ls → l ≠ 0 →
  lists_inv pool (a :: ex) used (l :: ls) cs es (push_large pool l a h s).
Proof.
  intros Hp Hh Hu Hl H0. destruct (pi_lists _ _ _ _ _ _ _ Hp) as (h' & Hh' & Hc1 & Hc2). simplify_eq.
  assert (∀ x, x ∈ ls → larges (push_large pool l a h s) !! x = larges s !! x) as Hx.
  { intros x Hx. simpl. rewrite lookup_insert_ne; [done|]. by intros <-. }
  split.
  - exists (with_large l h). split; [simpl; by rewrite lookup_alter_eq, Hh|]. split; [|done].
    eapply push_head; [exact Hc1|done| |]; unfold lnx; [simpl; by rewrite lookup_insert_eq|]. intros b Hb. by rewrite Hx.
  - constructor; [simpl; by rewrite lookup_insert_eq|]. by eapply Forall2_in_l; [apply Hp|]; intros x y Hin; rewrite Hx.
  - intros x [->|?]%elem_of_cons; [done|by apply Hp].
  - apply Hp.
  - apply Hp.
Qed.

(** A new cleanup structure, its handler not set yet. *)
Definition push_cleanup (pool c d : Z) (h : ngx_pool_head) (s : st) : st :=
  set_heads (set_cleanups s (<[c := mkCleanup 0 d (cleanup h)]> (cleanups s))) (alter (with_cleanup c) pool (heads s)).

Lemma lists_cleanup pool ex used ls cs es s c d h :
  lists_inv pool ex used ls cs es s → heads s !! pool = Some h → (c, sizeof_cleanup) ∈ used → c ∉ cs → c ≠ 0 →
  lists_inv pool ex used ls (c :: cs) (mkEntry 0 None :: es) (push_cleanup pool c d h s).
Proof.
  intros Hp Hh Hu Hl H0. destruct (pi_lists _ _ _ _ _ _ _ Hp) as (h' & Hh' & Hc1 & Hc2). simplify_eq.
  assert (∀ x, x ∈ cs → cleanups (push_cleanup pool c d h s) !! x = cleanups s !! x) as Hx.
  { intros x Hx. simpl. rewrite lookup_insert_ne; [done|]. by intros <-. }
  split; try apply Hp.
  - exists (with_cleanup c h). split; [simpl; by rewrite lookup_alter_eq, Hh|]. split; [done|].
    eapply push_head; [exact Hc2|done| |]; unfold cnx; [simpl; by rewrite lookup_insert_eq|]. intros b Hb. by rewrite Hx.
  - intros x [->|?]%elem_of_cons; [done|by apply Hp].
  - constructor.
    + eexists. simpl. rewrite lookup_insert_eq. done.
    + eapply Forall2_in_l; [apply Hp|]. intros x y Hin. apply entry_ok_mono; [done|by apply Hx|done].
Qed.

(** Changes of what the cleanup structures hold. *)
Lemma lists_entries pool ex used ls cs es es' s s' :
  lists_inv pool ex used ls cs es s → heads s' = heads s → larges s' = larges s → (∀ c, c ∈ cs → cnx s' c = cnx s c) →
  Forall2 (entry_ok used s') cs es' → lists_inv pool ex used ls cs es' s'.
Proof.
  intros Hp Eh El Ec He. destruct (pi_lists _ _ _ _ _ _ _ Hp) as (h & Hh & Hc1 & Hc2). split; try apply Hp; try done.
  - exists h. rewrite Eh. split_and!; [done|unfold lnx; by rewrite El|]. by eapply seg_frame.
  - rewrite El. apply Hp.
Qed.

Section lists.
Context {malloc_fn : Malloc} {laws : MallocLaws} (m0 : blocks) (pool sz : Z).
#[local] Set Default Proof Using "laws".

(** A block of the heap for a large request. *)
Lemma core_large bs ex used s n :
  core_inv m0 pool sz bs ex used s → 0 ≤ n → new_block n (mem s) ≠ 0 →
  let a := new_block n (mem s) in
  core_inv m0 pool sz bs (a :: ex) ((a, n) :: used) (set_mem s (<[a := n]> (mem s))).
Proof.
  intros Hi Hn H0 a. destruct (new_elsewhere _ _ _ _ _ _ _ Hi n Hn H0) as [Hni Hm0]. fold a in Hni, Hm0.
  assert (∀ x, x ∈ bs ++ ex → <[a := n]> (mem s) !! x = mem s !! x) as Hx.
  { intros x Hx. rewrite lookup_insert_ne; [done|]. by intros <-. }
  split; try apply Hi.
  - simpl. apply blocks_apart_new; [done|done|apply Hi].
  - intros b Hb. simpl. rewrite Hx by set_solver. by apply Hi.
  - rewrite <-Permutation_middle. constructor; [done|apply Hi].
  - intros x [->|Hin]%elem_of_cons; simpl; [rewrite lookup_insert_eq; eauto|]. rewrite Hx by set_solver. by apply Hi.
  - constructor; [right; simpl; rewrite lookup_insert_eq; set_solver|]. eapply Forall_impl; [apply Hi|]. intros r.
    apply lent_grow with (s := s) (m0 := m0) (sz := sz) (used := used); [done| |]; intros x Hin; (split; [set_solver|]); [done|].
    simpl. apply Hx. set_solver.
  - constructor; [|apply Hi]. simpl. split; [done|]. by apply new_block_range.
  - constructor; [|apply Hi]. eapply new_apart; [exact Hi|exact Hn|exact H0|]. unfold within. simpl. unfold a. lia.
  - intros x Hin. simpl. rewrite lookup_insert_ne by set_solver. apply Hi. set_solver.
  - intros x Hin. rewrite elem_of_app, elem_of_cons in Hin. destruct Hin as [?|[->|?]]; [apply Hi; set_solver|done|apply Hi; set_solver].
Qed.

(** Changes of the lists only. *)
Lemma core_lists bs ex used s s' :
  core_inv m0 pool sz bs ex used s → mem s' = mem s → datas s' = datas s →
  (∀ h, heads s !! pool = Some h → ∃ h', heads s' !! pool = Some h' ∧ max h' = max h ∧ current h' = current h) →
  core_inv m0 pool sz bs ex used s'.
Proof.
  intros Hi Em Ed Eh. assert (extent s' = extent s) as Ee by (unfold extent; by rewrite Ed).
  split; rewrite ?Em, ?Ed; try apply Hi.
  - intros b Hb. rewrite Ee. by apply Hi.
  - unfold dnx. rewrite Ed. apply Hi.
  - destruct (co_head _ _ _ _ _ _ _ Hi) as (h & Hh & H1 & H2). destruct (Eh h Hh) as (h' & ? & F1 & F2).
    exists h'. by rewrite F1, F2.
  - eapply Forall_impl; [apply Hi|]. intros r. unfold lent. by rewrite Ee, Em.
Qed.

(** The search finds no node to use again: nothing in this file sets [alloc] to the null pointer. *)
Lemma reuse_large_no fuel s l n p ls :
  chain (lnx s) l ls → (∀ x, x ∈ ls → ∃ nd, larges s !! x = Some nd ∧ alloc nd ≠ 0) → 0 ≤ n → 5 - n ≤ Z.of_nat fuel →
  reuse_large fuel l n p s = Ok (false, s).
Proof.
  revert l n ls. induction fuel as [|fuel IH]; intros l n ls Hc Ha Hn Hf; (destruct (Z.eqb_spec l 0) as [->|Hl]; [done|]);
    destruct (chain_cons _ _ _ Hc Hl) as (r & ls' & -> & Hr & Hc'); destruct (Ha l ltac:(set_solver)) as (nd & Hnd & H0);
    cbn [reuse_large]; zneq l 0; rewrite bind_get, Hnd; rewrite (bind_lift _ _ _ nd eq_refl); zneq (alloc nd) 0.
  - by rewrite (proj2 (Z.ltb_lt _ _)) by lia.
  - destruct (Z.ltb_spec 3 n); [done|]. rewrite wrapu_small by lia. unfold lnx in Hr. rewrite Hnd in Hr. simplify_eq/=.
    eapply IH; [exact Hc'|set_solver|lia|lia].
Qed.

Lemma large_live bs ex used ls cs es s x :
  core_inv m0 pool sz bs ex used s → lists_inv pool ex used ls cs es s → x ∈ ls → ∃ nd, larges s !! x = Some nd ∧ alloc nd ≠ 0.
Proof.
  intros Hi Hl Hx. destruct (Forall2_in _ _ _ _ (pi_allocs _ _ _ _ _ _ _ Hl) Hx) as (a & Ha & E).
  destruct (larges s !! x) as [nd|]; simplify_eq/=. exists nd. split; [done|]. eapply co_ex; [exact Hi|done].
Qed.

(** What an operation leaves: [add] are the new ranges, [ev] the events so far. *)
Definition kept (add used : list (Z * Z)) (cs : list Z) (es : list entry) (ev : list event) (s : st) : Prop :=
  ∃ bs ex ls, core_inv m0 pool sz bs ex (add ++ used) s ∧ lists_inv pool ex (add ++ used) ls cs es s ∧ erase <$> events s = ev.

(** Allocating does not touch what the cleanups hold. *)
Definition untouched (s s' : st) : Prop := cleanups s' = cleanups s ∧ files s' = files s.

(** The result of a request of [n] bytes: nothing, when one of the at most [j] blocks of at most [K]
    bytes that it takes was refused by the heap it was made on, or new memory. *)
Definition given (j : nat) (K : Z) (s : st) (add : list (Z * Z)) (n r : Z) : Prop :=
  (r = 0 ∧ refused j K (mem s)) ∨ (r ≠ 0 ∧ r mod 8 = 0 ∧ (r, n) ∈ add).

Lemma kept_size add used cs es ev s : kept add used cs es ev s → sizeof_pool ≤ sz.
Proof. intros (bs & ex & ls & Hi & _). apply (co_sz _ _ _ _ _ _ _ Hi). Qed.

Lemma palloc_small_kept n used cs es ev s :
  kept [] used cs es ev s → 0 ≤ n ≤ sz - sizeof_pool_data →
  ∃ r s' add, ngx_palloc_small pool n true s = Ok (r, s') ∧ kept add used cs es ev s' ∧ given 1 sz s add n r ∧ untouched s s' ∧ grew 1 sz (mem s) (mem s').
Proof.
  intros (bs & ex & ls & Hi & Hl & He) Hn. destruct (ngx_palloc_small_ok _ _ _ _ _ _ _ Hi n Hn) as (r & s' & E & Hr).
  destruct (co_sz _ _ _ _ _ _ _ Hi) as (Hs1 & _). unfold sizeof_pool in Hs1.
  destruct Hr as [(-> & -> & Hz)|(H0 & Hm & Hsl & Hg & bs' & Hi')].
  - exists 0, s, []. split_and!; [done|by exists bs, ex, ls|left; split; [done|by apply (refused_now _ _ sz); [lia|]]|done..|apply grew_refl].
  - exists r, s', [(r, n)]. split_and!; [done| |right; set_solver|by destruct Hsl as (_ & ? & ? & _)..|done]. exists bs', ex, ls. split_and!; [done| |].
    + eapply lists_same; [exact Hl|set_solver|done].
    + destruct Hsl as (_ & _ & _ & Ev & _). by rewrite Ev.
Qed.

Lemma palloc_large_kept n used cs es ev s :
  kept [] used cs es ev s → 0 ≤ n →
  served (mem s) 2 (Z.max sz n) (ngx_palloc_large pool n s)
    (λ '(r, s'), ∃ add, kept add used cs es ev s' ∧ given 2 (Z.max sz n) s add n r ∧ untouched s s' ∧ grew 2 (Z.max sz n) (mem s) (mem s')).
Proof.
  intros (bs & ex & ls & Hi & Hl & He) Hn. unfold ngx_palloc_large.
  destruct (Z.eqb_spec (new_block n (mem s)) 0) as [E0|E0].
  { right. split; [|apply (refused_now _ _ n); [lia|done]]. unfold ngx_alloc, zoom, malloc, mbind, M_bind. by rewrite E0. }
  pose proof (core_large _ _ _ _ _ Hi Hn E0) as Hi1. simpl in Hi1. remember (new_block n (mem s)) as a eqn:Ea.
  set (s1 := set_mem s (<[a := n]> (mem s))) in *.
  assert (ngx_alloc n s = Ok (a, s1)) as E1.
  { unfold ngx_alloc, zoom, malloc, mbind, M_bind. rewrite <-Ea. zneq a 0. by zneq a 0. }
  mstep E1. destruct (pi_lists _ _ _ _ _ _ _ Hl) as (h & Hh & Hc & _).
  assert (head_at pool s1 = Ok (h, s1)) as E2 by (unfold head_at; rewrite bind_get; simpl; by rewrite Hh).
  mstep E2.
  assert (reuse_large 5 (large h) 0 a s1 = Ok (false, s1)) as E3.
  { eapply reuse_large_no; [exact Hc| |done|done]. intros x Hx. exact (large_live _ _ _ _ _ _ _ _ Hi Hl Hx). }
  mstep E3. clear E3. destruct (co_sz _ _ _ _ _ _ _ Hi) as (Hs1 & _). unfold sizeof_pool in Hs1.
  destruct (ngx_palloc_small_ok _ _ _ _ _ _ _ Hi1 sizeof_large) as (l & s2 & E4 & [(-> & -> & Hz)|(H0 & Hm & Hsl & Hg & bs' & Hi2)]);
    [unfold sizeof_large, sizeof_pool_data; lia| |]; mstep E4.
  - left. exists (0, s). split; [|exists []; split_and!; [by exists bs, ex, ls|left; split; [done|]|done..|apply grew_refl]]; simpl.
    2: { apply (refused_later 1 1 _ _ (mem s1)); [unfold s1; simpl; rewrite Ea; apply grew_one; lia|apply (refused_now _ _ sz); [lia|done]]. }
    unfold zoom, mbind, M_bind. simpl. rewrite free_new; [by destruct s|done|]. rewrite Ea. apply new_block_fresh; [done|by rewrite <-Ea].
  - zneq l 0. pose proof Hsl as (_ & _ & _ & Ev & Hs5). destruct (Hs5 h Hh) as [c Hh2].
    assert (head_at pool s2 = Ok (with_current c h, s2)) as E5 by (unfold head_at; by rewrite bind_get, Hh2).
    mstep E5. rewrite bind_modify.
    left. exists (a, push_large pool l a (with_current c h) s2). split.
    { unfold upd_head, head_at, mbind, M_bind, get, modify. simpl. by rewrite Hh2. }
    exists [(l, sizeof_large); (a, n)]. split_and!; [| |by destruct Hsl as (_ & ? & ? & _)..|].
    + exists bs', (a :: ex), (l :: ls). split_and!.
      * eapply core_lists; [exact Hi2|done|done|]. intros h' Hh'. simpl. rewrite lookup_alter_eq, Hh'. eauto.
      * apply lists_large; [|done|set_solver| |done].
        -- eapply lists_same; [exact Hl|set_solver|]. by eapply same_lists_trans; [apply same_lists_mem|].
        -- intros Hin. apply (new_address _ _ _ _ _ [_] _ _ l sizeof_large l sizeof_large Hi2); try done; [left|right; by apply Hl].
      * simpl. by rewrite Ev.
    + right. split_and!; [done| |set_solver]. rewrite Ea. by apply aligned_16, new_block_aligned.
    + apply (grew_trans 1 1 _ _ (mem s1)); [unfold s1; simpl; rewrite Ea; apply grew_one; lia|]. simpl. eapply grew_mono; [exact Hg|lia|lia].
Qed.

Lemma palloc_kept n used cs es ev s :
  kept [] used cs es ev s → 0 ≤ n →
  served (mem s) 2 (Z.max sz n) (ngx_palloc pool n s)
    (λ '(r, s'), ∃ add, kept add used cs es ev s' ∧ given 2 (Z.max sz n) s add n r ∧ untouched s s' ∧ grew 2 (Z.max sz n) (mem s) (mem s')).
Proof.
  intros Hk Hn. pose proof Hk as (bs & ex & ls & Hi & _). destruct (co_head _ _ _ _ _ _ _ Hi) as (h & Hh & Hm & _).
  assert (head_at pool s = Ok (h, s)) as E by (unfold head_at; by rewrite bind_get, Hh).
  unfold ngx_palloc. mstep E. destruct (Z.leb_spec n (max h)); [|by apply palloc_large_kept].
  destruct (palloc_small_kept n used cs es ev s Hk) as (r & s' & add & E1 & ? & Hg & ? & ?);
    [unfold sizeof_pool, sizeof_pool_data in *; lia|]. left. exists (r, s'). split; [done|]. exists add. split_and!; [done| |apply H1..|].
    - destruct Hg as [[-> Hr]|?]; [left; split; [done|]|by right]. eapply refused_mono; [exact Hr|lia|lia].
    - eapply grew_mono; [done|lia|lia].
Qed.

(** The result of adding a cleanup with [n] bytes of data. *)
Definition registered (add used : list (Z * Z)) (cs : list Z) (es : list entry) (ev : list event) (n c : Z) (s s' : st) : Prop :=
  (c = 0 ∧ refused 4 (Z.max sz n) (mem s) ∧ kept add used cs es ev s') ∨
  (c ≠ 0 ∧ c mod 8 = 0 ∧ (c, sizeof_cleanup) ∈ add ∧ kept add used (c :: cs) (mkEntry 0 None :: es) ev s' ∧
    (∃ nd, cleanups s' !! c = Some nd ∧ (n ≠ 0 → (data nd, n) ∈ add)) ∧
    files s' = files s ∧ ∀ x, x ≠ c → cleanups s' !! x = cleanups s !! x).

Lemma cleanup_add_kept n used cs es ev s :
  kept [] used cs es ev s → 0 ≤ n →
  served (mem s) 4 (Z.max sz n) (ngx_pool_cleanup_add pool n s) (λ '(c, s'), ∃ add, registered add used cs es ev n c s s').
Proof.
  intros Hk Hn. pose proof (kept_size _ _ _ _ _ _ Hk) as Hs1. unfold sizeof_pool in Hs1. assert (Z.max sz sizeof_cleanup ≤ Z.max sz n) as HK by (unfold sizeof_cleanup; lia).
  unfold ngx_pool_cleanup_add. eapply (served_bind _ 2); [eapply served_weaken; [by apply palloc_kept|done|exact HK|intros a Ha; exact Ha]|lia|]. intros c s1 (add1 & Hk1 & Hc & Hun1 & Hg1).
  destruct Hc as [(-> & Hz)|(Hc0 & Hcm & Hcu)].
  { apply served_ok. exists add1. left. split_and!; [done| |done]. eapply refused_mono; [exact Hz|lia|done]. }
  assert (grew 2 (Z.max sz n) (mem s) (mem s1)) as Hg1' by (eapply grew_mono; [exact Hg1|lia|done]).
  zneq c 0. apply (served_bind _ 4) with (P := λ '(d, s'), ∃ add2, kept (add2 ++ add1) used cs es ev s' ∧ (n ≠ 0 → given 4 (Z.max sz n) s add2 n d) ∧ untouched s s'); [|done|].
  { destruct (Z.eqb_spec n 0) as [->|Hn0]; simpl.
    - apply served_ok. by exists [].
    - apply (served_later _ (mem s1) 2 2 (Z.max sz n) _ _ Hg1'). eapply served_weaken; [by apply (palloc_kept n (add1 ++ used))|done|done|]. intros [d s2] (add2 & Hk2 & Hd & Hun2 & _).
      exists add2. unfold kept, untouched in *. rewrite <-app_assoc. split_and!; [done| |destruct Hun1, Hun2; congruence..].
      intros _. destruct Hd as [[-> Hd]|Hd]; [left|by right]. split; [done|]. by apply (refused_later 2 2 _ _ (mem s1)). }
  intros d s2 (add2 & Hk2 & Hd & Hun1' & Hun2'). clear Hun1. destruct (negb (n =? 0) && (d =? 0)) eqn:Eb.
  { apply andb_true_iff in Eb as [?%negb_true_iff%Z.eqb_neq ->%Z.eqb_eq]. apply served_ok. exists (add2 ++ add1). left.
    destruct (Hd ltac:(done)) as [[_ ?]|[? _]]; done. }
  pose proof Hk2 as (bs & ex & ls & Hi & Hl & He). destruct (pi_lists _ _ _ _ _ _ _ Hl) as (h & Hh & _).
  assert (head_at pool s2 = Ok (h, s2)) as E by (unfold head_at; by rewrite bind_get, Hh).
  mstep E. rewrite bind_modify. left. exists (c, push_cleanup pool c d h s2). split.
  { unfold upd_head, head_at, mbind, M_bind, get, modify. simpl. by rewrite Hh. }
  exists (add2 ++ add1). right. split_and!; [done|done|set_solver| | |done|].
  - exists bs, ex, ls. split_and!; [|apply lists_cleanup; [done|done|set_solver| |done]|done].
    + eapply core_lists; [exact Hi|done|done|]. intros h' Hh'. simpl. rewrite lookup_alter_eq, Hh'. eauto.
    + intros Hin. destruct Hk as (? & ? & ? & _ & Hl0 & _).
      apply (new_address _ _ _ _ _ _ _ _ c sizeof_cleanup c sizeof_cleanup Hi); try done; [set_solver|by apply Hl0].
  - eexists. simpl. rewrite lookup_insert_eq. split; [done|]. simpl. intros Hn0.
    destruct (Hd Hn0) as [[-> _]|(_ & _ & ?)]; [|set_solver]. apply andb_false_iff in Eb as [?%negb_false_iff%Z.eqb_eq|]; done.
  - intros x Hx. simpl. rewrite lookup_insert_ne by done. by rewrite Hun1'.
Qed.
End lists.

(** * Handlers, sessions and the end *)

Definition set_events (s : st) x := mkSt (mem s) (datas s) (heads s) (larges s) (cleanups s) (files s) x.

(** ** Handlers *)

Lemma entry_events used s c e ev : entry_ok used s c e → entry_ok used (set_events s ev) c e.
Proof. by apply entry_ok_mono. Qed.

Lemma run_handler_ok used s c e nd :
  entry_ok used s c e → cleanups s !! c = Some nd → handler nd ≠ 0 →
  ∃ evs, run_handler (handler nd) (data nd) s = Ok (tt, set_events s evs) ∧ erase <$> evs = (erase <$> events s) ++ runs e.
Proof.
  intros (nd' & Hnd & Hh & He) E H0. rewrite E in Hnd. injection Hnd as <-. unfold runs. rewrite <-Hh. zneq (handler nd) 0.
  unfold run_handler, cleanup_file, delete_file. rewrite <-Hh in He. destruct (e_file e) as [[f nm]|].
  - destruct He as [Hf _]. destruct (handler nd =? ngx_pool_cleanup_file) eqn:E1; [|destruct (handler nd =? ngx_pool_delete_file) eqn:E2].
    + eexists. unfold mbind, M_bind, get. rewrite Hf. split; [done|]. by rewrite fmap_app.
    + eexists. unfold mbind, M_bind, get. rewrite Hf. split; [done|]. simpl. by rewrite !fmap_app, <-app_assoc.
    + eexists. split; [done|]. by rewrite fmap_app.
  - destruct He as [H1 H2]. zneq (handler nd) ngx_pool_cleanup_file. zneq (handler nd) ngx_pool_delete_file.
    eexists. split; [done|]. by rewrite fmap_app.
Qed.

(** Running all of them, from the newest to the oldest. *)
Lemma run_cleanups_ok used fuel s c cs es :
  chain (cnx s) c cs → Forall2 (entry_ok used s) cs es → (length cs ≤ fuel)%nat →
  ∃ evs, run_cleanups fuel c s = Ok (tt, set_events s evs) ∧ erase <$> evs = (erase <$> events s) ++ (es ≫= runs).
Proof.
  intros Hc He. revert c fuel s Hc He. induction cs as [|x cs IH] in es |- *; intros c fuel s Hc He Hf.
  - simpl in Hc. subst c. inversion He; subst. exists (events s). split; [destruct fuel; by destruct s|]. simpl. by rewrite app_nil_r.
  - destruct Hc as (-> & Hx & r & Hr & Hc). inversion He as [|? e ? es' He1 He2]; subst. destruct fuel as [|fuel]; [simpl in Hf; lia|].
    cbn [run_cleanups]. zneq x 0. unfold cnx in Hr. destruct (cleanups s !! x) as [nd|] eqn:Hnd; simplify_eq/=.
    rewrite bind_get, Hnd. rewrite (bind_lift _ _ _ nd eq_refl).
    assert (∃ evs, (if handler nd =? 0 then mret tt else run_handler (handler nd) (data nd)) s = Ok (tt, set_events s evs) ∧
      erase <$> evs = (erase <$> events s) ++ runs e) as (evs & E & Hev).
    { destruct (Z.eqb_spec (handler nd) 0) as [E|E]; [|by eapply run_handler_ok]. exists (events s). split; [by destruct s|].
      destruct He1 as (nd' & ? & Hh & _). simplify_eq. unfold runs. rewrite <-Hh, E. simpl. by rewrite app_nil_r. }
    mstep E. destruct (IH es' (c_next nd) fuel (set_events s evs)) as (evs' & E' & Hev'); [done| |lia|].
    { eapply Forall2_impl; [exact He2|]. intros. by apply entry_events. }
    exists evs'. split; [done|]. rewrite Hev'. simpl. by rewrite Hev, <-app_assoc.
Qed.

(** What [ngx_pool_run_cleanup_file] may change: the handlers of structures of the list. *)
Definition cleanups_only (cs : list Z) (s s' : st) : Prop :=
  mem s' = mem s ∧ datas s' = datas s ∧ heads s' = heads s ∧ larges s' = larges s ∧ files s' = files s ∧
  (∀ c, cnx s' c = cnx s c) ∧ ∀ c, c ∉ cs → cleanups s' !! c = cleanups s !! c.

Lemma cleanups_only_refl cs s : cleanups_only cs s s.
Proof. by split_and!. Qed.

Lemma run_cleanup_file_ok used fdn fuel s c cs es :
  chain (cnx s) c cs → Forall2 (entry_ok used s) cs es → (length cs ≤ fuel)%nat →
  ∃ s', run_cleanup_file fuel c fdn s = Ok (tt, s') ∧ cleanups_only cs s s' ∧
    Forall2 (entry_ok used s') cs (close_first fdn es).1 ∧
    erase <$> events s' = (erase <$> events s) ++ (close_first fdn es).2.
Proof.
  intros Hc He. revert c fuel Hc. induction He as [|x e cs es He1 He2 IH]; intros c fuel Hc Hf.
  - simpl in Hc. subst c. exists s. split_and!; [by destruct fuel|apply cleanups_only_refl|constructor|by rewrite app_nil_r].
  - pose proof (chain_NoDup _ _ _ Hc) as [Hxn _]%NoDup_cons. destruct Hc as (-> & Hx & r & Hr & Hc).
    destruct fuel as [|fuel]; [simpl in Hf; lia|].
    cbn [run_cleanup_file]. zneq x 0. unfold cnx in Hr. destruct (cleanups s !! x) as [nd|] eqn:Hnd; simplify_eq/=.
    rewrite bind_get, Hnd. rewrite (bind_lift _ _ _ nd eq_refl).
    destruct (IH (c_next nd) fuel Hc ltac:(lia)) as (s' & E & Ho & Hen & Hev).
    assert (cleanups_only (x :: cs) s s' ∧ entry_ok used s' x e) as [Ho' He1'].
    { destruct Ho as (? & ? & ? & ? & Ef & ? & Hcl). split; [split_and!; try done; intros; apply Hcl; set_solver|].
      eapply entry_ok_mono; [done| |done|exact He1]. by apply Hcl. }
    pose proof He1 as (nd' & Hnd' & Hh & Hfile). rewrite Hnd in Hnd'. injection Hnd' as <-.
    rewrite Hh. destruct (e_file e) as [[f nm]|] eqn:Efile.
    2: { destruct Hfile as [Hf1 _]. zneq (e_hd e) ngx_pool_cleanup_file. exists s'. simpl. split_and!; [done|done|by constructor|done]. }
    destruct Hfile as [Hfl Hfu].
    destruct (Z.eqb_spec (e_hd e) ngx_pool_cleanup_file) as [Eh|Eh]; simpl; [|exists s'; split_and!; [done|done|by constructor|done]].
    rewrite Hfl. rewrite (bind_lift _ _ _ (mkFile f nm) eq_refl). simpl.
    destruct (Z.eqb_spec f fdn) as [->|Hne]; [|exists s'; split_and!; [done|done|by constructor|done]].
    rewrite Eh. eexists. split; [unfold run_handler, cleanup_file, mbind, M_bind, get; simpl; rewrite Hfl; done|].
    split; [|split; [|simpl; by rewrite fmap_app]].
    + split_and!; try done; intros y; [|intros Hy; simpl; rewrite lookup_insert_ne; [done|set_solver]].
      unfold cnx. simpl. destruct (decide (y = x)) as [->|]; [by rewrite lookup_insert_eq, Hnd|by rewrite lookup_insert_ne].
    + constructor; [eexists; simpl; by rewrite lookup_insert_eq|]. eapply Forall2_in_l; [exact He2|]. intros y z Hy.
      apply entry_ok_mono; [done| |done]. simpl. rewrite lookup_insert_ne; [done|set_solver].
Qed.

(** ** A client's session *)

(** Requests that are not undefined: handlers for files get a file. *)
Definition valid_op (o : op) : bool :=
  match o with
  | OAlloc n => 0 <=? n
  | OCleanup n hd => (0 <=? n) && negb (hd =? ngx_pool_cleanup_file) && negb (hd =? ngx_pool_delete_file)
  | OFile _ _ _ | OCloseFile _ => true
  end.

(** The size of what a request hands out. *)
Definition size_of (o : op) : option Z :=
  match o with OAlloc n => Some n | OCleanup _ _ | OFile _ _ _ => Some sizeof_cleanup | OCloseFile _ => None end.

(** The ranges a session handed out. *)
Fixpoint grants (os : list op) (rs : list Z) : list (Z * Z) :=
  match os, rs with
  | o :: os, r :: rs =>
      match size_of o with
      | Some n => if r =? 0 then grants os rs else (r, n) :: grants os rs
      | None => grants os rs
      end
  | _, _ => []
  end.

Definition steps (os : list op) (rs : list Z) (x : list entry * list event) : list entry * list event :=
  foldl (λ x p, step p.1 p.2 x) x (zip os rs).

Section session.
Context {malloc_fn : Malloc} {laws : MallocLaws} (m0 : blocks) (pool sz : Z).
#[local] Set Default Proof Using "laws".
Abbreviation kept := (kept m0 pool sz).

(** The client fills in the structure it got. *)
Lemma kept_fill add used c cs e0 e es ev s s' nd hd :
  kept add used (c :: cs) (e0 :: es) ev s → cleanups s !! c = Some nd →
  cleanups s' = <[c := mkCleanup hd (data nd) (c_next nd)]> (cleanups s) →
  mem s' = mem s → datas s' = datas s → heads s' = heads s → larges s' = larges s → events s' = events s →
  entry_ok (add ++ used) s' c e → Forall2 (entry_ok (add ++ used) s') cs es → kept add used (c :: cs) (e :: es) ev s'.
Proof.
  intros (bs & ex & ls & Hi & Hl & Hev) Hnd Ec E1 E2 E3 E4 E5 H1 H2. exists bs, ex, ls. split_and!.
  - eapply core_lists; [exact Hi|done|done|]. intros h Hh. rewrite E3. eauto.
  - eapply lists_entries; [exact Hl|done|done| |by constructor]. intros x Hx. unfold cnx. rewrite Ec.
    destruct (decide (x = c)) as [->|]; [by rewrite lookup_insert_eq, Hnd|by rewrite lookup_insert_ne].
  - by rewrite E5.
Qed.

(** The other entries are as before, when the new structures are elsewhere. *)
Lemma others_kept add used c cs e es es' ev ev' s s1 s' :
  kept [] used cs es ev s → kept add used (c :: cs) (e :: es') ev' s1 → (∀ x, x ≠ c → cleanups s' !! x = cleanups s !! x) →
  (∀ f, (f, sizeof_cleanup_file) ∈ used → files s' !! f = files s !! f) → Forall2 (entry_ok (add ++ used) s') cs es.
Proof.
  intros (bs & ex & ls & _ & Hl & _) (bs1 & ex1 & ls1 & _ & Hl1 & _) Hc Hf.
  destruct (pi_lists _ _ _ _ _ _ _ Hl1) as (h & _ & _ & [Hni _]%chain_NoDup%NoDup_cons).
  eapply Forall2_in_l; [apply Hl|]. intros x y Hx (nd & Hnd & Hh & He). exists nd. rewrite Hc by (by intros ->).
  split_and!; [done|done|]. destruct (e_file y) as [[f nm]|]; [|done]. destruct He as [He Hu]. rewrite Hf by done.
  split; [done|set_solver].
Qed.

(** The bytes that a client asks for. *)
Definition request (o : op) : Z := match o with OAlloc n | OCleanup n _ => n | OFile _ _ _ => sizeof_cleanup_file | OCloseFile _ => 0 end.
(** The largest block that is taken from the heap. *)
Definition largest (o : op) : Z := Z.max sz (request o).

Definition exec_post (o : op) (used : list (Z * Z)) (es : list entry) (ev : list event) (s : st) (r : Z) (s' : st) : Prop :=
  ∃ add cs', kept add used cs' (step o r (es, ev)).1 (step o r (es, ev)).2 s' ∧ from_option (λ n, given 4 (largest o) s add n r) (r = 0) (size_of o).

Lemma exec_cleanup_ok n hd used cs es ev s :
  kept [] used cs es ev s → valid_op (OCleanup n hd) = true →
  served (mem s) 4 (largest (OCleanup n hd)) (exec pool (OCleanup n hd) s) (λ '(r, s'), exec_post (OCleanup n hd) used es ev s r s').
Proof.
  intros Hk Hv. unfold valid_op in Hv. rewrite !andb_true_iff, !negb_true_iff, Z.leb_le, !Z.eqb_neq in Hv. destruct Hv as [[Hn H1] H2].
  cbn [exec]. eapply (served_bind _ 4); [eapply cleanup_add_kept; [exact Hk|done]|done|].
  intros c s1 (add & [(-> & Hz & Hk1)|(Hc0 & Hcm & Hcu & Hk1 & (nd & Hnd & _) & Ef & Ec)]).
  - apply served_ok. exists add, cs. simpl. split; [done|by left].
  - zneq c 0. left. eexists (c, _). split; [unfold set_handler, mbind, M_bind, get, modify; rewrite Hnd; done|].
    exists add, (c :: cs). simpl. zneq c 0. split; [|by right]. eapply kept_fill; try done.
    + eexists. simpl. rewrite lookup_insert_eq. done.
    + eapply others_kept; [exact Hk|exact Hk1| |]; simpl; [|by rewrite Ef].
      intros x Hx. rewrite lookup_insert_ne by done. by apply Ec.
Qed.

Lemma exec_file_ok hd f nm used cs es ev s :
  kept [] used cs es ev s → served (mem s) 4 (largest (OFile hd f nm)) (exec pool (OFile hd f nm) s) (λ '(r, s'), exec_post (OFile hd f nm) used es ev s r s').
Proof.
  intros Hk. cbn [exec]. eapply (served_bind _ 4); [eapply cleanup_add_kept; [exact Hk|done]|done|].
  intros c s1 (add & [(-> & Hz & Hk1)|(Hc0 & Hcm & Hcu & Hk1 & (nd & Hnd & Hd) & Ef & Ec)]).
  - apply served_ok. exists add, cs. simpl. split; [done|by left].
  - specialize (Hd ltac:(done)). zneq c 0.
    set (s2 := set_cleanups s1 (<[c := mkCleanup hd (data nd) (c_next nd)]> (cleanups s1))).
    assert (set_handler c hd s1 = Ok (tt, s2)) as E1 by (unfold set_handler, mbind, M_bind, get, modify; by rewrite Hnd).
    mstep E1. rewrite bind_get, (bind_lift _ _ _ (mkCleanup hd (data nd) (c_next nd))), bind_modify by (simpl; by rewrite lookup_insert_eq).
    apply served_ok. exists add, (c :: cs). simpl. zneq c 0. split; [|by right]. eapply kept_fill; try done.
    + eexists. simpl. rewrite lookup_insert_eq. split_and!; [done|done|by rewrite lookup_insert_eq|set_solver].
    + eapply others_kept; [exact Hk|exact Hk1| |]; simpl.
      * intros x Hx. rewrite lookup_insert_ne by done. by apply Ec.
      * intros g Hg. rewrite lookup_insert_ne; [by rewrite Ef|]. destruct Hk1 as (bs & ex & ls & Hi & _).
        by apply (new_address _ _ _ _ _ _ _ _ _ _ _ _ Hi Hd Hg).
Qed.

Lemma exec_ok o used cs es ev s :
  kept [] used cs es ev s → valid_op o = true → served (mem s) 4 (largest o) (exec pool o s) (λ '(r, s'), exec_post o used es ev s r s').
Proof.
  intros Hk Hv. destruct o as [n|n hd|hd f nm|f]; [|by eapply exec_cleanup_ok|by eapply exec_file_ok|].
  - cbn [exec]. eapply served_weaken; [eapply palloc_kept; [exact Hk|by apply Z.leb_le]|lia|done|]. intros [r s'] (add & ? & Hg & _). exists add, cs. split; [done|].
    destruct Hg as [[-> Hg]|Hg]; [left|by right]. split; [done|]. eapply refused_mono; [exact Hg|lia|done].
  - pose proof Hk as (bs & ex & ls & Hi & Hl & Hev). destruct (pi_lists _ _ _ _ _ _ _ Hl) as (h & Hh & _ & Hc).
    cbn [exec]. unfold ngx_pool_run_cleanup_file.
    assert (head_at pool s = Ok (h, s)) as E by (unfold head_at; by rewrite bind_get, Hh).
    destruct (run_cleanup_file_ok used f (base.size (cleanups s)) s (cleanup h) cs es) as (s' & E' & Ho & Hen & Hev').
    { done. } { apply Hl. }
    { eapply chain_le_size; [exact Hc|]. intros a [x Hx]. unfold cnx in Hx. destruct (cleanups s !! a); [eauto|done]. }
    left. exists (0, s'). split; [unfold mbind, M_bind in *; rewrite E; simpl; by rewrite E'|].
    exists [], cs. split; [|done]. destruct Ho as (E1 & E2 & E3 & E4 & _ & E6 & _). exists bs, ex, ls. split_and!.
    + eapply core_lists; [exact Hi|done|done|]. intros h' Hh'. rewrite E3. eauto.
    + eapply lists_entries; [exact Hl|done|done|done|done].
    + simpl. by rewrite Hev', Hev.
Qed.

(** The requests [os] on state [s] have the results [rs]; one fails only when the heap at that moment
    refuses one of the at most four blocks that it takes. *)
Fixpoint answered (os : list op) (rs : list Z) (s : st) : Prop :=
  match os, rs with
  | [], [] => True
  | o :: os, r :: rs => ∃ s', exec pool o s = Ok (r, s') ∧ (is_Some (size_of o) → r = 0 → refused 4 (largest o) (mem s)) ∧ answered os rs s'
  | _, _ => False
  end.

(** The requests stop the process at one for which the heap at that moment refuses a block. *)
Definition aborted (os : list op) (s : st) : Prop :=
  ∃ os1 o os2 rs1 s1, os = os1 ++ o :: os2 ∧ session pool os1 s = Ok (rs1, s1) ∧ exec pool o s1 = Err FNoMem ∧ refused 4 (largest o) (mem s1).

Lemma aborted_cons o os s r s1 : exec pool o s = Ok (r, s1) → aborted os s1 → aborted (o :: os) s.
Proof.
  intros E (os1 & o' & os2 & rs1 & s2 & -> & E1 & E2). exists (o :: os1), o', os2, (r :: rs1), s2. split; [done|]. split; [|done]. cbn [session]. mstep E. by mstep E1.
Qed.

Lemma session_ok os used cs es ev s :
  kept [] used cs es ev s → forallb valid_op os = true →
  (∃ rs s', session pool os s = Ok (rs, s') ∧ ∃ add cs',
    kept add used cs' (steps os rs (es, ev)).1 (steps os rs (es, ev)).2 s' ∧
    answered os rs s ∧ ForallOrdPairs apart (grants os rs) ∧ Forall (λ g, g ∈ add ∧ g.1 mod 8 = 0) (grants os rs)) ∨
  (session pool os s = Err FNoMem ∧ aborted os s).
Proof.
  revert used cs es ev s. induction os as [|o os IH]; intros used cs es ev s Hk Hv; cbn [session].
  { left. exists [], s. split; [done|]. exists [], cs. split_and!; [done|done|constructor..]. }
  simpl in Hv. apply andb_true_iff in Hv as [Hv1 Hv2].
  destruct (exec_ok o used cs es ev s Hk Hv1) as [([r s1] & E & add1 & cs1 & Hk1 & Hg)|[E Hr]].
  2: { right. split; [unfold mbind, M_bind; by rewrite E|]. exists [], o, os, [], s. by split_and!. }
  destruct (IH (add1 ++ used) _ _ _ s1 Hk1 Hv2) as [(rs & s2 & E2 & add2 & cs2 & Hk2 & Han & Hf & Hm)|[E2 Ha]].
  2: { right. split; [mstep E; unfold mbind, M_bind; by rewrite E2|by eapply aborted_cons]. }
  left. exists (r :: rs), s2. split; [mstep E; by mstep E2|]. exists (add2 ++ add1), cs2. split; [|split].
  { unfold NgxPoolLists.kept in *. rewrite <-app_assoc.
    change (steps (o :: os) (r :: rs) (es, ev)) with (steps os rs (step o r (es, ev))).
    by rewrite (surjective_pairing (step o r (es, ev))). }
  { exists s1. split_and!; [done| |done]. intros [n Hn] Hr. rewrite Hn in Hg. simpl in Hg. destruct Hg as [[_ ?]|[? _]]; done. }
  assert (Forall (λ g, g ∈ add2 ++ add1 ∧ g.1 mod 8 = 0) (grants os rs)) as Hm'.
  { eapply Forall_impl; [exact Hm|]. intros g []. split; [set_solver|done]. }
  simpl. destruct (size_of o) as [n|]; [|done]. simpl in Hg. destruct Hg as [[-> _]|(H0 & H1 & H2)]; [done|]. zneq r 0. split.
  - constructor; [|done]. destruct Hk2 as (bs & ex & ls & Hi & _). eapply Forall_impl; [exact Hm|]. intros g [Hg _].
    apply ranges_apart_sym. eapply apart_new; [exact Hi|done|set_solver].
  - constructor; [|done]. split; [set_solver|done].
Qed.

(** ** The end *)

Lemma free_larges_ok fuel s l ls ex :
  chain (lnx s) l ls → Forall2 (λ l a, alloc <$> larges s !! l = Some a) ls ex → NoDup ex →
  (∀ a, a ∈ ex → a ≠ 0 ∧ is_Some (mem s !! a)) → (length ls ≤ fuel)%nat →
  ∃ m, free_larges fuel l s = Ok (tt, set_mem s m) ∧ ∀ b, m !! b = if decide (b ∈ ex) then None else mem s !! b.
Proof.
  revert fuel s l ex. induction ls as [|x ls IH]; intros fuel s l ex Hc Ha Hnd Hm Hf; inversion Ha as [|? a ? ex' Hx Ha']; subst.
  - simpl in Hc. subst l. exists (mem s). split; [destruct fuel; by destruct s|]. intros b. by rewrite decide_False by set_solver.
  - destruct Hc as (-> & H0 & r & Hr & Hc). destruct fuel as [|fuel]; [simpl in Hf; lia|]. cbn [free_larges]. zneq x 0.
    apply NoDup_cons in Hnd as [Hna Hnd]. destruct (Hm a ltac:(set_solver)) as [Ha0 Has].
    unfold lnx in Hr. destruct (larges s !! x) as [nd|] eqn:Hnd'; simplify_eq/=.
    rewrite bind_get, Hnd', (bind_lift _ _ _ nd eq_refl). zneq (alloc nd) 0.
    rewrite (bind_ok _ _ _ _ _ (zoom_ok mem set_mem _ s _ _ (free_ok _ _ Has Ha0))).
    destruct (IH fuel (set_mem s (delete (alloc nd) (mem s))) (l_next nd) ex') as (m & E & Hml); [done|done|done| |lia|].
    { intros b Hb. simpl. rewrite lookup_delete_ne; [by apply Hm; set_solver|]. by intros <-. }
    exists m. split; [done|]. intros b. rewrite Hml. simpl. destruct (decide (b ∈ ex')); [by rewrite decide_True by set_solver|].
    destruct (decide (b = alloc nd)) as [->|]; [rewrite lookup_delete_eq, decide_True by set_solver; done|].
    rewrite lookup_delete_ne, decide_False by set_solver. done.
Qed.

Lemma free_blocks_ok fuel s p n l :
  chain (dnx s) p (p :: l) → dnx s p = Some n → (∀ a, a ∈ p :: l → is_Some (mem s !! a)) → (length l ≤ fuel)%nat →
  ∃ s', free_blocks fuel p n s = Ok (tt, s') ∧ events s' = events s ∧ ∀ b, mem s' !! b = if decide (b ∈ p :: l) then None else mem s !! b.
Proof.
  revert fuel s p n. induction l as [|x l IH]; intros fuel s p n Hc Hp Hm Hf; pose proof (chain_NoDup _ _ _ Hc) as [Hni Hnd]%NoDup_cons;
    destruct Hc as (_ & H0 & r & Hr & Hc); rewrite Hp in Hr; injection Hr as <-;
    (set (s1 := set_datas (set_mem s (delete p (mem s))) (delete p (datas s))));
    assert (∀ b, mem s1 !! b = if decide (b = p) then None else mem s !! b) as Hs1
      by (intros b; simpl; case_decide; [subst; by rewrite lookup_delete_eq|by rewrite lookup_delete_ne]);
    pose proof (zoom_ok mem set_mem _ s _ _ (free_ok _ _ (Hm p ltac:(set_solver)) H0)) as Ef.
  - simpl in Hc. subst n. exists s1. split; [destruct fuel; cbn [free_blocks]; mstep Ef; done|]. split; [done|].
    intros b. rewrite Hs1. repeat case_decide; set_solver.
  - pose proof Hc as (-> & Hx & q & Hq & _). destruct fuel as [|fuel]; [simpl in Hf; lia|]. cbn [free_blocks]. mstep Ef.
    rewrite bind_modify. fold s1. zneq x 0.
    assert (∀ b, b ∈ x :: l → dnx s1 b = dnx s b) as Hd.
    { intros b Hb. unfold dnx. simpl. rewrite lookup_delete_ne; [done|]. by intros <-. }
    assert (∃ d, data_at x s1 = Ok (d, s1) ∧ dnx s1 x = Some (next d)) as (d & Ed & Hdn).
    { rewrite <-Hd in Hq by set_solver. unfold dnx in Hq |- *. unfold data_at. rewrite bind_get.
      destruct (datas s1 !! x) as [d|]; [|done]. by exists d. }
    mstep Ed. destruct (IH fuel s1 x (next d)) as (s' & E & He & Hb); [|done| |simpl in Hf; lia|].
    + by eapply seg_frame.
    + intros a Ha. rewrite Hs1, decide_False by (by intros ->). apply Hm. set_solver.
    + exists s'. split_and!; [done|by rewrite He|]. intros b. rewrite Hb, Hs1. repeat case_decide; set_solver.
Qed.

(** Destroying the pool runs the handlers that are left and gives back all memory. *)
Lemma ngx_destroy_pool_ok used cs es ev s :
  kept [] used cs es ev s → ∃ s', ngx_destroy_pool pool s = Ok (tt, s') ∧ mem s' = m0 ∧ erase <$> events s' = ev ++ (es ≫= runs).
Proof.
  intros (bs & ex & ls & Hi & Hl & Hev). destruct (pi_lists _ _ _ _ _ _ _ Hl) as (h & Hh & Hc1 & Hc2).
  assert (head_at pool s = Ok (h, s)) as E by (unfold head_at; by rewrite bind_get, Hh).
  unfold ngx_destroy_pool. mstep E. rewrite bind_get.
  destruct (run_cleanups_ok used (base.size (cleanups s)) s _ _ _ Hc2 (pi_entries _ _ _ _ _ _ _ Hl)) as (evs & E1 & Hevs).
  { eapply chain_le_size; [exact Hc2|]. intros a [x Hx]. unfold cnx in Hx. destruct (cleanups s !! a); [eauto|done]. }
  mstep E1. pose proof (co_nodup _ _ _ _ _ _ _ Hi) as (Hnd1 & Hdj & Hnd2)%NoDup_app.
  destruct (free_larges_ok (base.size (larges s)) (set_events s evs) (large h) ls ex Hc1 (pi_allocs _ _ _ _ _ _ _ Hl) Hnd2) as (m & E2 & Hm).
  { apply (co_ex _ _ _ _ _ _ _ Hi). }
  { eapply chain_le_size; [exact Hc1|]. intros a [x Hx]. unfold lnx in Hx. destruct (larges s !! a); [eauto|done]. }
  mstep E2. set (s2 := set_mem (set_events s evs) m) in *.
  pose proof (blocks_size _ _ _ _ _ _ _ Hi) as Hsz. pose proof (co_chain _ _ _ _ _ _ _ Hi) as Hc.
  pose proof (pool_in _ _ _ _ _ _ _ Hi) as Hpin. pose proof (chain_next _ _ _ _ Hc Hpin) as [n Hn].
  assert (∃ d, data_at pool s2 = Ok (d, s2) ∧ dnx s2 pool = Some (next d)) as (d & Ed & Hdn).
  { unfold dnx in Hn |- *. unfold data_at. rewrite bind_get. simpl. destruct (datas s !! pool) as [d|]; [|done]. by exists d. }
  mstep Ed. destruct bs as [|b l]; [set_solver|]. pose proof Hc as (<- & _).
  destruct (free_blocks_ok (base.size (datas s)) s2 pool (next d) l) as (s' & E3 & He & Hb); [done|done| |simpl in Hsz; lia|].
  { intros a Ha. simpl. rewrite Hm, decide_False by (intros ?; by eapply Hdj). destruct (co_block _ _ _ _ _ _ _ Hi a Ha) as (E' & _).
    simpl. rewrite E'. eauto. }
  exists s'. split_and!; [done| |by rewrite He; simpl; rewrite Hevs, Hev]. apply map_eq. intros x. rewrite Hb. simpl. rewrite Hm.
  case_decide as Hx; [by rewrite (co_own _ _ _ _ _ _ _ Hi) by set_solver|].
  case_decide as Hx'; [by rewrite (co_own _ _ _ _ _ _ _ Hi) by set_solver|]. simpl. apply (co_rest _ _ _ _ _ _ _ Hi). set_solver.
Qed.
End session.
End NgxPoolLists.
