(* ===== verification/NgxPoolProps.v ===== *)
(** nginx's memory pool: what a client gets from it, and what is left when it is destroyed. *)

From S2P Require Import Prelude Chains HeapBlocks NgxPool NgxPoolFacts NgxPoolLists.
From stdpp Require Import options.

Import NgxPool NgxPoolFacts NgxPoolLists.

Module NgxPoolProps.

(** A pool and a client's requests to it; 0 when the pool could not be created. *)
Definition use_pool `{Malloc} (pagesize size : Z) (os : list op) : MS (Z * list Z) :=
  pool ← ngx_create_pool pagesize size;
  if pool =? 0 then mret (0, []) else rs ← session pool os; mret (pool, rs).

Definition lifetime `{Malloc} (pagesize size : Z) (os : list op) : MS (Z * list Z) :=
  x ← use_pool pagesize size os;
  if x.1 =? 0 then mret x else ngx_destroy_pool x.1;; mret x.

Section props.
Context {malloc_fn : Malloc} {laws : MallocLaws} (m0 : blocks) (pagesize size : Z).
Context (Hsize : sizeof_pool ≤ size < 2 ^ 63) (Hmod : size mod 8 = 0) (Hm0 : blocks_apart m0).
#[local] Set Default Proof Using "All".

Lemma ngx_create_pool_ok :
  new_block size m0 = 0 ∧ ngx_create_pool pagesize size (start m0) = Ok (0, start m0) ∨
  ∃ pool s, ngx_create_pool pagesize size (start m0) = Ok (pool, s) ∧ pool ≠ 0 ∧ kept m0 pool size [] [] [] [] [] s.
Proof.
  unfold ngx_create_pool. destruct (Z.eqb_spec (new_block size m0) 0) as [E0|E0].
  { left. split; [done|]. unfold ngx_memalign, zoom, malloc, mbind, M_bind. simpl. rewrite E0. done. }
  right. unfold sizeof_pool in Hsize. pose proof (new_block_range size m0 ltac:(lia) E0) as Hrg.
  pose proof (new_block_aligned size m0 ltac:(lia)) as Hal. pose proof (new_block_fresh size m0 ltac:(lia) E0) as Hfr.
  pose proof (blocks_apart_new size m0 ltac:(lia) E0 Hm0) as Hap.
  remember (new_block size m0) as b eqn:Eb.
  assert (ngx_memalign size (start m0) = Ok (b, set_mem (start m0) (<[b := size]> m0))) as E1.
  { unfold ngx_memalign, zoom, malloc. simpl. rewrite <-Eb. by zneq b 0. }
  eexists b, _. split; [|split; [done|]].
  { mstep E1. zneq b 0. rewrite (proj2 (Z.ltb_ge _ _)) by (unfold sizeof_pool; lia). cbv zeta. rewrite !bind_modify. done. }
  exists [b], [], []. split_and!; [|split; simpl; [|constructor|set_solver|set_solver|constructor]|done].
  2: { eexists. rewrite lookup_insert_eq. done. }
  pose proof (wrapu_range 32 (pagesize - 1) ltac:(done)) as Hmx.
  assert (u64 (size - sizeof_pool) = size - sizeof_pool) as Hsz by (apply wrapu_small; unfold sizeof_pool; lia).
  assert (∀ x, x ∈ [b] ++ [] → x = b) as Hx by set_solver.
  split; simpl; try done.
  - unfold sizeof_pool. split_and!; [lia|done|lia].
  - intros x ->%list_elem_of_singleton. rewrite lookup_insert_eq. split_and!; [done|lia|lia|by apply aligned_16|].
    exists (b + sizeof_pool). unfold extent, hdr. simpl. rewrite lookup_insert_eq, Z.eqb_refl, !wrapu_small by (unfold sizeof_pool; lia).
    split; [done|unfold sizeof_pool; lia].
  - unfold dnx. simpl. rewrite lookup_insert_eq. eauto.
  - eexists. rewrite lookup_insert_eq. simpl. rewrite Hsz. unfold NGX_MAX_ALLOC_FROM_POOL. split_and!; [done| | |set_solver].
    1, 2: zbool; cbn [max]; unfold sizeof_pool in *; lia.
  - apply NoDup_singleton.
  - set_solver.
  - constructor.
  - intros x Hnx. rewrite lookup_insert_ne; [done|set_solver].
  - intros x ->%Hx. done.
  - intros x Hxs. destruct (decide (x = b)) as [->|]; [set_solver|]. rewrite lookup_insert_ne in Hxs by done. by destruct Hxs.
Qed.

Lemma use_pool_ok os :
  forallb valid_op os = true →
  ends (use_pool pagesize size os (start m0)) (λ '((pool, rs), s),
    (pool = 0 ∧ mem s = m0 ∧ events s = [] ∧ ∃ k l, new_block k l = 0) ∨
    (pool ≠ 0 ∧ ∃ add cs, kept m0 pool size add [] cs (steps os rs ([], [])).1 (steps os rs ([], [])).2 s)).
Proof.
  intros Hv. unfold use_pool. destruct ngx_create_pool_ok as [[Hz E]|(pool & s & E & H0 & Hk)]; mstep E.
  { apply ends_ok. left. split_and!; [done|done|done|eauto]. }
  zneq pool 0. destruct (session_ok m0 pool size os [] [] [] [] s Hk Hv) as [(rs & s' & E' & add & cs & Hk' & _)|[E' (os1 & o & os2 & rs1 & s1 & _ & _ & _ & (l & k & _ & _ & Hz))]].
  - mstep E'. apply ends_ok. right. eauto.
  - right. split; [unfold mbind, M_bind; by rewrite E'|eauto].
Qed.
End props.

(** What is lent is inside a block of the heap that the pool took, and not over the pool itself. *)
Lemma lent_place m0 pool sz bs ex used s g :
  core_inv m0 pool sz bs ex used s → g ∈ used →
  (∃ b k, mem s !! b = Some k ∧ m0 !! b = None ∧ within g (b, k)) ∧ apart g (pool, sizeof_pool).
Proof.
  intros Hi Hg. pose proof (pool_in _ _ _ _ _ _ _ Hi) as Hp. destruct (co_block _ _ _ _ _ _ _ Hi _ Hp) as (Hpm & _).
  destruct (co_sz _ _ _ _ _ _ _ Hi) as (Hs1 & _).
  pose proof (proj1 (Forall_forall _ _) (co_used _ _ _ _ _ _ _ Hi) g Hg) as [(b & l & e & Hb & He & H1 & H2)|[Hx Hm]].
  - destruct (co_block _ _ _ _ _ _ _ Hi _ Hb) as (Hbm & _ & _ & _ & l' & El & Hl). rewrite He in El. simplify_eq.
    split; [exists b, sz; split_and!; [done|apply (co_own _ _ _ _ _ _ _ Hi); set_solver|]|].
    + unfold within, hdr, sizeof_pool, sizeof_pool_data in *. simpl. destruct (b =? pool); lia.
    + unfold hdr in *. destruct (Z.eqb_spec b pool) as [->|Hne]; [right; simpl; lia|].
      apply (within_apart _ _ (b, sz) (pool, sz)); [|unfold within; simpl; lia|by apply (co_heap _ _ _ _ _ _ _ Hi)].
      unfold within, sizeof_pool, sizeof_pool_data in *. simpl. lia.
  - split; [exists g.1, g.2; split_and!; [done|apply (co_own _ _ _ _ _ _ _ Hi); set_solver|unfold within; simpl; lia]|].
    apply (within_apart _ _ (g.1, g.2) (pool, sz)); [unfold within; simpl; lia|unfold within; simpl; lia|].
    apply (co_heap _ _ _ _ _ _ _ Hi); [done|done|]. intros E. pose proof (co_nodup _ _ _ _ _ _ _ Hi) as (_ & Hd & _)%NoDup_app.
    apply (Hd pool Hp). by rewrite <-E.
Qed.

(** C12. A pool whose size is a multiple of eight and at least [sizeof(ngx_pool_t)] (72) serves any
    sequence of requests (memory of any size, small or large, cleanups with data, files and early
    closes) without undefined behaviour.  Creating it fails only when the heap refuses a block of
    its size, and a request fails, or aborts the process, only when the heap at that moment
    refuses one of the blocks that the request takes, which are at most four, of the pool's size
    or of the size asked for.  What it handed out is aligned, pairwise apart, inside blocks it took
    from the heap itself, so apart from what the process had before, and apart from its own
    header. *)
Theorem ngx_pool_apart `{MallocLaws} (pagesize size : Z) (os : list op) (m0 : blocks) :
  sizeof_pool ≤ size < 2 ^ 63 → size mod 8 = 0 → blocks_apart m0 → forallb valid_op os = true →
  (new_block size m0 = 0 ∧ ngx_create_pool pagesize size (start m0) = Ok (0, start m0)) ∨
  ∃ pool s0, ngx_create_pool pagesize size (start m0) = Ok (pool, s0) ∧ pool ≠ 0 ∧
    ((∃ rs s, session pool os s0 = Ok (rs, s) ∧ answered pool size os rs s0 ∧ ForallOrdPairs apart (grants os rs) ∧
       Forall (λ g, g.1 mod 8 = 0 ∧ (∃ b k, mem s !! b = Some k ∧ m0 !! b = None ∧ within g (b, k)) ∧
                    apart g (pool, sizeof_pool)) (grants os rs)) ∨
     (session pool os s0 = Err FNoMem ∧ aborted pool size os s0)).
Proof.
  intros H1 H2 H3 H4. destruct (ngx_create_pool_ok m0 pagesize size H1 H2 H3) as [?|(pool & s0 & E & H0 & Hk)]; [by left|right].
  exists pool, s0. split_and!; [done|done|]. destruct (session_ok m0 pool size os [] [] [] [] s0 Hk H4) as [(rs & s & E' & add & cs & (bs & ex & ls & Hi & _) & Ha & Hf & Hg)|?]; [left|by right].
  exists rs, s. split_and!; [done|done|done|]. eapply Forall_impl; [exact Hg|]. intros g [Hin Hm]. split; [done|]. eapply lent_place; [exact Hi|set_solver].
Qed.

(** C27. The whole life of a pool, of a size that is a multiple of eight and at least 72, leaves the
    heap as it was.  Each cleanup handler ran exactly once:
    those of files that were closed early at that time, the others when the pool was destroyed,
    the newest first, and deleting a file unlinks its name before its descriptor is closed. *)
Theorem ngx_pool_releases `{MallocLaws} (pagesize size : Z) (os : list op) (m0 : blocks) :
  sizeof_pool ≤ size < 2 ^ 63 → size mod 8 = 0 → blocks_apart m0 → forallb valid_op os = true →
  ends (lifetime pagesize size os (start m0)) (λ '((pool, rs), s),
    mem s = m0 ∧
    if pool =? 0 then events s = [] ∧ ∃ k l, new_block k l = 0 else
    let '(es, ev) := steps os rs ([], []) in erase <$> events s = ev ++ (es ≫= runs)).
Proof.
  intros H1 H2 H3 H4. unfold lifetime. eapply ends_bind; [by eapply use_pool_ok|]. intros [pool rs] s.
  intros [(-> & ? & ? & ?)|(H0 & add & cs & Hk)]; [by apply ends_ok|]. cbn [fst snd]. zneq pool 0.
  destruct (ngx_destroy_pool_ok m0 pool size (add ++ []) cs _ _ s Hk) as (s' & E & Hm & He). mstep E. apply ends_ok.
  zneq pool 0. by destruct (steps os rs ([], [])).
Qed.

(** Requests that follow each other. *)
Lemma session_cons `{Malloc} pool o os s r s' :
  exec pool o s = Ok (r, s') → session pool (o :: os) s = (rs ← session pool os; mret (r :: rs)) s'.
Proof. intros E. cbn [session]. by mstep E. Qed.

(** A small request of a pool with one block, that the first block seems to have the room for. *)
Lemma palloc_first `{Malloc} pool n s h d m :
  heads s !! pool = Some h → current h = pool → datas s !! pool = Some d → n ≤ max h →
  m = ngx_align_ptr (last d) NGX_ALIGNMENT → n ≤ u64 (end_ d - m) →
  ngx_palloc pool n s = Ok (m, set_datas s (alter (with_last (u64 (m + n))) pool (datas s))).
Proof.
  intros Hh Hc Hd Hn Hm Hr. assert (head_at pool s = Ok (h, s)) as E1 by (unfold head_at; by rewrite bind_get, Hh).
  assert (data_at pool s = Ok (d, s)) as E2 by (unfold data_at; by rewrite bind_get, Hd).
  unfold ngx_palloc, ngx_palloc_small. mstep E1. rewrite (proj2 (Z.leb_le _ _)) by done. mstep E1. rewrite bind_get, Hc.
  assert (search_blocks (base.size (datas s)) pool n true s =
    Ok (Some m, set_datas s (alter (with_last (u64 (m + n))) pool (datas s)))) as E3; [|by mstep E3].
  destruct (base.size (datas s)); cbn [search_blocks]; mstep E2; rewrite <-Hm, (proj2 (Z.leb_le _ _)) by done;
    unfold upd_data, mbind, M_bind; by rewrite E2.
Qed.

(** A new pool whose memory is all for small requests. *)
Lemma create_exact `{Malloc} pagesize size b m0 :
  b = new_block size m0 → b ≠ 0 → 0 < b → b + size < 2 ^ 64 → sizeof_pool < size → size - sizeof_pool ≤ NGX_MAX_ALLOC_FROM_POOL pagesize →
  ngx_create_pool pagesize size (start m0) =
    Ok (b, mkSt (<[b := size]> m0) {[b := mkData (b + sizeof_pool) (b + size) 0 0]} {[b := mkHead (size - sizeof_pool) b 0 0]} ∅ ∅ ∅ []).
Proof.
  unfold sizeof_pool. intros Eb H0 H1 H2 H3 H4. unfold ngx_create_pool, ngx_memalign, zoom, malloc, mbind, M_bind. simpl. rewrite <-Eb.
  zneq b 0. zneq b 0. unfold sizeof_pool. rewrite (proj2 (Z.ltb_ge size 72)) by lia. unfold modify, mret, M_ret. simpl.
  rewrite (wrapu_small 64 (size - 72)), (wrapu_small 64 (b + 72)), (wrapu_small 64 (b + size)) by lia.
  assert ((if size - 72 <? NGX_MAX_ALLOC_FROM_POOL pagesize then size - 72 else NGX_MAX_ALLOC_FROM_POOL pagesize) = size - 72) as ->
    by (zbool; lia). by rewrite !insert_empty.
Qed.

(** C37. A pool whose size is not a multiple of eight overruns its block: once its memory is used up
    to the end, the aligned address is behind the end, the room [(size_t)(end - m)] wraps around,
    and the next request is answered with memory outside the block, without a new block. *)
Theorem ngx_pool_overruns `{MallocLaws} (pagesize size n b : Z) (m0 : blocks) :
  b = new_block size m0 → sizeof_pool < size → size mod 8 ≠ 0 → size - sizeof_pool ≤ NGX_MAX_ALLOC_FROM_POOL pagesize →
  0 ≤ n ≤ size - sizeof_pool → b ≠ 0 → b + size + 8 ≤ 2 ^ 64 →
  ∃ r s, use_pool pagesize size [OAlloc (size - sizeof_pool); OAlloc n] (start m0) = Ok ((b, [b + sizeof_pool; r]), s) ∧
    mem s = <[b := size]> m0 ∧ b + size < r.
Proof.
  intros Eb Hs Hm Hp Hn Hb Hr. unfold sizeof_pool in *. assert (0 ≤ size) as H0 by lia. rewrite Eb in Hb.
  pose proof (@new_block_range _ H size m0 H0 Hb) as Hrg.
  pose proof (aligned_16 _ (@new_block_aligned _ H size m0 H0)) as Hal. rewrite <-Eb in Hb, Hrg, Hal.
  pose proof (wrapu_range 32 (pagesize - 1) ltac:(done)) as Hmx. unfold NGX_MAX_ALLOC_FROM_POOL in Hp.
  set (d := mkData (b + 72) (b + size) 0 0). set (h := mkHead (size - 72) b 0 0).
  set (s1 := mkSt (<[b := size]> m0) {[b := d]} {[b := h]} ∅ ∅ ∅ []).
  assert (ngx_create_pool pagesize size (start m0) = Ok (b, s1)) as E1 by (apply create_exact; unfold sizeof_pool; done || lia).
  unfold use_pool. mstep E1. zneq b 0.
  destruct (align_bounds (b + 72) (b + 72) _ ltac:(lia) ltac:(lia) eq_refl) as (A1 & _ & A3).
  assert (ngx_align_ptr (b + 72) NGX_ALIGNMENT = b + 72) as Ea.
  { apply Z.le_antisymm; [apply A3; [done|]|lia]. by rewrite Zplus_mod, Hal. }
  set (s2 := mkSt (<[b := size]> m0) {[b := with_last (b + size) d]} {[b := h]} ∅ ∅ ∅ []).
  assert (exec b (OAlloc (size - 72)) s1 = Ok (b + 72, s2)) as E2.
  { cbn [exec]. rewrite (palloc_first b (size - 72) s1 h d (b + 72)); simpl; rewrite ?lookup_singleton_eq; try done.
    2: { rewrite wrapu_small; lia. }
    replace (b + 72 + (size - 72)) with (b + size) by lia. by rewrite alter_singleton_eq, wrapu_small by lia. }
  destruct (align_bounds (b + size) (b + size) _ ltac:(lia) ltac:(lia) eq_refl) as (B1 & B2 & _).
  set (r := ngx_align_ptr (b + size) NGX_ALIGNMENT) in *.
  assert (b + size < r) as Hlt.
  { destruct (decide (r = b + size)) as [E|]; [|lia]. exfalso. apply Hm. rewrite E, Zplus_mod, Hal in B2. by rewrite Z.add_0_l, Zmod_mod in B2. }
  assert (u64 (b + size - r) = b + size - r + 2 ^ 64) as Hw by (unfold wrapu; rewrite <-(Z_mod_plus_full _ 1), Z.mod_small; lia).
  eexists r, _. split; [|split; [|done]].
  - rewrite (bind_ok _ _ _ [b + 72; r] (set_datas s2 (alter (with_last (u64 (r + n))) b (datas s2)))); [done|].
    rewrite (session_cons _ _ _ _ _ _ E2), (bind_ok _ _ _ [r] (set_datas s2 (alter (with_last (u64 (r + n))) b (datas s2)))); [done|].
    rewrite (session_cons b (OAlloc n) [] s2 r (set_datas s2 (alter (with_last (u64 (r + n))) b (datas s2)))); [done|].
    cbn [exec]. apply (palloc_first b n s2 h (with_last (b + size) d)); simpl; rewrite ?lookup_singleton_eq; try done; lia.
  - done.
Qed.

(** ** Concrete pools *)

Definition ex_ops : list op := [OAlloc 40; OAlloc 5000; OCleanup 8 7; OFile 2 4 9; OFile 1 3 9; OCloseFile 3; OAlloc 3900].

Lemma no_blocks_apart : blocks_apart ∅.
Proof. intros a n b m Ha. by rewrite lookup_empty in Ha. Qed.

(** Nothing is refused here: every request gets its memory. *)
Lemma ngx_pool_apart_witness :
  ∃ pool s0 rs s, ngx_create_pool (malloc_fn := bump_block) 4096 4000 (start ∅) = Ok (pool, s0) ∧ session (malloc_fn := bump_block) pool ex_ops s0 = Ok (rs, s) ∧
    length (grants ex_ops rs) = 6%nat ∧ answered (malloc_fn := bump_block) pool 4000 ex_ops rs s0 ∧ ForallOrdPairs apart (grants ex_ops rs) ∧
    Forall (λ g, g.1 mod 8 = 0 ∧ (∃ b k, mem s !! b = Some k ∧ (∅ : blocks) !! b = None ∧ within g (b, k)) ∧
                 apart g (pool, sizeof_pool)) (grants ex_ops rs).
Proof.
  destruct (ngx_pool_apart (malloc_fn := bump_block) 4096 4000 ex_ops ∅ ltac:(done) ltac:(done) no_blocks_apart ltac:(done)) as [[E _]|(pool & s0 & E & H0 & [(rs & s & E' & Ha & Hf & Hg)|[E' _]])].
  - vm_compute in E. discriminate.
  - exists pool, s0, rs, s. split; [exact E|]. split; [exact E'|]. split; [|split; [exact Ha|split; [exact Hf|exact Hg]]].
    assert (match ngx_create_pool (malloc_fn := bump_block) 4096 4000 (start ∅) with
            | Ok (pool, s0) => match session (malloc_fn := bump_block) pool ex_ops s0 with Ok (rs, _) => length (grants ex_ops rs) | Err _ => 0%nat end
            | Err _ => 0%nat end = 6%nat) as HL by (vm_compute; reflexivity). by rewrite E, E' in HL.
  - assert (match ngx_create_pool (malloc_fn := bump_block) 4096 4000 (start ∅) with
            | Ok (pool, s0) => match session (malloc_fn := bump_block) pool ex_ops s0 with Ok _ => true | Err _ => false end
            | Err _ => false end = true) as HL by (vm_compute; reflexivity). rewrite E, E' in HL. discriminate.
Defined.

Lemma ngx_pool_releases_witness :
  ends (malloc_fn := bump_block) (lifetime (H := bump_block) 4096 4000 ex_ops (start ∅)) (λ '((pool, rs), s),
    mem s = ∅ ∧
    if pool =? 0 then events s = [] ∧ ∃ k l, new_block (Malloc := bump_block) k l = 0 else
    let '(es, ev) := steps ex_ops rs ([], []) in erase <$> events s = ev ++ (es ≫= runs)).
Proof. apply (ngx_pool_releases (malloc_fn := bump_block)); [done|done|apply no_blocks_apart|done]. Defined.

Lemma ngx_pool_overruns_witness :
  ∃ r s, use_pool (H := bump_block) 4096 100 [OAlloc 28; OAlloc 8] (start ∅) = Ok ((16, [88; r]), s) ∧
    mem s = <[16 := 100]> ∅ ∧ 16 + 100 < r.
Proof. by apply (ngx_pool_overruns (malloc_fn := bump_block) 4096 100 8 16 ∅). Defined.

(** The handlers of the example run as they should: the file that is closed early first. *)
Example ngx_pool_example :
  match lifetime (H := bump_block) 4096 4000 ex_ops (start ∅) with
  | Ok (_, s) => erase <$> events s = [Close 3; Unlink 9; Close 4; Call 7 0]
  | Err _ => False
  end.
Proof. vm_compute. reflexivity. Qed.
End NgxPoolProps.
