(* ===== verification/GbCluster.v ===== *)
(** The redis client of the GB restorer in cluster mode: the table of nodes made from the reply to
    CLUSTER NODES, the table of slots, and sending a command to the node of its key with
    redirections and stand-ins, of [gb/downdatarestorer_norah/redisclient.cpp].

    The nodes are behind the class [Nodes], one handler (a [RedisCluster]) for each of them.
    The read-write locks order the calls.  Logging is left out. *)

From stdpp Require Import strings.
From S2P Require Import Prelude GbStream GbResp GbPool GbClient.
From stdpp Require Import options.
#[local] Open Scope Z_scope.

Module GbCluster.
Import GbStream GbResp GbClient.

(** ** [std::string] and [std::map] *)

Definition npos : Z := 2 ^ 64 - 1.

(** Where [p] first occurs in [s]. *)
Fixpoint index_of (p s : list Z) : option nat :=
  if bool_decide (take (length p) s = p) then Some O else
  match s with [] => None | _ :: s => S <$> index_of p s end.

(** [s.find(p, pos)]. *)
Definition str_find (p s : list Z) (pos : Z) : Z :=
  if Z.of_nat (length s) <? pos then npos else
  match index_of p (drop (Z.to_nat pos) s) with Some i => pos + Z.of_nat i | None => npos end.

Definition has (p s : list Z) : bool := negb (str_find p s 0 =? npos).

(** [s.substr(pos, n)]: throws [std::out_of_range], which nothing catches. *)
Definition substr (s : list Z) (pos n : Z) : result (list Z) :=
  if Z.of_nat (length s) <? pos then Err FUndef else Ok (take (Z.to_nat n) (drop (Z.to_nat pos) s)).

Class OrdKey (K : Type) := klt : K → K → bool.
#[global] Instance Z_OrdKey : OrdKey Z := Z.ltb.

Fixpoint bytes_lt (a b : list Z) : bool :=
  match a, b with
  | _, [] => false
  | [], _ :: _ => true
  | x :: a, y :: b => (x <? y) || (x =? y) && bytes_lt a b
  end.
#[global] Instance bytes_OrdKey : OrdKey (list Z) := bytes_lt.

(** A [std::map] as the list of its pairs in the order of iteration: [m[k] = v], [m.find(k)], [m.erase(k)]. *)
Section maps.
Context {K V : Type} `{!EqDecision K, !OrdKey K}.

Fixpoint oset (k : K) (v : V) (m : list (K * V)) : list (K * V) :=
  match m with
  | [] => [(k, v)]
  | (k', v') :: m' =>
      if decide (k = k') then (k, v) :: m' else if klt k k' then (k, v) :: m else (k', v') :: oset k v m'
  end.

Fixpoint oget (k : K) (m : list (K * V)) : option V :=
  match m with [] => None | (k', v) :: m => if decide (k = k') then Some v else oget k m end.

Definition oerase (k : K) (m : list (K * V)) : list (K * V) := filter (λ p, p.1 ≠ k) m.
End maps.

(** ** The slot of a key *)

Definition crc16tab : list Z := [
    0x0000;0x1021;0x2042;0x3063;0x4084;0x50a5;0x60c6;0x70e7;
    0x8108;0x9129;0xa14a;0xb16b;0xc18c;0xd1ad;0xe1ce;0xf1ef;
    0x1231;0x0210;0x3273;0x2252;0x52b5;0x4294;0x72f7;0x62d6;
    0x9339;0x8318;0xb37b;0xa35a;0xd3bd;0xc39c;0xf3ff;0xe3de;
    0x2462;0x3443;0x0420;0x1401;0x64e6;0x74c7;0x44a4;0x5485;
    0xa56a;0xb54b;0x8528;0x9509;0xe5ee;0xf5cf;0xc5ac;0xd58d;
    0x3653;0x2672;0x1611;0x0630;0x76d7;0x66f6;0x5695;0x46b4;
    0xb75b;0xa77a;0x9719;0x8738;0xf7df;0xe7fe;0xd79d;0xc7bc;
    0x48c4;0x58e5;0x6886;0x78a7;0x0840;0x1861;0x2802;0x3823;
    0xc9cc;0xd9ed;0xe98e;0xf9af;0x8948;0x9969;0xa90a;0xb92b;
    0x5af5;0x4ad4;0x7ab7;0x6a96;0x1a71;0x0a50;0x3a33;0x2a12;
    0xdbfd;0xcbdc;0xfbbf;0xeb9e;0x9b79;0x8b58;0xbb3b;0xab1a;
    0x6ca6;0x7c87;0x4ce4;0x5cc5;0x2c22;0x3c03;0x0c60;0x1c41;
    0xedae;0xfd8f;0xcdec;0xddcd;0xad2a;0xbd0b;0x8d68;0x9d49;
    0x7e97;0x6eb6;0x5ed5;0x4ef4;0x3e13;0x2e32;0x1e51;0x0e70;
    0xff9f;0xefbe;0xdfdd;0xcffc;0xbf1b;0xaf3a;0x9f59;0x8f78;
    0x9188;0x81a9;0xb1ca;0xa1eb;0xd10c;0xc12d;0xf14e;0xe16f;
    0x1080;0x00a1;0x30c2;0x20e3;0x5004;0x4025;0x7046;0x6067;
    0x83b9;0x9398;0xa3fb;0xb3da;0xc33d;0xd31c;0xe37f;0xf35e;
    0x02b1;0x1290;0x22f3;0x32d2;0x4235;0x5214;0x6277;0x7256;
    0xb5ea;0xa5cb;0x95a8;0x8589;0xf56e;0xe54f;0xd52c;0xc50d;
    0x34e2;0x24c3;0x14a0;0x0481;0x7466;0x6447;0x5424;0x4405;
    0xa7db;0xb7fa;0x8799;0x97b8;0xe75f;0xf77e;0xc71d;0xd73c;
    0x26d3;0x36f2;0x0691;0x16b0;0x6657;0x7676;0x4615;0x5634;
    0xd94c;0xc96d;0xf90e;0xe92f;0x99c8;0x89e9;0xb98a;0xa9ab;
    0x5844;0x4865;0x7806;0x6827;0x18c0;0x08e1;0x3882;0x28a3;
    0xcb7d;0xdb5c;0xeb3f;0xfb1e;0x8bf9;0x9bd8;0xabbb;0xbb9a;
    0x4a75;0x5a54;0x6a37;0x7a16;0x0af1;0x1ad0;0x2ab3;0x3a92;
    0xfd2e;0xed0f;0xdd6c;0xcd4d;0xbdaa;0xad8b;0x9de8;0x8dc9;
    0x7c26;0x6c07;0x5c64;0x4c45;0x3ca2;0x2c83;0x1ce0;0x0cc1;
    0xef1f;0xff3e;0xcf5d;0xdf7c;0xaf9b;0xbfba;0x8fd9;0x9ff8;
    0x6e17;0x7e36;0x4e55;0x5e74;0x2e93;0x3eb2;0x0ed1;0x1ef0].

(** [crc = (crc<<8) ^ crc16tab[((crc>>8) ^ *buf++)&0x00FF]]. *)
Definition crc16_step (crc b : Z) : Z :=
  u16 (Z.lxor (Z.shiftl crc 8) (default 0 (crc16tab !! Z.to_nat (Z.land (Z.lxor (Z.shiftr crc 8) b) 255)))).

Definition crc16 (buf : list Z) : Z := foldl crc16_step 0 buf.

Definition REDIS_SLOT_NUM := 16384.
Definition REDIS_DEFALUT_SERVER_PORT := 6379.

(** ** The table of nodes *)

Record RedisClusterInfo := mkCluster {
  clusterId : list Z; connectIp : list Z; connectPort : Z; connectionNum : Z; connectTimeout : Z; readTimeout : Z;
  isMaster : bool; isAlived : bool; masterClusterId : list Z; slotMap : list (Z * Z); bakClusterList : list (list Z);
  clusterHandler : Z; scanCursor : Z;
}.

Definition RedisClusterInfo_new : RedisClusterInfo := mkCluster [] [] 0 0 0 0 false false [] [] [] 0 0.

Abbreviation CLUSTER_MAP := (list (list Z * RedisClusterInfo)).

(** The members of the client that set up connections. *)
Record config := mkConfig { m_connectionNum : Z; m_connectTimeout : Z; m_readTimeout : Z; m_passwd : list Z }.

Definition set_options (cfg : config) (c : RedisClusterInfo) :=
  mkCluster (clusterId c) (connectIp c) (connectPort c) (m_connectionNum cfg) (m_connectTimeout cfg) (m_readTimeout cfg)
    (isMaster c) (isAlived c) (masterClusterId c) (slotMap c) (bakClusterList c) (clusterHandler c) (scanCursor c).
Definition set_handler (h : Z) (c : RedisClusterInfo) :=
  mkCluster (clusterId c) (connectIp c) (connectPort c) (connectionNum c) (connectTimeout c) (readTimeout c)
    (isMaster c) (isAlived c) (masterClusterId c) (slotMap c) (bakClusterList c) h (scanCursor c).
Definition set_cursor (n : Z) (c : RedisClusterInfo) :=
  mkCluster (clusterId c) (connectIp c) (connectPort c) (connectionNum c) (connectTimeout c) (readTimeout c)
    (isMaster c) (isAlived c) (masterClusterId c) (slotMap c) (bakClusterList c) (clusterHandler c) n.
Definition push_bak (a : list Z) (c : RedisClusterInfo) :=
  mkCluster (clusterId c) (connectIp c) (connectPort c) (connectionNum c) (connectTimeout c) (readTimeout c)
    (isMaster c) (isAlived c) (masterClusterId c) (slotMap c) (bakClusterList c ++ [a]) (clusterHandler c) (scanCursor c).

(** The two numbers keep what they were when there is no dash. *)
Definition parseSlotStr (slotStr : list Z) (startSlotNum stopSlotNum : Z) : result (Z * Z) :=
  let findPos := str_find (lit "-") slotStr 0 in
  if findPos =? npos then Ok (startSlotNum, stopSlotNum) else
  a ← substr slotStr 0 findPos;
  a ← atoi (c_str a);
  b ← substr slotStr (u64 (findPos + 1)) (u64 (len slotStr - findPos));
  b ← atoi (c_str b);
  Ok (u16 a, u16 b).

Definition put_slot (slotStr : list Z) (m : list (Z * Z)) : result (list (Z * Z)) :=
  '(a, b) ← parseSlotStr slotStr (u16 (-1)) (u16 (-1)); Ok (oset a b m).

(** The loop over the slots of a master, and the last of them; the length passed to [substr] is a position. *)
Fixpoint slot_loop (fuel : nat) (infoStr : list Z) (startPos : Z) (m : list (Z * Z)) : result (list (Z * Z)) :=
  let findPos := str_find (lit " ") infoStr startPos in
  if negb (findPos =? npos) then
    slotStr ← substr infoStr startPos findPos;
    m ← put_slot slotStr m;
    match fuel with O => Err FFuel | S fuel => slot_loop fuel infoStr (u64 (findPos + 1)) m end
  else
    slotStr ← substr infoStr startPos (u64 (len infoStr - startPos));
    put_slot slotStr m.

(** [address]: the text before the colon and the number behind it. *)
Definition parse_address (address : list Z) : result (list Z * Z) :=
  let findPos := str_find (lit ":") address 0 in
  if findPos =? npos then Ok (address, REDIS_DEFALUT_SERVER_PORT) else
  ip ← substr address 0 findPos;
  p ← substr address (u64 (findPos + 1)) (u64 (len address - findPos));
  p ← atoi (c_str p);
  Ok (ip, u32 p).

(** [None]: false is returned, and what was filled in is dropped by the caller. *)
Definition parseOneCluster (infoStr : list Z) : result (option RedisClusterInfo) :=
  let findPos := str_find (lit " ") infoStr 0 in
  if findPos =? npos then Ok (Some RedisClusterInfo_new) else
  id ← substr infoStr 0 findPos;
  let startPos := u64 (findPos + 1) in
  let findPos := str_find (lit " ") infoStr startPos in
  if findPos =? npos then Ok None else
  address ← substr infoStr startPos (u64 (findPos - startPos));
  let startPos := u64 (findPos + 1) in
  '(ip, port) ← parse_address address;
  let findPos := str_find (lit " ") infoStr startPos in
  if findPos =? npos then Ok None else
  tmpStr ← substr infoStr startPos (u64 (findPos - startPos));
  let master := has (lit "master") tmpStr in
  let startPos := u64 (findPos + 1) in
  let findPos := str_find (lit " ") infoStr startPos in
  if findPos =? npos then Ok None else
  masterId ← (if master then Ok [] else substr infoStr startPos (u64 (findPos - startPos)));
  let startPos := u64 (findPos + 1) in
  let alive := str_find (lit "disconnected") infoStr startPos =? npos in
  let findPos := str_find (lit "connected") infoStr startPos in
  let c := λ slots, mkCluster id ip port 0 0 0 master alive masterId slots [] 0 0 in
  if master && alive then
    let startPos := u64 (findPos + 1) in
    let findPos := str_find (lit " ") infoStr startPos in
    if findPos =? npos then Ok None else
    slots ← slot_loop (length infoStr) infoStr (u64 (findPos + 1)) [];
    Ok (Some (c slots))
  else Ok (Some (c [])).

(** Lines of nodes that are not used. *)
Definition skipped (infoStr : list Z) : bool :=
  has (lit "fail") infoStr || has (lit "noaddr") infoStr || has (lit "disconnected") infoStr.

(** Nodes are found by address. *)
Definition address_of (c : RedisClusterInfo) : list Z := connectIp c ++ lit ":" ++ toStr (connectPort c).

(** The loop over the lines: the nodes, and the master of each stand-in; [None] when a line is malformed. *)
Fixpoint line_loop (fuel : nat) (cfg : config) (str : list Z) (startPos : Z) (clusterMap : CLUSTER_MAP) (bakMap : list (list Z * list Z))
    : result (option (CLUSTER_MAP * list (list Z * list Z))) :=
  let findPos := str_find [10] str startPos in
  if findPos =? npos then Ok (Some (clusterMap, bakMap)) else
  infoStr ← substr str startPos (u64 (findPos - startPos));
  if bool_decide (infoStr = [13]) then Ok (Some (clusterMap, bakMap)) else
  let continue := λ clusterMap bakMap,
    match fuel with O => Err FFuel | S fuel => line_loop fuel cfg str (u64 (findPos + 1)) clusterMap bakMap end in
  if skipped infoStr then continue clusterMap bakMap else
  c ← parseOneCluster infoStr;
  match c with
  | None => Ok None
  | Some c =>
      let bakMap := if negb (isMaster c) && negb (bool_decide (masterClusterId c = [])) then oset (address_of c) (masterClusterId c) bakMap else bakMap in
      continue (oset (address_of c) (set_options cfg c) clusterMap) bakMap
  end.

(** The stand-in [b.1] of the master [b.2]. *)
Definition add_bak (clusterMap : CLUSTER_MAP) (b : list Z * list Z) : CLUSTER_MAP :=
  (λ p, (p.1, if bool_decide (clusterId p.2 = b.2) then push_bak b.1 p.2 else p.2)) <$> clusterMap.

(** The map is added to; it is cleared when a line is malformed. *)
Definition parseClusterInfo (cfg : config) (r : RedisReplyInfo) (clusterMap : CLUSTER_MAP) : result (bool * CLUSTER_MAP) :=
  match arrayList r with
  | [] => Ok (false, clusterMap)
  | a :: _ =>
      if negb (bool_decide (ai_type a = REDIS_REPLY_STRING)) || (arrayLen a =? 0) then Ok (false, clusterMap) else
      v ← deref (arrayValue a);
      let str := c_str v in
      l ← line_loop (length str) cfg str 0 clusterMap [];
      match l with
      | None => Ok (false, [])
      | Some (clusterMap, bakMap) => Ok (true, foldl add_bak clusterMap bakMap)
      end
  end.

(** ** The tables of the client *)

(** What the client uses of [RedisCluster] and [RedisConnection]: a command on a new connection
    ([None] when it cannot connect), a new handler with its connections ([None] when they cannot
    be made), a command on a handler, whether a handler is idle, and its end. *)
Class Nodes (W : Type) := {
  node_ask : list Z → Z → list RedisCmdParaInfo → Z → W → result (option (bool * RedisReplyInfo) * W);
  node_open : list Z → Z → Z → W → result (option Z * W);
  node_do : Z → list RedisCmdParaInfo → Z → RedisReplyInfo → W → result (bool * RedisReplyInfo * W);
  node_idle : Z → W → result (bool * W);
  node_free : Z → W → result (unit * W);
}.

Section cluster.
Context {W : Type} `{!Nodes W} (cfg : config).

Record tables := mkTables {
  m_clusterMap : CLUSTER_MAP; m_slotMap : gmap Z (list Z); m_unusedHandlers : list (list Z * Z); m_signalQueue : bool; world : W;
}.

Abbreviation MT := (M tables).

Definition set_clusterMap (t : tables) x := mkTables x (m_slotMap t) (m_unusedHandlers t) (m_signalQueue t) (world t).
Definition set_slotMap (t : tables) x := mkTables (m_clusterMap t) x (m_unusedHandlers t) (m_signalQueue t) (world t).
Definition set_unused (t : tables) x := mkTables (m_clusterMap t) (m_slotMap t) x (m_signalQueue t) (world t).
Definition set_signal (t : tables) x := mkTables (m_clusterMap t) (m_slotMap t) (m_unusedHandlers t) x (world t).
Definition set_world (t : tables) x := mkTables (m_clusterMap t) (m_slotMap t) (m_unusedHandlers t) (m_signalQueue t) x.

Definition on_world {A} (f : W → result (A * W)) : MT A :=
  t ← get; '(a, w) ← lift (f (world t)); put (set_world t w);; mret a.

(** A command, as [fillCommandPara] makes it when there is memory for it. *)
Definition command (l : list (list Z)) : list RedisCmdParaInfo := (λ v, mkPara (v ++ [0]) (len v)) <$> l.

Definition getRedisClusterInfo (id : list Z) : MT (option RedisClusterInfo) := t ← get; mret (oget id (m_clusterMap t)).
Definition getClusterIdBySlot (slotNum : Z) : MT (option (list Z)) := t ← get; mret (m_slotMap t !! slotNum).

Definition updateClusterCursor (id : list Z) (newcursor : Z) : MT unit :=
  if newcursor <? 0 then mret tt else
  c ← getRedisClusterInfo id;
  match c with
  | Some c => modify (λ t, set_clusterMap t (oset id (set_cursor newcursor c) (m_clusterMap t)))
  | None => mret tt
  end.

(** [for(int i = startSlotNum; i <= stopSlotNum; i++) m_slotMap[i] = clusterId]. *)
Definition fill_range (id : list Z) (m : gmap Z (list Z)) (r : Z * Z) : gmap Z (list Z) :=
  foldl (λ m i, <[i := id]> m) m (seqZ r.1 (r.2 - r.1 + 1)).

Definition fill_slots (id : list Z) (c : RedisClusterInfo) (m : gmap Z (list Z)) : gmap Z (list Z) :=
  if isMaster c then foldl (fill_range id) m (slotMap c) else m.

(** The servers are asked one after the other until one knows the nodes.  A command that fails
    frees [paraList], so the servers behind it are asked nothing. *)
Fixpoint ask_servers (servers : list (list Z * Z)) (paraList : list RedisCmdParaInfo) : MT bool :=
  match servers with
  | [] => mret false
  | (ip, port) :: servers =>
      r ← on_world (node_ask ip port paraList 30);
      match r with
      | None => ask_servers servers paraList
      | Some (false, _) => ask_servers servers []
      | Some (true, r) =>
          if negb (bool_decide (replyType r = REDIS_REPLY_STRING)) then mret false else
          '(ok, clusterMap) ← lift (parseClusterInfo cfg r []);
          if negb ok then mret false else
          modify (λ t, set_clusterMap t clusterMap);; mret true
      end
  end.

Definition getRedisClusterNodes (m_serverList : list (list Z * Z)) : MT bool :=
  ask_servers m_serverList (command [lit "cluster"; lit "nodes"]).

(** [AuthPasswd]: the result is not looked at. *)
Definition auth (h : Z) : MT unit :=
  if bool_decide (m_passwd cfg = []) then mret tt else
  on_world (node_do h (command [lit "auth"; m_passwd cfg]) (s32 (15 + (len (m_passwd cfg) + 20))) RedisReplyInfo_new);; mret tt.

Fixpoint init_clusters (l : CLUSTER_MAP) : MT bool :=
  match l with
  | [] => mret true
  | (id, c) :: l =>
      h ← on_world (node_open (connectIp c) (connectPort c) (connectionNum c));
      match h with
      | None => modify (λ t, set_clusterMap t (oset id (set_handler 0 c) (m_clusterMap t)));; mret false
      | Some h =>
          modify (λ t, set_clusterMap t (oset id (set_handler h c) (m_clusterMap t)));;
          modify (λ t, set_slotMap t (fill_slots id c (m_slotMap t)));;
          auth h;;
          init_clusters l
      end
  end.

Definition initRedisCluster : MT bool := t ← get; init_clusters (m_clusterMap t).

(** [init] in cluster mode; [StartCheckClusterThread] is whether the thread can be made. *)
Definition init_cluster_mode (m_serverList : list (list Z * Z)) (StartCheckClusterThread : bool) : MT bool :=
  ok ← getRedisClusterNodes m_serverList;
  if negb ok then mret false else
  ok ← initRedisCluster;
  if negb ok then mret false else
  mret StartCheckClusterThread.

(** ** Keeping the tables up to date *)

Fixpoint save_clusters (l : CLUSTER_MAP) : MT bool :=
  match l with
  | [] => mret true
  | (id, c) :: l =>
      old ← getRedisClusterInfo id;
      h ← match old with
          | Some o => mret (Some (set_handler (clusterHandler o) (set_options (mkConfig (connectionNum o) (connectTimeout o) (readTimeout o) []) c)))
          | None =>
              let c := set_options (mkConfig (m_connectionNum cfg) (m_connectTimeout cfg) (readTimeout c) []) c in
              h ← on_world (node_open (connectIp c) (connectPort c) (connectionNum c));
              mret ((λ h, set_handler h c) <$> h)
          end;
      match h with
      | None => mret false
      | Some c =>
          modify (λ t, set_clusterMap t (oset id c (m_clusterMap t)));;
          modify (λ t, set_slotMap t (fill_slots id c (m_slotMap t)));;
          save_clusters l
      end
  end.

(** Nodes that are gone: their handlers are kept until they are idle. *)
Definition retire (clusterMap : CLUSTER_MAP) (t : tables) : tables :=
  foldl (λ t p, if bool_decide (is_Some (oget p.1 clusterMap)) then t
                else set_clusterMap (set_unused t (oset p.1 (clusterHandler p.2) (m_unusedHandlers t))) (oerase p.1 (m_clusterMap t)))
        t (m_clusterMap t).

Definition checkAndSaveRedisClusters (clusterMap : CLUSTER_MAP) : MT bool :=
  modify (λ t, set_slotMap t ∅);;
  ok ← save_clusters clusterMap;
  if negb ok then mret false else
  modify (retire clusterMap);; mret true.

(** The idle handlers, and their release. *)
Fixpoint idle_handlers (l : list (list Z * Z)) : MT (list (list Z * Z)) :=
  match l with
  | [] => mret []
  | (id, h) :: l => b ← on_world (node_idle h); r ← idle_handlers l; mret (if (b : bool) then (id, h) :: r else r)
  end.

Fixpoint free_handlers (l : list (list Z * Z)) : MT unit :=
  match l with
  | [] => mret tt
  | (id, h) :: l => on_world (node_free h);; modify (λ t, set_unused t (oerase id (m_unusedHandlers t)));; free_handlers l
  end.

Definition releaseUnusedClusterHandler : MT unit :=
  t ← get; l ← idle_handlers (m_unusedHandlers t); free_handlers l.

(** The known nodes are asked until a master answers; [None]: false is returned. *)
Fixpoint ask_known (l : list (list Z)) : MT (option CLUSTER_MAP) :=
  match l with
  | [] => mret None
  | id :: l =>
      c ← getRedisClusterInfo id;
      match c with
      | None => ask_known l
      | Some c =>
          '(ok, r) ← on_world (node_do (clusterHandler c) (command [lit "cluster"; lit "nodes"]) 30 RedisReplyInfo_new);
          if negb ok then ask_known l else
          if negb (bool_decide (replyType r = REDIS_REPLY_STRING)) then mret None else
          a ← lift (deref (head (arrayList r)));
          v ← lift (deref (arrayValue a));
          if has (lit "myself,slave") (c_str v) then ask_known l else
          '(ok, clusterMap) ← lift (parseClusterInfo cfg r []);
          mret (if (ok : bool) then Some clusterMap else None)
      end
  end.

Definition getRedisClustersByCommand : MT (option CLUSTER_MAP) := t ← get; ask_known (m_clusterMap t).*1.

(** Whether the stand-ins, and the slots, of one are among those of the other. *)
Definition baks_in (c o : RedisClusterInfo) : bool := forallb (λ b, bool_decide (b ∈ bakClusterList o)) (bakClusterList c).
Definition slots_in (c o : RedisClusterInfo) : bool := forallb (λ p, bool_decide (oget p.1 (slotMap o) = Some p.2)) (slotMap c).

Definition unchanged (c o : RedisClusterInfo) : bool :=
  bool_decide (clusterId c = clusterId o) && eqb (isMaster c) (isMaster o) && eqb (isAlived c) (isAlived o) &&
  bool_decide (masterClusterId c = masterClusterId o) && (scanCursor c =? scanCursor o) &&
  baks_in c o && baks_in o c && slots_in c o && slots_in o c.

Definition DoCheckClusterNodes : MT unit :=
  releaseUnusedClusterHandler;;
  r ← getRedisClustersByCommand;
  match r with
  | None => mret tt
  | Some clusterMap =>
      t ← get;
      let old := m_clusterMap t in
      if forallb (λ p, match oget p.1 old with Some o => unchanged p.2 o | None => false end) clusterMap &&
         forallb (λ p, bool_decide (is_Some (oget p.1 clusterMap))) old
      then mret tt else checkAndSaveRedisClusters clusterMap;; mret tt
  end.

(** A round of the thread; it waits while the queue is empty. *)
Definition CheckClusterNodesThreadFunc : MT unit :=
  t ← get;
  if m_signalQueue t then modify (λ t, set_signal t false);; DoCheckClusterNodes else mret tt.

Definition SignalToDoClusterNodes : MT unit := modify (λ t, set_signal t true).

(** ** Commands *)

Definition IsCommandWriteType (c : RedisCommandType) : bool :=
  match c with
  | REDIS_COMMAND_SET | REDIS_COMMAND_DEL | REDIS_COMMAND_EXPIRE | REDIS_COMMAND_ZADD | REDIS_COMMAND_ZREM | REDIS_COMMAND_ZINCRBY
  | REDIS_COMMAND_ZREMRANGEBYSCORE | REDIS_COMMAND_SADD | REDIS_COMMAND_SREM => true
  | _ => false
  end.

Definition freeReplyInfo (r : RedisReplyInfo) : RedisReplyInfo := mkReply (replyType r) (resultString r) (intValue r) [].

(** [needRedirect] and [redirectInfo] after [checkIfNeedRedirect]: a reply MOVED without a space sets the first only. *)
Definition redirection (r : RedisReplyInfo) : option (list Z) :=
  if bool_decide (replyType r = REDIS_REPLY_ERROR) && strncmp_eq 5 (tolower <$> resultString r) (lit "moved")
  then Some (default [] (checkIfNeedRedirect CLUSTER_MODE r)) else None.

(** The switch over the type of the command: [Some b] when it returns [b]. *)
Definition parse_reply {A} `{!DBSerialize A} (r : RedisReplyInfo) (commandType : RedisCommandType) (out : outputs A) : result (option bool * outputs A) :=
  let mode := CLUSTER_MODE in
  match commandType with
  | REDIS_COMMAND_GET =>
      serial ← deref (o_serial out);
      '(ok, serial) ← parseGetSerialReply mode r serial;
      Ok (if (ok : bool) then None else Some false, mkOuts (o_members out) (Some serial) (o_count out))
  | REDIS_COMMAND_SET | REDIS_COMMAND_AUTH => Ok (if parseSetSerialReply mode r then None else Some false, out)
  | REDIS_COMMAND_EXISTS | REDIS_COMMAND_DEL | REDIS_COMMAND_EXPIRE | REDIS_COMMAND_ZADD | REDIS_COMMAND_ZREM =>
      if negb (parseFindReply mode r) then Ok (Some false, out) else
      if is_integer r && (intValue r =? 1) then Ok (Some true, out)
      else if is_integer r && (intValue r =? 0) then Ok (Some false, out)
      else Ok (None, out)
  | REDIS_COMMAND_ZINCRBY =>
      if is_redirect mode r then Ok (None, out) else Ok (Some (bool_decide (replyType r = REDIS_REPLY_STRING)), out)
  | REDIS_COMMAND_ZREMRANGEBYSCORE =>
      if negb (parseFindReply mode r) then Ok (Some false, out) else
      if is_integer r && (0 <? intValue r) then Ok (Some true, out)
      else if is_integer r && (intValue r =? 0) then Ok (Some false, out)
      else Ok (None, out)
  | REDIS_COMMAND_ZCOUNT | REDIS_COMMAND_DBSIZE | REDIS_COMMAND_ZCARD | REDIS_COMMAND_SCARD | REDIS_COMMAND_SADD | REDIS_COMMAND_SREM | REDIS_COMMAND_SISMEMBER =>
      if negb (parseFindReply mode r) then Ok (Some false, out) else
      if is_integer r then Ok (Some true, mkOuts (o_members out) (o_serial out) (match o_count out with Some _ => Some (intValue r) | None => None end))
      else Ok (None, out)
  | REDIS_COMMAND_ZSCORE =>
      if is_redirect mode r then Ok (None, out) else
      n ← parse_score r;
      match n with
      | None => Ok (Some false, out)
      | Some n => Ok (Some true, mkOuts (o_members out) (o_serial out) (match o_count out with Some _ => Some n | None => None end))
      end
  | REDIS_COMMAND_ZRANGEBYSCORE | REDIS_COMMAND_SMEMBERS =>
      if is_redirect mode r then Ok (None, out) else
      '(_, l) ← parseGetKeysReply r (o_members out);
      Ok (None, mkOuts l (o_serial out) (o_count out))
  | _ => Ok (Some true, out)
  end.

(** From the label [REDIS_COMMAND] on.  [bak] is [bakClusterList] and [i] the position of [bakIter] in it. *)
Fixpoint route {A} `{!DBSerialize A} (fuel : nat) (commandLen : Z) (commandList : list RedisCmdParaInfo) (commandType : RedisCommandType)
    (id : list Z) (redirects bak : list (list Z)) (i : nat) (r : RedisReplyInfo) (out : outputs A) : MT (bool * outputs A) :=
  let again := λ (id : list Z) (redirects bak : list (list Z)) (i : nat) (r : RedisReplyInfo) (out : outputs A),
    match fuel with O => fail FFuel | S fuel => route fuel commandLen commandList commandType id redirects bak i r out end in
  c ← getRedisClusterInfo id;
  match c with
  | None => mret (false, out)
  | Some c =>
      '(ok, r) ← on_world (node_do (clusterHandler c) commandList commandLen r);
      if negb ok then
        if IsCommandWriteType commandType then mret (false, out) else
        let '(bak, i) := if bool_decide (bak = []) then (bakClusterList c, 0%nat) else (bak, S i) in
        match bak !! i with
        | Some id => again id redirects bak i (freeReplyInfo r) out
        | None => mret (false, out)
        end
      else
        '(b, out) ← lift (parse_reply r commandType out);
        match b with
        | Some b => mret (b, out)
        | None =>
            match redirection r with
            | None => mret (true, out)
            | Some redirectInfo =>
                SignalToDoClusterNodes;;
                if bool_decide (redirectInfo ∈ redirects) then mret (false, out)
                else again redirectInfo (redirects ++ [redirectInfo]) [] 0%nat (freeReplyInfo r) out
            end
        end
  end.

(** Each redirection is to another known node, and each node has its stand-ins. *)
Definition route_fuel (m : CLUSTER_MAP) : nat :=
  (S (S (length m)) * S (S (foldr Nat.max 0 ((λ p, length (bakClusterList p.2)) <$> m))))%nat.

Definition doRedisCommandCluster {A} `{!DBSerialize A} (key : list Z) (commandLen : Z) (commandList : list RedisCmdParaInfo)
    (commandType : RedisCommandType) (out : outputs A) : MT (bool * outputs A) :=
  id ← getClusterIdBySlot (crc16 key mod REDIS_SLOT_NUM);
  match id with
  | None => mret (false, out)
  | Some id => t ← get; route (route_fuel (m_clusterMap t)) commandLen commandList commandType id [] [] 0 RedisReplyInfo_new out
  end.
End cluster.
End GbCluster.
