(* ===== verification/GbClusterFacts.v ===== *)
(** The redis client in cluster mode: what parsing the reply to CLUSTER NODES gives, and the slot
    table made from it. *)

From stdpp Require Import strings.
From S2P Require Import Prelude GbStream GbResp GbRespProps GbPool GbClient GbCluster.
From stdpp Require Import options.
#[local] Open Scope Z_scope.

Module GbClusterFacts.
Import GbStream GbResp GbRespProps GbClient GbCluster.

(** ** Strings *)

Lemma prefix_take (p s : list Z) : take (length p) (p ++ s) = p.
Proof. by rewrite take_app_length. Qed.

(** A pattern whose first byte does not occur before it. *)
Lemma index_of_hit c q a s : c ∉ a → index_of (c :: q) (a ++ (c :: q) ++ s) = Some (length a).
Proof.
  induction a as [|x a IH]; intros Ha.
  - cbn [index_of app]. by rewrite bool_decide_eq_true_2 by apply (prefix_take (c :: q)).
  - cbn [index_of app]. rewrite bool_decide_eq_false_2 by (intros E; simpl in E; set_solver).
    change (c :: q ++ s) with ((c :: q) ++ s). rewrite IH by set_solver. done.
Qed.

Lemma index_of_miss c q a : c ∉ a → index_of (c :: q) a = None.
Proof.
  induction a as [|x a IH]; intros Ha; cbn [index_of]; rewrite bool_decide_eq_false_2 by (simpl; set_solver); [done|].
  rewrite IH by set_solver. done.
Qed.

Lemma index_of_drop p a b : index_of p (a ++ b) = None → index_of p b = None.
Proof.
  induction a as [|x a IH]; [done|]. cbn [index_of app]. case_bool_decide; [done|]. intros E. apply IH. by destruct (index_of p (a ++ b)).
Qed.

Lemma index_of_le p s i : index_of p s = Some i → (i ≤ length s)%nat.
Proof.
  revert i. induction s as [|x s IH]; intros i; cbn [index_of]; case_bool_decide; intros E; simplify_eq; simpl; try lia.
  destruct (index_of p s) as [j|]; simplify_eq/=. specialize (IH j eq_refl). lia.
Qed.

(** Positions are counted in [Z]; strings are shorter than the address space. *)
Definition short (s : list Z) : Prop := len s < 2 ^ 62.

Lemma len_app a b : len (a ++ b) = len a + len b.
Proof. unfold len. rewrite length_app. lia. Qed.

Lemma len_cons x b : len (x :: b) = 1 + len b.
Proof. unfold len. simpl. lia. Qed.

Lemma len_pos a : 0 ≤ len a.
Proof. unfold len. lia. Qed.

Lemma drop_len a b : drop (Z.to_nat (len a)) (a ++ b) = b.
Proof. unfold len. by rewrite Nat2Z.id, drop_app_length. Qed.

Lemma find_hit s c q pre a b :
  s = pre ++ a ++ (c :: q) ++ b → c ∉ a → str_find (c :: q) s (len pre) = len pre + len a.
Proof.
  intros -> Ha. unfold str_find. pose proof (len_pos a). pose proof (len_pos b).
  rewrite (proj2 (Z.ltb_ge _ _)) by (fold (len (pre ++ a ++ (c :: q) ++ b)); rewrite !len_app; pose proof (len_pos (c :: q)); lia).
  unfold len at 1. rewrite Nat2Z.id, drop_app_length, index_of_hit by done. done.
Qed.

Lemma find_miss s c q pre a : s = pre ++ a → c ∉ a → str_find (c :: q) s (len pre) = npos.
Proof.
  intros -> Ha. unfold str_find. destruct (_ <? _); [done|]. unfold len. by rewrite Nat2Z.id, drop_app_length, index_of_miss.
Qed.

(** What does not occur in a string does not occur behind a position. *)
Lemma find_none s p pre a : s = pre ++ a → short s → has p s = false → str_find p s (len pre) = npos.
Proof.
  intros -> Hs Hh. unfold has, str_find in *. apply negb_false_iff, Z.eqb_eq in Hh. destruct (_ <? len pre); [done|].
  unfold len. rewrite Nat2Z.id, drop_app_length. rewrite (proj2 (Z.ltb_ge _ _)), drop_0 in Hh by lia.
  destruct (index_of p (pre ++ a)) as [i|] eqn:E; [|by rewrite (index_of_drop _ _ _ E)]. exfalso. unfold short, npos in *.
  pose proof (index_of_le _ _ _ E) as Hi. unfold len in Hs. lia.
Qed.

Lemma substr_at s pre a b : s = pre ++ a ++ b → short s → substr s (len pre) (u64 (len pre + len a - len pre)) = Ok a.
Proof.
  intros -> Hs. unfold short in Hs. rewrite !len_app in Hs. pose proof (len_pos a). pose proof (len_pos b). pose proof (len_pos pre).
  replace (len pre + len a - len pre) with (len a) by lia. rewrite wrapu_small by lia. unfold substr.
  rewrite (proj2 (Z.ltb_ge _ _)) by (fold (len (pre ++ a ++ b)); rewrite !len_app; lia).
  unfold len. by rewrite !Nat2Z.id, drop_app_length, take_app_length.
Qed.

(** The text up to the next byte [c]. *)
Lemma next_part pat c s pre f b :
  pat = [c] → s = pre ++ f ++ c :: b → c ∉ f → short s →
  ∃ p, str_find pat s (len pre) = p ∧ (p =? npos) = false ∧ substr s (len pre) (u64 (p - len pre)) = Ok f ∧
    u64 (p + 1) = len (pre ++ f ++ [c]) ∧ s = (pre ++ f ++ [c]) ++ b ∧ p = len pre + len f.
Proof.
  intros -> Es Hf Hs. assert (len pre + len f + 1 + len b < 2 ^ 62) as Hl.
  { unfold short in Hs. rewrite Es, !len_app, len_cons in Hs. lia. }
  pose proof (len_pos pre). pose proof (len_pos f). pose proof (len_pos b). exists (len pre + len f). split_and!.
  - by apply (find_hit s c [] pre f b).
  - apply Z.eqb_neq. unfold npos. lia.
  - by eapply (substr_at s pre f (c :: b)).
  - rewrite wrapu_small by lia. rewrite !len_app, len_cons. change (len []) with 0. lia.
  - rewrite Es, <-!app_assoc. done.
  - done.
Qed.

(** The next field of a line. *)
Lemma next_field s pre f b :
  s = pre ++ f ++ 32 :: b → 32 ∉ f → short s →
  ∃ p, str_find (lit " ") s (len pre) = p ∧ (p =? npos) = false ∧ substr s (len pre) (u64 (p - len pre)) = Ok f ∧
    u64 (p + 1) = len (pre ++ f ++ [32]) ∧ s = (pre ++ f ++ [32]) ++ b ∧ p = len pre + len f.
Proof. by apply next_part. Qed.

Lemma first_field s f b :
  s = f ++ 32 :: b → 32 ∉ f → short s →
  ∃ p, str_find (lit " ") s 0 = p ∧ (p =? npos) = false ∧ substr s 0 p = Ok f ∧ u64 (p + 1) = len (f ++ [32]) ∧ s = (f ++ [32]) ++ b.
Proof.
  intros Es Hf Hs. destruct (next_field s [] f b Es Hf Hs) as (p & E1 & E2 & E3 & E4 & E5 & Ep). exists p. split_and!; try done.
  change (len []) with 0 in *. rewrite Z.sub_0_r, wrapu_small in E3; [done|]. unfold short in Hs. rewrite Es, len_app in Hs.
  pose proof (len_pos f). pose proof (len_pos (32 :: b)). lia.
Qed.

(** A string that is split at a byte; the length passed for the second part is one too large. *)
Lemma split_string pat s c a b :
  pat = [c] → s = a ++ [c] ++ b → c ∉ a → short s →
  ∃ p, str_find pat s 0 = p ∧ (p =? npos) = false ∧ substr s 0 p = Ok a ∧ substr s (u64 (p + 1)) (u64 (len s - p)) = Ok b.
Proof.
  intros -> Es Hc Hs. pose proof (len_pos a). pose proof (len_pos b).
  assert (len s = len a + 1 + len b) as Hl by (rewrite Es, !len_app; change (len [c]) with 1; lia).
  assert (Hs' := Hs). unfold short in Hs'. exists (len a). split_and!.
  - apply (find_hit s c [] [] a b); done.
  - apply Z.eqb_neq. unfold npos. lia.
  - pose proof (substr_at s [] a ([c] ++ b) Es Hs) as E1. change (len []) with 0 in E1.
    rewrite Z.add_0_l, Z.sub_0_r, wrapu_small in E1 by lia. done.
  - unfold substr. rewrite !wrapu_small by lia. rewrite (proj2 (Z.ltb_ge _ _)) by (fold (len s); lia).
    assert (drop (Z.to_nat (len a + 1)) s = b) as ->.
    { replace (len a + 1) with (len (a ++ [c])) by (rewrite len_app; done). rewrite Es, app_assoc. apply drop_len. }
    f_equal. apply take_ge. unfold len in *. lia.
Qed.

(** ** Numbers *)

(** What may stand behind a number. *)
Definition stops (b : list Z) : Prop := match b with [] => True | x :: _ => isdigit x = false end.

Lemma scan_digits_stops acc b : stops b → scan_digits acc b = acc.
Proof. destruct b as [|x b]; simpl; [done|]. by intros ->. Qed.

Lemma ToString_digits n : 0 ≤ n → Forall (λ b, isdigit b = true) (ToString n) ∧ ToString n ≠ [].
Proof.
  intros Hn. unfold ToString. rewrite (proj2 (Z.ltb_ge n 0)) by done. split; [by apply digits_range|].
  destruct (digits_cons 10 n Hn) as (b & l & E & _). by rewrite E.
Qed.

Lemma ToString_free n x : 0 ≤ n → isdigit x = false → x ∉ ToString n.
Proof. intros Hn Hx Hin. destruct (ToString_digits n Hn) as [Hd _]. rewrite Forall_forall in Hd. by rewrite (Hd x Hin) in Hx. Qed.

Lemma atoi_number n b : 0 ≤ n < 2 ^ 31 → stops b → atoi (ToString n ++ b) = Ok n.
Proof.
  intros Hn Hb. destruct (ToString_digits n ltac:(lia)) as [Hd Hne].
  pose proof (atoi_ToString n ltac:(unfold int_ok; lia)) as Ha. unfold atoi in *.
  destruct (ToString n) as [|d l] eqn:E; [done|]. pose proof Hd as [Hx _]%Forall_cons.
  assert (isspace d = false) as Hsp. { unfold isdigit, isspace in *. apply andb_true_iff in Hx as [?%Z.leb_le ?%Z.leb_le]. zbool; lia || done. }
  cbn [app skip_space] in *. rewrite Hsp in *. change (d :: l ++ b) with ((d :: l) ++ b).
  assert (scan_digits 0 ((d :: l) ++ b) = scan_digits 0 (d :: l)) as Es by (rewrite scan_digits_app, scan_digits_stops; done).
  assert (d ≠ 45 ∧ d ≠ 43) as [H1 H2]. { unfold isdigit in Hx. apply andb_true_iff in Hx as [?%Z.leb_le ?%Z.leb_le]. lia. }
  assert (∀ k : list Z, match d :: k with 45 :: s => - scan_digits 0 s | 43 :: s => scan_digits 0 s | _ => scan_digits 0 (d :: k) end = scan_digits 0 (d :: k)) as Hm.
  { intros k. repeat case_match; done || congruence. }
  rewrite Hm in Ha. change ((d :: l) ++ b) with (d :: l ++ b) in *. rewrite Hm, Es. exact Ha.
Qed.

Lemma c_str_number n b : 0 ≤ n → c_str (ToString n ++ b) = ToString n ++ c_str b.
Proof.
  intros Hn. destruct (ToString_digits n Hn) as [Hd _]. induction Hd as [|x l Hx _ IH]; [done|]. simpl.
  destruct (Z.eqb_spec x 0) as [->|]; [done|by rewrite IH].
Qed.

Lemma stops_c_str b : stops b → stops (c_str b).
Proof. destruct b as [|x b]; [done|]. simpl. by destruct (x =? 0). Qed.

Lemma atoi_c_number n b : 0 ≤ n < 2 ^ 31 → stops b → atoi (c_str (ToString n ++ b)) = Ok n.
Proof. intros Hn Hb. rewrite c_str_number by lia. apply atoi_number; [done|by apply stops_c_str]. Qed.

(** ** Ranges of slots *)

(** A range as redis prints it: a slot that stands alone has no dash. *)
Definition alone (r : Z * Z) : bool := r.1 =? r.2.
Definition print_range (r : Z * Z) : list Z := if alone r then ToString r.1 else ToString r.1 ++ [45] ++ ToString r.2.
Definition range_ok (r : Z * Z) : Prop := 0 ≤ r.1 ≤ r.2 ∧ r.2 < REDIS_SLOT_NUM.

(** What is stored for it: without a dash, the start values. *)
Definition stored (r : Z * Z) : Z * Z := if alone r then (65535, 65535) else r.

(** Only the last slot may stand alone: for one before it the code looks for the dash in what follows. *)
Fixpoint alone_last (rs : list (Z * Z)) : bool :=
  match rs with
  | [] | [_] => true
  | r :: rs => negb (alone r) && alone_last rs
  end.

Lemma parse_range r b x y : range_ok r → alone r = false → stops b → short (print_range r ++ b) → parseSlotStr (print_range r ++ b) x y = Ok r.
Proof.
  destruct r as [m n]. intros [H1 H2] Ha Hb. unfold print_range. rewrite Ha. unfold REDIS_SLOT_NUM in *. cbn [fst snd] in *. intros Hs. unfold parseSlotStr.
  destruct (split_string (lit "-") ((ToString m ++ [45] ++ ToString n) ++ b) 45 (ToString m) (ToString n ++ b)) as (p & -> & -> & -> & E);
    [done|by rewrite <-!app_assoc|apply ToString_free; [lia|done]|done|].
  cbn [mbind result_bind]. pose proof (atoi_c_number m [] ltac:(lia) I) as A1. rewrite app_nil_r in A1. rewrite A1. cbn [mbind result_bind].
  rewrite E. cbn [mbind result_bind]. rewrite atoi_c_number by (done || lia). cbn [mbind result_bind]. by rewrite !wrapu_small by lia.
Qed.

Lemma parse_alone r x y : range_ok r → alone r = true → parseSlotStr (print_range r) x y = Ok (x, y).
Proof.
  intros [H1 H2] Ha. unfold print_range, parseSlotStr. rewrite Ha.
  assert (str_find (lit "-") (ToString r.1) 0 = npos) as ->; [|done].
  apply (find_miss _ 45 [] [] (ToString r.1)); [done|]. apply ToString_free; [lia|done].
Qed.

Lemma print_range_free r x : range_ok r → isdigit x = false → x ≠ 45 → x ∉ print_range r.
Proof.
  intros [H1 H2] Hd Hx. unfold print_range. destruct (alone r); [apply ToString_free; [lia|done]|].
  rewrite !elem_of_app, list_elem_of_singleton.
  intros [?|[?|?]]; [by eapply (ToString_free r.1 x); [lia|..]|done|by eapply (ToString_free r.2 x); [lia|..]].
Qed.

Lemma put_range r b m : range_ok r → alone r = false → stops b → short (print_range r ++ b) → put_slot (print_range r ++ b) m = Ok (oset r.1 r.2 m).
Proof. intros. unfold put_slot. rewrite parse_range by done. by destruct r. Qed.

(** The last of the slots. *)
Lemma put_last r m : range_ok r → short (print_range r) → put_slot (print_range r) m = Ok (oset (stored r).1 (stored r).2 m).
Proof.
  intros Hr Hs. unfold stored. destruct (alone r) eqn:Ea.
  - unfold put_slot. by rewrite parse_alone.
  - pose proof (put_range r [] m Hr Ea I) as E. rewrite app_nil_r in E. by apply E.
Qed.

Definition tail_ranges (rs : list (Z * Z)) : list Z := rs ≫= λ r, 32 :: print_range r.

Definition slots_of (m rs : list (Z * Z)) : list (Z * Z) := foldl (λ m r, oset r.1 r.2 m) m rs.

(** The length passed to [substr] is too large, but what it adds stands behind a space. *)
Lemma substr_long s pre f b :
  s = pre ++ f ++ 32 :: b → short s →
  ∃ j, substr s (len pre) (len pre + len f) = Ok (f ++ j) ∧ stops j ∧ short (f ++ j).
Proof.
  intros -> Hs. exists (take (length pre) (32 :: b)). unfold short in *. rewrite !len_app, len_cons in Hs.
  pose proof (len_pos pre). pose proof (len_pos f). pose proof (len_pos b). unfold substr.
  rewrite (proj2 (Z.ltb_ge _ _)) by (fold (len (pre ++ f ++ 32 :: b)); rewrite !len_app, len_cons; lia).
  rewrite drop_len. split_and!; [|by destruct pre|].
  - f_equal. rewrite take_app_ge by (unfold len; lia). do 2 f_equal. unfold len. lia.
  - rewrite len_app. unfold len at 2. rewrite length_take. unfold len in *. simpl. lia.
Qed.

Lemma slot_loop_ok s pre r rs fuel m :
  s = pre ++ print_range r ++ tail_ranges rs → Forall range_ok (r :: rs) → alone_last (r :: rs) = true → short s → (length rs ≤ fuel)%nat →
  slot_loop fuel s (len pre) m = Ok (slots_of m (stored <$> r :: rs)).
Proof.
  revert pre r fuel m. induction rs as [|r' rs IH]; intros pre r fuel m Es [Hr Hrs]%Forall_cons Hal Hs Hf.
  - simpl in Es. rewrite app_nil_r in Es.
    assert (str_find (lit " ") s (len pre) = npos) as E by (eapply (find_miss s 32 [] pre (print_range r)); [done|by apply print_range_free]).
    assert (substr s (len pre) (u64 (len s - len pre)) = Ok (print_range r)) as E1.
    { replace (len s - len pre) with (len pre + len (print_range r) - len pre) by (rewrite Es, len_app; lia).
      eapply (substr_at s pre (print_range r) []); [by rewrite app_nil_r|done]. }
    assert (put_slot (print_range r) m = Ok (oset (stored r).1 (stored r).2 m)) as E2.
    { apply put_last; [done|]. unfold short in *. rewrite Es, len_app in Hs. pose proof (len_pos pre). lia. }
    destruct fuel; cbn [slot_loop]; rewrite E, Z.eqb_refl; cbn [negb]; rewrite E1; cbn [mbind result_bind]; by rewrite E2.
  - assert (alone r = false ∧ alone_last (r' :: rs) = true) as [Ha Hal'] by (cbn [alone_last] in Hal; by apply andb_true_iff in Hal as [?%negb_true_iff ?]).
    cbn [tail_ranges mbind list_bind] in Es. fold (tail_ranges rs) in Es. cbn [app] in Es.
    destruct (next_field s pre (print_range r) (print_range r' ++ tail_ranges rs) Es) as (p & E & Hp & E1 & E2 & Es' & Hpl); [by apply print_range_free|done|].
    destruct fuel as [|fuel]; [simpl in Hf; lia|]. cbn [slot_loop]. rewrite E, Hp. cbn [negb].
    assert (∃ b, substr s (len pre) p = Ok (print_range r ++ b) ∧ stops b ∧ short (print_range r ++ b)) as (b & E3 & Hb & Hsb).
    { rewrite Hpl. by eapply substr_long. }
    rewrite E3. cbn [mbind result_bind]. rewrite put_range by done. cbn [mbind result_bind]. rewrite E2.
    rewrite (IH _ r' fuel (oset r.1 r.2 m) Es' Hrs Hal' Hs) by (simpl in Hf; lia).
    assert (stored r = r) as Er by (unfold stored; by rewrite Ha). rewrite (fmap_cons stored r). by rewrite Er.
Qed.

(** ** Lines *)

(** A node as redis describes it; [n_bus] is what follows the port, as in [@17000], and [n_times]
    are the times of the last ping and pong and the epoch. *)
Record node := mkNode {
  n_id : list Z; n_ip : list Z; n_port : Z; n_bus : list Z; n_flags : list Z; n_master : list Z; n_times : list Z; n_slots : list (Z * Z);
}.

Definition n_address (n : node) : list Z := n_ip n ++ [58] ++ ToString (n_port n).
Definition is_master (n : node) : bool := has (lit "master") (n_flags n).

Definition print_node (n : node) : list Z :=
  n_id n ++ 32 :: (n_address n ++ n_bus n) ++ 32 :: n_flags n ++ 32 :: n_master n ++ 32 :: n_times n ++ 32 :: lit "connected" ++ tail_ranges (n_slots n).

(** A field: no space, line end or zero byte. *)
Definition field (f : list Z) : Prop := Forall (λ b, b ≠ 32 ∧ b ≠ 10 ∧ b ≠ 0) f.

(** A node that redis describes. *)
Record node_ok (n : node) : Prop := {
  no_fields : field (n_id n) ∧ field (n_ip n) ∧ field (n_flags n) ∧ field (n_master n);
  no_ip : 58 ∉ n_ip n;
  no_port : 0 ≤ n_port n < 65536;
  no_bus : field (n_bus n) ∧ stops (n_bus n);
  no_times : Forall (λ b, b ≠ 99 ∧ b ≠ 10 ∧ b ≠ 0) (n_times n);
  no_slots : Forall range_ok (n_slots n);
  no_starts : NoDup (n_slots n).*1;
  no_alone : alone_last (n_slots n) = true;
}.

(** The entry it gets. *)
Definition node_info (n : node) : RedisClusterInfo :=
  mkCluster (n_id n) (n_ip n) (n_port n) 0 0 0 (is_master n) true (if is_master n then [] else n_master n)
    (if is_master n then slots_of [] (stored <$> n_slots n) else []) [] 0 0.

Lemma field_free f x : field f → x = 32 ∨ x = 10 ∨ x = 0 → x ∉ f.
Proof. intros Hf Hx Hin. unfold field in Hf. rewrite Forall_forall in Hf. specialize (Hf x Hin). lia. Qed.

Lemma parse_address_ok n : node_ok n → short (n_address n ++ n_bus n) → parse_address (n_address n ++ n_bus n) = Ok (n_ip n, n_port n).
Proof.
  intros Hn Hs. pose proof (no_port _ Hn) as Hp. unfold parse_address.
  destruct (split_string (lit ":") (n_address n ++ n_bus n) 58 (n_ip n) (ToString (n_port n) ++ n_bus n)) as (p & -> & -> & -> & E);
    [done|unfold n_address; by rewrite <-!app_assoc|apply Hn|done|].
  cbn [mbind result_bind]. rewrite E. cbn [mbind result_bind].
  rewrite atoi_c_number by (lia || apply Hn). cbn [mbind result_bind]. by rewrite wrapu_small by lia.
Qed.

Lemma short_field s pre f b : s = pre ++ f ++ b → short s → short f.
Proof. intros -> Hs. unfold short in *. rewrite !len_app in Hs. pose proof (len_pos pre). pose proof (len_pos b). lia. Qed.

(** Behind the fields of a line: the state of the link and the slots. *)
Lemma find_connected s pre n :
  s = pre ++ n_times n ++ 32 :: lit "connected" ++ tail_ranges (n_slots n) → node_ok n → short s →
  ∃ pre2, u64 (str_find (lit "connected") s (len pre) + 1) = len pre2 ∧ s = pre2 ++ lit "onnected" ++ tail_ranges (n_slots n).
Proof.
  intros Es Hn Hs.
  assert (99 ∉ n_times n ++ [32]) as Hc.
  { intros [Hin|Hin]%elem_of_app; [|set_solver]. pose proof (proj1 (Forall_forall _ _) (no_times _ Hn) _ Hin). simpl in *. lia. }
  pose proof (len_pos pre). pose proof (len_pos (n_times n)). pose proof (len_pos (tail_ranges (n_slots n))).
  assert (str_find (lit "connected") s (len pre) = len pre + len (n_times n ++ [32])) as ->.
  { apply (find_hit s 99 (lit "onnected") pre (n_times n ++ [32]) (tail_ranges (n_slots n))); [|done]. rewrite Es, <-app_assoc. done. }
  assert (len s < 2 ^ 62) as Hs' by done. rewrite Es, !len_app, len_cons, !len_app in Hs'. change (len (lit "connected")) with 9 in Hs'.
  exists (pre ++ (n_times n ++ [32]) ++ [99]). split.
  - rewrite !len_app. change (len [32]) with 1. change (len [99]) with 1. rewrite wrapu_small by lia. lia.
  - rewrite Es, <-!app_assoc. done.
Qed.

Lemma parse_slots s pre n :
  s = pre ++ n_times n ++ 32 :: lit "connected" ++ tail_ranges (n_slots n) → node_ok n → short s → n_slots n ≠ [] →
  let p := str_find (lit " ") s (u64 (str_find (lit "connected") s (len pre) + 1)) in
  (p =? npos) = false ∧ slot_loop (length s) s (u64 (p + 1)) [] = Ok (slots_of [] (stored <$> n_slots n)).
Proof.
  intros Es Hn Hs Hne. cbv zeta. destruct (find_connected s pre n Es Hn Hs) as (pre2 & -> & Es2).
  destruct (n_slots n) as [|r rs] eqn:Er; [done|]. pose proof (no_slots _ Hn) as Hrs. pose proof (no_alone _ Hn) as Hal. rewrite Er in Hrs, Hal.
  destruct (next_field s pre2 (lit "onnected") (print_range r ++ tail_ranges rs)) as (p & -> & Hp & _ & -> & Es' & _);
    [done|by vm_compute; set_solver|done|].
  split; [done|]. apply (slot_loop_ok s _ r rs); [done|done|done|done|]. rewrite Es, !length_app. simpl. rewrite !length_app.
  assert (length rs ≤ length (tail_ranges rs))%nat; [|simpl; lia]. clear. induction rs as [|x rs IH]; [done|].
  unfold tail_ranges in *. cbn [mbind list_bind]. rewrite length_app. simpl. lia.
Qed.

Lemma slotless_end s pre n :
  s = pre ++ n_times n ++ 32 :: lit "connected" ++ tail_ranges (n_slots n) → node_ok n → short s → n_slots n = [] →
  (str_find (lit " ") s (u64 (str_find (lit "connected") s (len pre) + 1)) =? npos) = true.
Proof.
  intros Es Hn Hs Hne. destruct (find_connected s pre n Es Hn Hs) as (pre2 & -> & Es2). rewrite Hne in Es2. simpl in Es2.
  apply Z.eqb_eq. eapply (find_miss s 32 [] pre2); [exact Es2|by vm_compute; set_solver].
Qed.

Lemma parseOneCluster_ok n :
  node_ok n → short (print_node n) → has (lit "disconnected") (print_node n) = false →
  parseOneCluster (print_node n) = Ok (if is_master n && bool_decide (n_slots n = []) then None else Some (node_info n)).
Proof.
  intros Hn Hs Hd. destruct (no_fields _ Hn) as (F1 & F2 & F3 & F4). unfold parseOneCluster.
  remember (print_node n) as s eqn:Es. unfold print_node in Es.
  assert (32 ∉ n_address n ++ n_bus n) as Fa.
  { unfold n_address. pose proof (no_port _ Hn). rewrite !elem_of_app. intros [[?|[?|?]]|?]; [by eapply (field_free (n_ip n)); [|left|]|set_solver| |].
    - by eapply (ToString_free (n_port n) 32); [lia|..].
    - by eapply (field_free (n_bus n)); [apply Hn|left|]. }
  cbv zeta. destruct (first_field s (n_id n) _ Es) as (p1 & -> & -> & -> & -> & E1); [by apply field_free; auto|done|].
  cbn [mbind result_bind].
  destruct (next_field s _ (n_address n ++ n_bus n) _ E1) as (p2 & -> & -> & -> & -> & E2 & _); [done|done|]. cbn [mbind result_bind].
  rewrite parse_address_ok by (done || by eapply (short_field s _ (n_address n ++ n_bus n)); [exact E1|done]). cbn [mbind result_bind].
  destruct (next_field s _ (n_flags n) _ E2) as (p3 & -> & -> & -> & -> & E3 & _); [by apply field_free; auto|done|]. cbn [mbind result_bind].
  fold (is_master n).
  destruct (next_field s _ (n_master n) _ E3) as (p4 & -> & -> & S4 & -> & E4 & _); [by apply field_free; auto|done|].
  rewrite (find_none s (lit "disconnected") _ _ E4 Hs Hd), Z.eqb_refl. unfold node_info. destruct (is_master n) eqn:Em.
  - cbn [mbind result_bind andb]. case_bool_decide as Ern.
    + by rewrite (slotless_end s _ n E4 Hn Hs Ern).
    + by destruct (parse_slots s _ n E4 Hn Hs Ern) as [-> ->].
  - rewrite S4. done.
Qed.

(** A line of the reply: a node that is up, or one that is not used. *)
Inductive descr := Up (n : node) | Down (l : list Z).

Definition print_descr (d : descr) : list Z := match d with Up n => print_node n | Down l => l end.

Definition descr_ok (d : descr) : Prop :=
  match d with
  | Up n => node_ok n ∧ skipped (print_node n) = false
  | Down l => (10 ∉ l) ∧ (0 ∉ l) ∧ l ≠ [13] ∧ skipped l = true
  end.

(** A master that has a slot that stands alone. *)
Definition has_alone (d : descr) : bool :=
  match d with Up n => is_master n && existsb alone (n_slots n) | Down _ => false end.

(** A master that has no slots yet. *)
Definition slotless (d : descr) : bool :=
  match d with Up n => is_master n && bool_decide (n_slots n = []) | Down _ => false end.

Definition print_descrs (ds : list descr) : list Z := ds ≫= λ d, print_descr d ++ [10].
Definition ups (ds : list descr) : list node := omap (λ d, match d with Up n => Some n | Down _ => None end) ds.

Lemma print_node_free n x : node_ok n → x = 10 ∨ x = 0 → x ∉ print_node n.
Proof.
  intros Hn Hx. destruct (no_fields _ Hn) as (F1 & F2 & F3 & F4). pose proof (no_port _ Hn).
  assert (isdigit x = false ∧ x ≠ 32 ∧ x ≠ 45 ∧ x ≠ 58 ∧ (x ∉ lit "connected")) as (Hd & H1 & H2 & H3 & H4).
  { destruct Hx as [->| ->]; (split_and!; [done|done|done|done|vm_compute; set_solver]). }
  assert (x ∉ n_address n ++ n_bus n) as Ha.
  { unfold n_address. rewrite !elem_of_app, list_elem_of_singleton. intros [[?|[?|?]]|?]; [by eapply (field_free (n_ip n) x); [|right|]|done| |].
    - by eapply (ToString_free (n_port n) x); [lia|..].
    - by eapply (field_free (n_bus n) x); [apply Hn|right|]. }
  assert (x ∉ n_times n) as Ht.
  { intros Hin. pose proof (proj1 (Forall_forall _ _) (no_times _ Hn) _ Hin). simpl in *. lia. }
  assert (x ∉ tail_ranges (n_slots n)) as Hr.
  { unfold tail_ranges. intros (r & Hin & Hr)%list_elem_of_bind. apply elem_of_cons in Hin as [->|Hin]; [done|].
    eapply print_range_free; [|done|done|exact Hin]. by eapply (proj1 (Forall_forall _ _) (no_slots _ Hn)). }
  pose proof (field_free _ x F1 ltac:(tauto)). pose proof (field_free _ x F3 ltac:(tauto)). pose proof (field_free _ x F4 ltac:(tauto)).
  rewrite elem_of_app in Ha. unfold print_node. repeat rewrite elem_of_app || rewrite elem_of_cons. tauto.
Qed.

Lemma descr_free d x : descr_ok d → x = 10 ∨ x = 0 → x ∉ print_descr d.
Proof. destruct d as [n|l]; simpl; [intros [Hn _]; by apply print_node_free|]. intros (H1 & H2 & _) [->| ->]; done. Qed.

(** The entries of the nodes, and the masters of the stand-ins. *)
Definition standin (n : node) : bool := negb (is_master n) && negb (bool_decide (n_master n = [])).
Definition nodes_map (cfg : config) (m : CLUSTER_MAP) (ns : list node) : CLUSTER_MAP :=
  foldl (λ m n, oset (n_address n) (set_options cfg (node_info n)) m) m ns.
Definition baks_map (m : list (list Z * list Z)) (ns : list node) : list (list Z * list Z) :=
  foldl (λ m n, if standin n then oset (n_address n) (n_master n) m else m) m ns.

Lemma address_of_info n : node_ok n → address_of (node_info n) = n_address n.
Proof.
  intros Hn. pose proof (no_port _ Hn). unfold address_of, n_address, toStr. simpl. by rewrite (proj2 (Z.eqb_neq _ _)) by lia.
Qed.

Lemma line_loop_ok cfg s ds pre fuel m b :
  s = pre ++ print_descrs ds → Forall descr_ok ds → short s → (length ds ≤ fuel)%nat →
  line_loop fuel cfg s (len pre) m b =
    Ok (if existsb slotless ds then None else Some (nodes_map cfg m (ups ds), baks_map b (ups ds))).
Proof.
  revert pre fuel m b. induction ds as [|d ds IH]; intros pre fuel m b Es Hd Hs Hf.
  - assert (str_find [10] s (len pre) = npos) as E by (apply (find_miss s 10 [] pre []); [done|set_solver]).
    destruct fuel; cbn [line_loop]; rewrite E; done.
  - apply Forall_cons in Hd as [Hd Hds]. destruct fuel as [|fuel]; [simpl in Hf; lia|].
    cbn [print_descrs mbind list_bind] in Es. fold (print_descrs ds) in Es. rewrite <-app_assoc in Es.
    destruct (next_part [10] 10 s pre (print_descr d) (print_descrs ds) eq_refl Es) as (p & E & Hp & E1 & E2 & Es' & _);
      [apply descr_free; auto|done|].
    cbn [line_loop]. rewrite E, Hp, E1. cbn [mbind result_bind]. rewrite E2.
    destruct d as [n|l]; simpl in Hd; cbn [print_descr ups omap list_omap] in *.
    + destruct Hd as [Hn Hsk]. rewrite bool_decide_eq_false_2, Hsk.
      2: { intros E3. assert (32 ∈ print_node n) as Hin by (unfold print_node; set_solver). rewrite E3 in Hin. set_solver. }
      assert (short (print_node n)) as Hsn by (eapply (short_field s pre _ (10 :: _)); [exact Es|done]).
      unfold skipped in Hsk. rewrite !orb_false_iff in Hsk. destruct Hsk as [_ Hdis].
      rewrite parseOneCluster_ok by done. cbn [mbind result_bind existsb slotless].
      destruct (is_master n && bool_decide (n_slots n = [])); [done|]. rewrite address_of_info by done. cbn [orb].
      rewrite IH by (first [done|simpl in Hf; lia]). unfold nodes_map, baks_map. cbn [foldl]. unfold standin.
      simpl. destruct (is_master n); done.
    + destruct Hd as (_ & _ & Hne & Hsk). rewrite bool_decide_eq_false_2, Hsk by done. apply IH; [done|done|done|simpl in Hf; lia].
Qed.

(** ** Maps *)

Section maps.
Context {K V : Type} `{!EqDecision K, !OrdKey K}.
Implicit Types (k : K) (v : V) (m : list (K * V)).

Lemma oset_new k v m : k ∉ m.*1 → oset k v m ≡ₚ (k, v) :: m.
Proof.
  induction m as [|[k' v'] m IH]; [done|]. intros Hk. simpl in Hk. simpl. rewrite decide_False by set_solver.
  destruct (klt k k'); [done|]. rewrite IH by set_solver. apply Permutation_swap.
Qed.

Lemma oget_oset k k' v m : oget k (oset k' v m) = if decide (k = k') then Some v else oget k m.
Proof.
  induction m as [|[a b] m IH]; simpl; [done|]. destruct (decide (k' = a)) as [->|Hne]; simpl; [by destruct (decide (k = a))|].
  destruct (klt k' a); simpl; [by destruct (decide (k = k'))|]. destruct (decide (k = a)) as [->|]; [by rewrite decide_False by done|done].
Qed.

Lemma oget_in k v m : oget k m = Some v → (k, v) ∈ m.
Proof. induction m as [|[a b] m IH]; simpl; [done|]. destruct (decide (k = a)) as [->|]; [intros [= ->]; set_solver|set_solver]. Qed.

Lemma oget_some k v m : NoDup m.*1 → (k, v) ∈ m → oget k m = Some v.
Proof.
  induction m as [|[a b] m IH]; [set_solver|]. simpl. intros [Ha Hm]%NoDup_cons [E|Hin]%elem_of_cons.
  - injection E as -> ->. by rewrite decide_True.
  - rewrite decide_False; [auto|]. intros ->. apply Ha. apply list_elem_of_fmap. by exists (a, v).
Qed.

Lemma oget_key k m : is_Some (oget k m) ↔ k ∈ m.*1.
Proof. induction m as [|[a b] m IH]; simpl; [split; [by intros []|set_solver]|]. destruct (decide (k = a)) as [->|]; [split; [set_solver|eauto]|set_solver]. Qed.
End maps.

(** Insertions of different keys. *)
Lemma osets_new {K V A} `{!EqDecision K, !OrdKey K} (f : A → K) (g : A → V) (l : list A) (m : list (K * V)) :
  NoDup ((f <$> l) ++ m.*1) → foldl (λ m x, oset (f x) (g x) m) m l ≡ₚ ((λ x, (f x, g x)) <$> l) ++ m.
Proof.
  revert m. induction l as [|x l IH]; intros m; [done|]. simpl. intros [Hx Hnd]%NoDup_cons.
  pose proof (oset_new (f x) (g x) m ltac:(set_solver)) as Hp.
  assert ((oset (f x) (g x) m).*1 ≡ₚ f x :: m.*1) as Hk by (by rewrite Hp).
  rewrite IH; [rewrite Hp; by rewrite <-Permutation_middle|]. rewrite Hk, <-Permutation_middle. by constructor.
Qed.

Lemma slots_of_perm rs : NoDup rs.*1 → slots_of [] rs ≡ₚ rs.
Proof.
  intros Hnd. unfold slots_of. etrans; [apply (osets_new fst snd); by rewrite app_nil_r|]. rewrite app_nil_r.
  clear. induction rs as [|[a b] rs IH]; simpl; [done|by rewrite IH].
Qed.

Lemma stored_all rs : existsb alone rs = false → stored <$> rs = rs.
Proof.
  induction rs as [|r rs IH]; [done|]. cbn [existsb]. intros [Ha Hrs]%orb_false_iff. rewrite fmap_cons, IH by done. unfold stored. by rewrite Ha.
Qed.

Lemma stored_NoDup rs : Forall range_ok rs → alone_last rs = true → NoDup rs.*1 → NoDup (stored <$> rs).*1.
Proof.
  induction rs as [|r rs IH]; [done|]. intros [Hr Hrs]%Forall_cons Hal [Hin Hnd]%NoDup_cons.
  destruct rs as [|r' rs]; [apply NoDup_singleton|]. cbn [alone_last] in Hal. apply andb_true_iff in Hal as [Ha%negb_true_iff Hal].
  rewrite fmap_cons, fmap_cons. constructor; [|by apply IH]. unfold stored at 1. rewrite Ha.
  intros (y & Ey & (x & -> & Hx)%list_elem_of_fmap)%list_elem_of_fmap. unfold stored in Ey. destruct (alone x).
  - destruct Hr as [? ?]. unfold REDIS_SLOT_NUM in *. simpl in Ey. lia.
  - apply Hin. rewrite Ey. apply (list_elem_of_fmap_2 fst _ _ Hx).
Qed.

Lemma nodes_map_perm cfg ns :
  NoDup (n_address <$> ns) → nodes_map cfg [] ns ≡ₚ (λ n, (n_address n, set_options cfg (node_info n))) <$> ns.
Proof. intros Hnd. unfold nodes_map. rewrite (osets_new n_address (λ n, set_options cfg (node_info n))); by rewrite app_nil_r. Qed.

Lemma NoDup_fmap_filter {A B} (f : A → B) (P : A → Prop) `{!∀ x, Decision (P x)} l : NoDup (f <$> l) → NoDup (f <$> filter P l).
Proof.
  induction l as [|x l IH]; [done|]. cbn [fmap list_fmap]. intros [Hx Hl]%NoDup_cons. rewrite filter_cons. case_decide; [|auto].
  cbn [fmap list_fmap]. constructor; [|auto]. intros (y & Ey & [_ Hy]%list_elem_of_filter)%list_elem_of_fmap. apply Hx. rewrite Ey.
  by apply list_elem_of_fmap_2.
Qed.

Lemma baks_map_perm ns :
  NoDup (n_address <$> ns) → baks_map [] ns ≡ₚ (λ n, (n_address n, n_master n)) <$> filter (λ n, standin n = true) ns.
Proof.
  intros Hnd. assert (∀ m, baks_map m ns = foldl (λ m n, oset (n_address n) (n_master n) m) m (filter (λ n, standin n = true) ns)) as ->.
  { clear. induction ns as [|n ns IH]; intros m; [done|]. unfold baks_map in *. cbn [foldl]. rewrite IH. rewrite filter_cons.
    destruct (standin n); by repeat case_decide. }
  rewrite (osets_new n_address n_master); rewrite app_nil_r; [done|].
  by apply NoDup_fmap_filter.
Qed.

(** The stand-ins of an entry. *)
Definition with_baks (bm : list (list Z * list Z)) (c : RedisClusterInfo) : RedisClusterInfo :=
  foldl (λ c b, if bool_decide (clusterId c = b.2) then push_bak b.1 c else c) c bm.

Lemma add_baks m bm : foldl add_bak m bm = (λ p, (p.1, with_baks bm p.2)) <$> m.
Proof.
  revert m. induction bm as [|b bm IH]; intros m; simpl.
  - induction m as [|[a c] m IH]; simpl; [done|by f_equal].
  - rewrite IH. unfold add_bak. rewrite <-list_fmap_compose. apply list_fmap_ext. done.
Qed.

Lemma with_baks_eq bm c :
  with_baks bm c = mkCluster (clusterId c) (connectIp c) (connectPort c) (connectionNum c) (connectTimeout c) (readTimeout c) (isMaster c)
    (isAlived c) (masterClusterId c) (slotMap c) (bakClusterList c ++ (filter (λ b, b.2 = clusterId c) bm).*1) (clusterHandler c) (scanCursor c).
Proof.
  revert c. induction bm as [|b bm IH]; intros c; simpl.
  - rewrite app_nil_r. by destruct c.
  - rewrite IH. rewrite filter_cons. case_bool_decide as E; simpl.
    + rewrite decide_True by done. simpl. by rewrite <-app_assoc.
    + by rewrite decide_False by congruence.
Qed.
End GbClusterFacts.
