(* ===== verification/GbClusterProps.v ===== *)
(** The redis client in cluster mode: theorems. *)

From stdpp Require Import strings.
From S2P Require Import Prelude GbStream GbResp GbRespProps GbPool GbClient GbCluster GbClusterFacts.
From stdpp Require Import options.
#[local] Open Scope Z_scope.

Module GbClusterProps.
Import GbStream GbResp GbRespProps GbClient GbCluster GbClusterFacts.

(** ** The checksum *)

(** CRC-16 with the polynomial x^16 + x^12 + x^5 + 1, one bit at a time. *)
Definition crc_bit (c : Z) : Z :=
  if Z.testbit c 15 then Z.lxor (u16 (2 * c)) 0x1021 else u16 (2 * c).

Definition crc_byte (c b : Z) : Z := Nat.iter 8 crc_bit (Z.lxor c (Z.shiftl b 8)).

Definition crc_reference (buf : list Z) : Z := foldl crc_byte 0 buf.

(** The step as a function of the sixteen bits that the byte is mixed into. *)
Definition table_step (x : Z) : Z := Z.lxor (Z.shiftl (Z.land x 255) 8) (default 0 (crc16tab !! Z.to_nat (Z.shiftr x 8))).

(** Shifting out a bit is linear, so the two bytes can be taken one at a time. *)
Lemma crc_bit_lxor a b : crc_bit (Z.lxor a b) = Z.lxor (crc_bit a) (crc_bit b).
Proof.
  assert (u16 (2 * Z.lxor a b) = Z.lxor (u16 (2 * a)) (u16 (2 * b))) as E.
  { unfold wrapu. rewrite <-!Z.land_ones by lia. apply Z.bits_inj'. intros i Hi.
    rewrite Z.lxor_spec, !Z.land_spec. destruct (Z.eq_dec i 0) as [->|]; [by rewrite !Z.testbit_even_0|].
    replace i with (Z.succ (i - 1)) by lia. rewrite !Z.testbit_even_succ, Z.lxor_spec by lia.
    by destruct (Z.testbit a _), (Z.testbit b _), (Z.testbit (Z.ones 16) _). }
  unfold crc_bit. rewrite Z.lxor_spec, E. set (x := u16 (2 * a)). set (y := u16 (2 * b)). set (p := 0x1021). clearbody x y p.
  apply Z.bits_inj'. intros i Hi. destruct (Z.testbit a 15), (Z.testbit b 15); simpl; rewrite !Z.lxor_spec; destruct (Z.testbit x i), (Z.testbit y i), (Z.testbit p i); done.
Qed.

Lemma crc_bits_lxor n a b : Nat.iter n crc_bit (Z.lxor a b) = Z.lxor (Nat.iter n crc_bit a) (Nat.iter n crc_bit b).
Proof. induction n as [|n IH]; [done|]. simpl. by rewrite IH, crc_bit_lxor. Qed.

Lemma low_bytes : forallb (λ l, Nat.iter 8 crc_bit l =? Z.shiftl l 8) (seqZ 0 256) = true.
Proof. vm_compute. reflexivity. Qed.

Lemma high_bytes : forallb (λ h, Nat.iter 8 crc_bit (Z.shiftl h 8) =? default 0 (crc16tab !! Z.to_nat h)) (seqZ 0 256) = true.
Proof. vm_compute. reflexivity. Qed.

Lemma forallb_seqZ f n x : forallb f (seqZ 0 n) = true → 0 ≤ x < n → f x = true.
Proof. intros H Hx. apply (proj1 (forallb_forall _ _) H). apply list_elem_of_In, elem_of_seqZ. lia. Qed.

Lemma table_step_bits x : 0 ≤ x < 65536 → Nat.iter 8 crc_bit x = table_step x.
Proof.
  intros Hx. assert (x = Z.lxor (Z.land x 255) (Z.shiftl (Z.shiftr x 8) 8)) as E.
  { apply Z.bits_inj'. intros i Hi. rewrite Z.lxor_spec, Z.land_spec. change 255 with (Z.ones 8). rewrite Z.shiftl_spec by done.
    destruct (Z_lt_le_dec i 8).
    - rewrite Z.ones_spec_low, (Z.testbit_neg_r _ (i - 8)) by lia. by destruct (Z.testbit x i).
    - rewrite Z.ones_spec_high, Z.shiftr_spec by lia. replace (i - 8 + 8) with i by lia. by destruct (Z.testbit x i). }
  rewrite E at 1. rewrite crc_bits_lxor. unfold table_step. change 255 with (Z.ones 8). rewrite Z.land_ones by lia.
  f_equal; apply Z.eqb_eq.
  - apply (forallb_seqZ _ 256 (x mod 2 ^ 8) low_bytes). by apply Z.mod_pos_bound.
  - apply (forallb_seqZ _ 256 (Z.shiftr x 8) high_bytes). rewrite Z.shiftr_div_pow2 by lia. change (2 ^ 8) with 256. split; [apply Z.div_pos; lia|].
    apply Z.div_lt_upper_bound; lia.
Qed.

Lemma crc16tab_range : forallb (λ t, (0 <=? t) && (t <? 65536)) crc16tab = true.
Proof. vm_compute. reflexivity. Qed.

Lemma crc16tab_u16 i : u16 (default 0 (crc16tab !! i)) = default 0 (crc16tab !! i).
Proof.
  destruct (crc16tab !! i) as [t|] eqn:E; [|done]. simpl. apply list_elem_of_lookup_2, list_elem_of_In in E.
  pose proof (proj1 (forallb_forall _ _) crc16tab_range t E) as [?%Z.leb_le ?%Z.ltb_lt]%andb_true_iff. by rewrite wrapu_small by lia.
Qed.

Lemma low16_bits a : 0 ≤ a → (∀ i, 16 ≤ i → Z.testbit a i = false) → a < 65536.
Proof.
  intros Ha Hb. destruct (Z.eq_dec a 0) as [->|Hne]; [done|]. change 65536 with (2 ^ 16). apply Z.log2_lt_pow2; [lia|].
  destruct (Z_lt_le_dec (Z.log2 a) 16) as [|Hl]; [done|]. specialize (Hb _ Hl). rewrite Z.bit_log2 in Hb by lia. done.
Qed.

Lemma testbit_high a w i : 0 ≤ a < 2 ^ w → w ≤ i → Z.testbit a i = false.
Proof.
  intros [Ha Hw] Hi. destruct (Z.eq_dec a 0) as [->|Hne]; [apply Z.bits_0|]. apply Z.bits_above_log2; [done|].
  pose proof (proj1 (Z.log2_lt_pow2 a w ltac:(lia)) Hw). lia.
Qed.

Lemma mixed_range c b : 0 ≤ c < 65536 → 0 ≤ b < 256 → 0 ≤ Z.lxor c (Z.shiftl b 8) < 65536.
Proof.
  intros Hc Hb. assert (0 ≤ Z.lxor c (Z.shiftl b 8)) by (apply Z.lxor_nonneg; rewrite Z.shiftl_nonneg; lia).
  split; [done|]. apply low16_bits; [done|]. intros i Hi. rewrite Z.lxor_spec, Z.shiftl_spec by lia.
  rewrite (testbit_high c 16), (testbit_high b 8) by lia. done.
Qed.

Lemma crc16_step_mixed c b : 0 ≤ c < 65536 → 0 ≤ b < 256 → crc16_step c b = table_step (Z.lxor c (Z.shiftl b 8)).
Proof.
  intros Hc Hb. unfold crc16_step, table_step.
  assert (Z.shiftr (Z.lxor c (Z.shiftl b 8)) 8 = Z.land (Z.lxor (Z.shiftr c 8) b) 255) as ->.
  { apply Z.bits_inj'. intros i Hi. change 255 with (Z.ones 8). rewrite Z.land_spec, Z.lxor_spec, !Z.shiftr_spec, Z.lxor_spec, Z.shiftl_spec by lia.
    replace (i + 8 - 8) with i by lia. destruct (Z_lt_le_dec i 8); [rewrite Z.ones_spec_low by lia; by rewrite andb_true_r|].
    rewrite Z.ones_spec_high, (testbit_high c 16), (testbit_high b 8) by lia. done. }
  set (T := default 0 _). pose proof (crc16tab_u16 (Z.to_nat (Z.land (Z.lxor (Z.shiftr c 8) b) 255))) as ET. fold T in ET.
  unfold wrapu in *. rewrite <-!Z.land_ones in * by lia. apply Z.bits_inj'. intros i Hi.
  rewrite Z.land_spec, !Z.lxor_spec. rewrite <-ET, Z.land_spec. change 255 with (Z.ones 8).
  rewrite !Z.shiftl_spec by done. destruct (Z_lt_le_dec i 8) as [|H8].
  { rewrite !(Z.testbit_neg_r _ (i - 8)) by lia. by destruct (Z.testbit T i), (Z.testbit (Z.ones 16) i). }
  rewrite Z.land_spec, Z.lxor_spec, Z.shiftl_spec by lia.
  destruct (Z_lt_le_dec i 16) as [H16|H16].
  - rewrite !Z.ones_spec_low by lia. rewrite (Z.testbit_neg_r b) by lia. rewrite !andb_true_r, xorb_false_r. done.
  - rewrite !Z.ones_spec_high by lia. by rewrite !andb_false_r.
Qed.

(** C16. The table-driven checksum computes, for every string of bytes, the CRC-16 of the
    polynomial x^16 + x^12 + x^5 + 1 that redis cluster assigns slots by, and its remainder is a slot. *)
Theorem crc16_reference buf :
  Forall (λ b, 0 ≤ b < 256) buf → crc16 buf = crc_reference buf ∧ 0 ≤ crc16 buf mod REDIS_SLOT_NUM < REDIS_SLOT_NUM.
Proof.
  intros Hb. split; [|by apply Z.mod_pos_bound]. unfold crc16, crc_reference.
  assert (∀ c, 0 ≤ c < 65536 → foldl crc16_step c buf = foldl crc_byte c buf) as H; [|by apply H].
  induction Hb as [|b buf Hb _ IH]; intros c Hc; [done|]. simpl.
  assert (crc16_step c b = crc_byte c b) as E.
  { unfold crc_byte. by rewrite table_step_bits, crc16_step_mixed by (done || by apply mixed_range). }
  rewrite <-E. apply IH. unfold crc16_step. apply (wrapu_range 16). done.
Qed.

Lemma crc16_reference_witness :
  crc16 (lit "123456789") = 0x31C3 ∧ crc16 (lit "123456789") = crc_reference (lit "123456789").
Proof.
  split; [vm_compute; reflexivity|]. apply crc16_reference. apply (bool_decide_unpack _). vm_compute. exact I.
Defined.

(** ** The reply to CLUSTER NODES *)

Definition nodes_reply (text : list Z) : RedisReplyInfo :=
  mkReply REDIS_REPLY_STRING [] 0 [mkInfo REDIS_REPLY_STRING (Some text) (len text)].

(** The nodes of a reply: lines that can be told apart. *)
Record cluster_ok (ds : list descr) : Prop := {
  co_lines : Forall descr_ok ds;
  co_some : ds ≠ [];
  co_short : short (print_descrs ds);
  co_apart : NoDup (n_address <$> ups ds);
}.

(** The entry [c] is that of the node [n] of the cluster [ns]. *)
Record entry_of (cfg : config) (ns : list node) (n : node) (c : RedisClusterInfo) : Prop := {
  en_id : clusterId c = n_id n;
  en_ip : connectIp c = n_ip n;
  en_port : connectPort c = n_port n;
  en_num : connectionNum c = m_connectionNum cfg;
  en_master : isMaster c = is_master n;
  en_alive : isAlived c = true;
  en_masterId : masterClusterId c = if is_master n then [] else n_master n;
  en_slots : slotMap c ≡ₚ if is_master n then stored <$> n_slots n else [];
  en_baks : bakClusterList c ≡ₚ n_address <$> filter (λ b, standin b = true ∧ n_master b = n_id n) ns;
  en_handler : clusterHandler c = 0;
}.

Lemma c_str_text l : 0 ∉ l → c_str l = l.
Proof.
  induction l as [|x l IH]; [done|]. intros Hx. simpl. destruct (Z.eqb_spec x 0) as [->|]; [set_solver|]. rewrite IH by set_solver. done.
Qed.

Lemma descrs_free ds : Forall descr_ok ds → 0 ∉ print_descrs ds.
Proof.
  intros Hd (d & Hin & Hd')%list_elem_of_bind. rewrite Forall_forall in Hd. specialize (Hd d Hd').
  apply elem_of_app in Hin as [Hin|Hin]; [by eapply descr_free; [| |exact Hin]; auto|set_solver].
Qed.

Lemma descrs_length ds : (length ds ≤ length (print_descrs ds))%nat.
Proof. induction ds as [|d ds IH]; [done|]. unfold print_descrs in *. cbn [mbind list_bind]. rewrite !length_app. simpl. lia. Qed.

Lemma ups_in n ds : n ∈ ups ds ↔ Up n ∈ ds.
Proof.
  unfold ups. rewrite list_elem_of_omap. split; [intros ([m|] & Hin & E); by simplify_eq|]. intros Hin. by exists (Up n).
Qed.

Lemma ups_node_ok n ds : Forall descr_ok ds → n ∈ ups ds → node_ok n.
Proof. intros Hd Hn%ups_in. rewrite Forall_forall in Hd. apply (Hd _ Hn). Qed.

(** The whole reply, with or without a master that has no slots. *)
Lemma parse_nodes cfg ds : cluster_ok ds →
  parseClusterInfo cfg (nodes_reply (print_descrs ds)) [] =
    Ok (if existsb slotless ds then (false, [])
        else (true, (λ p, (p.1, with_baks (baks_map [] (ups ds)) p.2)) <$> nodes_map cfg [] (ups ds))).
Proof.
  intros [Hd Hne Hs _]. unfold parseClusterInfo, nodes_reply. simpl. rewrite c_str_text by (by apply descrs_free).
  pose proof (descrs_length ds) as Hl. assert (length ds ≠ 0%nat) by (by destruct ds).
  rewrite (proj2 (Z.eqb_neq _ _)) by (unfold len; lia). simpl.
  pose proof (line_loop_ok cfg (print_descrs ds) ds [] (length (print_descrs ds)) [] [] eq_refl Hd Hs Hl) as E. change (len []) with 0 in E.
  rewrite E. simpl. destruct (existsb slotless ds); [done|]. by rewrite add_baks.
Qed.

Lemma entry_ok cfg ds n : cluster_ok ds → n ∈ ups ds →
  entry_of cfg (ups ds) n (with_baks (baks_map [] (ups ds)) (set_options cfg (node_info n))).
Proof.
  intros Hok Hn. pose proof (ups_node_ok n ds (co_lines _ Hok) Hn) as Hno. rewrite with_baks_eq. split; try done.
  - simpl. destruct (is_master n); [|done]. apply slots_of_perm, stored_NoDup; apply Hno.
  - simpl. rewrite (baks_map_perm _ (co_apart _ Hok)). clear. induction (ups ds) as [|b ns IH]; [done|]. rewrite !filter_cons.
    destruct (decide (standin b = true)) as [E|E].
    + cbn [fmap list_fmap]. rewrite filter_cons. cbn [snd]. destruct (decide (n_master b = n_id n)).
      * rewrite decide_True by done. cbn [fmap list_fmap fst]. by rewrite IH.
      * rewrite decide_False by tauto. exact IH.
    + rewrite decide_False by tauto. exact IH.
Qed.

(** What is known of the nodes of a reply. *)
Definition knows (cfg : config) (ds : list descr) (m : CLUSTER_MAP) : Prop :=
  m.*1 ≡ₚ n_address <$> ups ds ∧ ∀ n, n ∈ ups ds → ∃ c, oget (n_address n) m = Some c ∧ entry_of cfg (ups ds) n c.

Lemma parse_nodes_knows cfg ds : cluster_ok ds → existsb slotless ds = false →
  ∃ m, parseClusterInfo cfg (nodes_reply (print_descrs ds)) [] = Ok (true, m) ∧ knows cfg ds m.
Proof.
  intros Hok Hsl. rewrite (parse_nodes cfg ds Hok), Hsl. eexists. split; [done|].
  pose proof (nodes_map_perm cfg (ups ds) (co_apart _ Hok)) as Hp. unfold knows. rewrite Hp. rewrite <-!list_fmap_compose. split; [done|].
  intros n Hn. exists (with_baks (baks_map [] (ups ds)) (set_options cfg (node_info n))). split; [|by apply entry_ok].
  apply oget_some.
  - rewrite Hp, <-!list_fmap_compose. apply (co_apart _ Hok).
  - rewrite Hp. apply list_elem_of_fmap. exists (n_address n, set_options cfg (node_info n)). split; [done|].
    apply list_elem_of_fmap. by exists n.
Qed.

(** C22. The reply to CLUSTER NODES, for masters whose slots are ranges, except perhaps the last
    of each, and none of which is moving. It is read back as it was written: the nodes that are
    up, by their addresses, each with its identity, its role, its slots when it is a master and
    the addresses of its stand-ins; but a slot that stands alone is stored as 65535, and one
    master without slots makes the client refuse the whole reply. *)
Theorem cluster_nodes_roundtrip cfg ds :
  cluster_ok ds →
  if existsb slotless ds then parseClusterInfo cfg (nodes_reply (print_descrs ds)) [] = Ok (false, []) else
  ∃ m, parseClusterInfo cfg (nodes_reply (print_descrs ds)) [] = Ok (true, m) ∧
    m.*1 ≡ₚ n_address <$> ups ds ∧
    ∀ n, n ∈ ups ds → ∃ c, oget (n_address n) m = Some c ∧ entry_of cfg (ups ds) n c.
Proof.
  intros Hok. destruct (existsb slotless ds) eqn:Hsl; [|by apply parse_nodes_knows]. by rewrite (parse_nodes cfg ds Hok), Hsl.
Qed.

(** Two masters, a stand-in of the first, and a node that has failed. *)
Definition demo_a : node := mkNode (lit "id-a") (lit "10.0.0.1") 7000 (lit "@17000") (lit "myself,master") (lit "-") (lit "0 0 1") [(0, 99); (8192, 16383)].
Definition demo_b : node := mkNode (lit "id-b") (lit "10.0.0.2") 7000 [] (lit "master") (lit "-") (lit "0 15 2") [(100, 8191)].
Definition demo_c : node := mkNode (lit "id-c") (lit "10.0.0.3") 7001 [] (lit "slave") (lit "id-a") (lit "0 15 1") [].
Definition demo : list descr := [Up demo_a; Up demo_c; Down (lit "id-d 10.0.0.4:7000 master,fail - 0 0 3 connected"); Up demo_b].

(** A master that has just joined. *)
Definition demo_new : node := mkNode (lit "id-e") (lit "10.0.0.5") 7000 [] (lit "master") (lit "-") (lit "0 15 4") [].

(** One with a slot that stands alone. *)
Definition demo_alone : node := mkNode (lit "id-f") (lit "10.0.0.6") 7000 (lit "@17000") (lit "master") (lit "-") (lit "0 15 5") [(0, 3); (5, 5)].

Ltac decided := unfold field, range_ok, descr_ok; apply (bool_decide_unpack _); vm_compute; exact I.

Ltac descr_decided := cbn [descr_ok]; first [split; [split; first [decided|split; [decided|vm_compute; exact I || reflexivity]|vm_compute; reflexivity]|vm_compute; reflexivity]|decided].

Lemma demo_ok : cluster_ok demo.
Proof. split; [repeat (constructor; [descr_decided|]); constructor|done|vm_compute; reflexivity|decided]. Qed.

Ltac cluster_decided := split; [repeat (constructor; [descr_decided|]); constructor|done|vm_compute; reflexivity|decided].

(** All nodes of [demo], a slot that stands alone, and a master without slots. *)
Lemma cluster_nodes_roundtrip_witness :
  (∃ m, parseClusterInfo (mkConfig 4 5 6 []) (nodes_reply (print_descrs demo)) [] = Ok (true, m) ∧ m.*1 ≡ₚ n_address <$> ups demo) ∧
  (∃ m c, parseClusterInfo (mkConfig 4 5 6 []) (nodes_reply (print_descrs [Up demo_alone])) [] = Ok (true, m) ∧
    oget (n_address demo_alone) m = Some c ∧ slotMap c ≡ₚ [(0, 3); (65535, 65535)]) ∧
  parseClusterInfo (mkConfig 4 5 6 []) (nodes_reply (print_descrs (demo ++ [Up demo_new]))) [] = Ok (false, []).
Proof.
  split; [|split].
  - destruct (cluster_nodes_roundtrip (mkConfig 4 5 6 []) demo demo_ok) as (m & E & Hp & _). exact (ex_intro _ m (conj E Hp)).
  - assert (cluster_ok [Up demo_alone]) as Hok by cluster_decided.
    destruct (cluster_nodes_roundtrip (mkConfig 4 5 6 []) [Up demo_alone] Hok) as (m & E & _ & H).
    destruct (H demo_alone) as (c & Ec & He); [apply list_elem_of_singleton; reflexivity|]. exists m, c. split; [exact E|]. split; [exact Ec|].
    exact (en_slots _ _ _ _ He).
  - assert (cluster_ok (demo ++ [Up demo_new])) as Hok by cluster_decided.
    exact (cluster_nodes_roundtrip (mkConfig 4 5 6 []) (demo ++ [Up demo_new]) Hok).
Defined.

(** ** The slot table *)

(** The entry at [a] is that of a master with the slot [i]. *)
Definition covers (c : RedisClusterInfo) (i : Z) : Prop := isMaster c = true ∧ ∃ r, r ∈ slotMap c ∧ r.1 ≤ i ≤ r.2.
Definition routed (m : CLUSTER_MAP) (i : Z) (a : list Z) : Prop := ∃ c, (a, c) ∈ m ∧ covers c i.

(** No slot has two masters. *)
Definition one_master (m : CLUSTER_MAP) : Prop := ∀ i a b, routed m i a → routed m i b → a = b.

Definition fill_all (l : CLUSTER_MAP) (m : gmap Z (list Z)) : gmap Z (list Z) := foldl (λ m p, fill_slots p.1 p.2 m) m l.

Lemma fill_seq id l (m : gmap Z (list Z)) i : foldl (λ m j, <[j := id]> m) m l !! i = if decide (i ∈ l) then Some id else m !! i.
Proof.
  revert m. induction l as [|j l IH]; intros m; simpl; [done|]. rewrite IH. destruct (decide (i = j)) as [->|Hne].
  - rewrite lookup_insert_eq. by repeat case_decide; set_solver.
  - rewrite lookup_insert_ne by done. repeat case_decide; set_solver.
Qed.

Lemma fill_range_spec id m r i : fill_range id m r !! i = if decide (r.1 ≤ i ≤ r.2) then Some id else m !! i.
Proof. unfold fill_range. rewrite fill_seq. repeat case_decide; try done; rewrite elem_of_seqZ in *; lia. Qed.

Lemma fill_slots_hit id c m i : covers c i → fill_slots id c m !! i = Some id.
Proof.
  intros [Hm (r & Hr & Hi)]. unfold fill_slots. rewrite Hm. clear Hm. revert m. induction (slotMap c) as [|x l IH]; intros m; [set_solver|].
  simpl. destruct (decide (r ∈ l)) as [Hl|Hl]; [by apply IH|]. assert (r = x) as -> by set_solver.
  assert (∀ m, m !! i = Some id → foldl (fill_range id) m l !! i = Some id) as Hk.
  { clear. induction l as [|x l IH]; intros m Hm; [done|]. simpl. apply IH. rewrite fill_range_spec. by case_decide. }
  apply Hk. rewrite fill_range_spec. by rewrite decide_True.
Qed.

Lemma fill_slots_miss id c m i : ¬ covers c i → fill_slots id c m !! i = m !! i.
Proof.
  intros Hn. unfold fill_slots. destruct (isMaster c) eqn:Hm; [|done].
  assert (∀ r, r ∈ slotMap c → ¬ (r.1 ≤ i ≤ r.2)) as Hr by (intros r Hin Hi; apply Hn; split; [done|by exists r]). clear Hn Hm.
  revert m. induction (slotMap c) as [|x l IH]; intros m; [done|]. simpl. rewrite IH by set_solver.
  rewrite fill_range_spec. rewrite decide_False; [done|]. apply Hr. set_solver.
Qed.

Lemma covers_dec c i : Decision (covers c i).
Proof.
  destruct (decide (isMaster c = true ∧ Exists (λ r : Z * Z, r.1 ≤ i ≤ r.2) (slotMap c))) as [[Hm He]|Hn].
  - left. split; [done|]. apply Exists_exists in He as (r & ? & ?). by exists r.
  - right. intros [Hm (r & ? & ?)]. apply Hn. split; [done|]. apply Exists_exists. by exists r.
Qed.

(** The table that is filled from the entries routes a slot to its master. *)
Lemma fill_all_routed l i a : one_master l → fill_all l ∅ !! i = Some a ↔ routed l i a.
Proof.
  intros Ho. induction l as [|[b c] l IH] using rev_ind.
  { split; [change (fill_all [] ∅) with (∅ : gmap Z (list Z)); by rewrite lookup_empty|]. intros (c & Hin & _). set_solver. }
  unfold fill_all. rewrite foldl_app. simpl. fold (fill_all l ∅).
  assert (one_master l) as Ho' by (intros j x y (cx & ? & ?) (cy & ? & ?); apply (Ho j); [exists cx|exists cy]; set_solver).
  destruct (covers_dec c i) as [Hc|Hc].
  - rewrite fill_slots_hit by done. assert (routed (l ++ [(b, c)]) i b) as Hb by (exists c; set_solver).
    split; [by intros [= <-]|]. intros Ha. by rewrite (Ho i a b Ha Hb).
  - rewrite fill_slots_miss by done. rewrite IH by done. split; intros (c' & Hin & Hc').
    + exists c'. set_solver.
    + exists c'. split; [|done]. apply elem_of_app in Hin as [?|Hin]; [done|]. apply list_elem_of_singleton in Hin. by simplify_eq.
Qed.

(** The slots as the reply gives them. *)
Definition owner (ds : list descr) (i : Z) (a : list Z) : Prop :=
  ∃ n, n ∈ ups ds ∧ is_master n = true ∧ n_address n = a ∧ ∃ r, r ∈ n_slots n ∧ r.1 ≤ i ≤ r.2.

Definition one_owner (ds : list descr) : Prop := ∀ i a b, owner ds i a → owner ds i b → a = b.

Lemma entry_covers cfg ns n c i : entry_of cfg ns n c → has_alone (Up n) = false → covers c i ↔ is_master n = true ∧ ∃ r, r ∈ n_slots n ∧ r.1 ≤ i ≤ r.2.
Proof.
  intros He Ha. unfold covers. rewrite (en_master _ _ _ _ He). pose proof (en_slots _ _ _ _ He) as Hs. cbn [has_alone] in Ha.
  destruct (is_master n); [|naive_solver]. rewrite stored_all in Hs by done. by setoid_rewrite Hs.
Qed.

Lemma knows_NoDup cfg ds m : cluster_ok ds → knows cfg ds m → NoDup m.*1.
Proof. intros Hok [Hp _]. rewrite Hp. apply Hok. Qed.

(** An entry is that of a node of the reply. *)
Lemma knows_entry cfg ds m a c : cluster_ok ds → knows cfg ds m → (a, c) ∈ m → ∃ n, n ∈ ups ds ∧ n_address n = a ∧ entry_of cfg (ups ds) n c.
Proof.
  intros Hok Hk Hin. pose proof (oget_some a c m (knows_NoDup _ _ _ Hok Hk) Hin) as Eo. destruct Hk as [Hp He].
  assert (a ∈ n_address <$> ups ds) as (n & -> & Hn)%list_elem_of_fmap by (rewrite <-Hp; apply list_elem_of_fmap; by exists (a, c)).
  destruct (He n Hn) as (c' & Ec & He'). rewrite Eo in Ec. injection Ec as <-. by exists n.
Qed.

Lemma alone_up ds n : existsb has_alone ds = false → n ∈ ups ds → has_alone (Up n) = false.
Proof.
  intros H Hn%ups_in. apply not_true_iff_false. intros E. apply not_true_iff_false in H. apply H, existsb_exists. exists (Up n).
  by rewrite <-list_elem_of_In.
Qed.

Lemma knows_routed cfg ds m i a : cluster_ok ds → existsb has_alone ds = false → knows cfg ds m → routed m i a ↔ owner ds i a.
Proof.
  intros Hok Hal Hk. split.
  - intros (c & Hin & Hc). destruct (knows_entry _ _ _ _ _ Hok Hk Hin) as (n & Hn & Ea & He).
    apply (entry_covers _ _ _ _ _ He (alone_up _ _ Hal Hn)) in Hc. destruct Hc as [Hm Hr]. by exists n.
  - intros (n & Hn & Hm & Ea & Hr). destruct (proj2 Hk n Hn) as (c & Eo & He). rewrite Ea in Eo. exists c. split; [by apply oget_in|].
    apply (entry_covers _ _ _ _ _ He (alone_up _ _ Hal Hn)). by split.
Qed.

Lemma knows_one_master cfg ds m : cluster_ok ds → existsb has_alone ds = false → knows cfg ds m → one_owner ds → one_master m.
Proof. intros Hok Hal Hk Ho i a b Ha Hb. apply (Ho i); by eapply knows_routed. Qed.

Section tables.
Context {W : Type} `{!Nodes W} (cfg : config).
#[local] Set Default Proof Using "Type".

Lemma on_world_ok {A} (f : W → result (A * W)) t a w : f (world t) = Ok (a, w) → on_world f t = Ok (a, set_world t w).
Proof. intros E. unfold on_world. munfold. by rewrite E. Qed.

Definition opens : Prop := ∀ ip port n w, ∃ h w', node_open ip port n w = Ok (Some h, w').

(** A handler for the node of an entry. *)
Definition handler_of (c : RedisClusterInfo) (h : Z) : Prop :=
  ∃ w w', node_open (connectIp c) (connectPort c) (connectionNum c) w = Ok (Some h, w').

Lemma init_clusters_ok l t : opens → m_passwd cfg = [] → NoDup l.*1 →
  ∃ t', init_clusters cfg l t = Ok (true, t') ∧ m_slotMap t' = fill_all l (m_slotMap t) ∧
    (∀ a c, oget a l = Some c → ∃ h, oget a (m_clusterMap t') = Some (set_handler h c) ∧ handler_of c h) ∧
    (∀ a, oget a l = None → oget a (m_clusterMap t') = oget a (m_clusterMap t)).
Proof.
  intros Ho Hp. revert t. induction l as [|[id c] l IH]; intros t Hnd; [by exists t|]. apply NoDup_cons in Hnd as [Hid Hnd].
  cbn [init_clusters]. destruct (Ho (connectIp c) (connectPort c) (connectionNum c) (world t)) as (h & w' & Eh).
  rewrite (bind_ok _ _ _ _ _ (on_world_ok _ _ _ _ Eh)). cbn iota. rewrite !bind_modify.
  unfold auth. rewrite bool_decide_eq_true_2 by done.
  match goal with |- context [(mret tt ≫= ?k) ?s] => change ((mret tt ≫= k) s) with (k tt s); cbv beta; destruct (IH s Hnd) as (t' & E & E1 & E2 & E3) end.
  exists t'. split; [done|]. split; [done|]. simpl in E1, E2, E3. simpl.
  assert (oget id l = None) as Hno by (apply eq_None_not_Some; by rewrite oget_key). split.
  - intros a c'. case_decide as Ha; [|by apply E2]. subst a. intros [= <-]. exists h. rewrite (E3 id Hno), oget_oset. rewrite decide_True by done.
    split; [done|]. by exists (world t), w'.
  - intros a. case_decide as Ha; [done|]. intros Hal. rewrite (E3 a Hal), oget_oset. by rewrite decide_False.
Qed.

(** C28. When the first server describes the cluster, every node can be connected to, no password
    is set, and the masters that are up have slots, none of which stands alone or belongs to two
    of them, the client starts with the slot table of that cluster: a slot leads to an address
    exactly when the master there has it, and every node that is up has a handler. *)
Theorem cluster_slots_routed ds ip port more t w :
  opens → m_passwd cfg = [] → cluster_ok ds → existsb slotless ds = false → existsb has_alone ds = false → one_owner ds → m_slotMap t = ∅ →
  node_ask ip port (command [lit "cluster"; lit "nodes"]) 30 (world t) = Ok (Some (true, nodes_reply (print_descrs ds)), w) →
  ∃ t', init_cluster_mode cfg ((ip, port) :: more) true t = Ok (true, t') ∧
    (∀ i a, m_slotMap t' !! i = Some a ↔ owner ds i a) ∧
    (∀ n, n ∈ ups ds → ∃ c h, oget (n_address n) (m_clusterMap t') = Some (set_handler h c) ∧ entry_of cfg (ups ds) n c ∧ handler_of c h).
Proof.
  intros Ho Hp Hok Hsl Hal Hone Hem Ea. destruct (parse_nodes_knows cfg ds Hok Hsl) as (m & Em & Hk).
  unfold init_cluster_mode, getRedisClusterNodes. cbn [ask_servers].
  assert (∃ t1, ask_servers cfg ((ip, port) :: more) (command [lit "cluster"; lit "nodes"]) t = Ok (true, t1) ∧ m_clusterMap t1 = m ∧ m_slotMap t1 = ∅) as (t1 & E1 & Ec & Es).
  { cbn [ask_servers]. rewrite (bind_ok _ _ _ _ _ (on_world_ok _ _ _ _ Ea)). cbn [nodes_reply replyType]. rewrite bool_decide_eq_true_2 by done. cbn [negb].
    rewrite (bind_lift _ _ _ _ Em). eexists. split; [done|]. done. }
  rewrite (bind_ok _ _ _ _ _ E1). cbn [negb]. unfold initRedisCluster.
  destruct (init_clusters_ok m t1 Ho Hp (knows_NoDup _ _ _ Hok Hk)) as (t' & E & E2 & E3 & E4).
  exists t'. split_and!.
  - rewrite (bind_ok _ _ _ true t'); [done|]. rewrite bind_get. by rewrite Ec.
  - intros i a. rewrite E2, Es, fill_all_routed by (by eapply knows_one_master). by eapply knows_routed.
  - intros n Hn. destruct (proj2 Hk n Hn) as (c & Eo & He). destruct (E3 _ _ Eo) as (h & ? & ?). by exists c, h.
Qed.

(** ** Following the cluster *)

Definition closes : Prop :=
  (∀ h w, ∃ b w', node_idle h w = Ok (b, w')) ∧ (∀ h w, ∃ w', node_free h w = Ok (tt, w')).

(** The node behind the handler [h] describes the cluster. *)
Definition describes (h : Z) (ds : list descr) : Prop :=
  ∀ w, ∃ w', node_do h (command [lit "cluster"; lit "nodes"]) 30 RedisReplyInfo_new w = Ok (true, nodes_reply (print_descrs ds), w').

(** The slot table is that of the entries. *)
Definition slots_ok (t : tables (W := W)) : Prop := ∀ i a, m_slotMap t !! i = Some a ↔ routed (m_clusterMap t) i a.

(** What is left alone by releasing handlers. *)
Definition same_tables (t t' : tables (W := W)) : Prop :=
  m_clusterMap t' = m_clusterMap t ∧ m_slotMap t' = m_slotMap t ∧ m_signalQueue t' = m_signalQueue t.

Lemma idle_handlers_ok l t : closes → ∃ r t', idle_handlers l t = Ok (r, t') ∧ same_tables t t'.
Proof.
  intros [Hi Hf]. revert t. induction l as [|[id h] l IH]; intros t; [by exists [], t|]. cbn [idle_handlers].
  destruct (Hi h (world t)) as (b & w & E). rewrite (bind_ok _ _ _ _ _ (on_world_ok _ _ _ _ E)).
  destruct (IH (set_world t w)) as (r & t' & E' & ?). rewrite (bind_ok _ _ _ _ _ E'). by eexists _, t'.
Qed.

Lemma free_handlers_ok l t : closes → ∃ t', free_handlers l t = Ok (tt, t') ∧ same_tables t t'.
Proof.
  intros [Hi Hf]. revert t. induction l as [|[id h] l IH]; intros t; [by exists t|]. cbn [free_handlers].
  destruct (Hf h (world t)) as (w & E). rewrite (bind_ok _ _ _ _ _ (on_world_ok _ _ _ _ E)), bind_modify.
  match goal with |- context [free_handlers l ?s] => destruct (IH s) as (t' & E' & ?) end. by exists t'.
Qed.

Lemma release_ok t : closes → ∃ t', releaseUnusedClusterHandler t = Ok (tt, t') ∧ same_tables t t'.
Proof.
  intros Hc. unfold releaseUnusedClusterHandler. rewrite bind_get. destruct (idle_handlers_ok (m_unusedHandlers t) t Hc) as (r & t1 & E & H1).
  rewrite (bind_ok _ _ _ _ _ E). destruct (free_handlers_ok r t1 Hc) as (t2 & E2 & H2). exists t2. split; [done|].
  unfold same_tables in *. intuition congruence.
Qed.

Lemma ask_known_ok ds t a c rest :
  cluster_ok ds → existsb slotless ds = false → has (lit "myself,slave") (print_descrs ds) = false →
  m_clusterMap t = (a, c) :: rest → describes (clusterHandler c) ds →
  ∃ m t', getRedisClustersByCommand cfg t = Ok (Some m, t') ∧ knows cfg ds m ∧ same_tables t t' ∧
    parseClusterInfo cfg (nodes_reply (print_descrs ds)) [] = Ok (true, m).
Proof.
  intros Hok Hsl Hms Em Hd. destruct (parse_nodes_knows cfg ds Hok Hsl) as (m & Ep & Hk). destruct (Hd (world t)) as (w & Ew).
  exists m, (set_world t w). split; [|by split_and!]. unfold getRedisClustersByCommand. rewrite bind_get, Em. cbn [fmap list_fmap fst ask_known].
  rewrite (bind_ok _ _ _ (Some c) t) by (unfold getRedisClusterInfo; rewrite bind_get, Em; simpl; by rewrite decide_True).
  rewrite (bind_ok _ _ _ _ _ (on_world_ok _ _ _ _ Ew)). cbn [negb nodes_reply replyType arrayList head].
  rewrite bool_decide_eq_true_2 by done. cbn [negb]. 
  rewrite (bind_lift _ _ _ (mkInfo REDIS_REPLY_STRING (Some (print_descrs ds)) (len (print_descrs ds)))) by done.
  rewrite (bind_lift _ _ _ (print_descrs ds)) by done.
  rewrite (c_str_text _ (descrs_free ds (co_lines _ Hok))), Hms. by rewrite (bind_lift _ _ _ _ Ep).
Qed.

(** The entry [c] with other connections. *)
Definition same_node (c c' : RedisClusterInfo) : Prop := ∃ h o, c' = set_handler h (set_options o c).

Lemma same_node_covers c c' i : same_node c c' → covers c' i ↔ covers c i.
Proof. intros (h & o & ->). done. Qed.

Lemma same_node_fill id c c' m : same_node c c' → fill_slots id c' m = fill_slots id c m.
Proof. intros (h & o & ->). done. Qed.

(** A node that is known already, or that can be connected to. *)
Definition reachable (t : tables (W := W)) (p : list Z * RedisClusterInfo) : Prop :=
  is_Some (oget p.1 (m_clusterMap t)) ∨
  ∀ w, ∃ h w', node_open (connectIp p.2) (connectPort p.2) (m_connectionNum cfg) w = Ok (Some h, w').

Lemma save_step id c l t : reachable t (id, c) →
  ∃ c' t1, save_clusters cfg ((id, c) :: l) t =
      save_clusters cfg l (set_slotMap (set_clusterMap t1 (oset id c' (m_clusterMap t))) (fill_slots id c (m_slotMap t))) ∧
    same_node c c' ∧ same_tables t t1.
Proof.
  intros Hr. cbn [save_clusters]. rewrite (bind_ok _ _ _ (oget id (m_clusterMap t)) t) by done. unfold reachable in Hr. cbn [fst snd] in Hr.
  destruct (oget id (m_clusterMap t)) as [o|] eqn:Eo.
  - exists (set_handler (clusterHandler o) (set_options (mkConfig (connectionNum o) (connectTimeout o) (readTimeout o) []) c)), t.
    split; [done|]. split; [by eexists _, _|done].
  - destruct Hr as [[? ?]|Hr]; [done|].
    set (c1 := set_options (mkConfig (m_connectionNum cfg) (m_connectTimeout cfg) (readTimeout c) []) c).
    destruct (Hr (world t)) as (h & w & E).
    exists (set_handler h c1), (set_world t w). split; [|split; [by eexists _, _|done]].
    rewrite (bind_ok _ _ t (Some (set_handler h c1)) (set_world t w)); [done|].
    by rewrite (bind_ok _ _ _ (Some h) (set_world t w) (on_world_ok _ _ _ _ E)).
Qed.

(** The nodes before [l'] are saved. *)
Lemma save_prefix l l' t : Forall (reachable t) l → NoDup l.*1 →
  ∃ t', save_clusters cfg (l ++ l') t = save_clusters cfg l' t' ∧ m_slotMap t' = fill_all l (m_slotMap t) ∧ m_signalQueue t' = m_signalQueue t ∧
    (∀ a c, oget a l = Some c → ∃ c', oget a (m_clusterMap t') = Some c' ∧ same_node c c') ∧
    (∀ a, oget a l = None → oget a (m_clusterMap t') = oget a (m_clusterMap t)).
Proof.
  revert t. induction l as [|[id c] l IH]; intros t Hf Hnd; [by exists t|]. apply NoDup_cons in Hnd as [Hid Hnd]. apply Forall_cons in Hf as [Hr Hf].
  destruct (save_step id c (l ++ l') t Hr) as (c' & t1 & E & Hc & Ht). cbn [app]. rewrite E.
  match goal with |- context [save_clusters cfg (l ++ l') ?s] => destruct (IH s) as (t' & E' & E1 & Eq & E2 & E3) end.
  { eapply Forall_impl; [exact Hf|]. intros p [Hp|Hp]; [left|by right]. simpl. rewrite oget_oset. by case_decide. }
  { done. }
  exists t'. split; [done|]. split; [done|]. destruct Ht as (_ & _ & Hq). split; [by rewrite Eq|]. simpl in E2, E3. simpl.
  assert (oget id l = None) as Hno by (apply eq_None_not_Some; by rewrite oget_key). split.
  - intros a d. case_decide as Ha; [|by apply E2]. subst a. intros [= <-]. exists c'. split; [|done].
    rewrite (E3 id Hno), oget_oset. by rewrite decide_True.
  - intros a. case_decide as Ha; [done|]. intros Hal. rewrite (E3 a Hal), oget_oset. by rewrite decide_False.
Qed.

Lemma save_clusters_ok l t : opens → NoDup l.*1 →
  ∃ t', save_clusters cfg l t = Ok (true, t') ∧ m_slotMap t' = fill_all l (m_slotMap t) ∧ m_signalQueue t' = m_signalQueue t ∧
    (∀ a c, oget a l = Some c → ∃ c', oget a (m_clusterMap t') = Some c' ∧ same_node c c') ∧
    (∀ a, oget a l = None → oget a (m_clusterMap t') = oget a (m_clusterMap t)).
Proof.
  intros Ho Hnd. destruct (save_prefix l [] t) as (t' & E & H); [|done|].
  - apply Forall_forall. intros p _. right. intros w. apply Ho.
  - rewrite app_nil_r in E. by exists t'.
Qed.

Lemma oget_oerase {V} (a k : list Z) (m : list (list Z * V)) : oget a (oerase k m) = if decide (a = k) then None else oget a m.
Proof.
  unfold oerase. induction m as [|[b v] m IH]; [by case_decide|]. rewrite filter_cons. simpl.
  destruct (decide (b = k)) as [->|Hb]; [rewrite decide_False by tauto|rewrite decide_True by done; simpl]; rewrite IH; by repeat case_decide; subst.
Qed.

Lemma retire_ok m (t : tables (W := W)) a : oget a (m_clusterMap (retire m t)) = if decide (is_Some (oget a m)) then oget a (m_clusterMap t) else None.
Proof.
  unfold retire.
  assert (∀ l (t : tables (W := W)), oget a (m_clusterMap (foldl (λ t p, if bool_decide (is_Some (oget p.1 m)) then t
      else set_clusterMap (set_unused t (oset p.1 (clusterHandler p.2) (m_unusedHandlers t))) (oerase p.1 (m_clusterMap t))) t l)) =
      if decide (a ∈ l.*1 ∧ ¬ is_Some (oget a m)) then None else oget a (m_clusterMap t)) as Hl.
  { clear t. induction l as [|[b v] l IH]; intros t; [by rewrite decide_False by set_solver|]. cbn [foldl]. rewrite IH. cbn [fst fmap list_fmap].
    case_bool_decide as Hb; simpl; [|rewrite oget_oerase]; repeat case_decide; try done; exfalso; set_solver. }
  rewrite Hl. repeat case_decide; try done; try tauto. apply eq_None_not_Some. rewrite oget_key. tauto.
Qed.

Lemma retire_slots m (t : tables (W := W)) : m_slotMap (retire m t) = m_slotMap t ∧ m_signalQueue (retire m t) = m_signalQueue t.
Proof. unfold retire. generalize (m_clusterMap t). intros l. revert t. induction l as [|p l IH]; intros t; [done|]. cbn [foldl]. rewrite !(proj1 (IH _)), !(proj2 (IH _)). by case_bool_decide. Qed.

(** The tables are those of the cluster. *)
Definition follows (ds : list descr) (t : tables (W := W)) : Prop :=
  (∀ i a, m_slotMap t !! i = Some a ↔ owner ds i a) ∧ (∀ a, is_Some (oget a (m_clusterMap t)) ↔ a ∈ n_address <$> ups ds).

Lemma knows_keys ds m a : knows cfg ds m → is_Some (oget a m) ↔ a ∈ n_address <$> ups ds.
Proof. intros [Hp _]. by rewrite oget_key, Hp. Qed.

(** When something has changed, the tables are made again. *)
Lemma checkAndSave_follows ds m t : opens → cluster_ok ds → existsb has_alone ds = false → one_owner ds → knows cfg ds m →
  ∃ t', checkAndSaveRedisClusters cfg m t = Ok (true, t') ∧ follows ds t' ∧ m_signalQueue t' = m_signalQueue t.
Proof.
  intros Ho Hok Hal Hone Hk. unfold checkAndSaveRedisClusters. rewrite bind_modify.
  destruct (save_clusters_ok m (set_slotMap t ∅) Ho (knows_NoDup _ _ _ Hok Hk)) as (t1 & E & Es & Eq & E1 & E2).
  rewrite (bind_ok _ _ _ _ _ E). cbn [negb]. rewrite bind_modify. destruct (retire_slots m t1) as [Er Erq].
  exists (retire m t1). split; [done|]. split; [split|].
  - intros i a. rewrite Er, Es. simpl. rewrite fill_all_routed by (by eapply knows_one_master). by eapply knows_routed.
  - intros a. rewrite retire_ok, <-(knows_keys ds m a Hk). case_decide as Ha; [|split; [by intros []|done]].
    split; [done|]. intros [c Hc]. destruct (E1 a c Hc) as (c' & -> & _). by eexists.
  - by rewrite Erq, Eq.
Qed.

Lemma slots_in_covers c o r : slots_in c o = true → r ∈ slotMap c → r ∈ slotMap o.
Proof.
  unfold slots_in. rewrite forallb_forall. intros H Hr%list_elem_of_In. specialize (H r Hr). apply bool_decide_eq_true in H.
  apply oget_in in H. by destruct r.
Qed.

Lemma unchanged_covers c o i : unchanged c o = true → covers c i ↔ covers o i.
Proof.
  unfold unchanged. rewrite !andb_true_iff. intros [[[[[[[[_ Hm] _] _] _] _] _] H1] H2]. apply eqb_prop in Hm. unfold covers. rewrite Hm.
  split; intros (? & r & Hr & Hi); (split; [done|]; exists r; split; [|done]); [by eapply (slots_in_covers c o)|by eapply (slots_in_covers o c)].
Qed.

(** When nothing has changed, they are those of the cluster already. *)
Lemma unchanged_follows ds m t : cluster_ok ds → existsb has_alone ds = false → knows cfg ds m → slots_ok t → NoDup (m_clusterMap t).*1 →
  forallb (λ p, match oget p.1 (m_clusterMap t) with Some o => unchanged p.2 o | None => false end) m = true →
  forallb (λ p, bool_decide (is_Some (oget p.1 m))) (m_clusterMap t) = true →
  follows ds t.
Proof.
  intros Hok Hal Hk Hs Hnd H1 H2. rewrite forallb_forall in H1, H2.
  assert (∀ a c, oget a m = Some c → ∃ o, oget a (m_clusterMap t) = Some o ∧ unchanged c o = true) as Hm.
  { intros a c Hc%oget_in. specialize (H1 (a, c) (proj1 (list_elem_of_In _ _) Hc)). simpl in H1.
    destruct (oget a (m_clusterMap t)) as [o|]; [by exists o|done]. }
  assert (∀ a, is_Some (oget a m) ↔ is_Some (oget a (m_clusterMap t))) as Hkeys.
  { intros a. split; [intros [c Hc]; destruct (Hm a c Hc) as (o & -> & _); by eexists|]. intros [o Ho%oget_in].
    specialize (H2 (a, o) (proj1 (list_elem_of_In _ _) Ho)). by apply bool_decide_eq_true in H2. }
  split; [|intros a; by rewrite <-Hkeys, (knows_keys ds)].
  intros i a. rewrite (Hs i a), <-(knows_routed cfg ds m i a Hok Hal Hk). split; intros (c & Hin & Hc).
  - pose proof (oget_some a c _ Hnd Hin) as Eo. destruct (proj2 (Hkeys a)) as [c' Ec]; [by rewrite Eo|].
    destruct (Hm a c' Ec) as (o & Eo' & Hu). assert (o = c) as -> by congruence. exists c'. split; [by apply oget_in|].
    by apply (unchanged_covers c' c i Hu).
  - pose proof (oget_some a c _ (knows_NoDup _ _ _ Hok Hk) Hin) as Ec. destruct (Hm a c Ec) as (o & Eo & Hu). exists o.
    split; [by apply oget_in|]. by apply (unchanged_covers c o i Hu).
Qed.

(** C29. A round of the thread after a redirection, with the slot table being that of the known
    nodes: when the first known node, a master, describes the cluster as it is now, new nodes can
    be connected to, and the masters that are up have slots, none of which stands alone or
    belongs to two of them, the slot table and the known nodes become those of that cluster,
    whichever nodes were known before. *)
Theorem cluster_refresh ds t a c rest :
  opens → closes → cluster_ok ds → existsb slotless ds = false → existsb has_alone ds = false → one_owner ds →
  has (lit "myself,slave") (print_descrs ds) = false →
  m_clusterMap t = (a, c) :: rest → describes (clusterHandler c) ds → NoDup (m_clusterMap t).*1 → slots_ok t → m_signalQueue t = true →
  ∃ t', CheckClusterNodesThreadFunc cfg t = Ok (tt, t') ∧ follows ds t' ∧ m_signalQueue t' = false.
Proof.
  intros Ho Hcl Hok Hsl Hal Hone Hms Em Hd Hnd Hs Hq. unfold CheckClusterNodesThreadFunc. rewrite bind_get, Hq, bind_modify. unfold DoCheckClusterNodes.
  destruct (release_ok (set_signal t false) Hcl) as (t1 & E1 & M1 & S1 & Q1). rewrite (bind_ok _ _ _ _ _ E1). simpl in M1, S1, Q1.
  rewrite Em in M1. destruct (ask_known_ok ds t1 a c rest Hok Hsl Hms M1 Hd) as (m & t2 & E2 & Hk & (M2 & S2 & Q2) & _).
  rewrite (bind_ok _ _ _ _ _ E2). cbn iota. rewrite bind_get. cbv zeta. rewrite <-Em in M1.
  destruct (forallb _ m && forallb _ (m_clusterMap t2)) eqn:Eb.
  - apply andb_true_iff in Eb as [B1 B2]. exists t2. split; [done|]. split; [|by rewrite Q2, Q1].
    apply (unchanged_follows ds m t2 Hok Hal Hk); [|by rewrite M2, M1|done|done]. intros i b. by rewrite S2, S1, M2, M1.
  - destruct (checkAndSave_follows ds m t2 Ho Hok Hal Hone Hk) as (t3 & E3 & Hf & Q3). rewrite (bind_ok _ _ _ _ _ E3).
    exists t3. split; [done|]. split; [done|]. by rewrite Q3, Q2, Q1.
Qed.

(** ** Commands *)

Context {A : Type} `{!DBSerialize A}.
Implicit Types (out : outputs A) (t : tables (W := W)).

(** The reply of a node that does not have the slot. *)
Definition moved (slot : Z) (a : list Z) : RedisReplyInfo := mkReply REDIS_REPLY_ERROR (lit "MOVED " ++ ToString slot ++ 32 :: a) 0 [].

(** Commands whose replies are looked at. *)
Definition in_switch (ty : RedisCommandType) : bool :=
  match ty with
  | REDIS_COMMAND_UNKNOWN | REDIS_COMMAND_WATCH | REDIS_COMMAND_UNWATCH | REDIS_COMMAND_MULTI | REDIS_COMMAND_EXEC | REDIS_COMMAND_DISCARD => false
  | _ => true
  end.

Lemma last_space pre a : 32 ∉ a → list_find (λ b, b = 32) (reverse (pre ++ 32 :: a)) = Some (length a, 32).
Proof.
  intros Ha. rewrite reverse_app, reverse_cons, <-app_assoc. apply list_find_Some. split_and!; [|done|].
  - rewrite lookup_app_r by (by rewrite length_reverse). by rewrite length_reverse, Nat.sub_diag.
  - intros j y Hj Hlt ->. rewrite lookup_app_l in Hj by (by rewrite length_reverse). apply Ha, elem_of_reverse. by eapply list_elem_of_lookup_2.
Qed.

Lemma moved_redirect slot a : 32 ∉ a → checkIfNeedRedirect CLUSTER_MODE (moved slot a) = Some a.
Proof.
  intros Ha. unfold checkIfNeedRedirect. rewrite bool_decide_eq_false_2 by done. cbn [moved replyType resultString].
  assert (strncmp_eq 5 (tolower <$> lit "MOVED " ++ ToString slot ++ 32 :: a) (lit "moved") = true) as ->.
  { rewrite fmap_app. unfold strncmp_eq. rewrite take_app_le by (vm_compute; lia). vm_compute. done. }
  rewrite bool_decide_eq_true_2 by done. cbn [andb]. rewrite app_assoc, last_space by done. f_equal.
  rewrite cons_middle, app_assoc. apply drop_app_length'. rewrite !length_app. simpl. lia.
Qed.

Lemma moved_redirection slot a : 32 ∉ a → redirection (moved slot a) = Some a.
Proof.
  intros Ha. pose proof (moved_redirect slot a Ha) as E. unfold redirection. rewrite E. unfold checkIfNeedRedirect in E.
  rewrite bool_decide_eq_false_2 in E by done. destruct (_ && _); done.
Qed.

Lemma moved_parse slot a ty out :
  32 ∉ a → in_switch ty = true → (ty = REDIS_COMMAND_GET → is_Some (o_serial out)) → parse_reply (moved slot a) ty out = Ok (None, out).
Proof.
  intros Ha Hty Hg. assert (is_redirect CLUSTER_MODE (moved slot a) = true) as Er.
  { unfold is_redirect. rewrite moved_redirect by done. by apply bool_decide_eq_true_2. }
  destruct ty; try done; unfold parse_reply, parseFindReply, parseSetSerialReply, parseGetSerialReply; rewrite ?Er; try done.
  destruct (Hg eq_refl) as [x Hx]. rewrite Hx. destruct out as [? ? ?]. simpl in *. by rewrite Hx.
Qed.

(** One pass of [route] when the node answers. *)
Lemma route_answered fuel n cmd ty id reds bak i r out t c r1 w1 b out' :
  oget id (m_clusterMap t) = Some c → node_do (clusterHandler c) cmd n r (world t) = Ok (true, r1, w1) →
  parse_reply r1 ty out = Ok (b, out') → redirection r1 = None →
  route fuel n cmd ty id reds bak i r out t = Ok ((default true b, out'), set_world t w1).
Proof.
  intros Hc Hd Hp Hr. destruct fuel; cbn [route]; (rewrite (bind_ok _ _ _ (Some c) t) by (unfold getRedisClusterInfo; rewrite bind_get; by rewrite Hc));
    rewrite (bind_ok _ _ _ _ _ (on_world_ok _ _ _ _ Hd)); cbn [negb]; rewrite (bind_lift _ _ _ _ Hp), Hr; by destruct b.
Qed.

(** One pass when it answers with a redirection. *)
Lemma route_moved fuel n cmd ty id reds bak i r out t c slot a w1 :
  oget id (m_clusterMap t) = Some c → node_do (clusterHandler c) cmd n r (world t) = Ok (true, moved slot a, w1) →
  32 ∉ a → in_switch ty = true → (ty = REDIS_COMMAND_GET → is_Some (o_serial out)) → a ∉ reds →
  route (S fuel) n cmd ty id reds bak i r out t =
    route fuel n cmd ty a (reds ++ [a]) [] 0 (freeReplyInfo (moved slot a)) out (set_signal (set_world t w1) true).
Proof.
  intros Hc Hd Ha Hty Hg Hn. cbn [route]. rewrite (bind_ok _ _ _ (Some c) t) by (unfold getRedisClusterInfo; rewrite bind_get; by rewrite Hc).
  rewrite (bind_ok _ _ _ _ _ (on_world_ok _ _ _ _ Hd)). cbn [negb]. rewrite (bind_lift _ _ _ _ (moved_parse slot a ty out Ha Hty Hg)).
  rewrite moved_redirection by done. unfold SignalToDoClusterNodes. rewrite bind_modify. by rewrite bool_decide_eq_false_2.
Qed.

(** C30. A command reaches the node that has its slot even when the slot table is out of date:
    when the node the table names answers MOVED, the one it points at gets the command, and the
    result is what that one answers; the thread that follows the cluster is woken. *)
Theorem cluster_command_reaches_owner t key n cmd ty a0 c0 a1 c1 r1 w1 b out out' :
  m_slotMap t !! (crc16 key mod REDIS_SLOT_NUM) = Some a0 →
  oget a0 (m_clusterMap t) = Some c0 → oget a1 (m_clusterMap t) = Some c1 → 32 ∉ a1 →
  in_switch ty = true → (ty = REDIS_COMMAND_GET → is_Some (o_serial out)) →
  (a0 ≠ a1 → node_do (clusterHandler c0) cmd n RedisReplyInfo_new (world t) = Ok (true, moved (crc16 key mod REDIS_SLOT_NUM) a1, world t)) →
  (∀ r, node_do (clusterHandler c1) cmd n r (world t) = Ok (true, r1, w1)) →
  parse_reply r1 ty out = Ok (b, out') → redirection r1 = None →
  doRedisCommandCluster key n cmd ty out t = Ok ((default true b, out'), set_signal (set_world t w1) (bool_decide (a0 ≠ a1) || m_signalQueue t)).
Proof.
  intros Hs H0 H1 Ha Hty Hg Hm Hd Hp Hr. unfold doRedisCommandCluster.
  rewrite (bind_ok _ _ _ (Some a0) t) by (unfold getClusterIdBySlot; rewrite bind_get; by rewrite Hs). rewrite bind_get.
  destruct (decide (a0 = a1)) as [<-|Hne].
  - assert (c1 = c0) as -> by congruence. rewrite bool_decide_eq_false_2 by tauto. erewrite route_answered by done. done.
  - rewrite bool_decide_eq_true_2 by done. unfold route_fuel. cbn [Nat.mul Nat.add].
    rewrite (route_moved _ n cmd ty a0 [] [] 0 _ out t c0 _ a1 (world t) H0 (Hm Hne) Ha Hty Hg) by apply not_elem_of_nil.
    apply (route_answered _ n cmd ty a1 _ _ _ _ out (set_signal (set_world t (world t)) true) c1 r1 w1 b out'); [done|by apply Hd|done|done].
Qed.

(** A node that does not answer. *)
Definition fails (h : Z) (cmd : list RedisCmdParaInfo) (n : Z) : Prop := ∀ r w, ∃ r', node_do h cmd n r w = Ok (false, r', w).

Lemma route_failed fuel n cmd ty id reds bak i r out t c : 
  oget id (m_clusterMap t) = Some c → fails (clusterHandler c) cmd n →
  ∃ r', route fuel n cmd ty id reds bak i r out t =
    if IsCommandWriteType ty then Ok ((false, out), t) else
    let '(bak, i) := if bool_decide (bak = []) then (bakClusterList c, 0%nat) else (bak, S i) in
    match bak !! i with
    | Some id => match fuel with O => Err FFuel | S fuel => route fuel n cmd ty id reds bak i r' out t end
    | None => Ok ((false, out), t)
    end.
Proof.
  intros Hc Hf. destruct (Hf r (world t)) as [r' E]. exists (freeReplyInfo r').
  assert (set_world t (world t) = t) as Ht by (by destruct t).
  destruct fuel; cbn [route]; (rewrite (bind_ok _ _ _ (Some c) t) by (unfold getRedisClusterInfo; rewrite bind_get; by rewrite Hc));
    rewrite (bind_ok _ _ _ _ _ (on_world_ok _ _ _ _ E)), Ht; cbn [negb]; (destruct (IsCommandWriteType ty); [done|]);
    case_bool_decide; cbv zeta; case_match; done.
Qed.

(** The stand-ins are tried in order. *)
Lemma route_standins fuel n cmd ty reds bak l i r out t a1 c1 r1 w1 b out' :
  IsCommandWriteType ty = false → bak ≠ [] → (length l ≤ fuel)%nat →
  (∀ j, bak !! (i + j)%nat = (l ++ [a1]) !! j ∨ (length l < j)%nat) →
  Forall (λ a, ∃ c, oget a (m_clusterMap t) = Some c ∧ fails (clusterHandler c) cmd n) l →
  oget a1 (m_clusterMap t) = Some c1 → (∀ r, node_do (clusterHandler c1) cmd n r (world t) = Ok (true, r1, w1)) →
  parse_reply r1 ty out = Ok (b, out') → redirection r1 = None →
  route fuel n cmd ty (default a1 (head l)) reds bak i r out t = Ok ((default true b, out'), set_world t w1).
Proof.
  intros Hw Hb Hf Hl Hfail H1 Hd Hp Hr. revert fuel i r Hf Hl. induction Hfail as [|a l (c & Hc & Hfa) _ IH]; intros fuel i r Hf Hl.
  - by eapply route_answered.
  - destruct fuel as [|fuel]; [simpl in Hf; lia|]. change (default a1 (head (a :: l))) with a.
    destruct (route_failed (S fuel) n cmd ty a reds bak i r out t c Hc Hfa) as [r' E]. rewrite E, Hw.
    rewrite bool_decide_eq_false_2 by done. cbv iota beta.
    assert (bak !! S i = Some (default a1 (head l))) as ->.
    { destruct (Hl 1%nat) as [E1|E1]; [|simpl in E1; lia]. rewrite Nat.add_1_r in E1. rewrite E1. by destruct l. }
    apply IH; [simpl in Hf; lia|]. intros j. specialize (Hl (S j)). simpl in Hl. rewrite <-plus_n_Sm in Hl. simpl. destruct Hl; [by left|right; lia].
Qed.

Lemma max_standins (m : CLUSTER_MAP) a c :
  oget a m = Some c → (length (bakClusterList c) ≤ foldr Nat.max 0 ((λ p, length (bakClusterList p.2)) <$> m))%nat.
Proof.
  induction m as [|[k d] m IH]; [done|]. cbn [oget fmap list_fmap foldr snd]. case_decide.
  - intros [= ->]. apply Nat.le_max_l.
  - intros E. etrans; [by apply IH|]. apply Nat.le_max_r.
Qed.

(** C38. When the node of a slot does not answer, a command that reads is tried on its stand-ins
    in order, and the first one that answers gives the result; a command that writes fails
    without reaching any of them. *)
Theorem cluster_standins t key n cmd ty a0 c0 l a1 more c1 r1 w1 b out out' :
  m_slotMap t !! (crc16 key mod REDIS_SLOT_NUM) = Some a0 → oget a0 (m_clusterMap t) = Some c0 →
  bakClusterList c0 = l ++ a1 :: more → fails (clusterHandler c0) cmd n →
  Forall (λ a, ∃ c, oget a (m_clusterMap t) = Some c ∧ fails (clusterHandler c) cmd n) l →
  oget a1 (m_clusterMap t) = Some c1 → (∀ r, node_do (clusterHandler c1) cmd n r (world t) = Ok (true, r1, w1)) →
  parse_reply r1 ty out = Ok (b, out') → redirection r1 = None →
  doRedisCommandCluster key n cmd ty out t =
    if IsCommandWriteType ty then Ok ((false, out), t) else Ok ((default true b, out'), set_world t w1).
Proof.
  intros Hs H0 Hb Hf Hl H1 Hd Hp Hr. unfold doRedisCommandCluster.
  rewrite (bind_ok _ _ _ (Some a0) t) by (unfold getClusterIdBySlot; rewrite bind_get; by rewrite Hs). rewrite bind_get.
  pose proof (max_standins _ _ _ H0) as Hmax. rewrite Hb, length_app in Hmax. simpl in Hmax.
  assert (∃ f, route_fuel (m_clusterMap t) = S f ∧ length l ≤ f)%nat as (f & -> & Hlen).
  { unfold route_fuel. set (B := foldr _ _ _) in *. exists (pred (S (S (length (m_clusterMap t))) * S (S B))). nia. }
  destruct (route_failed (S f) n cmd ty a0 [] [] 0 RedisReplyInfo_new out t c0 H0 Hf) as [r' ->].
  destruct (IsCommandWriteType ty) eqn:Hw; [done|]. rewrite bool_decide_eq_true_2 by done. cbv iota beta. rewrite Hb.
  assert ((l ++ a1 :: more) !! 0%nat = Some (default a1 (head l))) as -> by (by destruct l).
  eapply route_standins; try done; [by destruct l|]. intros j. destruct (decide (length l < j)%nat) as [|Hj]; [by right|left].
  simpl. rewrite cons_middle, app_assoc. rewrite lookup_app_l by (rewrite length_app; simpl; lia). done.
Qed.

(** ** Redirections end *)

(** The known nodes that were not redirected to yet, and the passes that are left. *)
Definition left_nodes (m : CLUSTER_MAP) (reds : list (list Z)) : nat := length (filter (λ a, a ∉ reds) m.*1).
Definition most_standins (m : CLUSTER_MAP) : nat := foldr Nat.max 0%nat ((λ p, length (bakClusterList p.2)) <$> m).

Definition passes (m : CLUSTER_MAP) (reds bak : list (list Z)) (i : nat) : nat :=
  S (left_nodes m reds * S (S (most_standins m)) + if bool_decide (bak = []) then S (most_standins m) else length bak - i).

Lemma left_nodes_le m reds : (left_nodes m reds ≤ length m)%nat.
Proof. unfold left_nodes. etrans; [apply length_filter|]. by rewrite length_fmap. Qed.

Lemma left_nodes_lt m reds a : a ∈ m.*1 → a ∉ reds → (left_nodes m (reds ++ [a]) < left_nodes m reds)%nat.
Proof.
  intros Ha Hr. unfold left_nodes. induction m.*1 as [|x l IH]; [set_solver|].
  assert (length (filter (λ a0, a0 ∉ reds ++ [a]) l) ≤ length (filter (λ a0, a0 ∉ reds) l))%nat as Hle.
  { clear. induction l as [|x l IH]; [done|]. rewrite !filter_cons. repeat case_decide; simpl; try lia; set_solver. }
  rewrite !filter_cons. apply elem_of_cons in Ha as [<-|Ha].
  - rewrite decide_False by set_solver. rewrite decide_True by done. simpl. lia.
  - specialize (IH Ha). repeat case_decide; simpl; try lia; set_solver.
Qed.

(** The first element of a reply, when the command reads it. *)
Definition first_value (r : RedisReplyInfo) (P : list Z → Z → Prop) : Prop :=
  replyType r = REDIS_REPLY_STRING → ∀ a rest, arrayList r = a :: rest → ai_type a ≠ REDIS_REPLY_NIL →
  ∃ v, arrayValue a = Some v ∧ P v (arrayLen a).

(** What a command needs of a reply to read it: values where it looks for them, a record that can be
    loaded, a score that fits its buffer and [int]. *)
Definition readable (ty : RedisCommandType) (r : RedisReplyInfo) : Prop :=
  match ty with
  | REDIS_COMMAND_GET => first_value r (λ v n, ∀ x : A, ∃ y, ser_load x (DBInStream_new (v ++ [0]) n) = Ok y)
  | REDIS_COMMAND_ZSCORE => first_value r (λ v n, n < 64 ∧ ∃ k, atoi (c_str v) = Ok k)
  | REDIS_COMMAND_ZRANGEBYSCORE | REDIS_COMMAND_SMEMBERS =>
      Forall (λ a, ai_type a = REDIS_REPLY_STRING → is_Some (arrayValue a)) (arrayList r)
  | _ => True
  end.

(** A GET has an object to load into. *)
Definition has_object (ty : RedisCommandType) out : Prop := ty = REDIS_COMMAND_GET → is_Some (o_serial out).

Lemma if_ok {X} (b : bool) (x y : result X) : (∃ z, x = Ok z) → (∃ z, y = Ok z) → ∃ z, (if b then x else y) = Ok z.
Proof. by destruct b. Qed.

Lemma get_readable r (x : A) : readable REDIS_COMMAND_GET r → ∃ y, parseGetSerialReply CLUSTER_MODE r x = Ok y.
Proof.
  intros Hr. unfold parseGetSerialReply. apply if_ok; [by eexists|]. case_bool_decide as Ht; [|by eexists]. cbn [negb].
  destruct (arrayList r) as [|a rest] eqn:El; [by eexists|]. case_bool_decide as Hn; [by eexists|].
  destruct (Hr Ht a rest El Hn) as (v & -> & Hl). cbn [deref mbind result_bind]. destruct (Hl x) as [[y i] ->]. by eexists.
Qed.

Lemma score_readable r : readable REDIS_COMMAND_ZSCORE r → ∃ y, parse_score r = Ok y.
Proof.
  intros Hr. unfold parse_score. case_bool_decide as Ht; [|by eexists]. cbn [negb].
  destruct (arrayList r) as [|a rest] eqn:El; [by eexists|]. case_bool_decide as Hn; [by eexists|].
  destruct (Hr Ht a rest El Hn) as (v & -> & Hl & k & Hk). cbn [deref mbind result_bind].
  rewrite (proj2 (Z.leb_gt _ _)) by done. rewrite Hk. by eexists.
Qed.

Lemma elements_readable l : Forall (λ a, ai_type a = REDIS_REPLY_STRING → is_Some (arrayValue a)) l → ∃ y, string_elements l = Ok y.
Proof.
  induction 1 as [|a l Ha _ [y IH]]; [by eexists|]. cbn [string_elements]. case_bool_decide as Ht.
  - destruct (Ha Ht) as [v ->]. cbn [deref mbind result_bind]. rewrite IH. by eexists.
  - cbn [mbind result_bind]. rewrite IH. by eexists.
Qed.

Lemma keys_readable r l : readable REDIS_COMMAND_SMEMBERS r → ∃ y, parseGetKeysReply r l = Ok y.
Proof.
  intros Hr. unfold parseGetKeysReply. do 2 (apply if_ok; [by eexists|]). destruct (elements_readable _ Hr) as [y ->]. by eexists.
Qed.

(** A readable reply is read, whatever it says. *)
Lemma reply_read ty r out : readable ty r → has_object ty out → ∃ b out', parse_reply r ty out = Ok (b, out') ∧ has_object ty out'.
Proof.
  intros Hr Ho. assert (∀ x, ty ≠ REDIS_COMMAND_GET → parse_reply r ty out = Ok x → ∃ b out', parse_reply r ty out = Ok (b, out') ∧ has_object ty out') as Hne.
  { intros [b out'] Hty ->. exists b, out'. split; [done|]. by intros ?. }
  destruct ty; try (edestruct Hne as (b & out' & E & H); [done| |by exists b, out']; done).
  all: try (unfold parse_reply; by repeat (case_match; try (eexists _, _; split; [done|]; by intros ?))).
  - destruct (Ho eq_refl) as [x Hx]. destruct (get_readable r x Hr) as [[ok y] E]. unfold parse_reply. rewrite Hx. cbn [deref mbind result_bind].
    rewrite E. eexists _, _. split; [done|]. by intros _; eexists.
  - unfold parse_reply. case_match; [by eexists _, _|]. destruct (score_readable r Hr) as [[k|] ->]; eexists _, _; (split; [done|]; by intros ?).
  - unfold parse_reply. case_match; [by eexists _, _|]. destruct (keys_readable r (o_members out) Hr) as [[b l] ->]. eexists _, _. split; [done|]. by intros ?.
  - unfold parse_reply. case_match; [by eexists _, _|]. destruct (keys_readable r (o_members out) Hr) as [[b l] ->]. eexists _, _. split; [done|]. by intros ?.
Qed.

(** The nodes answer or fail, and what they answer can be read. *)
Definition answers (cmd : list RedisCmdParaInfo) (n : Z) (ty : RedisCommandType) : Prop :=
  ∀ h r w, ∃ ok r' w', node_do h cmd n r w = Ok (ok, r', w') ∧ (ok = true → readable ty r').

Lemma route_returns cmd n ty fuel id reds bak i r out t :
  answers cmd n ty → has_object ty out →
  bak = [] ∨ (i < length bak ≤ most_standins (m_clusterMap t))%nat →
  (is_Some (oget id (m_clusterMap t)) → passes (m_clusterMap t) reds bak i ≤ fuel)%nat →
  ∃ x t', route fuel n cmd ty id reds bak i r out t = Ok (x, t').
Proof.
  intros Hd. revert id reds bak i r out t. induction fuel as [|fuel IH]; intros id reds bak i r out t Hp Hb Hf; cbn [route].
  all: rewrite (bind_ok _ _ _ (oget id (m_clusterMap t)) t) by done; destruct (oget id (m_clusterMap t)) as [c|] eqn:Ec; [|by eexists _, _].
  { exfalso. specialize (Hf ltac:(by eexists)). unfold passes in Hf. lia. }
  specialize (Hf ltac:(by eexists)). destruct (Hd (clusterHandler c) r (world t)) as (ok & r' & w & E & Hrd).
  rewrite (bind_ok _ _ _ _ _ (on_world_ok _ _ _ _ E)). destruct ok; cbn [negb].
  - destruct (reply_read ty r' out (Hrd eq_refl) Hp) as ([b|] & out' & Eb & Hp'); rewrite (bind_lift _ _ _ _ Eb); [by eexists _, _|].
    destruct (redirection r') as [a|]; [|by eexists _, _]. unfold SignalToDoClusterNodes. rewrite bind_modify.
    case_bool_decide as Ha; [by eexists _, _|]. apply IH; [done|by left|]. simpl. intros Hk%oget_key.
    pose proof (left_nodes_lt _ _ _ Hk Ha) as Hlt. unfold passes in *. rewrite bool_decide_eq_true_2 by done. simpl in *.
    set (B := most_standins _) in *. nia.
  - destruct (IsCommandWriteType ty); [by eexists _, _|]. pose proof (max_standins _ _ _ Ec) as Hmax. fold (most_standins (m_clusterMap t)) in Hmax.
    unfold passes in Hf. destruct (bool_decide (bak = [])) eqn:Eb.
    + destruct (bakClusterList c !! 0%nat) as [a|] eqn:E0; [|by eexists _, _]. apply lookup_lt_Some in E0. apply IH; [done|right; simpl; lia|].
      intros _. unfold passes. cbn [m_clusterMap set_world]. rewrite bool_decide_eq_false_2 by (intros E1; rewrite E1 in E0; simpl in E0; lia). lia.
    + apply bool_decide_eq_false in Eb. destruct Hb as [Hb|Hb]; [done|]. destruct (bak !! S i) as [a|] eqn:E0; [|by eexists _, _].
      apply lookup_lt_Some in E0. apply IH; [done|right; simpl; lia|]. intros _. unfold passes. simpl. rewrite bool_decide_eq_false_2 by done. lia.
Qed.

(** C33. A command comes back when the nodes answer what it can read or fail: redirections in a
    circle, to unknown nodes and failing stand-ins end, and the bound on the passes is never
    reached. What can be read is any reply whose values are there where the command looks for
    them, with a record that loads for GET and, for ZSCORE, a score that has less than 64 bytes
    and fits an int. *)
Theorem cluster_command_returns t key n cmd ty out :
  answers cmd n ty → has_object ty out →
  ∃ b out' t', doRedisCommandCluster key n cmd ty out t = Ok ((b, out'), t').
Proof.
  intros Hd Hp. unfold doRedisCommandCluster. rewrite (bind_ok _ _ _ (m_slotMap t !! (crc16 key mod REDIS_SLOT_NUM)) t) by done.
  destruct (m_slotMap t !! _) as [a|]; [|by eexists _, _, _]. rewrite bind_get.
  destruct (route_returns cmd n ty (route_fuel (m_clusterMap t)) a [] [] 0 RedisReplyInfo_new out t Hd Hp) as ([b out'] & t' & E).
  - by left.
  - intros _. unfold passes, route_fuel. fold (most_standins (m_clusterMap t)). rewrite bool_decide_eq_true_2 by done.
    pose proof (left_nodes_le (m_clusterMap t) []). set (B := most_standins _) in *. nia.
  - by exists b, out', t'.
Qed.

(** ** An update that fails *)

(** The check of [DoCheckClusterNodes] that nothing has changed. *)
Definition fits (m old : CLUSTER_MAP) : bool :=
  forallb (λ p, match oget p.1 old with Some o => unchanged p.2 o | None => false end) m &&
  forallb (λ p, bool_decide (is_Some (oget p.1 m))) old.

(** No node of [l] has the slot. *)
Definition uncovered (l : CLUSTER_MAP) (i : Z) : Prop := ∀ p, p ∈ l → ¬ covers p.2 i.

Lemma fill_all_uncovered l i : uncovered l i → fill_all l ∅ !! i = None.
Proof.
  unfold fill_all, uncovered. intros H. assert ((∅ : gmap Z (list Z)) !! i = None) as E by apply lookup_empty. revert E. generalize (∅ : gmap Z (list Z)).
  induction l as [|p l IH]; intros m E; [done|]. cbn [foldl]. apply IH; [set_solver|]. rewrite fill_slots_miss; [done|]. apply H. set_solver.
Qed.

(** C39. When a new node cannot be connected to, the update stops with the slot table made from
    the nodes before it alone. If the next description is that of the nodes known then, nothing
    seems to have changed and the table stays as it is; a command whose slot none of those nodes
    has fails, without asking for another round. *)
Theorem cluster_failed_update_sticks t before id c after :
  Forall (reachable t) before → NoDup (before ++ (id, c) :: after).*1 →
  oget id (m_clusterMap t) = None → (∀ w, ∃ w', node_open (connectIp c) (connectPort c) (m_connectionNum cfg) w = Ok (None, w')) →
  ∃ t1, checkAndSaveRedisClusters cfg (before ++ (id, c) :: after) t = Ok (false, t1) ∧ m_slotMap t1 = fill_all before ∅ ∧
    ∀ ds a0 c0 known, closes → cluster_ok ds → existsb slotless ds = false → has (lit "myself,slave") (print_descrs ds) = false →
      m_clusterMap t1 = (a0, c0) :: known → describes (clusterHandler c0) ds →
      (∀ m, parseClusterInfo cfg (nodes_reply (print_descrs ds)) [] = Ok (true, m) → fits m (m_clusterMap t1) = true) →
      ∃ t2, DoCheckClusterNodes cfg t1 = Ok (tt, t2) ∧ m_slotMap t2 = fill_all before ∅ ∧
        ∀ key n cmd ty out, uncovered before (crc16 key mod REDIS_SLOT_NUM) →
          doRedisCommandCluster key n cmd ty out t2 = Ok ((false, out), t2).
Proof.
  intros Hb Hnd Hno Hw. rewrite fmap_app in Hnd. apply NoDup_app in Hnd as (Hnd & Hdis & _).
  destruct (save_prefix before ((id, c) :: after) (set_slotMap t ∅) Hb Hnd) as (t0 & E0 & S0 & _ & _ & K0).
  assert (oget id (m_clusterMap t0) = None) as Hno0.
  { rewrite K0; [done|]. apply eq_None_not_Some. rewrite oget_key. intros Hin. apply (Hdis id Hin). set_solver. }
  destruct (Hw (world t0)) as (w & Ew). set (t1 := set_world t0 w).
  assert (save_clusters cfg ((id, c) :: after) t0 = Ok (false, t1)) as E1.
  { cbn [save_clusters]. rewrite (bind_ok _ _ _ None t0) by (unfold getRedisClusterInfo; rewrite bind_get; by rewrite Hno0).
    cbv iota beta zeta. rewrite (bind_ok _ _ t0 None t1); [done|]. by rewrite (bind_ok _ _ _ None _ (on_world_ok _ t0 _ _ Ew)). }
  exists t1. split; [|split; [exact S0|]].
  - unfold checkAndSaveRedisClusters. rewrite bind_modify. rewrite E1 in E0. by rewrite (bind_ok _ _ _ _ _ E0).
  - intros ds a0 c0 known Hcl Hok Hsl Hms Em Hd Hfit. change (m_slotMap t1 = fill_all before ∅) in S0.
    destruct (release_ok t1 Hcl) as (t2 & E2 & M2 & S2 & Q2).
    destruct (ask_known_ok ds t2 a0 c0 known Hok Hsl Hms ltac:(by rewrite M2) Hd) as (m & t3 & E3 & _ & (M3 & S3 & Q3) & Ep).
    exists t3. split; [|split; [congruence|]].
    + unfold DoCheckClusterNodes. rewrite (bind_ok _ _ _ _ _ E2), (bind_ok _ _ _ _ _ E3). cbn iota. rewrite bind_get. cbv zeta.
      rewrite M3, M2. fold (fits m (m_clusterMap t1)). by rewrite (Hfit m Ep).
    + intros key n cmd ty out Hu. unfold doRedisCommandCluster. rewrite (bind_ok _ _ _ None t3); [done|].
      unfold getClusterIdBySlot. rewrite bind_get. rewrite S3, S2, S0. by rewrite fill_all_uncovered.
Qed.
End tables.

(** ** A cluster to run the client on *)

(** Handlers are numbers made from addresses. *)
Definition number (a : list Z) : Z := foldl (λ h b, 256 * h + b) 1 a.

(** The nodes describe the cluster [ds] and remember nothing.  Those at the addresses [refuse] cannot
    be connected to, those at [dead] do not answer, and the one at [who] has the slot [slot]. *)
Definition toy_nodes (ds : list descr) (refuse dead : list (list Z)) (slot : Z) (who : list Z) : Nodes unit := {|
  node_ask := λ ip port cmd n w, Ok (Some (true, nodes_reply (print_descrs ds)), w);
  node_open := λ ip port n w, let a := ip ++ 58 :: ToString port in Ok (if bool_decide (a ∈ refuse) then None else Some (number a), w);
  node_do := λ h cmd n r w,
    Ok (if bool_decide (h ∈ number <$> dead) then (false, r, w)
        else if bool_decide ((paraValue <$> cmd) = [lit "cluster" ++ [0]; lit "nodes" ++ [0]]) then (true, nodes_reply (print_descrs ds), w)
        else if bool_decide (h = number who) then (true, mkReply REDIS_REPLY_INTEGER [] 1 [], w)
        else (true, moved slot who, w));
  node_idle := λ h w, Ok (true, w);
  node_free := λ h w, Ok (tt, w);
|}.

Lemma toy_opens ds dead slot who : opens (Nodes0 := toy_nodes ds [] dead slot who).
Proof. intros ip port n w. exists (number (ip ++ 58 :: ToString port)), w. done. Qed.

Lemma toy_closes ds refuse dead slot who : closes (Nodes0 := toy_nodes ds refuse dead slot who).
Proof. split; [intros h w; by exists true, w|intros h w; by exists w]. Qed.

Lemma toy_describes ds refuse slot who h : describes (Nodes0 := toy_nodes ds refuse [] slot who) h ds.
Proof. intros w. exists w. done. Qed.

Lemma demo_one_owner : one_owner demo.
Proof.
  assert (ups demo = [demo_a; demo_c; demo_b]) as Eu by reflexivity.
  assert (∀ i a, owner demo i a → (a = n_address demo_a ∧ (0 ≤ i ≤ 99 ∨ 8192 ≤ i)) ∨ (a = n_address demo_b ∧ 100 ≤ i ≤ 8191)) as H.
  { intros i a (n & Hn & Hm & <- & r & Hr & Hi). rewrite Eu in Hn. rewrite !elem_of_cons, elem_of_nil in Hn.
    destruct Hn as [->|[->|[->|[]]]]; [left|by vm_compute in Hm|right]; (split; [done|]); cbn [demo_a demo_b n_slots] in Hr;
      rewrite !elem_of_cons, elem_of_nil in Hr; [destruct Hr as [->|[->|[]]]|destruct Hr as [->|[]]]; simpl in Hi; lia. }
  intros i a b Ha%H Hb%H. destruct Ha as [[-> ?]|[-> ?]], Hb as [[-> ?]|[-> ?]]; done || lia.
Qed.

Definition demo_cfg : config := mkConfig 4 5 6 [].

Lemma cluster_slots_routed_witness :
  ∃ t', init_cluster_mode (Nodes0 := toy_nodes demo [] [] 0 []) demo_cfg [(lit "10.0.0.1", 7000)] true (mkTables [] ∅ [] false tt) = Ok (true, t') ∧
    m_slotMap t' !! 8191 = Some (n_address demo_b).
Proof.
  destruct (cluster_slots_routed (Nodes0 := toy_nodes demo [] [] 0 []) demo_cfg demo (lit "10.0.0.1") 7000 [] (mkTables [] ∅ [] false tt) tt) as (t' & E & H & _);
    [apply toy_opens|reflexivity|apply demo_ok|vm_compute; reflexivity|vm_compute; reflexivity|apply demo_one_owner|reflexivity|reflexivity|].
  exists t'. split; [exact E|]. apply H. exists demo_b. split; [|split; [|split]].
  - change (ups demo) with [demo_a; demo_c; demo_b]. rewrite !elem_of_cons. by right; right; left.
  - vm_compute. reflexivity.
  - reflexivity.
  - exists (100, 8191). split; [apply list_elem_of_singleton; reflexivity|simpl; lia].
Defined.

(** The client knows the stand-in only. *)
Definition entry (n : node) : list Z * RedisClusterInfo := (n_address n, set_handler (number (n_address n)) (set_options demo_cfg (node_info n))).

Lemma cluster_refresh_witness :
  ∃ t', CheckClusterNodesThreadFunc (Nodes0 := toy_nodes demo [] [] 0 []) demo_cfg (mkTables [entry demo_c] ∅ [] true tt) = Ok (tt, t') ∧ follows demo t'.
Proof.
  destruct (cluster_refresh (Nodes0 := toy_nodes demo [] [] 0 []) demo_cfg demo (mkTables [entry demo_c] ∅ [] true tt) (entry demo_c).1 (entry demo_c).2 [])
    as (t' & E & H & _); [apply toy_opens|apply toy_closes|apply demo_ok|vm_compute; reflexivity|vm_compute; reflexivity|apply demo_one_owner|vm_compute; reflexivity|reflexivity| | | |reflexivity|].
  - apply toy_describes.
  - repeat constructor. set_solver.
  - intros i a. split; [intros Hi; vm_compute in Hi; discriminate Hi|]. intros (c & Hin & Hm & _).
    apply list_elem_of_singleton in Hin. injection Hin as -> ->. vm_compute in Hm. discriminate Hm.
  - exact (ex_intro _ t' (conj E H)).
Defined.

(** The key [k] has the slot 7629, and the table leads to the wrong master. *)
Definition stale : tables (W := unit) := mkTables [entry demo_a; entry demo_b] {[7629 := n_address demo_a]} [] false tt.
Definition ask : list RedisCmdParaInfo := command [lit "exists"; lit "k"].

Lemma cluster_command_reaches_owner_witness :
  doRedisCommandCluster (Nodes0 := toy_nodes demo [] [] 7629 (n_address demo_b)) (lit "k") 50 ask REDIS_COMMAND_EXISTS (mkOuts [] (None : option Device) None) stale =
    Ok ((true, mkOuts [] None None), set_signal stale true).
Proof.
  refine (cluster_command_reaches_owner (Nodes0 := toy_nodes demo [] [] 7629 (n_address demo_b)) stale (lit "k") 50 ask REDIS_COMMAND_EXISTS
    (n_address demo_a) (entry demo_a).2 (n_address demo_b) (entry demo_b).2 (mkReply REDIS_REPLY_INTEGER [] 1 []) tt (Some true) _ _ _ _ _ _ _ _ _ _ _ _);
    [vm_compute; reflexivity|vm_compute; reflexivity|vm_compute; reflexivity|decided|reflexivity|discriminate| | |reflexivity|reflexivity].
  - intros _. vm_compute. reflexivity.
  - intros r. vm_compute. reflexivity.
Defined.

(** A node with a stand-in that is dead too, and one that answers. *)
Definition backed : tables (W := unit) :=
  mkTables [(n_address demo_a, push_bak (n_address demo_c) (push_bak (n_address demo_b) (entry demo_a).2)); entry demo_b; entry demo_c]
    {[7629 := n_address demo_a]} [] false tt.

Lemma cluster_standins_witness :
  doRedisCommandCluster (Nodes0 := toy_nodes demo [] [n_address demo_a; n_address demo_b] 7629 (n_address demo_c)) (lit "k") 50 ask REDIS_COMMAND_EXISTS
    (mkOuts [] (None : option Device) None) backed = Ok ((true, mkOuts [] None None), backed).
Proof.
  refine (cluster_standins (Nodes0 := toy_nodes demo [] [n_address demo_a; n_address demo_b] 7629 (n_address demo_c)) backed (lit "k") 50 ask
    REDIS_COMMAND_EXISTS (n_address demo_a) (push_bak (n_address demo_c) (push_bak (n_address demo_b) (entry demo_a).2)) [n_address demo_b]
    (n_address demo_c) [] (entry demo_c).2 (mkReply REDIS_REPLY_INTEGER [] 1 []) tt (Some true) _ _ _ _ _ _ _ _ _ _ _);
    [vm_compute; reflexivity|vm_compute; reflexivity|reflexivity| | |vm_compute; reflexivity| |reflexivity|reflexivity].
  - intros r w. exists r. vm_compute. reflexivity.
  - constructor; [|constructor]. exists (entry demo_b).2. split; [vm_compute; reflexivity|]. intros r w. exists r. vm_compute. reflexivity.
  - intros r. vm_compute. reflexivity.
Defined.

(** A stored record, and nodes that redirect to the one at [who], which answers with it. *)
Definition saved : list Z :=
  match (o ← DBOutStream_new (λ _, true); Device_save (λ _, true) (mkDevice (lit "d1") (lit "10.1.1.1") 5060 1) o) with
  | Ok (_, o) => take (Z.to_nat (getSize o)) (o_data o)
  | Err _ => []
  end.
Definition saved_reply : RedisReplyInfo := mkReply REDIS_REPLY_STRING [] 0 [mkInfo REDIS_REPLY_STRING (Some saved) (len saved)].

Definition toy_store (slot : Z) (who : list Z) : Nodes unit := {|
  node_ask := λ ip port cmd n w, Ok (None, w);
  node_open := λ ip port n w, Ok (None, w);
  node_do := λ h cmd n r w, Ok (true, if bool_decide (h = number who) then saved_reply else moved slot who, w);
  node_idle := λ h w, Ok (true, w);
  node_free := λ h w, Ok (tt, w);
|}.

Lemma toy_store_answers slot who cmd n : answers (A := Device) (Nodes0 := toy_store slot who) cmd n REDIS_COMMAND_GET.
Proof.
  intros h r w. exists true, (if bool_decide (h = number who) then saved_reply else moved slot who), w. split; [reflexivity|]. intros _.
  destruct (bool_decide (h = number who)); [|intros E; discriminate E].
  intros _ a rest [= <- <-] _. exists saved. split; [reflexivity|]. intros [x1 x2 x3 x4]. eexists. vm_compute. reflexivity.
Qed.

(** A GET that is redirected and finds the record, and one whose redirection leads nowhere. *)
Lemma cluster_command_returns_witness :
  (∃ b out' t', doRedisCommandCluster (Nodes0 := toy_store 7629 (n_address demo_b)) (lit "k") 50 (command [lit "get"; lit "k"]) REDIS_COMMAND_GET
    (mkOuts [] (Some (mkDevice [] [] 0 0)) None) stale = Ok ((b, out'), t')) ∧
  (∃ b out' t', doRedisCommandCluster (Nodes0 := toy_store 7629 (lit "10.0.0.9:1")) (lit "k") 50 (command [lit "get"; lit "k"]) REDIS_COMMAND_GET
    (mkOuts [] (Some (mkDevice [] [] 0 0)) None) stale = Ok ((b, out'), t')).
Proof.
  split; (apply cluster_command_returns; [apply toy_store_answers|intros _; eexists; reflexivity]).
Defined.

(** The entries of the masters and the stand-in of [demo], and a new master between the first two. *)
Definition entry_a : list Z * RedisClusterInfo := (n_address demo_a, push_bak (n_address demo_c) (entry demo_a).2).
Definition settled : tables (W := unit) := mkTables [entry_a; entry demo_b; entry demo_c] {[7629 := n_address demo_b]} [] false tt.
Definition demo_mid : node := mkNode (lit "id-g") (lit "10.0.0.1") 8000 [] (lit "master") (lit "-") (lit "0 15 4") [(16383, 16383)].
Abbreviation mid_refuses := (toy_nodes demo [n_address demo_mid] [] 0 []).
Abbreviation mid_list := ([entry_a] ++ (n_address demo_mid, (entry demo_mid).2) :: [entry demo_b; entry demo_c]).

Lemma mid_known t1 : checkAndSaveRedisClusters (Nodes0 := mid_refuses) demo_cfg mid_list settled = Ok (false, t1) →
  m_clusterMap t1 = [entry_a; entry demo_b; entry demo_c].
Proof.
  assert (match checkAndSaveRedisClusters (Nodes0 := mid_refuses) demo_cfg mid_list settled with Ok (_, t) => Some (m_clusterMap t) | Err _ => None end =
    Some [entry_a; entry demo_b; entry demo_c]) as Em by (vm_compute; reflexivity).
  intros E. rewrite E in Em. injection Em as ->. reflexivity.
Qed.

Lemma mid_fits m : parseClusterInfo demo_cfg (nodes_reply (print_descrs demo)) [] = Ok (true, m) → fits m [entry_a; entry demo_b; entry demo_c] = true.
Proof. intros E. vm_compute in E. injection E as <-. vm_compute. reflexivity. Qed.

Lemma mid_uncovered : uncovered [entry_a] (crc16 (lit "k") mod REDIS_SLOT_NUM).
Proof.
  assert (crc16 (lit "k") mod REDIS_SLOT_NUM = 7629) as -> by (vm_compute; reflexivity).
  assert (slotMap entry_a.2 = [(0, 99); (8192, 16383)]) as Es by (vm_compute; reflexivity).
  intros p Hp%list_elem_of_singleton. subst p. intros (_ & r & Hr & Hi). rewrite Es in Hr.
  rewrite !elem_of_cons, elem_of_nil in Hr. destruct Hr as [->|[->|[]]]; simpl in Hi; lia.
Qed.

Lemma cluster_failed_update_sticks_witness :
  ∃ t1 t2, checkAndSaveRedisClusters (Nodes0 := mid_refuses) demo_cfg mid_list settled = Ok (false, t1) ∧
    DoCheckClusterNodes (Nodes0 := mid_refuses) demo_cfg t1 = Ok (tt, t2) ∧
    doRedisCommandCluster (Nodes0 := mid_refuses) (lit "k") 50 ask REDIS_COMMAND_EXISTS (mkOuts [] (None : option Device) None) t2 =
      Ok ((false, mkOuts [] None None), t2).
Proof.
  destruct (cluster_failed_update_sticks (Nodes0 := mid_refuses) demo_cfg (A := Device) settled [entry_a] (n_address demo_mid) (entry demo_mid).2 [entry demo_b; entry demo_c])
    as (t1 & E1 & _ & H).
  - constructor; [|constructor]. left. vm_compute. eexists. reflexivity.
  - decided.
  - vm_compute. reflexivity.
  - intros w. exists w. vm_compute. reflexivity.
  - pose proof (mid_known t1 E1) as Em.
    destruct (H demo entry_a.1 entry_a.2 [entry demo_b; entry demo_c]) as (t2 & E2 & _ & Hc).
    + apply toy_closes.
    + apply demo_ok.
    + vm_compute. reflexivity.
    + vm_compute. reflexivity.
    + exact Em.
    + apply toy_describes.
    + intros m Ep. rewrite Em. exact (mid_fits m Ep).
    + exact (ex_intro _ t1 (ex_intro _ t2 (conj E1 (conj E2 (Hc (lit "k") 50 ask REDIS_COMMAND_EXISTS (mkOuts [] None None) mid_uncovered))))).
Defined.
End GbClusterProps.
