(* ===== verification/GbClusterKeys.v ===== *)
(** The redis client in cluster mode: operations on many keys (KEYS, SCAN, deletion by prefix),
    optimistic locks on a key, and the end of the client, of
    [gb/downdatarestorer_norah/redisclient.cpp]; and their theorems. *)

From stdpp Require Import strings.
From S2P Require Import Prelude GbStream GbResp GbRespProps GbPool GbClient GbCluster GbClusterFacts GbClusterProps.
From stdpp Require Import options.
#[local] Open Scope Z_scope.

Module GbClusterKeys.
Import GbStream GbResp GbClient GbCluster.

(** What else the client uses of a handler: [doRedisCommandOneConnection], with the connection it
    is given or takes, [freeConnection], and [doRedisCommand] with the parser of SCAN replies. *)
Class NodeConns (W : Type) := {
  node_conn : Z → list RedisCmdParaInfo → Z → RedisReplyInfo → bool → option Z → W → result (bool * RedisReplyInfo * option Z * W);
  node_freeConnection : Z → option Z → W → result (unit * W);
  node_scan : Z → list RedisCmdParaInfo → Z → RedisReplyInfo → W → result (bool * RedisReplyInfo * W);
}.

Inductive ScanMode := SCAN_LOOP | SCAN_NOLOOP.

Record RedisLockInfo := mkLock { lock_clusterId : list Z; connection : option Z }.
Definition RedisLockInfo_new : RedisLockInfo := mkLock [] None.

(** The strings of a reply to SCAN are appended; the cursor, -1 when it is not an array. *)
Definition parseScanKeysReply (r : RedisReplyInfo) (keys : list (list Z)) : result (bool * list (list Z) * Z) :=
  if negb (bool_decide (replyType r = REDIS_REPLY_ARRAY)) then Ok (false, keys, -1) else
  l ← string_elements (arrayList r);
  Ok (true, keys ++ l, intValue r).

(** The loop of [parseExecReply] with redirections. *)
Fixpoint exec_failed (l : list ReplyArrayInfo) : result bool :=
  match l with
  | [] => Ok false
  | a :: l =>
      if bool_decide (ai_type a = REDIS_REPLY_STRING) then
        v ← deref (arrayValue a);
        if strncmp_eq 1 (v ++ [0]) (lit "-") || strncmp_eq 2 (v ++ [0]) (lit ":0") then Ok true else exec_failed l
      else exec_failed l
  end.

Definition parseExecReply_redirect (r : RedisReplyInfo) : result bool :=
  if is_redirect CLUSTER_MODE r then Ok true else
  if negb (bool_decide (replyType r = REDIS_REPLY_ARRAY)) then Ok false else
  if intValue r =? -1 then Ok false else
  b ← exec_failed (arrayList r); Ok (negb b).

(** The parameters and their length; the ones of an earlier call are not freed. *)
Definition fillScanCommandPara (cursor : Z) (queryKey : list Z) (count : Z) (scanMode : ScanMode) : list RedisCmdParaInfo * Z :=
  let cursor := match scanMode with SCAN_NOLOOP => 0 | SCAN_LOOP => cursor end in
  let l := [lit "scan"; ToString cursor; lit "MATCH"; queryKey ++ lit "*"; lit "COUNT"; ToString count] in
  (command l, s32 (foldl (λ n v, n + (len v + 10 + 1)) 0 l)).

Section keys.
Context {W : Type} `{!Nodes W, !NodeConns W}.

Abbreviation MT := (M (tables (W := W))).

Definition getRedisClusters : MT CLUSTER_MAP := t ← get; mret (m_clusterMap t).

(** ** KEYS *)

(** The stand-ins are all asked; the last reply counts. *)
Fixpoint ask_baks (paraList : list RedisCmdParaInfo) (paraLen : Z) (baks : list (list Z)) (r : RedisReplyInfo) (sendBak : bool) : MT (RedisReplyInfo * bool) :=
  match baks with
  | [] => mret (r, sendBak)
  | b :: baks =>
      c ← getRedisClusterInfo b;
      match c with
      | None => ask_baks paraList paraLen baks r sendBak
      | Some c =>
          '(ok, r) ← on_world (node_do (clusterHandler c) paraList paraLen r);
          if negb ok then ask_baks paraList paraLen baks (freeReplyInfo r) sendBak
          else ask_baks paraList paraLen baks r true
      end
  end.

Fixpoint keys_loop (paraList : list RedisCmdParaInfo) (paraLen : Z) (ids : list (list Z)) (keys : list (list Z)) : MT (list (list Z)) :=
  match ids with
  | [] => mret keys
  | id :: ids =>
      c ← getRedisClusterInfo id;
      match c with
      | None => keys_loop paraList paraLen ids keys
      | Some c =>
          if isMaster c && isAlived c then
            '(ok, r) ← on_world (node_do (clusterHandler c) paraList paraLen RedisReplyInfo_new);
            '(r, use) ← (if (ok : bool) then mret (r, true)
                         else if bool_decide (bakClusterList c = []) then mret (freeReplyInfo r, true)
                         else ask_baks paraList paraLen (bakClusterList c) (freeReplyInfo r) false);
            if negb use then keys_loop paraList paraLen ids keys else
            '(_, keys) ← lift (parseGetKeysReply r keys);
            keys_loop paraList paraLen ids keys
          else keys_loop paraList paraLen ids keys
      end
  end.

Definition getKeys (queryKey : list Z) (keys : list (list Z)) : MT (bool * list (list Z)) :=
  m ← getRedisClusters;
  let key := queryKey ++ lit "*" in
  keys ← keys_loop (command [lit "keys"; key]) (s32 (15 + (len key + 20))) m.*1 keys;
  mret (true, keys).

Fixpoint del_all (keys : list (list Z)) : MT unit :=
  match keys with
  | [] => mret tt
  | k :: keys => doRedisCommandCluster k (s32 (15 + (len k + 20))) (command [lit "del"; k]) REDIS_COMMAND_DEL (mkOuts [] (None : option Device) None);; del_all keys
  end.

Definition delKeys (keyPrefix : list Z) : MT bool := '(_, keys) ← getKeys keyPrefix []; del_all keys;; mret true.

(** ** SCAN *)

Definition COUNT := 10000.

(** Whether there are enough keys. *)
Definition enough (count : Z) (keys : list (list Z)) : bool := count <=? Z.of_nat (length keys).

(** A reply of the node [id] or of a stand-in: the cursor is kept with [id]. *)
Definition take_page (id : list Z) (r : RedisReplyInfo) (keys : list (list Z)) : MT (list (list Z) * Z) :=
  '(ok, keys, retCursor) ← lift (parseScanKeysReply r keys);
  (if (ok : bool) then updateClusterCursor id retCursor else mret tt);;
  mret (keys, retCursor).

(** The loop over the stand-ins of [id], which does not advance behind one that answers. *)
Fixpoint scan_baks (fuel : nat) (queryKey : list Z) (count : Z) (scanMode : ScanMode) (id : list Z) (baks : list (list Z))
    (r : RedisReplyInfo) (keys : list (list Z)) : MT (list (list Z)) :=
  match baks with
  | [] => mret keys
  | b :: rest =>
      let again := λ baks r keys, match fuel with O => fail FFuel | S fuel => scan_baks fuel queryKey count scanMode id baks r keys end in
      c ← getRedisClusterInfo b;
      match c with
      | None => again rest r keys
      | Some c =>
          let '(paraList, paraLen) := fillScanCommandPara (scanCursor c) queryKey COUNT scanMode in
          '(ok, r) ← on_world (node_scan (clusterHandler c) paraList paraLen r);
          if negb ok then again rest (freeReplyInfo r) keys else
          '(keys, retCursor) ← take_page id r keys;
          if enough count keys then mret keys else again baks (freeReplyInfo r) keys
      end
  end.

Fixpoint scan_loop (fuel : nat) (queryKey : list Z) (count : Z) (scanMode : ScanMode) (ids : list (list Z)) (keys : list (list Z)) : MT (list (list Z)) :=
  match ids with
  | [] => mret keys
  | id :: rest =>
      let again := λ ids keys, match fuel with O => fail FFuel | S fuel => scan_loop fuel queryKey count scanMode ids keys end in
      let next := λ keys, if enough count keys then mret keys else again rest keys in
      c ← getRedisClusterInfo id;
      match c with
      | None => again ids keys
      | Some c =>
          if isMaster c && isAlived c then
            let '(paraList, paraLen) := fillScanCommandPara (scanCursor c) queryKey COUNT scanMode in
            '(ok, r) ← on_world (node_scan (clusterHandler c) paraList paraLen RedisReplyInfo_new);
            if negb ok then
              keys ← scan_baks fuel queryKey count scanMode id (bakClusterList c) (freeReplyInfo r) keys;
              next keys
            else
              '(keys, retCursor) ← take_page id r keys;
              if enough count keys then mret keys
              else if negb (retCursor =? 0) then again ids keys
              else next keys
          else next keys
      end
  end.

(** [fuel] bounds the passes of the loops, which need not end. *)
Definition scanKeys (fuel : nat) (queryKey : list Z) (count : Z) (keys : list (list Z)) (scanMode : ScanMode) : MT (bool * list (list Z)) :=
  m ← getRedisClusters;
  keys ← scan_loop fuel queryKey count scanMode m.*1 keys;
  mret (negb (bool_decide (keys = [])), keys).

(** ** Locks *)

(** The switch over the type of the command; [false]: the caller returns false. *)
Definition parse_locked {A} `{!DBSerialize A} (h : Z) (r : RedisReplyInfo) (commandType : RedisCommandType) (lockInfo : RedisLockInfo)
    (serial : option A) : MT (bool * option A) :=
  let mode := CLUSTER_MODE in
  match commandType with
  | REDIS_COMMAND_GET =>
      s ← lift (deref serial);
      '(ok, s) ← lift (parseGetSerialReply mode r s);
      mret (ok, Some s)
  | REDIS_COMMAND_SET => mret (parseSetSerialReply mode r, serial)
  | REDIS_COMMAND_WATCH | REDIS_COMMAND_MULTI => mret (parseStatusResponseReply mode r, serial)
  | REDIS_COMMAND_UNWATCH =>
      if negb (parseStatusResponseReply mode r) then mret (false, serial) else
      (if bool_decide (resultString r = lit "OK") then mret tt else on_world (node_freeConnection h (connection lockInfo)));;
      mret (true, serial)
  | REDIS_COMMAND_EXEC => b ← lift (parseExecReply_redirect r); mret (b, serial)
  | _ => mret (true, serial)
  end.

(** From the label [REDIS_COMMAND] on: the reply and the list of stand-ins are new in every pass. *)
Fixpoint lock_route {A} `{!DBSerialize A} (fuel : nat) (commandLen : Z) (commandList : list RedisCmdParaInfo) (commandType : RedisCommandType)
    (release : bool) (id : list Z) (redirects : list (list Z)) (lockInfo : RedisLockInfo) (serial : option A) : MT (bool * RedisLockInfo * option A) :=
  let again := λ id redirects lockInfo serial,
    match fuel with O => fail FFuel | S fuel => lock_route fuel commandLen commandList commandType release id redirects lockInfo serial end in
  let done := λ id lockInfo serial,
    mret (true, mkLock (if bool_decide (lock_clusterId lockInfo = []) then id else lock_clusterId lockInfo) (connection lockInfo), serial) in
  c ← getRedisClusterInfo id;
  match c with
  | None => mret (false, lockInfo, serial)
  | Some c =>
      '(ok, r, conn) ← on_world (node_conn (clusterHandler c) commandList commandLen RedisReplyInfo_new release (connection lockInfo));
      let lockInfo := mkLock (lock_clusterId lockInfo) conn in
      let locked := negb (bool_decide (lock_clusterId lockInfo = [])) in
      if negb ok && locked then mret (false, lockInfo, serial) else
      match (if (ok : bool) then None else head (bakClusterList c)) with
      | Some bak => again bak redirects lockInfo serial
      | None =>
          let r := if (ok : bool) then r else freeReplyInfo r in
          '(ok, serial) ← parse_locked (clusterHandler c) r commandType lockInfo serial;
          if negb ok then mret (false, lockInfo, serial) else
          match redirection r with
          | None => done id lockInfo serial
          | Some redirectInfo =>
              if locked then mret (false, lockInfo, serial) else
              if bool_decide (redirectInfo ∈ redirects) then done redirectInfo lockInfo serial
              else again redirectInfo (redirects ++ [redirectInfo]) lockInfo serial
          end
      end
  end.

Definition doRedisCommandWithLock {A} `{!DBSerialize A} (fuel : nat) (key : list Z) (commandLen : Z) (commandList : list RedisCmdParaInfo)
    (commandType : RedisCommandType) (lockInfo : RedisLockInfo) (serial : option A) : MT (bool * RedisLockInfo * option A) :=
  id ← (if bool_decide (lock_clusterId lockInfo = []) then getClusterIdBySlot (crc16 key mod REDIS_SLOT_NUM) else mret (Some (lock_clusterId lockInfo)));
  match id with
  | None => mret (false, lockInfo, serial)
  | Some id =>
      let release := match commandType with REDIS_COMMAND_EXEC | REDIS_COMMAND_UNWATCH => true | _ => false end in
      lock_route fuel commandLen commandList commandType release id [] lockInfo serial
  end.

Section locks.
Context {A : Type} `{!DBSerialize A} (new_ok : Z → bool) (fuel : nat).

Definition unwatch (key : list Z) (lockInfo : RedisLockInfo) : MT RedisLockInfo :=
  '(_, lockInfo, _) ← doRedisCommandWithLock fuel key 20 (command [lit "unwatch"]) REDIS_COMMAND_UNWATCH lockInfo (None : option A);
  mret lockInfo.

Definition getSerialWithLock (key : list Z) (serial : A) (lockInfo : RedisLockInfo) : MT (bool * RedisLockInfo * A) :=
  '(success, lockInfo, _) ← doRedisCommandWithLock fuel key (s32 (18 + (len key + 20))) (command [lit "watch"; key]) REDIS_COMMAND_WATCH lockInfo (None : option A);
  if negb success then mret (false, lockInfo, serial) else
  '(success, lockInfo, s) ← doRedisCommandWithLock fuel key (s32 (15 + (len key + 20))) (command [lit "get"; key]) REDIS_COMMAND_GET lockInfo (Some serial);
  let serial := default serial s in
  if (success : bool) then mret (true, lockInfo, serial) else
  lockInfo ← unwatch key lockInfo;
  mret (false, lockInfo, serial).

Definition setSerialWithLock (key : list Z) (serial : A) (lockInfo : RedisLockInfo) : MT (bool * RedisLockInfo) :=
  '(success, lockInfo, _) ← doRedisCommandWithLock fuel key 18 (command [lit "multi"]) REDIS_COMMAND_MULTI lockInfo (None : option A);
  if negb success then lockInfo ← unwatch key lockInfo; mret (false, lockInfo) else
  o ← lift (DBOutStream_new new_ok);
  '(_, o) ← lift (ser_save new_ok serial o);
  let value := take (Z.to_nat (getSize o)) (o_data o) in
  '(success, lockInfo, _) ← doRedisCommandWithLock fuel key (s32 (15 + (len key + 20) + (len value + 20))) (command [lit "set"; key; value])
                              REDIS_COMMAND_SET lockInfo (None : option A);
  if negb success then lockInfo ← unwatch key lockInfo; mret (false, lockInfo) else
  '(success, lockInfo, _) ← doRedisCommandWithLock fuel key 18 (command [lit "exec"]) REDIS_COMMAND_EXEC lockInfo (None : option A);
  mret (success, lockInfo).

Definition releaseLock (key : list Z) (lockInfo : RedisLockInfo) : MT (bool * RedisLockInfo) :=
  if bool_decide (lock_clusterId lockInfo = []) then mret (false, lockInfo) else
  lockInfo ← unwatch key lockInfo; mret (true, lockInfo).
End locks.

(** ** The end *)

Fixpoint free_clusters (l : CLUSTER_MAP) : MT unit :=
  match l with
  | [] => mret tt
  | (_, c) :: l => (if clusterHandler c =? 0 then mret tt else on_world (node_free (clusterHandler c)));; free_clusters l
  end.

(** The thread is cancelled too. *)
Definition freeRedisCluster : MT bool := m ← getRedisClusters; free_clusters m;; modify (λ t, set_clusterMap t []);; mret true.
End keys.
End GbClusterKeys.

Module GbClusterKeysProps.
Import GbStream GbResp GbClient GbCluster GbClusterFacts GbClusterProps GbClusterKeys.

Section props.
Context {W : Type} `{!Nodes W, !NodeConns W}.
Implicit Types (t : tables (W := W)).
#[local] Set Default Proof Using "Type".

(** ** SCAN *)

(** A page of a scan. *)
Definition scan_reply (next : Z) (ks : list (list Z)) : RedisReplyInfo :=
  mkReply REDIS_REPLY_ARRAY [] next ((λ k, mkInfo REDIS_REPLY_STRING (Some k) (len k)) <$> ks).

Lemma scan_reply_elements ks : Forall (λ k, 0 ∉ k) ks → string_elements ((λ k, mkInfo REDIS_REPLY_STRING (Some k) (len k)) <$> ks) = Ok ks.
Proof.
  induction 1 as [|k ks Hk _ IH]; [done|]. cbn [fmap list_fmap string_elements ai_type arrayValue]. rewrite bool_decide_eq_true_2 by done.
  cbn [deref mbind result_bind]. rewrite IH. cbn [mbind result_bind]. by rewrite c_str_text.
Qed.

(** The pages that the nodes serve, by address: with each, the cursor that asks for it. *)
Context (pages : list Z → list (Z * list (list Z))).

Definition scanned (c : RedisClusterInfo) : bool := isMaster c && isAlived c.

(** The cursor that the reply with page [i] carries: that of the page behind it, or 0. *)
Definition next_cursor (id : list Z) (i : nat) : Z := default 0 (fst <$> pages id !! S i).

(** The cursors are what the node likes, but for the first, which is 0, and those that follow fit the
    client's [int]. *)
Record serves (queryKey : list Z) (m : CLUSTER_MAP) : Prop := {
  sv_page id c i cur ks w : oget id m = Some c → scanned c = true → pages id !! i = Some (cur, ks) →
    ∃ w', node_scan (clusterHandler c) (fillScanCommandPara cur queryKey COUNT SCAN_LOOP).1 (fillScanCommandPara cur queryKey COUNT SCAN_LOOP).2
      RedisReplyInfo_new w = Ok (true, scan_reply (next_cursor id i) ks, w');
  sv_first id c : oget id m = Some c → scanned c = true → ∃ ks, pages id !! 0%nat = Some (0, ks);
  sv_next id i cur ks : pages id !! S i = Some (cur, ks) → 0 < cur < 2 ^ 31;
  sv_keys id p : p ∈ pages id → Forall (λ k, 0 ∉ k) p.2;
  sv_start id c : oget id m = Some c → scanCursor c = 0;
}.

(** The keys of the nodes that are scanned. *)
Definition all_keys (m : CLUSTER_MAP) (ids : list (list Z)) : list (list Z) :=
  ids ≫= λ id, match oget id m with Some c => if scanned c then concat (pages id).*2 else [] | None => [] end.

(** Only the cursor of [id] has moved, to [i]. *)
Definition cursor_at (m : CLUSTER_MAP) (id : list Z) (i : Z) (t : tables (W := W)) : Prop :=
  ∀ a, oget a (m_clusterMap t) = (if decide (a = id) then set_cursor i else λ c, c) <$> oget a m.

Lemma take_page_ok id c m i ks next keys t :
  oget id m = Some c → cursor_at m id i t → 0 ≤ next → Forall (λ k, 0 ∉ k) ks →
  ∃ t', take_page id (scan_reply next ks) keys t = Ok ((keys ++ ks, next), t') ∧ cursor_at m id next t'.
Proof.
  intros Hc Ht Hn Hk. unfold take_page, parseScanKeysReply. cbn [scan_reply replyType arrayList intValue].
  rewrite bool_decide_eq_true_2 by done. cbn [negb]. rewrite scan_reply_elements by done.
  rewrite (bind_lift _ _ _ (true, keys ++ ks, next)) by done. cbn iota.
  unfold updateClusterCursor. rewrite (proj2 (Z.ltb_ge _ _)) by done.
  assert (oget id (m_clusterMap t) = Some (set_cursor i c)) as Eo by (rewrite (Ht id), Hc; by rewrite decide_True).
  eexists. split; [unfold getRedisClusterInfo; munfold; by rewrite Eo|]. intros a. simpl. rewrite oget_oset.
  destruct (decide (a = id)) as [->|Ha]; [by rewrite Hc|]. rewrite (Ht a). by rewrite decide_False.
Qed.

Lemma enough_false count keys : Z.of_nat (length keys) < count → enough count keys = false.
Proof. intros H. unfold enough. by apply Z.leb_gt. Qed.

(** One page of a node. *)
Lemma scan_page q count m id c i cur ks fuel rest keys t :
  serves q m → oget id m = Some c → scanned c = true → pages id !! i = Some (cur, ks) → cursor_at m id cur t →
  Z.of_nat (length (keys ++ ks)) < count →
  ∃ t', scan_loop (S fuel) q count SCAN_LOOP (id :: rest) keys t =
      scan_loop fuel q count SCAN_LOOP (if decide (is_Some (pages id !! S i)) then id :: rest else rest) (keys ++ ks) t' ∧
    cursor_at m id (next_cursor id i) t'.
Proof.
  intros Hv Hc Hs Hp Ht Hcount. pose proof (sv_keys _ _ Hv id (cur, ks) ltac:(by eapply list_elem_of_lookup_2)) as Hk.
  assert (oget id (m_clusterMap t) = Some (set_cursor cur c)) as Eo by (rewrite (Ht id), Hc; by rewrite decide_True).
  destruct (sv_page _ _ Hv id c i cur ks (world t) Hc Hs Hp) as (w & Ew).
  destruct (fillScanCommandPara cur q COUNT SCAN_LOOP) as [pl n] eqn:Ef. cbn [fst snd] in Ew.
  assert (0 ≤ next_cursor id i ∧ (next_cursor id i =? 0) = negb (bool_decide (is_Some (pages id !! S i)))) as [Hn He].
  { unfold next_cursor. destruct (pages id !! S i) as [[cur' ks']|] eqn:E; [|done]. pose proof (sv_next _ _ Hv _ _ _ _ E). simpl. split; [lia|].
    by apply Z.eqb_neq; lia. }
  destruct (take_page_ok id c m cur ks (next_cursor id i) keys (set_world t w) Hc Ht Hn Hk) as (t' & Et & Ht').
  exists t'. split; [|done]. cbn [scan_loop].
  rewrite (bind_ok _ _ _ (Some (set_cursor cur c)) t) by (unfold getRedisClusterInfo; rewrite bind_get; by rewrite Eo).
  change (isMaster (set_cursor cur c) && isAlived (set_cursor cur c)) with (scanned c). rewrite Hs.
  change (scanCursor (set_cursor cur c)) with cur. rewrite Ef. cbv beta iota zeta.
  rewrite (bind_ok _ _ _ _ _ (on_world_ok _ _ _ _ Ew)). cbn [negb]. rewrite (bind_ok _ _ _ _ _ Et).
  cbv beta iota. rewrite enough_false by done. rewrite He, negb_involutive. by case_bool_decide; case_decide.
Qed.

(** A node from page [i] on. *)
Lemma scan_node q count m id c i cur fuel rest keys t :
  serves q m → oget id m = Some c → scanned c = true → (fst <$> pages id !! i) = Some cur → cursor_at m id cur t →
  Z.of_nat (length (keys ++ concat (drop i (pages id)).*2)) < count →
  ∃ t', scan_loop (length (drop i (pages id)) + fuel) q count SCAN_LOOP (id :: rest) keys t =
      scan_loop fuel q count SCAN_LOOP rest (keys ++ concat (drop i (pages id)).*2) t' ∧
    cursor_at m id 0 t'.
Proof.
  intros Hv Hc Hs. remember (length (pages id) - i)%nat as d eqn:Ed. revert i cur keys t Ed. induction d as [|d IH]; intros i cur keys t Ed Hi Ht Hcount;
    (destruct (pages id !! i) as [[cu ks]|] eqn:Hp; [|done]); cbn [fmap option_fmap option_map fst] in Hi; injection Hi as ->;
    pose proof (lookup_lt_Some _ _ _ Hp) as Hlt; [lia|].
  rewrite (drop_S _ _ _ Hp) in *. cbn [fmap list_fmap snd concat length Nat.add] in *.
  rewrite app_assoc in *. destruct (scan_page q count m id c i cur ks (length (drop (S i) (pages id)) + fuel) rest keys t Hv Hc Hs Hp Ht) as (t1 & E & Ht1);
    [rewrite !length_app in *; lia|]. rewrite E. unfold next_cursor in Ht1. case_decide as Hd.
  - destruct Hd as [[cur' ks'] Hd]. rewrite Hd in Ht1. destruct (IH (S i) cur' (keys ++ ks) t1) as (t2 & E2 & Ht2); [lia|by rewrite Hd|done|done|].
    rewrite E2. by exists t2.
  - apply eq_None_not_Some in Hd. rewrite Hd in Ht1. apply lookup_ge_None in Hd. exists t1. rewrite drop_ge by lia.
    cbn [fmap list_fmap concat length Nat.add]. by rewrite app_nil_r.
Qed.

(** The nodes one after the other. *)
Lemma scan_nodes q count m ids keys :
  serves q m → Z.of_nat (length (keys ++ all_keys m ids)) < count → Forall (λ id, is_Some (oget id m)) ids →
  ∃ n, ∀ fuel t, (n ≤ fuel)%nat → (∀ a, oget a (m_clusterMap t) = oget a m) →
    ∃ t', scan_loop fuel q count SCAN_LOOP ids keys t = Ok (keys ++ all_keys m ids, t').
Proof.
  intros Hv Hcount Hids. revert keys Hcount. induction Hids as [|id ids [c Hc] _ IH]; intros keys Hcount.
  { exists 0%nat. intros fuel t _ _. exists t. destruct fuel; cbn [scan_loop all_keys mbind list_bind]; by rewrite app_nil_r. }
  unfold all_keys in Hcount. cbn [mbind list_bind] in Hcount. fold (all_keys m ids) in Hcount. rewrite Hc in Hcount. rewrite app_assoc in Hcount.
  unfold all_keys. cbn [mbind list_bind]. fold (all_keys m ids). rewrite Hc, app_assoc.
  assert (set_cursor 0 c = c) as Ec by (pose proof (sv_start _ _ Hv id c Hc) as E0; destruct c; simpl in *; by rewrite E0).
  assert (∀ t, cursor_at m id 0 t ↔ ∀ a, oget a (m_clusterMap t) = oget a m) as Hcur.
  { intros t. split; intros H a; rewrite (H a); case_decide as Ha; try (subst a; rewrite Hc; simpl; by rewrite Ec); by destruct (oget a m). }
  destruct (scanned c) eqn:Hs.
  - destruct (IH _ Hcount) as (n & Hn). exists (length (pages id) + n)%nat. intros fuel t Hf Ht.
    destruct (scan_node q count m id c 0 0 (fuel - length (pages id)) ids keys t Hv Hc Hs) as (t1 & E & Ht1).
    + by destruct (sv_first _ _ Hv id c Hc Hs) as [ks ->].
    + by apply Hcur.
    + rewrite drop_0. rewrite length_app in Hcount. lia.
    + rewrite drop_0 in E. replace (length (pages id) + (fuel - length (pages id)))%nat with fuel in E by lia. rewrite E.
      apply Hn; [lia|by apply Hcur].
  - rewrite app_nil_r in *. destruct (IH _ Hcount) as (n & Hn). exists (S n). intros fuel t Hf Ht. destruct fuel as [|fuel]; [lia|]. cbn [scan_loop].
    rewrite (bind_ok _ _ _ (Some c) t) by (unfold getRedisClusterInfo; rewrite bind_get; by rewrite (Ht id), Hc).
    change (isMaster c && isAlived c) with (scanned c). rewrite Hs.
    rewrite enough_false by (rewrite length_app in Hcount; lia). apply Hn; [lia|done].
Qed.

(** C31. A scan in loop mode, from cursor 0, over nodes that answer with pages chained by any cursors
    from 1 to 2^31 - 1 until 0: when it asks for more keys than the pages hold it returns, and gives all
    pages of every master that is alive, in order. *)
Theorem cluster_scan_complete q count t :
  serves q (m_clusterMap t) → Z.of_nat (length (all_keys (m_clusterMap t) (m_clusterMap t).*1)) < count →
  ∃ n, ∀ fuel, (n ≤ fuel)%nat → ∃ t', scanKeys fuel q count [] SCAN_LOOP t =
    Ok ((negb (bool_decide (all_keys (m_clusterMap t) (m_clusterMap t).*1 = [])), all_keys (m_clusterMap t) (m_clusterMap t).*1), t').
Proof.
  intros Hv Hcount. destruct (scan_nodes q count (m_clusterMap t) (m_clusterMap t).*1 [] Hv Hcount) as (n & Hn).
  { apply Forall_forall. intros id Hid. by apply oget_key. }
  exists n. intros fuel Hf. destruct (Hn fuel t Hf) as (t' & E); [done|]. exists t'. unfold scanKeys.
  rewrite (bind_ok _ _ _ (m_clusterMap t) t) by done. by rewrite (bind_ok _ _ _ _ _ E).
Qed.

(** A stand-in that answers with an empty page. *)
Lemma scan_baks_spins q count mode id a b rest fuel r keys t :
  oget b (m_clusterMap t) = Some a → b ≠ id → Z.of_nat (length keys) < count →
  (∀ pl n r w, ∃ w', node_scan (clusterHandler a) pl n r w = Ok (true, scan_reply 0 [], w')) →
  scan_baks fuel q count mode id (b :: rest) r keys t = Err FFuel.
Proof.
  intros Hb Hne Hcount Hs. revert r t Hb. induction fuel as [|fuel IH]; intros r t Hb; cbn [scan_baks];
    (rewrite (bind_ok _ _ _ (Some a) t) by (unfold getRedisClusterInfo; rewrite bind_get; by rewrite Hb));
    destruct (fillScanCommandPara (scanCursor a) q COUNT mode) as [pl n]; destruct (Hs pl n r (world t)) as [w Ew];
    cbv beta iota zeta; rewrite (bind_ok _ _ _ _ _ (on_world_ok _ _ _ _ Ew)); cbn [negb];
    (assert (∃ t', take_page id (scan_reply 0 []) keys (set_world t w) = Ok ((keys, 0), t') ∧ oget b (m_clusterMap t') = Some a) as (t' & Et & Hb');
     [|rewrite (bind_ok _ _ _ _ _ Et); cbv beta iota; rewrite enough_false by done; [done || by apply IH]]).
  all: unfold take_page, parseScanKeysReply, scan_reply; simpl; rewrite app_nil_r; rewrite (bind_lift _ _ _ (true, keys, 0)) by done; cbn iota;
    unfold updateClusterCursor, getRedisClusterInfo; munfold; simpl; destruct (oget id (m_clusterMap t)) as [c|]; eexists; split; [done| |done|];
    simpl; rewrite ?oget_oset, ?decide_False by done; done.
Qed.

(** A scan of a node that does not answer never comes back when its first stand-in has no keys
    to give: the loop over stand-ins does not advance behind one that answers. *)
Theorem cluster_scan_standin_spins q count mode t id c ids b more a :
  m_clusterMap t = (id, c) :: ids → scanned c = true → 0 < count → bakClusterList c = b :: more → b ≠ id → oget b (m_clusterMap t) = Some a →
  (∀ pl n r w, ∃ r', node_scan (clusterHandler c) pl n r w = Ok (false, r', w)) →
  (∀ pl n r w, ∃ w', node_scan (clusterHandler a) pl n r w = Ok (true, scan_reply 0 [], w')) →
  ∀ fuel, scanKeys fuel q count [] mode t = Err FFuel.
Proof.
  intros Em Hs Hcount Eb Hne Ha Hf Hsp fuel. unfold scanKeys. rewrite (bind_ok _ _ _ (m_clusterMap t) t) by done.
  assert (scan_loop fuel q count mode (m_clusterMap t).*1 [] t = Err FFuel) as E; [|munfold; by rewrite E].
  assert (oget id (m_clusterMap t) = Some c) as Ho by (rewrite Em; simpl; by rewrite decide_True).
  rewrite Em. cbn [fmap list_fmap fst]. 
  destruct (fillScanCommandPara (scanCursor c) q COUNT mode) as [pl n] eqn:Ef. destruct (Hf pl n RedisReplyInfo_new (world t)) as [r' Er].
  destruct fuel; cbn [scan_loop]; (rewrite (bind_ok _ _ _ (Some c) t) by (unfold getRedisClusterInfo; rewrite bind_get; by rewrite Ho));
    change (isMaster c && isAlived c) with (scanned c); rewrite Hs, Ef; cbv beta iota zeta;
    rewrite (bind_ok _ _ _ _ _ (on_world_ok _ _ _ _ Er)); cbn [negb]; rewrite Eb; unfold mbind, M_bind;
    by rewrite (scan_baks_spins q count mode id a b).
Qed.
End props.

(** ** Locks *)

Section locks.
Context {W : Type} `{!Nodes W, !NodeConns W} {A : Type} `{!DBSerialize A}.
Implicit Types (t : tables (W := W)) (s : option A).
#[local] Set Default Proof Using "Type".

Definition status (text : list Z) : RedisReplyInfo := mkReply REDIS_REPLY_STATUS text 0 [].

(** One pass over a connection that answers. *)
Lemma lock_route_pass fuel n cmd ty rel id reds lk s t c r conn w ok s' :
  oget id (m_clusterMap t) = Some c →
  node_conn (clusterHandler c) cmd n RedisReplyInfo_new rel (connection lk) (world t) = Ok (true, r, conn, w) →
  parse_locked (clusterHandler c) r ty (mkLock (lock_clusterId lk) conn) s (set_world t w) = Ok ((ok, s'), set_world t w) →
  lock_route (S fuel) n cmd ty rel id reds lk s t =
    let lk' := mkLock (lock_clusterId lk) conn in
    let end_ := λ id, Ok ((true, mkLock (if bool_decide (lock_clusterId lk = []) then id else lock_clusterId lk) conn, s'), set_world t w) in
    if negb ok then Ok ((false, lk', s'), set_world t w) else
    match redirection r with
    | None => end_ id
    | Some a =>
        if negb (bool_decide (lock_clusterId lk = [])) then Ok ((false, lk', s'), set_world t w) else
        if bool_decide (a ∈ reds) then end_ a else lock_route fuel n cmd ty rel a (reds ++ [a]) lk' s' (set_world t w)
    end.
Proof.
  intros Hc Hn Hp. cbn [lock_route]. rewrite (bind_ok _ _ _ (Some c) t) by (unfold getRedisClusterInfo; rewrite bind_get; by rewrite Hc).
  rewrite (bind_ok _ _ _ _ _ (on_world_ok _ _ _ _ Hn)). cbv beta iota zeta. cbn [negb andb lock_clusterId].
  rewrite (bind_ok _ _ _ _ _ Hp). cbv beta iota. destruct ok; [|done]. cbn [negb].
  destruct (redirection r) as [a|]; [|done]. destruct (bool_decide (lock_clusterId lk = [])); [|done]. cbn [negb]. by case_bool_decide.
Qed.

(** A command under a lock whose node has answered before. *)
Lemma locked_command fuel key n cmd ty rel a k s t c r w ok s' :
  a ≠ [] → rel = match ty with REDIS_COMMAND_EXEC | REDIS_COMMAND_UNWATCH => true | _ => false end →
  oget a (m_clusterMap t) = Some c →
  node_conn (clusterHandler c) cmd n RedisReplyInfo_new rel (Some k) (world t) = Ok (true, r, Some k, w) →
  parse_locked (clusterHandler c) r ty (mkLock a (Some k)) s (set_world t w) = Ok ((ok, s'), set_world t w) →
  doRedisCommandWithLock (S fuel) key n cmd ty (mkLock a (Some k)) s t =
    Ok ((ok && bool_decide (redirection r = None), mkLock a (Some k), s'), set_world t w).
Proof.
  intros Ha -> Hc Hn Hp. unfold doRedisCommandWithLock. cbn [lock_clusterId]. rewrite bool_decide_eq_false_2 by done.
  match goal with |- (mret ?x ≫= ?g) ?u = _ => change ((mret x ≫= g) u) with (g x u); cbv beta iota end.
  erewrite lock_route_pass by done. cbv zeta. cbn [lock_clusterId]. rewrite bool_decide_eq_false_2 by done.
  destruct ok; [|done]. cbn [negb andb]. by destruct (redirection r).
Qed.

(** C40. With an out-of-date slot table a key cannot be locked: the redirection is followed over
    the connection to the node it came from, WATCH is taken to have succeeded when it is repeated,
    GET is redirected again and the call fails; the slot table stays and nothing asks for a
    round of the checking thread, so the next call fails in the same way. *)
Theorem cluster_lock_stale_fails fuel key (serial : A) t a0 c0 a1 c1 k w1 :
  let slot := crc16 key mod REDIS_SLOT_NUM in
  m_slotMap t !! slot = Some a0 → oget a0 (m_clusterMap t) = Some c0 → oget a1 (m_clusterMap t) = Some c1 → 32 ∉ a1 → a1 ≠ [] →
  node_conn (clusterHandler c0) (command [lit "watch"; key]) (s32 (18 + (len key + 20))) RedisReplyInfo_new false None (world t) = Ok (true, moved slot a1, Some k, w1) →
  (∀ h w, node_conn h (command [lit "watch"; key]) (s32 (18 + (len key + 20))) RedisReplyInfo_new false (Some k) w = Ok (true, moved slot a1, Some k, w)) →
  (∀ h w, node_conn h (command [lit "get"; key]) (s32 (15 + (len key + 20))) RedisReplyInfo_new false (Some k) w = Ok (true, moved slot a1, Some k, w)) →
  (∀ h w, node_conn h (command [lit "unwatch"]) 20 RedisReplyInfo_new true (Some k) w = Ok (true, status (lit "OK"), Some k, w)) →
  getSerialWithLock (S (S fuel)) key serial RedisLockInfo_new t = Ok ((false, mkLock a1 (Some k), serial), set_world t w1).
Proof.
  intros slot Hs H0 H1 Ha Hne Hn Hw Hg Hu. set (t1 := set_world t w1).
  assert (is_redirect CLUSTER_MODE (moved slot a1) = true) as Er by (unfold is_redirect; rewrite moved_redirect by done; by apply bool_decide_eq_true_2).
  assert (parseStatusResponseReply CLUSTER_MODE (moved slot a1) = true) as Ers by (unfold parseStatusResponseReply; by rewrite Er).
  assert (doRedisCommandWithLock (S (S fuel)) key (s32 (18 + (len key + 20))) (command [lit "watch"; key]) REDIS_COMMAND_WATCH RedisLockInfo_new (None : option A) t
            = Ok ((true, mkLock a1 (Some k), None), t1)) as E1.
  { unfold doRedisCommandWithLock. cbn [lock_clusterId RedisLockInfo_new]. rewrite bool_decide_eq_true_2 by done.
    rewrite (bind_ok _ _ _ (Some a0) t) by (unfold getClusterIdBySlot; rewrite bind_get; fold slot; by rewrite Hs). cbv beta iota zeta.
    erewrite (lock_route_pass _ _ _ _ _ a0) by done.
    cbn [negb]. rewrite moved_redirection by done. cbn [lock_clusterId RedisLockInfo_new]. rewrite bool_decide_eq_true_2 by done. cbn [negb].
    rewrite bool_decide_eq_false_2 by apply not_elem_of_nil.
    erewrite (lock_route_pass _ _ _ _ _ a1) by done.
    cbn [negb]. rewrite moved_redirection by done. cbn [lock_clusterId]. rewrite bool_decide_eq_true_2 by done. cbn [negb].
    rewrite bool_decide_eq_true_2 by (simpl; by apply list_elem_of_singleton). by rewrite Ers. }
  unfold getSerialWithLock. rewrite (bind_ok _ _ _ _ _ E1). cbv beta iota. cbn [negb].
  assert (doRedisCommandWithLock (S (S fuel)) key (s32 (15 + (len key + 20))) (command [lit "get"; key]) REDIS_COMMAND_GET (mkLock a1 (Some k)) (Some serial) t1
            = Ok ((false, mkLock a1 (Some k), Some serial), t1)) as E2.
  { erewrite (locked_command _ _ _ _ _ false a1 k (Some serial) t1 c1 (moved slot a1) w1 true (Some serial)) by
      (try done; cbn [parse_locked deref]; munfold; unfold parseGetSerialReply; by rewrite Er).
    rewrite moved_redirection by done. by rewrite bool_decide_eq_false_2. }
  rewrite (bind_ok _ _ _ _ _ E2). cbv beta iota zeta. unfold unwatch.
  assert (doRedisCommandWithLock (S (S fuel)) key 20 (command [lit "unwatch"]) REDIS_COMMAND_UNWATCH (mkLock a1 (Some k)) (None : option A) t1
            = Ok ((true, mkLock a1 (Some k), None), t1)) as E3.
  { erewrite (locked_command _ _ _ _ _ true a1 k None t1 c1 (status (lit "OK")) w1 true None) by done. done. }
  unfold mbind, M_bind. by rewrite E3.
Qed.
End locks.

(** ** Nodes to run them on *)

(** The page that a cursor asks for, and the cursor of the page behind it. *)
Fixpoint page_at (cur : Z) (l : list (Z * list (list Z))) : option (Z * list (list Z)) :=
  match l with
  | [] => None
  | (c, ks) :: l => if c =? cur then Some (default 0 (fst <$> head l), ks) else page_at cur l
  end.

(** The nodes serve the pages [pg]; connection 7 leads to a node that redirects to [who]. *)
Definition toy_conns (pg : Z → list (Z * list (list Z))) (slot : Z) (who : list Z) : NodeConns unit := {|
  node_conn := λ h cmd n r rel conn w,
    Ok (true, if bool_decide ((paraValue <$> cmd) = [lit "unwatch" ++ [0]]) then status (lit "OK") else moved slot who, Some (default 7 conn), w);
  node_freeConnection := λ h conn w, Ok (tt, w);
  node_scan := λ h cmd n r w,
    match page_at (match cmd !! 1%nat with Some p => scan_digits 0 (paraValue p) | None => 0 end) (pg h) with
    | Some (next, ks) => Ok (true, scan_reply next ks, w)
    | None => Ok (false, r, w)
    end;
|}.

Definition demo_pages (a : list Z) : list (Z * list (list Z)) :=
  if decide (a = n_address demo_a) then [(0, [lit "k1"; lit "k2"]); (1984, [lit "k3"]); (96, [lit "k1"])]
  else if decide (a = n_address demo_b) then [(0, [lit "k4"])] else [].
Definition pages_at (h : Z) : list (Z * list (list Z)) :=
  if decide (h = number (n_address demo_a)) then demo_pages (n_address demo_a) else if decide (h = number (n_address demo_b)) then demo_pages (n_address demo_b) else [].

#[local] Instance demo_nodes : Nodes unit := toy_nodes demo [] [] 0 [].
#[local] Instance demo_conns : NodeConns unit := toy_conns pages_at 7629 (n_address demo_b).

Definition three : tables (W := unit) := mkTables [entry demo_a; entry demo_b; entry demo_c] {[7629 := n_address demo_a]} [] false tt.

Lemma three_entry id c : oget id (m_clusterMap three) = Some c →
  (id, c) = entry demo_a ∨ (id, c) = entry demo_b ∨ (id, c) = entry demo_c.
Proof. intros H%oget_in. unfold three in H. cbn [m_clusterMap] in H. rewrite !elem_of_cons, elem_of_nil in H. tauto. Qed.

Lemma three_serves : serves demo_pages (lit "k") (m_clusterMap three).
Proof.
  split.
  - intros id c i cur ks w [E|[E|E]]%three_entry Hs Hp; injection E as -> ->; [| |by vm_compute in Hs].
    + destruct i as [|[|[|i]]]; [| | |by vm_compute in Hp]; injection Hp as <- <-; exists w; vm_compute; reflexivity.
    + destruct i as [|i]; [|by vm_compute in Hp]; injection Hp as <- <-; exists w; vm_compute; reflexivity.
  - intros id c [E|[E|E]]%three_entry Hs; injection E as -> ->; [by eexists|by eexists|by vm_compute in Hs].
  - intros id i cur ks Hi. unfold demo_pages in Hi. repeat case_decide; [destruct i as [|[|i]]|destruct i|]; simplify_eq/=; lia.
  - intros id p Hp. unfold demo_pages in Hp. apply (bool_decide_unpack _).
    repeat case_decide; rewrite ?elem_of_cons, ?elem_of_nil in Hp; repeat destruct Hp as [->|Hp]; try done; vm_compute; exact I.
  - intros id c [E|[E|E]]%three_entry; injection E as -> ->; reflexivity.
Qed.

(** Three pages with cursors of the node's choice, the last of which repeats a key. *)
Lemma cluster_scan_complete_witness :
  ∃ n, ∀ fuel, (n ≤ fuel)%nat → ∃ t', scanKeys fuel (lit "k") 100 [] SCAN_LOOP three = Ok ((true, [lit "k1"; lit "k2"; lit "k3"; lit "k1"; lit "k4"]), t').
Proof. refine (cluster_scan_complete demo_pages (lit "k") 100 three three_serves _). vm_compute. reflexivity. Defined.

Lemma cluster_lock_stale_fails_witness :
  getSerialWithLock 2 (lit "k") (mkDevice [] [] 0 0) RedisLockInfo_new three = Ok ((false, mkLock (n_address demo_b) (Some 7), mkDevice [] [] 0 0), three).
Proof.
  refine (cluster_lock_stale_fails 0 (lit "k") (mkDevice [] [] 0 0) three (n_address demo_a) (entry demo_a).2 (n_address demo_b) (entry demo_b).2 7 tt _ _ _ _ _ _ _ _ _);
    [vm_compute; reflexivity|vm_compute; reflexivity|vm_compute; reflexivity|decided|discriminate|vm_compute; reflexivity| | |];
    intros h w; vm_compute; reflexivity.
Defined.
End GbClusterKeysProps.
